(* ===== verification/_CoqProject ===== *)
-Q . S2P
Prelude.v
Text.v
SizeClass.v
Lz4.v
Compress.v
Dll.v
TlsfMap.v
BlockHeap.v
Header.v
Tlsf.v
TlsfPool.v
TlsfCache.v
TlsfReset.v
Arena.v
ArenaRace.v
Ring.v
Slab.v
SlabCache.v
Reclaim.v
Config.v
PoolTree.v
Remote.v
Front.v
FrontSpec.v
FrontProps.v
FreeBatch.v
AllocBatch.v
Snapshot.v
Report.v
Inspect.v
Frame.v
Loc.v
Pressure.v
DiffReport.v
TreeDump.v
Routing.v
Numa.v
Cgroup.v
Backing.v
StaticPool.v
DestroySlabs.v
DestroyArenas.v
