(* ===== verification/Prelude.v ===== *)
(** * cmem: a verified model of a tiered memory manager

    cmem ([src/src/*.c], API in [src/include/cmem.h]) is a pool allocator.  A request
    enters [mp_alloc]; the front end admits it (dirty pool, circuit breaker, memory limit)
    and picks a tier by size: up to 512 bytes the slab tier, behind a thread cache and
    per-CPU lists; up to 4 MiB the TLSF tier, or a per-thread arena; above that the
    operating system.  It stamps a 152-byte header and a canary, keeps a list of live
    blocks and counters, and undoes all that in [mp_free].  Beside it stand compressed
    storage, a ring buffer with an event log, and typed object pools.

    ** Conventions

    Machine integers are [Z] with the wrap-around written out ([u8] .. [u64]); addresses
    are [Z], [NULL] is 0.  Memory the code shares is modelled as shared: finite maps from
    addresses to the words that matter (list links, block sizes, headers), or a function
    to bytes.  Code that can go wrong returns [outcome]: [Done], [Fault] (an access
    outside what exists, a failed assertion, a signed overflow; also a loop that uses up
    its fuel) or [Err] (an error the code reports).  A theorem that an operation is [Done]
    therefore says it terminates and touches only memory that is there.

    ** Files

    - [Prelude]: integers, bits, [outcome], slices, slot addresses.
    - [Text]: the conversions of printf, [snprintf] into a bounded buffer, and doubles
      (binary64, by the specification in [SpecFloat]).
    - [SizeClass] ([cmem_slab.c], [cmem_internal.h], [cmem_config.c]): the class tables and
      [mp_set_slab_classes].  The 513-entry table is the least class that fits; an accepted
      custom table is well formed; with one the lookup can leave the table.
    - [Lz4], [Compress] ([cmem_compress.c]): the codec ([cmem_lz4_compress],
      [cmem_lz4_decompress]) and the handle table on top.  Round trips, totality, safety on
      arbitrary input up to the length where the counters overflow; stored blocks are
      isolated and come back whole or not at all.
    - [Dll]: the doubly linked lists the tiers share ([next]/[prev] words in a map).
    - [TlsfMap], [BlockHeap], [Tlsf], [TlsfPool] ([cmem_tlsf.c]): the two-level index, the
      boundary-tag heap, allocation and release inside one region, and the tier with its
      list of regions, over an interface for the system.  Allocation refines "hand out a
      fresh block", release removes exactly one block and coalesces, growth in place is all
      or nothing.  All of it holds for two disciplines ([BlockHeap.Discipline]): the tight
      one, where the tags are exact and no two neighbours are free, and the loose one that
      remains when blocks are filed without coalescing.
    - [TlsfCache] ([cmem_alloc.c], [cmem_slab.c]): the thread cache of released medium-sized
      blocks, in the medium path of [mp_alloc_internal] and [mp_free], its flushes, and the
      race of a flush with a release by another thread.  Any sequence of operations keeps
      tier and cache consistent under the loose discipline.
    - [Arena] ([cmem_slab.c], [tlsf_arena_*]): one thread's arena with cross-thread frees;
      whole operations of any number of threads interleave, and no assertion fails.
      [ArenaRace] takes the operations apart, one access to a shared word at a time, without
      the debug assertions: the region is released at most once and is not forgotten; when
      the owner does not allocate while another thread has still to look at [retired], it
      goes only once nothing is out, and otherwise it can go too early
      ([stale_retired_releases_held]).
    - [Ring] ([cmem_ring_event.c]): ring buffer, event log, typed pool; sizes that do not
      fit 64 bits wrap as in the code ([ring_size_wraps]).
    - [Slab] ([cmem_slab.c]): pages, the three class lists, single and batch allocation,
      frees, the remote-free queue; over an interface [Mmap].  No slot is handed out twice
      in any reachable state; free inverts allocation; freeing remotely and harvesting
      equals freeing.
    - [SlabCache] ([cmem_slab.c], [cmem_alloc.c], [cmem.h]): the thread cache, the per-CPU
      lists, [slab_alloc_with_tls_refill], the inline fast paths, hot and cold pages.
    - [Remote] ([cmem_slab.c]): [remote_free_push], the harvests and [percpu_pop] as step
      machines, one shared access per step, sequentially consistent, for any number of
      threads and any schedule, over slots a slab page can hold; at any other address a
      harvest breaks off ([bad_slot_loses_queue]).
    - [TlsfReset], [Reclaim] ([cmem_lifecycle.c], [cmem_sys.c]): [mp_reset] on both tiers,
      [mp_compact], [mp_reclaim_idle_pages], [mp_purge_lazy].  A reset TLSF tier is a fresh
      one; giving pages back keeps live bytes mapped while the idle timeout is off, and not
      when it is on.
    - [Config] ([cmem_config.c]): CMEM_CONF and its reload, the latency histogram.
    - [PoolTree] ([cmem.c], [cmem_lifecycle.c], [cmem_multi_arena.c]): creation of pools and
      children, sub-arenas, the bindings of threads to them, [mp_destroy].  A thread that
      uses live pools and destroys roots never goes wrong ([tree_client_safe]);
      destruction takes exactly a subtree; what destroying a child on its own breaks.
    - [Header]: [mp_block_header_t] and the flags.
    - [Front] ([cmem_alloc.c], [cmem_guard.c], [cmem_lifecycle.c]): admission, tier choice,
      stamping, statistics, [mp_free], [mp_realloc], [mp_aligned_alloc], validation, quotas
      and the limit decision of [mp_alloc_batch], over the interface [Tiers].  [FrontSpec]
      holds the invariant [front_ok] and what allocation and release do to it, [FrontProps]
      the theorems and a toy instance of [Tiers].
    - [AllocBatch] ([cmem_alloc.c]): [mp_alloc_batch] over [BatchTiers].  The blocks are new,
      live and charged exactly once, no popped slot is lost, the limit holds.
    - [FreeBatch] ([cmem_alloc.c]): [mp_free_batch], equal to releasing one at a time in
      memory, headers, counters and extents; in health and events where the canaries are
      intact, which it does not look at.
    - [Snapshot] ([cmem_diag.c], [cmem.c], [tools/cmem-analyze/cmem-analyze-parser.c]): the
      snapshot writer over a pool of [Front], the tool's reader and both comparisons.  What
      is written is read back, arbitrary bytes are read safely and freed exactly, the two
      comparisons agree, and the top list hands out dead names.
    - [Report] ([cmem_diag.c]): leak report, audit, statistics, the JSON, Prometheus, HTML
      and histogram texts, and the library's snapshot reader, character by character.  What
      a buffer of any size holds afterwards; the audit is exact; a snapshot reads back to
      the report of the live blocks; where texts outgrow their buffers.
    - [Inspect] ([cmem_alloc.c]): the liveness check of FAST_PATH slots, which is exact,
      the list of the regions behind a pool, the metadata of one allocation.
    - [Frame] ([cmem_alloc.c]): frame arenas, over the interface [FramePools].  What a frame
      allocates lives one frame more.
    - [Loc] ([cmem_alloc.c], [cmem.c]): allocations with a source location, and
      [mp_strdup], [mp_memdup], [mp_asprintf]: a copy reads back as its source.
    - [Pressure] ([cmem_config.c], [cmem.c], [cmem_lifecycle.c]): the pressure ratio, the
      compaction trigger, and the watermark callbacks in runs of [Front]'s requests: high
      and low calls alternate, but the lock-free ways back for a small block make none.
    - [Routing] ([cmem_alloc.c], [cmem_slab.c]): the pool an allocation is passed on to, the
      owner of a thread's cache, and the pool a release finds from the header.  Over runs of
      any threads a block comes off the books it is on; blocks of the reserve do not.
    - [DiffReport] ([cmem.c]), [TreeDump] ([cmem_diag.c], [cmem_config.c]): the incremental
      leak report, the printed tree of pools, names.
    - [Cgroup] ([cmem_guard.c]): the container's limit, as it is read.
    - [Numa] ([cmem_sys.c]): the lists of sysfs and the topology probe.  Safe on any text;
      a list with its newline is never understood.
    - [Backing] ([cmem_sys.c], [cmem.c]): [sys_mem_alloc] and [sys_mem_free] over an address
      space of pages and heap blocks ([HostVm]), [mp_expand_pool], the initial arena,
      [mp_madvise].  Release inverts allocation when size and flags are the same; what
      happens when they are not.  [backing_sysmem] is the instance of [SysMem].
    - [StaticPool] ([cmem_config.c], [cmem_lifecycle.c]): a pool in the caller's buffer never
      asks the system for memory and stays in the buffer; shared-memory pools, created,
      opened again and destroyed.
    - [DestroySlabs], [DestroyArenas] ([cmem_lifecycle.c], [cmem_slab.c]): what [mp_destroy]
      gives back.  Every slab page goes once, and one call is made for every region and no
      other; the system may refuse a region on huge pages.  A compressed area whose block
      sits in the thread cache is left behind.

    ** How the parts meet

    A part is proved against an interface of what it calls: [Compress] against [PoolHost],
    [TlsfPool] against [SysMem] (which [Backing] implements over [HostVm]), [DestroyArenas]
    against [SysFree] beside it, [Slab] against [Mmap], [Front] against [Tiers].  [Tiers]
    states of the tiers what [Slab], [SlabCache] and [TlsfPool] prove of them: a block
    handed out overlaps nothing that is handed out, and a release gives back its extent.
    The instances in this library ([bump], [toy] and the like) are concrete systems the
    theorems are run on.

    ** Fuel

    Loops over memory carry fuel: a walk of a list takes one more than the number of words
    in its map ([slot_fuel], [walk_fuel], [page_fuel]), a scan one more than the length
    scanned.  The theorems that an operation is [Done] show that this is enough.

    ** Bounds

    [tlsf_alloc_spec] and [tlsf_expand_spec] are for requests up to 2^28 bytes (above 1 GiB
    the index leaves its tables, [bucket_in_tables]).  The front end's theorems are for
    sizes whose header and canary still fit 64 bits; [os_size_wraps] shows what happens
    beyond.  Counters are modelled modulo 2^64 and the theorems hold across the wrap.

    ** Not modelled

    - In [Front]: blocks of FAST_PATH pools (which keep no live
      list), and the recovery callback (user code; the watermark calls are in [Pressure]).  A block
      parked in the TLSF thread cache appears in [Front] as a released one whose header is
      left alone; [TlsfCache] models the cache, for pools without a per-thread arena.
    - In [PoolTree] a pool is its place in the tree; what the release of its tiers gives
      back is in [DestroySlabs] and [DestroyArenas], without the destruction of locks, and
      pools in a given buffer are in [StaticPool].  In [Routing] pools exist throughout.
    - In [cmem_sys.c]: the Windows branches, mlock, dump protection, zeroing; the system
      calls themselves are behind [HostVm].
    - In [cmem_diag.c]: [backtrace_symbols] is a parameter.  The C++
      and override headers, the front ends of the command-line tools, benchmarks and tests.
    - Locks: sections under one lock are single steps.  In [ArenaRace] the walk over a list
      that one thread alone works on is one step with the access before it.  Memory orders
      weaker than sequential consistency. *)
From Stdlib Require Import ZArith Lia.
From stdpp Require Import base option list gmap.

Declare Scope cmem_scope.
Delimit Scope cmem_scope with cmem.
Open Scope Z_scope.

(** ** Machine-width integers

    A [w]-bit unsigned integer is a [Z] in [0 .. 2^w - 1]; arithmetic that C
    performs modulo [2^w] is written with the wrappers below. *)
Definition u8 (x : Z) : Z := x mod 2 ^ 8.
Definition u16 (x : Z) : Z := x mod 2 ^ 16.
Definition u32 (x : Z) : Z := x mod 2 ^ 32.
Definition u64 (x : Z) : Z := x mod 2 ^ 64.

Definition SIZE_MAX : Z := 2 ^ 64 - 1.
Definition UINT32_MAX : Z := 2 ^ 32 - 1.
Definition INT_MAX : Z := 2 ^ 31 - 1.

(** The null pointer.  Addresses are non-negative integers. *)
Definition NULL : Z := 0.

Lemma u64_small x : 0 <= x < 2 ^ 64 -> u64 x = x.
Proof. intros. unfold u64. by apply Z.mod_small. Qed.

Lemma u64_add_l x y : u64 (u64 x + y) = u64 (x + y).
Proof. unfold u64. by rewrite Zplus_mod_idemp_l. Qed.

Lemma u64_sub_l x y : u64 (u64 x - y) = u64 (x - y).
Proof. unfold u64. by rewrite Zminus_mod_idemp_l. Qed.

Lemma u64_bound x : 0 <= u64 x < 2 ^ 64.
Proof. unfold u64. by apply Z.mod_pos_bound. Qed.

Lemma u32_small x : 0 <= x < 2 ^ 32 -> u32 x = x.
Proof. intros. unfold u32. by apply Z.mod_small. Qed.

Lemma u32_bound x : 0 <= u32 x < 2 ^ 32.
Proof. unfold u32. by apply Z.mod_pos_bound. Qed.

Lemma u16_small x : 0 <= x < 2 ^ 16 -> u16 x = x.
Proof. intros. unfold u16. by apply Z.mod_small. Qed.

Lemma u8_small x : 0 <= x < 2 ^ 8 -> u8 x = x.
Proof. intros. unfold u8. by apply Z.mod_small. Qed.

Lemma u8_bound x : 0 <= u8 x < 2 ^ 8.
Proof. unfold u8. by apply Z.mod_pos_bound. Qed.

(** [lia] after unfolding division and remainder. *)
Ltac zdiv := Z.to_euclidean_division_equations; lia.

Create HintDb cmem discriminated.
#[export] Hint Resolve u64_bound u32_bound u8_bound : cmem.
Create Rewrite HintDb cmem_rw.
#[export] Hint Rewrite u64_small u32_small u16_small u8_small using lia : cmem_rw.

(** [(x + 7) & ~7]: round up to a multiple of eight, in [size_t]. *)
Definition align8 (x : Z) : Z := Z.land (u64 (x + 7)) (Z.lnot 7).

(** Clearing the low [k] bits rounds down to a multiple of [2^k]. *)
Lemma land_lnot_ones x k : 0 <= k -> Z.land x (Z.lnot (Z.ones k)) = x / 2 ^ k * 2 ^ k.
Proof.
  intros Hk. rewrite <- Z.ldiff_land, Z.ldiff_ones_r by done.
  by rewrite Z.shiftl_mul_pow2, Z.shiftr_div_pow2 by done.
Qed.

Lemma align8_eq x : 0 <= x -> x + 7 < 2 ^ 64 -> align8 x = (x + 7) / 8 * 8.
Proof.
  intros. unfold align8. rewrite u64_small by lia.
  change (Z.lnot 7) with (Z.lnot (Z.ones 3)). by rewrite land_lnot_ones.
Qed.

Lemma align8_bounds x :
  0 <= x -> x + 7 < 2 ^ 64 -> x <= align8 x <= x + 7 /\ align8 x mod 8 = 0.
Proof.
  intros. rewrite align8_eq by done. split; [zdiv|].
  by rewrite Z.mod_mul.
Qed.

Lemma align8_multiple x : 0 <= x < 2 ^ 64 - 7 -> x mod 8 = 0 -> align8 x = x.
Proof. intros. rewrite align8_eq by lia. zdiv. Qed.

(** ** Bitmaps *)

(** [m |= 1 << i] and [m &= ~(1 << i)] on non-negative masks. *)
Definition bit_set (m i : Z) : Z := Z.lor m (Z.shiftl 1 i).
Definition bit_clear (m i : Z) : Z := Z.ldiff m (Z.shiftl 1 i).

Lemma testbit_one_shift i j :
  0 <= i -> Z.testbit (Z.shiftl 1 i) j = bool_decide (i = j).
Proof.
  intros Hi. rewrite Z.shiftl_1_l.
  destruct (Z.pow2_bits_eqb i j Hi) as [].
  rewrite Z.pow2_bits_eqb by done.
  destruct (Z.eqb_spec i j); [by rewrite bool_decide_true|by rewrite bool_decide_false].
Qed.

Lemma testbit_bit_set m i j :
  0 <= i -> Z.testbit (bit_set m i) j = (Z.testbit m j || bool_decide (i = j))%bool.
Proof. intros. unfold bit_set. by rewrite Z.lor_spec, testbit_one_shift. Qed.

Lemma testbit_bit_clear m i j :
  0 <= i ->
  Z.testbit (bit_clear m i) j = (Z.testbit m j && negb (bool_decide (i = j)))%bool.
Proof. intros. unfold bit_clear. by rewrite Z.ldiff_spec, testbit_one_shift. Qed.

Lemma high_bits m n i : 0 <= m < 2 ^ n -> n <= i -> Z.testbit m i = false.
Proof.
  intros Hm Hi. destruct (Z.eq_dec m 0) as [->|]; [apply Z.testbit_0_l|].
  apply Z.bits_above_log2; [lia|]. apply Z.lt_le_trans with n; [|done]. apply Z.log2_lt_pow2; lia.
Qed.

Lemma bounded_bits m n : 0 <= n -> 0 <= m -> (forall i, n <= i -> Z.testbit m i = false) -> m < 2 ^ n.
Proof.
  intros Hn Hm Hb. destruct (Z.eq_dec m 0) as [->|]; [apply Z.pow_pos_nonneg; lia|].
  apply Z.log2_lt_pow2; [lia|]. destruct (Z.lt_ge_cases (Z.log2 m) n) as [|Hge]; [done|].
  apply Hb in Hge. rewrite Z.bit_log2 in Hge by lia. done.
Qed.

Lemma bit_set_bound m i n : 0 <= m < 2 ^ n -> 0 <= i < n -> 0 <= bit_set m i < 2 ^ n.
Proof.
  intros Hm Hi. assert (0 <= bit_set m i).
  { unfold bit_set. apply Z.lor_nonneg. split; [lia|]. apply Z.shiftl_nonneg. lia. }
  split; [done|]. apply bounded_bits; [lia|done|]. intros j Hj.
  rewrite testbit_bit_set, (high_bits m n j) by lia. rewrite bool_decide_false by lia. done.
Qed.

Lemma bit_clear_bound m i n : 0 <= m < 2 ^ n -> 0 <= i < n -> 0 <= bit_clear m i < 2 ^ n.
Proof.
  intros Hm Hi. assert (0 <= bit_clear m i).
  { unfold bit_clear. apply Z.ldiff_nonneg. lia. }
  split; [done|]. apply bounded_bits; [lia|done|]. intros j Hj.
  by rewrite testbit_bit_clear, (high_bits m n j) by lia.
Qed.

(** A bounded mask is nonzero exactly when one of its bits is set. *)
Lemma nonzero_bits m n : 0 <= m < 2 ^ n -> (m <> 0 <-> exists i, 0 <= i < n /\ Z.testbit m i = true).
Proof.
  intros Hm. split.
  - intros Hnz. exists (Z.log2 m). rewrite Z.bit_log2 by lia. split; [|done].
    split; [apply Z.log2_nonneg|]. apply Z.log2_lt_pow2; lia.
  - intros (i & _ & Hi) ->. by rewrite Z.testbit_0_l in Hi.
Qed.

(** ** Option monad: the steps of a computation that may fault. *)

Lemma bind_Some_inv {A B} (o : option A) (f : A -> option B) b :
  o ≫= f = Some b -> exists a, o = Some a /\ f a = Some b.
Proof. destruct o; simpl; [eauto|done]. Qed.

Lemma Some_eq_inv {A} (a b : A) : Some a = Some b -> a = b.
Proof. congruence. Qed.

(** Take apart every [x ← o; k = Some b] hypothesis. *)
Ltac inv_bind :=
  repeat match goal with
  | H : mbind _ _ = Some _ |- _ =>
      let x := fresh "x" in let H1 := fresh "Hb" in
      apply bind_Some_inv in H; destruct H as [x [H1 H]]
  | H : Some _ = Some _ |- _ => apply Some_eq_inv in H
  end.

(** Reflect boolean comparisons and split on them. *)
Ltac zcase :=
  repeat match goal with
  | H : context [if ?a <? ?b then _ else _] |- _ => destruct (Z.ltb_spec a b)
  | H : context [if ?a <=? ?b then _ else _] |- _ => destruct (Z.leb_spec a b)
  | H : context [if ?a =? ?b then _ else _] |- _ => destruct (Z.eqb_spec a b)
  | |- context [if ?a <? ?b then _ else _] => destruct (Z.ltb_spec a b)
  | |- context [if ?a <=? ?b then _ else _] => destruct (Z.leb_spec a b)
  | |- context [if ?a =? ?b then _ else _] => destruct (Z.eqb_spec a b)
  end.

(** ** Outcomes

    [Done v] is a normal return, [Err] the error return of the C function
    (a [-1], [NULL] or [false] it documents), and [Fault] undefined behaviour:
    an access outside the object, a signed overflow, or a loop that outlives its
    fuel.  A theorem that a function never yields [Fault] is a safety and
    termination theorem. *)
Inductive outcome (A : Type) : Type :=
| Done (a : A)
| Err
| Fault.
Arguments Done {A} _.
Arguments Err {A}.
Arguments Fault {A}.

#[export] Instance outcome_ret : MRet outcome := fun A a => Done a.
#[export] Instance outcome_bind : MBind outcome := fun A B f o =>
  match o with Done a => f a | Err => Err | Fault => Fault end.

Lemma bind_Done_inv {A B} (o : outcome A) (f : A -> outcome B) b :
  o ≫= f = Done b -> exists a, o = Done a /\ f a = Done b.
Proof. destruct o; simpl; [eauto|done|done]. Qed.

(** No undefined behaviour. *)
Definition safe {A} (o : outcome A) : Prop := o <> Fault.

Lemma safe_bind {A B} (o : outcome A) (f : A -> outcome B) :
  safe o -> (forall a, o = Done a -> safe (f a)) -> safe (o ≫= f).
Proof. destruct o; simpl; [auto|done|done]. Qed.

Lemma safe_Done {A} (a : A) : safe (Done a).
Proof. done. Qed.

Lemma safe_Err {A} : safe (@Err A).
Proof. done. Qed.

#[export] Hint Resolve safe_Done safe_Err : cmem.

Lemma Done_inj {A} (a b : A) : Done a = Done b -> a = b.
Proof. congruence. Qed.

Ltac inv_out :=
  repeat match goal with
  | H : mbind _ _ = Done _ |- _ =>
      let x := fresh "x" in let H1 := fresh "Hb" in
      apply bind_Done_inv in H; destruct H as [x [H1 H]]
  | H : Done _ = Done _ |- _ => apply Done_inj in H
  | H : mret _ = Done _ |- _ => apply Done_inj in H
  | H : Err = Done _ |- _ => discriminate H
  | H : Fault = Done _ |- _ => discriminate H
  end.

(** ** Lists *)

Lemma filter_all {A} (P : A -> Prop) `{forall x, Decision (P x)} (l : list A) : Forall P l -> filter P l = l.
Proof. induction 1 as [|x l Hx _ IH]; [done|]. by rewrite filter_cons_True, IH. Qed.

(** ** Arrays indexed by [Z] *)

(** [a[i]]: a read outside the array is a fault. *)
Definition rd {A} (a : list A) (i : Z) : outcome A :=
  if i <? 0 then Fault else match a !! Z.to_nat i with Some b => Done b | None => Fault end.

Definition zlen {A} (l : list A) : Z := Z.of_nat (length l).

Lemma zlen_nonneg {A} (l : list A) : 0 <= zlen l.
Proof. unfold zlen. lia. Qed.

Lemma zlen_app {A} (l1 l2 : list A) : zlen (l1 ++ l2) = zlen l1 + zlen l2.
Proof. unfold zlen. rewrite length_app. lia. Qed.

Lemma zlen_cons {A} (x : A) l : zlen (x :: l) = 1 + zlen l.
Proof. unfold zlen. simpl. lia. Qed.

Lemma zlen_nil {A} : zlen (@nil A) = 0.
Proof. done. Qed.

Lemma zlen_snoc {A} (l : list A) x : zlen (l ++ [x]) = zlen l + 1.
Proof. by rewrite zlen_app. Qed.

Lemma zlen_insert {A} (l : list A) i x : zlen (<[i:=x]> l) = zlen l.
Proof. unfold zlen. by rewrite length_insert. Qed.

#[export] Hint Rewrite @zlen_insert @zlen_snoc @zlen_app @zlen_cons @zlen_nil : cmem_rw.
#[export] Hint Resolve zlen_nonneg : cmem.

Lemma rd_Done {A} (a : list A) i x :
  rd a i = Done x <-> 0 <= i /\ a !! Z.to_nat i = Some x.
Proof.
  unfold rd. destruct (Z.ltb_spec i 0).
  - split; [done|lia].
  - destruct (a !! Z.to_nat i); naive_solver.
Qed.

Lemma rd_in_range {A} (a : list A) i : 0 <= i < zlen a -> exists x, rd a i = Done x.
Proof.
  intros Hi. unfold zlen in Hi. destruct (lookup_lt_is_Some_2 a (Z.to_nat i)) as [x Hx]; [lia|].
  exists x. apply rd_Done. split; [lia|done].
Qed.

Lemma safe_rd {A} (a : list A) i : 0 <= i < zlen a -> safe (rd a i).
Proof. intros Hi. destruct (rd_in_range a i Hi) as [x ->]. done. Qed.
#[export] Hint Resolve safe_rd : cmem.

Lemma rd_app_l {A} (a b : list A) i x : rd a i = Done x -> rd (a ++ b) i = Done x.
Proof. rewrite !rd_Done. intros [? ?]. split; [done|]. by apply lookup_app_l_Some. Qed.

Lemma rd_app_r {A} (a b : list A) i : 0 <= i -> rd (a ++ b) (zlen a + i) = rd b i.
Proof.
  intros Hi. unfold rd, zlen.
  destruct (Z.ltb_spec (Z.of_nat (length a) + i) 0); [lia|].
  destruct (Z.ltb_spec i 0); [lia|].
  rewrite lookup_app_r by lia.
  by replace (Z.to_nat (Z.of_nat (length a) + i) - length a)%nat with (Z.to_nat i) by lia.
Qed.

(** The bytes [a[i .. i + n)]. *)
Definition slice {A} (a : list A) (i n : Z) : list A := take (Z.to_nat n) (drop (Z.to_nat i) a).

Lemma zlen_slice {A} (a : list A) i n :
  0 <= i -> 0 <= n -> i + n <= zlen a -> zlen (slice a i n) = n.
Proof.
  unfold zlen, slice. intros. rewrite length_take, length_drop. lia.
Qed.

Lemma slice_split {A} (a : list A) i n m :
  0 <= i -> 0 <= n -> 0 <= m -> slice a i (n + m) = slice a i n ++ slice a (i + n) m.
Proof.
  intros. unfold slice. rewrite !Z2Nat.inj_add by lia.
  by rewrite <- take_take_drop, drop_drop.
Qed.

Lemma slice_full {A} (a : list A) : slice a 0 (zlen a) = a.
Proof. unfold slice, zlen. rewrite Nat2Z.id. simpl. by rewrite firstn_all. Qed.

Lemma slice_zero {A} (a : list A) i : slice a i 0 = [].
Proof. done. Qed.

Lemma slice_one {A} (a : list A) i x : rd a i = Done x -> slice a i 1 = [x].
Proof.
  rewrite rd_Done. intros [Hi Hx]. unfold slice. change (Z.to_nat 1) with 1%nat.
  by rewrite (drop_S a x (Z.to_nat i) Hx).
Qed.

Lemma slice_app_r {A} (a b : list A) i n :
  0 <= i -> slice (a ++ b) (zlen a + i) n = slice b i n.
Proof.
  intros. unfold slice, zlen. f_equal. rewrite drop_app, drop_ge by lia. simpl. f_equal. lia.
Qed.

Lemma slice_app_l {A} (a b : list A) n : n = zlen a -> slice (a ++ b) 0 n = a.
Proof. intros ->. unfold slice, zlen. rewrite Nat2Z.id.
  change (Z.to_nat 0) with 0%nat. by rewrite drop_0, take_app_length. Qed.

(** ** Arrays laid out with a stride *)

(** [base + i * slot_size] for the [n] elements from [i]. *)
Fixpoint slot_addrs (base slot_size : Z) (n : nat) (i : Z) : list Z :=
  match n with O => [] | S n => (base + i * slot_size) :: slot_addrs base slot_size n (i + 1) end.

Lemma length_slot_addrs base sz n i : length (slot_addrs base sz n i) = n.
Proof. revert i. induction n as [|n IH]; intros i; cbn; [done|]. by rewrite IH. Qed.

Lemma elem_of_slot_addrs base sz n i x :
  x ∈ slot_addrs base sz n i <-> exists j, i <= j < i + Z.of_nat n /\ x = base + j * sz.
Proof.
  revert i. induction n as [|n IH]; intros i; cbn [slot_addrs].
  - split; [intros H; by apply not_elem_of_nil in H|intros (j & Hj & _); lia].
  - rewrite elem_of_cons, IH. split.
    + intros [->|(j & Hj & ->)]; [exists i|exists j]; split; [lia|done|lia|done].
    + intros (j & Hj & ->). destruct (Z.eq_dec j i) as [->|]; [by left|right; exists j; split; [lia|done]].
Qed.

Lemma slot_addrs_nodup base sz n i : 0 < sz -> NoDup (slot_addrs base sz n i).
Proof.
  intros Hs. revert i. induction n as [|n IH]; intros i; cbn; [constructor|]. apply NoDup_cons. split; [|done].
  rewrite elem_of_slot_addrs. intros (j & Hj & E). nia.
Qed.

Lemma lookup_slot_addrs base sz n i k :
  (k < n)%nat -> slot_addrs base sz n i !! k = Some (base + (i + Z.of_nat k) * sz).
Proof.
  revert i k. induction n as [|n IH]; intros i k Hk; [lia|]. destruct k as [|k]; cbn [slot_addrs].
  - by rewrite Z.add_0_r.
  - rewrite lookup_cons, IH by lia. do 2 f_equal. lia.
Qed.

(** Results of concrete runs, for the examples. *)
Definition done_or {A} (d : A) (o : outcome A) : A := match o with Done x => x | _ => d end.
Definition is_done {A} (o : outcome A) : bool := match o with Done _ => true | _ => false end.

Lemma done_or_eq {A} (d : A) (o : outcome A) : is_done o = true -> o = Done (done_or d o).
Proof. by destruct o. Qed.

(** ** The C heap as a sequence of answers

    What [malloc] and [calloc] return from now on; [None] and an exhausted list are
    failures.  [fresh_answers]: the addresses are distinct and nothing lives there. *)
Definition calls : Type := list (option Z).
Definition next_call (cs : calls) : Z * calls :=
  match cs with [] => (NULL, []) | r :: cs => (default NULL r, cs) end.

Definition fresh_answers {A} (g : gmap Z A) (cs : calls) : Prop :=
  NoDup (omap id cs) /\ Forall (fun a => a <> NULL /\ g !! a = None) (omap id cs).

Lemma fresh_next {A} (g : gmap Z A) cs a cs' : fresh_answers g cs -> next_call cs = (a, cs') ->
  fresh_answers g cs' /\ (a = NULL \/ (a <> NULL /\ g !! a = None /\ forall n, fresh_answers (<[a := n]> g) cs')).
Proof.
  intros [Hd Hf]. destruct cs as [|[b|] cs]; cbn; intros [= <- <-]; [split; [done|by left]| |split; [done|by left]].
  cbn in Hd, Hf. apply NoDup_cons in Hd as [Hb Hd]. apply Forall_cons in Hf as [[H0 Hn] Hf]. split; [done|]. right. split; [done|]. split; [done|].
  intros n. split; [done|]. rewrite Forall_forall in Hf |- *. intros x Hx. destruct (Hf x Hx) as [? ?]. split; [done|].
  rewrite lookup_insert_ne; [done|]. by intros ->.
Qed.
