(* ===== verification/Text.v ===== *)
(** * Text, as the reports print it

    C strings are lists of byte values without the terminator.  The conversions of printf
    the library uses (%s, %zu, %d, %p, %.2f) and [snprintf] into a caller's buffer.  Doubles
    are the binary64 values of [SpecFloat] with its rounding. *)
From S2P Require Import Prelude.
From Stdlib Require Import ZArith Lia Ascii String.
From Stdlib Require Import Floats.SpecFloat.
From stdpp Require Import base option list.
Open Scope Z_scope.

(** ** Characters *)

Definition bs (s : string) : list Z := map (fun c => Z.of_N (N_of_ascii c)) (list_ascii_of_string s).
Definition NL : list Z := [10].
Definition QUOTE : list Z := [34].

(** The bytes up to the first zero. *)
Fixpoint until_nul (l : list Z) : list Z := match l with [] => [] | b :: l => if b =? 0 then [] else b :: until_nul l end.

(** No byte is zero: such a list is a C string. *)
Definition printable (l : list Z) : Prop := Forall (fun b => b <> 0) l.

Lemma until_nul_printable l r : printable l -> until_nul (l ++ 0 :: r) = l.
Proof.
  induction 1 as [|b l Hb _ IH]; [done|]. cbn [app until_nul]. rewrite (proj2 (Z.eqb_neq b 0)) by done. by rewrite IH.
Qed.

Lemma printable_app l r : printable l -> printable r -> printable (l ++ r).
Proof. intros. by apply Forall_app_2. Qed.

Lemma printable_check l : forallb (fun b => negb (b =? 0)) l = true -> printable l.
Proof. intros H. apply Forall_forall. intros b Hb. rewrite forallb_forall in H. specialize (H b (proj1 (list_elem_of_In _ _) Hb)). lia. Qed.

Create HintDb text.
#[export] Hint Resolve printable_app : text.
#[export] Hint Extern 1 (printable (bs _)) => apply printable_check; vm_compute; reflexivity : text.
#[export] Hint Extern 1 (printable NL) => apply printable_check; reflexivity : text.
#[export] Hint Extern 1 (printable QUOTE) => apply printable_check; reflexivity : text.

(** ** Integers *)

Definition digit (d : Z) : Z := if d <? 10 then 48 + d else 87 + d.

(** The digits of [n], least significant first; one unit of fuel per bit is enough. *)
Fixpoint digits_rev (fuel : nat) (base n : Z) : list Z :=
  match fuel with
  | O => []
  | S fuel => digit (n mod base) :: if n / base =? 0 then [] else digits_rev fuel base (n / base)
  end.

Definition bits (n : Z) : nat := S (Z.to_nat (Z.log2 n)).
Definition digits (base n : Z) : list Z := rev (digits_rev (bits n) base n).

(** %zu and %u; %d; %p of a non-null pointer. *)
Definition dec (n : Z) : list Z := digits 10 n.
Definition sdec (n : Z) : list Z := if n <? 0 then 45 :: dec (- n) else dec n.
Definition hex (n : Z) : list Z := digits 16 n.
Definition ptr (n : Z) : list Z := bs "0x" ++ hex n.

(** What a reader of decimal digits understands. *)
Definition undec (l : list Z) : Z := fold_left (fun v c => 10 * v + (c - 48)) l 0.

Lemma digit_pos d : 0 <= d -> 0 < digit d.
Proof. unfold digit. destruct (Z.ltb_spec d 10); lia. Qed.

Lemma digits_rev_length fuel base n : (length (digits_rev fuel base n) <= fuel)%nat.
Proof.
  revert n. induction fuel as [|fuel IH]; intros n; [done|]. cbn [digits_rev length].
  destruct (n / base =? 0); cbn [length]; [lia|]. specialize (IH (n / base)). lia.
Qed.

Lemma digits_length base n : zlen (digits base n) <= 1 + Z.log2 n.
Proof.
  unfold digits, zlen. rewrite length_rev. pose proof (digits_rev_length (bits n) base n). pose proof (Z.log2_nonneg n). unfold bits in *. lia.
Qed.

Lemma digits_printable base n : 1 < base -> 0 <= n -> printable (digits base n).
Proof.
  intros Hb Hn. unfold digits, printable. apply Forall_rev. generalize (bits n). intros fuel. revert n Hn.
  induction fuel as [|fuel IH]; intros n Hn; [constructor|]. cbn [digits_rev]. constructor.
  - pose proof (digit_pos (n mod base) ltac:(apply Z.mod_pos_bound; lia)). lia.
  - destruct (n / base =? 0); [constructor|]. apply IH. apply Z.div_pos; lia.
Qed.

Lemma dec_printable n : 0 <= n -> printable (dec n).
Proof. intros. by apply digits_printable. Qed.

Lemma ptr_printable n : 0 <= n -> printable (ptr n).
Proof. intros. apply printable_app; [by auto with text|]. by apply digits_printable. Qed.

Lemma sdec_printable n : printable (sdec n).
Proof. unfold sdec. destruct (Z.ltb_spec n 0); [constructor; [done|]|]; apply dec_printable; lia. Qed.

#[export] Hint Resolve sdec_printable : text.
#[export] Hint Extern 2 (printable (dec _)) => apply dec_printable; lia : text.
#[export] Hint Extern 2 (printable (ptr _)) => apply ptr_printable; lia : text.

Lemma digits_rev_value fuel n : 0 <= n < 2 ^ Z.of_nat fuel ->
  foldr (fun c v => 10 * v + (c - 48)) 0 (digits_rev fuel 10 n) = n.
Proof.
  revert n. induction fuel as [|fuel IH]; intros n Hn; [cbn in *; lia|]. cbn [digits_rev foldr].
  assert (Hd : digit (n mod 10) - 48 = n mod 10).
  { unfold digit. pose proof (Z.mod_pos_bound n 10 ltac:(lia)). destruct (Z.ltb_spec (n mod 10) 10); lia. }
  rewrite Hd. pose proof (Z.div_mod n 10 ltac:(lia)) as E. destruct (Z.eqb_spec (n / 10) 0) as [E0|E0]; [cbn [foldr]; lia|].
  rewrite IH; [lia|]. rewrite Nat2Z.inj_succ, Z.pow_succ_r in Hn by lia. split; [apply Z.div_pos; lia|]. apply Z.div_lt_upper_bound; lia.
Qed.

(** Printing a number and reading it back. *)
Lemma undec_dec n : 0 <= n -> undec (dec n) = n.
Proof.
  intros Hn. unfold undec, dec, digits. rewrite <- fold_left_rev_right, rev_involutive. apply digits_rev_value.
  split; [done|]. unfold bits. rewrite Nat2Z.inj_succ, Z2Nat.id by apply Z.log2_nonneg.
  destruct (Z.eq_dec n 0) as [->|]; [done|]. apply Z.log2_spec. lia.
Qed.

(** ** Doubles *)

Definition of_int (n : Z) : spec_float := binary_normalize 53 1024 n 0 false.
Definition ddiv : spec_float -> spec_float -> spec_float := SFdiv 53 1024.
Definition dmul : spec_float -> spec_float -> spec_float := SFmul 53 1024.
Definition dadd : spec_float -> spec_float -> spec_float := SFadd 53 1024.
Definition dsub : spec_float -> spec_float -> spec_float := SFsub 53 1024.

(** [n / d] to the nearest integer, ties to even. *)
Definition div_even (n d : Z) : Z :=
  let q := n / d in let r := n mod d in
  if (2 * r <? d) || ((2 * r =? d) && Z.even q) then q else q + 1.

(** [m * 2^e * 10^k], rounded. *)
Definition scaled (k m e : Z) : Z := if 0 <=? e then m * 2 ^ e * 10 ^ k else div_even (m * 10 ^ k) (2 ^ (- e)).

Fixpoint padded (k : nat) (n : Z) : list Z := match k with O => [] | S k => padded k (n / 10) ++ [digit (n mod 10)] end.

(** %.[k]f *)
Definition fixed (k : nat) (x : spec_float) : list Z :=
  let sign (s : bool) := if s then [45] else [] in
  match x with
  | S754_zero s => sign s ++ bs "0." ++ padded k 0
  | S754_infinity s => sign s ++ bs "inf"
  | S754_nan => bs "nan"
  | S754_finite s m e =>
      let q := scaled (Z.of_nat k) (Zpos m) e in
      sign s ++ dec (q / 10 ^ Z.of_nat k) ++ bs "." ++ padded k (q mod 10 ^ Z.of_nat k)
  end.

(** *** How long a printed double can get

    A double has at most 53 bits of mantissa and an exponent up to 971. *)
Definition representable (x : spec_float) : Prop :=
  match x with S754_finite _ m e => Zpos m <= 2 ^ 53 /\ e <= 971 | _ => True end.

Lemma digits2_bound p : Zpos p < 2 ^ Zpos (digits2_pos p).
Proof.
  induction p as [p IH|p IH|]; cbn [digits2_pos]; [| |done]; rewrite Pos2Z.inj_succ, Z.pow_succ_r by lia; lia.
Qed.

Lemma shr_1_half r : 0 <= shr_m r -> shr_m (shr_1 r) = shr_m r / 2 /\ 0 <= shr_m (shr_1 r).
Proof.
  destruct r as [m rb sb]. cbn [shr_m]. intros Hm. destruct m as [|[p|p|]|p]; cbn; [done| | |done|lia].
  - split; [|lia]. apply (Z.div_unique (Zpos (xI p)) 2 (Zpos p) 1); lia.
  - split; [|lia]. apply (Z.div_unique (Zpos (xO p)) 2 (Zpos p) 0); lia.
Qed.

Lemma shr_div p : forall r, 0 <= shr_m r -> shr_m (SpecFloat.iter_pos shr_1 p r) = shr_m r / 2 ^ Zpos p /\ 0 <= shr_m (SpecFloat.iter_pos shr_1 p r).
Proof.
  induction p as [p IH|p IH|]; intros r Hr; cbn [SpecFloat.iter_pos]; [| |by apply shr_1_half].
  - destruct (shr_1_half r Hr) as [E0 H0]. destruct (IH _ H0) as [E1 H1]. destruct (IH _ H1) as [E2 H2]. split; [|done].
    rewrite E2, E1, E0, !Z.div_div by lia. f_equal. rewrite (Pos2Z.inj_xI p), Z.pow_add_r, Z.mul_comm by lia.
    replace (2 * Zpos p) with (Zpos p + Zpos p) by lia. rewrite Z.pow_add_r by lia. change (2 ^ 1) with 2. ring.
  - destruct (IH _ Hr) as [E1 H1]. destruct (IH _ H1) as [E2 H2]. split; [|done].
    rewrite E2, E1, !Z.div_div by lia. f_equal. rewrite (Pos2Z.inj_xO p).
    replace (2 * Zpos p) with (Zpos p + Zpos p) by lia. by rewrite Z.pow_add_r by lia.
Qed.

Lemma shr_shrinks r e n : 0 <= shr_m r -> 0 <= shr_m (shr r e n).1 <= shr_m r /\ (0 < n -> shr_m (shr r e n).1 = shr_m r / 2 ^ n).
Proof.
  intros Hr. destruct n as [|p|p]; cbn [shr fst]; [split; [lia|lia]| |split; [lia|lia]].
  destruct (shr_div p r Hr) as [-> H]. split; [|done]. split; [apply Z.div_pos; lia|]. apply Z.div_le_upper_bound; [lia|]. nia.
Qed.

Lemma shr_m_of_loc m l : shr_m (shr_record_of_loc m l) = m.
Proof. by destruct l as [|[]]. Qed.

Lemma shr_fexp_bound m e l : 0 <= m -> 0 <= shr_m (shr_fexp 53 1024 m e l).1 < 2 ^ 53.
Proof.
  intros Hm. unfold shr_fexp. set (n := fexp 53 1024 (Zdigits2 m + e) - e). pose proof (shr_shrinks (shr_record_of_loc m l) e n) as [Hs Hd];
    rewrite shr_m_of_loc in *; [done|]. split; [lia|].
  assert (Hn : Zdigits2 m - 53 <= n) by (unfold n, fexp; lia).
  assert (Hdig : m < 2 ^ Zdigits2 m) by (destruct m as [|p|p]; [done|apply digits2_bound|lia]).
  destruct (Z.le_gt_cases n 0).
  - pose proof (Z.pow_le_mono_r 2 (Zdigits2 m) 53). lia.
  - rewrite Hd by lia. apply Z.div_lt_upper_bound; [lia|]. rewrite <- Z.pow_add_r by lia. pose proof (Z.pow_le_mono_r 2 (Zdigits2 m) (n + 53)). lia.
Qed.

Lemma round_representable sx mx ex lx : 0 <= mx -> representable (binary_round_aux 53 1024 sx mx ex lx).
Proof.
  intros Hm. unfold binary_round_aux. pose proof (shr_fexp_bound mx ex lx Hm) as H1. destruct (shr_fexp 53 1024 mx ex lx) as [r1 e1]. cbn [fst] in H1.
  set (m1 := round_nearest_even _ _). assert (H2 : 0 <= m1 <= 2 ^ 53).
  { unfold m1, round_nearest_even. destruct (loc_of_shr_record r1) as [|[]]; [lia| |lia|lia]. destruct (Z.even _); lia. }
  unfold shr_fexp. set (n := fexp 53 1024 (Zdigits2 m1 + e1) - e1). destruct (shr_shrinks (shr_record_of_loc m1 loc_Exact) e1 n) as [H3 _];
    rewrite ?shr_m_of_loc in *; [lia|]. destruct (shr _ e1 n) as [r2 e2]. cbn [fst] in H3.
  destruct (shr_m r2) as [|p|p]; [done| |lia]. destruct (Z.leb_spec e2 (1024 - 53)); [|done]. cbn. lia.
Qed.

Lemma normalize_representable m e s : representable (binary_normalize 53 1024 m e s).
Proof.
  assert (R : forall sx p, representable (binary_round 53 1024 sx p e)).
  { intros sx p. unfold binary_round. destruct (shl_align _ _ _) as [mz ez]. by apply round_representable. }
  destruct m; cbn [binary_normalize]; [done|apply R|apply R].
Qed.

Lemma of_int_representable n : representable (of_int n).
Proof. apply normalize_representable. Qed.

Lemma ddiv_representable x y : representable (ddiv x y).
Proof.
  unfold ddiv, SFdiv. destruct x as [s|s| |s m e], y as [s'|s'| |s' m' e']; try done. destruct (SFdiv_core_binary _ _ _ _ _ _) as [[q e''] l] eqn:E.
  apply round_representable. unfold SFdiv_core_binary in E. cbn zeta in E. revert E.
  set (n := match _ with Z0 => _ | Zpos _ => _ | Zneg _ => _ end). intros E.
  assert (Hn : 0 <= n).
  { unfold n. destruct (_ - _ - _); [lia|apply Z.shiftl_nonneg; lia|lia]. }
  pose proof (Z.div_pos n (Zpos m') Hn ltac:(lia)) as Hq. unfold Z.div in Hq. destruct (Z.div_eucl n (Zpos m')) as [a b]. by injection E as <- _ _.
Qed.

Lemma dmul_representable x y : representable (dmul x y).
Proof. unfold dmul, SFmul. destruct x, y; try done. by apply round_representable. Qed.

Lemma dadd_representable x y : representable x -> representable y -> representable (dadd x y).
Proof. unfold dadd, SFadd. destruct x as [[]|[]| |], y as [[]|[]| |]; try done; intros _ _; apply normalize_representable. Qed.

Lemma dsub_representable x y : representable x -> representable y -> representable (dsub x y).
Proof. unfold dsub, SFsub. destruct x as [[]|[]| |], y as [[]|[]| |]; try done; intros _ _; apply normalize_representable. Qed.

#[export] Hint Resolve of_int_representable ddiv_representable dmul_representable dadd_representable dsub_representable : text.

Lemma padded_spec k : forall n, zlen (padded k n) = Z.of_nat k /\ printable (padded k n).
Proof.
  induction k as [|k IH]; intros n; [split; [done|constructor]|]. cbn [padded]. destruct (IH (n / 10)) as [H1 H2]. rewrite zlen_app, H1, Nat2Z.inj_succ. split; [done|].
  apply printable_app; [done|]. repeat constructor. pose proof (digit_pos (n mod 10) ltac:(apply Z.mod_pos_bound; lia)). lia.
Qed.

Lemma scaled_bound k m e : 0 <= k <= 4 -> Zpos m <= 2 ^ 53 -> e <= 971 -> 0 <= scaled k (Zpos m) e < 2 ^ 1039.
Proof.
  intros Hk Hm He. assert (H10 : 0 < 10 ^ k <= 10 ^ 4) by (split; [lia|apply Z.pow_le_mono_r; lia]). unfold scaled.
  destruct (Z.leb_spec 0 e).
  - assert (Hp : 0 < 2 ^ e <= 2 ^ 971) by (split; [lia|apply Z.pow_le_mono_r; lia]).
    assert (Zpos m * 2 ^ e <= 2 ^ 53 * 2 ^ 971) by (apply Z.mul_le_mono_nonneg; lia).
    assert (Zpos m * 2 ^ e * 10 ^ k <= 2 ^ 53 * 2 ^ 971 * 10 ^ 4) by (apply Z.mul_le_mono_nonneg; lia). split; [lia|].
    eapply Z.le_lt_trans; [done|]. by vm_compute.
  - assert (Hd : 0 < 2 ^ (- e)) by lia. unfold div_even. assert (0 <= Zpos m * 10 ^ k / 2 ^ (- e) <= Zpos m * 10 ^ k).
    { split; [apply Z.div_pos; lia|]. apply Z.div_le_upper_bound; [done|]. nia. }
    assert (Zpos m * 10 ^ k <= 2 ^ 53 * 10 ^ 4) by (apply Z.mul_le_mono_nonneg; lia).
    assert (2 ^ 53 * 10 ^ 4 + 1 < 2 ^ 1039) by (by vm_compute). destruct (_ || _); lia.
Qed.

(** At most 1100 characters, none of them a terminator. *)
Lemma fixed_spec k x : (k <= 4)%nat -> representable x -> zlen (fixed k x) <= 1100 /\ printable (fixed k x).
Proof.
  intros Hk Hx. assert (Hs : forall b : bool, zlen (if b then [45] else []) <= 1 /\ printable (if b then [45] else [])).
  { intros []; (split; [done|]); repeat constructor; done. }
  destruct x as [s|s| |s m e]; cbn [fixed].
  - destruct (Hs s) as [H1 H2], (padded_spec k 0) as [H3 H4]. rewrite !zlen_app, H3. change (zlen (bs "0.")) with 2. split; [lia|auto with text].
  - destruct (Hs s) as [H1 H2]. rewrite zlen_app. change (zlen (bs "inf")) with 3. split; [lia|auto with text].
  - split; [done|auto with text].
  - destruct (Hs s) as [H1 H2], Hx as [Hm He]. pose proof (scaled_bound (Z.of_nat k) m e ltac:(lia) Hm He) as Hq. set (q := scaled _ _ _) in *.
    destruct (padded_spec k (q mod 10 ^ Z.of_nat k)) as [H3 H4]. rewrite !zlen_app, H3. change (zlen (bs ".")) with 1.
    assert (Hq' : 0 <= q / 10 ^ Z.of_nat k <= q) by (split; [apply Z.div_pos; lia|apply Z.div_le_upper_bound; nia]).
    pose proof (digits_length 10 (q / 10 ^ Z.of_nat k)) as HL. fold (dec (q / 10 ^ Z.of_nat k)) in HL.
    assert (Z.log2 (q / 10 ^ Z.of_nat k) <= 1038).
    { destruct (Z.eq_dec (q / 10 ^ Z.of_nat k) 0) as [->|]; [done|]. apply Z.lt_succ_r. apply Z.log2_lt_pow2; lia. }
    split; [lia|]. auto 6 with text.
Qed.

(** ** snprintf

    [snprintf(buf + off, n, ...)] of a text: what it returns and the buffer afterwards.  It
    stores at most [n - 1] characters and a zero; a store outside the buffer is a fault.  A
    text longer than INT_MAX, for which the C function gives up half way, is one too. *)
Definition snprintf (buf : list Z) (off n : Z) (text : list Z) : outcome (Z * list Z) :=
  if INT_MAX <? zlen text then Fault
  else if n =? 0 then Done (zlen text, buf)
  else
    let w := take (Z.to_nat (n - 1)) text ++ [0] in
    if (0 <=? off) && (off + zlen w <=? zlen buf)
    then Done (zlen text, take (Z.to_nat off) buf ++ w ++ drop (Z.to_nat (off + zlen w)) buf)
    else Fault.

(** What a buffer that held [b] holds after [text] was printed from its start, within [max]. *)
Definition rendered (b : list Z) (max : Z) (text : list Z) : list Z :=
  let w := take (Z.to_nat (max - 1)) text in w ++ 0 :: drop (S (length w)) b.

Lemma rendered_length b max t : 0 < max <= zlen b -> zlen (rendered b max t) = zlen b.
Proof.
  intros H. unfold rendered, zlen in *. rewrite length_app. cbn [length]. rewrite length_drop, length_take. lia.
Qed.

Lemma snprintf_append b max t u :
  0 < max <= zlen b -> zlen t < max -> zlen u <= INT_MAX ->
  snprintf (rendered b max t) (zlen t) (max - zlen t) u = Done (zlen u, rendered b max (t ++ u)).
Proof.
  intros Hm Ht Hu. pose proof (rendered_length b max t Hm) as HL. unfold snprintf.
  rewrite (proj2 (Z.ltb_ge _ _)), (proj2 (Z.eqb_neq (max - zlen t) 0)) by lia.
  set (w := take (Z.to_nat (max - zlen t - 1)) u). pose proof (zlen_nonneg t).
  assert (Hw : zlen (w ++ [0]) <= max - zlen t) by (rewrite zlen_snoc; unfold w, zlen in *; rewrite length_take; lia).
  rewrite (proj2 (Z.leb_le 0 (zlen t))), HL, (proj2 (Z.leb_le _ (zlen b))) by lia. cbn [andb]. f_equal. f_equal. unfold rendered.
  assert (E : take (Z.to_nat (max - 1)) t = t) by (apply take_ge; unfold zlen in *; lia). rewrite E.
  assert (E' : take (Z.to_nat (max - 1)) (t ++ u) = t ++ w).
  { rewrite take_app, E. f_equal. unfold w. f_equal. unfold zlen in *. lia. }
  rewrite E', take_app_le by (unfold zlen; lia). rewrite (take_ge t) by (unfold zlen; lia). rewrite <- !app_assoc. cbn [app]. do 3 f_equal.
  rewrite drop_app_ge by (rewrite zlen_snoc; unfold zlen; lia).
  replace (Z.to_nat (zlen t + zlen (w ++ [0%Z])) - length t)%nat with (S (length w)) by (rewrite zlen_snoc; unfold zlen; lia).
  cbn [drop]. rewrite drop_drop. f_equal. rewrite length_app. lia.
Qed.

Lemma snprintf_start b max u : 0 < max <= zlen b -> zlen u <= INT_MAX -> snprintf b 0 max u = Done (zlen u, rendered b max u).
Proof.
  intros Hm Hu. unfold snprintf. rewrite (proj2 (Z.ltb_ge _ _)), (proj2 (Z.eqb_neq max 0)) by lia.
  assert (Hw : zlen (take (Z.to_nat (max - 1)) u ++ [0]) <= max) by (rewrite zlen_snoc; unfold zlen in *; rewrite length_take; lia).
  rewrite Z.add_0_l, (proj2 (Z.leb_le _ (zlen b))) by lia. cbn [andb Z.leb Z.compare]. f_equal. f_equal. unfold rendered.
  change (take (Z.to_nat 0) b) with (@nil Z). rewrite <- app_assoc. cbn [app]. do 3 f_equal. rewrite zlen_snoc. unfold zlen. lia.
Qed.

(** A run of [snprintf] calls that stops when the buffer is full: the text it has produced
    by then, the last piece counted in full. *)
Fixpoint emit (max : Z) (t : list Z) (pieces : list (list Z)) : list Z :=
  match pieces with [] => t | u :: us => if zlen t <? max then emit max (t ++ u) us else t end.

Lemma emit_app max t us vs : emit max t (us ++ vs) = emit max (emit max t us) vs.
Proof.
  revert t. induction us as [|u us IH]; intros t; [done|]. cbn [app emit]. destruct (Z.ltb_spec (zlen t) max); [apply IH|].
  destruct vs; cbn [emit]; [done|]. by rewrite (proj2 (Z.ltb_ge _ _)) by done.
Qed.

Lemma emit_full max t us : max <= zlen t -> emit max t us = t.
Proof. intros H. destruct us; cbn [emit]; [done|]. by rewrite (proj2 (Z.ltb_ge _ _)) by done. Qed.

Lemma emit_fits max t us : zlen (t ++ concat us) < max -> emit max t us = t ++ concat us.
Proof.
  revert t. induction us as [|u us IH]; intros t H; cbn [emit concat] in *; [by rewrite app_nil_r|].
  rewrite app_assoc in H |- *. rewrite !zlen_app in H. pose proof (zlen_nonneg u). pose proof (zlen_nonneg (concat us)).
  rewrite (proj2 (Z.ltb_lt _ _)) by lia. apply IH. rewrite !zlen_app. lia.
Qed.

(** Stopping early loses nothing that the buffer could have held. *)
Lemma emit_spec max t us :
  exists r, t ++ concat us = emit max t us ++ r /\ (r = [] \/ max <= zlen (emit max t us)).
Proof.
  revert t. induction us as [|u us IH]; intros t; cbn [emit concat].
  - exists []. split; [by rewrite !app_nil_r|by left].
  - destruct (Z.ltb_spec (zlen t) max) as [H|H].
    + destruct (IH (t ++ u)) as (r & E & Hr). exists r. split; [by rewrite app_assoc|done].
    + exists (u ++ concat us). split; [done|by right].
Qed.

Lemma rendered_emit b max t us : rendered b max (emit max t us) = rendered b max (t ++ concat us).
Proof.
  destruct (emit_spec max t us) as (r & -> & [->|H]); [by rewrite app_nil_r|]. unfold rendered.
  by rewrite take_app_le by (unfold zlen in H; lia).
Qed.

(** ** Lengths *)

Lemma digits_short base n : 0 <= n < 2 ^ 64 -> zlen (digits base n) <= 64.
Proof.
  intros H. pose proof (digits_length base n). assert (Z.log2 n <= 63); [|lia].
  destruct (Z.eq_dec n 0) as [->|]; [done|]. apply Z.lt_succ_r. apply Z.log2_lt_pow2; lia.
Qed.

Lemma dec_short n : 0 <= n < 2 ^ 64 -> zlen (dec n) <= 64.
Proof. apply digits_short. Qed.

Lemma hex_short n : 0 <= n < 2 ^ 64 -> zlen (hex n) <= 64.
Proof. apply digits_short. Qed.

Lemma ptr_short n : 0 <= n < 2 ^ 64 -> zlen (ptr n) <= 66.
Proof. intros H. unfold ptr. rewrite zlen_app. change (zlen (bs "0x")) with 2. pose proof (hex_short n H). lia. Qed.

Lemma sdec_short n : - 2 ^ 63 <= n < 2 ^ 63 -> zlen (sdec n) <= 65.
Proof. intros H. unfold sdec. destruct (Z.ltb_spec n 0); rewrite ?zlen_cons; [pose proof (dec_short (- n))|pose proof (dec_short n)]; lia. Qed.

Lemma fixed_short k x : (k <= 4)%nat -> representable x -> zlen (fixed k x) <= 1100.
Proof. intros. by apply fixed_spec. Qed.

Lemma fixed_printable k x : (k <= 4)%nat -> representable x -> printable (fixed k x).
Proof. intros. by apply fixed_spec. Qed.

#[export] Hint Extern 1 (printable (fixed _ _)) => apply fixed_printable; [lia|auto with text] : text.

(** The length of a text put together from literals and converted numbers. *)
Ltac text_length :=
  rewrite ?zlen_app, ?zlen_nil;
  repeat match goal with
  | |- context [zlen (bs ?s)] => let n := eval vm_compute in (zlen (bs s)) in change (zlen (bs s)) with n
  | |- context [zlen NL] => change (zlen NL) with 1
  | |- context [zlen QUOTE] => change (zlen QUOTE) with 1
  end.

(** No piece of a text holds a zero. *)
Ltac text_printable := repeat match goal with |- printable (_ ++ _) => apply printable_app end; auto with text.
