(* ===== verification/SizeClass.v ===== *)
(** * Slab size classes

    The size-class table of [src/cmem_slab.c] ([cmem_slab_class_size],
    [cmem_size_to_class]), the class lookup of [src/cmem_internal.h]
    ([get_slab_class_index]) and the size-class API of [src/cmem_config.c]
    ([mp_preferred_size], [mp_preferred_size_for_pool], [mp_set_slab_classes],
    [mp_get_slab_classes]).  The theorems relate the 513-entry lookup table to
    the twelve class sizes and the API to the least class that fits. *)
From S2P Require Import Prelude.
From Stdlib Require Import ZArith Lia.
From stdpp Require Import base option list.
Open Scope Z_scope.

Definition SLAB_CLASS_COUNT : Z := 12.
Definition SLAB_MAX_SIZE : Z := 512.

Definition cmem_slab_class_size : list Z :=
  [8; 16; 24; 32; 48; 64; 96; 128; 192; 256; 384; 512].

(** The 513 initialisers, run-length encoded as the source comments them. *)
Definition cmem_size_to_class : list Z :=
  [0] ++ replicate 8 0 ++ replicate 8 1 ++ replicate 8 2 ++ replicate 8 3
  ++ replicate 16 4 ++ replicate 16 5 ++ replicate 32 6 ++ replicate 32 7
  ++ replicate 64 8 ++ replicate 64 9 ++ replicate 128 10 ++ replicate 128 11.

(** The part of [struct memory_pool] that holds the class table. *)
Record classes := Classes {
  use_custom_slab_sizes : bool;
  custom_slab_sizes : list Z;     (* size_t [SLAB_CLASS_COUNT] *)
  slot_sizes : list Z;            (* slab_classes[i].slot_size *)
}.

(** Index of the first class, from [i] on, for which the test holds; the scan
    [for (i = 0; i < SLAB_CLASS_COUNT; i++) if (...) return i]. *)
Fixpoint first_class (test : Z -> bool) (i : Z) (sizes : list Z) : option Z :=
  match sizes with
  | [] => None
  | s :: rest => if test s then Some i else first_class test (i + 1) rest
  end.

Definition get_slab_class_index (c : classes) (size : Z) : Z :=
  if use_custom_slab_sizes c then
    match first_class (fun s => size <=? s) 0 (custom_slab_sizes c) with
    | Some i => u8 i
    | None => SLAB_CLASS_COUNT
    end
  else if (0 <? size) && (size <=? 512) then
    default SLAB_CLASS_COUNT (cmem_size_to_class !! Z.to_nat size)
  else SLAB_CLASS_COUNT.

Definition slab_init_sizes (c : classes) : classes :=
  Classes (use_custom_slab_sizes c) (custom_slab_sizes c)
    (if use_custom_slab_sizes c then custom_slab_sizes c else cmem_slab_class_size).

Definition mp_preferred_size (size : Z) : Z :=
  if size =? 0 then 0
  else if size <=? SLAB_MAX_SIZE then
    match List.find (fun s => size <=? s) cmem_slab_class_size with
    | Some s => s
    | None => align8 size
    end
  else align8 size.

Definition mp_preferred_size_for_pool (pool : option classes) (size : Z) : Z :=
  match pool with
  | None => 0
  | Some c =>
      if size =? 0 then 0
      else if size <=? SLAB_MAX_SIZE then
        match List.find (fun s => size <=? s) (slot_sizes c) with
        | Some s => s
        | None => align8 size
        end
      else align8 size
  end.

(** The validation loop: no zero, strictly increasing. *)
Fixpoint sizes_valid (prev : option Z) (sizes : list Z) : bool :=
  match sizes with
  | [] => true
  | s :: rest =>
      negb (s =? 0) && match prev with Some p => negb (s <=? p) | None => true end
      && sizes_valid (Some s) rest
  end.

(** [for (i = count; i < SLAB_CLASS_COUNT; i++) c[i] = c[i - 1] * 2], in [size_t]. *)
Fixpoint extend_doubling (n : nat) (last : Z) : list Z :=
  match n with
  | O => []
  | S n => let next := u64 (last * 2) in next :: extend_doubling n next
  end.

Definition mp_set_slab_classes (pool : option classes) (sizes : option (list Z))
    : bool * option classes :=
  match pool, sizes with
  | Some c, Some sizes =>
      let count := Z.of_nat (length sizes) in
      if (count =? 0) || (SLAB_CLASS_COUNT <? count) then (false, Some c)
      else if negb (sizes_valid None sizes) then (false, Some c)
      else
        let table := sizes ++ extend_doubling (12 - length sizes) (List.last sizes 0) in
        (true, Some (Classes true table table))
  | _, _ => (false, pool)
  end.

Definition mp_get_slab_class_count (pool : option classes) : Z :=
  match pool with None => 0 | Some _ => SLAB_CLASS_COUNT end.

Definition mp_get_slab_classes (pool : option classes) (max_count : Z) : list Z :=
  match pool with
  | None => []
  | Some c =>
      let count := if max_count <? SLAB_CLASS_COUNT then max_count else SLAB_CLASS_COUNT in
      take (Z.to_nat count) (slot_sizes c)
  end.

(** ** Lemmas *)

Definition default_classes : classes := slab_init_sizes (Classes false (replicate 12 0) []).

(** Decide a property of every size in [0 .. n - 1] by computation. *)
Lemma forallb_below (P : Z -> bool) n :
  forallb P (map Z.of_nat (List.seq 0 n)) = true ->
  forall x, 0 <= x < Z.of_nat n -> P x = true.
Proof.
  rewrite forallb_forall. intros H x Hx. apply H, in_map_iff.
  exists (Z.to_nat x). split; [lia|]. apply in_seq. lia.
Qed.

(** [x] is served by the least class: it fits class [i] and no smaller one. *)
Definition least_class (sizes : list Z) (x i : Z) : Prop :=
  exists s, sizes !! Z.to_nat i = Some s /\ x <= s /\
    forall j t, (j < Z.to_nat i)%nat -> sizes !! j = Some t -> t < x.

Definition least_class_b (sizes : list Z) (x i : Z) : bool :=
  match sizes !! Z.to_nat i with
  | Some s => (x <=? s) && forallb (fun t => t <? x) (take (Z.to_nat i) sizes)
  | None => false
  end.

Lemma least_class_b_ok sizes x i : least_class_b sizes x i = true -> least_class sizes x i.
Proof.
  unfold least_class_b, least_class. destruct (sizes !! Z.to_nat i) as [s|] eqn:E; [|done].
  rewrite andb_true_iff, Z.leb_le, forallb_forall. intros [Hs Hall].
  exists s. split; [done|]. split; [done|]. intros j t Hj Ht.
  apply Z.ltb_lt, Hall, list_elem_of_In, list_elem_of_lookup. exists j.
  by rewrite lookup_take_lt.
Qed.

(** For every request of 1..512 bytes the 513-entry lookup table yields an
    in-range class index, and that class is the smallest of the twelve that can
    hold the request. *)
Theorem size_to_class_least (c : classes) (size : Z) :
  use_custom_slab_sizes c = false -> 0 < size <= SLAB_MAX_SIZE ->
  0 <= get_slab_class_index c size < SLAB_CLASS_COUNT /\
  least_class cmem_slab_class_size size (get_slab_class_index c size).
Proof.
  intros Hc Hs. unfold SLAB_MAX_SIZE in Hs.
  set (P := fun x => (x =? 0) || ((0 <=? get_slab_class_index default_classes x)
     && (get_slab_class_index default_classes x <? 12)
     && least_class_b cmem_slab_class_size x (get_slab_class_index default_classes x))).
  assert (HP : P size = true) by (apply (forallb_below P 513); [vm_compute; done|lia]).
  replace (get_slab_class_index c size) with (get_slab_class_index default_classes size)
    by (unfold get_slab_class_index; by rewrite Hc).
  unfold P in HP. destruct (Z.eqb_spec size 0); [lia|]. simpl in HP.
  apply andb_true_iff in HP as [HP1 HP2]. unfold SLAB_CLASS_COUNT.
  split; [lia|]. by apply least_class_b_ok.
Qed.

Lemma size_to_class_least_witness :
  0 < 100 <= SLAB_MAX_SIZE /\ get_slab_class_index default_classes 100 = 7 /\
  least_class cmem_slab_class_size 100 (get_slab_class_index default_classes 100).
Proof.
  split; [done|]. split; [reflexivity|].
  apply (size_to_class_least default_classes 100); [reflexivity|done].
Defined.

(** ** The size-class API *)

(** Strictly increasing, starting above [lo]. *)
Fixpoint increasing_from (lo : Z) (l : list Z) : Prop :=
  match l with [] => True | s :: rest => lo < s /\ increasing_from s rest end.

Lemma last_default (z d d' : Z) l : List.last (z :: l) d = List.last (z :: l) d'.
Proof. revert z. induction l as [|y l IH]; intros z; [done|]. apply (IH y). Qed.

Lemma increasing_from_app lo l1 l2 :
  increasing_from lo l1 -> increasing_from (List.last l1 lo) l2 -> increasing_from lo (l1 ++ l2).
Proof.
  revert lo. induction l1 as [|x l1 IH]; intros lo; simpl; [done|].
  intros [H1 H2] H3. split; [done|]. apply IH; [done|].
  destruct l1 as [|z l1]; [done|]. by rewrite (last_default z x lo).
Qed.

Lemma increasing_from_above l lo j y : increasing_from lo l -> l !! j = Some y -> lo < y.
Proof.
  revert lo j. induction l as [|s l IH]; intros lo j; [done|]. intros [Hs Hl].
  destruct j as [|j]; simpl; [by intros [= <-]|]. intros Hy.
  specialize (IH s j Hl Hy). lia.
Qed.

Lemma increasing_from_lookup l lo i j x y :
  increasing_from lo l -> (i < j)%nat -> l !! i = Some x -> l !! j = Some y -> x < y.
Proof.
  revert lo i j. induction l as [|s l IH]; intros lo i j; [done|]. intros [Hs Hl] Hij.
  destruct j as [|j]; [lia|]. destruct i as [|i]; simpl.
  - intros [= <-]. by apply increasing_from_above.
  - intros Hx Hy. apply (IH s i j); [done|lia|done..].
Qed.

Lemma sizes_valid_increasing p l :
  Forall (fun x => 0 <= x) l -> 0 <= p ->
  sizes_valid (Some p) l = true -> increasing_from p l.
Proof.
  revert p. induction l as [|s l IH]; intros p; simpl; [done|].
  rewrite Forall_cons, !andb_true_iff, !negb_true_iff, Z.leb_gt, Z.eqb_neq.
  intros [??] ? [[??]?]. split; [lia|]. apply IH; [done|lia|done].
Qed.

Lemma sizes_valid_None_increasing l :
  Forall (fun x => 0 <= x) l -> sizes_valid None l = true -> increasing_from 0 l.
Proof.
  destruct l as [|s l]; simpl; [done|].
  rewrite Forall_cons, !andb_true_iff, !negb_true_iff, Z.eqb_neq.
  intros [??] [[??]?]. split; [lia|]. apply sizes_valid_increasing; [done|lia|done].
Qed.

Lemma extend_doubling_increasing n last :
  0 < last -> last * 2 ^ Z.of_nat n < 2 ^ 64 ->
  increasing_from last (extend_doubling n last).
Proof.
  revert last. induction n as [|n IH]; intros last H0 Hb; [done|].
  rewrite Nat2Z.inj_succ, Z.pow_succ_r in Hb by lia.
  assert (0 < 2 ^ Z.of_nat n) by (apply Z.pow_pos_nonneg; lia).
  simpl. rewrite u64_small by nia. split; [lia|]. apply IH; [lia|]. nia.
Qed.

Lemma extend_doubling_length n last : length (extend_doubling n last) = n.
Proof. revert last. induction n; intros; simpl; [done|]. by rewrite IHn. Qed.

Lemma find_first_class test i l :
  match List.find test l with
  | Some s => exists k, first_class test i l = Some (i + Z.of_nat k) /\ l !! k = Some s
  | None => first_class test i l = None
  end.
Proof.
  revert i. induction l as [|s l IH]; intros i; simpl; [done|].
  destruct (test s) eqn:Ht.
  - exists 0%nat. split; [f_equal; lia|done].
  - specialize (IH (i + 1)). destruct (List.find test l); [|done].
    destruct IH as [k [-> Hk]]. exists (S k). split; [f_equal; lia|done].
Qed.

Lemma find_leb_least size l lo s :
  increasing_from lo l -> List.find (fun t => size <=? t) l = Some s ->
  size <= s /\ s ∈ l /\ forall t, t ∈ l -> size <= t -> s <= t.
Proof.
  revert lo. induction l as [|x l IH]; intros lo; simpl; [done|]. intros [Hx Hl].
  destruct (Z.leb_spec size x) as [Hle|Hgt].
  - intros [= <-]. split; [done|]. split; [left|]. intros t Ht _.
    apply list_elem_of_lookup in Ht as [[|i] Hi]; simpl in Hi; [by injection Hi as <-; lia|].
    enough (x < t) by lia. eapply (increasing_from_lookup (x :: l) lo 0 (S i)); eauto; [done|lia].
  - intros Hf. destruct (IH x Hl Hf) as (H1 & H2 & H3). split; [done|]. split; [by right|].
    intros t Ht Hst. apply elem_of_cons in Ht as [->|Ht]; [lia|auto].
Qed.

(** [mp_preferred_size] never shrinks a request, returns a fixed point of
    itself, and for slab requests returns the least class size that fits; it
    agrees with the class that [get_slab_class_index] selects. *)
Theorem preferred_size_spec (c : classes) (size : Z) :
  0 < size < SIZE_MAX - 7 -> use_custom_slab_sizes c = false ->
  size <= mp_preferred_size size /\
  mp_preferred_size (mp_preferred_size size) = mp_preferred_size size /\
  (size <= SLAB_MAX_SIZE ->
     cmem_slab_class_size !! Z.to_nat (get_slab_class_index c size)
       = Some (mp_preferred_size size)) /\
  (SLAB_MAX_SIZE < size -> mp_preferred_size size < size + 8
     /\ mp_preferred_size size mod 8 = 0).
Proof.
  unfold SIZE_MAX, SLAB_MAX_SIZE. intros Hs Hc.
  destruct (Z.le_gt_cases size 512) as [Hle|Hgt].
  - set (P := fun x => (x =? 0) || ((x <=? mp_preferred_size x)
      && (mp_preferred_size (mp_preferred_size x) =? mp_preferred_size x)
      && bool_decide (cmem_slab_class_size !! Z.to_nat (get_slab_class_index default_classes x)
           = Some (mp_preferred_size x)))).
    assert (HP : P size = true) by (apply (forallb_below P 513); [vm_compute; done|lia]).
    replace (get_slab_class_index c size) with (get_slab_class_index default_classes size)
      by (unfold get_slab_class_index; by rewrite Hc).
    unfold P in HP. destruct (Z.eqb_spec size 0); [lia|]. simpl in HP.
    apply andb_true_iff in HP as [HP HP3]. apply andb_true_iff in HP as [HP1 HP2].
    apply bool_decide_eq_true in HP3. split; [lia|]. split; [lia|]. split; [done|]. lia.
  - assert (Hbig : forall y, 512 < y -> mp_preferred_size y = align8 y).
    { intros y Hy. unfold mp_preferred_size, SLAB_MAX_SIZE. by zcase; try lia. }
    destruct (align8_bounds size) as [Hb Hm]; [lia..|].
    rewrite (Hbig size) by lia. rewrite (Hbig (align8 size)) by lia.
    split; [lia|]. split; [|split; [lia|intros _; split; [lia|done]]].
    apply align8_multiple; [|done].
    set (y := align8 size) in *. clearbody y. clear Hbig. zdiv.
Qed.

Lemma preferred_size_spec_witness :
  mp_preferred_size 700 = 704 /\ 700 <= mp_preferred_size 700.
Proof.
  split; [reflexivity|].
  exact (proj1 (preferred_size_spec default_classes 700
    ltac:(unfold SIZE_MAX; lia) eq_refl)).
Defined.

(** The tables a caller may install: one to twelve sizes, positive and strictly increasing. *)
Definition valid_table (sizes : list Z) : Prop :=
  (1 <= length sizes <= 12)%nat /\ increasing_from 0 sizes.

Lemma increasing_valid p l : 0 <= p -> increasing_from p l -> sizes_valid (Some p) l = true.
Proof.
  revert p. induction l as [|s l IH]; intros p Hp; simpl; [done|]. intros [Hs Hl].
  rewrite (proj2 (Z.eqb_neq s 0)), (proj2 (Z.leb_gt s p)) by lia. apply IH; [lia|done].
Qed.

Lemma sizes_valid_iff l : Forall (fun x => 0 <= x) l -> sizes_valid None l = true <-> increasing_from 0 l.
Proof.
  intros Hp. split; [by apply sizes_valid_None_increasing|]. destruct l as [|s l]; [done|]. intros [Hs Hl]. simpl.
  rewrite (proj2 (Z.eqb_neq s 0)) by lia. apply increasing_valid; [lia|done].
Qed.

Lemma increasing_last_pos l : increasing_from 0 l -> l <> [] -> 0 < List.last l 0.
Proof.
  destruct l as [|x l]; [done|]. intros [Hx Hinc] _. revert x Hinc Hx.
  induction l as [|y l IH]; intros x; simpl; [done|]. intros [Hy Hl] Hx. apply (IH y); [done|lia].
Qed.

(** Each added size is twice the one before it. *)
Lemma extend_doubling_step n l d i x :
  (length l <= i < length l + n)%nat -> l <> [] -> (l ++ extend_doubling n (List.last l d)) !! (i - 1)%nat = Some x ->
  (l ++ extend_doubling n (List.last l d)) !! i = Some (u64 (2 * x)).
Proof.
  revert l i. induction n as [|n IH]; intros l i Hi Hl Hx; [lia|]. cbn [extend_doubling] in *. cbn zeta in *.
  set (y := u64 (List.last l d * 2)) in *.
  assert (Ey : List.last (l ++ [y]) d = y) by apply List.last_last.
  replace (l ++ y :: extend_doubling n y) with ((l ++ [y]) ++ extend_doubling n (List.last (l ++ [y]) d)) in *
    by (rewrite Ey, <- app_assoc; done).
  destruct (decide (i = length l)) as [->|Hne].
  - rewrite Ey, <- app_assoc in *. cbn [app] in *. rewrite list_lookup_middle by done.
    rewrite lookup_app_l in Hx by (destruct l; [done|cbn; lia]).
    destruct (exists_last Hl) as (l' & z & ->). rewrite length_app in Hx. cbn in Hx.
    replace (length l' + 1 - 1)%nat with (length l') in Hx by lia. rewrite list_lookup_middle in Hx by done. injection Hx as ->.
    unfold y. rewrite List.last_last. f_equal. f_equal. lia.
  - apply IH; [rewrite length_app; cbn; lia|by destruct l|done].
Qed.

(** C38: a class table is accepted exactly when it has one to twelve sizes, positive and
    strictly increasing; a rejected one leaves the pool unchanged.  An accepted one is
    installed as the first of twelve sizes, each further size twice the one before it (in
    64 bits), for the lookup and for the classes; [mp_get_slab_classes] reads the caller's
    sizes back.  The whole table increases as long as the doubling does not wrap. *)
Theorem set_slab_classes_spec (c : classes) (sizes : list Z) :
  Forall (fun x => 0 <= x) sizes ->
  (fst (mp_set_slab_classes (Some c) (Some sizes)) = true <-> valid_table sizes) /\
  match mp_set_slab_classes (Some c) (Some sizes) with
  | (true, Some c') =>
      length (slot_sizes c') = 12%nat /\ take (length sizes) (slot_sizes c') = sizes /\
      (forall i x, (length sizes <= i < 12)%nat -> slot_sizes c' !! (i - 1)%nat = Some x ->
         slot_sizes c' !! i = Some (u64 (2 * x))) /\
      (List.last sizes 0 * 2 ^ Z.of_nat (12 - length sizes) < 2 ^ 64 -> increasing_from 0 (slot_sizes c')) /\
      custom_slab_sizes c' = slot_sizes c' /\ use_custom_slab_sizes c' = true /\
      mp_get_slab_classes (Some c') (Z.of_nat (length sizes)) = sizes
  | (ok, p) => ok = false /\ p = Some c
  end.
Proof.
  intros Hpos. unfold mp_set_slab_classes, SLAB_CLASS_COUNT, valid_table. rewrite <- (sizes_valid_iff sizes Hpos).
  destruct (orb _ _) eqn:Hcnt.
  { split; [|done]. split; [done|]. intros [Hl _]. apply orb_true_iff in Hcnt as [H%Z.eqb_eq|H%Z.ltb_lt]; lia. }
  apply orb_false_iff in Hcnt as [Hc0%Z.eqb_neq Hc1%Z.ltb_ge].
  destruct (sizes_valid None sizes) eqn:Hv; cbn [negb fst]; [|split; [split; [done|by intros [_ ?]]|done]].
  split; [split; [intros _; split; [lia|done]|done]|]. cbn [slot_sizes custom_slab_sizes use_custom_slab_sizes].
  apply (sizes_valid_iff sizes Hpos) in Hv. assert (Hne : sizes <> []) by (intros ->; cbn in Hc0; lia).
  split_and!; try done.
  - rewrite length_app, extend_doubling_length. lia.
  - by rewrite take_app_length.
  - intros i x Hi Hx. apply extend_doubling_step; [lia|done|done].
  - intros Hb. apply increasing_from_app; [done|]. apply extend_doubling_increasing; [|done]. by apply increasing_last_pos.
  - unfold mp_get_slab_classes, SLAB_CLASS_COUNT. cbn [slot_sizes]. replace (Z.to_nat _) with (length sizes) by (zcase; lia).
    by rewrite take_app_length.
Qed.

Definition example_custom_sizes : list Z := [8; 16; 24; 32; 40; 48; 56; 64; 72; 80; 88; 96].

Lemma set_slab_classes_spec_witness :
  exists c', mp_set_slab_classes (Some default_classes) (Some [16; 64]) = (true, Some c') /\
    List.last (slot_sizes c') 0 = 65536 /\ increasing_from 0 (slot_sizes c').
Proof.
  eexists. split; [reflexivity|]. split; [reflexivity|].
  exact (proj1 (proj2 (proj2 (proj2 (proj2 (set_slab_classes_spec default_classes [16; 64]
    ltac:(repeat constructor; lia)))))) ltac:(vm_compute; reflexivity)).
Defined.

(** With a valid custom table the class lookup is the least fitting class
    when one exists and the out-of-range index [SLAB_CLASS_COUNT] otherwise:
    a slab-tier request (at most 512 bytes) then indexes one past the end of
    every per-class array, because the callers do not test the index. *)
Theorem custom_class_out_of_range (c : classes) (size : Z) :
  use_custom_slab_sizes c = true -> length (custom_slab_sizes c) = 12%nat ->
  increasing_from 0 (custom_slab_sizes c) -> 0 < size <= SLAB_MAX_SIZE ->
  (size <= List.last (custom_slab_sizes c) 0 ->
     0 <= get_slab_class_index c size < SLAB_CLASS_COUNT /\
     exists s, custom_slab_sizes c !! Z.to_nat (get_slab_class_index c size) = Some s
       /\ size <= s /\ forall t, t ∈ custom_slab_sizes c -> size <= t -> s <= t) /\
  (List.last (custom_slab_sizes c) 0 < size ->
     get_slab_class_index c size = SLAB_CLASS_COUNT).
Proof.
  intros Hc Hlen Hinc Hs. unfold get_slab_class_index. rewrite Hc.
  set (l := custom_slab_sizes c) in *.
  pose proof (find_first_class (fun s => size <=? s) 0 l) as Hf.
  assert (Hlast : exists x, last l = Some x /\ List.last l 0 = x).
  { destruct (list.last l) as [x|] eqn:E.
    - exists x. split; [done|]. apply last_Some in E as [l' ->]. by rewrite List.last_last.
    - apply last_None in E. rewrite E in Hlen. done. }
  destruct Hlast as (x & Hx & ->).
  destruct (List.find _ l) as [s|] eqn:E.
  - destruct Hf as [k [Hk Hks]]. rewrite Hk. apply lookup_lt_Some in Hks as Hlt.
    assert (Hu : u8 (0 + Z.of_nat k) = Z.of_nat k) by (rewrite u8_small; lia).
    destruct (find_leb_least size l 0 s Hinc E) as (H1 & H2 & H3).
    rewrite Hu. unfold SLAB_CLASS_COUNT. split.
    + intros _. split; [lia|]. exists s. rewrite Nat2Z.id. done.
    + intros Hl. exfalso. enough (s <= x) by lia.
      rewrite last_lookup, Hlen in Hx. simpl in Hx.
      destruct (decide (k = 11%nat)) as [->|Hne]; [by simplify_eq; lia|].
      enough (s < x) by lia. eapply (increasing_from_lookup l 0 k 11); eauto. lia.
  - rewrite Hf. split; [|done]. intros Hle. exfalso.
    apply last_Some in Hx as [l' Hl'].
    assert (HF := List.find_none _ _ E x). simpl in HF.
    assert (In x l) by (rewrite Hl'; apply in_or_app; right; by left).
    specialize (HF H). apply Z.leb_gt in HF. lia.
Qed.

Lemma custom_class_out_of_range_witness :
  exists c, mp_set_slab_classes (Some default_classes) (Some example_custom_sizes)
              = (true, Some c) /\ get_slab_class_index c 100 = SLAB_CLASS_COUNT.
Proof.
  eexists. split; [reflexivity|].
  exact (proj2 (custom_class_out_of_range
    (Classes true (example_custom_sizes ++ []) (example_custom_sizes ++ [])) 100
    eq_refl eq_refl ltac:(vm_compute; repeat split) ltac:(unfold SLAB_MAX_SIZE; lia))
    eq_refl).
Defined.
