(* ===== verification/Lz4.v ===== *)
(** * The block codec of [src/cmem_compress.c]

    [cmem_lz4_compress] and [cmem_lz4_decompress] on byte arrays ([list Z]).
    Pointers are offsets: [ip] into [src], [op] is the length of the output
    written so far, [oend] the capacity of the destination.  Every read of a
    buffer goes through [rd], so an out-of-bounds read is a [Fault]; a loop that
    outlives its fuel is a [Fault] as well.  The theorems: the encoder is safe,
    terminates and respects its capacity, it succeeds when the capacity reaches
    the worst-case bound, the decoder is safe on arbitrary input, and decoding
    an encoded block restores it. *)
From S2P Require Import Prelude.
From Stdlib Require Import ZArith Lia.
From stdpp Require Import base option list.
Open Scope Z_scope.

Definition CMEM_LZ4_MAX_EXT : Z := 255.
Definition CMEM_LZ4_MIN_MATCH : Z := 4.
Definition CMEM_LZ4_MAX_DIST : Z := 0xFFFF.
Definition CMEM_LZ4_TOKEN_NIBBLE : Z := 15.
Definition CMEM_LZ4_NIBBLE_MASK : Z := 0x0F.
Definition CMEM_LZ4_OFF_BYTE_MASK : Z := 0xFF.
Definition CMEM_LZ4_PROBE : Z := 4096.

(** ** Encoder *)

(** The extension bytes that [cmem_lz4_write_len] stores at [op], or [Err]. *)
Fixpoint write_len_loop (fuel : nat) (op oend len : Z) : outcome (list Z) :=
  match fuel with
  | O => Fault
  | S fuel =>
      if CMEM_LZ4_MAX_EXT <=? len then
        if oend <=? op then Err
        else
          rest ← write_len_loop fuel (op + 1) oend (len - CMEM_LZ4_MAX_EXT);
          mret (CMEM_LZ4_MAX_EXT :: rest)
      else if oend <=? op then Err
      else mret [u8 len]
  end.

Definition cmem_lz4_write_len (op oend len : Z) : outcome (list Z) :=
  write_len_loop (S (Z.to_nat len)) op oend len.

(** [while (len < probe_len && cand[len] == ip[len]) len++] with [cand = ip - off]. *)
Fixpoint match_len_loop (fuel : nat) (src : list Z) (ip off probe len : Z) : outcome Z :=
  match fuel with
  | O => Fault
  | S fuel =>
      if len <? probe then
        a ← rd src (ip - off + len);
        b ← rd src (ip + len);
        if a =? b then match_len_loop fuel src ip off probe (len + 1) else mret len
      else mret len
  end.

(** The probe over every offset: the first longest match. *)
Fixpoint best_match_loop (fuel : nat) (src : list Z) (ip probe max_off off : Z)
    (best : Z * Z) : outcome (Z * Z) :=
  match fuel with
  | O => Fault
  | S fuel =>
      if off <=? max_off then
        len ← match_len_loop (S (Z.to_nat probe)) src ip off probe 0;
        if best.1 <? len then
          if len =? probe then mret (len, off)
          else best_match_loop fuel src ip probe max_off (off + 1) (len, off)
        else best_match_loop fuel src ip probe max_off (off + 1) best
      else mret best
  end.

Definition best_match (src : list Z) (ip : Z) : outcome (Z * Z) :=
  let iend := zlen src in
  let probe := if CMEM_LZ4_PROBE <? iend - ip then CMEM_LZ4_PROBE else iend - ip in
  if 0 <? ip then
    let max_off := if CMEM_LZ4_MAX_DIST <? ip then CMEM_LZ4_MAX_DIST else ip in
    best_match_loop (S (Z.to_nat max_off)) src ip probe max_off 1 (0, 0)
  else mret (0, 0).

(** [*op++ = b], with the capacity test in front. *)
Definition put_byte (oend : Z) (out : list Z) (b : Z) : outcome (list Z) :=
  if oend <? zlen out + 1 then Err else mret (out ++ [b]).

Definition nibble (n : Z) : Z :=
  if n <? CMEM_LZ4_TOKEN_NIBBLE then n else CMEM_LZ4_TOKEN_NIBBLE.

Definition put_ext (oend : Z) (out : list Z) (n : Z) : outcome (list Z) :=
  if CMEM_LZ4_TOKEN_NIBBLE <=? n then
    ext ← cmem_lz4_write_len (zlen out) oend (n - CMEM_LZ4_TOKEN_NIBBLE);
    mret (out ++ ext)
  else mret out.

(** Length extension and literal bytes of one sequence.  The match-sequence
    code guards the copy with [lit_len > 0] and the final one does not; for an
    empty literal run both write nothing. *)
Definition put_literals (oend : Z) (src out : list Z) (anchor lit_len : Z) : outcome (list Z) :=
  out ← put_ext oend out lit_len;
  if oend <? zlen out + lit_len then Err
  else if zlen src <? anchor + lit_len then Fault
  else mret (out ++ slice src anchor lit_len).

(** Flush pending literals plus one match. *)
Definition put_sequence (oend : Z) (src out : list Z) (anchor ip mlen moff : Z)
    : outcome (list Z) :=
  let lit_len := ip - anchor in
  out ← put_byte oend out
    (Z.lor (u8 (Z.shiftl (nibble lit_len) 4)) (u8 (nibble (mlen - CMEM_LZ4_MIN_MATCH))));
  out ← put_literals oend src out anchor lit_len;
  if oend <? zlen out + 2 then Err
  else
    let off := u16 moff in
    let out := out ++ [u8 (Z.land off CMEM_LZ4_OFF_BYTE_MASK); u8 (Z.shiftr off 8)] in
    put_ext oend out (mlen - CMEM_LZ4_MIN_MATCH).

Fixpoint compress_loop (fuel : nat) (src : list Z) (oend ip anchor : Z) (out : list Z)
    : outcome (Z * list Z) :=
  match fuel with
  | O => Fault
  | S fuel =>
      if ip <? zlen src then
        best ← best_match src ip;
        if best.1 <? CMEM_LZ4_MIN_MATCH then compress_loop fuel src oend (ip + 1) anchor out
        else
          out ← put_sequence oend src out anchor ip best.1 best.2;
          compress_loop fuel src oend (ip + best.1) (ip + best.1) out
      else mret (anchor, out)
  end.

(** Trailing literals-only sequence. *)
Definition put_final (oend : Z) (src out : list Z) (anchor : Z) : outcome (list Z) :=
  if anchor <? zlen src then
    let lit_len := zlen src - anchor in
    out ← put_byte oend out (u8 (Z.shiftl (nibble lit_len) 4));
    put_literals oend src out anchor lit_len
  else mret out.

(** The bytes written to [dst] ([Done]; the C result is their number), or [-1] ([Err]). *)
Definition cmem_lz4_compress (src : list Z) (dst_cap : Z) : outcome (list Z) :=
  if (zlen src <=? 0) || (dst_cap <=? 0) then Err
  else
    r ← compress_loop (S (length src)) src dst_cap 0 0 [];
    put_final dst_cap src r.2 r.1.

(** ** Decoder *)

(** [for (;;) { if (ip >= iend) return -1; ext = *ip++; len += ext; if (ext != 255) break; }]
    on an [int] accumulator. *)
Fixpoint read_ext_loop (fuel : nat) (src : list Z) (ip len : Z) : outcome (Z * Z) :=
  match fuel with
  | O => Fault
  | S fuel =>
      if zlen src <=? ip then Err
      else
        ext ← rd src ip;
        let len := len + ext in
        if INT_MAX <? len then Fault
        else if ext =? CMEM_LZ4_MAX_EXT then read_ext_loop fuel src (ip + 1) len
        else mret (ip + 1, len)
  end.

Definition read_len (src : list Z) (ip len : Z) : outcome (Z * Z) :=
  if len =? CMEM_LZ4_TOKEN_NIBBLE then read_ext_loop (S (length src)) src ip len
  else mret (ip, len).

(** [for (i = 0; i < match_len; i++) op[i] = op[i - off]]. *)
Fixpoint copy_match (n : nat) (off : Z) (out : list Z) : outcome (list Z) :=
  match n with
  | O => mret out
  | S n => b ← rd out (zlen out - off); copy_match n off (out ++ [b])
  end.

Fixpoint decompress_loop (fuel : nat) (src : list Z) (dst_size ip : Z) (out : list Z)
    : outcome (list Z) :=
  match fuel with
  | O => Fault
  | S fuel =>
      let iend := zlen src in
      if iend <=? ip then mret out
      else
        token ← rd src ip;
        r ← read_len src (ip + 1) (Z.land (Z.shiftr token 4) CMEM_LZ4_NIBBLE_MASK);
        let '(ip, lit_len) := r in
        if (dst_size <? zlen out + lit_len) || (iend <? ip + lit_len) then Err
        else
          let out := out ++ slice src ip lit_len in
          let ip := ip + lit_len in
          if iend <=? ip then mret out
          else if iend <? ip + 2 then Err
          else
            b0 ← rd src ip;
            b1 ← rd src (ip + 1);
            let off := u16 (Z.lor b0 (Z.shiftl b1 8)) in
            let ip := ip + 2 in
            if (off =? 0) || (zlen out <? off) then Err
            else
              r ← read_len src ip (Z.land token CMEM_LZ4_NIBBLE_MASK);
              let '(ip, match_len) := r in
              let match_len := match_len + CMEM_LZ4_MIN_MATCH in
              if INT_MAX <? match_len then Fault
              else if dst_size <? zlen out + match_len then Err
              else
                out ← copy_match (Z.to_nat match_len) off out;
                decompress_loop fuel src dst_size ip out
  end.

Definition cmem_lz4_decompress (src : list Z) (dst_size : Z) : outcome (list Z) :=
  decompress_loop (S (length src)) src dst_size 0 [].

Definition is_byte (b : Z) : Prop := 0 <= b < 256.
Definition bytes (l : list Z) : Prop := Forall is_byte l.

Example lz4_example :
  let src := [1; 2; 3; 1; 2; 3; 1; 2; 3; 1; 2; 3; 9] in
  cmem_lz4_compress src 13 = Done [53; 1; 2; 3; 3; 0; 16; 9] /\
  cmem_lz4_decompress [53; 1; 2; 3; 3; 0; 16; 9] 13 = Done src.
Proof. vm_compute. done. Qed.

(** ** The byte format *)

(** Length-extension bytes for a length [n]. *)
Definition ext_bytes (n : Z) : list Z :=
  if CMEM_LZ4_TOKEN_NIBBLE <=? n then
    replicate (Z.to_nat ((n - 15) / 255)) 255 ++ [(n - 15) mod 255]
  else [].

Definition token (lit m : Z) : Z := Z.lor (u8 (Z.shiftl (nibble lit) 4)) (u8 (nibble m)).

(** The sequence: literals [src[a .. a + lit)], then a match of [m] bytes at distance [off]. *)
Definition seq_bytes (src : list Z) (a lit m off : Z) : list Z :=
  [token lit (m - CMEM_LZ4_MIN_MATCH)] ++ ext_bytes lit ++ slice src a lit
  ++ [u8 (Z.land (u16 off) CMEM_LZ4_OFF_BYTE_MASK); u8 (Z.shiftr (u16 off) 8)]
  ++ ext_bytes (m - CMEM_LZ4_MIN_MATCH).

Definition final_bytes (src : list Z) (a lit : Z) : list Z :=
  [u8 (Z.shiftl (nibble lit) 4)] ++ ext_bytes lit ++ slice src a lit.

Definition ext_size (n : Z) : Z := if CMEM_LZ4_TOKEN_NIBBLE <=? n then (n - 15) / 255 + 1 else 0.

Lemma zlen_ext_bytes n : zlen (ext_bytes n) = ext_size n.
Proof.
  unfold ext_bytes, ext_size, CMEM_LZ4_TOKEN_NIBBLE. zcase; [|done].
  rewrite zlen_app, zlen_cons, zlen_nil. unfold zlen. rewrite length_replicate. zdiv.
Qed.

Lemma ext_size_bounds n :
  0 <= n -> 0 <= ext_size n /\ (n < 15 -> ext_size n = 0) /\ 255 * ext_size n <= n + 240
    /\ (15 <= n -> 1 <= ext_size n).
Proof. unfold ext_size, CMEM_LZ4_TOKEN_NIBBLE. intros. zcase; zdiv. Qed.

Lemma write_len_loop_eq fuel op oend len :
  0 <= len -> (Z.to_nat len < fuel)%nat ->
  write_len_loop fuel op oend len =
    if op + len / 255 + 1 <=? oend
    then Done (replicate (Z.to_nat (len / 255)) 255 ++ [len mod 255]) else Err.
Proof.
  revert op len. induction fuel as [|fuel IH]; intros op len Hlen Hf; [lia|].
  simpl. unfold CMEM_LZ4_MAX_EXT in *. destruct (Z.leb_spec 255 len) as [Hbig|Hsmall].
  - assert (Hq : len / 255 = (len - 255) / 255 + 1) by zdiv.
    assert (Hr : len mod 255 = (len - 255) mod 255) by zdiv.
    assert (0 <= (len - 255) / 255) by zdiv.
    destruct (Z.leb_spec oend op).
    + by destruct (Z.leb_spec (op + len / 255 + 1) oend); [lia|].
    + rewrite IH by lia. rewrite Hq, Hr.
      replace (op + 1 + (len - 255) / 255 + 1) with (op + ((len - 255) / 255 + 1) + 1) by lia.
      destruct (Z.leb_spec (op + ((len - 255) / 255 + 1) + 1) oend); simpl; [|done].
      rewrite Z2Nat.inj_add by lia. change (Z.to_nat 1) with 1%nat. by rewrite Nat.add_1_r.
  - assert (Hq : len / 255 = 0) by zdiv. assert (Hr : len mod 255 = len) by zdiv.
    rewrite Hq, Hr. destruct (Z.leb_spec oend op), (Z.leb_spec (op + 0 + 1) oend); try lia; [done|].
    simpl. by rewrite u8_small by lia.
Qed.

Lemma put_ext_eq oend out n :
  0 <= n -> zlen out <= oend ->
  put_ext oend out n =
    if zlen out + ext_size n <=? oend then Done (out ++ ext_bytes n) else Err.
Proof.
  intros Hn Ho. unfold put_ext, ext_size, ext_bytes, cmem_lz4_write_len, CMEM_LZ4_TOKEN_NIBBLE.
  destruct (Z.leb_spec 15 n).
  - rewrite write_len_loop_eq by lia. rewrite Z.add_assoc. by destruct (_ <=? oend).
  - rewrite Z.add_0_r. destruct (Z.leb_spec (zlen out) oend); [|lia]. by rewrite app_nil_r.
Qed.

Lemma put_literals_eq oend src out a lit :
  0 <= a -> 0 <= lit -> a + lit <= zlen src -> zlen out <= oend ->
  put_literals oend src out a lit =
    if zlen out + ext_size lit + lit <=? oend
    then Done (out ++ ext_bytes lit ++ slice src a lit) else Err.
Proof.
  intros Ha Hl Hs Ho. unfold put_literals. rewrite put_ext_eq by done.
  destruct (Z.leb_spec (zlen out + ext_size lit) oend); simpl.
  - rewrite zlen_app, zlen_ext_bytes.
    destruct (Z.ltb_spec oend (zlen out + ext_size lit + lit)),
      (Z.leb_spec (zlen out + ext_size lit + lit) oend); try lia; [done|].
    destruct (Z.ltb_spec (zlen src) (a + lit)); [lia|]. by rewrite <- app_assoc.
  - by destruct (Z.leb_spec (zlen out + ext_size lit + lit) oend); [lia|].
Qed.

Definition seq_size (lit m : Z) : Z := 1 + ext_size lit + lit + 2 + ext_size (m - 4).

Lemma zlen_seq_bytes src a lit m off :
  0 <= a -> 0 <= lit -> a + lit <= zlen src -> zlen (seq_bytes src a lit m off) = seq_size lit m.
Proof.
  intros. unfold seq_bytes, seq_size, CMEM_LZ4_MIN_MATCH.
  rewrite !zlen_app, !zlen_cons, !zlen_nil, !zlen_ext_bytes, zlen_slice by lia. lia.
Qed.

Lemma zlen_final_bytes src a lit :
  0 <= a -> 0 <= lit -> a + lit <= zlen src ->
  zlen (final_bytes src a lit) = 1 + ext_size lit + lit.
Proof.
  intros. unfold final_bytes. rewrite !zlen_app, !zlen_cons, !zlen_nil, zlen_ext_bytes, zlen_slice by lia.
  lia.
Qed.

Lemma put_sequence_eq oend src out a ip m off :
  0 <= a <= ip -> ip <= zlen src -> 4 <= m -> zlen out <= oend ->
  put_sequence oend src out a ip m off =
    if zlen out + seq_size (ip - a) m <=? oend
    then Done (out ++ seq_bytes src a (ip - a) m off) else Err.
Proof.
  intros Ha Hip Hm Ho. unfold put_sequence, put_byte, seq_size, seq_bytes, CMEM_LZ4_MIN_MATCH.
  destruct (ext_size_bounds (ip - a)) as (He1 & _); [lia|].
  destruct (ext_size_bounds (m - 4)) as (He2 & _); [lia|].
  destruct (Z.ltb_spec oend (zlen out + 1)); simpl.
  { by destruct (Z.leb_spec (zlen out + (1 + ext_size (ip - a) + (ip - a) + 2 + ext_size (m - 4))) oend); [lia|]. }
  assert (H1 : forall x : Z, zlen (out ++ [x]) = zlen out + 1)
    by (intros; rewrite zlen_app, zlen_cons, zlen_nil; lia).
  rewrite put_literals_eq by (rewrite ?H1; lia). rewrite H1.
  destruct (Z.leb_spec (zlen out + 1 + ext_size (ip - a) + (ip - a)) oend); simpl.
  2: { by destruct (Z.leb_spec (zlen out + (1 + ext_size (ip - a) + (ip - a) + 2 + ext_size (m - 4))) oend); [lia|]. }
  rewrite !zlen_app, zlen_ext_bytes, zlen_slice, zlen_cons, zlen_nil by lia.
  destruct (Z.ltb_spec oend (zlen out + (1 + 0) + (ext_size (ip - a) + (ip - a)) + 2)).
  { by destruct (Z.leb_spec (zlen out + (1 + ext_size (ip - a) + (ip - a) + 2 + ext_size (m - 4))) oend); [lia|]. }
  rewrite put_ext_eq; [|lia|].
  2: { rewrite !zlen_app, zlen_ext_bytes, zlen_slice, !zlen_cons, zlen_nil by lia. lia. }
  rewrite !zlen_app, zlen_ext_bytes, zlen_slice, !zlen_cons, zlen_nil by lia.
  match goal with |- (if ?x <=? _ then _ else _) = (if ?y <=? _ then _ else _) =>
    replace y with x by lia end.
  destruct (_ <=? oend); [|done]. unfold token. by rewrite <- !app_assoc.
Qed.

Lemma put_final_eq oend src out a :
  0 <= a < zlen src -> zlen out <= oend ->
  put_final oend src out a =
    if zlen out + (1 + ext_size (zlen src - a) + (zlen src - a)) <=? oend
    then Done (out ++ final_bytes src a (zlen src - a)) else Err.
Proof.
  intros Ha Ho. unfold put_final, put_byte, final_bytes.
  destruct (Z.ltb_spec a (zlen src)); [|lia].
  destruct (ext_size_bounds (zlen src - a)) as (He1 & _); [lia|].
  destruct (Z.ltb_spec oend (zlen out + 1)); simpl.
  { by destruct (Z.leb_spec (zlen out + (1 + ext_size (zlen src - a) + (zlen src - a))) oend); [lia|]. }
  assert (H1 : forall x : Z, zlen (out ++ [x]) = zlen out + 1)
    by (intros; rewrite zlen_app, zlen_cons, zlen_nil; lia).
  rewrite put_literals_eq by (rewrite ?H1; lia). rewrite H1.
  match goal with |- (if ?x <=? _ then _ else _) = (if ?y <=? _ then _ else _) =>
    replace y with x by lia end.
  destruct (_ <=? oend); [|done]. by rewrite <- app_assoc.
Qed.

(** ** Matches *)

(** [len] bytes at [ip] repeat the bytes [off] before them. *)
Definition is_match (src : list Z) (ip off len : Z) : Prop :=
  0 < off <= ip /\ ip + len <= zlen src /\
  forall k, 0 <= k < len -> rd src (ip - off + k) = rd src (ip + k).

Lemma match_len_loop_spec fuel src ip off probe len :
  (Z.to_nat (probe - len) < fuel)%nat -> 0 < off <= ip -> ip + probe <= zlen src ->
  0 <= len <= probe ->
  (forall k, 0 <= k < len -> rd src (ip - off + k) = rd src (ip + k)) ->
  exists n, match_len_loop fuel src ip off probe len = Done n /\ len <= n <= probe /\
    is_match src ip off n.
Proof.
  revert len. induction fuel as [|fuel IH]; intros len Hf Hoff Hp Hl Hk; [lia|].
  simpl. destruct (Z.ltb_spec len probe).
  - destruct (rd_in_range src (ip - off + len)) as [x Hx]; [lia|].
    destruct (rd_in_range src (ip + len)) as [y Hy]; [lia|].
    rewrite Hx, Hy. simpl. destruct (Z.eqb_spec x y) as [->|].
    + destruct (IH (len + 1)) as (n & Hn & Hb & Hm); [lia..| |].
      * intros k Hk'. destruct (decide (k = len)) as [->|]; [congruence|]. apply Hk. lia.
      * exists n. split; [done|]. split; [lia|done].
    + exists len. split; [done|]. split; [lia|]. split; [done|]. split; [lia|done].
  - exists len. split; [done|]. split; [lia|]. split; [done|]. split; [lia|done].
Qed.

Definition good_match (src : list Z) (ip : Z) (best : Z * Z) : Prop :=
  0 <= best.1 /\ (0 < best.1 -> is_match src ip best.2 best.1 /\ best.2 <= CMEM_LZ4_MAX_DIST).

Lemma best_match_loop_spec fuel src ip probe max_off off best :
  (Z.to_nat (max_off - off + 1) < fuel)%nat -> 0 < off -> max_off <= ip ->
  max_off <= CMEM_LZ4_MAX_DIST -> 0 <= probe -> ip + probe <= zlen src -> good_match src ip best ->
  exists b, best_match_loop fuel src ip probe max_off off best = Done b /\ good_match src ip b.
Proof.
  revert off best. induction fuel as [|fuel IH]; intros off best Hf Hoff Hmax Hdist Hp Hs Hg; [lia|].
  cbn [best_match_loop]. destruct (Z.leb_spec off max_off).
  - destruct (match_len_loop_spec (S (Z.to_nat probe)) src ip off probe 0) as (n & -> & Hb & Hm);
      [lia..|]. cbn [mbind outcome_bind].
    assert (good_match src ip (n, off)) by (split; simpl; [lia|intros; split; [done|lia]]).
    destruct (Z.ltb_spec best.1 n); [destruct (Z.eqb_spec n probe)|].
    + eauto.
    + apply IH; [lia..|done].
    + apply IH; [lia..|done].
  - eauto.
Qed.

Lemma best_match_spec src ip :
  0 <= ip < zlen src -> exists b, best_match src ip = Done b /\ good_match src ip b.
Proof.
  intros Hip. unfold best_match.
  assert (good_match src ip (0, 0)) by (split; simpl; lia).
  destruct (Z.ltb_spec 0 ip); [|eauto].
  apply best_match_loop_spec; unfold CMEM_LZ4_MAX_DIST, CMEM_LZ4_PROBE; zcase; try lia; done.
Qed.

(** ** What the encoder has written so far *)

(** [out] is a run of sequences that decodes to the first [a] source bytes. *)
Inductive encodes (src : list Z) : list Z -> Z -> Prop :=
| encodes_nil : encodes src [] 0
| encodes_seq out a ip m off :
    encodes src out a -> a <= ip -> is_match src ip off m -> CMEM_LZ4_MIN_MATCH <= m ->
    off <= CMEM_LZ4_MAX_DIST ->
    encodes src (out ++ seq_bytes src a (ip - a) m off) (ip + m).

Lemma encodes_range src out a : encodes src out a -> 0 <= a <= zlen src.
Proof.
  induction 1 as [|out a ip m off _ IH Hle (H1 & H2 & _) Hm].
  - split; [done|apply zlen_nonneg].
  - unfold CMEM_LZ4_MIN_MATCH in Hm. lia.
Qed.

(** Worst-case growth: 256 output bytes for 255 consumed. *)
Lemma encodes_size src out a : encodes src out a -> 255 * zlen out <= 256 * a.
Proof.
  induction 1 as [|out a ip m off Henc IH Hle Hmatch Hm _]; [done|].
  apply encodes_range in Henc. destruct Hmatch as (H1 & H2 & _). unfold CMEM_LZ4_MIN_MATCH in Hm.
  rewrite zlen_app, zlen_seq_bytes by lia. unfold seq_size.
  destruct (ext_size_bounds (ip - a)) as (E1 & E2 & E3 & E4); [lia|].
  destruct (ext_size_bounds (m - 4)) as (F1 & F2 & F3 & F4); [lia|]. lia.
Qed.

(** The loop, from any state it can be in: it ends, either at the end of the
    input with everything up to the anchor encoded, or because the capacity is
    exceeded by a further sequence. *)
Lemma compress_loop_spec fuel src oend ip anchor out :
  (Z.to_nat (zlen src - ip) < fuel)%nat -> encodes src out anchor -> anchor <= ip <= zlen src ->
  zlen out <= oend ->
  match compress_loop fuel src oend ip anchor out with
  | Done (a, out') => encodes src out' a /\ zlen out' <= oend
  | Err => exists out' a, encodes src out' a /\ oend < zlen out'
  | Fault => False
  end.
Proof.
  revert ip anchor out. induction fuel as [|fuel IH]; intros ip anchor out Hf Henc Hip Ho; [lia|].
  assert (Ha := encodes_range _ _ _ Henc).
  cbn [compress_loop]. destruct (Z.ltb_spec ip (zlen src)); [|done].
  destruct (best_match_spec src ip) as ([bl bo] & -> & [Hbl Hg]); [lia|].
  cbn [mbind outcome_bind fst snd] in *. unfold CMEM_LZ4_MIN_MATCH.
  destruct (Z.ltb_spec bl 4); [apply IH; [lia|done|lia|done]|].
  destruct Hg as [Hm Hd]; [lia|].
  assert (Henc' : encodes src (out ++ seq_bytes src anchor (ip - anchor) bl bo) (ip + bl))
    by (constructor; [done|lia|done|unfold CMEM_LZ4_MIN_MATCH; lia|done]).
  assert (Hr := encodes_range _ _ _ Henc').
  rewrite put_sequence_eq by lia.
  destruct (Z.leb_spec (zlen out + seq_size (ip - anchor) bl) oend); cbn [mbind outcome_bind].
  - apply IH; [lia|done|lia|]. rewrite zlen_app, zlen_seq_bytes by lia. lia.
  - eexists _, _. split; [exact Henc'|]. rewrite zlen_app, zlen_seq_bytes by lia. lia.
Qed.

(** The block a successful call produces. *)
Lemma cmem_lz4_compress_cases src cap :
  match cmem_lz4_compress src cap with
  | Done out => 0 < zlen src /\ zlen out <= cap /\ exists pre a, encodes src pre a /\
      out = pre ++ (if a <? zlen src then final_bytes src a (zlen src - a) else [])
  | Err => zlen src <= 0 \/ cap < zlen src + zlen src / 255 + 2
  | Fault => False
  end.
Proof.
  unfold cmem_lz4_compress.
  destruct (Z.leb_spec (zlen src) 0); cbn [orb]; [by left|].
  destruct (Z.leb_spec cap 0); cbn [orb]; [right; zdiv|].
  pose proof (compress_loop_spec (S (length src)) src cap 0 0 []
    ltac:(unfold zlen; lia) (encodes_nil src) ltac:(lia) ltac:(unfold zlen; simpl; lia)) as HL.
  destruct (compress_loop _ _ _ _ _ _) as [[a out]| |] eqn:E; cbn [mbind outcome_bind fst snd].
  - destruct HL as [Henc Hsz].
    assert (Hr := encodes_range _ _ _ Henc). assert (Hb := encodes_size _ _ _ Henc).
    destruct (Z.eq_dec a (zlen src)) as [Heq|Hne].
    + unfold put_final. destruct (Z.ltb_spec a (zlen src)) as [|_]; [lia|]. split; [done|].
      split; [done|]. exists out, a. destruct (Z.ltb_spec a (zlen src)); [lia|].
      by rewrite app_nil_r.
    + rewrite put_final_eq by lia.
      destruct (ext_size_bounds (zlen src - a)) as (E1 & E2 & E3 & E4); [lia|].
      destruct (Z.leb_spec (zlen out + (1 + ext_size (zlen src - a) + (zlen src - a))) cap).
      * split; [done|]. split; [rewrite zlen_app, zlen_final_bytes by lia; lia|].
        exists out, a. destruct (Z.ltb_spec a (zlen src)); [done|lia].
      * right. zdiv.
  - destruct HL as (out' & a & Henc & Hsz).
    assert (Hr := encodes_range _ _ _ Henc). assert (Hb := encodes_size _ _ _ Henc). right. zdiv.
  - done.
Qed.

(** C36: the encoder terminates without reading outside its input, never writes
    more than [dst_cap] bytes, and always succeeds on a non-empty input when the
    capacity reaches [n + n/255 + 2]. *)
Theorem compress_total (src : list Z) (dst_cap : Z) :
  safe (cmem_lz4_compress src dst_cap) /\
  (forall out, cmem_lz4_compress src dst_cap = Done out -> zlen out <= dst_cap) /\
  (0 < zlen src -> zlen src + zlen src / 255 + 2 <= dst_cap ->
     exists out, cmem_lz4_compress src dst_cap = Done out).
Proof.
  pose proof (cmem_lz4_compress_cases src dst_cap) as H. unfold safe.
  destruct (cmem_lz4_compress src dst_cap) as [out| |]; [|split; [done|split; [done|lia]]|done].
  destruct H as (H1 & H2 & _). split; [done|]. split; [|eauto]. by intros out' [= <-].
Qed.

(** ** Decoding *)

Lemma rd_at {A} (pre : list A) x rest : rd (pre ++ x :: rest) (zlen pre) = Done x.
Proof. rewrite <- (Z.add_0_r (zlen pre)), rd_app_r by lia. done. Qed.

(** Reading a length extension back. *)
Lemma read_ext_loop_eq fuel pre rest q r len :
  (q < fuel)%nat -> 0 <= r < 255 -> 0 <= len -> len + 255 * Z.of_nat q + r <= INT_MAX ->
  read_ext_loop fuel (pre ++ (replicate q 255 ++ [r]) ++ rest) (zlen pre) len =
    Done (zlen pre + Z.of_nat q + 1, len + 255 * Z.of_nat q + r).
Proof.
  revert pre len q. induction fuel as [|fuel IH]; intros pre len q Hf Hr Hl Hmax; [lia|].
  cbn [read_ext_loop]. rewrite zlen_app.
  destruct (Z.leb_spec (zlen pre + zlen ((replicate q 255 ++ [r]) ++ rest)) (zlen pre)) as [Hle|_].
  { rewrite !zlen_app, zlen_cons in Hle. pose proof (zlen_nonneg rest).
    pose proof (zlen_nonneg (replicate q 255)). pose proof (@zlen_nonneg Z []). lia. }
  destruct q as [|q].
  - cbn [replicate app]. rewrite rd_at. cbn [mbind outcome_bind]. unfold CMEM_LZ4_MAX_EXT.
    destruct (Z.ltb_spec INT_MAX (len + r)); [lia|]. destruct (Z.eqb_spec r 255); [lia|].
    unfold mret, outcome_ret. f_equal; f_equal; lia.
  - cbn [replicate app]. rewrite rd_at. cbn [mbind outcome_bind]. unfold CMEM_LZ4_MAX_EXT.
    destruct (Z.ltb_spec INT_MAX (len + 255)); [lia|]. rewrite Z.eqb_refl.
    specialize (IH (pre ++ [255]) (len + 255) q). rewrite <- app_assoc in IH. cbn [app] in IH.
    assert (Hz : zlen (pre ++ [255]) = zlen pre + 1) by (rewrite zlen_app; done).
    rewrite Hz in IH. rewrite IH by lia. f_equal; f_equal; lia.
Qed.

Lemma read_len_eq src pre rest n :
  src = pre ++ ext_bytes n ++ rest -> 0 <= n <= INT_MAX ->
  read_len src (zlen pre) (nibble n) = Done (zlen pre + ext_size n, n).
Proof.
  intros -> Hn. unfold read_len, nibble, ext_bytes, ext_size, CMEM_LZ4_TOKEN_NIBBLE.
  destruct (Z.ltb_spec n 15), (Z.leb_spec 15 n); try lia.
  - destruct (Z.eqb_spec n 15); [lia|]. by rewrite Z.add_0_r.
  - rewrite Z.eqb_refl. rewrite read_ext_loop_eq.
    + f_equal. f_equal; rewrite Z2Nat.id by zdiv; zdiv.
    + rewrite !length_app, length_replicate. simpl. lia.
    + zdiv.
    + lia.
    + rewrite Z2Nat.id by zdiv. zdiv.
Qed.

Lemma token_nibbles lit m :
  0 <= lit -> 0 <= m ->
  Z.land (Z.shiftr (token lit m) 4) CMEM_LZ4_NIBBLE_MASK = nibble lit /\
  Z.land (token lit m) CMEM_LZ4_NIBBLE_MASK = nibble m.
Proof.
  intros Hl Hm. unfold token. assert (Hn : forall n, 0 <= n -> 0 <= nibble n < 16)
    by (intros n ?; unfold nibble, CMEM_LZ4_TOKEN_NIBBLE; zcase; lia).
  assert (H1 := Hn lit Hl). assert (H2 := Hn m Hm).
  set (P := fun a b => (Z.land (Z.shiftr (Z.lor (u8 (Z.shiftl a 4)) (u8 b)) 4) 15 =? a)
     && (Z.land (Z.lor (u8 (Z.shiftl a 4)) (u8 b)) 15 =? b)).
  assert (HP : forallb (fun a => forallb (P a) (map Z.of_nat (List.seq 0 16)))
    (map Z.of_nat (List.seq 0 16)) = true) by (vm_compute; done).
  rewrite forallb_forall in HP. specialize (HP (nibble lit)). rewrite forallb_forall in HP.
  assert (Hin : forall z, 0 <= z < 16 -> In z (map Z.of_nat (List.seq 0 16))).
  { intros z Hz. apply in_map_iff. exists (Z.to_nat z). split; [lia|]. apply in_seq. lia. }
  specialize (HP (Hin _ H1) (nibble m) (Hin _ H2)). unfold P in HP.
  apply andb_true_iff in HP as [HP1 HP2]. split; by apply Z.eqb_eq.
Qed.

Lemma shiftr_4_nibble n :
  0 <= n -> Z.land (Z.shiftr (u8 (Z.shiftl (nibble n) 4)) 4) CMEM_LZ4_NIBBLE_MASK = nibble n.
Proof.
  intros Hn. destruct (token_nibbles n 0) as [H _]; [done..|]. unfold token in H.
  by rewrite Z.lor_0_r in H.
Qed.

Lemma offset_bytes off :
  0 <= off < 2 ^ 16 ->
  u16 (Z.lor (u8 (Z.land (u16 off) CMEM_LZ4_OFF_BYTE_MASK)) (Z.shiftl (u8 (Z.shiftr (u16 off) 8)) 8)) = off.
Proof.
  intros Ho. rewrite (u16_small off) by lia. unfold CMEM_LZ4_OFF_BYTE_MASK.
  change 255 with (Z.ones 8). rewrite Z.land_ones by lia. rewrite Z.shiftr_div_pow2 by lia.
  assert (0 <= off mod 2 ^ 8 < 2 ^ 8) by (apply Z.mod_pos_bound; lia).
  assert (0 <= off / 2 ^ 8 < 2 ^ 8) by zdiv.
  rewrite !u8_small by lia. rewrite <- Z.lxor_lor, <- Z.add_nocarry_lxor.
  - rewrite Z.shiftl_mul_pow2 by lia. rewrite u16_small; zdiv.
  - apply Z.bits_inj'. intros i Hi. rewrite Z.land_spec, Z.bits_0, Z.shiftl_spec by lia.
    destruct (Z.lt_ge_cases i 8).
    + rewrite (Z.testbit_neg_r _ (i - 8)) by lia. apply andb_false_r.
    + rewrite (Z.mod_pow2_bits_high off 8 i) by lia. done.
  - apply Z.bits_inj'. intros i Hi. rewrite Z.land_spec, Z.bits_0, Z.shiftl_spec by lia.
    destruct (Z.lt_ge_cases i 8).
    + rewrite (Z.testbit_neg_r _ (i - 8)) by lia. apply andb_false_r.
    + rewrite (Z.mod_pow2_bits_high off 8 i) by lia. done.
Qed.

Lemma slice_at {A} (pre x rest : list A) n :
  n = zlen x -> slice (pre ++ x ++ rest) (zlen pre) n = x.
Proof.
  intros ->. rewrite <- (Z.add_0_r (zlen pre)), slice_app_r by lia. by rewrite slice_app_l.
Qed.

Lemma rd_prefix {A} (l : list A) n i : 0 <= i < n -> rd (slice l 0 n) i = rd l i.
Proof.
  intros Hi. unfold rd, slice. destruct (Z.ltb_spec i 0); [lia|].
  change (Z.to_nat 0) with 0%nat. rewrite drop_0, lookup_take_lt by lia. done.
Qed.

Lemma copy_match_eq src ip off n :
  is_match src ip off (Z.of_nat n) ->
  copy_match n off (slice src 0 ip) = Done (slice src 0 (ip + Z.of_nat n)).
Proof.
  revert ip. induction n as [|n IH]; intros ip (Hoff & Hlen & Hk); cbn [copy_match].
  - by rewrite Z.add_0_r.
  - rewrite zlen_slice by lia. rewrite rd_prefix by lia.
    specialize (Hk 0) as Hk0. rewrite !Z.add_0_r in Hk0. rewrite Hk0 by lia.
    destruct (rd_in_range src ip) as [x Hx]; [lia|]. rewrite Hx. cbn [mbind outcome_bind].
    assert (Hs : slice src 0 ip ++ [x] = slice src 0 (ip + 1))
      by (rewrite slice_split by lia; f_equal; symmetry; by apply slice_one).
    rewrite Hs, (IH (ip + 1)).
    + do 2 f_equal. lia.
    + split; [lia|]. split; [lia|]. intros k Hk'.
      replace (ip + 1 - off + k) with (ip - off + (k + 1)) by lia.
      replace (ip + 1 + k) with (ip + (k + 1)) by lia. apply Hk. lia.
Qed.

(** One sequence of the encoder is one round of the decoder. *)
Lemma decode_sequence src pre rest fuel n a lit m off :
  0 <= a -> 0 <= lit -> is_match src (a + lit) off m -> CMEM_LZ4_MIN_MATCH <= m ->
  off <= CMEM_LZ4_MAX_DIST -> zlen src <= n -> zlen src <= INT_MAX ->
  let buf := pre ++ seq_bytes src a lit m off ++ rest in
  decompress_loop (S fuel) buf n (zlen pre) (slice src 0 a) =
  decompress_loop fuel buf n (zlen (pre ++ seq_bytes src a lit m off)) (slice src 0 (a + lit + m)).
Proof.
  intros Ha Hl Hm Hm4 Hd Hn Hmax buf. unfold CMEM_LZ4_MIN_MATCH, CMEM_LZ4_MAX_DIST in Hm4, Hd.
  pose proof Hm as ((Ho1 & Ho2) & Hend & _).
  destruct (ext_size_bounds lit) as (E1 & _); [lia|].
  destruct (ext_size_bounds (m - 4)) as (E2 & _); [lia|].
  set (tok := token lit (m - 4)).
  set (ob := [u8 (Z.land (u16 off) 255); u8 (Z.shiftr (u16 off) 8)]).
  (* the buffer, split at each field *)
  assert (B1 : buf = pre ++ tok :: (ext_bytes lit ++ slice src a lit ++ ob ++ ext_bytes (m - 4) ++ rest))
    by (unfold buf, seq_bytes, CMEM_LZ4_MIN_MATCH; by rewrite <- !app_assoc).
  set (p2 := pre ++ [tok]). set (p3 := p2 ++ ext_bytes lit). set (p4 := p3 ++ slice src a lit).
  set (p5 := p4 ++ ob).
  assert (B2 : buf = p2 ++ ext_bytes lit ++ slice src a lit ++ ob ++ ext_bytes (m - 4) ++ rest)
    by (rewrite B1; unfold p2; by rewrite <- app_assoc).
  assert (B3 : buf = p3 ++ slice src a lit ++ ob ++ ext_bytes (m - 4) ++ rest)
    by (rewrite B2; unfold p3; by rewrite <- app_assoc).
  assert (B4 : buf = p4 ++ ob ++ ext_bytes (m - 4) ++ rest)
    by (rewrite B3; unfold p4; by rewrite <- app_assoc).
  assert (B5 : buf = p5 ++ ext_bytes (m - 4) ++ rest)
    by (rewrite B4; unfold p5; by rewrite <- app_assoc).
  assert (L2 : zlen p2 = zlen pre + 1) by (unfold p2; rewrite zlen_app; done).
  assert (L3 : zlen p3 = zlen p2 + ext_size lit) by (unfold p3; by rewrite zlen_app, zlen_ext_bytes).
  assert (L4 : zlen p4 = zlen p3 + lit) by (unfold p4; rewrite zlen_app, zlen_slice; lia).
  assert (L5 : zlen p5 = zlen p4 + 2) by (unfold p5; rewrite zlen_app; done).
  assert (Lb : zlen buf = zlen p5 + ext_size (m - 4) + zlen rest)
    by (rewrite B5, !zlen_app, zlen_ext_bytes; lia).
  pose proof (zlen_nonneg rest). pose proof (zlen_nonneg pre).
  cbn [decompress_loop].
  destruct (Z.leb_spec (zlen buf) (zlen pre)); [lia|].
  rewrite B1 at 1. rewrite rd_at. cbn [mbind outcome_bind].
  destruct (token_nibbles lit (m - 4)) as [T1 T2]; [lia..|]. fold tok in T1, T2. rewrite T1, T2.
  rewrite <- L2. rewrite (read_len_eq buf p2 _ lit B2) by lia. cbn [mbind outcome_bind].
  rewrite <- L3. rewrite zlen_slice by lia.
  destruct (Z.ltb_spec n (a + lit)); [lia|]. destruct (Z.ltb_spec (zlen buf) (zlen p3 + lit)); [lia|].
  cbn [orb].
  assert (S3 : slice buf (zlen p3) lit = slice src a lit)
    by (rewrite B3; apply slice_at; rewrite zlen_slice; lia).
  assert (S4 : slice src 0 a ++ slice src a lit = slice src 0 (a + lit))
    by (rewrite slice_split by lia; done).
  rewrite S3, S4, <- L4.
  destruct (Z.leb_spec (zlen buf) (zlen p4)); [lia|].
  destruct (Z.ltb_spec (zlen buf) (zlen p4 + 2)); [lia|].
  assert (R0 : rd buf (zlen p4) = Done (u8 (Z.land (u16 off) 255))) by (rewrite B4; apply rd_at).
  assert (R1 : rd buf (zlen p4 + 1) = Done (u8 (Z.shiftr (u16 off) 8)))
    by (rewrite B4, rd_app_r by lia; reflexivity).
  rewrite R0, R1. cbn [mbind outcome_bind].
  pose proof (offset_bytes off) as Hob. unfold CMEM_LZ4_OFF_BYTE_MASK in Hob. rewrite Hob by lia.
  rewrite zlen_slice by lia.
  destruct (Z.eqb_spec off 0); [lia|]. destruct (Z.ltb_spec (a + lit) off); [lia|]. cbn [orb].
  rewrite <- L5. rewrite (read_len_eq buf p5 _ (m - 4) B5) by lia. cbn [mbind outcome_bind].
  unfold CMEM_LZ4_MIN_MATCH. replace (m - 4 + 4) with m by lia.
  destruct (Z.ltb_spec INT_MAX m); [lia|].
  destruct (Z.ltb_spec n (a + lit + m)); [lia|].
  rewrite <- (Z2Nat.id m) in Hm by lia. rewrite (copy_match_eq _ _ _ _ Hm), Z2Nat.id by lia.
  cbn [mbind outcome_bind]. f_equal.
  rewrite zlen_app, zlen_seq_bytes by lia. unfold seq_size. lia.
Qed.

(** A whole run of sequences, in front of anything. *)
Lemma decode_run src out a rest n :
  encodes src out a -> zlen src <= n -> zlen src <= INT_MAX ->
  exists k, (k <= length out)%nat /\ forall fuel,
    decompress_loop (k + fuel) (out ++ rest) n 0 [] =
    decompress_loop fuel (out ++ rest) n (zlen out) (slice src 0 a).
Proof.
  intros Henc Hn Hmax. revert rest.
  induction Henc as [|out a ip m off Henc IH Hle Hm Hm4 Hd]; intros rest.
  - exists 0%nat. done.
  - destruct (IH (seq_bytes src a (ip - a) m off ++ rest)) as (k & Hk & Hrun).
    assert (Ha := encodes_range _ _ _ Henc).
    exists (k + 1)%nat. split.
    + rewrite length_app. unfold seq_bytes. cbn [app length]. lia.
    + intros fuel. rewrite <- app_assoc, <- Nat.add_assoc, Hrun.
      replace ip with (a + (ip - a)) in Hm by lia.
      change (1 + fuel)%nat with (S fuel).
      rewrite (decode_sequence src out rest fuel n a (ip - a) m off) by (done || lia).
      by replace (a + (ip - a) + m) with (ip + m) by lia.
Qed.

Lemma decode_final src pre fuel n a :
  0 <= a < zlen src -> zlen src <= n -> zlen src <= INT_MAX ->
  let buf := pre ++ final_bytes src a (zlen src - a) in
  decompress_loop (S fuel) buf n (zlen pre) (slice src 0 a) = Done src.
Proof.
  intros Ha Hn Hmax buf. set (lit := zlen src - a).
  destruct (ext_size_bounds lit) as (E1 & _); [lia|].
  set (tok := u8 (Z.shiftl (nibble lit) 4)).
  assert (B1 : buf = pre ++ tok :: (ext_bytes lit ++ slice src a lit)) by done.
  set (p2 := pre ++ [tok]). set (p3 := p2 ++ ext_bytes lit).
  assert (B2 : buf = p2 ++ ext_bytes lit ++ slice src a lit)
    by (rewrite B1; unfold p2; by rewrite <- app_assoc).
  assert (B3 : buf = p3 ++ slice src a lit ++ [])
    by (rewrite B2, app_nil_r; unfold p3; by rewrite <- app_assoc).
  assert (L2 : zlen p2 = zlen pre + 1) by (unfold p2; rewrite zlen_app; done).
  assert (L3 : zlen p3 = zlen p2 + ext_size lit) by (unfold p3; by rewrite zlen_app, zlen_ext_bytes).
  assert (Lb : zlen buf = zlen p3 + lit) by (rewrite B3, !zlen_app, zlen_slice, zlen_nil; lia).
  pose proof (zlen_nonneg pre).
  cbn [decompress_loop]. destruct (Z.leb_spec (zlen buf) (zlen pre)); [lia|].
  rewrite B1 at 1. rewrite rd_at. cbn [mbind outcome_bind].
  assert (T : Z.land (Z.shiftr tok 4) CMEM_LZ4_NIBBLE_MASK = nibble lit)
    by (apply shiftr_4_nibble; lia).
  rewrite T.
  rewrite <- L2, (read_len_eq buf p2 _ lit B2) by lia. cbn [mbind outcome_bind].
  rewrite <- L3, zlen_slice by lia.
  destruct (Z.ltb_spec n (a + lit)); [lia|]. destruct (Z.ltb_spec (zlen buf) (zlen p3 + lit)); [lia|].
  cbn [orb]. destruct (Z.leb_spec (zlen buf) (zlen p3 + lit)); [|lia].
  assert (S3 : slice buf (zlen p3) lit = slice src a lit)
    by (rewrite B3; apply slice_at; rewrite zlen_slice; lia).
  assert (S4 : slice src 0 a ++ slice src a lit = slice src 0 (a + lit))
    by (rewrite slice_split by lia; done).
  rewrite S3, S4. replace (a + lit) with (zlen src) by lia. by rewrite slice_full.
Qed.

Lemma decode_at_end fuel buf n out : decompress_loop (S fuel) buf n (zlen buf) out = Done out.
Proof. cbn [decompress_loop]. by rewrite Z.leb_refl. Qed.

Lemma lz4_decode_encode (src out : list Z) (dst_cap : Z) :
  zlen src <= INT_MAX -> cmem_lz4_compress src dst_cap = Done out ->
  cmem_lz4_decompress out (zlen src) = Done src.
Proof.
  intros Hmax Hc. pose proof (cmem_lz4_compress_cases src dst_cap) as H. rewrite Hc in H.
  destruct H as (Hpos & _ & pre & a & Henc & Hout). assert (Ha := encodes_range _ _ _ Henc).
  destruct (decode_run src pre a (if a <? zlen src then final_bytes src a (zlen src - a) else [])
              (zlen src) Henc) as (k & Hk & Hrun); [lia|done|].
  unfold cmem_lz4_decompress. rewrite <- Hout in Hrun.
  assert (Hlen : (length pre <= length out)%nat) by (rewrite Hout, length_app; lia).
  replace (S (length out)) with (k + S (length out - k))%nat by lia. rewrite Hrun.
  destruct (Z.ltb_spec a (zlen src)).
  - rewrite Hout. apply decode_final; lia.
  - assert (a = zlen src) by lia. subst a. rewrite app_nil_r in Hout. subst out.
    rewrite decode_at_end. by rewrite slice_full.
Qed.

(** C5: round trip.  Whatever the encoder stores for [src], the decoder restores
    to exactly [src], for every capacity and every input an [int] can size. *)
Theorem lz4_roundtrip (src out : list Z) (dst_cap : Z) :
  zlen src <= INT_MAX -> cmem_lz4_compress src dst_cap = Done out ->
  cmem_lz4_decompress out (zlen src) = Done src.
Proof. apply lz4_decode_encode. Qed.

Definition lz4_sample : list Z := replicate 30 7 ++ [1; 2; 3; 4; 5] ++ replicate 40 7 ++ [9; 9].

Lemma lz4_roundtrip_witness :
  exists out, cmem_lz4_compress lz4_sample 77 = Done out /\ zlen out = 20 /\
    cmem_lz4_decompress out (zlen lz4_sample) = Done lz4_sample.
Proof.
  eexists. split; [vm_compute; reflexivity|]. split; [reflexivity|].
  apply (lz4_roundtrip lz4_sample _ 77); [unfold INT_MAX; vm_compute; discriminate|].
  vm_compute. reflexivity.
Defined.

(** ** The decoder on arbitrary input *)

Lemma read_ext_loop_safe fuel src ip len :
  (Z.to_nat (zlen src - ip) < fuel)%nat -> 0 <= ip -> bytes src ->
  0 <= len -> len + 255 * (zlen src - ip) <= INT_MAX \/ zlen src < ip ->
  safe (read_ext_loop fuel src ip len) /\
  forall ip' len', read_ext_loop fuel src ip len = Done (ip', len') ->
    ip < ip' <= zlen src /\ 0 <= len' /\ len' + 255 * (zlen src - ip') <= len + 255 * (zlen src - ip).
Proof.
  revert ip len. induction fuel as [|fuel IH]; intros ip len Hf Hip Hb Hl Hmax; [lia|].
  cbn [read_ext_loop]. destruct (Z.leb_spec (zlen src) ip); [done|].
  destruct (rd_in_range src ip) as [x Hx]; [lia|]. rewrite Hx. cbn [mbind outcome_bind].
  assert (Hx' : is_byte x).
  { apply rd_Done in Hx as [_ Hx]. eapply Forall_lookup_1 in Hx; eauto. }
  unfold is_byte in Hx'. destruct (Z.ltb_spec INT_MAX (len + x)); [lia|].
  destruct (Z.eqb_spec x CMEM_LZ4_MAX_EXT).
  - destruct (IH (ip + 1) (len + x)) as [Hs Hd]; [lia|lia|done|lia|lia|].
    split; [done|]. intros ip' len' H'. specialize (Hd ip' len' H'). lia.
  - split; [done|]. intros ip' len' [= <- <-]. lia.
Qed.

Lemma read_len_safe src ip len :
  0 <= ip -> bytes src -> 0 <= len <= 15 -> 15 + 255 * zlen src <= INT_MAX ->
  safe (read_len src ip len) /\
  forall ip' len', read_len src ip len = Done (ip', len') ->
    ip <= ip' /\ (ip <= zlen src -> ip' <= zlen src) /\ 0 <= len' <= 15 + 255 * zlen src.
Proof.
  intros Hip Hb Hl Hmax. unfold read_len. destruct (Z.eqb_spec len CMEM_LZ4_TOKEN_NIBBLE).
  - pose proof (zlen_nonneg src).
    destruct (read_ext_loop_safe (S (length src)) src ip len) as [Hs Hd];
      [unfold zlen; lia|done|done|lia|unfold zlen in *; lia|].
    split; [done|]. intros ip' len' H'. specialize (Hd ip' len' H'). lia.
  - split; [done|]. intros ip' len' [= <- <-]. pose proof (zlen_nonneg src). lia.
Qed.

Lemma copy_match_safe n off out :
  0 < off <= zlen out ->
  exists out', copy_match n off out = Done out' /\ zlen out' = zlen out + Z.of_nat n.
Proof.
  revert out. induction n as [|n IH]; intros out Ho; cbn [copy_match].
  - exists out. split; [done|lia].
  - destruct (rd_in_range out (zlen out - off)) as [x ->]; [lia|]. cbn [mbind outcome_bind].
    destruct (IH (out ++ [x])) as (out' & -> & Hl).
    + rewrite zlen_snoc. lia.
    + exists out'. split; [done|]. rewrite Hl, zlen_snoc. lia.
Qed.

Lemma nibble_range x : 0 <= Z.land x CMEM_LZ4_NIBBLE_MASK <= 15.
Proof.
  unfold CMEM_LZ4_NIBBLE_MASK. change (Z.land x 15) with (Z.land x (Z.ones 4)). rewrite Z.land_ones by lia.
  pose proof (Z.mod_pos_bound x (2 ^ 4) ltac:(lia)). lia.
Qed.

Lemma decompress_loop_safe fuel src n ip out :
  (Z.to_nat (zlen src - ip) < fuel)%nat -> 0 <= ip -> bytes src -> 23 + 255 * zlen src <= INT_MAX ->
  zlen out <= n ->
  match decompress_loop fuel src n ip out with
  | Done out' => zlen out' <= n
  | Err => True
  | Fault => False
  end.
Proof.
  revert ip out. induction fuel as [|fuel IH]; intros ip out Hf Hip Hb Hmax Ho; [lia|].
  pose proof (zlen_nonneg src). pose proof (zlen_nonneg out).
  cbn [decompress_loop]. destruct (Z.leb_spec (zlen src) ip); [done|].
  destruct (rd_in_range src ip) as [t ->]; [lia|]. cbn [mbind outcome_bind].
  destruct (read_len_safe src (ip + 1) (Z.land (Z.shiftr t 4) CMEM_LZ4_NIBBLE_MASK)) as [Hs Hd];
    [lia|done|apply nibble_range|lia|].
  destruct (read_len src (ip + 1) _) as [[ip1 lit]| |]; cbn [mbind outcome_bind]; [|done|done].
  destruct (Hd ip1 lit) as (D1 & D2 & D3); [done|].
  destruct (Z.ltb_spec n (zlen out + lit)); [done|].
  destruct (Z.ltb_spec (zlen src) (ip1 + lit)); [done|]. cbn [orb].
  assert (Hz : zlen (out ++ slice src ip1 lit) = zlen out + lit)
    by (rewrite zlen_app, zlen_slice; lia).
  destruct (Z.leb_spec (zlen src) (ip1 + lit)); [cbn; rewrite Hz; lia|].
  destruct (Z.ltb_spec (zlen src) (ip1 + lit + 2)); [done|].
  destruct (rd_in_range src (ip1 + lit)) as [b0 ->]; [lia|].
  destruct (rd_in_range src (ip1 + lit + 1)) as [b1 ->]; [lia|]. cbn [mbind outcome_bind].
  set (off := u16 _). assert (Hoff : 0 <= off) by (unfold off, u16; zdiv). rewrite Hz.
  destruct (Z.eqb_spec off 0); [done|]. destruct (Z.ltb_spec (zlen out + lit) off); [done|]. cbn [orb].
  destruct (read_len_safe src (ip1 + lit + 2) (Z.land t CMEM_LZ4_NIBBLE_MASK)) as [Hs2 Hd2];
    [lia|done|apply nibble_range|lia|].
  destruct (read_len src (ip1 + lit + 2) _) as [[ip2 ml]| |]; cbn [mbind outcome_bind]; [|done|done].
  destruct (Hd2 ip2 ml) as (F1 & F2 & F3); [done|]. unfold CMEM_LZ4_MIN_MATCH.
  destruct (Z.ltb_spec INT_MAX (ml + 4)); [lia|].
  destruct (Z.ltb_spec n (zlen out + lit + (ml + 4))); [done|].
  destruct (copy_match_safe (Z.to_nat (ml + 4)) off (out ++ slice src ip1 lit)) as (out' & -> & Hl);
    [lia|]. cbn [mbind outcome_bind]. apply IH; [lia|lia|done|lia|lia].
Qed.

(** C35: memory safety and termination of the decoder on arbitrary bytes: for any
    input of at most 8421504 bytes it never reads outside [src] or before the
    start of [dst], never overflows a length, and never writes more than
    [dst_size] bytes. *)
Theorem decompress_safe (src : list Z) (dst_size : Z) :
  bytes src -> 0 <= dst_size -> zlen src <= 8421504 ->
  safe (cmem_lz4_decompress src dst_size) /\
  forall out, cmem_lz4_decompress src dst_size = Done out -> zlen out <= dst_size.
Proof.
  intros Hb Hd Hl. unfold cmem_lz4_decompress, safe.
  pose proof (decompress_loop_safe (S (length src)) src dst_size 0 []) as H.
  destruct (decompress_loop _ _ _ _ _) as [out| |].
  - split; [done|]. intros out' [= <-]. apply H; [unfold zlen; lia|done|done|unfold INT_MAX; lia|done].
  - done.
  - destruct H; [unfold zlen; lia|done|done|unfold INT_MAX; lia|done].
Qed.

Lemma decompress_safe_witness :
  bytes [0x1f; 65; 1; 0; 255; 255; 9] /\
  safe (cmem_lz4_decompress [0x1f; 65; 1; 0; 255; 255; 9] 20).
Proof.
  assert (H : bytes [0x1f; 65; 1; 0; 255; 255; 9])
    by (unfold bytes, is_byte; repeat (apply Forall_cons_2; [lia|]); apply Forall_nil_2).
  split; [exact H|]. apply (decompress_safe _ 20 H); [lia|vm_compute; discriminate].
Defined.

Lemma read_ext_loop_overflow fuel pre n len :
  (n < fuel)%nat -> 0 <= len -> len <= INT_MAX -> INT_MAX < len + 255 * Z.of_nat n ->
  read_ext_loop fuel (pre ++ replicate n 255) (zlen pre) len = Fault.
Proof.
  revert pre len n. induction fuel as [|fuel IH]; intros pre len n Hf Hl Hm Hn; [lia|].
  destruct n as [|n]; [lia|]. cbn [read_ext_loop replicate]. rewrite zlen_app, zlen_cons.
  pose proof (zlen_nonneg (replicate n 255)).
  destruct (Z.leb_spec (zlen pre + (1 + zlen (replicate n 255))) (zlen pre)); [lia|].
  rewrite rd_at. cbn [mbind outcome_bind]. destruct (Z.ltb_spec INT_MAX (len + 255)); [done|].
  unfold CMEM_LZ4_MAX_EXT. rewrite Z.eqb_refl.
  specialize (IH (pre ++ [255]) (len + 255) n). rewrite <- app_assoc in IH. cbn [app] in IH.
  assert (Hz : zlen (pre ++ [255]) = zlen pre + 1) by (rewrite zlen_app; done).
  rewrite Hz in IH. apply IH; lia.
Qed.

(** The length accumulator is a plain [int]: a block that opens with the
    literal nibble 15 followed by more than 8421504 bytes of 255 overflows it
    before any bound on the output is tested, whatever the destination size. *)
Theorem decompress_len_overflow (n : nat) (dst_size : Z) :
  8421504 < Z.of_nat n ->
  cmem_lz4_decompress (0xF0 :: replicate n 255) dst_size = Fault.
Proof.
  intros Hn. unfold cmem_lz4_decompress. cbn [decompress_loop length].
  rewrite zlen_cons. pose proof (zlen_nonneg (replicate n 255)).
  destruct (Z.leb_spec (1 + zlen (replicate n 255)) 0); [lia|].
  change (rd (0xF0 :: replicate n 255) 0) with (Done 0xF0). cbn [mbind outcome_bind].
  change (Z.land (Z.shiftr 240 4) CMEM_LZ4_NIBBLE_MASK) with 15.
  unfold read_len. change (15 =? CMEM_LZ4_TOKEN_NIBBLE) with true. cbv iota.
  change (0 + 1) with (zlen [0xF0]).
  rewrite (read_ext_loop_overflow _ [0xF0] n 15); [done|..]; unfold INT_MAX; [|lia..].
  cbn [app length]. rewrite length_replicate. lia.
Qed.

Lemma decompress_len_overflow_witness :
  cmem_lz4_decompress (0xF0 :: replicate (Z.to_nat 8421505) 255) 100 = Fault.
Proof. apply (decompress_len_overflow (Z.to_nat 8421505) 100). rewrite Z2Nat.id; lia. Defined.
