(* ===== verification/Compress.v ===== *)
(** * In-pool compressed storage

    The handle table and the compression area of [src/cmem_compress.c]
    ([mp_compress_block], [mp_decompress_block], [mp_free_compressed],
    [mp_set_compressed_budget], [mp_get_compressed_stats] and their helpers).
    The pool that backs them (allocation, release, growth, the C library's
    [malloc]/[calloc]) is the interface [PoolHost]; the theorems use its laws
    only.  The area is a byte array; a copy outside it is a [Fault]. *)
From S2P Require Import Prelude Lz4.
From Stdlib Require Import ZArith Lia.
From stdpp Require Import base option list.
Open Scope Z_scope.

Definition CMEM_COMPRESS_SLOT_SIZE : Z := 4096.
Definition CMEM_COMPRESS_SLOT_MASK : Z := 4095.
Definition CMEM_COMPRESS_DEFAULT_BUDGET : Z := 16 * 1024 * 1024.
Definition CMEM_COMPRESS_MAX_ENTRIES : Z := 4096.
Definition CMEM_COMPRESS_MIN_SIZE : Z := 64.

(** What the compressed storage asks of the pool it lives in. *)
Class PoolHost := {
  host : Type;
  mp_expand_pool : host -> Z -> bool * host;
  mp_alloc : host -> Z -> Z * host;               (* NULL on failure *)
  mp_free : host -> Z -> host;
  malloc_ok : host -> Z -> bool * host;           (* does malloc(n) succeed? *)
  calloc_ok : host -> Z -> bool * host;
  load : host -> Z -> Z -> list Z;                (* the n bytes at an address *)
  load_length : forall h p n, 0 <= n -> zlen (load h p n) = n;
  (* no object is larger than PTRDIFF_MAX *)
  mp_alloc_bound : forall h n, 0 <= n -> fst (mp_alloc h n) <> NULL -> n < 2 ^ 63;
}.

Record cmem_compressed_entry := Entry {
  original_size : Z;
  comp_offset : Z;
  comp_size : Z;
  generation : Z;
  alloc_seq : Z;
  used : bool;
}.

(** [calloc(CMEM_COMPRESS_MAX_ENTRIES, sizeof(entry))]. *)
Definition entry0 : cmem_compressed_entry := Entry 0 0 0 0 0 false.
Definition zero_table : list cmem_compressed_entry :=
  replicate (Z.to_nat CMEM_COMPRESS_MAX_ENTRIES) entry0.

(** The compressed-storage fields of [struct memory_pool].  [compressed_capacity]
    is the length of [compressed_entries]; [compressed_area] is the area's content,
    [None] for a null pointer. *)
Record cstate := CState {
  compressed_entries : list cmem_compressed_entry;
  compressed_seq : Z;
  compressed_budget : Z;
  compressed_used : Z;
  compressed_area : option (list Z);
  compressed_area_size : Z;
}.

Definition set_entries (s : cstate) es := CState es (compressed_seq s) (compressed_budget s)
  (compressed_used s) (compressed_area s) (compressed_area_size s).
Definition set_budget (s : cstate) b := CState (compressed_entries s) (compressed_seq s) b
  (compressed_used s) (compressed_area s) (compressed_area_size s).
Definition set_used (s : cstate) u := CState (compressed_entries s) (compressed_seq s)
  (compressed_budget s) u (compressed_area s) (compressed_area_size s).

Definition entry_release (e : cmem_compressed_entry) : cmem_compressed_entry :=
  Entry (original_size e) (comp_offset e) (comp_size e) (u32 (generation e + 1)) (alloc_seq e) false.

Section WithHost.
Context `{PoolHost}.

Definition cmem_compress_ensure_area (s : cstate) (h : host) : bool * cstate * host :=
  match compressed_area s with
  | Some _ => (true, s, h)
  | None =>
      let s := if compressed_budget s =? 0 then set_budget s CMEM_COMPRESS_DEFAULT_BUDGET else s in
      let want := compressed_budget s in
      let '(grown, h) := mp_expand_pool h want in
      if negb grown then (false, s, h)
      else
        let '(area, h) := mp_alloc h want in
        if area =? NULL then (false, s, h)
        else
          let '(table, h) := calloc_ok h CMEM_COMPRESS_MAX_ENTRIES in
          if negb table then
            (* compressed_entries is NULL and the capacity keeps its old value, 0 *)
            (false, set_entries s [], mp_free h area)
          else
            (true,
             CState zero_table (compressed_seq s)
               (compressed_budget s) (compressed_used s) (Some (load h area want)) want,
             h)
  end.

(** Index of the used entry with the smallest sequence number below [oldest]. *)
Fixpoint oldest_loop (es : list cmem_compressed_entry) (i oldest oldest_idx : Z) : Z :=
  match es with
  | [] => oldest_idx
  | e :: es =>
      if used e && (alloc_seq e <? oldest) then oldest_loop es (i + 1) (alloc_seq e) i
      else oldest_loop es (i + 1) oldest oldest_idx
  end.

Definition cmem_compress_evict_oldest (s : cstate) : cstate :=
  let oldest_idx := oldest_loop (compressed_entries s) 0 UINT32_MAX (-1) in
  if oldest_idx <? 0 then s
  else
    match compressed_entries s !! Z.to_nat oldest_idx with
    | Some e =>
        set_used (set_entries s (<[Z.to_nat oldest_idx := entry_release e]> (compressed_entries s)))
          (u64 (compressed_used s - comp_size e))
    | None => s
    end.

(** [while (compressed_used + clen > budget) { ...evict...; if no progress return 0; }];
    [false] when nothing is left to evict. *)
Fixpoint make_room (fuel : nat) (s : cstate) (clen : Z) : outcome (bool * cstate) :=
  match fuel with
  | O => Fault
  | S fuel =>
      if compressed_budget s <? u64 (compressed_used s + clen) then
        let s' := cmem_compress_evict_oldest s in
        if compressed_used s' =? compressed_used s then Done (false, s')
        else make_room fuel s' clen
      else Done (true, s)
  end.

Fixpoint find_free_entry (es : list cmem_compressed_entry) (i : nat) : option nat :=
  match es with
  | [] => None
  | e :: es => if used e then find_free_entry es (S i) else Some i
  end.

Definition overlaps (e : cmem_compressed_entry) (off aligned : Z) : bool :=
  used e && (comp_offset e <? u64 (off + aligned)) && (off <? u64 (comp_offset e + comp_size e)).

(** First fit at multiples of the slot size. *)
Fixpoint first_fit (fuel : nat) (es : list cmem_compressed_entry) (aligned area_size off : Z)
    : outcome Z :=
  match fuel with
  | O => Fault
  | S fuel =>
      if u64 (off + aligned) <=? area_size then
        if existsb (fun e => overlaps e off aligned) es
        then first_fit fuel es aligned area_size (u64 (off + CMEM_COMPRESS_SLOT_SIZE))
        else Done off
      else Done off
  end.

(** [memcpy(area + off, src, n)]. *)
Definition area_write (area : list Z) (off : Z) (src : list Z) : outcome (list Z) :=
  if (off <? 0) || (zlen area <? off + zlen src) then Fault
  else Done (take (Z.to_nat off) area ++ src ++ drop (Z.to_nat (off + zlen src)) area).

(** [mp_compress_block] once the block is compressed: [None] is a refusal (the
    evictions made on the way stay), [Some handle] a stored block. *)
Definition store_compressed (s : cstate) (size : Z) (scratch : list Z)
    : outcome (option Z * cstate) :=
  let clen := zlen scratch in
  r ← make_room (S (length (compressed_entries s))) s clen;
  let '(ok, s) := r in
  if negb ok then Done (None, s)
  else
    match find_free_entry (compressed_entries s) 0 with
    | None => Done (None, s)
    | Some slot =>
        let aligned0 := Z.land (u64 (clen + CMEM_COMPRESS_SLOT_MASK))
                          (u32 (Z.lnot CMEM_COMPRESS_SLOT_MASK)) in
        let aligned := if aligned0 =? 0 then CMEM_COMPRESS_SLOT_SIZE else aligned0 in
        off ← first_fit (S (Z.to_nat (compressed_area_size s / CMEM_COMPRESS_SLOT_SIZE + 1)))
                (compressed_entries s) aligned (compressed_area_size s) 0;
        if compressed_area_size s <? u64 (off + aligned) then Done (None, s)
        else
          match compressed_area s, compressed_entries s !! slot with
          | Some area, Some e =>
              area' ← area_write area off scratch;
              let gen := u32 (generation e + 1) in
              let entry := Entry size off clen gen (compressed_seq s) true in
              Done (Some (Z.lor (Z.shiftl (Z.of_nat slot) 32) gen),
                    CState (<[slot := entry]> (compressed_entries s)) (u32 (compressed_seq s + 1))
                      (compressed_budget s) (u64 (compressed_used s + clen)) (Some area')
                      (compressed_area_size s))
          | _, _ => Fault
          end
    end.

(** [buf] is the content of the [size] bytes at [data]; [Done (0, ...)] is the
    null handle of every refusal. *)
Definition mp_compress_block (s : cstate) (h : host) (data : Z) (buf : list Z)
    : outcome (Z * cstate * host) :=
  let size := zlen buf in
  if (data =? NULL) || (size =? 0) then Done (0, s, h)
  else if size <? CMEM_COMPRESS_MIN_SIZE then Done (0, s, h)
  else if INT_MAX <? size then Done (0, s, h)
  else
    let '(ok, s, h) := cmem_compress_ensure_area s h in
    if negb ok then Done (0, s, h)
    else if compressed_budget s =? 0 then Done (0, s, h)
    else
      let '(ok, h) := malloc_ok h size in
      if negb ok then Done (0, s, h)
      else
        match cmem_lz4_compress buf size with
        | Fault => Fault
        | Err => Done (0, s, h)
        | Done scratch =>
            if (zlen scratch <=? 0) || (size <=? zlen scratch) then Done (0, s, h)
            else
              match store_compressed s size scratch with
              | Done (Some handle, s) => Done (handle, s, mp_free h data)
              | Done (None, s) => Done (0, s, h)
              | Err | Fault => Fault
              end
        end.

(** The entry a handle names, if it is still current. *)
Definition handle_entry (s : cstate) (handle : Z) : option (nat * cmem_compressed_entry) :=
  let slot := Z.to_nat (u32 (Z.shiftr handle 32)) in
  let gen := u32 (Z.land handle 0xFFFFFFFF) in
  match compressed_entries s !! slot with
  | Some e => if negb (used e) || negb (generation e =? gen) then None else Some (slot, e)
  | None => None
  end.

(** The new buffer and its content; [Err] is [NULL]. *)
Definition mp_decompress_block (s : cstate) (h : host) (handle : Z) : outcome (Z * list Z) * host :=
  if handle =? 0 then (Err, h)
  else
    match handle_entry s handle, compressed_area s with
    | None, _ => (Err, h)
    | Some (_, e), None => (Fault, h)
    | Some (_, e), Some area =>
        let '(out, h) := mp_alloc h (original_size e) in
        if out =? NULL then (Err, h)
        else
          match cmem_lz4_decompress (slice area (comp_offset e) (comp_size e)) (original_size e) with
          | Fault => (Fault, h)
          | Err => (Err, mp_free h out)
          | Done data =>
              if zlen data =? original_size e then (Done (out, data), h) else (Err, mp_free h out)
          end
    end.

Definition mp_free_compressed (s : cstate) (handle : Z) : bool * cstate :=
  if handle =? 0 then (false, s)
  else
    match handle_entry s handle with
    | None => (false, s)
    | Some (slot, e) =>
        (true, set_used (set_entries s (<[slot := entry_release e]> (compressed_entries s)))
                 (u64 (compressed_used s - comp_size e)))
    end.

Definition mp_set_compressed_budget (s : cstate) (h : host) (max_bytes : Z) : bool * cstate * host :=
  let s := set_budget s max_bytes in
  match compressed_area s with
  | None => if 0 <? max_bytes then cmem_compress_ensure_area s h else (true, s, h)
  | Some _ => (true, s, h)
  end.

(** [used], [budget] and [block_count]. *)
Definition mp_get_compressed_stats (s : cstate) : Z * Z * Z :=
  (compressed_used s, compressed_budget s,
   zlen (List.filter used (compressed_entries s))).

End WithHost.


(** ** Invariant *)

Definition entry_ok (area_size : Z) (e : cmem_compressed_entry) : Prop :=
  0 <= generation e < 2 ^ 32 /\ 0 <= alloc_seq e < 2 ^ 32 /\
  (used e = true -> 0 < comp_size e <= INT_MAX /\ 0 <= comp_offset e /\
     comp_offset e + comp_size e <= area_size).

Definition disjoint_entries (es : list cmem_compressed_entry) : Prop :=
  forall i j a b, i <> j -> es !! i = Some a -> es !! j = Some b ->
    used a = true -> used b = true ->
    comp_offset a + comp_size a <= comp_offset b \/ comp_offset b + comp_size b <= comp_offset a.

(** Bytes held by the live entries. *)
Definition entry_bytes (e : cmem_compressed_entry) : Z := if used e then comp_size e else 0.
Definition used_bytes (es : list cmem_compressed_entry) : Z := foldr (fun e n => entry_bytes e + n) 0 es.

Definition count_used (es : list cmem_compressed_entry) : nat :=
  length (List.filter used es).

Record wf (s : cstate) : Prop := Wf {
  wf_area : match compressed_area s with
            | Some a => zlen a = compressed_area_size s
            | None => compressed_entries s = []
            end;
  wf_size : 0 <= compressed_area_size s < 2 ^ 63;
  wf_cap : zlen (compressed_entries s) <= CMEM_COMPRESS_MAX_ENTRIES;
  wf_entries : Forall (entry_ok (compressed_area_size s)) (compressed_entries s);
  wf_disjoint : disjoint_entries (compressed_entries s);
  wf_used : compressed_used s = used_bytes (compressed_entries s);
  wf_seq : 0 <= compressed_seq s < 2 ^ 32;
  wf_budget : 0 <= compressed_budget s < 2 ^ 64;
}.

Lemma used_bytes_cons e es : used_bytes (e :: es) = entry_bytes e + used_bytes es.
Proof. done. Qed.

Lemma used_bytes_bounds sz es :
  Forall (entry_ok sz) es -> 0 <= used_bytes es <= INT_MAX * zlen es.
Proof.
  induction 1 as [|e es He _ IH]; [done|]. rewrite used_bytes_cons, zlen_cons.
  unfold entry_bytes. destruct He as (_ & _ & He).
  unfold INT_MAX in *. destruct (used e); [specialize (He eq_refl)|]; lia.
Qed.

Lemma used_bytes_insert es i e e' :
  es !! i = Some e -> used_bytes (<[i:=e']> es) = used_bytes es - entry_bytes e + entry_bytes e'.
Proof.
  revert i. induction es as [|x es IH]; intros [|i]; try done; cbn [lookup list_lookup insert list_insert list_alter].
  all: rewrite !used_bytes_cons.
  - intros [= ->]. lia.
  - intros Hi. rewrite IH by done. lia.
Qed.

Lemma count_used_insert_false es i e e' :
  es !! i = Some e -> used e = true -> used e' = false ->
  S (count_used (<[i:=e']> es)) = count_used es.
Proof.
  unfold count_used. revert i. induction es as [|x es IH]; intros [|i]; simpl; [done..| |].
  - intros [= ->] -> ->. done.
  - intros Hi Hu Hu'. destruct (used x); simpl; by rewrite (IH i).
Qed.

Lemma count_used_le es : (count_used es <= length es)%nat.
Proof. unfold count_used. induction es as [|x es IH]; simpl; [lia|]. destruct (used x); simpl; lia. Qed.

(** Replacing an entry by one that is unused, or that keeps clear of the others. *)
Lemma disjoint_insert es i e' :
  disjoint_entries es ->
  (used e' = true -> forall j b, j <> i -> es !! j = Some b -> used b = true ->
     comp_offset e' + comp_size e' <= comp_offset b \/ comp_offset b + comp_size b <= comp_offset e') ->
  disjoint_entries (<[i:=e']> es).
Proof.
  intros Hd He' a b x y Hab Ha Hb Hx Hy.
  apply list_lookup_insert_Some in Ha as [(<- & <- & _)|[Hia Ha]].
  - apply list_lookup_insert_Some in Hb as [(? & _ & _)|[Hib Hb]]; [done|]. eapply He'; eauto.
  - apply list_lookup_insert_Some in Hb as [(<- & <- & _)|[Hib Hb]].
    + destruct (He' Hy a x) as [?|?]; auto.
    + eapply (Hd a b); eauto.
Qed.

(** Everything live in [s'] was live, unchanged, in [s]. *)
Definition shrinks (s s' : cstate) : Prop :=
  compressed_area s' = compressed_area s /\ compressed_area_size s' = compressed_area_size s /\
  compressed_seq s' = compressed_seq s /\ compressed_budget s' = compressed_budget s /\
  length (compressed_entries s') = length (compressed_entries s) /\
  forall i e', compressed_entries s' !! i = Some e' ->
    exists e, compressed_entries s !! i = Some e /\
      (e' = e \/ (used e' = false /\ generation e' = u32 (generation e + 1) /\ used e = true)).

Lemma shrinks_refl s : shrinks s s.
Proof. repeat split; try done. intros i e He. exists e. eauto. Qed.

Lemma shrinks_trans s1 s2 s3 : shrinks s1 s2 -> shrinks s2 s3 -> shrinks s1 s3.
Proof.
  intros (A1&B1&C1&D1&E1&F1) (A2&B2&C2&D2&E2&F2). repeat split; try congruence.
  intros i e3 H3. destruct (F2 i e3 H3) as (e2 & H2 & [->|(U & G & U2)]); [by apply F1|].
  destruct (F1 i e2 H2) as (e1 & H1 & [->|(U' & G' & _)]); [eauto 10|]. congruence.
Qed.

(** Releasing one live entry. *)
Lemma release_wf s i e :
  wf s -> compressed_entries s !! i = Some e -> used e = true ->
  let s' := set_used (set_entries s (<[i := entry_release e]> (compressed_entries s)))
              (u64 (compressed_used s - comp_size e)) in
  wf s' /\ shrinks s s' /\ compressed_used s' = compressed_used s - comp_size e /\
  0 < comp_size e <= compressed_used s.
Proof.
  intros W Hi Hu s'.
  assert (He : entry_ok (compressed_area_size s) e)
    by (eapply (Forall_lookup_1 _ _ _ _ (wf_entries s W) Hi)).
  pose proof He as (G & Q & D). specialize (D Hu).
  assert (Hsum := used_bytes_insert _ i e (entry_release e) Hi).
  unfold entry_bytes in Hsum. rewrite Hu in Hsum. cbn [entry_release used] in Hsum.
  assert (Hall : Forall (entry_ok (compressed_area_size s)) (<[i:=entry_release e]> (compressed_entries s))).
  { apply Forall_insert; [apply (wf_entries s W)|]. repeat split; cbn; try apply u32_bound; try lia; done. }
  destruct (used_bytes_bounds _ _ Hall) as [P1 P2]. rewrite zlen_insert in P2.
  destruct (used_bytes_bounds _ _ (wf_entries s W)) as [P3 P4].
  pose proof (wf_cap s W) as Hcap. unfold CMEM_COMPRESS_MAX_ENTRIES, INT_MAX in *.
  pose proof (wf_used s W) as HU.
  assert (Hu' : compressed_used s' = compressed_used s - comp_size e) by (cbn; rewrite u64_small; lia).
  split; [|split; [|split; [done|lia]]].
  - constructor; try apply W; cbn [s' set_used set_entries compressed_area compressed_entries
      compressed_area_size compressed_seq compressed_budget compressed_used].
    + pose proof (wf_area s W) as A. destruct (compressed_area s); [done|]. by rewrite A.
    + rewrite zlen_insert. apply W.
    + done.
    + apply disjoint_insert; [apply W|done].
    + rewrite u64_small; lia.
  - repeat split; cbn; [by rewrite length_insert|].
    intros j e' Hj. apply list_lookup_insert_Some in Hj as [(<- & <- & _)|[Hij Hj]]; [|eauto].
    exists e. split; [done|]. right. done.
Qed.

Lemma oldest_loop_spec es i oldest idx :
  let r := oldest_loop es i oldest idx in
  (r = idx /\ forall e, e ∈ es -> used e = true -> oldest <= alloc_seq e) \/
  (exists k e, es !! k = Some e /\ r = i + Z.of_nat k /\ used e = true /\ alloc_seq e < oldest /\
     forall e', e' ∈ es -> used e' = true -> alloc_seq e <= alloc_seq e').
Proof.
  revert i oldest idx. induction es as [|e es IH]; intros i oldest idx; cbn [oldest_loop].
  - left. split; [done|]. intros e He. by apply not_elem_of_nil in He.
  - destruct (used e) eqn:Hu; cbn [andb].
    + destruct (Z.ltb_spec (alloc_seq e) oldest) as [Hlt|Hge].
      * right. destruct (IH (i + 1) (alloc_seq e) i) as [[-> Hall]|(k & x & Hk & -> & Hux & Hx & Hall)].
        -- exists 0%nat, e. repeat split; try done; [lia|]. intros e' He' Hu'.
           apply elem_of_cons in He' as [->|He']; [lia|auto].
        -- exists (S k), x. repeat split; try done; [lia|lia|]. intros e' He' Hu'.
           apply elem_of_cons in He' as [->|He']; [lia|auto].
      * destruct (IH (i + 1) oldest idx) as [[-> Hall]|(k & x & Hk & -> & Hux & Hx & Hall)].
        -- left. split; [done|]. intros e' He' Hu'.
           apply elem_of_cons in He' as [->|He']; [lia|auto].
        -- right. exists (S k), x. repeat split; try done; [lia|]. intros e' He' Hu'.
           apply elem_of_cons in He' as [->|He']; [lia|auto].
    + destruct (IH (i + 1) oldest idx) as [[-> Hall]|(k & x & Hk & -> & Hux & Hx & Hall)].
      * left. split; [done|]. intros e' He' Hu'.
        apply elem_of_cons in He' as [->|He']; [congruence|auto].
      * right. exists (S k), x. repeat split; try done; [lia|]. intros e' He' Hu'.
        apply elem_of_cons in He' as [->|He']; [congruence|auto].
Qed.

(** Eviction either finds no candidate and changes nothing, or releases a live
    entry with the least sequence number. *)
Lemma evict_cases s :
  (cmem_compress_evict_oldest s = s /\
     forall e, e ∈ compressed_entries s -> used e = true -> UINT32_MAX <= alloc_seq e) \/
  (exists i e, compressed_entries s !! i = Some e /\ used e = true /\
     cmem_compress_evict_oldest s =
       set_used (set_entries s (<[i := entry_release e]> (compressed_entries s)))
         (u64 (compressed_used s - comp_size e)) /\
     forall e', e' ∈ compressed_entries s -> used e' = true -> alloc_seq e <= alloc_seq e').
Proof.
  unfold cmem_compress_evict_oldest.
  destruct (oldest_loop_spec (compressed_entries s) 0 UINT32_MAX (-1))
    as [[-> Hall]|(k & e & Hk & -> & Hu & _ & Hall)].
  - left. done.
  - right. exists k, e. destruct (Z.ltb_spec (0 + Z.of_nat k) 0); [lia|].
    replace (Z.to_nat (0 + Z.of_nat k)) with k by lia. by rewrite Hk.
Qed.

Lemma make_room_spec fuel s clen :
  wf s -> (count_used (compressed_entries s) < fuel)%nat -> 0 <= clen <= INT_MAX ->
  match make_room fuel s clen with
  | Done (ok, s') => wf s' /\ shrinks s s' /\
      (ok = true -> compressed_used s' + clen <= compressed_budget s') /\
      (compressed_used s + clen <= compressed_budget s -> ok = true /\ s' = s)
  | _ => False
  end.
Proof.
  revert s. induction fuel as [|fuel IH]; intros s W Hf Hc; [lia|]. cbn [make_room].
  pose proof (used_bytes_bounds _ _ (wf_entries s W)) as HB. pose proof (wf_cap s W) as Hcap.
  pose proof (wf_used s W) as HU. unfold CMEM_COMPRESS_MAX_ENTRIES, INT_MAX in *.
  assert (Hs : u64 (compressed_used s + clen) = compressed_used s + clen) by (apply u64_small; lia).
  rewrite Hs. destruct (Z.ltb_spec (compressed_budget s) (compressed_used s + clen)).
  - destruct (evict_cases s) as [[-> _]|(i & e & Hi & Hu & -> & _)].
    + rewrite Z.eqb_refl. split; [done|]. split; [apply shrinks_refl|]. split; [done|lia].
    + destruct (release_wf s i e W Hi Hu) as (W' & Hsh & Hus & Hpos).
      set (s' := set_used _ _) in *.
      assert (Hcnt : (count_used (compressed_entries s') < fuel)%nat).
      { pose proof (count_used_insert_false _ i e (entry_release e) Hi Hu eq_refl).
        change (compressed_entries s') with (<[i:=entry_release e]> (compressed_entries s)). lia. }
      destruct (Z.eqb_spec (compressed_used s') (compressed_used s)); [lia|].
      specialize (IH s' W' Hcnt Hc). destruct (make_room fuel s' clen) as [[ok s'']| |]; [|done..].
      destruct IH as (W'' & Hsh' & Hok & _).
      split; [done|]. split; [by eapply shrinks_trans|]. split; [done|lia].
  - split; [done|]. split; [apply shrinks_refl|]. split; [intros _; lia|done].
Qed.

(** ** Placement *)

Lemma find_free_entry_spec es i :
  match find_free_entry es i with
  | Some k => exists j e, k = (i + j)%nat /\ es !! j = Some e /\ used e = false
  | None => forall e, e ∈ es -> used e = true
  end.
Proof.
  revert i. induction es as [|e es IH]; intros i; cbn [find_free_entry].
  - intros e He. by apply not_elem_of_nil in He.
  - destruct (used e) eqn:Hu.
    + specialize (IH (S i)). destruct (find_free_entry es (S i)).
      * destruct IH as (j & x & -> & Hj & Hx). exists (S j), x. repeat split; [lia|done..].
      * intros x Hx. apply elem_of_cons in Hx as [->|Hx]; auto.
    + exists 0%nat, e. repeat split; [lia|done].
Qed.

Lemma aligned_eq clen :
  0 <= clen <= INT_MAX ->
  let aligned0 := Z.land (u64 (clen + CMEM_COMPRESS_SLOT_MASK)) (u32 (Z.lnot CMEM_COMPRESS_SLOT_MASK)) in
  let aligned := if aligned0 =? 0 then CMEM_COMPRESS_SLOT_SIZE else aligned0 in
  clen <= aligned <= clen + 4096 /\ 0 < aligned.
Proof.
  unfold INT_MAX, CMEM_COMPRESS_SLOT_SIZE, CMEM_COMPRESS_SLOT_MASK. intros Hc. rewrite u64_small by lia.
  set (x := clen + 4095). assert (E : Z.land x (u32 (Z.lnot 4095)) = x / 4096 * 4096).
  { transitivity (Z.land x (Z.lnot (Z.ones 12))); [|by rewrite land_lnot_ones].
    change (u32 (Z.lnot 4095)) with (Z.land (Z.ones 32) (Z.lnot (Z.ones 12))).
    rewrite Z.land_assoc, Z.land_ones by done. by rewrite Z.mod_small by lia. }
  rewrite E. cbv zeta. destruct (Z.eqb_spec (x / 4096 * 4096) 0); subst x; zdiv.
Qed.

Lemma first_fit_spec fuel es aligned sz off :
  0 < aligned < 2 ^ 32 -> 0 <= sz < 2 ^ 63 -> 0 <= off <= sz + 4096 ->
  sz < off + 4096 * Z.of_nat fuel ->
  exists off', first_fit (S fuel) es aligned sz off = Done off' /\ 0 <= off' <= sz + 4096 /\
    (off' + aligned <= sz -> existsb (fun e => overlaps e off' aligned) es = false).
Proof.
  intros Ha Hs. revert off. induction fuel as [|fuel IH]; intros off Ho Hf.
  - cbn [first_fit]. rewrite u64_small by lia. destruct (Z.leb_spec (off + aligned) sz); [lia|].
    exists off. repeat split; [lia..|]. lia.
  - remember (S fuel) as f. cbn [first_fit]. rewrite u64_small by lia.
    destruct (Z.leb_spec (off + aligned) sz); [|exists off; repeat split; lia].
    destruct (existsb _ es) eqn:Hx; [|exists off; repeat split; lia || done].
    unfold CMEM_COMPRESS_SLOT_SIZE. rewrite u64_small by lia. subst f. apply IH; lia.
Qed.

Lemma no_overlap sz es off aligned :
  Forall (entry_ok sz) es -> 0 <= sz < 2 ^ 63 -> 0 <= off -> 0 < aligned -> off + aligned <= sz ->
  existsb (fun e => overlaps e off aligned) es = false ->
  forall e, e ∈ es -> used e = true -> off + aligned <= comp_offset e \/ comp_offset e + comp_size e <= off.
Proof.
  intros Hall Hs Ho Ha Hle Hx e He Hu.
  assert (Hok : entry_ok sz e) by (by eapply Forall_forall in Hall).
  destruct Hok as (_ & _ & Hok). specialize (Hok Hu).
  assert (Hn : overlaps e off aligned = false).
  { destruct (overlaps e off aligned) eqn:E; [|done]. exfalso.
    assert (existsb (fun e => overlaps e off aligned) es = true) by
      (apply existsb_exists; exists e; split; [by apply list_elem_of_In|done]). congruence. }
  unfold overlaps in Hn. rewrite Hu, !u64_small in Hn by lia. cbn [andb] in Hn.
  apply andb_false_iff in Hn as [Hn|Hn]; apply Z.ltb_ge in Hn; lia.
Qed.

Lemma area_write_spec area off src :
  0 <= off -> off + zlen src <= zlen area ->
  exists area', area_write area off src = Done area' /\ zlen area' = zlen area /\
    slice area' off (zlen src) = src /\
    forall o n, 0 <= o -> 0 <= n -> o + n <= off \/ off + zlen src <= o -> slice area' o n = slice area o n.
Proof.
  intros Ho Hl. unfold area_write. destruct (Z.ltb_spec off 0); [lia|].
  destruct (Z.ltb_spec (zlen area) (off + zlen src)); [lia|]. cbn [orb].
  eexists. split; [done|]. unfold zlen, slice in *. split; [|split].
  - rewrite !length_app, length_take, length_drop. lia.
  - rewrite drop_app_ge, length_take by (rewrite length_take; lia).
    replace (Z.to_nat off - Z.to_nat off `min` length area)%nat with 0%nat by lia.
    by rewrite drop_0, Nat2Z.id, take_app_length.
  - intros o n Hn0 Hn [H1|H1].
    + apply list_eq. intros i. destruct (decide (i < Z.to_nat n)%nat).
      * rewrite !lookup_take_lt by done. rewrite !lookup_drop, lookup_app_l by (rewrite length_take; lia).
        by rewrite lookup_take_lt by lia.
      * by rewrite !lookup_take_ge by lia.
    + f_equal. rewrite drop_app_ge, length_take by (rewrite length_take; lia).
      rewrite drop_app_ge by lia. rewrite drop_drop. f_equal. lia.
Qed.

(** The state after a block of [clen] bytes is stored in entry [slot] at [off]. *)
Definition place (s1 : cstate) (slot : nat) (e : cmem_compressed_entry) (size off clen : Z)
    (area' : list Z) : cstate :=
  CState (<[slot := Entry size off clen (u32 (generation e + 1)) (compressed_seq s1) true]>
            (compressed_entries s1))
    (u32 (compressed_seq s1 + 1)) (compressed_budget s1) (u64 (compressed_used s1 + clen)) (Some area')
    (compressed_area_size s1).

Lemma place_wf s1 slot e size off clen area area' :
  wf s1 -> compressed_area s1 = Some area -> compressed_entries s1 !! slot = Some e -> used e = false ->
  zlen area' = zlen area -> 0 < clen <= INT_MAX -> 0 <= off -> off + clen <= compressed_area_size s1 ->
  (forall b, b ∈ compressed_entries s1 -> used b = true ->
     off + clen <= comp_offset b \/ comp_offset b + comp_size b <= off) ->
  let s' := place s1 slot e size off clen area' in
  wf s' /\ compressed_used s' = compressed_used s1 + clen.
Proof.
  intros W Ha Hi Hu Hz Hc Ho Hle Hfree s'.
  set (e' := Entry size off clen (u32 (generation e + 1)) (compressed_seq s1) true).
  assert (Hall : Forall (entry_ok (compressed_area_size s1)) (<[slot:=e']> (compressed_entries s1))).
  { apply Forall_insert; [apply (wf_entries _ W)|].
    split; [apply u32_bound|]. split; [apply (wf_seq _ W)|]. cbn. lia. }
  pose proof (used_bytes_insert _ slot e e' Hi) as Hsum. unfold entry_bytes in Hsum.
  rewrite Hu in Hsum. cbn [used e' comp_size] in Hsum.
  destruct (used_bytes_bounds _ _ Hall) as [P1 P2]. rewrite zlen_insert in P2.
  destruct (used_bytes_bounds _ _ (wf_entries s1 W)) as [P3 P4].
  pose proof (wf_cap s1 W) as Hcap. unfold CMEM_COMPRESS_MAX_ENTRIES, INT_MAX in *.
  pose proof (wf_used s1 W) as HU.
  assert (Hu' : compressed_used s' = compressed_used s1 + clen) by (cbn; rewrite u64_small; lia).
  split; [|done].
  pose proof (wf_area s1 W) as A. rewrite Ha in A.
  constructor; cbn [s' place compressed_area compressed_entries
      compressed_area_size compressed_seq compressed_budget compressed_used].
  - lia.
  - apply W.
  - rewrite zlen_insert. apply W.
  - done.
  - apply disjoint_insert; [apply W|]. intros _ j b _ Hj Hb. apply Hfree; [|done].
    by eapply list_elem_of_lookup_2.
  - fold e'. rewrite Hsum, u64_small; lia.
  - apply u32_bound.
  - apply W.
Qed.

Lemma store_spec s size scratch area :
  wf s -> compressed_area s = Some area -> 0 < zlen scratch <= INT_MAX ->
  exists s1, wf s1 /\ shrinks s s1 /\
    (compressed_used s + zlen scratch <= compressed_budget s -> s1 = s) /\
    (store_compressed s size scratch = Done (None, s1) \/
     exists slot e off area',
       let s' := place s1 slot e size off (zlen scratch) area' in
       compressed_entries s1 !! slot = Some e /\ used e = false /\ (slot < 4096)%nat /\
       store_compressed s size scratch =
         Done (Some (Z.lor (Z.shiftl (Z.of_nat slot) 32) (u32 (generation e + 1))), s') /\
       wf s' /\ compressed_used s' = compressed_used s1 + zlen scratch /\
       compressed_used s' <= compressed_budget s' /\
       slice area' off (zlen scratch) = scratch /\
       forall b, b ∈ compressed_entries s1 -> used b = true ->
         slice area' (comp_offset b) (comp_size b) = slice area (comp_offset b) (comp_size b)).
Proof.
  intros W Ha Hc. unfold store_compressed. cbv zeta.
  pose proof (make_room_spec (S (length (compressed_entries s))) s (zlen scratch) W) as HM.
  specialize (HM ltac:(pose proof (count_used_le (compressed_entries s)); lia) ltac:(lia)).
  destruct (make_room _ s (zlen scratch)) as [[ok s1]| |]; [|done..].
  destruct HM as (W1 & Hsh & Hroom & Hkeep). exists s1. split; [done|]. split; [done|].
  split; [intros Hfit; by apply Hkeep|]. cbn [mbind outcome_bind].
  destruct ok; [|by left]. cbn [negb]. specialize (Hroom eq_refl).
  pose proof (find_free_entry_spec (compressed_entries s1) 0) as Hfind.
  destruct (find_free_entry _ 0) as [slot|]; [|by left].
  destruct Hfind as (j & e & -> & Hj & Hu). cbn [Nat.add].
  destruct (aligned_eq (zlen scratch) ltac:(lia)) as [Hal Hal0].
  set (aligned := if _ =? 0 then _ else _) in *. unfold INT_MAX in *.
  pose proof (wf_size s1 W1) as Hsz. set (sz := compressed_area_size s1) in *.
  destruct (first_fit_spec (Z.to_nat (sz / CMEM_COMPRESS_SLOT_SIZE + 1)) (compressed_entries s1) aligned sz 0)
    as (off & -> & Hoff & Hfree); [lia|lia|lia|unfold CMEM_COMPRESS_SLOT_SIZE; zdiv|].
  cbn [mbind outcome_bind]. rewrite u64_small by lia.
  destruct (Z.ltb_spec sz (off + aligned)); [by left|].
  right. destruct Hsh as (Harea & _). rewrite Ha in Harea. rewrite Harea, Hj.
  pose proof (wf_area s1 W1) as HA. rewrite Harea in HA. fold sz in HA.
  destruct (area_write_spec area off scratch) as (area' & -> & Hz & Hsl & Hframe); [lia|lia|].
  pose proof (no_overlap _ _ off aligned (wf_entries s1 W1) Hsz ltac:(lia) Hal0 ltac:(lia)
                (Hfree ltac:(lia))) as Hdis.
  destruct (place_wf s1 j e size off (zlen scratch) area area' W1 Harea Hj Hu Hz Hc ltac:(lia) ltac:(lia))
    as [W' Hused].
  { intros b Hb Hub. destruct (Hdis b Hb Hub); lia. }
  exists j, e, off, area'. split; [done|]. split; [done|].
  split. { pose proof (wf_cap s1 W1). unfold zlen, CMEM_COMPRESS_MAX_ENTRIES in *.
           apply lookup_lt_Some in Hj. lia. }
  split; [done|]. split; [done|]. split; [done|]. split; [rewrite Hused; apply Hroom|]. split; [done|].
  intros b Hb Hub. pose proof (wf_entries s1 W1) as Hall. eapply Forall_forall in Hall; [|done].
  destruct Hall as (_ & _ & Hok). specialize (Hok Hub). apply Hframe; [lia..|].
  destruct (Hdis b Hb Hub); lia.
Qed.

(** ** Handles *)

Definition mk_handle (slot gen : Z) : Z := Z.lor (Z.shiftl slot 32) gen.

Lemma handle_decode slot gen :
  0 <= slot < 2 ^ 32 -> 0 <= gen < 2 ^ 32 ->
  u32 (Z.shiftr (mk_handle slot gen) 32) = slot /\ u32 (Z.land (mk_handle slot gen) 0xFFFFFFFF) = gen.
Proof.
  intros Hs Hg. unfold mk_handle. change 0xFFFFFFFF with (Z.ones 32).
  rewrite Z.shiftr_lor, Z.shiftr_shiftl_l, Z.land_lor_distr_l, !Z.land_ones by done.
  change (32 - 32) with 0. rewrite Z.shiftl_0_r.
  rewrite Z.shiftl_mul_pow2, Z.mod_mul, (Z.shiftr_div_pow2 gen) by done.
  rewrite Z.div_small, Z.lor_0_r, Z.mod_small by lia.
  rewrite Z.lor_0_l, !u32_small by lia. done.
Qed.

Lemma handle_entry_Some s k slot e :
  handle_entry s k = Some (slot, e) <->
  slot = Z.to_nat (u32 (Z.shiftr k 32)) /\ compressed_entries s !! slot = Some e /\
  used e = true /\ generation e = u32 (Z.land k 0xFFFFFFFF).
Proof.
  unfold handle_entry. split.
  - destruct (compressed_entries s !! Z.to_nat _) as [e0|] eqn:E; [|done].
    destruct (used e0) eqn:Hu; [|done]. cbn [negb orb].
    destruct (Z.eqb_spec (generation e0) (u32 (Z.land k 4294967295))); [|done]. intros [= <- <-]. done.
  - intros (-> & -> & -> & ->). by rewrite Z.eqb_refl.
Qed.

Lemma place_handle s1 slot e size off clen area' :
  (slot < length (compressed_entries s1))%nat -> (slot < 4096)%nat ->
  handle_entry (place s1 slot e size off clen area') (mk_handle (Z.of_nat slot) (u32 (generation e + 1))) =
    Some (slot, Entry size off clen (u32 (generation e + 1)) (compressed_seq s1) true).
Proof.
  intros Hlen Hlt.
  destruct (handle_decode (Z.of_nat slot) (u32 (generation e + 1)) ltac:(lia) (u32_bound _)) as [D1 D2].
  apply handle_entry_Some. rewrite D1, D2. split; [lia|]. split; [|done].
  cbn. by rewrite list_lookup_insert_eq.
Qed.

(** Handle [k] names a block whose content decompresses to [d]. *)
Definition stored (s : cstate) (k : Z) (d : list Z) : Prop :=
  exists slot e area, handle_entry s k = Some (slot, e) /\ compressed_area s = Some area /\
    original_size e = zlen d /\
    cmem_lz4_decompress (slice area (comp_offset e) (comp_size e)) (original_size e) = Done d.

Lemma stored_shrinks s s1 k d :
  shrinks s s1 -> stored s k d -> stored s1 k d \/ handle_entry s1 k = None.
Proof.
  intros (HA & _ & _ & _ & Hlen & Hent) (slot & e & area & Hk & Ha & Ho & Hd).
  apply handle_entry_Some in Hk as (-> & He & Hu & Hg).
  destruct (lookup_lt_is_Some_2 (compressed_entries s1) (Z.to_nat (u32 (Z.shiftr k 32)))) as [e1 He1].
  { rewrite Hlen. by eapply lookup_lt_Some. }
  destruct (Hent _ _ He1) as (e0 & He0 & [->|(Hu1 & _ & _)]).
  - left. assert (e0 = e) as -> by congruence. exists (Z.to_nat (u32 (Z.shiftr k 32))), e, area.
    repeat split; try done; [|congruence]. apply handle_entry_Some. done.
  - right. unfold handle_entry. by rewrite He1, Hu1.
Qed.

Lemma u32_succ_succ g : 0 <= g < 2 ^ 32 -> u32 (u32 (g + 1) + 1) <> g.
Proof. unfold u32. zdiv. Qed.

(** Storing a block leaves the others intact, and gives it a fresh handle. *)
Lemma stored_place s s1 area slot e size off clen area' k d :
  wf s -> shrinks s s1 -> compressed_area s = Some area ->
  compressed_entries s1 !! slot = Some e -> used e = false -> (slot < 4096)%nat ->
  (forall b, b ∈ compressed_entries s1 -> used b = true ->
     slice area' (comp_offset b) (comp_size b) = slice area (comp_offset b) (comp_size b)) ->
  stored s k d ->
  let s' := place s1 slot e size off clen area' in
  k <> mk_handle (Z.of_nat slot) (u32 (generation e + 1)) /\
  (stored s' k d \/ handle_entry s' k = None) /\ (stored s1 k d -> stored s' k d).
Proof.
  intros W Hsh Ha Hs Hu Hlt Hfr Hst s'. set (sk := Z.to_nat (u32 (Z.shiftr k 32))).
  assert (Hne : sk = slot -> u32 (generation e + 1) <> u32 (Z.land k 0xFFFFFFFF)).
  { destruct Hst as (? & e0 & a0 & Hk & _). apply handle_entry_Some in Hk as (-> & He & Hue & Hg).
    subst sk. intros Hsk. rewrite Hsk in He. destruct Hsh as (_ & _ & _ & _ & _ & Hent).
    destruct (Hent slot e Hs) as (e1 & He1 & [->|(_ & G & _)]); [congruence|].
    assert (e1 = e0) as -> by congruence. rewrite G, <- Hg. apply u32_succ_succ.
    pose proof (wf_entries s W) as Hall. eapply Forall_lookup_1 in Hall; [|exact He1]. apply Hall. }
  assert (Hstay : stored s1 k d -> stored s' k d).
  { intros (? & e1 & a1 & Hk1 & Ha1 & Ho & Hd). apply handle_entry_Some in Hk1 as (-> & He & Hue & Hg).
    fold sk in He. assert (sk <> slot) by (intros ->; congruence).
    assert (a1 = area) as -> by (destruct Hsh; congruence).
    exists sk, e1, area'. split; [|split; [done|split; [done|]]].
    - apply handle_entry_Some. split; [done|]. split; [|done]. cbn. by rewrite list_lookup_insert_ne.
    - rewrite Hfr; [done| |done]. by eapply list_elem_of_lookup_2. }
  split; [|split; [|done]].
  - intros ->. pose proof (u32_bound (generation e + 1)).
    destruct (handle_decode (Z.of_nat slot) (u32 (generation e + 1))) as [D1 D2]; [lia|done|].
    apply Hne; [subst sk; rewrite D1; lia|by rewrite D2].
  - destruct (stored_shrinks _ _ _ _ Hsh Hst) as [|Hnone]; [auto|]. right.
    unfold handle_entry in *. fold sk in Hnone |- *. subst s'. cbn [place compressed_entries].
    destruct (decide (sk = slot)) as [->|Hns].
    + rewrite list_lookup_insert_eq by (by eapply lookup_lt_Some). cbn [used generation negb orb].
      by rewrite (proj2 (Z.eqb_neq _ _) (Hne eq_refl)).
    + by rewrite list_lookup_insert_ne.
Qed.

(** ** The operations *)

Section WithHost.
Context `{PoolHost}.

Lemma used_bytes_none es : (forall e, e ∈ es -> used e = false) -> used_bytes es = 0.
Proof.
  induction es as [|e es IH]; intros Hn; [done|]. rewrite used_bytes_cons, IH.
  - unfold entry_bytes. rewrite Hn; [done|]. apply list_elem_of_here.
  - intros x Hx. apply Hn. by apply list_elem_of_further.
Qed.

(** [s0] is [s] with the area in place: nothing was stored before the area existed. *)
Definition area_ready (s s0 : cstate) : Prop :=
  s0 = s \/ (compressed_area s = None /\ compressed_used s0 = 0).

Lemma set_budget_wf s b : wf s -> 0 <= b < 2 ^ 64 -> wf (set_budget s b).
Proof. intros [] Hb. by constructor. Qed.

Lemma ensure_area_spec s h ok s' h' :
  wf s -> cmem_compress_ensure_area s h = (ok, s', h') ->
  wf s' /\ area_ready s s' /\ (ok = true -> exists area, compressed_area s' = Some area).
Proof.
  intros W. unfold cmem_compress_ensure_area.
  destruct (compressed_area s) as [area|] eqn:Ha.
  { intros [= <- <- <-]. split; [done|]. split; [by left|eauto]. }
  set (s1 := if _ =? 0 then _ else s).
  assert (W1 : wf s1).
  { subst s1. destruct (_ =? 0); [|done]. apply set_budget_wf; [done|].
    unfold CMEM_COMPRESS_DEFAULT_BUDGET. lia. }
  assert (H1 : compressed_entries s1 = [] /\ compressed_area s1 = None).
  { pose proof (wf_area s W) as A. rewrite Ha in A. subst s1. by destruct (_ =? 0). }
  destruct H1 as [He1 Ha1]. assert (Hu1 : compressed_used s1 = 0) by (rewrite (wf_used s1 W1), He1; done).
  destruct (mp_expand_pool h _) as [[] h1]; cbn [negb].
  2: { intros [= <- <- <-]. split; [done|]. split; [right; done|done]. }
  destruct (mp_alloc h1 (compressed_budget s1)) as [area h2] eqn:Hal.
  destruct (Z.eqb_spec area NULL) as [->|Hnn].
  { intros [= <- <- <-]. split; [done|]. split; [right; done|done]. }
  pose proof (wf_budget s1 W1) as Hb.
  assert (Hb63 : compressed_budget s1 < 2 ^ 63).
  { apply (mp_alloc_bound h1); [lia|]. by rewrite Hal. }
  destruct (calloc_ok h2 _) as [[] h3]; cbn [negb]; intros [= <- <- <-].
  - assert (Hr : forall e, e ∈ zero_table -> e = entry0).
    { intros e He. by apply elem_of_replicate in He as [-> _]. }
    split; [|split; [right; done|eauto]].
    constructor; cbn [compressed_area compressed_entries compressed_area_size compressed_seq
      compressed_budget compressed_used]; try apply W1.
    + apply load_length. lia.
    + lia.
    + unfold zlen, zero_table. rewrite length_replicate. unfold CMEM_COMPRESS_MAX_ENTRIES. lia.
    + apply Forall_forall. intros e ->%Hr. repeat split; cbn; done || lia.
    + intros i j a b _ Hi _ Hu. apply list_elem_of_lookup_2, Hr in Hi as ->. done.
    + rewrite Hu1, used_bytes_none; [done|]. intros e ->%Hr. done.
  - split; [|split; [right; done|done]]. destruct W1. constructor; cbn [set_entries compressed_area
      compressed_entries compressed_area_size compressed_seq compressed_budget compressed_used]; try done.
    { by rewrite Ha1. }
    all: by rewrite <- He1.
Qed.

(** What [mp_compress_block] can do: refuse, keeping the pool well formed, or store. *)
Inductive compress_result (s : cstate) (buf : list Z) : Z -> cstate -> Prop :=
| Refused s0 s' :
    area_ready s s0 -> wf s0 -> wf s' -> shrinks s0 s' -> compress_result s buf 0 s'
| Stored s0 s1 area slot e off area' scratch :
    let s' := place s1 slot e (zlen buf) off (zlen scratch) area' in
    area_ready s s0 -> wf s0 -> wf s1 -> shrinks s0 s1 ->
    (compressed_used s0 + zlen scratch <= compressed_budget s0 -> s1 = s0) ->
    compressed_area s0 = Some area ->
    cmem_lz4_compress buf (zlen buf) = Done scratch -> zlen buf <= INT_MAX -> zlen scratch < zlen buf ->
    compressed_entries s1 !! slot = Some e -> used e = false -> (slot < 4096)%nat ->
    wf s' -> compressed_used s' <= compressed_budget s' ->
    slice area' off (zlen scratch) = scratch ->
    (forall b, b ∈ compressed_entries s1 -> used b = true ->
       slice area' (comp_offset b) (comp_size b) = slice area (comp_offset b) (comp_size b)) ->
    compress_result s buf (mk_handle (Z.of_nat slot) (u32 (generation e + 1))) s'.

Lemma compress_cases s h data buf :
  wf s -> exists k s' h', mp_compress_block s h data buf = Done (k, s', h') /\ compress_result s buf k s'.
Proof.
  intros W. unfold mp_compress_block. cbv zeta.
  assert (Hno : forall s0 (h' : host), area_ready s s0 -> wf s0 ->
    exists k s' h'', Done (0, s0, h') = Done (k, s', h'') /\ compress_result s buf k s').
  { intros s0 h' Hr W0. exists 0, s0, h'. split; [done|]. eapply Refused; eauto using shrinks_refl. }
  assert (Hself : area_ready s s) by by left.
  destruct (_ || _); [by apply Hno|]. destruct (zlen buf <? _); [by apply Hno|].
  destruct (Z.ltb_spec INT_MAX (zlen buf)); [by apply Hno|].
  destruct (cmem_compress_ensure_area s h) as [[ok s0] h0] eqn:He.
  destruct (ensure_area_spec _ _ _ _ _ W He) as (W0 & Hr & Harea).
  destruct ok; cbn [negb]; [|by apply Hno]. destruct (Harea eq_refl) as [area Ha].
  destruct (compressed_budget s0 =? 0); [by apply Hno|].
  destruct (malloc_ok h0 (zlen buf)) as [[] h1]; cbn [negb]; [|by apply Hno].
  pose proof (cmem_lz4_compress_cases buf (zlen buf)) as HL.
  destruct (cmem_lz4_compress buf (zlen buf)) as [scratch| |] eqn:Hc; [|by apply Hno|done].
  clear HL. destruct (Z.leb_spec (zlen scratch) 0); cbn [orb]; [by apply Hno|].
  destruct (Z.leb_spec (zlen buf) (zlen scratch)); [by apply Hno|].
  destruct (store_spec s0 (zlen buf) scratch area W0 Ha ltac:(lia))
    as (s1 & W1 & Hsh & Hkeep & [->|(slot & e & off & area' & Hs & Hu & Hlt & -> & W' & Hus & Hb & Hsl & Hfr)]).
  - exists 0, s1, h1. split; [done|]. eapply Refused; eauto.
  - eexists _, _, _. split; [done|]. eapply Stored; eauto.
Qed.

Lemma compress_wf s h data buf k s' h' :
  wf s -> mp_compress_block s h data buf = Done (k, s', h') -> wf s'.
Proof.
  intros W Hc. destruct (compress_cases s h data buf W) as (k1 & s1 & h1 & Hc1 & HR).
  rewrite Hc in Hc1. injection Hc1 as <- <- <-. by destruct HR.
Qed.

Lemma area_ready_stored s s0 k d : area_ready s s0 -> stored s k d -> s0 = s.
Proof. intros [->|[Hn _]] (slot & e & a & _ & Ha & _); [done|congruence]. Qed.

(** Compressing a block never faults and always terminates, whatever the
    block holds and however often it must evict: the pool stays well formed
    (live entries inside the area, pairwise disjoint, [compressed_used] the sum
    of their sizes), and a block that was stored left the pool within its budget. *)
Theorem compress_block_safe s h data buf :
  wf s ->
  exists handle s' h', mp_compress_block s h data buf = Done (handle, s', h') /\ wf s' /\
    (handle <> 0 -> compressed_used s' <= compressed_budget s').
Proof.
  intros W. destruct (compress_cases s h data buf W) as (k & s' & h' & -> & HR).
  exists k, s', h'. split; [done|]. destruct HR; split; try done.
Qed.

(** C10: a block stored under a handle comes back bit for bit: decompression
    returns a fresh buffer holding exactly the block, and fails only when the
    pool cannot allocate that buffer. *)
Theorem compress_decompress s h data buf handle s' h' h2 :
  wf s -> mp_compress_block s h data buf = Done (handle, s', h') -> handle <> 0 ->
  fst (mp_decompress_block s' h2 handle) =
    let out := fst (mp_alloc h2 (zlen buf)) in if out =? NULL then Err else Done (out, buf).
Proof.
  intros W Hc Hk. destruct (compress_cases s h data buf W) as (k & s1 & h1 & Hc' & HR).
  rewrite Hc in Hc'. injection Hc' as <- <- <-. destruct HR as [|]; [done|].
  subst s'. unfold mp_decompress_block. rewrite (proj2 (Z.eqb_neq _ _) Hk), place_handle by eauto using lookup_lt_Some.
  cbn [compressed_area place original_size comp_offset comp_size].
  destruct (mp_alloc h2 (zlen buf)) as [out h3]. cbn [fst].
  destruct (out =? NULL); [done|].
  match goal with Hs : slice area' off _ = scratch |- _ => rewrite Hs end.
  by rewrite (lz4_decode_encode _ _ (zlen buf)), Z.eqb_refl.
Qed.

(** C18: compressing one block never corrupts another.  A block stored before
    either still decompresses to its content or its handle has been evicted (and is
    then refused, never served with foreign bytes); it is evicted only if the new
    block does not fit the budget, and the new handle is never the handle of a block
    that was live. *)
Theorem compress_isolation s h data buf handle s' h' k d :
  wf s -> mp_compress_block s h data buf = Done (handle, s', h') -> stored s k d ->
  (handle <> 0 -> k <> handle) /\ (stored s' k d \/ handle_entry s' k = None) /\
  (compressed_used s + zlen buf <= compressed_budget s -> handle <> 0 -> stored s' k d).
Proof.
  intros W Hc Hst. destruct (compress_cases s h data buf W) as (k' & s1 & h1 & Hc' & HR).
  rewrite Hc in Hc'. injection Hc' as <- <- <-. destruct HR as [s0 s' Hr W0 W' Hsh|].
  - assert (s0 = s) as -> by (by eapply area_ready_stored). split; [done|].
    split; [by eapply stored_shrinks|done].
  - assert (s0 = s) as -> by (by eapply area_ready_stored).
    destruct (stored_place s s1 area slot e (zlen buf) off (zlen scratch) area' k d) as (N & L & K); try done.
    split; [done|]. split; [done|]. intros Hfit _. apply K.
    replace s1 with s by (symmetry; auto with lia). done.
Qed.

(** Freeing a live handle succeeds once: the entry's bytes are returned to the
    budget, every other stored block keeps its content, and the handle is refused
    from then on by both release and decompression. *)
Theorem free_compressed_spec s h k d :
  wf s -> stored s k d -> k <> 0 ->
  exists s' n, mp_free_compressed s k = (true, s') /\ wf s' /\
    0 < n /\ compressed_used s' = compressed_used s - n /\
    fst (mp_free_compressed s' k) = false /\ mp_decompress_block s' h k = (Err, h) /\
    (forall k2 d2, stored s k2 d2 -> stored s' k2 d2 \/ handle_entry s' k2 = None) /\
    (forall k2 d2, stored s k2 d2 -> Z.shiftr k2 32 mod 2 ^ 32 <> Z.shiftr k 32 mod 2 ^ 32 -> stored s' k2 d2).
Proof.
  intros W (slot & e & area & Hk & Ha & Ho & Hd) Hnz.
  pose proof Hk as (Hsl & He & Hu & Hg)%handle_entry_Some.
  destruct (release_wf s slot e W He Hu) as (W' & Hsh & Hus & Hpos).
  set (s' := set_used _ _) in *. exists s', (comp_size e).
  assert (Hgone : handle_entry s' k = None).
  { unfold handle_entry. rewrite <- Hsl. subst s'. cbn [compressed_entries set_used set_entries].
    by rewrite list_lookup_insert_eq by (by eapply lookup_lt_Some). }
  unfold mp_free_compressed, mp_decompress_block. rewrite (proj2 (Z.eqb_neq k 0) Hnz), Hk, Hgone.
  repeat (split; [done || lia|]). split.
  - intros k2 d2. by apply stored_shrinks.
  - intros k2 d2 (slot2 & e2 & a2 & Hk2 & Ha2 & Ho2 & Hd2) Hne. exists slot2, e2, a2.
    repeat split; try done. apply handle_entry_Some in Hk2 as (-> & He2 & Hr).
    apply handle_entry_Some. split; [done|]. split; [|done]. subst s'. cbn.
    rewrite list_lookup_insert_ne; [done|]. intros Heq. apply Hne.
    rewrite Hsl in Heq. unfold u32 in Heq.
    apply Z2Nat.inj in Heq; [done|by apply Z.mod_pos_bound..].
Qed.

End WithHost.

(** ** Concrete pools *)

(** A host whose allocator bumps an address and refuses requests above 2^40 bytes. *)
#[local] Instance demo_host : PoolHost.
Proof.
  refine {|
    host := Z;
    mp_expand_pool h n := (true, h);
    mp_alloc h n := if n <=? 2 ^ 40 then (h, h + n + 8) else (NULL, h);
    mp_free h p := h + 1;
    malloc_ok h n := (true, h);
    calloc_ok h n := (true, h);
    load h p n := replicate (Z.to_nat n) 0;
  |}.
  - intros h p n Hn. unfold zlen. rewrite length_replicate. lia.
  - intros h n Hn. destruct (Z.leb_spec n (2 ^ 40)); [lia|done].
Defined.

Definition demo_pool (gen : Z) : cstate :=
  CState [Entry 0 0 0 gen 0 false; entry0] 0 8192 0 (Some (replicate (Z.to_nat 8192) 0)) 8192.

Lemma empty_pool_wf gen area :
  zlen area = 8192 -> 0 <= gen < 2 ^ 32 ->
  wf (CState [Entry 0 0 0 gen 0 false; entry0] 0 8192 0 (Some area) 8192).
Proof.
  intros Hz Hg.
  constructor; cbn [compressed_area compressed_area_size compressed_entries compressed_used
    compressed_seq compressed_budget]; try done || lia.
  - repeat constructor; cbn; lia || done.
  - intros [|[|i]] j a b _ Hi _ Hu; cbn in Hi; try done; by injection Hi as <-.
Qed.

Lemma demo_pool_wf gen : 0 <= gen < 2 ^ 32 -> wf (demo_pool gen).
Proof.
  apply empty_pool_wf. unfold zlen. by rewrite length_replicate.
Qed.

Lemma compress_block_safe_witness :
  wf (demo_pool 0) /\
  exists handle s' h', mp_compress_block (demo_pool 0) 4096 64 lz4_sample = Done (handle, s', h') /\
    wf s' /\ (handle <> 0 -> compressed_used s' <= compressed_budget s').
Proof.
  split; [exact (demo_pool_wf 0 ltac:(lia))|].
  exact (compress_block_safe (H := demo_host) (demo_pool 0) 4096 64 lz4_sample (demo_pool_wf 0 ltac:(lia))).
Defined.

Definition demo_handle : Z := 1.
Definition demo_stored : cstate :=
  match mp_compress_block (demo_pool 0) 4096 64 lz4_sample with Done (_, s, _) => s | _ => demo_pool 0 end.

Lemma demo_compress :
  mp_compress_block (demo_pool 0) 4096 64 lz4_sample = Done (demo_handle, demo_stored, 4097).
Proof. vm_compute. reflexivity. Qed.

Lemma compress_decompress_witness :
  fst (mp_decompress_block demo_stored 8192 demo_handle) = Done (8192, lz4_sample).
Proof.
  exact (compress_decompress (H := demo_host) (demo_pool 0) 4096 64 lz4_sample demo_handle demo_stored 4097 8192
    (demo_pool_wf 0 ltac:(lia)) demo_compress ltac:(done)).
Defined.

Lemma demo_stored_wf : wf demo_stored.
Proof.
  exact (compress_wf (H := demo_host) (demo_pool 0) 4096 64 lz4_sample _ _ _
    (demo_pool_wf 0 ltac:(lia)) demo_compress).
Qed.

Lemma demo_is_stored : stored demo_stored demo_handle lz4_sample.
Proof.
  exists 0%nat, (Entry (zlen lz4_sample) 0 20 1 0 true).
  eexists. repeat split; vm_compute; reflexivity.
Qed.

(** A second block, stored beside the first. *)
Definition demo_second : list Z := replicate 100 5.
Definition demo_stored2 : cstate :=
  match mp_compress_block demo_stored 4096 64 demo_second with Done (_, s, _) => s | _ => demo_stored end.

Lemma demo_compress2 :
  mp_compress_block demo_stored 4096 64 demo_second = Done (4294967297, demo_stored2, 4097).
Proof. vm_compute. reflexivity. Qed.

Lemma compress_isolation_witness : stored demo_stored2 demo_handle lz4_sample.
Proof.
  exact (proj2 (proj2 (compress_isolation (H := demo_host) demo_stored 4096 64 demo_second 4294967297 demo_stored2 4097
    demo_handle lz4_sample demo_stored_wf demo_compress2 demo_is_stored))
    ltac:(vm_compute; discriminate) ltac:(discriminate)).
Defined.

Lemma free_compressed_spec_witness :
  exists s', mp_free_compressed demo_stored demo_handle = (true, s') /\ wf s' /\
    mp_decompress_block s' 8192 demo_handle = (Err, 8192).
Proof.
  destruct (free_compressed_spec (H := demo_host) demo_stored 8192 demo_handle lz4_sample demo_stored_wf
    demo_is_stored ltac:(discriminate)) as (s' & n & Hf & W & _ & _ & _ & Hd & _).
  exists s'. exact (conj Hf (conj W Hd)).
Defined.

(** The generation counter wraps into the null handle.  When entry 0 is free
    with generation [UINT32_MAX], the next block is stored in it under handle 0, the
    failure value: the caller's buffer has been released and the content cannot be
    fetched ([mp_decompress_block] and [mp_free_compressed] refuse handle 0), so the
    bytes stay charged to the budget until eviction. *)
Theorem generation_wrap_loses_block :
  exists s s' h', wf s /\ mp_compress_block (H := demo_host) s 4096 64 lz4_sample = Done (0, s', h') /\
    h' = mp_free (PoolHost := demo_host) 4096 64 /\ compressed_used s = 0 /\ compressed_used s' = 20 /\
    handle_entry s' 0 <> None /\
    mp_decompress_block (H := demo_host) s' h' 0 = (Err, h') /\ mp_free_compressed s' 0 = (false, s').
Proof.
  exists (demo_pool UINT32_MAX).
  destruct (mp_compress_block (H := demo_host) (demo_pool UINT32_MAX) 4096 64 lz4_sample) as [[[k s'] h']| |] eqn:E.
  - exists s', h'. split; [apply demo_pool_wf; unfold UINT32_MAX; lia|].
    vm_compute in E. injection E as <- <- <-. repeat split; discriminate.
  - vm_compute in E. discriminate.
  - vm_compute in E. discriminate.
Qed.
