(* ===== verification/Dll.v ===== *)
(** * Intrusive doubly linked lists

    The lists threaded through the allocator's own objects (TLSF buckets, the arena
    free list, slab page lists, the list of live allocations) all have a [next] and a
    [prev] field.  The store keeps one finite map per field, from the address of an
    object to the field's value; [dll] relates the two maps of a list to the sequence
    of its nodes, and the operations are those of the C code: push at the head, unlink
    a node given by its address, link a node between two neighbours. *)
From S2P Require Import Prelude.
From Stdlib Require Import ZArith Lia.
From stdpp Require Import base option list gmap.
Open Scope Z_scope.

(** Field access: an address with no object is a fault. *)
Definition ld (m : gmap Z Z) (a : Z) : outcome Z :=
  match m !! a with Some v => Done v | None => Fault end.
Definition st (m : gmap Z Z) (a v : Z) : outcome (gmap Z Z) :=
  match m !! a with Some _ => Done (<[a := v]> m) | None => Fault end.

Lemma ld_Some m a v : m !! a = Some v -> ld m a = Done v.
Proof. unfold ld. by intros ->. Qed.

Lemma st_Some m a v w : m !! a = Some w -> st m a v = Done (<[a := v]> m).
Proof. unfold st. by intros ->. Qed.

Lemma st_is_Some m a v : is_Some (m !! a) -> st m a v = Done (<[a := v]> m).
Proof. intros [w Hw]. by eapply st_Some. Qed.

(** The [next] and [prev] fields. *)
Record links := Links { nxt : gmap Z Z; prv : gmap Z Z }.

Definition set_nxt (k : links) (a v : Z) : outcome links :=
  n ← st (nxt k) a v; Done (Links n (prv k)).
Definition set_prv (k : links) (a v : Z) : outcome links :=
  p ← st (prv k) a v; Done (Links (nxt k) p).

Definition has_node (k : links) (a : Z) : Prop := is_Some (nxt k !! a) /\ is_Some (prv k !! a).

Lemma set_nxt_node k a v : has_node k a -> set_nxt k a v = Done (Links (<[a := v]> (nxt k)) (prv k)).
Proof. intros [H _]. unfold set_nxt. by rewrite st_is_Some. Qed.

Lemma set_prv_node k a v : has_node k a -> set_prv k a v = Done (Links (nxt k) (<[a := v]> (prv k))).
Proof. intros [_ H]. unfold set_prv. by rewrite st_is_Some. Qed.

(** [p->next = head; p->prev = NULL; if (head) head->prev = p;]. *)
Definition dll_push_front (k : links) (head p : Z) : outcome links :=
  k ← set_nxt k p head;
  k ← set_prv k p NULL;
  if head =? NULL then Done k else set_prv k head p.

(** [if (p->prev) p->prev->next = p->next; else head = p->next;
     if (p->next) p->next->prev = p->prev;]. *)
Definition dll_unlink (k : links) (head p : Z) : outcome (links * Z) :=
  pv ← ld (prv k) p;
  nx ← ld (nxt k) p;
  r ← (if pv =? NULL then Done (k, nx) else k ← set_nxt k pv nx; Done (k, head));
  let '(k, head) := r in
  nx ← ld (nxt k) p;
  if nx =? NULL then Done (k, head)
  else pv ← ld (prv k) p; k ← set_prv k nx pv; Done (k, head).

(** ** Representation *)

Fixpoint seg (k : links) (pv p : Z) (l : list Z) (q : Z) : Prop :=
  match l with
  | [] => p = q
  | x :: l => p = x /\ x <> NULL /\ prv k !! x = Some pv /\ exists n, nxt k !! x = Some n /\ seg k x n l q
  end.

(** [head] heads a list of the nodes [l]. *)
Definition dll (k : links) (head : Z) (l : list Z) : Prop := seg k NULL head l NULL /\ NoDup l.

(** The last node of a segment, or its predecessor when it is empty. *)
Definition lastd (pv : Z) (l : list Z) : Z := default pv (last l).

Lemma lastd_cons pv x l : lastd pv (x :: l) = lastd x l.
Proof. unfold lastd. destruct l as [|y l]; [done|]. rewrite last_cons. by destruct (last (y :: l)). Qed.

Lemma lastd_snoc pv l x : lastd pv (l ++ [x]) = x.
Proof. unfold lastd. by rewrite last_snoc. Qed.

Lemma lastd_elem pv l : lastd pv l = pv \/ lastd pv l ∈ l.
Proof.
  unfold lastd. destruct (last l) as [x|] eqn:E; [right|by left].
  apply last_Some in E as [l' ->]. apply elem_of_app. right. by apply list_elem_of_singleton.
Qed.

Lemma seg_app k pv p l1 l2 q :
  seg k pv p (l1 ++ l2) q <-> exists m, seg k pv p l1 m /\ seg k (lastd pv l1) m l2 q.
Proof.
  revert pv p. induction l1 as [|x l1 IH]; intros pv p; cbn [app seg].
  - split; [intros H; exists p; done|intros (m & -> & H); done].
  - setoid_rewrite lastd_cons. setoid_rewrite IH. split.
    + intros (-> & Hx & Hp & n & Hn & m & H1 & H2). exists m. split; [|done].
      split; [done|]. split; [done|]. split; [done|]. exists n. split; [done|done].
    + intros (m & (-> & Hx & Hp & n & Hn & H1) & H2).
      split; [done|]. split; [done|]. split; [done|]. exists n. split; [done|]. by exists m.
Qed.

Lemma seg_node k pv p l q x : seg k pv p l q -> x ∈ l -> has_node k x /\ x <> NULL.
Proof.
  revert pv p. induction l as [|y l IH]; intros pv p Hs Hx; [by apply not_elem_of_nil in Hx|].
  destruct Hs as (-> & Hy & Hp & n & Hn & Hs). apply elem_of_cons in Hx as [->|Hx]; [|by eapply IH].
  split; [split; eauto|done].
Qed.

(** The list depends on the fields of its own nodes only. *)
Lemma seg_frame k k' pv p l q :
  (forall x, x ∈ l -> nxt k' !! x = nxt k !! x /\ prv k' !! x = prv k !! x) ->
  seg k pv p l q -> seg k' pv p l q.
Proof.
  revert pv p. induction l as [|x l IH]; intros pv p Hf; cbn [seg]; [done|].
  intros (-> & Hx & Hp & n & Hn & Hs).
  destruct (Hf x (list_elem_of_here _ _)) as [F1 F2]. rewrite F2. split; [done|]. split; [done|].
  split; [done|]. exists n. rewrite F1. split; [done|]. apply IH; [|done].
  intros y Hy. apply Hf. by apply list_elem_of_further.
Qed.

Lemma dll_frame k k' head l :
  (forall x, x ∈ l -> nxt k' !! x = nxt k !! x /\ prv k' !! x = prv k !! x) -> dll k head l -> dll k' head l.
Proof. intros Hf [Hs Hd]. split; [by eapply seg_frame|done]. Qed.

(** Redirecting the [next] field of the last node. *)
Lemma seg_set_last k pv p l q q' :
  NoDup l -> l <> [] -> seg k pv p l q ->
  seg (Links (<[lastd pv l := q']> (nxt k)) (prv k)) pv p l q'.
Proof.
  intros Hd Hl. destruct (exists_last Hl) as (l' & y & ->). rewrite lastd_snoc.
  apply NoDup_app in Hd as (Hd & Hdis & _). rewrite !seg_app.
  intros (m & H1 & H2). exists m. split.
  - eapply seg_frame; [|exact H1]. intros x Hx. cbn [nxt prv].
    rewrite lookup_insert_ne; [done|]. intros ->. apply (Hdis x Hx). by apply list_elem_of_singleton.
  - destruct H2 as (-> & Hy & Hp & n & Hn & _). repeat split; try done. exists q'. cbn [nxt].
    by rewrite lookup_insert_eq.
Qed.

(** Redirecting the [prev] field of the first node. *)
Lemma seg_set_first k pv p x l q pv' :
  NoDup (x :: l) -> seg k pv p (x :: l) q ->
  seg (Links (nxt k) (<[x := pv']> (prv k))) pv' p (x :: l) q.
Proof.
  intros Hd (-> & Hx & Hp & n & Hn & Hs). apply NoDup_cons in Hd as [Hx' Hd].
  split; [done|]. split; [done|]. cbn [prv nxt]. rewrite lookup_insert_eq. split; [done|].
  exists n. split; [done|]. eapply seg_frame; [|exact Hs]. intros y Hy. cbn [nxt prv].
  rewrite lookup_insert_ne; [done|]. intros ->. done.
Qed.

(** ** Operations *)

(** Everything the operations leave alone: the fields of nodes outside [l]. *)
Definition frame (l : list Z) (k k' : links) : Prop :=
  (forall x, x ∉ l -> nxt k' !! x = nxt k !! x /\ prv k' !! x = prv k !! x) /\
  (forall x, has_node k x -> has_node k' x).

Lemma frame_dll l k k' head l2 :
  frame l k k' -> (forall x, x ∈ l2 -> x ∉ l) -> dll k head l2 -> dll k' head l2.
Proof. intros [Hf _] Hd. apply dll_frame. auto. Qed.

Lemma frame_nxt l (k : links) a v : a ∈ l -> frame l k (Links (<[a := v]> (nxt k)) (prv k)).
Proof.
  intros Ha. split; cbn [nxt prv].
  - intros x Hx. rewrite lookup_insert_ne; [done|]. intros ->. done.
  - intros x [H1 H2]. split; [|done]. cbn. destruct (decide (a = x)) as [->|].
    + rewrite lookup_insert_eq. eauto.
    + by rewrite lookup_insert_ne.
Qed.

Lemma frame_prv l (k : links) a v : a ∈ l -> frame l k (Links (nxt k) (<[a := v]> (prv k))).
Proof.
  intros Ha. split; cbn [nxt prv].
  - intros x Hx. rewrite lookup_insert_ne; [done|]. intros ->. done.
  - intros x [H1 H2]. split; [done|]. cbn. destruct (decide (a = x)) as [->|].
    + rewrite lookup_insert_eq. eauto.
    + by rewrite lookup_insert_ne.
Qed.

Lemma frame_trans l k1 k2 k3 : frame l k1 k2 -> frame l k2 k3 -> frame l k1 k3.
Proof.
  intros [F1 N1] [F2 N2]. split; [|auto]. intros x Hx.
  destruct (F2 x Hx) as [-> ->]. by apply F1.
Qed.

Lemma frame_refl l k : frame l k k.
Proof. by split. Qed.

Lemma frame_mono l l' k k' : (forall x, x ∈ l -> x ∈ l') -> frame l k k' -> frame l' k k'.
Proof. intros Hl [F N]. split; [|done]. intros x Hx. apply F. intros ?. apply Hx. auto. Qed.

(** [p->next = nx; p->prev = pv; if (pv) pv->next = p; else head = p; if (nx) nx->prev = p;] *)
Definition dll_link (k : links) (head pv p nx : Z) : outcome (links * Z) :=
  k ← set_nxt k p nx;
  k ← set_prv k p pv;
  r ← (if pv =? NULL then Done (k, p) else k ← set_nxt k pv p; Done (k, head));
  let '(k, head) := r in
  if nx =? NULL then Done (k, head) else k ← set_prv k nx p; Done (k, head).

Lemma has_node_frame l k k' x : frame l k k' -> has_node k x -> has_node k' x.
Proof. intros [_ N]. apply N. Qed.

Lemma seg_head k pv p l q : seg k pv p l q -> p = match l with [] => q | x :: _ => x end.
Proof. destruct l as [|x l]; [done|]. by intros (-> & _). Qed.

Lemma lastd_null k head l1 m : seg k NULL head l1 m -> lastd NULL l1 = NULL -> l1 = [].
Proof.
  intros Hs Hl. destruct (lastd_elem NULL l1) as [_|Hin].
  - destruct l1 as [|x l1]; [done|]. exfalso.
    destruct (exists_last (l := x :: l1) ltac:(done)) as (l' & y & E). rewrite E, lastd_snoc in Hl.
    destruct (seg_node _ _ _ _ _ y Hs); [rewrite E; apply elem_of_app; right; by apply list_elem_of_singleton|].
    done.
  - destruct (seg_node _ _ _ _ _ _ Hs Hin). done.
Qed.

(** Linking [p] between the last node of [l1] and the first of [l2]. *)
Lemma dll_link_spec k head l1 p nx l2 :
  dll k head (l1 ++ l2) -> p ∉ l1 ++ l2 -> p <> NULL -> has_node k p ->
  seg k NULL head l1 nx ->
  exists k' head', dll_link k head (lastd NULL l1) p nx = Done (k', head') /\
    dll k' head' (l1 ++ p :: l2) /\ frame (l1 ++ p :: l2) k k'.
Proof.
  intros [Hs Hd] Hp Hp0 Hn Hs1. apply seg_app in Hs as (m & Hs1' & Hs2).
  assert (m = nx) as ->.
  { destruct l1 as [|x l1]; [by cbn in *; subst|].
    clear -Hs1 Hs1'. revert Hs1 Hs1'. generalize NULL as pv. generalize head as hd. generalize (x :: l1).
    intros l. induction l as [|y l IH]; intros hd pv; cbn; [congruence|].
    intros (_ & _ & _ & n & Hn & H1) (_ & _ & _ & n' & Hn' & H2). eapply IH; [exact H1|].
    by replace n with n' by congruence. }
  clear Hs1. apply NoDup_app in Hd as (Hd1 & Hdis & Hd2).
  apply not_elem_of_app in Hp as [Hp1 Hp2].
  unfold dll_link. set (pv := lastd NULL l1) in *.
  rewrite set_nxt_node by done. cbn [mbind outcome_bind].
  set (k1 := Links (<[p:=nx]> (nxt k)) (prv k)).
  assert (F1 : frame [p] k k1) by (apply frame_nxt; by apply list_elem_of_singleton).
  rewrite set_prv_node by (by eapply has_node_frame). cbn [mbind outcome_bind].
  set (k2 := Links (nxt k1) (<[p:=pv]> (prv k1))).
  assert (F2 : frame [p] k k2) by (eapply frame_trans; [done|apply frame_prv; by apply list_elem_of_singleton]).
  assert (Hs1 : seg k2 NULL head l1 nx).
  { eapply seg_frame; [|exact Hs1']. intros x Hx. apply F2. rewrite list_elem_of_singleton. by intros ->. }
  assert (Hs2' : seg k2 pv nx l2 NULL).
  { eapply seg_frame; [|exact Hs2]. intros x Hx. apply F2. rewrite list_elem_of_singleton. by intros ->. }
  assert (Hk2p : nxt k2 !! p = Some nx /\ prv k2 !! p = Some pv).
  { unfold k2, k1. cbn [nxt prv]. by rewrite !lookup_insert_eq. }
  (* the predecessor *)
  assert (Hpre : exists k3 head', (if pv =? NULL then Done (k2, p) else k ← set_nxt k2 pv p; Done (k, head))
                   = Done (k3, head') /\ seg k3 NULL head' l1 p /\ frame l1 k2 k3).
  { destruct (Z.eqb_spec pv NULL) as [E|Hpv].
    - apply (lastd_null _ _ _ _ Hs1) in E as ->. exists k2, p. split; [done|]. split; [done|apply frame_refl].
    - assert (Hin : pv ∈ l1) by (subst pv; destruct (lastd_elem NULL l1); [congruence|done]).
      destruct (seg_node _ _ _ _ _ _ Hs1 Hin) as [Hnode _]. rewrite set_nxt_node by done.
      eexists _, head. split; [done|]. split; [|by apply frame_nxt].
      apply seg_set_last with (q := nx); [done| |done]. intros ->. by apply not_elem_of_nil in Hin. }
  destruct Hpre as (k3 & head' & -> & Hs3 & F3). cbn [mbind outcome_bind].
  assert (Hk3p : nxt k3 !! p = Some nx /\ prv k3 !! p = Some pv).
  { destruct F3 as [F3 _]. destruct (F3 p Hp1) as [-> ->]. done. }
  assert (Hs4 : seg k3 pv nx l2 NULL).
  { eapply seg_frame; [|exact Hs2']. intros x Hx. apply F3. intros Hx1. by apply (Hdis x Hx1). }
  assert (Fall : frame (l1 ++ p :: l2) k k3).
  { eapply frame_trans; eapply frame_mono; [|exact F2| |exact F3]; intros x Hx; apply elem_of_app.
    - right. apply list_elem_of_singleton in Hx as ->. apply list_elem_of_here.
    - by left. }
  assert (Hnd : NoDup (l1 ++ p :: l2)).
  { apply NoDup_app. split; [done|]. split; [|by apply NoDup_cons].
    intros x Hx. rewrite not_elem_of_cons. split; [by intros ->|auto]. }
  (* the successor *)
  destruct l2 as [|y l2].
  - cbn [seg] in Hs4. subst nx. cbn. eexists _, _. split; [done|]. split; [|done]. split; [|done].
    apply seg_app. exists p. split; [done|]. repeat split; try done; [apply Hk3p|]. exists NULL.
    split; [apply Hk3p|done].
  - pose proof Hs4 as (-> & Hy & _). rewrite (proj2 (Z.eqb_neq y NULL) Hy).
    destruct (seg_node _ _ _ _ _ y Hs4 (list_elem_of_here _ _)) as [Hnode _].
    rewrite set_prv_node by done. eexists _, _. split; [done|].
    assert (Hyp : p <> y) by (intros ->; apply Hp2, list_elem_of_here).
    split; [split; [|done]|].
    + apply seg_app. exists p. split.
      * eapply seg_frame; [|exact Hs3]. intros x Hx. cbn [nxt prv]. rewrite lookup_insert_ne; [done|].
        intros ->. apply (Hdis x Hx), list_elem_of_here.
      * split; [done|]. split; [done|]. cbn [nxt prv]. rewrite lookup_insert_ne by done.
        split; [apply Hk3p|]. exists y. split; [apply Hk3p|]. apply seg_set_first with (pv := pv); [|done].
        done.
    + eapply frame_trans; [exact Fall|]. apply frame_prv. apply elem_of_app. right.
      apply list_elem_of_further, list_elem_of_here.
Qed.

Lemma dll_push_front_link k head p hd :
  dll_link k hd NULL p head = (k ← dll_push_front k head p; Done (k, p)).
Proof.
  unfold dll_link, dll_push_front. destruct (set_nxt k p head) as [k1| |]; [|done..].
  cbn [mbind outcome_bind]. destruct (set_prv k1 p NULL) as [k2| |]; [|done..].
  cbn [mbind outcome_bind]. rewrite Z.eqb_refl. cbn [mbind outcome_bind]. destruct (head =? NULL); [done|].
  by destruct (set_prv k2 head p).
Qed.

(** Pushing a node at the head. *)
Lemma dll_push_front_spec k head l p :
  dll k head l -> p ∉ l -> p <> NULL -> has_node k p ->
  exists k', dll_push_front k head p = Done k' /\ dll k' p (p :: l) /\ frame (p :: l) k k'.
Proof.
  intros Hd Hp Hp0 Hn. destruct (dll_link_spec k head [] p head l Hd Hp Hp0 Hn ltac:(done))
    as (k' & head' & E & Hd' & F).
  change (lastd NULL []) with NULL in E. rewrite dll_push_front_link in E.
  destruct (dll_push_front k head p) as [k1| |]; [|done..]. injection E as -> <-. by exists k'.
Qed.

(** Unlinking the node [p], wherever it is. *)
Lemma dll_unlink_spec k head l1 p l2 :
  dll k head (l1 ++ p :: l2) ->
  exists k' head', dll_unlink k head p = Done (k', head') /\ dll k' head' (l1 ++ l2) /\
    frame (l1 ++ l2) k k'.
Proof.
  intros [Hs Hd]. apply seg_app in Hs as (m & Hs1 & Hs2). pose proof Hs2 as (-> & Hp0 & Hprv & nx & Hnxt & Hs3).
  apply NoDup_app in Hd as (Hd1 & Hdis & Hd2). apply NoDup_cons in Hd2 as [Hp2 Hd2].
  assert (Hp1 : p ∉ l1) by (intros Hin; apply (Hdis p Hin), list_elem_of_here).
  assert (Hdis2 : forall x, x ∈ l1 -> x ∉ l2) by (intros x Hx Hx2; by apply (Hdis x Hx), list_elem_of_further).
  set (pv := lastd NULL l1) in *. unfold dll_unlink.
  rewrite (ld_Some _ _ _ Hprv), (ld_Some _ _ _ Hnxt). cbn [mbind outcome_bind].
  assert (Hpre : exists k1 head', (if pv =? NULL then Done (k, nx) else k0 ← set_nxt k pv nx; Done (k0, head))
                   = Done (k1, head') /\ seg k1 NULL head' l1 nx /\ frame l1 k k1).
  { destruct (Z.eqb_spec pv NULL) as [E|Hpv].
    - apply (lastd_null _ _ _ _ Hs1) in E as ->. exists k, nx. split; [done|]. split; [done|apply frame_refl].
    - assert (Hin : pv ∈ l1) by (subst pv; destruct (lastd_elem NULL l1); [congruence|done]).
      destruct (seg_node _ _ _ _ _ _ Hs1 Hin) as [Hnode _]. rewrite set_nxt_node by done.
      eexists _, head. split; [done|]. split; [|by apply frame_nxt].
      apply seg_set_last with (q := p); [done| |done]. intros ->. by apply not_elem_of_nil in Hin. }
  destruct Hpre as (k1 & head' & -> & Hs4 & F1). cbn [mbind outcome_bind].
  assert (Hk1p : nxt k1 !! p = Some nx /\ prv k1 !! p = Some pv).
  { destruct F1 as [F1 _]. destruct (F1 p Hp1) as [-> ->]. done. }
  assert (Hs5 : seg k1 p nx l2 NULL).
  { eapply seg_frame; [|exact Hs3]. intros x Hx. apply F1. intros Hx1. by apply (Hdis2 x Hx1). }
  assert (Hnd : NoDup (l1 ++ l2)) by (apply NoDup_app; done).
  assert (F1' : frame (l1 ++ l2) k k1).
  { eapply frame_mono; [|exact F1]. intros x Hx. apply elem_of_app. by left. }
  rewrite (ld_Some _ _ _ (proj1 Hk1p)). cbn [mbind outcome_bind].
  destruct l2 as [|y l2].
  - cbn [seg] in Hs5. subst nx. cbn. eexists _, _. split; [done|]. split; [|done]. split; [|done].
    rewrite app_nil_r. done.
  - pose proof Hs5 as (-> & Hy & _). rewrite (proj2 (Z.eqb_neq y NULL) Hy), (ld_Some _ _ _ (proj2 Hk1p)).
    cbn [mbind outcome_bind]. destruct (seg_node _ _ _ _ _ y Hs5 (list_elem_of_here _ _)) as [Hnode _].
    rewrite set_prv_node by done. eexists _, _. split; [done|]. split; [split; [|done]|].
    + apply seg_app. exists y. split.
      * eapply seg_frame; [|exact Hs4]. intros x Hx. cbn [nxt prv]. rewrite lookup_insert_ne; [done|].
        intros ->. apply (Hdis2 x Hx), list_elem_of_here.
      * apply seg_set_first with (pv := p); [done|]. done.
    + eapply frame_trans; [exact F1'|]. apply frame_prv. apply elem_of_app. right. apply list_elem_of_here.
Qed.

Lemma dll_head k head l : dll k head l -> head = match l with [] => NULL | x :: _ => x end.
Proof. intros [Hs _]. by eapply seg_head. Qed.

Lemma dll_nil k : dll k NULL [].
Proof. split; [done|constructor]. Qed.

Lemma dll_node k head l x : dll k head l -> x ∈ l -> has_node k x /\ x <> NULL.
Proof. intros [Hs _]. by eapply seg_node. Qed.

(** ** Singly linked lists: stacks threaded through [next] alone *)

Fixpoint sll (m : gmap Z Z) (p : Z) (l : list Z) : Prop :=
  match l with
  | [] => p = NULL
  | x :: l => p = x /\ x <> NULL /\ exists n, m !! x = Some n /\ sll m n l
  end.

Lemma sll_frame m m' p l : (forall x, x ∈ l -> m' !! x = m !! x) -> sll m p l -> sll m' p l.
Proof.
  revert p. induction l as [|x l IH]; intros p Hm; cbn; [done|]. intros (-> & Hx & n & Hn & H).
  split; [done|]. split; [done|]. exists n. rewrite Hm by apply list_elem_of_here. split; [done|].
  apply IH; [|done]. intros y Hy. apply Hm. by apply list_elem_of_further.
Qed.

Lemma sll_push m p l x : sll m p l -> x <> NULL -> x ∉ l -> sll (<[x := p]> m) x (x :: l).
Proof.
  intros Hs Hx Hl. split; [done|]. split; [done|]. exists p. rewrite lookup_insert_eq. split; [done|].
  eapply sll_frame; [|exact Hs]. intros y Hy. rewrite lookup_insert_ne; [done|]. by intros ->.
Qed.

Lemma sll_node m p l x : sll m p l -> x ∈ l -> is_Some (m !! x) /\ x <> NULL.
Proof.
  revert p. induction l as [|y l IH]; intros p Hs Hx; [by apply not_elem_of_nil in Hx|].
  destruct Hs as (_ & Hy & n & Hn & Hs). apply elem_of_cons in Hx as [->|Hx]; [eauto|by eapply IH].
Qed.

Lemma nodup_size (m : gmap Z Z) l : NoDup l -> (forall x, x ∈ l -> is_Some (m !! x)) -> (length l <= base.size m)%nat.
Proof.
  intros Hd Hm. rewrite <- (size_list_to_set (C := gset Z) l Hd), <- (size_dom (D := gset Z)).
  apply subseteq_size. intros x Hx. apply elem_of_list_to_set in Hx. by apply elem_of_dom, Hm.
Qed.

Lemma sll_length (g : gmap Z Z) q l : sll g q l -> NoDup l -> (length l <= base.size g)%nat.
Proof. intros Hs Hd. apply nodup_size; [done|]. intros x Hx. by eapply sll_node. Qed.
