(* ===== verification/TlsfMap.v ===== *)
(** * The two-level size index of the TLSF tier

    The bit scans and the size-to-bucket mappings of [src/cmem_tlsf.c], with the
    theorem the O(1) search rests on: every block of a bucket at or above the searched
    one is large enough. *)
From S2P Require Import Prelude.
From Stdlib Require Import ZArith Lia.
From stdpp Require Import base option list.
Open Scope Z_scope.

Definition TLSF_SL_SHIFT : Z := 4.
Definition TLSF_SL_COUNT : Z := 16.
Definition TLSF_FL_MAX : Z := 30.

(** [31 - __builtin_clz((uint32_t)val)]; [__builtin_clz] of zero is undefined. *)
Definition tlsf_fls (val : Z) : outcome Z :=
  if val =? 0 then Done (-1)
  else if u32 val =? 0 then Fault
  else Done (Z.log2 (u32 val)).

(** Number of trailing zeros of a positive number. *)
Fixpoint ctz_pos (p : positive) : Z :=
  match p with xO p => 1 + ctz_pos p | _ => 0 end.

Definition tlsf_ffs (val : Z) : Z :=
  match val with Zpos p => ctz_pos p | _ => -1 end.

Definition sl_of (size fl : Z) : Z :=
  Z.lxor (Z.shiftr size (fl - TLSF_SL_SHIFT)) (Z.shiftl 1 TLSF_SL_SHIFT).

Definition tlsf_mapping_insert (size : Z) : outcome (Z * Z) :=
  if size <? Z.shiftl 1 TLSF_SL_SHIFT then Done (0, size)
  else fl ← tlsf_fls size; Done (fl, sl_of size fl).

Definition tlsf_mapping_search (size : Z) : outcome (Z * Z) :=
  r ← (if Z.shiftl 1 TLSF_SL_SHIFT <=? size then
         fl_idx ← tlsf_fls size;
         let round := Z.shiftl 1 (fl_idx - TLSF_SL_SHIFT) - 1 in
         Done (fl_idx, u64 (size + round))
       else Done (0, size));
  let '(fl, size) := r in
  Done (fl, if fl =? 0 then size else sl_of size fl).

Definition tlsf_block_size_to_fl (size : Z) : outcome Z :=
  if size <? Z.shiftl 1 TLSF_SL_SHIFT then Done 0 else tlsf_fls size.

(** ** Bit scans *)

Lemma tlsf_fls_spec val :
  0 < val < 2 ^ 32 -> tlsf_fls val = Done (Z.log2 val).
Proof.
  intros Hv. unfold tlsf_fls. rewrite u32_small by lia.
  by rewrite (proj2 (Z.eqb_neq val 0)) by lia.
Qed.

Lemma ctz_pos_spec p :
  0 <= ctz_pos p /\ Z.testbit (Zpos p) (ctz_pos p) = true /\
  forall j, 0 <= j < ctz_pos p -> Z.testbit (Zpos p) j = false.
Proof.
  induction p as [p _|p IH|]; cbn [ctz_pos].
  - split; [lia|]. split; [done|lia].
  - destruct IH as (H0 & H1 & H2). split; [lia|]. rewrite Pos2Z.inj_xO. split.
    + rewrite Z.add_1_l. by rewrite Z.double_bits_succ.
    + intros j Hj. destruct (Z.eq_dec j 0) as [->|]; [by rewrite Z.testbit_even_0|].
      replace j with (Z.succ (j - 1)) by lia. rewrite Z.double_bits_succ. apply H2. lia.
  - split; [lia|]. split; [done|lia].
Qed.

(** The lowest set bit. *)
Lemma tlsf_ffs_spec val :
  0 < val -> 0 <= tlsf_ffs val /\ Z.testbit val (tlsf_ffs val) = true /\
  forall j, 0 <= j < tlsf_ffs val -> Z.testbit val j = false.
Proof. destruct val as [|p|p]; [lia| |lia]. intros _. apply ctz_pos_spec. Qed.

(** ** Buckets

    The bucket of a size of at least sixteen bytes, as a pair of quotients. *)
Definition bucket (size : Z) : Z * Z :=
  (Z.log2 size, size / 2 ^ (Z.log2 size - 4) - 16).

Lemma log2_bounds size : 0 < size -> 2 ^ Z.log2 size <= size < 2 * 2 ^ Z.log2 size.
Proof.
  intros Hs. destruct (Z.log2_spec size Hs) as [H1 H2].
  rewrite Z.pow_succ_r in H2 by apply Z.log2_nonneg. lia.
Qed.

Lemma log2_ge_4 size : 16 <= size -> 4 <= Z.log2 size.
Proof. intros. change 4 with (Z.log2 16). by apply Z.log2_le_mono. Qed.

Lemma pow_split fl : 4 <= fl -> 2 ^ fl = 16 * 2 ^ (fl - 4).
Proof. intros. replace fl with (4 + (fl - 4)) at 1 by lia. by rewrite Z.pow_add_r by lia. Qed.

Lemma quot_range size fl : 4 <= fl -> 2 ^ fl <= size < 2 * 2 ^ fl -> 16 <= size / 2 ^ (fl - 4) < 32.
Proof.
  intros Hf Hs. rewrite (pow_split fl) in Hs by done. assert (0 < 2 ^ (fl - 4)) by (apply Z.pow_pos_nonneg; lia).
  split.
  - apply Z.div_le_lower_bound; lia.
  - apply Z.div_lt_upper_bound; lia.
Qed.

(** XOR with 16 subtracts 16 from 16..31 and sends 32 to 48. *)
Lemma lxor_16 n : 16 <= n <= 32 -> Z.lxor n 16 = if n =? 32 then 48 else n - 16.
Proof.
  intros Hn. assert (n = 16 \/ n = 17 \/ n = 18 \/ n = 19 \/ n = 20 \/ n = 21 \/ n = 22 \/ n = 23 \/ n = 24 \/
    n = 25 \/ n = 26 \/ n = 27 \/ n = 28 \/ n = 29 \/ n = 30 \/ n = 31 \/ n = 32) as H by lia.
  repeat (destruct H as [->|H]; [reflexivity|]). subst. reflexivity.
Qed.

Lemma mapping_insert_eq size : 16 <= size < 2 ^ 32 -> tlsf_mapping_insert size = Done (bucket size).
Proof.
  intros Hs. unfold tlsf_mapping_insert. change (Z.shiftl 1 TLSF_SL_SHIFT) with 16.
  rewrite (proj2 (Z.ltb_ge size 16)) by lia. rewrite tlsf_fls_spec by lia.
  cbn [mbind outcome_bind]. unfold bucket, sl_of, TLSF_SL_SHIFT. change (Z.shiftl 1 4) with 16.
  pose proof (log2_ge_4 size ltac:(lia)) as Hl. pose proof (log2_bounds size ltac:(lia)) as Hb.
  rewrite Z.shiftr_div_pow2 by lia. pose proof (quot_range _ _ Hl Hb) as Hq.
  rewrite lxor_16 by lia. by rewrite (proj2 (Z.eqb_neq _ 32)) by lia.
Qed.

Lemma bucket_range size :
  16 <= size < 2 ^ 30 -> 4 <= fst (bucket size) < TLSF_FL_MAX /\ 0 <= snd (bucket size) < TLSF_SL_COUNT.
Proof.
  intros Hs. unfold bucket. cbn [fst snd]. pose proof (log2_ge_4 size ltac:(lia)) as Hl.
  pose proof (log2_bounds size ltac:(lia)) as Hb. pose proof (quot_range _ _ Hl Hb) as Hq.
  unfold TLSF_FL_MAX, TLSF_SL_COUNT. split; [|lia]. split; [done|]. apply Z.log2_lt_pow2; lia.
Qed.

(** A block in bucket [(fl, sl)] has at least [(16 + sl) * 2^(fl - 4)] bytes. *)
Lemma bucket_lower size :
  16 <= size -> (16 + snd (bucket size)) * 2 ^ (fst (bucket size) - 4) <= size.
Proof.
  intros Hs. unfold bucket. cbn [fst snd]. pose proof (log2_ge_4 size ltac:(lia)) as Hl.
  assert (0 < 2 ^ (Z.log2 size - 4)) by (apply Z.pow_pos_nonneg; lia).
  replace (16 + (size / 2 ^ (Z.log2 size - 4) - 16)) with (size / 2 ^ (Z.log2 size - 4)) by lia.
  rewrite Z.mul_comm. by apply Z.mul_div_le.
Qed.

Lemma bucket_upper size :
  16 <= size -> size < (17 + snd (bucket size)) * 2 ^ (fst (bucket size) - 4).
Proof.
  intros Hs. unfold bucket. cbn [fst snd]. pose proof (log2_ge_4 size ltac:(lia)) as Hl.
  assert (0 < 2 ^ (Z.log2 size - 4)) by (apply Z.pow_pos_nonneg; lia).
  pose proof (Z.mod_pos_bound size (2 ^ (Z.log2 size - 4)) ltac:(done)).
  pose proof (Z.div_mod size (2 ^ (Z.log2 size - 4)) ltac:(lia)). lia.
Qed.

(** The smallest size every block of the searched bucket and above exceeds. *)
Definition rounded (size : Z) : Z :=
  let g := 2 ^ (Z.log2 size - 4) in (size + g - 1) / g * g.

Lemma rounded_bounds size : 16 <= size -> size <= rounded size < size + 2 ^ (Z.log2 size - 4).
Proof.
  intros Hs. unfold rounded. pose proof (log2_ge_4 size ltac:(lia)) as Hl.
  assert (0 < 2 ^ (Z.log2 size - 4)) by (apply Z.pow_pos_nonneg; lia).
  set (g := 2 ^ (Z.log2 size - 4)) in *.
  pose proof (Z.mod_pos_bound (size + g - 1) g ltac:(done)).
  pose proof (Z.div_mod (size + g - 1) g ltac:(lia)). lia.
Qed.

Lemma rounded_le size : 16 <= size -> rounded size <= 2 * 2 ^ Z.log2 size.
Proof.
  intros Hs. unfold rounded. pose proof (log2_ge_4 size ltac:(lia)) as Hl.
  pose proof (log2_bounds size ltac:(lia)) as Hb. rewrite (pow_split _ Hl) in *.
  assert (0 < 2 ^ (Z.log2 size - 4)) by (apply Z.pow_pos_nonneg; lia).
  set (g := 2 ^ (Z.log2 size - 4)) in *.
  assert ((size + g - 1) / g <= 32); [|nia].
  assert ((size + g - 1) / g < 33); [|lia]. apply Z.div_lt_upper_bound; lia.
Qed.

Lemma mapping_search_eq size :
  16 <= size < 2 ^ 31 ->
  tlsf_mapping_search size =
    Done (Z.log2 size,
          let n := rounded size / 2 ^ (Z.log2 size - 4) in if n =? 32 then 48 else n - 16).
Proof.
  intros Hs. unfold tlsf_mapping_search. change (Z.shiftl 1 TLSF_SL_SHIFT) with 16.
  rewrite (proj2 (Z.leb_le 16 size)) by lia. rewrite tlsf_fls_spec by lia. cbn [mbind outcome_bind].
  pose proof (log2_ge_4 size ltac:(lia)) as Hl. rewrite (proj2 (Z.eqb_neq (Z.log2 size) 0)) by lia.
  pose proof (log2_bounds size ltac:(lia)) as Hb. pose proof (rounded_le size ltac:(lia)) as Hr.
  unfold sl_of, TLSF_SL_SHIFT. change (Z.shiftl 1 4) with 16. rewrite Z.shiftl_1_l.
  rewrite (pow_split _ Hl) in *. assert (0 < 2 ^ (Z.log2 size - 4)) by (apply Z.pow_pos_nonneg; lia).
  assert (E : rounded size / 2 ^ (Z.log2 size - 4) = (size + 2 ^ (Z.log2 size - 4) - 1) / 2 ^ (Z.log2 size - 4)).
  { unfold rounded. by rewrite Z.div_mul by lia. }
  pose proof (rounded_bounds size ltac:(lia)) as Hrb. set (g := 2 ^ (Z.log2 size - 4)) in *.
  rewrite u64_small by lia. rewrite Z.shiftr_div_pow2 by lia. fold g.
  replace (size + (g - 1)) with (size + g - 1) by lia. rewrite <- E. rewrite lxor_16; [done|].
  rewrite E. split; [apply Z.div_le_lower_bound; lia|].
  assert ((size + g - 1) / g < 33); [|lia]. apply Z.div_lt_upper_bound; lia.
Qed.

Definition at_or_above (b f : Z * Z) : Prop := fst f < fst b \/ (fst b = fst f /\ snd f <= snd b).

Lemma at_or_above_rounded size b f :
  16 <= size < 2 ^ 31 -> 16 <= b < 2 ^ 32 -> tlsf_mapping_search size = Done f ->
  (at_or_above (bucket b) f <-> rounded size <= b).
Proof.
  intros Hs Hb. rewrite mapping_search_eq by done. intros [= <-]. unfold at_or_above, bucket. cbn [fst snd].
  pose proof (log2_ge_4 size ltac:(lia)) as Hl. pose proof (log2_bounds size ltac:(lia)) as Hls.
  pose proof (log2_ge_4 b ltac:(lia)) as Hlb. pose proof (log2_bounds b ltac:(lia)) as Hbs.
  pose proof (rounded_le size ltac:(lia)) as Hr. pose proof (rounded_bounds size ltac:(lia)) as Hrb.
  assert (Hg : 0 < 2 ^ (Z.log2 size - 4)) by (apply Z.pow_pos_nonneg; lia).
  assert (Hm : rounded size = (rounded size / 2 ^ (Z.log2 size - 4)) * 2 ^ (Z.log2 size - 4)).
  { unfold rounded at 2. by rewrite Z.div_mul by lia. }
  set (n := rounded size / 2 ^ (Z.log2 size - 4)) in *.
  destruct (Z.lt_trichotomy (Z.log2 size) (Z.log2 b)) as [Hlt|[Heq|Hgt]].
  - split; [intros _|by left].
    assert (2 * 2 ^ Z.log2 size <= 2 ^ Z.log2 b); [|lia].
    rewrite <- Z.pow_succ_r by lia. apply Z.pow_le_mono_r; lia.
  - rewrite <- Heq in *. rewrite (pow_split _ Hl) in *. set (g := 2 ^ (Z.log2 size - 4)) in *.
    assert (Hn : 16 <= n <= 32) by nia.
    split.
    + intros [?|[_ Hsn]]; [lia|]. destruct (Z.eqb_spec n 32).
      * assert (b / g < 32) by (apply Z.div_lt_upper_bound; lia). lia.
      * assert (n <= b / g) by lia. assert (n * g <= b); [|lia].
        transitivity (b / g * g); [nia|]. rewrite Z.mul_comm. by apply Z.mul_div_le.
    + intros Hle. right. split; [done|].
      destruct (Z.eqb_spec n 32); [lia|].
      assert (n <= b / g); [|lia]. apply Z.div_le_lower_bound; lia.
  - split; [lia|]. intros Hle. exfalso.
    assert (2 * 2 ^ Z.log2 b <= 2 ^ Z.log2 size); [|lia].
    rewrite <- Z.pow_succ_r by lia. apply Z.pow_le_mono_r; lia.
Qed.

(** C21: good fit.  For a request of [size] bytes the search starts at a bucket [f]
    such that the blocks filed at or above [f] are exactly those of at least
    [rounded size] bytes: each of them holds the request, and a block larger than the
    request by a sixteenth of the request's power of two is never overlooked. *)
Theorem good_fit size b f bf :
  16 <= size < 2 ^ 31 -> 16 <= b < 2 ^ 32 ->
  tlsf_mapping_search size = Done f -> tlsf_mapping_insert b = Done bf ->
  (at_or_above bf f -> size <= b) /\
  (size + 2 ^ (Z.log2 size - 4) <= b -> at_or_above bf f) /\
  (at_or_above bf f <-> rounded size <= b).
Proof.
  intros Hs Hb Hf. rewrite mapping_insert_eq by done. intros [= <-].
  pose proof (at_or_above_rounded size b f Hs Hb Hf) as H. pose proof (rounded_bounds size ltac:(lia)).
  split; [|split; [|done]]; intros; [apply H in H1; lia|apply H; lia].
Qed.

Lemma good_fit_witness :
  tlsf_mapping_search 1000 = Done (9, 16 + 32) /\ tlsf_mapping_insert 1024 = Done (10, 0) /\ 1000 <= 1024.
Proof.
  split; [reflexivity|]. split; [reflexivity|].
  exact (proj1 (good_fit 1000 1024 (9, 48) (10, 0) ltac:(lia) ltac:(lia) eq_refl eq_refl)
    (or_introl eq_refl)).
Defined.

(** The index range.  Blocks of 16 bytes up to 1 GiB have a bucket inside the
    30 by 16 tables; a block of 1 GiB or more is filed at row 30, one past the end of
    [sl_bitmap] and [blocks], so an arena that large corrupts its own descriptor. *)
Theorem bucket_in_tables size :
  (16 <= size < 2 ^ 30 ->
     exists fl sl, tlsf_mapping_insert size = Done (fl, sl) /\ 0 <= fl < TLSF_FL_MAX /\
       0 <= sl < TLSF_SL_COUNT /\ tlsf_block_size_to_fl size = Done fl) /\
  (2 ^ 30 <= size < 2 ^ 31 ->
     exists sl, tlsf_mapping_insert size = Done (TLSF_FL_MAX, sl)).
Proof.
  split; intros Hs.
  - pose proof (bucket_range size Hs) as [H1 H2].
    exists (fst (bucket size)), (snd (bucket size)). rewrite mapping_insert_eq by lia.
    split; [done|]. split; [lia|]. split; [done|]. unfold tlsf_block_size_to_fl.
    change (Z.shiftl 1 TLSF_SL_SHIFT) with 16. rewrite (proj2 (Z.ltb_ge size 16)) by lia.
    by rewrite tlsf_fls_spec by lia.
  - rewrite mapping_insert_eq by lia. exists (snd (bucket size)). unfold bucket. cbn [snd].
    assert (Z.log2 size = 30) as -> by (apply Z.log2_unique; lia). done.
Qed.

Lemma bucket_in_tables_witness :
  (exists fl sl, tlsf_mapping_insert 4096 = Done (fl, sl) /\ 0 <= fl < TLSF_FL_MAX /\
     0 <= sl < TLSF_SL_COUNT /\ tlsf_block_size_to_fl 4096 = Done fl) /\
  exists sl, tlsf_mapping_insert (2 ^ 30 + 8) = Done (TLSF_FL_MAX, sl).
Proof.
  exact (conj (proj1 (bucket_in_tables 4096) ltac:(lia)) (proj2 (bucket_in_tables (2 ^ 30 + 8)) ltac:(lia))).
Defined.
