(* ===== verification/BlockHeap.v ===== *)
(** * Boundary-tagged blocks

    The memory the TLSF tier and the per-thread arenas manage: [struct tlsf_block]
    headers whose [size_and_flags] word packs the distance to the next header with the
    FREE and PREV_FREE bits, chained physically through [prev_physical] and ended by a
    sentinel.  [phys]/[chain] relate the header words to the abstract layout of a
    region, a list of (size, free?) tiles. *)
From S2P Require Import Prelude Dll.
From Stdlib Require Import ZArith Lia.
From stdpp Require Import base option list gmap.
Open Scope Z_scope.

Definition BLOCK_STATE_FREE : Z := 1.
Definition BLOCK_STATE_PREV_FREE : Z := 2.
Definition BLOCK_SIZE_MASK : Z := Z.lnot (Z.lor BLOCK_STATE_FREE BLOCK_STATE_PREV_FREE).
Definition TLSF_MIN_BLOCK_SIZE : Z := 32.
Definition SIZEOF_TLSF_BLOCK : Z := 32.

(** The headers, one map per field; [next_free] and [prev_free] are the [links]. *)
Record heap := Heap {
  size_and_flags : gmap Z Z;
  prev_physical : gmap Z Z;
  flinks : links;
}.

Definition set_sf (h : heap) (a v : Z) : outcome heap :=
  m ← st (size_and_flags h) a v; Done (Heap m (prev_physical h) (flinks h)).
Definition set_pp (h : heap) (a v : Z) : outcome heap :=
  m ← st (prev_physical h) a v; Done (Heap (size_and_flags h) m (flinks h)).
Definition with_links (h : heap) (k : links) : heap := Heap (size_and_flags h) (prev_physical h) k.

(** The memory [lo .. lo + n) is gone with the block headers in it. *)
Definition keep_outside {A} (lo n : Z) (m : gmap Z A) : gmap Z A := filter (fun kv : Z * A => ~ (lo <= kv.1 < lo + n)) m.
Definition erase (h : heap) (lo n : Z) : heap :=
  Heap (keep_outside lo n (size_and_flags h)) (keep_outside lo n (prev_physical h))
    (Links (keep_outside lo n (nxt (flinks h))) (keep_outside lo n (prv (flinks h)))).

(** A header written over raw region bytes: the two link words keep what was there. *)
Definition carve (h : heap) (a sf pp : Z) : heap :=
  Heap (<[a := sf]> (size_and_flags h)) (<[a := pp]> (prev_physical h))
    (Links (<[a := default NULL (nxt (flinks h) !! a)]> (nxt (flinks h)))
           (<[a := default NULL (prv (flinks h) !! a)]> (prv (flinks h)))).

Definition block_size (sf : Z) : Z := Z.land sf BLOCK_SIZE_MASK.
Definition is_free (sf : Z) : bool := negb (Z.land sf BLOCK_STATE_FREE =? 0).
Definition is_prev_free (sf : Z) : bool := negb (Z.land sf BLOCK_STATE_PREV_FREE =? 0).

(** ** The packed word *)

Definition b2 (b : bool) (n : Z) : Z := if b then n else 0.
Definition mk (sz : Z) (fr pf : bool) : Z := sz + (b2 fr 1 + b2 pf 2).

Lemma keep_outside_None {A} lo n (m : gmap Z A) x : lo <= x < lo + n -> keep_outside lo n m !! x = None.
Proof. intros Hx. apply map_lookup_filter_None. right. intros v _ H. by apply H. Qed.

Lemma keep_outside_mono {A} lo n (m : gmap Z A) x : m !! x = None -> keep_outside lo n m !! x = None.
Proof. intros E. apply map_lookup_filter_None. by left. Qed.

Lemma testbit_8k k c i :
  0 <= c < 8 -> 0 <= i -> Z.testbit (8 * k + c) i = if i <? 3 then Z.testbit c i else Z.testbit k (i - 3).
Proof.
  intros Hc Hi. destruct (Z.ltb_spec i 3).
  - rewrite <- (Z.mod_pow2_bits_low (8 * k + c) 3 i) by lia. change (2 ^ 3) with 8.
    f_equal. zdiv.
  - replace i with ((i - 3) + 3) at 1 by lia. rewrite <- Z.div_pow2_bits by lia. change (2 ^ 3) with 8.
    f_equal. zdiv.
Qed.

Lemma land_8k k c j d :
  0 <= c < 8 -> 0 <= d < 8 -> Z.land (8 * k + c) (8 * j + d) = 8 * Z.land k j + Z.land c d.
Proof.
  intros Hc Hd. assert (Hb : 0 <= Z.land c d < 8).
  { assert (E : Z.land c d = Z.land c d mod 2 ^ 3); [|rewrite E; by apply Z.mod_pos_bound].
    rewrite <- Z.land_ones, <- Z.land_assoc, Z.land_ones by done. by rewrite (Z.mod_small d). }
  apply Z.bits_inj'. intros i Hi. rewrite Z.land_spec, !testbit_8k by done.
  destruct (i <? 3); by rewrite Z.land_spec.
Qed.

Lemma lor_8k k c j d :
  0 <= c < 8 -> 0 <= d < 8 -> Z.lor (8 * k + c) (8 * j + d) = 8 * Z.lor k j + Z.lor c d.
Proof.
  intros Hc Hd. assert (Hb : 0 <= Z.lor c d < 8).
  { split; [apply Z.lor_nonneg; lia|]. destruct (Z.eq_dec (Z.lor c d) 0) as [->|]; [done|].
    assert (0 <= Z.lor c d) by (apply Z.lor_nonneg; lia).
    apply Z.log2_lt_cancel. change (Z.log2 8) with 3. rewrite Z.log2_lor by lia.
    assert (Z.log2 c <= 2 /\ Z.log2 d <= 2); [|lia].
    split; change 2 with (Z.log2 7); apply Z.log2_le_mono; lia. }
  apply Z.bits_inj'. intros i Hi. rewrite Z.lor_spec, !testbit_8k by done.
  destruct (i <? 3); by rewrite Z.lor_spec.
Qed.

Section Word.
Context (sz : Z) (Hsz : sz mod 8 = 0).

Lemma mk_split fr pf : mk sz fr pf = 8 * (sz / 8) + (b2 fr 1 + b2 pf 2).
Proof. unfold mk. zdiv. Qed.

Lemma sz_split : sz = 8 * (sz / 8) + 0.
Proof. zdiv. Qed.

Lemma land_mk fr pf m :
  Z.land (mk sz fr pf) m = 8 * Z.land (sz / 8) (m / 8) + Z.land (b2 fr 1 + b2 pf 2) (m mod 8).
Proof.
  rewrite mk_split. rewrite <- land_8k; [|destruct fr, pf; cbn; lia|by apply Z.mod_pos_bound].
  f_equal. zdiv.
Qed.

Lemma lor_mk fr pf m :
  0 <= m < 8 -> Z.lor (mk sz fr pf) m = 8 * (sz / 8) + Z.lor (b2 fr 1 + b2 pf 2) m.
Proof.
  intros Hm. rewrite mk_split. change m with (8 * 0 + m) at 1.
  rewrite lor_8k; [by rewrite Z.lor_0_r|destruct fr, pf; cbn; lia|done].
Qed.

Lemma block_size_mk fr pf : block_size (mk sz fr pf) = sz.
Proof.
  unfold block_size. rewrite land_mk. change (BLOCK_SIZE_MASK / 8) with (-1).
  change (BLOCK_SIZE_MASK mod 8) with 4. rewrite Z.land_m1_r.
  replace (Z.land (b2 fr 1 + b2 pf 2) 4) with 0 by (by destruct fr, pf). zdiv.
Qed.

Lemma is_free_mk fr pf : is_free (mk sz fr pf) = fr.
Proof.
  unfold is_free. rewrite land_mk. change (BLOCK_STATE_FREE / 8) with 0. rewrite Z.land_0_r.
  by destruct fr, pf.
Qed.

Lemma is_prev_free_mk fr pf : is_prev_free (mk sz fr pf) = pf.
Proof.
  unfold is_prev_free. rewrite land_mk. change (BLOCK_STATE_PREV_FREE / 8) with 0. rewrite Z.land_0_r.
  by destruct fr, pf.
Qed.

Lemma mk_or_free fr pf : Z.lor (mk sz fr pf) BLOCK_STATE_FREE = mk sz true pf.
Proof. rewrite lor_mk by done. rewrite mk_split. by destruct fr, pf. Qed.

Lemma mk_or_prev_free fr pf : Z.lor (mk sz fr pf) BLOCK_STATE_PREV_FREE = mk sz fr true.
Proof. rewrite lor_mk by done. rewrite mk_split. by destruct fr, pf. Qed.

Lemma mk_clear_free fr pf : Z.land (mk sz fr pf) (Z.lnot BLOCK_STATE_FREE) = mk sz false pf.
Proof.
  rewrite land_mk. change (Z.lnot BLOCK_STATE_FREE / 8) with (-1).
  change (Z.lnot BLOCK_STATE_FREE mod 8) with 6. rewrite Z.land_m1_r, mk_split. by destruct fr, pf.
Qed.

Lemma mk_clear_prev_free fr pf : Z.land (mk sz fr pf) (Z.lnot BLOCK_STATE_PREV_FREE) = mk sz fr false.
Proof.
  rewrite land_mk. change (Z.lnot BLOCK_STATE_PREV_FREE / 8) with (-1).
  change (Z.lnot BLOCK_STATE_PREV_FREE mod 8) with 5. rewrite Z.land_m1_r, mk_split. by destruct fr, pf.
Qed.

Lemma mk_or_flag fr pf : Z.land (mk sz fr pf) BLOCK_STATE_PREV_FREE = b2 pf 2.
Proof.
  rewrite land_mk. change (BLOCK_STATE_PREV_FREE / 8) with 0. rewrite Z.land_0_r. by destruct fr, pf.
Qed.

(** [size | FREE], [size | (old & PREV_FREE)], [size | (old & PREV_FREE) | FREE]. *)
Lemma size_or_free : Z.lor sz BLOCK_STATE_FREE = mk sz true false.
Proof. replace sz with (mk sz false false) at 1 by (unfold mk; cbn; lia). apply mk_or_free. Qed.

Lemma size_or_prev (pf : bool) : Z.lor sz (b2 pf 2) = mk sz false pf.
Proof.
  replace sz with (mk sz false false) at 1 by (unfold mk; cbn; lia).
  destruct pf; [apply mk_or_prev_free|]. cbn. by rewrite Z.lor_0_r.
Qed.
End Word.

Lemma mk_inj n fr pf n' fr' pf' :
  n mod 8 = 0 -> n' mod 8 = 0 -> mk n fr pf = mk n' fr' pf' -> n = n' /\ fr = fr' /\ pf = pf'.
Proof.
  intros H H' E. split_and!.
  - by rewrite <- (block_size_mk n H fr pf), E, block_size_mk.
  - by rewrite <- (is_free_mk n H fr pf), E, is_free_mk.
  - by rewrite <- (is_prev_free_mk n H fr pf), E, is_prev_free_mk.
Qed.

Create Rewrite HintDb word.
#[export] Hint Rewrite block_size_mk is_free_mk is_prev_free_mk mk_or_free mk_or_prev_free mk_clear_free
  mk_clear_prev_free mk_or_flag size_or_free size_or_prev using (done || lia) : word.

(** ** Layouts

    A region is a list of tiles (size, free?) laid end to end from its base. *)
Definition tile : Type := Z * bool.

Fixpoint extent (l : list tile) : Z :=
  match l with [] => 0 | (sz, _) :: l => sz + extent l end.

(** Address and state of the last tile, or of the predecessor of the list. *)
Fixpoint plast (pv a : Z) (l : list tile) : Z :=
  match l with [] => pv | (sz, _) :: l => plast a (a + sz) l end.
Fixpoint flast (pf : bool) (l : list tile) : bool :=
  match l with [] => pf | (_, fr) :: l => flast fr l end.

Definition size_ok (sz : Z) : Prop := TLSF_MIN_BLOCK_SIZE <= sz /\ sz mod 8 = 0.

(** [hl]: resolve lookups in updated maps by arithmetic on the addresses. *)
Ltac hl := repeat first [ rewrite lookup_insert_eq | rewrite lookup_insert_ne by lia ].

(** How faithfully PREV_FREE describes the neighbour.  Under the tight discipline the bit
    is exact and no two neighbours are free: every release coalesces.  Blocks that come
    back from a thread's cache are filed as they are, without telling the neighbours:
    then the bit still promises a free predecessor, but a free one may go unannounced. *)
Class Discipline := tight : bool.
Definition tight_discipline : Discipline := true.
Definition loose_discipline : Discipline := false.

Definition bit_of `{Discipline} (pf q : bool) : Prop := if tight then q = pf else q = true -> pf = true.
Definition not_both `{Discipline} (fr pf : bool) : Prop := tight = true -> fr && pf = false.

Section Layouts.
Context `{discipline : Discipline}.

Lemma bit_of_refl pf : bit_of pf pf.
Proof. unfold bit_of. by destruct tight. Qed.

Lemma bit_of_imp pf q : bit_of pf q -> q = true -> pf = true.
Proof. unfold bit_of. destruct tight; intros; subst; auto. Qed.

Lemma bit_of_tight pf q : bit_of pf q -> tight = true -> pf = q.
Proof. unfold bit_of. by destruct tight. Qed.

Lemma bit_of_false q : bit_of false q -> q = false.
Proof. intros H. destruct q; [|done]. by apply bit_of_imp in H. Qed.

Lemma bit_of_clear pf : (tight = true -> pf = false) -> bit_of pf false.
Proof. unfold bit_of. destruct tight; [|done]. intros H. by rewrite H. Qed.

Lemma not_both_live pf : not_both false pf.
Proof. by intros _. Qed.

Lemma not_both_used fr : not_both fr false.
Proof. intros _. apply andb_false_r. Qed.

(** The tiles [l], laid out from [a] after a block at [pv] in state [pf]. *)
Fixpoint phys (h : heap) (pv : Z) (pf : bool) (a : Z) (l : list tile) : Prop :=
  match l with
  | [] => True
  | (sz, fr) :: l =>
      size_ok sz /\ (exists q, bit_of pf q /\ size_and_flags h !! a = Some (mk sz fr q)) /\ prev_physical h !! a = Some pv /\ has_node (flinks h) a /\ not_both fr pf /\ phys h a fr (a + sz) l
  end.

(** The terminator: size zero and never free.  The arenas keep its word zero; the
    shared tier may set its PREV_FREE bit, which nothing reads. *)
Definition sentinel_ok (strict : bool) (h : heap) (pv a : Z) : Prop :=
  exists b, size_and_flags h !! a = Some (mk 0 false b) /\ (strict = true -> b = false) /\
    prev_physical h !! a = Some pv.

Definition chain (strict : bool) (h : heap) (pv : Z) (pf : bool) (a : Z) (l : list tile) : Prop :=
  phys h pv pf a l /\ sentinel_ok strict h (plast pv a l) (a + extent l).

Lemma extent_app l1 l2 : extent (l1 ++ l2) = extent l1 + extent l2.
Proof. induction l1 as [|[sz fr] l1 IH]; cbn; [done|]. rewrite IH. lia. Qed.

Lemma plast_app pv a l1 l2 : plast pv a (l1 ++ l2) = plast (plast pv a l1) (a + extent l1) l2.
Proof.
  revert pv a. induction l1 as [|[sz fr] l1 IH]; intros pv a; cbn; [by rewrite Z.add_0_r|].
  rewrite IH. f_equal. lia.
Qed.

Lemma flast_app pf l1 l2 : flast pf (l1 ++ l2) = flast (flast pf l1) l2.
Proof. revert pf. induction l1 as [|[sz fr] l1 IH]; intros pf; cbn; [done|]. apply IH. Qed.

Lemma phys_app h pv pf a l1 l2 :
  phys h pv pf a (l1 ++ l2) <->
  phys h pv pf a l1 /\ phys h (plast pv a l1) (flast pf l1) (a + extent l1) l2.
Proof.
  revert pv pf a. induction l1 as [|[sz fr] l1 IH]; intros pv pf a; cbn [app phys plast flast extent].
  - rewrite Z.add_0_r. tauto.
  - rewrite IH, Z.add_assoc. tauto.
Qed.

Lemma chain_app strict h pv pf a l1 l2 :
  chain strict h pv pf a (l1 ++ l2) <->
  phys h pv pf a l1 /\ chain strict h (plast pv a l1) (flast pf l1) (a + extent l1) l2.
Proof. unfold chain. rewrite phys_app, plast_app, extent_app, Z.add_assoc. tauto. Qed.

Lemma chain_cons strict h pv pf a sz fr l :
  chain strict h pv pf a ((sz, fr) :: l) <->
  (size_ok sz /\ (exists q, bit_of pf q /\ size_and_flags h !! a = Some (mk sz fr q)) /\ prev_physical h !! a = Some pv /\
   has_node (flinks h) a /\ not_both fr pf) /\ chain strict h a fr (a + sz) l.
Proof. unfold chain. cbn [phys plast extent]. rewrite Z.add_assoc. tauto. Qed.

Lemma phys_extent h pv pf a l : phys h pv pf a l -> 0 <= extent l.
Proof.
  revert pv pf a. induction l as [|[sz fr] l IH]; intros pv pf a; cbn; [lia|].
  intros ([Hs _] & _ & _ & _ & _ & H). apply IH in H. unfold TLSF_MIN_BLOCK_SIZE in *. lia.
Qed.

Lemma phys_extent_mod h pv pf a l : phys h pv pf a l -> extent l mod 8 = 0.
Proof.
  revert pv pf a. induction l as [|[sz fr] l IH]; intros pv pf a; cbn; [done|].
  intros ([_ Hm] & _ & _ & _ & _ & H). apply IH in H. zdiv.
Qed.

Lemma chain_extent strict h pv pf a l : chain strict h pv pf a l -> 0 <= extent l.
Proof. intros [H _]. by eapply phys_extent. Qed.

(** The layout depends on the header words at the addresses it covers. *)
Lemma phys_frame h h' pv pf a l :
  (forall x, a <= x < a + extent l -> size_and_flags h' !! x = size_and_flags h !! x /\
     prev_physical h' !! x = prev_physical h !! x) ->
  (forall x, has_node (flinks h) x -> has_node (flinks h') x) ->
  phys h pv pf a l -> phys h' pv pf a l.
Proof.
  intros Hf Hn. revert pv pf a Hf. induction l as [|[sz fr] l IH]; intros pv pf a Hf; cbn; [done|].
  intros (Hsz & Hs & Hp & Hnode & Hco & H). pose proof (phys_extent _ _ _ _ _ H).
  pose proof Hsz as [Hmin _]. unfold TLSF_MIN_BLOCK_SIZE in Hmin.
  destruct (Hf a) as [F1 F2]; [cbn; lia|]. rewrite F1, F2. split; [done|]. split; [done|]. split; [done|].
  split; [auto|]. split; [done|]. apply IH; [|done]. intros x Hx. apply Hf. cbn. lia.
Qed.

Lemma chain_frame strict h h' pv pf a l :
  (forall x, a <= x <= a + extent l -> size_and_flags h' !! x = size_and_flags h !! x /\
     prev_physical h' !! x = prev_physical h !! x) ->
  (forall x, has_node (flinks h) x -> has_node (flinks h') x) ->
  chain strict h pv pf a l -> chain strict h' pv pf a l.
Proof.
  intros Hf Hn [Hp Hs]. pose proof (phys_extent _ _ _ _ _ Hp). split.
  - eapply phys_frame; [|done|done]. intros x Hx. apply Hf. lia.
  - destruct Hs as (b & H1 & H2 & H3). exists b. destruct (Hf (a + extent l)) as [-> ->]; [lia|done].
Qed.

(** Only the link fields changed. *)
Lemma chain_with_links strict h k pv pf a l :
  (forall x, has_node (flinks h) x -> has_node k x) ->
  chain strict h pv pf a l -> chain strict (with_links h k) pv pf a l.
Proof. intros Hn. by apply chain_frame. Qed.

(** The word at the head of a chain, tile or sentinel. *)
Lemma chain_tag strict h pv pf a l :
  chain strict h pv pf a l ->
  exists n fr b, n mod 8 = 0 /\ size_and_flags h !! a = Some (mk n fr b) /\ prev_physical h !! a = Some pv /\
    not_both fr pf /\
    match l with
    | [] => n = 0 /\ fr = false
    | (sz, f) :: _ => n = sz /\ fr = f /\ bit_of pf b
    end.
Proof.
  destruct l as [|[sz fr] l].
  - intros [_ (b & H1 & _ & H3)]. cbn [extent plast] in *. rewrite Z.add_0_r in *. by exists 0, false, b.
  - intros [([_ Hm] & (q & Hq & H1) & H2 & _ & H3 & _) _]. by exists sz, fr, q.
Qed.

(** Giving a chain another predecessor: its head's [prev_physical] and PREV_FREE bit. *)
Lemma chain_retag strict h h' pv pf a l n fr b pv' pf' b' :
  chain strict h pv pf a l -> size_and_flags h !! a = Some (mk n fr b) -> n mod 8 = 0 ->
  size_and_flags h' !! a = Some (mk n fr b') -> prev_physical h' !! a = Some pv' ->
  (forall x, a < x <= a + extent l -> size_and_flags h' !! x = size_and_flags h !! x /\
     prev_physical h' !! x = prev_physical h !! x) ->
  (forall x, has_node (flinks h) x -> has_node (flinks h') x) ->
  not_both fr pf' ->
  match l with [] => strict = true -> b' = false | _ => bit_of pf' b' end ->
  chain strict h' pv' pf' a l.
Proof.
  intros Hc Hs Hm Hs' Hp' Hf Hn Hco Hb.
  destruct (chain_tag _ _ _ _ _ _ Hc) as (n0 & fr0 & b0 & Hm0 & Hs0 & _ & _ & Hl).
  assert (E : mk n fr b = mk n0 fr0 b0) by congruence.
  assert (n0 = n) as -> by (rewrite <- (block_size_mk n Hm fr b), E; by rewrite block_size_mk).
  assert (fr0 = fr) as -> by (rewrite <- (is_free_mk n Hm fr b), E; by rewrite is_free_mk).
  destruct l as [|[sz f] l].
  - destruct Hl as [-> ->]. split; [done|]. cbn. rewrite Z.add_0_r. by exists b'.
  - destruct Hl as (-> & -> & _). apply chain_cons in Hc as [(Hsz & _ & _ & Hnode & _) Hc].
    apply chain_cons. split; [split; [done|]; split; [by exists b'|]; split; [done|]; split; [by apply Hn|done]|].
    eapply chain_frame; [|done|exact Hc]. destruct Hsz as [Hmin _]. unfold TLSF_MIN_BLOCK_SIZE in Hmin.
    intros x Hx. apply Hf. cbn. lia.
Qed.

(** ** The free tiles *)

Fixpoint frees (a : Z) (l : list tile) : list (Z * Z) :=
  match l with
  | [] => []
  | (sz, fr) :: l => (if fr then [(a, sz)] else []) ++ frees (a + sz) l
  end.

Lemma frees_app a l1 l2 : frees a (l1 ++ l2) = frees a l1 ++ frees (a + extent l1) l2.
Proof.
  revert a. induction l1 as [|[sz fr] l1 IH]; intros a; cbn [app frees extent]; [by rewrite Z.add_0_r|].
  rewrite IH, <- app_assoc. do 3 f_equal. lia.
Qed.

Lemma frees_range h pv pf a l x sz :
  phys h pv pf a l -> (x, sz) ∈ frees a l -> a <= x /\ x + sz <= a + extent l /\ size_ok sz.
Proof.
  revert pv pf a. induction l as [|[s fr] l IH]; intros pv pf a; cbn [phys frees extent].
  - intros _ H. by apply not_elem_of_nil in H.
  - intros (Hs & _ & _ & _ & _ & H). pose proof (phys_extent _ _ _ _ _ H).
    pose proof Hs as [Hmin _]. unfold TLSF_MIN_BLOCK_SIZE in Hmin.
    rewrite elem_of_app. intros [Hx|Hx].
    + destruct fr; [|by apply not_elem_of_nil in Hx]. apply list_elem_of_singleton in Hx as [= -> ->].
      split; [lia|]. split; [lia|done].
    + destruct (IH _ _ _ H Hx) as (? & ? & ?). split; [lia|]. split; [lia|done].
Qed.

(** A free tile, with the layout around it. *)
Lemma frees_split h pv pf a l x sz :
  phys h pv pf a l -> (x, sz) ∈ frees a l ->
  exists l1 l2, l = l1 ++ (sz, true) :: l2 /\ x = a + extent l1.
Proof.
  revert pv pf a. induction l as [|[s fr] l IH]; intros pv pf a; cbn [phys frees].
  - intros _ H. by apply not_elem_of_nil in H.
  - intros (Hs & _ & _ & _ & _ & H). rewrite elem_of_app. intros [Hx|Hx].
    + destruct fr; [|by apply not_elem_of_nil in Hx]. apply list_elem_of_singleton in Hx as [= -> ->].
      exists [], l. cbn. split; [done|lia].
    + destruct (IH _ _ _ H Hx) as (l1 & l2 & -> & ->). exists ((s, fr) :: l1), l2. cbn. split; [done|lia].
Qed.

(** Distinct free tiles start at distinct addresses. *)
Lemma frees_unique h pv pf a l x s1 s2 :
  phys h pv pf a l -> (x, s1) ∈ frees a l -> (x, s2) ∈ frees a l -> s1 = s2.
Proof.
  revert pv pf a. induction l as [|[s fr] l IH]; intros pv pf a; cbn [phys frees].
  - intros _ H. by apply not_elem_of_nil in H.
  - intros ([Hmin _] & _ & _ & _ & _ & H). unfold TLSF_MIN_BLOCK_SIZE in Hmin.
    rewrite !elem_of_app. intros [Hx|Hx] [Hy|Hy].
    + destruct fr; [|by apply not_elem_of_nil in Hx].
      apply list_elem_of_singleton in Hx as [= -> ->]. by apply list_elem_of_singleton in Hy as [= ->].
    + destruct fr; [|by apply not_elem_of_nil in Hx]. apply list_elem_of_singleton in Hx as [= -> ->].
      destruct (frees_range _ _ _ _ _ _ _ H Hy). lia.
    + destruct fr; [|by apply not_elem_of_nil in Hy]. apply list_elem_of_singleton in Hy as [= -> ->].
      destruct (frees_range _ _ _ _ _ _ _ H Hx). lia.
    + by eapply IH.
Qed.

Lemma elem_of_frees_cons a sz fr l x s :
  (x, s) ∈ frees a ((sz, fr) :: l) <-> (fr = true /\ x = a /\ s = sz) \/ (x, s) ∈ frees (a + sz) l.
Proof.
  cbn [frees]. rewrite elem_of_app. destruct fr; rewrite ?list_elem_of_singleton; split.
  - intros [[= -> ->]|H]; auto.
  - intros [(_ & -> & ->)|H]; auto.
  - intros [H|H]; [by apply not_elem_of_nil in H|by right].
  - intros [(H & _)|H]; [done|by right].
Qed.

Lemma elem_of_frees_app a l1 l2 x s :
  (x, s) ∈ frees a (l1 ++ l2) <-> (x, s) ∈ frees a l1 \/ (x, s) ∈ frees (a + extent l1) l2.
Proof. by rewrite frees_app, elem_of_app. Qed.

(** Free tiles around a tile of the layout lie strictly before or after it. *)
Lemma frees_around strict h pv pf a l1 sz fr l2 x s :
  chain strict h pv pf a (l1 ++ (sz, fr) :: l2) ->
  ((x, s) ∈ frees a l1 -> a <= x /\ x + s <= a + extent l1 /\ size_ok s) /\
  ((x, s) ∈ frees (a + extent l1 + sz) l2 ->
     a + extent l1 + sz <= x /\ x + s <= a + extent (l1 ++ (sz, fr) :: l2) /\ size_ok s).
Proof.
  intros [H _]. apply phys_app in H as [H1 H2]. cbn [phys] in H2. destruct H2 as (_ & _ & _ & _ & _ & H2).
  rewrite extent_app. cbn [extent]. split; intros Hx.
  - by apply (frees_range _ _ _ _ _ _ _ H1 Hx).
  - pose proof (frees_range _ _ _ _ _ _ _ H2 Hx) as (? & ? & ?). split; [lia|]. split; [lia|done].
Qed.

Lemma set_sf_Some h a w v :
  size_and_flags h !! a = Some w ->
  set_sf h a v = Done (Heap (<[a := v]> (size_and_flags h)) (prev_physical h) (flinks h)).
Proof. intros H. unfold set_sf. by rewrite (st_Some _ _ _ _ H). Qed.

Lemma set_pp_Some h a w v :
  prev_physical h !! a = Some w ->
  set_pp h a v = Done (Heap (size_and_flags h) (<[a := v]> (prev_physical h)) (flinks h)).
Proof. intros H. unfold set_pp. by rewrite (st_Some _ _ _ _ H). Qed.

(** Every header field outside [lo .. hi) is untouched, and no header disappears. *)
Definition within (lo hi : Z) (h h' : heap) : Prop :=
  (forall x, ~ (lo <= x < hi) ->
     size_and_flags h' !! x = size_and_flags h !! x /\ prev_physical h' !! x = prev_physical h !! x /\
     nxt (flinks h') !! x = nxt (flinks h) !! x /\ prv (flinks h') !! x = prv (flinks h) !! x) /\
  (forall x, has_node (flinks h) x -> has_node (flinks h') x).

Lemma within_refl lo hi h : within lo hi h h.
Proof. split; auto. Qed.

Lemma within_trans lo hi h1 h2 h3 : within lo hi h1 h2 -> within lo hi h2 h3 -> within lo hi h1 h3.
Proof.
  intros [A B] [C D]. split; [|auto]. intros x Hx.
  destruct (A x Hx) as (A1 & A2 & A3 & A4). destruct (C x Hx) as (C1 & C2 & C3 & C4).
  by rewrite C1, C2, C3, C4.
Qed.

Lemma within_sf lo hi h a v :
  lo <= a < hi -> within lo hi h (Heap (<[a := v]> (size_and_flags h)) (prev_physical h) (flinks h)).
Proof. intros Ha. split; [|done]. intros x Hx. cbn. rewrite lookup_insert_ne by (intros ->; done). done. Qed.

Lemma within_pp lo hi h a v :
  lo <= a < hi -> within lo hi h (Heap (size_and_flags h) (<[a := v]> (prev_physical h)) (flinks h)).
Proof. intros Ha. split; [|done]. intros x Hx. cbn. rewrite lookup_insert_ne by (intros ->; done). done. Qed.

Lemma carve_node h a sf pp x : has_node (flinks h) x \/ x = a -> has_node (flinks (carve h a sf pp)) x.
Proof.
  intros Hx. unfold carve, has_node. cbn. destruct (decide (a = x)) as [->|Hne].
  - rewrite !lookup_insert_eq. eauto.
  - rewrite !lookup_insert_ne by done. destruct Hx as [Hx|Hx]; [done|congruence].
Qed.

Lemma within_carve lo hi h a sf pp : lo <= a < hi -> within lo hi h (carve h a sf pp).
Proof.
  intros Ha. split; [|intros x Hx; apply carve_node; by left].
  intros x Hx. unfold carve. cbn. rewrite !lookup_insert_ne by (intros ->; done). done.
Qed.

Lemma within_links lo hi h k :
  (forall x, ~ (lo <= x < hi) -> nxt k !! x = nxt (flinks h) !! x /\ prv k !! x = prv (flinks h) !! x) ->
  (forall x, has_node (flinks h) x -> has_node k x) -> within lo hi h (with_links h k).
Proof. intros Hk Hn. split; [|done]. intros x Hx. cbn. destruct (Hk x Hx). done. Qed.

(** ** The live tiles *)

Fixpoint lives (a : Z) (l : list tile) : list (Z * Z) :=
  match l with
  | [] => []
  | (sz, fr) :: l => (if fr then [] else [(a, sz)]) ++ lives (a + sz) l
  end.

Lemma elem_of_lives_cons a sz fr l x s :
  (x, s) ∈ lives a ((sz, fr) :: l) <-> (fr = false /\ x = a /\ s = sz) \/ (x, s) ∈ lives (a + sz) l.
Proof.
  cbn [lives]. rewrite elem_of_app. destruct fr; rewrite ?list_elem_of_singleton; split.
  - intros [H|H]; [by apply not_elem_of_nil in H|by right].
  - intros [(H & _)|H]; [done|by right].
  - intros [[= -> ->]|H]; auto.
  - intros [(_ & -> & ->)|H]; auto.
Qed.

Lemma elem_of_lives_app a l1 l2 x s :
  (x, s) ∈ lives a (l1 ++ l2) <-> (x, s) ∈ lives a l1 \/ (x, s) ∈ lives (a + extent l1) l2.
Proof.
  revert a. induction l1 as [|[sz fr] l1 IH]; intros a; cbn [app extent].
  - rewrite Z.add_0_r. cbn [lives]. pose proof (not_elem_of_nil (A := Z * Z) (x, s)). tauto.
  - rewrite !elem_of_lives_cons, IH, Z.add_assoc. tauto.
Qed.

Lemma lives_range h pv pf a l x sz :
  phys h pv pf a l -> (x, sz) ∈ lives a l -> a <= x /\ x + sz <= a + extent l /\ size_ok sz.
Proof.
  revert pv pf a. induction l as [|[s fr] l IH]; intros pv pf a; cbn [phys extent].
  - intros _ H. by apply not_elem_of_nil in H.
  - intros (Hs & _ & _ & _ & _ & H). pose proof (phys_extent _ _ _ _ _ H).
    pose proof Hs as [Hmin _]. unfold TLSF_MIN_BLOCK_SIZE in Hmin.
    rewrite elem_of_lives_cons. intros [(_ & -> & ->)|Hx].
    + split; [lia|]. split; [lia|done].
    + destruct (IH _ _ _ H Hx) as (? & ? & ?). split; [lia|]. split; [lia|done].
Qed.

(** Two live tiles at different addresses do not overlap. *)
Lemma lives_disjoint h pv pf a l x s y t :
  phys h pv pf a l -> (x, s) ∈ lives a l -> (y, t) ∈ lives a l -> x <> y -> x + s <= y \/ y + t <= x.
Proof.
  revert pv pf a. induction l as [|[sz fr] l IH]; intros pv pf a; cbn [phys].
  - intros _ H. by apply not_elem_of_nil in H.
  - intros (_ & _ & _ & _ & _ & H). rewrite !elem_of_lives_cons.
    intros [(_ & -> & ->)|Hx] [(_ & -> & ->)|Hy] Hne.
    + done.
    + pose proof (lives_range _ _ _ _ _ _ _ H Hy). lia.
    + pose proof (lives_range _ _ _ _ _ _ _ H Hx). lia.
    + by eapply IH.
Qed.

(** A live tile, with the layout around it. *)
Lemma lives_split h pv pf a l x sz :
  phys h pv pf a l -> (x, sz) ∈ lives a l ->
  exists l1 l2, l = l1 ++ (sz, false) :: l2 /\ x = a + extent l1.
Proof.
  revert pv pf a. induction l as [|[s fr] l IH]; intros pv pf a; cbn [phys].
  - intros _ H. by apply not_elem_of_nil in H.
  - intros (Hs & _ & _ & _ & _ & H). rewrite elem_of_lives_cons. intros [(-> & -> & ->)|Hx].
    + exists [], l. cbn. split; [done|lia].
    + destruct (IH _ _ _ H Hx) as (l1 & l2 & -> & ->). exists ((s, fr) :: l1), l2. cbn. split; [done|lia].
Qed.

(** ** Counting headers *)

Fixpoint starts (a : Z) (l : list tile) : list Z :=
  match l with [] => [] | (sz, _) :: l => a :: starts (a + sz) l end.

Lemma starts_range h pv pf a l x : phys h pv pf a l -> x ∈ starts a l -> a <= x /\ has_node (flinks h) x.
Proof.
  revert pv pf a. induction l as [|[sz fr] l IH]; intros pv pf a; cbn [phys starts].
  - intros _ H. by apply not_elem_of_nil in H.
  - intros ([Hmin _] & _ & _ & Hn & _ & H) [->|Hx]%elem_of_cons; [split; [lia|done]|].
    destruct (IH _ _ _ H Hx). unfold TLSF_MIN_BLOCK_SIZE in *. split; [lia|done].
Qed.

Lemma starts_nodup h pv pf a l : phys h pv pf a l -> NoDup (starts a l).
Proof.
  revert pv pf a. induction l as [|[sz fr] l IH]; intros pv pf a; cbn [phys starts]; [constructor|].
  intros ([Hmin _] & _ & _ & _ & _ & H). apply NoDup_cons. split; [|by eapply IH].
  intros Hx. destruct (starts_range _ _ _ _ _ _ H Hx). unfold TLSF_MIN_BLOCK_SIZE in *. lia.
Qed.

Lemma length_starts a l : length (starts a l) = length l.
Proof. revert a. induction l as [|[sz fr] l IH]; intros a; cbn; [done|]. by rewrite IH. Qed.

(** A layout has no more tiles than the heap has headers. *)
Lemma phys_length h pv pf a l : phys h pv pf a l -> (length l <= base.size (nxt (flinks h)))%nat.
Proof.
  intros H. rewrite <- (length_starts a). apply nodup_size; [by eapply starts_nodup|].
  intros x Hx. by destruct (starts_range _ _ _ _ _ _ H Hx) as [_ [? _]].
Qed.

(** The addresses of the free tiles. *)
Definition free_addrs (a : Z) (l : list tile) : list Z := map fst (frees a l).

Lemma free_addrs_app a l1 l2 : free_addrs a (l1 ++ l2) = free_addrs a l1 ++ free_addrs (a + extent l1) l2.
Proof. unfold free_addrs. by rewrite frees_app, map_app. Qed.

Lemma free_addrs_cons a sz fr l :
  free_addrs a ((sz, fr) :: l) = (if fr then [a] else []) ++ free_addrs (a + sz) l.
Proof. unfold free_addrs. cbn [frees]. rewrite map_app. by destruct fr. Qed.

Lemma elem_of_free_addrs a l x : x ∈ free_addrs a l <-> exists s, (x, s) ∈ frees a l.
Proof.
  unfold free_addrs. rewrite list_elem_of_fmap. split.
  - intros ([y s] & -> & Hy). by exists s.
  - intros (s & Hs). by exists (x, s).
Qed.

(** ** Splitting and coalescing layouts *)

(** Replacing the tiles in the middle of a layout: the prefix is untouched. *)
Lemma chain_prefix strict h h' pv pf a l1 L2 :
  (forall x, a <= x < a + extent l1 -> size_and_flags h' !! x = size_and_flags h !! x /\
     prev_physical h' !! x = prev_physical h !! x) ->
  (forall x, has_node (flinks h) x -> has_node (flinks h') x) ->
  phys h pv pf a l1 -> chain strict h' (plast pv a l1) (flast pf l1) (a + extent l1) L2 ->
  chain strict h' pv pf a (l1 ++ L2).
Proof. intros Hf Hn Hp Hc. apply chain_app. split; [by eapply phys_frame|done]. Qed.

(** The outcome of serving a request from the free tile [sz]. *)
Definition split_tiles (sz total_needed : Z) : list tile :=
  if TLSF_MIN_BLOCK_SIZE + SIZEOF_TLSF_BLOCK <=? sz - total_needed
  then [(total_needed, false); (sz - total_needed, true)] else [(sz, false)].

Lemma split_tiles_extent sz tn : extent (split_tiles sz tn) = sz.
Proof. unfold split_tiles. destruct (_ <=? _); cbn; lia. Qed.

Definition absorb_next (sz : Z) (l2 : list tile) : Z * list tile :=
  match l2 with (n, true) :: l2 => (sz + n, l2) | _ => (sz, l2) end.

(** The layout after the live tile [sz] between [l1] and [l2] is released. *)
Definition coalesce (l1 : list tile) (sz : Z) (l2 : list tile) : list tile :=
  let '(sz, l2) := absorb_next sz l2 in
  match last l1 with
  | Some (p, true) => removelast l1 ++ (p + sz, true) :: l2
  | _ => l1 ++ (sz, true) :: l2
  end.

Definition merge_prev (l1 : list tile) (sz : Z) (l2 : list tile) : list tile :=
  match last l1 with
  | Some (p, true) => removelast l1 ++ (p + sz, true) :: l2
  | _ => l1 ++ (sz, true) :: l2
  end.

Lemma coalesce_eq l1 sz l2 :
  coalesce l1 sz l2 = let '(sz', l2') := absorb_next sz l2 in merge_prev l1 sz' l2'.
Proof. unfold coalesce, merge_prev. by destruct (absorb_next sz l2). Qed.

(** The same when the block's own PREV_FREE bit is [q]: without it the predecessor is left
    alone. *)
Definition merge_if (q : bool) (l1 : list tile) (sz : Z) (l2 : list tile) : list tile :=
  if q then merge_prev l1 sz l2 else l1 ++ (sz, true) :: l2.
Definition coalesce_if (q : bool) (l1 : list tile) (sz : Z) (l2 : list tile) : list tile :=
  let '(sz', l2') := absorb_next sz l2 in merge_if q l1 sz' l2'.

Lemma coalesce_if_flast l1 sz l2 : coalesce_if (flast false l1) l1 sz l2 = coalesce l1 sz l2.
Proof.
  rewrite coalesce_eq. unfold coalesce_if, merge_if, merge_prev. destruct (absorb_next sz l2) as [z l].
  destruct l1 as [|[p fr] l1 _] using rev_ind; [done|]. rewrite flast_app, last_snoc. cbn [flast]. by destruct fr.
Qed.

Lemma flast_snoc pf l sz fr : flast pf (l ++ [(sz, fr)]) = fr.
Proof. by rewrite flast_app. Qed.

Lemma plast_snoc pv a l sz fr : plast pv a (l ++ [(sz, fr)]) = a + extent l.
Proof. by rewrite plast_app. Qed.

Lemma extent_removelast l x : last l = Some x -> extent (removelast l) + fst x = extent l.
Proof.
  intros H. apply last_Some in H as (l' & ->). rewrite removelast_last, extent_app.
  destruct x as [s f]. cbn. lia.
Qed.

Lemma coalesce_extent l1 sz l2 : extent (coalesce l1 sz l2) = extent l1 + sz + extent l2.
Proof.
  rewrite coalesce_eq. unfold absorb_next, merge_prev.
  assert (H : forall z l, extent (match last l1 with
    | Some (p, true) => removelast l1 ++ (p + z, true) :: l | _ => l1 ++ (z, true) :: l end)
    = extent l1 + z + extent l).
  { intros z l. destruct (last l1) as [[p []]|] eqn:E; rewrite extent_app; cbn [extent]; [|lia..].
    apply extent_removelast in E. cbn in E. lia. }
  destruct l2 as [|[n []] l2]; rewrite H; cbn; lia.
Qed.

(** ** What the operations do to the live tiles *)

Definition taken (sz tn : Z) : Z :=
  if TLSF_MIN_BLOCK_SIZE + SIZEOF_TLSF_BLOCK <=? sz - tn then tn else sz.

Lemma taken_bounds sz tn : tn <= sz -> tn <= taken sz tn <= sz.
Proof. unfold taken. destruct (_ <=? _); lia. Qed.

Lemma lives_take a l1 sz tn l2 x s :
  (x, s) ∈ lives a (l1 ++ split_tiles sz tn ++ l2) <->
  (x, s) ∈ lives a (l1 ++ (sz, true) :: l2) \/ (x = a + extent l1 /\ s = taken sz tn).
Proof.
  unfold split_tiles, taken. rewrite !elem_of_lives_app, elem_of_lives_cons.
  assert (true <> false) by done. pose proof (not_elem_of_nil (A := Z * Z) (x, s)).
  destruct (_ <=? _); cbn [app extent]; rewrite !elem_of_lives_cons; cbn [lives].
  - replace (a + extent l1 + (tn + (sz - tn + 0))) with (a + extent l1 + sz) by lia. tauto.
  - replace (a + extent l1 + (sz + 0)) with (a + extent l1 + sz) by lia. tauto.
Qed.

Lemma lives_coalesce a l1 sz l2 x s :
  (x, s) ∈ lives a (coalesce l1 sz l2) <->
  (x, s) ∈ lives a l1 \/ (x, s) ∈ lives (a + extent l1 + sz) l2.
Proof.
  rewrite coalesce_eq. assert (true <> false) by done.
  assert (Hm : forall z l, (x, s) ∈ lives a (merge_prev l1 z l) <->
    (x, s) ∈ lives a l1 \/ (x, s) ∈ lives (a + extent l1 + z) l).
  { intros z l. unfold merge_prev.
    destruct (last l1) as [[p []]|] eqn:E; rewrite elem_of_lives_app, elem_of_lives_cons; [|tauto..].
    apply last_Some in E as (l' & ->). rewrite removelast_last, extent_app, elem_of_lives_app, elem_of_lives_cons.
    cbn [extent lives]. pose proof (not_elem_of_nil (A := Z * Z) (x, s)).
    replace (a + extent l' + (p + z)) with (a + (extent l' + (p + 0)) + z) by lia. tauto. }
  unfold absorb_next. destruct l2 as [|[n []] l2]; rewrite Hm; [done| |done].
  rewrite elem_of_lives_cons. replace (a + extent l1 + (sz + n)) with (a + extent l1 + sz + n) by lia. tauto.
Qed.

Lemma lives_coalesce_if q a l1 sz l2 x s :
  (x, s) ∈ lives a (coalesce_if q l1 sz l2) <->
  (x, s) ∈ lives a l1 \/ (x, s) ∈ lives (a + extent l1 + sz) l2.
Proof.
  destruct q; [rewrite <- lives_coalesce, coalesce_eq; done|]. unfold coalesce_if, merge_if, absorb_next.
  assert (true <> false) by done. destruct l2 as [|[n []] l2]; rewrite elem_of_lives_app, !elem_of_lives_cons.
  - tauto.
  - rewrite Z.add_assoc. tauto.
  - tauto.
Qed.

End Layouts.

#[export] Hint Resolve bit_of_refl not_both_live not_both_used : core.
