(* ===== verification/Header.v ===== *)
(** * Pool flags and the allocation header

    [mp_flags_t] and [mp_block_header_t] of [src/include/cmem.h], shared by every
    allocation tier. *)
From S2P Require Import Prelude.
From Stdlib Require Import ZArith Lia.
From stdpp Require Import base option.
Open Scope Z_scope.

Definition MP_FLAG_THREAD_SAFE : Z := Z.shiftl 1 0.
Definition MP_FLAG_DEBUG_CANARY : Z := Z.shiftl 1 1.
Definition MP_FLAG_ZERO_ON_ALLOC : Z := Z.shiftl 1 2.
Definition MP_FLAG_THREAD_LOCAL_CACHE : Z := Z.shiftl 1 3.
Definition MP_FLAG_STATIC_BUFFER : Z := Z.shiftl 1 4.
Definition MP_FLAG_TRACK_LOCATIONS : Z := Z.shiftl 1 5.
Definition MP_FLAG_POISON_ON_FREE : Z := Z.shiftl 1 6.
Definition MP_FLAG_CACHE_ALIGNED : Z := Z.shiftl 1 7.
Definition MP_FLAG_GUARD_PAGES : Z := Z.shiftl 1 8.
Definition MP_FLAG_SHARED_MEMORY : Z := Z.shiftl 1 9.
Definition MP_FLAG_HUGE_PAGES : Z := Z.shiftl 1 10.
Definition MP_FLAG_PERCPU_FREELIST : Z := Z.shiftl 1 11.
Definition MP_FLAG_HOT_COLD_SEPARATION : Z := Z.shiftl 1 12.
Definition MP_FLAG_ENCRYPTED_MEMORY : Z := Z.shiftl 1 13.
Definition MP_FLAG_ASAN_INTEGRATION : Z := Z.shiftl 1 14.
Definition MP_FLAG_REPORT_LEAKS_ON_DESTROY : Z := Z.shiftl 1 15.
Definition MP_FLAG_AUTO_NUMA : Z := Z.shiftl 1 16.
Definition MP_FLAG_MULTI_ARENA : Z := Z.shiftl 1 17.
Definition MP_FLAG_FAST_PATH : Z := Z.shiftl 1 18.

(** [flags & bit]. *)
Definition has_flag (flags bit : Z) : bool := negb (Z.land flags bit =? 0).

Definition ALLOC_TYPE_SLAB : Z := 1.
Definition ALLOC_TYPE_TLSF : Z := 2.
Definition ALLOC_TYPE_OS : Z := 3.
Definition ALLOC_TYPE_EMERGENCY : Z := 4.

Definition MP_BLOCK_FLAG_TLSF_ARENA : Z := 1.
Definition MP_BLOCK_FLAG_COUNTED : Z := 2.
Definition MP_MAGIC_HEAD : Z := 0x4D504F4F.
Definition CMEM_FREED_MAGIC : Z := 0xDEADBEEF.
Definition MP_CANARY_BYTE : Z := 0xDE.

(** [sizeof(mp_block_header_t)] on a 64-bit target. *)
Definition SIZEOF_HEADER : Z := 152.

(** The header in front of a payload.  The source location is one address; the captured
    call stack is not represented, and the list links are kept by the list's own store. *)
Record mp_block_header := Header {
  magic : Z;
  alloc_type : Z;
  slab_class : Z;
  hflags : Z;
  requested_size : Z;
  usable_size : Z;
  raw_base : Z;
  subpool : Z;
  alloc_file : Z;
  alloc_line : Z;
  alloc_func : Z;
  backtrace_depth : Z;
}.

Definition set_sizes (h : mp_block_header) (req usable : Z) : mp_block_header :=
  Header (magic h) (alloc_type h) (slab_class h) (hflags h) req usable (raw_base h) (subpool h)
    (alloc_file h) (alloc_line h) (alloc_func h) (backtrace_depth h).

(** What the walks of [src/cmem_slab.c] over a list of slots stop at. *)
Definition CMEM_SLAB_ALIGN_MASK : Z := 7.

(** [((uintptr_t)slot & 7) != 0 || (uintptr_t)slot < 0x10000] *)
Definition bad_slot (slot : Z) : bool :=
  negb (Z.land slot CMEM_SLAB_ALIGN_MASK =? 0) || (slot <? 0x10000).

(** A flag is a bit. *)
Lemma has_flag_bit f i : 0 <= i -> has_flag f (Z.shiftl 1 i) = Z.testbit f i.
Proof.
  intros Hi. unfold has_flag. apply eq_true_iff_eq. rewrite negb_true_iff, Z.eqb_neq. split.
  - intros Hn. destruct (Z.testbit f i) eqn:E; [done|]. exfalso. apply Hn. apply Z.bits_inj'. intros j Hj.
    rewrite Z.land_spec, testbit_one_shift, Z.bits_0 by done. case_bool_decide; [by subst; rewrite E|by rewrite andb_false_r].
  - intros Hb Hz. apply (f_equal (fun z => Z.testbit z i)) in Hz. rewrite Z.land_spec, testbit_one_shift, Z.bits_0, Hb in Hz by done.
    by rewrite bool_decide_true in Hz.
Qed.
