(* ===== verification/Tlsf.v ===== *)
(** * The shared TLSF tier

    [src/cmem_tlsf.c]: arenas with a two-level bitmap index over segregated free lists,
    splitting on allocation and coalescing on release. *)
From S2P Require Import Prelude Dll TlsfMap BlockHeap Header.
From Stdlib Require Import ZArith Lia.
From stdpp Require Import base option list gmap.
Open Scope Z_scope.

(** [struct tlsf_pool]; [tp_addr] is its own address.  The two tables are maps over
    their index ranges: an index outside them is a fault. *)
Record tlsf_pool := TPool {
  fl_bitmap : Z;
  sl_bitmap : gmap Z Z;
  blocks : gmap (Z * Z) Z;
  raw_area : Z;
  raw_size : Z;
  tp_addr : Z;
}.

Definition ld_row (tp : tlsf_pool) (fl : Z) : outcome Z := ld (sl_bitmap tp) fl.
Definition ld_bucket (tp : tlsf_pool) (f : Z * Z) : outcome Z :=
  match blocks tp !! f with Some p => Done p | None => Fault end.

Definition with_index (tp : tlsf_pool) fl sl bl : tlsf_pool :=
  TPool fl sl bl (raw_area tp) (raw_size tp) (tp_addr tp).

Definition tlsf_insert_free_block_nolock (tp : tlsf_pool) (h : heap) (block : Z)
    : outcome (tlsf_pool * heap) :=
  sf ← ld (size_and_flags h) block;
  f ← tlsf_mapping_insert (block_size sf);
  head ← ld_bucket tp f;
  k ← dll_push_front (flinks h) head block;
  row ← ld_row tp (fst f);
  Done (with_index tp (bit_set (fl_bitmap tp) (fst f))
          (<[fst f := bit_set row (snd f)]> (sl_bitmap tp)) (<[f := block]> (blocks tp)),
        with_links h k).

Definition tlsf_remove_free_block_nolock (tp : tlsf_pool) (h : heap) (block : Z)
    : outcome (tlsf_pool * heap) :=
  sf ← ld (size_and_flags h) block;
  f ← tlsf_mapping_insert (block_size sf);
  head ← ld_bucket tp f;
  r ← dll_unlink (flinks h) head block;
  let '(k, head) := r in
  let bl := <[f := head]> (blocks tp) in
  if head =? NULL then
    row ← ld_row tp (fst f);
    let row := bit_clear row (snd f) in
    let fl := if row =? 0 then bit_clear (fl_bitmap tp) (fst f) else fl_bitmap tp in
    Done (with_index tp fl (<[fst f := row]> (sl_bitmap tp)) bl, with_links h k)
  else Done (with_index tp (fl_bitmap tp) (sl_bitmap tp) bl, with_links h k).

(** [~((uint32_t)0) << (n & TLSF_BIT_MASK)]. *)
Definition from_bit (n : Z) : Z := u32 (Z.shiftl UINT32_MAX (Z.land n 31)).

Definition tlsf_find_suitable_block (tp : tlsf_pool) (total_needed : Z) : outcome Z :=
  f ← tlsf_mapping_search total_needed;
  let '(fl, sl) := f in
  row ← ld_row tp fl;
  let sl_map := Z.land row (from_bit sl) in
  if negb (sl_map =? 0) then ld_bucket tp (fl, tlsf_ffs sl_map)
  else
    let fl_map := Z.land (fl_bitmap tp) (from_bit (fl + 1)) in
    if negb (fl_map =? 0) then
      let fl := tlsf_ffs fl_map in
      sl_map ← ld_row tp fl;
      ld_bucket tp (fl, tlsf_ffs sl_map)
    else Done NULL.

(** Both uses of the winning block in [tlsf_alloc]: unlink it, then split off the tail
    or hand it out whole. *)
Definition tlsf_take (tp : tlsf_pool) (h : heap) (block total_needed : Z) : outcome (tlsf_pool * heap) :=
  r ← tlsf_remove_free_block_nolock tp h block;
  let '(tp, h) := r in
  sf ← ld (size_and_flags h) block;
  let current_size := block_size sf in
  let remaining := u64 (current_size - total_needed) in
  if TLSF_MIN_BLOCK_SIZE + SIZEOF_TLSF_BLOCK <=? remaining then
    h ← set_sf h block (Z.lor total_needed (Z.land sf BLOCK_STATE_PREV_FREE));
    let split_block := block + total_needed in
    let h := carve h split_block (Z.lor remaining BLOCK_STATE_FREE) block in
    let next_phys := split_block + remaining in
    h ← set_pp h next_phys split_block;
    nsf ← ld (size_and_flags h) next_phys;
    h ← set_sf h next_phys (Z.lor nsf BLOCK_STATE_PREV_FREE);
    tlsf_insert_free_block_nolock tp h split_block
  else
    h ← set_sf h block (Z.land sf (Z.lnot BLOCK_STATE_FREE));
    let next_phys := block + current_size in
    nsf ← ld (size_and_flags h) next_phys;
    h ← set_sf h next_phys (Z.land nsf (Z.lnot BLOCK_STATE_PREV_FREE));
    Done (tp, h).

(** [tlsf_free]: coalesce with the next physical block if it is free. *)
Definition free_merge_next (tp : tlsf_pool) (h : heap) (block size : Z) : outcome (tlsf_pool * heap * Z) :=
  let next_phys := block + size in
  nsf ← ld (size_and_flags h) next_phys;
  if is_free nsf then
    let next_size := block_size nsf in
    r ← tlsf_remove_free_block_nolock tp h next_phys;
    let '(tp, h) := r in
    let size := size + next_size in
    bsf ← ld (size_and_flags h) block;
    h ← set_sf h block (Z.lor (Z.lor size (Z.land bsf BLOCK_STATE_PREV_FREE)) BLOCK_STATE_FREE);
    h ← set_pp h (block + size) block;
    Done (tp, h, size)
  else Done (tp, h, size).

(** [tlsf_free]: coalesce with the previous physical block if it is free. *)
Definition free_merge_prev (tp : tlsf_pool) (h : heap) (block size : Z)
    : outcome (tlsf_pool * heap * Z * Z) :=
  bsf ← ld (size_and_flags h) block;
  if is_prev_free bsf then
    prev_phys ← ld (prev_physical h) block;
    if prev_phys =? NULL then Done (tp, h, block, size)
    else
      psf ← ld (size_and_flags h) prev_phys;
      if is_free psf then
        let prev_size := block_size psf in
        r ← tlsf_remove_free_block_nolock tp h prev_phys;
        let '(tp, h) := r in
        h ← set_sf h prev_phys (Z.lor (Z.lor (prev_size + size) (Z.land psf BLOCK_STATE_PREV_FREE))
                                  BLOCK_STATE_FREE);
        h ← set_pp h (prev_phys + prev_size + size) prev_phys;
        Done (tp, h, prev_phys, prev_size + size)
      else Done (tp, h, block, size)
  else Done (tp, h, block, size).

(** The structural part of [tlsf_free], under the arena lock. *)
Definition tlsf_free_block (tp : tlsf_pool) (h : heap) (block : Z) : outcome (tlsf_pool * heap) :=
  sf ← ld (size_and_flags h) block;
  let size := block_size sf in
  h ← set_sf h block (Z.lor sf BLOCK_STATE_FREE);
  r ← free_merge_next tp h block size;
  let '(tp, h, size) := r in
  r ← free_merge_prev tp h block size;
  let '(tp, h, block, size) := r in
  asf ← ld (size_and_flags h) (block + size);
  h ← set_sf h (block + size) (Z.lor asf BLOCK_STATE_PREV_FREE);
  tlsf_insert_free_block_nolock tp h block.

(** ** The index

    [index tp k F]: the bitmaps and bucket lists of [tp], threaded through the links
    [k], file exactly the blocks [F] (address, size), each in the bucket of its size. *)
Definition fl_ok (fl : Z) : Prop := 0 <= fl < TLSF_FL_MAX.
Definition sl_ok (sl : Z) : Prop := 0 <= sl < TLSF_SL_COUNT.

Record index_ok (tp : tlsf_pool) (k : links) (F : Z -> Z -> Prop) (bk : Z * Z -> list Z) : Prop := {
  ix_bucket : forall fl sl, fl_ok fl -> sl_ok sl ->
    exists hd, blocks tp !! (fl, sl) = Some hd /\ dll k hd (bk (fl, sl));
  ix_row : forall fl, fl_ok fl ->
    exists row, sl_bitmap tp !! fl = Some row /\ 0 <= row < 2 ^ TLSF_SL_COUNT /\
      (forall sl, sl_ok sl -> Z.testbit row sl = true <-> bk (fl, sl) <> []) /\
      (Z.testbit (fl_bitmap tp) fl = true <-> row <> 0);
  ix_fl : 0 <= fl_bitmap tp < 2 ^ TLSF_FL_MAX;
  ix_mem : forall f x, x ∈ bk f <-> exists sz, F x sz /\ f = bucket sz;
  ix_fun : forall x s1 s2, F x s1 -> F x s2 -> s1 = s2;
  ix_size : forall x s, F x s -> 16 <= s < 2 ^ 30;
}.

Definition index (tp : tlsf_pool) (k : links) (F : Z -> Z -> Prop) : Prop :=
  exists bk, index_ok tp k F bk.

Lemma index_iff tp k F F' : (forall x s, F x s <-> F' x s) -> index tp k F -> index tp k F'.
Proof.
  intros HF [bk I]. exists bk. constructor; try apply I.
  - intros f x. rewrite (ix_mem _ _ _ _ I). by setoid_rewrite HF.
  - intros x s1 s2. rewrite <- !HF. apply (ix_fun _ _ _ _ I).
  - intros x s. rewrite <- HF. apply (ix_size _ _ _ _ I).
Qed.

#[export] Instance index_proper tp k :
  Proper (pointwise_relation Z (pointwise_relation Z iff) ==> iff) (index tp k).
Proof. intros F F' HF. split; apply index_iff; intros x s; [|symmetry]; apply HF. Qed.

Lemma index_frame tp k k' (F : Z -> Z -> Prop) :
  (forall x s, F x s -> nxt k' !! x = nxt k !! x /\ prv k' !! x = prv k !! x) ->
  index tp k F -> index tp k' F.
Proof.
  intros Hf [bk I]. exists bk. constructor; try apply I. intros fl sl Hfl Hsl.
  destruct (ix_bucket _ _ _ _ I fl sl Hfl Hsl) as (hd & Hb & Hd). exists hd. split; [done|].
  eapply dll_frame; [|done]. intros x Hx. apply (ix_mem _ _ _ _ I) in Hx as (sz & Hx & _). by eapply Hf.
Qed.

Lemma bucket_ok sz : 16 <= sz < 2 ^ 30 -> exists fl sl, bucket sz = (fl, sl) /\ fl_ok fl /\ sl_ok sl.
Proof.
  intros Hs. pose proof (bucket_range sz Hs) as [H1 H2]. destruct (bucket sz) as [fl sl]. cbn in *.
  exists fl, sl. unfold fl_ok, sl_ok. repeat split; lia.
Qed.

(** The block read back from its header is filed under the size the header records. *)
Lemma mapping_of_word sz fr pf :
  16 <= sz < 2 ^ 30 -> sz mod 8 = 0 -> tlsf_mapping_insert (block_size (mk sz fr pf)) = Done (bucket sz).
Proof. intros Hs Hm. rewrite block_size_mk by done. apply mapping_insert_eq. lia. Qed.

(** Only the header words may differ. *)
Definition same_words (h h' : heap) : Prop :=
  size_and_flags h' = size_and_flags h /\ prev_physical h' = prev_physical h.

Lemma index_insert tp h F b sz fr pf :
  index tp (flinks h) F -> (forall s, ~ F b s) -> b <> NULL -> has_node (flinks h) b ->
  size_and_flags h !! b = Some (mk sz fr pf) -> 16 <= sz < 2 ^ 30 -> sz mod 8 = 0 ->
  exists tp' k, tlsf_insert_free_block_nolock tp h b = Done (tp', with_links h k) /\
    index tp' k (fun x s => F x s \/ (x = b /\ s = sz)) /\
    raw_area tp' = raw_area tp /\ raw_size tp' = raw_size tp /\ tp_addr tp' = tp_addr tp /\
    (forall x, has_node (flinks h) x -> has_node k x) /\
    (forall x, x <> b -> (forall s, ~ F x s) -> nxt k !! x = nxt (flinks h) !! x /\ prv k !! x = prv (flinks h) !! x).
Proof.
  intros [bk I] Hnew Hb0 Hnode Hsf Hsz Hm. unfold tlsf_insert_free_block_nolock.
  rewrite (ld_Some _ _ _ Hsf). cbn [mbind outcome_bind]. rewrite mapping_of_word by done.
  cbn [mbind outcome_bind]. destruct (bucket_ok sz Hsz) as (fl & sl & Ebk & Hfl & Hsl). rewrite Ebk.
  destruct (ix_bucket _ _ _ _ I fl sl Hfl Hsl) as (hd & Hhd & Hd).
  unfold ld_bucket. rewrite Hhd. cbn [mbind outcome_bind].
  assert (Hnin : forall f, b ∉ bk f).
  { intros f Hin. apply (ix_mem _ _ _ _ I) in Hin as (s & Hs & _). by apply (Hnew s). }
  destruct (dll_push_front_spec _ _ _ b Hd (Hnin _) Hb0 Hnode) as (k & -> & Hd' & Fr).
  cbn [mbind outcome_bind fst snd].
  destruct (ix_row _ _ _ _ I fl Hfl) as (row & Hrow & Hrb & Hbits & Hflb).
  unfold ld_row. rewrite (ld_Some _ _ _ Hrow). cbn [mbind outcome_bind].
  eexists _, k. split; [done|]. split; [|split; [done|split; [done|split; [done|split; [apply Fr|]]]]].
  2: { intros x Hxb Hx. apply Fr. rewrite not_elem_of_cons. split; [done|].
       intros Hin. apply (ix_mem _ _ _ _ I) in Hin as (s & Hs & _). by apply (Hx s). }
  set (bk' := fun f => if decide (f = (fl, sl)) then b :: bk f else bk f).
  exists bk'. constructor; cbn [with_index fl_bitmap sl_bitmap blocks].
  - intros fl' sl' Hfl' Hsl'. unfold bk'. case_decide as E.
    + injection E as -> ->. exists b. by rewrite lookup_insert_eq.
    + destruct (ix_bucket _ _ _ _ I fl' sl' Hfl' Hsl') as (hd' & Hhd' & Hdl).
      exists hd'. rewrite lookup_insert_ne by done. split; [done|]. eapply frame_dll; [exact Fr| |done].
      intros x Hx. rewrite not_elem_of_cons. split; [intros ->; by eapply Hnin|].
      intros Hx2. apply (ix_mem _ _ _ _ I) in Hx as (s1 & Hs1 & E1).
      apply (ix_mem _ _ _ _ I) in Hx2 as (s2 & Hs2 & E2).
      rewrite (ix_fun _ _ _ _ I _ _ _ Hs1 Hs2) in E1. congruence.
  - intros fl' Hfl'. destruct (decide (fl' = fl)) as [->|Hne].
    + exists (bit_set row sl). rewrite lookup_insert_eq. split; [done|].
      split; [by apply bit_set_bound|]. split.
      * intros sl' Hsl'. rewrite testbit_bit_set by apply Hsl. unfold bk'.
        destruct (decide (sl' = sl)) as [->|Hnsl].
        -- rewrite decide_True by done. rewrite bool_decide_true, orb_true_r by done. done.
        -- rewrite decide_False by congruence. rewrite bool_decide_false, orb_false_r by congruence. auto.
      * rewrite testbit_bit_set by apply Hfl. rewrite bool_decide_true, orb_true_r by done.
        split; [|done]. intros _. apply (nonzero_bits _ TLSF_SL_COUNT); [by apply bit_set_bound|].
        exists sl. split; [done|]. rewrite testbit_bit_set by apply Hsl. by rewrite bool_decide_true, orb_true_r.
    + destruct (ix_row _ _ _ _ I fl' Hfl') as (row' & Hrow' & Hrb' & Hbits' & Hflb').
      exists row'. rewrite lookup_insert_ne by done. split; [done|]. split; [done|]. split.
      * intros sl' Hsl'. unfold bk'. rewrite decide_False by congruence. auto.
      * rewrite testbit_bit_set by apply Hfl. by rewrite bool_decide_false, orb_false_r by done.
  - apply bit_set_bound; [apply (ix_fl _ _ _ _ I)|done].
  - intros f x. unfold bk'. case_decide as E.
    + rewrite elem_of_cons, (ix_mem _ _ _ _ I). subst f. rewrite <- Ebk. split.
      * intros [->|(s & Hs & E)]; eauto.
      * intros (s & [Hs|[-> ->]] & E); eauto.
    + rewrite (ix_mem _ _ _ _ I). split; [intros (s & Hs & ->); by eauto|].
      intros (s & [Hs|[-> ->]] & ->); [by eauto|congruence].
  - intros x s1 s2 [H1|[-> ->]] [H2|[E2 ->]]; [by eapply (ix_fun _ _ _ _ I)| | |done].
    + subst x. by apply Hnew in H1.
    + by apply Hnew in H2.
  - intros x s [Hs|[_ ->]]; [by eapply (ix_size _ _ _ _ I)|done].
Qed.

Lemma index_remove tp h F b sz fr pf :
  index tp (flinks h) F -> F b sz -> size_and_flags h !! b = Some (mk sz fr pf) -> sz mod 8 = 0 ->
  exists tp' k, tlsf_remove_free_block_nolock tp h b = Done (tp', with_links h k) /\
    index tp' k (fun x s => F x s /\ x <> b) /\
    raw_area tp' = raw_area tp /\ raw_size tp' = raw_size tp /\ tp_addr tp' = tp_addr tp /\
    (forall x, has_node (flinks h) x -> has_node k x) /\
    (forall x, (forall s, ~ F x s) -> nxt k !! x = nxt (flinks h) !! x /\ prv k !! x = prv (flinks h) !! x).
Proof.
  intros [bk I] HF Hsf Hm. pose proof (ix_size _ _ _ _ I _ _ HF) as Hsz.
  unfold tlsf_remove_free_block_nolock.
  rewrite (ld_Some _ _ _ Hsf). cbn [mbind outcome_bind]. rewrite mapping_of_word by done.
  cbn [mbind outcome_bind]. destruct (bucket_ok sz Hsz) as (fl & sl & Ebk & Hfl & Hsl). rewrite Ebk.
  destruct (ix_bucket _ _ _ _ I fl sl Hfl Hsl) as (hd & Hhd & Hd).
  unfold ld_bucket. rewrite Hhd. cbn [mbind outcome_bind].
  assert (Hin : b ∈ bk (fl, sl)) by (apply (ix_mem _ _ _ _ I); eauto).
  apply list_elem_of_split in Hin as (l1 & l2 & El). rewrite El in Hd.
  destruct (dll_unlink_spec _ _ _ _ _ Hd) as (k & hd' & -> & Hd' & Fr).
  cbn [mbind outcome_bind fst snd].
  assert (Hnd : b ∉ l1 ++ l2).
  { destruct Hd as [_ Hd]. apply NoDup_app in Hd as (_ & Hdis & Hd2). apply NoDup_cons in Hd2 as [Hb2 _].
    rewrite elem_of_app. intros [H1|H2]; [|done]. apply (Hdis b H1), list_elem_of_here. }
  set (bk' := fun f => if decide (f = (fl, sl)) then l1 ++ l2 else bk f).
  assert (Hmem : forall f x, x ∈ bk' f <-> exists s, (F x s /\ x <> b) /\ f = bucket s).
  { intros f x. unfold bk'. case_decide as E.
    - subst f. split.
      + intros Hx. assert (Hxb : x <> b) by (intros ->; done).
        assert (Hx' : x ∈ bk (fl, sl)) by (rewrite El; rewrite elem_of_app in *; rewrite elem_of_cons; tauto).
        apply (ix_mem _ _ _ _ I) in Hx' as (s & Hs & E). eauto.
      + intros (s & (Hs & Hxb) & E).
        assert (Hx' : x ∈ bk (fl, sl)) by (apply (ix_mem _ _ _ _ I); eauto).
        rewrite El in Hx'. rewrite elem_of_app in *. rewrite elem_of_cons in Hx'. tauto.
    - rewrite (ix_mem _ _ _ _ I). split; [|intros (s & (Hs & _) & ->); eauto].
      intros (s & Hs & ->). exists s. split; [|done]. split; [done|]. intros ->.
      rewrite (ix_fun _ _ _ _ I _ _ _ Hs HF) in E. congruence. }
  assert (Hbuckets : forall fl' sl', fl_ok fl' -> sl_ok sl' ->
    exists hd0, <[(fl, sl) := hd']> (blocks tp) !! (fl', sl') = Some hd0 /\ dll k hd0 (bk' (fl', sl'))).
  { intros fl' sl' Hfl' Hsl'. unfold bk'. case_decide as E.
    - injection E as -> ->. exists hd'. by rewrite lookup_insert_eq.
    - destruct (ix_bucket _ _ _ _ I fl' sl' Hfl' Hsl') as (hd2 & Hhd2 & Hdl).
      exists hd2. rewrite lookup_insert_ne by done. split; [done|]. eapply frame_dll; [exact Fr| |done].
      intros x Hx Hx2.
      assert (Hx3 : x ∈ bk (fl, sl)) by (rewrite El; rewrite elem_of_app in *; rewrite elem_of_cons; tauto).
      apply (ix_mem _ _ _ _ I) in Hx as (s1 & Hs1 & E1).
      apply (ix_mem _ _ _ _ I) in Hx3 as (s2 & Hs2 & E2).
      rewrite (ix_fun _ _ _ _ I _ _ _ Hs1 Hs2) in E1. congruence. }
  assert (Hout : forall x, (forall s, ~ F x s) ->
    nxt k !! x = nxt (flinks h) !! x /\ prv k !! x = prv (flinks h) !! x).
  { intros x Hx. apply Fr. intros Hin.
    assert (Hx3 : x ∈ bk (fl, sl)) by (rewrite El; rewrite elem_of_app in *; rewrite elem_of_cons; tauto).
    apply (ix_mem _ _ _ _ I) in Hx3 as (s & Hs & _). by apply (Hx s). }
  destruct (ix_row _ _ _ _ I fl Hfl) as (row & Hrow & Hrb & Hbits & Hflb).
  pose proof (dll_head _ _ _ Hd') as Hhd'.
  assert (Hempty : hd' = NULL <-> l1 ++ l2 = []).
  { destruct (l1 ++ l2) as [|y l]; [done|]. split; [|done].
    destruct (dll_node _ _ _ y Hd' (list_elem_of_here _ _)) as [_ Hy]. congruence. }
  destruct (Z.eqb_spec hd' NULL) as [E|E].
  - unfold ld_row. rewrite (ld_Some _ _ _ Hrow). cbn [mbind outcome_bind].
    eexists _, k. split; [done|]. split; [|split; [done|split; [done|split; [done|split; [apply Fr|exact Hout]]]]].
    apply Hempty in E. exists bk'. constructor; cbn [with_index fl_bitmap sl_bitmap blocks]; try done.
    + set (row' := bit_clear row sl).
      assert (Hrb' : 0 <= row' < 2 ^ TLSF_SL_COUNT) by by apply bit_clear_bound.
      intros fl' Hfl'. destruct (decide (fl' = fl)) as [->|Hne].
      * exists row'. rewrite lookup_insert_eq. split; [done|]. split; [done|]. split.
        -- intros sl' Hsl'. unfold row'. rewrite testbit_bit_clear by apply Hsl. unfold bk'.
           destruct (decide (sl' = sl)) as [->|Hnsl].
           ++ rewrite decide_True, bool_decide_true, andb_false_r by done. by rewrite E.
           ++ rewrite decide_False, bool_decide_false, andb_true_r by congruence. auto.
        -- destruct (Z.eqb_spec row' 0) as [->|Hnz].
           ++ rewrite testbit_bit_clear by apply Hfl. by rewrite bool_decide_true, andb_false_r.
           ++ split; [done|]. intros _. apply Hflb. intros ->. apply Hnz. unfold row', bit_clear.
              by rewrite Z.ldiff_0_l.
      * destruct (ix_row _ _ _ _ I fl' Hfl') as (row2 & Hrow2 & Hrb2 & Hbits2 & Hflb2).
        exists row2. rewrite lookup_insert_ne by done. split; [done|]. split; [done|]. split.
        -- intros sl' Hsl'. unfold bk'. rewrite decide_False by congruence. auto.
        -- destruct (row' =? 0); [|done]. rewrite testbit_bit_clear by apply Hfl.
           by rewrite bool_decide_false, andb_true_r by done.
    + destruct (_ =? 0); [|apply (ix_fl _ _ _ _ I)]. apply bit_clear_bound; [apply (ix_fl _ _ _ _ I)|done].
    + intros x s1 s2 [H1 _] [H2 _]. by eapply (ix_fun _ _ _ _ I).
    + intros x s [Hs _]. by eapply (ix_size _ _ _ _ I).
  - eexists _, k. split; [done|]. split; [|split; [done|split; [done|split; [done|split; [apply Fr|exact Hout]]]]].
    exists bk'. constructor; cbn [with_index fl_bitmap sl_bitmap blocks]; try done; try apply I.
    + intros fl' Hfl'. destruct (ix_row _ _ _ _ I fl' Hfl') as (row2 & Hrow2 & Hrb2 & Hbits2 & Hflb2).
      exists row2. split; [done|]. split; [done|]. split; [|done]. intros sl' Hsl'. unfold bk'. case_decide as E'.
      * injection E' as -> ->. rewrite Hbits2 by done. rewrite El. split; [intros _; tauto|].
        intros _ []%app_eq_nil. done.
      * auto.
    + intros x s1 s2 [H1 _] [H2 _]. by eapply (ix_fun _ _ _ _ I).
    + intros x s [Hs _]. by eapply (ix_size _ _ _ _ I).
Qed.

Lemma from_bit_spec n j : 0 <= n -> 0 <= j < 32 -> Z.testbit (from_bit n) j = (Z.land n 31 <=? j).
Proof.
  intros Hn Hj. unfold from_bit. assert (Hm : 0 <= Z.land n 31 < 32).
  { change 31 with (Z.ones 5). rewrite Z.land_ones by lia. by apply Z.mod_pos_bound. }
  set (m := Z.land n 31) in *. unfold u32. rewrite Z.mod_pow2_bits_low by lia.
  change UINT32_MAX with (Z.ones 32). destruct (Z.leb_spec m j).
  - rewrite Z.shiftl_spec by lia. apply Z.ones_spec_low. lia.
  - rewrite Z.shiftl_spec_low by lia. done.
Qed.

Lemma land_31 n : 0 <= n < 32 -> Z.land n 31 = n.
Proof. intros. change 31 with (Z.ones 5). rewrite Z.land_ones by lia. by apply Z.mod_small. Qed.

(** The masked bitmap has the bits at or above [n]. *)
Lemma masked_bit m n j :
  0 <= m < 2 ^ 30 -> 0 <= n -> Z.testbit (Z.land m (from_bit n)) j = true <->
  Z.testbit m j = true /\ 0 <= j < 30 /\ Z.land n 31 <= j.
Proof.
  intros Hm Hn. rewrite Z.land_spec, andb_true_iff. split.
  - intros [H1 H2]. assert (0 <= j < 30).
    { split; [destruct (Z.lt_ge_cases j 0); [by rewrite Z.testbit_neg_r in H1|lia]|].
      destruct (Z.lt_ge_cases j 30); [done|]. by rewrite (high_bits m 30) in H1. }
    rewrite from_bit_spec in H2 by lia. apply Z.leb_le in H2. done.
  - intros (H1 & H2 & H3). split; [done|]. rewrite from_bit_spec by lia. by apply Z.leb_le.
Qed.

Lemma masked_pos m n : 0 <= m -> Z.land m (from_bit n) <> 0 -> 0 < Z.land m (from_bit n).
Proof.
  intros Hm Hn. assert (0 <= Z.land m (from_bit n)); [|lia]. apply Z.land_nonneg. by left.
Qed.

Lemma find_spec tp k F total_needed :
  index tp k F -> 16 <= total_needed < 2 ^ 30 ->
  exists b, tlsf_find_suitable_block tp total_needed = Done b /\
    ((b = NULL /\ forall x s, F x s -> s < rounded total_needed) \/
     (b <> NULL /\ exists s, F b s /\ rounded total_needed <= s)).
Proof.
  intros [bk I] Ht. unfold tlsf_find_suitable_block. rewrite mapping_search_eq by lia.
  cbn [mbind outcome_bind]. pose proof (mapping_search_eq total_needed ltac:(lia)) as Hf.
  set (fl := Z.log2 total_needed) in *. set (sl := if _ =? 32 then 48 else _) in *.
  assert (Hfl : 4 <= fl < 30) by (pose proof (log2_ge_4 total_needed ltac:(lia)); split; [done|]; apply Z.log2_lt_pow2; lia).
  assert (Hsl0 : 0 <= sl /\ (sl < 16 \/ sl = 48)).
  { subst sl. pose proof (rounded_le total_needed ltac:(lia)) as Hr.
    pose proof (rounded_bounds total_needed ltac:(lia)) as Hrb.
    pose proof (log2_bounds total_needed ltac:(lia)) as Hlb.
    fold fl in Hr, Hlb. rewrite (pow_split fl) in * by lia. assert (0 < 2 ^ (fl - 4)) by (apply Z.pow_pos_nonneg; lia).
    assert (16 <= rounded total_needed / 2 ^ (fl - 4)) by (apply Z.div_le_lower_bound; lia).
    assert (rounded total_needed / 2 ^ (fl - 4) < 33) by (apply Z.div_lt_upper_bound; lia).
    destruct (Z.eqb_spec (rounded total_needed / 2 ^ (fl - 4)) 32); lia. }
  assert (Hsl16 : sl < 16 -> Z.land sl 31 = sl) by (intros; apply land_31; lia).
  assert (Hsl48 : sl = 48 -> Z.land sl 31 = 16) by (intros ->; done).
  assert (Hfit : forall x s, F x s -> at_or_above (bucket s) (fl, sl) <-> rounded total_needed <= s).
  { intros x s Hs. pose proof (ix_size _ _ _ _ I _ _ Hs).
    apply at_or_above_rounded with (f := (fl, sl)); [lia|lia|done]. }
  assert (Hhead : forall fl' sl', fl_ok fl' -> sl_ok sl' -> bk (fl', sl') <> [] -> at_or_above (fl', sl') (fl, sl) ->
    exists b, ld_bucket tp (fl', sl') = Done b /\ b <> NULL /\ exists s, F b s /\ rounded total_needed <= s).
  { intros fl' sl' H1 H2 Hne Hab. destruct (ix_bucket _ _ _ _ I fl' sl' H1 H2) as (hd & Hhd & Hd).
    unfold ld_bucket. rewrite Hhd. exists hd. split; [done|]. pose proof (dll_head _ _ _ Hd) as Eh.
    destruct (bk (fl', sl')) as [|y l] eqn:El; [done|]. subst hd.
    destruct (dll_node _ _ _ y Hd (list_elem_of_here _ _)) as [_ Hy]. split; [done|].
    assert (Hy2 : y ∈ bk (fl', sl')) by (rewrite El; apply list_elem_of_here).
    apply (ix_mem _ _ _ _ I) in Hy2 as (s & Hs & Eb). exists s. split; [done|].
    apply (Hfit y s Hs). by rewrite <- Eb. }
  destruct (ix_row _ _ _ _ I fl ltac:(unfold fl_ok, TLSF_FL_MAX; lia)) as (row & Hrow & Hrb & Hbits & Hflb).
  unfold TLSF_SL_COUNT in Hrb. unfold ld_row. rewrite (ld_Some _ _ _ Hrow). cbn [mbind outcome_bind].
  pose proof (ix_fl _ _ _ _ I) as Hfb. unfold TLSF_FL_MAX in Hfb.
  destruct (Z.eqb_spec (Z.land row (from_bit sl)) 0) as [Esl|Esl]; cbn [negb].
  2: { pose proof (masked_pos row sl ltac:(lia) Esl) as Hp.
       destruct (tlsf_ffs_spec _ Hp) as (Hj0 & Hj & _).
       set (j := tlsf_ffs _) in *. apply masked_bit in Hj as (Hj & Hjr & Hjs); [|lia|lia].
       assert (Hj16 : j < 16).
       { destruct (Z.lt_ge_cases j 16); [done|]. by rewrite (high_bits row 16) in Hj. }
       destruct (Hhead fl j) as (b & -> & Hb); [unfold fl_ok, TLSF_FL_MAX; lia|unfold sl_ok, TLSF_SL_COUNT; lia| | |].
       - by apply Hbits; [unfold sl_ok, TLSF_SL_COUNT; lia|].
       - right. cbn. split; [done|]. destruct Hsl0 as [_ [H16| ->]]; [by rewrite <- (Hsl16 H16)|].
         rewrite Hsl48 in Hjs by done. lia.
       - exists b. split; [done|]. by right. }
  destruct (Z.eqb_spec (Z.land (fl_bitmap tp) (from_bit (fl + 1))) 0) as [Efl|Efl]; cbn [negb].
  - exists NULL. split; [done|]. left. split; [done|]. intros x s Hs.
    destruct (Z.lt_ge_cases s (rounded total_needed)) as [|Hge]; [done|]. exfalso.
    pose proof (ix_size _ _ _ _ I _ _ Hs) as Hss. apply (Hfit x s Hs) in Hge.
    destruct (bucket_ok s Hss) as (fl' & sl' & Eb & Hfl' & Hsl'). rewrite Eb in Hge.
    assert (Hx : bk (fl', sl') <> []).
    { intros E. assert (Hin : x ∈ bk (fl', sl')) by (apply (ix_mem _ _ _ _ I); eauto).
      rewrite E in Hin. by apply not_elem_of_nil in Hin. }
    destruct (ix_row _ _ _ _ I fl' Hfl') as (row' & Hrow' & Hrb' & Hbits' & Hflb').
    assert (Hbit' : Z.testbit row' sl' = true) by by apply Hbits'.
    unfold fl_ok, sl_ok, TLSF_FL_MAX, TLSF_SL_COUNT in *.
    destruct Hge as [Hlt|[E1 E2]]; cbn [fst snd] in *.
    + assert (Z.testbit (Z.land (fl_bitmap tp) (from_bit (fl + 1))) fl' = true).
      { apply masked_bit; [lia|lia|]. split; [|split; [lia|rewrite land_31; lia]].
        apply Hflb'. intros ->. by rewrite Z.testbit_0_l in Hbit'. }
      rewrite Efl, Z.testbit_0_l in *. done.
    + subst fl'. assert (row' = row) as -> by congruence.
      assert (Z.testbit (Z.land row (from_bit sl)) sl' = true).
      { apply masked_bit; [lia|lia|]. split; [done|]. split; [lia|]. rewrite Hsl16; lia. }
      rewrite Esl, Z.testbit_0_l in *. done.
  - pose proof (masked_pos (fl_bitmap tp) (fl + 1) ltac:(lia) Efl) as Hp.
    destruct (tlsf_ffs_spec _ Hp) as (Hj0 & Hj & _).
    set (j := tlsf_ffs _) in *. apply masked_bit in Hj as (Hj & Hjr & Hjs); [|lia|lia].
    rewrite land_31 in Hjs by lia.
    destruct (ix_row _ _ _ _ I j ltac:(unfold fl_ok, TLSF_FL_MAX; lia)) as (row' & Hrow' & Hrb' & Hbits' & Hflb').
    unfold TLSF_SL_COUNT in Hrb'. rewrite (ld_Some _ _ _ Hrow'). cbn [mbind outcome_bind].
    assert (Hrp : 0 < row') by (assert (row' <> 0); [by apply Hflb'|lia]).
    destruct (tlsf_ffs_spec _ Hrp) as (Hi0 & Hi & _). set (i := tlsf_ffs row') in *.
    assert (Hi16 : i < 16).
    { destruct (Z.lt_ge_cases i 16); [done|]. by rewrite (high_bits row' 16) in Hi. }
    destruct (Hhead j i) as (b & -> & Hb); [unfold fl_ok, TLSF_FL_MAX; lia|unfold sl_ok, TLSF_SL_COUNT; lia| | |].
    + by apply Hbits'; [unfold sl_ok, TLSF_SL_COUNT; lia|].
    + left. cbn. lia.
    + exists b. split; [done|]. by right.
Qed.

(** ** Arenas

    [pool_ok tp h L]: the region of [tp] is tiled by [L], and its index files exactly the
    free tiles of [L]. *)
Section Arenas.
Context `{discipline : Discipline}.

Record pool_ok (tp : tlsf_pool) (h : heap) (L : list tile) : Prop := {
  po_chain : chain false h NULL false (raw_area tp) L;
  po_index : index tp (flinks h) (fun x s => (x, s) ∈ frees (raw_area tp) L);
  po_size : extent L + SIZEOF_TLSF_BLOCK = raw_size tp;
  po_limit : raw_size tp < 2 ^ 30;
  po_base : 0 < raw_area tp;
}.

Definition same_pool (tp tp' : tlsf_pool) : Prop :=
  raw_area tp' = raw_area tp /\ raw_size tp' = raw_size tp /\ tp_addr tp' = tp_addr tp.

(** The part of the heap an arena owns. *)
Definition in_region (tp : tlsf_pool) (h h' : heap) : Prop :=
  within (raw_area tp) (raw_area tp + raw_size tp) h h'.

Lemma pool_remove tp h hc F l1 sz l2 fr b pf :
  index tp (flinks h) F ->
  (forall x s, F x s <-> (x, s) ∈ frees (raw_area tp) (l1 ++ (sz, true) :: l2)) ->
  b = raw_area tp + extent l1 -> chain false hc NULL false (raw_area tp) (l1 ++ (sz, fr) :: l2) ->
  size_and_flags h !! b = Some (mk sz true pf) ->
  extent (l1 ++ (sz, fr) :: l2) + SIZEOF_TLSF_BLOCK = raw_size tp ->
  exists tp' k, tlsf_remove_free_block_nolock tp h b = Done (tp', with_links h k) /\
    index tp' k (fun x s => (x, s) ∈ frees (raw_area tp) l1 \/ (x, s) ∈ frees (b + sz) l2) /\
    same_pool tp tp' /\ in_region tp h (with_links h k).
Proof.
  intros HI HF Hb Hc Hsf Hsize.
  pose proof Hc as Hc0. apply chain_app in Hc0 as [Hp1 Hc2]. pose proof (phys_extent _ _ _ _ _ Hp1) as Ht1.
  apply chain_cons in Hc2 as [([Hmin Hm] & _) Hc2]. pose proof (chain_extent _ _ _ _ _ _ Hc2) as Ht2.
  rewrite extent_app in Hsize. cbn [extent] in Hsize. unfold TLSF_MIN_BLOCK_SIZE, SIZEOF_TLSF_BLOCK in *.
  assert (HFr : forall x s, F x s -> raw_area tp <= x < raw_area tp + raw_size tp).
  { intros x s Hx%HF. rewrite elem_of_frees_app, elem_of_frees_cons in Hx.
    destruct (frees_around _ _ _ _ _ _ _ _ _ x s Hc) as [A1 A2]. rewrite extent_app in A2. cbn [extent] in A2.
    destruct Hx as [Hx|[(_ & -> & ->)|Hx]].
    - apply A1 in Hx as (? & ? & [Hmin' _]). unfold TLSF_MIN_BLOCK_SIZE in *. lia.
    - lia.
    - apply A2 in Hx as (? & ? & [Hmin' _]). unfold TLSF_MIN_BLOCK_SIZE in *. lia. }
  destruct (index_remove tp h F b sz true pf HI) as (tp' & k & -> & HI' & R1 & R2 & R3 & Hn & Hout); [|done|done|].
  { apply HF. rewrite elem_of_frees_app, elem_of_frees_cons. subst b. auto. }
  exists tp', k. split; [done|]. split; [|split; [done|]].
  - eapply index_iff; [|exact HI']. intros x s. cbn. rewrite HF, elem_of_frees_app, elem_of_frees_cons.
    destruct (frees_around _ _ _ _ _ _ _ _ _ x s Hc) as [A1 A2]. rewrite <- Hb in *. split.
    + intros [[Hx|[(_ & -> & _)|Hx]] Hxb]; [by left|done|by right].
    + intros [Hx|Hx]; (split; [by auto|]).
      * apply A1 in Hx as (? & ? & [Hmin' _]). unfold TLSF_MIN_BLOCK_SIZE in *. lia.
      * apply A2 in Hx as (? & ? & [Hmin' _]). unfold TLSF_MIN_BLOCK_SIZE in *. lia.
  - apply within_links; [|done]. intros x Hx. apply Hout. intros s Hs. apply Hx. by eapply HFr.
Qed.

Lemma pool_insert tp h l1 sz l2 b :
  index tp (flinks h) (fun x s => (x, s) ∈ frees (raw_area tp) l1 \/ (x, s) ∈ frees (b + sz) l2) ->
  b = raw_area tp + extent l1 -> chain false h NULL false (raw_area tp) (l1 ++ (sz, true) :: l2) ->
  extent (l1 ++ (sz, true) :: l2) + SIZEOF_TLSF_BLOCK = raw_size tp -> raw_size tp < 2 ^ 30 -> 0 < raw_area tp ->
  exists tp' k, tlsf_insert_free_block_nolock tp h b = Done (tp', with_links h k) /\
    pool_ok tp' (with_links h k) (l1 ++ (sz, true) :: l2) /\
    same_pool tp tp' /\ in_region tp h (with_links h k).
Proof.
  intros HI Hb Hc Hsize Hlim Hbase.
  pose proof Hc as Hc0. apply chain_app in Hc0 as [Hp1 Hc2]. pose proof (phys_extent _ _ _ _ _ Hp1) as Ht1.
  apply chain_cons in Hc2 as [([Hmin Hm] & (qb & _ & Hsf) & _ & Hnode & _) Hc2]. pose proof (chain_extent _ _ _ _ _ _ Hc2) as Ht2.
  rewrite <- Hb in *. pose proof Hsize as Hsize0. rewrite extent_app in Hsize0. cbn [extent] in Hsize0.
  unfold TLSF_MIN_BLOCK_SIZE, SIZEOF_TLSF_BLOCK in *.
  pose proof (fun x s => frees_around _ _ _ _ _ _ _ _ _ x s Hc) as Har. rewrite extent_app in Har. cbn [extent] in Har.
  rewrite <- Hb in Har.
  assert (HFr : forall x s, (x, s) ∈ frees (raw_area tp) l1 \/ (x, s) ∈ frees (b + sz) l2 ->
    x <> b /\ raw_area tp <= x < raw_area tp + raw_size tp).
  { intros x s Hx. destruct (Har x s) as [A1 A2].
    destruct Hx as [Hx|Hx]; [apply A1 in Hx as (? & ? & [Hmin' _])|apply A2 in Hx as (? & ? & [Hmin' _])];
      unfold TLSF_MIN_BLOCK_SIZE in *; lia. }
  destruct (index_insert tp h _ b sz true qb HI) as (tp' & k & -> & HI' & R1 & R2 & R3 & Hn & Hout);
    [|unfold NULL; lia|done|done|lia|done|].
  { intros s Hs. by apply HFr in Hs as [? _]. }
  exists tp', k. split; [done|]. split; [|split; [done|]].
  - constructor; rewrite ?R1, ?R2; try done.
    + by apply chain_with_links.
    + cbn [flinks with_links]. eapply index_iff; [|exact HI']. intros x s. cbn.
      rewrite elem_of_frees_app, elem_of_frees_cons, <- Hb. tauto.
  - apply within_links; [|done]. intros x Hx. apply Hout.
    + intros ->. lia.
    + intros s Hs. by apply HFr in Hs as [_ ?].
Qed.

(** An unfiled block: [b], of size [sz], lies between [l1] and [l2]; its own word is about
    to be rewritten, and its successor may still carry the state of an older neighbour. *)
Record hole (tp : tlsf_pool) (h : heap) (l1 : list tile) (b sz : Z) (l2 : list tile) : Prop := {
  ho_prefix : phys h NULL false (raw_area tp) l1;
  ho_at : b = raw_area tp + extent l1;
  ho_size : size_ok sz;
  ho_word : is_Some (size_and_flags h !! b);
  ho_prev : prev_physical h !! b = Some (plast NULL (raw_area tp) l1);
  ho_node : has_node (flinks h) b;
  ho_suffix : exists pv q, chain false h pv q (b + sz) l2;
  ho_next : exists n fr pf, n mod 8 = 0 /\ not_both fr true /\ size_and_flags h !! (b + sz) = Some (mk n fr pf);
  ho_index : index tp (flinks h) (fun x s => (x, s) ∈ frees (raw_area tp) l1 \/ (x, s) ∈ frees (b + sz) l2);
  ho_total : extent l1 + sz + extent l2 + SIZEOF_TLSF_BLOCK = raw_size tp;
}.

Lemma hole_within tp h l1 b sz l2 :
  hole tp h l1 b sz l2 ->
  raw_area tp <= b /\ b + sz < raw_area tp + raw_size tp /\ 0 <= extent l1 /\ 0 <= extent l2 /\ 32 <= sz.
Proof.
  intros [Hp Hb [Hmin _] _ _ _ (pv & q & Hc) _ _ Ht]. pose proof (phys_extent _ _ _ _ _ Hp).
  pose proof (chain_extent _ _ _ _ _ _ Hc). unfold SIZEOF_TLSF_BLOCK, TLSF_MIN_BLOCK_SIZE in *. lia.
Qed.

(** Filling the hole with a block that is not free. *)
Lemma hole_chain tp h l1 b sz l2 lk q n fr pf :
  hole tp h l1 b sz l2 -> bit_of (flast false l1) q -> (forall x, has_node (flinks h) x -> has_node lk x) ->
  size_and_flags h !! (b + sz) = Some (mk n fr pf) -> n mod 8 = 0 ->
  chain false
    (Heap (<[b + sz := mk n fr false]> (<[b := mk sz false q]> (size_and_flags h)))
          (<[b + sz := b]> (prev_physical h)) lk)
    NULL false (raw_area tp) (l1 ++ (sz, false) :: l2).
Proof.
  intros R Hqb Hlk Hnext Hnm. destruct (hole_within _ _ _ _ _ _ R) as (_ & _ & W3 & W4 & W5).
  destruct R as [Hp Hb Hs _ Hpv Hn (pv & q' & Hc) _ _ _].
  eapply (chain_prefix _ h); [|exact Hlk|exact Hp|].
  { intros x Hx. cbn. hl. done. }
  rewrite <- Hb. apply chain_cons. split.
  { split; [done|]. cbn. hl. split_and!; eauto. }
  eapply chain_retag; [exact Hc|exact Hnext|done|by cbn; hl|by cbn; hl| |done|intros _; apply andb_false_r|by destruct l2].
  intros x Hx. cbn. hl. done.
Qed.

(** The free tiles around the hole avoid it. *)
Lemma hole_around tp h l1 b sz l2 x s :
  hole tp h l1 b sz l2 ->
  ((x, s) ∈ frees (raw_area tp) l1 -> raw_area tp <= x /\ x + s <= b /\ size_ok s) /\
  ((x, s) ∈ frees (b + sz) l2 -> b + sz <= x /\ x + s < raw_area tp + raw_size tp /\ size_ok s).
Proof.
  intros R. destruct (ho_next _ _ _ _ _ _ R) as (n & fr & pf & Hnm & _ & Hnext).
  pose proof (hole_chain _ _ _ _ _ _ (flinks h) _ n fr pf R (bit_of_refl _) ltac:(done) Hnext Hnm) as Hc.
  destruct (frees_around _ _ _ _ _ _ _ _ _ x s Hc) as [A1 A2]. rewrite extent_app in A2. cbn [extent] in A2.
  pose proof (ho_at _ _ _ _ _ _ R) as Hb. pose proof (ho_total _ _ _ _ _ _ R) as Ht.
  rewrite <- Hb in *. unfold SIZEOF_TLSF_BLOCK in *. split; intros Hx.
  - apply A1 in Hx as (? & ? & ?). done.
  - apply A2 in Hx as (? & ? & ?). split; [done|]. split; [lia|done].
Qed.

(** Splitting the hole into a live head and a free tail. *)
Lemma split_chain tp h l1 b sz l2 lk tn q n fr pf :
  hole tp h l1 b sz l2 -> bit_of (flast false l1) q -> not_both fr true -> 32 <= tn -> 32 <= sz - tn -> tn mod 8 = 0 ->
  size_and_flags h !! (b + sz) = Some (mk n fr pf) -> n mod 8 = 0 ->
  (forall x, has_node (flinks h) x -> has_node lk x) -> has_node lk (b + tn) ->
  chain false
    (Heap (<[b + sz := mk n fr true]> (<[b + tn := mk (sz - tn) true false]>
             (<[b := mk tn false q]> (size_and_flags h))))
          (<[b + sz := b + tn]> (<[b + tn := b]> (prev_physical h))) lk)
    NULL false (raw_area tp) (l1 ++ (tn, false) :: (sz - tn, true) :: l2).
Proof.
  intros R Hqb Hfr Htn Hrem Hm Hnext Hnm Hnk Hnb. destruct (hole_within _ _ _ _ _ _ R) as (_ & _ & W3 & W4 & W5).
  destruct R as [Hp Hb [Hmin Hsm] _ Hpv Hn (pv & q' & Hc) _ _ _].
  eapply (chain_prefix _ h); [|exact Hnk|exact Hp|].
  { intros x Hx. cbn. hl. done. }
  rewrite <- Hb. cbn [app]. apply chain_cons. split.
  { split; [done|]. cbn. hl. split_and!; eauto. }
  apply chain_cons. split.
  { split; [split; [done|zdiv]|]. cbn. hl. split_and!; [exists false; split; [apply bit_of_refl|done]|done|done|done]. }
  replace (b + tn + (sz - tn)) with (b + sz) by lia.
  eapply chain_retag; [exact Hc|exact Hnext|done|by cbn; hl|by cbn; hl| |done|done|destruct l2; [done|apply bit_of_refl]].
  intros x Hx. cbn. hl. done.
Qed.

Lemma same_pool_trans a b c : same_pool a b -> same_pool b c -> same_pool a c.
Proof. unfold same_pool. intros (-> & -> & ->) (-> & -> & ->). done. Qed.

Lemma same_pool_refl a : same_pool a a.
Proof. done. Qed.

(** Splitting off the tail of a tile (live or already unlinked) and filing it. *)
Definition split_tail (tp : tlsf_pool) (h : heap) (block sz tn word : Z) : outcome (tlsf_pool * heap) :=
  h ← set_sf h block word;
  let split_block := block + tn in
  let h := carve h split_block (Z.lor (sz - tn) BLOCK_STATE_FREE) block in
  let next_phys := split_block + (sz - tn) in
  h ← set_pp h next_phys split_block;
  nsf ← ld (size_and_flags h) next_phys;
  h ← set_sf h next_phys (Z.lor nsf BLOCK_STATE_PREV_FREE);
  tlsf_insert_free_block_nolock tp h split_block.

Lemma split_tail_spec tp h l1 b sz l2 tn q :
  hole tp h l1 b sz l2 -> bit_of (flast false l1) q -> 32 <= tn -> 64 <= sz - tn -> tn mod 8 = 0 ->
  raw_size tp < 2 ^ 30 -> 0 < raw_area tp ->
  exists tp' h', split_tail tp h b sz tn (mk tn false q) = Done (tp', h') /\
    pool_ok tp' h' (l1 ++ (tn, false) :: (sz - tn, true) :: l2) /\ same_pool tp tp' /\ in_region tp h h' /\
    size_and_flags h' !! b = Some (mk tn false q).
Proof.
  intros R Hqb Htn Hrem Hm Hlim Hbase. destruct (hole_within _ _ _ _ _ _ R) as (W1 & W2 & W3 & W4 & W5).
  destruct (ho_next _ _ _ _ _ _ R) as (n & fr & pf & Hnm & Hfr & Htag).
  destruct (ho_suffix _ _ _ _ _ _ R) as (pv & q' & Hc).
  destruct (chain_tag _ _ _ _ _ _ Hc) as (_ & _ & _ & _ & _ & Hptag & _).
  destruct (ho_word _ _ _ _ _ _ R) as [w Hw]. pose proof (ho_total _ _ _ _ _ _ R) as Ht.
  pose proof (ho_size _ _ _ _ _ _ R) as [_ Hsm].
  unfold split_tail. rewrite (set_sf_Some _ _ _ _ Hw). cbn [mbind outcome_bind].
  rewrite (size_or_free (sz - tn)) by zdiv.
  replace (b + tn + (sz - tn)) with (b + sz) by lia.
  set (h1 := Heap _ _ _). set (h2 := carve h1 _ _ _).
  assert (Hp2 : prev_physical h2 !! (b + sz) = Some pv) by (cbn; hl; exact Hptag).
  rewrite (set_pp_Some _ _ _ _ Hp2). cbn [mbind outcome_bind size_and_flags].
  assert (Hs2 : size_and_flags h2 !! (b + sz) = Some (mk n fr pf)) by (cbn; hl; exact Htag).
  rewrite (ld_Some _ _ _ Hs2). cbn [mbind outcome_bind].
  erewrite set_sf_Some by exact Hs2. cbn [mbind outcome_bind prev_physical flinks].
  rewrite mk_or_prev_free by done. set (h3 := Heap _ _ _).
  assert (Hnk : forall x, has_node (flinks h) x -> has_node (flinks h3) x)
    by (intros x Hx; apply carve_node; by left).
  pose proof (split_chain tp h l1 b sz l2 (flinks h3) tn q n fr pf R Hqb Hfr Htn ltac:(lia) Hm Htag Hnm Hnk
                ltac:(apply carve_node; by right)) as Hchain.
  destruct (pool_insert tp h3 (l1 ++ [(tn, false)]) (sz - tn) l2 (b + tn)) as (tp' & k & -> & Hok & Hsame & Hin).
  - replace (b + tn + (sz - tn)) with (b + sz) by lia.
    eapply index_iff with (F := fun x s => (x, s) ∈ frees (raw_area tp) l1 \/ (x, s) ∈ frees (b + sz) l2).
    { intros x s. rewrite elem_of_frees_app, elem_of_frees_cons. cbn [frees].
      pose proof (not_elem_of_nil (A := Z * Z) (x, s)). assert (false <> true) by done. tauto. }
    eapply index_frame; [|exact (ho_index _ _ _ _ _ _ R)]. intros x s Hx. cbn.
    assert (x <> b + tn).
    { destruct (hole_around _ _ _ _ _ _ x s R) as [A1 A2].
      destruct Hx as [Hx|Hx]; [apply A1 in Hx as (? & ? & [Hmin' _])|apply A2 in Hx as (? & ? & _)];
        unfold TLSF_MIN_BLOCK_SIZE in *; lia. }
    rewrite !lookup_insert_ne by done. done.
  - rewrite extent_app. cbn [extent]. pose proof (ho_at _ _ _ _ _ _ R). lia.
  - rewrite <- app_assoc. exact Hchain.
  - rewrite <- app_assoc, extent_app. cbn [app extent]. unfold SIZEOF_TLSF_BLOCK in *. lia.
  - done.
  - done.
  - exists tp', (with_links h3 k). split; [done|]. rewrite <- app_assoc in Hok. split; [exact Hok|].
    split; [done|]. split; [|cbn; by hl]. eapply within_trans; [|exact Hin].
    split; [|exact Hnk]. intros x Hx. cbn. rewrite !lookup_insert_ne by lia. done.
Qed.

(** Handing the block in the hole out whole, its successor told so. *)
Definition whole_block (h : heap) (b sz : Z) (q : bool) (n : Z) (fr : bool) : heap :=
  Heap (<[b + sz := mk n fr false]> (<[b := mk sz false q]> (size_and_flags h)))
       (<[b + sz := b]> (prev_physical h)) (flinks h).

Lemma whole_block_spec tp h l1 b sz l2 q n fr pf :
  hole tp h l1 b sz l2 -> bit_of (flast false l1) q -> size_and_flags h !! (b + sz) = Some (mk n fr pf) -> n mod 8 = 0 ->
  raw_size tp < 2 ^ 30 -> 0 < raw_area tp ->
  pool_ok tp (whole_block h b sz q n fr) (l1 ++ (sz, false) :: l2) /\
  in_region tp h (whole_block h b sz q n fr).
Proof.
  intros R Hqb Htag Hnm Hlim Hbase. destruct (hole_within _ _ _ _ _ _ R) as (W1 & W2 & W3 & W4 & W5).
  pose proof (ho_total _ _ _ _ _ _ R) as Ht. pose proof (ho_at _ _ _ _ _ _ R) as Hb. split.
  - constructor; [by eapply hole_chain| | |done|done].
    + eapply index_iff; [|exact (ho_index _ _ _ _ _ _ R)]. intros x s. cbn.
      rewrite elem_of_frees_app, elem_of_frees_cons, <- Hb. assert (false <> true) by done. tauto.
    + rewrite extent_app. cbn [extent]. unfold SIZEOF_TLSF_BLOCK in *. lia.
  - split; [|done]. intros x Hx. cbn. rewrite !lookup_insert_ne by lia. done.
Qed.

Lemma tlsf_take_spec tp h l1 sz l2 b tn :
  pool_ok tp h (l1 ++ (sz, true) :: l2) -> b = raw_area tp + extent l1 ->
  32 <= tn <= sz -> tn mod 8 = 0 ->
  exists tp' h', tlsf_take tp h b tn = Done (tp', h') /\
    pool_ok tp' h' (l1 ++ split_tiles sz tn ++ l2) /\ same_pool tp tp' /\ in_region tp h h'.
Proof.
  intros [Hc HI Hsize Hlim Hbase] Hb Htn Hm. unfold tlsf_take.
  pose proof Hc as Hc0. apply chain_app in Hc0 as [Hp1 Hc2]. pose proof (phys_extent _ _ _ _ _ Hp1) as Ht1.
  apply chain_cons in Hc2 as [([Hmin Hsm] & (qb & Hqb & Hsf) & Hpp & Hnode & Hco) Hc2]. rewrite <- Hb in *.
  pose proof (chain_extent _ _ _ _ _ _ Hc2) as Ht2.
  destruct (chain_tag _ _ _ _ _ _ Hc2) as (n0 & fr0 & b0 & Hm0 & Htag0 & Hpt0 & Hfr0 & _).
  pose proof Hsize as Hsize'. rewrite extent_app in Hsize'. cbn [extent] in Hsize'. unfold SIZEOF_TLSF_BLOCK in *.
  destruct (pool_remove tp h h _ l1 sz l2 true b qb HI ltac:(done) Hb Hc Hsf Hsize)
    as (tp1 & k & -> & HI1 & (R1 & R2 & R3) & Hin1). cbn [mbind outcome_bind].
  assert (Hn1 : forall x, has_node (flinks h) x -> has_node k x) by apply Hin1.
  assert (R : hole tp1 (with_links h k) l1 b sz l2).
  { constructor; rewrite ?R1, ?R2; cbn [size_and_flags prev_physical flinks with_links]; eauto; try done.
    - by apply (phys_frame h).
    - exists b, true. by apply chain_with_links.
    - exists n0, fr0, b0. done.
    - unfold SIZEOF_TLSF_BLOCK. lia. }
  cbn [size_and_flags with_links]. rewrite (ld_Some _ _ _ Hsf). cbn [mbind outcome_bind].
  rewrite block_size_mk by done. rewrite (u64_small (sz - tn)) by lia. unfold split_tiles, SIZEOF_TLSF_BLOCK.
  rewrite mk_or_flag, size_or_prev, mk_clear_free by done.
  destruct (Z.leb_spec (TLSF_MIN_BLOCK_SIZE + 32) (sz - tn)) as [Hge|Hlt].
  - destruct (split_tail_spec tp1 (with_links h k) l1 b sz l2 tn qb R Hqb) as (tp2 & h2 & E & Hok & Hs & Hin & _);
      [lia|unfold TLSF_MIN_BLOCK_SIZE in *; lia|done|lia|lia|].
    exists tp2, h2. split; [exact E|]. split; [exact Hok|]. destruct Hs as (S1 & S2 & S3).
    split; [repeat split; congruence|]. unfold in_region in *. rewrite R1, R2 in Hin.
    eapply within_trans; [exact Hin1|exact Hin].
  - destruct (whole_block_spec tp1 (with_links h k) l1 b sz l2 qb n0 fr0 b0 R Hqb Htag0 Hm0) as [Hok Hin]; [lia|lia|].
    erewrite set_sf_Some by exact Hsf. cbn [mbind outcome_bind size_and_flags].
    unfold TLSF_MIN_BLOCK_SIZE in *. assert (Hne : b + sz <> b) by lia.
    rewrite (ld_Some _ (b + sz) (mk n0 fr0 b0)) by (by hl). cbn [mbind outcome_bind].
    erewrite set_sf_Some by (cbn; by hl). cbn [mbind outcome_bind].
    rewrite mk_clear_prev_free by done. eexists tp1, _. split; [done|].
    assert (Eq : whole_block (with_links h k) b sz qb n0 fr0 =
      Heap (<[b + sz := mk n0 fr0 false]> (<[b := mk sz false qb]> (size_and_flags h)))
        (prev_physical h) k).
    { unfold whole_block. cbn. f_equal. by apply insert_id. }
    rewrite Eq in Hok, Hin. split; [exact Hok|]. split; [done|].
    unfold in_region in *. rewrite R1, R2 in Hin. eapply within_trans; [exact Hin1|exact Hin].
Qed.

(** ** Coalescing *)

(** A release in progress: the block at [b], free and of size [sz], lies between [l1]
    and [l2] but is not filed, and its successor does not know its state yet. *)
Record releasing (tp : tlsf_pool) (h : heap) (l1 : list tile) (b sz : Z) (q : bool) (l2 : list tile) : Prop := {
  re_prefix : phys h NULL false (raw_area tp) l1;
  re_at : b = raw_area tp + extent l1;
  re_size : size_ok sz;
  re_bit : bit_of (flast false l1) q;
  re_word : size_and_flags h !! b = Some (mk sz true q);
  re_prev : prev_physical h !! b = Some (plast NULL (raw_area tp) l1);
  re_node : has_node (flinks h) b;
  re_suffix : exists r, chain false h b r (b + sz) l2;
  re_next : exists n fr pf, n mod 8 = 0 /\ not_both fr true /\ size_and_flags h !! (b + sz) = Some (mk n fr pf);
  re_index : index tp (flinks h) (fun x s => (x, s) ∈ frees (raw_area tp) l1 \/ (x, s) ∈ frees (b + sz) l2);
  re_total : extent l1 + sz + extent l2 + SIZEOF_TLSF_BLOCK = raw_size tp;
}.

(** A chain in which the block at [b] is recorded live, for the geometry. *)
Lemma releasing_chain tp h l1 b sz q l2 :
  releasing tp h l1 b sz q l2 ->
  exists hc, chain false hc NULL false (raw_area tp) (l1 ++ (sz, false) :: l2).
Proof.
  intros [Hp Hb Hs Hqb Hw Hpv Hn (r & Hc) (n & fr & pf & Hnm & _ & Hnext) _ _].
  exists (Heap (<[b + sz := mk n fr (match l2 with [] => pf | _ => false end)]>
            (<[b := mk sz false q]> (size_and_flags h)))
            (prev_physical h) (flinks h)).
  pose proof (phys_extent _ _ _ _ _ Hp). destruct Hs as [Hmin Hm]. unfold TLSF_MIN_BLOCK_SIZE in Hmin.
  eapply (chain_prefix _ h); [|done|exact Hp|].
  { intros x Hx. cbn. hl. done. }
  rewrite <- Hb. apply chain_cons. split.
  { split; [done|]. cbn. hl. split_and!; eauto. }
  pose proof (chain_extent _ _ _ _ _ _ Hc).
  destruct (chain_tag _ _ _ _ _ _ Hc) as (n' & fr' & b' & _ & _ & Hpp & _).
  eapply chain_retag; [exact Hc|exact Hnext|done|by cbn; hl|cbn; exact Hpp| |done|done|destruct l2; [done|apply bit_of_refl]].
  intros x Hx. cbn. hl. done.
Qed.

Lemma releasing_within tp h l1 b sz q l2 :
  releasing tp h l1 b sz q l2 ->
  raw_area tp <= b /\ b + sz < raw_area tp + raw_size tp /\ 0 <= extent l1 /\ 0 <= extent l2 /\ 32 <= sz.
Proof.
  intros [Hp Hb [Hmin _] _ _ _ _ (r & Hc) _ _ Ht]. pose proof (phys_extent _ _ _ _ _ Hp).
  pose proof (chain_extent _ _ _ _ _ _ Hc). unfold SIZEOF_TLSF_BLOCK, TLSF_MIN_BLOCK_SIZE in *. lia.
Qed.

Lemma free_merge_next_spec tp h l1 sz l2 b q :
  pool_ok tp h (l1 ++ (sz, false) :: l2) -> b = raw_area tp + extent l1 ->
  bit_of (flast false l1) q -> size_and_flags h !! b = Some (mk sz false q) ->
  let h1 := Heap (<[b := mk sz true q]> (size_and_flags h)) (prev_physical h) (flinks h) in
  let '(sz', l2') := absorb_next sz l2 in
  exists tp' h', free_merge_next tp h1 b sz = Done (tp', h', sz') /\
    releasing tp' h' l1 b sz' q l2' /\ same_pool tp tp' /\ in_region tp h h'.
Proof.
  intros [Hc HI Hsize Hlim Hbase] Hb Hqb Hsf h1.
  pose proof Hc as Hc0. apply chain_app in Hc0 as [Hp1 Hc2]. pose proof (phys_extent _ _ _ _ _ Hp1) as Ht1.
  apply chain_cons in Hc2 as [([Hmin Hsm] & _ & Hpp & Hnode & _) Hc2]. rewrite <- Hb in *.
  pose proof (chain_extent _ _ _ _ _ _ Hc2) as Ht2.
  pose proof Hsize as Hsize'. rewrite extent_app in Hsize'. cbn [extent] in Hsize'.
  unfold SIZEOF_TLSF_BLOCK, TLSF_MIN_BLOCK_SIZE in *.
  assert (Hin1 : in_region tp h h1).
  { apply within_sf. lia. }
  destruct (chain_tag _ _ _ _ _ _ Hc2) as (n & fr & pf & Hnm & Htag & Hptag & _ & Hl2).
  unfold free_merge_next. rewrite (ld_Some _ (b + sz) (mk n fr pf)) by (cbn; by hl). cbn [mbind outcome_bind].
  rewrite is_free_mk by done. destruct fr.
  - destruct l2 as [|[n' fr'] t]; [by destruct Hl2|]. destruct Hl2 as (-> & <- & _). cbn [absorb_next].
    rewrite block_size_mk by done.
    apply chain_cons in Hc2 as [([Hnmin _] & _ & _ & Hnn & _) Hc3]. pose proof (chain_extent _ _ _ _ _ _ Hc3) as Ht3.
    unfold TLSF_MIN_BLOCK_SIZE in Hnmin. cbn [extent] in *.
    destruct (pool_remove tp h1 h _ (l1 ++ [(sz, false)]) n' t true (b + sz) pf HI) as
      (tp1 & k & -> & HI1 & Hs1 & Hin2).
    { intros x s. by rewrite <- app_assoc. }
    { rewrite extent_app. cbn. lia. }
    { by rewrite <- app_assoc. }
    { cbn. by hl. }
    { rewrite <- app_assoc, extent_app. cbn [app extent]. unfold SIZEOF_TLSF_BLOCK. lia. }
    cbn [mbind outcome_bind size_and_flags with_links h1].
    rewrite (ld_Some _ b (mk sz true q)) by (by hl). cbn [mbind outcome_bind].
    rewrite mk_or_flag by done. rewrite size_or_prev by zdiv. rewrite mk_or_free by zdiv.
    erewrite set_sf_Some by (cbn; by hl). cbn [mbind outcome_bind].
    destruct (chain_tag _ _ _ _ _ _ Hc3) as (m & fr & pf3 & Hmm & Htag3 & Hptag3 & Hfr3 & Hl3).
    erewrite set_pp_Some by (cbn; replace (b + (sz + n')) with (b + sz + n') by lia; exact Hptag3).
    cbn [mbind outcome_bind]. eexists tp1, _. split; [done|]. destruct Hs1 as (R1 & R2 & R3).
    split; [|split; [done|]].
    + constructor; rewrite ?R1, ?R2; cbn [size_and_flags prev_physical flinks].
      * eapply (phys_frame h); [|apply Hin2|exact Hp1]. intros x Hx. cbn. hl. done.
      * done.
      * split; [unfold TLSF_MIN_BLOCK_SIZE; lia|zdiv].
      * done.
      * by hl.
      * by hl.
      * by apply Hin2.
      * exists true. replace (b + (sz + n')) with (b + sz + n') by lia.
        eapply chain_retag; [exact Hc3|exact Htag3|done|cbn; hl; exact Htag3|by cbn; hl| |apply Hin2|done|destruct t as [|[? ?]]; [done|by destruct Hl3 as (_ & _ & ?)]].
        intros x Hx. cbn. hl. done.
      * exists m, fr, pf3. split; [done|]. split; [done|]. replace (b + (sz + n')) with (b + sz + n') by lia. cbn. hl. exact Htag3.
      * eapply index_iff; [|exact HI1]. intros x s. cbn. rewrite elem_of_frees_app. cbn [frees].
        replace (b + (sz + n')) with (b + sz + n') by lia.
        split; [intros [[H|H]|H]; [by left|by apply not_elem_of_nil in H|by right]|intros [H|H]; auto].
      * unfold SIZEOF_TLSF_BLOCK. lia.
    + eapply within_trans; [exact Hin1|]. eapply within_trans; [exact Hin2|].
      split; [|done]. intros x Hx. cbn. rewrite !lookup_insert_ne by lia. done.
  - assert (absorb_next sz l2 = (sz, l2)) as ->.
    { destruct l2 as [|[n' fr'] t]; [done|]. by destruct Hl2 as (_ & <- & _). }
    exists tp, h1. split; [done|]. split; [|split; [done|exact Hin1]].
    constructor; cbn [size_and_flags prev_physical flinks h1]; try done.
    + eapply (phys_frame h); [|done|exact Hp1]. intros x Hx. cbn. hl. done.
    + by hl.
    + exists false. eapply (chain_frame _ h); [|done|exact Hc2]. intros x Hx. cbn. hl. done.
    + exists n, false, pf. split; [done|]. split; [done|]. hl. exact Htag.
    + eapply index_iff; [|exact HI]. intros x s. cbn. rewrite elem_of_frees_app, elem_of_frees_cons, <- Hb.
      split; [|tauto]. intros [H|[(H & _)|H]]; [by left|done|by right].
    + unfold SIZEOF_TLSF_BLOCK. lia.
Qed.

Lemma free_merge_prev_spec tp h l1 b sz q l2 :
  releasing tp h l1 b sz q l2 -> 0 < raw_area tp ->
  exists tp' h' l1' b' sz' q', free_merge_prev tp h b sz = Done (tp', h', b', sz') /\
    releasing tp' h' l1' b' sz' q' l2 /\ not_both true (flast false l1') /\
    l1' ++ (sz', true) :: l2 = merge_if q l1 sz l2 /\ same_pool tp tp' /\ in_region tp h h'.
Proof.
  intros R Hbase. pose proof (releasing_chain _ _ _ _ _ _ _ R) as (hc & Hchc).
  destruct (releasing_within _ _ _ _ _ _ _ R) as (W1 & W2 & W3 & W4 & W5).
  destruct R as [Hp Hb Hs Hqb Hw Hpv Hn (r & Hc) (n & fn & pf & Hnm & Hfn & Hnext) HI Ht].
  pose proof Hs as [_ Hsm].
  unfold free_merge_prev. rewrite (ld_Some _ _ _ Hw). cbn [mbind outcome_bind]. rewrite is_prev_free_mk by done.
  destruct q; cbn [merge_if].
  2: { exists tp, h, l1, b, sz, false. split; [done|]. split; [by constructor; eauto 10|].
       split; [intros Ht'; by rewrite (bit_of_tight _ _ Hqb Ht')|]. split; [done|]. split; [done|apply within_refl]. }
  pose proof (bit_of_imp _ _ Hqb eq_refl) as Hfl.
  destruct l1 as [|t0 l0] using rev_ind; [done|]. clear IHl0. destruct t0 as [p fr].
  rewrite flast_snoc in Hfl. subst fr. rename l0 into l1.
  rewrite plast_snoc in Hpv. rewrite extent_app in *. cbn [extent] in *.
  set (pr := raw_area tp + extent l1) in *.
  apply phys_app in Hp as [Hp1 Hp2]. fold pr in Hp2. cbn [phys] in Hp2.
  destruct Hp2 as ([Hpmin Hpm] & (qp & Hqp & Hps) & Hpp & Hpn & Hpf & _).
  pose proof (phys_extent _ _ _ _ _ Hp1) as Ht1. unfold TLSF_MIN_BLOCK_SIZE, SIZEOF_TLSF_BLOCK in *.
  rewrite (ld_Some _ _ _ Hpv). cbn [mbind outcome_bind].
  destruct (Z.eqb_spec pr NULL); [unfold NULL in *; lia|].
  rewrite (ld_Some _ _ _ Hps). cbn [mbind outcome_bind]. rewrite is_free_mk, block_size_mk by done.
  rewrite <- app_assoc in Hchc. cbn [app] in Hchc.
  destruct (pool_remove tp h hc _ l1 p ((sz, false) :: l2) true pr qp HI) as
    (tp1 & k & -> & HI1 & (R1 & R2 & R3) & Hin1).
  { intros x s. rewrite !elem_of_frees_app, !elem_of_frees_cons. cbn [frees].
    replace (raw_area tp + extent l1 + p + sz) with (b + sz) by lia.
    pose proof (not_elem_of_nil (A := Z * Z) (x, s)). assert (false <> true) by done. tauto. }
  { done. }
  { exact Hchc. }
  { exact Hps. }
  { rewrite extent_app. cbn [extent]. unfold SIZEOF_TLSF_BLOCK. lia. }
  cbn [mbind outcome_bind]. erewrite set_sf_Some by exact Hps. cbn [mbind outcome_bind].
  rewrite mk_or_flag by done. rewrite size_or_prev by zdiv. rewrite mk_or_free by zdiv.
  destruct (chain_tag _ _ _ _ _ _ Hc) as (n' & fr & b' & Hnm' & Htag & Hptag & Hnb & Hl2).
  rewrite Hnext in Htag. injection Htag as (-> & -> & ->)%mk_inj; [|done..].
  replace (pr + p + sz) with (b + sz) by lia.
  erewrite set_pp_Some by (cbn; exact Hptag). cbn [mbind outcome_bind].
  eexists tp1, _, l1, pr, (p + sz), qp. split; [done|]. split; [|split; [done|split; [|split; [done|]]]].
  - replace (b + sz) with (pr + (p + sz)) in * by lia.
    constructor; rewrite ?R1, ?R2; cbn [size_and_flags prev_physical flinks with_links].
    + eapply (phys_frame h); [|apply Hin1|exact Hp1]. intros x Hx. cbn. hl. done.
    + done.
    + split; [unfold TLSF_MIN_BLOCK_SIZE; lia|zdiv].
    + done.
    + by hl.
    + cbn. hl. exact Hpp.
    + by apply Hin1.
    + exists r. eapply chain_retag; [exact Hc|exact Hnext|done|cbn; hl; exact Hnext|by cbn; hl| |apply Hin1|exact Hnb|].
      * intros x Hx. cbn. hl. done.
      * destruct l2 as [|[s2 f2] l2]; [done|]. by destruct Hl2 as (_ & _ & ?).
    + exists n', fr, b'. split; [done|]. split; [done|]. cbn. hl. exact Hnext.
    + eapply index_iff; [|exact HI1]. intros x s. cbn. by replace (pr + p + sz) with (pr + (p + sz)) by lia.
    + unfold SIZEOF_TLSF_BLOCK. lia.
  - unfold merge_prev. by rewrite last_snoc, removelast_last.
  - eapply within_trans; [exact Hin1|]. split; [|done]. intros x Hx. cbn. rewrite !lookup_insert_ne by lia. done.
Qed.

Lemma tlsf_free_block_spec tp h l1 sz l2 b :
  pool_ok tp h (l1 ++ (sz, false) :: l2) -> b = raw_area tp + extent l1 ->
  exists q tp' h', bit_of (flast false l1) q /\ tlsf_free_block tp h b = Done (tp', h') /\
    pool_ok tp' h' (coalesce_if q l1 sz l2) /\ same_pool tp tp' /\ in_region tp h h'.
Proof.
  intros Hok Hb. pose proof Hok as [Hc HI Hsize Hlim Hbase].
  apply chain_app in Hc as [Hp1 Hc2]. rewrite <- Hb in *.
  apply chain_cons in Hc2 as [([Hmin Hsm] & (q & Hqb & Hsf) & Hpp & Hnode & _) Hc2].
  unfold tlsf_free_block. rewrite (ld_Some _ _ _ Hsf). cbn [mbind outcome_bind].
  rewrite block_size_mk by done. rewrite (set_sf_Some _ _ _ _ Hsf). cbn [mbind outcome_bind].
  rewrite mk_or_free by done.
  pose proof (free_merge_next_spec tp h l1 sz l2 b q Hok Hb Hqb Hsf) as Hnext. cbv zeta in Hnext.
  exists q. unfold coalesce_if. destruct (absorb_next sz l2) as [sz1 l2'] eqn:Eabs.
  destruct Hnext as (tp1 & h1 & -> & R1 & S1 & In1). cbn [mbind outcome_bind].
  destruct S1 as (S1a & S1b & S1c).
  destruct (free_merge_prev_spec tp1 h1 l1 b sz1 q l2' R1) as
    (tp2 & h2 & l1' & b' & sz2 & q2 & -> & R2 & Hfl & Eq & (S2a & S2b & S2c) & In2); [lia|].
  cbn [mbind outcome_bind]. rewrite <- Eq.
  destruct (releasing_within _ _ _ _ _ _ _ R2) as (W1 & W2 & W3 & W4 & W5).
  destruct R2 as [Hp Hb' Hs Hqb2 Hw Hpv Hn (r & Hc) (n & fr & pf & Hnm & Hnb & Htag) HI2 Ht].
  rewrite (ld_Some _ _ _ Htag). cbn [mbind outcome_bind].
  rewrite (set_sf_Some _ _ _ _ Htag). cbn [mbind outcome_bind]. rewrite mk_or_prev_free by done.
  set (h3 := Heap _ _ _). unfold in_region in *. rewrite S1a, S1b in In2.
  assert (In3 : within (raw_area tp) (raw_area tp + raw_size tp) h2 h3) by (apply within_sf; lia).
  assert (Hc3 : chain false h3 NULL false (raw_area tp2) (l1' ++ (sz2, true) :: l2')).
  { eapply (chain_prefix _ h2); [|done|exact Hp|].
    { intros x Hx. cbn. hl. done. }
    rewrite <- Hb'. apply chain_cons. split.
    { split; [done|]. cbn. hl. split_and!; eauto. }
    destruct (chain_tag _ _ _ _ _ _ Hc) as (n' & fr' & b0 & _ & _ & Hptag & _).
    pose proof (chain_extent _ _ _ _ _ _ Hc).
    eapply chain_retag; [exact Hc|exact Htag|done|cbn; by hl|exact Hptag| |done|done|destruct l2'; [done|apply bit_of_refl]].
    intros x Hx. cbn. hl. done. }
  destruct (pool_insert tp2 h3 l1' sz2 l2' b') as (tp3 & k & -> & Hok3 & (S3a & S3b & S3c) & In4); try done.
  { rewrite extent_app. cbn [extent]. lia. }
  { rewrite S2b, S1b. done. }
  { rewrite S2a, S1a. done. }
  exists tp3, (with_links h3 k). split; [done|]. split; [done|]. split; [done|].
  split; [unfold same_pool; repeat split; congruence|].
  unfold in_region in In4. rewrite S2a, S1a, S2b, S1b in In4.
  eapply within_trans; [exact In1|]. eapply within_trans; [exact In2|]. by eapply within_trans.
Qed.

(** An arena's invariant survives whatever happens outside its region. *)
Lemma pool_ok_frame tp h h' L :
  (forall x, raw_area tp <= x < raw_area tp + raw_size tp ->
     size_and_flags h' !! x = size_and_flags h !! x /\ prev_physical h' !! x = prev_physical h !! x /\
     nxt (flinks h') !! x = nxt (flinks h) !! x /\ prv (flinks h') !! x = prv (flinks h) !! x) ->
  (forall x, has_node (flinks h) x -> has_node (flinks h') x) ->
  pool_ok tp h L -> pool_ok tp h' L.
Proof.
  intros Hf Hn [Hc HI Hsize Hlim Hbase]. pose proof (chain_extent _ _ _ _ _ _ Hc).
  unfold SIZEOF_TLSF_BLOCK in *.
  constructor; try done.
  - eapply (chain_frame _ h); [|done|done]. intros x Hx. destruct (Hf x) as (? & ? & _); [lia|done].
  - eapply index_frame; [|exact HI]. intros x s Hx. destruct Hc as [Hp _].
    destruct (frees_range _ _ _ _ _ _ _ Hp Hx) as (? & ? & [? _]). unfold TLSF_MIN_BLOCK_SIZE in *.
    apply Hf. lia.
Qed.

(** ** Growing in place *)

(** The part of [tlsf_try_inplace_expand] under the arena lock. *)
Definition tlsf_expand_block (tp : tlsf_pool) (h : heap) (block total_needed : Z)
    : outcome (bool * tlsf_pool * heap) :=
  bsf ← ld (size_and_flags h) block;
  let current_block_size := block_size bsf in
  let next_phys := block + current_block_size in
  nsf ← ld (size_and_flags h) next_phys;
  if negb (is_free nsf) then Done (false, tp, h)
  else
    let next_size := block_size nsf in
    if u64 (current_block_size + next_size) <? total_needed then Done (false, tp, h)
    else
      r ← tlsf_remove_free_block_nolock tp h next_phys;
      let '(tp, h) := r in
      let combined_size := u64 (current_block_size + next_size) in
      let remaining := u64 (combined_size - total_needed) in
      bsf ← ld (size_and_flags h) block;
      if TLSF_MIN_BLOCK_SIZE + SIZEOF_TLSF_BLOCK <=? remaining then
        r ← split_tail tp h block combined_size total_needed
              (Z.lor total_needed (Z.land bsf BLOCK_STATE_PREV_FREE));
        let '(tp, h) := r in Done (true, tp, h)
      else
        h ← set_sf h block (Z.lor combined_size (Z.land bsf BLOCK_STATE_PREV_FREE));
        let far_phys := block + combined_size in
        h ← set_pp h far_phys block;
        fsf ← ld (size_and_flags h) far_phys;
        h ← set_sf h far_phys (Z.land fsf (Z.lnot BLOCK_STATE_PREV_FREE));
        Done (true, tp, h).

Definition expanded (l1 : list tile) (sz tn : Z) (l2 : list tile) : option (list tile) :=
  match l2 with
  | (n, true) :: l2 => if tn <=? sz + n then Some (l1 ++ split_tiles (sz + n) tn ++ l2) else None
  | _ => None
  end.

Lemma tlsf_expand_block_spec tp h l1 sz l2 b tn :
  pool_ok tp h (l1 ++ (sz, false) :: l2) -> b = raw_area tp + extent l1 -> 32 <= tn -> tn mod 8 = 0 ->
  match expanded l1 sz tn l2 with
  | None => tlsf_expand_block tp h b tn = Done (false, tp, h)
  | Some L' => exists tp' h', tlsf_expand_block tp h b tn = Done (true, tp', h') /\
      pool_ok tp' h' L' /\ same_pool tp tp' /\ in_region tp h h'
  end.
Proof.
  intros [Hc HI Hsize Hlim Hbase] Hb Htn Hm.
  pose proof Hc as Hc0. apply chain_app in Hc0 as [Hp1 Hc2]. pose proof (phys_extent _ _ _ _ _ Hp1) as Ht1.
  apply chain_cons in Hc2 as [([Hmin Hsm] & (qb & Hqb & Hsf) & Hpp & Hnode & _) Hc2]. rewrite <- Hb in *.
  pose proof (chain_extent _ _ _ _ _ _ Hc2) as Ht2.
  pose proof Hsize as Hsize'. rewrite extent_app in Hsize'. cbn [extent] in Hsize'.
  unfold SIZEOF_TLSF_BLOCK, TLSF_MIN_BLOCK_SIZE in *.
  destruct (chain_tag _ _ _ _ _ _ Hc2) as (n & fr & pf & Hnm & Htag & Hptag & _ & Hl2).
  unfold tlsf_expand_block. rewrite (ld_Some _ _ _ Hsf). cbn [mbind outcome_bind].
  rewrite block_size_mk by done. rewrite (ld_Some _ _ _ Htag). cbn [mbind outcome_bind].
  rewrite is_free_mk, block_size_mk by done. destruct fr; cbn [negb].
  2: { destruct l2 as [|[n' fr'] t]; cbn [expanded]; [done|]. by destruct Hl2 as (_ & <- & _). }
  destruct l2 as [|[n' fr'] t]; [by destruct Hl2|]. destruct Hl2 as (-> & <- & _). cbn [expanded extent] in *.
  apply chain_cons in Hc2 as [([Hnmin _] & _ & _ & Hnn & _) Hc3]. pose proof (chain_extent _ _ _ _ _ _ Hc3) as Ht3.
  unfold TLSF_MIN_BLOCK_SIZE in Hnmin. rewrite (u64_small (sz + n')) by lia.
  destruct (Z.ltb_spec (sz + n') tn); [by rewrite (proj2 (Z.leb_gt tn (sz + n')))|].
  rewrite (proj2 (Z.leb_le tn (sz + n'))) by lia.
  destruct (pool_remove tp h h _ (l1 ++ [(sz, false)]) n' t true (b + sz) pf HI) as
    (tp1 & k & -> & HI1 & (R1 & R2 & R3) & Hin1).
  { intros x s. by rewrite <- app_assoc. }
  { rewrite extent_app. cbn. lia. }
  { by rewrite <- app_assoc. }
  { done. }
  { rewrite <- app_assoc, extent_app. cbn [app extent]. unfold SIZEOF_TLSF_BLOCK. lia. }
  cbn [mbind outcome_bind size_and_flags with_links]. rewrite (ld_Some _ _ _ Hsf). cbn [mbind outcome_bind].
  rewrite (u64_small (sz + n' - tn)) by lia.
  destruct (chain_tag _ _ _ _ _ _ Hc3) as (m & fr & pf3 & Hmm & Htag3 & Hptag3 & Hfr3 & _).
  assert (Hn1 : forall x, has_node (flinks h) x -> has_node k x) by apply Hin1.
  assert (R : hole tp1 (with_links h k) l1 b (sz + n') t).
  { replace (b + sz + n') with (b + (sz + n')) in * by lia.
    constructor; rewrite ?R1, ?R2; cbn [size_and_flags prev_physical flinks with_links]; eauto; try done.
    - by apply (phys_frame h).
    - split; [unfold TLSF_MIN_BLOCK_SIZE; lia|zdiv].
    - exists (b + sz), true. by apply chain_with_links.
    - exists m, fr, pf3. done.
    - eapply index_iff; [|exact HI1]. intros x s. cbn. rewrite elem_of_frees_app. cbn [frees].
      pose proof (not_elem_of_nil (A := Z * Z) (x, s)). tauto.
    - unfold SIZEOF_TLSF_BLOCK. lia. }
  rewrite mk_or_flag, (size_or_prev tn), (size_or_prev (sz + n')) by (done || zdiv).
  unfold split_tiles, SIZEOF_TLSF_BLOCK.
  destruct (Z.leb_spec (TLSF_MIN_BLOCK_SIZE + 32) (sz + n' - tn)) as [Hge|Hlt].
  - destruct (split_tail_spec tp1 (with_links h k) l1 b (sz + n') t tn qb R Hqb) as (tp2 & h2 & -> & Hok & Hs & Hin & _);
      [lia|unfold TLSF_MIN_BLOCK_SIZE in *; lia|done|lia|lia|].
    cbn [mbind outcome_bind].
    exists tp2, h2. split; [done|]. split; [exact Hok|]. destruct Hs as (S1 & S2 & S3).
    split; [repeat split; congruence|]. unfold in_region in *. rewrite R1, R2 in Hin.
    eapply within_trans; [exact Hin1|exact Hin].
  - replace (b + sz + n') with (b + (sz + n')) in * by lia.
    destruct (whole_block_spec tp1 (with_links h k) l1 b (sz + n') t qb m fr pf3 R Hqb Htag3 Hmm) as [Hok Hin]; [lia|lia|].
    erewrite set_sf_Some by exact Hsf. cbn [mbind outcome_bind].
    erewrite set_pp_Some by (cbn; exact Hptag3). cbn [mbind outcome_bind size_and_flags].
    unfold TLSF_MIN_BLOCK_SIZE in *. assert (Hne : b + (sz + n') <> b) by lia.
    rewrite (ld_Some _ (b + (sz + n')) (mk m fr pf3)) by (cbn; hl; exact Htag3). cbn [mbind outcome_bind].
    erewrite set_sf_Some by (cbn; hl; exact Htag3). cbn [mbind outcome_bind].
    rewrite mk_clear_prev_free by done. exists tp1, (whole_block (with_links h k) b (sz + n') qb m fr).
    split; [done|]. split; [exact Hok|]. split; [done|].
    unfold in_region in *. rewrite R1, R2 in Hin. eapply within_trans; [exact Hin1|exact Hin].
Qed.

End Arenas.
