(* ===== verification/TlsfPool.v ===== *)
(** * Allocation from the shared TLSF tier

    [tlsf_create_pool_custom], [tlsf_alloc], [tlsf_free] and [tlsf_try_inplace_expand] of
    [src/cmem_tlsf.c] over the chain of arenas of a pool.  Backing memory comes from
    the interface [SysMem]. *)
From S2P Require Import Prelude Dll TlsfMap BlockHeap Header Tlsf.
From Stdlib Require Import ZArith Lia.
From stdpp Require Import base option list gmap.
Open Scope Z_scope.

(** [sys_mem_alloc]: the regions it hands out are fresh. *)
Class SysMem := {
  sys : Type;
  sys_mem_alloc : sys -> Z -> Z * sys;
  regions : sys -> list (Z * Z);
  sys_mem_alloc_spec : forall o n p o', 0 < n -> sys_mem_alloc o n = (p, o') ->
    if p =? NULL then regions o' = regions o
    else 0 < p /\ p + n < 2 ^ 64 /\ regions o' = (p, n) :: regions o /\
      forall q m, (q, m) ∈ regions o -> p + n <= q \/ q + m <= p;
}.

(** The payload bytes. *)
Definition bytes_at := Z -> Z.
Definition fill (m : bytes_at) (p n v : Z) : bytes_at :=
  fun a => if (p <=? a) && (a <? p + n) then v else m a.

Definition TLSF_INITIAL : Z := 4 * 1024 * 1024.

Definition zero_rows : gmap Z Z := gset_to_gmap 0 (list_to_set (seqZ 0 TLSF_FL_MAX)).
Definition zero_blocks : gmap (Z * Z) Z :=
  gset_to_gmap NULL (list_to_set (list_prod (seqZ 0 TLSF_FL_MAX) (seqZ 0 TLSF_SL_COUNT))).

Section Tlsf.
Context `{SysMem}.
(** [sizeof(tlsf_pool_t)], which depends on the platform's mutex. *)
Context (sizeof_tlsf_pool : Z).
Context `{discipline : Discipline}.

Record tstate := TState {
  flags : Z;
  tlsf_root : list tlsf_pool;        (* the chain, in order *)
  theap : heap;
  headers : gmap Z mp_block_header;  (* by header address *)
  payload : bytes_at;
  tlsf_allocated_bytes : Z;
  total_pool_size : Z;
  osys : sys;
}.

Definition set_pools (s : tstate) (ps : list tlsf_pool) (h : heap) : tstate :=
  TState (flags s) ps h (headers s) (payload s) (tlsf_allocated_bytes s) (total_pool_size s) (osys s).
Definition set_sys (s : tstate) (o : sys) : tstate :=
  TState (flags s) (tlsf_root s) (theap s) (headers s) (payload s) (tlsf_allocated_bytes s)
    (total_pool_size s) o.
Definition add_pool_size (s : tstate) (n : Z) : tstate :=
  TState (flags s) (tlsf_root s) (theap s) (headers s) (payload s) (tlsf_allocated_bytes s)
    (u64 (total_pool_size s + n)) (osys s).

Definition clear_links (h : heap) (a : Z) : heap :=
  with_links h (Links (<[a := NULL]> (nxt (flinks h))) (<[a := NULL]> (prv (flinks h)))).

(** [None] when no memory could be obtained. *)
Definition tlsf_create_pool_custom (o : sys) (h : heap) (size custom_mem : Z)
    : outcome (option tlsf_pool * heap * sys) :=
  let size := align8 size in
  let '(raw_mem, o) :=
    if custom_mem =? NULL then sys_mem_alloc o (u64 (sizeof_tlsf_pool + size)) else (custom_mem, o) in
  if raw_mem =? NULL then Done (None, h, o)
  else
    let area := raw_mem + sizeof_tlsf_pool in
    let word := Z.lor (u64 (size - SIZEOF_TLSF_BLOCK)) BLOCK_STATE_FREE in
    let h := clear_links (carve h area word NULL) area in
    let sentinel := area + block_size word in
    let h := carve h sentinel 0 area in
    f ← tlsf_mapping_insert (block_size word);
    row ← ld zero_rows (fst f);
    _ ← match zero_blocks !! f with Some b => Done b | None => Fault end;
    Done (Some (TPool (bit_set 0 (fst f)) (<[fst f := bit_set row (snd f)]> zero_rows)
                  (<[f := area]> zero_blocks) area size raw_mem), h, o).

Definition tlsf_total_needed (flags req_size : Z) : Z :=
  let n := align8 (u64 (SIZEOF_TLSF_BLOCK + SIZEOF_HEADER + req_size +
             (if has_flag flags MP_FLAG_DEBUG_CANARY then 1 else 0))) in
  if n <? TLSF_MIN_BLOCK_SIZE then TLSF_MIN_BLOCK_SIZE else n.

(** The walk over the chain: the block found, its arena, and the updated chain. *)
Fixpoint alloc_walk (ps : list tlsf_pool) (h : heap) (total_needed : Z)
    : outcome (option (Z * Z) * list tlsf_pool * heap) :=
  match ps with
  | [] => Done (None, [], h)
  | tp :: ps =>
      block ← tlsf_find_suitable_block tp total_needed;
      if block =? NULL then
        r ← alloc_walk ps h total_needed;
        let '(res, ps, h) := r in Done (res, tp :: ps, h)
      else
        r ← tlsf_take tp h block total_needed;
        let '(tp', h) := r in Done (Some (block, tp_addr tp'), tp' :: ps, h)
  end.

(** Stamping the header, the canary and the zero fill, and the statistics. *)
Definition tlsf_stamp (s : tstate) (block tpool total_needed req_size : Z) : Z * tstate :=
  let hdr := block + SIZEOF_TLSF_BLOCK in
  let usable := u64 (total_needed - SIZEOF_TLSF_BLOCK - SIZEOF_HEADER) in
  let p := hdr + SIZEOF_HEADER in
  let m := if has_flag (flags s) MP_FLAG_DEBUG_CANARY then fill (payload s) (p + req_size) 1 MP_CANARY_BYTE
           else payload s in
  let m := if has_flag (flags s) MP_FLAG_ZERO_ON_ALLOC then fill m p req_size 0 else m in
  (p, TState (flags s) (tlsf_root s) (theap s)
        (<[hdr := Header MP_MAGIC_HEAD ALLOC_TYPE_TLSF 0 0 req_size usable block tpool NULL 0 NULL 0]>
           (headers s))
        m (u64 (tlsf_allocated_bytes s + usable)) (total_pool_size s) (osys s)).

(** [if (!tpool) { ... }]: the first arena; [false] when it cannot be created. *)
Definition tlsf_ensure_root (s : tstate) : outcome (bool * tstate) :=
  match tlsf_root s with
  | _ :: _ => Done (true, s)
  | [] =>
      r ← tlsf_create_pool_custom (osys s) (theap s) TLSF_INITIAL NULL;
      let '(tp, h, o) := r in
      let s := set_sys s o in
      match tp with
      | None => Done (false, set_pools s (tlsf_root s) h)
      | Some tp => Done (true, add_pool_size (set_pools s [tp] h) (TLSF_INITIAL + sizeof_tlsf_pool))
      end
  end.

(** The expansion branch of [tlsf_alloc]. *)
Definition tlsf_alloc_expand (s : tstate) (total_needed req_size : Z) : outcome (Z * tstate) :=
  let expand_sz := if TLSF_INITIAL <? u64 (total_needed * 2) then u64 (total_needed * 2) else TLSF_INITIAL in
  r ← tlsf_create_pool_custom (osys s) (theap s) expand_sz NULL;
  let '(tp, h, o) := r in
  let s := set_sys s o in
  match tp with
  | None => Done (NULL, set_pools s (tlsf_root s) h)
  | Some tp =>
      let rest := tlsf_root s in
      let s := add_pool_size (set_pools s (tp :: rest) h) (expand_sz + sizeof_tlsf_pool) in
      block ← tlsf_find_suitable_block tp total_needed;
      if block =? NULL then Done (NULL, s)
      else
        r ← tlsf_take tp h block total_needed;
        let '(tp', h) := r in
        Done (tlsf_stamp (set_pools s (tp' :: rest) h) block (tp_addr tp') total_needed req_size)
  end.

(** A pool address, or [NULL]. *)
Definition tlsf_alloc (s : tstate) (req_size : Z) : outcome (Z * tstate) :=
  let total_needed := tlsf_total_needed (flags s) req_size in
  r ← tlsf_ensure_root s;
  let '(ok, s) := r in
  if negb ok then Done (NULL, s)
  else
    r ← alloc_walk (tlsf_root s) (theap s) total_needed;
    let '(found, ps, h) := r in
    let s := set_pools s ps h in
    match found with
    | Some (block, tpool) => Done (tlsf_stamp s block tpool total_needed req_size)
    | None =>
        if has_flag (flags s) MP_FLAG_STATIC_BUFFER then Done (NULL, s)
        else tlsf_alloc_expand s total_needed req_size
    end.

(** The arena a header's [subpool] points to. *)
Definition find_pool (s : tstate) (addr : Z) : outcome (nat * tlsf_pool) :=
  match list_find (fun tp => tp_addr tp = addr) (tlsf_root s) with
  | Some r => Done r
  | None => Fault
  end.

Definition ld_header (s : tstate) (hdr : Z) : outcome mp_block_header :=
  match headers s !! hdr with Some x => Done x | None => Fault end.

(** [tlsf_free]; a failed [assert] is a fault. *)
Definition tlsf_free (s : tstate) (hdr : Z) : outcome tstate :=
  header ← ld_header s hdr;
  if has_flag (hflags header) MP_BLOCK_FLAG_TLSF_ARENA then Fault
  else
    r ← find_pool s (subpool header);
    let '(i, tp) := r in
    r ← tlsf_free_block tp (theap s) (raw_base header);
    let '(tp, h) := r in
    Done (TState (flags s) (<[i := tp]> (tlsf_root s)) h (headers s) (payload s)
            (u64 (tlsf_allocated_bytes s - usable_size header)) (total_pool_size s) (osys s)).

Definition tlsf_try_inplace_expand (s : tstate) (hdr new_size : Z) : outcome (bool * tstate) :=
  header ← ld_header s hdr;
  if negb (alloc_type header =? ALLOC_TYPE_TLSF) then Done (false, s)
  else if raw_base header =? NULL then Done (false, s)
  else if (subpool header =? NULL) || has_flag (hflags header) MP_BLOCK_FLAG_TLSF_ARENA then Done (false, s)
  else
    r ← find_pool s (subpool header);
    let '(i, tp) := r in
    let total_needed := tlsf_total_needed (flags s) new_size in
    r ← tlsf_expand_block tp (theap s) (raw_base header) total_needed;
    let '(ok, tp, h) := r in
    if negb ok then Done (false, s)
    else
      sf ← ld (size_and_flags h) (raw_base header);
      let new_usable := u64 (block_size sf - SIZEOF_TLSF_BLOCK - SIZEOF_HEADER) in
      let p := hdr + SIZEOF_HEADER in
      let m := if has_flag (flags s) MP_FLAG_DEBUG_CANARY then fill (payload s) (p + new_size) 1 MP_CANARY_BYTE
               else payload s in
      Done (true, TState (flags s) (<[i := tp]> (tlsf_root s)) h
                    (<[hdr := set_sizes header new_size new_usable]> (headers s)) m
                    (u64 (tlsf_allocated_bytes s + u64 (new_usable - usable_size header)))
                    (total_pool_size s) (osys s)).

(** ** A fresh arena *)

Lemma zero_rows_lookup fl : fl_ok fl -> zero_rows !! fl = Some 0.
Proof.
  intros Hfl. unfold zero_rows. apply lookup_gset_to_gmap_Some. split; [|done].
  apply elem_of_list_to_set, elem_of_seqZ. unfold fl_ok, TLSF_FL_MAX in *. lia.
Qed.

Lemma zero_blocks_lookup fl sl : fl_ok fl -> sl_ok sl -> zero_blocks !! (fl, sl) = Some NULL.
Proof.
  intros Hfl Hsl. unfold zero_blocks. apply lookup_gset_to_gmap_Some. split; [|done].
  apply elem_of_list_to_set, list_elem_of_In, in_prod; apply list_elem_of_In, elem_of_seqZ;
    unfold fl_ok, sl_ok, TLSF_FL_MAX, TLSF_SL_COUNT in *; lia.
Qed.

#[local] Opaque zero_rows zero_blocks.

(** The descriptor of an arena that files the single block [b]. *)
Definition single_pool (b sz size addr : Z) : tlsf_pool :=
  let f := bucket sz in
  TPool (bit_set 0 (fst f)) (<[fst f := bit_set 0 (snd f)]> zero_rows) (<[f := b]> zero_blocks) b size addr.

Lemma empty_index b size addr k :
  index (TPool 0 zero_rows zero_blocks b size addr) k (fun _ _ => False).
Proof.
  exists (fun _ => []). constructor; cbn [fl_bitmap sl_bitmap blocks]; try done.
  - intros fl sl Hfl Hsl. exists NULL. split; [by apply zero_blocks_lookup|apply dll_nil].
  - intros fl Hfl. exists 0. split; [by apply zero_rows_lookup|]. split; [done|]. split.
    + intros sl _. by rewrite Z.testbit_0_l.
    + by rewrite Z.testbit_0_l.
  - intros f x. split; [intros Hx; by apply not_elem_of_nil in Hx|by intros (? & [] & _)].
Qed.

Lemma single_index b sz size addr k :
  16 <= sz < 2 ^ 30 -> b <> NULL -> nxt k !! b = Some NULL -> prv k !! b = Some NULL ->
  index (single_pool b sz size addr) k (fun x s => x = b /\ s = sz).
Proof.
  intros Hsz Hb Hn Hp. destruct (bucket_ok sz Hsz) as (fl & sl & E & Hfl & Hsl).
  exists (fun f => if decide (f = (fl, sl)) then [b] else []).
  unfold single_pool. rewrite E. cbn [fst snd].
  assert (Hr : 0 <= bit_set 0 sl < 2 ^ TLSF_SL_COUNT) by (apply bit_set_bound; [done|exact Hsl]).
  constructor; cbn [fl_bitmap sl_bitmap blocks].
  - intros fl' sl' Hfl' Hsl'. case_decide as D.
    + injection D as -> ->. exists b. rewrite lookup_insert_eq. split; [done|].
      split; [|apply NoDup_singleton]. split; [done|]. split; [done|]. split; [done|]. by exists NULL.
    + exists NULL. rewrite lookup_insert_ne by congruence. split; [by apply zero_blocks_lookup|apply dll_nil].
  - intros fl' Hfl'. destruct (decide (fl' = fl)) as [->|Hne].
    + exists (bit_set 0 sl). rewrite lookup_insert_eq. split; [done|]. split; [done|]. split.
      * intros sl' Hsl'. rewrite testbit_bit_set, Z.testbit_0_l by apply Hsl. cbn.
        destruct (decide (sl' = sl)) as [->|]; [rewrite decide_True, bool_decide_true by done; done|].
        rewrite decide_False, bool_decide_false by congruence. done.
      * rewrite testbit_bit_set, Z.testbit_0_l, bool_decide_true by (done || apply Hfl). split; [|done].
        intros _. apply (nonzero_bits _ _ Hr). exists sl. split; [exact Hsl|].
        rewrite testbit_bit_set by apply Hsl. by rewrite bool_decide_true, orb_true_r.
    + exists 0. rewrite lookup_insert_ne by congruence. split; [by apply zero_rows_lookup|]. split; [done|]. split.
      * intros sl' _. rewrite Z.testbit_0_l, decide_False by congruence. done.
      * rewrite testbit_bit_set, Z.testbit_0_l, bool_decide_false by (congruence || apply Hfl). done.
  - apply bit_set_bound; [done|exact Hfl].
  - intros f x. case_decide as D.
    + rewrite list_elem_of_singleton. split.
      * intros ->. exists sz. by rewrite E.
      * by intros (s & [-> _] & _).
    + split; [intros Hx; by apply not_elem_of_nil in Hx|]. intros (s & [_ ->] & E'). congruence.
  - intros x s1 s2 [_ ->] [_ ->]. done.
  - intros x s [_ ->]. done.
Qed.

Lemma create_spec o h size o' tp h' :
  tlsf_create_pool_custom o h size NULL = Done (Some tp, h', o') ->
  64 <= size < 2 ^ 30 - 8 -> 0 < sizeof_tlsf_pool < 2 ^ 32 ->
  pool_ok tp h' [(align8 size - SIZEOF_TLSF_BLOCK, true)] /\ in_region tp h h' /\
  raw_size tp = align8 size /\ tp_addr tp + sizeof_tlsf_pool = raw_area tp /\ 0 < tp_addr tp /\
  regions o' = (tp_addr tp, sizeof_tlsf_pool + raw_size tp) :: regions o /\
  forall q m, (q, m) ∈ regions o -> tp_addr tp + (sizeof_tlsf_pool + raw_size tp) <= q \/ q + m <= tp_addr tp.
Proof.
  intros Hc Hs Hz. unfold tlsf_create_pool_custom in Hc. rewrite Z.eqb_refl in Hc.
  destruct (align8_bounds size) as [Ha Hm]; [lia|lia|]. set (sz := align8 size) in *.
  rewrite !(u64_small (sz - SIZEOF_TLSF_BLOCK)) in Hc by (unfold SIZEOF_TLSF_BLOCK; lia).
  rewrite (u64_small (sizeof_tlsf_pool + sz)) in Hc by lia.
  destruct (sys_mem_alloc o (sizeof_tlsf_pool + sz)) as [raw o1] eqn:Es.
  pose proof (sys_mem_alloc_spec o (sizeof_tlsf_pool + sz) raw o1 ltac:(lia) Es) as Hsys.
  destruct (raw =? NULL); [done|]. destruct Hsys as (Hr0 & Hr1 & Hreg & Hdis).
  set (n := sz - SIZEOF_TLSF_BLOCK) in *. assert (Hnm : n mod 8 = 0) by (subst n; unfold SIZEOF_TLSF_BLOCK; zdiv).
  assert (Hn : 32 <= n < 2 ^ 30) by (subst n; unfold SIZEOF_TLSF_BLOCK; lia).
  rewrite size_or_free, block_size_mk in Hc by done. rewrite mapping_insert_eq in Hc by lia.
  destruct (bucket_ok n ltac:(lia)) as (fl & sl & E & Hfl & Hsl). rewrite E in Hc.
  cbn [mbind outcome_bind fst snd] in Hc. rewrite (ld_Some _ _ _ (zero_rows_lookup fl Hfl)) in Hc.
  cbn [mbind outcome_bind] in Hc. rewrite (zero_blocks_lookup fl sl Hfl Hsl) in Hc.
  cbn [mbind outcome_bind] in Hc. set (area := raw + sizeof_tlsf_pool) in *.
  injection Hc as <- <- <-. cbn [raw_size tp_addr raw_area].
  assert (Hnd : n = sz - SIZEOF_TLSF_BLOCK) by done. assert (Had : area = raw + sizeof_tlsf_pool) by done.
  clearbody n area. clearbody sz.
  split; [|split; [|split; [done|split; [done|split; [done|split; [done|done]]]]]].
  - assert (Esp : TPool (bit_set 0 fl) (<[fl:=bit_set 0 sl]> zero_rows) (<[(fl, sl):=area]> zero_blocks) area sz raw
                  = single_pool area n sz raw) by (unfold single_pool; by rewrite E).
    rewrite Esp. constructor; cbn [single_pool raw_area raw_size].
    + apply chain_cons. split.
      { split; [split; [unfold TLSF_MIN_BLOCK_SIZE; lia|done]|].
        cbn. hl. split; [exists false; split; [apply bit_of_refl|reflexivity]|]. split; [done|]. split; [|done].
        unfold has_node. cbn. hl. eauto. }
      split; [done|]. exists false. cbn [plast extent]. rewrite Z.add_0_r. unfold clear_links, carve, with_links. cbn [size_and_flags prev_physical flinks nxt prv]. rewrite !lookup_insert_eq. split; [reflexivity|]. split; [intros _; reflexivity|reflexivity].
    + eapply index_iff; [|apply single_index; [lia|unfold NULL; lia|cbn; by hl|cbn; by hl]].
      intros x s. rewrite elem_of_frees_cons. cbn [frees]. pose proof (not_elem_of_nil (A := Z * Z) (x, s)). tauto.
    + cbn [extent]. lia.
    + lia.
    + lia.
  - unfold in_region. cbn [raw_area raw_size].
    eapply within_trans; [|apply within_carve; unfold SIZEOF_TLSF_BLOCK in *; lia].
    split.
    + intros x Hx. cbn. rewrite !lookup_insert_ne by lia. done.
    + intros x Hx. unfold clear_links, has_node. cbn. destruct Hx as [H1 H2].
      destruct (decide (x = area)) as [->|]; [rewrite !lookup_insert_eq; eauto|].
      by rewrite !lookup_insert_ne by done.
Qed.


(** ** The chain of arenas *)

Definition apart (a b : tlsf_pool) : Prop :=
  raw_area a + raw_size a <= raw_area b \/ raw_area b + raw_size b <= raw_area a.

Record arenas_ok (ps : list tlsf_pool) (h : heap) (Ls : list (list tile)) : Prop := {
  ar_pools : Forall2 (fun tp L => pool_ok tp h L) ps Ls;
  ar_apart : forall i j a b, i <> j -> ps !! i = Some a -> ps !! j = Some b -> apart a b;
}.

(** The live blocks of all arenas. *)
Definition live (ps : list tlsf_pool) (Ls : list (list tile)) (x n : Z) : Prop :=
  exists i tp L, ps !! i = Some tp /\ Ls !! i = Some L /\ (x, n) ∈ lives (raw_area tp) L.

Record tinv (s : tstate) (Ls : list (list tile)) : Prop := {
  ti_arenas : arenas_ok (tlsf_root s) (theap s) Ls;
  ti_owned : forall tp, tp ∈ tlsf_root s -> 0 < tp_addr tp /\ tp_addr tp + sizeof_tlsf_pool = raw_area tp /\
    (tp_addr tp, sizeof_tlsf_pool + raw_size tp) ∈ regions (osys s);
}.

Lemma pool_ok_pos tp h L : pool_ok tp h L -> 0 < raw_size tp.
Proof.
  intros [Hc _ Hs _ _]. pose proof (chain_extent _ _ _ _ _ _ Hc). unfold SIZEOF_TLSF_BLOCK in *. lia.
Qed.

Lemma arenas_lookup ps h Ls i tp : arenas_ok ps h Ls -> ps !! i = Some tp ->
  exists L, Ls !! i = Some L /\ pool_ok tp h L.
Proof. intros [A _] Hi. by eapply Forall2_lookup_l in A. Qed.

Lemma apart_frame a b h h' :
  apart a b -> in_region a h h' ->
  forall x, raw_area b <= x < raw_area b + raw_size b ->
     size_and_flags h' !! x = size_and_flags h !! x /\ prev_physical h' !! x = prev_physical h !! x /\
     nxt (flinks h') !! x = nxt (flinks h) !! x /\ prv (flinks h') !! x = prv (flinks h) !! x.
Proof. intros Hap [Hw _] x Hx. apply Hw. destruct Hap; lia. Qed.

(** An operation on one arena leaves the others as they were. *)
Lemma arenas_update ps h Ls i tp tp' h' L' :
  arenas_ok ps h Ls -> ps !! i = Some tp -> pool_ok tp' h' L' -> same_pool tp tp' -> in_region tp h h' ->
  arenas_ok (<[i := tp']> ps) h' (<[i := L']> Ls).
Proof.
  intros [A Ap] Hi Hok (S1 & S2 & _) Hin. split.
  - apply Forall2_same_length_lookup in A as [Hlen A]. apply Forall2_same_length_lookup.
    split; [by rewrite !length_insert|]. intros j a L Ha HL.
    apply list_lookup_insert_Some in Ha as [(<- & <- & Hil)|[Hij Ha]].
    + rewrite list_lookup_insert_eq in HL by lia. by injection HL as <-.
    + rewrite list_lookup_insert_ne in HL by done. eapply pool_ok_frame; [|apply Hin|by eapply A].
      apply (apart_frame tp a); [by eapply Ap|done].
  - assert (Hg : forall j b, <[i:=tp']> ps !! j = Some b -> exists c, ps !! j = Some c /\
      raw_area b = raw_area c /\ raw_size b = raw_size c).
    { intros j b Hb. apply list_lookup_insert_Some in Hb as [(<- & <- & _)|[_ Hb]]; eauto. }
    intros j k a b Hjk Ha Hb. apply Hg in Ha as (a' & Ha & E1 & E2). apply Hg in Hb as (b' & Hb & E3 & E4).
    unfold apart. rewrite E1, E2, E3, E4. by eapply (Ap j k).
Qed.

Lemma arenas_cons ps h Ls tp h' L :
  arenas_ok ps h Ls -> pool_ok tp h' L -> in_region tp h h' -> (forall b, b ∈ ps -> apart tp b) ->
  arenas_ok (tp :: ps) h' (L :: Ls).
Proof.
  intros [A Ap] Hok Hin Hap. split.
  - constructor; [done|]. apply Forall2_same_length_lookup in A as [Hlen A].
    apply Forall2_same_length_lookup. split; [done|]. intros j a La Ha HLa.
    eapply pool_ok_frame; [|apply Hin|by eapply A]. apply (apart_frame tp a); [|done].
    apply Hap. by eapply list_elem_of_lookup_2.
  - intros [|i] [|j] a b Hij Ha Hb; cbn in Ha, Hb; [done| | |].
    + injection Ha as <-. apply Hap. by eapply list_elem_of_lookup_2.
    + injection Hb as <-. apply list_elem_of_lookup_2 in Ha. apply Hap in Ha. unfold apart in *. lia.
    + eapply (Ap i j); [congruence|done|done].
Qed.

Lemma live_cons tp L ps Ls x n :
  live (tp :: ps) (L :: Ls) x n <-> (x, n) ∈ lives (raw_area tp) L \/ live ps Ls x n.
Proof.
  split.
  - intros ([|i] & a & La & Ha & HL & Hx); cbn in Ha, HL.
    + injection Ha as <-. injection HL as <-. by left.
    + right. by exists i, a, La.
  - intros [Hx|(i & a & La & Ha & HL & Hx)]; [by exists 0%nat, tp, L|by exists (S i), a, La].
Qed.

Lemma live_update ps Ls i tp tp' L L' x n :
  ps !! i = Some tp -> Ls !! i = Some L -> raw_area tp' = raw_area tp ->
  live (<[i := tp']> ps) (<[i := L']> Ls) x n <->
  (x, n) ∈ lives (raw_area tp) L' \/
  exists j a La, j <> i /\ ps !! j = Some a /\ Ls !! j = Some La /\ (x, n) ∈ lives (raw_area a) La.
Proof.
  intros Hi HL Ha. split.
  - intros (j & a & La & Hj & HLj & Hx). apply list_lookup_insert_Some in Hj as [(<- & <- & _)|[Hij Hj]].
    + rewrite list_lookup_insert_eq in HLj by (by eapply lookup_lt_Some). injection HLj as <-.
      left. by rewrite <- Ha.
    + rewrite list_lookup_insert_ne in HLj by done. right. by exists j, a, La.
  - intros [Hx|(j & a & La & Hne & Hj & HLj & Hx)].
    + exists i, tp', L'. rewrite !list_lookup_insert_eq by (by eapply lookup_lt_Some). by rewrite Ha.
    + exists j, a, La. by rewrite !list_lookup_insert_ne.
Qed.

Lemma live_at ps Ls i tp L x n :
  ps !! i = Some tp -> Ls !! i = Some L ->
  live ps Ls x n <-> (x, n) ∈ lives (raw_area tp) L \/
    exists j a La, j <> i /\ ps !! j = Some a /\ Ls !! j = Some La /\ (x, n) ∈ lives (raw_area a) La.
Proof.
  intros Hi HL. rewrite <- (list_insert_id ps i tp Hi), <- (list_insert_id Ls i L HL) at 1.
  rewrite (live_update ps Ls i tp tp L L) by done. done.
Qed.

Lemma live_range ps h Ls x n i tp L :
  arenas_ok ps h Ls -> ps !! i = Some tp -> Ls !! i = Some L -> (x, n) ∈ lives (raw_area tp) L ->
  raw_area tp <= x /\ x + n < raw_area tp + raw_size tp /\ 32 <= n.
Proof.
  intros A Hi HL Hx. destruct (arenas_lookup _ _ _ _ _ A Hi) as (L0 & HL0 & [[Hp _] _ Hs _ _]).
  assert (L0 = L) as -> by congruence.
  destruct (lives_range _ _ _ _ _ _ _ Hp Hx) as (? & ? & [Hmin _]).
  unfold SIZEOF_TLSF_BLOCK, TLSF_MIN_BLOCK_SIZE in *. lia.
Qed.

(** Live blocks never overlap, within and across arenas. *)
Lemma live_disjoint ps h Ls x n y m :
  arenas_ok ps h Ls -> live ps Ls x n -> live ps Ls y m -> x <> y -> x + n <= y \/ y + m <= x.
Proof.
  intros A (i & a & La & Hi & HLi & Hx) (j & b & Lb & Hj & HLj & Hy) Hne.
  destruct (decide (i = j)) as [->|Hij].
  - assert (b = a) as -> by congruence. assert (Lb = La) as -> by congruence.
    destruct (arenas_lookup _ _ _ _ _ A Hi) as (L0 & HL0 & [[Hp _] _ _ _ _]).
    assert (L0 = La) as -> by congruence. by eapply lives_disjoint.
  - pose proof (live_range _ _ _ _ _ _ _ _ A Hi HLi Hx). pose proof (live_range _ _ _ _ _ _ _ _ A Hj HLj Hy).
    destruct (ar_apart _ _ _ A i j a b Hij Hi Hj); lia.
Qed.

Lemma total_needed_bounds flags req :
  0 <= req <= 2 ^ 28 ->
  let n := tlsf_total_needed flags req in
  SIZEOF_TLSF_BLOCK + SIZEOF_HEADER + req + (if has_flag flags MP_FLAG_DEBUG_CANARY then 1 else 0) <= n <= 2 ^ 28 + 200 /\
  n mod 8 = 0.
Proof.
  intros Hr n. subst n. unfold tlsf_total_needed, SIZEOF_TLSF_BLOCK, SIZEOF_HEADER, TLSF_MIN_BLOCK_SIZE.
  assert (Hc : 0 <= (if has_flag flags MP_FLAG_DEBUG_CANARY then 1 else 0) <= 1) by (destruct (has_flag _ _); lia).
  set (c := if has_flag _ _ then 1 else 0) in *. rewrite u64_small by lia.
  destruct (align8_bounds (32 + 152 + req + c)) as [B M]; [lia|lia|].
  destruct (Z.ltb_spec (align8 (32 + 152 + req + c)) 32); [lia|]. split; [lia|done].
Qed.


(** ** Allocation *)

(** The header of a live block is intact. *)
Definition header_ok (s : tstate) (hdr b : Z) (i : nat) : Prop :=
  exists hd tp, headers s !! hdr = Some hd /\ alloc_type hd = ALLOC_TYPE_TLSF /\
    has_flag (hflags hd) MP_BLOCK_FLAG_TLSF_ARENA = false /\ raw_base hd = b /\
    tlsf_root s !! i = Some tp /\ subpool hd = tp_addr tp.

(** The block [b] of size [n] in arena [i]. *)
Definition live_in (s : tstate) (Ls : list (list tile)) (i : nat) (b n : Z) : Prop :=
  exists tp L, tlsf_root s !! i = Some tp /\ Ls !! i = Some L /\ (b, n) ∈ lives (raw_area tp) L.

(** Serving a request from the free tile [sz] of arena [i]. *)
Record served (ps ps' : list tlsf_pool) (h h' : heap) (Ls Ls' : list (list tile)) (tn b addr : Z) : Prop := {
  sv_arenas : arenas_ok ps' h' Ls';
  sv_length : length ps' = length ps;
  sv_same : forall i a, ps !! i = Some a -> exists a', ps' !! i = Some a' /\ same_pool a a';
  sv_pos : 0 < b;
  sv_live : exists sz, tn <= sz /\
    (exists i a L, ps' !! i = Some a /\ Ls' !! i = Some L /\ (b, sz) ∈ lives (raw_area a) L /\ addr = tp_addr a) /\
    (forall x n, live ps' Ls' x n <-> live ps Ls x n \/ (x = b /\ n = sz)) /\
    forall x n, live ps Ls x n -> x <> b;
}.

Lemma take_served ps h Ls i tp l1 sz l2 tn tp' h' :
  arenas_ok ps h Ls -> ps !! i = Some tp -> Ls !! i = Some (l1 ++ (sz, true) :: l2) ->
  let b := raw_area tp + extent l1 in
  tn <= sz -> pool_ok tp' h' (l1 ++ split_tiles sz tn ++ l2) -> same_pool tp tp' -> in_region tp h h' ->
  served ps (<[i := tp']> ps) h h' Ls (<[i := l1 ++ split_tiles sz tn ++ l2]> Ls) tn b (tp_addr tp').
Proof.
  intros A Hi HL b Htn Hok Hs Hin. destruct (arenas_lookup _ _ _ _ _ A Hi) as (L0 & HL0 & Hok0).
  assert (L0 = l1 ++ (sz, true) :: l2) as -> by (apply (inj Some); rewrite <- HL0; exact HL).
  pose proof Hok0 as [[Hp _] _ Hsize _ Hbase]. pose proof Hs as (S1 & S2 & S3).
  apply phys_app in Hp as Hpp. destruct Hpp as [Hp1 Hp2]. pose proof (phys_extent _ _ _ _ _ Hp1).
  pose proof Hp2 as Hp3. cbn [phys] in Hp3. destruct Hp3 as ([Hmin _] & _ & _ & _ & _ & Hp3).
  pose proof (phys_extent _ _ _ _ _ Hp3). unfold TLSF_MIN_BLOCK_SIZE, SIZEOF_TLSF_BLOCK in *.
  rewrite extent_app in Hsize. cbn [extent] in Hsize.
  constructor.
  - by eapply arenas_update.
  - by rewrite length_insert.
  - intros j a Ha. destruct (decide (j = i)) as [->|].
    + exists tp'. rewrite list_lookup_insert_eq by (by eapply lookup_lt_Some).
      split; [done|]. by replace a with tp by congruence.
    + exists a. by rewrite list_lookup_insert_ne.
  - subst b. lia.
  - exists (taken sz tn). split; [by apply taken_bounds|]. split; [|split].
    + exists i, tp', (l1 ++ split_tiles sz tn ++ l2).
      rewrite !list_lookup_insert_eq by (by eapply lookup_lt_Some). split; [done|]. split; [done|].
      split; [|done]. rewrite S1, lives_take. right. done.
    + intros x n. rewrite (live_update _ _ i tp), (live_at ps Ls i tp) by done. rewrite lives_take. fold b. tauto.
    + intros x n Hx ->. destruct Hx as (j & a & La & Hj & HLj & Hx).
      destruct (decide (j = i)) as [->|Hji].
      * assert (a = tp) as -> by congruence. assert (La = l1 ++ (sz, true) :: l2) as -> by (apply (inj Some); rewrite <- HLj; exact HL).
        rewrite elem_of_lives_app, elem_of_lives_cons in Hx. fold b in Hx.
        destruct Hx as [Hx|[(? & _)|Hx]]; [|done|].
        -- pose proof (lives_range _ _ _ _ _ _ _ Hp1 Hx) as (? & ? & [? _]). unfold TLSF_MIN_BLOCK_SIZE in *. lia.
        -- pose proof (lives_range _ _ _ _ _ _ _ Hp3 Hx). lia.
      * pose proof (live_range _ _ _ _ _ _ _ _ A Hj HLj Hx).
        destruct (ar_apart _ _ _ A j i a tp Hji Hj Hi); subst b; lia.
Qed.

(** The arena that serves a walk. *)
Definition serves (ps ps' : list tlsf_pool) (h h' : heap) (Ls : list (list tile)) (tn b addr : Z) : Prop :=
  exists i tp l1 sz l2 tp',
    ps !! i = Some tp /\ Ls !! i = Some (l1 ++ (sz, true) :: l2) /\ b = raw_area tp + extent l1 /\ tn <= sz /\
    ps' = <[i := tp']> ps /\ addr = tp_addr tp' /\ pool_ok tp' h' (l1 ++ split_tiles sz tn ++ l2) /\
    same_pool tp tp' /\ in_region tp h h'.

Lemma find_take_spec tp h L tn :
  pool_ok tp h L -> 32 <= tn < 2 ^ 30 -> tn mod 8 = 0 ->
  exists b, tlsf_find_suitable_block tp tn = Done b /\
    ((b = NULL /\ forall x s, (x, s) ∈ frees (raw_area tp) L -> s < rounded tn) \/
     (b <> NULL /\ exists l1 sz l2 tp' h', L = l1 ++ (sz, true) :: l2 /\ b = raw_area tp + extent l1 /\ tn <= sz /\
        tlsf_take tp h b tn = Done (tp', h') /\ pool_ok tp' h' (l1 ++ split_tiles sz tn ++ l2) /\
        same_pool tp tp' /\ in_region tp h h')).
Proof.
  intros Hok Htn Hm. pose proof Hok as [[Hp _] HI _ _ _].
  destruct (find_spec tp (flinks h) _ tn HI ltac:(lia)) as (b & -> & [[-> Hnone]|(Hb & s & Hbs & Hfit)]).
  - exists NULL. split; [done|]. left. by split.
  - exists b. split; [done|]. right. split; [done|].
    destruct (frees_split _ _ _ _ _ _ _ Hp Hbs) as (l1 & l2 & -> & Hbe).
    pose proof (rounded_bounds tn ltac:(lia)).
    destruct (tlsf_take_spec tp h l1 s l2 b tn Hok Hbe ltac:(lia) Hm) as (tp' & h' & E & Hok' & Hs & Hin).
    exists l1, s, l2, tp', h'. repeat (split; [done || lia|]). done.
Qed.

Lemma alloc_walk_spec ps h Ls tn :
  Forall2 (fun tp L => pool_ok tp h L) ps Ls -> 32 <= tn < 2 ^ 30 -> tn mod 8 = 0 ->
  exists res ps' h', alloc_walk ps h tn = Done (res, ps', h') /\
    match res with
    | None => ps' = ps /\ h' = h /\
        forall i tp L x s, ps !! i = Some tp -> Ls !! i = Some L -> (x, s) ∈ frees (raw_area tp) L -> s < rounded tn
    | Some (b, addr) => serves ps ps' h h' Ls tn b addr
    end.
Proof.
  intros A Htn Hm. induction A as [|tp L ps Ls Hok A IH]; cbn [alloc_walk].
  { exists None, [], h. done. }
  destruct (find_take_spec tp h L tn Hok Htn Hm)
    as (b & -> & [[-> Hnone]|(Hb & l1 & sz & l2 & tp' & h' & -> & Hbe & Hsz & E & Hok' & Hs & Hin)]).
  - cbn [mbind outcome_bind]. rewrite Z.eqb_refl.
    destruct IH as (res & ps' & h' & -> & Hres). cbn [mbind outcome_bind].
    exists res, (tp :: ps'), h'. split; [done|]. destruct res as [[b addr]|].
    + destruct Hres as (i & tp0 & l1 & sz & l2 & tp' & H1 & H2 & H3 & H4 & -> & H5).
      by exists (S i), tp0, l1, sz, l2, tp'.
    + destruct Hres as (-> & -> & Hno). split; [done|]. split; [done|].
      intros [|i] a La x s Ha HLa Hx; cbn in Ha, HLa.
      * injection Ha as <-. injection HLa as <-. by eapply Hnone.
      * by eapply Hno.
  - cbn [mbind outcome_bind]. destruct (Z.eqb_spec b NULL); [done|]. rewrite E. cbn [mbind outcome_bind].
    exists (Some (b, tp_addr tp')), (tp' :: ps), h'. split; [done|].
    by exists 0%nat, tp, l1, sz, l2, tp'.
Qed.

(** What a successful allocation hands out. *)
Record allocated (s s' : tstate) (Ls Ls' : list (list tile)) (req p : Z) : Prop := {
  al_inv : tinv s' Ls';
  al_block : exists b sz i,
    p = b + SIZEOF_TLSF_BLOCK + SIZEOF_HEADER /\ 0 < b /\
    SIZEOF_TLSF_BLOCK + SIZEOF_HEADER + req + (if has_flag (flags s) MP_FLAG_DEBUG_CANARY then 1 else 0) <= sz /\
    (forall x n, live (tlsf_root s') Ls' x n <-> live (tlsf_root s) Ls x n \/ (x = b /\ n = sz)) /\
    (forall x n, live (tlsf_root s) Ls x n -> x + n <= b \/ b + sz <= x) /\
    live_in s' Ls' i b sz /\ header_ok s' (b + SIZEOF_TLSF_BLOCK) b i /\
    exists hd, headers s' !! (b + SIZEOF_TLSF_BLOCK) = Some hd /\ magic hd = MP_MAGIC_HEAD /\
      requested_size hd = req /\ req <= usable_size hd;
  al_canary : has_flag (flags s) MP_FLAG_DEBUG_CANARY = true -> payload s' (p + req) = MP_CANARY_BYTE;
  al_zero : has_flag (flags s) MP_FLAG_ZERO_ON_ALLOC = true ->
    forall a, p <= a < p + req -> payload s' a = 0;
}.

(** The canary and the zero fill of a fresh block. *)
Lemma stamped_bytes (canary zero : bool) (m : bytes_at) p req :
  0 <= req ->
  let m1 := if canary then fill m (p + req) 1 MP_CANARY_BYTE else m in
  let m2 := if zero then fill m1 p req 0 else m1 in
  (canary = true -> m2 (p + req) = MP_CANARY_BYTE) /\ (zero = true -> forall a, p <= a < p + req -> m2 a = 0).
Proof.
  intros Hr m1 m2. subst m1 m2. split.
  - intros ->. unfold fill. destruct zero.
    + rewrite (proj2 (Z.ltb_ge (p + req) _)) by lia. rewrite andb_false_r.
      by rewrite (proj2 (Z.leb_le _ _)), (proj2 (Z.ltb_lt _ _)) by lia.
    + by rewrite (proj2 (Z.leb_le _ _)), (proj2 (Z.ltb_lt _ _)) by lia.
  - intros -> a Ha. unfold fill at 1. by rewrite (proj2 (Z.leb_le _ _)), (proj2 (Z.ltb_lt _ _)) by lia.
Qed.

Lemma stamp_spec s ps h Ls req b addr tn :
  tinv s Ls -> tn = tlsf_total_needed (flags s) req -> 0 <= req <= 2 ^ 28 ->
  serves (tlsf_root s) ps (theap s) h Ls tn b addr ->
  let r := tlsf_stamp (set_pools s ps h) b addr tn req in
  exists Ls', allocated s (snd r) Ls Ls' req (fst r).
Proof.
  intros [A O] Htn Hreq (i & tp & l1 & sz & l2 & tp' & Hi & HL & Hb & Hsz & -> & -> & Hok & Hsame & Hin).
  pose proof (take_served _ _ _ i tp l1 sz l2 tn tp' h A Hi HL Hsz Hok Hsame Hin) as V. rewrite <- Hb in V.
  set (Ls' := <[i := _]> Ls) in *. exists Ls'. cbn [tlsf_stamp fst snd set_pools].
  destruct (total_needed_bounds (flags s) req Hreq) as [Hbd _]. cbv zeta in Hbd. rewrite <- Htn in Hbd.
  pose proof (sv_live _ _ _ _ _ _ _ _ _ V) as (n0 & Hn0 & (iv & av & Lv & Hiv & HLv & Hbv & Hav) & Hlive & Hnew).
  unfold SIZEOF_TLSF_BLOCK, SIZEOF_HEADER in *.
  assert (0 <= (if has_flag (flags s) MP_FLAG_DEBUG_CANARY then 1 else 0) <= 1) by (destruct (has_flag _ _); lia).
  constructor; cbn [tlsf_root theap osys headers payload flags set_pools].
  - split; [apply (sv_arenas _ _ _ _ _ _ _ _ _ V)|]. intros a Ha. apply list_elem_of_lookup_1 in Ha as [j Ha].
    apply list_lookup_insert_Some in Ha as [(<- & <- & _)|[_ Ha]].
    + destruct Hsame as (-> & -> & ->). apply O. by eapply list_elem_of_lookup_2.
    + apply O. by eapply list_elem_of_lookup_2.
  - unfold SIZEOF_TLSF_BLOCK, SIZEOF_HEADER. exists b, n0, iv. split; [done|]. split; [apply (sv_pos _ _ _ _ _ _ _ _ _ V)|]. split; [lia|].
    split; [exact Hlive|]. split.
    + intros x n Hx. assert (Hxb : x <> b) by by eapply Hnew.
      assert (Hx' : live (<[i:=tp']> (tlsf_root s)) Ls' x n) by (apply Hlive; by left).
      assert (Hb' : live (<[i:=tp']> (tlsf_root s)) Ls' b n0) by (apply Hlive; by right).
      exact (live_disjoint _ _ _ _ _ _ _ (sv_arenas _ _ _ _ _ _ _ _ _ V) Hx' Hb' Hxb).
    + split; [by exists av, Lv|]. split.
      * eexists _, av. cbn [headers tlsf_root]. rewrite lookup_insert_eq. split; [done|]. done.
      * eexists. cbn [headers]. rewrite lookup_insert_eq. split; [done|]. cbn. rewrite u64_small by lia.
        split; [done|]. split; [done|lia].
  - intros Hc. apply (proj1 (stamped_bytes _ _ _ _ _ (proj1 Hreq)) Hc).
  - intros Hz. apply (proj2 (stamped_bytes _ _ _ _ _ (proj1 Hreq)) Hz).
Qed.


(** The system is asked for an arena of [size] bytes and has none. *)
Definition refuses (o : sys) (size : Z) (o' : sys) : Prop :=
  sys_mem_alloc o (u64 (sizeof_tlsf_pool + align8 size)) = (NULL, o').

(** No free block of any arena is in a bucket the search for [tn] bytes looks at. *)
Definition no_fit (ps : list tlsf_pool) (Ls : list (list tile)) (tn : Z) : Prop :=
  forall i tp L x n, ps !! i = Some tp -> Ls !! i = Some L -> (x, n) ∈ frees (raw_area tp) L -> n < rounded tn.

(** Why an allocation of [req] bytes from [s] fails in [s']: there was no arena and the
    system has none; or no free block fits in the arenas there are, and the pool may not
    grow or the system has no arena of the size asked for. *)
Definition out_of_memory (s s' : tstate) (Ls' : list (list tile)) (req : Z) : Prop :=
  let tn := tlsf_total_needed (flags s) req in
  (tlsf_root s = [] /\ refuses (osys s) TLSF_INITIAL (osys s')) \/
  (no_fit (tlsf_root s') Ls' tn /\
     (has_flag (flags s) MP_FLAG_STATIC_BUFFER = true \/
      exists o, refuses o (Z.max TLSF_INITIAL (tn * 2)) (osys s') /\
        match tlsf_root s with
        | [] => exists p, p <> NULL /\ sys_mem_alloc (osys s) (u64 (sizeof_tlsf_pool + align8 TLSF_INITIAL)) = (p, o)
        | _ => o = osys s
        end)).

Context (Hsizeof : 0 < sizeof_tlsf_pool < 2 ^ 32).

Lemma create_total o h size :
  64 <= size < 2 ^ 30 - 8 ->
  exists r h' o', tlsf_create_pool_custom o h size NULL = Done (r, h', o') /\
    match r with
    | None => h' = h /\ regions o' = regions o /\ refuses o size o'
    | Some _ => exists p, p <> NULL /\ sys_mem_alloc o (u64 (sizeof_tlsf_pool + align8 size)) = (p, o')
    end.
Proof.
  intros Hs. unfold tlsf_create_pool_custom. rewrite Z.eqb_refl.
  destruct (align8_bounds size) as [Ha Hm]; [lia|lia|]. unfold refuses. set (sz := align8 size) in *.
  rewrite !(u64_small (sz - SIZEOF_TLSF_BLOCK)) by (unfold SIZEOF_TLSF_BLOCK; lia).
  rewrite (u64_small (sizeof_tlsf_pool + sz)) by lia.
  destruct (sys_mem_alloc o (sizeof_tlsf_pool + sz)) as [raw o1] eqn:Es.
  pose proof (sys_mem_alloc_spec o (sizeof_tlsf_pool + sz) raw o1 ltac:(lia) Es) as Hsys.
  destruct (Z.eqb_spec raw NULL) as [->|].
  { exists None, h, o1. by split_and!. }
  rewrite size_or_free, block_size_mk by (unfold SIZEOF_TLSF_BLOCK; zdiv).
  rewrite mapping_insert_eq by (unfold SIZEOF_TLSF_BLOCK; lia).
  destruct (bucket_ok (sz - SIZEOF_TLSF_BLOCK) ltac:(unfold SIZEOF_TLSF_BLOCK; lia)) as (fl & sl & E & Hfl & Hsl).
  rewrite E. cbn [mbind outcome_bind fst snd]. rewrite (ld_Some _ _ _ (zero_rows_lookup fl Hfl)).
  cbn [mbind outcome_bind]. rewrite (zero_blocks_lookup fl sl Hfl Hsl). cbn [mbind outcome_bind].
  eexists _, _, _. split; [done|]. by exists raw.
Qed.

(** Prepending a fresh arena. *)
Lemma add_pool s Ls size tp h' o' :
  tinv s Ls -> 64 <= size < 2 ^ 30 - 8 ->
  tlsf_create_pool_custom (osys s) (theap s) size NULL = Done (Some tp, h', o') ->
  let L := [(align8 size - SIZEOF_TLSF_BLOCK, true)] in
  pool_ok tp h' L /\ tinv (set_pools (set_sys s o') (tp :: tlsf_root s) h') (L :: Ls) /\
  forall x n, live (tp :: tlsf_root s) (L :: Ls) x n <-> live (tlsf_root s) Ls x n.
Proof.
  intros [A O] Hs Hc L. destruct (create_spec _ _ _ _ _ _ Hc Hs Hsizeof)
    as (Hok & Hin & Hrs & Had & Hpos & Hreg & Hdis).
  split; [done|]. split.
  - split; cbn [tlsf_root theap set_pools osys set_sys].
    + eapply arenas_cons; [exact A|exact Hok|exact Hin|]. intros b Hb.
      destruct (O b Hb) as (_ & Ea & Hr). apply Hdis in Hr. unfold apart. lia.
    + intros a Ha. apply elem_of_cons in Ha as [->|Ha].
      * split; [done|]. split; [done|]. rewrite Hreg. apply list_elem_of_here.
      * destruct (O a Ha) as (? & ? & Hr). split; [done|]. split; [done|]. rewrite Hreg.
        by apply list_elem_of_further.
  - intros x n. rewrite live_cons. subst L. rewrite elem_of_lives_cons. cbn [lives].
    pose proof (not_elem_of_nil (A := Z * Z) (x, n)). assert (true <> false) by done. tauto.
Qed.

(** A state that differs by arenas without live blocks. *)
Record same_live (s s' : tstate) (Ls Ls' : list (list tile)) : Prop := {
  sl_flags : flags s' = flags s;
  sl_live : forall x n, live (tlsf_root s') Ls' x n <-> live (tlsf_root s) Ls x n;
}.

Lemma allocated_weaken s s1 s' Ls Ls1 Ls' req p :
  same_live s s1 Ls Ls1 -> allocated s1 s' Ls1 Ls' req p -> allocated s s' Ls Ls' req p.
Proof.
  intros [F L] [I (b & sz & i & B1 & B2 & B3 & B4 & B5 & B6) C D]. rewrite F in *.
  constructor; [done| |done|done]. exists b, sz, i. split; [done|]. split; [done|]. split; [done|].
  split; [intros x n; by rewrite B4, L|]. split; [|done]. intros x n Hx. apply B5. by apply L.
Qed.

Lemma ensure_root_spec s Ls :
  tinv s Ls ->
  exists ok s' Ls', tlsf_ensure_root s = Done (ok, s') /\ tinv s' Ls' /\ same_live s s' Ls Ls' /\
    if ok then match tlsf_root s with
               | [] => exists p, p <> NULL /\ sys_mem_alloc (osys s) (u64 (sizeof_tlsf_pool + align8 TLSF_INITIAL)) = (p, osys s')
               | _ => osys s' = osys s
               end
    else tlsf_root s = [] /\ refuses (osys s) TLSF_INITIAL (osys s').
Proof.
  intros I. unfold tlsf_ensure_root. destruct (tlsf_root s) as [|tp0 ps] eqn:Er.
  2: { exists true, s, Ls. split; [done|]. split; [done|]. split; [|done]. by rewrite Er || split. }
  destruct (create_total (osys s) (theap s) TLSF_INITIAL ltac:(unfold TLSF_INITIAL; lia))
    as (r & h' & o' & E & Hnone). rewrite E. cbn [mbind outcome_bind]. destruct r as [tp|].
  - destruct (add_pool s Ls TLSF_INITIAL tp h' o' I ltac:(unfold TLSF_INITIAL; lia) E) as (_ & I' & Hl).
    rewrite Er in I', Hl. eexists true, _, _. split; [done|]. split; [|split; [|done]].
    + destruct I' as [A O]. split; [exact A|exact O].
    + split; [done|]. intros x n. cbn [tlsf_root add_pool_size set_pools]. rewrite Hl, Er. done.
  - destruct Hnone as (-> & Hreg & Href). eexists false, _, Ls. split; [done|].
    destruct I as [A O]. split; [|split; [split; [done|by cbn; rewrite Er]|done]].
    split; cbn [tlsf_root theap osys set_pools set_sys]; [exact A|]. rewrite Hreg. exact O.
Qed.

Lemma rounded_le_17 n : 16 <= n -> 16 * rounded n <= 17 * n.
Proof.
  intros Hn. pose proof (rounded_bounds n Hn). pose proof (log2_ge_4 n Hn) as Hl.
  pose proof (log2_bounds n ltac:(lia)) as Hb. rewrite (pow_split _ Hl) in Hb. lia.
Qed.

Lemma alloc_expand_spec s Ls req :
  tinv s Ls -> 0 <= req <= 2 ^ 28 ->
  exists p s' Ls', tlsf_alloc_expand s (tlsf_total_needed (flags s) req) req = Done (p, s') /\
    (p = NULL -> tinv s' Ls' /\ same_live s s' Ls Ls' /\ tlsf_root s' = tlsf_root s /\ Ls' = Ls /\
       refuses (osys s) (Z.max TLSF_INITIAL (tlsf_total_needed (flags s) req * 2)) (osys s')) /\
    (p <> NULL -> allocated s s' Ls Ls' req p).
Proof.
  intros I Hreq. destruct (total_needed_bounds (flags s) req Hreq) as [Hbd Hm].
  set (tn := tlsf_total_needed (flags s) req) in *.
  assert (0 <= (if has_flag (flags s) MP_FLAG_DEBUG_CANARY then 1 else 0) <= 1) by (destruct (has_flag _ _); lia).
  unfold SIZEOF_TLSF_BLOCK, SIZEOF_HEADER in Hbd.
  unfold tlsf_alloc_expand. rewrite (u64_small (tn * 2)) by lia.
  set (ex := if TLSF_INITIAL <? tn * 2 then tn * 2 else TLSF_INITIAL).
  assert (Hex : 64 <= ex < 2 ^ 30 - 8 /\ 2 * tn <= ex /\ 4194304 <= ex).
  { subst ex. unfold TLSF_INITIAL. destruct (Z.ltb_spec (4 * 1024 * 1024) (tn * 2)); lia. }
  assert (Emax : Z.max TLSF_INITIAL (tn * 2) = ex).
  { subst ex. destruct (Z.ltb_spec TLSF_INITIAL (tn * 2)); lia. }
  rewrite Emax.
  destruct (create_total (osys s) (theap s) ex ltac:(lia)) as (r & h' & o' & E & Hnone). rewrite E.
  cbn [mbind outcome_bind]. destruct r as [tp|].
  - destruct (add_pool s Ls ex tp h' o' I ltac:(lia) E) as (Hok & I' & Hl).
    set (L := [_]) in *. set (s1 := set_pools _ _ _) in I'.
    destruct (find_take_spec tp h' L tn Hok ltac:(lia) Hm)
      as (b & -> & [[-> Hno]|(Hb & l1 & sz & l2 & tp' & h2 & EL & Hbe & Hsz & Et & Hok' & Hs & Hin)]).
    { exfalso. pose proof (rounded_le_17 tn ltac:(lia)). destruct (align8_bounds ex) as [Ha _]; [lia|lia|].
      specialize (Hno (raw_area tp) (align8 ex - SIZEOF_TLSF_BLOCK)). unfold SIZEOF_TLSF_BLOCK in *.
      assert (align8 ex - 32 < rounded tn); [|lia]. apply Hno. subst L. apply elem_of_frees_cons. by left. }
    cbn [mbind outcome_bind]. destruct (Z.eqb_spec b NULL); [done|]. rewrite Et. cbn [mbind outcome_bind].
    set (s2 := add_pool_size _ _).
    assert (I2 : tinv s2 (L :: Ls)) by (destruct I' as [A O]; split; [exact A|exact O]).
    destruct (stamp_spec s2 (tp' :: tlsf_root s) h2 (L :: Ls) req b (tp_addr tp') tn I2 eq_refl Hreq)
      as (Ls' & Hal).
    { exists 0%nat, tp, l1, sz, l2, tp'. rewrite <- EL. split_and!; done. }
    destruct (tlsf_stamp _ _ _ _ _) as [p s'] eqn:Est. cbn [fst snd] in Hal.
    exists p, s', Ls'. split; [done|].
    assert (Hsl : same_live s s2 Ls (L :: Ls)) by by split.
    pose proof (allocated_weaken _ _ _ _ _ _ _ _ Hsl Hal) as Hal'. split; [|done].
    intros ->. destruct Hal' as [_ (b0 & sz0 & i0 & Hp & Hpos & _) _ _].
    unfold NULL, SIZEOF_TLSF_BLOCK, SIZEOF_HEADER in *. lia.
  - destruct Hnone as (-> & Hreg & Href). eexists NULL, _, Ls. split; [done|].
    split; [|done]. intros _. destruct I as [A O]. split; [|split; [by split|by split_and!]].
    split; cbn [tlsf_root theap osys set_pools set_sys]; [exact A|]. rewrite Hreg. exact O.
Qed.

Lemma alloc_cases s Ls req :
  tinv s Ls -> 0 <= req <= 2 ^ 28 ->
  exists p s' Ls', tlsf_alloc s req = Done (p, s') /\
    (p = NULL -> tinv s' Ls' /\ same_live s s' Ls Ls' /\ out_of_memory s s' Ls' req) /\
    (p <> NULL -> allocated s s' Ls Ls' req p).
Proof.
  intros I Hreq. destruct (total_needed_bounds (flags s) req Hreq) as [Hbd Hm].
  assert (0 <= (if has_flag (flags s) MP_FLAG_DEBUG_CANARY then 1 else 0) <= 1) by (destruct (has_flag _ _); lia).
  unfold SIZEOF_TLSF_BLOCK, SIZEOF_HEADER in Hbd.
  unfold tlsf_alloc. destruct (ensure_root_spec s Ls I) as (ok & s1 & Ls1 & -> & I1 & Hsl & Hfail).
  pose proof Hsl as [Hfl Hlv]. cbn [mbind outcome_bind]. destruct ok; cbn [negb].
  2: { exists NULL, s1, Ls1. split; [done|]. split; [|done]. intros _. split; [done|]. split; [done|]. by left. }
  destruct (alloc_walk_spec (tlsf_root s1) (theap s1) Ls1 (tlsf_total_needed (flags s) req)
    (ar_pools _ _ _ (ti_arenas _ _ I1)) ltac:(lia) Hm) as (res & ps & h & -> & Hres).
  cbn [mbind outcome_bind]. destruct res as [[b addr]|].
  - destruct (stamp_spec s1 ps h Ls1 req b addr (tlsf_total_needed (flags s) req) I1 ltac:(by rewrite Hfl) Hreq Hres)
      as (Ls' & Hal).
    destruct (tlsf_stamp _ _ _ _ _) as [p s'] eqn:Est. cbn [fst snd] in Hal.
    exists p, s', Ls'. split; [done|].
    pose proof (allocated_weaken _ _ _ _ _ _ _ _ Hsl Hal) as Hal'. split; [|done].
    intros ->. destruct Hal' as [_ (b0 & sz0 & i0 & Hp & Hpos & _) _ _].
    unfold NULL, SIZEOF_TLSF_BLOCK, SIZEOF_HEADER in *. lia.
  - destruct Hres as (-> & -> & Hno).
    assert (Es : set_pools s1 (tlsf_root s1) (theap s1) = s1) by by destruct s1.
    rewrite Es, Hfl. destruct (has_flag (flags s) MP_FLAG_STATIC_BUFFER) eqn:Est.
    + exists NULL, s1, Ls1. split; [done|]. split; [|done]. intros _. split; [done|]. split; [done|].
      right. split; [exact Hno|by left].
    + destruct (alloc_expand_spec s1 Ls1 req I1 Hreq) as (p & s2 & Ls2 & E & Hn & Hy). rewrite Hfl in E.
      rewrite E. exists p, s2, Ls2. split; [done|]. split.
      * intros Hp. destruct (Hn Hp) as (I2 & [F2 L2] & Er & -> & Href). split; [done|]. split.
        { split; [congruence|]. intros x n. by rewrite L2, Hlv. }
        right. rewrite Er. split; [exact Hno|]. right. exists (osys s1). rewrite Hfl in Href. by split.
      * intros Hp. eapply allocated_weaken; [exact Hsl|by apply Hy].
Qed.


(** ** Release and growth *)

Lemma find_pool_spec s Ls i tp :
  tinv s Ls -> tlsf_root s !! i = Some tp -> find_pool s (tp_addr tp) = Done (i, tp).
Proof.
  intros [A O] Hi. unfold find_pool.
  assert (E : list_find (fun a => tp_addr a = tp_addr tp) (tlsf_root s) = Some (i, tp)).
  { apply list_find_Some. split; [done|]. split; [done|]. intros j a Ha Hji Eq.
    destruct (arenas_lookup _ _ _ _ _ A Ha) as (La & _ & Hoka).
    destruct (arenas_lookup _ _ _ _ _ A Hi) as (L & _ & Hok).
    pose proof (pool_ok_pos _ _ _ Hoka). pose proof (pool_ok_pos _ _ _ Hok).
    destruct (O a) as (_ & E1 & _); [by eapply list_elem_of_lookup_2|].
    destruct (O tp) as (_ & E2 & _); [by eapply list_elem_of_lookup_2|].
    destruct (ar_apart _ _ _ A j i a tp ltac:(lia) Ha Hi); lia. }
  by rewrite E.
Qed.

Lemma owned_update s Ls i tp tp' :
  tinv s Ls -> tlsf_root s !! i = Some tp -> same_pool tp tp' ->
  forall a, a ∈ <[i := tp']> (tlsf_root s) -> 0 < tp_addr a /\ tp_addr a + sizeof_tlsf_pool = raw_area a /\
    (tp_addr a, sizeof_tlsf_pool + raw_size a) ∈ regions (osys s).
Proof.
  intros [_ O] Hi (E1 & E2 & E3) a Ha. apply list_elem_of_lookup_1 in Ha as [j Ha].
  apply list_lookup_insert_Some in Ha as [(<- & <- & _)|[_ Ha]].
  - rewrite E1, E2, E3. apply O. by eapply list_elem_of_lookup_2.
  - apply O. by eapply list_elem_of_lookup_2.
Qed.

(** Replacing the tile of a live block by anything that leaves the others alone. *)
Lemma live_replace ps h Ls i tp tp' l1 n l2 L' (P : Z -> Z -> Prop) x m :
  arenas_ok ps h Ls -> ps !! i = Some tp -> Ls !! i = Some (l1 ++ (n, false) :: l2) -> raw_area tp' = raw_area tp ->
  (forall x m, (x, m) ∈ lives (raw_area tp) L' <->
     (x, m) ∈ lives (raw_area tp) l1 \/ P x m \/ (x, m) ∈ lives (raw_area tp + extent l1 + n) l2) ->
  live (<[i := tp']> ps) (<[i := L']> Ls) x m <-> (live ps Ls x m /\ x <> raw_area tp + extent l1) \/ P x m.
Proof.
  clear Hsizeof. intros A Hi HL Hr HL'. rewrite (live_update _ _ i tp), (live_at _ _ i tp) by done. rewrite HL'.
  rewrite elem_of_lives_app, elem_of_lives_cons. set (b := raw_area tp + extent l1) in *.
  destruct (arenas_lookup _ _ _ _ _ A Hi) as (L0 & HL0 & Hok). assert (L0 = l1 ++ (n, false) :: l2) as -> by (apply (inj Some); by rewrite <- HL0).
  pose proof Hok as [[Hp _] _ _ _ _]. apply phys_app in Hp as [Hp1 Hp2]. fold b in Hp2. cbn [phys] in Hp2.
  destruct Hp2 as ([Hmin _] & _ & _ & _ & _ & Hp3). unfold TLSF_MIN_BLOCK_SIZE in Hmin.
  assert (Hb : (b, n) ∈ lives (raw_area tp) (l1 ++ (n, false) :: l2)) by (rewrite elem_of_lives_app, elem_of_lives_cons; auto).
  assert (H1 : (x, m) ∈ lives (raw_area tp) l1 -> x <> b).
  { intros Hx. pose proof (lives_range _ _ _ _ _ _ _ Hp1 Hx) as (? & ? & [? _]). unfold TLSF_MIN_BLOCK_SIZE in *. lia. }
  assert (H2 : (x, m) ∈ lives (b + n) l2 -> x <> b).
  { intros Hx. pose proof (lives_range _ _ _ _ _ _ _ Hp3 Hx). lia. }
  assert (H3 : (exists j a La, j <> i /\ ps !! j = Some a /\ Ls !! j = Some La /\ (x, m) ∈ lives (raw_area a) La) -> x <> b).
  { intros (j & a & La & Hji & Ha & HLa & Hx). pose proof (live_range _ _ _ _ _ _ _ _ A Ha HLa Hx).
    pose proof (live_range _ _ _ _ _ _ _ _ A Hi HL Hb). destruct (ar_apart _ _ _ A j i a tp Hji Ha Hi); lia. }
  tauto.
Qed.

Lemma free_cases s Ls i hdr b n :
  tinv s Ls -> live_in s Ls i b n -> header_ok s hdr b i ->
  exists s' Ls', tlsf_free s hdr = Done s' /\ tinv s' Ls' /\
    (forall x m, live (tlsf_root s') Ls' x m <-> live (tlsf_root s) Ls x m /\ x <> b) /\
    (exists tp l1 l2 q, tlsf_root s !! i = Some tp /\ Ls !! i = Some (l1 ++ (n, false) :: l2) /\
       b = raw_area tp + extent l1 /\ bit_of (flast false l1) q /\ Ls' = <[i := coalesce_if q l1 n l2]> Ls /\
       (tight = true -> coalesce_if q l1 n l2 = coalesce l1 n l2)).
Proof.
  intros I (tp & L & Hi & HL & Hb) (hd & tp0 & Hhd & _ & Hfl & Hraw & Hi0 & Hsub).
  assert (tp0 = tp) as -> by congruence. pose proof I as [A O].
  destruct (arenas_lookup _ _ _ _ _ A Hi) as (L0 & HL0 & Hok). assert (L0 = L) as -> by congruence.
  pose proof Hok as [[Hp _] _ _ _ _].
  destruct (lives_split _ _ _ _ _ _ _ Hp Hb) as (l1 & l2 & -> & Hbe).
  destruct (tlsf_free_block_spec tp (theap s) l1 n l2 b Hok Hbe) as (q & tp' & h' & Hq & E & Hok' & Hs & Hin).
  unfold tlsf_free, ld_header. rewrite Hhd. cbn [mbind outcome_bind]. rewrite Hfl, Hsub.
  rewrite (find_pool_spec s Ls i tp I Hi). cbn [mbind outcome_bind]. rewrite Hraw, E. cbn [mbind outcome_bind].
  eexists _, (<[i := coalesce_if q l1 n l2]> Ls). split; [done|]. split; [|split].
  - split; cbn [tlsf_root theap osys]; [by eapply arenas_update|]. by eapply owned_update.
  - intros x m. cbn [tlsf_root]. rewrite (live_replace _ _ _ i tp tp' l1 n l2 _ (fun _ _ => False) x m A Hi HL (proj1 Hs)), <- Hbe; [tauto|].
    intros y k. rewrite lives_coalesce_if. tauto.
  - exists tp, l1, l2, q. split_and!; try done. intros Ht. by rewrite <- (bit_of_tight _ _ Hq Ht), coalesce_if_flast.
Qed.

Lemma expand_cases s Ls i hdr b n new_size :
  tinv s Ls -> live_in s Ls i b n -> header_ok s hdr b i -> 0 <= new_size <= 2 ^ 28 ->
  exists ok s', tlsf_try_inplace_expand s hdr new_size = Done (ok, s') /\
    (ok = false -> s' = s) /\
    (ok = true -> exists Ls' n' hd', tinv s' Ls' /\
       SIZEOF_TLSF_BLOCK + SIZEOF_HEADER + new_size <= n' /\
       (forall x m, live (tlsf_root s') Ls' x m <-> (live (tlsf_root s) Ls x m /\ x <> b) \/ (x = b /\ m = n')) /\
       headers s' !! hdr = Some hd' /\ requested_size hd' = new_size /\ raw_base hd' = b).
Proof.
  intros I (tp & L & Hi & HL & Hb) (hd & tp0 & Hhd & Hty & Hfl & Hraw & Hi0 & Hsub) Hnew.
  assert (tp0 = tp) as -> by congruence. pose proof I as [A O].
  destruct (arenas_lookup _ _ _ _ _ A Hi) as (L0 & HL0 & Hok). assert (L0 = L) as -> by congruence.
  pose proof Hok as [[Hp _] _ _ _ Hbase]. destruct (O tp) as (Hap & _); [by eapply list_elem_of_lookup_2|].
  destruct (lives_split _ _ _ _ _ _ _ Hp Hb) as (l1 & l2 & -> & Hbe).
  apply phys_app in Hp as [Hp1 Hp2]. pose proof (phys_extent _ _ _ _ _ Hp1).
  cbn [phys] in Hp2. destruct Hp2 as ([Hmin _] & _ & _ & _ & _ & Hp3). rewrite <- Hbe in Hp3.
  unfold TLSF_MIN_BLOCK_SIZE in Hmin.
  destruct (total_needed_bounds (flags s) new_size Hnew) as [Hbd Hm].
  assert (Hcan : 0 <= (if has_flag (flags s) MP_FLAG_DEBUG_CANARY then 1 else 0) <= 1) by (destruct (has_flag (flags s) MP_FLAG_DEBUG_CANARY); clear; lia).
  set (tn := tlsf_total_needed (flags s) new_size) in *. unfold SIZEOF_TLSF_BLOCK, SIZEOF_HEADER in Hbd.
  unfold tlsf_try_inplace_expand, ld_header. fold tn. rewrite Hhd. cbn [mbind outcome_bind]. rewrite Hty. cbn [negb].
  change (negb (ALLOC_TYPE_TLSF =? ALLOC_TYPE_TLSF)) with false. cbn match.
  rewrite Hraw, (proj2 (Z.eqb_neq b NULL)), Hsub, (proj2 (Z.eqb_neq (tp_addr tp) NULL)), Hfl by (unfold NULL; lia).
  cbn [orb]. rewrite (find_pool_spec s Ls i tp I Hi). cbn [mbind outcome_bind].
  pose proof (tlsf_expand_block_spec tp (theap s) l1 n l2 b tn Hok Hbe ltac:(lia) Hm) as HE.
  destruct (expanded l1 n tn l2) as [L'|] eqn:Eex.
  2: { rewrite HE. cbn [mbind outcome_bind negb]. exists false, s. done. }
  destruct HE as (tp' & h' & -> & Hok' & Hs & Hin). cbn [mbind outcome_bind negb].
  pose proof Hok' as [[Hp' _] _ _ _ _]. pose proof Hs as (S1 & S2 & S3). rewrite S1 in Hp'.
  assert (Hw : exists w, size_and_flags h' !! b = Some w).
  { unfold expanded in Eex. destruct l2 as [|[m []] l2]; [done| |done]. destruct (tn <=? n + m); [|done].
    injection Eex as <-. apply phys_app in Hp' as [_ Hp']. rewrite <- Hbe in Hp'.
    unfold split_tiles in Hp'. destruct (_ <=? _); cbn [app phys] in Hp'; destruct Hp' as (_ & (qw & _ & Hw) & _); eauto. }
  destruct Hw as [w Hw]. rewrite (ld_Some _ _ _ Hw). cbn [mbind outcome_bind].
  eexists true, _. split; [done|]. split; [done|]. intros _.
  assert (Hlv : exists n', tn <= n' /\ forall x m, (x, m) ∈ lives (raw_area tp) L' <->
    (x, m) ∈ lives (raw_area tp) l1 \/ (x = b /\ m = n') \/ (x, m) ∈ lives (b + n) l2).
  { unfold expanded in Eex. destruct l2 as [|[m0 []] l2]; [done| |done].
    destruct (Z.leb_spec tn (n + m0)); [|done]. injection Eex as <-.
    exists (taken (n + m0) tn). split; [by apply taken_bounds|]. intros x m.
    rewrite lives_take, elem_of_lives_app, !elem_of_lives_cons, Z.add_assoc, <- Hbe. assert (true <> false) by done. tauto. }
  destruct Hlv as (n' & Hn' & Hlv).
  eexists (<[i := L']> Ls), n', _. split; [|split; [unfold SIZEOF_TLSF_BLOCK, SIZEOF_HEADER; lia|split; [|split]]].
  - split; cbn [tlsf_root theap osys]; [by eapply arenas_update|]. by eapply owned_update.
  - intros x m. cbn [tlsf_root]. rewrite (live_replace _ _ _ i tp tp' l1 n l2 _ (fun y k => y = b /\ k = n') x m A Hi HL S1), <- Hbe; [tauto|].
    intros y k. rewrite Hlv, <- Hbe. tauto.
  - cbn. by rewrite lookup_insert_eq.
  - done.
Qed.


(** C3: allocation from the TLSF tier is total and sound.  It never faults.  A pointer
    it returns is the payload of a block that was not live, lies in one arena, overlaps no
    live block, and is large enough for the headers, the request and the canary; the
    header, the canary byte and the zero fill are in place, and the tier's invariant
    (tiling, boundary tags, bitmap index, and coalescing under the tight discipline) holds
    again.  It returns [NULL], with the live blocks unchanged, only when there is no arena
    and the system refuses the first one, or when no free block of any arena fits and the
    pool is a static one or the system refuses an arena of the size the code asks for. *)
Theorem tlsf_alloc_spec s Ls req :
  tinv s Ls -> 0 <= req <= 2 ^ 28 ->
  exists p s' Ls', tlsf_alloc s req = Done (p, s') /\
    (p = NULL -> tinv s' Ls' /\ same_live s s' Ls Ls' /\ out_of_memory s s' Ls' req) /\
    (p <> NULL -> allocated s s' Ls Ls' req p).
Proof. apply alloc_cases. Qed.

(** C4: releasing a live block never faults, removes exactly that block from the live
    ones, and coalesces: the released tile absorbs the next tile if that is free and the
    previous one if its tag says so; the invariant holds again.  Under the tight discipline,
    which has no two adjacent free tiles, that is every free neighbour. *)
Theorem tlsf_free_spec s Ls i hdr b n :
  tinv s Ls -> live_in s Ls i b n -> header_ok s hdr b i ->
  exists s' Ls', tlsf_free s hdr = Done s' /\ tinv s' Ls' /\
    (forall x m, live (tlsf_root s') Ls' x m <-> live (tlsf_root s) Ls x m /\ x <> b) /\
    (exists tp l1 l2 q, tlsf_root s !! i = Some tp /\ Ls !! i = Some (l1 ++ (n, false) :: l2) /\
       b = raw_area tp + extent l1 /\ bit_of (flast false l1) q /\ Ls' = <[i := coalesce_if q l1 n l2]> Ls /\
       (tight = true -> coalesce_if q l1 n l2 = coalesce l1 n l2)).
Proof. apply free_cases. Qed.

(** An allocation followed by the release of its result leaves exactly the blocks
    that were live before. *)
Theorem tlsf_alloc_free s Ls req p s1 :
  tinv s Ls -> 0 <= req <= 2 ^ 28 -> tlsf_alloc s req = Done (p, s1) -> p <> NULL ->
  exists s2 Ls2, tlsf_free s1 (p - SIZEOF_HEADER) = Done s2 /\ tinv s2 Ls2 /\
    forall x n, live (tlsf_root s2) Ls2 x n <-> live (tlsf_root s) Ls x n.
Proof.
  intros I Hr E Hp. destruct (alloc_cases s Ls req I Hr) as (p' & s' & Ls1 & E' & _ & Hal).
  rewrite E in E'. injection E' as <- <-. specialize (Hal Hp).
  destruct Hal as [I1 (b & sz & i & Hpb & Hpos & Hsz & Hlive & Hfresh & Hin & Hhd & _) _ _].
  replace (p - SIZEOF_HEADER) with (b + SIZEOF_TLSF_BLOCK) by lia.
  destruct (free_cases s1 Ls1 i _ b sz I1 Hin Hhd) as (s2 & Ls2 & E2 & I2 & Hl2 & _).
  exists s2, Ls2. split; [done|]. split; [done|]. intros x n. rewrite Hl2, Hlive.
  unfold SIZEOF_TLSF_BLOCK, SIZEOF_HEADER in *.
  assert (Hc : 0 <= (if has_flag (flags s) MP_FLAG_DEBUG_CANARY then 1 else 0) <= 1)
    by (destruct (has_flag (flags s) MP_FLAG_DEBUG_CANARY); clear; lia).
  split; [tauto|]. intros Hx. split; [by left|]. intros ->. pose proof Hx as Hy. apply Hfresh in Hx as Hx'.
  destruct Hy as (j & a & La & Hj & HLj & Hy).
  pose proof (live_range _ _ _ _ _ _ _ _ (ti_arenas _ _ I) Hj HLj Hy). lia.
Qed.

(** C16: growing in place is all or nothing: either the state is untouched and the call
    returns false, or the block keeps its address, becomes large enough for the new
    request, its header records the new size, and no other live block changes. *)
Theorem tlsf_expand_spec s Ls i hdr b n new_size :
  tinv s Ls -> live_in s Ls i b n -> header_ok s hdr b i -> 0 <= new_size <= 2 ^ 28 ->
  exists ok s', tlsf_try_inplace_expand s hdr new_size = Done (ok, s') /\
    (ok = false -> s' = s) /\
    (ok = true -> exists Ls' n' hd', tinv s' Ls' /\
       SIZEOF_TLSF_BLOCK + SIZEOF_HEADER + new_size <= n' /\
       (forall x m, live (tlsf_root s') Ls' x m <-> (live (tlsf_root s) Ls x m /\ x <> b) \/ (x = b /\ m = n')) /\
       headers s' !! hdr = Some hd' /\ requested_size hd' = new_size /\ raw_base hd' = b).
Proof. apply expand_cases. Qed.

End Tlsf.

(** ** Concrete arenas *)

(** A system that places regions one after the other below 2^40. *)
Definition next_free_address (rs : list (Z * Z)) : Z := foldr (fun '(p, n) m => Z.max (p + n) m) 4096 rs.

Lemma next_free_address_above rs q m : (q, m) ∈ rs -> q + m <= next_free_address rs.
Proof.
  induction rs as [|[p n] rs IH]; [intros H; by apply not_elem_of_nil in H|].
  unfold next_free_address in *. cbn [foldr]. rewrite elem_of_cons.
  intros [E|H]; [injection E as -> ->; lia|apply IH in H; lia].
Qed.

Lemma next_free_address_pos rs : 4096 <= next_free_address rs.
Proof. induction rs as [|[p n] rs IH]; cbn; [done|]. unfold next_free_address in *. lia. Qed.

#[local] Instance demo_sys : SysMem.
Proof.
  refine {|
    sys := list (Z * Z);
    sys_mem_alloc rs n :=
      let p := next_free_address rs in if p + n <? 2 ^ 40 then (p, (p, n) :: rs) else (NULL, rs);
    regions rs := rs;
  |}.
  intros o n p o' Hn. cbv zeta. pose proof (next_free_address_pos o). destruct (Z.ltb_spec (next_free_address o + n) (2 ^ 40)).
  - intros [= <- <-]. rewrite (proj2 (Z.eqb_neq _ NULL)) by (unfold NULL; lia).
    split; [lia|]. split; [lia|]. split; [done|]. intros q m Hq. right. by apply next_free_address_above.
  - intros [= <- <-]. done.
Defined.

#[local] Instance demo_discipline : Discipline := tight_discipline.

Definition demo_state : tstate :=
  TState MP_FLAG_DEBUG_CANARY [] (Heap ∅ ∅ (Links ∅ ∅)) ∅ (fun _ => 0) 0 0 [].

Lemma demo_inv : tinv 23240 demo_state [].
Proof.
  split; [split; [constructor|done]|]. intros tp Htp. by apply not_elem_of_nil in Htp.
Qed.

Definition demo_alloc := tlsf_alloc 23240 demo_state 1000.

(** The first allocation creates the arena and carves its first block. *)
Example demo_alloc_address :
  match demo_alloc with Done (p, s) => (p, total_pool_size s, tlsf_allocated_bytes s) | _ => (0, 0, 0) end =
  (4096 + 23240 + 32 + 152, 4194304 + 23240, 1008).
Proof. vm_compute. reflexivity. Qed.

Lemma tlsf_alloc_spec_witness :
  exists p s' Ls', tlsf_alloc 23240 demo_state 1000 = Done (p, s') /\
    (p <> NULL -> allocated 23240 demo_state s' [] Ls' 1000 p).
Proof.
  destruct (tlsf_alloc_spec 23240 ltac:(lia) demo_state [] 1000 demo_inv ltac:(lia))
    as (p & s' & Ls' & E & _ & Hp).
  exists p, s', Ls'. exact (conj E Hp).
Defined.

Definition demo_after : tstate := match demo_alloc with Done (_, s) => s | _ => demo_state end.

Lemma demo_alloc_eq : tlsf_alloc 23240 demo_state 1000 = Done (27520, demo_after).
Proof.
  assert (E : match demo_alloc with Done (p, _) => p =? 27520 | _ => false end = true) by (vm_compute; reflexivity).
  unfold demo_after, demo_alloc in *. destruct (tlsf_alloc 23240 demo_state 1000) as [[p s]| |]; [|done..].
  apply Z.eqb_eq in E. by subst p.
Qed.

Lemma tlsf_alloc_free_witness :
  exists s2 Ls2, tlsf_free demo_after (27520 - SIZEOF_HEADER) = Done s2 /\
    tinv 23240 s2 Ls2 /\
    forall x n, live (tlsf_root s2) Ls2 x n <-> live (tlsf_root demo_state) [] x n.
Proof.
  exact (tlsf_alloc_free 23240 ltac:(lia) demo_state [] 1000 27520 demo_after demo_inv ltac:(lia)
    demo_alloc_eq ltac:(discriminate)).
Defined.

(** A state with one live block, for the operations that need one. *)
Lemma demo_live :
  exists s Ls i hdr b n, tinv 23240 s Ls /\ live_in s Ls i b n /\ header_ok s hdr b i.
Proof.
  assert (N : 27520 <> NULL) by (unfold NULL; lia).
  destruct (alloc_cases 23240 ltac:(lia) demo_state [] 1000 demo_inv ltac:(lia)) as (p & s' & Ls' & E & _ & Hal).
  pose proof (f_equal (fun o => match o with Done (q, _) => q | _ => 0 end) E) as Ep.
  rewrite demo_alloc_eq in Ep. cbn beta iota in Ep. subst p.
  destruct (Hal N) as [I (b & sz & i & _ & _ & _ & _ & _ & Hin & Hhd & _) _ _].
  exists s', Ls', i, (b + SIZEOF_TLSF_BLOCK), b, sz. exact (conj I (conj Hin Hhd)).
Qed.

Lemma tlsf_free_spec_witness :
  exists s hdr s' Ls', tlsf_free s hdr = Done s' /\ tinv 23240 s' Ls'.
Proof.
  destruct demo_live as (s & Ls & i & hdr & b & n & I & Hin & Hhd).
  destruct (tlsf_free_spec 23240 ltac:(lia) s Ls i hdr b n I Hin Hhd) as (s' & Ls' & E & I' & _).
  exists s, hdr, s', Ls'. exact (conj E I').
Defined.

Lemma tlsf_expand_spec_witness :
  exists s hdr ok s', tlsf_try_inplace_expand s hdr 2000 = Done (ok, s').
Proof.
  destruct demo_live as (s & Ls & i & hdr & b & n & I & Hin & Hhd).
  destruct (tlsf_expand_spec 23240 ltac:(lia) s Ls i hdr b n 2000 I Hin Hhd ltac:(lia)) as (ok & s' & E & _).
  exists s, hdr, ok, s'. exact E.
Defined.
