(* ===== verification/TlsfCache.v ===== *)
(** * The per-thread cache of TLSF blocks

    [mp_alloc_internal] and [mp_free] of [src/cmem_alloc.c] keep released medium-sized blocks
    in eight small stacks of the calling thread, and [tls_cache_flush_pool]
    ([src/cmem_slab.c]) and [mp_realloc] empty them.  A parked block is still live for the
    shared tier.  One thread; a pool without a per-thread arena (those are in [Arena]). *)
From S2P Require Import Prelude Dll TlsfMap BlockHeap Header Tlsf TlsfPool.
From Stdlib Require Import ZArith Lia.
From stdpp Require Import base option list gmap.
Open Scope Z_scope.

Definition TLSF_CACHE_MIN_FL : Z := 6.
Definition TLSF_CACHE_SIZES : Z := 8.
Definition TLSF_CACHE_MAX_SLOTS : Z := 8.

Record tlsf_cache_entry := Entry { e_block : Z; e_tpool : Z; e_next : Z }.

(** The arrays of [tls_cache].  A pointer to [tlsf_entries[k]] is [k + 1]. *)
Record tls_cache := TCache {
  tlsf_slots : gmap Z Z;
  tlsf_counts : gmap Z Z;
  tlsf_entries : gmap Z tlsf_cache_entry;
}.

Definition entry_at (k : Z) : Z := k + 1.
Definition ld_entry (c : tls_cache) (p : Z) : outcome tlsf_cache_entry :=
  match tlsf_entries c !! (p - 1) with Some e => Done e | None => Fault end.

(** [cache_idx], when it is in range. *)
Definition cache_index (size : Z) : outcome (option Z) :=
  fl ← tlsf_block_size_to_fl size;
  let cache_idx := fl - TLSF_CACHE_MIN_FL in
  Done (if (0 <=? cache_idx) && (cache_idx <? TLSF_CACHE_SIZES) then Some cache_idx else None).

Definition cache_unlink (c : tls_cache) (i : Z) : outcome (tlsf_cache_entry * tls_cache) :=
  p ← ld (tlsf_slots c) i;
  e ← ld_entry c p;
  Done (e, TCache (<[i := e_next e]> (tlsf_slots c)) (tlsf_counts c) (tlsf_entries c)).

Definition set_count (c : tls_cache) (i n : Z) : tls_cache :=
  TCache (tlsf_slots c) (<[i := n]> (tlsf_counts c)) (tlsf_entries c).

Definition cache_push (c : tls_cache) (i n block tpool : Z) : outcome tls_cache :=
  head ← ld (tlsf_slots c) i;
  let k := i * TLSF_CACHE_MAX_SLOTS + n in
  Done (TCache (<[i := entry_at k]> (tlsf_slots c)) (<[i := n + 1]> (tlsf_counts c))
          (<[k := Entry block tpool head]> (tlsf_entries c))).

Section Cache.
Context `{SysMem}.
Context (sizeof_tlsf_pool : Z).

(** [size_and_flags |= BLOCK_STATE_FREE; tlsf_insert_free_block(tpool, block)]. *)
Definition unpark (s : tstate) (block tpool : Z) : outcome tstate :=
  sf ← ld (size_and_flags (theap s)) block;
  h ← set_sf (theap s) block (Z.lor sf BLOCK_STATE_FREE);
  r ← find_pool s tpool;
  let '(i, tp) := r in
  r ← tlsf_insert_free_block_nolock tp h block;
  let '(tp, h) := r in
  Done (set_pools s (<[i := tp]> (tlsf_root s)) h).

(** A parked block of the right size is stamped again. *)
Definition cache_stamp (s : tstate) (block tpool sf total_needed size : Z) : outcome (Z * tstate) :=
  let hdr := block + SIZEOF_TLSF_BLOCK in
  h ← set_sf (theap s) block (Z.lor total_needed (Z.land sf BLOCK_STATE_PREV_FREE));
  let usable := u64 (total_needed - SIZEOF_TLSF_BLOCK - SIZEOF_HEADER) in
  let p := hdr + SIZEOF_HEADER in
  let m := if has_flag (flags s) MP_FLAG_DEBUG_CANARY then fill (payload s) (p + size) 1 MP_CANARY_BYTE
           else payload s in
  let m := if has_flag (flags s) MP_FLAG_ZERO_ON_ALLOC then fill m p size 0 else m in
  Done (p, TState (flags s) (tlsf_root s) h
    (<[hdr := Header MP_MAGIC_HEAD ALLOC_TYPE_TLSF 0 MP_BLOCK_FLAG_COUNTED size usable block tpool NULL 0 NULL 0]> (headers s))
    m (u64 (tlsf_allocated_bytes s + usable)) (total_pool_size s) (osys s)).

(** The cache lookup: a payload address, or [NULL] for a miss. *)
Definition cache_lookup (s : tstate) (c : tls_cache) (total_needed size : Z) : outcome (Z * tstate * tls_cache) :=
  i ← cache_index total_needed;
  match i with
  | None => Done (NULL, s, c)
  | Some i =>
      n ← ld (tlsf_counts c) i;
      if 0 <? n then
        r ← cache_unlink c i;
        let '(entry, c) := r in
        let c := set_count c i (n - 1) in
        sf ← ld (size_and_flags (theap s)) (e_block entry);
        if negb (block_size sf =? total_needed) then
          s ← unpark s (e_block entry) (e_tpool entry);
          Done (NULL, s, c)
        else
          r ← cache_stamp s (e_block entry) (e_tpool entry) sf total_needed size;
          let '(p, s) := r in Done (p, s, c)
      else Done (NULL, s, c)
  end.

(** The TLSF branch of [mp_alloc_internal]. *)
Definition medium_alloc (s : tstate) (c : tls_cache) (size : Z) : outcome (Z * tstate * tls_cache) :=
  r ← cache_lookup s c (tlsf_total_needed (flags s) size) size;
  let '(p, s, c) := r in
  if p =? NULL then
    r ← tlsf_alloc sizeof_tlsf_pool s size;
    let '(p, s) := r in Done (p, s, c)
  else Done (p, s, c).

(** The branch of [mp_free] for a shared TLSF block. *)
Definition medium_free (s : tstate) (c : tls_cache) (hdr : Z) : outcome (tstate * tls_cache) :=
  header ← ld_header s hdr;
  let size := u64 (usable_size header + SIZEOF_TLSF_BLOCK + SIZEOF_HEADER) in
  i ← cache_index size;
  match i with
  | Some i =>
      n ← ld (tlsf_counts c) i;
      if n <? TLSF_CACHE_MAX_SLOTS then
        c ← cache_push c i n (raw_base header) (subpool header);
        Done (s, c)
      else s ← tlsf_free s hdr; Done (s, c)
  | None => s ← tlsf_free s hdr; Done (s, c)
  end.
(** [while (tls_cache.tlsf_slots[i])]. *)
Fixpoint flush_class (fuel : nat) (s : tstate) (c : tls_cache) (i : Z) : outcome (tstate * tls_cache) :=
  match fuel with
  | O => Fault
  | S fuel =>
      p ← ld (tlsf_slots c) i;
      if p =? NULL then Done (s, c)
      else
        r ← cache_unlink c i;
        let '(entry, c) := r in
        s ← unpark s (e_block entry) (e_tpool entry);
        flush_class fuel s c i
  end.

(** [for (int i = 0; i < TLSF_CACHE_SIZES; i++)], over the classes still to do. *)
Fixpoint flush_classes (s : tstate) (c : tls_cache) (todo : list Z) : outcome (tstate * tls_cache) :=
  match todo with
  | [] => Done (s, c)
  | i :: todo =>
      r ← flush_class (S (Z.to_nat TLSF_CACHE_MAX_SLOTS)) s c i;
      let '(s, c) := r in
      flush_classes s (set_count c i 0) todo
  end.

Definition tlsf_cache_flush (s : tstate) (c : tls_cache) : outcome (tstate * tls_cache) :=
  flush_classes s c (seqZ 0 TLSF_CACHE_SIZES).

(** [mp_realloc] on a shared TLSF block that is too small: flush, then grow in place. *)
Definition realloc_grow (s : tstate) (c : tls_cache) (hdr new_size : Z) : outcome (bool * tstate * tls_cache) :=
  r ← tlsf_cache_flush s c;
  let '(s, c) := r in
  r ← tlsf_try_inplace_expand s hdr new_size;
  let '(ok, s) := r in Done (ok, s, c).

(** ** The stacks *)

(** The pointer to the top of stack [i] when it holds [l]. *)
Definition top_of (i : Z) (l : list (Z * Z)) : Z :=
  match l with [] => NULL | _ => i * TLSF_CACHE_MAX_SLOTS + zlen l end.

Fixpoint stack_ok (en : gmap Z tlsf_cache_entry) (i : Z) (l : list (Z * Z)) : Prop :=
  match l with
  | [] => True
  | (b, t) :: l => en !! (i * TLSF_CACHE_MAX_SLOTS + zlen l) = Some (Entry b t (top_of i l)) /\ stack_ok en i l
  end.

Definition class_ok (i : Z) : Prop := 0 <= i < TLSF_CACHE_SIZES.

(** [St i] lists the blocks, with their arenas, parked in class [i], the last one first. *)
Record cache_ok (c : tls_cache) (St : Z -> list (Z * Z)) : Prop := {
  ca_count : forall i, class_ok i -> tlsf_counts c !! i = Some (zlen (St i)) /\ zlen (St i) <= TLSF_CACHE_MAX_SLOTS;
  ca_top : forall i, class_ok i -> tlsf_slots c !! i = Some (top_of i (St i));
  ca_entries : forall i, class_ok i -> stack_ok (tlsf_entries c) i (St i);
}.

Definition upd (St : Z -> list (Z * Z)) (i : Z) (l : list (Z * Z)) : Z -> list (Z * Z) :=
  fun j => if decide (j = i) then l else St j.

Lemma upd_eq St i l : upd St i l i = l.
Proof. unfold upd. by rewrite decide_True. Qed.

Lemma upd_ne St i l j : j <> i -> upd St i l j = St j.
Proof. intros Hj. unfold upd. by rewrite decide_False. Qed.

Lemma stack_ok_frame en en' i l :
  (forall k, i * TLSF_CACHE_MAX_SLOTS <= k < i * TLSF_CACHE_MAX_SLOTS + zlen l -> en' !! k = en !! k) -> stack_ok en i l -> stack_ok en' i l.
Proof.
  induction l as [|[b t] l IH]; intros Hf; cbn [stack_ok]; [done|]. rewrite zlen_cons in Hf. pose proof (zlen_nonneg l).
  intros [E Hs]. split; [rewrite Hf by lia; exact E|]. apply IH; [|done]. intros k Hk. apply Hf. lia.
Qed.

Lemma top_of_null i l : class_ok i -> top_of i l = NULL <-> l = [].
Proof.
  intros [Hi _]. destruct l as [|x l]; [done|]. cbn. rewrite zlen_cons. pose proof (zlen_nonneg l).
  unfold TLSF_CACHE_MAX_SLOTS, NULL. split; [lia|done].
Qed.

Lemma tlsf_unlink_spec c St i b t l :
  cache_ok c St -> class_ok i -> St i = (b, t) :: l ->
  exists c', cache_unlink c i = Done (Entry b t (top_of i l), c') /\
    (forall n, n = zlen l -> cache_ok (set_count c' i n) (upd St i l)) /\
    tlsf_slots c' = <[i := top_of i l]> (tlsf_slots c) /\ tlsf_counts c' = tlsf_counts c /\ tlsf_entries c' = tlsf_entries c.
Proof.
  intros [Hn Ht He] Hi El. unfold cache_unlink. rewrite (ld_Some _ _ _ (Ht i Hi)). cbn [mbind outcome_bind]. rewrite El.
  cbn [top_of]. pose proof (He i Hi) as Hs. rewrite El in Hs. destruct Hs as [Es Hs].
  unfold ld_entry. rewrite zlen_cons. replace (i * TLSF_CACHE_MAX_SLOTS + (1 + zlen l) - 1) with (i * TLSF_CACHE_MAX_SLOTS + zlen l) by lia.
  rewrite Es. cbn [mbind outcome_bind]. eexists. split; [done|]. split; [|done]. intros n ->.
  destruct (Hn i Hi) as [_ Hle]. rewrite El, zlen_cons in Hle.
  split; cbn [tlsf_counts tlsf_slots tlsf_entries set_count e_next]; intros j Hj; destruct (decide (j = i)) as [->|Hne];
    rewrite ?upd_eq, ?upd_ne, ?lookup_insert_eq, ?lookup_insert_ne by done; auto. split; [done|lia].
Qed.

Lemma tlsf_push_spec c St i b t :
  cache_ok c St -> class_ok i -> zlen (St i) < TLSF_CACHE_MAX_SLOTS ->
  exists c', cache_push c i (zlen (St i)) b t = Done c' /\ cache_ok c' (upd St i ((b, t) :: St i)).
Proof.
  intros [Hn Ht He] Hi Hl. unfold cache_push. rewrite (ld_Some _ _ _ (Ht i Hi)). cbn [mbind outcome_bind].
  eexists. split; [done|]. pose proof (zlen_nonneg (St i)).
  split; cbn [tlsf_counts tlsf_slots tlsf_entries]; intros j Hj; destruct (decide (j = i)) as [->|Hne];
    rewrite ?upd_eq, ?upd_ne, ?lookup_insert_eq, ?(lookup_insert_ne _ i j) by done; auto.
  - rewrite zlen_cons. split; [f_equal; lia|lia].
  - cbn [top_of]. rewrite zlen_cons. unfold entry_at. f_equal. lia.
  - cbn [stack_ok]. rewrite lookup_insert_eq. split; [done|]. eapply stack_ok_frame; [|by apply He].
    intros k Hk. by rewrite lookup_insert_ne by lia.
  - eapply stack_ok_frame; [|by apply He]. intros k Hk. destruct (Hn j Hj) as [_ Hle]. pose proof (zlen_nonneg (St j)).
    unfold class_ok, TLSF_CACHE_MAX_SLOTS, TLSF_CACHE_SIZES in *. rewrite lookup_insert_ne by lia. done.
Qed.

(** ** Filing a block as it is *)

(** Nobody tells the neighbours: this is what the loose discipline allows for. *)
#[local] Instance cache_discipline : Discipline := loose_discipline.

Lemma pool_file tp h l1 sz l2 b q :
  pool_ok tp h (l1 ++ (sz, false) :: l2) -> b = raw_area tp + extent l1 -> size_and_flags h !! b = Some (mk sz false q) ->
  let h1 := Heap (<[b := mk sz true q]> (size_and_flags h)) (prev_physical h) (flinks h) in
  exists tp' k, tlsf_insert_free_block_nolock tp h1 b = Done (tp', with_links h1 k) /\
    pool_ok tp' (with_links h1 k) (l1 ++ (sz, true) :: l2) /\ same_pool tp tp' /\ in_region tp h (with_links h1 k).
Proof.
  intros [Hc HI Hs Hl Hb0] Hb Hw h1. pose proof Hc as Hc0. apply chain_app in Hc as [Hp Hc].
  apply chain_cons in Hc as [([Hmin Hm] & (q0 & Hq & Hw0) & Hpp & Hn & _) Hc]. rewrite <- Hb in *.
  rewrite Hw in Hw0. injection Hw0 as (_ & _ & <-)%mk_inj; [|done..].
  pose proof (phys_extent _ _ _ _ _ Hp). pose proof (chain_extent _ _ _ _ _ _ Hc).
  rewrite extent_app in Hs. cbn [extent] in Hs. unfold TLSF_MIN_BLOCK_SIZE, SIZEOF_TLSF_BLOCK in *.
  assert (Hc1 : chain false h1 NULL false (raw_area tp) (l1 ++ (sz, true) :: l2)).
  { eapply (chain_prefix _ h); [|done|exact Hp|].
    { intros x Hx. cbn. hl. done. }
    rewrite <- Hb. apply chain_cons. split.
    { split; [done|]. cbn. hl. split_and!; [by exists q|done|done|by intros ?]. }
    destruct (chain_tag _ _ _ _ _ _ Hc) as (n & fr & pf & Hnm & Ht & Hpt & _).
    eapply chain_retag; [exact Hc|exact Ht|done|cbn; hl; exact Ht|cbn; exact Hpt| |done|by intros ?|destruct l2; by intros ?].
    intros x Hx. cbn. hl. done. }
  destruct (pool_insert tp h1 l1 sz l2 b) as (tp' & k & E & Hok & Hsame & Hin); try done.
  - eapply index_iff; [|exact HI]. intros x s. cbn. rewrite elem_of_frees_app, elem_of_frees_cons, <- Hb.
    assert (false <> true) by done. tauto.
  - rewrite extent_app. cbn [extent]. unfold SIZEOF_TLSF_BLOCK. lia.
  - exists tp', k. split; [exact E|]. split; [exact Hok|]. split; [exact Hsame|].
    eapply within_trans; [|exact Hin]. apply within_sf. lia.
Qed.

(** The live block [b] of size [n] in the arena whose descriptor is at [t]. *)
Definition held (s : tstate) (Ls : list (list tile)) (b t n : Z) : Prop :=
  exists i tp L, tlsf_root s !! i = Some tp /\ Ls !! i = Some L /\ (b, n) ∈ lives (raw_area tp) L /\ tp_addr tp = t.

Definition arenas_kept (ps ps' : list tlsf_pool) : Prop := forall tp, tp ∈ ps -> exists tp', tp' ∈ ps' /\ same_pool tp tp'.

Lemma kept_arenas_refl ps : arenas_kept ps ps.
Proof. intros tp Htp. by exists tp. Qed.

Lemma kept_arenas_trans a b c : arenas_kept a b -> arenas_kept b c -> arenas_kept a c.
Proof. intros H1 H2 tp (tp1 & H3 & S1)%H1. apply H2 in H3 as (tp2 & ? & S2). exists tp2. split; [done|by eapply same_pool_trans]. Qed.

Lemma kept_arenas_insert ps i tp tp' : ps !! i = Some tp -> same_pool tp tp' -> arenas_kept ps (<[i := tp']> ps).
Proof.
  intros Hi Hs a (j & Ha)%list_elem_of_lookup_1. destruct (decide (j = i)) as [->|Hne].
  - exists tp'. assert (a = tp) as -> by congruence. split; [|done].
    eapply list_elem_of_lookup_2. apply list_lookup_insert_eq. by eapply lookup_lt_Some.
  - exists a. split; [|done]. apply (list_elem_of_lookup_2 _ j). by rewrite list_lookup_insert_ne.
Qed.

Lemma held_live s Ls b t n : held s Ls b t n -> live (tlsf_root s) Ls b n.
Proof. intros (i & tp & L & ? & ? & ? & _). by exists i, tp, L. Qed.

(** A held block that stays live stays in its arena. *)
Lemma held_mono s s' Ls Ls' b t n :
  tinv sizeof_tlsf_pool s Ls -> tinv sizeof_tlsf_pool s' Ls' -> arenas_kept (tlsf_root s) (tlsf_root s') -> live (tlsf_root s') Ls' b n ->
  held s Ls b t n -> held s' Ls' b t n.
Proof.
  intros [A _] [A' _] Hk (i' & a & La & Ha & HLa & Hx) (i & tp & L & Htp & HL & Hb & Ht).
  destruct (Hk tp) as (tp' & (j & Hj)%list_elem_of_lookup_1 & S1 & S2 & S3); [by eapply list_elem_of_lookup_2|].
  pose proof (live_range _ _ _ _ _ _ _ _ A Htp HL Hb). pose proof (live_range _ _ _ _ _ _ _ _ A' Ha HLa Hx).
  destruct (decide (i' = j)) as [->|Hne].
  - assert (a = tp') as -> by congruence. exists j, tp', La. split_and!; congruence.
  - destruct (ar_apart _ _ _ A' i' j a tp' Hne Ha Hj); lia.
Qed.

Lemma unpark_spec s Ls b t n :
  tinv sizeof_tlsf_pool s Ls -> held s Ls b t n ->
  exists s' Ls', unpark s b t = Done s' /\ tinv sizeof_tlsf_pool s' Ls' /\ arenas_kept (tlsf_root s) (tlsf_root s') /\
    (forall x m, live (tlsf_root s') Ls' x m <-> live (tlsf_root s) Ls x m /\ x <> b) /\
    s' = set_pools s (tlsf_root s') (theap s').
Proof.
  intros I (i & tp & L & Hi & HL & Hb & <-). pose proof I as [A O].
  destruct (arenas_lookup _ _ _ _ _ A Hi) as (L0 & HL0 & Hok). assert (L0 = L) as -> by congruence.
  pose proof Hok as [[Hp _] _ _ _ _]. destruct (lives_split _ _ _ _ _ _ _ Hp Hb) as (l1 & l2 & -> & Hbe).
  apply phys_app in Hp as [_ Hp]. rewrite <- Hbe in Hp. cbn [phys] in Hp. destruct Hp as ([_ Hm] & (q & _ & Hw) & _).
  unfold unpark. rewrite (ld_Some _ _ _ Hw). cbn [mbind outcome_bind]. rewrite (set_sf_Some _ _ _ _ Hw), mk_or_free by done.
  cbn [mbind outcome_bind]. rewrite (find_pool_spec sizeof_tlsf_pool s Ls i tp I Hi). cbn [mbind outcome_bind].
  destruct (pool_file tp (theap s) l1 n l2 b q Hok Hbe Hw) as (tp' & k & -> & Hok' & Hs & Hin). cbn [mbind outcome_bind].
  eexists _, (<[i := l1 ++ (n, true) :: l2]> Ls). split; [done|]. split; [|split; [|split]].
  - split; cbn [tlsf_root theap osys set_pools]; [by eapply arenas_update|]. by eapply owned_update.
  - by eapply kept_arenas_insert.
  - intros x m. cbn [tlsf_root set_pools].
    rewrite (live_replace _ _ _ i tp tp' l1 n l2 _ (fun _ _ => False) x m A Hi HL (proj1 Hs)), <- Hbe; [tauto|].
    intros y z. rewrite elem_of_lives_app, elem_of_lives_cons. assert (true <> false) by done. tauto.
  - done.
Qed.

(** *** Arenas keep their place *)

(** Follow a computation that returned. *)
Ltac follow :=
  repeat first
    [ progress inv_out
    | progress simplify_eq
    | match goal with
      | E : (let '(_, _) := ?x in _) = Done _ |- _ => destruct x
      | E : (if ?x then _ else _) = Done _ |- _ => destruct x
      end ].

Lemma insert_same tp h b tp' h' : tlsf_insert_free_block_nolock tp h b = Done (tp', h') -> same_pool tp tp'.
Proof. unfold tlsf_insert_free_block_nolock. intros E. by follow. Qed.

Lemma remove_same tp h b tp' h' : tlsf_remove_free_block_nolock tp h b = Done (tp', h') -> same_pool tp tp'.
Proof. unfold tlsf_remove_free_block_nolock. intros E. follow; done. Qed.

(** The steps through a block's neighbours only touch the index. *)
Ltac through_index :=
  repeat match goal with
  | E : tlsf_insert_free_block_nolock _ _ _ = Done _ |- _ => apply insert_same in E
  | E : tlsf_remove_free_block_nolock _ _ _ = Done _ |- _ => apply remove_same in E
  end;
  solve [eauto using same_pool_refl, same_pool_trans].

Lemma take_same tp h b n tp' h' : tlsf_take tp h b n = Done (tp', h') -> same_pool tp tp'.
Proof. unfold tlsf_take. intros E. follow; through_index. Qed.

Lemma free_block_same tp h b tp' h' : tlsf_free_block tp h b = Done (tp', h') -> same_pool tp tp'.
Proof. unfold tlsf_free_block, free_merge_next, free_merge_prev. intros E. follow; through_index. Qed.

Lemma expand_block_same tp h b n ok tp' h' : tlsf_expand_block tp h b n = Done (ok, tp', h') -> same_pool tp tp'.
Proof. unfold tlsf_expand_block, split_tail. intros E. follow; through_index. Qed.

Lemma alloc_walk_kept ps : forall h n res ps' h', alloc_walk ps h n = Done (res, ps', h') -> arenas_kept ps ps'.
Proof.
  induction ps as [|tp ps IH]; intros h n res ps' h' E; cbn [alloc_walk] in E; follow; [apply kept_arenas_refl|..].
  - apply IH in Hb0. intros a [->|Ha]%elem_of_cons; [exists tp; split; [left|done]|].
    destruct (Hb0 a Ha) as (a' & ? & ?). exists a'. split; [by right|done].
  - apply take_same in Hb0. intros a [->|Ha]%elem_of_cons; [|exists a; split; [by right|done]].
    eexists. split; [left|done].
Qed.

Lemma kept_arenas_cons tp ps ps' : arenas_kept ps ps' -> arenas_kept ps (tp :: ps').
Proof. intros Hk a (a' & ? & ?)%Hk. exists a'. split; [by right|done]. Qed.

Lemma tlsf_alloc_kept s req p s' : tlsf_alloc sizeof_tlsf_pool s req = Done (p, s') -> arenas_kept (tlsf_root s) (tlsf_root s').
Proof.
  unfold tlsf_alloc. intros E. inv_out. destruct x as [ok s1].
  assert (H1 : arenas_kept (tlsf_root s) (tlsf_root s1)).
  { unfold tlsf_ensure_root in Hb. destruct (tlsf_root s) as [|tp ps] eqn:Er; [by intros ? ?%not_elem_of_nil|].
    injection Hb as <- <-. rewrite Er. apply kept_arenas_refl. }
  destruct (negb ok); [by follow|]. inv_out. destruct x as [[found ps] h]. apply alloc_walk_kept in Hb0.
  eapply kept_arenas_trans; [exact H1|]. destruct found as [[block tpool]|]; [inv_out; by injection E as _ <-|].
  eapply kept_arenas_trans; [exact Hb0|]. destruct (has_flag _ _); [inv_out; injection E as _ <-; apply kept_arenas_refl|]. unfold tlsf_alloc_expand in E. inv_out.
  destruct x as [[tp h1] o]. destruct tp as [tp|]; follow; try (injection E as _ <-); try apply kept_arenas_cons; apply kept_arenas_refl.
Qed.

Lemma tlsf_free_kept s hdr s' : tlsf_free s hdr = Done s' -> arenas_kept (tlsf_root s) (tlsf_root s').
Proof.
  unfold tlsf_free, find_pool. intros E. inv_out. destruct (has_flag _ _); [done|]. inv_out. destruct x0 as [i tp].
  destruct (list_find _ _) as [[i' tp']|] eqn:Ef; [|done]. follow. apply list_find_Some in Ef as (Hi & _).
  match goal with E : tlsf_free_block _ _ _ = Done _ |- _ => apply free_block_same in E; by eapply kept_arenas_insert end.
Qed.

(** ** The invariant

    A parked block is live for the shared tier and belongs to nobody; no block is parked
    twice. *)
Definition parked (St : Z -> list (Z * Z)) (b : Z) : Prop := exists i t, class_ok i /\ (b, t) ∈ St i.

Record cinv (s : tstate) (c : tls_cache) (Ls : list (list tile)) (St : Z -> list (Z * Z)) : Prop := {
  ci_tier : tinv sizeof_tlsf_pool s Ls;
  ci_cache : cache_ok c St;
  ci_once : forall i, class_ok i -> NoDup (map fst (St i));
  ci_apart : forall i j b t u, class_ok i -> class_ok j -> (b, t) ∈ St i -> (b, u) ∈ St j -> i = j;
  ci_held : forall i b t, class_ok i -> (b, t) ∈ St i -> exists n, held s Ls b t n;
}.

(** The blocks the program owns. *)
Definition in_use (s : tstate) (Ls : list (list tile)) (St : Z -> list (Z * Z)) (b n : Z) : Prop :=
  live (tlsf_root s) Ls b n /\ ~ parked St b.

Lemma parked_upd St i l x :
  class_ok i -> parked (upd St i l) x <-> (exists t, (x, t) ∈ l) \/ exists j t, class_ok j /\ j <> i /\ (x, t) ∈ St j.
Proof.
  intros Hi. split.
  - intros (j & t & Hj & Hx). destruct (decide (j = i)) as [->|Hne]; [rewrite upd_eq in Hx; eauto|].
    rewrite upd_ne in Hx by done. right. eauto.
  - intros [[t Ht]|(j & t & Hj & Hne & Ht)]; [exists i, t; by rewrite upd_eq|exists j, t; by rewrite upd_ne].
Qed.

Lemma parked_at St i x : class_ok i -> parked St x <-> (exists t, (x, t) ∈ St i) \/ exists j t, class_ok j /\ j <> i /\ (x, t) ∈ St j.
Proof.
  intros Hi. split.
  - intros (j & t & Hj & Hx). destruct (decide (j = i)) as [->|Hne]; eauto 6.
  - intros [[t Ht]|(j & t & Hj & Hne & Ht)]; [by exists i, t|by exists j, t].
Qed.

(** The block taken off the top of a stack is no longer parked. *)
Lemma parked_pop s c Ls St i b t l x :
  cinv s c Ls St -> class_ok i -> St i = (b, t) :: l -> parked (upd St i l) x <-> parked St x /\ x <> b.
Proof.
  intros I Hi El. rewrite parked_upd, (parked_at St i) by done. rewrite El.
  pose proof (ci_once _ _ _ _ I i Hi) as Hnd. rewrite El in Hnd. cbn in Hnd. apply NoDup_cons in Hnd as [Hb _].
  assert (H1 : forall u, (x, u) ∈ l -> x <> b) by (intros u Hu ->; apply Hb; apply list_elem_of_fmap; by exists (b, u)).
  assert (H2 : forall j u, class_ok j -> j <> i -> (x, u) ∈ St j -> x <> b).
  { intros j u Hj Hne Hu ->. apply Hne. eapply (ci_apart _ _ _ _ I); [done|done|exact Hu|rewrite El; left]. }
  split.
  - intros [[u Hu]|(j & u & Hj & Hne & Hu)]; (split; [|by eauto]); [left; exists u; by right|right; eauto].
  - intros [[(u & Hu)|(j & u & Hj & Hne & Hu)] Hx]; [|right; eauto].
    apply elem_of_cons in Hu as [[= -> ->]|Hu]; [done|left; eauto].
Qed.

(** The stacks minus one block are still in order. *)
Lemma cinv_pop s c c' Ls St i b t l :
  cinv s c Ls St -> class_ok i -> St i = (b, t) :: l -> cache_ok c' (upd St i l) -> cinv s c' Ls (upd St i l).
Proof.
  intros I Hi El Hc.
  assert (Hin : forall j p, p ∈ upd St i l j -> p ∈ St j).
  { intros j p. destruct (decide (j = i)) as [->|Hne]; [rewrite upd_eq, El; by right|by rewrite upd_ne]. }
  split; [apply I|done|..].
  - intros j Hj. pose proof (ci_once _ _ _ _ I j Hj) as Hnd. destruct (decide (j = i)) as [->|Hne]; [|by rewrite upd_ne].
    rewrite upd_eq. rewrite El in Hnd. by apply NoDup_cons in Hnd as [_ Hnd].
  - intros j k x u v Hj Hk Hu Hv. eapply (ci_apart _ _ _ _ I); eauto.
  - intros j x u Hj Hu. eapply (ci_held _ _ _ _ I); eauto.
Qed.

(** The tier moved on; the parked blocks are live in the same arenas. *)
Lemma cinv_mono s s' c Ls Ls' St :
  cinv s c Ls St -> tinv sizeof_tlsf_pool s' Ls' -> arenas_kept (tlsf_root s) (tlsf_root s') ->
  (forall b n, parked St b -> live (tlsf_root s) Ls b n -> live (tlsf_root s') Ls' b n) -> cinv s' c Ls' St.
Proof.
  intros I I' Hk Hl. split; [done|apply I..|]. intros i b t Hi Hb. destruct (ci_held _ _ _ _ I i b t Hi Hb) as (n & Hn). exists n.
  eapply held_mono; [apply I|done|done| |done]. apply Hl; [by exists i, t|by eapply held_live].
Qed.

Lemma cinv_set_count s c Ls St i n : cinv s c Ls St -> class_ok i -> n = zlen (St i) -> cinv s (set_count c i n) Ls St.
Proof.
  intros I Hi ->. destruct (ci_cache _ _ _ _ I) as [Hn Ht He]. split; try apply I. split; [|exact Ht|exact He].
  intros j Hj. cbn. destruct (decide (j = i)) as [->|Hne]; [rewrite lookup_insert_eq|rewrite lookup_insert_ne by done; by apply Hn].
  split; [done|]. by apply Hn.
Qed.

Lemma cache_index_spec size : 0 <= size < 2 ^ 32 -> exists o, cache_index size = Done o /\ forall i, o = Some i -> class_ok i.
Proof.
  intros Hs. unfold cache_index, tlsf_block_size_to_fl.
  destruct (Z.ltb_spec size (Z.shiftl 1 TLSF_SL_SHIFT)) as [Hlt|Hge]; cbn [mbind outcome_bind].
  - eexists. split; [done|]. by intros i.
  - change (Z.shiftl 1 TLSF_SL_SHIFT) with 16 in Hge. rewrite tlsf_fls_spec by lia. cbn [mbind outcome_bind]. eexists. split; [done|].
    intros i. unfold class_ok. destruct (Z.leb_spec 0 (Z.log2 size - TLSF_CACHE_MIN_FL)); [|done].
    destruct (Z.ltb_spec (Z.log2 size - TLSF_CACHE_MIN_FL) TLSF_CACHE_SIZES); [|done]. intros [= <-]. lia.
Qed.

(** ** Allocation *)

(** The header a block is handed out with. *)
Definition fresh_header (fl req tn b t : Z) : mp_block_header :=
  Header MP_MAGIC_HEAD ALLOC_TYPE_TLSF 0 fl req (u64 (tn - SIZEOF_TLSF_BLOCK - SIZEOF_HEADER)) b t NULL 0 NULL 0.

Lemma tlsf_alloc_headers s req p s' :
  tlsf_alloc sizeof_tlsf_pool s req = Done (p, s') -> flags s' = flags s /\
  ((p = NULL /\ headers s' = headers s) \/
   exists b t, p = b + SIZEOF_TLSF_BLOCK + SIZEOF_HEADER /\
     headers s' = <[b + SIZEOF_TLSF_BLOCK := fresh_header 0 req (tlsf_total_needed (flags s) req) b t]> (headers s)).
Proof.
  unfold tlsf_alloc. intros E. inv_out. destruct x as [ok s1].
  assert (H1 : headers s1 = headers s /\ flags s1 = flags s).
  { unfold tlsf_ensure_root in Hb. destruct (tlsf_root s) as [|tp ps] eqn:Er.
    - inv_out. destruct x as [[[tp|] h] o]; by injection Hb as _ <-.
    - by injection Hb as _ <-. }
  destruct H1 as [H1 F1]. destruct (negb ok); [inv_out; injection E as <- <-; rewrite H1, F1; auto|]. inv_out. destruct x as [[found ps] h].
  destruct found as [[block tpool]|].
  { inv_out. injection E as <- <-. cbn. rewrite H1, F1. split; [done|]. right. by exists block, tpool. }
  destruct (has_flag _ _); [inv_out; injection E as <- <-; cbn; rewrite H1, F1; auto|].
  unfold tlsf_alloc_expand in E. inv_out. destruct x as [[[tp|] h1] o]; [|injection E as <- <-; cbn; rewrite H1, F1; auto].
  inv_out. destruct (x =? NULL); [inv_out; injection E as <- <-; cbn; rewrite H1, F1; auto|]. inv_out. destruct x0 as [tp' h2].
  injection E as <- <-. cbn. rewrite H1, F1. split; [done|]. right. by exists x, (tp_addr tp').
Qed.

(** What the program gets. *)
Record handed (s s' : tstate) (Ls Ls' : list (list tile)) (St St' : Z -> list (Z * Z)) (req p : Z) : Prop := {
  ha_block : exists b t sz fl,
    p = b + SIZEOF_TLSF_BLOCK + SIZEOF_HEADER /\ 0 < b /\
    SIZEOF_TLSF_BLOCK + SIZEOF_HEADER + req + (if has_flag (flags s) MP_FLAG_DEBUG_CANARY then 1 else 0) <= sz /\
    held s' Ls' b t sz /\ ~ parked St' b /\
    (forall x n, in_use s' Ls' St' x n <-> in_use s Ls St x n \/ (x = b /\ n = sz)) /\
    (forall x n, in_use s Ls St x n -> x + n <= b \/ b + sz <= x) /\
    has_flag fl MP_BLOCK_FLAG_TLSF_ARENA = false /\
    headers s' = <[b + SIZEOF_TLSF_BLOCK := fresh_header fl req (tlsf_total_needed (flags s) req) b t]> (headers s);
  ha_canary : has_flag (flags s) MP_FLAG_DEBUG_CANARY = true -> payload s' (p + req) = MP_CANARY_BYTE;
  ha_zero : has_flag (flags s) MP_FLAG_ZERO_ON_ALLOC = true -> forall a, p <= a < p + req -> payload s' a = 0;
}.

Context (Hsizeof : 0 < sizeof_tlsf_pool < 2 ^ 32).

(** A live block of the tier, in terms of its arena. *)
Lemma live_held s Ls b n : live (tlsf_root s) Ls b n -> exists t, held s Ls b t n.
Proof. intros (i & tp & L & ? & ? & ?). by exists (tp_addr tp), i, tp, L. Qed.

Lemma held_pos s Ls b t n : tinv sizeof_tlsf_pool s Ls -> held s Ls b t n -> 0 < b /\ 32 <= n.
Proof.
  intros [A O] (i & tp & L & Hi & HL & Hb & _). pose proof (live_range _ _ _ _ _ _ _ _ A Hi HL Hb).
  destruct (arenas_lookup _ _ _ _ _ A Hi) as (? & _ & [_ _ _ _ ?]). lia.
Qed.

Lemma held_word s Ls b t n : tinv sizeof_tlsf_pool s Ls -> held s Ls b t n ->
  n mod 8 = 0 /\ exists q, size_and_flags (theap s) !! b = Some (mk n false q).
Proof.
  intros [A _] (i & tp & L & Hi & HL & Hb & _). destruct (arenas_lookup _ _ _ _ _ A Hi) as (L0 & HL0 & [[Hp _] _ _ _ _]).
  assert (L0 = L) as -> by congruence. destruct (lives_split _ _ _ _ _ _ _ Hp Hb) as (l1 & l2 & -> & Hbe).
  apply phys_app in Hp as [_ Hp]. rewrite <- Hbe in Hp. cbn [phys] in Hp. destruct Hp as ([_ Hm] & (q & _ & Hw) & _). eauto.
Qed.

(** A miss leaves the program's blocks alone; a hit hands out a parked block of exactly
    the size asked for. *)
Lemma cache_lookup_spec s c Ls St req :
  cinv s c Ls St -> 0 <= req <= 2 ^ 28 ->
  exists p s' c' Ls' St', cache_lookup s c (tlsf_total_needed (flags s) req) req = Done (p, s', c') /\ cinv s' c' Ls' St' /\
    flags s' = flags s /\ arenas_kept (tlsf_root s) (tlsf_root s') /\
    (p = NULL -> (forall x n, in_use s' Ls' St' x n <-> in_use s Ls St x n) /\ headers s' = headers s) /\
    (p <> NULL -> handed s s' Ls Ls' St St' req p).
Proof.
  intros I Hreq. destruct (total_needed_bounds (flags s) req Hreq) as [Hbd Htm]. set (tn := tlsf_total_needed _ _) in *.
  assert (Hcan : 0 <= (if has_flag (flags s) MP_FLAG_DEBUG_CANARY then 1 else 0) <= 1) by (destruct (has_flag (flags s) MP_FLAG_DEBUG_CANARY); clear; lia).
  unfold cache_lookup. destruct (cache_index_spec tn) as (o & -> & Ho).
  { unfold SIZEOF_TLSF_BLOCK, SIZEOF_HEADER in *. lia. }
  cbn [mbind outcome_bind]. destruct o as [i|]; [|exists NULL, s, c, Ls, St; split_and!; try done; apply kept_arenas_refl]. specialize (Ho i eq_refl).
  destruct (ca_count _ _ (ci_cache _ _ _ _ I) i Ho) as [Hn _]. rewrite (ld_Some _ _ _ Hn). cbn [mbind outcome_bind].
  destruct (Z.ltb_spec 0 (zlen (St i))) as [Hpos|]; [|exists NULL, s, c, Ls, St; split_and!; try done; apply kept_arenas_refl].
  destruct (St i) as [|[b t] l] eqn:El; [by vm_compute in Hpos|].
  destruct (tlsf_unlink_spec c St i b t l (ci_cache _ _ _ _ I) Ho El) as (c1 & -> & Hc1 & _). cbn [mbind outcome_bind e_block e_tpool].
  rewrite zlen_cons in *. specialize (Hc1 (1 + zlen l - 1) ltac:(lia)).
  assert (Hin : (b, t) ∈ St i) by (rewrite El; left). destruct (ci_held _ _ _ _ I i b t Ho Hin) as (n & Hh).
  destruct (held_word s Ls b t n (ci_tier _ _ _ _ I) Hh) as [Hm (q & Hw)]. rewrite (ld_Some _ _ _ Hw). cbn [mbind outcome_bind].
  rewrite block_size_mk by done. pose proof (cinv_pop _ _ _ _ _ _ _ _ _ I Ho El Hc1) as I1.
  pose proof (fun x => parked_pop _ _ _ _ _ _ _ _ x I Ho El) as Hpk.
  assert (Hpb : parked St b) by by exists i, t.
  destruct (Z.eqb_spec n tn) as [->|Hne]; cbn [negb].
  - unfold cache_stamp. rewrite (set_sf_Some _ _ _ _ Hw), mk_or_flag, size_or_prev by done. rewrite (insert_id (size_and_flags (theap s)) b) by exact Hw. cbn [mbind outcome_bind].
    assert (Eh : Heap (size_and_flags (theap s)) (prev_physical (theap s)) (flinks (theap s)) = theap s) by (by destruct (theap s)). rewrite Eh.
    destruct (held_pos _ _ _ _ _ (ci_tier _ _ _ _ I) Hh) as [Hb0 _].
    eexists _, _, _, Ls, (upd St i l). split; [done|]. destruct I1 as [[A O] C1 C2 C3 C4].
    split; [split; [by split|done..]|]. split; [done|]. split; [apply kept_arenas_refl|]. split; [unfold NULL, SIZEOF_TLSF_BLOCK, SIZEOF_HEADER; lia|]. intros _.
    pose proof (stamped_bytes (has_flag (flags s) MP_FLAG_DEBUG_CANARY) (has_flag (flags s) MP_FLAG_ZERO_ON_ALLOC) (payload s)
      (b + SIZEOF_TLSF_BLOCK + SIZEOF_HEADER) req ltac:(lia)) as [Hcb Hzb].
    split; [|exact Hcb|exact Hzb].
    exists b, t, tn, MP_BLOCK_FLAG_COUNTED. split; [done|]. split; [done|]. split; [apply Hbd|]. split; [exact Hh|].
    split; [rewrite Hpk; tauto|]. split; [|split; [|by split]].
    + intros x m. unfold in_use. cbn [tlsf_root]. rewrite Hpk. split.
      * intros [Hl Hx]. destruct (decide (x = b)) as [->|]; [right|tauto]. split; [done|].
        destruct (live_held _ _ _ _ Hl) as (u & Hu). destruct (held_word s Ls b u m (ci_tier _ _ _ _ I) Hu) as [Hm' (q' & Hw')].
        rewrite Hw in Hw'. by injection Hw' as (-> & _)%mk_inj.
      * intros [[Hl Hx]|[-> ->]]; [tauto|]. split; [by eapply held_live|tauto].
    + intros x m [Hl Hx]. apply (live_disjoint _ _ _ _ _ _ _ (ti_arenas _ _ _ (ci_tier _ _ _ _ I)) Hl (held_live _ _ _ _ _ Hh)). by intros ->.
  - destruct (unpark_spec s Ls b t n (ci_tier _ _ _ _ I) Hh) as (s1 & Ls1 & -> & T1 & Hk & Hlv & Es). cbn [mbind outcome_bind].
    exists NULL, s1, (set_count c1 i (1 + zlen l - 1)), Ls1, (upd St i l). split; [done|].
    split; [|split; [by rewrite Es|split; [done|split; [intros _|done]]]].
    + eapply cinv_mono; [exact I1|done|done|]. intros x m [_ Hx]%Hpk Hl. by apply Hlv.
    + split; [|by rewrite Es]. intros x m. unfold in_use. rewrite Hlv, Hpk. split; [|intros [Hl Hx]].
      * intros [[Hl Hx] Hp]. split; [done|]. tauto.
      * split; [split; [done|]|tauto]. by intros ->.
Qed.

(** The cache has no block for the request (a parked one of another size goes back to its
    arena), and the tier, as the lookup leaves it, is out of memory. *)
Definition tier_fails (s : tstate) (c : tls_cache) (req : Z) (s' : tstate) (Ls' : list (list tile)) (c' : tls_cache) : Prop :=
  exists s1, cache_lookup s c (tlsf_total_needed (flags s) req) req = Done (NULL, s1, c') /\
    tlsf_alloc sizeof_tlsf_pool s1 req = Done (NULL, s') /\ out_of_memory sizeof_tlsf_pool s1 s' Ls' req.

Lemma medium_alloc_run s c Ls St req :
  cinv s c Ls St -> 0 <= req <= 2 ^ 28 ->
  exists p s' c' Ls' St', medium_alloc s c req = Done (p, s', c') /\ cinv s' c' Ls' St' /\ flags s' = flags s /\ arenas_kept (tlsf_root s) (tlsf_root s') /\
    (p = NULL -> (forall x n, in_use s' Ls' St' x n <-> in_use s Ls St x n) /\
       (forall a, 0 < a -> headers s' !! a = headers s !! a) /\
       tier_fails s c req s' Ls' c') /\
    (p <> NULL -> handed s s' Ls Ls' St St' req p).
Proof.
  intros I Hreq. unfold medium_alloc.
  destruct (cache_lookup_spec s c Ls St req I Hreq) as (p & s1 & c1 & Ls1 & St1 & El & I1 & F1 & K1 & Hmiss & Hhit).
  rewrite El. cbn [mbind outcome_bind]. destruct (Z.eqb_spec p NULL) as [->|Hp].
  2: { exists p, s1, c1, Ls1, St1. split; [done|]. split; [done|]. split; [done|]. split; [done|]. split; [done|]. by intros _; apply Hhit. }
  destruct (Hmiss eq_refl) as [Hu Hh]. clear Hmiss Hhit.
  destruct (alloc_cases sizeof_tlsf_pool Hsizeof s1 Ls1 req (ci_tier _ _ _ _ I1) Hreq) as (p & s2 & Ls2 & E & Hnull & Hal).
  rewrite E. cbn [mbind outcome_bind]. pose proof (tlsf_alloc_kept _ _ _ _ E) as Hk. pose proof (tlsf_alloc_headers _ _ _ _ E) as [F2 Hhd].
  rewrite F1, Hh in Hhd.
  exists p, s2, c1, Ls2, St1. split; [done|]. destruct (decide (p = NULL)) as [->|Hp].
  - destruct (Hnull eq_refl) as (T2 & [_ Hl] & Hwhy). split; [|split; [congruence|split; [by eapply kept_arenas_trans|split; [intros _|done]]]].
    + eapply cinv_mono; [exact I1|done|done|]. intros b n _ Hb. by apply Hl.
    + split; [intros x n; rewrite <- Hu; unfold in_use; by rewrite Hl|]. split; [|by exists s1].
      intros a Ha. destruct Hhd as [[_ ->]|(b & t & Eb & ->)]; [done|]. rewrite lookup_insert_ne; [done|].
      unfold NULL, SIZEOF_HEADER in *. lia.
  - specialize (Hal Hp). destruct Hal as [T2 (b & sz & i & Ep & Hb & Hsz & Hl & Hdis & Hin & Hok & _) Hcan Hz].
    rewrite F1 in Hcan, Hz, Hsz. destruct Hhd as [[? _]|(b' & t & Eb & Hhd)]; [done|]. assert (b' = b) as -> by lia.
    destruct Hok as (hd & tp & Hg & _ & _ & _ & Hi & Hs). rewrite Hhd, lookup_insert_eq in Hg. injection Hg as <-. cbn in Hs.
    destruct Hin as (tp' & L & Hi' & HL & Hlive). assert (tp' = tp) as -> by congruence.
    assert (Hheld : held s2 Ls2 b t sz) by (exists i, tp, L; by rewrite Hs).
    assert (Hpb : ~ parked St1 b).
    { intros (j & u & Hj & Hu'). destruct (ci_held _ _ _ _ I1 j b u Hj Hu') as (m & Hm).
      destruct (held_pos _ _ _ _ _ (ci_tier _ _ _ _ I1) Hm). destruct (held_pos _ _ _ _ _ T2 Hheld).
      destruct (Hdis b m (held_live _ _ _ _ _ Hm)); lia. }
    split; [|split; [congruence|split; [by eapply kept_arenas_trans|split; [done|intros _]]]].
    + eapply cinv_mono; [exact I1|done|done|]. intros x n _ Hx. apply Hl. by left.
    + split; [|exact Hcan|exact Hz]. exists b, t, sz, 0. split; [done|]. split; [done|]. split; [done|]. split; [done|]. split; [done|].
      split; [|split; [|by split]].
      * intros x n. rewrite <- Hu. unfold in_use. rewrite Hl. split; [tauto|]. intros [[Hx Hx']|[-> ->]]; [by split; [left|]|by split; [right|]].
      * intros x n [Hx _]%Hu. by apply Hdis.
Qed.

(** ** Release *)

(** The header the program's block carries. *)
Definition sound_header (s : tstate) (b t : Z) : Prop :=
  exists hd, headers s !! (b + SIZEOF_TLSF_BLOCK) = Some hd /\ alloc_type hd = ALLOC_TYPE_TLSF /\
    has_flag (hflags hd) MP_BLOCK_FLAG_TLSF_ARENA = false /\ raw_base hd = b /\ subpool hd = t /\ 0 <= usable_size hd < 2 ^ 30.

Lemma held_header s Ls b t n :
  held s Ls b t n -> sound_header s b t -> exists i, live_in s Ls i b n /\ header_ok s (b + SIZEOF_TLSF_BLOCK) b i.
Proof.
  intros (i & tp & L & Hi & HL & Hb & Ht) (hd & Hh & Hty & Hf & Hr & Hs & _). exists i. split; [by exists tp, L|].
  exists hd, tp. by rewrite Hs, Ht.
Qed.

Lemma medium_free_run s c Ls St b t n :
  cinv s c Ls St -> held s Ls b t n -> ~ parked St b -> sound_header s b t ->
  exists s' c' Ls' St', medium_free s c (b + SIZEOF_TLSF_BLOCK) = Done (s', c') /\ cinv s' c' Ls' St' /\
    flags s' = flags s /\ headers s' = headers s /\ arenas_kept (tlsf_root s) (tlsf_root s') /\
    (forall x m, in_use s' Ls' St' x m <-> in_use s Ls St x m /\ x <> b).
Proof.
  intros I Hh Hp Hs. pose proof Hs as (hd & Hhd & _ & Hfl & Hr & Hsub & Hus).
  destruct (held_header s Ls b t n Hh Hs) as (k & Hin & Hok).
  destruct (free_cases sizeof_tlsf_pool Hsizeof s Ls k _ b n (ci_tier _ _ _ _ I) Hin Hok) as (s1 & Ls1 & E1 & T1 & Hl1 & _).
  assert (Hdirect : exists s' c' Ls' St', (s ← tlsf_free s (b + SIZEOF_TLSF_BLOCK); Done (s, c)) = Done (s', c') /\ cinv s' c' Ls' St' /\
    flags s' = flags s /\ headers s' = headers s /\ arenas_kept (tlsf_root s) (tlsf_root s') /\ (forall x m, in_use s' Ls' St' x m <-> in_use s Ls St x m /\ x <> b)).
  { rewrite E1. cbn [mbind outcome_bind]. exists s1, c, Ls1, St. split; [done|].
    assert (Hsame : flags s1 = flags s /\ headers s1 = headers s) by (revert E1; unfold tlsf_free; intros E; by follow).
    split; [|split; [apply Hsame|split; [apply Hsame|split; [by eapply tlsf_free_kept|]]]].
    - eapply cinv_mono; [exact I|done|by eapply tlsf_free_kept|]. intros x m Hx Hlx. apply Hl1. split; [done|by intros ->].
    - intros x m. unfold in_use. rewrite Hl1. tauto. }
  unfold medium_free, ld_header. rewrite Hhd. cbn [mbind outcome_bind]. rewrite u64_small by (unfold SIZEOF_TLSF_BLOCK, SIZEOF_HEADER; lia).
  destruct (cache_index_spec (usable_size hd + SIZEOF_TLSF_BLOCK + SIZEOF_HEADER)) as (o & -> & Ho).
  { unfold SIZEOF_TLSF_BLOCK, SIZEOF_HEADER. lia. }
  cbn [mbind outcome_bind]. destruct o as [i|]; [|exact Hdirect]. specialize (Ho i eq_refl).
  destruct (ca_count _ _ (ci_cache _ _ _ _ I) i Ho) as [Hn _]. rewrite (ld_Some _ _ _ Hn). cbn [mbind outcome_bind].
  destruct (Z.ltb_spec (zlen (St i)) TLSF_CACHE_MAX_SLOTS) as [Hlt|]; [|exact Hdirect].
  rewrite Hr, Hsub. destruct (tlsf_push_spec c St i b t (ci_cache _ _ _ _ I) Ho Hlt) as (c' & -> & Hc'). cbn [mbind outcome_bind].
  exists s, c', Ls, (upd St i ((b, t) :: St i)). split; [done|].
  assert (Hpk : forall x, parked (upd St i ((b, t) :: St i)) x <-> parked St x \/ x = b).
  { intros x. rewrite parked_upd, (parked_at St i) by done. split.
    - intros [[u [[= -> ->]|Hu]%elem_of_cons]|Hx]; eauto.
    - intros [[[u Hu]|Hx]| ->]; [left; exists u; by right|by right|left; exists t; left]. }
  assert (Hcase : forall j x u, (x, u) ∈ upd St i ((b, t) :: St i) j -> (x, u) ∈ St j \/ (x = b /\ u = t /\ j = i)).
  { intros j x u. destruct (decide (j = i)) as [->|Hne]; [rewrite upd_eq|rewrite upd_ne by done; tauto].
    intros [[= -> ->]|Hx]%elem_of_cons; [by right|by left]. }
  split; [split; [apply I|done|..]|split; [done|split; [done|split; [apply kept_arenas_refl|]]]].
  - intros j Hj. pose proof (ci_once _ _ _ _ I j Hj) as Hnd. destruct (decide (j = i)) as [->|Hne]; [|by rewrite upd_ne].
    rewrite upd_eq. cbn. apply NoDup_cons. split; [|done]. intros (p & -> & Hx)%list_elem_of_fmap. apply Hp. by exists i, p.2; destruct p.
  - intros j m x u v Hj Hm [Hu|(-> & -> & ->)]%Hcase [Hv|(E & -> & ->)]%Hcase; [by eapply (ci_apart _ _ _ _ I)|..|done]; exfalso; apply Hp.
    + subst x. by exists j, u.
    + by exists m, v.
  - intros j x u Hj [Hu|(-> & -> & ->)]%Hcase; [by eapply (ci_held _ _ _ _ I)|by exists n].
  - intros x m. unfold in_use. rewrite Hpk. tauto.
Qed.

(** ** Emptying the cache *)

Lemma set_count_twice c i a n : set_count (set_count c i a) i n = set_count c i n.
Proof. unfold set_count. cbn. by rewrite insert_insert_eq. Qed.

Lemma unlink_count c i m e c' : cache_unlink (set_count c i m) i = Done (e, c') ->
  exists c1, cache_unlink c i = Done (e, c1) /\ c' = set_count c1 i m.
Proof.
  unfold cache_unlink, ld_entry, set_count. cbn. destruct (ld (tlsf_slots c) i) as [p| |]; cbn; [|done..].
  destruct (tlsf_entries c !! (p - 1)); cbn; [|done]. intros [= <- <-]. eauto.
Qed.

Lemma cinv_ext s c Ls St St' : (forall i, St i = St' i) -> cinv s c Ls St -> cinv s c Ls St'.
Proof.
  intros E [T [Hn Ht He] C2 C3 C4]. split; [done|split|..].
  - intros i Hi. rewrite <- E. by apply Hn.
  - intros i Hi. rewrite <- E. by apply Ht.
  - intros i Hi. rewrite <- E. by apply He.
  - intros i Hi. rewrite <- E. by apply C2.
  - intros i j b t u Hi Hj. rewrite <- !E. by apply C3.
  - intros i b t Hi. rewrite <- E. by apply C4.
Qed.

Lemma in_use_ext s Ls St St' x n : (forall i, St i = St' i) -> in_use s Ls St x n <-> in_use s Ls St' x n.
Proof. intros E. unfold in_use, parked. by setoid_rewrite E. Qed.

Lemma upd_upd St i l l' j : upd (upd St i l) i l' j = upd St i l' j.
Proof. unfold upd. by case_decide. Qed.

Lemma flush_class_run l : forall fuel s c Ls St i,
  class_ok i -> St i = l -> cinv s (set_count c i (zlen l)) Ls St -> (length l < fuel)%nat ->
  exists s' c' Ls', flush_class fuel s c i = Done (s', c') /\ cinv s' (set_count c' i 0) Ls' (upd St i []) /\
    flags s' = flags s /\ headers s' = headers s /\ arenas_kept (tlsf_root s) (tlsf_root s') /\
    (forall x n, in_use s' Ls' (upd St i []) x n <-> in_use s Ls St x n).
Proof.
  induction l as [|[b t] l IH]; intros fuel s c Ls St i Hi El I Hf; (destruct fuel as [|fuel]; [lia|]); cbn [flush_class];
    pose proof (ca_top _ _ (ci_cache _ _ _ _ I) i Hi) as Ht; cbn [set_count tlsf_slots] in Ht; rewrite (ld_Some _ _ _ Ht), El; cbn [mbind outcome_bind].
  - cbn [top_of]. rewrite Z.eqb_refl. exists s, c, Ls. assert (E : forall j, St j = upd St i [] j).
    { intros j. unfold upd. case_decide; congruence. }
    split; [done|]. split; [by eapply cinv_ext|]. split; [done|]. split; [done|]. split; [apply kept_arenas_refl|]. intros x n. symmetry. by apply in_use_ext.
  - destruct (Z.eqb_spec (top_of i ((b, t) :: l)) NULL) as [E|_]; [by apply top_of_null in E|].
    destruct (tlsf_unlink_spec _ St i b t l (ci_cache _ _ _ _ I) Hi El) as (c0 & Eu & Hc & _).
    apply unlink_count in Eu as (c1 & -> & ->). cbn [mbind outcome_bind e_block e_tpool].
    specialize (Hc (zlen l) eq_refl). rewrite set_count_twice in Hc.
    pose proof (cinv_pop _ _ _ _ _ _ _ _ _ I Hi El Hc) as I1. pose proof (fun x => parked_pop _ _ _ _ _ _ _ _ x I Hi El) as Hpk.
    assert (Hin : (b, t) ∈ St i) by (rewrite El; left). destruct (ci_held _ _ _ _ I i b t Hi Hin) as (n & Hh).
    destruct (unpark_spec s Ls b t n (ci_tier _ _ _ _ I) Hh) as (s1 & Ls1 & -> & T1 & Hk & Hlv & Es). cbn [mbind outcome_bind].
    assert (I2 : cinv s1 (set_count c1 i (zlen l)) Ls1 (upd St i l)).
    { eapply cinv_mono; [exact I1|done|done|]. intros x m [_ Hx]%Hpk Hl. by apply Hlv. }
    destruct (IH fuel s1 c1 Ls1 (upd St i l) i Hi (upd_eq _ _ _) I2) as (s2 & c2 & Ls2 & E2 & I3 & F & Hd & Hk2 & Hu); [cbn in Hf; lia|].
    rewrite E2. exists s2, c2, Ls2. split; [done|]. pose proof (upd_upd St i l []) as Eup. split; [by eapply cinv_ext|].
    split; [by rewrite F, Es|]. split; [by rewrite Hd, Es|]. split; [by eapply kept_arenas_trans|]. intros x m. rewrite (in_use_ext _ _ (upd St i []) (upd (upd St i l) i [])) by done.
    rewrite Hu. unfold in_use. rewrite Hlv, Hpk. split; [|intros [Hl Hx]].
    + intros [[Hl Hx] Hp]. split; [done|]. tauto.
    + split; [split; [done|]|tauto]. intros ->. apply Hx. by exists i, t.
Qed.

Lemma flush_classes_run todo : forall s c Ls St, Forall class_ok todo -> cinv s c Ls St ->
  exists s' c' Ls' St', flush_classes s c todo = Done (s', c') /\ cinv s' c' Ls' St' /\ flags s' = flags s /\ headers s' = headers s /\ arenas_kept (tlsf_root s) (tlsf_root s') /\
    (forall x n, in_use s' Ls' St' x n <-> in_use s Ls St x n) /\ forall j, j ∈ todo \/ St j = [] -> St' j = [].
Proof.
  induction todo as [|i todo IH]; intros s c Ls St Ht I; cbn [flush_classes].
  { exists s, c, Ls, St. do 4 (split; [done|]). split; [apply kept_arenas_refl|]. split; [done|]. by intros j [Hj%not_elem_of_nil|Hj]. }
  apply Forall_cons in Ht as [Hi Ht].
  destruct (flush_class_run (St i) (S (Z.to_nat TLSF_CACHE_MAX_SLOTS)) s c Ls St i Hi eq_refl) as (s1 & c1 & Ls1 & -> & I1 & F1 & H1 & K1 & U1).
  { by apply cinv_set_count. }
  { pose proof (proj2 (ca_count _ _ (ci_cache _ _ _ _ I) i Hi)) as Hl. unfold zlen in Hl. lia. }
  cbn [mbind outcome_bind]. destruct (IH s1 (set_count c1 i 0) Ls1 _ Ht I1) as (s2 & c2 & Ls2 & St2 & -> & I2 & F2 & H2 & K2 & U2 & E2).
  exists s2, c2, Ls2, St2. split; [done|]. split; [done|]. split; [congruence|]. split; [congruence|]. split; [by eapply kept_arenas_trans|].
  split; [intros x n; by rewrite U2, U1|]. intros j Hj. apply E2. destruct (decide (j = i)) as [->|Hne]; [right; apply upd_eq|].
  rewrite upd_ne by done. destruct Hj as [[->|Hj]%elem_of_cons|Hj]; [done|by left|by right].
Qed.

Definition no_parked : Z -> list (Z * Z) := fun _ => [].

Lemma cache_flush_run s c Ls St : cinv s c Ls St ->
  exists s' c' Ls', tlsf_cache_flush s c = Done (s', c') /\ cinv s' c' Ls' no_parked /\ flags s' = flags s /\ headers s' = headers s /\ arenas_kept (tlsf_root s) (tlsf_root s') /\
    (forall x n, in_use s' Ls' no_parked x n <-> in_use s Ls St x n).
Proof.
  intros I. unfold tlsf_cache_flush.
  destruct (flush_classes_run (seqZ 0 TLSF_CACHE_SIZES) s c Ls St) as (s' & c' & Ls' & St' & E & I' & F & Hd & K & U & E'); [|done|].
  { apply Forall_forall. intros i Hi. apply elem_of_seqZ in Hi. unfold class_ok. lia. }
  exists s', c', Ls'. split; [exact E|].
  assert (En : forall i, class_ok i -> St' i = []) by (intros i Hi; apply E'; left; apply elem_of_seqZ; unfold class_ok in Hi; lia).
  assert (Hp : forall x, parked no_parked x <-> parked St' x).
  { intros x. split; intros (i & t & Hi & Hx); [by apply not_elem_of_nil in Hx|]. rewrite (En i Hi) in Hx. by apply not_elem_of_nil in Hx. }
  split; [|split; [done|split; [done|split; [done|]]]].
  - destruct I' as [T [Hn Ht He] C2 C3 C4]. split; [done|split|..].
    + intros i Hi. destruct (Hn i Hi) as [Hc ?]. rewrite Hc, (En i Hi). done.
    + intros i Hi. rewrite (Ht i Hi), (En i Hi). done.
    + done.
    + intros i Hi. constructor.
    + intros i j b t u _ _ Hx. by apply not_elem_of_nil in Hx.
    + intros i b t _ Hx. by apply not_elem_of_nil in Hx.
  - intros x n. rewrite <- U. unfold in_use. by rewrite Hp.
Qed.

(** ** Growing in place *)

Lemma expand_header s hdr new_size ok s' :
  tlsf_try_inplace_expand s hdr new_size = Done (ok, s') -> flags s' = flags s /\ arenas_kept (tlsf_root s) (tlsf_root s') /\
  (ok = true -> exists hd w, headers s !! hdr = Some hd /\ size_and_flags (theap s') !! raw_base hd = Some w /\
     headers s' = <[hdr := set_sizes hd new_size (u64 (block_size w - SIZEOF_TLSF_BLOCK - SIZEOF_HEADER))]> (headers s)).
Proof.
  unfold tlsf_try_inplace_expand. intros E. inv_out. unfold ld_header in Hb. destruct (headers s !! hdr) as [hd|] eqn:Eh; [|done].
  injection Hb as <-. destruct (negb _); [follow; by split_and!; [|apply kept_arenas_refl|]|].
  destruct (_ =? _); [follow; by split_and!; [|apply kept_arenas_refl|]|].
  destruct (_ || _); [follow; by split_and!; [|apply kept_arenas_refl|]|]. inv_out. destruct x as [i tp]. inv_out. destruct x as [[k tp'] h].
  destruct (negb k); [follow; by split_and!; [|apply kept_arenas_refl|]|]. inv_out. injection E as <- <-. cbn. split; [done|].
  unfold find_pool in Hb. destruct (list_find _ _) as [[i' tp0]|] eqn:Ef; [|done]. injection Hb as -> ->.
  apply list_find_Some in Ef as (Hi & _). apply expand_block_same in Hb0. split; [by eapply kept_arenas_insert|].
  intros _. exists hd, x. unfold ld in Hb1. destruct (size_and_flags h !! raw_base hd) eqn:Ew; [|done]. by injection Hb1 as ->.
Qed.

Lemma held_bound s Ls b t n : tinv sizeof_tlsf_pool s Ls -> held s Ls b t n -> n < 2 ^ 30.
Proof.
  intros [A O] (i & tp & L & Hi & HL & Hb & _). pose proof (live_range _ _ _ _ _ _ _ _ A Hi HL Hb).
  destruct (arenas_lookup _ _ _ _ _ A Hi) as (? & _ & [_ _ _ ? _]). lia.
Qed.

Lemma realloc_grow_run s c Ls St b t n new_size :
  cinv s c Ls St -> held s Ls b t n -> ~ parked St b -> sound_header s b t -> 0 <= new_size <= 2 ^ 28 ->
  exists ok s' c' Ls', realloc_grow s c (b + SIZEOF_TLSF_BLOCK) new_size = Done (ok, s', c') /\ cinv s' c' Ls' no_parked /\ flags s' = flags s /\ arenas_kept (tlsf_root s) (tlsf_root s') /\
    (ok = false -> (forall x m, in_use s' Ls' no_parked x m <-> in_use s Ls St x m) /\ headers s' = headers s) /\
    (ok = true -> exists n', SIZEOF_TLSF_BLOCK + SIZEOF_HEADER + new_size <= n' /\ held s' Ls' b t n' /\ sound_header s' b t /\
       (forall x m, in_use s' Ls' no_parked x m <-> (in_use s Ls St x m /\ x <> b) \/ (x = b /\ m = n')) /\
       forall a, a <> b + SIZEOF_TLSF_BLOCK -> headers s' !! a = headers s !! a).
Proof.
  intros I Hh Hp Hs Hnew. unfold realloc_grow.
  destruct (cache_flush_run s c Ls St I) as (s1 & c1 & Ls1 & -> & I1 & F1 & Hd1 & K1 & U1). cbn [mbind outcome_bind].
  assert (Hn : forall x, ~ parked no_parked x) by (intros x (i & u & _ & Hx); by apply not_elem_of_nil in Hx).
  assert (Hu : in_use s1 Ls1 no_parked b n) by (apply U1; split; [by eapply held_live|done]).
  assert (H1 : held s1 Ls1 b t n) by (eapply held_mono; [apply I|apply I1|exact K1|apply Hu|exact Hh]).
  assert (S1 : sound_header s1 b t) by (unfold sound_header; rewrite Hd1; exact Hs).
  destruct (held_header s1 Ls1 b t n H1 S1) as (i & Hin & Hok).
  destruct (expand_cases sizeof_tlsf_pool Hsizeof s1 Ls1 i _ b n new_size (ci_tier _ _ _ _ I1) Hin Hok Hnew) as (ok & s2 & E2 & Hf & Ht).
  rewrite E2. cbn [mbind outcome_bind]. destruct (expand_header _ _ _ _ _ E2) as (F2 & K2 & Hd2).
  destruct ok; [|rewrite (Hf eq_refl) in *; exists false, s1, c1, Ls1; by split_and!].
  destruct (Ht eq_refl) as (Ls2 & n' & hd' & T2 & Hn' & Hlv & _). destruct (Hd2 eq_refl) as (hd & w & Ehd & Ew & Ehs). clear Hf Ht Hd2.
  destruct S1 as (hd0 & Ehd0 & Hty & Hfl & Hraw & Hsub & _). assert (hd0 = hd) as -> by congruence. rewrite Hraw in Ew.
  assert (H2 : held s2 Ls2 b t n').
  { destruct H1 as (i1 & tp & L & Hi & HL & Hb & Et). destruct (K2 tp) as (tp' & (j & Hj)%list_elem_of_lookup_1 & Q1 & Q2 & Q3); [by eapply list_elem_of_lookup_2|].
    assert (Hl2 : live (tlsf_root s2) Ls2 b n') by (apply Hlv; by right). destruct Hl2 as (j' & a & La & Ha & HLa & Hx).
    pose proof (live_range _ _ _ _ _ _ _ _ (ti_arenas _ _ _ (ci_tier _ _ _ _ I1)) Hi HL Hb). pose proof (live_range _ _ _ _ _ _ _ _ (ti_arenas _ _ _ T2) Ha HLa Hx).
    destruct (decide (j' = j)) as [->|Hne]; [assert (a = tp') as -> by congruence; exists j, tp', La; split_and!; congruence|].
    destruct (ar_apart _ _ _ (ti_arenas _ _ _ T2) j' j a tp' Hne Ha Hj); lia. }
  pose proof (held_bound _ _ _ _ _ T2 H2) as Hn2. destruct (held_word _ _ _ _ _ T2 H2) as [Hm (q & Hw)]. rewrite Hw in Ew. injection Ew as <-.
  rewrite block_size_mk in Ehs by done. unfold SIZEOF_TLSF_BLOCK, SIZEOF_HEADER in Hn', Ehs. rewrite u64_small in Ehs by lia.
  exists true, s2, c1, Ls2. split; [done|]. split; [|split; [congruence|split; [by eapply kept_arenas_trans|split; [done|intros _]]]].
  - eapply cinv_mono; [exact I1|done|done|]. by intros x m ?%Hn.
  - exists n'. split; [done|]. split; [done|]. split; [|split].
    + eexists. rewrite Ehs. unfold SIZEOF_TLSF_BLOCK in *. rewrite lookup_insert_eq. split; [done|]. cbn. split_and!; try done; lia.
    + intros x m. pose proof (U1 x m) as Ux. unfold in_use in *. rewrite Hlv. pose proof (Hn x). tauto.
    + intros a Ha. rewrite Ehs, Hd1. unfold SIZEOF_TLSF_BLOCK in *. by rewrite lookup_insert_ne.
Qed.

(** ** A program that allocates, releases, flushes and grows *)

Inductive client_op := OAlloc (size : Z) | OFree (b : Z) | OFlush | OGrow (b size : Z).

(** The tier, the cache, and the blocks the program holds.  Touching any other block is the
    program's error. *)
Record client := Client { k_tier : tstate; k_cache : tls_cache; k_own : list Z }.

Definition client_step (k : client) (op : client_op) : outcome client :=
  match op with
  | OAlloc size =>
      r ← medium_alloc (k_tier k) (k_cache k) size;
      let '(p, s, c) := r in
      Done (Client s c (if p =? NULL then k_own k else (p - SIZEOF_HEADER - SIZEOF_TLSF_BLOCK) :: k_own k))
  | OFree b =>
      if bool_decide (b ∈ k_own k) then
        r ← medium_free (k_tier k) (k_cache k) (b + SIZEOF_TLSF_BLOCK);
        let '(s, c) := r in Done (Client s c (filter (fun x => x <> b) (k_own k)))
      else Err
  | OFlush => r ← tlsf_cache_flush (k_tier k) (k_cache k); let '(s, c) := r in Done (Client s c (k_own k))
  | OGrow b size =>
      if bool_decide (b ∈ k_own k) then
        r ← realloc_grow (k_tier k) (k_cache k) (b + SIZEOF_TLSF_BLOCK) size;
        let '(_, s, c) := r in Done (Client s c (k_own k))
      else Err
  end.

Fixpoint client_run (k : client) (ops : list client_op) : outcome client :=
  match ops with [] => Done k | op :: ops => k ← client_step k op; client_run k ops end.

Definition op_bounded (op : client_op) : Prop :=
  match op with OAlloc size | OGrow _ size => 0 <= size <= 2 ^ 28 | _ => True end.

Record client_ok (k : client) (Ls : list (list tile)) (St : Z -> list (Z * Z)) : Prop := {
  ck_inv : cinv (k_tier k) (k_cache k) Ls St;
  ck_own : forall b, b ∈ k_own k <-> exists n, in_use (k_tier k) Ls St b n;
  ck_once : NoDup (k_own k);
  ck_header : forall b, b ∈ k_own k -> exists t n, held (k_tier k) Ls b t n /\ ~ parked St b /\ sound_header (k_tier k) b t;
}.

(** After a step: every block still held either stayed as it was or is new. *)
Lemma client_after k s' c' own' Ls Ls' St St' :
  client_ok k Ls St -> cinv s' c' Ls' St' -> arenas_kept (tlsf_root (k_tier k)) (tlsf_root s') -> NoDup own' ->
  (forall b n, in_use s' Ls' St' b n -> b ∈ own') ->
  (forall b, b ∈ own' ->
     (b ∈ k_own k /\ (forall n, in_use (k_tier k) Ls St b n -> in_use s' Ls' St' b n) /\
        headers s' !! (b + SIZEOF_TLSF_BLOCK) = headers (k_tier k) !! (b + SIZEOF_TLSF_BLOCK)) \/
     exists t n, held s' Ls' b t n /\ ~ parked St' b /\ sound_header s' b t) ->
  client_ok (Client s' c' own') Ls' St'.
Proof.
  intros [I O _ Hh] I' K Hnd Hall Hown.
  assert (Hnew : forall b, b ∈ own' -> exists t n, held s' Ls' b t n /\ ~ parked St' b /\ sound_header s' b t).
  { intros b Hb. destruct (Hown b Hb) as [(Ho & Hu & Hd)|H']; [|done]. destruct (Hh b Ho) as (t & n & H1 & H2 & H3).
    destruct (Hu n) as [Hl Hp]; [split; [by eapply held_live|done]|]. exists t, n. split; [|split; [done|by unfold sound_header; rewrite Hd]].
    eapply held_mono; [apply I|apply I'|exact K|exact Hl|exact H1]. }
  split; cbn; [done| |done|done]. intros b. split; [|by intros [n Hn]; eapply Hall].
  intros Hb. destruct (Hnew b Hb) as (t & n & H1 & H2 & _). exists n. split; [by eapply held_live|done].
Qed.

Lemma fresh_header_sound s' (hs : gmap Z mp_block_header) fl req tn b t :
  headers s' = <[b + SIZEOF_TLSF_BLOCK := fresh_header fl req tn b t]> hs -> has_flag fl MP_BLOCK_FLAG_TLSF_ARENA = false ->
  SIZEOF_TLSF_BLOCK + SIZEOF_HEADER <= tn < 2 ^ 30 -> sound_header s' b t.
Proof.
  intros E Hf Hn. unfold SIZEOF_TLSF_BLOCK, SIZEOF_HEADER in *. eexists. unfold SIZEOF_TLSF_BLOCK. rewrite E, lookup_insert_eq. split; [done|].
  cbn. unfold SIZEOF_TLSF_BLOCK, SIZEOF_HEADER. rewrite u64_small by lia. split_and!; try done; lia.
Qed.

Lemma cache_client_step_ok k Ls St op :
  client_ok k Ls St -> op_bounded op ->
  client_step k op <> Fault /\ forall k', client_step k op = Done k' -> exists Ls' St', client_ok k' Ls' St'.
Proof.
  intros Hk Hop. pose proof Hk as [I O Hnd Hh]. destruct k as [s c own]. cbn in *.
  assert (Hpos : forall b, b ∈ own -> 0 < b).
  { intros b (t & n & Hb & _)%Hh. by destruct (held_pos _ _ _ _ _ (ci_tier _ _ _ _ I) Hb). }
  destruct op as [size|b| |b size]; cbn in *.
  - destruct (medium_alloc_run s c Ls St size I Hop) as (p & s' & c' & Ls' & St' & -> & I' & _ & K & Hnull & Hp). cbn [mbind outcome_bind].
    split; [done|]. intros k' [= <-]. exists Ls', St'. destruct (Z.eqb_spec p NULL) as [->|Hne].
    + destruct (Hnull eq_refl) as (Hu & Hd & _). eapply client_after; [exact Hk|exact I'|exact K|done|..]; cbn.
      * intros b n Hn. apply O. exists n. by apply Hu.
      * intros b Hb. left. split; [done|]. split; [intros n; apply Hu|]. apply Hd. apply Hpos in Hb. unfold SIZEOF_TLSF_BLOCK. lia.
    + destruct (Hp Hne) as [(b & t & sz & fl & -> & Hb0 & Hsz & Hheld & Hpk & Hu & Hap & Hfl & Hhd) _ _].
      replace (b + SIZEOF_TLSF_BLOCK + SIZEOF_HEADER - SIZEOF_HEADER - SIZEOF_TLSF_BLOCK) with b by lia.
      assert (Hnb : b ∉ own).
      { intros [n Hn]%O. pose proof (Hap b n Hn). destruct Hn as [(u & Hu')%live_held _].
        destruct (held_pos _ _ _ _ _ (ci_tier _ _ _ _ I) Hu'). destruct (held_pos _ _ _ _ _ (ci_tier _ _ _ _ I') Hheld). lia. }
      destruct (total_needed_bounds (flags s) size Hop) as [Hbd _].
      assert (Hcan : 0 <= (if has_flag (flags s) MP_FLAG_DEBUG_CANARY then 1 else 0) <= 1) by (destruct (has_flag (flags s) MP_FLAG_DEBUG_CANARY); clear; lia).
      eapply client_after; [exact Hk|exact I'|exact K|by apply NoDup_cons|..]; cbn.
      * intros x n [Hx|[-> _]]%Hu; [right; apply O; eauto|left].
      * intros x [->|Hx]%elem_of_cons.
        -- right. exists t, sz. split; [done|]. split; [done|]. eapply fresh_header_sound; [exact Hhd|exact Hfl|].
           unfold SIZEOF_TLSF_BLOCK, SIZEOF_HEADER in *. lia.
        -- left. split; [done|]. split; [intros n Hn; apply Hu; by left|]. rewrite Hhd, lookup_insert_ne; [done|]. intros E.
           apply Hnb. by replace b with x by lia.
  - case_bool_decide as Hb; [|done]. destruct (Hh b Hb) as (t & n & H1 & H2 & H3).
    destruct (medium_free_run s c Ls St b t n I H1 H2 H3) as (s' & c' & Ls' & St' & -> & I' & _ & Hd & K & Hu). cbn [mbind outcome_bind].
    split; [done|]. intros k' [= <-]. exists Ls', St'. eapply client_after; [exact Hk|exact I'|exact K|by apply NoDup_filter|..]; cbn.
    + intros x m [Hx Hne]%Hu. apply list_elem_of_filter. split; [done|]. apply O. eauto.
    + intros x [Hne Hx]%list_elem_of_filter. left. split; [done|]. split; [intros m Hm; by apply Hu|by rewrite Hd].
  - destruct (cache_flush_run s c Ls St I) as (s' & c' & Ls' & -> & I' & _ & Hd & K & Hu). cbn [mbind outcome_bind].
    split; [done|]. intros k' [= <-]. exists Ls', no_parked. eapply client_after; [exact Hk|exact I'|exact K|done|..]; cbn.
    + intros x m Hx%Hu. apply O. eauto.
    + intros x Hx. left. split; [done|]. split; [intros m; apply Hu|by rewrite Hd].
  - case_bool_decide as Hb; [|done]. destruct (Hh b Hb) as (t & n & H1 & H2 & H3).
    destruct (realloc_grow_run s c Ls St b t n size I H1 H2 H3 Hop) as (ok & s' & c' & Ls' & -> & I' & _ & K & Hf & Ht). cbn [mbind outcome_bind].
    split; [done|]. intros k' [= <-]. exists Ls', no_parked. destruct ok.
    + destruct (Ht eq_refl) as (n' & _ & H1' & H3' & Hu & Hd). eapply client_after; [exact Hk|exact I'|exact K|done|..]; cbn.
      * intros x m [[Hx _]|[-> _]]%Hu; [apply O; eauto|done].
      * intros x Hx. destruct (decide (x = b)) as [->|Hne].
        -- right. exists t, n'. split; [done|]. split; [|done]. intros (i & u & _ & Hu'). by apply not_elem_of_nil in Hu'.
        -- left. split; [done|]. split; [intros m Hm; apply Hu; by left|]. apply Hd. lia.
    + destruct (Hf eq_refl) as [Hu Hd]. eapply client_after; [exact Hk|exact I'|exact K|done|..]; cbn.
      * intros x m Hx%Hu. apply O. eauto.
      * intros x Hx. left. split; [done|]. split; [intros m; apply Hu|by rewrite Hd].
Qed.

Lemma cache_client_run_ok ops : forall k Ls St, client_ok k Ls St -> Forall op_bounded ops ->
  client_run k ops <> Fault /\ forall k', client_run k ops = Done k' -> exists Ls' St', client_ok k' Ls' St'.
Proof.
  induction ops as [|op ops IH]; intros k Ls St Hk Hb; cbn [client_run]; [split; [done|]; intros k' [= <-]; eauto|].
  apply Forall_cons in Hb as [Hop Hb]. destruct (cache_client_step_ok k Ls St op Hk Hop) as [Hf Hd].
  destruct (client_step k op) as [k1| |]; cbn [mbind outcome_bind]; [|done|done]. destruct (Hd k1 eq_refl) as (Ls1 & St1 & Hk1). by eapply IH.
Qed.

(** [tls_cache] starts as zeroes. *)
Definition empty_cache : tls_cache :=
  TCache (gset_to_gmap NULL (list_to_set (seqZ 0 TLSF_CACHE_SIZES))) (gset_to_gmap 0 (list_to_set (seqZ 0 TLSF_CACHE_SIZES))) ∅.

Lemma idle_client_ok s Ls : tinv sizeof_tlsf_pool s Ls -> (forall b n, ~ live (tlsf_root s) Ls b n) ->
  client_ok (Client s empty_cache []) Ls no_parked.
Proof.
  intros T Hn. assert (Hc : forall i, class_ok i -> (i ∈@{gset Z} list_to_set (seqZ 0 TLSF_CACHE_SIZES))).
  { intros i Hi. apply elem_of_list_to_set, elem_of_seqZ. unfold class_ok in Hi. lia. }
  split; cbn; [split|..].
  - done.
  - split; cbn; [| |done]; intros i Hi; apply Hc in Hi; [split; [|done]|]; by apply lookup_gset_to_gmap_Some.
  - intros i Hi. constructor.
  - intros i j b t u _ _ Hx. by apply not_elem_of_nil in Hx.
  - intros i b t _ Hx. by apply not_elem_of_nil in Hx.
  - intros b. split; [intros Hx; by apply not_elem_of_nil in Hx|]. intros (n & Hl & _). by apply Hn in Hl.
  - constructor.
  - intros b Hb. by apply not_elem_of_nil in Hb.
Qed.

Lemma empty_client_ok s : tinv sizeof_tlsf_pool s [] -> client_ok (Client s empty_cache []) [] no_parked.
Proof. intros T. apply idle_client_ok; [done|]. by intros b n (i & tp & L & _ & HL & _). Qed.

(** ** The lock comes too late

    [unpark] sets BLOCK_STATE_FREE before it takes the arena's lock. *)
Definition unpark_mark (s : tstate) (block : Z) : outcome tstate :=
  sf ← ld (size_and_flags (theap s)) block;
  h ← set_sf (theap s) block (Z.lor sf BLOCK_STATE_FREE);
  Done (set_pools s (tlsf_root s) h).

Definition unpark_file (s : tstate) (block tpool : Z) : outcome tstate :=
  r ← find_pool s tpool;
  let '(i, tp) := r in
  r ← tlsf_insert_free_block_nolock tp (theap s) block;
  let '(tp, h) := r in
  Done (set_pools s (<[i := tp]> (tlsf_root s)) h).

Lemma unpark_two_steps s b t : unpark s b t = (s ← unpark_mark s b; unpark_file s b t).
Proof.
  unfold unpark, unpark_mark, unpark_file, find_pool. destruct (ld _ _) as [w| |]; cbn [mbind outcome_bind]; [|done..].
  destruct (set_sf _ _ _) as [h| |]; cbn [mbind outcome_bind tlsf_root set_pools theap]; [|done..].
  destruct (list_find _ _) as [[i tp]|]; cbn [mbind outcome_bind]; [|done].
  by destruct (tlsf_insert_free_block_nolock tp h b) as [[tp' h']| |].
Qed.

(** Another thread releases the block at [hdr] between the two. *)
Definition flush_race (s : tstate) (block tpool hdr : Z) : outcome tstate :=
  s ← unpark_mark s block;
  s ← tlsf_free s hdr;
  unpark_file s block tpool.

(** ** The theorems *)

(** C23: the cached path of a medium-sized allocation is as sound as the tier's own.  It
    never faults; a block it returns is big enough, belonged to nobody (neither to the
    program nor to the cache any more), overlaps none of the program's blocks, and carries
    a fresh header, its canary and its zero fill; the invariant of tier and cache holds
    again.  It fails, leaving the program's blocks alone, only where the tier does: when
    the cache has no block of that size, no free block of any arena fits, and the pool is a
    static one or the system refuses the arena asked for. *)
Theorem medium_alloc_spec s c Ls St req :
  cinv s c Ls St -> 0 <= req <= 2 ^ 28 ->
  exists p s' c' Ls' St', medium_alloc s c req = Done (p, s', c') /\ cinv s' c' Ls' St' /\
    (p = NULL -> (forall x n, in_use s' Ls' St' x n <-> in_use s Ls St x n) /\ tier_fails s c req s' Ls' c') /\
    (p <> NULL -> handed s s' Ls Ls' St St' req p).
Proof.
  intros I Hreq. destruct (medium_alloc_run s c Ls St req I Hreq) as (p & s' & c' & Ls' & St' & E & I' & _ & _ & Hn & Hp).
  exists p, s', c', Ls', St'. split; [done|]. split; [done|]. split; [|done]. intros H0. destruct (Hn H0) as (? & _ & ?). done.
Qed.

(** Flushing the cache never faults, leaves it empty, and afterwards the live blocks
    of the tier are exactly the blocks the program owns: nothing parked is lost, nothing
    in use is taken. *)
Theorem cache_flush_spec s c Ls St :
  cinv s c Ls St ->
  exists s' c' Ls', tlsf_cache_flush s c = Done (s', c') /\ cinv s' c' Ls' no_parked /\ headers s' = headers s /\
    (forall i, class_ok i -> tlsf_slots c' !! i = Some NULL /\ tlsf_counts c' !! i = Some 0) /\
    (forall x n, live (tlsf_root s') Ls' x n <-> in_use s Ls St x n).
Proof.
  intros I. destruct (cache_flush_run s c Ls St I) as (s' & c' & Ls' & E & I' & _ & Hd & _ & Hu).
  exists s', c', Ls'. split; [done|]. split; [done|]. split; [done|]. split.
  - intros i Hi. split; [exact (ca_top _ _ (ci_cache _ _ _ _ I') i Hi)|]. exact (proj1 (ca_count _ _ (ci_cache _ _ _ _ I') i Hi)).
  - intros x n. rewrite <- Hu. unfold in_use. split; [|tauto]. intros Hl. split; [done|].
    intros (i & t & _ & Hx). by apply not_elem_of_nil in Hx.
Qed.

(** C22: whatever a program does with the tier through the cache (allocate, release what
    it holds, grow it in place, switch pools and flush), starting from an empty tier,
    nothing faults; the blocks it holds are pairwise disjoint and are exactly the live
    blocks that are not parked, each held once, so none is lost and none is handed out
    twice. *)
Theorem client_traces_safe s ops :
  tinv sizeof_tlsf_pool s [] -> Forall op_bounded ops ->
  client_run (Client s empty_cache []) ops <> Fault /\
  forall k, client_run (Client s empty_cache []) ops = Done k ->
    exists Ls St, cinv (k_tier k) (k_cache k) Ls St /\ NoDup (k_own k) /\
      (forall b, b ∈ k_own k <-> exists n, in_use (k_tier k) Ls St b n) /\
      (forall x n y m, in_use (k_tier k) Ls St x n -> in_use (k_tier k) Ls St y m -> x <> y -> x + n <= y \/ y + m <= x).
Proof.
  intros T Hb. destruct (cache_client_run_ok ops _ [] no_parked (empty_client_ok s T) Hb) as [Hf Hd]. split; [done|].
  intros k E. destruct (Hd k E) as (Ls & St & [I O Hnd _]). exists Ls, St. split; [done|]. split; [done|]. split; [done|].
  intros x n y m [Hx _] [Hy _]. eapply live_disjoint; [apply I|done|done].
Qed.

(** Releasing a block and asking for the same size again gives the same block back,
    with the arenas untouched, but [tlsf_allocated_bytes] has grown by the block: parking
    does not subtract what the hit adds.  Every such cycle repeats it. *)
Theorem parked_reuse_inflates s c Ls St b t n hd i req :
  cinv s c Ls St -> held s Ls b t n -> ~ parked St b -> sound_header s b t ->
  headers s !! (b + SIZEOF_TLSF_BLOCK) = Some hd -> usable_size hd = n - SIZEOF_TLSF_BLOCK - SIZEOF_HEADER ->
  0 <= req <= 2 ^ 28 -> n = tlsf_total_needed (flags s) req -> cache_index n = Done (Some i) -> zlen (St i) < TLSF_CACHE_MAX_SLOTS ->
  exists s1 c1 s2 c2, medium_free s c (b + SIZEOF_TLSF_BLOCK) = Done (s1, c1) /\
    medium_alloc s1 c1 req = Done (b + SIZEOF_TLSF_BLOCK + SIZEOF_HEADER, s2, c2) /\
    tlsf_root s2 = tlsf_root s /\ theap s2 = theap s /\
    tlsf_allocated_bytes s2 = u64 (tlsf_allocated_bytes s + (n - SIZEOF_TLSF_BLOCK - SIZEOF_HEADER)).
Proof.
  intros I Hh Hp (hd' & Hhd' & _ & _ & Hr & Hs & Hus) Hhd Husz Hreq Hn Hi Hlt. assert (hd' = hd) as -> by congruence.
  destruct (cache_index_spec n) as (o & Ho & Hio).
  { destruct (held_pos _ _ _ _ _ (ci_tier _ _ _ _ I) Hh). pose proof (held_bound _ _ _ _ _ (ci_tier _ _ _ _ I) Hh). lia. }
  rewrite Hi in Ho. injection Ho as <-. specialize (Hio i eq_refl).
  unfold medium_free, ld_header. rewrite Hhd. cbn [mbind outcome_bind]. rewrite Husz.
  replace (n - SIZEOF_TLSF_BLOCK - SIZEOF_HEADER + SIZEOF_TLSF_BLOCK + SIZEOF_HEADER) with n by lia.
  pose proof (held_bound _ _ _ _ _ (ci_tier _ _ _ _ I) Hh). destruct (held_pos _ _ _ _ _ (ci_tier _ _ _ _ I) Hh) as [Hb0 Hn0].
  rewrite u64_small by lia. rewrite Hi. cbn [mbind outcome_bind].
  destruct (ca_count _ _ (ci_cache _ _ _ _ I) i Hio) as [Hc _]. rewrite (ld_Some _ _ _ Hc). cbn [mbind outcome_bind].
  rewrite (proj2 (Z.ltb_lt _ _) Hlt), Hr, Hs. destruct (tlsf_push_spec c St i b t (ci_cache _ _ _ _ I) Hio Hlt) as (c1 & -> & Hc1).
  destruct (tlsf_unlink_spec c1 _ i b t (St i) Hc1 Hio (upd_eq _ _ _)) as (c2 & Eu & _).
  destruct (held_word s Ls b t n (ci_tier _ _ _ _ I) Hh) as [Hm (q & Hw)].
  cbn [mbind outcome_bind]. eexists s, c1, _, _. split; [done|]. unfold medium_alloc, cache_lookup. rewrite <- Hn, Hi. cbn [mbind outcome_bind].
  destruct (ca_count _ _ Hc1 i Hio) as [Hcc _]. rewrite upd_eq in Hcc. rewrite (ld_Some _ _ _ Hcc), zlen_cons. cbn [mbind outcome_bind].
  pose proof (zlen_nonneg (St i)). rewrite (proj2 (Z.ltb_lt 0 (1 + zlen (St i)))) by lia.
  rewrite Eu. cbn [mbind outcome_bind e_block e_tpool]. rewrite (ld_Some _ _ _ Hw). cbn [mbind outcome_bind].
  rewrite block_size_mk, Z.eqb_refl by done. cbn [negb]. unfold cache_stamp. rewrite (set_sf_Some _ _ _ _ Hw), mk_or_flag, size_or_prev by done.
  rewrite (insert_id (size_and_flags (theap s)) b) by exact Hw. cbn [mbind outcome_bind].
  rewrite (proj2 (Z.eqb_neq _ NULL)) by (unfold NULL, SIZEOF_TLSF_BLOCK, SIZEOF_HEADER; lia). split; [done|]. cbn. split; [done|].
  split; [by destruct (theap s)|]. rewrite (u64_small (n - SIZEOF_TLSF_BLOCK - SIZEOF_HEADER)); [done|]. lia.
Qed.

End Cache.

(** ** Concrete runs *)

#[local] Instance demo_loose : Discipline := loose_discipline.

Lemma demo_cache_tier : tinv 23240 demo_state [].
Proof. split; [split; [constructor|done]|]. intros tp Htp. by apply not_elem_of_nil in Htp. Qed.

Definition demo_start : client := Client demo_state empty_cache [].
Definition demo_run (ops : list client_op) : client := done_or demo_start (client_run 23240 demo_start ops).

Definition demo_ops : list client_op := [OAlloc 1000; OAlloc 1000; OFree 27336; OAlloc 1000; OAlloc 5000; OFlush].

(** The released block comes back; the counter says 8032 bytes where 7024 are in use. *)
Example demo_ops_result : (k_own (demo_run demo_ops), tlsf_allocated_bytes (k_tier (demo_run demo_ops))) = ([29720; 27336; 28528], 8032).
Proof. vm_compute. reflexivity. Qed.

Lemma client_traces_safe_witness :
  exists Ls St, cinv 23240 (k_tier (demo_run demo_ops)) (k_cache (demo_run demo_ops)) Ls St /\
    exists n, in_use (k_tier (demo_run demo_ops)) Ls St 27336 n.
Proof.
  assert (E : client_run 23240 demo_start demo_ops = Done (demo_run demo_ops)) by (apply done_or_eq; vm_compute; reflexivity).
  assert (B : Forall op_bounded demo_ops) by (repeat constructor; cbn; lia).
  destruct (client_traces_safe 23240 ltac:(lia) demo_state demo_ops demo_cache_tier B) as [_ Hd].
  destruct (Hd _ E) as (Ls & St & I & _ & O & _). exists Ls, St. split; [exact I|]. apply O.
  assert (Ek : k_own (demo_run demo_ops) = [29720; 27336; 28528]) by (vm_compute; reflexivity).
  rewrite Ek. right. left.
Defined.

(** One block in the program's hands, for the operations that need one. *)
Definition demo_one : client := demo_run [OAlloc 1000].

Lemma demo_one_ok : exists Ls St, client_ok 23240 demo_one Ls St.
Proof.
  assert (E : client_run 23240 demo_start [OAlloc 1000] = Done demo_one) by (apply done_or_eq; vm_compute; reflexivity).
  destruct (cache_client_run_ok 23240 ltac:(lia) [OAlloc 1000] demo_start [] no_parked (empty_client_ok 23240 demo_state demo_cache_tier)) as [_ Hd].
  { repeat constructor; cbn; lia. }
  exact (Hd _ E).
Qed.

Lemma medium_alloc_spec_witness :
  exists p s' c' Ls St Ls' St', medium_alloc 23240 (k_tier demo_one) (k_cache demo_one) 1000 = Done (p, s', c') /\
    (p <> NULL -> handed (k_tier demo_one) s' Ls Ls' St St' 1000 p).
Proof.
  destruct demo_one_ok as (Ls & St & [I _ _ _]).
  destruct (medium_alloc_spec 23240 ltac:(lia) (k_tier demo_one) (k_cache demo_one) Ls St 1000 I ltac:(lia)) as (p & s' & c' & Ls' & St' & E & _ & _ & Hp).
  exists p, s', c', Ls, St, Ls', St'. exact (conj E Hp).
Defined.

Lemma cache_flush_spec_witness :
  exists s' c' Ls Ls' St, tlsf_cache_flush (k_tier demo_one) (k_cache demo_one) = Done (s', c') /\
    forall x n, live (tlsf_root s') Ls' x n <-> in_use (k_tier demo_one) Ls St x n.
Proof.
  destruct demo_one_ok as (Ls & St & [I _ _ _]).
  destruct (cache_flush_spec 23240 ltac:(lia) (k_tier demo_one) (k_cache demo_one) Ls St I) as (s' & c' & Ls' & E & _ & _ & _ & Hl).
  exists s', c', Ls, Ls', St. exact (conj E Hl).
Defined.

Lemma parked_reuse_inflates_witness :
  exists s1 c1 s2 c2, medium_free (k_tier demo_one) (k_cache demo_one) 27368 = Done (s1, c1) /\
    medium_alloc 23240 s1 c1 1000 = Done (27520, s2, c2) /\
    tlsf_allocated_bytes (k_tier demo_one) = 1008 /\ tlsf_allocated_bytes s2 = 2016.
Proof.
  destruct demo_one_ok as (Ls & St & [I O _ Hh]). destruct (Hh 27336) as (t & n & H1 & H2 & H3).
  { assert (E : bool_decide (27336 ∈ k_own demo_one) = true) by (vm_compute; reflexivity). exact (bool_decide_eq_true_1 _ E). }
  assert (En : n = 1192).
  { destruct (held_word 23240 _ Ls _ t n (ci_tier _ _ _ _ _ I) H1) as [Hm (q & Hw)].
    assert (Ew : size_and_flags (theap (k_tier demo_one)) !! 27336 = Some (mk 1192 false false)) by (vm_compute; reflexivity).
    rewrite Ew in Hw. injection Hw as (En & _)%mk_inj; [by symmetry|done|done]. }
  subst n. pose proof H3 as (hd & Ehd & _).
  assert (Eu : usable_size <$> headers (k_tier demo_one) !! 27368 = Some 1008) by (vm_compute; reflexivity).
  change (27336 + SIZEOF_TLSF_BLOCK) with 27368 in Ehd. rewrite Ehd in Eu. injection Eu as Eu.
  assert (Hi : cache_index 1192 = Done (Some 4)) by (vm_compute; reflexivity).
  assert (Hl : zlen (St 4) < TLSF_CACHE_MAX_SLOTS).
  { destruct (ca_count _ _ (ci_cache _ _ _ _ _ I) 4) as [Hc _]; [unfold class_ok, TLSF_CACHE_SIZES; lia|].
    assert (Ec : tlsf_counts (k_cache demo_one) !! 4 = Some 0) by (vm_compute; reflexivity). rewrite Ec in Hc. injection Hc as Hc.
    unfold TLSF_CACHE_MAX_SLOTS. lia. }
  assert (Ea : tlsf_allocated_bytes (k_tier demo_one) = 1008) by (vm_compute; reflexivity).
  destruct (parked_reuse_inflates 23240 (k_tier demo_one) (k_cache demo_one) Ls St 27336 t 1192 hd 4 1000 I H1 H2 H3 Ehd Eu ltac:(lia)
    ltac:(vm_compute; reflexivity) Hi Hl) as (s1 & c1 & s2 & c2 & E1 & E2 & _ & _ & E3).
  exists s1, c1, s2, c2. split; [exact E1|]. split; [exact E2|]. split; [exact Ea|]. rewrite E3, Ea. vm_compute. reflexivity.
Defined.

(** Two neighbours, released through the cache and flushed, stay apart: a request that
    their joint space could serve is placed elsewhere; released directly they merge. *)
Example flush_does_not_coalesce :
  k_own (demo_run [OAlloc 1000; OAlloc 1000; OAlloc 1000; OFree 27336; OFree 28528; OFlush; OAlloc 2000]) = [30912; 29720] /\
  match client_run 23240 (demo_run [OAlloc 1000; OAlloc 1000; OAlloc 1000]) [] with
  | Done k =>
      match (s ← tlsf_free (k_tier k) 27368; s ← tlsf_free s 28560; tlsf_alloc 23240 s 2000) with
      | Done (p, _) => p = 27336 + SIZEOF_TLSF_BLOCK + SIZEOF_HEADER
      | _ => False
      end
  | _ => False
  end.
Proof. vm_compute. split; reflexivity. Qed.

(** One thread flushes a parked block while another releases its left neighbour: the
    neighbour absorbs the block that is marked free but not filed, then the block is filed
    as well, and the next two allocations overlap. *)
Theorem flush_race_overlaps :
  match (s ← flush_race (k_tier (demo_run [OAlloc 1000; OAlloc 1000])) 28528 4096 27368;
         r ← tlsf_alloc 23240 s 2100; let '(p, s) := r in r ← tlsf_alloc 23240 s 900; let '(q, s) := r in Done (p, q)) with
  | Done (p, q) => p = 27520 /\ q = 28712 /\ p < q /\ q + 900 < p + 2100
  | _ => False
  end.
Proof. vm_compute. split_and!; reflexivity. Qed.
