(* ===== verification/TlsfReset.v ===== *)
(** * Resetting the shared TLSF tier

    The arena half of [mp_reset] of [src/cmem_lifecycle.c]: every arena of the chain gets an
    empty index and one covering free block again. *)
From S2P Require Import Prelude Dll TlsfMap BlockHeap Header Tlsf TlsfPool.
From Stdlib Require Import ZArith Lia.
From stdpp Require Import base option list gmap.
Open Scope Z_scope.

#[local] Opaque zero_rows zero_blocks.

Definition tlsf_reset_arena (tp : tlsf_pool) (h : heap) : outcome (tlsf_pool * heap) :=
  let tp := with_index tp 0 zero_rows zero_blocks in
  let block := raw_area tp in
  let word := Z.lor (u64 (raw_size tp - SIZEOF_TLSF_BLOCK)) BLOCK_STATE_FREE in
  let h := clear_links (carve h block word NULL) block in
  let h := carve h (block + block_size word) 0 block in
  tlsf_insert_free_block_nolock tp h block.

(** [while (tcurr)]. *)
Fixpoint reset_arenas (ps : list tlsf_pool) (h : heap) : outcome (list tlsf_pool * heap) :=
  match ps with
  | [] => Done ([], h)
  | tp :: ps =>
      r ← tlsf_reset_arena tp h;
      let '(tp, h) := r in
      r ← reset_arenas ps h;
      let '(ps, h) := r in
      Done (tp :: ps, h)
  end.

(** The descriptor and the heap around an arena with one free block of [n] bytes. *)
Definition reset_tiles (tp : tlsf_pool) : list tile := [(raw_size tp - SIZEOF_TLSF_BLOCK, true)].

(** The arena may have been used under any discipline; a fresh one satisfies them all. *)
Lemma reset_arena_spec (d d' : Discipline) tp h L :
  pool_ok (discipline := d) tp h L -> L <> [] ->
  exists h', tlsf_reset_arena tp h = Done (single_pool (raw_area tp) (raw_size tp - SIZEOF_TLSF_BLOCK) (raw_size tp) (tp_addr tp), h') /\
    pool_ok (discipline := d') (single_pool (raw_area tp) (raw_size tp - SIZEOF_TLSF_BLOCK) (raw_size tp) (tp_addr tp)) h' (reset_tiles tp) /\
    in_region tp h h'.
Proof.
  intros [Hc HI Hs Hl Hb] Hne.
  assert (Hn : exists n, n = raw_size tp - SIZEOF_TLSF_BLOCK /\ 32 <= n < 2 ^ 30 /\ n mod 8 = 0).
  { exists (extent L). split; [lia|]. pose proof Hc as [Hp _]. split; [|exact (phys_extent_mod _ _ _ _ _ Hp)].
    destruct L as [|[sz fr] L]; [done|]. apply chain_cons in Hc as [([Hmin _] & _) Hc]. apply chain_extent in Hc.
    cbn [extent] in *. unfold TLSF_MIN_BLOCK_SIZE, SIZEOF_TLSF_BLOCK in *. lia. }
  destruct Hn as (n & En & Hn & Hm). unfold reset_tiles. unfold tlsf_reset_arena. cbn [with_index raw_area raw_size tp_addr]. rewrite <- En.
  rewrite u64_small, size_or_free, block_size_mk by (done || lia).
  set (area := raw_area tp) in *. set (h1 := clear_links _ _). set (h2 := carve h1 _ _ _).
  destruct (bucket_ok n ltac:(lia)) as (fl & sl & E & Hfl & Hsl).
  assert (Hsf : size_and_flags h2 !! area = Some (mk n true false)) by (subst h2 h1; cbn; by hl).
  assert (Hnx : nxt (flinks h2) !! area = Some NULL) by (subst h2 h1; cbn; by hl).
  assert (Hpv : prv (flinks h2) !! area = Some NULL) by (subst h2 h1; cbn; by hl).
  unfold tlsf_insert_free_block_nolock. rewrite (ld_Some _ _ _ Hsf). cbn [mbind outcome_bind].
  rewrite mapping_of_word by (done || lia). cbn [mbind outcome_bind]. rewrite E. unfold ld_bucket. cbn [with_index blocks].
  rewrite (zero_blocks_lookup fl sl Hfl Hsl). cbn [mbind outcome_bind].
  destruct (dll_push_front_spec (flinks h2) NULL [] area (dll_nil _) ltac:(apply not_elem_of_nil) ltac:(unfold NULL; lia)
              ltac:(split; eauto)) as (k & -> & Hd & Fr). cbn [mbind outcome_bind fst].
  unfold ld_row. cbn [with_index sl_bitmap]. rewrite (ld_Some _ _ _ (zero_rows_lookup fl Hfl)). cbn [mbind outcome_bind fst snd].
  assert (Esp : TPool (bit_set 0 fl) (<[fl:=bit_set 0 sl]> zero_rows) (<[(fl, sl):=area]> zero_blocks) area (raw_size tp) (tp_addr tp)
                = single_pool area n (raw_size tp) (tp_addr tp)) by (unfold single_pool; by rewrite E).
  exists (with_links h2 k). split; [by rewrite <- Esp|].
  destruct Hd as [Hseg _]. cbn in Hseg. destruct Hseg as (_ & _ & Hp' & nx & Hn' & ->).
  split.
  - constructor; cbn [single_pool raw_area raw_size].
    + apply chain_with_links; [apply Fr|]. apply chain_cons. split.
      { split; [split; [unfold TLSF_MIN_BLOCK_SIZE; lia|done]|]. split; [exists false; split; [apply bit_of_refl|exact Hsf]|]. split; [subst h2 h1; cbn; by hl|]. split; [split; eauto|done]. }
      split; [done|]. exists false. cbn [plast extent]. rewrite Z.add_0_r. subst h2. unfold carve. cbn [size_and_flags prev_physical flinks].
      rewrite !lookup_insert_eq. split; [reflexivity|]. split; [intros _; reflexivity|reflexivity].
    + eapply index_iff; [|apply single_index; [lia|unfold NULL; lia|exact Hn'|exact Hp']].
      intros x s. rewrite elem_of_frees_cons. cbn [frees]. pose proof (not_elem_of_nil (A := Z * Z) (x, s)). tauto.
    + cbn [extent]. lia.
    + lia.
    + lia.
  - unfold in_region. unfold SIZEOF_TLSF_BLOCK in *.
    assert (W : within area (area + raw_size tp) h h2).
    { eapply within_trans; [|apply within_carve; lia]. subst h1. clear - Hn En. clearbody area. split.
      + intros x Hx. cbn. rewrite !lookup_insert_ne by lia. done.
      + intros x Hx. unfold clear_links, has_node. cbn. destruct Hx as [H1 H2].
        destruct (decide (x = area)) as [->|]; [rewrite !lookup_insert_eq; eauto|].
        rewrite !(lookup_insert_ne _ area) by congruence. by split. }
    eapply within_trans; [exact W|]. apply within_links; [|apply Fr].
    intros x Hx. apply Fr. rewrite elem_of_cons. intros [->|Hx']; [lia|by apply not_elem_of_nil in Hx'].
Qed.

Definition fresh_pool (tp : tlsf_pool) : tlsf_pool :=
  single_pool (raw_area tp) (raw_size tp - SIZEOF_TLSF_BLOCK) (raw_size tp) (tp_addr tp).

(** The header fields at [x] are those of [h]. *)
Definition unchanged_at (h h' : heap) (x : Z) : Prop :=
  size_and_flags h' !! x = size_and_flags h !! x /\ prev_physical h' !! x = prev_physical h !! x /\
  nxt (flinks h') !! x = nxt (flinks h) !! x /\ prv (flinks h') !! x = prv (flinks h) !! x.

Lemma arenas_uncons `{Discipline} tp ps h L Ls :
  arenas_ok (tp :: ps) h (L :: Ls) -> pool_ok tp h L /\ arenas_ok ps h Ls /\ forall b, b ∈ ps -> apart tp b.
Proof.
  intros [A Ap]. inversion A; subst. split; [done|]. split; [split; [done|]|].
  - intros i j a b Hij Ha Hb. by apply (Ap (S i) (S j)); [lia|..].
  - intros b Hb. apply list_elem_of_lookup in Hb as [j Hj]. by apply (Ap 0%nat (S j)).
Qed.

Lemma arenas_frame `{Discipline} ps h h' Ls :
  (forall b x, b ∈ ps -> raw_area b <= x < raw_area b + raw_size b -> unchanged_at h h' x) ->
  (forall x, has_node (flinks h) x -> has_node (flinks h') x) -> arenas_ok ps h Ls -> arenas_ok ps h' Ls.
Proof.
  intros Hf Hn [A Ap]. split; [|done]. apply Forall2_same_length_lookup in A as [Hl A]. apply Forall2_same_length_lookup.
  split; [done|]. intros i tp L Htp HL. eapply pool_ok_frame; [|exact Hn|by eapply A]. intros x. apply Hf. by eapply list_elem_of_lookup_2.
Qed.

Lemma reset_arenas_spec (d d' : Discipline) ps : forall h Ls,
  arenas_ok (discipline := d) ps h Ls -> Forall (fun L => L <> []) Ls ->
  exists h', reset_arenas ps h = Done (map fresh_pool ps, h') /\ arenas_ok (discipline := d') (map fresh_pool ps) h' (map reset_tiles ps) /\
    (forall x, (forall b, b ∈ ps -> ~ (raw_area b <= x < raw_area b + raw_size b)) -> unchanged_at h h' x) /\
    forall x, has_node (flinks h) x -> has_node (flinks h') x.
Proof.
  induction ps as [|tp ps IH]; intros h Ls Ha HLs; cbn [reset_arenas map].
  { exists h. split; [done|]. split; [by split; [constructor|]|]. done. }
  pose proof Ha as [Hf2 _]. inversion Hf2 as [|? L ? Ls' _ _]; subst. apply arenas_uncons in Ha as (Hok & Ha & Hap).
  apply Forall_cons in HLs as [HL HLs].
  destruct (reset_arena_spec d d' tp h L Hok HL) as (h1 & -> & Hok1 & Hin1). cbn [mbind outcome_bind].
  destruct (IH h1 Ls') as (h2 & -> & Ha2 & Hfr & Hn2); [|done|].
  { eapply arenas_frame; [|apply Hin1|exact Ha]. intros b x Hb. by apply (apart_frame tp b); [apply Hap|]. }
  cbn [mbind outcome_bind]. exists h2. split; [done|]. split; [|split].
  - split.
    + constructor; [|apply Ha2]. eapply pool_ok_frame; [|exact Hn2|exact Hok1].
      intros x Hx. apply Hfr. intros b Hb. specialize (Hap b Hb). cbn in Hx. unfold apart in Hap. lia.
    + intros [|i] [|j] a b Hij E1 E2; cbn in E1, E2; [done| | |].
      * injection E1 as <-. apply list_elem_of_lookup_2, list_elem_of_fmap in E2 as (c & -> & Hc). exact (Hap c Hc).
      * injection E2 as <-. apply list_elem_of_lookup_2, list_elem_of_fmap in E1 as (c & -> & Hc). specialize (Hap c Hc).
        unfold apart in *. cbn. lia.
      * apply (ar_apart _ _ _ Ha2 i j); [lia|done|done].
  - intros x Hx. assert (H1 : unchanged_at h1 h2 x) by (apply Hfr; intros b Hb; apply Hx; by right).
    assert (H0 : unchanged_at h h1 x) by (apply Hin1; apply Hx; by left).
    unfold unchanged_at in *. destruct H1 as (-> & -> & -> & ->). exact H0.
  - intros x Hx. by apply Hn2, Hin1.
Qed.

(** What [tlsf_create_pool_custom] files, for the descriptor it returns. *)
Lemma create_fresh `{SysMem} z o h size tp h' o' :
  tlsf_create_pool_custom z o h size NULL = Done (Some tp, h', o') -> 64 <= size < 2 ^ 30 - 8 -> 0 < z < 2 ^ 32 -> fresh_pool tp = tp.
Proof.
  intros Hc Hs Hz. unfold tlsf_create_pool_custom in Hc. rewrite Z.eqb_refl in Hc.
  destruct (align8_bounds size) as [Ha Hm]; [lia|lia|]. set (sz := align8 size) in *.
  rewrite !(u64_small (sz - SIZEOF_TLSF_BLOCK)) in Hc by (unfold SIZEOF_TLSF_BLOCK; lia).
  rewrite (u64_small (z + sz)) in Hc by lia. destruct (sys_mem_alloc o (z + sz)) as [raw o1]. destruct (raw =? NULL); [done|].
  set (n := sz - SIZEOF_TLSF_BLOCK) in *. assert (Hnm : n mod 8 = 0) by (subst n; unfold SIZEOF_TLSF_BLOCK; zdiv).
  assert (Hn : 32 <= n < 2 ^ 30) by (subst n; unfold SIZEOF_TLSF_BLOCK; lia).
  rewrite size_or_free, block_size_mk in Hc by done. rewrite mapping_insert_eq in Hc by lia.
  destruct (bucket_ok n ltac:(lia)) as (fl & sl & E & Hfl & Hsl). rewrite E in Hc.
  cbn [mbind outcome_bind fst snd] in Hc. rewrite (ld_Some _ _ _ (zero_rows_lookup fl Hfl)) in Hc.
  cbn [mbind outcome_bind] in Hc. rewrite (zero_blocks_lookup fl sl Hfl Hsl) in Hc. cbn [mbind outcome_bind] in Hc.
  injection Hc as <- _ _. unfold fresh_pool, single_pool. cbn [raw_area raw_size tp_addr]. fold n. by rewrite E.
Qed.

Section Reset.
Context `{SysMem}.
Context (sizeof_tlsf_pool : Z).

(** [mp_reset]'s part of the tier: the counter and the arenas.  The headers are not
    touched. *)
Definition mp_reset_tlsf (s : tstate) : outcome tstate :=
  r ← reset_arenas (tlsf_root s) (theap s);
  let '(ps, h) := r in
  Done (TState (flags s) ps h (headers s) (payload s) 0 (total_pool_size s) (osys s)).

(** C40: resetting the tier never faults and leaves every arena of the chain exactly as
    [tlsf_create_pool_custom] would have left it: same region, an index that files the one
    covering free block, and nothing live.  The invariant of the tier holds again, tight
    even where cached blocks had come back without their neighbours being told, and the
    memory obtained from the system stays the same. *)
Theorem tlsf_reset_spec (d d' : Discipline) s Ls :
  0 < sizeof_tlsf_pool < 2 ^ 32 -> tinv (discipline := d) sizeof_tlsf_pool s Ls -> Forall (fun L => L <> []) Ls ->
  exists s', mp_reset_tlsf s = Done s' /\ tinv (discipline := d') sizeof_tlsf_pool s' (map reset_tiles (tlsf_root s)) /\
    tlsf_root s' = map fresh_pool (tlsf_root s) /\ (forall x n, ~ live (tlsf_root s') (map reset_tiles (tlsf_root s)) x n) /\
    tlsf_allocated_bytes s' = 0 /\ total_pool_size s' = total_pool_size s /\ regions (osys s') = regions (osys s) /\ headers s' = headers s /\
    (forall o h size tp h' o', tlsf_create_pool_custom sizeof_tlsf_pool o h size NULL = Done (Some tp, h', o') -> 64 <= size < 2 ^ 30 - 8 ->
       fresh_pool tp = tp).
Proof.
  intros Hz [Ha Ho] HLs. unfold mp_reset_tlsf. destruct (reset_arenas_spec d d' _ _ _ Ha HLs) as (h' & -> & Ha' & _). cbn [mbind outcome_bind].
  eexists. split; [done|]. cbn. split; [split; [exact Ha'|]|].
  - intros tp Htp. cbn in Htp. apply list_elem_of_fmap in Htp as (c & -> & Hc). exact (Ho c Hc).
  - split; [done|]. split; [|split; [done|split; [done|split; [done|split; [done|]]]]].
    2: { intros o h size tp h1 o1 Hc Hs. by eapply create_fresh. }
    intros x n (i & tp & L & Htp & HL & Hx).
    rewrite list_lookup_fmap in HL. destruct (tlsf_root s !! i); [|done]. injection HL as <-.
    unfold reset_tiles in Hx. cbn in Hx. by apply not_elem_of_nil in Hx.
Qed.
End Reset.

Lemma tlsf_reset_spec_witness :
  exists s', @mp_reset_tlsf demo_sys demo_after = Done s' /\ tlsf_root s' = map fresh_pool (tlsf_root demo_after) /\
    @total_pool_size demo_sys s' = 4217544.
Proof.
  assert (N : 27520 <> NULL) by (unfold NULL; lia).
  destruct (@alloc_cases demo_sys 23240 tight_discipline ltac:(lia) demo_state [] 1000 demo_inv ltac:(lia)) as (p & s' & Ls & E & _ & Hal).
  pose proof (f_equal (fun o => match o with Done (q, _) => q | _ => 0 end) E) as Ep.
  pose proof (f_equal (fun o => match o with Done (_, t) => t | _ => demo_state end) E) as Es.
  rewrite demo_alloc_eq in Ep, Es. cbn beta iota in Ep, Es. subst p s'. destruct (Hal N) as [I _ _ _].
  assert (HLs : Forall (fun L => L <> []) Ls).
  { apply Forall_lookup. intros i L HL ->. destruct (ti_arenas _ _ _ I) as [A _]. destruct (Forall2_lookup_r _ _ _ _ _ A HL) as (tp & Htp & Hok).
    pose proof (po_size _ _ _ Hok) as Hs. cbn in Hs.
    assert (Hb : forallb (fun tp => raw_size tp =? 4194304) (tlsf_root demo_after) = true) by (vm_compute; reflexivity).
    apply list_elem_of_lookup_2, list_elem_of_In in Htp. apply (proj1 (forallb_forall _ _) Hb), Z.eqb_eq in Htp.
    unfold SIZEOF_TLSF_BLOCK in Hs. lia. }
  destruct (@tlsf_reset_spec demo_sys 23240 tight_discipline tight_discipline demo_after Ls ltac:(lia) I HLs) as (s' & E1 & _ & E2 & _ & _ & E3 & _).
  exists s'. split; [exact E1|]. split; [exact E2|]. rewrite E3. vm_compute. reflexivity.
Defined.
