(* ===== verification/Arena.v ===== *)
(** * Per-thread TLSF arenas

    The owner-thread arenas of [src/cmem_slab.c] ([tlsf_arena_*]): an address-sorted free
    list with immediate coalescing, a mailbox for blocks freed by other threads, and the
    retirement protocol that returns the region.  Each function is one atomic step here
    ([ArenaRace] takes them apart); the [assert]s of debug builds are kept, as faults. *)
From S2P Require Import Prelude Dll BlockHeap.
From Stdlib Require Import ZArith Lia.
From stdpp Require Import base option list gmap.
Open Scope Z_scope.

Definition TLSF_ALIGN_MASK : Z := 7.
Definition TLSF_ARENA_DEFAULT_SIZE : Z := 256 * 1024.

(** [struct tlsf_arena]. *)
Record tlsf_arena := Arena {
  ar_addr : Z;            (* the descriptor itself *)
  raw : Z;
  size : Z;
  free_list : Z;
  sentinel : Z;
  live_bytes : Z;
  remote_free : Z;
  retired : bool;
  cleanup_claimed : bool;
  finished : bool;
}.

Definition set_free_list (a : tlsf_arena) p := Arena (ar_addr a) (raw a) (size a) p (sentinel a)
  (live_bytes a) (remote_free a) (retired a) (cleanup_claimed a) (finished a).
Definition set_live (a : tlsf_arena) n := Arena (ar_addr a) (raw a) (size a) (free_list a) (sentinel a)
  n (remote_free a) (retired a) (cleanup_claimed a) (finished a).
Definition set_remote (a : tlsf_arena) p := Arena (ar_addr a) (raw a) (size a) (free_list a) (sentinel a)
  (live_bytes a) p (retired a) (cleanup_claimed a) (finished a).
Definition set_retired (a : tlsf_arena) := Arena (ar_addr a) (raw a) (size a) (free_list a) (sentinel a)
  (live_bytes a) (remote_free a) true (cleanup_claimed a) (finished a).
Definition set_claimed (a : tlsf_arena) := Arena (ar_addr a) (raw a) (size a) (free_list a) (sentinel a)
  (live_bytes a) (remote_free a) (retired a) true (finished a).
Definition set_finished (a : tlsf_arena) := Arena (ar_addr a) NULL (size a) (free_list a) (sentinel a)
  (live_bytes a) (remote_free a) (retired a) (cleanup_claimed a) true.

(** What the arenas touch outside their region. *)
Record aenv := AEnv {
  total_pool_size : Z;
  sys_freed : list (Z * Z);   (* regions handed to [sys_mem_free] *)
  tls_arena : Z;              (* [tls_cache.tlsf_arena] of the running thread *)
}.

Definition tlsf_arena_span (h : heap) (block : Z) : outcome Z :=
  sf ← ld (size_and_flags h) block; Done (block_size sf).

Definition tlsf_arena_unlink_free (a : tlsf_arena) (h : heap) (block : Z) : outcome (tlsf_arena * heap) :=
  r ← dll_unlink (flinks h) (free_list a) block;
  let '(k, head) := r in
  k ← set_nxt k block NULL;
  k ← set_prv k block NULL;
  Done (set_free_list a head, with_links h k).

(** Fuel for a walk along link fields: one step per header. *)
Definition walk_fuel (h : heap) : nat := S (base.size (nxt (flinks h))).

(** [while (curr != NULL && curr < block) { prev = curr; curr = curr->next_free; }] *)
Fixpoint find_position (fuel : nat) (h : heap) (prev curr block : Z) : outcome (Z * Z) :=
  match fuel with
  | O => Fault
  | S fuel =>
      if negb (curr =? NULL) && (curr <? block) then
        n ← ld (nxt (flinks h)) curr; find_position fuel h curr n block
      else Done (prev, curr)
  end.

(** Forward merge: [curr] starts where [block] ends. *)
Definition merge_forward (a : tlsf_arena) (h : heap) (block curr : Z) : outcome (tlsf_arena * heap * Z) :=
  if curr =? NULL then Done (a, h, curr)
  else
    sp ← tlsf_arena_span h block;
    if negb (block + sp =? curr) then Done (a, h, curr)
    else
      after ← ld (nxt (flinks h)) curr;
      cs ← tlsf_arena_span h curr;
      let merged := sp + cs in
      r ← tlsf_arena_unlink_free a h curr;
      let '(a, h) := r in
      h ← set_sf h block (Z.lor merged BLOCK_STATE_FREE);
      Done (a, h, after).

(** Backward merge: [prev] ends where [block] begins. *)
Definition merge_backward (a : tlsf_arena) (h : heap) (block prev : Z)
    : outcome (tlsf_arena * heap * Z * Z) :=
  if prev =? NULL then Done (a, h, block, prev)
  else
    ps ← tlsf_arena_span h prev;
    if negb (prev + ps =? block) then Done (a, h, block, prev)
    else
      before ← ld (prv (flinks h)) prev;
      sp ← tlsf_arena_span h block;
      let merged := ps + sp in
      r ← tlsf_arena_unlink_free a h prev;
      let '(a, h) := r in
      h ← set_sf h prev (Z.lor merged BLOCK_STATE_FREE);
      Done (a, h, prev, before).

Definition tlsf_arena_insert_free (a : tlsf_arena) (h : heap) (block : Z) : outcome (tlsf_arena * heap) :=
  r ← find_position (walk_fuel h) h NULL (free_list a) block;
  let '(prev, curr) := r in
  r ← merge_forward a h block curr;
  let '(a, h, curr) := r in
  r ← merge_backward a h block prev;
  let '(a, h, block, prev) := r in
  r ← dll_link (flinks h) (free_list a) prev block curr;
  let '(k, head) := r in
  let a := set_free_list a head in
  let h := with_links h k in
  sp ← tlsf_arena_span h block;
  let after := block + sp in
  h ← (if after =? sentinel a then Done h
       else asf ← ld (size_and_flags h) after; set_sf h after (Z.lor asf BLOCK_STATE_PREV_FREE));
  h ← set_pp h after block;
  Done (a, h).

(** [raw] is what [sys_mem_alloc] returned and [arena] what [calloc] returned; a header
    written over them is [carve]d with both link words cleared. *)
Definition fresh_header (h : heap) (p sf pp : Z) : heap :=
  Heap (<[p := sf]> (size_and_flags h)) (<[p := pp]> (prev_physical h))
    (Links (<[p := NULL]> (nxt (flinks h))) (<[p := NULL]> (prv (flinks h)))).

Definition tlsf_arena_init (raw arena : Z) (h : heap) (e : aenv) : option tlsf_arena * heap * aenv :=
  if raw =? NULL then (None, h, e)
  else if arena =? NULL then
    (None, h, AEnv (total_pool_size e) ((raw, TLSF_ARENA_DEFAULT_SIZE) :: sys_freed e) (tls_arena e))
  else
    let size := TLSF_ARENA_DEFAULT_SIZE in
    let sentinel := raw + size - SIZEOF_TLSF_BLOCK in
    let h := fresh_header h raw (Z.lor (size - SIZEOF_TLSF_BLOCK) BLOCK_STATE_FREE) NULL in
    let h := fresh_header h sentinel 0 raw in
    (Some (Arena arena raw size raw sentinel 0 NULL false false false), h,
     AEnv (u64 (total_pool_size e + size)) (sys_freed e) arena).

(** [while (block != NULL) { ... }] over the exchanged mailbox. *)
Fixpoint reap_loop (fuel : nat) (a : tlsf_arena) (h : heap) (block : Z) : outcome (tlsf_arena * heap) :=
  match fuel with
  | O => Fault
  | S fuel =>
      if block =? NULL then Done (a, h)
      else
        next ← ld (nxt (flinks h)) block;
        sp ← tlsf_arena_span h block;
        h ← set_sf h block (Z.lor sp BLOCK_STATE_FREE);
        r ← tlsf_arena_insert_free a h block;
        let '(a, h) := r in reap_loop fuel a h next
  end.

Definition tlsf_arena_reap (a : tlsf_arena) (h : heap) : outcome (tlsf_arena * heap) :=
  let block := remote_free a in
  reap_loop (walk_fuel h) (set_remote a NULL) h block.

(** First loop of [tlsf_arena_validate]: the physical chain.  The result is where the
    walk stopped and its predecessor; [None] a failed check. *)
Fixpoint validate_chain (fuel : nat) (h : heap) (prev block stop : Z) : outcome (option (Z * Z)) :=
  match fuel with
  | O => Fault
  | S fuel =>
      if block <? stop then
        sf ← ld (size_and_flags h) block;
        let span := block_size sf in
        if (span <? TLSF_MIN_BLOCK_SIZE) || negb (Z.land span TLSF_ALIGN_MASK =? 0) then Done None
        else if stop <? block + span then Done None
        else
          pp ← ld (prev_physical h) block;
          if negb (pp =? prev) then Done None
          else
            prev_free ← (if prev =? NULL then Done false
                         else psf ← ld (size_and_flags h) prev; Done (is_free psf));
            if negb (Bool.eqb prev_free (is_prev_free sf)) then Done None
            else validate_chain fuel h block (block + span) stop
      else Done (Some (prev, block))
  end.

(** Two list neighbours that are not ascending, or adjacent and not coalesced. *)
Definition out_of_order (h : heap) (prev_free block : Z) : outcome bool :=
  if prev_free =? NULL then Done false
  else if block <=? prev_free then Done true
  else sp ← tlsf_arena_span h prev_free; Done (prev_free + sp =? block).

(** Second loop: the free list. *)
Fixpoint validate_free (fuel : nat) (a : tlsf_arena) (h : heap) (prev_free block stop : Z) : outcome bool :=
  match fuel with
  | O => Fault
  | S fuel =>
      if block =? NULL then Done true
      else
        sf ← ld (size_and_flags h) block;
        if negb (is_free sf) then Done false
        else
          pf ← ld (prv (flinks h)) block;
          if negb (pf =? prev_free) then Done false
          else
            bad ← out_of_order h prev_free block;
            if bad : bool then Done false
            else if (block <? raw a) || (stop <? block + block_size sf) then Done false
            else
              n ← ld (nxt (flinks h)) block; validate_free fuel a h block n stop
  end.

Definition tlsf_arena_validate (a : tlsf_arena) (h : heap) : outcome bool :=
  if raw a =? NULL then Done false
  else
    let stop := raw a + size a - SIZEOF_TLSF_BLOCK in
    r ← validate_chain (walk_fuel h) h NULL (raw a) stop;
    match r with
    | None => Done false
    | Some (prev, block) =>
        sf ← ld (size_and_flags h) block;
        if negb (block =? stop) || negb (sf =? 0) then Done false
        else
          pp ← ld (prev_physical h) block;
          if negb (pp =? prev) then Done false
          else validate_free (walk_fuel h) a h NULL (free_list a) stop
    end.

(** [assert(e)] in a debug build. *)
Definition c_assert (b : bool) : outcome unit := if b then Done tt else Fault.

Definition tlsf_arena_cleanup (a : tlsf_arena) (h : heap) (e : aenv) : outcome (tlsf_arena * heap * aenv) :=
  r ← tlsf_arena_reap a h;
  let '(a, h) := r in
  single ← (if free_list a =? NULL then Done false
            else n ← ld (nxt (flinks h)) (free_list a); Done (n =? NULL));
  _ ← c_assert single;
  ok ← tlsf_arena_validate a h;
  _ ← c_assert ok;
  let e := if raw a =? NULL then e
           else AEnv (u64 (total_pool_size e - size a)) ((raw a, size a) :: sys_freed e) (tls_arena e) in
  Done (set_finished a, h, e).

(** The compare-and-exchange on [cleanup_claimed]. *)
Definition claim_cleanup (a : tlsf_arena) (h : heap) (e : aenv) : outcome (tlsf_arena * heap * aenv) :=
  if cleanup_claimed a then Done (a, h, e) else tlsf_arena_cleanup (set_claimed a) h e.

(** [tlsf_arena_retire] when the running thread's arena is [a] (of this pool). *)
Definition tlsf_arena_retire (a : tlsf_arena) (h : heap) (e : aenv) : outcome (tlsf_arena * heap * aenv) :=
  if negb (tls_arena e =? ar_addr a) then Done (a, h, e)
  else
    let e := AEnv (total_pool_size e) (sys_freed e) NULL in
    let a := set_retired a in
    if live_bytes a =? 0 then claim_cleanup a h e else Done (a, h, e).

(** First fit over the free list. *)
Fixpoint first_fit_walk (fuel : nat) (h : heap) (block total_needed : Z) : outcome Z :=
  match fuel with
  | O => Fault
  | S fuel =>
      if block =? NULL then Done NULL
      else
        sp ← tlsf_arena_span h block;
        if sp <? total_needed then n ← ld (nxt (flinks h)) block; first_fit_walk fuel h n total_needed
        else Done block
  end.

(** The chosen block is cut to [total_needed] or taken whole. *)
Definition arena_take (a : tlsf_arena) (h : heap) (block total_needed : Z) : outcome (tlsf_arena * heap) :=
  bs ← tlsf_arena_span h block;
  let remaining := u64 (bs - total_needed) in
  let after := block + bs in
  r ← tlsf_arena_unlink_free a h block;
  let '(a, h) := r in
  if TLSF_MIN_BLOCK_SIZE + SIZEOF_TLSF_BLOCK <=? remaining then
    let remainder := block + total_needed in
    h ← set_sf h block total_needed;
    let h := carve h remainder (Z.lor remaining BLOCK_STATE_FREE) block in
    tlsf_arena_insert_free a h remainder
  else
    h ← set_sf h block bs;
    h ← set_pp h after block;
    h ← (if after =? sentinel a then Done h
         else asf ← ld (size_and_flags h) after; set_sf h after (Z.land asf (Z.lnot BLOCK_STATE_PREV_FREE)));
    Done (a, h).

(** The block, or [NULL]. *)
Definition tlsf_arena_alloc (a : tlsf_arena) (h : heap) (total_needed : Z) : outcome (Z * tlsf_arena * heap) :=
  r ← (if remote_free a =? NULL then Done (a, h) else tlsf_arena_reap a h);
  let '(a, h) := r in
  block ← first_fit_walk (walk_fuel h) h (free_list a) total_needed;
  if block =? NULL then Done (NULL, a, h)
  else
    r ← arena_take a h block total_needed;
    let '(a, h) := r in
    sp ← tlsf_arena_span h block;
    let a := set_live a (u64 (live_bytes a + sp)) in
    ok ← tlsf_arena_validate a h;
    _ ← c_assert ok;
    Done (block, a, h).

Definition tlsf_arena_free_block (a : tlsf_arena) (h : heap) (e : aenv) (block : Z)
    : outcome (tlsf_arena * heap * aenv) :=
  span ← tlsf_arena_span h block;
  let owner := (tls_arena e =? ar_addr a) && negb (retired a) in
  r ← (if owner then
         h ← set_sf h block (Z.lor span BLOCK_STATE_FREE);
         tlsf_arena_insert_free a h block
       else
         k ← set_nxt (flinks h) block (remote_free a);
         Done (set_remote a block, with_links h k));
  let '(a, h) := r in
  let prev_live := live_bytes a in
  let a := set_live a (u64 (prev_live - span)) in
  r ← (if (prev_live =? span) && retired a then claim_cleanup a h e else Done (a, h, e));
  let '(a, h, e) := r in
  if finished a then Done (a, h, e)
  else
    ok ← tlsf_arena_validate a h;
    _ ← c_assert ok;
    Done (a, h, e).

(** ** The free list *)

Lemma find_position_spec fuel h pv p F1 F2 b :
  seg (flinks h) pv p (F1 ++ F2) NULL -> (forall x, x ∈ F1 -> x < b) -> (forall x, x ∈ F2 -> b <= x) ->
  (length F1 < fuel)%nat ->
  exists m, find_position fuel h pv p b = Done (lastd pv F1, m) /\ seg (flinks h) (lastd pv F1) m F2 NULL /\
    seg (flinks h) pv p F1 m.
Proof.
  revert pv p F1. induction fuel as [|fuel IH]; intros pv p F1 Hs H1 H2 Hf; [lia|]. cbn [find_position].
  destruct F1 as [|x F1].
  - cbn in Hs. exists p. unfold lastd. cbn. split; [|done].
    destruct F2 as [|y F2]; cbn in Hs.
    + subst p. done.
    + destruct Hs as (-> & Hy & _). rewrite (proj2 (Z.eqb_neq y NULL) Hy).
      assert (b <= y) by (apply H2, list_elem_of_here). by rewrite (proj2 (Z.ltb_ge y b)).
  - pose proof Hs as (-> & Hx & Hp & n & Hn & Hs'). cbn [app] in Hs.
    rewrite (proj2 (Z.eqb_neq x NULL) Hx). assert (x < b) by (apply H1, list_elem_of_here).
    rewrite (proj2 (Z.ltb_lt x b)) by done. cbn [negb andb]. rewrite (ld_Some _ _ _ Hn). cbn [mbind outcome_bind].
    destruct (IH x n F1 Hs') as (m & E & Hm1 & Hm2); [|done|cbn in Hf; lia|].
    { intros y Hy. apply H1. by apply list_elem_of_further. }
    exists m. rewrite lastd_cons. split; [done|]. split; [done|].
    split; [done|]. split; [done|]. split; [done|]. by exists n.
Qed.

(** A thread's region is private: its tags are exact and every release coalesces. *)
#[local] Instance arena_discipline : Discipline := tight_discipline.

Lemma bit_of_tight_iff pf (P : bool -> Prop) : (exists q, bit_of pf q /\ P q) <-> P pf.
Proof. split; [intros (q & Hq & H); by rewrite (bit_of_tight _ _ Hq eq_refl)|intros H; exists pf; split; [apply bit_of_refl|done]]. Qed.

Lemma not_both_tight fr pf : not_both fr pf <-> fr && pf = false.
Proof. split; [intros H; by apply H|by intros H _]. Qed.

Lemma phys_cons_tight h pv pf a sz fr l :
  phys h pv pf a ((sz, fr) :: l) <->
  size_ok sz /\ size_and_flags h !! a = Some (mk sz fr pf) /\ prev_physical h !! a = Some pv /\
  has_node (flinks h) a /\ fr && pf = false /\ phys h a fr (a + sz) l.
Proof. cbn [phys]. by rewrite bit_of_tight_iff, not_both_tight. Qed.

Lemma chain_cons_tight strict h pv pf a sz fr l :
  chain strict h pv pf a ((sz, fr) :: l) <->
  (size_ok sz /\ size_and_flags h !! a = Some (mk sz fr pf) /\ prev_physical h !! a = Some pv /\
   has_node (flinks h) a /\ fr && pf = false) /\ chain strict h a fr (a + sz) l.
Proof. by rewrite chain_cons, bit_of_tight_iff, not_both_tight. Qed.

Lemma chain_tag_tight strict h pv pf a l :
  chain strict h pv pf a l ->
  exists n fr b, n mod 8 = 0 /\ size_and_flags h !! a = Some (mk n fr b) /\ prev_physical h !! a = Some pv /\
    fr && pf = false /\
    match l with
    | [] => n = 0 /\ fr = false
    | (sz, f) :: _ => n = sz /\ fr = f /\ b = pf
    end.
Proof.
  intros Hc. destruct (chain_tag _ _ _ _ _ _ Hc) as (n & fr & b & H1 & H2 & H3 & H4 & H5).
  exists n, fr, b. split_and!; [done..|by rewrite <- not_both_tight|exact H5].
Qed.


(** The free tiles before an address are below it, those after it are not. *)
Lemma free_below h pv pf a l x :
  phys h pv pf a l -> x ∈ free_addrs a l -> a <= x < a + extent l.
Proof.
  intros Hp (s & Hs)%elem_of_free_addrs. destruct (frees_range _ _ _ _ _ _ _ Hp Hs) as (? & ? & [? _]).
  unfold TLSF_MIN_BLOCK_SIZE in *. lia.
Qed.

(** A free tile that does not end the layout ends before it. *)
Lemma free_not_last h pv pf a l x s :
  phys h pv pf a l -> (x, s) ∈ frees a l -> flast false l = false -> x + s < a + extent l.
Proof.
  intros Hp Hx Hl. destruct (frees_split _ _ _ _ _ _ _ Hp Hx) as (l1 & l2 & -> & ->).
  destruct l2 as [|[s2 f2] l2].
  - rewrite flast_app in Hl. done.
  - apply phys_app in Hp as [_ Hp]. apply phys_cons_tight in Hp as (_ & _ & _ & _ & _ & ([Hmin _] & _ & _ & _ & _ & Hp)).
    pose proof (phys_extent _ _ _ _ _ Hp). rewrite extent_app. cbn [extent].
    unfold TLSF_MIN_BLOCK_SIZE in *. lia.
Qed.

(** A free block at [b] between [l1] and [l2], not yet on the free list. *)
Record inserting (a : tlsf_arena) (h : heap) (l1 : list tile) (b sz : Z) (l2 : list tile) : Prop := {
  in_prefix : phys h NULL false (raw a) l1;
  in_at : b = raw a + extent l1;
  in_size : size_ok sz;
  in_word : size_and_flags h !! b = Some (mk sz true false);
  in_prev : prev_physical h !! b = Some (plast NULL (raw a) l1);
  in_node : has_node (flinks h) b;
  in_suffix : exists pv q, chain true h pv q (b + sz) l2;
  in_list : dll (flinks h) (free_list a) (free_addrs (raw a) l1 ++ free_addrs (b + sz) l2);
  in_sentinel : sentinel a = b + sz + extent l2;
  in_base : 0 < raw a;
}.

Definition same_arena (a a' : tlsf_arena) : Prop := a' = set_free_list a (free_list a').

Lemma inserting_lists a h l1 b sz l2 :
  inserting a h l1 b sz l2 ->
  (forall x, x ∈ free_addrs (raw a) l1 -> raw a <= x < b) /\
  (forall x, x ∈ free_addrs (b + sz) l2 -> b + sz <= x < b + sz + extent l2) /\ 32 <= sz /\ 0 < b /\ 0 <= extent l1.
Proof.
  intros [Hp Hb [Hmin _] _ _ _ (pv & q & [Hc _]) _ _ Hbase]. pose proof (phys_extent _ _ _ _ _ Hp).
  unfold TLSF_MIN_BLOCK_SIZE in Hmin. split; [|split; [|split; [done|split; [lia|done]]]].
  - intros x Hx. rewrite Hb. by eapply free_below.
  - intros x Hx. by eapply free_below.
Qed.

(** The link fields that an insertion may touch. *)
Definition touches (h h' : heap) (F : list Z) : Prop :=
  frame F (flinks h) (flinks h').

Lemma unlink_free_spec a h F1 y F2 :
  dll (flinks h) (free_list a) (F1 ++ y :: F2) ->
  exists a' k, tlsf_arena_unlink_free a h y = Done (a', with_links h k) /\ same_arena a a' /\
    dll k (free_list a') (F1 ++ F2) /\ frame (F1 ++ y :: F2) (flinks h) k.
Proof.
  intros Hd. unfold tlsf_arena_unlink_free.
  destruct (dll_unlink_spec _ _ _ _ _ Hd) as (k & hd & -> & Hd' & Fr). cbn [mbind outcome_bind].
  assert (Hy : y ∈ F1 ++ y :: F2) by (apply elem_of_app; right; apply list_elem_of_here).
  assert (Hny : y ∉ F1 ++ F2).
  { destruct Hd as [_ Hd]. apply NoDup_app in Hd as (_ & Hdis & Hd2). apply NoDup_cons in Hd2 as [Hb2 _].
    rewrite elem_of_app. intros [H1|H2]; [|done]. apply (Hdis y H1), list_elem_of_here. }
  destruct (dll_node _ _ _ _ Hd Hy) as [Hn _].
  rewrite set_nxt_node by (by apply Fr). cbn [mbind outcome_bind].
  set (k1 := Links _ _). assert (F1' : frame [y] k k1) by (apply frame_nxt; by apply list_elem_of_singleton).
  rewrite set_prv_node by (by apply F1', Fr). cbn [mbind outcome_bind].
  set (k2 := Links _ _).
  assert (F2' : frame [y] k k2) by (eapply frame_trans; [exact F1'|apply frame_prv; by apply list_elem_of_singleton]).
  exists (set_free_list a hd), k2. split; [done|]. split; [done|]. split.
  - eapply frame_dll; [exact F2'| |exact Hd']. intros x Hx. rewrite list_elem_of_singleton. by intros ->.
  - eapply frame_trans; eapply frame_mono; [|exact Fr| |exact F2']; intros x Hx.
    + rewrite elem_of_app in *. rewrite elem_of_cons. tauto.
    + by apply list_elem_of_singleton in Hx as ->.
Qed.

Lemma span_of h b sz fr pf :
  size_and_flags h !! b = Some (mk sz fr pf) -> sz mod 8 = 0 -> tlsf_arena_span h b = Done sz.
Proof. intros Hw Hm. unfold tlsf_arena_span. rewrite (ld_Some _ _ _ Hw). cbn. by rewrite block_size_mk. Qed.

(** Header words outside the tile being merged. *)
Definition keeps (a a' : tlsf_arena) (h h' : heap) (F : list Z) (lo hi : Z) : Prop :=
  same_arena a a' /\ frame F (flinks h) (flinks h') /\ within lo hi h h'.

Lemma merge_forward_spec a h l1 b sz l2 curr :
  inserting a h l1 b sz l2 ->
  seg (flinks h) (lastd NULL (free_addrs (raw a) l1)) curr (free_addrs (b + sz) l2) NULL ->
  let '(sz', l2') := absorb_next sz l2 in
  exists a' h' curr', merge_forward a h b curr = Done (a', h', curr') /\
    inserting a' h' l1 b sz' l2' /\ same_arena a a' /\
    seg (flinks h') (lastd NULL (free_addrs (raw a) l1)) curr' (free_addrs (b + sz') l2') NULL /\
    frame (free_addrs (raw a) l1 ++ free_addrs (b + sz) l2) (flinks h) (flinks h') /\
    (forall x, size_and_flags h' !! x = if decide (x = b) then Some (mk sz' true false) else size_and_flags h !! x).
Proof.
  intros I Hcurr. destruct (inserting_lists _ _ _ _ _ _ I) as (B1 & B2 & B3 & B4 & B5).
  destruct I as [Hp Hb Hs Hw Hpv Hn (pv & q & Hc) Hl Hsent Hbase]. pose proof Hs as [_ Hsm].
  unfold merge_forward. rewrite (span_of _ _ _ _ _ Hw Hsm).
  assert (Hself : forall x, size_and_flags h !! x = if decide (x = b) then Some (mk sz true false) else size_and_flags h !! x).
  { intros x. case_decide as D; [by subst|done]. }
  assert (Hstay : absorb_next sz l2 = (sz, l2) -> (curr = NULL \/ b + sz <> curr) ->
    exists a' h' curr', (if curr =? NULL then Done (a, h, curr) else
      sp ← Done sz; if negb (b + sp =? curr) then Done (a, h, curr) else
        after ← ld (nxt (flinks h)) curr; cs ← tlsf_arena_span h curr;
        r ← tlsf_arena_unlink_free a h curr; let '(a0, h0) := r in
        h1 ← set_sf h0 b (Z.lor (sp + cs) BLOCK_STATE_FREE); Done (a0, h1, after)) = Done (a', h', curr') /\
    inserting a' h' l1 b sz l2 /\ same_arena a a' /\
    seg (flinks h') (lastd NULL (free_addrs (raw a) l1)) curr' (free_addrs (b + sz) l2) NULL /\
    frame (free_addrs (raw a) l1 ++ free_addrs (b + sz) l2) (flinks h) (flinks h') /\
    (forall x, size_and_flags h' !! x = if decide (x = b) then Some (mk sz true false) else size_and_flags h !! x)).
  { intros _ Hne. exists a, h, curr. split.
    { destruct (Z.eqb_spec curr NULL); [done|]. destruct Hne as [?|Hne]; [done|].
      cbn [mbind outcome_bind]. by rewrite (proj2 (Z.eqb_neq _ _) Hne). }
    split; [constructor; eauto|]. split; [by destruct a|]. split; [done|]. split; [apply frame_refl|done]. }
  destruct l2 as [|[n [|]] t]; cbn [absorb_next].
  - apply Hstay; [done|]. left. exact Hcurr.
  - clear Hstay. apply chain_cons_tight in Hc as [([Hnmin Hnm] & Hns & Hnp & Hnn & _) Hc3].
    pose proof (chain_extent _ _ _ _ _ _ Hc3) as Ht3. unfold TLSF_MIN_BLOCK_SIZE in Hnmin.
    rewrite free_addrs_cons in *. cbn [app] in *.
    pose proof Hcurr as (-> & Hcn & _ & after & Hafter & Hseg).
    rewrite (proj2 (Z.eqb_neq _ _) Hcn). cbn [mbind outcome_bind]. rewrite Z.eqb_refl. cbn [negb].
    rewrite (ld_Some _ _ _ Hafter). cbn [mbind outcome_bind].
    rewrite (span_of _ _ _ _ _ Hns Hnm). cbn [mbind outcome_bind].
    destruct (unlink_free_spec a h _ _ _ Hl) as (a' & k & -> & Hsame & Hl' & Fr). cbn [mbind outcome_bind].
    erewrite set_sf_Some by exact Hw. cbn [mbind outcome_bind]. rewrite size_or_free by zdiv.
    set (h' := Heap _ _ _). exists a', h', after. split; [done|].
    assert (Hraw : raw a' = raw a /\ sentinel a' = sentinel a) by (rewrite Hsame; done). destruct Hraw as [Hraw Hse].
    replace (b + (sz + n)) with (b + sz + n) by lia. cbn [extent] in Hsent.
    split; [|split; [done|split; [|split]]].
    + constructor; rewrite ?Hraw, ?Hse; cbn [size_and_flags prev_physical flinks h' with_links].
      * eapply (phys_frame h); [|apply Fr|exact Hp]. intros x Hx. cbn. rewrite lookup_insert_ne by lia. done.
      * done.
      * split; [unfold TLSF_MIN_BLOCK_SIZE; lia|zdiv].
      * by rewrite lookup_insert_eq.
      * done.
      * by apply Fr.
      * exists (b + sz), true. replace (b + (sz + n)) with (b + sz + n) by lia.
        eapply (chain_frame _ h); [|apply Fr|exact Hc3]. intros x Hx. cbn. rewrite lookup_insert_ne by lia. done.
      * by replace (b + (sz + n)) with (b + sz + n) by lia.
      * lia.
      * done.
    + cbn [flinks h' with_links]. destruct Hl' as [Hl' _]. apply seg_app in Hl' as (m & Hm1 & Hm2).
      assert (m = after) as ->; [|exact Hm2].
      (* the successor recorded before the unlink *)
      destruct (free_addrs (b + sz + n) t) as [|y F] eqn:EF.
      * cbn in Hm2, Hseg. congruence.
      * cbn in Hm2, Hseg. destruct Hm2 as (-> & _). by destruct Hseg as (-> & _).
    + exact Fr.
    + intros x. cbn. case_decide as D; [subst; by rewrite lookup_insert_eq|by rewrite lookup_insert_ne].
  - apply Hstay; [done|]. right. rewrite free_addrs_cons in Hcurr, B2. cbn [app] in Hcurr, B2.
    apply chain_cons_tight in Hc as [([Hnmin Hnm] & _) [Hpt _]]. unfold TLSF_MIN_BLOCK_SIZE in Hnmin.
    destruct (free_addrs (b + sz + n) t) as [|y F] eqn:EF.
    + cbn in Hcurr. subst. unfold NULL. lia.
    + destruct Hcurr as (-> & _). assert (Hy : y ∈ free_addrs (b + sz + n) t) by (rewrite EF; apply list_elem_of_here).
      pose proof (free_below _ _ _ _ _ _ Hpt Hy). lia.
Qed.

Definition head_live (l : list tile) : Prop := match l with (_, true) :: _ => False | _ => True end.

Lemma absorb_next_head strict h pv q x sz l2 :
  chain strict h pv q x l2 -> head_live (snd (absorb_next sz l2)).
Proof.
  destruct l2 as [|[n []] t]; [done| |done]. intros [_ Hc]%chain_cons_tight. cbn.
  destruct t as [|[m []] t]; [done| |done]. apply chain_cons_tight in Hc as [(_ & _ & _ & _ & Hc) _]. done.
Qed.

Lemma merge_backward_spec a h l1 b sz l2 :
  inserting a h l1 b sz l2 ->
  exists a' h' l1' b' sz', merge_backward a h b (lastd NULL (free_addrs (raw a) l1)) =
      Done (a', h', b', lastd NULL (free_addrs (raw a) l1')) /\
    inserting a' h' l1' b' sz' l2 /\ same_arena a a' /\ flast false l1' = false /\
    l1' ++ (sz', true) :: l2 = merge_prev l1 sz l2 /\ b' + sz' = b + sz /\ raw a <= b' <= b /\
    (forall x, x ∈ free_addrs (raw a) l1' -> x ∈ free_addrs (raw a) l1) /\
    (b' = b \/ b' ∈ free_addrs (raw a) l1) /\
    frame (free_addrs (raw a) l1 ++ free_addrs (b + sz) l2) (flinks h) (flinks h') /\
    (forall x, x <> b' -> size_and_flags h' !! x = size_and_flags h !! x).
Proof.
  intros I. destruct (inserting_lists _ _ _ _ _ _ I) as (B1 & B2 & B3 & B4 & B5).
  pose proof I as [Hp Hb Hs Hw Hpv Hn (pv & q & Hc) Hl Hsent Hbase]. pose proof Hs as [_ Hsm].
  set (F1 := free_addrs (raw a) l1) in *. unfold merge_backward.
  pose proof Hp as Hp0.
  assert (Hstay : (lastd NULL F1 = NULL \/ flast false l1 = false) ->
    exists s, (lastd NULL F1 =? NULL) = false -> tlsf_arena_span h (lastd NULL F1) = Done s /\
      (flast false l1 = false -> lastd NULL F1 + s <> b)).
  { intros _. destruct (Z.eqb_spec (lastd NULL F1) NULL) as [E|E]; [by exists 0|].
    assert (Hin : lastd NULL F1 ∈ F1) by (destruct (lastd_elem NULL F1); [congruence|done]).
    apply elem_of_free_addrs in Hin as (s & Hin). exists s. intros _.
    destruct (frees_split _ _ _ _ _ _ _ Hp Hin) as (u & v & El & Ex).
    rewrite El in Hp. apply phys_app in Hp as [_ Hpu]. rewrite <- Ex in Hpu.
    apply phys_cons_tight in Hpu as ([_ Hum] & Hus & _). split; [by eapply span_of|].
    intros Hfl. pose proof (free_not_last _ _ _ _ _ _ _ Hp0 Hin Hfl). lia. }
  destruct (flast false l1) eqn:Hfl.
  2: { destruct (Hstay ltac:(by right)) as (s & Hs'). clear Hstay.
       exists a, h, l1, b, sz. split; [|split; [done|split; [by destruct a|split; [done|split; [|split; [done|split; [lia|split; [done|split; [by left|split; [apply frame_refl|done]]]]]]]]]].
       - destruct (Z.eqb_spec (lastd NULL F1) NULL) as [E|E]; [done|].
         destruct (Hs' eq_refl) as [-> Hne]. cbn [mbind outcome_bind].
         by rewrite (proj2 (Z.eqb_neq _ _) (Hne eq_refl)).
       - unfold merge_prev. destruct (last l1) as [[p []]|] eqn:E; [|done..].
         apply last_Some in E as (l & ->). by rewrite flast_snoc in Hfl. }
  clear Hstay. destruct l1 as [|t0 l0 _] using rev_ind; [done|]. destruct t0 as [p fr].
  rewrite flast_snoc in Hfl. subst fr. rename l0 into l1.
  rewrite plast_snoc in Hpv. rewrite extent_app in *. cbn [extent] in *.
  set (pr := raw a + extent l1) in *.
  apply phys_app in Hp as [Hp1 Hp2]. fold pr in Hp2. apply phys_cons_tight in Hp2 as ([Hpmin Hpm] & Hps & Hpp & Hpn & Hpf & _). cbn in Hpf.
  pose proof (phys_extent _ _ _ _ _ Hp1) as Ht1. unfold TLSF_MIN_BLOCK_SIZE in Hpmin.
  assert (EF : F1 = free_addrs (raw a) l1 ++ [pr]).
  { unfold F1. rewrite free_addrs_app, free_addrs_cons. done. }
  clearbody F1. subst F1. rewrite lastd_snoc. rewrite <- app_assoc in Hl. cbn [app] in Hl.
  rewrite (proj2 (Z.eqb_neq pr NULL)) by (unfold NULL; lia).
  rewrite (span_of _ _ _ _ _ Hps Hpm). cbn [mbind outcome_bind].
  assert (Epb : pr + p = b) by lia. rewrite (proj2 (Z.eqb_eq _ _) Epb). cbn [negb].
  pose proof Hl as [Hlseg _]. apply seg_app in Hlseg as (m & Hl1 & Hl2). pose proof Hl2 as (-> & _ & Hprv & _).
  rewrite (ld_Some _ _ _ Hprv), (span_of _ _ _ _ _ Hw Hsm). cbn [mbind outcome_bind].
  destruct (unlink_free_spec a h _ _ _ Hl) as (a' & k & -> & Hsame & Hl' & Fr). cbn [mbind outcome_bind].
  erewrite set_sf_Some by exact Hps. cbn [mbind outcome_bind]. rewrite size_or_free by zdiv.
  set (h' := Heap _ _ _).
  assert (Hraw : raw a' = raw a /\ sentinel a' = sentinel a) by (rewrite Hsame; done). destruct Hraw as [Hraw Hse].
  exists a', h', l1, pr, (p + sz). split; [done|]. split; [|split; [done|split; [done|split; [|split; [lia|split; [lia|split; [|split; [|split]]]]]]]].
  - constructor; rewrite ?Hraw, ?Hse; cbn [size_and_flags prev_physical flinks h' with_links].
    + eapply (phys_frame h); [|apply Fr|exact Hp1]. intros x Hx. cbn. rewrite lookup_insert_ne by lia. done.
    + done.
    + split; [unfold TLSF_MIN_BLOCK_SIZE; lia|zdiv].
    + by rewrite lookup_insert_eq.
    + done.
    + by apply Fr.
    + exists pv, q. replace (pr + (p + sz)) with (b + sz) by lia.
      eapply (chain_frame _ h); [|apply Fr|exact Hc]. intros x Hx. cbn. rewrite lookup_insert_ne by lia. done.
    + by replace (pr + (p + sz)) with (b + sz) by lia.
    + lia.
    + done.
  - unfold merge_prev. by rewrite last_snoc, removelast_last.
  - intros x Hx. apply elem_of_app. by left.
  - right. apply elem_of_app. right. by apply list_elem_of_singleton.
  - cbn [flinks h' with_links]. by rewrite <- app_assoc.
  - intros x Hx. cbn. by rewrite lookup_insert_ne.
Qed.

(** [tlsf_arena_insert_free] coalesces the block with its free neighbours and keeps the
    free list in address order. *)
Lemma seg_first k pv p l : seg k pv p l NULL -> p = match l with [] => NULL | x :: _ => x end.
Proof. apply seg_head. Qed.

Lemma merged_fields a h l1 b sz l2 :
  inserting a h l1 b sz l2 -> flast false l1 = false -> head_live l2 ->
  b ∉ free_addrs (raw a) l1 ++ free_addrs (b + sz) l2 ->
  forall pv, seg (flinks h) pv (match free_addrs (b + sz) l2 with [] => NULL | x :: _ => x end)
    (free_addrs (b + sz) l2) NULL ->
  exists a' h', (r ← dll_link (flinks h) (free_list a) (lastd NULL (free_addrs (raw a) l1)) b
                      (match free_addrs (b + sz) l2 with [] => NULL | x :: _ => x end);
    let '(k, head) := r in
    let a := set_free_list a head in
    let h := with_links h k in
    sp ← tlsf_arena_span h b;
    let after := b + sp in
    h ← (if after =? sentinel a then Done h
         else asf ← ld (size_and_flags h) after; set_sf h after (Z.lor asf BLOCK_STATE_PREV_FREE));
    h ← set_pp h after b;
    Done (a, h)) = Done (a', h') /\ same_arena a a' /\
    chain true h' NULL false (raw a) (l1 ++ (sz, true) :: l2) /\
    dll (flinks h') (free_list a') (free_addrs (raw a) (l1 ++ (sz, true) :: l2)) /\
    frame (free_addrs (raw a) l1 ++ b :: free_addrs (b + sz) l2) (flinks h) (flinks h').
Proof.
  intros I Hfl Hhl Hnin pv0 Hseg. destruct (inserting_lists _ _ _ _ _ _ I) as (B1 & B2 & B3 & B4 & B5).
  destruct I as [Hp Hb Hs Hw Hpv Hn (pv & q & Hc) Hl Hsent Hbase]. pose proof Hs as [_ Hsm].
  set (nx := match free_addrs (b + sz) l2 with [] => NULL | x :: _ => x end) in *.
  pose proof Hl as [Hls _]. apply seg_app in Hls as (m & Hm1 & Hm2). apply seg_first in Hm2.
  assert (m = nx) as -> by done.
  destruct (dll_link_spec _ _ _ b nx _ Hl Hnin ltac:(unfold NULL; lia) Hn Hm1) as (k & hd & -> & Hd & Fr).
  cbn [mbind outcome_bind]. rewrite (span_of (with_links h k) _ _ _ _ Hw Hsm). cbn [mbind outcome_bind].
  destruct (chain_tag_tight _ _ _ _ _ _ Hc) as (n & fr & pb & Hnm & Hns & Hnp & _ & Hnl).
  set (after := b + sz) in *. cbn [sentinel set_free_list].
  pose proof (chain_extent _ _ _ _ _ _ Hc) as Hext.
  assert (Htag : exists h2, (if after =? sentinel a then Done (with_links h k)
      else asf ← ld (size_and_flags (with_links h k)) after;
           set_sf (with_links h k) after (Z.lor asf BLOCK_STATE_PREV_FREE)) = Done h2 /\
      flinks h2 = k /\ prev_physical h2 = prev_physical h /\
      (forall x, x <> after -> size_and_flags h2 !! x = size_and_flags h !! x) /\
      size_and_flags h2 !! after = Some (mk n fr (match l2 with [] => pb | _ => true end))).
  { destruct l2 as [|[s2 f2] t].
    - cbn [extent] in Hsent. rewrite (proj2 (Z.eqb_eq after (sentinel a))) by lia.
      exists (with_links h k). split_and!; done.
    - assert (0 < s2) by (apply chain_cons_tight in Hc as [([Hm _] & _) _]; unfold TLSF_MIN_BLOCK_SIZE in Hm; lia).
      apply chain_cons_tight in Hc as [_ Hc]. apply chain_extent in Hc. cbn [extent] in Hsent.
      rewrite (proj2 (Z.eqb_neq after (sentinel a))) by lia. cbn [size_and_flags with_links].
      rewrite (ld_Some _ _ _ Hns). cbn [mbind outcome_bind]. erewrite set_sf_Some by exact Hns.
      rewrite mk_or_prev_free by done. eexists. split; [done|]. cbn. split_and!; [done..| |].
      + intros x Hx. by rewrite lookup_insert_ne.
      + by rewrite lookup_insert_eq. }
  destruct Htag as (h2 & -> & Hk2 & Hpp2 & Hso & Hsn). cbn [mbind outcome_bind].
  erewrite set_pp_Some by (rewrite Hpp2; exact Hnp). cbn [mbind outcome_bind].
  eexists _, _. split; [done|]. split; [done|]. cbn [flinks free_list set_free_list]. rewrite Hk2.
  assert (Hfa : free_addrs (raw a) (l1 ++ (sz, true) :: l2) = free_addrs (raw a) l1 ++ b :: free_addrs after l2).
  { rewrite free_addrs_app, free_addrs_cons. by rewrite <- Hb. }
  rewrite Hfa. split; [|by split]. rewrite Hpp2.
  apply (chain_prefix _ h); cbn [size_and_flags prev_physical flinks].
  - intros x Hx. rewrite Hso, lookup_insert_ne by (unfold after; lia). done.
  - apply Fr.
  - done.
  - rewrite <- Hb, Hfl. apply chain_cons_tight. cbn [size_and_flags prev_physical flinks]. split.
    + split; [done|]. split; [by rewrite Hso by (unfold after; lia)|].
      split; [by rewrite lookup_insert_ne by (unfold after; lia)|]. split; [|done]. by apply Fr.
    + fold after. eapply (chain_retag _ h); [exact Hc|exact Hns|done|exact Hsn|..];
        cbn [size_and_flags prev_physical flinks].
      * by rewrite lookup_insert_eq.
      * intros x Hx. rewrite Hso, lookup_insert_ne by lia. done.
      * apply Fr.
      * destruct l2 as [|[s2 f2] t]; [by destruct Hnl as [_ ->]|]. destruct Hnl as (_ & -> & _). by destruct f2.
      * destruct l2; [|done]. intros _.
        destruct Hc as [_ (b0 & Hb0 & Hst & _)]. cbn in Hb0. rewrite Z.add_0_r in Hb0. destruct Hnl as [-> ->].
        rewrite Hst in Hb0 by done. rewrite Hb0 in Hns. injection Hns as Hns. by destruct pb.
Qed.

Lemma tlsf_arena_insert_free_spec a h l1 b sz l2 :
  inserting a h l1 b sz l2 ->
  exists a' h', tlsf_arena_insert_free a h b = Done (a', h') /\ same_arena a a' /\
    chain true h' NULL false (raw a) (coalesce l1 sz l2) /\
    dll (flinks h') (free_list a') (free_addrs (raw a) (coalesce l1 sz l2)) /\
    frame (b :: free_addrs (raw a) l1 ++ free_addrs (b + sz) l2) (flinks h) (flinks h').
Proof.
  intros I. destruct (inserting_lists _ _ _ _ _ _ I) as (B1 & B2 & B3 & B4 & B5).
  unfold tlsf_arena_insert_free. pose proof (in_list _ _ _ _ _ _ I) as Hl.
  destruct (find_position_spec (walk_fuel h) h NULL (free_list a) (free_addrs (raw a) l1)
    (free_addrs (b + sz) l2) b) as (curr & -> & Hcurr & _); [apply Hl|intros x Hx; by apply B1|
    intros x Hx; apply B2 in Hx; lia| |].
  { unfold walk_fuel. destruct Hl as [Hls Hnd]. apply NoDup_app in Hnd as (Hnd & _).
    assert (length (free_addrs (raw a) l1) <= base.size (nxt (flinks h)))%nat; [|lia].
    apply nodup_size; [done|]. intros x Hx.
    destruct (seg_node _ _ _ _ _ x Hls) as [[? _] _]; [apply elem_of_app; by left|done]. }
  cbn [mbind outcome_bind]. rewrite coalesce_eq. pose proof (merge_forward_spec _ _ _ _ _ _ _ I Hcurr) as Hmf.
  pose proof (in_suffix _ _ _ _ _ _ I) as (pv & q & Hc). pose proof (absorb_next_head _ _ _ _ _ sz _ Hc) as Hhl.
  assert (Hfsub : forall x, x ∈ free_addrs (b + fst (absorb_next sz l2)) (snd (absorb_next sz l2)) ->
                            x ∈ free_addrs (b + sz) l2).
  { intros x. destruct l2 as [|[n []] t]; [done| |done]. cbn [absorb_next fst snd].
    rewrite free_addrs_cons, elem_of_app, Z.add_assoc. auto. }
  destruct (absorb_next sz l2) as [sz1 l21]. cbn [fst snd] in Hhl, Hfsub.
  destruct Hmf as (a1 & h1 & curr1 & -> & I1 & Hs1 & Hseg1 & Fr1 & _). cbn [mbind outcome_bind].
  assert (Hraw1 : raw a1 = raw a) by (rewrite Hs1; done).
  destruct (merge_backward_spec _ _ _ _ _ _ I1)
    as (a2 & h2 & l1' & b2 & sz2 & E & I2 & Hs2 & Hfl & Heq & Hend & Hb2 & Hsub & Hb2in & Fr2 & _).
  rewrite Hraw1 in E. rewrite E. cbn [mbind outcome_bind]. clear E.
  assert (Hraw2 : raw a2 = raw a) by (rewrite Hs2; done).
  apply seg_first in Hseg1. rewrite <- Hend in Hseg1. rewrite Hseg1.
  assert (Hnin : b2 ∉ free_addrs (raw a2) l1' ++ free_addrs (b2 + sz2) l21).
  { destruct (inserting_lists _ _ _ _ _ _ I2) as (C1 & C2 & C3 & _). rewrite elem_of_app.
    intros [Hx|Hx]; [apply C1 in Hx; lia|apply C2 in Hx; lia]. }
  pose proof (in_list _ _ _ _ _ _ I2) as [Hl2 _]. apply seg_app in Hl2 as (m & _ & Hl2).
  pose proof (seg_first _ _ _ _ Hl2) as Em. rewrite Em in Hl2.
  destruct (merged_fields _ _ _ _ _ _ I2 Hfl Hhl Hnin _ Hl2) as (a' & h' & E & Hs3 & Hch & Hd & Fr3).
  rewrite Hraw2 in *. rewrite Hraw1 in *. exists a', h'. split; [exact E|].
  split; [unfold same_arena in *; rewrite Hs3, Hs2, Hs1; done|]. rewrite <- Heq. split; [done|]. split; [done|].
  eapply frame_trans; [eapply frame_mono; [|exact Fr1]|eapply frame_trans; eapply frame_mono; [|exact Fr2| |exact Fr3]].
  - intros x Hx. by apply elem_of_cons; right.
  - intros x. rewrite elem_of_cons, !elem_of_app. rewrite <- Hraw1. intros [Hx|Hx]; [tauto|]. auto.
  - intros x. rewrite elem_of_app, !elem_of_cons, elem_of_app. rewrite Hend.
    intros [Hx|[->|Hx]]; [auto| |auto]. destruct Hb2in as [->|Hx]; [by left|auto].
Qed.

(** ** The arena invariant *)

Record arena_core (a : tlsf_arena) (h : heap) (L : list tile) : Prop := {
  co_chain : chain true h NULL false (raw a) L;
  co_free : dll (flinks h) (free_list a) (free_addrs (raw a) L);
  co_sentinel : sentinel a = raw a + extent L;
  co_base : 0 < raw a;
}.

(** Bytes of the live tiles that are not in the mailbox. *)
Definition held_bytes (M : list Z) (ls : list (Z * Z)) : Z :=
  fold_right Z.add 0 (map (fun '(x, s) => if decide (x ∈ M) then 0 else s) ls).

Record arena_ok (a : tlsf_arena) (h : heap) (L : list tile) (M : list Z) : Prop := {
  ok_core : arena_core a h L;
  ok_mail : sll (nxt (flinks h)) (remote_free a) M;
  ok_mail_nodup : NoDup M;
  ok_mail_live : forall x, x ∈ M -> exists s, (x, s) ∈ lives (raw a) L;
  ok_live : live_bytes a = held_bytes M (lives (raw a) L);
  ok_size : size a = extent L + SIZEOF_TLSF_BLOCK;
  ok_end : raw a + size a <= 2 ^ 64;
  ok_room : SIZEOF_TLSF_BLOCK < size a;
}.

Lemma lives_app a l1 l2 : lives a (l1 ++ l2) = lives a l1 ++ lives (a + extent l1) l2.
Proof.
  revert a. induction l1 as [|[sz fr] l1 IH]; intros a; cbn [app lives extent]; [by rewrite Z.add_0_r|].
  rewrite IH, <- app_assoc. do 3 f_equal. lia.
Qed.

Lemma lives_coalesce_eq a l1 sz l2 :
  lives a (coalesce l1 sz l2) = lives a l1 ++ lives (a + extent l1 + sz) l2.
Proof.
  rewrite coalesce_eq. assert (Hm : forall z l, lives a (merge_prev l1 z l) = lives a l1 ++ lives (a + extent l1 + z) l).
  { intros z l. unfold merge_prev. destruct (last l1) as [[p []]|] eqn:E; rewrite lives_app; [|done..].
    apply last_Some in E as (l' & ->). rewrite removelast_last, extent_app, lives_app. cbn [extent lives app].
    rewrite app_nil_r. do 2 f_equal. lia. }
  unfold absorb_next. destruct l2 as [|[n []] l2]; rewrite Hm; [done| |done].
  cbn [lives app]. do 2 f_equal. lia.
Qed.

Lemma held_bytes_app M l1 l2 : held_bytes M (l1 ++ l2) = held_bytes M l1 + held_bytes M l2.
Proof. unfold held_bytes. rewrite map_app. induction (map _ l1); cbn; lia. Qed.

Lemma held_bytes_cons M x s l : held_bytes M ((x, s) :: l) = (if decide (x ∈ M) then 0 else s) + held_bytes M l.
Proof. done. Qed.

Lemma held_bytes_ext M M' l :
  (forall x s, (x, s) ∈ l -> (x ∈ M <-> x ∈ M')) -> held_bytes M l = held_bytes M' l.
Proof.
  induction l as [|[x s] l IH]; intros H; [done|]. rewrite !held_bytes_cons, IH.
  - f_equal. specialize (H x s (list_elem_of_here _ _)). repeat case_decide; tauto.
  - intros y t Hy. apply (H y t). by apply list_elem_of_further.
Qed.

Lemma held_bytes_le M l : (forall x s, (x, s) ∈ l -> 0 <= s) -> 0 <= held_bytes M l <= held_bytes [] l.
Proof.
  induction l as [|[x s] l IH]; intros H; [done|]. rewrite !held_bytes_cons.
  assert (0 <= s) by (apply (H x), list_elem_of_here).
  assert (0 <= held_bytes M l <= held_bytes [] l) by (apply IH; intros y t Hy; apply (H y); by apply list_elem_of_further).
  rewrite (decide_False (P := x ∈ [])) by apply not_elem_of_nil. case_decide; lia.
Qed.

Lemma held_bytes_elem M l x s :
  (forall x s, (x, s) ∈ l -> 0 <= s) -> (x, s) ∈ l -> x ∉ M -> s <= held_bytes M l.
Proof.
  induction l as [|[y t] l IH]; intros H Hx Hn; [by apply not_elem_of_nil in Hx|]. rewrite held_bytes_cons.
  assert (0 <= t) by (apply (H y), list_elem_of_here).
  assert (Hl : forall x s, (x, s) ∈ l -> 0 <= s) by (intros z u Hz; apply (H z); by apply list_elem_of_further).
  pose proof (held_bytes_le M l Hl). apply elem_of_cons in Hx as [[= -> ->]|Hx].
  - rewrite decide_False by done. lia.
  - specialize (IH Hl Hx Hn). case_decide; lia.
Qed.

Lemma lives_sum h pv pf a l : phys h pv pf a l -> held_bytes [] (lives a l) <= extent l.
Proof.
  revert pv pf a. induction l as [|[sz fr] l IH]; intros pv pf a; cbn [phys lives extent]; [done|].
  intros ([Hm _] & _ & _ & _ & _ & H). apply IH in H. unfold TLSF_MIN_BLOCK_SIZE in Hm.
  destruct fr; cbn [app]; [lia|]. rewrite held_bytes_cons, decide_False by apply not_elem_of_nil. lia.
Qed.

Lemma core_same a a' h L : same_arena a a' -> raw a' = raw a /\ sentinel a' = sentinel a /\ size a' = size a /\
  remote_free a' = remote_free a /\ live_bytes a' = live_bytes a /\ ar_addr a' = ar_addr a /\
  retired a' = retired a /\ cleanup_claimed a' = cleanup_claimed a /\ finished a' = finished a /\ (arena_core a h L -> True).
Proof. intros ->. by split_and!. Qed.

(** ** [tlsf_arena_validate] accepts it *)

Lemma aligned_mask s : s mod 8 = 0 -> Z.land s TLSF_ALIGN_MASK = 0.
Proof. intros H. change TLSF_ALIGN_MASK with (Z.ones 3). rewrite Z.land_ones by done. exact H. Qed.

Lemma validate_chain_spec h pv pf a l fuel :
  phys h pv pf a l -> 0 < a -> (length l < fuel)%nat ->
  (if pv =? NULL then pf = false else exists w, size_and_flags h !! pv = Some w /\ is_free w = pf) ->
  validate_chain fuel h pv a (a + extent l) = Done (Some (plast pv a l, a + extent l)).
Proof.
  revert pv pf a fuel. induction l as [|[sz fr] l IH]; intros pv pf a fuel Hp Ha Hf Hpf.
  - destruct fuel as [|fuel]; [cbn in Hf; lia|]. cbn [validate_chain extent plast].
    by rewrite Z.add_0_r, Z.ltb_irrefl.
  - destruct fuel as [|fuel]; [lia|]. apply phys_cons_tight in Hp as ([Hmin Hmod] & Hs & Hpp & Hn & Hco & Hp).
    pose proof (phys_extent _ _ _ _ _ Hp) as He. unfold TLSF_MIN_BLOCK_SIZE in Hmin.
    cbn [validate_chain extent plast]. rewrite (proj2 (Z.ltb_lt _ _)) by lia.
    rewrite (ld_Some _ _ _ Hs). cbn [mbind outcome_bind]. rewrite block_size_mk by done.
    rewrite (proj2 (Z.ltb_ge sz _)) by done. rewrite aligned_mask by done. cbn [negb orb Z.eqb].
    rewrite (proj2 (Z.ltb_ge _ (a + sz))) by lia. rewrite (ld_Some _ _ _ Hpp). cbn [mbind outcome_bind].
    rewrite Z.eqb_refl. cbn [negb].
    assert (Hpfr : (if pv =? NULL then Done false else psf ← ld (size_and_flags h) pv; Done (is_free psf)) = Done pf).
    { destruct (pv =? NULL); [by rewrite Hpf|]. destruct Hpf as (w & Hw & <-). by rewrite (ld_Some _ _ _ Hw). }
    rewrite Hpfr. cbn [mbind outcome_bind]. rewrite is_prev_free_mk by done. rewrite Bool.eqb_reflx. cbn [negb].
    rewrite Z.add_assoc. apply IH with (pf := fr); [done|lia|cbn in Hf; lia|].
    rewrite (proj2 (Z.eqb_neq a NULL)) by (unfold NULL; lia). eexists. split; [exact Hs|]. by rewrite is_free_mk.
Qed.

Lemma validate_free_spec (ar : tlsf_arena) h pv pf a l fuel p pv' :
  phys h pv' pf a l -> raw ar <= a -> 0 < a -> (length (free_addrs a l) < fuel)%nat ->
  seg (flinks h) pv p (free_addrs a l) NULL ->
  (pv <> NULL -> exists s, tlsf_arena_span h pv = Done s /\ pv < a /\ (pv + s < a \/ (pv + s = a /\ pf = true))) ->
  validate_free fuel ar h pv p (a + extent l) = Done true.
Proof.
  revert pv pv' pf a fuel p. induction l as [|[sz fr] l IH]; intros pv pv' pf a fuel p Hp Hr Ha Hf Hseg Hpv.
  - destruct fuel as [|fuel]; [lia|]. cbn in Hseg. subst p. done.
  - apply phys_cons_tight in Hp as ([Hmin Hmod] & Hs & Hpp & Hn & Hco & Hp).
    pose proof (phys_extent _ _ _ _ _ Hp) as He. unfold TLSF_MIN_BLOCK_SIZE in Hmin.
    rewrite free_addrs_cons in *. cbn [extent]. rewrite Z.add_assoc. destruct fr; cbn [app] in *.
    2: { eapply IH; [exact Hp|lia|lia|done|done|]. intros Hne. destruct (Hpv Hne) as (s & Hsp & Hlt & Hle).
         exists s. split; [done|]. split; [lia|]. left. lia. }
    destruct fuel as [|fuel]; [cbn in Hf; lia|]. cbn in Hco. subst pf.
    destruct Hseg as (-> & Hx & Hprv & n & Hnx & Hseg). cbn [validate_free].
    rewrite (proj2 (Z.eqb_neq a NULL)) by done. rewrite (ld_Some _ _ _ Hs). cbn [mbind outcome_bind].
    rewrite is_free_mk by done. cbn [negb]. rewrite (ld_Some _ _ _ Hprv). cbn [mbind outcome_bind].
    rewrite Z.eqb_refl. cbn [negb].
    assert (Hout : out_of_order h pv a = Done false).
    { unfold out_of_order. destruct (Z.eqb_spec pv NULL) as [|Hne]; [done|].
      destruct (Hpv Hne) as (s & Hsp & Hlt & [Hle|[_ ?]]); [|done].
      rewrite (proj2 (Z.leb_gt a pv)), Hsp by done. cbn [mbind outcome_bind].
      by rewrite (proj2 (Z.eqb_neq _ _)) by lia. }
    rewrite Hout. cbn [mbind outcome_bind]. rewrite block_size_mk by done.
    rewrite (proj2 (Z.ltb_ge a (raw ar))), (proj2 (Z.ltb_ge _ (a + sz))) by lia. cbn [orb].
    rewrite (ld_Some _ _ _ Hnx). cbn [mbind outcome_bind].
    eapply IH; [exact Hp|lia|lia|cbn in Hf; lia|exact Hseg|]. intros _. exists sz.
    split; [by eapply span_of|]. split; [lia|]. right. split; [lia|done].
Qed.

Lemma free_addrs_length h hd a l :
  dll (flinks h) hd (free_addrs a l) -> (length (free_addrs a l) < walk_fuel h)%nat.
Proof.
  intros Hd. unfold walk_fuel. assert (length (free_addrs a l) <= base.size (nxt (flinks h)))%nat; [|lia].
  pose proof Hd as [_ Hnd]. apply nodup_size; [done|]. intros x Hx. by apply (dll_node _ _ _ _ Hd) in Hx as [[? _] _].
Qed.

Lemma tlsf_arena_validate_ok a h L :
  arena_core a h L -> size a = extent L + SIZEOF_TLSF_BLOCK -> tlsf_arena_validate a h = Done true.
Proof.
  intros [Hc Hd Hse Hb] Hsz. unfold tlsf_arena_validate. rewrite (proj2 (Z.eqb_neq (raw a) NULL)) by (unfold NULL; lia).
  replace (raw a + size a - SIZEOF_TLSF_BLOCK) with (raw a + extent L) by lia. destruct Hc as [Hp (b & Hs & Hst & Hpp)].
  pose proof (phys_length _ _ _ _ _ Hp).
  rewrite (validate_chain_spec _ _ false) by (done || (unfold walk_fuel; lia)).
  cbn [mbind outcome_bind]. rewrite (ld_Some _ _ _ Hs), (Hst eq_refl). cbn [mbind outcome_bind].
  rewrite (Z.eqb_refl (raw a + extent L)). change (negb (mk 0 false false =? 0)) with false. cbn [negb orb].
  rewrite (ld_Some _ _ _ Hpp). cbn [mbind outcome_bind]. rewrite (Z.eqb_refl (plast _ _ _)). cbn [negb].
  pose proof Hd as [Hseg _]. eapply validate_free_spec; [exact Hp|lia|done|by eapply free_addrs_length|done|done].
Qed.

(** ** Releasing a tile *)

Lemma chain_mid strict h pv pf a l1 sz fr l2 :
  chain strict h pv pf a (l1 ++ (sz, fr) :: l2) ->
  phys h pv pf a l1 /\ size_ok sz /\ size_and_flags h !! (a + extent l1) = Some (mk sz fr (flast pf l1)) /\
  prev_physical h !! (a + extent l1) = Some (plast pv a l1) /\ has_node (flinks h) (a + extent l1) /\
  chain strict h (a + extent l1) fr (a + extent l1 + sz) l2.
Proof. intros [Hp Hc]%chain_app. apply chain_cons_tight in Hc as [(H1 & H2 & H3 & H4 & _) H5]. done. Qed.

(** Stamping a live tile FREE and inserting it. *)
Definition arena_release (a : tlsf_arena) (h : heap) (b : Z) : outcome (tlsf_arena * heap) :=
  sp ← tlsf_arena_span h b;
  h ← set_sf h b (Z.lor sp BLOCK_STATE_FREE);
  tlsf_arena_insert_free a h b.

Lemma arena_release_spec a h l1 sz l2 :
  arena_core a h (l1 ++ (sz, false) :: l2) ->
  exists a' h', arena_release a h (raw a + extent l1) = Done (a', h') /\ same_arena a a' /\
    arena_core a' h' (coalesce l1 sz l2) /\
    frame (raw a + extent l1 :: free_addrs (raw a) (l1 ++ (sz, false) :: l2)) (flinks h) (flinks h').
Proof.
  intros [Hc Hd Hse Hb]. destruct (chain_mid _ _ _ _ _ _ _ _ _ Hc) as (Hp & Hs & Hw & Hpp & Hn & Hc2).
  pose proof Hs as [Hmin Hmod]. unfold TLSF_MIN_BLOCK_SIZE in Hmin. set (b := raw a + extent l1) in *.
  rewrite free_addrs_app, free_addrs_cons in Hd. fold b in Hd. cbn [app] in Hd.
  unfold arena_release. rewrite (span_of _ _ _ _ _ Hw Hmod). cbn [mbind outcome_bind].
  erewrite set_sf_Some by exact Hw. cbn [mbind outcome_bind]. rewrite size_or_free by done. set (h1 := Heap _ _ _).
  assert (I : inserting a h1 l1 b sz l2).
  { constructor; cbn [size_and_flags prev_physical flinks h1]; try done.
    - eapply (phys_frame h); [|done|exact Hp]. intros x Hx. cbn. rewrite lookup_insert_ne by lia. done.
    - by rewrite lookup_insert_eq.
    - exists b, false. eapply (chain_frame _ h); [|done|exact Hc2]. intros x Hx. cbn.
      rewrite lookup_insert_ne by lia. done.
    - rewrite Hse, extent_app. cbn [extent]. lia. }
  destruct (tlsf_arena_insert_free_spec _ _ _ _ _ _ I) as (a' & h' & -> & Hsame & Hc' & Hd' & Fr).
  exists a', h'. split; [done|]. split; [done|].
  assert (raw a' = raw a /\ sentinel a' = sentinel a) as [Hraw Hse'] by (rewrite Hsame; done). split.
  - constructor; rewrite ?Hraw, ?Hse'; try done. rewrite Hse, coalesce_extent, extent_app. cbn [extent]. lia.
  - eapply frame_mono; [|exact Fr]. intros x Hx. rewrite free_addrs_app, free_addrs_cons. exact Hx.
Qed.

(** The live tiles are disjoint, so each starts once. *)
Lemma lives_around strict h pv pf a l1 sz fr l2 x s :
  chain strict h pv pf a (l1 ++ (sz, fr) :: l2) ->
  ((x, s) ∈ lives a l1 -> x < a + extent l1) /\ ((x, s) ∈ lives (a + extent l1 + sz) l2 -> a + extent l1 < x).
Proof.
  intros Hc. destruct (chain_mid _ _ _ _ _ _ _ _ _ Hc) as (Hp & [Hm _] & _ & _ & _ & [Hp2 _]).
  unfold TLSF_MIN_BLOCK_SIZE in Hm. split; intros Hx.
  - destruct (lives_range _ _ _ _ _ _ _ Hp Hx) as (? & ? & [? _]). unfold TLSF_MIN_BLOCK_SIZE in *. lia.
  - destruct (lives_range _ _ _ _ _ _ _ Hp2 Hx) as (? & ? & [? _]). lia.
Qed.

Lemma free_not_live h pv pf a l x s : phys h pv pf a l -> x ∈ free_addrs a l -> (x, s) ∈ lives a l -> False.
Proof.
  revert pv pf a. induction l as [|[sz fr] l IH]; intros pv pf a; cbn [phys].
  - intros _ H. by apply not_elem_of_nil in H.
  - intros ([Hm _] & _ & _ & _ & _ & H). unfold TLSF_MIN_BLOCK_SIZE in Hm.
    rewrite free_addrs_cons, elem_of_app, elem_of_lives_cons.
    intros [Hx|Hx] [(Hf & Ex & _)|Hy].
    + subst fr. by apply not_elem_of_nil in Hx.
    + destruct fr; [|by apply not_elem_of_nil in Hx]. apply list_elem_of_singleton in Hx as ->.
      destruct (lives_range _ _ _ _ _ _ _ H Hy) as (? & _ & _). lia.
    + pose proof (free_below _ _ _ _ _ _ H Hx). lia.
    + by eapply IH.
Qed.

(** ** Reaping the mailbox *)

Lemma reap_loop_spec fuel a h L block M :
  arena_core a h L -> sll (nxt (flinks h)) block M -> NoDup M ->
  (forall x, x ∈ M -> exists s, (x, s) ∈ lives (raw a) L) -> (length M < fuel)%nat ->
  exists a' h' L', reap_loop fuel a h block = Done (a', h') /\ same_arena a a' /\ arena_core a' h' L' /\
    extent L' = extent L /\ held_bytes [] (lives (raw a) L') = held_bytes M (lives (raw a) L) /\
    (forall x s, (x, s) ∈ lives (raw a) L' <-> (x, s) ∈ lives (raw a) L /\ x ∉ M).
Proof.
  revert a h L block M. induction fuel as [|fuel IH]; intros a h L block M Hco Hm Hnd Hl Hf; [lia|].
  cbn [reap_loop]. destruct M as [|b M]; cbn [sll] in Hm.
  - subst block. exists a, h, L. cbn. split; [done|]. split; [by destruct a|]. split; [done|]. split; [done|].
    split; [done|]. intros x s. pose proof (not_elem_of_nil x). tauto.
  - destruct Hm as (-> & Hb0 & n & Hn & Hm). apply NoDup_cons in Hnd as [HbM Hnd].
    rewrite (proj2 (Z.eqb_neq b NULL)) by done. rewrite (ld_Some _ _ _ Hn). cbn [mbind outcome_bind].
    destruct (Hl b (list_elem_of_here _ _)) as (s & Hs). pose proof (co_chain _ _ _ Hco) as Hc.
    destruct (lives_split _ _ _ _ _ _ _ (proj1 Hc) Hs) as (l1 & l2 & -> & Eb).
    destruct (arena_release_spec _ _ _ _ _ Hco) as (a1 & h1 & E & Hsame & Hco1 & Fr).
    rewrite <- Eb in E, Fr. unfold arena_release in E.
    assert (Hnb : forall x, x ∈ M -> x <> b) by (intros x Hx ->; done).
    assert (Hraw : raw a1 = raw a) by (rewrite Hsame; done).
    assert (Hlv : forall x t, (x, t) ∈ lives (raw a) (coalesce l1 s l2) <->
                    (x, t) ∈ lives (raw a) (l1 ++ (s, false) :: l2) /\ x <> b).
    { intros x t. pose proof (lives_around _ _ _ _ _ _ _ _ _ x t Hc) as [A B].
      rewrite lives_coalesce, elem_of_lives_app, elem_of_lives_cons. split.
      - intros [Hx|Hx]; (split; [tauto|]); [apply A in Hx; lia|apply B in Hx; lia].
      - intros [[?|[(_ & ? & _)|?]] ?]; [tauto|congruence|tauto]. }
    destruct (IH a1 h1 (coalesce l1 s l2) n M) as (a' & h' & L' & E' & Hsame' & Hco' & Hext & Hhb & Hlv'); try done.
    + eapply sll_frame; [|exact Hm]. intros x Hx. apply Fr. rewrite not_elem_of_cons. split; [by apply Hnb|].
      intros Hfx. destruct (Hl x) as (t & Ht); [by apply list_elem_of_further|].
      by eapply (free_not_live h); [apply Hc|exact Hfx|exact Ht].
    + intros x Hx. destruct (Hl x) as (t & Ht); [by apply list_elem_of_further|]. exists t. rewrite Hraw.
      apply Hlv. split; [done|by apply Hnb].
    + cbn in Hf. lia.
    + exists a', h', L'. rewrite Hraw in *. split.
      { revert E. destruct (tlsf_arena_span h b); [|done..]. cbn [mbind outcome_bind].
        destruct (set_sf h b _); [|done..]. cbn [mbind outcome_bind]. intros ->. exact E'. }
      split; [unfold same_arena in *; rewrite Hsame', Hsame; done|]. split; [done|].
      split; [rewrite Hext, coalesce_extent, extent_app; cbn; lia|]. split.
      * rewrite Hhb, lives_coalesce_eq, lives_app. cbn [lives app]. rewrite !held_bytes_app, held_bytes_cons.
        rewrite decide_True by (rewrite <- Eb; apply list_elem_of_here).
        rewrite (held_bytes_ext M (b :: M) (lives (raw a) l1)), (held_bytes_ext M (b :: M) (lives _ l2)); [lia|..].
        all: intros x t Hx; pose proof (lives_around _ _ _ _ _ _ _ _ _ x t Hc) as [A B];
          rewrite elem_of_cons; assert (x <> b) by (first [apply A in Hx|apply B in Hx]; lia); tauto.
      * intros x t. rewrite Hlv', Hlv, not_elem_of_cons. tauto.
Qed.

Lemma tlsf_arena_reap_spec a h L M :
  arena_ok a h L M ->
  exists a' h' L', tlsf_arena_reap a h = Done (a', h') /\ arena_ok a' h' L' [] /\ same_arena (set_remote a NULL) a' /\
    extent L' = extent L /\ (forall x s, (x, s) ∈ lives (raw a) L' <-> (x, s) ∈ lives (raw a) L /\ x ∉ M).
Proof.
  intros [Hco Hm Hnd Hl Hlb Hsz He Hrm]. unfold tlsf_arena_reap.
  destruct (reap_loop_spec (walk_fuel h) (set_remote a NULL) h L (remote_free a) M)
    as (a' & h' & L' & E & Hsame & Hco' & Hext & Hhb & Hlv); [by destruct Hco|done..| |].
  { unfold walk_fuel. assert (length M <= base.size (nxt (flinks h)))%nat; [|lia]. apply nodup_size; [done|].
    clear -Hm. revert Hm. generalize (remote_free a). induction M as [|y M IH]; intros p; cbn.
    - intros _ x Hx. by apply not_elem_of_nil in Hx.
    - intros (-> & _ & n & Hn & H) x [->|Hx]%elem_of_cons; [eauto|by eapply IH]. }
  exists a', h', L'. rewrite E. split; [done|]. split; [|done].
  assert (raw a' = raw a /\ size a' = size a /\ live_bytes a' = live_bytes a /\ remote_free a' = NULL)
    as (Hr & Hs & Hb & Hrf) by (rewrite Hsame; done).
  constructor; rewrite ?Hr, ?Hs, ?Hb, ?Hrf, ?Hext; try done.
  - constructor.
  - intros x Hx. by apply not_elem_of_nil in Hx.
  - rewrite Hlb. symmetry. exact Hhb.
Qed.

(** ** Allocation *)

Lemma first_fit_walk_spec h pv' pf a l fuel pv p tn :
  phys h pv' pf a l -> 0 < a -> seg (flinks h) pv p (free_addrs a l) NULL ->
  (length (free_addrs a l) < fuel)%nat ->
  exists b, first_fit_walk fuel h p tn = Done b /\
    if b =? NULL then forall x s, (x, s) ∈ frees a l -> s < tn
    else exists s, (b, s) ∈ frees a l /\ tn <= s.
Proof.
  revert pv pv' pf a p fuel. induction l as [|[sz fr] l IH]; intros pv pv' pf a p fuel Hp Ha Hseg Hf.
  - destruct fuel as [|fuel]; [lia|]. cbn in Hseg. subst p. exists NULL. split; [done|]. intros x s Hx.
    by apply not_elem_of_nil in Hx.
  - apply phys_cons_tight in Hp as ([Hmin Hmod] & Hs & Hpp & Hn & Hco & Hp). unfold TLSF_MIN_BLOCK_SIZE in Hmin.
    rewrite free_addrs_cons in *. destruct fr; cbn [app] in *.
    2: { destruct (IH pv a false (a + sz) p fuel) as (b & E & Hb); [done|lia|done|done|].
         exists b. split; [done|]. destruct (b =? NULL); [|by destruct Hb as (s & Hs' & ?); exists s].
         intros x s [(? & _)|Hx]%elem_of_frees_cons; [done|by eapply Hb]. }
    destruct fuel as [|fuel]; [cbn in Hf; lia|]. destruct Hseg as (-> & Hx & Hprv & n & Hnx & Hseg).
    cbn [first_fit_walk]. rewrite (proj2 (Z.eqb_neq a NULL)) by done. rewrite (span_of _ _ _ _ _ Hs Hmod).
    cbn [mbind outcome_bind]. destruct (Z.ltb_spec sz tn).
    + rewrite (ld_Some _ _ _ Hnx). cbn [mbind outcome_bind].
      destruct (IH a a true (a + sz) n fuel) as (b & E & Hb); [done|lia|done|cbn in Hf; lia|].
      exists b. split; [done|]. destruct (b =? NULL).
      * intros x s [(_ & -> & ->)|Hx']%elem_of_frees_cons; [done|by eapply Hb].
      * destruct Hb as (s & Hs' & ?). exists s. split; [|done]. apply elem_of_frees_cons. by right.
    + exists a. split; [done|]. rewrite (proj2 (Z.eqb_neq a NULL)) by done. exists sz. split; [|done].
      apply elem_of_frees_cons. by left.
Qed.

Lemma chain_head_live strict h pv x l : chain strict h pv true x l -> head_live l.
Proof. destruct l as [|[n []] t]; [done| |done]. intros [(_ & _ & _ & _ & Hc) _]%chain_cons_tight. done. Qed.

Lemma absorb_live sz l : head_live l -> absorb_next sz l = (sz, l).
Proof. destruct l as [|[n []] t]; [done| |done]. intros []. Qed.

Lemma coalesce_live l1 p sz l2 :
  head_live l2 -> coalesce (l1 ++ [(p, false)]) sz l2 = l1 ++ (p, false) :: (sz, true) :: l2.
Proof. intros H. rewrite coalesce_eq, (absorb_live _ _ H). unfold merge_prev. by rewrite last_snoc, <- app_assoc. Qed.

Lemma chain_coalesced strict h pv pf a l1 sz l2 :
  chain strict h pv pf a (l1 ++ (sz, true) :: l2) -> flast pf l1 = false /\ head_live l2.
Proof.
  intros [Hp Hc]%chain_app. apply chain_cons_tight in Hc as [(_ & _ & _ & _ & E) Hc]. split; [done|].
  by eapply chain_head_live.
Qed.

Lemma arena_take_spec a h l1 sz l2 tn :
  arena_core a h (l1 ++ (sz, true) :: l2) -> size_ok tn -> tn <= sz -> raw a + extent (l1 ++ (sz, true) :: l2) < 2 ^ 64 ->
  exists a' h', arena_take a h (raw a + extent l1) tn = Done (a', h') /\ same_arena a a' /\
    arena_core a' h' (l1 ++ split_tiles sz tn ++ l2) /\
    tlsf_arena_span h' (raw a + extent l1) = Done (taken sz tn) /\
    (forall x s, (x, s) ∈ lives (raw a) (l1 ++ (sz, true) :: l2) -> nxt (flinks h') !! x = nxt (flinks h) !! x).
Proof.
  intros [Hc Hd Hse Hb] [Htn Htm] Hle Hov. destruct (chain_mid _ _ _ _ _ _ _ _ _ Hc) as (Hp & Hs & Hw & Hpp & Hn & Hc2).
  destruct (chain_coalesced _ _ _ _ _ _ _ _ Hc) as [Hfl Hhl]. rewrite Hfl in Hw.
  pose proof Hs as [Hmin Hmod]. unfold TLSF_MIN_BLOCK_SIZE in Hmin, Htn. set (b := raw a + extent l1) in *.
  pose proof (phys_extent _ _ _ _ _ Hp) as He1. pose proof (chain_extent _ _ _ _ _ _ Hc2) as He2.
  rewrite extent_app in Hov, Hse. cbn [extent] in Hov, Hse.
  assert (Hsz : sz < 2 ^ 64) by lia. unfold arena_take. rewrite (span_of _ _ _ _ _ Hw Hmod). cbn [mbind outcome_bind].
  rewrite (u64_small (sz - tn)) by lia.
  rewrite free_addrs_app, free_addrs_cons in Hd. fold b in Hd. cbn [app] in Hd.
  assert (Hlx : forall x s, (x, s) ∈ lives (raw a) (l1 ++ (sz, true) :: l2) ->
    (x ∉ free_addrs (raw a) l1 ++ b :: free_addrs (b + sz) l2) /\ (tn < sz -> x <> b + tn)).
  { intros x s Hx. split; [|intros Hlt].
    - intros Hfx. eapply (free_not_live h); [exact (proj1 Hc)| |exact Hx]. rewrite free_addrs_app, free_addrs_cons. exact Hfx.
    - rewrite elem_of_lives_app, elem_of_lives_cons in Hx. fold b in Hx. destruct Hx as [Hx|[(? & _)|Hx]]; [|done|].
      + destruct (lives_range _ _ _ _ _ _ _ Hp Hx) as (_ & ? & [? _]). unfold TLSF_MIN_BLOCK_SIZE in *. lia.
      + destruct (lives_range _ _ _ _ _ _ _ (proj1 Hc2) Hx) as (? & _). lia. }
  destruct (unlink_free_spec _ _ _ _ _ Hd) as (a1 & k & -> & Hsame & Hd1 & Fr). cbn [mbind outcome_bind].
  assert (Hk0 : forall x s, (x, s) ∈ lives (raw a) (l1 ++ (sz, true) :: l2) -> nxt k !! x = nxt (flinks h) !! x)
    by (intros x s Hx; destruct (Hlx x s Hx) as [Hx1 _]; by destruct (proj1 Fr x Hx1)).
  assert (Hk : forall x, has_node (flinks h) x -> has_node k x) by apply Fr.
  assert (raw a1 = raw a /\ sentinel a1 = sentinel a) as [Hr Hs1] by (rewrite Hsame; done).
  unfold taken, split_tiles. destruct (Z.leb_spec (TLSF_MIN_BLOCK_SIZE + SIZEOF_TLSF_BLOCK) (sz - tn)) as [Hbig|Hsmall];
    unfold TLSF_MIN_BLOCK_SIZE, SIZEOF_TLSF_BLOCK in *.
  - erewrite set_sf_Some by exact Hw. cbn [mbind outcome_bind]. rewrite size_or_free by zdiv.
    set (h1 := carve _ _ _ _).
    assert (Hcn : forall x, has_node (flinks h) x \/ x = b + tn -> has_node (flinks h1) x).
    { intros x Hx. apply carve_node. destruct Hx; [left; cbn; auto|by right]. }
    assert (I : inserting a1 h1 (l1 ++ [(tn, false)]) (b + tn) (sz - tn) l2).
    { constructor; rewrite ?Hr, ?Hs1, ?extent_app, ?plast_snoc; cbn [extent].
      - apply phys_app. rewrite Hfl. fold b. split.
        + eapply (phys_frame h); [|intros x Hx; apply Hcn; by left|exact Hp]. intros x Hx. cbn.
          rewrite !lookup_insert_ne by lia. done.
        + apply phys_cons_tight. cbn. rewrite lookup_insert_ne, lookup_insert_eq, lookup_insert_ne by lia.
          split; [by split|]. split; [f_equal; unfold mk; cbn; lia|]. split; [done|]. split; [|done]. apply Hcn. by left.
      - lia.
      - split; [unfold TLSF_MIN_BLOCK_SIZE; lia|zdiv].
      - cbn. by rewrite lookup_insert_eq.
      - cbn. by rewrite lookup_insert_eq.
      - apply Hcn. by right.
      - exists b, true. replace (b + tn + (sz - tn)) with (b + sz) by lia.
        eapply (chain_frame _ h); [|intros x Hx; apply Hcn; by left|exact Hc2]. intros x Hx. cbn.
        rewrite !lookup_insert_ne by lia. done.
      - replace (b + tn + (sz - tn)) with (b + sz) by lia. rewrite free_addrs_app. cbn [free_addrs frees map app].
        rewrite app_nil_r. cbn [flinks h1 carve with_links nxt prv]. eapply dll_frame; [|exact Hd1].
        intros x Hx. cbn. assert (x <> b + tn); [|by rewrite !lookup_insert_ne].
        apply elem_of_app in Hx as [Hx|Hx].
        + pose proof (free_below _ _ _ _ _ _ Hp Hx). lia.
        + pose proof (free_below _ _ _ _ _ _ (proj1 Hc2) Hx). lia.
      - rewrite Hse. lia.
      - done. }
    destruct (tlsf_arena_insert_free_spec _ _ _ _ _ _ I) as (a' & h' & -> & Hsame' & Hc' & Hd' & Fr').
    rewrite (coalesce_live _ _ _ _ Hhl) in Hc', Hd'. rewrite Hr in Hc', Hd'.
    assert (raw a' = raw a1 /\ sentinel a' = sentinel a1) as [Hr' Hs'] by (rewrite Hsame'; done).
    exists a', h'. split; [done|]. split; [unfold same_arena in *; rewrite Hsame', Hsame; done|]. split.
    + cbn [app]. constructor; rewrite ?Hr', ?Hr, ?Hs', ?Hs1; [done|done| |done].
      rewrite Hse, extent_app. cbn [extent]. lia.
    + destruct (chain_mid _ _ _ _ _ _ _ _ _ Hc') as (_ & _ & Hw' & _). fold b in Hw'. split; [by eapply span_of|].
      intros x s Hx. destruct (Hlx x s Hx) as [Hx1 Hx2]. specialize (Hx2 ltac:(lia)). rewrite <- (Hk0 x s Hx).
      assert (Hnf : x ∉ b + tn :: free_addrs (raw a1) (l1 ++ [(tn, false)]) ++ free_addrs (b + tn + (sz - tn)) l2).
      { rewrite Hr, free_addrs_app. cbn [free_addrs frees map app]. rewrite app_nil_r. replace (b + tn + (sz - tn)) with (b + sz) by lia.
        rewrite elem_of_app, elem_of_cons in Hx1. rewrite elem_of_cons, elem_of_app. tauto. }
      destruct (proj1 Fr' x Hnf) as [-> _]. cbn. by rewrite lookup_insert_ne by congruence.
  - erewrite set_sf_Some by exact Hw. cbn [mbind outcome_bind]. set (after := b + sz) in *.
    destruct (chain_tag_tight _ _ _ _ _ _ Hc2) as (n & fr & pb & Hnm & Hns & Hnp & Hnf & Hnl).
    rewrite andb_true_r in Hnf. subst fr.
    erewrite set_pp_Some by exact Hnp. cbn [mbind outcome_bind]. rewrite Hs1.
    set (h1 := Heap _ _ _). cbn [extent] in Hse.
    assert (Htag : exists h2, (if after =? sentinel a then Done h1 else
        asf ← ld (size_and_flags h1) after; set_sf h1 after (Z.land asf (Z.lnot BLOCK_STATE_PREV_FREE))) = Done h2 /\
        flinks h2 = k /\ prev_physical h2 = prev_physical h1 /\
        (forall x, x <> after -> size_and_flags h2 !! x = size_and_flags h1 !! x) /\
        size_and_flags h2 !! after = Some (mk n false (match l2 with [] => pb | _ => false end))).
    { assert (Hns1 : size_and_flags h1 !! after = Some (mk n false pb)).
      { cbn. rewrite lookup_insert_ne by (unfold after; lia). done. }
      destruct l2 as [|[s2 f2] t].
      - cbn [extent] in Hse. rewrite (proj2 (Z.eqb_eq after (sentinel a))) by lia. exists h1. split_and!; done.
      - assert (0 < s2) by (apply chain_cons_tight in Hc2 as [([Hm _] & _) _]; unfold TLSF_MIN_BLOCK_SIZE in Hm; lia).
        apply chain_cons_tight in Hc2 as [_ Hc3]. apply chain_extent in Hc3. cbn [extent] in Hse.
        rewrite (proj2 (Z.eqb_neq after (sentinel a))) by lia.
        rewrite (ld_Some _ _ _ Hns1). cbn [mbind outcome_bind]. erewrite set_sf_Some by exact Hns1.
        rewrite mk_clear_prev_free by done. eexists. split; [done|]. cbn. split_and!; [done..| |].
        + intros x Hx. by rewrite lookup_insert_ne.
        + by rewrite lookup_insert_eq. }
    destruct Htag as (h2 & -> & Hk2 & Hpp2 & Hso & Hsn). cbn [mbind outcome_bind].
    exists a1, h2. split; [done|]. split; [done|].
    assert (Hwb : size_and_flags h2 !! b = Some (mk sz false false)).
    { rewrite Hso by (unfold after; lia). cbn. rewrite lookup_insert_eq. f_equal. unfold mk. cbn. lia. }
    split; [|split; [by eapply span_of|intros x s Hx; rewrite Hk2; by eapply Hk0]].
    constructor; rewrite ?Hr, ?Hs1; [|rewrite Hk2|rewrite Hse, extent_app; cbn [app extent]; lia|done].
    + apply (chain_prefix _ h).
      * intros x Hx. rewrite Hso by (unfold after; lia). rewrite Hpp2. cbn. rewrite !lookup_insert_ne by (unfold after; lia). done.
      * rewrite Hk2. done.
      * done.
      * fold b. rewrite Hfl. cbn [app]. apply chain_cons_tight. split.
        { split; [done|]. split; [done|]. split; [|split; [rewrite Hk2; by apply Hk|done]].
          rewrite Hpp2. cbn. by rewrite lookup_insert_ne by (unfold after; lia). }
        eapply (chain_retag _ h); [exact Hc2|exact Hns|done|exact Hsn|..].
        -- rewrite Hpp2. cbn. by rewrite lookup_insert_eq.
        -- intros x Hx. rewrite Hso by lia. rewrite Hpp2. cbn. rewrite !lookup_insert_ne by (unfold after in *; lia). done.
        -- by rewrite Hk2.
        -- done.
        -- destruct l2; [|done]. intros _.
           destruct Hc2 as [_ (b0 & Hb0 & Hst & _)]. cbn in Hb0. rewrite Z.add_0_r in Hb0. destruct Hnl as [-> _].
           rewrite Hst in Hb0 by done. rewrite Hb0 in Hns. injection Hns as Hns. by destruct pb.
    + rewrite free_addrs_app. cbn [app]. rewrite free_addrs_cons. cbn [app]. exact Hd1.
Qed.

(** What no list operation changes. *)
Definition same_id (a a' : tlsf_arena) : Prop :=
  raw a' = raw a /\ size a' = size a /\ ar_addr a' = ar_addr a /\ retired a' = retired a /\
  cleanup_claimed a' = cleanup_claimed a /\ finished a' = finished a.

Lemma same_arena_id a a' : same_arena a a' -> same_id a a'.
Proof. intros ->. by split_and!. Qed.

Lemma same_id_trans a b c : same_id a b -> same_id b c -> same_id a c.
Proof. intros (?&?&?&?&?&?) (?&?&?&?&?&?). split_and!; congruence. Qed.

Lemma reap_if a h L M :
  arena_ok a h L M ->
  exists a' h' L', (if remote_free a =? NULL then Done (a, h) else tlsf_arena_reap a h) = Done (a', h') /\
    arena_ok a' h' L' [] /\ same_id a a' /\
    (forall x s, (x, s) ∈ lives (raw a) L' <-> (x, s) ∈ lives (raw a) L /\ x ∉ M).
Proof.
  intros O. destruct (Z.eqb_spec (remote_free a) NULL) as [E|E].
  - assert (M = []) as ->.
    { pose proof (ok_mail _ _ _ _ O) as Hm. destruct M as [|x M]; [done|]. destruct Hm as (Hx0 & Hx & _). congruence. }
    exists a, h, L. split; [done|]. split; [done|]. split; [by split_and!|]. intros x s.
    pose proof (not_elem_of_nil x). tauto.
  - destruct (tlsf_arena_reap_spec _ _ _ _ O) as (a' & h' & L' & -> & O' & Hs & _ & Hl).
    exists a', h', L'. split; [done|]. split; [done|]. split; [|done]. by apply same_arena_id in Hs.
Qed.

Lemma lives_nonneg h pv pf a l x s : phys h pv pf a l -> (x, s) ∈ lives a l -> 0 <= s.
Proof. intros Hp Hx. destruct (lives_range _ _ _ _ _ _ _ Hp Hx) as (_ & _ & [? _]). unfold TLSF_MIN_BLOCK_SIZE in *. lia. Qed.

Lemma lives_split_tiles a sz tn : lives a (split_tiles sz tn) = [(a, taken sz tn)].
Proof. unfold split_tiles, taken. by destruct (_ <=? _). Qed.

Lemma held_take M a l1 sz tn l2 :
  a + extent l1 ∉ M ->
  held_bytes M (lives a (l1 ++ split_tiles sz tn ++ l2)) = held_bytes M (lives a (l1 ++ (sz, true) :: l2)) + taken sz tn.
Proof.
  intros Hm. rewrite !lives_app, split_tiles_extent, lives_split_tiles. cbn [lives app].
  rewrite !held_bytes_app, held_bytes_cons, decide_False by done. lia.
Qed.

Lemma tlsf_arena_alloc_run a h L M tn :
  arena_ok a h L M -> size_ok tn ->
  exists b a' h' L', tlsf_arena_alloc a h tn = Done (b, a', h') /\ arena_ok a' h' L' [] /\ same_id a a' /\
    if b =? NULL then
      (forall x s, (x, s) ∈ frees (raw a) L' -> s < tn) /\
      (forall x s, (x, s) ∈ lives (raw a) L' <-> (x, s) ∈ lives (raw a) L /\ x ∉ M)
    else exists s, tn <= s /\ tlsf_arena_span h' b = Done s /\
      (forall x t, (x, t) ∈ lives (raw a) L' <-> ((x, t) ∈ lives (raw a) L /\ x ∉ M) \/ (x = b /\ t = s)) /\
      (forall x t, (x, t) ∈ lives (raw a) L -> x ∉ M -> x + t <= b \/ b + s <= x).
Proof.
  intros O Htn. unfold tlsf_arena_alloc.
  destruct (reap_if _ _ _ _ O) as (a1 & h1 & L1 & -> & O1 & Hid & Hlv). cbn [mbind outcome_bind].
  destruct O1 as [[Hc Hd Hse Hb] Hm Hnd Hl Hlb Hsz He Hrm]. pose proof Hid as (Hr & _).
  destruct (first_fit_walk_spec h1 NULL false (raw a1) L1 (walk_fuel h1) NULL (free_list a1) tn)
    as (b & -> & Hfit); [apply Hc|done|apply Hd|by eapply free_addrs_length|]. cbn [mbind outcome_bind].
  rewrite Hr in Hfit. destruct (b =? NULL) eqn:Hbn.
  - exists NULL, a1, h1, L1. split; [done|]. split; [|split; [done|]].
    + constructor; [by constructor|done..].
    + by split.
  - apply Z.eqb_neq in Hbn as Hne. destruct Hfit as (sz & Hin & Hle). rewrite <- Hr in Hin.
    destruct (frees_split _ _ _ _ _ _ _ (proj1 Hc) Hin) as (l1 & l2 & -> & Eb). unfold SIZEOF_TLSF_BLOCK in Hsz.
    destruct (arena_take_spec a1 h1 l1 sz l2 tn) as (a' & h' & E & Hs' & Hco' & Hsp & _); [by constructor|done|done|lia|].
    rewrite <- Eb in E, Hsp. rewrite E. cbn [mbind outcome_bind]. rewrite Hsp. cbn [mbind outcome_bind].
    assert (Hr' : raw a' = raw a1) by (rewrite Hs'; done).
    assert (Hext : extent (l1 ++ split_tiles sz tn ++ l2) = extent (l1 ++ (sz, true) :: l2)).
    { rewrite !extent_app, split_tiles_extent. done. }
    assert (Hb' : held_bytes [] (lives (raw a') (l1 ++ split_tiles sz tn ++ l2)) = live_bytes a1 + taken sz tn).
    { rewrite Hr', held_take by apply not_elem_of_nil. by rewrite Hlb. }
    pose proof (lives_sum _ _ _ _ _ (proj1 (co_chain _ _ _ Hco'))) as Hle'.
    pose proof (held_bytes_le [] (lives (raw a') (l1 ++ split_tiles sz tn ++ l2)) (fun x s =>
      lives_nonneg _ _ _ _ _ x s (proj1 (co_chain _ _ _ Hco')))) as Hpos.
    assert (size a' = size a1 /\ live_bytes a' = live_bytes a1 /\ remote_free a' = remote_free a1)
      as (Hsz' & Hlb' & Hrf') by (rewrite Hs'; done).
    set (a2 := set_live a' _).
    assert (Hco2 : arena_core a2 h' (l1 ++ split_tiles sz tn ++ l2)) by (destruct Hco'; by constructor).
    rewrite (tlsf_arena_validate_ok a2 h' _ Hco2) by (rewrite Hext; cbn [size a2 set_live]; unfold SIZEOF_TLSF_BLOCK; lia). cbn [mbind outcome_bind c_assert].
    exists b, a2, h', (l1 ++ split_tiles sz tn ++ l2). split; [done|]. split; [|split].
    + constructor; cbn [a2 set_live raw size live_bytes remote_free]; rewrite ?Hsz', ?Hrf'; try done.
      * intros x Hx. by apply not_elem_of_nil in Hx.
      * rewrite Hb', Hlb', u64_small; [done|]. lia.
      * by rewrite Hext.
      * by rewrite Hr'.
    + eapply same_id_trans; [exact Hid|]. apply same_arena_id in Hs'. exact Hs'.
    + rewrite (proj2 (Z.eqb_neq b NULL)) by done. exists (taken sz tn). pose proof (taken_bounds _ _ Hle).
      split; [lia|]. split; [done|]. rewrite <- Hr in *.
      assert (Hiff : forall x t, (x, t) ∈ lives (raw a1) (l1 ++ split_tiles sz tn ++ l2) <->
                       ((x, t) ∈ lives (raw a1) L /\ x ∉ M) \/ (x = b /\ t = taken sz tn)).
      { intros x t. rewrite lives_take, Hlv, Eb. done. }
      split; [exact Hiff|]. intros x t Hx Hxm.
      assert (Hbl : (b, taken sz tn) ∈ lives (raw a1) (l1 ++ split_tiles sz tn ++ l2)) by (apply Hiff; by right).
      assert (Hxl : (x, t) ∈ lives (raw a1) (l1 ++ split_tiles sz tn ++ l2)) by (apply Hiff; by left).
      pose proof (proj1 (co_chain _ _ _ Hco')) as Hp'. rewrite Hr' in Hp'.
      apply (lives_disjoint _ _ _ _ _ _ _ _ _ Hp' Hxl Hbl). intros ->.
      eapply (free_not_live h1); [exact (proj1 Hc)| |apply Hlv; split; [exact Hx|done]].
      apply elem_of_free_addrs. by exists sz.
Qed.

(** ** Freeing *)

(** The live tiles a client still holds. *)
Definition holds (a : tlsf_arena) (L : list tile) (M : list Z) (x s : Z) : Prop :=
  (x, s) ∈ lives (raw a) L /\ x ∉ M.

Lemma free_push a h L M b s :
  arena_ok a h L M -> holds a L M b s ->
  exists k, set_nxt (flinks h) b (remote_free a) = Done k /\
    arena_core (set_remote a b) (with_links h k) L /\ sll (nxt k) b (b :: M) /\
    held_bytes (b :: M) (lives (raw a) L) = live_bytes a - s.
Proof.
  intros [Hco Hm Hnd Hl Hlb Hsz He Hrm] [Hb HbM]. pose proof Hco as [Hc Hd Hse Hbase].
  destruct (lives_split _ _ _ _ _ _ _ (proj1 Hc) Hb) as (l1 & l2 & EL & Eb).
  rewrite EL in Hc. destruct (chain_mid _ _ _ _ _ _ _ _ _ Hc) as (_ & [Hmin _] & _ & _ & Hn & _). rewrite <- EL in Hc.
  rewrite <- Eb in Hn. rewrite set_nxt_node by done. eexists. split; [done|]. unfold TLSF_MIN_BLOCK_SIZE in Hmin.
  assert (Hb0 : b <> NULL).
  { destruct (lives_range _ _ _ _ _ _ _ (proj1 Hc) Hb) as (? & _). unfold NULL. lia. }
  split; [|split].
  - constructor; [|cbn [flinks with_links free_list set_remote raw]|done..].
    + apply chain_with_links; [|done]. apply (frame_nxt [b]). by apply list_elem_of_singleton.
    + eapply frame_dll; [apply (frame_nxt [b]); by apply list_elem_of_singleton| |exact Hd].
      intros x Hx. rewrite list_elem_of_singleton. intros ->.
      by eapply (free_not_live h); [apply Hc|exact Hx|exact Hb].
  - cbn [sll nxt]. split; [done|]. split; [done|]. exists (remote_free a). rewrite lookup_insert_eq. split; [done|].
    eapply sll_frame; [|exact Hm]. intros x Hx. rewrite lookup_insert_ne; [done|]. by intros ->.
  - rewrite Hlb, EL, !lives_app. cbn [lives app]. rewrite !held_bytes_app, !held_bytes_cons.
    rewrite <- Eb. rewrite decide_True by apply list_elem_of_here. rewrite decide_False by done.
    rewrite EL in Hc.
    rewrite (held_bytes_ext (b :: M) M (lives (raw a) l1)), (held_bytes_ext (b :: M) M (lives _ l2)); [lia|..].
    all: intros x t Hx; pose proof (lives_around _ _ _ _ _ _ _ _ _ x t Hc) as [A B];
      rewrite <- Eb in A, B; rewrite elem_of_cons; assert (x <> b) by (first [apply A in Hx|apply B in Hx]; lia); tauto.
Qed.

Lemma free_insert a h L M b s :
  arena_ok a h L M -> holds a L M b s ->
  exists a' h' L', arena_release a h b = Done (a', h') /\ same_arena a a' /\ arena_core a' h' L' /\
    sll (nxt (flinks h')) (remote_free a) M /\ extent L' = extent L /\
    held_bytes M (lives (raw a) L') = live_bytes a - s /\
    (forall x t, (x, t) ∈ lives (raw a) L' <-> (x, t) ∈ lives (raw a) L /\ x <> b).
Proof.
  intros [Hco Hm Hnd Hl Hlb Hsz He Hrm] [Hb HbM]. pose proof Hco as [Hc Hd Hse Hbase].
  destruct (lives_split _ _ _ _ _ _ _ (proj1 Hc) Hb) as (l1 & l2 & -> & Eb).
  destruct (arena_release_spec _ _ _ _ _ Hco) as (a1 & h1 & E & Hsame & Hco1 & Fr). rewrite <- Eb in E, Fr.
  exists a1, h1, (coalesce l1 s l2). split; [done|]. split; [done|]. split; [done|]. split; [|split; [|split]].
  - eapply sll_frame; [|exact Hm]. intros x Hx. apply Fr. rewrite not_elem_of_cons. split; [by intros ->|].
    intros Hfx. destruct (Hl x Hx) as (t & Ht). by eapply (free_not_live h); [apply Hc|exact Hfx|exact Ht].
  - rewrite coalesce_extent, extent_app. cbn. lia.
  - rewrite Hlb, lives_coalesce_eq, lives_app. cbn [lives app]. rewrite !held_bytes_app, held_bytes_cons.
    rewrite decide_False by (by rewrite <- Eb). lia.
  - intros x t. pose proof (lives_around _ _ _ _ _ _ _ _ _ x t Hc) as [A B].
    rewrite lives_coalesce, elem_of_lives_app, elem_of_lives_cons. split.
    + intros [Hx|Hx]; (split; [tauto|]); [apply A in Hx; lia|apply B in Hx; lia].
    + intros [[?|[(_ & ? & _)|?]] ?]; [tauto|congruence|tauto].
Qed.

(** ** Cleanup *)

(** A coalesced layout without live tiles is one free tile. *)
Lemma all_free_single strict h pv a l :
  chain strict h pv false a l -> lives a l = [] -> 0 < extent l -> exists n, l = [(n, true)].
Proof.
  intros Hc Hl He. destruct l as [|[n f] l]; [cbn in He; lia|]. cbn [lives] in Hl. destruct f; [|done].
  apply chain_cons_tight in Hc as [_ Hc]. destruct l as [|[m g] l]; [by exists n|].
  apply chain_cons_tight in Hc as [(_ & _ & _ & _ & Hg) _]. cbn in Hl. by destruct g.
Qed.

Lemma tlsf_arena_cleanup_run a h e L M :
  arena_ok a h L M -> live_bytes a = 0 ->
  exists a' h', tlsf_arena_cleanup a h e =
      Done (a', h', AEnv (u64 (total_pool_size e - size a)) ((raw a, size a) :: sys_freed e) (tls_arena e)) /\
    raw a' = NULL /\ finished a' = true /\ retired a' = retired a /\ cleanup_claimed a' = cleanup_claimed a /\
    ar_addr a' = ar_addr a.
Proof.
  intros O Hz. unfold tlsf_arena_cleanup.
  destruct (tlsf_arena_reap_spec _ _ _ _ O) as (a1 & h1 & L1 & -> & O1 & Hs & Hext & Hlv). cbn [mbind outcome_bind].
  apply same_arena_id in Hs as Hid. destruct Hid as (Hr & Hsz & Ha & Hrt & Hcl & Hfi). cbn [set_remote raw size ar_addr retired cleanup_claimed finished] in *.
  assert (Hlb : live_bytes a1 = 0) by (rewrite Hs; exact Hz).
  assert (Hbase : 0 < raw a1) by apply O1. pose proof (co_chain _ _ _ (ok_core _ _ _ _ O1)) as Hc.
  assert (Hnil : lives (raw a1) L1 = []).
  { destruct (lives (raw a1) L1) as [|[x s] ls] eqn:E; [done|]. exfalso.
    assert (Hin : (x, s) ∈ lives (raw a1) L1) by (rewrite E; apply list_elem_of_here).
    destruct (lives_range _ _ _ _ _ _ _ (proj1 Hc) Hin) as (_ & _ & [Hmin _]).
    pose proof (ok_live _ _ _ _ O1) as Hlive.
    pose proof (held_bytes_elem [] (lives (raw a1) L1) x s
      (fun y t => lives_nonneg _ _ _ _ _ y t (proj1 Hc)) Hin (not_elem_of_nil x)).
    unfold TLSF_MIN_BLOCK_SIZE in *. lia. }
  pose proof (ok_size _ _ _ _ O1) as Hsize. pose proof (ok_room _ _ _ _ O1) as Hroom.
  destruct (all_free_single _ _ _ _ _ Hc Hnil ltac:(lia)) as (n & ->).
  pose proof (co_free _ _ _ (ok_core _ _ _ _ O1)) as [Hseg _].
  cbn [free_addrs frees map app fst] in Hseg. destruct Hseg as (Hfl & Hne & _ & q & Hq & ->).
  rewrite Hfl, (proj2 (Z.eqb_neq _ _) Hne), (ld_Some _ _ _ Hq). cbn [mbind outcome_bind c_assert Z.eqb NULL].
  change (NULL =? NULL) with true. cbn [mbind outcome_bind c_assert].
  rewrite (tlsf_arena_validate_ok _ _ _ (ok_core _ _ _ _ O1) Hsize). cbn [mbind outcome_bind c_assert].
  rewrite Hr, Hsz. eexists _, _. split; [done|]. by split_and!.
Qed.

(** ** Steps on a live arena *)

Lemma tlsf_arena_free_run a h e L M b s :
  arena_ok a h L M -> holds a L M b s -> finished a = false -> cleanup_claimed a = false ->
  exists a' h' e', tlsf_arena_free_block a h e b = Done (a', h', e') /\
    if retired a && (live_bytes a =? s) then
      raw a' = NULL /\ finished a' = true /\ retired a' = true /\ cleanup_claimed a' = true /\ ar_addr a' = ar_addr a /\
      e' = AEnv (u64 (total_pool_size e - size a)) ((raw a, size a) :: sys_freed e) (tls_arena e)
    else exists L' M', arena_ok a' h' L' M' /\ same_id a a' /\ e' = e /\ live_bytes a' = live_bytes a - s /\
      (forall x t, holds a' L' M' x t <-> holds a L M x t /\ x <> b).
Proof.
  intros O Hh Hfin Hcl. pose proof O as [Hco Hm Hnd Hl Hlb Hsz He Hrm]. pose proof Hh as [Hb HbM].
  pose proof (co_chain _ _ _ Hco) as [Hp _].
  destruct (lives_split _ _ _ _ _ _ _ Hp Hb) as (l1 & l2 & EL & Eb).
  assert (Hspan : tlsf_arena_span h b = Done s).
  { rewrite EL in Hp. apply phys_app in Hp as [_ Hp]. rewrite <- Eb in Hp.
    apply phys_cons_tight in Hp as ([_ Hmod] & Hw & _). by eapply span_of. }
  assert (Hsum : 0 <= s <= live_bytes a /\ live_bytes a <= extent L).
  { pose proof (lives_nonneg _ _ _ _ _ _ _ Hp Hb). rewrite Hlb.
    pose proof (held_bytes_elem M _ _ _ (fun y t => lives_nonneg _ _ _ _ _ y t Hp) Hb HbM).
    pose proof (held_bytes_le M (lives (raw a) L) (fun y t => lives_nonneg _ _ _ _ _ y t Hp)).
    pose proof (lives_sum _ _ _ _ _ Hp). lia. }
  pose proof (co_base _ _ _ Hco) as Hbase. unfold SIZEOF_TLSF_BLOCK in Hsz.
  (* after the block is on the free list or in the mailbox *)
  assert (Hmid : exists a1 h1 L1 M1,
    (if (tls_arena e =? ar_addr a) && negb (retired a) then
       h ← set_sf h b (Z.lor s BLOCK_STATE_FREE); tlsf_arena_insert_free a h b
     else k ← set_nxt (flinks h) b (remote_free a); Done (set_remote a b, with_links h k)) = Done (a1, h1) /\
    live_bytes a1 = live_bytes a /\ same_id a a1 /\ arena_ok (set_live a1 (live_bytes a - s)) h1 L1 M1 /\
    (forall x t, holds a1 L1 M1 x t <-> holds a L M x t /\ x <> b)).
  { destruct ((tls_arena e =? ar_addr a) && negb (retired a)).
    - destruct (free_insert _ _ _ _ _ _ O Hh) as (a1 & h1 & L1 & E & Hs & Hco1 & Hm1 & Hext & Hhb & Hlv).
      unfold arena_release in E. rewrite Hspan in E. cbn [mbind outcome_bind] in E.
      exists a1, h1, L1, M. split; [exact E|].
      assert (live_bytes a1 = live_bytes a /\ remote_free a1 = remote_free a) as [Hl1 Hrf] by (rewrite Hs; done).
      pose proof (same_arena_id _ _ Hs) as Hid. pose proof Hid as (Hr & Hsz1 & _). split; [done|]. split; [done|].
      split; [|intros x t; unfold holds; rewrite Hr, Hlv; tauto].
      constructor; cbn [set_live raw size live_bytes remote_free]; rewrite ?Hr, ?Hsz1, ?Hext, ?Hrf; try done.
      + destruct Hco1. by constructor.
      + intros x Hx. destruct (Hl x Hx) as (t & Ht). exists t. apply Hlv. split; [done|]. by intros ->.
    - destruct (free_push _ _ _ _ _ _ O Hh) as (k & -> & Hco1 & Hm1 & Hhb). cbn [mbind outcome_bind].
      exists (set_remote a b), (with_links h k), L, (b :: M). split; [done|]. split; [done|]. split; [by split_and!|].
      split; [|intros x t; unfold holds; cbn [set_remote raw]; rewrite not_elem_of_cons; tauto].
      constructor; cbn [set_live set_remote raw size live_bytes remote_free]; try done.
      + destruct Hco1. by constructor.
      + by constructor.
      + intros x [->|Hx]%elem_of_cons; [by exists s|by apply Hl]. }
  destruct Hmid as (a1 & h1 & L1 & M1 & E & Hlb1 & Hid & O1 & Hh1).
  unfold tlsf_arena_free_block. rewrite Hspan. cbn [mbind outcome_bind]. rewrite E. cbn [mbind outcome_bind].
  rewrite Hlb1. rewrite u64_small by lia. pose proof Hid as (Hr & Hsz1 & Ha & Hrt & Hcl1 & Hfi).
  cbn [set_live retired cleanup_claimed finished]. rewrite Hrt, (andb_comm (retired a)).
  destruct ((live_bytes a =? s) && retired a) eqn:Edge.
  - apply andb_true_iff in Edge as [Es Ert]. apply Z.eqb_eq in Es. unfold claim_cleanup. cbn [set_live cleanup_claimed].
    rewrite Hcl1, Hcl. set (a2 := set_claimed _).
    assert (O2 : arena_ok a2 h1 L1 M1) by (destruct O1 as [[] ?]; constructor; [by constructor|done..]).
    destruct (tlsf_arena_cleanup_run a2 h1 e L1 M1 O2) as (a' & h' & -> & Hraw & Hf' & Hr' & Hc' & Ha').
    { cbn. lia. }
    cbn [mbind outcome_bind]. rewrite Hf'. eexists _, _, _. split; [done|]. cbn [a2 set_claimed set_live retired cleanup_claimed ar_addr raw size] in *.
    split_and!; try done; congruence.
  - cbn [mbind outcome_bind finished set_live]. rewrite Hfi, Hfin.
    rewrite (tlsf_arena_validate_ok _ _ L1 (ok_core _ _ _ _ O1) (ok_size _ _ _ _ O1)). cbn [mbind outcome_bind c_assert].
    eexists _, _, _. split; [done|]. exists L1, M1. by split_and!.
Qed.

(** ** The life of an arena *)

(** The arena, the memory, the environment of the owner thread, and the blocks clients
    hold (a ghost). *)
Record arena_sys := ASys {
  s_arena : tlsf_arena;
  s_heap : heap;
  s_env : aenv;
  s_held : list (Z * Z);
}.

(** What another thread sees: the same pool, its own [tls_cache.tlsf_arena]. *)
Definition in_thread (e : aenv) (t : Z) : aenv := AEnv (total_pool_size e) (sys_freed e) t.

Definition drop_block (b : Z) (held : list (Z * Z)) : list (Z * Z) := filter (fun p => p.1 <> b) held.

Inductive arena_step : arena_sys -> arena_sys -> Prop :=
  | step_alloc a h e held tn b a' h' s :
      tls_arena e = ar_addr a -> size_ok tn -> tlsf_arena_alloc a h tn = Done (b, a', h') -> b <> NULL ->
      tlsf_arena_span h' b = Done s -> arena_step (ASys a h e held) (ASys a' h' e ((b, s) :: held))
  | step_alloc_null a h e held tn a' h' :
      tls_arena e = ar_addr a -> size_ok tn -> tlsf_arena_alloc a h tn = Done (NULL, a', h') ->
      arena_step (ASys a h e held) (ASys a' h' e held)
  | step_free_owner a h e held b s a' h' e' :
      (b, s) ∈ held -> tlsf_arena_free_block a h e b = Done (a', h', e') ->
      arena_step (ASys a h e held) (ASys a' h' e' (drop_block b held))
  | step_free_other a h e held t b s a' h' e' :
      t <> ar_addr a -> (b, s) ∈ held -> tlsf_arena_free_block a h (in_thread e t) b = Done (a', h', e') ->
      arena_step (ASys a h e held) (ASys a' h' (in_thread e' (tls_arena e)) (drop_block b held))
  | step_retire a h e held a' h' e' :
      tlsf_arena_retire a h e = Done (a', h', e') -> arena_step (ASys a h e held) (ASys a' h' e' held).

Inductive arena_reach (s0 : arena_sys) : arena_sys -> Prop :=
  | reach_start : arena_reach s0 s0
  | reach_step s s' : arena_reach s0 s -> arena_step s s' -> arena_reach s0 s'.

(** Before the release: a well-formed region, every held block live in it, and a retired
    arena still has live bytes.  After it: nothing is left. *)
Definition arena_live (r : Z * Z) (freed : list (Z * Z)) (S : arena_sys) : Prop :=
  let '(ASys a h e held) := S in
  exists L M, arena_ok a h L M /\ (raw a, size a) = r /\ ar_addr a <> NULL /\ finished a = false /\ cleanup_claimed a = false /\
    sys_freed e = freed /\ (retired a = true -> tls_arena e <> ar_addr a /\ held <> []) /\
    (forall x t, (x, t) ∈ held <-> holds a L M x t).

Definition arena_released (r : Z * Z) (freed : list (Z * Z)) (S : arena_sys) : Prop :=
  let '(ASys a h e held) := S in
  raw a = NULL /\ finished a = true /\ retired a = true /\ tls_arena e <> ar_addr a /\ held = [] /\
  sys_freed e = r :: freed.

Definition arena_inv r freed (S : arena_sys) : Prop := arena_live r freed S \/ arena_released r freed S.

Lemma held_empty_bytes a h L M : arena_ok a h L M -> (forall x t, ~ holds a L M x t) -> live_bytes a = 0.
Proof.
  intros O Hn. rewrite (ok_live _ _ _ _ O). clear -Hn. unfold holds in Hn.
  induction (lives (raw a) L) as [|[x t] l IH]; [done|]. rewrite held_bytes_cons, IH.
  - case_decide as D; [done|]. exfalso. apply (Hn x t). split; [apply list_elem_of_here|done].
  - intros y u [Hy Hm]. apply (Hn y u). split; [by apply list_elem_of_further|done].
Qed.

Lemma held_bytes_pos a h L M x t : arena_ok a h L M -> holds a L M x t -> 32 <= t <= live_bytes a.
Proof.
  intros O [Hx Hm]. pose proof (proj1 (co_chain _ _ _ (ok_core _ _ _ _ O))) as Hp.
  rewrite (ok_live _ _ _ _ O). destruct (lives_range _ _ _ _ _ _ _ Hp Hx) as (_ & _ & [? _]).
  unfold TLSF_MIN_BLOCK_SIZE in *.
  pose proof (held_bytes_elem M _ _ _ (fun y u => lives_nonneg _ _ _ _ _ y u Hp) Hx Hm). lia.
Qed.

Lemma holds_two a h L M b s x t :
  arena_ok a h L M -> holds a L M b s -> holds a L M x t -> x <> b -> s < live_bytes a.
Proof.
  intros O Hb [Hx Hm] Hne. destruct (free_push _ _ _ _ _ _ O Hb) as (k & _ & _ & _ & E).
  pose proof (proj1 (co_chain _ _ _ (ok_core _ _ _ _ O))) as Hp.
  destruct (lives_range _ _ _ _ _ _ _ Hp Hx) as (_ & _ & [? _]). unfold TLSF_MIN_BLOCK_SIZE in *.
  pose proof (held_bytes_elem (b :: M) _ _ _ (fun y u => lives_nonneg _ _ _ _ _ y u Hp) Hx) as H1.
  rewrite not_elem_of_cons in H1. specialize (H1 ltac:(done)). lia.
Qed.

Lemma elem_of_drop b held x t : (x, t) ∈ drop_block b held <-> (x, t) ∈ held /\ x <> b.
Proof. unfold drop_block. rewrite list_elem_of_filter. cbn. tauto. Qed.

Lemma no_elem_nil (l : list (Z * Z)) : (forall x t, (x, t) ∉ l) -> l = [].
Proof. destruct l as [|[x t] l]; [done|]. intros H. exfalso. apply (H x t), list_elem_of_here. Qed.

(** Freeing a held block, from whichever thread: the invariant moves on. *)
Lemma free_inv r freed a h e held t b s a' h' e' :
  arena_live r freed (ASys a h e held) -> (b, s) ∈ held -> (retired a = true -> tls_arena e <> ar_addr a) ->
  tlsf_arena_free_block a h (in_thread e t) b = Done (a', h', e') ->
  arena_inv r freed (ASys a' h' (in_thread e' (tls_arena e)) (drop_block b held)).
Proof.
  intros (L & M & O & Er & Ha & Hf & Hcl & Hs & Hret & Hheld) Hin Htls E. pose proof (proj1 (Hheld _ _) Hin) as Hb.
  destruct (tlsf_arena_free_run _ _ (in_thread e t) _ _ _ _ O Hb Hf Hcl) as (a1 & h1 & e1 & E1 & Hr).
  rewrite E1 in E. injection E as -> -> ->.
  destruct (retired a && (live_bytes a =? s)) eqn:Edge.
  - right. destruct Hr as (Hraw & Hf' & Hrt & Hcl' & Ha' & ->). apply andb_true_iff in Edge as [Ert Es].
    apply Z.eqb_eq in Es. cbn. split_and!; try done; [rewrite Ha'; by apply Htls| |by rewrite Er, Hs].
    apply no_elem_nil. intros x u [Hx Hne]%elem_of_drop. apply Hheld in Hx.
    pose proof (holds_two _ _ _ _ _ _ _ _ O Hb Hx Hne). lia.
  - left. destruct Hr as (L' & M' & O' & (Hr' & Hsz & Ha' & Hrt & Hcl' & Hf') & -> & Hlb & Hiff).
    exists L', M'. split; [done|]. split; [congruence|]. split; [congruence|]. split; [congruence|]. split; [congruence|].
    split; [exact Hs|]. split.
    + rewrite Hrt. intros Hret'. split; [cbn; rewrite Ha'; by apply Htls|].
      rewrite Hret' in Edge. cbn in Edge. apply Z.eqb_neq in Edge. intros Hnil. apply Edge.
      assert (live_bytes a' = 0); [|lia]. apply (held_empty_bytes _ _ _ _ O'). intros x u Hx.
      apply Hiff in Hx as [Hx Hne]. assert (Hd : (x, u) ∈ drop_block b held) by (apply elem_of_drop; by rewrite Hheld).
      rewrite Hnil in Hd. by apply not_elem_of_nil in Hd.
    + intros x u. rewrite elem_of_drop, Hheld, Hiff. done.
Qed.

Lemma in_thread_same e : in_thread e (tls_arena e) = e.
Proof. by destruct e. Qed.

(** Retirement. *)
Lemma retire_run r freed a h e held :
  arena_live r freed (ASys a h e held) ->
  exists a' h' e', tlsf_arena_retire a h e = Done (a', h', e') /\ arena_inv r freed (ASys a' h' e' held).
Proof.
  intros Hlive. pose proof Hlive as (L & M & O & Er & Ha & Hf & Hcl & Hs & Hret & Hheld). unfold tlsf_arena_retire.
  destruct (Z.eqb_spec (tls_arena e) (ar_addr a)) as [Et|Et]; cbn [negb].
  2: { exists a, h, e. split; [done|]. by left. }
  set (e1 := AEnv _ _ _). assert (O1 : arena_ok (set_retired a) h L M).
  { destruct O as [[] ?]. constructor; [by constructor|done..]. }
  cbn [set_retired live_bytes]. destruct (Z.eqb_spec (live_bytes a) 0) as [Hz|Hz].
  - unfold claim_cleanup. cbn [set_retired cleanup_claimed]. rewrite Hcl.
    assert (O2 : arena_ok (set_claimed (set_retired a)) h L M).
    { destruct O as [[] ?]. constructor; [by constructor|done..]. }
    destruct (tlsf_arena_cleanup_run _ h e1 _ _ O2 Hz) as (a' & h' & -> & Hraw & Hf' & Hr' & Hc' & Ha').
    eexists _, _, _. split; [done|]. right. cbn [set_claimed set_retired retired ar_addr raw size e1 tls_arena sys_freed] in *.
    split_and!; try done; [cbn; by rewrite Ha'| |cbn; by rewrite Er, Hs].
    apply no_elem_nil. intros x t Hx. apply Hheld in Hx. pose proof (held_bytes_pos _ _ _ _ _ _ O Hx). lia.
  - exists (set_retired a), h, e1. split; [done|]. left. exists L, M. split_and!; try done.
    intros _. split; [cbn; congruence|]. intros ->. apply Hz. apply (held_empty_bytes _ _ _ _ O). intros x t Hx. apply Hheld in Hx.
    by apply not_elem_of_nil in Hx.
Qed.

Lemma arena_step_inv r freed S S' : arena_inv r freed S -> arena_step S S' -> arena_inv r freed S'.
Proof.
  intros [Hl|Hr] Hstep.
  - inversion Hstep as [a h e held tn b a' h' s Ht Htn E Hb Hsp|a h e held tn a' h' Ht Htn E
      |a h e held b s a' h' e' Hin E|a h e held t b s a' h' e' Ht Hin E|a h e held a' h' e' E]; subst S S'.
    + destruct Hl as (L & M & O & Er & Ha & Hf & Hcl & Hs & Hret & Hheld). left.
      destruct (tlsf_arena_alloc_run _ _ _ _ _ O Htn) as (b1 & a1 & h1 & L1 & E1 & O1 & (Hr' & Hsz & Ha' & Hrt & Hcl' & Hf') & Hp).
      rewrite E1 in E. injection E as -> -> ->. rewrite (proj2 (Z.eqb_neq b NULL)) in Hp by done.
      destruct Hp as (s1 & _ & Hsp1 & Hiff & _). assert (s1 = s) as -> by congruence.
      exists L1, []. split_and!; try congruence.
      * rewrite Hrt. intros H. by destruct (Hret H).
      * intros x t. unfold holds. rewrite Hr', Hiff. rewrite elem_of_cons, Hheld. unfold holds.
        pose proof (not_elem_of_nil x). split; [intros [[= -> ->]|?]; tauto|intros [[?|[-> ->]] _]; tauto].
    + destruct Hl as (L & M & O & Er & Ha & Hf & Hcl & Hs & Hret & Hheld). left.
      destruct (tlsf_arena_alloc_run _ _ _ _ _ O Htn) as (b1 & a1 & h1 & L1 & E1 & O1 & (Hr' & Hsz & Ha' & Hrt & Hcl' & Hf') & Hp).
      rewrite E1 in E. injection E as -> -> ->. destruct Hp as [_ Hiff]. exists L1, []. split_and!; try congruence.
      * rewrite Hrt. intros H. by destruct (Hret H).
      * intros x t. unfold holds. rewrite Hr', Hiff, Hheld. pose proof (not_elem_of_nil x). unfold holds. tauto.
    + rewrite <- (in_thread_same e) in E. pose proof Hl as (L & M & O & _ & _ & Hf & Hcl & _ & Hret & Hheld).
      pose proof (proj1 (Hheld _ _) Hin) as Hb.
      pose proof (free_inv _ _ _ _ _ _ _ _ _ _ _ _ Hl Hin (fun H => proj1 (Hret H)) E) as Hi.
      assert (Ee : in_thread e' (tls_arena e) = e'); [|by rewrite Ee in Hi].
      destruct (tlsf_arena_free_run _ _ e _ _ _ _ O Hb Hf Hcl) as (a1 & h1 & e1 & E1 & Hr).
      rewrite in_thread_same, E1 in E. injection E as -> -> ->.
      destruct (_ && _); [destruct Hr as (_ & _ & _ & _ & _ & ->); done|destruct Hr as (? & ? & _ & _ & -> & _)].
      by destruct e.
    + pose proof Hl as (_ & _ & _ & _ & _ & _ & _ & _ & Hret & _).
      exact (free_inv _ _ _ _ _ _ _ _ _ _ _ _ Hl Hin (fun H => proj1 (Hret H)) E).
    + destruct (retire_run _ _ _ _ _ _ Hl) as (a1 & h1 & e1 & E1 & Hi). rewrite E1 in E. injection E as -> -> ->. done.
  - inversion Hstep as [a h e held tn b a' h' s Ht Htn E Hb Hsp|a h e held tn a' h' Ht Htn E
      |a h e held b s a' h' e' Hin E|a h e held t b s a' h' e' Ht Hin E|a h e held a' h' e' E]; subst S S';
      pose proof Hr as (Hraw & Hf & Hrt & Htls & -> & Hs); try done.
    + by apply not_elem_of_nil in Hin.
    + by apply not_elem_of_nil in Hin.
    + unfold tlsf_arena_retire in E. rewrite (proj2 (Z.eqb_neq _ _) Htls) in E. injection E as -> -> ->. by right.
Qed.

Lemma arena_init_live raw0 desc h e a h' e' :
  tlsf_arena_init raw0 desc h e = (Some a, h', e') -> 0 < raw0 -> raw0 + TLSF_ARENA_DEFAULT_SIZE <= 2 ^ 64 ->
  arena_live (raw0, TLSF_ARENA_DEFAULT_SIZE) (sys_freed e) (ASys a h' e' []) /\ finished a = false /\ retired a = false.
Proof.
  intros E Hr Hov. unfold tlsf_arena_init in E. rewrite (proj2 (Z.eqb_neq raw0 NULL)) in E by (unfold NULL; lia).
  destruct (Z.eqb_spec desc NULL) as [|Hd]; [done|]. injection E as <- <- <-. split; [|done].
  unfold TLSF_ARENA_DEFAULT_SIZE, SIZEOF_TLSF_BLOCK in *.
  set (n := 256 * 1024 - 32). replace (raw0 + 256 * 1024 - 32) with (raw0 + n) by (unfold n; lia).
  assert (Hn : n mod 8 = 0 /\ 32 < n) by done. destruct Hn as [Hm Hn].
  assert (Esz : 256 * 1024 = n + 32) by done. rewrite Esz in *. clearbody n. rewrite size_or_free by done.
  set (hh := fresh_header (fresh_header h raw0 _ _) _ _ _). assert (Hne : raw0 <> raw0 + n) by lia.
  assert (F : size_and_flags hh !! raw0 = Some (mk n true false) /\ prev_physical hh !! raw0 = Some NULL /\
    nxt (flinks hh) !! raw0 = Some NULL /\ prv (flinks hh) !! raw0 = Some NULL /\
    size_and_flags hh !! (raw0 + n) = Some 0 /\ prev_physical hh !! (raw0 + n) = Some raw0).
  { cbn. rewrite !(lookup_insert_ne _ (raw0 + n) raw0) by done. rewrite !lookup_insert_eq. done. }
  destruct F as (F1 & F2 & F3 & F4 & F5 & F6). clearbody hh.
  assert (Hco : arena_core (Arena desc raw0 (n + 32) raw0 (raw0 + n) 0 NULL false false false) hh [(n, true)]).
  { constructor; cbn [raw free_list sentinel extent free_addrs frees map app fst].
    - apply chain_cons_tight. split.
      + split; [split; [unfold TLSF_MIN_BLOCK_SIZE; lia|done]|]. split; [done|]. split; [done|]. split; [|done].
        split; by eexists.
      + split; [done|]. exists false. cbn. rewrite Z.add_0_r. done.
    - split; [|apply NoDup_singleton]. split; [done|]. split; [unfold NULL; lia|]. split; [done|]. by exists NULL.
    - lia.
    - done. }
  exists [(n, true)], []. split_and!; try done.
  - constructor; try done; try (cbn; unfold SIZEOF_TLSF_BLOCK; lia).
    + constructor.
    + intros x Hx. by apply not_elem_of_nil in Hx.
  - intros x t. pose proof (not_elem_of_nil (A := Z * Z) (x, t)). unfold holds. cbn. tauto.
Qed.

Lemma reach_inv r freed S0 S : arena_inv r freed S0 -> arena_reach S0 S -> arena_inv r freed S.
Proof. intros H0. induction 1 as [|S S' _ IH Hs]; [done|]. by eapply arena_step_inv. Qed.

(** ** Properties *)

(** When the functions run one after the other, the region goes back to the system at most
    once: exactly when the arena is retired and no block of it is outstanding any more.
    [ArenaRace] has the functions' accesses interleaved. *)
Theorem whole_step_release raw0 desc h e a h' e' S :
  tlsf_arena_init raw0 desc h e = (Some a, h', e') -> 0 < raw0 -> raw0 + TLSF_ARENA_DEFAULT_SIZE <= 2 ^ 64 ->
  arena_reach (ASys a h' e' []) S ->
  sys_freed (s_env S) = (if finished (s_arena S) then [(raw0, TLSF_ARENA_DEFAULT_SIZE)] else []) ++ sys_freed e /\
  (finished (s_arena S) = true <-> retired (s_arena S) = true /\ s_held S = []).
Proof.
  intros E Hr Hov Hreach. destruct (arena_init_live _ _ _ _ _ _ _ E Hr Hov) as (Hl & _ & _).
  destruct (reach_inv _ _ _ _ (or_introl Hl) Hreach) as [Hi|Hi]; destruct S as [a1 h1 e1 held1]; cbn.
  - destruct Hi as (L & M & _ & _ & _ & -> & _ & -> & Hret & _). split; [done|]. split; [done|].
    intros [Ht ->]. by destruct (Hret Ht).
  - destruct Hi as (_ & -> & -> & _ & -> & ->). split; [done|]. done.
Qed.


(** An arena allocation first takes in the blocks other threads have returned, then
    hands out a block of at least the size asked for, disjoint from every block still
    held; it returns NULL only if every free block is too small. *)
Theorem tlsf_arena_alloc_spec a h L M tn :
  arena_ok a h L M -> size_ok tn ->
  exists b a' h' L', tlsf_arena_alloc a h tn = Done (b, a', h') /\ arena_ok a' h' L' [] /\
    if b =? NULL then
      (forall x s, (x, s) ∈ frees (raw a) L' -> s < tn) /\ (forall x s, holds a' L' [] x s <-> holds a L M x s)
    else exists s, tn <= s /\ tlsf_arena_span h' b = Done s /\
      (forall x t, holds a' L' [] x t <-> holds a L M x t \/ (x = b /\ t = s)) /\
      (forall x t, holds a L M x t -> x + t <= b \/ b + s <= x).
Proof.
  intros O Htn. destruct (tlsf_arena_alloc_run _ _ _ _ _ O Htn) as (b & a' & h' & L' & E & O' & (Hr & _) & Hp).
  exists b, a', h', L'. split; [done|]. split; [done|]. unfold holds. rewrite Hr. destruct (b =? NULL).
  - destruct Hp as [Hf Hl]. split; [done|]. intros x s. rewrite Hl. pose proof (not_elem_of_nil x). tauto.
  - destruct Hp as (s & Hle & Hsp & Hl & Hdis). exists s. split; [done|]. split; [done|]. split.
    + intros x t. rewrite Hl. pose proof (not_elem_of_nil x). tauto.
    + intros x t [Hx Hm]. by apply Hdis.
Qed.

(** ** A run: one block allocated, the arena retired, the block freed by another thread *)

Definition demo_init := tlsf_arena_init 65536 4096 (Heap ∅ ∅ (Links ∅ ∅)) (AEnv 0 [] NULL).
Definition demo_a0 : tlsf_arena := default (Arena 0 0 0 0 0 0 0 false false false) (fst (fst demo_init)).
Definition demo_h0 : heap := snd (fst demo_init).
Definition demo_e0 : aenv := snd demo_init.

Definition demo_alloc := done_or (0, demo_a0, demo_h0) (tlsf_arena_alloc demo_a0 demo_h0 64).
Definition demo_a1 := snd (fst demo_alloc).
Definition demo_h1 := snd demo_alloc.

Definition demo_retire := done_or (demo_a0, demo_h0, demo_e0) (tlsf_arena_retire demo_a1 demo_h1 demo_e0).
Definition demo_a2 := fst (fst demo_retire).
Definition demo_e2 := snd demo_retire.

Definition demo_free := done_or (demo_a0, demo_h0, demo_e0) (tlsf_arena_free_block demo_a2 demo_h1 (in_thread demo_e2 8192) 65536).
Definition demo_a3 := fst (fst demo_free).
Definition demo_h3 := snd (fst demo_free).
Definition demo_e3 := snd demo_free.

Definition demo_s0 := ASys demo_a0 demo_h0 demo_e0 [].
Definition demo_s1 := ASys demo_a1 demo_h1 demo_e0 [(65536, 64)].
Definition demo_s2 := ASys demo_a2 demo_h1 demo_e2 [(65536, 64)].
Definition demo_s3 := ASys demo_a3 demo_h3 (in_thread demo_e3 (tls_arena demo_e2)) (drop_block 65536 [(65536, 64)]).

Lemma demo_reach1 : arena_reach demo_s0 demo_s1.
Proof.
  eapply reach_step; [apply reach_start|].
  apply (step_alloc demo_a0 demo_h0 demo_e0 [] 64 65536 demo_a1 demo_h1 64).
  - vm_compute; exact eq_refl.
  - split; vm_compute; [discriminate|exact eq_refl].
  - vm_compute; exact eq_refl.
  - vm_compute; discriminate.
  - vm_compute; exact eq_refl.
Qed.

Lemma demo_reach3 : arena_reach demo_s0 demo_s3.
Proof.
  eapply reach_step; [eapply reach_step; [exact demo_reach1|]|].
  - apply (step_retire demo_a1 demo_h1 demo_e0 [(65536, 64)] demo_a2 demo_h1 demo_e2). vm_compute; exact eq_refl.
  - apply (step_free_other demo_a2 demo_h1 demo_e2 [(65536, 64)] 8192 65536 64 demo_a3 demo_h3 demo_e3).
    + vm_compute; discriminate.
    + apply list_elem_of_here.
    + vm_compute; exact eq_refl.
Qed.

Lemma demo_init_eq : tlsf_arena_init 65536 4096 (Heap ∅ ∅ (Links ∅ ∅)) (AEnv 0 [] NULL) = (Some demo_a0, demo_h0, demo_e0).
Proof. vm_compute; exact eq_refl. Qed.

Lemma whole_step_release_witness :
  sys_freed (s_env demo_s3) = (if finished (s_arena demo_s3) then [(65536, TLSF_ARENA_DEFAULT_SIZE)] else []) ++ [] /\
  (finished (s_arena demo_s3) = true <-> retired (s_arena demo_s3) = true /\ s_held demo_s3 = []).
Proof.
  exact (whole_step_release 65536 4096 _ _ _ _ _ demo_s3 demo_init_eq ltac:(lia)
    ltac:(unfold TLSF_ARENA_DEFAULT_SIZE; lia) demo_reach3).
Defined.

Example demo_released : finished demo_a3 = true /\ sys_freed demo_e3 = [(65536, 262144)].
Proof. split; vm_compute; exact eq_refl. Qed.


Lemma tlsf_arena_alloc_spec_witness :
  exists L M, arena_ok demo_a0 demo_h0 L M /\ exists b a' h' L', tlsf_arena_alloc demo_a0 demo_h0 64 = Done (b, a', h') /\
    arena_ok a' h' L' [].
Proof.
  destruct (arena_init_live 65536 4096 _ _ _ _ _ demo_init_eq ltac:(lia) ltac:(unfold TLSF_ARENA_DEFAULT_SIZE; lia))
    as ((L & M & O & _) & _).
  exists L, M. split; [exact O|].
  destruct (tlsf_arena_alloc_spec demo_a0 demo_h0 L M 64 O) as (b & a' & h' & L' & E & O' & _).
  - split; vm_compute; [discriminate|exact eq_refl].
  - exists b, a', h', L'. split; [exact E|exact O'].
Defined.
