(* ===== verification/ArenaRace.v ===== *)
(** * An arena between threads

    The lock-free protocol of the per-thread arenas ([tlsf_arena_alloc],
    [tlsf_arena_free_block], [tlsf_arena_retire] and [tlsf_arena_cleanup] of
    [src/cmem_slab.c]), one access to a shared word at a time.  A step of a thread is one
    load, store, exchange, compare-and-exchange or fetch-and-add on the mailbox, the counter
    or one of the three flags, together with the accesses to memory it alone works on that
    come with it: its own block before it is published, the free list for the owner or the
    thread that cleans up.  Any number of threads, any interleaving, sequentially
    consistent; the functions on the list are those of [Arena], the debug assertions left
    out. *)
From Stdlib Require Import ZArith Lia.
From stdpp Require Import base option list gmap.
From S2P Require Import Prelude Dll BlockHeap Arena.
Open Scope Z_scope.

(** Where a thread is. *)
Inductive pc :=
  | Idle
  (* [tlsf_arena_alloc] *)
  | AllocReap (total_needed : Z)
  | AllocTake (total_needed : Z)
  | AllocAdd (block span : Z)
  (* [tlsf_arena_free_block] *)
  | FreeOwner (block span : Z)
  | FreePush (block span : Z)
  | FreeCas (block span expected : Z)
  | FreeSub (span : Z)
  | FreeRetired
  (* [tlsf_arena_retire] *)
  | RetireLoad
  (* both *)
  | Claim
  (* [tlsf_arena_cleanup] *)
  | CleanReap
  | CleanFree
  | CleanTotal
  | CleanFinish.

(** The arena and what it touches, and the threads; thread 0 owns it, and [attached] says
    that its [tls_cache.tlsf_arena] is this arena.  [held] are the blocks the program has
    and their spans. *)
Record race_world := World {
  arena : tlsf_arena;
  mem : heap;
  total : Z;                    (* [total_pool_size] *)
  returned : list (Z * Z);      (* regions handed to [sys_mem_free] *)
  attached : bool;
  held : list (Z * Z);
  threads : list pc;
}.

Definition set_raw (a : tlsf_arena) p := Arena (ar_addr a) p (size a) (free_list a) (sentinel a)
  (live_bytes a) (remote_free a) (retired a) (cleanup_claimed a) (finished a).
Definition mark_finished (a : tlsf_arena) := Arena (ar_addr a) (raw a) (size a) (free_list a) (sentinel a)
  (live_bytes a) (remote_free a) (retired a) (cleanup_claimed a) true.

(** Thread [t] goes on to [p], having changed the arena and its memory. *)
Definition goes (w : race_world) (t : nat) (p : pc) (a : tlsf_arena) (h : heap) : race_world :=
  World a h (total w) (returned w) (attached w) (held w) (<[t := p]> (threads w)).
Definition moves (w : race_world) (t : nat) (p : pc) : race_world := goes w t p (arena w) (mem w).

(** ** The accesses, in the order of the code *)

(** [CMEM_ATOMIC_LOAD(&arena->remote_free) != NULL]. *)
Definition alloc_begin (w : race_world) (t : nat) (tn : Z) : race_world :=
  moves w t (if remote_free (arena w) =? NULL then AllocTake tn else AllocReap tn).

(** The exchange, and the walk over what it returned. *)
Definition alloc_reap (w : race_world) (t : nat) (tn : Z) : outcome race_world :=
  r ← tlsf_arena_reap (arena w) (mem w);
  let '(a, h) := r in Done (goes w t (AllocTake tn) a h).

(** First fit, taken off the list and cut. *)
Definition alloc_take (w : race_world) (t : nat) (tn : Z) : outcome race_world :=
  b ← first_fit_walk (walk_fuel (mem w)) (mem w) (free_list (arena w)) tn;
  if b =? NULL then Done (moves w t Idle)
  else
    r ← arena_take (arena w) (mem w) b tn;
    let '(a, h) := r in
    sp ← tlsf_arena_span h b;
    Done (goes w t (AllocAdd b sp) a h).

(** [CMEM_ATOMIC_FETCH_ADD(&arena->live_bytes, span)]; the program has the block. *)
Definition alloc_add (w : race_world) (t : nat) (b s : Z) : race_world :=
  World (set_live (arena w) (u64 (live_bytes (arena w) + s))) (mem w) (total w) (returned w) (attached w)
    ((b, s) :: held w) (<[t := Idle]> (threads w)).

(** The span of the block; the program has it no more. *)
Definition free_begin (w : race_world) (t : nat) (b : Z) : outcome race_world :=
  sp ← tlsf_arena_span (mem w) b;
  Done (World (arena w) (mem w) (total w) (returned w) (attached w) (drop_block b (held w)) (<[t := FreeOwner b sp]> (threads w))).

(** [tls_cache.tlsf_arena == arena && !CMEM_ATOMIC_LOAD(&arena->retired)]; the owner puts
    the block on the list. *)
Definition free_owner (w : race_world) (t : nat) (b s : Z) : outcome race_world :=
  if (t =? 0)%nat && attached w && negb (retired (arena w)) then
    h ← set_sf (mem w) b (Z.lor s BLOCK_STATE_FREE);
    r ← tlsf_arena_insert_free (arena w) h b;
    let '(a, h) := r in Done (goes w t (FreeSub s) a h)
  else Done (moves w t (FreePush b s)).

(** The link, and the compare-and-exchange on the mailbox; what it saw otherwise. *)
Definition free_cas (w : race_world) (t : nat) (b s expected : Z) : outcome race_world :=
  k ← set_nxt (flinks (mem w)) b expected;
  let h := with_links (mem w) k in
  if remote_free (arena w) =? expected then Done (goes w t (FreeSub s) (set_remote (arena w) b) h)
  else Done (goes w t (FreeCas b s (remote_free (arena w))) (arena w) h).

(** [CMEM_ATOMIC_FETCH_SUB(&arena->live_bytes, span)]. *)
Definition free_sub (w : race_world) (t : nat) (s : Z) : race_world :=
  let prev_live := live_bytes (arena w) in
  goes w t (if prev_live =? s then FreeRetired else Idle) (set_live (arena w) (u64 (prev_live - s))) (mem w).

Definition free_retired (w : race_world) (t : nat) : race_world := moves w t (if retired (arena w) then Claim else Idle).

(** The thread's pointer goes first, then [retired] is stored. *)
Definition retire_begin (w : race_world) (t : nat) : race_world :=
  World (set_retired (arena w)) (mem w) (total w) (returned w) false (held w) (<[t := RetireLoad]> (threads w)).

Definition retire_load (w : race_world) (t : nat) : race_world := moves w t (if live_bytes (arena w) =? 0 then Claim else Idle).

(** The compare-and-exchange on [cleanup_claimed]. *)
Definition claim (w : race_world) (t : nat) : race_world :=
  if cleanup_claimed (arena w) then moves w t Idle else goes w t CleanReap (set_claimed (arena w)) (mem w).

Definition clean_reap (w : race_world) (t : nat) : outcome race_world :=
  r ← tlsf_arena_reap (arena w) (mem w);
  let '(a, h) := r in Done (goes w t CleanFree a h).

(** [sys_mem_free(pool, arena->raw, arena->size)]: the memory is gone. *)
Definition clean_free (w : race_world) (t : nat) : race_world :=
  let a := arena w in
  if raw a =? NULL then moves w t CleanFinish
  else World a (erase (mem w) (raw a) (size a)) (total w) ((raw a, size a) :: returned w) (attached w) (held w) (<[t := CleanTotal]> (threads w)).

Definition clean_total (w : race_world) (t : nat) : race_world :=
  World (set_raw (arena w) NULL) (mem w) (u64 (total w - size (arena w))) (returned w) (attached w) (held w) (<[t := CleanFinish]> (threads w)).

Definition clean_finish (w : race_world) (t : nat) : race_world := goes w t Idle (mark_finished (arena w)) (mem w).

(** ** Threads *)

Definition run_at (w : race_world) (t : nat) (p : pc) : outcome race_world :=
  match p with
  | Idle => Done w
  | AllocReap tn => alloc_reap w t tn
  | AllocTake tn => alloc_take w t tn
  | AllocAdd b s => Done (alloc_add w t b s)
  | FreeOwner b s => free_owner w t b s
  | FreePush b s => Done (moves w t (FreeCas b s (remote_free (arena w))))
  | FreeCas b s expected => free_cas w t b s expected
  | FreeSub s => Done (free_sub w t s)
  | FreeRetired => Done (free_retired w t)
  | RetireLoad => Done (retire_load w t)
  | Claim => Done (claim w t)
  | CleanReap => clean_reap w t
  | CleanFree => Done (clean_free w t)
  | CleanTotal => Done (clean_total w t)
  | CleanFinish => Done (clean_finish w t)
  end.

(** What an idle thread may call; only the owner has the arena in its cache. *)
Inductive call := CAlloc (total_needed : Z) | CFree (block : Z) | CRetire.

Definition begin_call (w : race_world) (t : nat) (c : call) : outcome race_world :=
  match c with
  | CAlloc tn => if (t =? 0)%nat && attached w then Done (alloc_begin w t tn) else Done w
  | CFree b => free_begin w t b
  | CRetire => if (t =? 0)%nat && attached w then Done (retire_begin w t) else Done w
  end.

Definition may_call (w : race_world) (c : call) : Prop :=
  match c with CAlloc tn => size_ok tn | CFree b => exists s, (b, s) ∈ held w | CRetire => True end.

Inductive race_step (w : race_world) (t : nat) : race_world -> Prop :=
  | race_call c w' : threads w !! t = Some Idle -> may_call w c -> begin_call w t c = Done w' -> race_step w t w'
  | race_move p w' : threads w !! t = Some p -> run_at w t p = Done w' -> race_step w t w'.

(** The owner's allocation does not raise the counter while another thread, which has
    lowered it to zero, has still to look at [retired]. *)
Definition undisturbed (w : race_world) (t : nat) : Prop :=
  forall b s, threads w !! t = Some (AllocAdd b s) -> FreeRetired ∉ threads w.

(** Runs; the [calm] ones are undisturbed. *)
Inductive race_run (calm : bool) (w0 : race_world) : race_world -> Prop :=
  | run_start : race_run calm w0 w0
  | run_step w t w' : race_run calm w0 w -> (calm = true -> undisturbed w t) -> race_step w t w' -> race_run calm w0 w'.

(** A new arena, and [n] threads. *)
Definition race_start (a : tlsf_arena) (h : heap) (e : aenv) (n : nat) : race_world :=
  World a h (total_pool_size e) (sys_freed e) true [] (replicate n Idle).

(** ** The list and the mailbox, whatever the counter says *)

Record shape (a : tlsf_arena) (h : heap) (L : list tile) (M : list Z) : Prop := {
  sh_core : arena_core a h L;
  sh_mail : sll (nxt (flinks h)) (remote_free a) M;
  sh_nodup : NoDup M;
  sh_live : forall x, x ∈ M -> exists s, (x, s) ∈ lives (raw a) L;
  sh_size : size a = extent L + SIZEOF_TLSF_BLOCK;
  sh_end : raw a + size a <= 2 ^ 64;
  sh_room : SIZEOF_TLSF_BLOCK < size a;
}.

(** The counter and the flags are not in it. *)
Lemma shape_ext a a' h L M :
  raw a' = raw a -> size a' = size a -> free_list a' = free_list a -> sentinel a' = sentinel a -> remote_free a' = remote_free a ->
  shape a h L M -> shape a' h L M.
Proof. intros E1 E2 E3 E4 E5 [[] ? ? ? ? ? ?]. split; rewrite ?E1, ?E2, ?E5; try done. by constructor; rewrite ?E1, ?E3, ?E4. Qed.

Lemma mail_length h p M : sll (nxt (flinks h)) p M -> NoDup M -> (length M < walk_fuel h)%nat.
Proof.
  intros Hm Hd. unfold walk_fuel. assert (length M <= base.size (nxt (flinks h)))%nat; [|lia]. apply nodup_size; [done|].
  clear Hd. revert p Hm. induction M as [|y M IH]; intros p; cbn.
  - intros _ x Hx. by apply not_elem_of_nil in Hx.
  - intros (-> & _ & n & Hn & H) x [->|Hx]%elem_of_cons; [eauto|by eapply IH].
Qed.

Lemma shape_reap a h L M : shape a h L M ->
  exists a' h' L', tlsf_arena_reap a h = Done (a', h') /\ shape a' h' L' [] /\ same_arena (set_remote a NULL) a' /\
    (forall x s, holds a' L' [] x s <-> holds a L M x s).
Proof.
  intros [Hco Hm Hnd Hl Hsz He Hrm]. unfold tlsf_arena_reap.
  destruct (reap_loop_spec (walk_fuel h) (set_remote a NULL) h L (remote_free a) M) as (a' & h' & L' & -> & Hs & Hco' & Hext & _ & Hlv);
    [by destruct Hco|done..|by eapply mail_length|].
  exists a', h', L'. split; [done|]. assert (raw a' = raw a /\ size a' = size a /\ remote_free a' = NULL) as (Hr & Hz & Hrf) by (by rewrite Hs).
  split; [|split; [done|]].
  - split; rewrite ?Hr, ?Hz, ?Hrf, ?Hext; try done; [constructor|]. intros x Hx. by apply not_elem_of_nil in Hx.
  - intros x s. unfold holds. rewrite Hr. specialize (Hlv x s). cbn [set_remote raw] in Hlv. pose proof (not_elem_of_nil x). tauto.
Qed.

Lemma shape_span a h L M b s : shape a h L M -> holds a L M b s -> tlsf_arena_span h b = Done s /\ 0 < s <= size a.
Proof.
  intros H [Hb _]. pose proof (co_chain _ _ _ (sh_core _ _ _ _ H)) as [Hp _]. pose proof (sh_size _ _ _ _ H) as Hz. pose proof (co_base _ _ _ (sh_core _ _ _ _ H)) as Hb0.
  destruct (lives_split _ _ _ _ _ _ _ Hp Hb) as (l1 & l2 & -> & ->). pose proof Hp as Hp0. apply phys_app in Hp as [Hp1 Hp].
  pose proof (phys_extent _ _ _ _ _ Hp1). apply phys_cons_tight in Hp as ([Hmin Hmod] & Hw & _ & _ & _ & Hp2). pose proof (phys_extent _ _ _ _ _ Hp2).
  split; [by eapply span_of|]. rewrite extent_app in Hz. cbn [extent] in Hz. unfold TLSF_MIN_BLOCK_SIZE, SIZEOF_TLSF_BLOCK in *. lia.
Qed.

Lemma shape_insert a h L M b s : shape a h L M -> holds a L M b s ->
  exists h1 a' h' L', set_sf h b (Z.lor s BLOCK_STATE_FREE) = Done h1 /\ tlsf_arena_insert_free a h1 b = Done (a', h') /\
    shape a' h' L' M /\ same_arena a a' /\ (forall x t, holds a' L' M x t <-> holds a L M x t /\ x <> b).
Proof.
  intros Hsh Hh. destruct (shape_span _ _ _ _ _ _ Hsh Hh) as [Hspan _]. destruct Hsh as [Hco Hm Hnd Hl Hsz He Hrm]. destruct Hh as [Hb HbM].
  pose proof (co_chain _ _ _ Hco) as Hc. destruct (lives_split _ _ _ _ _ _ _ (proj1 Hc) Hb) as (l1 & l2 & -> & Eb).
  destruct (arena_release_spec _ _ _ _ _ Hco) as (a' & h' & E & Hs & Hco' & Fr). rewrite <- Eb in E, Fr.
  unfold arena_release in E. rewrite Hspan in E. cbn [mbind outcome_bind] in E. destruct (set_sf h b _) as [h1| |]; [|done..]. cbn [mbind outcome_bind] in E.
  exists h1, a', h', (coalesce l1 s l2). split; [done|]. split; [done|].
  assert (raw a' = raw a /\ size a' = size a /\ remote_free a' = remote_free a) as (Hr & Hz & Hrf) by (by rewrite Hs).
  assert (Hlv : forall x t, (x, t) ∈ lives (raw a) (coalesce l1 s l2) <-> (x, t) ∈ lives (raw a) (l1 ++ (s, false) :: l2) /\ x <> b).
  { intros x t. pose proof (lives_around _ _ _ _ _ _ _ _ _ x t Hc) as [A B]. rewrite lives_coalesce, elem_of_lives_app, elem_of_lives_cons. split.
    - intros [Hx|Hx]; (split; [tauto|]); [apply A in Hx; lia|apply B in Hx; lia].
    - intros [[?|[(_ & ? & _)|?]] ?]; [tauto|congruence|tauto]. }
  split; [|split; [done|intros x t; unfold holds; rewrite Hr, Hlv; tauto]].
  split; rewrite ?Hr, ?Hz, ?Hrf; try done.
  - eapply sll_frame; [|exact Hm]. intros x Hx. apply Fr. rewrite not_elem_of_cons. split; [by intros ->|].
    intros Hfx. destruct (Hl x Hx) as (t & Ht). by eapply (free_not_live h); [apply Hc|exact Hfx|exact Ht].
  - intros x Hx. destruct (Hl x Hx) as (t & Ht). exists t. apply Hlv. split; [done|]. by intros ->.
  - rewrite Hsz, coalesce_extent, extent_app. cbn. lia.
Qed.

Lemma shape_link a h L M b s v : shape a h L M -> holds a L M b s ->
  exists k, set_nxt (flinks h) b v = Done k /\ shape a (with_links h k) L M /\
    (v = remote_free a -> shape (set_remote a b) (with_links h k) L (b :: M)).
Proof.
  intros Hsh Hh. pose proof Hh as [Hb HbM]. pose proof Hsh as [Hco Hm Hnd Hl Hsz He Hrm]. pose proof Hco as [Hc Hd Hse Hbase].
  destruct (lives_split _ _ _ _ _ _ _ (proj1 Hc) Hb) as (l1 & l2 & EL & Eb). rewrite EL in Hc.
  destruct (chain_mid _ _ _ _ _ _ _ _ _ Hc) as (_ & _ & _ & _ & Hn & _). rewrite <- EL in Hc. rewrite <- Eb in Hn. rewrite set_nxt_node by done.
  assert (Hb0 : b <> NULL) by (destruct (lives_range _ _ _ _ _ _ _ (proj1 Hc) Hb) as (? & _); unfold NULL; lia).
  eexists. split; [done|]. set (k := Links _ _).
  assert (Hco' : arena_core a (with_links h k) L).
  { constructor; [|cbn [flinks with_links]|done..].
    - apply chain_with_links; [|done]. apply (frame_nxt [b]). by apply list_elem_of_singleton.
    - eapply frame_dll; [apply (frame_nxt [b]); by apply list_elem_of_singleton| |exact Hd].
      intros x Hx. rewrite list_elem_of_singleton. intros ->. by eapply (free_not_live h); [apply Hc|exact Hx|exact Hb]. }
  assert (Hm' : sll (nxt (flinks (with_links h k))) (remote_free a) M).
  { eapply sll_frame; [|exact Hm]. intros x Hx. cbn. rewrite lookup_insert_ne; [done|]. by intros ->. }
  split; [by split|]. intros ->. split; cbn [set_remote raw size remote_free]; try done.
  - destruct Hco'. by constructor.
  - split; [done|]. split; [done|]. exists (remote_free a). split; [cbn; by rewrite lookup_insert_eq|done].
  - by constructor.
  - intros x [->|Hx]%elem_of_cons; [by exists s|by apply Hl].
Qed.

Lemma shape_take a h L M tn : shape a h L M -> size_ok tn ->
  exists b, first_fit_walk (walk_fuel h) h (free_list a) tn = Done b /\
    (b <> NULL -> exists a' h' L' s, arena_take a h b tn = Done (a', h') /\ tlsf_arena_span h' b = Done s /\ shape a' h' L' M /\ same_arena a a' /\
       (forall x t, holds a' L' M x t <-> holds a L M x t \/ (x = b /\ t = s)) /\ forall t, ~ holds a L M b t).
Proof.
  intros [Hco Hm Hnd Hl Hsz He Hrm] Htn. pose proof Hco as [Hc Hd Hse Hb].
  destruct (first_fit_walk_spec h NULL false (raw a) L (walk_fuel h) NULL (free_list a) tn) as (b & -> & Hfit);
    [apply Hc|done|apply Hd|by eapply free_addrs_length|]. exists b. split; [done|]. intros Hne.
  rewrite (proj2 (Z.eqb_neq b NULL) Hne) in Hfit. destruct Hfit as (sz & Hin & Hle).
  destruct (frees_split _ _ _ _ _ _ _ (proj1 Hc) Hin) as (l1 & l2 & -> & Eb). unfold SIZEOF_TLSF_BLOCK in Hsz.
  destruct (arena_take_spec a h l1 sz l2 tn Hco Htn Hle ltac:(lia)) as (a' & h' & E & Hs & Hco' & Hsp & Hnx). rewrite <- Eb in E, Hsp.
  exists a', h', (l1 ++ split_tiles sz tn ++ l2), (taken sz tn). split; [done|]. split; [done|].
  assert (raw a' = raw a /\ size a' = size a /\ remote_free a' = remote_free a) as (Hr & Hz & Hrf) by (by rewrite Hs).
  assert (Hnl : forall t, (b, t) ∉ lives (raw a) (l1 ++ (sz, true) :: l2)).
  { intros t Ht. eapply (free_not_live h); [exact (proj1 Hc)| |exact Ht]. apply elem_of_free_addrs. by exists sz. }
  assert (HbM : b ∉ M) by (intros H; destruct (Hl b H) as (t & Ht); by apply (Hnl t)).
  assert (Hlv : forall x t, (x, t) ∈ lives (raw a) (l1 ++ split_tiles sz tn ++ l2) <-> (x, t) ∈ lives (raw a) (l1 ++ (sz, true) :: l2) \/ (x = b /\ t = taken sz tn))
    by (intros x t; rewrite lives_take, Eb; done).
  split; [|split; [done|split]].
  - split; rewrite ?Hr, ?Hz, ?Hrf; try done.
    + eapply sll_frame; [|exact Hm]. intros x Hx. destruct (Hl x Hx) as (t & Ht). by eapply Hnx.
    + intros x Hx. destruct (Hl x Hx) as (t & Ht). exists t. apply Hlv. by left.
    + rewrite Hsz, !extent_app, split_tiles_extent. done.
  - intros x t. unfold holds. rewrite Hr, Hlv. split; [tauto|]. intros [?|[-> ->]]; [tauto|]. split; [by right|done].
  - intros t [Ht _]. by apply (Hnl t).
Qed.

(** ** The blocks outside the arena, and the counter *)

(** The blocks a thread has in hand, and what it has still to take off the counter. *)
Definition flight (p : pc) : list (Z * Z) :=
  match p with
  | AllocAdd b s | FreeOwner b s | FreePush b s | FreeCas b s _ => [(b, s)]
  | _ => []
  end.
Definition weight (p : pc) : Z :=
  match p with FreeOwner _ s | FreePush _ s | FreeCas _ s _ | FreeSub s => s | _ => 0 end.

Definition flights (ps : list pc) : list (Z * Z) := concat (map flight ps).
Fixpoint sum (l : list Z) : Z := match l with [] => 0 | x :: l => x + sum l end.
Definition weights (ps : list pc) : Z := sum (map weight ps).

Lemma sum_app l k : sum (l ++ k) = sum l + sum k.
Proof. induction l as [|x l IH]; cbn in *; lia. Qed.

Lemma sum_perm l k : l ≡ₚ k -> sum l = sum k.
Proof. induction 1; cbn in *; lia. Qed.

Lemma flights_mid l1 p l2 : flights (l1 ++ p :: l2) ≡ₚ flight p ++ (flights l1 ++ flights l2).
Proof.
  unfold flights. rewrite map_app, concat_app. cbn [map concat]. rewrite !app_assoc. apply Permutation_app_tail, Permutation_app_comm.
Qed.

Lemma weights_mid l1 p l2 : weights (l1 ++ p :: l2) = weight p + (weights l1 + weights l2).
Proof. unfold weights. rewrite map_app, sum_app. cbn. lia. Qed.

Lemma at_split (ps : list pc) t p : ps !! t = Some p -> exists l1 l2, ps = l1 ++ p :: l2 /\ forall q, <[t := q]> ps = l1 ++ q :: l2.
Proof.
  intros Ht. exists (take t ps), (drop (S t) ps). split; [by rewrite take_drop_middle|]. intros q. apply insert_take_drop. by eapply lookup_lt_Some.
Qed.

(** [H] are the blocks outside, each once. *)
Definition tracks (a : tlsf_arena) (L : list tile) (M : list Z) (H : list (Z * Z)) : Prop :=
  NoDup (map fst H) /\ forall x s, (x, s) ∈ H <-> holds a L M x s.

Lemma tracks_perm a L M H H' : H ≡ₚ H' -> tracks a L M H -> tracks a L M H'.
Proof. intros E [H1 H2]. split; [by rewrite <- E|]. intros x s. by rewrite <- E. Qed.

Lemma tracks_drop a L M b s H : tracks a L M ((b, s) :: H) -> forall x t, (x, t) ∈ H <-> holds a L M x t /\ x <> b.
Proof.
  intros [Hd Hi] x t. cbn [map fst] in Hd. apply NoDup_cons in Hd as [Hn _]. rewrite <- Hi, elem_of_cons. split; [|intros [[[= -> ->]|?] ?]; done].
  intros Hx. split; [by right|]. intros ->. apply Hn, list_elem_of_fmap. by exists (b, t).
Qed.

(** They fit in the arena. *)
Lemma tracks_sum a h L M H : shape a h L M -> tracks a L M H -> 0 <= sum (map snd H) <= size a.
Proof.
  intros Hsh [Hd Hi]. pose proof (proj1 (co_chain _ _ _ (sh_core _ _ _ _ Hsh))) as Hp. pose proof (sh_size _ _ _ _ Hsh) as Hz.
  pose proof (lives_sum _ _ _ _ _ Hp) as Hle. assert (Hpos : forall x t, (x, t) ∈ lives (raw a) L -> 0 <= t) by (intros x t; by apply (lives_nonneg _ _ _ _ _ x t Hp)).
  assert (HdH : NoDup H) by (by apply (NoDup_fmap_1 fst)).
  assert (Hsub : H ⊆+ lives (raw a) L) by (apply NoDup_submseteq; [done|]; intros [x t] Hx; by apply Hi).
  apply submseteq_Permutation in Hsub as (K & EK).
  assert (Es : sum (map snd (lives (raw a) L)) = held_bytes [] (lives (raw a) L)).
  { clear. induction (lives (raw a) L) as [|[x t] l IH]; [done|]. rewrite held_bytes_cons, decide_False by apply not_elem_of_nil. cbn in *. lia. }
  rewrite (sum_perm _ _ (Permutation_map snd EK)) in Es.
  assert (Hnn : forall l : list (Z * Z), (forall x t, (x, t) ∈ l -> 0 <= t) -> 0 <= sum (map snd l)).
  { induction l as [|[x t] l IH]; intros Hl; cbn; [done|]. specialize (Hl x t (list_elem_of_here _ _)) as Ht. 
    enough (0 <= sum (map snd l)) by lia. apply IH. intros y u Hy. apply (Hl y u). by right. }
  pose proof (Hnn H) as H1. pose proof (Hnn K) as H2. rewrite map_app, sum_app in Es.
  assert (0 <= sum (map snd H)) by (apply H1; intros x t Hx; apply (Hpos x), Hi, Hx).
  assert (0 <= sum (map snd K)) by (apply H2; intros x t Hx; apply (Hpos x t); rewrite EK, elem_of_app; by right).
  unfold SIZEOF_TLSF_BLOCK in Hz. lia.
Qed.

(** One thread at [p], the others with [F] in hand and [W] to take off. *)
Definition good (a : tlsf_arena) (h : heap) (hd : list (Z * Z)) (p : pc) (F : list (Z * Z)) (W : Z) : Prop :=
  exists L M, shape a h L M /\ tracks a L M (hd ++ flight p ++ F) /\ live_bytes a = sum (map snd hd) + weight p + W.

Definition heap_inv (w : race_world) : Prop :=
  exists L M, shape (arena w) (mem w) L M /\ tracks (arena w) L M (held w ++ flights (threads w)) /\
    live_bytes (arena w) = sum (map snd (held w)) + weights (threads w).

Lemma heap_split w l1 p l2 : threads w = l1 ++ p :: l2 ->
  heap_inv w <-> good (arena w) (mem w) (held w) p (flights l1 ++ flights l2) (weights l1 + weights l2).
Proof.
  intros E. unfold heap_inv, good. rewrite E, weights_mid. pose proof (flights_mid l1 p l2) as Hf.
  split; intros (L & M & H1 & H2 & H3); exists L, M; (split; [done|split; [|lia]]); (eapply tracks_perm; [|exact H2]); by rewrite Hf.
Qed.

Lemma good_ext a a' h hd p q F W :
  raw a' = raw a -> size a' = size a -> free_list a' = free_list a -> sentinel a' = sentinel a -> remote_free a' = remote_free a ->
  live_bytes a' = live_bytes a -> flight q = flight p -> weight q = weight p -> good a h hd p F W -> good a' h hd q F W.
Proof.
  intros E1 E2 E3 E4 E5 E6 E7 E8 (L & M & H1 & H2 & H3). exists L, M. split; [by eapply shape_ext|]. rewrite E6, E7, E8. split; [|done].
  destruct H2 as [Hd Hi]. split; [done|]. intros x s. unfold holds. rewrite E1. apply Hi.
Qed.

Lemma good_reap a h hd p q F W : flight p = [] -> weight p = 0 -> flight q = [] -> weight q = 0 -> good a h hd p F W ->
  exists a' h', tlsf_arena_reap a h = Done (a', h') /\ same_arena (set_remote a NULL) a' /\ good a' h' hd q F W.
Proof.
  intros E1 E2 E3 E4 (L & M & H1 & [Hd Hi] & H3). destruct (shape_reap _ _ _ _ H1) as (a' & h' & L' & E & Hsh & Hs & Hh).
  exists a', h'. split; [done|]. split; [done|]. exists L', []. split; [done|]. rewrite E1 in *. rewrite E3. split; [split; [done|]|].
  - intros x s. by rewrite Hi, Hh.
  - replace (live_bytes a') with (live_bytes a) by (by rewrite Hs). lia.
Qed.

Lemma good_take a h hd tn F W : size_ok tn -> good a h hd (AllocTake tn) F W ->
  exists b, first_fit_walk (walk_fuel h) h (free_list a) tn = Done b /\
    (b <> NULL -> exists a' h' s, arena_take a h b tn = Done (a', h') /\ tlsf_arena_span h' b = Done s /\ same_arena a a' /\ good a' h' hd (AllocAdd b s) F W).
Proof.
  intros Htn (L & M & H1 & [Hd Hi] & H3). destruct (shape_take _ _ _ _ _ H1 Htn) as (b & E & Hb). exists b. split; [done|]. intros Hne.
  destruct (Hb Hne) as (a' & h' & L' & s & Et & Hsp & Hsh & Hs & Hh & Hn). exists a', h', s. do 3 (split; [done|]). exists L', M. split; [done|].
  cbn [flight weight app] in *. split; [apply (tracks_perm _ _ _ ((b, s) :: hd ++ F)); [by apply Permutation_middle|]; split|].
  - cbn [map fst]. apply NoDup_cons. split; [|done]. intros ([x t] & Ex & Hx)%list_elem_of_fmap. cbn in Ex. subst x. apply (Hn t). by apply Hi.
  - intros x t. rewrite Hh, elem_of_cons, Hi. split; [intros [[= -> ->]|?]; tauto|intros [?|[-> ->]]; tauto].
  - by replace (live_bytes a') with (live_bytes a) by (by rewrite Hs).
Qed.

(** The block is the program's, and counted. *)
Lemma good_add a h hd b s F W : 0 <= W <= 2 ^ 60 -> size a <= 2 ^ 20 -> good a h hd (AllocAdd b s) F W ->
  0 < s /\ good (set_live a (u64 (live_bytes a + s))) h ((b, s) :: hd) Idle F W.
Proof.
  intros HW Hz (L & M & H1 & H2 & H3). cbn [flight weight app] in *.
  assert (Hh : holds a L M b s) by (apply H2; rewrite elem_of_app, elem_of_cons; tauto). destruct (shape_span _ _ _ _ _ _ H1 Hh) as [_ Hs].
  assert (Ht : tracks a L M ((b, s) :: hd ++ F)) by (eapply tracks_perm; [|exact H2]; symmetry; apply Permutation_middle).
  pose proof (tracks_sum _ _ _ _ _ H1 Ht) as Hle. cbn [map sum snd] in Hle. rewrite map_app, sum_app in Hle.
  assert (Hpos : forall l, (forall x t, (x, t) ∈ l -> holds a L M x t) -> 0 <= sum (map snd l)).
  { induction l as [|[x t] l IH]; intros Hl; cbn; [done|]. destruct (shape_span _ _ _ _ _ _ H1 (Hl x t (list_elem_of_here _ _))) as [_ ?].
    specialize (IH (fun y u Hy => Hl y u (list_elem_of_further _ _ _ Hy))). lia. }
  assert (0 <= sum (map snd hd)) by (apply Hpos; intros x t Hx; apply Ht; rewrite elem_of_cons, elem_of_app; tauto).
  assert (0 <= sum (map snd F)) by (apply Hpos; intros x t Hx; apply Ht; rewrite elem_of_cons, elem_of_app; tauto).
  split; [lia|]. exists L, M. split; [by apply (shape_ext a)|]. split; [done|]. cbn [set_live live_bytes map snd weight]. rewrite u64_small by lia.
  cbn [sum]. lia.
Qed.

Lemma drop_perm (b s : Z) hd : NoDup (map fst hd) -> (b, s) ∈ hd -> hd ≡ₚ (b, s) :: drop_block b hd.
Proof.
  induction hd as [|[x t] hd IH]; [intros _ Hx; by apply not_elem_of_nil in Hx|]. cbn [map fst]. intros [Hn Hd]%NoDup_cons Hx. unfold drop_block in *.
  apply elem_of_cons in Hx as [[= <- <-]|Hx].
  - rewrite filter_cons_False by (cbn; tauto). f_equiv. rewrite filter_all; [done|]. apply Forall_forall. intros [y u] Hy. cbn. intros ->. apply Hn, list_elem_of_fmap. by exists (b, u).
  - rewrite filter_cons_True; [rewrite perm_swap; f_equiv; by apply IH|]. cbn. intros ->. apply Hn, list_elem_of_fmap. by exists (b, s).
Qed.

Lemma good_call a h hd b s F W : (b, s) ∈ hd -> good a h hd Idle F W ->
  tlsf_arena_span h b = Done s /\ 0 < s <= size a /\ good a h (drop_block b hd) (FreeOwner b s) F W.
Proof.
  intros Hin (L & M & H1 & H2 & H3). cbn [flight weight app] in *.
  assert (Hp : hd ≡ₚ (b, s) :: drop_block b hd). { apply drop_perm; [|done]. destruct H2 as [Hd _]. rewrite map_app in Hd. by apply NoDup_app in Hd as [? _]. }
  assert (Hh : holds a L M b s) by (apply H2; rewrite elem_of_app; by left). destruct (shape_span _ _ _ _ _ _ H1 Hh) as [Hs Hz]. do 2 (split; [done|]).
  exists L, M. split; [done|]. cbn [flight weight]. split.
  - eapply tracks_perm; [|exact H2]. rewrite Hp at 1. cbn. by rewrite <- Permutation_middle.
  - rewrite H3, (sum_perm _ _ (Permutation_map snd Hp)). cbn [map sum snd]. lia.
Qed.

Lemma good_holds a h hd p b s F W : flight p = [(b, s)] -> good a h hd p F W -> 0 < s <= size a.
Proof.
  intros E (L & M & H1 & H2 & _). apply (shape_span _ _ _ _ b s H1). apply H2. rewrite E, !elem_of_app, elem_of_cons. tauto.
Qed.

Lemma good_insert a h hd b s F W : good a h hd (FreeOwner b s) F W ->
  exists h1 a' h', set_sf h b (Z.lor s BLOCK_STATE_FREE) = Done h1 /\ tlsf_arena_insert_free a h1 b = Done (a', h') /\ same_arena a a' /\ good a' h' hd (FreeSub s) F W.
Proof.
  intros (L & M & H1 & H2 & H3). cbn [flight weight app] in *.
  assert (H2' : tracks a L M ((b, s) :: hd ++ F)) by (eapply tracks_perm; [|exact H2]; symmetry; apply Permutation_middle).
  assert (Hh : holds a L M b s) by (apply H2'; by left). destruct (shape_insert _ _ _ _ _ _ H1 Hh) as (h1 & a' & h' & L' & E1 & E2 & Hsh & Hs & Hi).
  exists h1, a', h'. do 3 (split; [done|]). exists L', M. split; [done|]. cbn [flight weight app]. split.
  - split; [destruct H2' as [Hd _]; by apply NoDup_cons in Hd as [_ ?]|]. intros x t. by rewrite Hi, (tracks_drop _ _ _ _ _ _ H2').
  - by replace (live_bytes a') with (live_bytes a) by (by rewrite Hs).
Qed.

Lemma good_cas a h hd b s e F W : good a h hd (FreeCas b s e) F W ->
  exists k, set_nxt (flinks h) b e = Done k /\ (forall e', good a (with_links h k) hd (FreeCas b s e') F W) /\
    (remote_free a = e -> good (set_remote a b) (with_links h k) hd (FreeSub s) F W).
Proof.
  intros (L & M & H1 & H2 & H3). cbn [flight weight app] in *.
  assert (H2' : tracks a L M ((b, s) :: hd ++ F)) by (eapply tracks_perm; [|exact H2]; symmetry; apply Permutation_middle).
  assert (Hh : holds a L M b s) by (apply H2'; by left). destruct (shape_link _ _ _ _ _ _ e H1 Hh) as (k & E & S1 & S2).
  exists k. split; [done|]. split; [intros e'; by exists L, M|]. intros He. exists L, (b :: M). split; [by apply S2|]. split; [|done].
  cbn [flight app]. split; [destruct H2' as [Hd _]; by apply NoDup_cons in Hd as [_ ?]|]. intros x t. rewrite (tracks_drop _ _ _ _ _ _ H2').
  unfold holds. cbn [set_remote raw]. rewrite not_elem_of_cons. tauto.
Qed.

(** The counter is at least what is outside. *)
Lemma good_live a h hd p F W : good a h hd p F W -> size a <= 2 ^ 20 -> 0 <= weight p <= 2 ^ 20 -> 0 <= W <= 2 ^ 60 ->
  weight p + W <= live_bytes a < 2 ^ 62 /\ (forall b s, (b, s) ∈ hd -> 0 < s <= live_bytes a - weight p - W).
Proof.
  intros (L & M & H1 & H2 & H3) Hz Hp HW.
  assert (Hpos : forall l, (forall x t, (x, t) ∈ l -> holds a L M x t) -> 0 <= sum (map snd l) /\ forall x t, (x, t) ∈ l -> 0 < t <= sum (map snd l)).
  { induction l as [|[x t] l IH]; intros Hl; cbn; [split; [done|]; intros x t Hx; by apply not_elem_of_nil in Hx|].
    destruct (shape_span _ _ _ _ _ _ H1 (Hl x t (list_elem_of_here _ _))) as [_ ?].
    destruct (IH (fun y u Hy => Hl y u (list_elem_of_further _ _ _ Hy))) as [I1 I2]. split; [lia|].
    intros y u [[= -> ->]|Hy]%elem_of_cons; [lia|]. specialize (I2 y u Hy). lia. }
  destruct (Hpos hd) as [A1 A2]; [intros x t Hx; apply H2; rewrite elem_of_app; tauto|].
  destruct (Hpos (flight p ++ F)) as [B1 _]; [intros x t Hx; apply H2; rewrite elem_of_app; tauto|].
  pose proof (tracks_sum _ _ _ _ _ H1 H2) as Hle. rewrite map_app, sum_app in Hle. split; [lia|]. intros b s Hb. specialize (A2 b s Hb). lia.
Qed.

Lemma good_sub a h hd s F W : good a h hd (FreeSub s) F W -> size a <= 2 ^ 20 -> 0 <= s <= 2 ^ 20 -> 0 <= W <= 2 ^ 60 ->
  u64 (live_bytes a - s) = live_bytes a - s /\ good (set_live a (u64 (live_bytes a - s))) h hd Idle F W.
Proof.
  intros G Hz Hs HW. destruct (good_live _ _ _ _ _ _ G Hz Hs HW) as [Hl _]. cbn [weight] in Hl.
  assert (E : u64 (live_bytes a - s) = live_bytes a - s) by (apply u64_small; lia). split; [done|]. rewrite E.
  destruct G as (L & M & H1 & H2 & H3). exists L, M. split; [by apply (shape_ext a)|]. split; [done|]. cbn [set_live live_bytes weight] in *. lia.
Qed.

(** ** The flags *)

Definition cleaning (p : pc) : bool := match p with CleanReap | CleanFree | CleanTotal | CleanFinish => true | _ => false end.
Definition late (p : pc) : bool := match p with CleanFree | CleanTotal | CleanFinish => true | _ => false end.
Definition owner_at (p : pc) : bool := match p with AllocReap _ | AllocTake _ | AllocAdd _ _ => true | _ => false end.
Definition after_retire (p : pc) : bool := match p with RetireLoad | Claim => true | _ => false end.
(** With a block in hand, or one to take off the counter. *)
Definition busy (p : pc) : bool := match p with AllocAdd _ _ | FreeOwner _ _ | FreePush _ _ | FreeCas _ _ _ | FreeSub _ => true | _ => false end.
Definition pending (p : pc) : bool := match p with FreeRetired | RetireLoad | Claim => true | _ => false end.

Definition pc_ok (n : Z) (p : pc) : Prop :=
  match p with
  | AllocReap tn | AllocTake tn => size_ok tn
  | FreeOwner _ s | FreePush _ s | FreeCas _ s _ | FreeSub s => 0 < s <= n
  | _ => True
  end.

Definition cleaners (ps : list pc) : list pc := List.filter cleaning ps.

Lemma cleaners_mid l1 p l2 : cleaners (l1 ++ p :: l2) = cleaners l1 ++ (if cleaning p then [p] else []) ++ cleaners l2.
Proof. unfold cleaners. rewrite List.filter_app. cbn. by destruct (cleaning p). Qed.

Lemma cleaners_move l1 p q l2 : cleaning p = false -> cleaning q = false -> cleaners (l1 ++ q :: l2) = cleaners (l1 ++ p :: l2).
Proof. intros Hp Hq. by rewrite !cleaners_mid, Hp, Hq. Qed.

Lemma cleaners_none l1 l2 : cleaners l1 ++ cleaners l2 = [] -> forall q, cleaners (l1 ++ q :: l2) = if cleaning q then [q] else [].
Proof. intros E q. rewrite cleaners_mid. apply app_eq_nil in E as [-> ->]. by rewrite app_nil_r. Qed.

Lemma cleaners_in p ps : p ∈ ps -> cleaning p = true -> p ∈ cleaners ps.
Proof. intros H1 H2. apply list_elem_of_In, List.filter_In. split; [by apply list_elem_of_In|done]. Qed.

Section Protocol.
Context (raw0 n0 : Z) (freed0 : list (Z * Z)) (total0 : Z) (calm : bool).
Context (Hraw : raw0 <> NULL) (Hn0 : 0 < n0 <= 2 ^ 20).

(** Who cleans up, and how far. *)
Definition phase (w : race_world) : Prop :=
  let a := arena w in
  match cleaners (threads w) with
  | [] =>
      (cleanup_claimed a = false /\ finished a = false /\ raw a = raw0 /\ returned w = freed0 /\ total w = total0) \/
      (cleanup_claimed a = true /\ retired a = true /\ finished a = true /\ raw a = NULL /\ returned w = (raw0, n0) :: freed0 /\ total w = u64 (total0 - n0))
  | [p] =>
      cleanup_claimed a = true /\ retired a = true /\ finished a = false /\
      match p with
      | CleanReap | CleanFree => raw a = raw0 /\ returned w = freed0 /\ total w = total0
      | CleanTotal => raw a = raw0 /\ returned w = (raw0, n0) :: freed0 /\ total w = total0
      | _ => raw a = NULL /\ returned w = (raw0, n0) :: freed0 /\ total w = u64 (total0 - n0)
      end
  | _ => False
  end.

Record protocol (w : race_world) : Prop := {
  pr_attached : attached w = negb (retired (arena w));
  pr_owner : forall t p, threads w !! t = Some p -> owner_at p = true -> t = 0%nat /\ retired (arena w) = false;
  pr_after : forall p, p ∈ threads w -> after_retire p = true -> retired (arena w) = true;
  pr_size : size (arena w) = n0;
  pr_phase : phase w;
  pr_few : Z.of_nat (length (threads w)) <= 2 ^ 40;
}.

(** The list of the arena is as [shape] says until the thread that cleans up takes it down. *)
Definition unreaped (w : race_world) : Prop := finished (arena w) = false /\ forall p, p ∈ threads w -> late p = false.

Definition noticed (w : race_world) : Prop :=
  retired (arena w) = true -> live_bytes (arena w) = 0 -> cleanup_claimed (arena w) = true \/ exists p, p ∈ threads w /\ pending p = true.

Definition quiet (w : race_world) : Prop := held w = [] /\ forall p, p ∈ threads w -> busy p = false.

Definition settled (w : race_world) : Prop :=
  (FreeRetired ∈ threads w \/ Claim ∈ threads w -> live_bytes (arena w) = 0) /\ (cleanup_claimed (arena w) = true -> quiet w).

Record race_inv (w : race_world) : Prop := {
  ri_protocol : protocol w;
  ri_heap : unreaped w -> heap_inv w;
  ri_pcs : unreaped w -> Forall (pc_ok n0) (threads w);
  ri_noticed : noticed w;
  ri_settled : calm = true -> settled w;
}.

Lemma weights_bound ps : Forall (pc_ok n0) ps -> 0 <= weights ps <= Z.of_nat (length ps) * n0.
Proof.
  clear Hraw. unfold weights. induction 1 as [|p ps Hp _ IH]; cbn [map sum length]; [lia|]. enough (0 <= weight p <= n0) by lia. destruct p; cbn in *; lia.
Qed.

(** What the other threads have still to take off. *)
Lemma others_bound w l1 p l2 : protocol w -> Forall (pc_ok n0) (threads w) -> threads w = l1 ++ p :: l2 ->
  0 <= weights l1 + weights l2 <= 2 ^ 60 /\ 0 <= weight p <= 2 ^ 20 /\ size (arena w) <= 2 ^ 20.
Proof.
  intros P Hp E. rewrite E in Hp. apply Forall_app in Hp as [H1 [H2 H3]%Forall_cons]. pose proof (pr_few _ P) as Hl. rewrite E, length_app in Hl. cbn [length] in Hl.
  pose proof (weights_bound _ H1). pose proof (weights_bound _ H3). rewrite (pr_size _ P). split; [nia|]. split; [|lia]. destruct p; cbn in *; lia.
Qed.

(** A claimed arena is retired. *)
Lemma claimed_retired w : protocol w -> cleanup_claimed (arena w) = true -> retired (arena w) = true.
Proof.
  intros P Hc. pose proof (pr_phase _ P) as Hp. unfold phase in Hp. destruct (cleaners (threads w)) as [|p [|]]; [|by destruct Hp as (_ & ? & _)|done].
  destruct Hp as [(? & _)|(_ & ? & _)]; [congruence|done].
Qed.

Lemma unclaimed_unreaped w : protocol w -> cleanup_claimed (arena w) = false -> unreaped w.
Proof.
  intros P Hc. pose proof (pr_phase _ P) as Hp. unfold phase in Hp. destruct (cleaners (threads w)) as [|p [|]] eqn:E; [|destruct Hp as (? & _); congruence|done].
  destruct Hp as [(_ & ? & _)|(? & _)]; [|congruence]. split; [done|]. intros p Hp. destruct (late p) eqn:El; [|done]. exfalso.
  assert (Hi : p ∈ cleaners (threads w)) by (apply cleaners_in; [done|by destruct p]). rewrite E in Hi. by apply not_elem_of_nil in Hi.
Qed.

(** A thread moves, outside the cleanup, and leaves the flags. *)
Lemma protocol_move w w' t p q : protocol w -> threads w !! t = Some p -> threads w' = <[t := q]> (threads w) ->
  cleaning p = false -> cleaning q = false ->
  raw (arena w') = raw (arena w) -> size (arena w') = size (arena w) -> retired (arena w') = retired (arena w) ->
  cleanup_claimed (arena w') = cleanup_claimed (arena w) -> finished (arena w') = finished (arena w) ->
  total w' = total w -> returned w' = returned w -> attached w' = attached w ->
  (owner_at q = true -> t = 0%nat /\ retired (arena w) = false) -> (after_retire q = true -> retired (arena w) = true) ->
  protocol w' /\ (unreaped w' -> unreaped w).
Proof.
  intros P Ht E Cp Cq F1 F2 F3 F4 F5 F6 F7 F8 Ho Ha. destruct (at_split _ _ _ Ht) as (l1 & l2 & Es & Em). rewrite Em in E. split.
  - split.
    + rewrite F8, F3. apply P.
    + intros u x Hu Hx. rewrite F3. rewrite E, <- Em in Hu. destruct (decide (u = t)) as [->|Hne].
      * rewrite list_lookup_insert_eq in Hu by (by eapply lookup_lt_Some). injection Hu as <-. by apply Ho.
      * rewrite list_lookup_insert_ne in Hu by done. by apply (pr_owner _ P u x).
    + intros x Hx Hax. rewrite F3. rewrite E, elem_of_app, elem_of_cons in Hx.
      destruct Hx as [Hx|[->|Hx]]; [|by apply Ha|]; apply (pr_after _ P x); try done; rewrite Es, elem_of_app, elem_of_cons; tauto.
    + rewrite F2. apply P.
    + pose proof (pr_phase _ P) as Hp. unfold phase in *. rewrite E, (cleaners_move l1 p q l2 Cp Cq), <- Es, F1, F3, F4, F5, F6, F7. done.
    + pose proof (pr_few _ P) as Hf. rewrite E. rewrite Es in Hf. rewrite length_app in *. cbn in *. lia.
  - intros [U1 U2]. split; [congruence|]. intros x Hx. rewrite Es, elem_of_app, elem_of_cons in Hx. rewrite E in U2.
    destruct Hx as [Hx|[->|Hx]]; [|by destruct p|]; apply U2; rewrite elem_of_app, elem_of_cons; tauto.
Qed.

Lemma thread_in (w : race_world) t p : threads w !! t = Some p -> p ∈ threads w.
Proof. apply list_elem_of_lookup_2. Qed.

Lemma moved_in (w w' : race_world) t p q x : threads w !! t = Some p -> threads w' = <[t := q]> (threads w) -> x ∈ threads w' -> x = q \/ x ∈ threads w.
Proof.
  intros Ht E Hx. destruct (at_split _ _ _ Ht) as (l1 & l2 & Es & Em). rewrite E, Em, elem_of_app, elem_of_cons in Hx. rewrite Es, elem_of_app, elem_of_cons. tauto.
Qed.

Lemma stays_in (w w' : race_world) t p q x : threads w !! t = Some p -> threads w' = <[t := q]> (threads w) -> x ∈ threads w -> x <> p -> x ∈ threads w'.
Proof.
  intros Ht E Hx Hne. destruct (at_split _ _ _ Ht) as (l1 & l2 & Es & Em). rewrite E, Em, elem_of_app, elem_of_cons. rewrite Es, elem_of_app, elem_of_cons in Hx. tauto.
Qed.

Lemma now_in (w w' : race_world) t p q : threads w !! t = Some p -> threads w' = <[t := q]> (threads w) -> q ∈ threads w'.
Proof. intros Ht E. destruct (at_split _ _ _ Ht) as (l1 & l2 & Es & Em). rewrite E, Em, elem_of_app, elem_of_cons. tauto. Qed.

Lemma pcs_move (w w' : race_world) t p q : threads w !! t = Some p -> threads w' = <[t := q]> (threads w) ->
  Forall (pc_ok n0) (threads w) -> pc_ok n0 q -> Forall (pc_ok n0) (threads w').
Proof. intros _ E Hf Hq. rewrite E. by apply Forall_insert. Qed.

(** The steps that leave the counter and are not about [retired] or the claim. *)
Lemma inv_plain w w' t p q : race_inv w -> threads w !! t = Some p -> threads w' = <[t := q]> (threads w) ->
  cleaning p = false -> cleaning q = false -> pending p = false -> pending q = false ->
  raw (arena w') = raw (arena w) -> size (arena w') = size (arena w) -> retired (arena w') = retired (arena w) ->
  cleanup_claimed (arena w') = cleanup_claimed (arena w) -> finished (arena w') = finished (arena w) -> live_bytes (arena w') = live_bytes (arena w) ->
  total w' = total w -> returned w' = returned w -> attached w' = attached w ->
  (owner_at q = true -> t = 0%nat /\ retired (arena w) = false) -> (unreaped w -> pc_ok n0 q) ->
  (unreaped w -> heap_inv w -> heap_inv w') -> (quiet w -> cleanup_claimed (arena w) = true -> quiet w') ->
  race_inv w'.
Proof.
  intros [P Hh Hpc Hn Hs] Ht E Cp Cq Pp Pq F1 F2 F3 F4 F5 Fl F6 F7 F8 Ho Hk Hheap Hq.
  destruct (protocol_move w w' t p q P Ht E Cp Cq F1 F2 F3 F4 F5 F6 F7 F8 Ho) as [P' U]; [intros H; by destruct q|]. split; [done|..].
  - intros Hu. apply Hheap, Hh; by apply U.
  - intros Hu. eapply pcs_move; [exact Ht|exact E|by apply Hpc, U|by apply Hk, U].
  - unfold noticed in *. rewrite F3, Fl, F4. intros H1 H2. destruct (Hn H1 H2) as [?|(x & Hx & Hpx)]; [by left|right].
    exists x. split; [|done]. eapply stays_in; [exact Ht|exact E|done|]. intros ->. congruence.
  - intros Hc. destruct (Hs Hc) as [S1 S2]. split; rewrite ?Fl, ?F4; [|intros Hcl; apply Hq; [by apply S2|done]].
    intros Hor. apply S1. destruct Hor as [Hx|Hx]; (destruct (moved_in _ _ _ _ _ _ Ht E Hx) as [<-|?]; [done|tauto]).
Qed.

(** With the heap seen from the thread that moves. *)
Lemma heap_move w w' t p q :
  threads w !! t = Some p -> threads w' = <[t := q]> (threads w) ->
  (forall F W, good (arena w) (mem w) (held w) p F W -> (exists l1 l2, threads w = l1 ++ p :: l2 /\ W = weights l1 + weights l2) ->
     good (arena w') (mem w') (held w') q F W) ->
  heap_inv w -> heap_inv w'.
Proof.
  intros Ht E Hg H. destruct (at_split _ _ _ Ht) as (l1 & l2 & Es & Em). rewrite Em in E. apply (heap_split _ _ _ _ Es) in H. apply (heap_split _ _ _ _ E).
  apply Hg; [done|]. by exists l1, l2.
Qed.

Lemma heap_at w t p : threads w !! t = Some p -> heap_inv w -> exists F W, good (arena w) (mem w) (held w) p F W /\ exists l1 l2, threads w = l1 ++ p :: l2 /\ W = weights l1 + weights l2.
Proof.
  intros Ht H. destruct (at_split _ _ _ Ht) as (l1 & l2 & Es & Em). apply (heap_split _ _ _ _ Es) in H. eexists _, _. split; [exact H|]. by exists l1, l2.
Qed.

(** A thread with a block in hand is not there once it is quiet. *)
Lemma quiet_not w t p : quiet w -> threads w !! t = Some p -> busy p = true -> False.
Proof. intros [_ Hq] Ht Hp. specialize (Hq p (thread_in _ _ _ Ht)). congruence. Qed.

Lemma quiet_move w w' t p q : quiet w -> threads w !! t = Some p -> threads w' = <[t := q]> (threads w) -> held w' = held w -> busy q = false -> quiet w'.
Proof.
  intros [Q1 Q2] Ht E Hh Hf. split; [by rewrite Hh|]. intros x Hx. destruct (moved_in _ _ _ _ _ _ Ht E Hx) as [->|?]; [done|by apply Q2].
Qed.

(** The pool's thread at one of the owner's places. *)
Lemma owner_unclaimed w t p : protocol w -> threads w !! t = Some p -> owner_at p = true -> retired (arena w) = false /\ cleanup_claimed (arena w) = false.
Proof.
  intros P Ht Ho. destruct (pr_owner _ P t p Ht Ho) as [_ Hr]. split; [done|]. destruct (cleanup_claimed _) eqn:E; [|done]. apply claimed_retired in E; [congruence|done].
Qed.

Lemma same_arena_fields a a' : same_arena a a' -> raw a' = raw a /\ size a' = size a /\ retired a' = retired a /\ cleanup_claimed a' = cleanup_claimed a /\
  finished a' = finished a /\ live_bytes a' = live_bytes a.
Proof. intros ->. done. Qed.

(** Retirement: nothing is claimed yet, and the owner is not allocating. *)
Lemma retire_inv w t : race_inv w -> threads w !! t = Some Idle -> (t =? 0)%nat && attached w = true -> race_inv (retire_begin w t).
Proof.
  intros [P Hh Hpc Hn Hs] Ht [E0%Nat.eqb_eq Ea]%andb_true_iff. subst t. rewrite (pr_attached _ P) in Ea. apply negb_true_iff in Ea.
  assert (Hcl : cleanup_claimed (arena w) = false) by (destruct (cleanup_claimed _) eqn:E; [apply claimed_retired in E; [congruence|done]|done]).
  set (w' := retire_begin w 0). assert (E : threads w' = <[0%nat := RetireLoad]> (threads w)) by done.
  assert (U : unreaped w) by (by apply unclaimed_unreaped). destruct (at_split _ _ _ Ht) as (l1 & l2 & Es & Em). split.
  - split; cbn [w' retire_begin arena attached].
    + done.
    + intros u x Hu Hx. exfalso. rewrite E in Hu. destruct (decide (u = 0%nat)) as [->|Hne].
      * rewrite list_lookup_insert_eq in Hu by (by eapply lookup_lt_Some). by injection Hu as <-.
      * rewrite list_lookup_insert_ne in Hu by done. by destruct (pr_owner _ P u x Hu Hx).
    + done.
    + apply P.
    + pose proof (pr_phase _ P) as Hp. unfold phase in *. rewrite E, Em, (cleaners_move l1 Idle RetireLoad l2 eq_refl eq_refl), <- Es. cbn.
      destruct (cleaners (threads w)) as [|p [|]]; [|destruct Hp; congruence|done]. destruct Hp as [?|[? _]]; [by left|congruence].
    + rewrite E, length_insert. apply P.
  - intros _. eapply (heap_move w w'); [exact Ht|exact E| |by apply Hh]. intros F W G _. revert G. by apply good_ext.
  - intros _. eapply pcs_move; [exact Ht|exact E|by apply Hpc|done].
  - intros _ _. right. exists RetireLoad. split; [by eapply now_in|done].
  - intros Hc. destruct (Hs Hc) as [S1 _]. split; cbn [w' retire_begin arena live_bytes set_retired cleanup_claimed]; [|congruence].
    intros [Hx|Hx]; (destruct (moved_in _ _ _ _ _ _ Ht E Hx) as [?|?]; [done|]); apply S1; tauto.
Qed.

(** *** Calls *)

Lemma call_inv w t c : race_inv w -> threads w !! t = Some Idle -> may_call w c ->
  (unreaped w \/ calm = true -> exists w', begin_call w t c = Done w') /\ forall w', begin_call w t c = Done w' -> race_inv w'.
Proof.
  intros I Ht Hc. pose proof (ri_protocol _ I) as P. destruct c as [tn|b|]; cbn [begin_call may_call] in *.
  - destruct ((t =? 0)%nat && attached w) eqn:Eo; [|split; [eauto|by intros w' [= <-]]]. split; [eauto|]. intros w' [= <-].
    apply andb_true_iff in Eo as [E0%Nat.eqb_eq Ea]. rewrite (pr_attached _ P) in Ea. apply negb_true_iff in Ea.
    eapply (inv_plain w _ t Idle); [exact I|done|reflexivity|..]; try done; try (by case_match); cbn [moves goes].
    + intros _ H. eapply heap_move; [exact Ht|reflexivity| |exact H]. intros F W G _. revert G. apply good_ext; try done; by case_match.
    + intros Hq Hcl. apply claimed_retired in Hcl; [congruence|done].
  - destruct Hc as [s Hb].
    assert (Hrun : unreaped w -> exists F W, tlsf_arena_span (mem w) b = Done s /\ 0 < s <= size (arena w) /\ good (arena w) (mem w) (drop_block b (held w)) (FreeOwner b s) F W).
    { intros U. destruct (heap_at w t Idle Ht (ri_heap _ I U)) as (F & W & G & _). exists F, W. by apply good_call. }
    assert (Hu : unreaped w \/ calm = true -> unreaped w).
    { intros [?|Hcalm]; [done|]. destruct (cleanup_claimed (arena w)) eqn:Ec; [|by apply unclaimed_unreaped]. destruct (ri_settled _ I Hcalm) as [_ S2].
      destruct (S2 Ec) as [Hn _]. rewrite Hn in Hb. by apply not_elem_of_nil in Hb. }
    unfold free_begin. split; [intros H; destruct (Hrun (Hu H)) as (F & W & -> & _); cbn [mbind outcome_bind]; eauto|].
    intros w' E. inv_out. subst w'. eapply (inv_plain w _ t Idle); [exact I|done|reflexivity|..]; try done; cbn [arena mem held threads].
    + intros U. destruct (Hrun U) as (F & W & Hsp & Hs & _). assert (x = s) as -> by congruence. cbn. by rewrite <- (pr_size _ P).
    + intros U H. eapply heap_move; [exact Ht|reflexivity| |exact H]. intros F W G _. cbn [arena mem held].
      destruct (good_call _ _ _ _ _ _ _ Hb G) as (Hsp & _ & G'). by assert (x = s) as -> by congruence.
    + intros [Q _] _. rewrite Q in Hb. by apply not_elem_of_nil in Hb.
  - destruct ((t =? 0)%nat && attached w) eqn:Eo; [|split; [eauto|by intros w' [= <-]]]. split; [eauto|]. intros w' [= <-].
    by eapply retire_inv.
Qed.

(** *** Steps of a call *)

Definition step_ok (w : race_world) (t : nat) (p : pc) : Prop :=
  (unreaped w \/ calm = true -> exists w', run_at w t p = Done w') /\ forall w', run_at w t p = Done w' -> race_inv w'.

Lemma step_done w t p w' : run_at w t p = Done w' -> race_inv w' -> step_ok w t p.
Proof. intros E I. split; [by exists w'|]. intros w2 E2. congruence. Qed.

Lemma owner_step w t p : race_inv w -> threads w !! t = Some p -> owner_at p = true ->
  unreaped w /\ t = 0%nat /\ retired (arena w) = false /\ cleanup_claimed (arena w) = false /\
  exists F W, good (arena w) (mem w) (held w) p F W /\ 0 <= W <= 2 ^ 60 /\ size (arena w) <= 2 ^ 20 /\ pc_ok n0 p.
Proof.
  intros I Ht Ho. pose proof (ri_protocol _ I) as P. destruct (owner_unclaimed w t p P Ht Ho) as [Hr Hc].
  assert (U : unreaped w) by (by apply unclaimed_unreaped). split; [done|]. split; [by apply (pr_owner _ P t p)|]. do 2 (split; [done|]).
  destruct (heap_at w t p Ht (ri_heap _ I U)) as (F & W & G & l1 & l2 & Es & EW). exists F, W. split; [done|].
  destruct (others_bound _ _ _ _ P (ri_pcs _ I U) Es) as (? & _ & ?). split; [lia|]. split; [done|].
  pose proof (ri_pcs _ I U) as Hf. rewrite Forall_lookup in Hf. by eapply Hf.
Qed.

Lemma alloc_reap_inv w t tn : race_inv w -> threads w !! t = Some (AllocReap tn) -> step_ok w t (AllocReap tn).
Proof.
  intros I Ht. destruct (owner_step w t _ I Ht eq_refl) as (U & E0 & Hr & Hc & F & W & G & _ & _ & Hk).
  destruct (good_reap _ _ _ (AllocReap tn) (AllocTake tn) _ _ eq_refl eq_refl eq_refl eq_refl G) as (a' & h' & E & Hs & _).
  eapply step_done; [cbn [run_at]; unfold alloc_reap; rewrite E; reflexivity|]. apply same_arena_fields in Hs as (F1 & F2 & F3 & F4 & F5 & F6).
  eapply (inv_plain w _ t _ (AllocTake tn)); [exact I|exact Ht|reflexivity|..]; try done.
  - intros _ H. eapply heap_move; [exact Ht|reflexivity| |exact H]. intros F' W' G' _.
    destruct (good_reap _ _ _ (AllocReap tn) (AllocTake tn) _ _ eq_refl eq_refl eq_refl eq_refl G') as (a2 & h2 & E2 & _ & G2). rewrite E in E2. by injection E2 as <- <-.
  - congruence.
Qed.

Lemma alloc_take_inv w t tn : race_inv w -> threads w !! t = Some (AllocTake tn) -> step_ok w t (AllocTake tn).
Proof.
  intros I Ht. destruct (owner_step w t _ I Ht eq_refl) as (U & E0 & Hr & Hc & F & W & G & _ & _ & Hk). cbn [pc_ok] in Hk.
  destruct (good_take _ _ _ _ _ _ Hk G) as (b & E & Hb). destruct (decide (b = NULL)) as [->|Hne].
  - eapply step_done; [cbn [run_at]; unfold alloc_take; rewrite E; reflexivity|].
    eapply (inv_plain w _ t _ Idle); [exact I|exact Ht|reflexivity|..]; try done.
    + intros _ H. eapply heap_move; [exact Ht|reflexivity| |exact H]. intros F' W' G' _. revert G'. by apply good_ext.
    + congruence.
  - destruct (Hb Hne) as (a' & h' & s & Et & Esp & Hs & _). apply same_arena_fields in Hs as (F1 & F2 & F3 & F4 & F5 & F6).
    eapply step_done; [cbn [run_at]; unfold alloc_take; rewrite E; cbn [mbind outcome_bind]; rewrite (proj2 (Z.eqb_neq b NULL) Hne), Et; cbn [mbind outcome_bind]; rewrite Esp; reflexivity|].
    eapply (inv_plain w _ t _ (AllocAdd b s)); [exact I|exact Ht|reflexivity|..]; try done.
    + intros _ H. eapply heap_move; [exact Ht|reflexivity| |exact H]. intros F' W' G' _.
      destruct (good_take _ _ _ _ _ _ Hk G') as (b2 & E2 & Hb2). assert (b2 = b) as -> by congruence.
      destruct (Hb2 Hne) as (a2 & h2 & s2 & Et2 & Esp2 & _ & G2). rewrite Et in Et2. injection Et2 as <- <-. assert (s2 = s) as -> by congruence. done.
    + congruence.
Qed.

(** The counter goes up: it was not retired, and no one waits for a look at [retired]. *)
Lemma alloc_add_inv w t b s : race_inv w -> threads w !! t = Some (AllocAdd b s) -> (calm = true -> undisturbed w t) -> step_ok w t (AllocAdd b s).
Proof.
  intros I Ht Hu. destruct (owner_step w t _ I Ht eq_refl) as (U & E0 & Hr & Hc & _). eapply step_done; [reflexivity|].
  set (w' := alloc_add w t b s). assert (E : threads w' = <[t := Idle]> (threads w)) by done. destruct I as [P Hh Hpc Hn Hs].
  destruct (protocol_move w w' t _ Idle P Ht E) as [P' U']; try done. split; [done|..].
  - intros _. eapply (heap_move w w'); [exact Ht|exact E| |by apply Hh]. intros F W G (l1 & l2 & Es & EW).
    destruct (others_bound _ _ _ _ P (Hpc U) Es) as (? & _ & ?). apply good_add; [lia|done|done].
  - intros _. eapply pcs_move; [exact Ht|exact E|by apply Hpc|done].
  - intros Hr'. cbn in Hr'. congruence.
  - intros Hcalm. split; [|cbn; congruence]. intros [Hx|Hx]; exfalso.
    + apply (Hu Hcalm b s Ht). by destruct (moved_in _ _ _ _ _ _ Ht E Hx) as [?|?].
    + destruct (moved_in _ _ _ _ _ _ Ht E Hx) as [?|Hx']; [done|]. pose proof (pr_after _ P Claim Hx' eq_refl). congruence.
Qed.

Lemma free_owner_inv w t b s : race_inv w -> threads w !! t = Some (FreeOwner b s) -> step_ok w t (FreeOwner b s).
Proof.
  intros I Ht. pose proof (ri_protocol _ I) as P. cbn [run_at]. unfold step_ok. cbn [run_at]. unfold free_owner.
  assert (Hpc : unreaped w -> 0 < s <= n0) by (intros U; pose proof (ri_pcs _ I U) as Hf; rewrite Forall_lookup in Hf; by apply (Hf _ _ Ht)).
  destruct ((t =? 0)%nat && attached w && negb (retired (arena w))) eqn:Eo.
  - apply andb_true_iff in Eo as [_ Hr%negb_true_iff].
    assert (Hc : cleanup_claimed (arena w) = false) by (destruct (cleanup_claimed _) eqn:E; [apply claimed_retired in E; [congruence|done]|done]).
    assert (U : unreaped w) by (by apply unclaimed_unreaped). destruct (heap_at w t _ Ht (ri_heap _ I U)) as (F & W & G & _).
    destruct (good_insert _ _ _ _ _ _ _ G) as (h1 & a' & h' & E1 & E2 & Hs & _). rewrite E1. cbn [mbind outcome_bind]. rewrite E2. cbn [mbind outcome_bind].
    apply same_arena_fields in Hs as (F1 & F2 & F3 & F4 & F5 & F6). split; [eauto|]. intros w' [= <-].
    eapply (inv_plain w _ t _ (FreeSub s)); [exact I|exact Ht|reflexivity|..]; try done.
    + intros _ H. eapply heap_move; [exact Ht|reflexivity| |exact H]. intros F' W' G' _.
      destruct (good_insert _ _ _ _ _ _ _ G') as (h2 & a2 & h3 & E3 & E4 & _ & G2). assert (h2 = h1) as -> by congruence. rewrite E2 in E4. by injection E4 as <- <-.
    + congruence.
  - split; [eauto|]. intros w' [= <-]. eapply (inv_plain w _ t _ (FreePush b s)); [exact I|exact Ht|reflexivity|..]; try done.
    + intros _ H. eapply heap_move; [exact Ht|reflexivity| |exact H]. intros F' W' G' _. revert G'. by apply good_ext.
    + intros Hq _. by destruct (quiet_not _ _ _ Hq Ht).
Qed.

Lemma free_push_inv w t b s : race_inv w -> threads w !! t = Some (FreePush b s) -> step_ok w t (FreePush b s).
Proof.
  intros I Ht. eapply step_done; [reflexivity|]. eapply (inv_plain w _ t _ (FreeCas b s (remote_free (arena w)))); [exact I|exact Ht|reflexivity|..]; try done.
  - intros U. pose proof (ri_pcs _ I U) as Hf. rewrite Forall_lookup in Hf. by apply (Hf _ _ Ht).
  - intros _ H. eapply heap_move; [exact Ht|reflexivity| |exact H]. intros F' W' G' _. revert G'. by apply good_ext.
  - intros Hq _. by destruct (quiet_not _ _ _ Hq Ht).
Qed.

(** While the arena is still there, and in a calm run, a thread with a block in hand finds
    its memory. *)
Lemma in_hand_unreaped w t p : race_inv w -> threads w !! t = Some p -> busy p = true -> unreaped w \/ calm = true -> unreaped w.
Proof.
  intros I Ht Hf [?|Hc]; [done|]. destruct (cleanup_claimed (arena w)) eqn:E; [|by apply unclaimed_unreaped; [apply I|]].
  exfalso. destruct (ri_settled _ I Hc) as [_ S2]. by eapply quiet_not; [apply S2|exact Ht|].
Qed.

Lemma free_cas_inv w t b s e : race_inv w -> threads w !! t = Some (FreeCas b s e) -> step_ok w t (FreeCas b s e).
Proof.
  intros I Ht. unfold step_ok. cbn [run_at]. unfold free_cas.
  assert (Hpc : unreaped w -> 0 < s <= n0) by (intros U; pose proof (ri_pcs _ I U) as Hf; rewrite Forall_lookup in Hf; by apply (Hf _ _ Ht)).
  assert (Hnot : quiet w -> False) by (intros Hq; by eapply quiet_not). split.
  - intros Hu. assert (U : unreaped w) by (eapply in_hand_unreaped; [exact I|exact Ht|done|done]).
    destruct (heap_at w t _ Ht (ri_heap _ I U)) as (F & W & G & _). destruct (good_cas _ _ _ _ _ _ _ _ G) as (k & -> & _). cbn [mbind outcome_bind]. destruct (_ =? e); eauto.
  - intros w' E. destruct (set_nxt (flinks (mem w)) b e) as [k| |] eqn:Ek; [|done..]. cbn [mbind outcome_bind] in E.
    destruct (Z.eqb_spec (remote_free (arena w)) e) as [He|He]; injection E as <-.
    + eapply (inv_plain w _ t _ (FreeSub s)); [exact I|exact Ht|reflexivity|..]; try done.
      intros _ H. eapply heap_move; [exact Ht|reflexivity| |exact H]. intros F W G _. destruct (good_cas _ _ _ _ _ _ _ _ G) as (k2 & E2 & _ & G2).
      assert (k2 = k) as -> by congruence. by apply G2.
    + eapply (inv_plain w _ t _ (FreeCas b s (remote_free (arena w)))); [exact I|exact Ht|reflexivity|..]; try done.
      intros _ H. eapply heap_move; [exact Ht|reflexivity| |exact H]. intros F W G _. destruct (good_cas _ _ _ _ _ _ _ _ G) as (k2 & E2 & G2 & _).
      assert (k2 = k) as -> by congruence. by apply G2.
Qed.

(** The counter goes down, and at zero this thread will look at [retired]. *)
Lemma free_sub_inv w t s : race_inv w -> threads w !! t = Some (FreeSub s) -> step_ok w t (FreeSub s).
Proof.
  intros I Ht. eapply step_done; [reflexivity|]. destruct I as [P Hh Hpc Hn Hs]. set (q := if live_bytes (arena w) =? s then FreeRetired else Idle).
  set (w' := free_sub w t s). assert (E : threads w' = <[t := q]> (threads w)) by done.
  assert (Hq : cleaning q = false /\ owner_at q = false /\ after_retire q = false /\ pc_ok n0 q /\ flight q = [] /\ weight q = 0) by (unfold q; by destruct (_ =? s)).
  destruct Hq as (Q1 & Q2 & Q3 & Q4 & Q5 & Q6).
  destruct (protocol_move w w' t _ q P Ht E) as [P' U']; try done; [by rewrite Q2|by rewrite Q3|].
  assert (Hg : unreaped w -> 0 < s <= live_bytes (arena w) /\ u64 (live_bytes (arena w) - s) = live_bytes (arena w) - s).
  { intros U. destruct (heap_at w t _ Ht (Hh U)) as (F & W & G & l1 & l2 & Es & EW). destruct (others_bound _ _ _ _ P (Hpc U) Es) as (? & Hw & ?).
    pose proof (Hpc U) as Hf. rewrite Forall_lookup in Hf. specialize (Hf _ _ Ht). cbn [pc_ok weight] in *.
    destruct (good_live _ _ _ _ _ _ G ltac:(done) ltac:(cbn; lia) ltac:(lia)) as [Hl _]. cbn [weight] in Hl. split; [lia|]. apply u64_small. lia. }
  split; [done|..].
  - intros Hu. eapply (heap_move w w'); [exact Ht|exact E| |by apply Hh, U']. intros F W G (l1 & l2 & Es & EW).
    destruct (others_bound _ _ _ _ P (Hpc (U' Hu)) Es) as (? & ? & ?). destruct (good_sub _ _ _ _ _ _ G ltac:(done) ltac:(done) ltac:(lia)) as [_ G'].
    revert G'. by apply good_ext.
  - intros Hu. eapply pcs_move; [exact Ht|exact E|by apply Hpc, U'|done].
  - intros Hr Hl. cbn [w' free_sub goes arena set_live live_bytes retired cleanup_claimed] in *. destruct (cleanup_claimed (arena w)) eqn:Hc; [by left|right].
    destruct (Hg (unclaimed_unreaped _ P Hc)) as [H1 H2]. rewrite H2 in Hl. exists FreeRetired. split; [|done].
    assert (Eq : q = FreeRetired) by (unfold q; by rewrite (proj2 (Z.eqb_eq _ _)) by lia). rewrite <- Eq. by eapply now_in.
  - intros Hcalm. destruct (Hs Hcalm) as [S1 S2]. destruct (cleanup_claimed (arena w)) eqn:Hc; [by destruct (quiet_not _ _ _ (S2 eq_refl) Ht)|].
    destruct (Hg (unclaimed_unreaped _ P Hc)) as [H1 H2]. split; cbn [w' free_sub goes arena set_live live_bytes cleanup_claimed]; [|congruence]. rewrite H2. intros Hx.
    assert (Hor : q = FreeRetired \/ FreeRetired ∈ threads w \/ Claim ∈ threads w).
    { destruct Hx as [Hx|Hx]; destruct (moved_in _ _ _ _ _ _ Ht E Hx) as [Eq|?]; auto. exfalso. rewrite <- Eq in Q3. done. }
    destruct Hor as [Eq|Hor]; [|specialize (S1 Hor); lia]. unfold q in Eq. destruct (Z.eqb_spec (live_bytes (arena w)) s); [lia|done].
Qed.

(** The looks at [retired] and at the counter. *)
Lemma look_inv w t p q : race_inv w -> threads w !! t = Some p -> pending p = true -> q = Idle \/ (q = Claim /\ retired (arena w) = true) ->
  (q = Idle -> cleanup_claimed (arena w) = true \/ ~ (retired (arena w) = true /\ live_bytes (arena w) = 0)) ->
  (calm = true -> q = Claim -> live_bytes (arena w) = 0) -> race_inv (moves w t q).
Proof.
  intros [P Hh Hpc Hn Hs] Ht Hp Hq Hidle Hz. set (w' := moves w t q). assert (E : threads w' = <[t := q]> (threads w)) by done.
  assert (Hf : cleaning p = false /\ flight p = [] /\ weight p = 0) by (by destruct p). destruct Hf as (Cp & Fp & Wp).
  assert (Hq' : cleaning q = false /\ owner_at q = false /\ pc_ok n0 q /\ flight q = [] /\ weight q = 0 /\ busy q = false) by (by destruct Hq as [->|[-> _]]).
  destruct Hq' as (Cq & Oq & Kq & Fq & Wq & Bq).
  destruct (protocol_move w w' t p q P Ht E) as [P' U']; try done; [by rewrite Oq|by destruct Hq as [->|[-> ?]]|]. split; [done|..].
  - intros Hu. eapply (heap_move w w'); [exact Ht|exact E| |by apply Hh, U']. intros F W G _. revert G. apply good_ext; (done || congruence).
  - intros Hu. eapply pcs_move; [exact Ht|exact E|by apply Hpc, U'|done].
  - intros Hr Hl. cbn [w' moves goes arena] in *. destruct Hq as [Eq|[Eq _]]; [destruct (Hidle Eq); tauto|]. right. exists q. split; [by eapply now_in|by rewrite Eq].
  - intros Hcalm. destruct (Hs Hcalm) as [S1 S2]. split; cbn [w' moves goes arena].
    + intros Hx. assert (Hor : q = Claim \/ FreeRetired ∈ threads w \/ Claim ∈ threads w).
      { destruct Hx as [Hx|Hx]; destruct (moved_in _ _ _ _ _ _ Ht E Hx) as [Eq|?]; auto. destruct Hq as [->|[-> _]]; [done|by left]. }
      destruct Hor as [Eq|Hor]; [by apply Hz|by apply S1].
    + intros Hc. eapply quiet_move; [by apply S2|exact Ht|exact E|done|done].
Qed.

Lemma free_retired_inv w t : race_inv w -> threads w !! t = Some FreeRetired -> step_ok w t FreeRetired.
Proof.
  intros I Ht. eapply step_done; [reflexivity|]. unfold free_retired. eapply look_inv; [exact I|exact Ht|done|..]; destruct (retired (arena w)) eqn:Er; auto.
  - done.
  - intros _. right. by intros [? _].
  - intros Hcalm _. destruct (ri_settled _ I Hcalm) as [S1 _]. apply S1. left. by eapply thread_in.
  - done.
Qed.

Lemma retire_load_inv w t : race_inv w -> threads w !! t = Some RetireLoad -> step_ok w t RetireLoad.
Proof.
  intros I Ht. eapply step_done; [reflexivity|]. pose proof (pr_after _ (ri_protocol _ I) _ (thread_in _ _ _ Ht) eq_refl) as Hr.
  unfold retire_load. eapply look_inv; [exact I|exact Ht|done|..]; destruct (Z.eqb_spec (live_bytes (arena w)) 0); auto; try done. intros _. right. by intros [_ ?].
Qed.

(** With the counter at zero and the arena retired nothing is outside. *)
Lemma zero_quiet w q : race_inv w -> q ∈ threads w -> cleanup_claimed (arena w) = false -> retired (arena w) = true -> live_bytes (arena w) = 0 -> quiet w.
Proof.
  intros [P Hh Hpc Hn Hs] Hq Hc Hr Hz. pose proof (unclaimed_unreaped _ P Hc) as U.
  assert (Hall : forall p, p ∈ threads w -> 0 <= weight p <= 0 /\ forall b s, (b, s) ∉ held w).
  { intros p (t & Ht)%list_elem_of_lookup_1. destruct (heap_at w t p Ht (Hh U)) as (F & W & G & l1 & l2 & Es & EW).
    destruct (others_bound _ _ _ _ P (Hpc U) Es) as (H1 & H2 & H3). destruct (good_live _ _ _ _ _ _ G H3 H2 ltac:(lia)) as [H4 H5].
    split; [lia|]. intros b s Hb. specialize (H5 b s Hb). lia. }
  assert (Hp : forall p, p ∈ threads w -> busy p = false).
  { intros p Hp. destruct (Hall p Hp) as [Hw _]. pose proof (Hpc U) as Hf. rewrite Forall_forall in Hf. specialize (Hf p Hp).
    destruct p; try done; cbn [pc_ok weight] in *; try lia. apply list_elem_of_lookup_1 in Hp as (t & Ht). destruct (pr_owner _ P t _ Ht eq_refl). congruence. }
  split; [|done]. destruct (held w) as [|[b s] hd] eqn:Ehd; [done|]. destruct (Hall q Hq) as [_ Hn']. exfalso. apply (Hn' b s). by left.
Qed.

Lemma claim_inv w t : race_inv w -> threads w !! t = Some Claim -> step_ok w t Claim.
Proof.
  intros I Ht. eapply step_done; [reflexivity|]. pose proof (ri_protocol _ I) as P. pose proof (thread_in _ _ _ Ht) as Hin. pose proof (pr_after _ P _ Hin eq_refl) as Hr.
  unfold claim. destruct (cleanup_claimed (arena w)) eqn:Hc; [eapply look_inv; [exact I|exact Ht|done|by left|by left|done]|].
  pose proof I as [_ Hh Hpc Hn Hs]. set (w' := goes w t CleanReap _ _). assert (E : threads w' = <[t := CleanReap]> (threads w)) by done.
  pose proof (unclaimed_unreaped _ P Hc) as U. destruct (at_split _ _ _ Ht) as (l1 & l2 & Es & Em).
  pose proof (pr_phase _ P) as Hp. unfold phase in Hp. destruct (cleaners (threads w)) as [|x [|]] eqn:Ecl; [|destruct Hp; congruence|done].
  destruct Hp as [(_ & Hf & Hraw' & Hret & Htot)|[? _]]; [|congruence].
  assert (Ecl' : cleaners (threads w') = [CleanReap]).
  { rewrite E, Em. rewrite Es, cleaners_mid in Ecl. cbn [cleaning app] in Ecl. by apply cleaners_none. }
  split.
  - split; cbn [w' goes arena attached set_claimed retired size]; try apply P.
    + intros u x Hu Hx. rewrite E in Hu. destruct (decide (u = t)) as [->|Hne].
      * rewrite list_lookup_insert_eq in Hu by (by eapply lookup_lt_Some). by injection Hu as <-.
      * rewrite list_lookup_insert_ne in Hu by done. by apply (pr_owner _ P u x).
    + done.
    + unfold phase. rewrite Ecl'. done.
    + cbn. rewrite length_insert. apply P.
  - intros _. eapply (heap_move w w'); [exact Ht|exact E| |by apply Hh]. intros F W G _. revert G. by apply good_ext.
  - intros _. eapply pcs_move; [exact Ht|exact E|by apply Hpc|done].
  - intros _ _. by left.
  - intros Hcalm. destruct (Hs Hcalm) as [S1 _]. assert (Hz : live_bytes (arena w) = 0) by (apply S1; by right). split; [done|]. intros _.
    eapply quiet_move; [by eapply zero_quiet|exact Ht|exact E|done|done].
Qed.

(** *** Cleanup *)

Lemma the_cleaner w t p : protocol w -> threads w !! t = Some p -> cleaning p = true ->
  cleaners (threads w) = [p] /\ forall q, cleaners (<[t := q]> (threads w)) = if cleaning q then [q] else [].
Proof.
  intros P Ht Hp. destruct (at_split _ _ _ Ht) as (l1 & l2 & Es & Em). pose proof (pr_phase _ P) as Hph. unfold phase in Hph.
  rewrite Es, cleaners_mid, Hp in Hph. destruct (cleaners l1) as [|x k] eqn:E1; cbn [app] in *.
  - destruct (cleaners l2) as [|y k] eqn:E2; [|done]. split; [by rewrite Es, cleaners_mid, Hp, E1, E2|]. intros q. rewrite Em. apply cleaners_none. by rewrite E1, E2.
  - exfalso. by destruct k.
Qed.

(** The thread that cleans up goes on; the region may go, the flags of the protocol stay. *)
Lemma clean_step w w' t p q : race_inv w -> threads w !! t = Some p -> threads w' = <[t := q]> (threads w) ->
  cleaning p = true -> (q = Idle \/ cleaning q = true) ->
  size (arena w') = size (arena w) -> retired (arena w') = retired (arena w) -> cleanup_claimed (arena w') = cleanup_claimed (arena w) ->
  live_bytes (arena w') = live_bytes (arena w) -> attached w' = attached w -> held w' = held w ->
  (q = Idle -> finished (arena w') = true) -> late q || negb (cleaning q) = true -> phase w' -> race_inv w'.
Proof.
  intros [P Hh Hpc Hn Hs] Ht E Cp Hq F1 F2 F3 F4 F5 F6 Hfin Hl Hph. destruct (the_cleaner w t p P Ht Cp) as [Ecl Em].
  pose proof (pr_phase _ P) as Hph0. unfold phase in Hph0. rewrite Ecl in Hph0. destruct Hph0 as (Hc & Hr & _).
  assert (Hb : owner_at q = false /\ after_retire q = false /\ busy q = false /\ q <> FreeRetired) by (destruct Hq as [->|Hq]; [done|by destruct q]).
  destruct Hb as (Oq & Aq & Bq & Nq).
  assert (U : unreaped w' -> False).
  { intros [U1 U2]. destruct Hq as [Eq|Hq]; [rewrite Hfin in U1 by done; done|]. rewrite Hq, orb_false_r in Hl. specialize (U2 q). rewrite U2 in Hl; [done|by eapply now_in]. }
  split.
  - split; rewrite ?F1, ?F2, ?F5; try apply P; [| |done|rewrite E, length_insert; apply P].
    + intros u x Hu Hx. rewrite E in Hu. destruct (decide (u = t)) as [->|Hne].
      * rewrite list_lookup_insert_eq in Hu by (by eapply lookup_lt_Some). injection Hu as <-. congruence.
      * rewrite list_lookup_insert_ne in Hu by done. by apply (pr_owner _ P u x).
    + done.
  - by intros ?%U.
  - by intros ?%U.
  - intros _ _. left. congruence.
  - intros Hcalm. destruct (Hs Hcalm) as [S1 S2]. split; rewrite ?F4, ?F3.
    + intros Hx. apply S1. destruct Hx as [Hx|Hx]; destruct (moved_in _ _ _ _ _ _ Ht E Hx) as [Eq|?]; auto; by rewrite <- Eq in *.
    + intros _. eapply quiet_move; [by apply S2|exact Ht|exact E|done|done].
Qed.

(** What [phase] says to the thread that cleans up. *)
Lemma cleaner_phase w t p : protocol w -> threads w !! t = Some p -> cleaning p = true ->
  cleanup_claimed (arena w) = true /\ retired (arena w) = true /\ finished (arena w) = false /\
  match p with
  | CleanReap | CleanFree => raw (arena w) = raw0 /\ returned w = freed0 /\ total w = total0
  | CleanTotal => raw (arena w) = raw0 /\ returned w = (raw0, n0) :: freed0 /\ total w = total0
  | _ => raw (arena w) = NULL /\ returned w = (raw0, n0) :: freed0 /\ total w = u64 (total0 - n0)
  end.
Proof. intros P Ht Hp. destruct (the_cleaner w t p P Ht Hp) as [E _]. pose proof (pr_phase _ P) as H. unfold phase in H. by rewrite E in H. Qed.

Lemma clean_reap_inv w t : race_inv w -> threads w !! t = Some CleanReap -> step_ok w t CleanReap.
Proof.
  intros I Ht. pose proof (ri_protocol _ I) as P. destruct (the_cleaner w t _ P Ht eq_refl) as [Ecl Em]. destruct (cleaner_phase w t _ P Ht eq_refl) as (Hc & Hr & Hf & E1 & E2 & E3).
  assert (U : unreaped w).
  { split; [done|]. intros x Hx. destruct (late x) eqn:El; [|done]. assert (Hi : x ∈ cleaners (threads w)) by (apply cleaners_in; [done|by destruct x]).
    rewrite Ecl in Hi. apply list_elem_of_singleton in Hi. by subst x. }
  destruct (heap_at w t _ Ht (ri_heap _ I U)) as (F & W & G & _).
  destruct (good_reap _ _ _ CleanReap CleanFree _ _ eq_refl eq_refl eq_refl eq_refl G) as (a' & h' & E & Hs & _). apply same_arena_fields in Hs as (F1 & F2 & F3 & F4 & F5 & F6).
  eapply step_done; [cbn [run_at]; unfold clean_reap; rewrite E; reflexivity|].
  eapply (clean_step w _ t _ CleanFree); [exact I|exact Ht|reflexivity|..]; try done; [by right|].
  unfold phase. cbn [goes threads arena returned total]. rewrite Em. cbn [cleaning]. rewrite F1, F3, F4, F5. done.
Qed.

Lemma clean_free_inv w t : race_inv w -> threads w !! t = Some CleanFree -> step_ok w t CleanFree.
Proof.
  intros I Ht. pose proof (ri_protocol _ I) as P. destruct (the_cleaner w t _ P Ht eq_refl) as [Ecl Em]. destruct (cleaner_phase w t _ P Ht eq_refl) as (Hc & Hr & Hf & E1 & E2 & E3).
  eapply step_done; [reflexivity|]. unfold clean_free. rewrite (proj2 (Z.eqb_neq _ NULL)) by (by rewrite E1).
  eapply (clean_step w _ t _ CleanTotal); [exact I|exact Ht|reflexivity|..]; try done; [by right|].
  unfold phase. cbn [threads arena returned total]. rewrite Em. cbn [cleaning]. by rewrite E1, E2, (pr_size _ P).
Qed.

Lemma clean_total_inv w t : race_inv w -> threads w !! t = Some CleanTotal -> step_ok w t CleanTotal.
Proof.
  intros I Ht. pose proof (ri_protocol _ I) as P. destruct (the_cleaner w t _ P Ht eq_refl) as [Ecl Em]. destruct (cleaner_phase w t _ P Ht eq_refl) as (Hc & Hr & Hf & E1 & E2 & E3).
  eapply step_done; [reflexivity|]. eapply (clean_step w _ t _ CleanFinish); [exact I|exact Ht|reflexivity|..]; try done; [by right|].
  unfold phase. cbn [clean_total threads arena returned total]. rewrite Em. cbn [cleaning]. by rewrite E2, E3, (pr_size _ P).
Qed.

Lemma clean_finish_inv w t : race_inv w -> threads w !! t = Some CleanFinish -> step_ok w t CleanFinish.
Proof.
  intros I Ht. pose proof (ri_protocol _ I) as P. destruct (the_cleaner w t _ P Ht eq_refl) as [Ecl Em]. destruct (cleaner_phase w t _ P Ht eq_refl) as (Hc & Hr & Hf & E1 & E2 & E3).
  eapply step_done; [reflexivity|]. eapply (clean_step w _ t _ Idle); [exact I|exact Ht|reflexivity|..]; try done; [by left|].
  unfold phase. cbn [clean_finish goes threads arena returned total]. rewrite Em. cbn [cleaning]. right. done.
Qed.

Lemma move_inv w t p : race_inv w -> threads w !! t = Some p -> (calm = true -> undisturbed w t) -> step_ok w t p.
Proof.
  intros I Ht Hu. destruct p; [by eapply step_done| | | | | | | | | | | | | | ].
  - by apply alloc_reap_inv.
  - by apply alloc_take_inv.
  - by apply alloc_add_inv.
  - by apply free_owner_inv.
  - by apply free_push_inv.
  - by apply free_cas_inv.
  - by apply free_sub_inv.
  - by apply free_retired_inv.
  - by apply retire_load_inv.
  - by apply claim_inv.
  - by apply clean_reap_inv.
  - by apply clean_free_inv.
  - by apply clean_total_inv.
  - by apply clean_finish_inv.
Qed.

Lemma race_step_inv w t w' : race_inv w -> (calm = true -> undisturbed w t) -> race_step w t w' -> race_inv w'.
Proof. intros I Hu [c w1 Ht Hc E|p w1 Ht E]; [by eapply (call_inv w t c I Ht Hc)|by eapply (move_inv w t p I Ht Hu)]. Qed.

Lemma race_run_inv w0 w : race_inv w0 -> race_run calm w0 w -> race_inv w.
Proof. intros I0. induction 1 as [|w t w' _ IH Hu Hs]; [done|]. by eapply race_step_inv. Qed.

End Protocol.

(** A new arena. *)
Lemma start_inv raw1 desc h e a h' e' n calm :
  tlsf_arena_init raw1 desc h e = (Some a, h', e') -> 0 < raw1 -> raw1 + TLSF_ARENA_DEFAULT_SIZE <= 2 ^ 64 -> Z.of_nat n <= 2 ^ 40 ->
  race_inv raw1 TLSF_ARENA_DEFAULT_SIZE (sys_freed e') (total_pool_size e') calm (race_start a h' e' n).
Proof.
  intros E Hr Hov Hn. destruct (arena_init_live _ _ _ _ _ _ _ E Hr Hov) as ((L & M & O & Ereg & _ & Hf & Hc & _ & _ & Hh) & _ & Hret).
  injection Ereg as Eraw Esz.
  assert (Hidle : forall p, p ∈ replicate n Idle -> p = Idle) by (intros p Hp; by apply elem_of_replicate in Hp as [-> _]).
  assert (Hcl : cleaners (replicate n Idle) = []) by (clear; induction n; done).
  assert (Hfl : flights (replicate n Idle) = [] /\ weights (replicate n Idle) = 0) by (clear; induction n; done). destruct Hfl as [Hfl Hw].
  assert (Hlive : live_bytes a = 0).
  { eapply (held_empty_bytes _ _ _ _ O). intros x t Hx. apply Hh in Hx. by apply not_elem_of_nil in Hx. }
  split.
  - split; cbn [race_start arena threads attached].
    + by rewrite Hret.
    + intros t p Hp. apply list_elem_of_lookup_2, Hidle in Hp as ->. done.
    + intros p Hp. by rewrite (Hidle p Hp).
    + done.
    + unfold phase. cbn [race_start threads]. rewrite Hcl. by left.
    + by rewrite length_replicate.
  - intros _. exists L, M. cbn [race_start arena mem held threads]. rewrite Hfl, Hw. destruct O. split; [by split|]. split; [|cbn; lia].
    split; [constructor|]. intros x s. cbn. by rewrite <- Hh.
  - intros _. apply Forall_forall. intros p Hp. by rewrite (Hidle p Hp).
  - unfold noticed. cbn. congruence.
  - intros _. split; cbn; [|congruence]. done.
Qed.

(** ** What the protocol gives *)

Lemma no_cleaner ps : (forall p, p ∈ ps -> p = Idle) -> cleaners ps = [].
Proof. intros H. destruct (cleaners ps) as [|p k] eqn:E; [done|]. assert (Hp : p ∈ cleaners ps) by (rewrite E; by left). apply list_elem_of_In, List.filter_In in Hp as [Hp%list_elem_of_In Hc]. by rewrite (H p Hp) in Hc. Qed.

Lemma at_rest raw1 n1 freed1 total1 calm w : race_inv raw1 n1 freed1 total1 calm w -> (forall p, p ∈ threads w -> p = Idle) ->
  retired (arena w) = true -> held w = [] -> finished (arena w) = true /\ returned w = (raw1, n1) :: freed1 /\ total w = u64 (total1 - n1).
Proof.
  intros [P Hh Hpc Hn Hs] Hi Hr Hhd. pose proof (pr_phase _ _ _ _ _ P) as Hp. unfold phase in Hp. rewrite no_cleaner in Hp by done.
  destruct Hp as [(Hc & _)|(_ & _ & ? & _ & ? & ?)]; [exfalso|done]. pose proof (unclaimed_unreaped _ _ _ _ _ P Hc) as U.
  assert (Hl : live_bytes (arena w) = 0).
  { destruct (Hh U) as (L & M & _ & _ & ->). rewrite Hhd. cbn [map sum]. enough (weights (threads w) = 0) as -> by done. clear -Hi. unfold weights. induction (threads w) as [|p ps IH]; [done|]. cbn [map sum].
    rewrite (Hi p (list_elem_of_here _ _)), IH; [done|]. intros x Hx. apply Hi. by right. }
  destruct (Hn Hr Hl) as [?|(p & Hx & Hp)]; [congruence|]. by rewrite (Hi p Hx) in Hp.
Qed.

(** C6: the region of an arena goes back to the system at most once, whatever the threads
    do and however their accesses interleave, and not before the arena is retired; once it
    is retired, no block of it is outstanding and every thread has come to rest, it has gone
    back, and the pool's total has gone down by its size.  No access to the arena's memory
    fails until the cleanup has begun, and in a calm run none fails at all and nothing is
    outstanding when the region goes.  (Other runs: [stale_retired_releases_held].) *)
Theorem arena_released_once raw1 desc h e a h' e' n calm w :
  tlsf_arena_init raw1 desc h e = (Some a, h', e') -> 0 < raw1 -> raw1 + TLSF_ARENA_DEFAULT_SIZE <= 2 ^ 64 -> Z.of_nat n <= 2 ^ 40 ->
  race_run calm (race_start a h' e' n) w ->
  (returned w = sys_freed e \/ (returned w = (raw1, TLSF_ARENA_DEFAULT_SIZE) :: sys_freed e /\ retired (arena w) = true)) /\
  ((forall p, p ∈ threads w -> p = Idle) -> retired (arena w) = true -> held w = [] ->
     finished (arena w) = true /\ returned w = (raw1, TLSF_ARENA_DEFAULT_SIZE) :: sys_freed e /\ total w = u64 (total_pool_size e' - TLSF_ARENA_DEFAULT_SIZE)) /\
  (unreaped w \/ calm = true ->
     (forall t p, threads w !! t = Some p -> exists w', run_at w t p = Done w') /\
     (forall t c, threads w !! t = Some Idle -> may_call w c -> exists w', begin_call w t c = Done w')) /\
  (calm = true -> returned w <> sys_freed e -> held w = [] /\ forall p, p ∈ threads w -> busy p = false).
Proof.
  intros E Hr Hov Hn Hrun. pose proof (start_inv raw1 desc h e a h' e' n calm E Hr Hov Hn) as I0.
  assert (Ee : sys_freed e' = sys_freed e).
  { unfold tlsf_arena_init in E. destruct (raw1 =? NULL); [done|]. destruct (desc =? NULL); [done|]. by injection E as _ _ <-. }
  rewrite Ee in I0. assert (Hne : raw1 <> NULL) by (unfold NULL; lia). assert (Hsz : 0 < TLSF_ARENA_DEFAULT_SIZE <= 2 ^ 20) by (unfold TLSF_ARENA_DEFAULT_SIZE; lia).
  pose proof (race_run_inv _ _ _ _ calm Hne Hsz _ w I0 Hrun) as I. pose proof (ri_protocol _ _ _ _ _ _ I) as P. split; [|split; [|split]].
  - pose proof (pr_phase _ _ _ _ _ P) as Hp. unfold phase in Hp. destruct (cleaners (threads w)) as [|p [|]]; [tauto| |done].
    destruct Hp as (_ & ? & _ & Hp). destruct p; tauto.
  - by apply (at_rest _ _ _ _ calm).
  - intros Hu. split.
    + intros t p Ht. assert (Hd : (exists b s, p = AllocAdd b s) \/ undisturbed w t).
      { destruct p; try (right; intros b' s' Hb; congruence). left; eauto. }
      destruct Hd as [(b & s & ->)|Hd]; [by eexists|]. destruct (move_inv _ _ _ _ calm Hne Hsz w t p I Ht (fun _ => Hd)) as [H _]. by apply H.
    + intros t c Ht Hc. by apply (call_inv _ _ _ _ calm Hsz w t c I Ht Hc).
  - intros Hcalm Hret. destruct (ri_settled _ _ _ _ _ _ I Hcalm) as [_ S2]. apply S2. pose proof (pr_phase _ _ _ _ _ P) as Hp. unfold phase in Hp.
    destruct (cleaners (threads w)) as [|p [|]]; [tauto| |done]. tauto.
Qed.

(** ** Schedules *)

Definition allowed (w : race_world) (c : call) : bool :=
  match c with
  | CAlloc tn => (TLSF_MIN_BLOCK_SIZE <=? tn) && (tn mod 8 =? 0)
  | CFree b => existsb (fun x : Z * Z => x.1 =? b) (held w)
  | CRetire => true
  end.

Definition calm_now (w : race_world) (p : pc) : bool :=
  match p with AllocAdd _ _ => negb (existsb (fun q => match q with FreeRetired => true | _ => false end) (threads w)) | _ => true end.

(** A thread's call, or its next step. *)
Definition act (calm : bool) (w : race_world) (s : nat * option call) : outcome race_world :=
  match threads w !! s.1 with
  | None => Fault
  | Some p =>
      match s.2 with
      | Some c => match p with Idle => if allowed w c then begin_call w s.1 c else Fault | _ => Fault end
      | None => if negb calm || calm_now w p then run_at w s.1 p else Fault
      end
  end.

Fixpoint acts (calm : bool) (w : race_world) (l : list (nat * option call)) : outcome race_world :=
  match l with [] => Done w | s :: l => w ← act calm w s; acts calm w l end.

Lemma act_run calm w0 w s w' : race_run calm w0 w -> act calm w s = Done w' -> race_run calm w0 w'.
Proof.
  intros Hr. destruct s as [t c]. unfold act. cbn [fst snd]. destruct (threads w !! t) as [p|] eqn:Ht; [|done]. destruct c as [c|].
  - destruct p; try done. destruct (allowed w c) eqn:Ea; [|done]. intros E. eapply (run_step _ _ w t); [exact Hr| |].
    + intros _ b s Hb. congruence.
    + eapply race_call; [exact Ht| |exact E]. destruct c as [tn|b|]; cbn in *; [|apply existsb_exists in Ea as ([x s] & Hx & Eb%Z.eqb_eq)|done].
      * apply andb_true_iff in Ea as [?%Z.leb_le ?%Z.eqb_eq]. by split.
      * cbn in Eb. subst x. exists s. by apply list_elem_of_In.
  - destruct (negb calm || calm_now w p) eqn:Ec; [|done]. intros E. eapply (run_step _ _ w t); [exact Hr| |by eapply race_move].
    intros -> b s Hb Hin. assert (p = AllocAdd b s) as -> by congruence. cbn in Ec. apply negb_true_iff in Ec.
    enough (existsb (fun q => match q with FreeRetired => true | _ => false end) (threads w) = true) by congruence.
    apply existsb_exists. exists FreeRetired. split; [by apply list_elem_of_In|done].
Qed.

Lemma acts_run calm l : forall w0 w w', race_run calm w0 w -> acts calm w l = Done w' -> race_run calm w0 w'.
Proof.
  induction l as [|s l IH]; intros w0 w w' Hr E; cbn [acts] in E; [by injection E as <-|]. destruct (act calm w s) as [w1| |] eqn:Ea; [|done..].
  cbn [mbind outcome_bind] in E. eapply IH; [by eapply act_run|exact E].
Qed.

(** [n] steps of thread [t]. *)
Definition steps (t : nat) (n : nat) : list (nat * option call) := replicate n (t, None).

Definition demo_world (n : nat) : race_world := race_start demo_a0 demo_h0 demo_e0 n.

(** The owner allocates a block and retires; another thread frees the block and cleans up. *)
Definition good_schedule : list (nat * option call) :=
  [(0%nat, Some (CAlloc 64))] ++ steps 0 2 ++ [(0%nat, Some CRetire)] ++ steps 0 1 ++ [(1%nat, Some (CFree 65536))] ++ steps 1 10.
Definition good_end : race_world := done_or (demo_world 2) (acts true (demo_world 2) good_schedule).

(** A block is freed while the arena is in use: the counter is zero, and the thread has
    still to look at [retired].  The owner allocates another block, and retires with it
    outstanding.  Then the thread looks. *)
Definition stale_schedule : list (nat * option call) :=
  [(0%nat, Some (CAlloc 64))] ++ steps 0 2 ++ [(1%nat, Some (CFree 65536))] ++ steps 1 4 ++
  [(0%nat, Some (CAlloc 64))] ++ steps 0 3 ++ [(0%nat, Some CRetire)] ++ steps 0 1 ++ steps 1 4.
Definition stale_end : race_world := done_or (demo_world 2) (acts false (demo_world 2) stale_schedule).

Lemma good_end_run : race_run true (demo_world 2) good_end.
Proof. eapply (acts_run true good_schedule); [apply run_start|]. apply done_or_eq. vm_compute. reflexivity. Qed.

Lemma stale_end_run : race_run false (demo_world 2) stale_end.
Proof. eapply (acts_run false stale_schedule); [apply run_start|]. apply done_or_eq. vm_compute. reflexivity. Qed.

(** The decrement and the look at [retired] are two accesses, and what the first saw may be
    out of date by the second: a thread whose free took the counter to zero while the arena
    was in use, and which comes to look after the owner has allocated again and retired,
    cleans up.  The region goes back with a block of it outstanding, whose own free then
    touches memory that is gone. *)
Theorem stale_retired_releases_held :
  exists w, race_run false (demo_world 2) w /\ held w = [(65536, 64)] /\ returned w = [(65536, TLSF_ARENA_DEFAULT_SIZE)] /\
    forall t, begin_call w t (CFree 65536) = Fault.
Proof.
  exists stale_end. split; [exact stale_end_run|]. split; [vm_compute; reflexivity|]. split; [vm_compute; reflexivity|]. intros t.
  assert (E : tlsf_arena_span (mem stale_end) 65536 = Fault) by (vm_compute; reflexivity). cbn [begin_call]. unfold free_begin. by rewrite E.
Qed.

Lemma arena_released_once_witness :
  finished (arena good_end) = true /\ returned good_end = [(65536, TLSF_ARENA_DEFAULT_SIZE)].
Proof.
  destruct (arena_released_once 65536 4096 _ _ _ _ _ 2 true good_end demo_init_eq ltac:(lia) ltac:(unfold TLSF_ARENA_DEFAULT_SIZE; lia) ltac:(lia) good_end_run)
    as (_ & H & _).
  destruct H as (Hf & Hr & _).
  - assert (E : threads good_end = [Idle; Idle]) by (vm_compute; reflexivity). rewrite E. intros p Hp. rewrite !elem_of_cons, elem_of_nil in Hp. tauto.
  - vm_compute. reflexivity.
  - vm_compute. reflexivity.
  - split; [exact Hf|exact Hr].
Defined.
