(* ===== verification/Ring.v ===== *)
(** * Ring buffers, event logs and typed pools

    [src/cmem_ring_event.c]: the slot allocator over a ring of free-slot pointers, the
    event log built on it, and the fixed-size typed pool.  What [calloc] hands out is an
    argument, [NULL] when the call fails; [posix_memalign] is a function of the size it is
    asked for.  Cursors, sizes and offsets are 64-bit and wrap. *)
From S2P Require Import Prelude Dll.
From Stdlib Require Import ZArith Lia.
From stdpp Require Import base option list gmap.
Open Scope Z_scope.

(** ** The ring *)

(** [struct cmem_ring_buffer]. *)
Record cmem_ring_buffer := Ring {
  slot_size : Z;
  capacity : Z;
  mask : Z;
  head : Z;
  tail : Z;
  slots : list Z;
  buffer : Z;
}.

(** [while (real_cap < capacity) real_cap <<= 1;] *)
Fixpoint round_up (fuel : nat) (real_cap capacity : Z) : outcome Z :=
  match fuel with
  | O => Fault
  | S fuel => if real_cap <? capacity then round_up fuel (u64 (Z.shiftl real_cap 1)) capacity else Done real_cap
  end.

(** [ring->slots[i] = base + i * slot_size]. *)
Definition ring_slots (base slot_size : Z) (n : nat) : list Z :=
  map (fun i => u64 (base + u64 (Z.of_nat i * slot_size))) (seq 0 n).

(** [memalign n] is the block of [posix_memalign(_, 64, n)]. *)
Definition mp_ring_create (ring_mem slots_mem : Z) (memalign : Z -> Z) (slot_size capacity : Z)
    : outcome (option cmem_ring_buffer) :=
  if (slot_size =? 0) || (capacity =? 0) then Done None
  else
    real_cap ← round_up 65 1 capacity;
    if ring_mem =? NULL then Done None
    else
      let total_buf := u64 (slot_size * real_cap) in
      let buf := memalign total_buf in
      if buf =? NULL then Done None
      else if slots_mem =? NULL then Fault   (* the table is written unchecked *)
      else Done (Some (Ring slot_size real_cap (real_cap - 1) 0 real_cap
                         (ring_slots buf slot_size (Z.to_nat real_cap)) buf)).

(** A block of [n] bytes lies in the address space. *)
Definition memalign_ok (memalign : Z -> Z) : Prop :=
  forall n, 0 <= n -> memalign n = NULL \/ (0 < memalign n /\ memalign n + n <= 2 ^ 64).

Definition mp_ring_alloc (ring : cmem_ring_buffer) : outcome (Z * cmem_ring_buffer) :=
  let ring' := Ring (slot_size ring) (capacity ring) (mask ring) (u64 (head ring + 1)) (tail ring)
                 (slots ring) (buffer ring) in
  if tail ring <=? head ring then Done (NULL, ring')
  else p ← rd (slots ring) (Z.land (head ring) (mask ring)); Done (p, ring').

Definition mp_ring_free (ring : cmem_ring_buffer) (ptr : Z) : outcome (bool * cmem_ring_buffer) :=
  if ptr =? NULL then Done (false, ring)
  else
    let i := Z.land (tail ring) (mask ring) in
    _ ← rd (slots ring) i;
    Done (true, Ring (slot_size ring) (capacity ring) (mask ring) (head ring) (u64 (tail ring + 1))
                  (<[Z.to_nat i := ptr]> (slots ring)) (buffer ring)).

(** ** The event log *)

(** [mp_event_log_entry_t]. *)
Record event_entry := Entry { timestamp_ns : Z; event_type : Z; ev_size : Z; ev_ptr : Z }.

(** [struct mp_event_log], with the bytes of the slots. *)
Record mp_event_log := Log {
  log_ring : option cmem_ring_buffer;
  log_capacity : Z;
  count : Z;
  entries : Z -> event_entry;
}.

Definition SIZEOF_EVENT_ENTRY : Z := 32.

(** [entries] is what the fresh buffer holds. *)
Definition mp_event_log_create (log_mem ring_mem slots_mem : Z) (memalign : Z -> Z) (fresh : Z -> event_entry) (capacity : Z)
    : outcome (option mp_event_log) :=
  if log_mem =? NULL then Done None
  else
    r ← mp_ring_create ring_mem slots_mem memalign SIZEOF_EVENT_ENTRY capacity;
    match r with
    | None => Done None
    | Some ring => Done (Some (Log (Some ring) capacity 0 fresh))
    end.

Definition mp_event_log_record (log : mp_event_log) (now event_type ptr size : Z) : outcome (bool * mp_event_log) :=
  match log_ring log with
  | None => Done (false, log)
  | Some ring =>
      r ← mp_ring_alloc ring;
      let '(entry, ring) := r in
      if entry =? NULL then Done (false, Log (Some ring) (log_capacity log) (count log) (entries log))
      else Done (true, Log (Some ring) (log_capacity log) (u64 (count log + 1))
                         (fun a => if a =? entry then Entry now event_type size ptr else entries log a))
  end.

(** The copied record, when one is consumed. *)
Definition mp_event_log_consume (log : mp_event_log) : outcome (option event_entry * mp_event_log) :=
  match log_ring log with
  | None => Done (None, log)
  | Some ring =>
      r ← mp_ring_alloc ring;
      let '(slot, ring) := r in
      if slot =? NULL then Done (None, Log (Some ring) (log_capacity log) (count log) (entries log))
      else Done (Some (entries log slot), Log (Some ring) (log_capacity log) (u64 (count log - 1)) (entries log))
  end.

Definition mp_event_log_pending (log : mp_event_log) : Z := count log.

Definition mp_event_log_clear (log : mp_event_log) (ring_mem slots_mem : Z) (memalign : Z -> Z) (fresh : Z -> event_entry)
    : outcome mp_event_log :=
  r ← mp_ring_create ring_mem slots_mem memalign SIZEOF_EVENT_ENTRY (log_capacity log);
  Done (Log r (log_capacity log) 0 fresh).

(** ** Typed pools *)

(** [mp_typed_pool_t], with the first word of every object. *)
Record mp_typed_pool := TPool {
  elem_size : Z;
  tp_capacity : Z;
  active_count : Z;
  tp_free_list : Z;
  words : gmap Z Z;
}.

(** [*curr = base + (i + 1) * real_elem_sz] for [n] objects from [i]. *)
Fixpoint link_elems (base sz : Z) (n : nat) (i : Z) (m : gmap Z Z) : gmap Z Z :=
  match n with
  | O => m
  | S n => link_elems base sz n (i + 1) (<[u64 (base + u64 (i * sz)) := u64 (base + u64 ((i + 1) * sz))]> m)
  end.

Definition mp_typed_pool_create (tpool_mem : Z) (memalign : Z -> Z) (elem_size capacity : Z) : option mp_typed_pool :=
  if (elem_size =? 0) || (capacity =? 0) then None
  else
    let real_elem_sz := if elem_size <? 8 then 8 else elem_size in
    let real_elem_sz := align8 real_elem_sz in
    if tpool_mem =? NULL then None
    else
      let total_sz := u64 (real_elem_sz * capacity) in
      let raw_buf := memalign total_sz in
      if raw_buf =? NULL then None
      else
      let m := link_elems raw_buf real_elem_sz (Z.to_nat (capacity - 1)) 0 ∅ in
      let m := <[u64 (raw_buf + u64 ((capacity - 1) * real_elem_sz)) := NULL]> m in
      Some (TPool real_elem_sz capacity 0 raw_buf m).

Definition mp_typed_alloc (t : mp_typed_pool) : outcome (Z * mp_typed_pool) :=
  if tp_free_list t =? NULL then Done (NULL, t)
  else
    let ptr := tp_free_list t in
    next ← ld (words t) ptr;
    Done (ptr, TPool (elem_size t) (tp_capacity t) (u64 (active_count t + 1)) next (words t)).

Definition mp_typed_free (t : mp_typed_pool) (ptr : Z) : outcome mp_typed_pool :=
  if ptr =? NULL then Done t
  else
    m ← st (words t) ptr (tp_free_list t);
    let n := if 0 <? active_count t then active_count t - 1 else active_count t in
    Done (TPool (elem_size t) (tp_capacity t) n ptr m).

(** ** Creating a ring *)

Lemma round_up_spec fuel k capacity :
  0 <= k -> capacity <= 2 ^ (k + Z.of_nat fuel) -> k + Z.of_nat fuel <= 63 ->
  exists j, round_up (S fuel) (2 ^ k) capacity = Done (2 ^ j) /\ k <= j <= k + Z.of_nat fuel /\ capacity <= 2 ^ j /\
    (k < j -> 2 ^ (j - 1) < capacity).
Proof.
  revert k. induction fuel as [|fuel IH]; intros k Hk Hc Hb.
  - exists k. cbn [round_up]. rewrite Z.add_0_r in Hc. rewrite (proj2 (Z.ltb_ge _ _)) by done. split; [done|]. lia.
  - remember (S fuel) as f. cbn [round_up]. subst f. destruct (Z.ltb_spec (2 ^ k) capacity) as [H|H].
    + assert (E : u64 (Z.shiftl (2 ^ k) 1) = 2 ^ (k + 1)).
      { rewrite Z.shiftl_mul_pow2 by lia. rewrite <- Z.pow_add_r by lia. apply u64_small.
        split; [apply Z.pow_nonneg; lia|]. apply Z.pow_lt_mono_r; lia. }
      rewrite E. destruct (IH (k + 1)) as (j & -> & Hj & Hcj & Hmin); [lia| |lia|].
      { replace (k + 1 + Z.of_nat fuel) with (k + Z.of_nat (S fuel)) by lia. done. }
      exists j. split; [done|]. split; [lia|]. split; [done|]. intros _.
      destruct (Z.eq_dec j (k + 1)) as [->|]; [|apply Hmin; lia]. by replace (k + 1 - 1) with k by lia.
    + exists k. split; [done|]. split; [lia|]. split; [done|lia].
Qed.

(** Past 2^63 the shift reaches zero and the loop never ends. *)
Lemma round_up_zero fuel capacity : 0 < capacity -> round_up fuel 0 capacity = Fault.
Proof.
  intros Hc. induction fuel as [|fuel IH]; [done|]. cbn [round_up].
  rewrite (proj2 (Z.ltb_lt 0 capacity)) by done. exact IH.
Qed.

Lemma round_up_diverges fuel k capacity : 0 <= k <= 63 -> 2 ^ 63 < capacity -> round_up fuel (2 ^ k) capacity = Fault.
Proof.
  revert k. induction fuel as [|fuel IH]; intros k Hk Hc; [done|]. cbn [round_up].
  assert (2 ^ k <= 2 ^ 63) by (apply Z.pow_le_mono_r; lia). rewrite (proj2 (Z.ltb_lt _ _)) by lia.
  rewrite Z.shiftl_mul_pow2, <- Z.pow_add_r by lia. destruct (Z.eq_dec k 63) as [->|].
  - change (u64 (2 ^ (63 + 1))) with 0. apply round_up_zero. lia.
  - rewrite u64_small; [apply IH; lia|]. split; [apply Z.pow_nonneg; lia|]. apply Z.pow_lt_mono_r; lia.
Qed.

(** ** Which slots are free, which are handed out *)

(** [free] are the slots from [head] to [tail] in order, [out] those handed out. *)
Record ring_ok (all : list Z) (k : Z) (r : cmem_ring_buffer) (free out : list Z) : Prop := {
  rk_k : 0 <= k <= 62;
  rk_mask : mask r = 2 ^ k - 1;
  rk_slots : length (slots r) = Z.to_nat (2 ^ k);
  rk_head : 0 <= head r < 2 ^ 64;
  rk_tail : 0 <= tail r < 2 ^ 64;
  rk_all : length all = Z.to_nat (2 ^ k) /\ NULL ∉ all;
  rk_len : Z.of_nat (length free) = Z.max 0 (tail r - head r);
  rk_free : forall i p, free !! i = Some p -> slots r !! Z.to_nat ((head r + Z.of_nat i) mod 2 ^ k) = Some p;
  rk_nodup : NoDup (free ++ out);
  rk_sub : forall p, p ∈ free ++ out -> p ∈ all;
}.

Lemma land_mask k r x : 0 <= k -> mask r = 2 ^ k - 1 -> Z.land x (mask r) = x mod 2 ^ k.
Proof. intros Hk ->. rewrite Z.sub_1_r, <- Z.ones_equiv. by apply Z.land_ones. Qed.

Lemma mod_lt_nat k x : 0 <= k -> (Z.to_nat (x mod 2 ^ k) < Z.to_nat (2 ^ k))%nat.
Proof. intros Hk. assert (0 < 2 ^ k) by (by apply Z.pow_pos_nonneg). pose proof (Z.mod_pos_bound x (2 ^ k)). lia. Qed.

(** Without a wrap the slots are [base], [base + slot_size] and so on. *)
Lemma ring_slots_addrs base sz n :
  0 <= base -> 0 < sz -> base + sz * Z.of_nat n <= 2 ^ 64 -> ring_slots base sz n = slot_addrs base sz n 0.
Proof.
  intros Hb Hs Hn. unfold ring_slots.
  assert (Hin : forall m i, (i + m <= n)%nat ->
    map (fun i => u64 (base + u64 (Z.of_nat i * sz))) (seq i m) = slot_addrs base sz m (Z.of_nat i)).
  { induction m as [|m IH]; intros i Hi; [done|]. cbn [seq map slot_addrs]. rewrite IH by lia.
    rewrite (u64_small (Z.of_nat i * sz)), u64_small by nia. by rewrite Nat2Z.inj_succ. }
  apply (Hin n 0%nat). lia.
Qed.

Lemma ring_create_run ring_mem slots_mem memalign sz cap r :
  0 < sz -> 0 < cap -> memalign_ok memalign ->
  mp_ring_create ring_mem slots_mem memalign sz cap = Done (Some r) ->
  exists k, 0 <= k <= 63 /\ capacity r = 2 ^ k /\ cap <= 2 ^ k /\ (0 < k -> 2 ^ (k - 1) < cap) /\
    head r = 0 /\ tail r = 2 ^ k /\ buffer r = memalign (u64 (sz * 2 ^ k)) /\ 0 < buffer r /\
    (k <= 62 -> sz * 2 ^ k < 2 ^ 64 ->
     slots r = slot_addrs (buffer r) sz (Z.to_nat (2 ^ k)) 0 /\ ring_ok (slots r) k r (slots r) []).
Proof.
  intros Hs Hc Hb E. unfold mp_ring_create in E. rewrite (proj2 (Z.eqb_neq sz 0)), (proj2 (Z.eqb_neq cap 0)) in E by lia.
  cbn [orb] in E. destruct (Z.le_gt_cases cap (2 ^ 63)) as [Hle|Hgt].
  2: { rewrite (round_up_diverges 65 0) in E by lia. done. }
  destruct (round_up_spec 63 0 cap ltac:(lia) Hle ltac:(lia)) as (k & Ek & Hk & Hck & Hmin).
  assert (Ek' : round_up 65 1 cap = Done (2 ^ k)).
  { clear -Ek. change (2 ^ 0) with 1 in Ek. revert Ek. generalize 64%nat as f, 1 as x. intros f.
    revert cap k. induction f as [|f IH]; intros cap k x E; [done|]. remember (S f) as g. cbn [round_up] in *.
    subst g. cbn [round_up] in E. destruct (x <? cap); [by apply IH|done]. }
  rewrite Ek' in E. cbn [mbind outcome_bind] in E. destruct (ring_mem =? NULL); [done|]. cbn zeta in E.
  destruct (Z.eqb_spec (memalign (u64 (sz * 2 ^ k))) NULL) as [|Hbuf]; [done|].
  destruct (slots_mem =? NULL); [done|]. injection E as <-. exists k. cbn [capacity slots head tail buffer].
  destruct (Hb (u64 (sz * 2 ^ k))) as [?|[Hpos Hend]]; [apply u64_bound|done|].
  split; [lia|]. split; [done|]. split; [done|]. split; [intros H1; apply Hmin; lia|].
  split; [done|]. split; [done|]. split; [done|]. split; [done|].
  intros Hk62 Hov. assert (H2 : 0 < 2 ^ k) by (apply Z.pow_pos_nonneg; lia).
  set (buf := memalign _) in *. rewrite u64_small in Hend by nia.
  rewrite ring_slots_addrs by lia. split; [done|].
  assert (H64 : 2 ^ k < 2 ^ 64) by (apply Z.pow_lt_mono_r; lia).
  constructor; cbn [mask slots head tail]; rewrite ?length_slot_addrs, ?app_nil_r; try lia; try done.
  - split; [done|]. rewrite elem_of_slot_addrs. intros (j & Hj & Ej). unfold NULL in Ej. nia.
  - intros i p Hp. pose proof (lookup_lt_Some _ _ _ Hp) as Hlt. rewrite length_slot_addrs in Hlt.
    rewrite Z.add_0_l, Z.mod_small by lia. by rewrite Nat2Z.id.
  - by apply slot_addrs_nodup.
Qed.

Lemma ring_alloc_run all k r free out :
  ring_ok all k r free out -> head r + 1 < 2 ^ 64 ->
  exists r', mp_ring_alloc r = Done (match free with [] => NULL | p :: _ => p end, r') /\
    head r' = head r + 1 /\ tail r' = tail r /\
    match free with [] => ring_ok all k r' [] out | p :: free => ring_ok all k r' free (p :: out) /\ p <> NULL end.
Proof.
  intros [Hk Hm Hl Hh Ht [Ha Han] Hlen Hf Hnd Hsub] Hov. unfold mp_ring_alloc. rewrite u64_small by lia.
  assert (H2 : 0 < 2 ^ k) by (apply Z.pow_pos_nonneg; lia).
  destruct (Z.leb_spec (tail r) (head r)) as [Hle|Hgt].
  - destruct free as [|p free]; [|cbn in Hlen; lia]. eexists. split; [done|]. split; [done|]. split; [done|].
    constructor; cbn [mask slots head tail]; try done; try lia.
  - destruct free as [|p free]; [cbn in Hlen; lia|].
    pose proof (Hf 0%nat p eq_refl) as H0. rewrite Z.add_0_r in H0.
    rewrite (land_mask k) by (done || lia).
    assert (Hrd : rd (slots r) (head r mod 2 ^ k) = Done p).
    { apply rd_Done. split; [|done]. pose proof (Z.mod_pos_bound (head r) (2 ^ k)). lia. }
    rewrite Hrd. cbn [mbind outcome_bind]. eexists. split; [done|]. split; [done|]. split; [done|]. split.
    + constructor; cbn [mask slots head tail]; try done; try lia.
      * cbn in Hlen. lia.
      * intros i q Hq. rewrite <- Z.add_assoc. replace (1 + Z.of_nat i) with (Z.of_nat (S i)) by lia. by apply Hf.
      * assert (Hp : p :: free ++ out ≡ₚ free ++ p :: out) by (by rewrite Permutation_middle). by rewrite <- Hp.
      * intros q Hq. apply Hsub. cbn [app]. rewrite elem_of_app, elem_of_cons in Hq. rewrite elem_of_cons, elem_of_app. tauto.
    + intros ->. apply Han, Hsub. apply list_elem_of_here.
Qed.

Lemma ring_free_run all k r free out1 p out2 :
  ring_ok all k r free (out1 ++ p :: out2) -> tail r + 1 < 2 ^ 64 ->
  exists r', mp_ring_free r p = Done (true, r') /\ head r' = head r /\ tail r' = tail r + 1 /\
    ring_ok all k r' (if tail r <? head r then free else free ++ [p]) (out1 ++ out2).
Proof.
  intros [Hk Hm Hl Hh Ht [Ha Han] Hlen Hf Hnd Hsub] Hov. unfold mp_ring_free.
  assert (H2 : 0 < 2 ^ k) by (apply Z.pow_pos_nonneg; lia).
  assert (Hin : p ∈ free ++ out1 ++ p :: out2).
  { rewrite !elem_of_app. right. right. apply list_elem_of_here. }
  rewrite (proj2 (Z.eqb_neq p NULL)) by (intros ->; by apply Han, Hsub). rewrite (land_mask k) by (done || lia).
  pose proof (Z.mod_pos_bound (tail r) (2 ^ k)) as Hmod. pose proof (mod_lt_nat k (tail r) ltac:(lia)) as Hlt.
  destruct (rd_in_range (slots r) (tail r mod 2 ^ k)) as [old ->]; [unfold zlen; lia|]. cbn [mbind outcome_bind].
  rewrite u64_small by lia. eexists. split; [done|]. split; [done|]. split; [done|].
  assert (Hperm : free ++ out1 ++ p :: out2 ≡ₚ p :: free ++ out1 ++ out2).
  { rewrite <- !Permutation_middle. done. }
  assert (Hroom : (length free < length all)%nat).
  { assert (length (free ++ out1 ++ p :: out2) <= length all)%nat.
    { rewrite <- (Nat2Z.id (length all)). rewrite Nat2Z.id.
      apply (NoDup_incl_length (l := free ++ out1 ++ p :: out2)); [by apply NoDup_ListNoDup|].
      intros x Hx. apply list_elem_of_In, Hsub. by apply list_elem_of_In. }
    rewrite !length_app in *. cbn in *. lia. }
  assert (Hslot : forall i q, free !! i = Some q ->
    <[Z.to_nat (tail r mod 2 ^ k) := p]> (slots r) !! Z.to_nat ((head r + Z.of_nat i) mod 2 ^ k) = Some q).
  { intros i q Hq. pose proof (lookup_lt_Some _ _ _ Hq) as Hi. rewrite list_lookup_insert_ne; [by apply Hf|].
    intros E. pose proof (Z.mod_pos_bound (head r + Z.of_nat i) (2 ^ k)).
    assert (E' : tail r mod 2 ^ k = (head r + Z.of_nat i) mod 2 ^ k) by lia.
    assert (Hd : (tail r - (head r + Z.of_nat i)) mod 2 ^ k = 0) by (rewrite Zminus_mod, E', Z.sub_diag; by apply Z.mod_0_l; lia).
    rewrite Z.mod_small in Hd by lia. lia. }
  rewrite Hperm in Hnd. apply NoDup_cons in Hnd as [Hpn Hnd].
  constructor; cbn [mask slots head tail]; try done; try lia.
  - by rewrite length_insert.
  - destruct (Z.ltb_spec (tail r) (head r)); [lia|]. rewrite length_app. cbn. lia.
  - destruct (Z.ltb_spec (tail r) (head r)) as [|Hge]; [done|]. intros i q Hq. apply lookup_app_Some in Hq as [Hq|[Hi Hq]].
    + by apply Hslot.
    + apply list_lookup_singleton_Some in Hq as [Hi' <-].
      replace (head r + Z.of_nat i) with (tail r) by lia. by rewrite list_lookup_insert_eq by lia.
  - destruct (tail r <? head r); [done|]. rewrite <- app_assoc. cbn [app].
    rewrite <- Permutation_middle. by apply NoDup_cons.
  - intros q Hq. apply Hsub. rewrite Hperm, elem_of_cons.
    destruct (tail r <? head r); [by right|]. rewrite <- app_assoc in Hq. cbn [app] in Hq.
    rewrite <- Permutation_middle, elem_of_cons in Hq. done.
Qed.

(** ** Runs of a ring *)




(** A [posix_memalign] that always answers with the same place, up to 2^63 bytes. *)
Definition demo_memalign (n : Z) : Z := if n <=? 2 ^ 63 then 4096 else NULL.

Lemma demo_memalign_ok : memalign_ok demo_memalign.
Proof. intros n Hn. unfold demo_memalign. destruct (Z.leb_spec n (2 ^ 63)); [right|by left]. lia. Qed.

(** Four slots of 2^63 bytes: the product wraps to a buffer of no bytes, and slots 0 and 2
    are the same. *)
Example ring_size_wraps :
  mp_ring_create 1 1 demo_memalign (2 ^ 63) 4 =
    Done (Some (Ring (2 ^ 63) 4 3 0 4 [4096; 4096 + 2 ^ 63; 4096; 4096 + 2 ^ 63] 4096)) /\ u64 (2 ^ 63 * 4) = 0.
Proof. by split; vm_compute. Qed.



(** An allocation from an exhausted ring still advances [head], so the slot released
    next is skipped: after one failed call, giving a slot back does not make an
    allocation succeed. *)
Theorem ring_failed_alloc_loses_slot all k r out1 p out2 r1 r2 :
  ring_ok all k r [] (out1 ++ p :: out2) -> head r = tail r -> head r + 2 < 2 ^ 64 ->
  mp_ring_alloc r = Done (NULL, r1) -> mp_ring_free r1 p = Done (true, r2) ->
  exists r3, mp_ring_alloc r2 = Done (NULL, r3).
Proof.
  intros Hok Eht Hb E1 E2. destruct (ring_alloc_run _ _ _ _ _ Hok) as (r1' & E1' & Eh1 & Et1 & Hok1); [lia|].
  rewrite E1' in E1. injection E1 as ->.
  destruct (ring_free_run _ _ _ _ _ _ _ Hok1) as (r2' & E2' & Eh2 & Et2 & Hok2); [lia|].
  rewrite E2' in E2. injection E2 as ->. rewrite (proj2 (Z.ltb_lt (tail r1) (head r1))) in Hok2 by lia.
  destruct (ring_alloc_run _ _ _ _ _ Hok2) as (r3 & E3 & _); [lia|]. by exists r3.
Qed.

Definition demo_full : cmem_ring_buffer := Ring 16 1 0 1 1 [4096] 4096.

Lemma demo_full_ok : ring_ok [4096] 0 demo_full [] ([] ++ 4096 :: []).
Proof.
  constructor; cbn; try done; try lia.
  - split; [done|]. rewrite list_elem_of_singleton. done.
  - apply NoDup_singleton.
Qed.

Lemma ring_failed_alloc_loses_slot_witness : exists r3, mp_ring_alloc (Ring 16 1 0 2 2 [4096] 4096) = Done (NULL, r3).
Proof.
  apply (ring_failed_alloc_loses_slot [4096] 0 demo_full [] 4096 [] (Ring 16 1 0 2 1 [4096] 4096) _ demo_full_ok);
    [reflexivity|cbn; lia|reflexivity|reflexivity].
Defined.

(** ** Event logs *)

(** Nothing ever returns a slot, so [tail] stays where creation put it. *)
Lemma ring_alloc_cursor r p r' :
  mp_ring_alloc r = Done (p, r') -> 0 <= head r -> head r + 1 < 2 ^ 64 ->
  head r' = head r + 1 /\ tail r' = tail r /\ slots r' = slots r /\ mask r' = mask r /\ (p <> NULL -> head r < tail r).
Proof.
  unfold mp_ring_alloc. intros E Hh Hb. rewrite u64_small in E by lia. destruct (Z.leb_spec (tail r) (head r)).
  - injection E as <- <-. by split_and!.
  - destruct (rd _ _); [|done..]. injection E as <- <-. by split_and!.
Qed.

(** A caller of the log: record an event, or consume one. *)
Inductive log_op := Record_ (now event_type ptr size : Z) | Consume.

Definition log_step (log : mp_event_log) (op : log_op) : outcome (bool * mp_event_log) :=
  match op with
  | Record_ now event_type ptr size => mp_event_log_record log now event_type ptr size
  | Consume => r ← mp_event_log_consume log; let '(e, log) := r in Done (bool_decide (is_Some e), log)
  end.

(** The number of calls that succeeded. *)
Fixpoint log_run (log : mp_event_log) (ops : list log_op) : outcome (Z * mp_event_log) :=
  match ops with
  | [] => Done (0, log)
  | op :: ops =>
      r ← log_step log op; let '(ok, log) := r in
      r ← log_run log ops; let '(n, log) := r in Done ((if ok : bool then 1 else 0) + n, log)
  end.

Lemma log_step_cursor log op ok log' r :
  log_step log op = Done (ok, log') -> log_ring log = Some r -> 0 <= head r -> head r + 1 < 2 ^ 64 ->
  exists r', log_ring log' = Some r' /\ head r' = head r + 1 /\ tail r' = tail r /\ (ok = true -> head r < tail r).
Proof.
  intros E Hr Hh Hb. destruct op as [now ty ptr sz|]; cbn [log_step] in E; unfold mp_event_log_record, mp_event_log_consume in E;
    rewrite Hr in E; destruct (mp_ring_alloc r) as [[p r']| |] eqn:Ea; try done; cbn [mbind outcome_bind] in E;
    destruct (ring_alloc_cursor _ _ _ Ea Hh Hb) as (H1 & H2 & _ & _ & H3); exists r'.
  - destruct (Z.eqb_spec p NULL); injection E as <- <-; split_and!; try done. intros _. by apply H3.
  - destruct (Z.eqb_spec p NULL); injection E as <- <-; split_and!; try done. intros _. by apply H3.
Qed.

Lemma log_run_bound ops log r n log' :
  log_run log ops = Done (n, log') -> log_ring log = Some r -> 0 <= head r -> head r + zlen ops < 2 ^ 64 ->
  0 <= n <= Z.max 0 (tail r - head r).
Proof.
  revert log r n log'. induction ops as [|op ops IH]; intros log r n log' E Hr Hh Hb.
  - injection E as <- _. lia.
  - cbn [log_run] in E. rewrite zlen_cons in Hb. pose proof (zlen_nonneg ops).
    destruct (log_step log op) as [[ok log1]| |] eqn:Es; [|done..]. cbn [mbind outcome_bind] in E.
    destruct (log_run log1 ops) as [[m log2]| |] eqn:El; [|done..]. cbn [mbind outcome_bind] in E. injection E as <- <-.
    destruct (log_step_cursor _ _ _ _ _ Es Hr Hh ltac:(lia)) as (r1 & Hr1 & H1 & H2 & H3).
    pose proof (IH _ _ _ _ El Hr1 ltac:(lia) ltac:(lia)). destruct ok; [specialize (H3 eq_refl)|]; lia.
Qed.

Lemma log_create_run log_mem ring_mem slots_mem memalign fresh cap log :
  0 < cap <= 2 ^ 58 -> memalign_ok memalign -> mp_event_log_create log_mem ring_mem slots_mem memalign fresh cap = Done (Some log) ->
  exists r k, log_ring log = Some r /\ entries log = fresh /\ count log = 0 /\ head r = 0 /\ tail r = 2 ^ k /\ capacity r = 2 ^ k /\
    ring_ok (slots r) k r (slots r) [] /\ slots r = slot_addrs (buffer r) 32 (Z.to_nat (2 ^ k)) 0 /\ 0 < buffer r /\ cap <= 2 ^ k /\ k <= 58.
Proof.
  intros Hc Hb E. unfold mp_event_log_create in E. destruct (log_mem =? NULL); [done|].
  destruct (mp_ring_create ring_mem slots_mem memalign SIZEOF_EVENT_ENTRY cap) as [[r|]| |] eqn:Er; try done.
  cbn [mbind outcome_bind] in E. injection E as <-. unfold SIZEOF_EVENT_ENTRY in Er.
  destruct (ring_create_run _ _ _ _ _ _ (ltac:(lia) : 0 < 32) (proj1 Hc) Hb Er) as (k & Hk & Ecap & Hle & Hmin & Eh & Et & _ & Hbuf & Hok).
  assert (Hk58 : k <= 58).
  { destruct (Z.le_gt_cases k 58) as [|H]; [done|]. exfalso. assert (2 ^ 58 <= 2 ^ (k - 1)) by (apply Z.pow_le_mono_r; lia). lia. }
  assert (2 ^ k <= 2 ^ 58) by (apply Z.pow_le_mono_r; lia).
  destruct Hok as [Esl Hok]; [lia|lia|]. exists r, k. by split_and!.
Qed.

(** [mp_event_log_consume] does not read the oldest record: it claims a fresh slot, so
    what it copies out after one [mp_event_log_record] is what the uninitialised buffer
    held in the next slot, whatever was recorded, and [pending] drops to zero as if
    the record had been delivered. *)
Theorem event_log_consume_unrecorded log_mem ring_mem slots_mem memalign fresh cap log now ty ptr sz ok log1 e log2 :
  1 < cap <= 2 ^ 58 -> memalign_ok memalign -> mp_event_log_create log_mem ring_mem slots_mem memalign fresh cap = Done (Some log) ->
  mp_event_log_record log now ty ptr sz = Done (ok, log1) -> mp_event_log_consume log1 = Done (e, log2) ->
  exists buf, ok = true /\ e = Some (fresh (buf + 32)) /\ entries log1 buf = Entry now ty sz ptr /\ mp_event_log_pending log2 = 0.
Proof.
  intros Hc Hm Ec Er Eo. destruct (log_create_run _ _ _ _ _ _ _ (ltac:(lia) : 0 < cap <= 2 ^ 58) Hm Ec)
    as (r & k & Hr & Hen & Hcnt & Hh & Ht & _ & Hok & Esl & Hb & Hle & _).
  set (buf := buffer r) in *. exists buf.
  assert (H2 : (2 <= Z.to_nat (2 ^ k))%nat) by lia.
  destruct (Z.to_nat (2 ^ k)) as [|[|m]] eqn:Em; [lia|lia|]. cbn [slot_addrs] in Esl.
  change (0 + 1) with 1 in Esl. rewrite Z.mul_0_l, Z.add_0_r, Z.mul_1_l in Esl.
  rewrite Esl in Hok. set (rest := slot_addrs _ _ m _) in *.
  destruct (ring_alloc_run _ _ _ _ _ Hok) as (r1 & E1 & Eh1 & Et1 & Hok1 & _); [lia|].
  unfold mp_event_log_record in Er. rewrite Hr, E1 in Er. cbn [mbind outcome_bind] in Er.
  rewrite (proj2 (Z.eqb_neq buf NULL)) in Er by (unfold NULL; lia). injection Er as <- <-.
  destruct (ring_alloc_run _ _ _ _ _ Hok1) as (r2 & E2 & _); [lia|].
  unfold mp_event_log_consume in Eo. cbn [log_ring] in Eo. rewrite E2 in Eo. cbn [mbind outcome_bind] in Eo.
  rewrite (proj2 (Z.eqb_neq (buf + 32) NULL)) in Eo by (unfold NULL; lia). injection Eo as <- <-.
  cbn [entries count mp_event_log_pending]. rewrite Hcnt, Hen, Z.eqb_refl, (proj2 (Z.eqb_neq (buf + 32) buf)) by lia.
  done.
Qed.

Lemma event_log_consume_unrecorded_witness :
  exists e log2 log1 ok log, mp_event_log_create 1 1 1 demo_memalign (fun _ => Entry 0 0 0 0) 4 = Done (Some log) /\
    mp_event_log_record log 7 1 99 64 = Done (ok, log1) /\ mp_event_log_consume log1 = Done (e, log2) /\
    e = Some (Entry 0 0 0 0).
Proof.
  destruct (mp_event_log_create 1 1 1 demo_memalign (fun _ => Entry 0 0 0 0) 4) as [[log|]| |] eqn:Ec; [|discriminate Ec..].
  destruct (mp_event_log_record log 7 1 99 64) as [[ok log1]| |] eqn:Er;
    [|injection Ec as <-; discriminate Er..].
  destruct (mp_event_log_consume log1) as [[e log2]| |] eqn:Eo; [|injection Ec as <-; injection Er as <- <-; discriminate Eo..].
  exists e, log2, log1, ok, log. split; [reflexivity|]. split; [exact Er|]. split; [exact Eo|].
  destruct (event_log_consume_unrecorded 1 1 1 demo_memalign _ 4 log 7 1 99 64 ok log1 e log2
    ltac:(lia) demo_memalign_ok Ec Er Eo) as (buf & _ & H & _). exact H.
Defined.

(** An event log stops for good after [capacity] calls (rounded up): whatever mix of
    records and consumes is made, at most that many of them ever succeed, since no
    call gives a slot back. *)
Theorem event_log_exhausts log_mem ring_mem slots_mem memalign fresh cap log ops n log' :
  0 < cap <= 2 ^ 58 -> memalign_ok memalign -> mp_event_log_create log_mem ring_mem slots_mem memalign fresh cap = Done (Some log) ->
  zlen ops < 2 ^ 64 -> log_run log ops = Done (n, log') ->
  exists r, log_ring log = Some r /\ n <= capacity r.
Proof.
  intros Hc Hb Ec Hl E. destruct (log_create_run _ _ _ _ _ _ _ Hc Hb Ec) as (r & k & Hr & _ & _ & Hh & Ht & Hcap & _).
  exists r. split; [done|]. pose proof (log_run_bound _ _ _ _ _ E Hr ltac:(lia) ltac:(lia)).
  assert (0 <= 2 ^ k) by (apply Z.pow_nonneg; lia). lia.
Qed.

Lemma event_log_exhausts_witness :
  exists log log', mp_event_log_create 1 1 1 demo_memalign (fun _ => Entry 0 0 0 0) 2 = Done (Some log) /\
    log_run log [Record_ 1 1 1 1; Record_ 2 1 2 1; Consume; Record_ 3 1 3 1] = Done (2, log') /\
    exists r, log_ring log = Some r /\ 2 <= capacity r.
Proof.
  destruct (mp_event_log_create 1 1 1 demo_memalign (fun _ => Entry 0 0 0 0) 2) as [[log|]| |] eqn:Ec; [|discriminate Ec..].
  destruct (log_run log [Record_ 1 1 1 1; Record_ 2 1 2 1; Consume; Record_ 3 1 3 1]) as [[n log']| |] eqn:Er;
    [|injection Ec as <-; discriminate Er..].
  assert (n = 2) as -> by (injection Ec as <-; injection Er as <- _; reflexivity).
  exists log, log'. split; [reflexivity|]. split; [exact Er|].
  exact (event_log_exhausts 1 1 1 demo_memalign _ 2 log [Record_ 1 1 1 1; Record_ 2 1 2 1; Consume; Record_ 3 1 3 1] 2 log'
    ltac:(lia) demo_memalign_ok Ec ltac:(reflexivity) Er).
Defined.

(** ** Typed pools *)

Definition tp_elems (base sz cap : Z) : list Z := slot_addrs base sz (Z.to_nat cap) 0.

Record typed_ok (base : Z) (t : mp_typed_pool) (F out : list Z) : Prop := {
  tk_base : 0 < base;
  tk_size : 0 < elem_size t;
  tk_chain : sll (words t) (tp_free_list t) F;
  tk_nodup : NoDup (F ++ out);
  tk_all : forall x, x ∈ F ++ out <-> x ∈ tp_elems base (elem_size t) (tp_capacity t);
  tk_words : forall x, x ∈ out -> is_Some (words t !! x);
  tk_active : active_count t = zlen out;
}.

(** No wrap inside a block of the address space. *)
Lemma elem_addr base sz j : 0 <= base -> 0 <= sz -> 0 <= j -> base + j * sz < 2 ^ 64 -> u64 (base + u64 (j * sz)) = base + j * sz.
Proof. intros. rewrite (u64_small (j * sz)), u64_small by nia. done. Qed.

Lemma link_elems_other base sz n i m x :
  0 <= base -> 0 <= sz -> 0 <= i -> base + (i + Z.of_nat n) * sz < 2 ^ 64 ->
  (forall j, i <= j < i + Z.of_nat n -> x <> base + j * sz) -> link_elems base sz n i m !! x = m !! x.
Proof.
  intros Hb Hs. revert i m. induction n as [|n IH]; intros i m Hi Ho Hx; [done|]. cbn [link_elems]. rewrite IH; [|lia| |].
  - rewrite elem_addr by nia. rewrite lookup_insert_ne; [done|]. intros E. by apply (Hx i); [lia|].
  - by replace (i + 1 + Z.of_nat n) with (i + Z.of_nat (S n)) by lia.
  - intros j Hj. apply Hx. lia.
Qed.

Lemma link_elems_chain base sz n i m :
  0 < base -> 0 < sz -> 0 <= i -> base + (i + Z.of_nat n) * sz < 2 ^ 64 ->
  sll (<[base + (i + Z.of_nat n) * sz := NULL]> (link_elems base sz n i m)) (base + i * sz) (slot_addrs base sz (S n) i).
Proof.
  intros Hb Hs. revert i m. induction n as [|n IH]; intros i m Hi Ho.
  - cbn [link_elems slot_addrs sll]. split; [done|]. split; [unfold NULL; nia|]. exists NULL.
    rewrite Z.add_0_r, lookup_insert_eq. done.
  - remember (S n) as n1. cbn [slot_addrs sll]. split; [done|]. split; [unfold NULL; nia|].
    exists (base + (i + 1) * sz). subst n1. cbn [link_elems]. split.
    + rewrite lookup_insert_ne by nia. rewrite !elem_addr by nia.
      rewrite link_elems_other; [by rewrite lookup_insert_eq|lia..|nia|intros j Hj; nia].
    + replace (i + Z.of_nat (S n)) with (i + 1 + Z.of_nat n) in * by lia. apply IH; lia.
Qed.

Lemma typed_create_ok tpool_mem memalign esz cap t :
  0 < esz -> 0 < cap -> (esz + 15) * cap < 2 ^ 64 -> memalign_ok memalign ->
  mp_typed_pool_create tpool_mem memalign esz cap = Some t ->
  esz <= elem_size t /\ elem_size t mod 8 = 0 /\ tp_capacity t = cap /\
  let raw_buf := memalign (elem_size t * cap) in
  typed_ok raw_buf t (tp_elems raw_buf (elem_size t) cap) [].
Proof.
  intros He Hc Ho Hm E. unfold mp_typed_pool_create in E.
  rewrite (proj2 (Z.eqb_neq esz 0)), (proj2 (Z.eqb_neq cap 0)) in E by lia. cbn [orb] in E.
  set (e0 := if esz <? 8 then 8 else esz) in *. assert (He0 : esz <= e0 /\ 8 <= e0 /\ e0 + 7 < 2 ^ 64).
  { unfold e0. destruct (Z.ltb_spec esz 8); nia. }
  assert (He15 : e0 + 7 <= esz + 15) by (unfold e0; destruct (Z.ltb_spec esz 8); lia).
  assert (Hal : e0 <= align8 e0 <= e0 + 7 /\ align8 e0 mod 8 = 0).
  { unfold align8. rewrite u64_small by lia. change (Z.lnot 7) with (Z.lnot (Z.ones 3)).
    rewrite <- Z.ldiff_land, Z.ldiff_ones_r by lia. rewrite Z.shiftr_div_pow2, Z.shiftl_mul_pow2 by lia.
    change (2 ^ 3) with 8. split; [zdiv|]. apply Z.mod_mul. lia. }
  destruct (tpool_mem =? NULL); [done|]. cbn zeta in E. assert (Hprod : 0 <= align8 e0 * cap < 2 ^ 64) by nia.
  rewrite (u64_small (align8 e0 * cap)) in E by done.
  destruct (Z.eqb_spec (memalign (align8 e0 * cap)) NULL) as [|Hnull]; [done|].
  destruct (Hm (align8 e0 * cap)) as [?|[Hb Hend]]; [lia|done|].
  injection E as <-. cbn [elem_size tp_capacity]. cbn zeta. set (raw_buf := memalign (align8 e0 * cap)) in *.
  split; [lia|]. split; [lia|]. split; [done|]. rewrite elem_addr by nia.
  assert (Hn : exists n, Z.to_nat cap = S n /\ Z.to_nat (cap - 1) = n /\ cap - 1 = Z.of_nat n).
  { exists (Z.to_nat (cap - 1)). lia. }
  destruct Hn as (n & En & En1 & En2).
  constructor; cbn [elem_size words tp_free_list tp_capacity active_count]; rewrite ?app_nil_r; try done; try lia.
  - unfold tp_elems. rewrite En, En1, En2.
    pose proof (link_elems_chain raw_buf (align8 e0) n 0 ∅ Hb ltac:(lia) ltac:(lia) ltac:(nia)) as H.
    rewrite Z.mul_0_l, Z.add_0_r, Z.add_0_l in H. exact H.
  - apply slot_addrs_nodup. lia.
  - intros x Hx. by apply not_elem_of_nil in Hx.
Qed.

(** A typed pool is a stack of its [capacity] objects: allocation hands out an object
    nobody holds and fails only when all are out, release makes the object the next to
    be handed out, and the active count is the number held. *)
Theorem typed_pool_spec base t F out :
  typed_ok base t F out -> tp_capacity t < 2 ^ 64 ->
  (exists p t', mp_typed_alloc t = Done (p, t') /\
     match F with
     | [] => p = NULL /\ t' = t /\ (forall x, x ∈ out <-> x ∈ tp_elems base (elem_size t) (tp_capacity t))
     | x :: F => p = x /\ (p ∉ out) /\ typed_ok base t' F (p :: out)
     end) /\
  (forall out1 p out2, out = out1 ++ p :: out2 ->
     exists t', mp_typed_free t p = Done t' /\ typed_ok base t' (p :: F) (out1 ++ out2)).
Proof.
  intros [Hb Hs Hch Hnd Hall Hw Ha] Hcap. split.
  - unfold mp_typed_alloc. destruct F as [|x F]; cbn [sll] in Hch.
    + rewrite Hch. exists NULL, t. split; [done|]. split; [done|]. split; [done|]. intros x. by rewrite <- Hall.
    + destruct Hch as (-> & Hx & n & Hn & Hch). rewrite (proj2 (Z.eqb_neq x NULL)), (ld_Some _ _ _ Hn) by done.
      cbn [mbind outcome_bind]. eexists _, _. split; [done|]. split; [done|].
      pose proof Hnd as Hnd'. cbn [app] in Hnd'. apply NoDup_cons in Hnd' as [Hxn Hnd'].
      assert (Hperm : F ++ x :: out ≡ₚ x :: F ++ out) by (by rewrite Permutation_middle).
      assert (Hlen : zlen out + 1 < 2 ^ 64).
      { assert (length (x :: F ++ out) <= Z.to_nat (tp_capacity t))%nat; [|unfold zlen; cbn [length] in *; rewrite length_app in *; lia].
        rewrite <- (length_slot_addrs base (elem_size t) (Z.to_nat (tp_capacity t)) 0).
        apply NoDup_incl_length; [by apply NoDup_ListNoDup|]. intros y Hy. apply list_elem_of_In.
        apply Hall. by apply list_elem_of_In. }
      split; [intros H; apply Hxn, elem_of_app; by right|].
      constructor; cbn [elem_size words tp_free_list tp_capacity active_count]; try done.
      * by rewrite Hperm.
      * intros y. rewrite Hperm. apply Hall.
      * intros y [->|Hy]%elem_of_cons; [by exists n|by apply Hw].
      * rewrite Ha, zlen_cons, u64_small; [lia|]. pose proof (zlen_nonneg out). lia.
  - intros out1 p out2 ->. unfold mp_typed_free.
    assert (Hp : p ∈ out1 ++ p :: out2) by (apply elem_of_app; right; apply list_elem_of_here).
    assert (Hp0 : p <> NULL).
    { assert (H : p ∈ F ++ out1 ++ p :: out2) by (apply elem_of_app; by right). apply Hall, elem_of_slot_addrs in H.
      destruct H as (j & Hj & ->). unfold NULL. nia. }
    rewrite (proj2 (Z.eqb_neq p NULL)) by done. rewrite st_is_Some by (by apply Hw). cbn [mbind outcome_bind].
    eexists. split; [done|].
    assert (Hperm : F ++ out1 ++ p :: out2 ≡ₚ p :: F ++ out1 ++ out2) by (by rewrite <- !Permutation_middle).
    rewrite Hperm in Hnd. pose proof Hnd as Hnd'. apply NoDup_cons in Hnd' as [Hpn Hnd'].
    constructor; cbn [elem_size words tp_free_list tp_capacity active_count]; try done.
    + split; [done|]. split; [done|]. exists (tp_free_list t). rewrite lookup_insert_eq. split; [done|].
      eapply sll_frame; [|exact Hch]. intros x Hx. rewrite lookup_insert_ne; [done|].
      intros ->. apply Hpn, elem_of_app. by left.
    + intros x. rewrite <- Hall. by rewrite Hperm.
    + intros x Hx. destruct (decide (x = p)) as [->|Hne]; [rewrite lookup_insert_eq; eauto|].
      rewrite lookup_insert_ne by done. apply Hw. rewrite elem_of_app, elem_of_cons. rewrite elem_of_app in Hx. tauto.
    + rewrite Ha, zlen_app, zlen_cons, zlen_app. pose proof (zlen_nonneg out1). pose proof (zlen_nonneg out2).
      rewrite (proj2 (Z.ltb_lt _ _)) by lia. lia.
Qed.

Lemma typed_pool_spec_witness :
  exists t, mp_typed_pool_create 1 demo_memalign 12 3 = Some t /\
    exists p t', mp_typed_alloc t = Done (p, t') /\ p = 4096 /\ p ∉ [].
Proof.
  destruct (mp_typed_pool_create 1 demo_memalign 12 3) as [t|] eqn:E; [|discriminate E].
  exists t. split; [exact (eq_refl (Some t))|].
  destruct (typed_create_ok 1 demo_memalign 12 3 t ltac:(lia) ltac:(lia) ltac:(lia) demo_memalign_ok E) as (_ & _ & Hcap & Hok).
  destruct (typed_pool_spec _ _ _ _ Hok ltac:(rewrite Hcap; lia)) as [(p & t' & Ea & H) _].
  exists p, t'. destruct H as (Hp & Hn & _). split; [exact Ea|]. split; [|exact Hn].
  assert (Es : elem_size t = 16) by (injection E as <-; reflexivity). rewrite Hp, Es. reflexivity.
Defined.
