(* ===== verification/Slab.v ===== *)
(** * The slab tier

    Pages and slots of one size class ([src/cmem_slab.c]): carving a page, taking a slot
    from the class, putting one back, and the moves of a page between the partial, full
    and empty lists.  The first word of every slot (its free-list link) is one map; the
    page headers are another.  Each function is one critical section of the class lock. *)
From S2P Require Import Prelude Header Dll.
From Stdlib Require Import ZArith Lia.
From stdpp Require Import base option list gmap.
Open Scope Z_scope.

Definition SLAB_PAGE_SIZE : Z := 64 * 1024.
Definition SIZEOF_SLAB_PAGE : Z := 72.
Definition SLAB_TRANS_FULL_TO_PARTIAL : Z := 1.
Definition SLAB_TRANS_PARTIAL_TO_EMPTY : Z := 2.

(** [mmap] of anonymous memory and [munmap]: a mapping is fresh, zero-filled address
    space that does not reach the top of it. *)
Class Mmap := {
  vm : Type;
  mmap : vm -> Z -> option Z * vm;      (* [None] is [MAP_FAILED] *)
  munmap : vm -> Z -> Z -> vm;
  mapped : vm -> Z -> Prop;
  mmap_spec : forall o n r o', 0 < n -> mmap o n = (r, o') ->
    match r with
    | None => forall x, mapped o' x <-> mapped o x
    | Some p => 0 < p /\ p + n < 2 ^ 64 /\ (forall x, p <= x < p + n -> ~ mapped o x) /\
                forall x, mapped o' x <-> mapped o x \/ p <= x < p + n
    end;
  munmap_spec : forall o p n x, mapped (munmap o p n) x <-> mapped o x /\ ~ (p <= x < p + n);
}.

(** [struct mp_slab_page]; the list links are kept in the list store and
    [page_raw_mem] is the page's own address. *)
Record slab_page := Page {
  class_index : Z;
  free_count : Z;
  page_free_count : Z;
  total_slots : Z;
  page_free_list : Z;
  is_hot : bool;
  idle_since_ts : Z;
}.

(** One [mp_slab_class_t] with its remote-free queue. *)
Record slab_class := SClass {
  class_idx : Z;
  slot_size : Z;
  partial_pages : Z;
  full_pages : Z;
  empty_pages : Z;
  empty_page_count : Z;
  remote_free_queue : Z;
  remote_free_pending_class : bool;
}.

Definition set_partial (c : slab_class) p := SClass (class_idx c) (slot_size c) p (full_pages c) (empty_pages c)
  (empty_page_count c) (remote_free_queue c) (remote_free_pending_class c).
Definition set_full (c : slab_class) p := SClass (class_idx c) (slot_size c) (partial_pages c) p (empty_pages c)
  (empty_page_count c) (remote_free_queue c) (remote_free_pending_class c).
Definition set_empty (c : slab_class) p n := SClass (class_idx c) (slot_size c) (partial_pages c) (full_pages c) p
  n (remote_free_queue c) (remote_free_pending_class c).
Definition set_queue (c : slab_class) q b := SClass (class_idx c) (slot_size c) (partial_pages c) (full_pages c)
  (empty_pages c) (empty_page_count c) q b.

Section Slab.
Context `{MM : Mmap}.

(** What the classes of a pool share: page headers and their links, slot links, the
    pool's flags and counters, and the machine underneath. *)
Record slab_mem := Mem {
  pages : gmap Z slab_page;
  plinks : links;
  snext : gmap Z Z;
  sflags : Z;
  slab_allocated_bytes : Z;
  total_pool_size : Z;
  now_ms : Z;
  os : vm;
}.

Definition set_pages (m : slab_mem) g := Mem g (plinks m) (snext m) (sflags m) (slab_allocated_bytes m)
  (total_pool_size m) (now_ms m) (os m).
Definition set_plinks (m : slab_mem) k := Mem (pages m) k (snext m) (sflags m) (slab_allocated_bytes m)
  (total_pool_size m) (now_ms m) (os m).
Definition set_snext (m : slab_mem) g := Mem (pages m) (plinks m) g (sflags m) (slab_allocated_bytes m)
  (total_pool_size m) (now_ms m) (os m).
Definition set_bytes (m : slab_mem) n := Mem (pages m) (plinks m) (snext m) (sflags m) n
  (total_pool_size m) (now_ms m) (os m).
Definition set_os (m : slab_mem) o := Mem (pages m) (plinks m) (snext m) (sflags m) (slab_allocated_bytes m)
  (total_pool_size m) (now_ms m) o.

Definition ldp (m : slab_mem) (a : Z) : outcome slab_page :=
  match pages m !! a with Some p => Done p | None => Fault end.
Definition stp (m : slab_mem) (a : Z) (p : slab_page) : outcome slab_mem :=
  match pages m !! a with Some _ => Done (set_pages m (<[a := p]> (pages m))) | None => Fault end.
Definition st_slot (m : slab_mem) (a v : Z) : outcome slab_mem :=
  g ← st (snext m) a v; Done (set_snext m g).

(** ** Page lists *)

(** [list = page->next; if (page->next) page->next->prev = NULL;] *)
Definition list_pop (m : slab_mem) (page : Z) : outcome (slab_mem * Z) :=
  n ← ld (nxt (plinks m)) page;
  if n =? NULL then Done (m, n)
  else k ← set_prv (plinks m) n NULL; Done (set_plinks m k, n).

(** [page->next = head; page->prev = NULL; if (head) head->prev = page;] *)
Definition list_push (m : slab_mem) (head page : Z) : outcome slab_mem :=
  k ← dll_push_front (plinks m) head page; Done (set_plinks m k).

Definition list_unlink (m : slab_mem) (head page : Z) : outcome (slab_mem * Z) :=
  r ← dll_unlink (plinks m) head page; let '(k, head) := r in Done (set_plinks m k, head).

(** ** Creating a page *)

Definition total_slot_size (flags slot_payload_size : Z) : Z :=
  let n := u64 (SIZEOF_HEADER + slot_payload_size + (if has_flag flags MP_FLAG_DEBUG_CANARY then 1 else 0)) in
  Z.land (u64 (n + CMEM_SLAB_ALIGN_MASK)) (Z.lnot CMEM_SLAB_ALIGN_MASK).

(** [slot->next = i < total_slots - 1 ? slot + total_slot_size : NULL] for [n] slots from [i]. *)
Fixpoint carve_slots (ptr sz : Z) (total : Z) (n : nat) (i : Z) (g : gmap Z Z) : gmap Z Z :=
  match n with
  | O => g
  | S n =>
      let v := if i <? total - 1 then ptr + (i + 1) * sz else NULL in
      carve_slots ptr sz total n (i + 1) (<[ptr + i * sz := v]> g)
  end.

(** A page-aligned region of one page cut out of a larger mapping. *)
Definition map_page (o : vm) : option Z * vm :=
  let map_size := SLAB_PAGE_SIZE + SLAB_PAGE_SIZE - 1 in
  match mmap o map_size with
  | (None, o) => (None, o)
  | (Some start, o) =>
      let aligned := Z.land (u64 (start + SLAB_PAGE_SIZE - 1)) (Z.lnot (SLAB_PAGE_SIZE - 1)) in
      if u64 (start + map_size) <? u64 (aligned + SLAB_PAGE_SIZE) then (None, munmap o start map_size)
      else
        let o := if start <? aligned then munmap o start (aligned - start) else o in
        let o := if aligned + SLAB_PAGE_SIZE <? start + map_size
                 then munmap o (aligned + SLAB_PAGE_SIZE) (start + map_size - aligned - SLAB_PAGE_SIZE) else o in
        (Some aligned, o)
  end.

Definition slab_create_page (m : slab_mem) (sc : slab_class) : Z * slab_mem :=
  let sz := total_slot_size (sflags m) (slot_size sc) in
  match map_page (os m) with
  | (None, o) => (NULL, set_os m o)
  | (Some page, o) =>
      let total := u16 ((SLAB_PAGE_SIZE - SIZEOF_SLAB_PAGE) / sz) in
      let ptr := page + SIZEOF_SLAB_PAGE in
      (* the fresh page reads as zero *)
      let g := carve_slots ptr sz total (Z.to_nat total) 0 (<[ptr := NULL]> (snext m)) in
      let k := Links (<[page := NULL]> (nxt (plinks m))) (<[page := NULL]> (prv (plinks m))) in
      (page, Mem (<[page := Page (class_idx sc) total total total ptr false 0]> (pages m)) k g
               (sflags m) (slab_allocated_bytes m) (u64 (total_pool_size m + SLAB_PAGE_SIZE)) (now_ms m) o)
  end.

(** ** Taking a slot *)

(** A page with a free slot at the head of the partial list: the one there, a kept empty
    page, or a fresh one ([NULL] when there is none). *)
Definition ensure_partial (m : slab_mem) (sc : slab_class) : outcome (Z * slab_mem * slab_class) :=
  let page := partial_pages sc in
  if negb (page =? NULL) then Done (page, m, sc)
  else if negb (empty_pages sc =? NULL) then
    let page := empty_pages sc in
    r ← list_pop m page;
    let '(m, rest) := r in
    let sc := set_empty sc rest (u64 (empty_page_count sc - 1)) in
    m ← list_push m (partial_pages sc) page;
    Done (page, m, set_partial sc page)
  else
    let '(page, m) := slab_create_page m sc in
    if page =? NULL then Done (NULL, m, sc)
    else m ← list_push m (partial_pages sc) page; Done (page, m, set_partial sc page).

(** [slot = page->free_list; page->free_list = slot->next; page->free_count--;] and the move
    of an exhausted page to the full list. *)
Definition take_slot (m : slab_mem) (sc : slab_class) (page : Z) : outcome (Z * slab_mem * slab_class) :=
  p ← ldp m page;
  let slot := page_free_list p in
  next ← ld (snext m) slot;
  let n := u16 (free_count p - 1) in
  m ← stp m page (Page (class_index p) n (page_free_count p) (total_slots p) next (is_hot p) (idle_since_ts p));
  if n =? 0 then
    r ← list_pop m page;
    let '(m, rest) := r in
    let sc := set_partial sc rest in
    m ← list_push m (full_pages sc) page;
    Done (slot, m, set_full sc page)
  else Done (slot, m, sc).

(** ** Returning a slot *)

(** [page_base = raw_base & ~(SLAB_PAGE_SIZE - 1)]. *)
Definition page_of (raw_base : Z) : Z := Z.land raw_base (Z.lnot (SLAB_PAGE_SIZE - 1)).

Definition slab_free_nolock (m : slab_mem) (slot : Z) : outcome (Z * slab_mem) :=
  let page := page_of slot in
  p ← ldp m page;
  let was_full := free_count p =? 0 in
  m ← st_slot m slot (page_free_list p);
  let n := u16 (free_count p + 1) in
  let pf := if has_flag (sflags m) MP_FLAG_THREAD_SAFE then n else page_free_count p in
  m ← stp m page (Page (class_index p) n pf (total_slots p) slot (is_hot p) (idle_since_ts p));
  let will_be_empty := n =? total_slots p in
  Done (Z.lor (if was_full then SLAB_TRANS_FULL_TO_PARTIAL else 0)
              (if will_be_empty then SLAB_TRANS_PARTIAL_TO_EMPTY else 0), m).

(** The page transitions its callers apply. *)
Definition apply_transitions (m : slab_mem) (sc : slab_class) (slot trans : Z) : outcome (slab_mem * slab_class) :=
  let pg := page_of slot in
  r ← (if has_flag trans SLAB_TRANS_FULL_TO_PARTIAL then
         r ← list_unlink m (full_pages sc) pg;
         let '(m, head) := r in
         let sc := set_full sc head in
         m ← list_push m (partial_pages sc) pg;
         Done (m, set_partial sc pg)
       else Done (m, sc));
  let '(m, sc) := r in
  if has_flag trans SLAB_TRANS_PARTIAL_TO_EMPTY then
    p ← ldp m pg;
    m ← stp m pg (Page (class_index p) (free_count p) (page_free_count p) (total_slots p) (page_free_list p)
                    (is_hot p) (now_ms m));
    r ← list_unlink m (partial_pages sc) pg;
    let '(m, head) := r in
    let sc := set_partial sc head in
    m ← list_push m (empty_pages sc) pg;
    Done (m, set_empty sc pg (u64 (empty_page_count sc + 1)))
  else Done (m, sc).

(** [slab_allocated_bytes] never goes below zero. *)
Definition release_bytes (m : slab_mem) (n : Z) : slab_mem :=
  set_bytes m (if n <=? slab_allocated_bytes m then slab_allocated_bytes m - n else 0).

Definition slab_free (m : slab_mem) (sc : slab_class) (slot : Z) : outcome (slab_mem * slab_class) :=
  let m := release_bytes m (slot_size sc) in
  r ← slab_free_nolock m slot;
  let '(trans, m) := r in
  apply_transitions m sc slot trans.

(** ** The remote-free queue *)

Definition remote_free_push (m : slab_mem) (sc : slab_class) (slot : Z) : outcome (slab_mem * slab_class) :=
  if slot =? NULL then Done (m, sc)
  else m ← st_slot m slot (remote_free_queue sc); Done (m, set_queue sc slot true).

Fixpoint harvest_loop (fuel : nat) (m : slab_mem) (sc : slab_class) (slot : Z) : outcome (slab_mem * slab_class) :=
  match fuel with
  | O => Fault
  | S fuel =>
      if slot =? NULL then Done (m, sc)
      else if bad_slot slot then Done (m, sc)
      else
        next ← ld (snext m) slot;
        r ← slab_free_nolock m slot;
        let '(trans, m) := r in
        r ← apply_transitions m sc slot trans;
        let '(m, sc) := r in
        harvest_loop fuel (release_bytes m (slot_size sc)) sc next
  end.

Definition slot_fuel (m : slab_mem) : nat := S (base.size (snext m)).

Definition remote_free_harvest (m : slab_mem) (sc : slab_class) : outcome (slab_mem * slab_class) :=
  if negb (remote_free_pending_class sc) then Done (m, sc)
  else
    let slot := remote_free_queue sc in
    harvest_loop (slot_fuel m) m (set_queue sc NULL false) slot.

(** ** Allocation *)

Definition slab_alloc_slot (m : slab_mem) (sc : slab_class) : outcome (Z * slab_mem * slab_class) :=
  r ← (if remote_free_pending_class sc then remote_free_harvest m sc else Done (m, sc));
  let '(m, sc) := r in
  r ← ensure_partial m sc;
  let '(page, m, sc) := r in
  if page =? NULL then Done (NULL, m, sc)
  else
    r ← take_slot m sc page;
    let '(slot, m, sc) := r in
    Done (slot, set_bytes m (u64 (slab_allocated_bytes m + slot_size sc)), sc).

(** [slab_alloc]: the payload and the header stamped in front of it. *)
Definition slab_alloc (m : slab_mem) (sc : slab_class) (req_size : Z)
    : outcome (option (Z * mp_block_header) * slab_mem * slab_class) :=
  r ← slab_alloc_slot m sc;
  let '(slot, m, sc) := r in
  if slot =? NULL then Done (None, m, sc)
  else
    let header := Header.Header MP_MAGIC_HEAD ALLOC_TYPE_SLAB (class_idx sc) 0 req_size (slot_size sc) slot NULL NULL 0 NULL 0 in
    Done (Some (slot + SIZEOF_HEADER, header), m, sc).

(** The loop that [slab_alloc_batch] and the cache refills share: up to [n] slots, in the
    order they are taken. *)
Fixpoint take_slots (n : nat) (m : slab_mem) (sc : slab_class) : outcome (list Z * slab_mem * slab_class) :=
  match n with
  | O => Done ([], m, sc)
  | S n =>
      r ← ensure_partial m sc;
      let '(page, m, sc) := r in
      if page =? NULL then Done ([], m, sc)
      else
        r ← take_slot m sc page;
        let '(slot, m, sc) := r in
        r ← take_slots n m sc;
        let '(slots, m, sc) := r in
        Done (slot :: slots, m, sc)
  end.

Definition slab_alloc_batch (m : slab_mem) (sc : slab_class) (max_count : Z) : outcome (list Z * slab_mem * slab_class) :=
  r ← take_slots (Z.to_nat max_count) m sc;
  let '(slots, m, sc) := r in
  Done (slots, set_bytes m (u64 (slab_allocated_bytes m + u64 (zlen slots * slot_size sc))), sc).


(** ** Page geometry *)

Lemma page_of_eq x : page_of x = x - x mod SLAB_PAGE_SIZE.
Proof.
  unfold page_of. change (SLAB_PAGE_SIZE - 1) with (Z.ones 16). change SLAB_PAGE_SIZE with (2 ^ 16).
  rewrite <- Z.ldiff_land, Z.ldiff_ones_r, Z.shiftr_div_pow2, Z.shiftl_mul_pow2 by lia.
  pose proof (Z.div_mod x (2 ^ 16)). lia.
Qed.

Lemma page_of_range pg x : pg mod SLAB_PAGE_SIZE = 0 -> pg <= x < pg + SLAB_PAGE_SIZE -> page_of x = pg.
Proof.
  intros Hm Hx. rewrite page_of_eq. change SLAB_PAGE_SIZE with 65536 in *.
  assert (x mod 65536 = x - pg); [|lia]. rewrite <- (Z.mod_small (x - pg) 65536) by lia.
  by rewrite Zminus_mod, Hm, Z.sub_0_r, Z.mod_mod by lia.
Qed.

Definition page_slots (sz n pg : Z) : list Z := slot_addrs (pg + SIZEOF_SLAB_PAGE) sz (Z.to_nat n) 0.

(** The slot size and the number of slots of a class fit a page. *)
Definition geometry (sz n : Z) : Prop :=
  SIZEOF_HEADER <= sz /\ sz mod 8 = 0 /\ 1 <= n /\ n * sz + SIZEOF_SLAB_PAGE <= SLAB_PAGE_SIZE.

Lemma page_slots_range sz n pg x :
  geometry sz n -> x ∈ page_slots sz n pg -> pg + SIZEOF_SLAB_PAGE <= x /\ x + sz <= pg + SLAB_PAGE_SIZE.
Proof.
  intros (Hs & _ & Hn & Hb) Hx. unfold SIZEOF_HEADER in Hs.
  apply elem_of_slot_addrs in Hx as (j & Hj & ->).
  assert ((j + 1) * sz <= n * sz) by (apply Z.mul_le_mono_nonneg_r; lia). assert (0 <= j * sz) by (apply Z.mul_nonneg_nonneg; lia). lia.
Qed.

Lemma page_of_slot sz n pg x :
  geometry sz n -> pg mod SLAB_PAGE_SIZE = 0 -> x ∈ page_slots sz n pg -> page_of x = pg.
Proof.
  intros Hg Hm Hx. destruct (page_slots_range _ _ _ _ Hg Hx). destruct Hg as (Hs & _).
  unfold SIZEOF_HEADER, SIZEOF_SLAB_PAGE in *. apply page_of_range; [done|lia].
Qed.

Lemma page_slots_nodup sz n pg : geometry sz n -> NoDup (page_slots sz n pg).
Proof. intros (Hs & _). unfold SIZEOF_HEADER in Hs. apply slot_addrs_nodup. lia. Qed.

Lemma length_page_slots sz n pg : geometry sz n -> zlen (page_slots sz n pg) = n.
Proof. intros (_ & _ & Hn & _). unfold zlen, page_slots. rewrite length_slot_addrs. lia. Qed.

(** ** The state of a page *)

Record page_ok (m : slab_mem) (sz n pg : Z) (Fr : list Z) : Prop := {
  pg_pos : 0 < pg;
  pg_aligned : pg mod SLAB_PAGE_SIZE = 0;
  pg_header : exists p, pages m !! pg = Some p /\ free_count p = zlen Fr /\ total_slots p = n /\
                sll (snext m) (page_free_list p) Fr;
  pg_nodup : NoDup Fr;
  pg_free : forall x, x ∈ Fr -> x ∈ page_slots sz n pg;
  pg_slots : forall x, x ∈ page_slots sz n pg -> is_Some (snext m !! x);
  pg_node : has_node (plinks m) pg;
  pg_mapped : forall x, pg <= x < pg + SLAB_PAGE_SIZE -> mapped (os m) x;
}.

(** What an operation on the pages [S] leaves alone. *)
Record outside (S : list Z) (m m' : slab_mem) : Prop := {
  os_pages : forall pg, pg ∉ S -> pages m' !! pg = pages m !! pg;
  os_links : frame S (plinks m) (plinks m');
  os_snext : forall x, page_of x ∉ S -> snext m' !! x = snext m !! x;
  os_some : forall x, is_Some (snext m !! x) -> is_Some (snext m' !! x);
  os_mapped : forall x, mapped (os m) x -> mapped (os m') x;
  os_flags : sflags m' = sflags m;
}.

Lemma outside_refl S m : outside S m m.
Proof. by constructor. Qed.

Lemma outside_trans S m1 m2 m3 : outside S m1 m2 -> outside S m2 m3 -> outside S m1 m3.
Proof.
  intros [A1 A2 A3 A4 A5 A6] [B1 B2 B3 B4 B5 B6]. constructor; auto.
  - intros pg Hp. rewrite B1, A1; done.
  - by eapply frame_trans.
  - intros x Hx. rewrite B3, A3; done.
  - by rewrite B6.
Qed.

Lemma outside_mono S S' m m' : (forall x, x ∈ S -> x ∈ S') -> outside S m m' -> outside S' m m'.
Proof.
  intros HS [A1 A2 A3 A4 A5 A6]. constructor; auto. by eapply frame_mono.
Qed.

Lemma outside_links S (m : slab_mem) k : frame S (plinks m) k -> outside S m (set_plinks m k).
Proof. intros F. by constructor. Qed.

Lemma outside_bytes S (m : slab_mem) b : outside S m (set_bytes m b).
Proof. by constructor. Qed.

Lemma page_ok_outside S m m' sz n pg Fr :
  geometry sz n -> outside S m m' -> pg ∉ S -> page_ok m sz n pg Fr -> page_ok m' sz n pg Fr.
Proof.
  intros Hg [A1 A2 A3 A4 A5 A6] Hp [Hpos Hal (p & E & Hc & Ht & Hs) Hnd Hf Hsl Hn Hm].
  constructor; auto.
  - exists p. rewrite A1 by done. split; [done|]. split; [done|]. split; [done|].
    eapply sll_frame; [|exact Hs]. intros x Hx. apply A3. rewrite (page_of_slot sz n pg); auto.
  - by apply A2.
Qed.

(** ** The invariant of a class *)

Definition all_pages (P F E : list (Z * list Z)) : list (Z * list Z) := P ++ F ++ E.

(** [P], [F], [E]: the partial, full and empty pages, each with its free slots; [out]: the
    slots handed out. *)
Record slab_ok (sz n : Z) (m : slab_mem) (sc : slab_class) (P F E : list (Z * list Z)) (out : list Z) : Prop := {
  so_geometry : geometry sz n;
  so_sz : sz = total_slot_size (sflags m) (slot_size sc);
  so_n : n = u16 ((SLAB_PAGE_SIZE - SIZEOF_SLAB_PAGE) / sz);
  so_partial : dll (plinks m) (partial_pages sc) (map fst P);
  so_full : dll (plinks m) (full_pages sc) (map fst F);
  so_empty : dll (plinks m) (empty_pages sc) (map fst E);
  so_nodup : NoDup (map fst (all_pages P F E));
  so_pages : forall pg Fr, (pg, Fr) ∈ all_pages P F E -> page_ok m sz n pg Fr;
  so_free : (forall pg Fr, (pg, Fr) ∈ P -> Fr <> []) /\ (forall pg Fr, (pg, Fr) ∈ F -> Fr = []) /\
            (forall pg Fr, (pg, Fr) ∈ E -> zlen Fr = n);
  so_ecount : empty_page_count sc = u64 (zlen E);
  so_out_nodup : NoDup out;
  so_out : forall x, x ∈ out <-> exists pg Fr, (pg, Fr) ∈ all_pages P F E /\ x ∈ page_slots sz n pg /\ x ∉ Fr;
}.

Lemma all_nodup P F E :
  NoDup (map fst (all_pages P F E)) <->
  NoDup (map fst P) /\ NoDup (map fst F) /\ NoDup (map fst E) /\
  (forall x, x ∈ map fst P -> (x ∉ map fst F) /\ (x ∉ map fst E)) /\ (forall x, x ∈ map fst F -> x ∉ map fst E).
Proof.
  unfold all_pages. rewrite !map_app, !NoDup_app. setoid_rewrite not_elem_of_app. tauto.
Qed.

Lemma elem_fst (P : list (Z * list Z)) pg Fr : (pg, Fr) ∈ P -> pg ∈ map fst P.
Proof. intros H. apply list_elem_of_fmap. by exists (pg, Fr). Qed.

(** Every page of the class is at another address. *)
Lemma page_unique (P : list (Z * list Z)) pg (Fr Fr' : list Z) : NoDup (map fst P) -> (pg, Fr) ∈ P -> (pg, Fr') ∈ P -> Fr = Fr'.
Proof.
  induction P as [|[q G] P IH]; intros Hd H1 H2; [by apply not_elem_of_nil in H1|].
  cbn in Hd. apply NoDup_cons in Hd as [Hn Hd]. apply elem_of_cons in H1, H2.
  destruct H1 as [E1|H1], H2 as [E2|H2]; [congruence| | |by apply IH].
  - exfalso. apply Hn. replace q with pg by congruence. by eapply elem_fst.
  - exfalso. apply Hn. replace q with pg by congruence. by eapply elem_fst.
Qed.

(** ** Page list moves *)

Lemma list_pop_spec (m : slab_mem) x l :
  dll (plinks m) x (x :: l) ->
  exists k hd, list_pop m x = Done (set_plinks m k, hd) /\ dll k hd l /\ frame l (plinks m) k.
Proof.
  intros [(_ & Hx & Hp & n & Hn & Hs) Hd]. apply NoDup_cons in Hd as [Hxl Hd].
  unfold list_pop. rewrite (ld_Some _ _ _ Hn). cbn [mbind outcome_bind].
  destruct l as [|y l].
  - cbn in Hs. subst n. rewrite Z.eqb_refl. exists (plinks m), NULL.
    split; [by destruct m|]. split; [apply dll_nil|apply frame_refl].
  - pose proof Hs as (-> & Hy & _). rewrite (proj2 (Z.eqb_neq y NULL) Hy).
    destruct (seg_node _ _ _ _ _ y Hs (list_elem_of_here _ _)) as [Hnode _].
    rewrite set_prv_node by done. cbn [mbind outcome_bind]. eexists _, _. split; [done|]. split.
    + split; [|done]. by apply seg_set_first with (pv := x).
    + apply frame_prv, list_elem_of_here.
Qed.

Lemma list_push_spec (m : slab_mem) hd l x :
  dll (plinks m) hd l -> x ∉ l -> x <> NULL -> has_node (plinks m) x ->
  exists k, list_push m hd x = Done (set_plinks m k) /\ dll k x (x :: l) /\ frame (x :: l) (plinks m) k.
Proof.
  intros Hd Hx Hx0 Hn. destruct (dll_push_front_spec _ _ _ _ Hd Hx Hx0 Hn) as (k & E & Hd' & Fr).
  exists k. unfold list_push. rewrite E. done.
Qed.

Lemma list_unlink_spec (m : slab_mem) hd l1 x l2 :
  dll (plinks m) hd (l1 ++ x :: l2) ->
  exists k hd', list_unlink m hd x = Done (set_plinks m k, hd') /\ dll k hd' (l1 ++ l2) /\
    frame (l1 ++ l2) (plinks m) k.
Proof.
  intros Hd. destruct (dll_unlink_spec _ _ _ _ _ Hd) as (k & hd' & E & Hd' & Fr). exists k, hd'.
  unfold list_unlink. rewrite E. done.
Qed.

(** ** Creating a page *)

Lemma map_page_spec o r o' :
  map_page o = (r, o') ->
  (forall x, mapped o x -> mapped o' x) /\
  match r with
  | None => True
  | Some pg => 0 < pg /\ pg mod SLAB_PAGE_SIZE = 0 /\
      (forall x, pg <= x < pg + SLAB_PAGE_SIZE -> mapped o' x /\ ~ mapped o x)
  end.
Proof.
  unfold map_page. set (map_size := SLAB_PAGE_SIZE + SLAB_PAGE_SIZE - 1).
  destruct (mmap o map_size) as [[start|] o1] eqn:Em;
    pose proof (mmap_spec o map_size _ _ ltac:(done) Em) as Hs; cbn in Hs.
  2: { intros [= <- <-]. split; [|done]. intros x. by rewrite Hs. }
  destruct Hs as (Hpos & Htop & Hfresh & Hmap). unfold map_size, SLAB_PAGE_SIZE in *.
  set (al := Z.land _ _). assert (Hal : start <= al < start + 65536 /\ al mod 65536 = 0).
  { unfold al. rewrite u64_small by lia. pose proof (page_of_eq (start + 64 * 1024 - 1)) as Hp.
    unfold page_of, SLAB_PAGE_SIZE in Hp. rewrite Hp. change (64 * 1024) with 65536 in *. zdiv. }
  clearbody al. change (64 * 1024) with 65536 in *. rewrite !u64_small by lia.
  destruct (Z.ltb_spec (start + (65536 + 65536 - 1)) (al + 65536)) as [Hbad|Hok].
  - intros [= <- <-]. split; [|done]. intros x Hx. apply munmap_spec. rewrite Hmap. split; [by left|].
    intros Hr. by apply (Hfresh x).
  - intros E. assert (Hm' : forall x, mapped o' x <-> mapped o1 x /\ ~ (start <= x < al) /\
      ~ (al + 65536 <= x < start + (65536 + 65536 - 1))).
    { injection E as _ <-. intros x. destruct (Z.ltb_spec start al), (Z.ltb_spec (al + 65536) (start + (65536 + 65536 - 1)));
        rewrite ?munmap_spec; split; intros Hx; split_and?; try tauto; try lia. all: destruct Hx as [[? ?] ?] || destruct Hx as [? ?]; lia. }
    injection E as <- _. split.
    + intros x Hx. apply Hm'. rewrite Hmap. split; [by left|]. split; intros Hr; apply (Hfresh x); (done || lia).
    + split; [lia|]. split; [lia|]. intros x Hx. split.
      * apply Hm'. rewrite Hmap. split; [right; lia|]. split; lia.
      * apply Hfresh. lia.
Qed.

Lemma carve_other ptr sz total n i g x :
  (forall j, i <= j < i + Z.of_nat n -> x <> ptr + j * sz) -> carve_slots ptr sz total n i g !! x = g !! x.
Proof.
  revert i g. induction n as [|n IH]; intros i g Hx; [done|]. cbn [carve_slots]. rewrite IH.
  - rewrite lookup_insert_ne; [done|]. intros E. by apply (Hx i); [lia|].
  - intros j Hj. apply Hx. lia.
Qed.

Lemma carve_sll ptr sz total n i g :
  0 < ptr -> 0 < sz -> 0 <= i -> i + Z.of_nat (S n) = total ->
  sll (carve_slots ptr sz total (S n) i g) (ptr + i * sz) (slot_addrs ptr sz (S n) i).
Proof.
  intros Hp Hs. revert i g. induction n as [|n IH]; intros i g Hi Ht.
  - cbn [carve_slots slot_addrs sll]. rewrite (proj2 (Z.ltb_ge i (total - 1))) by lia.
    split; [done|]. split; [unfold NULL; nia|]. exists NULL. by rewrite lookup_insert_eq.
  - remember (S n) as n1. cbn [slot_addrs sll]. split; [done|]. split; [unfold NULL; nia|].
    exists (ptr + (i + 1) * sz). subst n1. split.
    + remember (S n) as n1. cbn [carve_slots]. rewrite carve_other by (intros j Hj; nia). rewrite lookup_insert_eq.
      by rewrite (proj2 (Z.ltb_lt i (total - 1))) by lia.
    + change (sll (carve_slots ptr sz total (S n) (i + 1) (<[ptr + i * sz := if i <? total - 1 then ptr + (i + 1) * sz else NULL]> g))
        (ptr + (i + 1) * sz) (slot_addrs ptr sz (S n) (i + 1))). apply IH; lia.
Qed.

Lemma carve_some ptr sz total n i g x :
  is_Some (g !! x) \/ x ∈ slot_addrs ptr sz n i -> is_Some (carve_slots ptr sz total n i g !! x).
Proof.
  revert i g. induction n as [|n IH]; intros i g; cbn [slot_addrs carve_slots].
  - intros [?|Hx]; [done|by apply not_elem_of_nil in Hx].
  - rewrite elem_of_cons. intros Hx. apply IH. destruct (decide (x = ptr + i * sz)) as [->|Hne].
    + left. rewrite lookup_insert_eq. eauto.
    + rewrite lookup_insert_ne by done. tauto.
Qed.

Lemma slab_create_page_spec sz n m sc P F E out page m' :
  slab_ok sz n m sc P F E out -> slab_create_page m sc = (page, m') ->
  slab_allocated_bytes m' = slab_allocated_bytes m /\
  if page =? NULL then slab_ok sz n m' sc P F E out /\ outside [] m m' /\ snext m' = snext m
  else (page ∉ map fst (all_pages P F E)) /\ page_ok m' sz n page (page_slots sz n page) /\ outside [page] m m' /\
       slab_ok sz n m' sc P F E out.
Proof.
  intros Hok E0. pose proof Hok as [Hg Hsz Hn HP HF HE Hnd Hpg Hfr Hec Hond Hout]. unfold slab_create_page in E0.
  rewrite <- Hsz in E0. rewrite <- Hn in E0. destruct (map_page (os m)) as [[pg|] o] eqn:Em;
    destruct (map_page_spec _ _ _ Em) as [Hmono Hr].
  2: { injection E0 as <- <-. split; [done|]. cbn [Z.eqb NULL]. split; [|split; [|done]].
    - assert (Ho : outside [] m (set_os m o)) by (constructor; try done; apply frame_refl).
      constructor; try done. intros pg Fr Hin. eapply page_ok_outside; [done|exact Ho|apply not_elem_of_nil|by apply Hpg].
    - by constructor. }
  destruct Hr as (Hpos & Hal & Hmap). injection E0 as <- <-. split; [done|].
  rewrite (proj2 (Z.eqb_neq pg NULL)) by (unfold NULL; lia).
  assert (Hnew : pg ∉ map fst (all_pages P F E)).
  { intros Hin. apply list_elem_of_fmap in Hin as ([q Fr] & Eq & Hin). cbn in Eq. subst q.
    pose proof (Hpg _ _ Hin) as Hp. destruct (Hmap pg) as [_ Hno]; [unfold SLAB_PAGE_SIZE; lia|]. apply Hno.
    apply (pg_mapped _ _ _ _ _ Hp). unfold SLAB_PAGE_SIZE. lia. }
  assert (Hsp : forall x, x ∈ page_slots sz n pg -> page_of x = pg) by (intros x; by apply page_of_slot).
  set (m' := Mem _ _ _ _ _ _ _ _).
  assert (Hptr : page_of (pg + SIZEOF_SLAB_PAGE) = pg) by (apply page_of_range; [done|unfold SIZEOF_SLAB_PAGE, SLAB_PAGE_SIZE; lia]).
  assert (Ho : outside [pg] m m').
  { constructor; cbn [m' pages plinks snext os sflags]; try done.
    - intros x Hx. rewrite list_elem_of_singleton in Hx. by rewrite lookup_insert_ne.
    - eapply frame_trans; [apply (frame_nxt [pg] (plinks m) pg NULL); by apply list_elem_of_singleton|].
      exact (frame_prv [pg] (Links (<[pg := NULL]> (nxt (plinks m))) (prv (plinks m))) pg NULL (list_elem_of_here _ _)).
    - intros x Hx. rewrite list_elem_of_singleton in Hx. rewrite carve_other.
      + rewrite lookup_insert_ne; [done|]. by intros <-.
      + intros j Hj ->. apply Hx. apply Hsp. apply elem_of_slot_addrs. exists j. split; [lia|done].
    - intros x Hx. apply carve_some. left. destruct (decide (x = pg + SIZEOF_SLAB_PAGE)) as [->|];
        [rewrite lookup_insert_eq; eauto|by rewrite lookup_insert_ne]. }
  pose proof Hg as (Hg1 & Hg2 & Hg3 & Hg4).
  split; [done|]. split; [|split; [done|]].
  - assert (En : exists k, Z.to_nat n = S k /\ n = Z.of_nat (S k)) by (exists (Z.to_nat (n - 1)); lia).
    destruct En as (k & Ek & Ek'). unfold SIZEOF_HEADER, SIZEOF_SLAB_PAGE in *.
    constructor; cbn [m' pages plinks snext os]; try done.
    + eexists. rewrite lookup_insert_eq. split; [done|]. cbn [free_count total_slots page_free_list].
      split; [by rewrite length_page_slots|]. split; [done|]. unfold page_slots. rewrite Ek.
      pose proof (carve_sll (pg + 72) sz n k 0 (<[pg + 72 := NULL]> (snext m)) ltac:(lia) ltac:(lia) ltac:(lia) ltac:(lia)) as Hc.
      rewrite Z.mul_0_l, Z.add_0_r in Hc. exact Hc.
    + by apply page_slots_nodup.
    + intros x Hx. apply carve_some. by right.
    + split; cbn [nxt prv]; rewrite lookup_insert_eq; eauto.
    + intros x Hx. by apply Hmap.
  - constructor; try done.
    + eapply frame_dll; [apply Ho| |exact HP]. intros x Hx. rewrite list_elem_of_singleton. intros ->.
      apply Hnew. unfold all_pages. rewrite !map_app, !elem_of_app. by left.
    + eapply frame_dll; [apply Ho| |exact HF]. intros x Hx. rewrite list_elem_of_singleton. intros ->.
      apply Hnew. unfold all_pages. rewrite !map_app, !elem_of_app. auto.
    + eapply frame_dll; [apply Ho| |exact HE]. intros x Hx. rewrite list_elem_of_singleton. intros ->.
      apply Hnew. unfold all_pages. rewrite !map_app, !elem_of_app. auto.
    + intros q Fr Hin. eapply page_ok_outside; [done|exact Ho| |by apply Hpg].
      rewrite list_elem_of_singleton. intros ->. apply Hnew. by eapply elem_fst.
Qed.

(** ** Rebuilding the invariant after a step on one page *)

Lemma page_ok_links (m : slab_mem) k sz n pg Fr :
  (forall x, has_node (plinks m) x -> has_node k x) -> page_ok m sz n pg Fr -> page_ok (set_plinks m k) sz n pg Fr.
Proof. intros Hk [H1 H2 H3 H4 H5 H6 H7 H8]. constructor; auto. Qed.

Lemma nodup_keys (A B : list (Z * list Z)) pg Fr Fr' R :
  A ≡ₚ (pg, Fr) :: R -> B ≡ₚ (pg, Fr') :: R -> NoDup (map fst A) -> NoDup (map fst B).
Proof.
  intros HA HB Hd. assert (E : map fst B ≡ₚ map fst A).
  { change (map fst B) with (fst <$> B). change (map fst A) with (fst <$> A). by rewrite HA, HB. }
  by rewrite E.
Qed.

(** The page [pg] among the pages of a class, with free slots [Fr]. *)
Lemma page_in_class sz n m sc P F E out pg Fr R :
  slab_ok sz n m sc P F E out -> all_pages P F E ≡ₚ (pg, Fr) :: R ->
  page_ok m sz n pg Fr /\ (pg ∉ map fst R) /\ (forall q G, (q, G) ∈ R -> page_ok m sz n q G /\ q <> pg).
Proof.
  intros Hok HA. assert (Hin : (pg, Fr) ∈ all_pages P F E) by (rewrite HA; apply list_elem_of_here).
  assert (Hd : NoDup (map fst ((pg, Fr) :: R))) by (eapply (nodup_keys _ _ pg Fr Fr R); [exact HA|done|apply Hok]).
  cbn in Hd. apply NoDup_cons in Hd as [Hn _]. split; [by eapply so_pages|]. split; [done|].
  intros q G Hq. split.
  - eapply so_pages; [done|]. rewrite HA. by apply list_elem_of_further.
  - intros ->. apply Hn. by eapply elem_fst.
Qed.

Lemma rebuild sz n m sc P F E out m' sc' P' F' E' out' pg Fr Fr' R :
  slab_ok sz n m sc P F E out ->
  all_pages P F E ≡ₚ (pg, Fr) :: R -> all_pages P' F' E' ≡ₚ (pg, Fr') :: R ->
  slot_size sc' = slot_size sc -> outside (map fst (all_pages P F E)) m m' ->
  (forall q G, (q, G) ∈ R -> page_ok m' sz n q G) -> page_ok m' sz n pg Fr' ->
  dll (plinks m') (partial_pages sc') (map fst P') -> dll (plinks m') (full_pages sc') (map fst F') ->
  dll (plinks m') (empty_pages sc') (map fst E') ->
  ((forall q G, (q, G) ∈ P' -> G <> []) /\ (forall q G, (q, G) ∈ F' -> G = []) /\ (forall q G, (q, G) ∈ E' -> zlen G = n)) ->
  empty_page_count sc' = u64 (zlen E') ->
  NoDup out' ->
  (forall x, x ∈ out' <-> (x ∈ page_slots sz n pg /\ x ∉ Fr') \/
     exists q G, (q, G) ∈ R /\ x ∈ page_slots sz n q /\ x ∉ G) ->
  slab_ok sz n m' sc' P' F' E' out'.
Proof.
  intros [Hg Hsz Hn HP HF HE Hnd Hpg Hfr Hec Hond Hout] HA HB Hss Ho HR Hp1 HP' HF' HE' Hfr' Hec' Hnd' Hout'.
  constructor; try done.
  - by rewrite (os_flags _ _ _ Ho), Hss.
  - eapply (nodup_keys _ _ pg Fr Fr' R); [exact HA|exact HB|exact Hnd].
  - intros q G. rewrite HB, elem_of_cons. intros [[= -> ->]|Hq]; [done|by apply HR].
  - intros x. rewrite Hout'. split.
    + intros [[Hx Hf]|(q & G & Hq & Hx & Hf)].
      * exists pg, Fr'. rewrite HB. split; [apply list_elem_of_here|done].
      * exists q, G. rewrite HB. split; [by apply list_elem_of_further|done].
    + intros (q & G & Hq & Hx & Hf). rewrite HB, elem_of_cons in Hq. destruct Hq as [[= -> ->]|Hq]; [by left|].
      right. by exists q, G.
Qed.

(** The slots handed out, seen from one page. *)
Lemma out_split sz n m sc P F E out pg Fr R :
  slab_ok sz n m sc P F E out -> all_pages P F E ≡ₚ (pg, Fr) :: R ->
  forall x, x ∈ out <-> (x ∈ page_slots sz n pg /\ x ∉ Fr) \/
     exists q G, (q, G) ∈ R /\ x ∈ page_slots sz n q /\ x ∉ G.
Proof.
  intros Hok HA x. rewrite (so_out _ _ _ _ _ _ _ _ Hok). setoid_rewrite HA. split.
  - intros (q & G & Hq & Hx & Hf). apply elem_of_cons in Hq as [[= -> ->]|Hq]; [by left|right; by exists q, G].
  - intros [[Hx Hf]|(q & G & Hq & Hx & Hf)].
    + exists pg, Fr. split; [apply list_elem_of_here|done].
    + exists q, G. split; [by apply list_elem_of_further|done].
Qed.

Lemma dll_disjoint S (m : slab_mem) m' hd l :
  outside S m m' -> (forall x, x ∈ l -> x ∉ S) -> dll (plinks m) hd l -> dll (plinks m') hd l.
Proof. intros Ho Hd. eapply frame_dll; [apply Ho|done]. Qed.

(** Lists the links store keeps apart. *)
Lemma dll_disjoint' S k k' hd l :
  frame S k k' -> (forall x, x ∈ l -> x ∉ S) -> dll k hd l -> dll k' hd l.
Proof. intros Ho Hd. by eapply frame_dll. Qed.

Ltac keys := unfold all_pages in *; rewrite ?map_app, ?elem_of_app in *; cbn [map fst] in *; rewrite ?elem_of_cons in *.

(** ** A partial page is available *)

(** No page leaves the lists. *)
Definition keeps_pages (A A' : list (Z * list Z)) : Prop := forall pg, pg ∈ map fst A -> pg ∈ map fst A'.

Lemma keeps_pages_refl A : keeps_pages A A.
Proof. by intros pg. Qed.

Lemma keeps_pages_trans A B C : keeps_pages A B -> keeps_pages B C -> keeps_pages A C.
Proof. intros H1 H2 pg H. by apply H2, H1. Qed.

Lemma ensure_partial_spec sz n m sc P F E out :
  slab_ok sz n m sc P F E out ->
  exists page m' sc', ensure_partial m sc = Done (page, m', sc') /\
    slab_allocated_bytes m' = slab_allocated_bytes m /\ slot_size sc' = slot_size sc /\
    remote_free_queue sc' = remote_free_queue sc /\ remote_free_pending_class sc' = remote_free_pending_class sc /\
    class_idx sc' = class_idx sc /\
    (forall x, x ∈ out -> snext m' !! x = snext m !! x) /\
    (if page =? NULL then slab_ok sz n m' sc' P F E out /\ outside [] m m' /\ sc' = sc /\
       map_page (os m) = (None, os m') /\ P = [] /\ E = []
     else exists Fr P' E', slab_ok sz n m' sc' ((page, Fr) :: P') F E' out /\
       outside (page :: map fst (all_pages P F E)) m m' /\
       keeps_pages (all_pages P F E) (all_pages ((page, Fr) :: P') F E')).
Proof.
  intros Hok. pose proof Hok as [Hg Hsz Hn HP HF HE Hnd Hpg Hfr Hec Hond Hout]. unfold ensure_partial.
  pose proof (dll_head _ _ _ HP) as HhP. pose proof (dll_head _ _ _ HE) as HhE.
  destruct (Z.eqb_spec (partial_pages sc) NULL) as [EP|EP]; cbn [negb].
  2: { destruct P as [|[pg Fr] P']; [done|]. cbn in HhP. subst.
       exists (partial_pages sc), m, sc. split; [done|]. split_and!; try done.
       rewrite (proj2 (Z.eqb_neq _ _) EP). exists Fr, P', E. split; [done|]. split; [apply outside_refl|apply keeps_pages_refl]. }
  assert (P = []) as ->.
  { destruct P as [|[pg Fr] P']; [done|]. cbn in HhP. exfalso. destruct HP as [(_ & Hne & _) _]. cbn in *. congruence. }
  destruct (Z.eqb_spec (empty_pages sc) NULL) as [EE|EE]; cbn [negb].
  - assert (E = []) as ->.
    { destruct E as [|[pg Fr] E']; [done|]. cbn in HhE. exfalso. destruct HE as [(_ & Hne & _) _]. cbn in *. congruence. }
    destruct (slab_create_page m sc) as [page m'] eqn:Ec. cbn [mbind outcome_bind].
    destruct (slab_create_page_spec _ _ _ _ _ _ _ _ _ _ Hok Ec) as [Hb Hp].
    destruct (Z.eqb_spec page NULL) as [->|Hne].
    + destruct Hp as (Hok' & Ho & Hsn). exists NULL, m', sc. cbn. split_and!; try done; [by rewrite Hsn|].
      unfold slab_create_page in Ec. destruct (map_page (os m)) as [[pg|] o] eqn:Em; [|by injection Ec as <-].
      exfalso. destruct (map_page_spec _ _ _ Em) as [_ (Hpos & _)]. injection Ec as Epg _. unfold NULL in *. lia.
    + destruct Hp as (Hnew & Hpok & Ho & Hok'). rewrite EP.
      destruct (list_push_spec m' NULL [] page) as (k & -> & Hd & Fr); [apply dll_nil|apply not_elem_of_nil|done|apply Hpok|].
      cbn [mbind outcome_bind]. exists page, (set_plinks m' k), (set_partial sc page).
      split; [done|]. split_and!; try done.
      { intros x Hx. cbn. apply (os_snext _ _ _ Ho). rewrite list_elem_of_singleton.
        apply Hout in Hx as (q & G & Hq & Hx & _). rewrite (page_of_slot sz n q x Hg (pg_aligned _ _ _ _ _ (Hpg _ _ Hq)) Hx).
        intros ->. apply Hnew. by eapply elem_fst. }
      rewrite (proj2 (Z.eqb_neq _ _) Hne). exists (page_slots sz n page), [], []. split.
      * pose proof Hok' as [Hg' Hsz' Hn' HP' HF' HE' Hnd' Hpg' Hfr' Hec' Hond' Hout'].
        constructor; cbn [set_plinks set_partial partial_pages full_pages empty_pages empty_page_count slot_size plinks sflags]; try done.
        -- eapply dll_disjoint'; [exact Fr| |exact HF']. intros x Hx. rewrite list_elem_of_singleton. intros ->.
           apply Hnew. by keys; auto.
        -- apply all_nodup. apply all_nodup in Hnd as (_ & H2 & _ & _ & _). cbn. split_and!; try done.
           ++ apply NoDup_singleton.
           ++ constructor.
           ++ intros x. rewrite list_elem_of_singleton. intros ->. split; [|apply not_elem_of_nil].
              intros Hx. apply Hnew. by keys; auto.
           ++ intros x _. apply not_elem_of_nil.
        -- intros q G Hq. apply page_ok_links; [apply Fr|]. apply elem_of_cons in Hq as [[= -> ->]|Hq]; [done|].
           by apply Hpg'.
        -- destruct Hfr as (_ & H2 & H3). split_and!; [|done|done].
           intros q G Hq. apply list_elem_of_singleton in Hq as [= -> ->]. intros Hnil.
           pose proof (length_page_slots sz n page Hg) as Hl. rewrite Hnil, zlen_nil in Hl. destruct Hg as (_ & _ & ? & _). lia.
        -- intros x. rewrite Hout. split; intros (q & G & Hq & Hx & Hf).
           ++ exists q, G. split; [by apply list_elem_of_further|done].
           ++ apply elem_of_cons in Hq as [[= -> ->]|Hq]; [done|]. by exists q, G.
      * split; [|intros q Hq; by apply list_elem_of_further].
        eapply outside_trans; [eapply outside_mono; [|exact Ho]|eapply outside_mono; [|apply outside_links; exact Fr]];
          intros x Hx; apply list_elem_of_singleton in Hx as ->; apply list_elem_of_here.
  - destruct E as [|[pg Fr] E']; [done|]. cbn in HhE. rewrite HhE. cbn [map fst] in HE. rewrite HhE in HE.
    destruct (list_pop_spec m _ _ HE) as (k1 & hd & -> & Hd1 & F1). cbn [mbind outcome_bind partial_pages set_empty].
    rewrite EP. set (m1 := set_plinks m k1).
    apply all_nodup in Hnd as Hnd'. destruct Hnd' as (_ & HndF & HndE & _ & HFE). cbn in HndE. apply NoDup_cons in HndE as [HpE HndE].
    assert (Hpok : page_ok m sz n pg Fr) by (apply Hpg; keys; auto).
    destruct (list_push_spec m1 NULL [] pg) as (k2 & -> & Hd2 & F2);
      [apply dll_nil|apply not_elem_of_nil|pose proof (pg_pos _ _ _ _ _ Hpok); unfold NULL; lia|apply F1, Hpok|].
    cbn [mbind outcome_bind]. cbn in Hd2, F2, F1, Hd1.
    assert (HpF : pg ∉ map fst F) by (intros Hx; apply (HFE _ Hx); by apply list_elem_of_here).
    eexists _, _, _. split; [done|]. split_and!; try done.
    rewrite (proj2 (Z.eqb_neq pg NULL)) by (pose proof (pg_pos _ _ _ _ _ Hpok); unfold NULL; lia).
    exists Fr, [], E'.
    assert (Hcover : outside (map fst (all_pages [] F ((pg, Fr) :: E'))) m (set_plinks m1 k2)).
    { apply (outside_links _ m k2). eapply frame_trans; [eapply frame_mono; [|exact F1]|eapply frame_mono; [|exact F2]];
        intros x Hx; keys; tauto. }
    split.
    + eapply (rebuild sz n m sc [] F ((pg, Fr) :: E') out _ _ _ _ _ _ pg Fr Fr (F ++ E')); try done.
      * unfold all_pages. cbn [app]. by rewrite Permutation_middle.
      * intros q G Hq. apply (page_ok_links m k2); [intros x Hx; by apply F2, F1|]. apply Hpg. rewrite elem_of_app in Hq. unfold all_pages. rewrite !elem_of_app, elem_of_cons. tauto.
      * apply (page_ok_links m k2); [intros x Hx; by apply F2, F1|done].
      * cbn. eapply dll_disjoint'; [exact F2| |]. { intros x Hx. rewrite list_elem_of_singleton. by intros ->. }
        eapply dll_disjoint'; [exact F1| |exact HF]. intros x Hx Hx2. apply (HFE x Hx). by apply list_elem_of_further.
      * cbn. eapply dll_disjoint'; [exact F2| |exact Hd1]. intros x Hx. rewrite list_elem_of_singleton. by intros ->.
      * destruct Hfr as (_ & H2 & H3). split_and!; [|done|].
        -- intros q G Hq. apply list_elem_of_singleton in Hq as [= -> ->]. intros Hnil.
           assert (zlen Fr = n) as Hl by (apply (H3 pg); apply list_elem_of_here). rewrite Hnil, zlen_nil in Hl.
           destruct Hg as (_ & _ & ? & _). lia.
        -- intros q G Hq. apply (H3 q). by apply list_elem_of_further.
      * cbn. rewrite Hec, u64_sub_l, zlen_cons. f_equal. lia.
      * intros x. rewrite (out_split _ _ _ _ _ _ _ _ pg Fr (F ++ E') Hok); [done|].
        unfold all_pages. cbn [app]. by rewrite Permutation_middle.
    + split; [eapply outside_mono; [|exact Hcover]; intros x Hx; by right|].
      intros q. cbn [all_pages app map fst]. rewrite !map_app. cbn [map fst]. rewrite elem_of_app, !elem_of_cons, elem_of_app. tauto.
Qed.

(** ** Moving a page between two lists *)

Lemma nodup_move (A1 A2 B C : list Z) pg :
  NoDup ((A1 ++ pg :: A2) ++ B ++ C) ->
  (pg ∉ A1 ++ A2) /\ (pg ∉ B) /\ (pg ∉ C) /\
  (forall x, x ∈ B -> x ∉ A1 ++ A2) /\ (forall x, x ∈ C -> (x ∉ A1 ++ A2) /\ (x ∉ B)).
Proof.
  rewrite !NoDup_app, NoDup_cons. setoid_rewrite elem_of_app. setoid_rewrite elem_of_cons. intros H.
  destruct H as ((H1 & H2 & H3 & H4) & H5 & H6 & H7 & H8). split_and!.
  - intros [Hx|Hx]; [apply (H2 _ Hx); by left|done].
  - intros Hx. apply (H5 pg); auto.
  - intros Hx. apply (H5 pg); auto.
  - intros x Hx Hy. apply (H5 x); [|by left]. tauto.
  - intros x Hx. split; [intros Hy; apply (H5 x); [|by right]; tauto|]. intros Hy. by apply (H7 x).
Qed.

Lemma push_after (m : slab_mem) k1 l pg hdA A hdB B hdC C :
  frame l (plinks m) k1 -> (forall x, x ∈ l -> x ∈ A) -> dll k1 hdA A ->
  dll (plinks m) hdB B -> dll (plinks m) hdC C -> has_node (plinks m) pg -> pg <> NULL ->
  (pg ∉ A) -> (pg ∉ B) -> (pg ∉ C) -> (forall x, x ∈ B -> x ∉ A) -> (forall x, x ∈ C -> (x ∉ A) /\ (x ∉ B)) ->
  exists k2, list_push (set_plinks m k1) hdB pg = Done (set_plinks m k2) /\
    dll k2 hdA A /\ dll k2 pg (pg :: B) /\ dll k2 hdC C /\ frame (pg :: A ++ B) (plinks m) k2.
Proof.
  intros F1 Hl Hd1 HB HC Hn H0 HpA HpB HpC HBA HCA.
  assert (HB1 : dll k1 hdB B) by (eapply dll_disjoint'; [exact F1| |exact HB]; intros x Hx Hx'; by apply (HBA x Hx), Hl).
  assert (HC1 : dll k1 hdC C) by (eapply dll_disjoint'; [exact F1| |exact HC]; intros x Hx Hx'; exact (proj1 (HCA x Hx) (Hl x Hx'))).
  destruct (list_push_spec (set_plinks m k1) hdB B pg) as (k2 & E2 & Hd2 & F2); [done|done|done|by eapply has_node_frame|].
  exists k2. split; [exact E2|]. cbn in F2. split_and!.
  - eapply dll_disjoint'; [exact F2| |exact Hd1]. intros x Hx. rewrite elem_of_cons. intros [->|Hx']; [done|by apply (HBA x)].
  - done.
  - eapply dll_disjoint'; [exact F2| |exact HC1]. intros x Hx. rewrite elem_of_cons. intros [->|Hx']; [done|]. exact (proj2 (HCA x Hx) Hx').
  - eapply frame_trans; [eapply frame_mono; [|exact F1]|eapply frame_mono; [|exact F2]]; intros x Hx.
    + apply list_elem_of_further, elem_of_app. left. by apply Hl.
    + rewrite elem_of_cons, elem_of_app. rewrite elem_of_cons in Hx. tauto.
Qed.

Lemma unlink_push (m : slab_mem) hdA A1 pg A2 hdB B hdC C :
  dll (plinks m) hdA (A1 ++ pg :: A2) -> dll (plinks m) hdB B -> dll (plinks m) hdC C ->
  NoDup ((A1 ++ pg :: A2) ++ B ++ C) ->
  exists k1 hdA', list_unlink m hdA pg = Done (set_plinks m k1, hdA') /\
  exists k2, list_push (set_plinks m k1) hdB pg = Done (set_plinks m k2) /\
    dll k2 hdA' (A1 ++ A2) /\ dll k2 pg (pg :: B) /\ dll k2 hdC C /\ frame (pg :: (A1 ++ A2) ++ B) (plinks m) k2.
Proof.
  intros HA HB HC Hnd. destruct (nodup_move _ _ _ _ _ Hnd) as (HpA & HpB & HpC & HBA & HCA).
  destruct (dll_node _ _ _ pg HA) as [Hn H0]; [apply elem_of_app; right; apply list_elem_of_here|].
  destruct (list_unlink_spec _ _ _ _ _ HA) as (k1 & hd' & E1 & Hd1 & F1). exists k1, hd'. split; [done|].
  by eapply push_after.
Qed.

Lemma pop_push (m : slab_mem) pg A2 hdB B hdC C :
  dll (plinks m) pg (pg :: A2) -> dll (plinks m) hdB B -> dll (plinks m) hdC C ->
  NoDup ((pg :: A2) ++ B ++ C) ->
  exists k1 hdA', list_pop m pg = Done (set_plinks m k1, hdA') /\
  exists k2, list_push (set_plinks m k1) hdB pg = Done (set_plinks m k2) /\
    dll k2 hdA' A2 /\ dll k2 pg (pg :: B) /\ dll k2 hdC C /\ frame (pg :: A2 ++ B) (plinks m) k2.
Proof.
  intros HA HB HC Hnd. destruct (nodup_move [] _ _ _ _ Hnd) as (HpA & HpB & HpC & HBA & HCA).
  destruct (dll_node _ _ _ pg HA) as [Hn H0]; [apply list_elem_of_here|].
  destruct (list_pop_spec _ _ _ HA) as (k1 & hd' & E1 & Hd1 & F1). exists k1, hd'. split; [done|].
  by eapply push_after.
Qed.

(** ** A step on the data of one page followed by list moves *)

Lemma page_step sz n m sc P F E out m1 k sc' P' F' E' out' pg Fr Fr' R :
  slab_ok sz n m sc P F E out ->
  all_pages P F E ≡ₚ (pg, Fr) :: R -> all_pages P' F' E' ≡ₚ (pg, Fr') :: R ->
  slot_size sc' = slot_size sc -> outside [pg] m m1 -> plinks m1 = plinks m ->
  frame (map fst (all_pages P F E)) (plinks m) k -> page_ok m1 sz n pg Fr' ->
  dll k (partial_pages sc') (map fst P') -> dll k (full_pages sc') (map fst F') -> dll k (empty_pages sc') (map fst E') ->
  ((forall q G, (q, G) ∈ P' -> G <> []) /\ (forall q G, (q, G) ∈ F' -> G = []) /\ (forall q G, (q, G) ∈ E' -> zlen G = n)) ->
  empty_page_count sc' = u64 (zlen E') ->
  NoDup out' ->
  (forall x, x ∈ out' <-> (x ∈ page_slots sz n pg /\ x ∉ Fr') \/
     exists q G, (q, G) ∈ R /\ x ∈ page_slots sz n q /\ x ∉ G) ->
  slab_ok sz n (set_plinks m1 k) sc' P' F' E' out' /\ outside (map fst (all_pages P F E)) m (set_plinks m1 k).
Proof.
  intros Hok HA HB Hss Ho El Fr1 Hp1 HP' HF' HE' Hfr' Hec' Hnd' Hout'.
  destruct (page_in_class _ _ _ _ _ _ _ _ _ _ _ Hok HA) as (_ & HpR & HRok).
  assert (Hpg : pg ∈ map fst (all_pages P F E)).
  { eapply (elem_fst _ pg Fr). rewrite HA. apply list_elem_of_here. }
  assert (Hoo : outside (map fst (all_pages P F E)) m (set_plinks m1 k)).
  { eapply outside_trans; [eapply outside_mono; [|exact Ho]|apply outside_links; by rewrite El].
    intros x ->%list_elem_of_singleton. done. }
  split; [|done]. eapply rebuild; try done.
  - intros q G Hq. apply page_ok_links; [rewrite El; intros x; by apply has_node_frame with (1 := Fr1)|].
    destruct (HRok _ _ Hq) as [Hpq Hne]. eapply page_ok_outside; [apply Hok|exact Ho| |done]. by rewrite list_elem_of_singleton.
  - apply page_ok_links; [rewrite El; intros x; by apply has_node_frame with (1 := Fr1)|done].
Qed.

Lemma free_length m sz n pg Fr : geometry sz n -> page_ok m sz n pg Fr -> 0 <= zlen Fr <= n.
Proof.
  intros Hg Hp. split; [apply zlen_nonneg|]. rewrite <- (length_page_slots sz n pg Hg). unfold zlen.
  apply Nat2Z.inj_le, submseteq_length, NoDup_submseteq; [apply Hp|]. apply Hp.
Qed.

Lemma n_u16 sz n m sc P F E out : slab_ok sz n m sc P F E out -> n < 2 ^ 16.
Proof. intros Hok. rewrite (so_n _ _ _ _ _ _ _ _ Hok). unfold u16. apply Z.mod_pos_bound. lia. Qed.

(** ** Taking a slot keeps the class *)

Lemma outside_page (m : slab_mem) pg p : outside [pg] m (set_pages m (<[pg := p]> (pages m))).
Proof.
  constructor; try done. intros q Hq. rewrite list_elem_of_singleton in Hq. cbn. by rewrite lookup_insert_ne.
Qed.

Lemma outside_slot (m : slab_mem) slot v : outside [page_of slot] m (set_snext m (<[slot := v]> (snext m))).
Proof.
  constructor; try done.
  - intros x Hx. rewrite list_elem_of_singleton in Hx. cbn. rewrite lookup_insert_ne; [done|]. by intros ->.
  - intros x [v' Hx]. cbn. destruct (decide (x = slot)) as [->|]; [rewrite lookup_insert_eq|rewrite lookup_insert_ne]; eauto.
Qed.

(** The class data an operation on pages and slots leaves alone. *)
Definition same_class (sc sc' : slab_class) : Prop :=
  slot_size sc' = slot_size sc /\ class_idx sc' = class_idx sc /\
  remote_free_queue sc' = remote_free_queue sc /\ remote_free_pending_class sc' = remote_free_pending_class sc.

Lemma same_class_trans a b c : same_class a b -> same_class b c -> same_class a c.
Proof. unfold same_class. intuition congruence. Qed.

Lemma take_slot_spec sz n m sc pg slot Fr P F E out :
  slab_ok sz n m sc ((pg, slot :: Fr) :: P) F E out ->
  exists m' sc' P' F', take_slot m sc pg = Done (slot, m', sc') /\
    slab_ok sz n m' sc' P' F' E (slot :: out) /\ same_class sc sc' /\
    all_pages P' F' E ≡ₚ (pg, Fr) :: P ++ F ++ E /\
    slot ∈ page_slots sz n pg /\ snext m' = snext m /\ slab_allocated_bytes m' = slab_allocated_bytes m /\
    outside (map fst (all_pages ((pg, slot :: Fr) :: P) F E)) m m'.
Proof.
  intros Hok. set (A := all_pages ((pg, slot :: Fr) :: P) F E).
  assert (HA : A ≡ₚ (pg, slot :: Fr) :: P ++ F ++ E) by done.
  destruct (page_in_class _ _ _ _ _ _ _ _ _ _ _ Hok HA) as (Hpok & _ & _).
  pose proof (free_length _ _ _ _ _ (so_geometry _ _ _ _ _ _ _ _ Hok) Hpok) as Hlen. pose proof (n_u16 _ _ _ _ _ _ _ _ Hok) as Hn16.
  pose proof Hpok as [Hpos Hal (p & Ep & Hc & Ht & Hs) Hnd Hf Hsl Hn Hm].
  destruct Hs as (Hhd & Hs0 & nx & Hnx & Hs). apply NoDup_cons in Hnd as [Hslot Hnd].
  unfold take_slot, ldp. rewrite Ep. cbn [mbind outcome_bind]. rewrite Hhd, (ld_Some _ _ _ Hnx). cbn [mbind outcome_bind].
  unfold stp. rewrite Ep. cbn [mbind outcome_bind]. rewrite zlen_cons in *. pose proof (zlen_nonneg Fr).
  rewrite Hc, u16_small by lia. set (p' := Page _ _ _ _ _ _ _).
  set (m1 := set_pages m (<[pg := p']> (pages m))).
  assert (Hp1 : page_ok m1 sz n pg Fr).
  { constructor; cbn [m1 set_pages snext plinks os pages]; try done.
    - exists p'. rewrite lookup_insert_eq. cbn. split; [done|]. split; [lia|]. done.
    - intros x Hx. apply Hf. by apply list_elem_of_further. }
  pose proof (outside_page m pg p' : outside [pg] m m1) as Ho.
  assert (Hin : slot ∈ page_slots sz n pg) by (apply Hf, list_elem_of_here).
  pose proof (out_split _ _ _ _ _ _ _ _ _ _ _ Hok HA) as Hout.
  assert (Hnew : slot ∉ out).
  { intros Hx. apply Hout in Hx as [[_ Hx]|(q & G & Hq & Hx & _)]; [apply Hx, list_elem_of_here|].
    destruct (page_in_class _ _ _ _ _ _ _ _ _ _ _ Hok HA) as (_ & _ & HR). destruct (HR _ _ Hq) as [Hq' Hne].
    apply Hne. rewrite <- (page_of_slot sz n q slot), <- (page_of_slot sz n pg slot); try done; try apply Hok. apply Hq'. }
  assert (Hout' : forall x, x ∈ slot :: out <-> (x ∈ page_slots sz n pg /\ x ∉ Fr) \/
     exists q G, (q, G) ∈ P ++ F ++ E /\ x ∈ page_slots sz n q /\ x ∉ G).
  { intros x. rewrite elem_of_cons, Hout, elem_of_cons. destruct (decide (x = slot)) as [->|]; [|tauto].
    split; [intros _; by left|by left]. }
  assert (Hnd' : NoDup (slot :: out)) by (apply NoDup_cons; split; [done|apply Hok]).
  pose proof Hok as [Hg Hsz Hn' HP HF HE Hndp Hpg (HfP & HfF & HfE) Hec Hond _].
  destruct Fr as [|s2 Fr].
  - change (1 + zlen [] - 1 =? 0) with true. cbv iota. pose proof (dll_head _ _ _ HP) as Hhead. cbn in Hhead.
    cbn [map fst] in HP. rewrite Hhead in HP.
    destruct (pop_push m1 pg (map fst P) (full_pages sc) (map fst F) (empty_pages sc) (map fst E)) as
      (k1 & hd & -> & k2 & Ek & Hd1 & Hd2 & Hd3 & Fk); try done.
    { unfold all_pages in Hndp. by rewrite !map_app in Hndp. }
    cbn [mbind outcome_bind full_pages set_partial]. rewrite Ek. cbn [mbind outcome_bind].
    eexists _, _, P, ((pg, []) :: F). split; [done|].
    assert (HB : all_pages P ((pg, []) :: F) E ≡ₚ (pg, []) :: P ++ F ++ E).
    { unfold all_pages. cbn [app]. symmetry. apply Permutation_middle. }
    destruct (page_step sz n m sc ((pg, [slot]) :: P) F E out m1 k2 (set_full (set_partial sc hd) pg) P ((pg, []) :: F) E
      (slot :: out) pg [slot] [] (P ++ F ++ E)) as [H1 H2]; try done.
    + eapply frame_mono; [|exact Fk]. intros x Hx. unfold all_pages. rewrite !map_app. cbn [map fst app].
      rewrite elem_of_cons, elem_of_app in Hx. rewrite elem_of_cons, !elem_of_app. tauto.
    + split_and!; [|intros q G Hq|done].
      * intros q G Hq. apply (HfP q). by apply list_elem_of_further.
      * apply elem_of_cons in Hq as [[= -> ->]|Hq]; [done|by apply (HfF q)].
  - rewrite (proj2 (Z.eqb_neq _ 0)) by (rewrite zlen_cons; pose proof (zlen_nonneg Fr); lia).
    eexists _, _, ((pg, s2 :: Fr) :: P), F. split; [done|].
    destruct (page_step sz n m sc ((pg, slot :: s2 :: Fr) :: P) F E out m1 (plinks m) sc ((pg, s2 :: Fr) :: P) F E (slot :: out) pg
      (slot :: s2 :: Fr) (s2 :: Fr) (P ++ F ++ E)) as [H1 H2]; try done.
    split_and!; [|done|done]. intros q G Hq. apply elem_of_cons in Hq as [[= -> ->]|Hq]; [done|].
    apply (HfP q). by apply list_elem_of_further.
Qed.

(** ** Returning a slot keeps the class *)

Lemma full_free m sz n pg Fr x :
  geometry sz n -> page_ok m sz n pg Fr -> zlen Fr = n -> x ∈ page_slots sz n pg -> x ∈ Fr.
Proof.
  intros Hg Hp Hl Hx. assert (E : Fr ≡ₚ page_slots sz n pg); [|by rewrite E].
  apply submseteq_length_Permutation; [apply NoDup_submseteq; apply Hp|].
  pose proof (length_page_slots sz n pg Hg) as Hl'. unfold zlen in *. lia.
Qed.

Lemma slab_free_nolock_spec sz n m pg Fr slot :
  geometry sz n -> n < 2 ^ 16 -> page_ok m sz n pg Fr -> slot ∈ page_slots sz n pg -> (slot ∉ Fr) ->
  exists m1, slab_free_nolock m slot = Done
      (Z.lor (if zlen Fr =? 0 then SLAB_TRANS_FULL_TO_PARTIAL else 0)
             (if zlen Fr + 1 =? n then SLAB_TRANS_PARTIAL_TO_EMPTY else 0), m1) /\
    page_ok m1 sz n pg (slot :: Fr) /\ outside [pg] m m1 /\ plinks m1 = plinks m /\
    slab_allocated_bytes m1 = slab_allocated_bytes m /\ (forall x, x <> slot -> snext m1 !! x = snext m !! x).
Proof.
  intros Hg Hn16 Hp Hin Hf. pose proof (free_length _ _ _ _ _ Hg Hp) as Hl.
  pose proof Hp as [Hpos Hal (p & Ep & Hc & Ht & Hs) Hnd Hfr Hsl Hn Hm].
  pose proof (page_of_slot sz n pg slot Hg Hal Hin) as Hpo.
  assert (zlen Fr < n).
  { destruct (Z.eq_dec (zlen Fr) n) as [E|]; [|lia]. destruct Hf. by eapply full_free. }
  unfold slab_free_nolock, ldp. rewrite Hpo, Ep. cbn [mbind outcome_bind].
  unfold st_slot. rewrite (st_is_Some _ _ _ (Hsl _ Hin)). cbn [mbind outcome_bind].
  unfold stp. cbn [set_snext pages]. rewrite Ep. cbn [mbind outcome_bind]. rewrite Hc, Ht, u16_small by lia.
  eexists. split; [done|]. pose proof (page_slots_range sz n pg slot Hg Hin) as Hr. unfold SIZEOF_SLAB_PAGE in Hr.
  split; [|split; [|split; [done|split; [done|]]]].
  - constructor; cbn [set_pages set_snext pages snext plinks os]; try done.
    + eexists. rewrite lookup_insert_eq. split; [done|]. cbn. rewrite zlen_cons. split; [lia|]. split; [done|].
      apply sll_push; [done|unfold NULL; lia|done].
    + by apply NoDup_cons.
    + intros x [->|Hx]%elem_of_cons; [done|by apply Hfr].
    + intros x Hx. destruct (decide (x = slot)) as [->|]; [rewrite lookup_insert_eq|rewrite lookup_insert_ne]; eauto.
  - set (m2 := set_snext m (<[slot := page_free_list p]> (snext m))).
    apply (outside_trans [pg] m m2); [rewrite <- Hpo; apply outside_slot|apply (outside_page m2)].
  - intros x Hx. cbn. by rewrite lookup_insert_ne.
Qed.

(** The header fields the invariant does not read. *)
Lemma page_ok_header m sz n pg Fr p p' :
  page_ok m sz n pg Fr -> pages m !! pg = Some p -> free_count p' = free_count p -> total_slots p' = total_slots p ->
  page_free_list p' = page_free_list p -> page_ok (set_pages m (<[pg := p']> (pages m))) sz n pg Fr.
Proof.
  intros [Hpos Hal (p0 & Ep & Hc & Ht & Hs) Hnd Hfr Hsl Hn Hm] E H1 H2 H3. constructor; try done.
  exists p'. cbn. rewrite lookup_insert_eq. split; [done|]. rewrite H1, H2, H3.
  by replace p with p0 by congruence.
Qed.

Lemma has_trans_full (a b : bool) :
  has_flag (Z.lor (if a then SLAB_TRANS_FULL_TO_PARTIAL else 0) (if b then SLAB_TRANS_PARTIAL_TO_EMPTY else 0))
    SLAB_TRANS_FULL_TO_PARTIAL = a.
Proof. by destruct a, b. Qed.

Lemma has_trans_empty (a b : bool) :
  has_flag (Z.lor (if a then SLAB_TRANS_FULL_TO_PARTIAL else 0) (if b then SLAB_TRANS_PARTIAL_TO_EMPTY else 0))
    SLAB_TRANS_PARTIAL_TO_EMPTY = b.
Proof. by destruct a, b. Qed.

Lemma out_after sz n m sc P F E slot out pg Fr R :
  slab_ok sz n m sc P F E (slot :: out) -> all_pages P F E ≡ₚ (pg, Fr) :: R ->
  slot ∈ page_slots sz n pg ->
  forall x, x ∈ out <-> (x ∈ page_slots sz n pg /\ x ∉ slot :: Fr) \/
     exists q G, (q, G) ∈ R /\ x ∈ page_slots sz n q /\ x ∉ G.
Proof.
  intros Hok HA Hin x. pose proof (out_split _ _ _ _ _ _ _ _ _ _ _ Hok HA) as Hout.
  destruct (page_in_class _ _ _ _ _ _ _ _ _ _ _ Hok HA) as (Hpg & _ & HR).
  pose proof (so_out_nodup _ _ _ _ _ _ _ _ Hok) as Hd. apply NoDup_cons in Hd as [Hs Hd].
  assert (Hx : x ∈ out <-> x ∈ slot :: out /\ x <> slot).
  { rewrite elem_of_cons. split; [intros Hx; split; [by right|by intros ->]|tauto]. }
  rewrite Hx, Hout, not_elem_of_cons. split; [tauto|]. intros [?|(q & G & Hq & Hxq & Hf)]; [tauto|].
  split; [right; by exists q, G|]. intros ->. destruct (HR _ _ Hq) as [Hq' Hne]. apply Hne.
  rewrite <- (page_of_slot sz n q slot), <- (page_of_slot sz n pg slot); try done; try apply Hok; [apply Hpg|apply Hq'].
Qed.

Lemma fst_split (P1 P2 : list (Z * list Z)) pg Fr : map fst (P1 ++ (pg, Fr) :: P2) = map fst P1 ++ pg :: map fst P2.
Proof. by rewrite map_app. Qed.

Lemma all_pages_empty (P1 P2 F E : list (Z * list Z)) pg Fr :
  all_pages (P1 ++ P2) F ((pg, Fr) :: E) ≡ₚ (pg, Fr) :: P1 ++ P2 ++ F ++ E.
Proof. unfold all_pages. rewrite !(app_assoc _ _ (_ :: _)), <- Permutation_middle, <- !app_assoc. done. Qed.

(** A page of the partial list with every slot free goes to the empty list. *)
Lemma to_empty_step sz n m sc P1 pg Fr P2 F E out :
  slab_ok sz n m sc (P1 ++ (pg, Fr) :: P2) F E out -> zlen Fr = n ->
  exists p k hd k2, pages m !! pg = Some p /\
    let m1 := set_pages m (<[pg := Page (class_index p) (free_count p) (page_free_count p) (total_slots p) (page_free_list p)
                                    (is_hot p) (now_ms m)]> (pages m)) in
    let sc' := set_empty (set_partial sc hd) pg (u64 (empty_page_count sc + 1)) in
    list_unlink m1 (partial_pages sc) pg = Done (set_plinks m1 k, hd) /\
    list_push (set_plinks m1 k) (empty_pages sc) pg = Done (set_plinks m1 k2) /\
    slab_ok sz n (set_plinks m1 k2) sc' (P1 ++ P2) F ((pg, Fr) :: E) out /\
    outside (map fst (all_pages (P1 ++ (pg, Fr) :: P2) F E)) m (set_plinks m1 k2).
Proof.
  intros Hok Hfull. pose proof Hok as [Hg Hsz Hn HP HF HE Hndp Hpg (HfP & HfF & HfE) Hec Hond Hout].
  set (R := P1 ++ P2 ++ F ++ E).
  assert (HA : all_pages (P1 ++ (pg, Fr) :: P2) F E ≡ₚ (pg, Fr) :: R).
  { unfold all_pages, R. rewrite <- app_assoc. cbn [app]. symmetry. apply Permutation_middle. }
  assert (HB : all_pages (P1 ++ P2) F ((pg, Fr) :: E) ≡ₚ (pg, Fr) :: R).
  { apply all_pages_empty. }
  destruct (page_in_class _ _ _ _ _ _ _ _ _ _ _ Hok HA) as (Hp & _ & _).
  destruct (pg_header _ _ _ _ _ Hp) as (p & Ep & _). rewrite fst_split in HP.
  set (p' := Page (class_index p) (free_count p) (page_free_count p) (total_slots p) (page_free_list p) (is_hot p) (now_ms m)).
  destruct (unlink_push (set_pages m (<[pg := p']> (pages m))) (partial_pages sc) (map fst P1) pg (map fst P2)
      (empty_pages sc) (map fst E) (full_pages sc) (map fst F)) as (k & hd & E1 & k2 & E2 & D1 & D2 & D3 & Fk); try done.
  { rewrite <- (fst_split _ _ pg Fr). rewrite <- !map_app. change (map fst) with (fmap (M:=list) (@fst Z (list Z))).
    rewrite (Permutation_app_comm E F). exact Hndp. }
  exists p, k, hd, k2. split; [done|]. cbn zeta. split; [exact E1|]. split; [exact E2|].
  apply (page_step sz n m sc (P1 ++ (pg, Fr) :: P2) F E out (set_pages m (<[pg := p']> (pages m))) k2 _ _ _ _ out pg Fr Fr R);
    try done.
  - apply outside_page.
  - eapply frame_mono; [|exact Fk]. intros x Hx. unfold all_pages. rewrite map_app, fst_split, map_app.
    rewrite elem_of_cons, !elem_of_app in Hx. rewrite !elem_of_app, elem_of_cons. tauto.
  - by apply page_ok_header with (p := p).
  - cbn. by rewrite map_app.
  - split_and!; [|done|].
    + intros q G Hq. apply (HfP q). rewrite elem_of_app in Hq. rewrite elem_of_app, elem_of_cons. tauto.
    + intros q G [[= -> ->]|Hq]%elem_of_cons; [done|by apply (HfE q)].
  - cbn. rewrite Hec, u64_add_l, zlen_cons. f_equal. lia.
  - by eapply out_split.
Qed.

(** The slot goes back to its page, and a full page goes to the partial list. *)
Lemma return_step sz n m sc P F E slot out :
  slab_ok sz n m sc P F E (slot :: out) ->
  exists trans m1 pg Fr, slab_free_nolock m slot = Done (trans, m1) /\ page_of slot = pg /\
    has_flag trans SLAB_TRANS_PARTIAL_TO_EMPTY = (zlen (slot :: Fr) =? n) /\
  exists m2 sc2 P1 P2 F2,
    (if has_flag trans SLAB_TRANS_FULL_TO_PARTIAL then
       r ← list_unlink m1 (full_pages sc) pg;
       let '(m, head) := r in
       let sc := set_full sc head in
       m ← list_push m (partial_pages sc) pg;
       Done (m, set_partial sc pg)
     else Done (m1, sc)) = Done (m2, sc2) /\
    slab_ok sz n m2 sc2 (P1 ++ (pg, slot :: Fr) :: P2) F2 E out /\ same_class sc sc2 /\
    slab_allocated_bytes m2 = slab_allocated_bytes m /\ (forall x, x <> slot -> snext m2 !! x = snext m !! x) /\
    outside (map fst (all_pages P F E)) m m2 /\ empty_pages sc2 = empty_pages sc /\
    empty_page_count sc2 = empty_page_count sc /\
    all_pages (P1 ++ (pg, slot :: Fr) :: P2) F2 E ≡ₚ (pg, slot :: Fr) :: (P1 ++ P2 ++ F2 ++ E) /\
    all_pages P F E ≡ₚ (pg, Fr) :: (P1 ++ P2 ++ F2 ++ E).
Proof.
  intros Hok. pose proof (n_u16 _ _ _ _ _ _ _ _ Hok) as Hn16.
  pose proof Hok as [Hg Hsz Hn HP HF HE Hndp Hpg (HfP & HfF & HfE) Hec Hond Hout].
  destruct (proj1 (Hout slot) (list_elem_of_here _ _)) as (pg & Fr & Hin & Hslot & Hfree).
  destruct (slab_free_nolock_spec sz n m pg Fr slot Hg Hn16 (Hpg _ _ Hin) Hslot Hfree) as
    (m1 & E1 & Hok1 & Ho1 & Hl1 & Hb1 & Hs1).
  pose proof (page_of_slot sz n pg slot Hg (pg_aligned _ _ _ _ _ (Hpg _ _ Hin)) Hslot) as Hpo.
  eexists _, m1, pg, Fr. split; [exact E1|]. split; [done|]. rewrite has_trans_full, has_trans_empty.
  split; [rewrite zlen_cons; f_equal; lia|].
  unfold all_pages in Hin. rewrite !elem_of_app in Hin. destruct Hin as [Hin|[Hin|Hin]].
  3: { exfalso. apply Hfree. eapply full_free; try done; [|by eapply HfE]. apply Hpg. unfold all_pages.
       rewrite !elem_of_app. auto. }
  - assert (HneFr : Fr <> []) by by eapply HfP.
    rewrite (proj2 (Z.eqb_neq (zlen Fr) 0)) by (destruct Fr; [done|rewrite zlen_cons; pose proof (zlen_nonneg Fr); lia]).
    apply list_elem_of_split in Hin as (P1 & P2 & ->). exists m1, sc, P1, P2, F. split; [done|].
    set (R := P1 ++ P2 ++ F ++ E).
    assert (HA : forall G, all_pages (P1 ++ (pg, G) :: P2) F E ≡ₚ (pg, G) :: R).
    { intros G. unfold all_pages, R. rewrite <- app_assoc. cbn [app]. symmetry. apply Permutation_middle. }
    destruct (page_step sz n m sc (P1 ++ (pg, Fr) :: P2) F E (slot :: out) m1 (plinks m) sc (P1 ++ (pg, slot :: Fr) :: P2) F E out pg
      Fr (slot :: Fr) R) as [H1 H2]; try done; try apply HA.
    + by rewrite fst_split in *.
    + split_and!; try done. intros q G Hq. rewrite elem_of_app, elem_of_cons in Hq. destruct Hq as [Hq|[[= -> ->]|Hq]];
        [|done|]; apply (HfP q); rewrite elem_of_app, elem_of_cons; auto.
    + by apply NoDup_cons in Hond as [_ ?].
    + apply (out_after _ _ _ _ _ _ _ _ _ _ _ _ Hok); [apply HA|done].
    + rewrite <- Hl1 in H1, H2. replace (set_plinks m1 (plinks m1)) with m1 in H1, H2 by (by destruct m1).
      split_and!; try done; apply HA.
  - assert (Fr = []) as -> by by eapply HfF. change (zlen [] =? 0) with true.
    apply list_elem_of_split in Hin as (F1 & F2 & ->). rewrite fst_split in HF. cbv iota. rewrite <- Hl1 in HP, HF, HE.
    destruct (unlink_push m1 (full_pages sc) (map fst F1) pg (map fst F2)
      (partial_pages sc) (map fst P) (empty_pages sc) (map fst E)) as (k & hd & -> & k2 & E2 & D1 & D2 & D3 & Fk); try done.
    { rewrite <- (fst_split _ _ pg []). rewrite <- !map_app. change (map fst) with (fmap (M:=list) (@fst Z (list Z))).
      rewrite (app_assoc _ P), (Permutation_app_comm _ P), <- app_assoc. exact Hndp. }
    cbn [mbind outcome_bind partial_pages set_full]. rewrite E2. cbn [mbind outcome_bind].
    eexists _, _, [], P, (F1 ++ F2). split; [done|]. cbn [app].
    set (R := P ++ (F1 ++ F2) ++ E).
    assert (HA : all_pages P (F1 ++ (pg, []) :: F2) E ≡ₚ (pg, []) :: R).
    { unfold all_pages, R. rewrite <- !app_assoc, !(app_assoc P F1). cbn [app]. symmetry. apply Permutation_middle. }
    destruct (page_step sz n m sc P (F1 ++ (pg, []) :: F2) E (slot :: out) m1 k2 (set_partial (set_full sc hd) pg)
      ((pg, [slot]) :: P) (F1 ++ F2) E out pg [] [slot] R) as [H1 H2]; try done.
    + rewrite <- Hl1. eapply frame_mono; [|exact Fk]. intros x Hx. unfold all_pages. rewrite !map_app. cbn [map fst].
      rewrite !elem_of_cons, !elem_of_app in Hx. rewrite !elem_of_app, elem_of_cons. tauto.
    + cbn. by rewrite map_app.
    + split_and!; [| |done].
      * intros q G [[= -> ->]|Hq]%elem_of_cons; [done|by apply (HfP q)].
      * intros q G Hq. apply (HfF q). rewrite elem_of_app in Hq. rewrite elem_of_app, elem_of_cons. tauto.
    + by apply NoDup_cons in Hond as [_ ?].
    + apply (out_after _ _ _ _ _ _ _ _ _ _ _ _ Hok); [apply HA|done].
Qed.

(** Returning a slot and applying its transitions. *)
Lemma slab_free_run sz n m sc P F E slot out :
  slab_ok sz n m sc P F E (slot :: out) ->
  exists trans m1, slab_free_nolock m slot = Done (trans, m1) /\
  exists m' sc' P' F' E', apply_transitions m1 sc slot trans = Done (m', sc') /\
    slab_ok sz n m' sc' P' F' E' out /\ same_class sc sc' /\
    slab_allocated_bytes m' = slab_allocated_bytes m /\ (forall x, x <> slot -> snext m' !! x = snext m !! x) /\
    outside (map fst (all_pages P F E)) m m' /\
    map fst (all_pages P' F' E') ≡ₚ map fst (all_pages P F E).
Proof.
  intros Hok. destruct (return_step _ _ _ _ _ _ _ _ _ Hok) as (trans & m1 & pg & Fr & E1 & Hpo & Htr & m2 & sc2 & P1 & P2 & F2 &
    E2 & Hok2 & Hsc & Hb & Hs & Ho & He & Hec & HA2 & HA).
  exists trans, m1. split; [done|]. unfold apply_transitions. cbv zeta in E2 |- *. rewrite Hpo, E2, Htr. cbn [mbind outcome_bind].
  assert (Hkeys : map fst (all_pages (P1 ++ (pg, slot :: Fr) :: P2) F2 E) ≡ₚ map fst (all_pages P F E)).
  { change (map fst) with (fmap (M:=list) (@fst Z (list Z))). by rewrite HA2, HA. }
  destruct (Z.eqb_spec (zlen (slot :: Fr)) n) as [Hfull|Hfull].
  - destruct (to_empty_step _ _ _ _ _ _ _ _ _ _ _ Hok2 Hfull) as (p & k & hd & k2 & Ep & Ek & Ek2 & Hok3 & Ho3).
    unfold ldp, stp. rewrite Ep. cbn [mbind outcome_bind]. rewrite Ek. cbn [mbind outcome_bind empty_pages set_partial].
    rewrite Ek2. cbn [mbind outcome_bind]. eexists _, _, _, _, _. split; [done|]. split; [exact Hok3|]. split; [done|].
    split; [done|]. split; [done|]. split.
    + eapply outside_trans; [exact Ho|]. eapply outside_mono; [|exact Ho3]. intros x. by rewrite Hkeys.
    + rewrite <- Hkeys. change (map fst) with (fmap (M:=list) (@fst Z (list Z))). rewrite HA2.
      by rewrite all_pages_empty.
  - eexists _, _, _, _, _. split; [done|]. split; [exact Hok2|]. by split_and!.
Qed.

(** ** The class with its remote-free queue *)

Lemma slot_aligned sz n pg x :
  geometry sz n -> pg mod SLAB_PAGE_SIZE = 0 -> x ∈ page_slots sz n pg -> x mod 8 = 0.
Proof.
  intros (H1 & H2 & H3 & H4) Hal Hx. apply elem_of_slot_addrs in Hx as (j & _ & ->).
  unfold SIZEOF_SLAB_PAGE. change SLAB_PAGE_SIZE with 65536 in Hal.
  assert (exists k, sz = 8 * k) as [k ->] by (exists (sz / 8); pose proof (Z.div_mod sz 8); lia).
  assert (exists k, pg = 8 * k) as [l ->] by (exists (8192 * (pg / 65536)); pose proof (Z.div_mod pg 65536); lia).
  replace (8 * l + 72 + j * (8 * k)) with ((l + 9 + j * k) * 8) by ring. by rewrite Z.mod_mul.
Qed.

Lemma slot_not_bad m sz n pg Fr x :
  geometry sz n -> page_ok m sz n pg Fr -> x ∈ page_slots sz n pg -> bad_slot x = false /\ x <> NULL.
Proof.
  intros Hg Hp Hx. pose proof (slot_aligned _ _ _ _ Hg (pg_aligned _ _ _ _ _ Hp) Hx) as Ha.
  pose proof (page_slots_range _ _ _ _ Hg Hx) as Hr. unfold SIZEOF_SLAB_PAGE in Hr.
  pose proof (pg_pos _ _ _ _ _ Hp) as H0. pose proof (pg_aligned _ _ _ _ _ Hp) as Hal. change SLAB_PAGE_SIZE with 65536 in *.
  assert (65536 <= pg) by (pose proof (Z.div_mod pg 65536); nia). split; [|unfold NULL; lia].
  unfold bad_slot. change CMEM_SLAB_ALIGN_MASK with (Z.ones 3). rewrite Z.land_ones by lia. change (2 ^ 3) with 8. rewrite Ha.
  cbn [Z.eqb negb orb]. apply Z.ltb_ge. lia.
Qed.

Lemma out_slot sz n m sc P F E out x :
  slab_ok sz n m sc P F E out -> x ∈ out ->
  exists pg Fr, (pg, Fr) ∈ all_pages P F E /\ page_ok m sz n pg Fr /\ x ∈ page_slots sz n pg /\ (x ∉ Fr).
Proof.
  intros Hok Hx. apply (so_out _ _ _ _ _ _ _ _ Hok) in Hx as (pg & Fr & Hin & Hs & Hf). exists pg, Fr.
  split; [done|]. split; [by eapply so_pages|done].
Qed.

Lemma out_not_free sz n m sc P F E out x pg Fr :
  slab_ok sz n m sc P F E out -> x ∈ out -> (pg, Fr) ∈ all_pages P F E -> x ∉ Fr.
Proof.
  intros Hok Hx Hin Hf. destruct (out_slot _ _ _ _ _ _ _ _ _ Hok Hx) as (q & G & Hq & Hqok & Hs & Hn).
  pose proof (so_pages _ _ _ _ _ _ _ _ Hok _ _ Hin) as Hp. pose proof (pg_free _ _ _ _ _ Hp x Hf) as Hs'.
  pose proof (so_geometry _ _ _ _ _ _ _ _ Hok) as Hg.
  pose proof (page_of_slot _ _ _ _ Hg (pg_aligned _ _ _ _ _ Hp) Hs') as E1.
  pose proof (page_of_slot _ _ _ _ Hg (pg_aligned _ _ _ _ _ Hqok) Hs) as E2.
  rewrite E1 in E2. subst q. apply Hn. by rewrite (page_unique _ _ _ _ (so_nodup _ _ _ _ _ _ _ _ Hok) Hq Hin).
Qed.

(** The first word of a slot handed out is the client's. *)
Lemma slab_ok_client sz n m sc P F E out x v :
  slab_ok sz n m sc P F E out -> x ∈ out -> slab_ok sz n (set_snext m (<[x := v]> (snext m))) sc P F E out.
Proof.
  intros Hok Hx. pose proof Hok as [Hg Hsz Hn HP HF HE Hndp Hpg Hfr Hec Hond Hout].
  constructor; try done. intros pg Fr Hin. pose proof (out_not_free _ _ _ _ _ _ _ _ _ _ _ Hok Hx Hin) as Hxf.
  destruct (Hpg _ _ Hin) as [Hpos Hal (p & Ep & Hc & Ht & Hs) Hnd Hf Hsl Hnn Hm]. constructor; try done.
  - exists p. split; [done|]. split; [done|]. split; [done|]. eapply sll_frame; [|exact Hs].
    intros y Hy. cbn. rewrite lookup_insert_ne; [done|]. by intros <-.
  - intros y Hy. cbn. destruct (decide (y = x)) as [->|]; [rewrite lookup_insert_eq|rewrite lookup_insert_ne]; eauto.
Qed.

Lemma slab_ok_bytes sz n m sc P F E out b : slab_ok sz n m sc P F E out -> slab_ok sz n (set_bytes m b) sc P F E out.
Proof.
  intros [Hg Hsz Hn HP HF HE Hndp Hpg Hfr Hec Hond Hout]. constructor; try done.
  intros pg Fr Hin. by destruct (Hpg _ _ Hin).
Qed.

Lemma slab_ok_queue sz n m sc P F E out q b : slab_ok sz n m sc P F E out -> slab_ok sz n m (set_queue sc q b) P F E out.
Proof. by intros [Hg Hsz Hn HP HF HE Hndp Hpg Hfr Hec Hond Hout]. Qed.

Lemma slab_ok_perm sz n m sc P F E out out' : out ≡ₚ out' -> slab_ok sz n m sc P F E out -> slab_ok sz n m sc P F E out'.
Proof.
  intros Hp [Hg Hsz Hn HP HF HE Hndp Hpg Hfr Hec Hond Hout]. constructor; try done; [by rewrite <- Hp|].
  intros x. rewrite <- Hout. by rewrite Hp.
Qed.

Lemma harvest_loop_run sz n Q : forall fuel m sc P F E out q,
  slab_ok sz n m sc P F E (Q ++ out) -> sll (snext m) q Q -> (length Q < fuel)%nat ->
  0 <= slot_size sc -> 0 <= slab_allocated_bytes m ->
  exists m' sc' P' F' E', harvest_loop fuel m sc q = Done (m', sc') /\ slab_ok sz n m' sc' P' F' E' out /\
    same_class sc sc' /\ slab_allocated_bytes m' = Z.max 0 (slab_allocated_bytes m - zlen Q * slot_size sc) /\
    (forall x, x ∉ Q -> snext m' !! x = snext m !! x) /\ map fst (all_pages P' F' E') ≡ₚ map fst (all_pages P F E).
Proof.
  induction Q as [|x Q IH]; intros fuel m sc P F E out q Hok Hs Hf Hsz Hb; (destruct fuel as [|fuel]; [cbn in Hf; lia|]); cbn [harvest_loop].
  - cbn in Hs. subst q. rewrite Z.eqb_refl. eexists _, _, _, _, _. split; [done|]. split; [exact Hok|].
    split_and!; try done. change (@zlen Z []) with 0. lia.
  - destruct Hs as (-> & Hx0 & nx & Hnx & Hs). rewrite (proj2 (Z.eqb_neq x NULL)) by done.
    destruct (out_slot _ _ _ _ _ _ _ _ x Hok (list_elem_of_here _ _)) as (pg & Fr & _ & Hp & Hin & _).
    rewrite (proj1 (slot_not_bad _ _ _ _ _ _ (so_geometry _ _ _ _ _ _ _ _ Hok) Hp Hin)).
    rewrite (ld_Some _ _ _ Hnx). cbn [mbind outcome_bind].
    destruct (slab_free_run _ _ _ _ _ _ _ _ _ Hok) as (tr & m1 & -> & m2 & sc2 & P2 & F2 & E2 & E3 & Hok2 & Hsc & Hb2 & Hs2 & _ & Hk).
    cbn [mbind outcome_bind]. rewrite E3. cbn [mbind outcome_bind].
    assert (HxQ : x ∉ Q ++ out) by (pose proof (so_out_nodup _ _ _ _ _ _ _ _ Hok) as Hd; by apply NoDup_cons in Hd as [? _]).
    destruct (IH fuel (release_bytes m2 (slot_size sc2)) sc2 P2 F2 E2 out nx) as
      (m' & sc' & P' & F' & E' & E4 & Hok' & Hsc' & Hb' & Hs' & Hk').
    + by apply slab_ok_bytes.
    + eapply sll_frame; [|exact Hs]. intros y Hy. cbn. apply Hs2. intros ->. apply HxQ, elem_of_app. by left.
    + cbn in Hf. lia.
    + by rewrite (proj1 Hsc).
    + cbn. case_match eqn:Ec; [apply Z.leb_le in Ec|]; lia.
    + eexists _, _, _, _, _. split; [exact E4|]. split; [exact Hok'|]. split.
      { by eapply same_class_trans. } split.
      * rewrite Hb', zlen_cons. unfold release_bytes. cbn [slab_allocated_bytes set_bytes]. rewrite (proj1 Hsc), Hb2.
        pose proof (zlen_nonneg Q).
        destruct (Z.leb_spec (slot_size sc) (slab_allocated_bytes m)); nia.
      * split; [|by rewrite Hk']. intros y Hy. rewrite not_elem_of_cons in Hy. rewrite (Hs' _ (proj2 Hy)). exact (Hs2 _ (proj1 Hy)).
Qed.

(** A size class between two operations: [Q] the slots freed by other threads and not yet
    taken back, [out] the slots the clients hold. *)
Record class_ok (sz n : Z) (m : slab_mem) (sc : slab_class) (P F E : list (Z * list Z)) (Q out : list Z) : Prop := {
  co_slab : slab_ok sz n m sc P F E (Q ++ out);
  co_queue : sll (snext m) (remote_free_queue sc) Q;
  co_pending : remote_free_pending_class sc = false -> Q = [];
  co_size : 0 <= slot_size sc;
  co_bytes : 0 <= slab_allocated_bytes m;
}.

Lemma harvest_run sz n m sc P F E Q out :
  class_ok sz n m sc P F E Q out ->
  exists m' sc' P' F' E', remote_free_harvest m sc = Done (m', sc') /\ class_ok sz n m' sc' P' F' E' [] out /\
    slot_size sc' = slot_size sc /\ class_idx sc' = class_idx sc /\
    slab_allocated_bytes m' = Z.max 0 (slab_allocated_bytes m - zlen Q * slot_size sc) /\
    map fst (all_pages P' F' E') ≡ₚ map fst (all_pages P F E) /\ remote_free_pending_class sc' = false.
Proof.
  intros [Hok Hq Hp Hsz Hb]. unfold remote_free_harvest.
  destruct (remote_free_pending_class sc) eqn:Epd; cbn [negb].
  - assert (Hd : NoDup Q) by (pose proof (so_out_nodup _ _ _ _ _ _ _ _ Hok) as Hd; by apply NoDup_app in Hd as [? _]).
    destruct (harvest_loop_run sz n Q (slot_fuel m) m (set_queue sc NULL false) P F E out (remote_free_queue sc)) as
      (m' & sc' & P' & F' & E' & E1 & Hok' & Hsc & Hb' & Hs & Hk); try done.
    { by apply slab_ok_queue. }
    { unfold slot_fuel. pose proof (sll_length _ _ _ Hq Hd). lia. }
    rewrite E1. eexists _, _, _, _, _. split; [done|]. destruct Hsc as (E2 & E3 & E4 & E5). cbn in *. split_and!; try done.
    constructor; try done; lia.
  - rewrite (Hp eq_refl) in *. eexists _, _, _, _, _. split; [done|]. split; [by constructor|].
    split_and!; try done. change (@zlen Z []) with 0. lia.
Qed.

(** Any slot handed out while the queue is empty. *)
Lemma alloc_run sz n m sc P F E out :
  class_ok sz n m sc P F E [] out -> slab_allocated_bytes m + slot_size sc < 2 ^ 64 ->
  exists slot m' sc', (r ← ensure_partial m sc; let '(page, m, sc) := r in
      if page =? NULL then Done (NULL, m, sc)
      else r ← take_slot m sc page; let '(slot, m, sc) := r in
           Done (slot, set_bytes m (u64 (slab_allocated_bytes m + slot_size sc)), sc)) = Done (slot, m', sc') /\
    same_class sc sc' /\
    if slot =? NULL then class_ok sz n m' sc P F E [] out /\ sc' = sc /\ slab_allocated_bytes m' = slab_allocated_bytes m /\
      fst (map_page (os m)) = None
    else exists P' F' E', class_ok sz n m' sc' P' F' E' [] (slot :: out) /\
      slab_allocated_bytes m' = slab_allocated_bytes m + slot_size sc.
Proof.
  intros [Hok Hq Hp Hsz Hb] Hlim.
  destruct (ensure_partial_spec _ _ _ _ _ _ _ _ Hok) as (page & m1 & sc1 & -> & Hb1 & E1 & E2 & E3 & E4 & Hs1 & Hcase).
  cbn [mbind outcome_bind]. destruct (Z.eqb_spec page NULL) as [->|Hne].
  - destruct Hcase as (Hok1 & Ho & -> & Hmap & _). pose proof (f_equal fst Hmap) as Hnone. cbn [fst] in Hnone. eexists _, _, _. split; [done|]. split; [done|]. cbn.
    split_and!; try done. constructor; try done. by rewrite Hb1.
  - destruct Hcase as (Fr & P' & E' & Hok1 & _). destruct Fr as [|slot Fr].
    { exfalso. pose proof (so_free _ _ _ _ _ _ _ _ Hok1) as (HP & _). by apply (HP page [] (list_elem_of_here _ _)). }
    destruct (take_slot_spec _ _ _ _ _ _ _ _ _ _ _ Hok1) as (m2 & sc2 & P2 & F2 & E5 & Hok2 & Hsc & _ & Hin & Hs2 & Hb2 & _).
    rewrite E5. cbn [mbind outcome_bind]. eexists _, _, _. split; [done|].
    split. { apply (same_class_trans _ sc1); [by split_and!|done]. }
    pose proof (so_pages _ _ _ _ _ _ _ _ Hok1 page (slot :: Fr)) as Hpage.
    assert (Hnn : slot <> NULL).
    { eapply slot_not_bad; [apply Hok1|apply Hpage|exact Hin]. apply list_elem_of_here. }
    rewrite (proj2 (Z.eqb_neq slot NULL)) by done. exists P2, F2, E'.
    rewrite (proj1 Hsc), E1, Hb2, Hb1, u64_small by lia. split; [|done].
    destruct Hsc as (E6 & _ & E8 & _).
    constructor; [by apply slab_ok_bytes| |done|by rewrite E6, E1|cbn; lia].
    cbn. by rewrite E8, E2.
Qed.

(** ** The operations of a class *)

Lemma class_alloc_run sz n m sc P F E Q out :
  class_ok sz n m sc P F E Q out -> slab_allocated_bytes m + slot_size sc < 2 ^ 64 ->
  exists slot m' sc' P' F' E', slab_alloc_slot m sc = Done (slot, m', sc') /\
    class_ok sz n m' sc' P' F' E' [] (if slot =? NULL then out else slot :: out) /\
    slot_size sc' = slot_size sc /\ class_idx sc' = class_idx sc /\
    slab_allocated_bytes m' = Z.max 0 (slab_allocated_bytes m - zlen Q * slot_size sc) +
      (if slot =? NULL then 0 else slot_size sc).
Proof.
  intros Hc Hlim. pose proof (co_size _ _ _ _ _ _ _ _ _ Hc) as Hsz0. unfold slab_alloc_slot.
  assert (Hh : (if remote_free_pending_class sc then remote_free_harvest m sc else Done (m, sc)) = remote_free_harvest m sc).
  { unfold remote_free_harvest. by destruct (remote_free_pending_class sc). }
  rewrite Hh. destruct (harvest_run _ _ _ _ _ _ _ _ _ Hc) as (m1 & sc1 & P1 & F1 & E1 & -> & Hc1 & Hsz & Hix & Hb1 & _ & _).
  cbn [mbind outcome_bind]. pose proof (zlen_nonneg Q).
  destruct (alloc_run _ _ _ _ _ _ _ _ Hc1) as (slot & m2 & sc2 & E2 & Hsc & Hcase); [rewrite Hsz, Hb1; pose proof (co_bytes _ _ _ _ _ _ _ _ _ Hc); nia|].
  exists slot, m2, sc2. cbv zeta in E2 |- *. rewrite E2.
  destruct (slot =? NULL).
  - destruct Hcase as (Hc2 & -> & Hb2 & _). exists P1, F1, E1. split; [done|]. split; [done|]. split_and!; try done. lia.
  - destruct Hcase as (P2 & F2 & E3 & Hc2 & Hb2). exists P2, F2, E3. split; [done|]. split; [done|].
    destruct Hsc as (-> & -> & _). split_and!; try done. lia.
Qed.

Lemma class_free_run sz n m sc P F E Q slot out :
  class_ok sz n m sc P F E Q (slot :: out) ->
  exists m' sc' P' F' E', slab_free m sc slot = Done (m', sc') /\ class_ok sz n m' sc' P' F' E' Q out /\
    slot_size sc' = slot_size sc /\ class_idx sc' = class_idx sc /\
    slab_allocated_bytes m' = Z.max 0 (slab_allocated_bytes m - slot_size sc) /\
    map fst (all_pages P' F' E') ≡ₚ map fst (all_pages P F E).
Proof.
  intros [Hok Hq Hp Hsz Hb]. unfold slab_free.
  assert (Hok1 : slab_ok sz n (release_bytes m (slot_size sc)) sc P F E (slot :: Q ++ out)).
  { apply slab_ok_bytes. eapply slab_ok_perm; [|exact Hok]. by rewrite Permutation_middle. }
  destruct (slab_free_run _ _ _ _ _ _ _ _ _ Hok1) as (tr & m1 & -> & m2 & sc2 & P2 & F2 & E2 & E3 & Hok2 & Hsc & Hb2 & Hs2 & _ & Hk).
  cbn [mbind outcome_bind]. rewrite E3. eexists _, _, _, _, _. split; [done|].
  destruct Hsc as (E4 & E5 & E6 & E7).
  assert (Hx : slot ∉ Q) by (pose proof (so_out_nodup _ _ _ _ _ _ _ _ Hok1) as Hd; apply NoDup_cons in Hd as [Hd _];
    rewrite not_elem_of_app in Hd; tauto).
  assert (Hb' : slab_allocated_bytes m2 = Z.max 0 (slab_allocated_bytes m - slot_size sc)).
  { rewrite Hb2. cbn. destruct (Z.leb_spec (slot_size sc) (slab_allocated_bytes m)); lia. }
  split; [|by split_and!]. constructor; [done| |by rewrite E7|by rewrite E4|rewrite Hb'; lia].
  rewrite E6. eapply sll_frame; [|exact Hq]. intros y Hy. apply Hs2. by intros ->.
Qed.

Lemma class_remote_run sz n m sc P F E Q slot out :
  class_ok sz n m sc P F E Q (slot :: out) ->
  exists m', remote_free_push m sc slot = Done (m', set_queue sc slot true) /\
    class_ok sz n m' (set_queue sc slot true) P F E (slot :: Q) out /\
    slab_allocated_bytes m' = slab_allocated_bytes m.
Proof.
  intros [Hok Hq Hp Hsz Hb].
  assert (Hok1 : slab_ok sz n m sc P F E (slot :: Q ++ out)).
  { eapply slab_ok_perm; [|exact Hok]. by rewrite Permutation_middle. }
  destruct (out_slot _ _ _ _ _ _ _ _ slot Hok1 (list_elem_of_here _ _)) as (pg & Fr & Hin & Hpg & Hs & _).
  pose proof (proj2 (slot_not_bad _ _ _ _ _ _ (so_geometry _ _ _ _ _ _ _ _ Hok) Hpg Hs)) as H0.
  assert (Hx : slot ∉ Q) by (pose proof (so_out_nodup _ _ _ _ _ _ _ _ Hok1) as Hd; apply NoDup_cons in Hd as [Hd _];
    rewrite not_elem_of_app in Hd; tauto).
  unfold remote_free_push, st_slot. rewrite (proj2 (Z.eqb_neq slot NULL)) by done.
  rewrite (st_is_Some _ _ _ (pg_slots _ _ _ _ _ Hpg _ Hs)). eexists. split; [done|]. split; [|done].
  constructor; try done.
  - apply slab_ok_queue. apply (slab_ok_client _ _ _ _ _ _ _ (slot :: Q ++ out)); [done|apply list_elem_of_here].
  - cbn. by apply sll_push.
Qed.

Lemma take_keeps pg slot Fr P F E (A : list (Z * list Z)) :
  A ≡ₚ (pg, Fr) :: P ++ F ++ E -> keeps_pages (all_pages ((pg, slot :: Fr) :: P) F E) A.
Proof. intros HA q Hq. by rewrite HA. Qed.

Lemma take_slots_run sz n k : forall m sc P F E out,
  slab_ok sz n m sc P F E out ->
  exists slots m' sc' P' F' E', take_slots k m sc = Done (slots, m', sc') /\ (length slots <= k)%nat /\
    slab_ok sz n m' sc' P' F' E' (slots ++ out) /\ same_class sc sc' /\
    slab_allocated_bytes m' = slab_allocated_bytes m /\ (forall x, x ∈ out -> snext m' !! x = snext m !! x) /\
    keeps_pages (all_pages P F E) (all_pages P' F' E') /\
    (slots = [] -> k <> 0%nat -> P = [] /\ E = [] /\ P' = [] /\ F' = F /\ E' = [] /\ map_page (os m) = (None, os m')).
Proof.
  induction k as [|k IH]; intros m sc P F E out Hok; cbn [take_slots].
  { eexists [], _, _, _, _, _. split; [done|]. split; [done|]. split_and!; try done. apply keeps_pages_refl. }
  destruct (ensure_partial_spec _ _ _ _ _ _ _ _ Hok) as (page & m1 & sc1 & -> & Hb1 & E1 & E2 & E3 & E4 & Hs1 & Hcase).
  cbn [mbind outcome_bind]. destruct (Z.eqb_spec page NULL) as [->|Hne].
  - destruct Hcase as (Hok1 & Ho & -> & Hmap & -> & ->). eexists [], _, _, _, _, _. split; [done|]. split; [cbn; lia|]. split_and!; try done. apply keeps_pages_refl.
  - destruct Hcase as (Fr & P' & E' & Hok1 & _ & Hkp). destruct Fr as [|slot Fr].
    { exfalso. pose proof (so_free _ _ _ _ _ _ _ _ Hok1) as (HP & _). by apply (HP page [] (list_elem_of_here _ _)). }
    destruct (take_slot_spec _ _ _ _ _ _ _ _ _ _ _ Hok1) as (m2 & sc2 & P2 & F2 & E5 & Hok2 & Hsc & Hperm & Hin & Hs2 & Hb2 & _).
    rewrite E5. cbn [mbind outcome_bind].
    destruct (IH _ _ _ _ _ _ Hok2) as (slots & m3 & sc3 & P3 & F3 & E6 & E7 & Hl & Hok3 & Hsc3 & Hb3 & Hs3 & Hkp3 & _).
    rewrite E7. cbn [mbind outcome_bind]. eexists (slot :: slots), _, _, _, _, _. split; [done|]. split; [cbn; lia|].
    split. { eapply slab_ok_perm; [|exact Hok3]. cbn. by rewrite Permutation_middle. }
    split. { eapply same_class_trans; [|exact Hsc3]. eapply same_class_trans; [|exact Hsc]. by split_and!. }
    split; [congruence|]. split; [intros x Hx; rewrite Hs3 by (by apply list_elem_of_further); by rewrite Hs2, Hs1|].
    split; [|done]. eapply keeps_pages_trans; [exact Hkp|]. eapply keeps_pages_trans; [|exact Hkp3]. by eapply take_keeps.
Qed.

(** ** A size class as a system *)

Inductive slab_op :=
  | SAlloc (req_size : Z) | SFree (slot : Z) | SRemoteFree (slot : Z) | SHarvest | SBatch (max_count : Z).

Record slab_sys := Sys { ss_mem : slab_mem; ss_class : slab_class; ss_held : list Z }.

(** Clients only give back slots they hold. *)
Definition slab_step (s : slab_sys) (o : slab_op) : outcome slab_sys :=
  let '(Sys m sc held) := s in
  match o with
  | SAlloc req =>
      r ← slab_alloc m sc req;
      let '(b, m, sc) := r in
      Done (Sys m sc match b with Some (user, _) => (user - SIZEOF_HEADER) :: held | None => held end)
  | SFree x =>
      if decide (x ∈ held) then r ← slab_free m sc x; Done (Sys r.1 r.2 (list_difference held [x])) else Done s
  | SRemoteFree x =>
      if decide (x ∈ held) then r ← remote_free_push m sc x; Done (Sys r.1 r.2 (list_difference held [x])) else Done s
  | SHarvest => r ← remote_free_harvest m sc; Done (Sys r.1 r.2 held)
  | SBatch n => r ← slab_alloc_batch m sc n; let '(slots, m, sc) := r in Done (Sys m sc (slots ++ held))
  end.

Definition op_count (o : slab_op) : Z :=
  match o with SAlloc _ => 1 | SBatch k => Z.max 0 k | _ => 0 end.

(** The account of a class bounded away from wrapping for [count] more slots. *)
Definition room (s : slab_sys) (count : Z) : Prop :=
  slab_allocated_bytes (ss_mem s) + count * slot_size (ss_class s) < 2 ^ 64.

(** The states of a class whose account stays below 2^64 - the memory of a machine does. *)
Inductive slab_reach (s0 : slab_sys) : slab_sys -> Prop :=
  | reach_init : slab_reach s0 s0
  | reach_step s o s' :
      slab_reach s0 s -> room s (op_count o) -> slab_step s o = Done s' -> slab_reach s0 s'.

Definition sys_ok (sz n : Z) (s : slab_sys) : Prop :=
  exists P F E Q, class_ok sz n (ss_mem s) (ss_class s) P F E Q (ss_held s).

Lemma list_difference_elem (l : list Z) x : x ∈ l -> NoDup l -> l ≡ₚ x :: list_difference l [x].
Proof.
  induction l as [|y l IH]; intros Hx Hd; [by apply not_elem_of_nil in Hx|]. apply NoDup_cons in Hd as [Hy Hd].
  cbn [list_difference]. destruct (decide_rel elem_of y [x]) as [->%list_elem_of_singleton|Hne].
  - constructor. clear IH Hx. revert Hy. induction l as [|z l IH]; intros Hy; [done|]. rewrite not_elem_of_cons in Hy.
    cbn [list_difference]. destruct (decide_rel elem_of z [x]) as [->%list_elem_of_singleton|_]; [tauto|].
    constructor. apply IH; [by apply NoDup_cons in Hd as [_ ?]|tauto].
  - rewrite list_elem_of_singleton in Hne. apply elem_of_cons in Hx as [->|Hx]; [done|].
    rewrite perm_swap. constructor. by apply IH.
Qed.

Lemma slab_step_run sz n s o :
  sys_ok sz n s -> room s (op_count o) -> exists s', slab_step s o = Done s' /\ sys_ok sz n s' /\
    slot_size (ss_class s') = slot_size (ss_class s).
Proof.
  destruct s as [m sc held]. unfold room. intros (P & F & E & Q & Hc) Hroom. cbn [ss_mem ss_class ss_held] in *. destruct o; cbn [slab_step op_count] in *.
  - destruct (class_alloc_run _ _ _ _ _ _ _ _ _ Hc) as (slot & m' & sc' & P' & F' & E' & E1 & Hc' & Hsz & _); [lia|].
    unfold slab_alloc. rewrite E1. cbn [mbind outcome_bind]. destruct (slot =? NULL); cbn [mbind outcome_bind].
    + eexists. split; [done|]. split; [|done]. by exists P', F', E', [].
    + eexists. split; [done|]. split; [|done]. exists P', F', E', []. cbn. by rewrite Z.add_simpl_r.
  - destruct (decide (slot ∈ held)) as [Hin|]; [|eexists; split; [done|]; split; [by exists P, F, E, Q|done]].
    destruct Hc as [Hok Hq Hp Hsz Hb]. pose proof (so_out_nodup _ _ _ _ _ _ _ _ Hok) as Hd. apply NoDup_app in Hd as (_ & _ & Hd).
    destruct (class_free_run sz n m sc P F E Q slot (list_difference held [slot])) as
      (m' & sc' & P' & F' & E' & E1 & Hc' & Hsz' & _).
    { constructor; try done. eapply slab_ok_perm; [|exact Hok]. by rewrite <- list_difference_elem. }
    rewrite E1. eexists. split; [done|]. split; [|done]. by exists P', F', E', Q.
  - destruct (decide (slot ∈ held)) as [Hin|]; [|eexists; split; [done|]; split; [by exists P, F, E, Q|done]].
    destruct Hc as [Hok Hq Hp Hsz Hb]. pose proof (so_out_nodup _ _ _ _ _ _ _ _ Hok) as Hd. apply NoDup_app in Hd as (_ & _ & Hd).
    destruct (class_remote_run sz n m sc P F E Q slot (list_difference held [slot])) as (m' & E1 & Hc' & _).
    { constructor; try done. eapply slab_ok_perm; [|exact Hok]. by rewrite <- list_difference_elem. }
    rewrite E1. eexists. split; [done|]. split; [|done]. by exists P, F, E, (slot :: Q).
  - destruct (harvest_run _ _ _ _ _ _ _ _ _ Hc) as (m' & sc' & P' & F' & E' & -> & Hc' & Hsz & _).
    eexists. split; [done|]. split; [|done]. by exists P', F', E', [].
  - destruct Hc as [Hok Hq Hp Hsz Hb]. unfold slab_alloc_batch.
    destruct (take_slots_run sz n (Z.to_nat max_count) _ _ _ _ _ _ Hok) as (slots & m' & sc' & P' & F' & E' & -> & Hl & Hok' & Hsc & Hb' & Hs & _).
    cbn [mbind outcome_bind]. eexists. split; [done|]. destruct Hsc as (E1 & E2 & E3 & E4). split; [|done]. exists P', F', E', Q.
    constructor; cbn.
    + apply slab_ok_bytes. eapply slab_ok_perm; [|exact Hok']. by rewrite Permutation_app_swap_app.
    + rewrite E3. eapply sll_frame; [|exact Hq]. intros x Hx. apply Hs. apply elem_of_app. by left.
    + by rewrite E4.
    + by rewrite E1.
    + apply u64_bound.
Qed.

(** A class before its first page. *)
Definition slab_boot (flags idx size : Z) (o : vm) : slab_sys :=
  Sys (Mem ∅ (Links ∅ ∅) ∅ flags 0 0 0 o) (SClass idx size NULL NULL NULL 0 NULL false) [].

Definition slots_of (sz : Z) : Z := u16 ((SLAB_PAGE_SIZE - SIZEOF_SLAB_PAGE) / sz).

Lemma boot_class_ok flags idx size o :
  let sz := total_slot_size flags size in
  geometry sz (slots_of sz) -> 0 <= size ->
  class_ok sz (slots_of sz) (ss_mem (slab_boot flags idx size o)) (ss_class (slab_boot flags idx size o)) [] [] [] [] [].
Proof.
  intros sz Hg Hs. constructor; cbn; try done.
  constructor; cbn [partial_pages full_pages empty_pages empty_page_count plinks sflags slot_size]; try exact (dll_nil _); try done.
  - constructor.
  - intros pg Fr H. by apply not_elem_of_nil in H.
  - split_and!; intros pg Fr H; by apply not_elem_of_nil in H.
  - constructor.
  - intros x. split; [intros H; by apply not_elem_of_nil in H|]. intros (pg & Fr & H & _). by apply not_elem_of_nil in H.
Qed.

Lemma boot_ok flags idx size o :
  let sz := total_slot_size flags size in
  geometry sz (slots_of sz) -> 0 <= size -> sys_ok sz (slots_of sz) (slab_boot flags idx size o).
Proof. intros sz Hg Hs. exists [], [], [], []. by apply boot_class_ok. Qed.

Lemma reach_ok sz n s0 s : sys_ok sz n s0 -> slab_reach s0 s -> sys_ok sz n s /\ slot_size (ss_class s) = slot_size (ss_class s0).
Proof.
  intros H0 Hr. induction Hr as [|s o s' Hr [IH IHs] Hroom E]; [done|].
  destruct (slab_step_run _ _ _ _ IH Hroom) as (s1 & E1 & H1 & H2). rewrite E in E1. injection E1 as <-.
  split; [done|congruence].
Qed.

Lemma slots_apart m sz n pg Fr x q G y :
  geometry sz n -> page_ok m sz n pg Fr -> page_ok m sz n q G -> x ∈ page_slots sz n pg -> y ∈ page_slots sz n q -> x <> y ->
  x + sz <= y \/ y + sz <= x.
Proof.
  intros Hg Hp Hq Hx Hy Hne. pose proof (page_slots_range _ _ _ _ Hg Hx) as Rx. pose proof (page_slots_range _ _ _ _ Hg Hy) as Ry.
  unfold SIZEOF_SLAB_PAGE in *. destruct (Z.eq_dec pg q) as [<-|Hpq].
  - apply elem_of_slot_addrs in Hx as (j & _ & ->). apply elem_of_slot_addrs in Hy as (k & _ & ->).
    destruct Hg as (Hsz & _). unfold SIZEOF_HEADER in Hsz. assert (j <> k) by (intros ->; done). nia.
  - pose proof (pg_aligned _ _ _ _ _ Hp) as A1. pose proof (pg_aligned _ _ _ _ _ Hq) as A2.
    change SLAB_PAGE_SIZE with 65536 in *. pose proof (Z.div_mod pg 65536). pose proof (Z.div_mod q 65536).
    assert (pg / 65536 <> q / 65536) by (intros E; apply Hpq; lia). nia.
Qed.

Lemma held_spec sz n s :
  sys_ok sz n s ->
  NoDup (ss_held s) /\
  (forall x, x ∈ ss_held s -> x mod 8 = 0 /\ forall b, x <= b < x + sz -> mapped (os (ss_mem s)) b) /\
  (forall x y, x ∈ ss_held s -> y ∈ ss_held s -> x <> y -> x + sz <= y \/ y + sz <= x).
Proof.
  intros (P & F & E & Q & Hc). pose proof (co_slab _ _ _ _ _ _ _ _ _ Hc) as Hok.
  pose proof (so_geometry _ _ _ _ _ _ _ _ Hok) as Hg.
  assert (Hout : forall x, x ∈ ss_held s -> exists pg Fr, (pg, Fr) ∈ all_pages P F E /\
      page_ok (ss_mem s) sz n pg Fr /\ x ∈ page_slots sz n pg /\ (x ∉ Fr)).
  { intros x Hx. apply (out_slot _ _ _ _ _ _ _ _ _ Hok). apply elem_of_app. by right. }
  split; [pose proof (so_out_nodup _ _ _ _ _ _ _ _ Hok) as Hd; by apply NoDup_app in Hd as (_ & _ & ?)|]. split.
  - intros x Hx. destruct (Hout _ Hx) as (pg & Fr & _ & Hp & Hs & _). split; [by eapply slot_aligned; [|apply Hp|]|].
    intros b Hb. apply (pg_mapped _ _ _ _ _ Hp). pose proof (page_slots_range _ _ _ _ Hg Hs). unfold SIZEOF_SLAB_PAGE in *. lia.
  - intros x y Hx Hy. destruct (Hout _ Hx) as (pg & Fr & _ & Hp & Hs & _). destruct (Hout _ Hy) as (q & G & _ & Hq & Ht & _).
    exact (slots_apart _ _ _ _ _ _ _ _ _ Hg Hp Hq Hs Ht).
Qed.

(** C1: in every state a size class reaches by allocating (singly or in batches), freeing,
    freeing from other threads and harvesting, the slots its clients hold are distinct,
    8-aligned, wholly inside memory the class has mapped and do not overlap; and the next
    operation runs to completion without touching an unmapped page header, list link or
    slot. *)
Theorem slab_exclusive flags idx size o s :
  let sz := total_slot_size flags size in
  geometry sz (slots_of sz) -> 0 <= size -> slab_reach (slab_boot flags idx size o) s ->
  NoDup (ss_held s) /\
  (forall x, x ∈ ss_held s -> x mod 8 = 0 /\ forall b, x <= b < x + sz -> mapped (os (ss_mem s)) b) /\
  (forall x y, x ∈ ss_held s -> y ∈ ss_held s -> x <> y -> x + sz <= y \/ y + sz <= x) /\
  forall op, room s (op_count op) -> exists s', slab_step s op = Done s'.
Proof.
  intros sz Hg Hs Hr. destruct (reach_ok _ _ _ _ (boot_ok flags idx size o Hg Hs) Hr) as [Hok _].
  destruct (held_spec _ _ _ Hok) as (H1 & H2 & H3). split; [done|]. split; [done|]. split; [done|].
  intros op Hroom. destruct (slab_step_run _ _ _ _ Hok Hroom) as (s' & E & _). by exists s'.
Qed.

(** Allocating a slot and freeing it is the identity on what the class accounts for:
    with no remote frees waiting, a successful [slab_alloc_slot] hands out a slot nobody
    holds and charges the class's slot size, and [slab_free] of it restores the byte
    count, the slots held and the pages owned after the allocation. *)
Theorem slab_alloc_free_roundtrip sz n m sc P F E out slot m' sc' :
  class_ok sz n m sc P F E [] out -> slab_allocated_bytes m + slot_size sc < 2 ^ 64 ->
  slab_alloc_slot m sc = Done (slot, m', sc') -> slot <> NULL ->
  (slot ∉ out) /\ slab_allocated_bytes m' = slab_allocated_bytes m + slot_size sc /\
  exists P' F' E', class_ok sz n m' sc' P' F' E' [] (slot :: out) /\
  exists m2 sc2 P2 F2 E2, slab_free m' sc' slot = Done (m2, sc2) /\ class_ok sz n m2 sc2 P2 F2 E2 [] out /\
    slab_allocated_bytes m2 = slab_allocated_bytes m /\
    map fst (all_pages P2 F2 E2) ≡ₚ map fst (all_pages P' F' E').
Proof.
  intros Hc Hlim E0 Hnn. destruct (class_alloc_run _ _ _ _ _ _ _ _ _ Hc Hlim) as
    (slot' & m1 & sc1 & P' & F' & E' & E1 & Hc' & Hsz & _ & Hb).
  rewrite E0 in E1. injection E1 as <- <- <-. rewrite (proj2 (Z.eqb_neq slot NULL) Hnn) in *.
  change (@zlen Z []) with 0 in Hb. pose proof (co_bytes _ _ _ _ _ _ _ _ _ Hc). pose proof (co_size _ _ _ _ _ _ _ _ _ Hc).
  split; [pose proof (so_out_nodup _ _ _ _ _ _ _ _ (co_slab _ _ _ _ _ _ _ _ _ Hc')) as Hd; by apply NoDup_cons in Hd as [? _]|].
  split; [lia|]. exists P', F', E'. split; [done|].
  destruct (class_free_run _ _ _ _ _ _ _ _ _ _ Hc') as (m2 & sc2 & P2 & F2 & E2 & E3 & Hc2 & _ & _ & Hb2 & Hk).
  exists m2, sc2, P2, F2, E2. split; [done|]. split; [done|]. split; [lia|done].
Qed.


Lemma overrun_page sz : SLAB_PAGE_SIZE - SIZEOF_SLAB_PAGE < sz -> slots_of sz = 0.
Proof.
  intros H. unfold slots_of. rewrite Z.div_small; [done|]. unfold SLAB_PAGE_SIZE, SIZEOF_SLAB_PAGE in *. lia.
Qed.

(** Run the page operations on a concrete page. *)
Ltac run Hne := unfold list_push, dll_push_front, set_nxt, set_prv, st, take_slot, ldp, stp, ld;
    repeat first [rewrite Hne|rewrite lookup_insert_eq|progress change (NULL =? NULL) with true|progress change (Z.to_nat 0) with O|progress cbn -[Z.eqb u16 u64 Z.add Z.sub insert lookup]].

(** A class whose slot does not fit a page is not refused: its first page is carved
    into zero slots but still has the address after its header as free list, so the first
    allocation returns that address although the slot's extent ends past the page, and the
    free count wraps below zero; the second allocation then reads a link through the null
    pointer. *)
Theorem slab_page_overrun flags idx size (o : vm) pg o' :
  let sz := total_slot_size flags size in
  SLAB_PAGE_SIZE - SIZEOF_SLAB_PAGE < sz -> 0 <= size < 2 ^ 64 -> map_page o = (Some pg, o') ->
  let s0 := slab_boot flags idx size o in
  exists m sc p, slab_alloc_slot (ss_mem s0) (ss_class s0) = Done (pg + SIZEOF_SLAB_PAGE, m, sc) /\
    pg + SLAB_PAGE_SIZE < pg + SIZEOF_SLAB_PAGE + sz /\
    pages m !! pg = Some p /\ total_slots p = 0 /\ free_count p = 65535 /\
    slab_alloc_slot m sc = Fault.
Proof.
  intros sz Hbig Hsize Em s0. pose proof (overrun_page _ Hbig) as H0. unfold slots_of in H0.
  assert (Hpos : 0 < pg) by (destruct (map_page_spec _ _ _ Em) as [_ [? _]]; done).
  assert (Hne : (pg =? NULL) = false) by (apply Z.eqb_neq; unfold NULL; lia).
  assert (Hff : u16 (0 - 1) = 65535) by done.
  unfold s0, slab_boot, slab_alloc_slot, ensure_partial, slab_create_page.
  cbn [ss_mem ss_class remote_free_pending_class os sflags slot_size mbind outcome_bind partial_pages empty_pages].
  change (NULL =? NULL) with true. cbn [negb]. fold sz. rewrite Em, H0. run Hne.
  rewrite Hff. change (65535 =? 0) with false. run Hne.
  eexists _, _, _. split; [done|]. split; [lia|]. run Hne. split_and!; try done.
  unfold slab_alloc_slot, ensure_partial. run Hne.
  rewrite lookup_insert_ne; [|unfold SIZEOF_SLAB_PAGE, NULL; lia]. done.
Qed.

End Slab.

(** ** Witnesses *)

(** Address space handed out upwards from [4 * 64K + 40]. *)
Definition bump_mapped (o : Z * (Z -> bool)) (x : Z) : Prop := x < fst o /\ snd o x = true.

Definition bump_mmap (o : Z * (Z -> bool)) (n : Z) : option Z * (Z * (Z -> bool)) :=
  let '(next, f) := o in
  if (0 <? next) && (next + n <? 2 ^ 64) then (Some next, (next + n, fun x => (next <=? x) || f x)) else (None, o).

Definition bump_munmap (o : Z * (Z -> bool)) (p n : Z) : Z * (Z -> bool) :=
  (fst o, fun x => snd o x && negb ((p <=? x) && (x <? p + n))).

Lemma bump_mmap_spec o n r o' :
  0 < n -> bump_mmap o n = (r, o') ->
  match r with
  | None => forall x, bump_mapped o' x <-> bump_mapped o x
  | Some p => 0 < p /\ p + n < 2 ^ 64 /\ (forall x, p <= x < p + n -> ~ bump_mapped o x) /\
              forall x, bump_mapped o' x <-> bump_mapped o x \/ p <= x < p + n
  end.
Proof.
  destruct o as [next f]. unfold bump_mmap, bump_mapped. intros Hn.
  destruct (Z.ltb_spec 0 next), (Z.ltb_spec (next + n) (2 ^ 64)); intros [= <- <-]; cbn; try done.
  split; [done|]. split; [done|]. split; [lia|]. intros x. rewrite orb_true_iff, Z.leb_le.
  split; [intros [? [?|?]]; [right; lia|]|intros [[? ?]|?]; [split; [lia|by right]|split; [lia|left; lia]]].
  destruct (decide (x < next)); [by left|right; lia].
Qed.

Lemma bump_munmap_spec o p n x :
  bump_mapped (bump_munmap o p n) x <-> bump_mapped o x /\ ~ (p <= x < p + n).
Proof.
  unfold bump_mapped, bump_munmap. cbn. rewrite andb_true_iff, negb_true_iff, andb_false_iff, Z.leb_gt, Z.ltb_ge.
  split; [intros (? & ? & ?); split; [done|lia]|intros ((? & ?) & ?)]. split; [done|]. split; [done|lia].
Qed.

Definition bump : Mmap := {|
  vm := Z * (Z -> bool);
  mmap := bump_mmap;
  munmap := bump_munmap;
  mapped := bump_mapped;
  mmap_spec := bump_mmap_spec;
  munmap_spec := bump_munmap_spec;
|}.

Definition bump0 : @vm bump := (262184, fun _ => false).

Definition demo_boot : @slab_sys bump := @slab_boot bump 0 1 64 bump0.
Definition demo_one : @slab_sys bump := done_or demo_boot (@slab_step bump demo_boot (SAlloc 40)).
Definition demo_sz : Z := total_slot_size 0 64.

Lemma demo_geometry : geometry demo_sz (slots_of demo_sz).
Proof. unfold geometry. vm_compute. by split_and!. Qed.

Lemma slab_exclusive_witness :
  ss_held demo_one = [327752] /\ NoDup (ss_held demo_one) /\
  exists s', @slab_step bump demo_one (SFree 327752) = Done s'.
Proof.
  assert (Hr : @slab_reach bump demo_boot demo_one).
  { apply (reach_step demo_boot demo_boot (SAlloc 40)); [apply reach_init|vm_compute; exact eq_refl|]. apply done_or_eq. vm_compute. exact eq_refl. }
  split; [vm_compute; exact eq_refl|].
  destruct (@slab_exclusive bump 0 1 64 bump0 demo_one demo_geometry ltac:(lia) Hr) as (H1 & _ & _ & H2).
  split; [exact H1|]. apply H2. vm_compute. exact eq_refl.
Defined.

Definition demo_slot : Z * @slab_mem bump * slab_class :=
  done_or (NULL, ss_mem demo_boot, ss_class demo_boot) (@slab_alloc_slot bump (ss_mem demo_boot) (ss_class demo_boot)).

Lemma demo_slot_eq : @slab_alloc_slot bump (ss_mem demo_boot) (ss_class demo_boot) =
  Done (demo_slot.1.1, demo_slot.1.2, demo_slot.2).
Proof.
  rewrite <- surjective_pairing, <- surjective_pairing. unfold demo_slot. apply done_or_eq. vm_compute. exact eq_refl.
Qed.

Lemma demo_slot_addr : demo_slot.1.1 = 327752.
Proof. vm_compute. exact eq_refl. Qed.

Lemma slab_alloc_free_roundtrip_witness :
  demo_slot.1.1 = 327752 /\
  slab_allocated_bytes demo_slot.1.2 = slab_allocated_bytes (ss_mem demo_boot) + 64 /\
  exists m2 sc2, @slab_free bump demo_slot.1.2 demo_slot.2 327752 = Done (m2, sc2) /\
    slab_allocated_bytes m2 = slab_allocated_bytes (ss_mem demo_boot).
Proof.
  split; [exact demo_slot_addr|].
  destruct (@slab_alloc_free_roundtrip bump demo_sz (slots_of demo_sz) (ss_mem demo_boot) (ss_class demo_boot) [] [] [] []
    demo_slot.1.1 demo_slot.1.2 demo_slot.2 (@boot_class_ok bump 0 1 64 bump0 demo_geometry ltac:(lia))
    ltac:(vm_compute; exact eq_refl) demo_slot_eq ltac:(rewrite demo_slot_addr; unfold NULL; lia)) as
    (_ & Hb & P & F & E & _ & m2 & sc2 & _ & _ & _ & Ef & _ & Hb2 & _).
  split; [exact Hb|]. exists m2, sc2. rewrite demo_slot_addr in Ef. split; [exact Ef|exact Hb2].
Defined.



Lemma slab_page_overrun_witness :
  exists m sc, @slab_alloc_slot bump (ss_mem (@slab_boot bump 0 1 65536 bump0)) (ss_class (@slab_boot bump 0 1 65536 bump0)) =
    Done (327752, m, sc) /\ @slab_alloc_slot bump m sc = Fault.
Proof.
  assert (E : exists o', @map_page bump bump0 = (Some 327680, o')).
  { exists (snd (@map_page bump bump0)). rewrite (surjective_pairing (map_page bump0)). cbn [snd]. f_equal. }
  destruct E as (o' & E).
  destruct (@slab_page_overrun bump 0 1 65536 bump0 327680 o' ltac:(vm_compute; exact eq_refl) ltac:(lia) E) as
    (m & sc & p & E1 & _ & _ & _ & _ & E2).
  exists m, sc. split; [exact E1|exact E2].
Defined.
