(* ===== verification/SlabCache.v ===== *)
(** * The slot caches in front of the slab tier

    The per-thread cache ([tls_cache] of [src/cmem_slab.c] and [include/cmem.h]), the
    per-CPU free lists and the pool-wide walks over the classes.  A cache is the head of a
    list linked through the first words of the slots and a counter. *)
From S2P Require Import Prelude Header Dll SizeClass Slab.
From Stdlib Require Import ZArith Lia.
From stdpp Require Import base option list gmap.
Open Scope Z_scope.

Definition MP_PERCPU_MAX_BATCH : Z := 16.
Definition TLS_REFILL_BATCH : nat := 64.

(** [slots[i]]/[counts[i]] of [thread_cache_t]; a [mp_percpu_freelist_entry_t]. *)
Record cache := Cache { chead : Z; ccount : Z }.

Definition empty_cache : cache := Cache NULL 0.

Section Caches.
Context `{MM : Mmap}.

(** [slot = slots[i]; slots[i] = slot->next; counts[i]--;] *)
Definition cache_pop (m : slab_mem) (c : cache) : outcome (Z * cache) :=
  next ← ld (snext m) (chead c);
  Done (chead c, Cache next (u16 (ccount c - 1))).

(** [slot->next = slots[i]; slots[i] = slot; counts[i]++;] *)
Definition cache_push (m : slab_mem) (c : cache) (slot : Z) : outcome (slab_mem * cache) :=
  m ← st_slot m slot (chead c);
  Done (m, Cache slot (u16 (ccount c + 1))).

(** ** Refilling the thread cache *)

Fixpoint drain_loop (n : nat) (got : Z) (m : slab_mem) (sc : slab_class) (c : cache)
    : outcome (Z * slab_mem * slab_class * cache) :=
  match n with
  | O => Done (got, m, sc, c)
  | S n =>
      r ← ensure_partial m sc;
      let '(page, m, sc) := r in
      if page =? NULL then Done (got, m, sc, c)
      else
        r ← take_slot m sc page;
        let '(slot, m, sc) := r in
        r ← cache_push m c slot;
        let '(m, c) := r in
        drain_loop n (got + 1) m sc c
  end.

Definition tls_cache_drain_slots (m : slab_mem) (sc : slab_class) (c : cache) (n : nat)
    : outcome (Z * slab_mem * slab_class * cache) :=
  r ← drain_loop n 0 m sc c;
  let '(got, m, sc, c) := r in
  Done (got, set_bytes m (u64 (slab_allocated_bytes m + u64 (got * slot_size sc))), sc, c).

Definition tls_cache_refill (m : slab_mem) (sc : slab_class) (c : cache) : outcome (slab_mem * slab_class * cache) :=
  r ← tls_cache_drain_slots m sc c TLS_REFILL_BATCH;
  let '(_, m, sc, c) := r in Done (m, sc, c).

(** Phase 3 of [slab_alloc_with_tls_refill]: unlike elsewhere, a page created here is not
    put on the partial list. *)
Definition refill_direct (m : slab_mem) (sc : slab_class) : outcome (Z * slab_mem * slab_class) :=
  let page := partial_pages sc in
  r ← (if negb (page =? NULL) then Done (page, m, sc)
       else if negb (empty_pages sc =? NULL) then
         let page := empty_pages sc in
         r ← list_pop m page;
         let '(m, rest) := r in
         let sc := set_empty sc rest (u64 (empty_page_count sc - 1)) in
         m ← list_push m (partial_pages sc) page;
         Done (page, m, set_partial sc page)
       else let '(page, m) := slab_create_page m sc in Done (page, m, sc));
  let '(page, m, sc) := r in
  if page =? NULL then Done (NULL, m, sc)
  else
    r ← take_slot m sc page;
    let '(slot, m, sc) := r in
    Done (slot, set_bytes m (u64 (slab_allocated_bytes m + slot_size sc)), sc).

Definition slab_alloc_with_tls_refill (m : slab_mem) (sc : slab_class) (c : cache)
    : outcome (Z * slab_mem * slab_class * cache) :=
  r ← tls_cache_drain_slots m sc c TLS_REFILL_BATCH;
  let '(_, m, sc, c) := r in
  r ← (if 0 <? ccount c then cache_pop m c else Done (NULL, c));
  let '(slot, c) := r in
  if slot =? NULL then
    r ← refill_direct m sc;
    let '(slot, m, sc) := r in Done (slot, m, sc, c)
  else Done (slot, m, sc, c).

(** Giving a cached list back slot by slot: the loops of [tls_cache_flush_pool] and
    [percpu_flush]. *)
Fixpoint flush_list (fuel : nat) (m : slab_mem) (sc : slab_class) (slot : Z) : outcome (slab_mem * slab_class) :=
  match fuel with
  | O => Fault
  | S fuel =>
      if slot =? NULL then Done (m, sc)
      else if bad_slot slot then Done (m, sc)
      else
        next ← ld (snext m) slot;
        r ← slab_free m sc slot;
        let '(m, sc) := r in
        flush_list fuel m sc next
  end.

(** ** The per-CPU free lists *)

(** [percpu_freelists] with one entry per cpu and class, and [num_cpus]. *)
Record percpu := Percpu { freelists : option (gmap Z cache); num_cpus : Z }.

Definition percpu_entry (p : percpu) (cpu class_idx : Z) : option (Z * gmap Z cache) :=
  match freelists p with
  | None => None
  | Some t => if (cpu <? 0) || (num_cpus p <=? cpu) then None else Some (cpu * SLAB_CLASS_COUNT + class_idx, t)
  end.

Definition ld_entry (t : gmap Z cache) (i : Z) : outcome cache :=
  match t !! i with Some e => Done e | None => Fault end.

(** [nproc] is what [sysconf] reports, [ok] whether [calloc] succeeded. *)
Definition percpu_init (p : percpu) (nproc : Z) (ok : bool) : percpu :=
  match freelists p with
  | Some _ => p
  | None =>
      let n := if nproc <=? 0 then 1 else nproc in
      let n := if 256 <? n then 256 else n in
      if ok then Percpu (Some (gset_to_gmap empty_cache (list_to_set (seqZ 0 (n * SLAB_CLASS_COUNT))))) n
      else Percpu None 0
  end.

(** One thread at a time, the compare-and-exchange succeeds. *)
Definition percpu_pop (p : percpu) (m : slab_mem) (cpu class_idx : Z) : outcome (Z * percpu) :=
  match percpu_entry p cpu class_idx with
  | None => Done (NULL, p)
  | Some (i, t) =>
      e ← ld_entry t i;
      if chead e =? NULL then Done (NULL, p)
      else
        next ← ld (snext m) (chead e);
        Done (chead e, Percpu (Some (<[i := Cache next (u64 (ccount e - 1))]> t)) (num_cpus p))
  end.

Definition percpu_push (p : percpu) (m : slab_mem) (cpu class_idx slot : Z) : outcome (bool * percpu * slab_mem) :=
  match percpu_entry p cpu class_idx with
  | None => Done (false, p, m)
  | Some (i, t) =>
      e ← ld_entry t i;
      if MP_PERCPU_MAX_BATCH <=? ccount e then Done (false, p, m)
      else
        m ← st_slot m slot (chead e);
        Done (true, Percpu (Some (<[i := Cache slot (u64 (ccount e + 1))]> t)) (num_cpus p), m)
  end.

(** [tail->next = slots[i]; tail = slots[i];] and the last link to the old head. *)
Fixpoint chain_slots (m : slab_mem) (slots : list Z) (old : Z) : outcome slab_mem :=
  match slots with
  | [] => Done m
  | x :: slots => m ← st_slot m x (match slots with [] => old | y :: _ => y end); chain_slots m slots old
  end.

Definition percpu_refill (p : percpu) (m : slab_mem) (sc : slab_class) (cpu class_idx : Z)
    : outcome (percpu * slab_mem * slab_class) :=
  match percpu_entry p cpu class_idx with
  | None => Done (p, m, sc)
  | Some (i, t) =>
      e ← ld_entry t i;
      if MP_PERCPU_MAX_BATCH / 2 <? ccount e then Done (p, m, sc)
      else
        r ← take_slots (Z.to_nat MP_PERCPU_MAX_BATCH) m sc;
        let '(slots, m, sc) := r in
        let m := set_bytes m (u64 (slab_allocated_bytes m + u64 (zlen slots * slot_size sc))) in
        match slots with
        | [] => Done (p, m, sc)
        | head :: _ =>
            m ← chain_slots m slots (chead e);
            Done (Percpu (Some (<[i := Cache head (u64 (ccount e + zlen slots))]> t)) (num_cpus p), m, sc)
        end
  end.

(** ** The pool's classes *)

(** The slab tier of a pool: [slab_classes] with the shared memory behind them. *)
Record slab_tier := Tier {
  tm : slab_mem;
  slab_classes : gmap Z slab_class;
  remote_free_pending : bool;
  percpu_freelists : percpu;
}.

Definition ld_class (s : slab_tier) (i : Z) : outcome slab_class :=
  match slab_classes s !! i with Some c => Done c | None => Fault end.
Definition st_class (s : slab_tier) (i : Z) (m : slab_mem) (c : slab_class) : slab_tier :=
  Tier m (<[i := c]> (slab_classes s)) (remote_free_pending s) (percpu_freelists s).
Definition set_percpu (s : slab_tier) (p : percpu) : slab_tier :=
  Tier (tm s) (slab_classes s) (remote_free_pending s) p.

(** [slab_init]: every class with its slot size and nothing else. *)
Definition slab_init (m : slab_mem) (c : classes) (p : percpu) : slab_tier :=
  Tier m (list_to_map (imap (fun i sz => (Z.of_nat i, SClass (Z.of_nat i) sz NULL NULL NULL 0 NULL false))
                         (slot_sizes (slab_init_sizes c)))) false p.

Definition tier_remote_free_push (s : slab_tier) (class_idx slot : Z) : outcome slab_tier :=
  if (SLAB_CLASS_COUNT <=? class_idx) || (slot =? NULL) then Done s
  else
    c ← ld_class s class_idx;
    r ← remote_free_push (tm s) c slot;
    let '(m, c) := r in
    Done (Tier m (<[class_idx := c]> (slab_classes s)) true (percpu_freelists s)).

(** [for (i = 0; i < SLAB_CLASS_COUNT; i++) ...] with a body on one class. *)
Fixpoint for_classes (body : slab_mem -> slab_class -> outcome (slab_mem * slab_class)) (n : nat) (i : Z)
    (s : slab_tier) : outcome slab_tier :=
  match n with
  | O => Done s
  | S n =>
      c ← ld_class s i;
      r ← body (tm s) c;
      let '(m, c) := r in for_classes body n (i + 1) (st_class s i m c)
  end.

Definition remote_free_harvest_all (s : slab_tier) : outcome slab_tier :=
  if negb (remote_free_pending s) then Done s
  else for_classes remote_free_harvest (Z.to_nat SLAB_CLASS_COUNT) 0
         (Tier (tm s) (slab_classes s) false (percpu_freelists s)).

(** ** The thread cache *)

(** The part of [thread_cache_t] that caches slots. *)
Record thread_cache := Tls {
  owner_pool : Z;
  bound_arena : Z;
  tslots : gmap Z cache;
}.

Definition empty_slots : gmap Z cache := gset_to_gmap empty_cache (list_to_set (seqZ 0 SLAB_CLASS_COUNT)).

Definition ld_slots (t : thread_cache) (i : Z) : outcome cache := ld_entry (tslots t) i.
Definition st_slots (t : thread_cache) (i : Z) (c : cache) : thread_cache :=
  Tls (owner_pool t) (bound_arena t) (<[i := c]> (tslots t)).

(** The slab part of [tls_cache_flush_pool] (the TLSF caches are empty). *)
Fixpoint flush_slots (n : nat) (i : Z) (s : slab_tier) (t : thread_cache) : outcome (slab_tier * thread_cache) :=
  match n with
  | O => Done (s, t)
  | S n =>
      c ← ld_slots t i;
      sc ← ld_class s i;
      r ← flush_list (slot_fuel (tm s)) (tm s) sc (chead c);
      let '(m, sc) := r in
      flush_slots n (i + 1) (st_class s i m sc) (st_slots t i empty_cache)
  end.

Definition tls_cache_flush_slots (pool : Z) (s : slab_tier) (t : thread_cache) : outcome (slab_tier * thread_cache) :=
  if negb (owner_pool t =? pool) then Done (s, t)
  else flush_slots (Z.to_nat SLAB_CLASS_COUNT) 0 s (Tls NULL (bound_arena t) (tslots t)).

(** [mp_set_percpu_freelist] and what it calls. *)
Fixpoint flush_entries (n : nat) (i : Z) (s : slab_tier) : outcome slab_tier :=
  match n with
  | O => Done s
  | S n =>
      match freelists (percpu_freelists s) with
      | None => Done s
      | Some tb =>
          e ← ld_entry tb i;
          let cls := i mod SLAB_CLASS_COUNT in
          sc ← ld_class s cls;
          r ← flush_list (slot_fuel (tm s)) (tm s) sc (chead e);
          let '(m, sc) := r in
          let p := Percpu (Some (<[i := empty_cache]> tb)) (num_cpus (percpu_freelists s)) in
          flush_entries n (i + 1) (set_percpu (st_class s cls m sc) p)
      end
  end.

Definition percpu_flush (s : slab_tier) : outcome slab_tier :=
  match freelists (percpu_freelists s) with
  | None => Done s
  | Some _ => flush_entries (Z.to_nat (num_cpus (percpu_freelists s) * SLAB_CLASS_COUNT)) 0 s
  end.

Definition percpu_destroy (s : slab_tier) : outcome slab_tier :=
  match freelists (percpu_freelists s) with
  | None => Done s
  | Some _ => s ← percpu_flush s; Done (set_percpu s (Percpu None 0))
  end.

Definition set_tier_flags (s : slab_tier) (f : Z) : slab_tier :=
  let m := tm s in
  Tier (Mem (pages m) (plinks m) (snext m) f (slab_allocated_bytes m) (total_pool_size m) (now_ms m) (os m))
    (slab_classes s) (remote_free_pending s) (percpu_freelists s).

Definition mp_set_percpu_freelist (s : slab_tier) (enable : bool) (nproc : Z) (ok : bool) : outcome slab_tier :=
  if enable then
    let s := set_tier_flags s (Z.lor (sflags (tm s)) MP_FLAG_PERCPU_FREELIST) in
    Done (set_percpu s (percpu_init (percpu_freelists s) nproc ok))
  else
    percpu_destroy (set_tier_flags s (Z.land (sflags (tm s)) (Z.lnot MP_FLAG_PERCPU_FREELIST))).

Definition mp_get_percpu_freelist (s : slab_tier) : bool :=
  has_flag (sflags (tm s)) MP_FLAG_PERCPU_FREELIST && bool_decide (freelists (percpu_freelists s) <> None).

Definition mp_get_percpu_cpu_count (s : slab_tier) : Z := num_cpus (percpu_freelists s).

(** ** Hot and cold pages *)

Definition page_fuel (m : slab_mem) : nat := S (base.size (nxt (plinks m))).

(** [while (curr) { ...; curr = curr->next; }]. *)
Fixpoint fold_walk {A} (fuel : nat) (m : slab_mem) (f : slab_page -> A -> A) (curr : Z) (acc : A) : outcome A :=
  match fuel with
  | O => Fault
  | S fuel =>
      if curr =? NULL then Done acc
      else
        p ← ldp m curr;
        next ← ld (nxt (plinks m)) curr;
        fold_walk fuel m f next (f p acc)
  end.

(** The partial and then the full pages of every class. *)
Fixpoint fold_classes {A} (s : slab_tier) (f : slab_page -> A -> A) (k : nat) (i : Z) (acc : A) : outcome A :=
  match k with
  | O => Done acc
  | S k =>
      sc ← ld_class s i;
      acc ← fold_walk (page_fuel (tm s)) (tm s) f (partial_pages sc) acc;
      acc ← fold_walk (page_fuel (tm s)) (tm s) f (full_pages sc) acc;
      fold_classes s f k (i + 1) acc
  end.

Definition fold_pages {A} (s : slab_tier) (f : slab_page -> A -> A) (acc : A) : outcome A :=
  fold_classes s f (Z.to_nat SLAB_CLASS_COUNT) 0 acc.

Definition mp_get_hot_page_count (s : slab_tier) : outcome Z :=
  fold_pages s (fun p count => if is_hot p then u64 (count + 1) else count) 0.

Definition mp_get_cold_page_count (s : slab_tier) : outcome Z :=
  r ← fold_pages s (fun p '(total, hot) => (u64 (total + 1), if is_hot p then u64 (hot + 1) else hot)) (0, 0);
  let '(total, hot) := r in Done (if hot <? total then total - hot else 0).

Definition mp_separate_hot_cold_pages (s : slab_tier) : outcome Z :=
  if negb (has_flag (sflags (tm s)) MP_FLAG_HOT_COLD_SEPARATION) then Done 0
  else fold_pages s (fun p separated => if negb (is_hot p) then u64 (separated + 1) else separated) 0.

(** The page of a list at an address. *)
Fixpoint find_page (fuel : nat) (m : slab_mem) (curr page_raw_mem : Z) : outcome bool :=
  match fuel with
  | O => Fault
  | S fuel =>
      if curr =? NULL then Done false
      else if curr =? page_raw_mem then Done true
      else next ← ld (nxt (plinks m)) curr; find_page fuel m next page_raw_mem
  end.

Fixpoint find_in_classes (m : slab_mem) (s : slab_tier) (page_raw_mem : Z) (k : nat) (i : Z) : outcome bool :=
  match k with
  | O => Done false
  | S k =>
      sc ← ld_class s i;
      b ← find_page (page_fuel m) m (partial_pages sc) page_raw_mem;
      if (b : bool) then Done true
      else
        b ← find_page (page_fuel m) m (full_pages sc) page_raw_mem;
        if (b : bool) then Done true else find_in_classes m s page_raw_mem k (i + 1)
  end.

(** [mp_mark_page_hot] ([hot = true]) and [mp_mark_page_cold]. *)
Definition mark_page (hot : bool) (s : slab_tier) (page_raw_mem : Z) : outcome (bool * slab_tier) :=
  if page_raw_mem =? NULL then Done (false, s)
  else
    b ← find_in_classes (tm s) s page_raw_mem (Z.to_nat SLAB_CLASS_COUNT) 0;
    if (b : bool) then
      p ← ldp (tm s) page_raw_mem;
      m ← stp (tm s) page_raw_mem (Page (class_index p) (free_count p) (page_free_count p) (total_slots p)
                                     (page_free_list p) hot (idle_since_ts p));
      Done (true, Tier m (slab_classes s) (remote_free_pending s) (percpu_freelists s))
    else Done (false, s).

Definition mp_mark_page_hot := mark_page true.
Definition mp_mark_page_cold := mark_page false.

(** ** The slab tiers of an allocation *)

(** The three tiers of [mp_alloc_internal], for one class: the thread cache, the per-CPU
    list, and the slab tier with a refill. *)
Definition alloc_tiers (m : slab_mem) (sc : slab_class) (c : cache) (p : percpu) (cpu class_idx : Z)
    : outcome (Z * slab_mem * slab_class * cache * percpu) :=
  r ← (if 0 <? ccount c then r ← cache_pop m c; let '(slot, c) := r in Done (slot, m, sc, c, p)
       else match freelists p with
       | None => Done (NULL, m, sc, c, p)
       | Some _ =>
           r ← percpu_pop p m cpu class_idx;
           let '(slot, p) := r in
           if slot =? NULL then
             r ← percpu_refill p m sc cpu class_idx;
             let '(p, m, sc) := r in
             r ← percpu_pop p m cpu class_idx;
             let '(slot, p) := r in Done (slot, m, sc, c, p)
           else Done (slot, m, sc, c, p)
       end);
  let '(slot, m, sc, c, p) := r in
  if slot =? NULL then
    r ← slab_alloc_with_tls_refill m sc c;
    let '(slot, m, sc, c) := r in Done (slot, m, sc, c, p)
  else Done (slot, m, sc, c, p).

(** ** The inline fast path *)

(** [mp_alloc_fast] when the cache has a slot; [None] is the call of [mp_alloc]. *)
Definition mp_alloc_fast (pool : Z) (flags : Z) (m : slab_mem) (t : thread_cache) (size : Z)
    : outcome (option (Z * mp_block_header) * thread_cache) :=
  if (0 <? size) && (size <=? 512) && has_flag flags MP_FLAG_FAST_PATH then
    let class_idx := default 0 (cmem_size_to_class !! Z.to_nat size) in
    c ← ld_slots t class_idx;
    if 0 <? ccount c then
      r ← cache_pop m c;
      let '(slot, c) := r in
      let usable := default 0 (cmem_slab_class_size !! Z.to_nat class_idx) in
      let header := Header.Header MP_MAGIC_HEAD ALLOC_TYPE_SLAB class_idx 0 size usable slot pool NULL 0 NULL 0 in
      Done (Some (slot + SIZEOF_HEADER, header), st_slots t class_idx c)
    else Done (None, t)
  else Done (None, t).

(** [mp_free_fast] of a block with this header; [false] is the call of [mp_free]. *)
Definition mp_free_fast (flags : Z) (m : slab_mem) (t : thread_cache) (header : mp_block_header)
    : outcome (bool * slab_mem * thread_cache) :=
  if has_flag flags MP_FLAG_FAST_PATH && (alloc_type header =? ALLOC_TYPE_SLAB) &&
     (Z.land (hflags header) MP_BLOCK_FLAG_COUNTED =? 0) then
    let class_idx := Header.slab_class header in
    c ← ld_slots t class_idx;
    if ccount c <? 256 then
      r ← cache_push m c (raw_base header);
      let '(m, c) := r in Done (true, m, st_slots t class_idx c)
    else Done (false, m, t)
  else Done (false, m, t).

(** ** The caches keep the class *)

(** A cache holding exactly the slots [T]. *)
Definition cache_ok (m : slab_mem) (c : cache) (T : list Z) : Prop :=
  sll (snext m) (chead c) T /\ ccount c = zlen T /\ zlen T < 2 ^ 15.

Lemma cache_frame m m' c T : (forall x, x ∈ T -> snext m' !! x = snext m !! x) -> cache_ok m c T -> cache_ok m' c T.
Proof. intros Hf (H1 & H2 & H3). split; [|done]. by eapply sll_frame. Qed.

Lemma cache_pop_spec m c x T :
  cache_ok m c (x :: T) -> exists c', cache_pop m c = Done (x, c') /\ cache_ok m c' T /\ x <> NULL.
Proof.
  intros ((Eh & Hx & n & Hn & Hs) & Hc & Hl). unfold cache_pop. rewrite Eh, (ld_Some _ _ _ Hn). cbn [mbind outcome_bind].
  eexists. split; [done|]. split; [|done]. rewrite zlen_cons in *. pose proof (zlen_nonneg T).
  split; [done|]. cbn. rewrite Hc, u16_small by lia. lia.
Qed.

Lemma cache_push_spec m c x T :
  cache_ok m c T -> x <> NULL -> x ∉ T -> is_Some (snext m !! x) -> zlen T + 1 < 2 ^ 15 ->
  exists c', cache_push m c x = Done (set_snext m (<[x := chead c]> (snext m)), c') /\
    cache_ok (set_snext m (<[x := chead c]> (snext m))) c' (x :: T).
Proof.
  intros (Hs & Hc & Hl) H0 Hx Hn Hb. unfold cache_push, st_slot. rewrite (st_is_Some _ _ _ Hn). cbn [mbind outcome_bind].
  eexists. split; [done|]. pose proof (zlen_nonneg T). split; [by apply sll_push|]. cbn.
  rewrite zlen_cons, Hc, u16_small by lia. lia.
Qed.

(** Slots of the class are real addresses with a link word. *)
Lemma out_node sz n m sc P F E out x :
  slab_ok sz n m sc P F E out -> x ∈ out -> x <> NULL /\ is_Some (snext m !! x).
Proof.
  intros Hok Hx. destruct (out_slot _ _ _ _ _ _ _ _ _ Hok Hx) as (pg & Fr & _ & Hp & Hs & _). split.
  - eapply slot_not_bad; [apply Hok|done|done].
  - by apply (pg_slots _ _ _ _ _ Hp).
Qed.

(** Draining moves slots from the pages into the cache and nothing else. *)
Lemma drain_loop_run sz n k : forall got m sc c P F E T out,
  slab_ok sz n m sc P F E (T ++ out) -> cache_ok m c T -> zlen T + Z.of_nat k < 2 ^ 15 ->
  exists D m' sc' c' P' F' E', drain_loop k got m sc c = Done (got + zlen D, m', sc', c') /\
    slab_ok sz n m' sc' P' F' E' (D ++ T ++ out) /\ cache_ok m' c' (D ++ T) /\ same_class sc sc' /\
    (length D <= k)%nat /\ slab_allocated_bytes m' = slab_allocated_bytes m /\
    (forall x, x ∈ out -> snext m' !! x = snext m !! x) /\
    keeps_pages (all_pages P F E) (all_pages P' F' E') /\
    (D = [] -> k <> 0%nat -> P = [] /\ E = [] /\ P' = [] /\ F' = F /\ E' = [] /\ map_page (os m) = (None, os m')).
Proof.
  induction k as [|k IH]; intros got m sc c P F E T out Hok Hc Hk; cbn [drain_loop].
  { eexists [], _, _, _, _, _, _. split; [by rewrite Z.add_0_r|]. split; [exact Hok|].
    split_and!; try done. apply keeps_pages_refl. }
  destruct (ensure_partial_spec _ _ _ _ _ _ _ _ Hok) as (page & m1 & sc1 & -> & Hb1 & E1 & E2 & E3 & E4 & Hs1 & Hcase).
  cbn [mbind outcome_bind]. destruct (Z.eqb_spec page NULL) as [->|Hne].
  { destruct Hcase as (Hok1 & _ & -> & Hmap & -> & ->). eexists [], _, _, _, _, _, _. split; [by rewrite Z.add_0_r|].
    split; [exact Hok1|].
    split; [|split_and!; try done; [cbn; lia|intros x Hx; apply Hs1, elem_of_app; by right|apply keeps_pages_refl]].
    eapply cache_frame; [|exact Hc]. intros x Hx. apply Hs1, elem_of_app. by left. }
  destruct Hcase as (Fr & P' & E' & Hok1 & _ & Hkp). destruct Fr as [|slot Fr].
  { exfalso. pose proof (so_free _ _ _ _ _ _ _ _ Hok1) as (HP & _). by apply (HP page [] (list_elem_of_here _ _)). }
  destruct (take_slot_spec _ _ _ _ _ _ _ _ _ _ _ Hok1) as (m2 & sc2 & P2 & F2 & E5 & Hok2 & Hsc & Hperm & Hin & Hs2 & Hb2 & _).
  rewrite E5. cbn [mbind outcome_bind]. pose proof (so_out_nodup _ _ _ _ _ _ _ _ Hok2) as Hd. apply NoDup_cons in Hd as [Hnew Hd].
  rewrite not_elem_of_app in Hnew.
  destruct (out_node _ _ _ _ _ _ _ _ slot Hok2 (list_elem_of_here _ _)) as [H0 Hnode].
  assert (Hc2 : cache_ok m2 c T).
  { eapply cache_frame; [|exact Hc]. intros x Hx. rewrite Hs2. apply Hs1, elem_of_app. by left. }
  destruct (cache_push_spec m2 c slot T Hc2 H0 (proj1 Hnew) Hnode) as (c3 & -> & Hc3); [lia|]. cbn [mbind outcome_bind].
  set (m3 := set_snext m2 _) in *.
  assert (Hok3 : slab_ok sz n m3 sc2 P2 F2 E' ((slot :: T) ++ out)) by (eapply slab_ok_client; [done|apply list_elem_of_here]).
  destruct (IH (got + 1) m3 sc2 c3 P2 F2 E' (slot :: T) out Hok3 Hc3) as
    (D & m' & sc' & c' & P3 & F3 & E6 & E7 & Hok' & Hc' & Hsc' & Hl & Hb' & Hs' & Hkp3 & _); [rewrite zlen_cons; lia|].
  exists (D ++ [slot]), m', sc', c', P3, F3, E6. rewrite E7, zlen_app, <- !app_assoc. cbn [app].
  change (zlen [slot]) with 1. split; [do 4 f_equal; lia|]. split; [done|]. split; [done|].
  split. { eapply same_class_trans; [|exact Hsc']. eapply same_class_trans; [|exact Hsc]. by split_and!. }
  split; [rewrite length_app; cbn; lia|]. split; [rewrite Hb'; cbn; congruence|].
  split; [|split; [|by destruct D]].
  - intros x Hx. rewrite Hs' by done. cbn. rewrite lookup_insert_ne; [|intros ->; tauto].
    rewrite Hs2. apply Hs1, elem_of_app. by right.
  - eapply keeps_pages_trans; [exact Hkp|]. eapply keeps_pages_trans; [|exact Hkp3]. by eapply take_keeps.
Qed.

(** The per-CPU entry a thread on [cpu] uses, holding the slots [C]. *)
Definition percpu_ok (m : slab_mem) (p : percpu) (cpu class_idx : Z) (C : list Z) : Prop :=
  match percpu_entry p cpu class_idx with
  | None => C = []
  | Some (i, t) => exists e, t !! i = Some e /\ cache_ok m e C
  end.

Record tier_ok (sz n : Z) (m : slab_mem) (sc : slab_class) (c : cache) (p : percpu) (cpu class_idx : Z)
    (P F E : list (Z * list Z)) (T C out : list Z) : Prop := {
  ti_slab : slab_ok sz n m sc P F E (T ++ C ++ out);
  ti_tls : cache_ok m c T;
  ti_cpu : percpu_ok m p cpu class_idx C;
}.

Lemma percpu_frame m m' p cpu i C :
  (forall x, x ∈ C -> snext m' !! x = snext m !! x) -> percpu_ok m p cpu i C -> percpu_ok m' p cpu i C.
Proof.
  unfold percpu_ok. destruct (percpu_entry p cpu i) as [[k t]|]; [|done]. intros Hf (e & He & Hc).
  exists e. split; [done|]. by eapply cache_frame.
Qed.

Lemma percpu_entry_update p cpu i k t e :
  percpu_entry p cpu i = Some (k, t) ->
  percpu_entry (Percpu (Some (<[k := e]> t)) (num_cpus p)) cpu i = Some (k, <[k := e]> t).
Proof.
  unfold percpu_entry. destruct (freelists p) as [t'|]; [|done]. cbn.
  destruct ((cpu <? 0) || (num_cpus p <=? cpu)); [done|]. intros E. injection E as <- _. done.
Qed.

Lemma percpu_pop_spec m p cpu i C :
  percpu_ok m p cpu i C ->
  exists slot p', percpu_pop p m cpu i = Done (slot, p') /\
    if slot =? NULL then C = [] /\ p' = p
    else exists C', C = slot :: C' /\ percpu_ok m p' cpu i C' /\ freelists p <> None.
Proof.
  unfold percpu_ok, percpu_pop. destruct (percpu_entry p cpu i) as [[k t]|] eqn:Ep.
  2: { intros ->. exists NULL, p. by split. }
  intros (e & He & Hs & Hc & Hl). unfold ld_entry. rewrite He. cbn [mbind outcome_bind].
  destruct (Z.eqb_spec (chead e) NULL) as [E0|E0].
  - exists NULL, p. split; [done|]. cbn. split; [|done]. destruct C as [|x C]; [done|]. destruct Hs as (E1 & E2 & _). congruence.
  - destruct C as [|x C]; [done|]. destruct Hs as (E1 & Hx & nx & Hn & Hs). rewrite E1, (ld_Some _ _ _ Hn).
    cbn [mbind outcome_bind]. eexists x, _. split; [done|]. rewrite (proj2 (Z.eqb_neq x NULL)) by done. exists C.
    split; [done|]. rewrite (percpu_entry_update _ _ _ _ _ _ Ep). rewrite zlen_cons in *. pose proof (zlen_nonneg C). split.
    + eexists. rewrite lookup_insert_eq. split; [done|]. split; [done|]. cbn. rewrite Hc, u64_small by lia. split; lia.
    + intros En. unfold percpu_entry in Ep. by rewrite En in Ep.
Qed.

Lemma chain_slots_spec (m : slab_mem) l old C :
  sll (snext m) old C -> NoDup (l ++ C) -> (forall x, x ∈ l -> x <> NULL /\ is_Some (snext m !! x)) ->
  exists g, chain_slots m l old = Done (set_snext m g) /\
    sll g (match l with [] => old | y :: _ => y end) (l ++ C) /\
    (forall x, x ∉ l -> g !! x = snext m !! x).
Proof.
  revert m. induction l as [|x l IH]; intros m Hs Hd Hl; cbn [chain_slots].
  { exists (snext m). destruct m; by split_and!. }
  destruct (Hl x (list_elem_of_here _ _)) as [Hx0 Hxs]. unfold st_slot. rewrite (st_is_Some _ _ _ Hxs). cbn [mbind outcome_bind].
  cbn [app] in Hd. apply NoDup_cons in Hd as [Hx Hd]. rewrite not_elem_of_app in Hx.
  set (v := match l with [] => old | y :: _ => y end).
  destruct (IH (set_snext m (<[x := v]> (snext m)))) as (g & -> & Hg & Hf); [|done| |].
  - eapply sll_frame; [|exact Hs]. intros y Hy. cbn. rewrite lookup_insert_ne; [done|]. intros ->. tauto.
  - intros y Hy. destruct (Hl y (list_elem_of_further _ _ _ Hy)) as [? ?]. split; [done|]. cbn.
    rewrite lookup_insert_ne; [done|]. intros ->. tauto.
  - exists g. split; [done|]. split.
    + split; [done|]. split; [done|]. exists v. split; [|exact Hg]. rewrite Hf by tauto. cbn. by rewrite lookup_insert_eq.
    + intros y Hy. rewrite not_elem_of_cons in Hy. rewrite Hf by tauto. cbn. rewrite lookup_insert_ne; [done|]. intros ->. tauto.
Qed.

(** Chaining slots handed out is the clients' business. *)
Lemma slab_ok_chain sz n m sc P F E out g :
  slab_ok sz n m sc P F E out -> (forall x, x ∉ out -> g !! x = snext m !! x) ->
  (forall x, is_Some (snext m !! x) -> is_Some (g !! x)) -> slab_ok sz n (set_snext m g) sc P F E out.
Proof.
  intros Hok Hf Hm. pose proof Hok as [Hg Hsz Hn HP HF HE Hndp Hpg Hfr Hec Hond Hout].
  constructor; try done. intros pg Fr Hin. pose proof (Hpg _ _ Hin) as [Hpos Hal (p & Ep & Hc & Ht & Hs) Hnd Hfre Hsl Hnn Hmp].
  constructor; try done.
  - exists p. split; [done|]. split; [done|]. split; [done|]. eapply sll_frame; [|exact Hs]. intros y Hy. apply Hf.
    intros Hyo. by apply (out_not_free _ _ _ _ _ _ _ _ _ _ _ Hok Hyo Hin).
  - intros y Hy. by apply Hm, Hsl.
Qed.

Lemma tier_snext sz n m sc c p cpu i P F E T C out m' p' C' sc' c' P' F' E' :
  tier_ok sz n m sc c p cpu i P F E T C out -> slab_ok sz n m' sc' P' F' E' (T ++ C' ++ out) ->
  (forall x, x ∈ T -> snext m' !! x = snext m !! x) -> c' = c -> percpu_ok m' p' cpu i C' ->
  tier_ok sz n m' sc' c' p' cpu i P' F' E' T C' out.
Proof.
  intros [H1 H2 H3] Hok Hf -> Hp. constructor; [done| |done]. by eapply cache_frame.
Qed.

Lemma percpu_refill_spec sz n m sc c p cpu i P F E T C out :
  tier_ok sz n m sc c p cpu i P F E T C out ->
  exists p' m' sc' P' F' E' C', percpu_refill p m sc cpu i = Done (p', m', sc') /\
    tier_ok sz n m' sc' c p' cpu i P' F' E' T C' out /\ same_class sc sc' /\
    (forall x, x ∈ out -> snext m' !! x = snext m !! x) /\
    keeps_pages (all_pages P F E) (all_pages P' F' E') /\
    (C' = [] -> (P', F', E') = (P, F, E) /\
       (os m' = os m \/ P = [] /\ E = [] /\ map_page (os m) = (None, os m'))).
Proof.
  intros Ht. pose proof Ht as [Hok Htls Hcpu]. unfold percpu_refill, percpu_ok in *.
  destruct (percpu_entry p cpu i) as [[k t]|] eqn:Ep.
  2: { exists p, m, sc, P, F, E, C. split; [done|]. split; [done|]. split_and!; try done; [apply keeps_pages_refl|].
       intros _. split; [done|by left]. }
  destruct Hcpu as (e & He & Hc). pose proof Hc as (Hsl & Hcc & Hl). unfold ld_entry. rewrite He. cbn [mbind outcome_bind].
  destruct (Z.ltb_spec (MP_PERCPU_MAX_BATCH / 2) (ccount e)) as [Hbig|Hbig].
  { exists p, m, sc, P, F, E, C. split; [done|]. split; [done|]. split_and!; try done; [apply keeps_pages_refl|].
    intros _. split; [done|by left]. }
  destruct (take_slots_run sz n (Z.to_nat MP_PERCPU_MAX_BATCH) m sc P F E _ Hok) as
    (D & m1 & sc1 & P1 & F1 & E1 & -> & HlD & Hok1 & Hsc & Hb & Hs & Hkp & Hnil). cbn [mbind outcome_bind].
  set (m2 := set_bytes m1 _).
  assert (Hok2 : slab_ok sz n m2 sc1 P1 F1 E1 (D ++ T ++ C ++ out)) by (by apply slab_ok_bytes).
  assert (HsT : forall x, x ∈ T -> snext m2 !! x = snext m !! x) by (intros x Hx; apply Hs; rewrite elem_of_app; by left).
  assert (HsC : forall x, x ∈ C -> snext m2 !! x = snext m !! x) by (intros x Hx; apply Hs; rewrite !elem_of_app; auto).
  assert (HsO : forall x, x ∈ out -> snext m2 !! x = snext m !! x) by (intros x Hx; apply Hs; rewrite !elem_of_app; auto).
  destruct D as [|x D].
  { eexists p, m2, sc1, P1, F1, E1, C. split; [done|]. split; [|split_and!; try done].
    2: { intros _. destruct (Hnil eq_refl ltac:(done)) as (-> & -> & -> & -> & -> & Hmap). split; [done|]. by right. }
    eapply tier_snext; try done. unfold percpu_ok. rewrite Ep. exists e. split; [done|]. by eapply cache_frame. }
  pose proof (so_out_nodup _ _ _ _ _ _ _ _ Hok2) as Hd.
  assert (Hd' : NoDup ((x :: D) ++ C) /\ (forall y, y ∈ x :: D -> (y ∉ T) /\ (y ∉ out))).
  { rewrite !NoDup_app in Hd. rewrite NoDup_app.
    destruct Hd as (D1 & D2 & D3 & D4 & D5 & D6 & D7). split; [split_and!; try done|];
      intros y Hy; [|split]; intros Hyc; apply (D2 y Hy); rewrite !elem_of_app; tauto. }
  destruct Hd' as [HdC HdD].
  destruct (chain_slots_spec m2 (x :: D) (chead e) C) as (g & -> & Hg & Hgf).
  { eapply sll_frame; [|exact Hsl]. done. }
  { done. }
  { intros y Hy. eapply out_node; [exact Hok2|]. apply elem_of_app. by left. }
  cbn [mbind outcome_bind]. eexists _, _, sc1, P1, F1, E1, ((x :: D) ++ C). split; [done|].
  assert (Hgs : forall y, is_Some (snext m2 !! y) -> is_Some (g !! y)).
  { intros y Hy. destruct (decide (y ∈ x :: D)) as [Hin|Hnin]; [|by rewrite Hgf].
    eapply sll_node; [exact Hg|]. apply elem_of_app. by left. }
  split; [|split; [done|split; [|by split]]].
  - eapply tier_snext; try done.
    + eapply slab_ok_perm; [|apply slab_ok_chain; [exact Hok2| |exact Hgs]].
      * rewrite !app_assoc. do 2 apply Permutation_app_tail. apply Permutation_app_comm.
      * intros y Hy. apply Hgf. intros Hin. apply Hy, elem_of_app. by left.
    + intros y Hy. cbn. rewrite Hgf; [by apply HsT|]. intros Hin. by apply (proj1 (HdD _ Hin)).
    + unfold percpu_ok. rewrite (percpu_entry_update _ _ _ _ _ _ Ep). eexists. rewrite lookup_insert_eq.
      split; [done|]. unfold MP_PERCPU_MAX_BATCH in *. change (16 / 2) with 8 in Hbig.
      assert (Hlen : zlen (x :: D) <= 16) by (unfold zlen; lia). pose proof (zlen_nonneg (x :: D)). pose proof (zlen_nonneg C).
      split; [exact Hg|]. rewrite zlen_app. cbn [ccount]. rewrite Hcc, u64_small by lia. split; lia.
  - intros y Hy. cbn. rewrite Hgf; [by apply HsO|]. intros Hin. by apply (proj2 (HdD _ Hin)).
Qed.

(** [k] attempts to map a page, all failing, lead from [o] to [o']. *)
Fixpoint map_fails (k : nat) (o o' : vm) : Prop :=
  match k with
  | O => o' = o
  | S k => exists o1, map_page o = (None, o1) /\ map_fails k o1 o'
  end.

(** The last resort, with no page that has a free slot: the pages stay as they are; the
    attempt to map one fails ([slot = NULL]), or the slot is one of a page that is put on
    none of the lists. *)
Definition last_resort (sz n : Z) (m : slab_mem) (F : list (Z * list Z)) (o : vm) (slot : Z) : Prop :=
  if slot =? NULL then map_page o = (None, os m)
  else
    fst (map_page o) = Some (page_of slot) /\ (page_of slot ∉ map fst F) /\
    exists Fr, page_ok m sz n (page_of slot) Fr /\ Fr <> [] /\ slot ∈ page_slots sz n (page_of slot) /\ (slot ∉ Fr).

(** What an allocation does to a tier with the pages [P], [F], [E], the cached slots [T] and
    [C] and the clients' slots [out].  Either it hands out a slot, every page stays on the
    lists, and each slot of a page on them is again free, cached or held.  Or there was no
    free and no cached slot at all, mapping a page has failed, and the last resort
    followed. *)
Definition alloc_outcome (sz n : Z) (m : slab_mem) (P F E : list (Z * list Z)) (T C out : list Z)
    (m' : slab_mem) (sc' : slab_class) (c' : cache) (p' : percpu) (cpu i slot : Z) : Prop :=
  (slot <> NULL /\ exists P' F' E' T' C', tier_ok sz n m' sc' c' p' cpu i P' F' E' T' C' (slot :: out) /\
     keeps_pages (all_pages P F E) (all_pages P' F' E')) \/
  (P = [] /\ E = [] /\ T = [] /\ C = [] /\ tier_ok sz n m' sc' c' p' cpu i [] F [] [] [] out /\
     exists k o, (1 <= k)%nat /\ map_fails k (os m) o /\ last_resort sz n m' F o slot).

(** Taking a slot of a fresh page that was left off the lists. *)
Lemma take_orphan sz n m sc P F E out pg :
  slab_ok sz n m sc P F E out -> page_ok m sz n pg (page_slots sz n pg) -> (pg ∉ map fst (all_pages P F E)) -> 2 <= n ->
  exists m' Fr, take_slot m sc pg = Done (pg + SIZEOF_SLAB_PAGE, m', sc) /\ slab_ok sz n m' sc P F E out /\
    page_ok m' sz n pg Fr /\ Fr <> [] /\ (pg + SIZEOF_SLAB_PAGE ∉ Fr) /\ snext m' = snext m.
Proof.
  intros Hok Hp Hnew Hn2. pose proof (so_geometry _ _ _ _ _ _ _ _ Hok) as Hg.
  assert (Esl : exists Fr, page_slots sz n pg = (pg + SIZEOF_SLAB_PAGE) :: Fr /\ zlen Fr = n - 1).
  { unfold page_slots. destruct (Z.to_nat n) as [|k] eqn:Ek; [lia|]. cbn [slot_addrs].
    rewrite Z.mul_0_l, Z.add_0_r. eexists. split; [done|]. unfold zlen. rewrite length_slot_addrs. lia. }
  destruct Esl as (Fr & Esl & HlF). rewrite Esl in Hp. pose proof (n_u16 _ _ _ _ _ _ _ _ Hok) as Hn16.
  pose proof Hp as [Hpos Hal (h & Eh & Hc & Ht & Hs) Hnd Hf Hsl Hnn Hm].
  destruct Hs as (Hhd & Hs0 & nx & Hnx & Hs). apply NoDup_cons in Hnd as [Hslot Hnd].
  unfold take_slot, ldp, stp. rewrite Eh. cbn [mbind outcome_bind]. rewrite Hhd, (ld_Some _ _ _ Hnx). cbn [mbind outcome_bind].
  rewrite zlen_cons in Hc. rewrite Hc, u16_small by lia. rewrite (proj2 (Z.eqb_neq _ 0)) by lia.
  set (h' := Page _ _ _ _ _ _ _). eexists (set_pages m (<[pg := h']> (pages m))), Fr. split; [done|].
  pose proof (outside_page m pg h') as Ho. split_and!; try done.
  - pose proof Hok as [_ Hsz Hn HP HF HE Hndp Hpg Hfr Hec Hond Hout]. constructor; try done.
    intros q G Hin. eapply page_ok_outside; [done|exact Ho| |by apply Hpg]. rewrite list_elem_of_singleton. intros ->.
    apply Hnew. by eapply elem_fst.
  - constructor; try done.
    + exists h'. cbn. rewrite lookup_insert_eq. split; [done|]. split; [lia|done].
    + intros x Hx. apply Hf. by apply list_elem_of_further.
  - intros ->. change (@zlen Z []) with 0 in HlF. lia.
Qed.

Lemma refill_direct_spec sz n m sc c p cpu i F C out :
  tier_ok sz n m sc c p cpu i [] F [] [] C out -> 2 <= n ->
  exists slot m' sc', refill_direct m sc = Done (slot, m', sc') /\
    tier_ok sz n m' sc' c p cpu i [] F [] [] C out /\ last_resort sz n m' F (os m) slot /\ same_class sc sc' /\
    (forall x, x ∈ out -> snext m' !! x = snext m !! x).
Proof.
  intros Ht Hn2. pose proof Ht as [Hok Htls Hcpu]. cbn [app] in Hok.
  assert (EP : partial_pages sc = NULL) by exact (dll_head _ _ _ (so_partial _ _ _ _ _ _ _ _ Hok)).
  assert (EE : empty_pages sc = NULL) by exact (dll_head _ _ _ (so_empty _ _ _ _ _ _ _ _ Hok)).
  unfold refill_direct. rewrite EP, EE. cbn [Z.eqb NULL negb].
  destruct (slab_create_page m sc) as [pg m1] eqn:Ec. cbn [mbind outcome_bind].
  destruct (slab_create_page_spec _ _ _ _ _ _ _ _ _ _ Hok Ec) as [Hb Hp].
  assert (Emap : map_page (os m) = (if pg =? NULL then None else Some pg, os m1)).
  { unfold slab_create_page in Ec. destruct (map_page (os m)) as [[q|] o] eqn:Em; injection Ec as <- <-; [|done].
    destruct (map_page_spec _ _ _ Em) as [_ (Hpos & _)]. by rewrite (proj2 (Z.eqb_neq q NULL)) by (unfold NULL; lia). }
  destruct (Z.eqb_spec pg NULL) as [->|Hpg].
  - destruct Hp as (Hok1 & Ho & Hsn). eexists _, _, _. split; [done|]. split; [|split; [done|by rewrite Hsn]].
    constructor; [done|by eapply cache_frame|]. eapply percpu_frame; [|exact Hcpu]. intros x _. by rewrite Hsn.
  - destruct Hp as (Hnew & Hpok & Ho & Hok1).
    destruct (take_orphan _ _ _ _ _ _ _ _ _ Hok1 Hpok Hnew Hn2) as (m2 & Fr & -> & Hok2 & Hp2 & HFr & Hsl & Hsn).
    cbn [mbind outcome_bind]. eexists _, _, _. split; [done|]. pose proof (so_geometry _ _ _ _ _ _ _ _ Hok) as Hg.
    assert (Hin : pg + SIZEOF_SLAB_PAGE ∈ page_slots sz n pg).
    { apply elem_of_slot_addrs. exists 0. split; [lia|]. lia. }
    pose proof (page_of_slot sz n pg _ Hg (pg_aligned _ _ _ _ _ Hpok) Hin) as Hpo.
    assert (Hsame : forall x, x ∈ C ++ out -> snext m2 !! x = snext m !! x).
    { intros x Hx. rewrite Hsn. apply (os_snext _ _ _ Ho). rewrite list_elem_of_singleton. intros E1.
      destruct (out_slot _ _ _ _ _ _ _ _ _ Hok Hx) as (q & G & Hq & Hqok & Hxq & _).
      rewrite (page_of_slot sz n q x Hg (pg_aligned _ _ _ _ _ Hqok) Hxq) in E1. subst q. apply Hnew. by eapply elem_fst. }
    split; [|split; [|split; [done|]]]; [| |intros x Hx; cbn; apply Hsame, elem_of_app; by right].
    + constructor; [by apply slab_ok_bytes|eapply cache_frame; [|exact Htls]; intros x Hx; by apply not_elem_of_nil in Hx|].
      eapply percpu_frame; [|exact Hcpu]. intros x Hx. cbn. apply Hsame, elem_of_app. by left.
    + unfold last_resort. rewrite Hpo, Emap.
      rewrite (proj2 (Z.eqb_neq _ _)) by (unfold SIZEOF_SLAB_PAGE, NULL; pose proof (pg_pos _ _ _ _ _ Hpok); lia).
      split; [done|]. split; [unfold all_pages in Hnew; cbn [app] in Hnew; by rewrite app_nil_r in Hnew|]. exists Fr. split; [by destruct Hp2|done].
Qed.

Lemma with_tls_refill_spec sz n m sc c p cpu i P F E out :
  tier_ok sz n m sc c p cpu i P F E [] [] out -> 2 <= n ->
  exists slot m' sc' c', slab_alloc_with_tls_refill m sc c = Done (slot, m', sc', c') /\
    alloc_outcome sz n m P F E [] [] out m' sc' c' p cpu i slot.
Proof.
  intros [Hok Htls Hcpu] Hn2. unfold slab_alloc_with_tls_refill, tls_cache_drain_slots.
  destruct (drain_loop_run sz n TLS_REFILL_BATCH 0 m sc c P F E [] out Hok Htls) as
    (D & m1 & sc1 & c1 & P1 & F1 & E1 & -> & Hok1 & Htls1 & Hsc & _ & Hb & Hs & Hkp & Hnil); [reflexivity|].
  cbn [mbind outcome_bind]. set (m2 := set_bytes m1 _). rewrite app_nil_r in Htls1. cbn [app] in Hok1.
  assert (Hok2 : slab_ok sz n m2 sc1 P1 F1 E1 (D ++ out)) by (by apply slab_ok_bytes).
  assert (Hcpu2 : percpu_ok m2 p cpu i []).
  { eapply percpu_frame; [|exact Hcpu]. intros x Hx. by apply not_elem_of_nil in Hx. }
  destruct D as [|x D].
  - destruct Htls1 as (Hh & Hc & Hl). change (@zlen Z []) with 0 in Hc. rewrite Hc. cbn [Z.ltb Z.compare mbind outcome_bind].
    destruct (Hnil eq_refl ltac:(done)) as (-> & -> & -> & -> & -> & Hmap).
    destruct (refill_direct_spec sz n m2 sc1 c1 p cpu i F [] out) as (slot & m3 & sc3 & E3 & Ht3 & Hlast & _);
      [by constructor|done|].
    change (NULL =? NULL) with true. rewrite E3. cbn [mbind outcome_bind]. eexists _, _, _, _. split; [done|].
    right. split_and!; try done. exists 1%nat, (os m2). split; [done|]. split; [|done]. by exists (os m1).
  - destruct (cache_pop_spec m2 c1 x D Htls1) as (c2 & Ep & Hc2 & Hx0). destruct Htls1 as (_ & Hc & _).
    rewrite Hc, zlen_cons. pose proof (zlen_nonneg D). rewrite (proj2 (Z.ltb_lt 0 _)) by lia. rewrite Ep.
    cbn [mbind outcome_bind]. rewrite (proj2 (Z.eqb_neq x NULL)) by done.
    eexists _, _, _, _. split; [done|]. left. split; [done|].
    exists P1, F1, E1, D, []. split; [|done]. constructor; [|done|done].
    eapply slab_ok_perm; [|exact Hok2]. cbn [app]. by rewrite Permutation_middle.
Qed.

(** A failed attempt of the per-CPU refill counts as well. *)
Lemma outcome_after sz n m m1 P F E out m' sc' c' p' cpu i slot :
  os m1 = os m \/ (P = [] /\ E = [] /\ map_page (os m) = (None, os m1)) ->
  alloc_outcome sz n m1 P F E [] [] out m' sc' c' p' cpu i slot ->
  alloc_outcome sz n m P F E [] [] out m' sc' c' p' cpu i slot.
Proof.
  intros Hos [H|(-> & -> & _ & _ & Ht & k & o & Hk & Hf & Hl)]; [by left|]. right. split_and!; try done.
  destruct Hos as [E1|(_ & _ & Hmap)].
  - exists k, o. by rewrite <- E1.
  - exists (S k), o. split; [lia|]. split; [|done]. by exists (os m1).
Qed.

(** C11: an allocation that goes through the slot caches - thread cache, per-CPU list, slab
    tier with a refill of the thread cache - always completes.  While a slot is free or
    cached, or the system maps a page when asked, it gives out a slot that neither a client
    nor a cache holds, and loses none: no page leaves the lists of the class, and the slots
    of the pages on them are again partitioned into free, cached and held ones.  Otherwise
    mapping a page has failed and is tried once more; if that fails too the allocation
    does, all holders keeping what they have; if it succeeds, the slot given out belongs to
    a page that is put on none of the lists, so its other slots are out of reach. *)
Theorem cached_alloc_exclusive sz n m sc c p cpu class_idx P F E T C out :
  tier_ok sz n m sc c p cpu class_idx P F E T C out -> 2 <= n ->
  exists slot m' sc' c' p', alloc_tiers m sc c p cpu class_idx = Done (slot, m', sc', c', p') /\
    alloc_outcome sz n m P F E T C out m' sc' c' p' cpu class_idx slot.
Proof.
  intros Ht Hn2. pose proof Ht as [Hok Htls Hcpu]. unfold alloc_tiers. pose proof (zlen_nonneg T).
  destruct Htls as (Hh & Hc & Hl). destruct (Z.ltb_spec 0 (ccount c)) as [Hpos|Hz].
  - destruct T as [|x T]; [change (@zlen Z []) with 0 in Hc; lia|].
    destruct (cache_pop_spec m c x T) as (c' & -> & Hc' & Hx0); [done|]. cbn [mbind outcome_bind].
    rewrite (proj2 (Z.eqb_neq x NULL)) by done. eexists _, _, _, _, _. split; [done|].
    left. split; [done|]. exists P, F, E, T, C. split; [|apply keeps_pages_refl]. constructor; [|done|done].
    eapply slab_ok_perm; [|exact Hok]. rewrite !app_assoc. cbn [app]. by rewrite Permutation_middle.
  - destruct T as [|x T]; [|rewrite zlen_cons in Hc; pose proof (zlen_nonneg T); lia].
    destruct (freelists p) as [tb|] eqn:Ef; cbn [mbind outcome_bind].
    2: { assert (C = []) as -> by (unfold percpu_ok, percpu_entry in Hcpu; by rewrite Ef in Hcpu).
         change (NULL =? NULL) with true.
         destruct (with_tls_refill_spec _ _ _ _ _ _ _ _ _ _ _ _ Ht Hn2) as (slot & m' & sc' & c' & -> & Ho).
         eexists _, _, _, _, _. by split. }
    destruct (percpu_pop_spec _ _ _ _ _ Hcpu) as (slot & p1 & -> & Hp1). cbn [mbind outcome_bind].
    destruct (Z.eqb_spec slot NULL) as [->|Hs0].
    + destruct Hp1 as [-> ->].
      destruct (percpu_refill_spec _ _ _ _ _ _ _ _ _ _ _ _ _ _ Ht) as (p2 & m2 & sc2 & P2 & F2 & E2 & C2 & -> & Ht2 & _ & _ & Hkp & Hnil).
      cbn [mbind outcome_bind]. destruct (percpu_pop_spec _ _ _ _ _ (ti_cpu _ _ _ _ _ _ _ _ _ _ _ _ _ _ Ht2)) as (slot & p3 & -> & Hp3).
      cbn [mbind outcome_bind]. destruct (Z.eqb_spec slot NULL) as [->|Hs0].
      * destruct Hp3 as [-> ->].
        destruct (with_tls_refill_spec _ _ _ _ _ _ _ _ _ _ _ _ Ht2 Hn2) as (slot & m' & sc' & c' & -> & Ho).
        eexists _, _, _, _, _. split; [done|]. destruct (Hnil eq_refl) as [[= -> -> ->] Hos]. by eapply outcome_after.
      * destruct Hp3 as (C3 & -> & Hp3 & _). eexists _, _, _, _, _. split; [done|]. left. split; [done|].
        exists P2, F2, E2, [], C3. split; [|done]. destruct Ht2 as [Hok2 Htls2 _]. constructor; [|done|done].
        eapply slab_ok_perm; [|exact Hok2]. cbn [app]. by rewrite Permutation_middle.
    + destruct Hp1 as (C1 & -> & Hp1 & _). cbn [mbind outcome_bind]. rewrite (proj2 (Z.eqb_neq slot NULL)) by done.
      eexists _, _, _, _, _. split; [done|]. left. split; [done|]. exists P, F, E, [], C1. split; [|apply keeps_pages_refl].
      constructor; [|done|done]. eapply slab_ok_perm; [|exact Hok]. cbn [app]. by rewrite Permutation_middle.
Qed.

(** ** Giving a cache back *)

Lemma flush_list_run sz n T : forall fuel m sc P F E out q,
  slab_ok sz n m sc P F E (T ++ out) -> sll (snext m) q T -> (length T < fuel)%nat ->
  0 <= slot_size sc -> 0 <= slab_allocated_bytes m ->
  exists m' sc' P' F' E', flush_list fuel m sc q = Done (m', sc') /\ slab_ok sz n m' sc' P' F' E' out /\
    same_class sc sc' /\ slab_allocated_bytes m' = Z.max 0 (slab_allocated_bytes m - zlen T * slot_size sc) /\
    (forall x, x ∉ T -> snext m' !! x = snext m !! x) /\ map fst (all_pages P' F' E') ≡ₚ map fst (all_pages P F E).
Proof.
  induction T as [|x T IH]; intros fuel m sc P F E out q Hok Hs Hf Hsz Hb; (destruct fuel as [|fuel]; [cbn in Hf; lia|]); cbn [flush_list].
  - cbn in Hs. subst q. change (NULL =? NULL) with true. eexists _, _, _, _, _. split; [done|]. split; [exact Hok|].
    split_and!; try done. change (@zlen Z []) with 0. lia.
  - destruct Hs as (Eq & Hx0 & nx & Hnx & Hs). subst q. rewrite (proj2 (Z.eqb_neq x NULL)) by done.
    destruct (out_slot _ _ _ _ _ _ _ _ x Hok (list_elem_of_here _ _)) as (pg & Fr & _ & Hp & Hin & _).
    rewrite (proj1 (slot_not_bad _ _ _ _ _ _ (so_geometry _ _ _ _ _ _ _ _ Hok) Hp Hin)).
    rewrite (ld_Some _ _ _ Hnx). cbn [mbind outcome_bind]. unfold slab_free.
    assert (Hok1 : slab_ok sz n (release_bytes m (slot_size sc)) sc P F E (x :: T ++ out)) by (by apply slab_ok_bytes).
    destruct (slab_free_run _ _ _ _ _ _ _ _ _ Hok1) as (tr & m1 & -> & m2 & sc2 & P2 & F2 & E2 & E3 & Hok2 & Hsc & Hb2 & Hs2 & _ & Hk).
    cbn [mbind outcome_bind]. rewrite E3. cbn [mbind outcome_bind].
    assert (HxT : x ∉ T ++ out) by (pose proof (so_out_nodup _ _ _ _ _ _ _ _ Hok) as Hd; by apply NoDup_cons in Hd as [? _]).
    assert (Hbm : slab_allocated_bytes m2 = Z.max 0 (slab_allocated_bytes m - slot_size sc)).
    { rewrite Hb2. cbn. destruct (Z.leb_spec (slot_size sc) (slab_allocated_bytes m)); lia. }
    destruct (IH fuel m2 sc2 P2 F2 E2 out nx) as (m' & sc' & P' & F' & E' & E4 & Hok' & Hsc' & Hb' & Hs' & Hk').
    + done.
    + eapply sll_frame; [|exact Hs]. intros y Hy. apply Hs2. intros ->. apply HxT, elem_of_app. by left.
    + cbn in Hf. lia.
    + by rewrite (proj1 Hsc).
    + lia.
    + eexists _, _, _, _, _. split; [exact E4|]. split; [exact Hok'|]. split; [by eapply same_class_trans|]. split.
      * rewrite Hb', zlen_cons, (proj1 Hsc), Hbm. pose proof (zlen_nonneg T). nia.
      * split; [|by rewrite Hk']. intros y Hy. rewrite not_elem_of_cons in Hy. rewrite (Hs' _ (proj2 Hy)). exact (Hs2 _ (proj1 Hy)).
Qed.

(** ** Counting hot and cold pages *)

Definition page0 : slab_page := Page 0 0 0 0 NULL false 0.
Definition header_of (m : slab_mem) (a : Z) : slab_page := default page0 (pages m !! a).

Lemma fold_walk_spec {A} (m : slab_mem) (f : slab_page -> A -> A) hd l : forall fuel acc pv,
  seg (plinks m) pv hd l NULL -> (forall x, x ∈ l -> is_Some (pages m !! x)) -> (length l < fuel)%nat ->
  fold_walk fuel m f hd acc = Done (foldl (fun a x => f (header_of m x) a) acc l).
Proof.
  revert hd. induction l as [|x l IH]; intros hd fuel acc pv Hs Hp Hf; (destruct fuel as [|fuel]; [cbn in Hf; lia|]); cbn [fold_walk foldl].
  - cbn in Hs. subst hd. done.
  - destruct Hs as (-> & Hx & Hpv & n & Hn & Hs). rewrite (proj2 (Z.eqb_neq x NULL)) by done.
    destruct (Hp x (list_elem_of_here _ _)) as [p Ep]. unfold ldp. rewrite Ep. cbn [mbind outcome_bind].
    rewrite (ld_Some _ _ _ Hn). cbn [mbind outcome_bind]. rewrite (IH n fuel _ x Hs); [|intros y Hy; apply Hp; by apply list_elem_of_further|cbn in Hf; lia].
    assert (header_of m x = p) as -> by (unfold header_of; by rewrite Ep). done.
Qed.

Lemma dll_fuel (m : slab_mem) hd l : dll (plinks m) hd l -> (length l < page_fuel m)%nat.
Proof.
  intros Hd. unfold page_fuel. assert (length l <= base.size (nxt (plinks m)))%nat; [|lia].
  apply nodup_size; [apply Hd|]. intros x Hx. by destruct (dll_node _ _ _ _ Hd Hx) as [[? _] _].
Qed.

(** [L]: per class from [i] on, its partial and full pages. *)
Fixpoint listed (s : slab_tier) (k : nat) (i : Z) (L : list (list Z)) : Prop :=
  match k with
  | O => L = []
  | S k => exists sc p f L', slab_classes s !! i = Some sc /\ dll (plinks (tm s)) (partial_pages sc) p /\
             dll (plinks (tm s)) (full_pages sc) f /\ L = (p ++ f) :: L' /\ listed s k (i + 1) L'
  end.

Lemma fold_classes_spec {A} s (f : slab_page -> A -> A) k : forall i L acc,
  listed s k i L -> (forall x, x ∈ concat L -> is_Some (pages (tm s) !! x)) ->
  fold_classes s f k i acc = Done (foldl (fun a x => f (header_of (tm s) x) a) acc (concat L)).
Proof.
  induction k as [|k IH]; intros i L acc HL Hp; cbn [fold_classes].
  - cbn in HL. by subst L.
  - destruct HL as (sc & p & q & L' & Ec & Hpp & Hpq & -> & HL). cbn [concat] in *. unfold ld_class. rewrite Ec.
    cbn [mbind outcome_bind]. rewrite (fold_walk_spec _ _ _ p _ _ NULL (proj1 Hpp)); [|intros x Hx; apply Hp; rewrite !elem_of_app; auto|by eapply dll_fuel].
    cbn [mbind outcome_bind]. rewrite (fold_walk_spec _ _ _ q _ _ NULL (proj1 Hpq)); [|intros x Hx; apply Hp; rewrite !elem_of_app; auto|by eapply dll_fuel].
    cbn [mbind outcome_bind]. rewrite IH with (L := L'); [by rewrite !foldl_app|done|]. intros x Hx. apply Hp. rewrite elem_of_app. by right.
Qed.

Lemma foldl_count (m : slab_mem) (test : slab_page -> bool) l : forall n,
  0 <= n -> n + zlen l < 2 ^ 64 ->
  foldl (fun a x => if test (header_of m x) then u64 (a + 1) else a) n l =
  n + zlen (filter (fun x => test (header_of m x) = true) l).
Proof.
  induction l as [|x l IH]; intros n H0 Hl; cbn [foldl]; [change (filter _ []) with (@nil Z); change (@zlen Z []) with 0; lia|].
  rewrite zlen_cons in Hl. pose proof (zlen_nonneg l). rewrite filter_cons. destruct (test (header_of m x)) eqn:Et.
  - rewrite decide_True by done. rewrite u64_small, IH, zlen_cons by lia. lia.
  - rewrite decide_False by done. rewrite IH by lia. lia.
Qed.

Lemma foldl_pair (m : slab_mem) (test : slab_page -> bool) l : forall a b,
  foldl (fun r x => (fun p '(total, hot) => (u64 (total + 1), if test p then u64 (hot + 1) else hot)) (header_of m x) r) (a, b) l =
  (foldl (fun a x => if (fun _ => true) (header_of m x) then u64 (a + 1) else a) a l,
   foldl (fun b x => if test (header_of m x) then u64 (b + 1) else b) b l).
Proof. induction l as [|x l IH]; intros a b; cbn [foldl]; [done|]. apply IH. Qed.

Lemma filter_split (m : slab_mem) (test : slab_page -> bool) l :
  zlen l = zlen (filter (fun x => test (header_of m x) = true) l) +
           zlen (filter (fun x => negb (test (header_of m x)) = true) l).
Proof.
  induction l as [|x l IH]; [done|]. rewrite zlen_cons, !filter_cons. destruct (test (header_of m x)) eqn:Et; cbn [negb].
  - rewrite decide_True, decide_False, zlen_cons by done. lia.
  - rewrite decide_False, decide_True, zlen_cons by done. lia.
Qed.

(** The hot and cold page counts partition the partial and full pages of all classes -
    each walk terminates on every such page - and the candidates the separation pass
    reports are exactly the cold pages when the pool's flag is set and none otherwise.
    Pages on an empty list are in neither count. *)
Theorem hot_cold_counts s L :
  listed s (Z.to_nat SLAB_CLASS_COUNT) 0 L -> (forall x, x ∈ concat L -> is_Some (pages (tm s) !! x)) ->
  zlen (concat L) < 2 ^ 64 ->
  exists hot cold, mp_get_hot_page_count s = Done hot /\ mp_get_cold_page_count s = Done cold /\
    hot + cold = zlen (concat L) /\
    hot = zlen (filter (fun x => is_hot (header_of (tm s) x) = true) (concat L)) /\
    mp_separate_hot_cold_pages s =
      Done (if has_flag (sflags (tm s)) MP_FLAG_HOT_COLD_SEPARATION then cold else 0).
Proof.
  intros HL Hp Hlen. pose proof (filter_split (tm s) is_hot (concat L)) as Hsplit.
  set (h := zlen (filter (fun x => is_hot (header_of (tm s) x) = true) (concat L))) in *.
  set (c := zlen (filter (fun x => negb (is_hot (header_of (tm s) x)) = true) (concat L))) in *.
  assert (0 <= h /\ 0 <= c) as [Hh Hc] by (split; apply zlen_nonneg).
  exists h, c. unfold mp_get_hot_page_count, mp_get_cold_page_count, mp_separate_hot_cold_pages, fold_pages.
  rewrite !(fold_classes_spec _ _ _ _ L _ HL Hp). cbn [mbind outcome_bind]. rewrite foldl_pair.
  rewrite (foldl_count (tm s) is_hot), (foldl_count (tm s) (fun _ => true)) by lia.
  rewrite (foldl_count (tm s) (fun p => negb (is_hot p))) by lia. fold h c.
  assert (Hall : zlen (filter (fun _ => true = true) (concat L)) = zlen (concat L)).
  { clear. induction (concat L) as [|x l IH]; [done|]. rewrite filter_cons, decide_True, !zlen_cons by done. lia. }
  cbn [Z.add] in *. rewrite Hall. split; [done|]. split.
  - destruct (Z.ltb_spec (0 + h) (0 + zlen (concat L))); f_equal; lia.
  - split; [lia|]. split; [done|]. by destruct (has_flag _ _).
Qed.

End Caches.

(** ** Witnesses *)

Lemma demo_tier : @tier_ok bump demo_sz (slots_of demo_sz) (ss_mem demo_boot) (ss_class demo_boot) empty_cache (Percpu None 0)
  0 1 [] [] [] [] [] [].
Proof.
  constructor; [|split; [exact eq_refl|split; [exact eq_refl|vm_compute; exact eq_refl]]|exact eq_refl].
  exact (co_slab _ _ _ _ _ _ _ _ _ (@boot_class_ok bump 0 1 64 bump0 demo_geometry ltac:(lia))).
Qed.

Lemma cached_alloc_exclusive_witness :
  exists slot m' sc' c' p',
    @alloc_tiers bump (ss_mem demo_boot) (ss_class demo_boot) empty_cache (Percpu None 0) 0 1 = Done (slot, m', sc', c', p') /\
    alloc_outcome demo_sz (slots_of demo_sz) (ss_mem demo_boot) [] [] [] [] [] [] m' sc' c' p' 0 1 slot.
Proof.
  destruct (@cached_alloc_exclusive bump demo_sz (slots_of demo_sz) _ _ _ _ 0 1 [] [] [] [] [] [] demo_tier
    ltac:(vm_compute; discriminate)) as (slot & m' & sc' & c' & p' & E & H).
  exists slot, m', sc', c', p'. split; [exact E|exact H].
Defined.

(** A hot and a cold page in class 1, the other classes empty. *)
Definition demo_pages : @slab_mem bump :=
  Mem {[ 65536 := Page 1 5 5 9 65608 true 0; 131072 := Page 1 3 3 9 131144 false 0 ]}
    (Links {[ 65536 := 131072; 131072 := NULL ]} {[ 65536 := NULL; 131072 := 65536 ]}) ∅ MP_FLAG_HOT_COLD_SEPARATION 0 0 0 bump0.

Definition demo_slab_tier : @slab_tier bump :=
  Tier demo_pages
    (<[1 := SClass 1 64 65536 NULL NULL 0 NULL false]>
      (gset_to_gmap (SClass 0 8 NULL NULL NULL 0 NULL false) (list_to_set (seqZ 0 SLAB_CLASS_COUNT)))) false (Percpu None 0).

Definition demo_lists : list (list Z) := [] :: [65536; 131072] :: replicate 10 [].

Lemma demo_listed : listed demo_slab_tier (Z.to_nat SLAB_CLASS_COUNT) 0 demo_lists.
Proof.
  change (Z.to_nat SLAB_CLASS_COUNT) with 12%nat. cbn [listed].
  eexists _, [], [], _. split; [vm_compute; exact eq_refl|]. split; [exact (dll_nil _)|]. split; [exact (dll_nil _)|]. split; [exact eq_refl|].
  eexists _, [65536; 131072], [], _. split; [vm_compute; exact eq_refl|]. split.
  { split; [|apply (bool_decide_unpack _); vm_compute; exact I]. cbn [seg].
    split; [exact eq_refl|]. split; [discriminate|]. split; [vm_compute; exact eq_refl|]. eexists. split; [vm_compute; exact eq_refl|].
    split; [exact eq_refl|]. split; [discriminate|]. split; [vm_compute; exact eq_refl|]. eexists. split; [vm_compute; exact eq_refl|exact eq_refl]. }
  split; [exact (dll_nil _)|]. split; [exact eq_refl|].
  do 10 (eexists _, [], [], _; split; [vm_compute; exact eq_refl|]; split; [exact (dll_nil _)|]; split; [exact (dll_nil _)|]; split; [exact eq_refl|]).
  exact eq_refl.
Qed.

Lemma hot_cold_counts_witness :
  exists hot cold, mp_get_hot_page_count demo_slab_tier = Done hot /\ mp_get_cold_page_count demo_slab_tier = Done cold /\
    hot + cold = 2.
Proof.
  destruct (hot_cold_counts demo_slab_tier demo_lists demo_listed) as (hot & cold & E1 & E2 & H & _).
  - intros x Hx. cbn in Hx. apply elem_of_cons in Hx as [->|Hx]; [vm_compute; eauto|].
    apply list_elem_of_singleton in Hx as ->. vm_compute. eauto.
  - vm_compute. exact eq_refl.
  - exists hot, cold. split; [exact E1|]. split; [exact E2|exact H].
Defined.
