(* ===== verification/Reclaim.v ===== *)
(** * Giving slab pages back

    [mp_compact] and [mp_purge_lazy] of [src/cmem_sys.c], [mp_reclaim_idle_pages],
    [mp_get_idle_page_count] and the slab half of [mp_reset] of [src/cmem_lifecycle.c], on
    the state of [Slab] and [SlabCache].  The callers flush the slot caches first
    ([mp_compact] does not); that is [tls_cache_flush_slots] and [percpu_flush]. *)
From S2P Require Import Prelude Header Dll SizeClass Slab SlabCache.
From Stdlib Require Import ZArith Lia.
From stdpp Require Import base option list gmap.
Open Scope Z_scope.

Record idle_config := Idle {
  idle_reclaim_enabled : bool;
  idle_reclaim_timeout_ms : Z;
  idle_reclaim_min_pages : Z;
}.

Section Reclaim.
Context `{MM : Mmap}.

(** Free entirely, or stamped idle for longer than the timeout. *)
Definition should_free (c : idle_config) (now : Z) (p : slab_page) : bool :=
  (free_count p =? total_slots p) ||
  (idle_reclaim_enabled c && (0 <? idle_since_ts p) && (idle_reclaim_timeout_ms c <=? u64 (now - idle_since_ts p))).

(** [cmem_munmap(page_raw_mem, SLAB_PAGE_SIZE)]: with the page go its header, its links and
    the first words of its slots. *)
Definition unmap_page (m : slab_mem) (pg : Z) : slab_mem :=
  Mem (delete pg (pages m)) (Links (delete pg (nxt (plinks m))) (delete pg (prv (plinks m))))
    (filter (fun kv : Z * Z => page_of kv.1 <> pg) (snext m)) (sflags m) (slab_allocated_bytes m) (total_pool_size m) (now_ms m)
    (munmap (os m) pg SLAB_PAGE_SIZE).

(** The walk over the partial pages: unlink and unmap those to be freed; [skip] of them are
    passed over first. *)
Fixpoint sweep (fuel : nat) (c : idle_config) (min idle freed : Z) (m : slab_mem) (sc : slab_class) (curr : Z)
    : outcome (Z * Z * slab_mem * slab_class) :=
  match fuel with
  | O => Fault
  | S fuel =>
      if curr =? NULL then Done (idle, freed, m, sc)
      else
        next ← ld (nxt (plinks m)) curr;
        p ← ldp m curr;
        if should_free c (now_ms m) p then
          let idle := u64 (idle + 1) in
          if idle <? min then sweep fuel c min idle freed m sc next
          else
            r ← list_unlink m (partial_pages sc) curr;
            let '(m, head) := r in
            sweep fuel c min idle (freed + 1) (unmap_page m curr) (set_partial sc head) next
        else sweep fuel c min idle freed m sc next
  end.

Definition compact_class (c : idle_config) (m : slab_mem) (sc : slab_class) : outcome (Z * slab_mem * slab_class) :=
  r ← sweep (page_fuel m) c 0 0 0 m sc (partial_pages sc);
  let '(_, freed, m, sc) := r in Done (freed, m, sc).

(** [while (sc->empty_pages)]. *)
Fixpoint drop_empty (fuel : nat) (freed : Z) (m : slab_mem) (sc : slab_class) : outcome (Z * slab_mem * slab_class) :=
  match fuel with
  | O => Fault
  | S fuel =>
      let curr := empty_pages sc in
      if curr =? NULL then Done (freed, m, sc)
      else
        r ← list_pop m curr;
        let '(m, rest) := r in
        let n := empty_page_count sc in
        drop_empty fuel (freed + 1) (unmap_page m curr) (set_empty sc rest (if 0 <? n then n - 1 else n))
  end.

Definition reclaim_class (c : idle_config) (idle : Z) (m : slab_mem) (sc : slab_class) : outcome (Z * Z * slab_mem * slab_class) :=
  r ← drop_empty (page_fuel m) 0 m sc;
  let '(freed, m, sc) := r in
  sweep (page_fuel m) c (idle_reclaim_min_pages c) idle freed m sc (partial_pages sc).

(** [if (total >= SLAB_PAGE_SIZE) total -= SLAB_PAGE_SIZE;] for each page. *)
Fixpoint drop_pages (n : nat) (total : Z) : Z :=
  match n with O => total | S n => drop_pages n (if SLAB_PAGE_SIZE <=? total then total - SLAB_PAGE_SIZE else total) end.

Fixpoint compact_classes (c : idle_config) (n : nat) (i freed : Z) (s : slab_tier) : outcome (Z * slab_tier) :=
  match n with
  | O => Done (freed, s)
  | S n =>
      sc ← ld_class s i;
      r ← compact_class c (tm s) sc;
      let '(k, m, sc) := r in
      compact_classes c n (i + 1) (freed + k) (st_class s i m sc)
  end.

(** [stats_total] is [stats.total_pool_size], which is not the counter that creating a page
    adds to. *)
Definition mp_compact (c : idle_config) (stats_total : Z) (s : slab_tier) : outcome (Z * Z * slab_tier) :=
  if has_flag (sflags (tm s)) MP_FLAG_STATIC_BUFFER then Done (0, stats_total, s)
  else
    r ← compact_classes c (Z.to_nat SLAB_CLASS_COUNT) 0 0 s;
    let '(freed, s) := r in
    Done (u64 (freed * SLAB_PAGE_SIZE), drop_pages (Z.to_nat freed) stats_total, s).

Fixpoint reclaim_classes (c : idle_config) (n : nat) (i idle freed : Z) (s : slab_tier) : outcome (Z * slab_tier) :=
  match n with
  | O => Done (freed, s)
  | S n =>
      sc ← ld_class s i;
      r ← reclaim_class c idle (tm s) sc;
      let '(idle, k, m, sc) := r in
      reclaim_classes c n (i + 1) idle (freed + k) (st_class s i m sc)
  end.

Definition set_total (m : slab_mem) (n : Z) : slab_mem :=
  Mem (pages m) (plinks m) (snext m) (sflags m) (slab_allocated_bytes m) n (now_ms m) (os m).

(** After the flushes. *)
Definition mp_reclaim_idle_pages (c : idle_config) (s : slab_tier) : outcome (Z * slab_tier) :=
  if has_flag (sflags (tm s)) MP_FLAG_STATIC_BUFFER then Done (0, s)
  else
    r ← reclaim_classes c (Z.to_nat SLAB_CLASS_COUNT) 0 0 0 s;
    let '(freed, s) := r in
    Done (u64 (freed * SLAB_PAGE_SIZE),
          Tier (set_total (tm s) (drop_pages (Z.to_nat freed) (total_pool_size (tm s)))) (slab_classes s) (remote_free_pending s) (percpu_freelists s)).

Fixpoint idle_classes (c : idle_config) (n : nat) (i count : Z) (s : slab_tier) : outcome Z :=
  match n with
  | O => Done count
  | S n =>
      sc ← ld_class s i;
      count ← fold_walk (page_fuel (tm s)) (tm s) (fun p k => if should_free c (now_ms (tm s)) p then u64 (k + 1) else k)
                (partial_pages sc) (u64 (count + empty_page_count sc));
      idle_classes c n (i + 1) count s
  end.

Definition mp_get_idle_page_count (c : idle_config) (s : slab_tier) : outcome Z := idle_classes c (Z.to_nat SLAB_CLASS_COUNT) 0 0 s.

(** ** Reset *)

Fixpoint full_to_partial (fuel : nat) (m : slab_mem) (sc : slab_class) : outcome (slab_mem * slab_class) :=
  match fuel with
  | O => Fault
  | S fuel =>
      let node := full_pages sc in
      if node =? NULL then Done (m, sc)
      else
        next ← ld (nxt (plinks m)) node;
        let sc := set_full sc next in
        m ← list_push m (partial_pages sc) node;
        full_to_partial fuel m (set_partial sc node)
  end.

(** Every slot of the page free again. *)
Definition recarve_page (sz : Z) (m : slab_mem) (pg : Z) (p : slab_page) : slab_mem :=
  let ptr := pg + SIZEOF_SLAB_PAGE in
  set_snext (set_pages m (<[pg := Page (class_index p) (total_slots p) (page_free_count p) (total_slots p) ptr (is_hot p) 0]> (pages m)))
    (carve_slots ptr sz (total_slots p) (Z.to_nat (total_slots p)) 0 (snext m)).

Fixpoint recarve_list (fuel : nat) (sz : Z) (m : slab_mem) (page : Z) : outcome slab_mem :=
  match fuel with
  | O => Fault
  | S fuel =>
      if page =? NULL then Done m
      else
        p ← ldp m page;
        let m := recarve_page sz m page p in
        next ← ld (nxt (plinks m)) page;
        recarve_list fuel sz m next
  end.

Definition reset_class (m : slab_mem) (sc : slab_class) : outcome (slab_mem * slab_class) :=
  r ← full_to_partial (page_fuel m) m sc;
  let '(m, sc) := r in
  m ← recarve_list (page_fuel m) (total_slot_size (sflags m) (slot_size sc)) m (partial_pages sc);
  Done (m, sc).

(** The slab half of [mp_reset], after the flushes. *)
Definition mp_reset_slabs (s : slab_tier) : outcome slab_tier :=
  for_classes reset_class (Z.to_nat SLAB_CLASS_COUNT) 0
    (Tier (set_bytes (tm s) 0) (slab_classes s) (remote_free_pending s) (percpu_freelists s)).

(** ** Purging *)

(** [madvise(MADV_DONTNEED)] on the whole OS pages of a free slab page: they read as zero. *)
Definition purge_page (page_sz : Z) (m : slab_mem) (pg : Z) (p : slab_page) : Z * slab_mem :=
  let start := pg + SIZEOF_SLAB_PAGE in
  let aligned_start := Z.land (u64 (start + page_sz - 1)) (Z.lnot (page_sz - 1)) in
  let aligned_end := Z.land (u64 (pg + SLAB_PAGE_SIZE)) (Z.lnot (page_sz - 1)) in
  if (free_count p =? total_slots p) && (aligned_start <? aligned_end) then
    (aligned_end - aligned_start,
     set_snext m (map_imap (fun x v => Some (if (aligned_start <=? x) && (x <? aligned_end) then 0 else v)) (snext m)))
  else (0, m).

Fixpoint purge_list (fuel : nat) (page_sz purged : Z) (m : slab_mem) (curr : Z) : outcome (Z * slab_mem) :=
  match fuel with
  | O => Fault
  | S fuel =>
      if curr =? NULL then Done (purged, m)
      else
        p ← ldp m curr;
        let '(k, m) := purge_page page_sz m curr p in
        next ← ld (nxt (plinks m)) curr;
        purge_list fuel page_sz (u64 (purged + k)) m next
  end.

Fixpoint purge_classes (page_sz : Z) (n : nat) (i purged : Z) (s : slab_tier) : outcome (Z * slab_tier) :=
  match n with
  | O => Done (purged, s)
  | S n =>
      sc ← ld_class s i;
      r ← purge_list (page_fuel (tm s)) page_sz purged (tm s) (partial_pages sc);
      let '(purged, m) := r in
      purge_classes page_sz n (i + 1) purged (st_class s i m sc)
  end.

Definition mp_purge_lazy (page_sz : Z) (s : slab_tier) : outcome (Z * slab_tier) :=
  if has_flag (sflags (tm s)) MP_FLAG_STATIC_BUFFER then Done (0, s)
  else purge_classes page_sz (Z.to_nat SLAB_CLASS_COUNT) 0 0 s.

(** ** A page leaves the class *)

Lemma unmap_lookup (m : slab_mem) pg x : page_of x <> pg -> snext (unmap_page m pg) !! x = snext m !! x.
Proof.
  intros Hx. cbn. destruct (snext m !! x) as [v|] eqn:E.
  - by apply map_lookup_filter_Some.
  - apply map_lookup_filter_None. by left.
Qed.

Lemma page_ok_unmap (m : slab_mem) sz n pg pg' Fr :
  geometry sz n -> page_ok m sz n pg' Fr -> pg' <> pg -> pg mod SLAB_PAGE_SIZE = 0 -> page_ok (unmap_page m pg) sz n pg' Fr.
Proof.
  intros Hg [Hpos Hal (p & E & Hc & Ht & Hs) Hnd Hf Hsl Hn Hm] Hne Ha.
  assert (Hk : forall x, x ∈ page_slots sz n pg' -> snext (unmap_page m pg) !! x = snext m !! x).
  { intros x Hx. apply unmap_lookup. by rewrite (page_of_slot sz n pg'). }
  constructor; try done.
  - exists p. cbn. rewrite lookup_delete_ne by done. repeat split; try done. eapply sll_frame; [|exact Hs]. intros x Hx. by apply Hk, Hf.
  - intros x Hx. rewrite Hk by done. by apply Hsl.
  - split; cbn; rewrite lookup_delete_ne by done; apply Hn.
  - intros x Hx. cbn. apply munmap_spec. split; [by apply Hm|]. unfold SLAB_PAGE_SIZE in *.
    pose proof (Z.div_mod pg 65536 ltac:(lia)). pose proof (Z.div_mod pg' 65536 ltac:(lia)). change (64 * 1024) with 65536 in *. lia.
Qed.

(** [P'], [F'], [E'] are the pages without the wholly free page [pg], linked up by [k]. *)
Lemma slab_ok_unmap sz n (m : slab_mem) sc P F E out k sc' P' F' E' pg Fr :
  slab_ok sz n m sc P F E out -> all_pages P F E ≡ₚ (pg, Fr) :: all_pages P' F' E' -> zlen Fr = n ->
  (forall x, has_node (plinks m) x -> has_node k x) -> slot_size sc' = slot_size sc ->
  dll k (partial_pages sc') (map fst P') -> dll k (full_pages sc') (map fst F') -> dll k (empty_pages sc') (map fst E') ->
  (forall x, x ∈ P' -> x ∈ P) -> (forall x, x ∈ F' -> x ∈ F) -> (forall x, x ∈ E' -> x ∈ E) -> empty_page_count sc' = u64 (zlen E') ->
  slab_ok sz n (unmap_page (set_plinks m k) pg) sc' P' F' E' out /\
  pg mod SLAB_PAGE_SIZE = 0.
Proof.
  intros [Hg Hsz Hn HP HF HE Hnd Hpg (Hf1 & Hf2 & Hf3) Hec Hond Hout] Hp Hl Hk Hss DP DF DE SP SF SE Hc.
  assert (Hin : forall q G, (q, G) ∈ all_pages P F E <-> (q, G) = (pg, Fr) \/ (q, G) ∈ all_pages P' F' E').
  { intros q G. by rewrite Hp, elem_of_cons. }
  assert (Hpage : page_ok m sz n pg Fr) by (apply Hpg, Hin; by left).
  assert (Hnd' : NoDup (map fst (all_pages P' F' E')) /\ forall q G, (q, G) ∈ all_pages P' F' E' -> q <> pg).
  { change (map fst (all_pages P F E)) with (fst <$> all_pages P F E) in Hnd. rewrite Hp in Hnd. cbn in Hnd. apply NoDup_cons in Hnd as [H1 H2]. split; [exact H2|].
    intros q G HG ->. apply H1. by eapply (elem_fst (all_pages P' F' E')). }
  destruct Hnd' as [Hnd' Hne]. pose proof (pg_aligned _ _ _ _ _ Hpage) as Hal. split; [|done].
  assert (Hdel : forall hd (l : list (Z * list Z)), (forall x, x ∈ l -> x ∈ all_pages P' F' E') -> dll k hd (map fst l) ->
    dll (plinks (unmap_page (set_plinks m k) pg)) hd (map fst l)).
  { intros hd l Hl' Hd. eapply dll_frame; [|exact Hd]. intros x Hx. cbn. apply list_elem_of_fmap in Hx as ([q G] & -> & HG).
    pose proof (Hne _ _ (Hl' _ HG)). cbn. by rewrite !lookup_delete_ne by done. }
  constructor; try done.
  - by rewrite Hss.
  - apply Hdel; [|done]. intros x Hx. unfold all_pages. rewrite !elem_of_app. auto.
  - apply Hdel; [|done]. intros x Hx. unfold all_pages. rewrite !elem_of_app. auto.
  - apply Hdel; [|done]. intros x Hx. unfold all_pages. rewrite !elem_of_app. auto.
  - intros q G HG. apply page_ok_unmap; [done| |by eapply Hne|done]. apply page_ok_links; [done|]. apply Hpg, Hin. by right.
  - split; [|split]; intros q G HG; [apply (Hf1 q G)|apply (Hf2 q G)|apply (Hf3 q G)]; auto.
  - intros x. rewrite Hout. split.
    + intros (q & G & HG & Hx & Hx'). apply Hin in HG as [E0|HG]; [|by exists q, G]. injection E0 as -> ->.
      exfalso. apply Hx'. by eapply full_free.
    + intros (q & G & HG & Hx & Hx'). exists q, G. split; [apply Hin; by right|done].
Qed.

Lemma not_idle_free c now p : idle_reclaim_enabled c = false -> should_free c now p = (free_count p =? total_slots p).
Proof. intros H. unfold should_free. rewrite H. by rewrite orb_false_r. Qed.

(** What a step of reclamation leaves alone. *)
Record reclaimed (m m' : slab_mem) (gone : list Z) : Prop := {
  rc_mapped : forall x, mapped (os m') x <-> mapped (os m) x /\ forall pg, pg ∈ gone -> ~ (pg <= x < pg + SLAB_PAGE_SIZE);
  rc_flags : sflags m' = sflags m;
  rc_bytes : slab_allocated_bytes m' = slab_allocated_bytes m;
  rc_total : total_pool_size m' = total_pool_size m;
  rc_now : now_ms m' = now_ms m;
}.

Lemma reclaimed_refl m : reclaimed m m [].
Proof. split; try done. intros x. split; [intros H; split; [done|]|tauto]. intros pg Hp. by apply not_elem_of_nil in Hp. Qed.

Lemma reclaimed_trans m1 m2 m3 g1 g2 : reclaimed m1 m2 g1 -> reclaimed m2 m3 g2 -> reclaimed m1 m3 (g1 ++ g2).
Proof.
  intros [A1 A2 A3 A4 A5] [B1 B2 B3 B4 B5]. split; try congruence. intros x. rewrite B1, A1. setoid_rewrite elem_of_app.
  split; [intros [[? H1] H2]; split; [done|]; intros pg [?|?]; auto|intros [? H]; split; [split; [done|]|]; intros pg Hp; apply H; auto].
Qed.

Lemma reclaimed_unmap (m : slab_mem) k pg : reclaimed m (unmap_page (set_plinks m k) pg) [pg].
Proof.
  split; try done. intros x. cbn. rewrite munmap_spec. setoid_rewrite list_elem_of_singleton. split.
  - intros [? H]. split; [done|]. by intros q ->.
  - intros [? H]. split; [done|]. by apply H.
Qed.

(** ** The sweep *)

Definition first_page (P : list (Z * list Z)) : Z := match P with [] => NULL | (pg, _) :: _ => pg end.

Lemma dll_next k hd (l1 : list Z) x l2 :
  dll k hd (l1 ++ x :: l2) -> ld (nxt k) x = Done (match l2 with [] => NULL | y :: _ => y end).
Proof.
  intros [Hs _]. apply seg_app in Hs as (m & _ & -> & _ & _ & nx & Hn & Hs). rewrite (ld_Some _ _ _ Hn). f_equal.
  by apply seg_head in Hs.
Qed.

Lemma head_map (P : list (Z * list Z)) : match map fst P with [] => NULL | y :: _ => y end = first_page P.
Proof. by destruct P as [|[] P]. Qed.

Lemma sweep_spec c min sz n F E out :
  idle_reclaim_enabled c = false ->
  forall P2 fuel idle freed m sc P1,
  slab_ok sz n m sc (P1 ++ P2) F E out -> (length P2 < fuel)%nat ->
  exists idle' m' p P' gone, sweep fuel c min idle freed m sc (first_page P2) = Done (idle', freed + zlen gone, m', set_partial sc p) /\
    slab_ok sz n m' (set_partial sc p) (P1 ++ P') F E out /\ reclaimed m m' gone /\ P' `sublist_of` P2 /\
    (forall pg Fr, (pg, Fr) ∈ P2 -> (pg, Fr) ∈ P' \/ pg ∈ gone) /\
    (forall pg, pg ∈ gone -> exists Fr, (pg, Fr) ∈ P2 /\ zlen Fr = n) /\
    (min = 0 -> forall pg Fr, (pg, Fr) ∈ P' -> zlen Fr <> n) /\ zlen gone + zlen P' = zlen P2.
Proof.
  intros Hoff. induction P2 as [|[pg Fr] P2 IH]; intros fuel idle freed m sc P1 Hok Hf; (destruct fuel as [|fuel]; [cbn in Hf; lia|]); cbn [sweep first_page].
  { exists idle, m, (partial_pages sc), [], []. rewrite Z.add_0_r. split; [by destruct sc|]. split; [by destruct sc|].
    split; [apply reclaimed_refl|]. split; [done|]. split; [tauto|]. split; [intros ? ?%not_elem_of_nil; done|]. split; [|done]. intros _ ? ? ?%not_elem_of_nil. done. }
  assert (Hin : (pg, Fr) ∈ all_pages (P1 ++ (pg, Fr) :: P2) F E).
  { unfold all_pages. rewrite !elem_of_app, elem_of_cons. tauto. }
  pose proof (so_pages _ _ _ _ _ _ _ _ Hok _ _ Hin) as [Hpos Hal (p & Hp & Hc & Ht & Hs) Hnd Hfr Hsl Hnode Hmap].
  rewrite (proj2 (Z.eqb_neq pg NULL)) by (unfold NULL; lia).
  pose proof (so_partial _ _ _ _ _ _ _ _ Hok) as HP. rewrite map_app in HP. cbn [map fst] in HP.
  rewrite (dll_next _ _ _ _ _ HP), head_map. cbn [mbind outcome_bind]. unfold ldp. rewrite Hp. cbn [mbind outcome_bind].
  rewrite not_idle_free, Hc, Ht by done.
  assert (Hkeep : forall idle0, (zlen Fr = n -> min <> 0) ->
    exists idle' m' p P' gone, sweep fuel c min idle0 freed m sc (first_page P2) = Done (idle', freed + zlen gone, m', set_partial sc p) /\
    slab_ok sz n m' (set_partial sc p) (P1 ++ P') F E out /\ reclaimed m m' gone /\ P' `sublist_of` (pg, Fr) :: P2 /\
    (forall pg0 Fr0, (pg0, Fr0) ∈ (pg, Fr) :: P2 -> (pg0, Fr0) ∈ P' \/ pg0 ∈ gone) /\
    (forall pg0, pg0 ∈ gone -> exists Fr0, (pg0, Fr0) ∈ (pg, Fr) :: P2 /\ zlen Fr0 = n) /\
    (min = 0 -> forall pg0 Fr0, (pg0, Fr0) ∈ P' -> zlen Fr0 <> n) /\ zlen gone + zlen P' = zlen ((pg, Fr) :: P2)).
  { intros idle0 Hmin. destruct (IH fuel idle0 freed m sc (P1 ++ [(pg, Fr)])) as (i' & m' & p' & P' & gone & E1 & Hok' & Hr & Hsub & H1 & H2 & H3 & H4);
      [by rewrite <- app_assoc|cbn in Hf; lia|].
    exists i', m', p', ((pg, Fr) :: P'), gone. split; [done|]. split; [by rewrite <- app_assoc in Hok'|]. split; [done|]. split; [by apply sublist_skip|].
    split; [|split; [|split; [|rewrite !zlen_cons; lia]]].
    - intros q G [E0|HG]%elem_of_cons; [left; rewrite E0; apply list_elem_of_here|]. destruct (H1 q G HG); [left; by right|by right].
    - intros q Hq. destruct (H2 q Hq) as (G & HG & ?). exists G. split; [by right|done].
    - intros Hm q G [E0|HG]%elem_of_cons; [|by apply (H3 Hm q G)]. injection E0 as -> ->. intros El. by apply (Hmin El). }
  destruct (Z.eqb_spec (zlen Fr) n) as [Hl|Hl]; [|by apply Hkeep].
  destruct (Z.ltb_spec (u64 (idle + 1)) min) as [Hlt|Hge].
  { apply Hkeep. intros _ Hm. pose proof (u64_bound (idle + 1)). lia. }
  destruct (list_unlink_spec _ _ _ _ _ HP) as (k & hd & -> & Hk & Fk). cbn [mbind outcome_bind].
  assert (Hfull : forall l hd0, (forall x, x ∈ l -> x ∉ map fst (P1 ++ (pg, Fr) :: P2)) -> dll (plinks m) hd0 l -> dll k hd0 l).
  { intros l hd0 Hl0 Hd. eapply dll_disjoint'; [exact Fk| |exact Hd]. intros x Hx. specialize (Hl0 x Hx). rewrite map_app in Hl0. cbn in Hl0.
    rewrite elem_of_app, elem_of_cons in Hl0. rewrite elem_of_app. tauto. }
  pose proof (so_nodup _ _ _ _ _ _ _ _ Hok) as Hnd0. apply all_nodup in Hnd0 as (_ & _ & _ & D1 & D2).
  destruct (slab_ok_unmap sz n m sc (P1 ++ (pg, Fr) :: P2) F E out k (set_partial sc hd) (P1 ++ P2) F E pg Fr Hok) as [Hok' _].
  - unfold all_pages. rewrite <- !app_assoc. cbn. symmetry. apply Permutation_middle.
  - done.
  - apply Fk.
  - done.
  - rewrite map_app. exact Hk.
  - apply Hfull; [|apply Hok]. intros x Hx Hx'. exact (proj1 (D1 x Hx') Hx).
  - apply Hfull; [|apply Hok]. intros x Hx Hx'. exact (proj2 (D1 x Hx') Hx).
  - intros x. rewrite !elem_of_app, elem_of_cons. tauto.
  - done.
  - done.
  - apply (so_ecount _ _ _ _ _ _ _ _ Hok).
  - destruct (IH fuel (u64 (idle + 1)) (freed + 1) _ _ P1 Hok') as (i' & m' & p' & P' & gone & E1 & Hok2 & Hr & Hsub & H1 & H2 & H3 & H4); [cbn in Hf; lia|].
    exists i', m', p', P', ([pg] ++ gone). split; [|split; [done|split; [|split; [|split; [|split; [|split; [done|]]]]]]].
    + rewrite E1, zlen_app. f_equal. f_equal. f_equal. unfold zlen. cbn. f_equal. lia.
    + eapply reclaimed_trans; [apply reclaimed_unmap|exact Hr].
    + by apply sublist_cons.
    + intros q G [E0|HG]%elem_of_cons; [injection E0 as -> _; right; by left|]. destruct (H1 q G HG); [by left|right; by right].
    + intros q [Hq|Hq]%elem_of_app; [apply list_elem_of_singleton in Hq as ->; exists Fr; split; [by left|done]|].
      destruct (H2 q Hq) as (G & HG & ?). exists G. split; [by right|done].
    + cbn [app]. rewrite !zlen_cons. lia.
Qed.

Lemma drop_empty_spec sz n P F out : forall E fuel freed m sc,
  slab_ok sz n m sc P F E out -> (length E < fuel)%nat -> zlen E < 2 ^ 64 ->
  exists m' c, drop_empty fuel freed m sc = Done (freed + zlen E, m', set_empty sc NULL c) /\
    slab_ok sz n m' (set_empty sc NULL c) P F [] out /\ reclaimed m m' (map fst E).
Proof.
  induction E as [|[pg Fr] E IH]; intros fuel freed m sc Hok Hf Hz; (destruct fuel as [|fuel]; [cbn in Hf; lia|]); cbn [drop_empty].
  { pose proof (dll_head _ _ _ (so_empty _ _ _ _ _ _ _ _ Hok)) as He. cbn in He. rewrite He. change (NULL =? NULL) with true.
    exists m, (empty_page_count sc). change (zlen []) with 0. rewrite Z.add_0_r.
    assert (Es : set_empty sc NULL (empty_page_count sc) = sc) by (destruct sc; cbn in *; by rewrite He). rewrite Es.
    split; [done|]. split; [done|]. apply reclaimed_refl. }
  assert (Hin : (pg, Fr) ∈ all_pages P F ((pg, Fr) :: E)) by (unfold all_pages; rewrite !elem_of_app, elem_of_cons; tauto).
  pose proof (so_pages _ _ _ _ _ _ _ _ Hok _ _ Hin) as Hpage. pose proof (pg_pos _ _ _ _ _ Hpage) as Hpos.
  pose proof (so_empty _ _ _ _ _ _ _ _ Hok) as HE. cbn [map fst] in HE. pose proof (dll_head _ _ _ HE) as He. cbn in He.
  rewrite He, (proj2 (Z.eqb_neq pg NULL)) by (unfold NULL; lia).
  destruct (list_pop_spec m pg (map fst E)) as (k & hd & -> & Hk & Fk); [by rewrite <- He at 1|]. cbn [mbind outcome_bind].
  pose proof (so_nodup _ _ _ _ _ _ _ _ Hok) as Hnd0. apply all_nodup in Hnd0 as (_ & _ & _ & D1 & D2).
  assert (Hz' : u64 (zlen ((pg, Fr) :: E)) = 1 + zlen E) by (rewrite zlen_cons in Hz |- *; pose proof (zlen_nonneg E); apply u64_small; lia).
  rewrite (so_ecount _ _ _ _ _ _ _ _ Hok), Hz'. pose proof (zlen_nonneg E) as Hz0. rewrite (proj2 (Z.ltb_lt 0 (1 + zlen E))) by lia.
  destruct (slab_ok_unmap sz n m sc P F ((pg, Fr) :: E) out k (set_empty sc hd (1 + zlen E - 1)) P F E pg Fr Hok) as [Hok' _]; try done.
  - unfold all_pages. rewrite !app_assoc. symmetry. apply Permutation_middle.
  - by apply (so_free _ _ _ _ _ _ _ _ Hok) with (pg := pg); left.
  - apply Fk.
  - eapply dll_disjoint'; [exact Fk| |apply Hok]. intros x Hx Hx'. apply (proj2 (D1 x Hx)). cbn. by right.
  - eapply dll_disjoint'; [exact Fk| |apply Hok]. intros x Hx Hx'. apply (D2 x Hx). cbn. by right.
  - intros x Hx. by right.
  - cbn. rewrite zlen_cons in Hz. rewrite u64_small by lia. lia.
  - destruct (IH fuel (freed + 1) _ _ Hok') as (m' & c & E1 & Hok2 & Hr); [cbn in Hf; lia|rewrite zlen_cons in Hz; lia|].
    exists m', c. split; [rewrite E1; f_equal; f_equal; f_equal; rewrite zlen_cons; lia|]. split; [done|].
    change (map fst ((pg, Fr) :: E)) with ([pg] ++ map fst E). eapply reclaimed_trans; [apply reclaimed_unmap|exact Hr].
Qed.

Lemma partial_first sz n m sc P F E out : slab_ok sz n m sc P F E out -> partial_pages sc = first_page P /\ (length P < page_fuel m)%nat.
Proof.
  intros Hok. pose proof (so_partial _ _ _ _ _ _ _ _ Hok) as HP. split; [rewrite (dll_head _ _ _ HP); apply head_map|].
  pose proof (dll_fuel _ _ _ HP) as Hf. by rewrite length_map in Hf.
Qed.

Lemma live_mapped sz n m sc P F E out x a :
  slab_ok sz n m sc P F E out -> x ∈ out -> x <= a < x + sz -> mapped (os m) a.
Proof.
  intros Hok Hx Ha. apply (so_out _ _ _ _ _ _ _ _ Hok) in Hx as (pg & Fr & Hin & Hx & _).
  pose proof (page_slots_range _ _ _ _ (so_geometry _ _ _ _ _ _ _ _ Hok) Hx). apply (pg_mapped _ _ _ _ _ (so_pages _ _ _ _ _ _ _ _ Hok _ _ Hin)).
  unfold SIZEOF_SLAB_PAGE in *. lia.
Qed.

(** Without the idle timeout, giving pages back is safe.  Compacting a class unmaps
    exactly its wholly free partial pages; reclaiming it also unmaps every kept empty page;
    both keep the class in order with the same slots handed out, and every byte of those
    slots stays mapped. *)
Theorem reclaim_keeps_live c idle sz n m sc P F E out :
  idle_reclaim_enabled c = false -> slab_ok sz n m sc P F E out -> zlen E < 2 ^ 64 ->
  (exists m' sc' P' gone, compact_class c m sc = Done (zlen gone, m', sc') /\ slab_ok sz n m' sc' P' F E out /\ reclaimed m m' gone /\
     P' `sublist_of` P /\ (forall pg Fr, (pg, Fr) ∈ P -> (pg, Fr) ∈ P' \/ pg ∈ gone) /\
     (forall pg, pg ∈ gone -> exists Fr, (pg, Fr) ∈ P /\ zlen Fr = n) /\ (forall pg Fr, (pg, Fr) ∈ P' -> zlen Fr <> n) /\
     (forall x a, x ∈ out -> x <= a < x + sz -> mapped (os m') a)) /\
  (exists idle' m' sc' P' gone, reclaim_class c idle m sc = Done (idle', zlen E + zlen gone, m', sc') /\ slab_ok sz n m' sc' P' F [] out /\
     reclaimed m m' (map fst E ++ gone) /\ P' `sublist_of` P /\ (forall pg, pg ∈ gone -> exists Fr, (pg, Fr) ∈ P /\ zlen Fr = n) /\
     (forall x a, x ∈ out -> x <= a < x + sz -> mapped (os m') a)).
Proof.
  intros Hoff Hok Hz. split.
  - unfold compact_class. destruct (partial_first _ _ _ _ _ _ _ _ Hok) as [-> Hf].
    destruct (sweep_spec c 0 sz n F E out Hoff P (page_fuel m) 0 0 m sc [] Hok Hf) as (i' & m' & p & P' & gone & -> & Hok' & Hr & Hs & H1 & H2 & H3 & _).
    exists m', (set_partial sc p), P', gone. split; [done|]. split; [exact Hok'|]. split; [done|]. split; [done|]. split; [done|]. split; [done|].
    split; [by apply H3|]. intros x a Hx. by eapply live_mapped.
  - unfold reclaim_class. assert (Hfe : (length E < page_fuel m)%nat).
    { pose proof (dll_fuel _ _ _ (so_empty _ _ _ _ _ _ _ _ Hok)) as Hf. by rewrite length_map in Hf. }
    destruct (drop_empty_spec sz n P F out E (page_fuel m) 0 m sc Hok Hfe Hz) as (m1 & k & -> & Hok1 & Hr1). cbn [mbind outcome_bind].
    destruct (partial_first _ _ _ _ _ _ _ _ Hok1) as [-> Hf].
    destruct (sweep_spec c (idle_reclaim_min_pages c) sz n F [] out Hoff P (page_fuel m1) idle (0 + zlen E) m1 _ [] Hok1 Hf)
      as (i' & m' & p & P' & gone & -> & Hok' & Hr & Hs & H1 & H2 & H3).
    eexists i', m', _, P', gone. split; [done|]. split; [exact Hok'|]. split; [by eapply reclaimed_trans|]. split; [done|]. split; [done|].
    intros x a Hx. by eapply live_mapped.
Qed.

(** ** Reset *)

Lemma full_to_partial_spec : forall F fuel (m : slab_mem) sc P pv,
  seg (plinks m) pv (full_pages sc) F NULL -> NoDup F -> dll (plinks m) (partial_pages sc) P -> (forall x, x ∈ F -> x ∉ P) -> (length F < fuel)%nat ->
  exists k hd, full_to_partial fuel m sc = Done (set_plinks m k, set_partial (set_full sc NULL) hd) /\ dll k hd (rev F ++ P) /\ frame (F ++ P) (plinks m) k.
Proof.
  induction F as [|x F IH]; intros fuel m sc P pv Hs Hd HP Hx Hf; (destruct fuel as [|fuel]; [cbn in Hf; lia|]); cbn [full_to_partial].
  { cbn in Hs. rewrite Hs. change (NULL =? NULL) with true. exists (plinks m), (partial_pages sc).
    split; [destruct m, sc; cbn in *; by rewrite Hs|]. split; [done|]. apply frame_refl. }
  destruct (seg_node _ _ _ _ _ x Hs (list_elem_of_here _ _)) as [Hnode Hx0]. destruct Hs as (-> & _ & _ & nx & Hn & Hs).
  rewrite (proj2 (Z.eqb_neq x NULL)) by done. rewrite (ld_Some _ _ _ Hn). cbn [mbind outcome_bind]. apply NoDup_cons in Hd as [Hxf Hd].
  cbn [partial_pages set_full].
  destruct (list_push_spec m (partial_pages sc) P x HP (Hx x (list_elem_of_here _ _)) Hx0 Hnode) as (k & -> & Hk & Fk). cbn [mbind outcome_bind].
  destruct (IH fuel (set_plinks m k) (set_partial (set_full sc nx) x) (x :: P) x) as (k2 & hd & E & Hk2 & Fk2).
  - cbn. eapply seg_frame; [|exact Hs]. intros y Hy. apply Fk. rewrite not_elem_of_cons. split; [by intros ->|]. apply Hx. by right.
  - done.
  - exact Hk.
  - intros y Hy. rewrite not_elem_of_cons. split; [by intros ->|]. apply Hx. by right.
  - cbn in Hf. lia.
  - exists k2, hd. split; [exact E|]. split; [cbn; by rewrite <- app_assoc|].
    eapply frame_trans; [eapply frame_mono; [|exact Fk]|eapply frame_mono; [|exact Fk2]]; intros y; rewrite !elem_of_app, !elem_of_cons; tauto.
Qed.

Lemma recarve_page_spec sz n (m : slab_mem) pg Fr p :
  geometry sz n -> page_ok m sz n pg Fr -> pages m !! pg = Some p ->
  page_ok (recarve_page sz m pg p) sz n pg (page_slots sz n pg) /\ outside [pg] m (recarve_page sz m pg p).
Proof.
  intros Hg [Hpos Hal (p' & Hp & Hc & Ht & Hs) Hnd Hfr Hsl Hnode Hmap] Hp'. assert (p' = p) as -> by congruence.
  assert (Hsp : forall x, x ∈ page_slots sz n pg -> page_of x = pg) by (intros x; by apply page_of_slot).
  pose proof Hg as (Hg1 & Hg2 & Hg3 & Hg4). unfold SIZEOF_HEADER, SIZEOF_SLAB_PAGE in *. split.
  - assert (En : exists k, Z.to_nat n = S k /\ n = Z.of_nat (S k)) by (exists (Z.to_nat (n - 1)); lia). destruct En as (k & Ek & Ek').
    constructor; try done.
    + eexists. cbn. rewrite lookup_insert_eq. split; [done|]. cbn [free_count total_slots page_free_list]. split; [by rewrite length_page_slots, Ht|]. split; [done|].
      rewrite Ht. unfold page_slots, SIZEOF_SLAB_PAGE. rewrite Ek.
      pose proof (carve_sll (pg + 72) sz n k 0 (snext m) ltac:(lia) ltac:(lia) ltac:(lia) ltac:(lia)) as Hcs.
      rewrite Z.mul_0_l, Z.add_0_r in Hcs. exact Hcs.
    + by apply page_slots_nodup.
    + intros x Hx. cbn. rewrite Ht. apply carve_some. by right.
  - constructor; try done.
    + intros q Hq. rewrite list_elem_of_singleton in Hq. cbn. by rewrite lookup_insert_ne.
    + intros x Hx. rewrite list_elem_of_singleton in Hx. cbn. rewrite Ht. apply carve_other. intros j Hj ->. apply Hx, Hsp, elem_of_slot_addrs.
      exists j. unfold SIZEOF_SLAB_PAGE. split; [lia|done].
    + intros x Hx. cbn. apply carve_some. by left.
Qed.

Lemma recarve_list_spec sz n : geometry sz n -> forall L fuel (m : slab_mem) pv curr,
  seg (plinks m) pv curr (map fst L) NULL -> NoDup (map fst L) -> (forall pg Fr, (pg, Fr) ∈ L -> page_ok m sz n pg Fr) -> (length L < fuel)%nat ->
  exists m', recarve_list fuel sz m curr = Done m' /\ outside (map fst L) m m' /\ plinks m' = plinks m /\ os m' = os m /\
    slab_allocated_bytes m' = slab_allocated_bytes m /\ forall pg, pg ∈ map fst L -> page_ok m' sz n pg (page_slots sz n pg).
Proof.
  intros Hg. induction L as [|[pg Fr] L IH]; intros fuel m pv curr Hs Hd Hp Hf; (destruct fuel as [|fuel]; [cbn in Hf; lia|]); cbn [recarve_list].
  { cbn in Hs. rewrite Hs. exists m. split; [done|]. split; [apply outside_refl|]. split; [done|]. split; [done|]. split; [done|].
    intros pg Hx. by apply not_elem_of_nil in Hx. }
  cbn [map fst] in Hs, Hd. destruct Hs as (-> & H0 & _ & nx & Hn & Hs). apply NoDup_cons in Hd as [Hnew Hd].
  rewrite (proj2 (Z.eqb_neq pg NULL)) by done. pose proof (Hp pg Fr (list_elem_of_here _ _)) as Hpage.
  destruct (pg_header _ _ _ _ _ Hpage) as (p & Epg & _). unfold ldp. rewrite Epg. cbn [mbind outcome_bind].
  destruct (recarve_page_spec sz n m pg Fr p Hg Hpage Epg) as [Hok Ho]. set (m1 := recarve_page sz m pg p) in *.
  change (plinks m1) with (plinks m). rewrite (ld_Some _ _ _ Hn). cbn [mbind outcome_bind].
  destruct (IH fuel m1 pg nx) as (m' & -> & Ho' & Hk & Hos & Hb & Hall); [exact Hs|done| |cbn in Hf; lia|].
  { intros q G HG. eapply page_ok_outside; [done|exact Ho| |apply Hp; by right]. rewrite list_elem_of_singleton. intros ->. apply Hnew. by eapply elem_fst. }
  exists m'. split; [done|]. split; [|split; [done|split; [done|split; [done|]]]].
  - eapply outside_trans; [eapply outside_mono; [|exact Ho]|eapply outside_mono; [|exact Ho']]; intros x; rewrite ?list_elem_of_singleton; cbn [map fst]; rewrite elem_of_cons; tauto.
  - intros q [->|Hq]%elem_of_cons; [|by apply Hall]. by eapply page_ok_outside.
Qed.

Lemma reset_run sz n m sc P F E out :
  slab_ok sz n m sc P F E out ->
  exists m' hd, reset_class m sc = Done (m', set_partial (set_full sc NULL) hd) /\
    slab_ok sz n m' (set_partial (set_full sc NULL) hd) (map (fun q => (q.1, page_slots sz n q.1)) (rev F ++ P)) [] E [] /\ os m' = os m.
Proof.
  intros Hok. pose proof Hok as [Hg Hsz Hn HP HF HE Hnd Hpg (Hf1 & Hf2 & Hf3) Hec Hond Hout]. unfold reset_class.
  pose proof Hnd as Hnd'. apply all_nodup in Hnd' as (N1 & N2 & N3 & D1 & D2).
  destruct (full_to_partial_spec (map fst F) (page_fuel m) m sc (map fst P) NULL) as (k & hd & -> & Hk & Fk);
    [apply HF|done|done|intros x Hx Hx'; exact (proj1 (D1 x Hx') Hx)|by eapply dll_fuel|]. cbn [mbind outcome_bind].
  cbn [slot_size set_partial set_full sflags set_plinks partial_pages]. rewrite <- Hsz.
  assert (EL : rev (map fst F) ++ map fst P = map fst (rev F ++ P)) by (by rewrite map_app, map_rev). rewrite EL in Hk.
  assert (HL : forall x, x ∈ rev F ++ P <-> x ∈ F \/ x ∈ P) by (intros x; rewrite elem_of_app, !list_elem_of_In, <- in_rev; done).
  set (m1 := set_plinks m k). set (L := rev F ++ P) in *.
  assert (HLp : forall q G, (q, G) ∈ L -> page_ok m1 sz n q G).
  { intros q G HG. apply page_ok_links; [apply Fk|]. apply Hpg. unfold all_pages. rewrite !elem_of_app. apply HL in HG. tauto. }
  assert (HEp : forall q G, (q, G) ∈ E -> page_ok m1 sz n q G /\ q ∉ map fst L).
  { intros q G HG. split; [apply page_ok_links; [apply Fk|]; apply Hpg; unfold all_pages; rewrite !elem_of_app; tauto|].
    intros Hq. apply elem_fst in HG. apply list_elem_of_fmap in Hq as ([q' G'] & -> & HG'). cbn in HG. apply HL in HG' as [H|H]; apply elem_fst in H; [exact (D2 _ H HG)|exact (proj2 (D1 _ H) HG)]. }
  destruct (recarve_list_spec sz n Hg L (page_fuel m1) m1 NULL hd) as (m' & -> & Ho & Hkl & Hos & Hb & Hall);
    [apply Hk|apply Hk|done| |].
  { pose proof (dll_fuel m1 hd _ Hk) as Hf. by rewrite length_map in Hf. }
  cbn [mbind outcome_bind]. exists m', hd. split; [done|]. split; [|by rewrite Hos].
  assert (Efst : map fst (map (fun q : Z * list Z => (q.1, page_slots sz n q.1)) L) = map fst L) by (rewrite map_map; apply map_ext; by intros []).
  assert (Hnew : forall q G, (q, G) ∈ map (fun q : Z * list Z => (q.1, page_slots sz n q.1)) L -> G = page_slots sz n q /\ q ∈ map fst L).
  { intros q G HG. apply list_elem_of_fmap in HG as ([q' G'] & E0 & HG'). injection E0 as -> ->. split; [done|]. by eapply (elem_fst L). }
  pose proof Hg as (_ & _ & Hn1 & _).
  assert (Hne : forall q, page_slots sz n q <> []).
  { intros q Eq. pose proof (length_page_slots sz n q Hg) as Hl. rewrite Eq in Hl. change (zlen []) with 0 in Hl. lia. }
  constructor; try done.
  - rewrite (os_flags _ _ _ Ho). exact Hsz.
  - rewrite Efst, Hkl. exact Hk.
  - rewrite Hkl. apply dll_nil.
  - rewrite Hkl. eapply dll_disjoint'; [exact Fk| |exact HE]. intros x Hx. rewrite elem_of_app. intros [H|H]; [exact (D2 _ H Hx)|exact (proj2 (D1 _ H) Hx)].
  - apply all_nodup. rewrite Efst. split; [apply Hk|]. split; [constructor|]. split; [done|]. split; [|intros x Hx; by apply not_elem_of_nil in Hx].
    intros x Hx. split; [apply not_elem_of_nil|]. intros HxE. apply list_elem_of_fmap in HxE as ([q G] & -> & HG). by destruct (HEp q G HG).
  - intros q G. unfold all_pages. rewrite !elem_of_app. intros [HG|[HG|HG]]; [|by apply not_elem_of_nil in HG|].
    + destruct (Hnew _ _ HG) as [-> Hq]. by apply Hall.
    + destruct (HEp q G HG) as [Hq1 Hq2]. by eapply page_ok_outside.
  - split; [|split; [intros q G HG; by apply not_elem_of_nil in HG|exact Hf3]]. intros q G HG. destruct (Hnew _ _ HG) as [-> _]. apply Hne.
  - constructor.
  - intros x. split; [intros Hx; by apply not_elem_of_nil in Hx|]. intros (q & G & HG & Hx & Hx'). exfalso. apply Hx'.
    unfold all_pages in HG. rewrite !elem_of_app in HG. destruct HG as [HG|[HG|HG]]; [|by apply not_elem_of_nil in HG|].
    + destruct (Hnew _ _ HG) as [-> _]. done.
    + destruct (HEp q G HG) as [Hq1 _]. eapply full_free; [exact Hg|exact Hq1|by eapply Hf3|done].
Qed.

(** Resetting a class gives every slot back: the full pages join the partial list, every
    page on it is carved afresh with all its slots free, and nothing is handed out - but
    the remote-free queue is left as it was, with whatever slots were pushed on it. *)
Theorem reset_spec sz n m sc P F E out :
  slab_ok sz n m sc P F E out ->
  exists m' sc' P', reset_class m sc = Done (m', sc') /\ slab_ok sz n m' sc' P' [] E [] /\
    map fst P' = rev (map fst F) ++ map fst P /\ (forall pg Fr, (pg, Fr) ∈ P' -> Fr = page_slots sz n pg) /\
    os m' = os m /\ remote_free_queue sc' = remote_free_queue sc.
Proof.
  intros Hok. destruct (reset_run _ _ _ _ _ _ _ _ Hok) as (m' & hd & E1 & Hok' & Hos). eexists m', _, _.
  split; [exact E1|]. split; [exact Hok'|]. split; [|split; [|split; done]].
  - rewrite map_map. cbn. by rewrite map_app, map_rev.
  - intros pg Fr H. apply list_elem_of_fmap in H as ([q G] & E0 & _). by injection E0 as -> ->.
Qed.

(** ** Where giving back goes wrong *)

Lemma slot_taken sz n m sc P F E out pg Fr :
  slab_ok sz n m sc P F E out -> (pg, Fr) ∈ all_pages P F E -> zlen Fr < n ->
  exists x, x ∈ out /\ page_of x = pg /\ pg <= x < pg + SLAB_PAGE_SIZE.
Proof.
  intros Hok Hin Hl. pose proof (so_pages _ _ _ _ _ _ _ _ Hok _ _ Hin) as Hpage. pose proof (so_geometry _ _ _ _ _ _ _ _ Hok) as Hg.
  destruct (decide (Forall (fun x => x ∈ Fr) (page_slots sz n pg))) as [Ha|Ha].
  { exfalso. pose proof (NoDup_submseteq _ Fr (page_slots_nodup sz n pg Hg) (proj1 (Forall_forall _ _) Ha)) as Hs.
    apply submseteq_length in Hs. pose proof (length_page_slots sz n pg Hg). unfold zlen in *. lia. }
  apply not_Forall_Exists in Ha; [|intros ?; apply _]. apply Exists_exists in Ha as (x & Hx & Hx').
  exists x. split; [apply (so_out _ _ _ _ _ _ _ _ Hok); by exists pg, Fr|].
  split; [apply (page_of_slot sz n pg); [done|apply Hpage|done]|]. pose proof (page_slots_range _ _ _ _ Hg Hx).
  destruct Hg as (? & _). unfold SIZEOF_SLAB_PAGE, SIZEOF_HEADER in *. lia.
Qed.

Lemma sweep_null fuel c min idle freed m sc : sweep (S fuel) c min idle freed m sc NULL = Done (idle, freed, m, sc).
Proof. done. Qed.

(** With the idle timeout on, compaction can unmap live slots.  [idle_since_ts] is set
    when a page becomes empty and survives its return to service, so a page in use that
    was empty once, longer ago than the timeout, is unmapped with its slots handed out. *)
Theorem compact_unmaps_live c sz n m sc F E out pg Fr p :
  slab_ok sz n m sc [(pg, Fr)] F E out -> pages m !! pg = Some p -> zlen Fr < n ->
  idle_reclaim_enabled c = true -> 0 < idle_since_ts p -> idle_reclaim_timeout_ms c <= u64 (now_ms m - idle_since_ts p) ->
  exists m' sc', compact_class c m sc = Done (1, m', sc') /\ partial_pages sc' = NULL /\
    exists x, x ∈ out /\ page_of x = pg /\ ~ mapped (os m') x /\ slab_free m' sc' x = Fault.
Proof.
  intros Hok Hp Hl Hon Hts Hto. pose proof (so_partial _ _ _ _ _ _ _ _ Hok) as HP. cbn [map fst] in HP.
  assert (Hin : (pg, Fr) ∈ all_pages [(pg, Fr)] F E) by (unfold all_pages; cbn; by left).
  pose proof (so_pages _ _ _ _ _ _ _ _ Hok _ _ Hin) as Hpage. pose proof (pg_pos _ _ _ _ _ Hpage) as Hpos.
  destruct (slot_taken _ _ _ _ _ _ _ _ _ _ Hok Hin Hl) as (x & Hx & Hpo & Hr).
  destruct (list_unlink_spec m (partial_pages sc) [] pg [] HP) as (k & hd & E1 & Hk & _).
  pose proof (dll_head _ _ _ Hk) as Hh. cbn in Hh. subst hd.
  unfold compact_class. destruct (partial_first _ _ _ _ _ _ _ _ Hok) as [Epp Hf]. cbn [first_page] in Epp. rewrite Epp in E1 |- *.
  destruct (page_fuel m) as [|fuel]; [cbn in Hf; lia|]. destruct fuel as [|fuel]; [cbn in Hf; lia|].
  remember (S fuel) as f1 eqn:Ef. cbn [sweep].
  rewrite (proj2 (Z.eqb_neq pg NULL)) by (unfold NULL; lia). rewrite (dll_next _ _ [] _ [] HP). cbn [mbind outcome_bind].
  unfold ldp at 1. rewrite Hp. cbn [mbind outcome_bind]. unfold should_free. rewrite Hon, (proj2 (Z.ltb_lt _ _) Hts), (proj2 (Z.leb_le _ _) Hto), orb_true_r.
  rewrite (proj2 (Z.ltb_ge _ 0)) by apply u64_bound. rewrite Epp, E1. cbn [mbind outcome_bind]. subst f1. rewrite sweep_null. cbn [mbind outcome_bind].
  eexists _, _. split; [done|]. split; [done|]. exists x. split; [done|]. split; [done|]. split.
  - cbn. rewrite munmap_spec. intros [_ H]. by apply H.
  - unfold slab_free, slab_free_nolock, ldp. rewrite Hpo. cbn. by rewrite lookup_delete_eq.
Qed.

End Reclaim.

(** ** Witnesses *)

Section Demo.
Context `{MM : Mmap}.

Definition set_now (m : slab_mem) (t : Z) : slab_mem :=
  Mem (pages m) (plinks m) (snext m) (sflags m) (slab_allocated_bytes m) (total_pool_size m) t (os m).

Lemma class_ok_now sz n m sc P F E Q out t : class_ok sz n m sc P F E Q out -> class_ok sz n (set_now m t) sc P F E Q out.
Proof.
  intros [[Hg Hsz Hn HP HF HE Hnd Hpg Hf Hec Hond Hout] Hq Hp Hs Hb]. constructor; try done. constructor; try done.
  intros pg Fr Hin. by destruct (Hpg pg Fr Hin) as [? ? ? ? ? ? ? ?].
Qed.

(** Take a slot, give it back, and take it again. *)
Definition take_again (m : slab_mem) (sc : slab_class) : outcome (Z * slab_mem * slab_class) :=
  r ← slab_alloc_slot m sc;
  let '(slot, m, sc) := r in
  if slot =? NULL then Done (slot, m, sc)
  else
    r ← slab_free m sc slot;
    let '(m, sc) := r in
    slab_alloc_slot m sc.

Lemma take_again_ok sz n m sc P F E x m' sc' :
  class_ok sz n m sc P F E [] [] -> slab_allocated_bytes m + slot_size sc < 2 ^ 64 -> take_again m sc = Done (x, m', sc') ->
  exists P F E, class_ok sz n m' sc' P F E [] (if x =? NULL then [] else [x]).
Proof.
  intros Hc Hl. unfold take_again. destruct (class_alloc_run _ _ _ _ _ _ _ _ _ Hc Hl) as (s1 & m1 & sc1 & P1 & F1 & E1 & -> & Hc1 & Hs1 & _ & Hb1).
  cbn [mbind outcome_bind]. change (zlen []) with 0 in Hb1. pose proof (co_bytes _ _ _ _ _ _ _ _ _ Hc). pose proof (co_size _ _ _ _ _ _ _ _ _ Hc).
  destruct (Z.eqb_spec s1 NULL) as [E0|Hne].
  { intros [= <- <- <-]. rewrite E0 in *. exists P1, F1, E1. exact Hc1. }
  destruct (class_free_run _ _ _ _ _ _ _ _ _ _ Hc1) as (m2 & sc2 & P2 & F2 & E2 & -> & Hc2 & Hs2 & _ & Hb2 & _). cbn [mbind outcome_bind].
  destruct (class_alloc_run _ _ _ _ _ _ _ _ _ Hc2 ltac:(rewrite Hs2, Hs1, Hb2, Hb1, Hs1; change (zlen []) with 0; lia)) as (s3 & m3 & sc3 & P3 & F3 & E3 & E4 & Hc3 & _).
  rewrite E4. intros [= <- <- <-]. eauto.
Qed.

(** A class with one partial page. *)
Lemma one_partial sz n m sc P F E Q out pg p :
  class_ok sz n m sc P F E Q out -> partial_pages sc = pg -> pg <> NULL -> ld (nxt (plinks m)) pg = Done NULL -> pages m !! pg = Some p ->
  exists Fr, P = [(pg, Fr)] /\ free_count p = zlen Fr.
Proof.
  intros [Hok _ _ _ _] Hpp Hne Hld Hp. pose proof (so_partial _ _ _ _ _ _ _ _ Hok) as HP. destruct (partial_first _ _ _ _ _ _ _ _ Hok) as [Ef _].
  destruct P as [|[q Fr] P]; cbn in Ef; [congruence|]. assert (q = pg) as -> by congruence. exists Fr.
  pose proof (dll_next _ _ [] _ _ HP) as Hn. rewrite head_map in Hn. destruct P as [|[q' G] P].
  - split; [done|]. assert (Hpage : page_ok m sz n pg Fr) by (apply (so_pages _ _ _ _ _ _ _ _ Hok); unfold all_pages; by left).
    destruct (pg_header _ _ _ _ _ Hpage) as (p' & Ep & Hc & _). congruence.
  - cbn in Hn. exfalso. assert (q' = NULL) by congruence. subst q'.
    assert (Hpage : page_ok m sz n NULL G) by (apply (so_pages _ _ _ _ _ _ _ _ Hok); unfold all_pages; cbn; right; by left).
    pose proof (pg_pos _ _ _ _ _ Hpage). unfold NULL in *. lia.
Qed.

End Demo.

Definition idle_boot : @slab_mem bump := @set_now bump (ss_mem demo_boot) 1000.
Definition idle_taken : Z * @slab_mem bump * slab_class :=
  done_or (NULL, idle_boot, ss_class demo_boot) (@take_again bump idle_boot (ss_class demo_boot)).
(** A minute later. *)
Definition idle_mem : @slab_mem bump := @set_now bump idle_taken.1.2 61000.
Definition idle_on (b : bool) : idle_config := Idle b 60000 0.

Lemma idle_taken_eq : @take_again bump idle_boot (ss_class demo_boot) = Done (idle_taken.1.1, idle_taken.1.2, idle_taken.2).
Proof. rewrite <- surjective_pairing, <- surjective_pairing. unfold idle_taken. apply done_or_eq. vm_compute. exact eq_refl. Qed.

Lemma idle_taken_addr : idle_taken.1.1 = 327752.
Proof. vm_compute. exact eq_refl. Qed.

Lemma idle_class : exists P F E, @class_ok bump demo_sz (slots_of demo_sz) idle_mem idle_taken.2 P F E [] [327752].
Proof.
  destruct (@take_again_ok bump demo_sz (slots_of demo_sz) idle_boot (ss_class demo_boot) [] [] [] _ _ _
    (@class_ok_now bump _ _ _ _ _ _ _ _ _ 1000 (@boot_class_ok bump 0 1 64 bump0 demo_geometry ltac:(lia)))
    ltac:(vm_compute; exact eq_refl) idle_taken_eq) as (P & F & E & Hc).
  rewrite idle_taken_addr in Hc. exists P, F, E. apply class_ok_now. exact Hc.
Qed.

Lemma idle_page : exists p, pages idle_mem !! 327680 = Some p /\ (free_count p <? slots_of demo_sz) = true /\ idle_since_ts p = 1000.
Proof. eexists. split; [vm_compute; exact eq_refl|]. split; vm_compute; exact eq_refl. Qed.

Lemma compact_unmaps_live_witness :
  exists m' sc', @compact_class bump (idle_on true) idle_mem idle_taken.2 = Done (1, m', sc') /\
    partial_pages sc' = NULL /\ @slab_free bump m' sc' 327752 = Fault.
Proof.
  destruct idle_class as (P & F & E & Hc). destruct idle_page as (p & Hp & Hfc & Hts). apply Z.ltb_lt in Hfc.
  destruct (@one_partial bump _ _ _ _ _ _ _ _ _ 327680 p Hc ltac:(vm_compute; exact eq_refl) ltac:(unfold NULL; lia)
    ltac:(vm_compute; exact eq_refl) Hp) as (Fr & EP & Hl).
  rewrite Hl in Hfc. pose proof (co_slab _ _ _ _ _ _ _ _ _ Hc) as Hok. rewrite EP in Hok.
  destruct (@compact_unmaps_live bump (idle_on true) _ _ _ _ _ _ _ _ _ p Hok Hp Hfc eq_refl ltac:(rewrite Hts; lia)
    ltac:(rewrite Hts; vm_compute; discriminate)) as (m' & sc' & E1 & E2 & x & Hx & _ & _ & Ef).
  apply list_elem_of_singleton in Hx as ->. exists m', sc'. split; [exact E1|]. split; [exact E2|exact Ef].
Defined.

Lemma reclaim_keeps_live_witness :
  exists k m' sc', @compact_class bump (idle_on false) idle_mem idle_taken.2 = Done (k, m', sc') /\ mapped (os m') 327752.
Proof.
  destruct idle_class as (P & F & E & Hc). pose proof (co_slab _ _ _ _ _ _ _ _ _ Hc) as Hok.
  assert (HE : zlen E = 0).
  { destruct E as [|[q G] E]; [reflexivity|]. pose proof (dll_head _ _ _ (so_empty _ _ _ _ _ _ _ _ Hok)) as Hh.
    assert (Hq : empty_pages idle_taken.2 = NULL) by (vm_compute; exact eq_refl). rewrite Hq in Hh. cbn in Hh.
    assert (Hin : (q, G) ∈ all_pages P F ((q, G) :: E)) by (unfold all_pages; rewrite !elem_of_app, elem_of_cons; tauto).
    pose proof (pg_pos _ _ _ _ _ (so_pages _ _ _ _ _ _ _ _ Hok _ _ Hin)) as H0. unfold NULL in Hh. lia. }
  destruct (@reclaim_keeps_live bump (idle_on false) 0 _ _ _ _ _ _ _ _ eq_refl Hok ltac:(lia)) as
    [(m' & sc' & P' & gone & E1 & _ & _ & _ & _ & _ & _ & Hm) _].
  exists (zlen gone), m', sc'. split; [exact E1|]. apply (Hm 327752); [by apply list_elem_of_singleton|unfold demo_sz; vm_compute; by split].
Defined.

Lemma reset_spec_witness :
  exists m' sc', @reset_class bump idle_mem idle_taken.2 = Done (m', sc') /\ remote_free_queue sc' = remote_free_queue idle_taken.2.
Proof.
  destruct idle_class as (P & F & E & Hc).
  destruct (@reset_spec bump _ _ _ _ _ _ _ _ (co_slab _ _ _ _ _ _ _ _ _ Hc)) as (m' & sc' & P' & E1 & _ & _ & _ & _ & Hq).
  exists m', sc'. split; [exact E1|exact Hq].
Defined.

(** Class 5 (512 bytes, 98 slots to a page): one slot taken and given back by another
    thread, [mp_reset], and as many allocations as there are slots, and two more. *)
Definition big_boot : @slab_sys bump := @slab_boot bump 0 5 512 bump0.
Definition reset_after_push (count : Z) : outcome (Z * list Z) :=
  r ← @slab_alloc_slot bump (ss_mem big_boot) (ss_class big_boot);
  let '(slot, m, sc) := r in
  r ← remote_free_push m sc slot;
  let '(m, sc) := r in
  r ← reset_class m sc;
  let '(m, sc) := r in
  r ← slab_alloc_slot m sc;
  let '(first, m, sc) := r in
  r ← slab_alloc_batch m sc count;
  let '(rest, _, _) := r in
  Done (slot, first :: rest).

(** [mp_reset] leaves the remote-free queue alone, so a slot that was on it is put on the
    free list a second time by the next harvest, and so is every slot after it: with one
    page of 98 slots reset that way, the class then hands the first slot out three times
    in 100 allocations without mapping another page. *)
Theorem reset_queue_double_alloc :
  exists slot l, reset_after_push 99 = Done (slot, l) /\ zlen l = 100 /\ zlen (filter (fun x => x = slot) l) = 3 /\
    Forall (fun x => page_of x = page_of slot) l.
Proof. eexists _, _. split; [vm_compute; reflexivity|]. split; [reflexivity|]. split; [reflexivity|]. repeat constructor. Qed.

(** The same class reset, purged with pages of 4096 bytes, and used again. *)
Definition purge_after_reset (count : Z) : outcome (Z * list Z) :=
  r ← @slab_alloc_slot bump (ss_mem big_boot) (ss_class big_boot);
  let '(_, m, sc) := r in
  r ← reset_class m sc;
  let '(m, sc) := r in
  r ← purge_list (page_fuel m) 4096 0 m (partial_pages sc);
  let '(purged, m) := r in
  r ← slab_alloc_batch m sc count;
  let '(l, _, _) := r in
  Done (purged, l).

(** The free list runs through the slots themselves, so [mp_purge_lazy] cuts it: after
    60K of a reset page are purged, the seven slots before the first whole OS page and the
    one after can still be taken, and the next allocation follows the null link. *)
Theorem purge_cuts_free_list :
  (exists l, purge_after_reset 8 = Done (61440, l) /\ zlen l = 8 /\ NoDup l) /\ purge_after_reset 9 = Fault.
Proof.
  split; [|vm_compute; reflexivity]. eexists. split; [vm_compute; reflexivity|]. split; [reflexivity|].
  apply (bool_decide_unpack _). vm_compute. exact I.
Qed.
