(* ===== verification/Config.v ===== *)
(** * Runtime configuration

    The [CMEM_CONF] directives, their hot reload, and the latency histogram of
    [src/cmem_config.c].  The size-class API of that file is in [SizeClass]. *)
From S2P Require Import Prelude Header Dll SizeClass Slab SlabCache Reclaim.
From Stdlib Require Import ZArith Lia Ascii String.
From stdpp Require Import base option list gmap.
Open Scope Z_scope.

(** ** Environment flags *)

(** C's [strstr(hay, needle) != NULL]. *)
Fixpoint strstr (hay needle : string) : bool :=
  String.prefix needle hay || match hay with EmptyString => false | String _ hay => strstr hay needle end.

(** [strstr(env_conf, "key=1") || strstr(env_conf, "key=on")]. *)
Definition directive (conf key : string) : bool := strstr conf (key ++ "=1") || strstr conf (key ++ "=on").

Definition env_directives : list (string * Z) :=
  [("canary", MP_FLAG_DEBUG_CANARY); ("zero", MP_FLAG_ZERO_ON_ALLOC); ("tls", MP_FLAG_THREAD_LOCAL_CACHE);
   ("track", MP_FLAG_TRACK_LOCATIONS); ("poison", MP_FLAG_POISON_ON_FREE); ("aligned", MP_FLAG_CACHE_ALIGNED);
   ("guard", MP_FLAG_GUARD_PAGES); ("hugepages", MP_FLAG_HUGE_PAGES)]%string.

(** [env] is what [getenv("CMEM_CONF")] returns. *)
Definition mp_parse_env_flags (env : option string) (default_flags : Z) : Z :=
  match env with
  | None => default_flags
  | Some conf =>
      if (String.length conf =? 0)%nat then default_flags
      else fold_left (fun flags '(key, bit) => if directive conf key then Z.lor flags bit else flags) env_directives default_flags
  end.

Definition cmem_resolve_default_flags (safety_flags flags : Z) : Z := if flags =? 0 then safety_flags else flags.

(** The pool's flags and [env_flags_generation]. *)
Definition mp_reparse_env_flags (env : option string) (flags env_flags_generation : Z) : Z * Z :=
  let new_flags := mp_parse_env_flags env flags in
  if new_flags =? flags then (flags, env_flags_generation) else (new_flags, u64 (env_flags_generation + 1)).

(** Does [conf] ask for bit [i]? *)
Definition requested (env : option string) (i : Z) : bool :=
  match env with
  | None => false
  | Some conf => existsb (fun '(key, bit) => directive conf key && Z.testbit bit i) env_directives
  end.

Lemma fold_directives conf i : forall l flags,
  Z.testbit (fold_left (fun flags '(key, bit) => if directive conf key then Z.lor flags bit else flags) l flags) i =
  Z.testbit flags i || existsb (fun '(key, bit) => directive conf key && Z.testbit bit i) l.
Proof.
  induction l as [|[key bit] l IH]; intros flags; cbn [fold_left existsb]; [by rewrite orb_false_r|].
  rewrite IH. destruct (directive conf key); [by rewrite Z.lor_spec, orb_assoc|done].
Qed.

Lemma strstr_empty needle : needle <> EmptyString -> strstr EmptyString needle = false.
Proof. by destruct needle. Qed.

Lemma parse_env_testbit env flags i : Z.testbit (mp_parse_env_flags env flags) i = Z.testbit flags i || requested env i.
Proof.
  destruct env as [conf|]; [|by rewrite orb_false_r]. unfold mp_parse_env_flags, requested.
  destruct (Nat.eqb_spec (String.length conf) 0) as [E|_]; [|apply fold_directives].
  destruct conf; [|done]. vm_compute (existsb _ _). by rewrite orb_false_r.
Qed.

(** Parsing the environment sets exactly the bits of the directives present, on top of
    the flags given; so parsing twice adds nothing, a reload bumps the generation exactly
    when it changes the flags, and no reload ever clears a flag. *)
Theorem env_flags_spec env flags gen :
  (forall i, Z.testbit (mp_parse_env_flags env flags) i = Z.testbit flags i || requested env i) /\
  mp_parse_env_flags env (mp_parse_env_flags env flags) = mp_parse_env_flags env flags /\
  (let '(flags', gen') := mp_reparse_env_flags env flags gen in
   flags' = mp_parse_env_flags env flags /\ Z.land flags' flags = flags /\
   (gen' = gen \/ (flags' <> flags /\ gen' = u64 (gen + 1))) /\ mp_reparse_env_flags env flags' gen' = (flags', gen')).
Proof.
  assert (Hid : mp_parse_env_flags env (mp_parse_env_flags env flags) = mp_parse_env_flags env flags).
  { apply Z.bits_inj'. intros i _. by rewrite !parse_env_testbit, <- orb_assoc, orb_diag. }
  split; [apply parse_env_testbit|]. split; [exact Hid|].
  assert (Hland : Z.land (mp_parse_env_flags env flags) flags = flags).
  { apply Z.bits_inj'. intros i _. rewrite Z.land_spec, parse_env_testbit. by destruct (Z.testbit flags i), (requested env i). }
  unfold mp_reparse_env_flags. destruct (Z.eqb_spec (mp_parse_env_flags env flags) flags) as [E|E].
  - split; [done|]. split; [apply Z.land_diag|]. split; [by left|]. by rewrite E, Z.eqb_refl.
  - split; [done|]. split; [done|]. split; [by right|]. by rewrite Hid, Z.eqb_refl.
Qed.

(** ** Latency *)

Definition CMEM_LATENCY_HISTOGRAM_MAX_INDEX : Z := 31.
Definition CMEM_LATENCY_P99_NUMERATOR : Z := 99.
Definition CMEM_LATENCY_P99_DENOMINATOR : Z := 100.

Record latency := Latency {
  alloc_latency_histogram : list Z;   (* 32 counters *)
  alloc_latency_count : Z;
  alloc_latency_sum_ns : Z;
}.

(** [while (val >= 1024 && idx < 31) { val >>= 1; idx++; }], with [n] the steps left to 31. *)
Fixpoint latency_bucket (n : nat) (val idx : Z) : Z :=
  match n with
  | O => idx
  | S n => if 1024 <=? val then latency_bucket n (Z.shiftr val 1) (idx + 1) else idx
  end.

Definition mp_record_latency (t : latency) (latency_ns : Z) : latency :=
  let idx := latency_bucket (Z.to_nat CMEM_LATENCY_HISTOGRAM_MAX_INDEX) latency_ns 0 in
  Latency (alter (fun c => u64 (c + 1)) (Z.to_nat idx) (alloc_latency_histogram t)) (u64 (alloc_latency_count t + 1))
    (u64 (alloc_latency_sum_ns t + latency_ns)).

(** The bucket index at which the walk breaks. *)
Fixpoint p99_walk (hist : list Z) (target cum i : Z) : option Z :=
  match hist with
  | [] => None
  | c :: hist => let cum := u64 (cum + c) in if target <=? cum then Some i else p99_walk hist target cum (i + 1)
  end.

Definition mp_get_latency_p99 (t : latency) : Z :=
  if alloc_latency_count t =? 0 then 0
  else
    let target := u64 (alloc_latency_count t * CMEM_LATENCY_P99_NUMERATOR) / CMEM_LATENCY_P99_DENOMINATOR in
    match p99_walk (alloc_latency_histogram t) target 0 0 with Some i => u64 (Z.shiftl 1 i) | None => 0 end.

Definition mp_get_latency_avg (t : latency) : Z :=
  if alloc_latency_count t =? 0 then 0 else alloc_latency_sum_ns t / alloc_latency_count t.

Definition mp_reset_latency_stats (t : latency) : latency := Latency (replicate (List.length (alloc_latency_histogram t)) 0) 0 0.

Definition no_latency : latency := Latency (replicate 32 0) 0 0.
Definition record_all (l : list Z) : latency := fold_left mp_record_latency l no_latency.

(** The samples below [b]. *)
Definition below (b : Z) (l : list Z) : Z := zlen (filter (fun v => v < b) l).

Lemma latency_bucket_spec : forall n val idx, 0 <= val ->
  let i := latency_bucket n val idx in
  idx <= i <= idx + Z.of_nat n /\ (i < idx + Z.of_nat n -> val < 2 ^ (10 + (i - idx))) /\ (idx < i -> 2 ^ (9 + (i - idx)) <= val).
Proof.
  induction n as [|n IH]; intros val idx Hv i; subst i; cbn [latency_bucket]; [lia|].
  destruct (Z.leb_spec 1024 val) as [Hge|Hlt]; [|rewrite Z.sub_diag; cbn; lia].
  rewrite Z.shiftr_div_pow2 by lia. change (2 ^ 1) with 2.
  destruct (IH (val / 2) (idx + 1) ltac:(apply Z.div_pos; lia)) as ((H1 & H1') & H2 & H3). set (i := latency_bucket n (val / 2) (idx + 1)) in *.
  pose proof (Z.div_mod val 2 ltac:(lia)). pose proof (Z.mod_pos_bound val 2 ltac:(lia)).
  split; [lia|]. replace (10 + (i - idx)) with (Z.succ (10 + (i - (idx + 1)))) by lia. rewrite Z.pow_succ_r by lia. split; [lia|].
  intros _. destruct (Z.eq_dec i (idx + 1)) as [->|Hne].
  - replace (9 + (idx + 1 - idx)) with 10 by lia. change (2 ^ 10) with 1024. lia.
  - replace (9 + (i - idx)) with (Z.succ (9 + (i - (idx + 1)))) by lia. rewrite Z.pow_succ_r by lia. specialize (H3 ltac:(lia)). lia.
Qed.

Definition bucket_of (v : Z) : Z := latency_bucket (Z.to_nat CMEM_LATENCY_HISTOGRAM_MAX_INDEX) v 0.

Lemma bucket_of_range v : 0 <= v -> 0 <= bucket_of v <= 31.
Proof. intros Hv. pose proof (latency_bucket_spec (Z.to_nat CMEM_LATENCY_HISTOGRAM_MAX_INDEX) v 0 Hv) as [H _]. exact H. Qed.

Lemma bucket_of_le v i : 0 <= v -> 0 <= i < 31 -> bucket_of v <= i <-> v < 2 ^ (10 + i).
Proof.
  intros Hv Hi. destruct (latency_bucket_spec (Z.to_nat CMEM_LATENCY_HISTOGRAM_MAX_INDEX) v 0 Hv) as (H1 & H2 & H3).
  fold (bucket_of v) in *. change (Z.of_nat (Z.to_nat CMEM_LATENCY_HISTOGRAM_MAX_INDEX)) with 31 in *. rewrite Z.sub_0_r in *. split.
  - intros Hle. specialize (H2 ltac:(lia)). eapply Z.lt_le_trans; [exact H2|]. apply Z.pow_le_mono_r; lia.
  - intros Hlt. destruct (Z.le_gt_cases (bucket_of v) i) as [|Hgt]; [done|exfalso]. specialize (H3 ltac:(lia)).
    pose proof (Z.pow_le_mono_r 2 (10 + i) (9 + bucket_of v) ltac:(lia) ltac:(lia)). lia.
Qed.

(** The samples whose bucket is [k], and those up to it. *)
Definition in_bucket (l : list Z) (k : Z) : Z := zlen (filter (fun v => bucket_of v = k) l).
Definition up_to (l : list Z) (k : Z) : Z := zlen (filter (fun v => bucket_of v <= k) l).

Lemma filter_le (P : Z -> Prop) `{forall x, Decision (P x)} (l : list Z) : 0 <= zlen (filter P l) <= zlen l.
Proof. unfold zlen. pose proof (length_filter P l). lia. Qed.

Lemma up_to_step l k : up_to l k = up_to l (k - 1) + in_bucket l k.
Proof.
  unfold up_to, in_bucket. induction l as [|v l IH]; [done|]. rewrite !filter_cons.
  repeat case_decide; rewrite ?zlen_cons; lia.
Qed.

Lemma up_to_all l : Forall (fun v => 0 <= v) l -> up_to l (-1) = 0 /\ up_to l 31 = zlen l.
Proof.
  unfold up_to. induction l as [|v l IH]; intros Hl; [done|]. apply Forall_cons in Hl as [Hv Hl]. destruct (IH Hl) as [E1 E2].
  pose proof (bucket_of_range v Hv). rewrite !filter_cons, (decide_False (P := bucket_of v <= -1)), (decide_True (P := bucket_of v <= 31)) by lia.
  rewrite !zlen_cons. by rewrite E1, E2.
Qed.

Lemma up_to_below l i : Forall (fun v => 0 <= v) l -> 0 <= i < 31 -> up_to l i = below (2 ^ (10 + i)) l.
Proof.
  intros Hl Hi. unfold up_to, below. f_equal. induction l as [|v l IH]; [done|]. apply Forall_cons in Hl as [Hv Hl]. rewrite !filter_cons, IH by done.
  pose proof (bucket_of_le v i Hv Hi). repeat case_decide; tauto.
Qed.

(** The histogram counts. *)
Lemma record_all_spec l : Forall (fun v => 0 <= v) l -> zlen l < 2 ^ 64 ->
  List.length (alloc_latency_histogram (record_all l)) = 32%nat /\ alloc_latency_count (record_all l) = zlen l /\
  forall k, 0 <= k < 32 -> alloc_latency_histogram (record_all l) !! Z.to_nat k = Some (in_bucket l k).
Proof.
  induction l as [|v l IH] using rev_ind; intros Hl Hz.
  { split; [done|]. split; [done|]. intros k Hk. cbn [record_all fold_left no_latency alloc_latency_histogram]. apply lookup_replicate_2. lia. }
  apply Forall_app in Hl as [Hl Hv]. apply Forall_cons in Hv as [Hv _]. rewrite zlen_app in Hz. change (zlen [v]) with 1 in Hz. pose proof (zlen_nonneg l).
  destruct (IH Hl ltac:(lia)) as (H1 & H2 & H3). pose proof (bucket_of_range v Hv) as Hb.
  assert (E : record_all (l ++ [v]) = mp_record_latency (record_all l) v) by (unfold record_all; by rewrite fold_left_app).
  rewrite E. unfold mp_record_latency. fold (bucket_of v). cbn [alloc_latency_histogram alloc_latency_count].
  split; [by rewrite length_alter|]. split; [rewrite H2, zlen_app; apply u64_small; change (zlen [v]) with 1; lia|]. intros k Hk.
  assert (Es : in_bucket (l ++ [v]) k = in_bucket l k + (if decide (bucket_of v = k) then 1 else 0)).
  { unfold in_bucket. rewrite filter_app, zlen_app, filter_cons, filter_nil. by case_decide. }
  rewrite Es. pose proof (filter_le (fun v => bucket_of v = k) l) as Hle. fold (in_bucket l k) in Hle. case_decide as Ek.
  - subst k. rewrite list_lookup_alter_eq, H3 by done. cbn. f_equal. apply u64_small. lia.
  - rewrite list_lookup_alter_ne by lia. rewrite H3 by done. f_equal. lia.
Qed.

Lemma p99_walk_spec l : zlen l < 2 ^ 64 -> forall n, 0 <= n -> forall i target,
  match p99_walk (map (in_bucket l) (seqZ i n)) target (up_to l (i - 1)) i with
  | Some j => i <= j < i + n /\ target <= up_to l j /\ forall k, i <= k < j -> up_to l k < target
  | None => forall k, i <= k < i + n -> up_to l k < target
  end.
Proof.
  intros Hz. apply (natlike_ind (fun n => forall i target, _)).
  { intros i target. rewrite seqZ_nil by lia. cbn. lia. }
  intros n Hn IH i target. rewrite seqZ_cons by lia. cbn [map p99_walk].
  pose proof (filter_le (fun v => bucket_of v <= i) l) as Hle. fold (up_to l i) in Hle.
  rewrite <- up_to_step, u64_small by lia. replace (Z.pred (Z.succ n)) with n by lia. destruct (Z.leb_spec target (up_to l i)) as [Ht|Ht].
  - split; [lia|]. split; [done|]. lia.
  - specialize (IH (Z.succ i) target). replace (Z.succ i - 1) with i in IH by lia. replace (i + 1) with (Z.succ i) by lia.
    destruct (p99_walk _ _ _ _) as [j|].
    + destruct IH as (A & B & C). split; [lia|]. split; [done|]. intros k Hk. destruct (Z.eq_dec k i) as [->|]; [done|]. apply C. lia.
    + intros k Hk. destruct (Z.eq_dec k i) as [->|]; [done|]. apply IH. lia.
Qed.

(** [mp_get_latency_p99] finds the right bucket and reports the wrong bound.  Of the
    samples recorded at least 99% (rounded down) are below 2^(10+i) ns and fewer are below
    2^(9+i), for the [i] whose power 2^i it returns: the answer is 1024 times too small. *)
Theorem latency_p99_scale l :
  l <> [] -> Forall (fun v => 0 <= v) l -> zlen l * 99 < 2 ^ 64 ->
  exists i, 0 <= i <= 31 /\ mp_get_latency_p99 (record_all l) = 2 ^ i /\
    (i < 31 -> zlen l * 99 / 100 <= below (2 ^ (10 + i)) l) /\ (0 < i -> below (2 ^ (9 + i)) l < zlen l * 99 / 100).
Proof.
  intros Hne Hl Hz. pose proof (zlen_nonneg l) as Hp. destruct (record_all_spec l Hl ltac:(lia)) as (H1 & H2 & H3).
  assert (Eh : alloc_latency_histogram (record_all l) = map (in_bucket l) (seqZ 0 32)).
  { apply list_eq_same_length with (n := 32%nat); [by rewrite length_map, length_seqZ|done|]. intros k x y Hk Hx Hy.
    specialize (H3 (Z.of_nat k) ltac:(lia)). rewrite Nat2Z.id, Hx in H3. injection H3 as ->.
    rewrite list_lookup_fmap, lookup_seqZ_lt in Hy by lia. cbn in Hy. injection Hy as <-. by rewrite Z.add_0_l. }
  destruct (up_to_all l Hl) as [U0 U31].
  unfold mp_get_latency_p99. rewrite H2. destruct (Z.eqb_spec (zlen l) 0) as [E|_]; [by destruct l|].
  unfold CMEM_LATENCY_P99_NUMERATOR, CMEM_LATENCY_P99_DENOMINATOR. rewrite u64_small by lia. rewrite Eh.
  pose proof (p99_walk_spec l ltac:(lia) 32 ltac:(lia) 0 (zlen l * 99 / 100)) as Hw. change (0 - 1) with (-1) in Hw. rewrite U0 in Hw.
  assert (Ht : zlen l * 99 / 100 <= zlen l) by (apply Z.div_le_upper_bound; lia).
  destruct (p99_walk _ _ _ _) as [i|]; [|specialize (Hw 31 ltac:(lia)); lia].
  destruct Hw as (Hi & Hge & Hlt). exists i. split; [lia|]. rewrite Z.shiftl_1_l. split; [|split].
  - apply u64_small. split; [apply Z.pow_nonneg; lia|]. eapply Z.le_lt_trans; [apply (Z.pow_le_mono_r 2 i 31); lia|done].
  - intros Hi'. by rewrite <- up_to_below by (done || lia).
  - intros Hi'. replace (9 + i) with (10 + (i - 1)) by lia. rewrite <- up_to_below by (done || lia). apply Hlt. lia.
Qed.

Lemma latency_p99_scale_witness :
  mp_get_latency_p99 (record_all [5000; 6000]) = 8 /\ exists i, 8 = 2 ^ i /\ below (2 ^ (9 + i)) [5000; 6000] < 1 <= below (2 ^ (10 + i)) [5000; 6000].
Proof.
  assert (E : mp_get_latency_p99 (record_all [5000; 6000]) = 8) by (vm_compute; reflexivity). split; [exact E|].
  destruct (latency_p99_scale [5000; 6000] ltac:(discriminate) ltac:(repeat constructor; discriminate) ltac:(vm_compute; reflexivity))
    as (i & Hi & Ei & H1 & H2).
  rewrite E in Ei. assert (i = 3) as ->.
  { destruct (Z.lt_trichotomy i 3) as [H|[H|H]]; [|exact H|]; exfalso.
    - pose proof (Z.pow_le_mono_r 2 i 2 ltac:(lia) ltac:(lia)). lia.
    - pose proof (Z.pow_le_mono_r 2 4 i ltac:(lia) ltac:(lia)). lia. }
  exists 3. split; [reflexivity|]. split; [apply H2; lia|apply H1; lia].
Defined.

(** ** What a reload changes under a live pool *)

Lemma total_slot_size_eq flags p : 0 <= p < 2 ^ 32 -> p mod 8 = 0 ->
  total_slot_size flags p = SIZEOF_HEADER + p + (if has_flag flags MP_FLAG_DEBUG_CANARY then 8 else 0).
Proof.
  intros Hp Hm. unfold total_slot_size, SIZEOF_HEADER, CMEM_SLAB_ALIGN_MASK. set (c := if has_flag flags MP_FLAG_DEBUG_CANARY then 1 else 0).
  assert (Hc : 0 <= c <= 1) by (subst c; case_match; lia). rewrite (u64_small (152 + p + c)) by lia. rewrite u64_small by lia.
  change 7 with (Z.ones 3). rewrite <- Z.ldiff_land, Z.ldiff_ones_r, Z.shiftr_div_pow2, Z.shiftl_mul_pow2 by lia. change (2 ^ 3) with 8. change (Z.ones 3) with 7.
  pose proof (Z.div_mod p 8 ltac:(lia)) as E. subst c. case_match.
  - replace (152 + p + 1 + 7) with ((p / 8 + 20) * 8) by lia. rewrite Z.div_mul by lia. lia.
  - replace (152 + p + 0 + 7) with (7 + (p / 8 + 19) * 8) by lia. rewrite Z.div_add by lia. change (7 / 8) with 0. lia.
Qed.

(** Turning the canary on by a hot reload does not fit the slots carved before.  The
    canary of a block that uses its whole slot then falls on the first byte of the next
    slot, which is the link of that slot while it is free; and the slot size that [mp_reset]
    carves with is 8 bytes larger than the one the number of slots was computed with. *)
Theorem reload_canary_misfit flags gen p pg n i :
  has_flag flags MP_FLAG_DEBUG_CANARY = false -> 0 <= p < 2 ^ 32 -> p mod 8 = 0 -> 0 <= i -> i + 1 < n ->
  let flags' := (mp_reparse_env_flags (Some "canary=on"%string) flags gen).1 in
  let sz := total_slot_size flags p in
  has_flag flags' MP_FLAG_DEBUG_CANARY = true /\ total_slot_size flags' p = sz + 8 /\
  (forall slot, page_slots sz n pg !! Z.to_nat i = Some slot ->
     page_slots sz n pg !! Z.to_nat (i + 1) = Some (slot + SIZEOF_HEADER + p)).
Proof.
  intros Hf Hp Hm Hi Hn flags' sz. 
  assert (Hc : has_flag flags' MP_FLAG_DEBUG_CANARY = true).
  { unfold has_flag in *. apply negb_true_iff, Z.eqb_neq. intros H0.
    assert (Hb : Z.testbit (Z.land flags' MP_FLAG_DEBUG_CANARY) 1 = true); [|by rewrite H0 in Hb].
    rewrite Z.land_spec. change (Z.testbit MP_FLAG_DEBUG_CANARY 1) with true. rewrite andb_true_r. subst flags'.
    unfold mp_reparse_env_flags. pose proof (parse_env_testbit (Some "canary=on"%string) flags 1) as E.
    change (requested (Some "canary=on"%string) 1) with true in E. rewrite orb_true_r in E.
    destruct (Z.eqb_spec (mp_parse_env_flags (Some "canary=on"%string) flags) flags) as [E'|]; cbn [fst]; [by rewrite <- E'|done]. }
  split; [done|]. subst sz. rewrite !total_slot_size_eq, Hc, Hf by done. split; [lia|]. intros slot Hs.
  unfold page_slots in *. rewrite lookup_slot_addrs in Hs |- * by lia. injection Hs as <-. f_equal. rewrite !Z2Nat.id by lia. lia.
Qed.

(** Class 5 of a pool without the canary (98 slots of 664 bytes to the page); the canary is
    turned on, the pool reset, and all 98 slots are taken again. *)
Definition reload_then_reset (count : Z) : outcome (list Z) :=
  r ← @slab_alloc_slot bump (ss_mem big_boot) (ss_class big_boot);
  let '(_, m, sc) := r in
  let flags := (mp_reparse_env_flags (Some "canary=on"%string) (sflags m) 0).1 in
  let m := Mem (pages m) (plinks m) (snext m) flags (slab_allocated_bytes m) (total_pool_size m) (now_ms m) (os m) in
  r ← reset_class m sc;
  let '(m, sc) := r in
  r ← slab_alloc_batch m sc count;
  let '(l, _, _) := r in
  Done l.

(** The last slot handed out then reaches 392 bytes past the end of its page. *)
Example reload_reset_overruns_page :
  exists l x, reload_then_reset 98 = Done l /\ last l = Some x /\ page_of x = 327680 /\ x + 672 = 327680 + SLAB_PAGE_SIZE + 392.
Proof. eexists _, _. split; [vm_compute; reflexivity|]. split; [reflexivity|]. split; vm_compute; reflexivity. Qed.

Lemma reload_canary_misfit_witness :
  page_slots 664 98 327680 !! 0%nat = Some 327752 /\ page_slots 664 98 327680 !! 1%nat = Some (327752 + SIZEOF_HEADER + 512).
Proof.
  assert (E : page_slots 664 98 327680 !! 0%nat = Some 327752) by (vm_compute; reflexivity). split; [exact E|].
  destruct (reload_canary_misfit 0 0 512 327680 98 0 ltac:(vm_compute; reflexivity) ltac:(lia) ltac:(vm_compute; reflexivity) ltac:(lia) ltac:(lia))
    as (_ & _ & H). exact (H 327752 E).
Defined.
