(* ===== verification/PoolTree.v ===== *)
(** * The tree of pools and the threads bound to it

    [mp_create_custom_impl] and [mp_create_child] of [src/cmem.c], [mp_destroy] of
    [src/cmem_lifecycle.c], the child accessors of [src/cmem_config.c] and all of
    [src/cmem_multi_arena.c].  A pool is the part of [memory_pool_t] that links it to
    others; its tiers are modelled elsewhere. *)
From S2P Require Import Prelude Header Config.
From Stdlib Require Import ZArith Lia String.
From stdpp Require Import base option list gmap.
Open Scope Z_scope.

Definition CMEM_MAX_TLS_BOUND_POOLS : Z := 8.
Definition MAX_ARENAS : Z := 64.

Record pool_node := PNode {
  pflags : Z;
  parent : Z;
  first_child : Z;
  next_sibling : Z;
  is_multi_arena_child : bool;
  master_pool : Z;
  numa_node : Z;
  arenas : list Z;          (* [num_arenas] entries *)
  arena_rr_index : Z;
}.

Definition num_arenas (n : pool_node) : Z := zlen (arenas n).

(** [cmem_arena_binding_t] and what [thread_cache_t] keeps of it. *)
Record arena_binding := Binding { b_master : Z; b_arena : Z; b_index : Z }.
Record thread_bindings := TBind { bound_arena : Z; arena_bindings : list arena_binding }.

Definition unbound : thread_bindings := TBind NULL [].

(** The pools that exist and the bindings of each thread. *)
Record world := World { pools : gmap Z pool_node; threads : gmap Z thread_bindings }.

Definition thread_of (w : world) (tid : Z) : thread_bindings := default unbound (threads w !! tid).
Definition set_thread (w : world) (tid : Z) (t : thread_bindings) : world := World (pools w) (<[tid := t]> (threads w)).
Definition set_pool (w : world) (a : Z) (n : pool_node) : world := World (<[a := n]> (pools w)) (threads w).

Definition ld_pool (w : world) (a : Z) : outcome pool_node := match pools w !! a with Some n => Done n | None => Fault end.

(** ** Creation *)

(** [mp_create_custom_impl] without MP_FLAG_MULTI_ARENA; the arena of the initial capacity
    belongs to the TLSF tier. *)
Definition create_plain (w : world) (flags : Z) (cs : calls) : Z * world * calls :=
  let '(pool, cs) := next_call cs in
  if pool =? NULL then (NULL, w, cs)
  else (pool, set_pool w pool (PNode flags NULL NULL NULL false NULL 0 [] 0), cs).

Definition set_links (n : pool_node) (p c s : Z) : pool_node :=
  PNode (pflags n) p c s (is_multi_arena_child n) (master_pool n) (numa_node n) (arenas n) (arena_rr_index n).
Definition set_member (n : pool_node) (master numa : Z) : pool_node :=
  PNode (pflags n) (parent n) (first_child n) (next_sibling n) true master numa (arenas n) (arena_rr_index n).
Definition set_arenas (n : pool_node) (flags : Z) (l : list Z) : pool_node :=
  PNode flags (parent n) (first_child n) (next_sibling n) (is_multi_arena_child n) (master_pool n) (numa_node n) l (arena_rr_index n).
Definition set_rr (n : pool_node) (i : Z) : pool_node :=
  PNode (pflags n) (parent n) (first_child n) (next_sibling n) (is_multi_arena_child n) (master_pool n) (numa_node n) (arenas n) i.

(** [child->parent = parent; child->next_sibling = parent->first_child; parent->first_child = child]. *)
Definition link_child (w : world) (p child : Z) : outcome world :=
  c ← ld_pool w child;
  if p =? NULL then Done (set_pool w child (set_links c NULL (first_child c) (next_sibling c)))
  else
    pn ← ld_pool w p;
    let w := set_pool w child (set_links c p (first_child c) (first_child pn)) in
    pn ← ld_pool w p;
    Done (set_pool w p (set_links pn (parent pn) child (next_sibling pn))).

(** [mp_create_child_verbatim] with the MULTI_ARENA bit clear, as [mp_enable_multi_arena]
    calls it. *)
Definition create_child_plain (w : world) (p flags : Z) (cs : calls) : outcome (Z * world * calls) :=
  let '(child, w, cs) := create_plain w flags cs in
  if child =? NULL then Done (NULL, w, cs)
  else w ← link_child w p child; Done (child, w, cs).

(** The loop over the arenas: [n] left, from number [i]. *)
Fixpoint create_arenas (n : nat) (i : Z) (w : world) (pool flags numa_nodes : Z) (cs : calls) : outcome (list Z * world * calls) :=
  match n with
  | O => Done ([], w, cs)
  | S n =>
      r ← create_child_plain w pool flags cs;
      let '(child, w, cs) := r in
      r ← (if child =? NULL then Done (pool, w)
           else
             c ← ld_pool w child;
             let c := set_member c pool (if 1 <? numa_nodes then i mod numa_nodes else numa_node c) in
             Done (child, set_pool w child c));
      let '(arena, w) := r in
      r ← create_arenas n (i + 1) w pool flags numa_nodes cs;
      let '(l, w, cs) := r in
      Done (arena :: l, w, cs)
  end.

(** [~MP_FLAG_MULTI_ARENA]. *)
Definition without_multi (flags : Z) : Z := Z.land flags (Z.lnot MP_FLAG_MULTI_ARENA).

(** [cpus] is [sysconf(_SC_NPROCESSORS_ONLN)]; the first call is the array's. *)
Definition mp_enable_multi_arena (w : world) (pool num cpus numa_nodes : Z) (cs : calls) : outcome (bool * world * calls) :=
  if pool =? NULL then Done (false, w, cs)
  else
    p ← ld_pool w pool;
    if is_multi_arena_child p then Done (false, w, cs)
    else if 0 <? num_arenas p then Done (true, w, cs)
    else
      let num := if num <=? 0 then (if cpus <=? 0 then 4 else cpus) else num in
      let num := if MAX_ARENAS <? num then MAX_ARENAS else num in
      let '(arr, cs) := next_call cs in
      if arr =? NULL then Done (false, w, cs)
      else
        r ← create_arenas (Z.to_nat num) 0 w pool (without_multi (pflags p)) numa_nodes cs;
        let '(l, w, cs) := r in
        p ← ld_pool w pool;
        Done (true, set_pool w pool (set_arenas p (Z.lor (pflags p) MP_FLAG_MULTI_ARENA) l), cs).

Definition mp_create_custom_impl (w : world) (flags cpus numa_nodes : Z) (cs : calls) : outcome (Z * world * calls) :=
  let '(pool, w, cs) := create_plain w flags cs in
  if pool =? NULL then Done (NULL, w, cs)
  else if has_flag flags MP_FLAG_MULTI_ARENA then
    r ← mp_enable_multi_arena w pool 0 cpus numa_nodes cs;
    let '(_, w, cs) := r in Done (pool, w, cs)
  else Done (pool, w, cs).

(** The public entry point applies the environment and the compile-time default. *)
Definition mp_create_custom (env : option string) (safety_flags : Z) (w : world) (flags cpus numa_nodes : Z) (cs : calls) : outcome (Z * world * calls) :=
  mp_create_custom_impl w (mp_parse_env_flags env (cmem_resolve_default_flags safety_flags flags)) cpus numa_nodes cs.

Definition mp_create_child_impl (env : option string) (safety_flags : Z) (apply_policy : bool) (w : world) (p flags cpus numa_nodes : Z) (cs : calls)
    : outcome (Z * world * calls) :=
  r ← (if apply_policy then mp_create_custom env safety_flags w flags cpus numa_nodes cs else mp_create_custom_impl w flags cpus numa_nodes cs);
  let '(child, w, cs) := r in
  if child =? NULL then Done (NULL, w, cs)
  else w ← link_child w p child; Done (child, w, cs).

Definition mp_create_child env safety_flags := mp_create_child_impl env safety_flags true.
Definition mp_create_child_verbatim := mp_create_child_impl None 0 false.

(** ** Destruction *)

Definition mentions (pool : Z) (b : arena_binding) : bool := (b_master b =? pool) || (b_arena b =? pool).

(** [bindings[i] = bindings[count - 1]; count--]. *)
Definition swap_remove (i : nat) (l : list arena_binding) : list arena_binding :=
  match last l with Some b => take (List.length l - 1) (<[i := b]> l) | None => l end.

(** [for (i = n - 1; i >= 0; i--)]. *)
Fixpoint purge_loop (n : nat) (pool : Z) (l : list arena_binding) : list arena_binding :=
  match n with
  | O => l
  | S i =>
      purge_loop i pool (match l !! i with Some b => if mentions pool b then swap_remove i l else l | None => l end)
  end.

Definition mp_purge_thread_arena_bindings (w : world) (tid pool : Z) : world :=
  let t := thread_of w tid in
  set_thread w tid (TBind (if bound_arena t =? pool then NULL else bound_arena t)
                      (purge_loop (List.length (arena_bindings t)) pool (arena_bindings t))).

(** [mp_destroy] called by thread [tid]; a static pool's memory is not released. *)
Fixpoint mp_destroy (fuel : nat) (w : world) (tid pool : Z) : outcome world :=
  match fuel with
  | O => Fault
  | S fuel =>
      if pool =? NULL then Done w
      else
        let w := mp_purge_thread_arena_bindings w tid pool in
        p ← ld_pool w pool;
        w ← destroy_children fuel w tid (first_child p);
        p ← ld_pool w pool;
        if has_flag (pflags p) MP_FLAG_STATIC_BUFFER then Done w
        else Done (World (delete pool (pools w)) (threads w))
  end
with destroy_children (fuel : nat) (w : world) (tid child : Z) : outcome world :=
  match fuel with
  | O => Fault
  | S fuel =>
      if child =? NULL then Done w
      else
        c ← ld_pool w child;
        w ← mp_destroy fuel w tid child;
        destroy_children fuel w tid (next_sibling c)
  end.

Definition mp_get_parent (w : world) (pool : Z) : outcome Z :=
  if pool =? NULL then Done NULL else p ← ld_pool w pool; Done (parent p).

Fixpoint count_children (fuel : nat) (w : world) (child count : Z) : outcome Z :=
  match fuel with
  | O => Fault
  | S fuel => if child =? NULL then Done count else c ← ld_pool w child; count_children fuel w (next_sibling c) (u64 (count + 1))
  end.

Definition mp_get_child_count (w : world) (pool : Z) : outcome Z :=
  if pool =? NULL then Done 0 else p ← ld_pool w pool; count_children (S (base.size (pools w))) w (first_child p) 0.

(** ** Routing a thread to an arena *)

Definition find_binding (pool : Z) (l : list arena_binding) : option (nat * arena_binding) := list_find (fun b => b_master b = pool) l.

Definition ld_arena (p : pool_node) (i : Z) : outcome Z :=
  if i <? 0 then Fault else match arenas p !! Z.to_nat i with Some a => Done a | None => Fault end.

Definition add_binding (t : thread_bindings) (b : arena_binding) : thread_bindings :=
  if zlen (arena_bindings t) <? CMEM_MAX_TLS_BOUND_POOLS then TBind (bound_arena t) (arena_bindings t ++ [b]) else t.

(** [cpu] is what [cmem_current_cpu] returns. *)
Definition mp_get_thread_bound_arena (w : world) (tid cpu pool : Z) : outcome (Z * world) :=
  if pool =? NULL then Done (pool, w)
  else
    p ← ld_pool w pool;
    if num_arenas p <=? 0 then Done (pool, w)
    else
      let t := thread_of w tid in
      match find_binding pool (arena_bindings t) with
      | Some (_, b) => Done (b_arena b, w)
      | None =>
          let '(idx, w) := if 0 <=? cpu then (cpu mod num_arenas p, w)
                           else (arena_rr_index p mod num_arenas p, set_pool w pool (set_rr p (u64 (arena_rr_index p + 1)))) in
          arena ← ld_arena p idx;
          Done (arena, set_thread w tid (add_binding t (Binding pool arena idx)))
      end.

Definition mp_bind_thread_to_arena (w : world) (tid pool arena_index : Z) : outcome (bool * world) :=
  if pool =? NULL then Done (false, w)
  else
    p ← ld_pool w pool;
    if (num_arenas p <=? 0) || (arena_index <? 0) || (num_arenas p <=? arena_index) then Done (false, w)
    else
      arena ← ld_arena p arena_index;
      let t := thread_of w tid in
      match find_binding pool (arena_bindings t) with
      | Some (i, b) => Done (true, set_thread w tid (TBind (bound_arena t) (<[i := Binding (b_master b) arena arena_index]> (arena_bindings t))))
      | None =>
          if zlen (arena_bindings t) <? CMEM_MAX_TLS_BOUND_POOLS
          then Done (true, set_thread w tid (add_binding t (Binding pool arena arena_index)))
          else Done (false, w)
      end.

Definition mp_get_arena_count (w : world) (pool : Z) : outcome Z :=
  if pool =? NULL then Done 0 else p ← ld_pool w pool; Done (num_arenas p).

Definition mp_get_arena (w : world) (pool arena_index : Z) : outcome Z :=
  if pool =? NULL then Done NULL
  else
    p ← ld_pool w pool;
    if (num_arenas p <=? 0) || (arena_index <? 0) || (num_arenas p <=? arena_index) then Done NULL else ld_arena p arena_index.

(** Enough for any tree of existing pools. *)
Definition tree_fuel (w : world) : nat := 2 * base.size (pools w) + 2.

(** ** Forests

    First child and next sibling, as the nodes are linked. *)
Inductive forest := FNil | FCons (a : Z) (kids sibs : forest).

Fixpoint addrs (f : forest) : list Z := match f with FNil => [] | FCons a k s => a :: (addrs k ++ addrs s) end.

(** [f] is the chain of siblings from [hd] to [e], children of [par], each with its subtree. *)
Fixpoint rep_to (g : gmap Z pool_node) (e par hd : Z) (f : forest) : Prop :=
  match f with
  | FNil => hd = e
  | FCons a k s => hd = a /\ a <> NULL /\ exists n, g !! a = Some n /\ parent n = par /\ rep_to g NULL a (first_child n) k /\ rep_to g e par (next_sibling n) s
  end.
Abbreviation rep g := (rep_to g NULL).

(** Two nodes with the same place in the tree. *)
Definition same_place (n n' : pool_node) : Prop := parent n' = parent n /\ first_child n' = first_child n /\ next_sibling n' = next_sibling n.

Lemma rep_frame g g' f : forall e par hd,
  (forall a n, a ∈ addrs f -> g !! a = Some n -> exists n', g' !! a = Some n' /\ same_place n n') -> rep_to g e par hd f -> rep_to g' e par hd f.
Proof.
  induction f as [|a k IHk s IHs]; intros e par hd Hf; cbn [rep_to addrs] in *; [done|]. intros (-> & Ha & n & Hn & Hp & Hk & Hs).
  destruct (Hf a n (list_elem_of_here _ _) Hn) as (n' & Hn' & E1 & E2 & E3). split; [done|]. split; [done|]. exists n'. split; [done|].
  split; [congruence|]. rewrite E2, E3. split; [apply IHk|apply IHs]; try done; intros b m Hb; apply Hf; rewrite elem_of_cons, elem_of_app; auto.
Qed.

Lemma rep_nonnull g f : forall e par hd x, rep_to g e par hd f -> x ∈ addrs f ->
  x <> NULL /\ exists n, g !! x = Some n /\ (parent n = par \/ parent n ∈ addrs f).
Proof.
  induction f as [|a k IHk s IHs]; intros e par hd x; cbn [rep_to addrs]; [intros _ H; by apply not_elem_of_nil in H|].
  intros (-> & Ha & n & Hn & Hp & Hk & Hs). rewrite elem_of_cons, elem_of_app. intros [->|[Hx|Hx]].
  - split; [done|]. exists n. split; [done|by left].
  - destruct (IHk _ _ _ _ Hk Hx) as (H0 & m & Hm & [E|E]); (split; [done|]; exists m; split; [done|right]); rewrite elem_of_cons, elem_of_app; auto.
  - destruct (IHs _ _ _ _ Hs Hx) as (H0 & m & Hm & [E|E]); (split; [done|]; exists m; split; [done|]); [by left|right]. rewrite elem_of_cons, elem_of_app. auto.
Qed.

(** ** Purging bindings *)

Definition kept (L : list Z) (b : arena_binding) : Prop := (b_master b ∉ L) /\ (b_arena b ∉ L).
#[export] Instance kept_dec L b : Decision (kept L b) := _.

Lemma mentions_kept pool b : mentions pool b = false <-> kept [pool] b.
Proof. unfold mentions, kept. rewrite orb_false_iff, !Z.eqb_neq, !list_elem_of_singleton. tauto. Qed.

Lemma kept_app L1 L2 b : kept (L1 ++ L2) b <-> kept L2 b /\ kept L1 b.
Proof. unfold kept. rewrite !elem_of_app. tauto. Qed.

Lemma purge_loop_spec pool : forall n l, (n <= List.length l)%nat -> Forall (kept [pool]) (drop n l) ->
  purge_loop n pool l ≡ₚ filter (kept [pool]) l.
Proof.
  induction n as [|i IH]; intros l Hn Hd; cbn [purge_loop].
  { rewrite drop_0 in Hd. by rewrite filter_all. }
  destruct (lookup_lt_is_Some_2 l i) as [b Hb]; [lia|]. rewrite Hb. pose proof (drop_S _ _ _ Hb) as Ed. destruct (mentions pool b) eqn:Em.
  - assert (Hnk : ~ kept [pool] b) by (intros H; apply mentions_kept in H; congruence).
    pose proof (take_drop_middle _ _ _ Hb) as El. set (l1 := take i l) in *. set (l2 := drop (S i) l) in *.
    assert (Hl1 : List.length l1 = i) by (apply length_take_le; lia). clearbody l1 l2. subst l i.
    assert (Hi : <[List.length l1 := b]> (l1 ++ b :: l2) = l1 ++ b :: l2).
    { rewrite insert_app_r_alt, Nat.sub_diag by lia. done. }
    unfold swap_remove. destruct l2 as [|z l2] using rev_ind.
    + rewrite last_snoc. rewrite Hi, length_app. cbn [List.length]. rewrite Nat.add_sub, take_app_length.
      rewrite IH; [|done|by rewrite drop_all]. rewrite filter_app, filter_cons_False, filter_nil, app_nil_r by done. done.
    + clear IHl2. change (l1 ++ b :: l2 ++ [z]) with (l1 ++ (b :: l2) ++ [z]). rewrite app_assoc, last_snoc, <- app_assoc. cbn [app].
      rewrite insert_app_r_alt, Nat.sub_diag by lia. cbn [insert list_insert].
      assert (Et : take (List.length (l1 ++ b :: l2 ++ [z]) - 1) (l1 ++ z :: l2 ++ [z]) = l1 ++ z :: l2).
      { rewrite length_app. cbn [List.length]. rewrite length_app. cbn [List.length].
        replace (List.length l1 + S (List.length l2 + 1) - 1)%nat with (List.length l1 + List.length (z :: l2))%nat by (cbn; lia).
        change (l1 ++ z :: l2 ++ [z]) with (l1 ++ (z :: l2) ++ [z]). by rewrite take_app_add, take_app_length. }
      rewrite Et. apply Forall_app in Hd as [Hd1 Hd2].
      apply Forall_cons in Hd2 as [Hz _]. rewrite IH; [|rewrite length_app; lia|rewrite drop_app_length; by apply Forall_cons].
      rewrite !filter_app, (filter_cons_False _ b), filter_app by done.
      apply Permutation_app_head. change (z :: l2) with ([z] ++ l2). rewrite filter_app. apply Permutation_app_comm.
  - apply IH; [lia|]. rewrite Ed. apply Forall_cons. split; [by apply mentions_kept|done].
Qed.

(** ** Destroying a subtree *)

Definition is_static (n : pool_node) : bool := has_flag (pflags n) MP_FLAG_STATIC_BUFFER.

(** The pools [L] are gone (static ones stay in their caller's memory), and with them the
    bindings of thread [tid] that mention them. *)
Record destroyed (tid : Z) (L : list Z) (w w' : world) : Prop := {
  ds_pools : forall x, pools w' !! x = match pools w !! x with Some n => if decide (x ∈ L) then (if is_static n then Some n else None) else Some n | None => None end;
  ds_own : arena_bindings (thread_of w' tid) ≡ₚ filter (kept L) (arena_bindings (thread_of w tid));
  ds_bound : bound_arena (thread_of w' tid) = if decide (bound_arena (thread_of w tid) ∈ L) then NULL else bound_arena (thread_of w tid);
  ds_others : forall t, t <> tid -> threads w' !! t = threads w !! t;
}.

Lemma destroyed_nil tid w : destroyed tid [] w w.
Proof.
  split; try done.
  - intros x. destruct (pools w !! x); [|done]. by rewrite decide_False by apply not_elem_of_nil.
  - rewrite filter_all; [done|]. apply Forall_forall. intros b _. split; apply not_elem_of_nil.
Qed.

Lemma destroyed_trans tid L1 L2 w w1 w2 : destroyed tid L1 w w1 -> destroyed tid L2 w1 w2 -> destroyed tid (L1 ++ L2) w w2.
Proof.
  intros [P1 O1 B1 T1] [P2 O2 B2 T2]. split.
  - intros x. rewrite P2, P1. destruct (pools w !! x) as [n|]; [|done].
    destruct (decide (x ∈ L1)), (decide (x ∈ L2)), (decide (x ∈ L1 ++ L2)) as [Hx|Hx]; rewrite elem_of_app in Hx; try tauto;
      destruct (is_static n) eqn:E; by rewrite ?E.
  - rewrite O2, O1. rewrite list_filter_filter. by erewrite list_filter_iff by (intros b; symmetry; apply kept_app).
  - rewrite B2, B1. set (b := bound_arena (thread_of w tid)).
    destruct (decide (b ∈ L1)), (decide (b ∈ L1 ++ L2)) as [Hx|Hx]; rewrite elem_of_app in Hx; try tauto;
      [destruct (decide (NULL ∈ L2)); done|destruct (decide (b ∈ L2)); [done|tauto]|destruct (decide (b ∈ L2)); [tauto|done]].
  - intros t Ht. by rewrite T2, T1.
Qed.

Lemma destroyed_lookup tid L w w' x : destroyed tid L w w' -> x ∉ L -> pools w' !! x = pools w !! x.
Proof. intros [P _ _ _] Hx. rewrite P. destruct (pools w !! x); [|done]. by rewrite decide_False. Qed.

Lemma destroyed_rep tid L w w' e par hd f : destroyed tid L w w' -> (forall x, x ∈ addrs f -> x ∉ L) ->
  rep_to (pools w) e par hd f -> rep_to (pools w') e par hd f.
Proof. intros D Hd. apply rep_frame. intros a n Ha Hn. exists n. rewrite (destroyed_lookup _ _ _ _ _ D) by auto. done. Qed.

Lemma thread_set w tid t : thread_of (set_thread w tid t) tid = t.
Proof. unfold thread_of, set_thread. cbn. by rewrite lookup_insert_eq. Qed.

(** A pool after the bindings to it and then its children are gone. *)
Lemma destroyed_pool tid a L w w1 n :
  pools w !! a = Some n -> a ∉ L -> destroyed tid L (mp_purge_thread_arena_bindings w tid a) w1 ->
  destroyed tid (a :: L) w (if is_static n then w1 else World (delete a (pools w1)) (threads w1)).
Proof.
  intros Hn Ha [P O B T]. set (wp := mp_purge_thread_arena_bindings w tid a) in *.
  assert (D1 : forall w2, threads w2 = threads w1 -> (forall x, x <> a -> pools w2 !! x = pools w1 !! x) ->
    pools w2 !! a = (if is_static n then Some n else None) -> destroyed tid (a :: L) w w2).
  { intros w2 Et Ep Ea. assert (Etd : forall t, thread_of w2 t = thread_of w1 t) by (intros t; unfold thread_of; by rewrite Et). split.
    - intros x. destruct (decide (x = a)) as [->|Hx].
      + rewrite Hn, decide_True by (by left). exact Ea.
      + rewrite Ep, P by done. cbn. destruct (pools w !! x); [|done]. destruct (decide (x ∈ L)).
        * by rewrite decide_True by (by right).
        * by rewrite decide_False by (rewrite elem_of_cons; tauto).
    - rewrite Etd, O. unfold wp, mp_purge_thread_arena_bindings. rewrite thread_set. cbn [arena_bindings].
      rewrite purge_loop_spec; [|done|by rewrite drop_all]. rewrite list_filter_filter.
      erewrite list_filter_iff; [done|]. intros b. change (a :: L) with ([a] ++ L). symmetry. apply kept_app.
    - rewrite Etd, B. unfold wp, mp_purge_thread_arena_bindings. rewrite thread_set. cbn [bound_arena].
      set (b := bound_arena (thread_of w tid)).
      destruct (Z.eqb_spec b a) as [Eb|Hne], (decide (b ∈ a :: L)) as [Hx|Hx]; rewrite elem_of_cons in Hx; try tauto;
        [destruct (decide (NULL ∈ L)); done|destruct (decide (b ∈ L)); [done|tauto]|destruct (decide (b ∈ L)); [tauto|done]].
    - intros t Ht. rewrite Et, T by done. unfold wp, mp_purge_thread_arena_bindings. cbn. by rewrite lookup_insert_ne. }
  assert (Ea : pools w1 !! a = Some n) by (rewrite P; cbn; by rewrite Hn, decide_False).
  destruct (is_static n); apply D1; cbn; try done.
  - intros x Hx. by rewrite lookup_delete_ne.
  - apply lookup_delete_eq.
Qed.

Lemma ld_pool_Some w a n : pools w !! a = Some n -> ld_pool w a = Done n.
Proof. intros H. unfold ld_pool. by rewrite H. Qed.

(** The fuel is enough, and more fuel changes nothing. *)
Lemma destroy_run tid f : forall e par hd w fuel,
  rep (pools w) par hd f -> e = NULL -> NoDup (addrs f) -> (2 * List.length (addrs f) < fuel)%nat ->
  exists w', destroy_children fuel w tid hd = Done w' /\ destroyed tid (addrs f) w w'.
Proof.
  induction f as [|a k IHk s IHs]; intros e par hd w fuel Hr He Hd Hf; (destruct fuel as [|fuel]; [cbn in Hf; lia|]); cbn [destroy_children].
  { cbn in Hr. subst hd. exists w. split; [done|apply destroyed_nil]. }
  cbn [rep_to addrs] in *. destruct Hr as (-> & Ha & n & Hn & Hp & Hk & Hs). rewrite (proj2 (Z.eqb_neq a NULL)) by done.
  rewrite (ld_pool_Some _ _ _ Hn). cbn [mbind outcome_bind List.length] in *. rewrite length_app in Hf.
  apply NoDup_cons in Hd as [Hak Hd]. apply NoDup_app in Hd as (Nk & Dk & Ns). rewrite elem_of_app in Hak.
  destruct fuel as [|fuel]; [lia|]. cbn [mp_destroy]. rewrite (proj2 (Z.eqb_neq a NULL)) by done.
  set (wp := mp_purge_thread_arena_bindings w tid a). assert (Ep : pools wp = pools w) by done.
  rewrite (ld_pool_Some wp a n) by done. cbn [mbind outcome_bind].
  destruct (IHk e a (first_child n) wp fuel) as (w1 & -> & D1); [by rewrite Ep|done|done|lia|]. cbn [mbind outcome_bind].
  rewrite (ld_pool_Some w1 a n) by (rewrite (destroyed_lookup _ _ _ _ a D1) by tauto; done). cbn [mbind outcome_bind]. fold (is_static n).
  pose proof (destroyed_pool tid a (addrs k) w w1 n Hn ltac:(tauto) D1) as D2.
  set (w2 := if is_static n then w1 else World (delete a (pools w1)) (threads w1)) in *.
  assert (E2 : (if is_static n then Done w1 else Done (World (delete a (pools w1)) (threads w1))) = Done w2) by (subst w2; by destruct (is_static n)).
  rewrite E2. cbn [mbind outcome_bind].
  destruct (IHs e par (next_sibling n) w2 (S fuel)) as (w3 & -> & D3); [|done|done|lia|].
  { eapply destroyed_rep; [exact D2| |exact Hs]. intros x Hx. rewrite elem_of_cons. intros [->|Hx']; [tauto|by eapply Dk]. }
  exists w3. split; [done|]. change (a :: addrs k ++ addrs s) with ((a :: addrs k) ++ addrs s). by eapply destroyed_trans.
Qed.

Definition mp_destroy_pool (w : world) (tid pool : Z) : outcome world := mp_destroy (tree_fuel w) w tid pool.

Lemma addrs_size w L : NoDup L -> (forall x, x ∈ L -> is_Some (pools w !! x)) -> (List.length L <= base.size (pools w))%nat.
Proof.
  intros Hd Hs. rewrite <- size_dom, <- (size_list_to_set (C := gset Z) L) by done. apply subseteq_size. intros x Hx.
  apply elem_of_list_to_set in Hx. by apply elem_of_dom, Hs.
Qed.

Lemma destroy_pool_run w tid a n kids fuel :
  a <> NULL -> pools w !! a = Some n -> rep (pools w) a (first_child n) kids -> NoDup (a :: addrs kids) -> (2 * List.length (addrs kids) + 1 < fuel)%nat ->
  exists w', mp_destroy fuel w tid a = Done w' /\ destroyed tid (a :: addrs kids) w w'.
Proof.
  intros Ha Hn Hr Hd Hf. destruct fuel as [|fuel]; [lia|]. cbn [mp_destroy]. rewrite (proj2 (Z.eqb_neq a NULL)) by done.
  apply NoDup_cons in Hd as [Hak Hd]. rewrite (ld_pool_Some (mp_purge_thread_arena_bindings w tid a) a n) by done. cbn [mbind outcome_bind].
  destruct (destroy_run tid kids NULL a (first_child n) (mp_purge_thread_arena_bindings w tid a) fuel) as (w1 & -> & D1); [done|done|done|lia|].
  cbn [mbind outcome_bind]. rewrite (ld_pool_Some w1 a n) by (rewrite (destroyed_lookup _ _ _ _ a D1) by done; done). cbn [mbind outcome_bind].
  pose proof (destroyed_pool tid a (addrs kids) w w1 n Hn Hak D1) as D2. fold (is_static n). by destruct (is_static n); eexists.
Qed.

Lemma rep_some g e par hd f x : rep_to g e par hd f -> x ∈ addrs f -> is_Some (g !! x).
Proof. intros Hr Hx. destruct (rep_nonnull _ _ _ _ _ _ Hr Hx) as (_ & n & -> & _). eauto. Qed.

Lemma destroy_total w tid a n kids :
  a <> NULL -> pools w !! a = Some n -> rep (pools w) a (first_child n) kids -> NoDup (a :: addrs kids) ->
  exists w', mp_destroy_pool w tid a = Done w' /\ destroyed tid (a :: addrs kids) w w'.
Proof.
  intros Ha Hn Hr Hd. apply (destroy_pool_run w tid a n kids); try done. unfold tree_fuel.
  pose proof (addrs_size w (a :: addrs kids) Hd) as Hs. cbn [List.length] in Hs.
  enough (S (List.length (addrs kids)) <= base.size (pools w))%nat by lia. apply Hs. intros x [->|Hx]%elem_of_cons; [eauto|by eapply rep_some].
Qed.

(** Destroying a pool destroys exactly its subtree.  It never faults or runs on, each
    pool of the subtree is released once (a static one stays in its caller's buffer), no
    other pool changes, and of the calling thread's bindings exactly those that mention a
    destroyed pool are dropped; the other threads keep theirs. *)
Theorem destroy_spec w tid a n kids :
  a <> NULL -> pools w !! a = Some n -> rep (pools w) a (first_child n) kids -> NoDup (a :: addrs kids) ->
  exists w', mp_destroy_pool w tid a = Done w' /\ destroyed tid (a :: addrs kids) w w'.
Proof. apply destroy_total. Qed.

Lemma mp_destroy_S fuel w tid a : mp_destroy (S fuel) w tid a =
  if a =? NULL then Done w
  else
    p ← ld_pool (mp_purge_thread_arena_bindings w tid a) a;
    w ← destroy_children fuel (mp_purge_thread_arena_bindings w tid a) tid (first_child p);
    p ← ld_pool w a;
    if has_flag (pflags p) MP_FLAG_STATIC_BUFFER then Done w else Done (World (delete a (pools w)) (threads w)).
Proof. done. Qed.

Lemma destroy_children_S fuel w tid a : destroy_children (S fuel) w tid a =
  if a =? NULL then Done w
  else c ← ld_pool w a; w ← mp_destroy fuel w tid a; destroy_children fuel w tid (next_sibling c).
Proof. done. Qed.

Lemma destroy_mono : forall fuel w tid,
  (forall a w', mp_destroy fuel w tid a = Done w' -> mp_destroy (S fuel) w tid a = Done w') /\
  (forall a w', destroy_children fuel w tid a = Done w' -> destroy_children (S fuel) w tid a = Done w').
Proof.
  induction fuel as [|fuel IH]; intros w tid; [done|]. split; intros a w'.
  - rewrite !mp_destroy_S. destruct (a =? NULL); [done|]. set (wp := mp_purge_thread_arena_bindings w tid a).
    destruct (ld_pool wp a) as [p| |]; [|done..]. cbn [mbind outcome_bind].
    destruct (destroy_children fuel wp tid (first_child p)) as [w1| |] eqn:E; [|done..]. apply IH in E. by rewrite E.
  - rewrite !destroy_children_S. destruct (a =? NULL); [done|]. destruct (ld_pool w a) as [p| |]; [|done..]. cbn [mbind outcome_bind].
    destruct (mp_destroy fuel w tid a) as [w1| |] eqn:E; [|done..]. apply IH in E. rewrite E. cbn [mbind outcome_bind]. intros E2. by apply IH.
Qed.

Lemma destroy_more k fuel w tid a w' : mp_destroy fuel w tid a = Done w' -> mp_destroy (k + fuel) w tid a = Done w'.
Proof. intros E. induction k as [|k IH]; [done|]. cbn [Nat.add]. by apply destroy_mono. Qed.

Lemma destroy_no_err : forall fuel w tid,
  (forall a, mp_destroy fuel w tid a = Fault \/ exists w', mp_destroy fuel w tid a = Done w') /\
  (forall a, destroy_children fuel w tid a = Fault \/ exists w', destroy_children fuel w tid a = Done w').
Proof.
  assert (Hld : forall w a, ld_pool w a = Fault \/ exists n, ld_pool w a = Done n) by (intros w a; unfold ld_pool; destruct (pools w !! a); eauto).
  induction fuel as [|fuel IH]; intros w tid; [by split; left|]. split; intros a.
  - cbn [mp_destroy]. destruct (a =? NULL); [eauto|]. set (wp := mp_purge_thread_arena_bindings w tid a).
    destruct (Hld wp a) as [->|(p & ->)]; [by left|]. cbn [mbind outcome_bind].
    destruct (proj2 (IH wp tid) (first_child p)) as [->|(w1 & ->)]; [by left|]. cbn [mbind outcome_bind].
    destruct (Hld w1 a) as [->|(p1 & ->)]; [by left|]. cbn [mbind outcome_bind]. case_match; eauto.
  - cbn [destroy_children]. destruct (a =? NULL); [eauto|].
    destruct (Hld w a) as [->|(p & ->)]; [by left|]. cbn [mbind outcome_bind].
    destruct (proj1 (IH w tid) a) as [->|(w1 & ->)]; [by left|]. cbn [mbind outcome_bind]. apply IH.
Qed.

(** The walk over the siblings reaches one that is gone. *)
Lemma destroy_missing tid c f : forall par hd w fuel,
  rep_to (pools w) c par hd f -> c <> NULL -> pools w !! c = None -> NoDup (addrs f) -> destroy_children fuel w tid hd = Fault.
Proof.
  induction f as [|a k _ s IHs]; intros par hd w fuel; cbn [rep_to addrs]; (destruct fuel as [|fuel]; [done|]); cbn [destroy_children].
  { intros -> Hc Hn _. rewrite (proj2 (Z.eqb_neq c NULL)) by done. unfold ld_pool. by rewrite Hn. }
  intros (-> & Ha & n & Hn & _ & Hk & Hs) Hc Hm Hd. rewrite (proj2 (Z.eqb_neq a NULL)) by done. rewrite (ld_pool_Some _ _ _ Hn). cbn [mbind outcome_bind].
  assert (Hd1 : NoDup (a :: addrs k)) by (change (a :: addrs k ++ addrs s) with ((a :: addrs k) ++ addrs s) in Hd; by apply NoDup_app in Hd as [? _]).
  destruct (proj1 (destroy_no_err fuel w tid) a) as [->|(w1 & E1)]; [done|]. rewrite E1. cbn [mbind outcome_bind].
  destruct (destroy_pool_run w tid a n k (2 * List.length (addrs k) + 2 + fuel) Ha Hn Hk Hd1 ltac:(lia)) as (w2 & E2 & D).
  rewrite (destroy_more (2 * List.length (addrs k) + 2) _ _ _ _ _ E1) in E2. injection E2 as <-.
  change (a :: addrs k ++ addrs s) with ((a :: addrs k) ++ addrs s) in Hd. apply NoDup_app in Hd as (_ & Hdis & Ns).
  apply (IHs par); [|done| |done].
  - eapply destroyed_rep; [exact D| |exact Hs]. intros x Hx Hx'. by apply (Hdis x).
  - rewrite (ds_pools _ _ _ _ D), Hm. done.
Qed.

(** [mp_destroy] does not unlink the pool from its parent.  After a child has been
    destroyed on its own, destroying the parent follows the stale link to it, wherever it
    stood among the children. *)
Theorem destroy_child_then_parent w tid p np c nc before sub after w1 :
  pools w !! p = Some np -> p <> NULL -> rep_to (pools w) c p (first_child np) before ->
  rep (pools w) p c (FCons c sub after) -> NoDup (p :: addrs before ++ addrs (FCons c sub after)) ->
  pools w !! c = Some nc -> is_static nc = false -> mp_destroy_pool w tid c = Done w1 ->
  forall tid' fuel, mp_destroy fuel w1 tid' p = Fault.
Proof.
  intros Hp Hp0 Hb Hc Hd Hnc Hst E1 tid' fuel. cbn [rep_to addrs] in Hc, Hd. destruct Hc as (_ & Hc0 & n & Hn & _ & Hsub & _).
  assert (n = nc) as -> by congruence. apply NoDup_cons in Hd as [Hpn Hd]. apply NoDup_app in Hd as (Nb & Db & Nc). rewrite elem_of_app in Hpn.
  assert (Nc' : NoDup (c :: addrs sub)) by (change (c :: addrs sub ++ addrs after) with ((c :: addrs sub) ++ addrs after) in Nc; by apply NoDup_app in Nc as [? _]).
  destruct (destroy_pool_run w tid c nc sub (2 * List.length (addrs sub) + 2 + tree_fuel w) Hc0 Hnc Hsub Nc' ltac:(lia)) as (w2 & E2 & D).
  unfold mp_destroy_pool in E1. rewrite (destroy_more (2 * List.length (addrs sub) + 2) _ _ _ _ _ E1) in E2. injection E2 as <-.
  assert (Hout : forall x, x ∈ c :: addrs sub -> x ∈ c :: addrs sub ++ addrs after).
  { intros x. rewrite !elem_of_cons, elem_of_app. tauto. }
  destruct fuel as [|fuel]; [done|]. cbn [mp_destroy]. rewrite (proj2 (Z.eqb_neq p NULL)) by done.
  set (wp := mp_purge_thread_arena_bindings w1 tid' p).
  assert (Hp1 : pools w1 !! p = Some np) by (rewrite (destroyed_lookup _ _ _ _ p D); [done|intros H; apply Hpn; right; by apply Hout]).
  rewrite (ld_pool_Some wp p np) by done. cbn [mbind outcome_bind].
  rewrite (destroy_missing tid' c before p (first_child np) wp fuel); try done.
  - change (pools wp) with (pools w1). eapply destroyed_rep; [exact D| |exact Hb]. intros x Hx Hx'. apply (Db x Hx). by apply Hout.
  - cbn. rewrite (ds_pools _ _ _ _ D), Hnc, decide_True by (by left). by rewrite Hst.
Qed.

(** ** One client thread *)

Definition tree : Type := Z * forest.
Definition members (t : tree) : list Z := t.1 :: addrs t.2.
Definition everyone (ts : list tree) : list Z := concat (map members ts).

Definition tree_rep (g : gmap Z pool_node) (t : tree) : Prop :=
  t.1 <> NULL /\ exists n, g !! t.1 = Some n /\ parent n = NULL /\ rep g t.1 (first_child n) t.2.

(** The pools [ts] are linked up as trees; an arena of a pool is that pool or one of its
    children; every binding of thread [tid] names a pool of [ts] and one of its arenas. *)
Record world_ok (tid : Z) (w : world) (ts : list tree) : Prop := {
  wk_rep : Forall (tree_rep (pools w)) ts;
  wk_nodup : NoDup (everyone ts);
  wk_arenas : forall a n x, a ∈ everyone ts -> pools w !! a = Some n -> x ∈ arenas n ->
    x = a \/ (x ∈ everyone ts /\ exists m, pools w !! x = Some m /\ parent m = a);
  wk_bind : forall b, b ∈ arena_bindings (thread_of w tid) -> b_master b ∈ everyone ts /\
    exists n, pools w !! b_master b = Some n /\ b_arena b ∈ arenas n;
}.

Lemma elem_of_everyone ts x : x ∈ everyone ts <-> exists t, t ∈ ts /\ x ∈ members t.
Proof.
  unfold everyone. rewrite list_elem_of_In, in_concat. setoid_rewrite in_map_iff. setoid_rewrite <- list_elem_of_In. split.
  - intros (l & (t & <- & Ht) & Hx). eauto.
  - intros (t & Ht & Hx). exists (members t). split; [|done]. by exists t.
Qed.

Lemma everyone_cons t ts : everyone (t :: ts) = members t ++ everyone ts.
Proof. done. Qed.

Lemma everyone_perm ts ts' : ts ≡ₚ ts' -> everyone ts ≡ₚ everyone ts'.
Proof.
  induction 1 as [|t ts ts' _ IH|t t' ts|ts1 ts2 ts3 _ IH1 _ IH2]; [done| | |by rewrite IH1].
  - by rewrite !everyone_cons, IH.
  - rewrite !everyone_cons, !app_assoc. by rewrite (Permutation_app_comm (members t')).
Qed.

Lemma tree_rep_member g t x : tree_rep g t -> x ∈ members t -> x <> NULL /\ is_Some (g !! x).
Proof.
  intros (H0 & n & Hn & _ & Hr). unfold members. rewrite elem_of_cons. intros [->|Hx]; [split; [done|eauto]|].
  split; [by eapply rep_nonnull|by eapply rep_some].
Qed.

Lemma live_some tid w ts x : world_ok tid w ts -> x ∈ everyone ts -> x <> NULL /\ is_Some (pools w !! x).
Proof.
  intros [Hr _ _ _] (t & Ht & Hx)%elem_of_everyone. rewrite Forall_forall in Hr. by eapply tree_rep_member; [apply Hr|].
Qed.

Lemma tree_rep_frame g g' t :
  (forall a n, a ∈ members t -> g !! a = Some n -> exists n', g' !! a = Some n' /\ same_place n n') -> tree_rep g t -> tree_rep g' t.
Proof.
  intros Hf (H0 & n & Hn & Hp & Hr). split; [done|]. destruct (Hf t.1 n (list_elem_of_here _ _) Hn) as (n' & Hn' & E1 & E2 & _).
  exists n'. split; [done|]. split; [congruence|]. rewrite E2. eapply rep_frame; [|exact Hr]. intros a m Ha. apply Hf. by right.
Qed.

Lemma world_ok_perm tid w ts ts' : ts ≡ₚ ts' -> world_ok tid w ts -> world_ok tid w ts'.
Proof.
  intros E [Hr Hd Ha Hb]. pose proof (everyone_perm _ _ E) as Ee. split.
  - by rewrite <- E.
  - by rewrite <- Ee.
  - intros a n x. rewrite <- !Ee. apply Ha.
  - intros b Hb'. rewrite <- Ee. by apply Hb.
Qed.

Lemma world_ok_empty tid : world_ok tid (World ∅ ∅) [].
Proof.
  split; [constructor|constructor| |].
  - intros a n x H. by apply not_elem_of_nil in H.
  - intros b H. unfold thread_of in H. cbn in H. by apply not_elem_of_nil in H.
Qed.

(** A pool gets other fields, in the same place. *)
Lemma world_ok_set tid w ts a n n' :
  world_ok tid w ts -> pools w !! a = Some n -> same_place n n' -> arenas n' = arenas n -> world_ok tid (set_pool w a n') ts.
Proof.
  intros [Hr Hd Ha Hb] Hn Hp Earn.
  assert (Hl : forall b m, pools w !! b = Some m -> exists m', pools (set_pool w a n') !! b = Some m' /\ same_place m m' /\ arenas m' = arenas m).
  { intros b m Hm. cbn. destruct (decide (b = a)) as [->|]; [rewrite lookup_insert_eq; exists n'; assert (m = n) as -> by congruence; done|].
    exists m. by rewrite lookup_insert_ne. }
  assert (Hl' : forall b m', pools (set_pool w a n') !! b = Some m' -> exists m, pools w !! b = Some m /\ same_place m m' /\ arenas m' = arenas m).
  { intros b m'. cbn. destruct (decide (b = a)) as [->|]; [rewrite lookup_insert_eq; intros [= <-]; by exists n|].
    rewrite lookup_insert_ne by done. intros Hm. by exists m'. }
  split; [|done| |].
  - eapply Forall_impl; [exact Hr|]. intros t. apply tree_rep_frame. intros b m _ Hm. destruct (Hl b m Hm) as (m' & E & P & _). by exists m'.
  - intros b m' x Hb' Hm' Hx. destruct (Hl' b m' Hm') as (m & Hm & _ & Em). rewrite Em in Hx.
    destruct (Ha b m x Hb' Hm Hx) as [->|(Hx1 & k & Hk & Pk)]; [by left|right]. split; [done|].
    destruct (Hl x k Hk) as (k' & Hk' & (P & _) & _). exists k'. split; [done|congruence].
  - intros b Hb'. destruct (Hb b Hb') as (H1 & m & Hm & Hx). split; [done|]. destruct (Hl _ _ Hm) as (m' & Hm' & _ & Em). exists m'. by rewrite Em.
Qed.

(** The blocks [calloc] will return hold no pool. *)
Definition fresh_calls (w : world) (cs : calls) : Prop := fresh_answers (pools w) cs.

Lemma next_fresh w cs a cs' : fresh_calls w cs -> next_call cs = (a, cs') ->
  fresh_calls w cs' /\ (a = NULL \/ (a <> NULL /\ pools w !! a = None /\ forall n, fresh_calls (set_pool w a n) cs')).
Proof. apply fresh_next. Qed.

Lemma fresh_calls_dom w w' cs : (forall x, pools w !! x = None -> pools w' !! x = None) -> fresh_calls w cs -> fresh_calls w' cs.
Proof. intros H [Hd Hf]. split; [done|]. eapply Forall_impl; [exact Hf|]. intros x [? ?]. auto. Qed.

Lemma world_ok_add tid w ts a n :
  world_ok tid w ts -> a <> NULL -> pools w !! a = None -> parent n = NULL -> first_child n = NULL -> arenas n = [] ->
  world_ok tid (set_pool w a n) ((a, FNil) :: ts).
Proof.
  intros Hok H0 Hn Hp Hc Hl. pose proof Hok as [Hr Hd Ha Hb].
  assert (Hne : forall x, x ∈ everyone ts -> x <> a).
  { intros x Hx ->. destruct (live_some _ _ _ _ Hok Hx) as [_ [? E]]. congruence. }
  split.
  - constructor; [split; [done|]; exists n; cbn; by rewrite lookup_insert_eq|]. rewrite Forall_forall in Hr |- *. intros t Ht.
    eapply tree_rep_frame; [|by apply Hr]. intros b m Hb' Hm. exists m. split; [|done]. cbn. rewrite lookup_insert_ne; [done|].
    intros <-. by apply (Hne a); [apply elem_of_everyone; eauto|].
  - cbn. apply NoDup_cons. split; [|done]. intros Hx. by apply (Hne a).
  - intros b m x Hb' Hm Hx. cbn in Hm. destruct (decide (b = a)) as [->|Hba].
    + rewrite lookup_insert_eq in Hm. injection Hm as <-. rewrite Hl in Hx. by apply not_elem_of_nil in Hx.
    + rewrite lookup_insert_ne in Hm by done. rewrite everyone_cons in Hb'. cbn in Hb'. apply elem_of_cons in Hb' as [?|Hb']; [done|].
      destruct (Ha b m x Hb' Hm Hx) as [->|(Hx1 & k & Hk & Pk)]; [by left|right]. split; [rewrite everyone_cons, elem_of_app; by right|].
      exists k. split; [|done]. cbn. rewrite lookup_insert_ne; [done|]. intros <-. by apply (Hne a).
  - intros b Hb'. destruct (Hb b Hb') as (H1 & m & Hm & Hx). split; [rewrite everyone_cons, elem_of_app; by right|].
    exists m. split; [|done]. cbn. rewrite lookup_insert_ne; [done|]. intros E. symmetry in E. by apply (Hne (b_master b)).
Qed.

(** [c], with its subtree [kc], becomes the first child of [p]. *)
Fixpoint attach (p c : Z) (kc f : forest) : forest :=
  match f with
  | FNil => FNil
  | FCons a k s => if a =? p then FCons a (FCons c kc k) s else FCons a (attach p c kc k) (attach p c kc s)
  end.
Definition attach_tree (p c : Z) (kc : forest) (t : tree) : tree :=
  (t.1, if t.1 =? p then FCons c kc t.2 else attach p c kc t.2).

Lemma attach_other p c kc f : p ∉ addrs f -> attach p c kc f = f.
Proof.
  induction f as [|a k IHk s IHs]; cbn [addrs attach]; [done|]. rewrite elem_of_cons, elem_of_app. intros H.
  rewrite (proj2 (Z.eqb_neq a p)) by (intros ->; apply H; by left). by rewrite IHk, IHs by tauto.
Qed.

Lemma attach_addrs p c kc f : NoDup (addrs f) -> p ∈ addrs f -> addrs (attach p c kc f) ≡ₚ (c :: addrs kc) ++ addrs f.
Proof.
  induction f as [|a k IHk s IHs]; cbn [addrs attach]; [intros _ H; by apply not_elem_of_nil in H|].
  intros (Hak & Hd)%NoDup_cons Hin. apply NoDup_app in Hd as (Nk & Dk & Ns). rewrite elem_of_app in Hak.
  destruct (Z.eqb_spec a p) as [->|Hne].
  - cbn [addrs]. change (p :: (c :: addrs kc ++ addrs k) ++ addrs s) with ([p] ++ (c :: addrs kc ++ addrs k) ++ addrs s).
    change (p :: addrs k ++ addrs s) with ([p] ++ addrs k ++ addrs s). change (c :: addrs kc ++ addrs k) with ((c :: addrs kc) ++ addrs k).
    rewrite <- !(assoc_L (++)). rewrite (Permutation_app_swap_app [p]). done.
  - cbn [addrs]. rewrite elem_of_cons, elem_of_app in Hin. destruct Hin as [->|[Hin|Hin]]; [done| |].
    + rewrite (attach_other p c kc s) by (intros H; by apply (Dk p)). rewrite IHk by done.
      rewrite <- (assoc_L (++)), <- Permutation_middle. done.
    + rewrite (attach_other p c kc k) by (intros H; by apply (Dk p)). rewrite IHs by done.
      rewrite (Permutation_app_swap_app (addrs k)), <- Permutation_middle. done.
Qed.

(** The links [link_child] writes. *)
Record linked (g g' : gmap Z pool_node) (p c : Z) : Prop := {
  ln_other : forall x n, x <> p -> x <> c -> g !! x = Some n -> g' !! x = Some n;
  ln_parent : forall n, g !! p = Some n -> exists n', g' !! p = Some n' /\ parent n' = parent n /\ first_child n' = c /\ next_sibling n' = next_sibling n;
  ln_child : forall n np, g !! c = Some n -> g !! p = Some np -> exists n', g' !! c = Some n' /\ parent n' = p /\ first_child n' = first_child n /\ next_sibling n' = first_child np;
}.

Lemma linked_same g g' p c f : linked g g' p c -> p ∉ addrs f -> c ∉ addrs f -> forall e par hd, rep_to g e par hd f -> rep_to g' e par hd f.
Proof.
  intros L Hp Hc e par hd. apply rep_frame. intros a n Ha Hn. exists n. split; [|done]. apply (ln_other _ _ _ _ L); [| |done]; intros ->; tauto.
Qed.

Lemma rep_new_child g g' p c np nc kc ka :
  linked g g' p c -> c <> NULL -> g !! p = Some np -> g !! c = Some nc -> rep g c (first_child nc) kc -> rep g p (first_child np) ka ->
  (p ∉ addrs kc) -> (c ∉ addrs kc) -> (p ∉ addrs ka) -> (c ∉ addrs ka) -> rep g' p c (FCons c kc ka).
Proof.
  intros L H0 Hp Hc Hkc Hka N1 N2 N3 N4. cbn [rep_to]. split; [done|]. split; [done|].
  destruct (ln_child _ _ _ _ L nc np Hc Hp) as (n' & Hn' & E1 & E2 & E3). exists n'. split; [done|]. split; [done|]. rewrite E2, E3.
  split; eapply linked_same; done.
Qed.

Lemma rep_attach g g' p c nc kc f : linked g g' p c -> c <> NULL -> c <> p -> g !! c = Some nc -> rep g c (first_child nc) kc ->
  (c ∉ addrs f) -> (p ∉ addrs kc) -> (c ∉ addrs kc) -> NoDup (addrs f) -> forall e par hd, rep_to g e par hd f -> rep_to g' e par hd (attach p c kc f).
Proof.
  intros L H0 Hcp Hc Hkc. induction f as [|a k IHk s IHs]; cbn [addrs attach rep_to]; [done|].
  rewrite elem_of_cons, elem_of_app. intros Hcf Hpk Hck (Hak & Hd)%NoDup_cons e par hd (-> & Ha & n & Hn & Hp & Hk & Hs).
  apply NoDup_app in Hd as (Nk & Dk & Ns). rewrite elem_of_app in Hak. destruct (Z.eqb_spec a p) as [->|Hne].
  - split; [done|]. split; [done|]. destruct (ln_parent _ _ _ _ L n Hn) as (n' & Hn' & E1 & E2 & E3). exists n'. split; [done|].
    split; [congruence|]. rewrite E2, E3. split; [eapply rep_new_child; try done; tauto|]. eapply linked_same; [done|tauto..|done].
  - split; [done|]. split; [done|]. exists n. split; [apply (ln_other _ _ _ _ L); [done|intros ->; apply Hcf; by left|done]|]. split; [done|].
    split; [apply IHk|apply IHs]; tauto || done.
Qed.

Lemma elem_attach p c kc f x : x ∈ addrs (attach p c kc f) -> x ∈ c :: addrs kc \/ x ∈ addrs f.
Proof.
  induction f as [|a k IHk s IHs]; cbn [addrs attach]; [by right|]. destruct (a =? p); cbn [addrs].
  - rewrite !elem_of_cons, !elem_of_app, !elem_of_cons, !elem_of_app. tauto.
  - rewrite !elem_of_cons, !elem_of_app. intros [->|[H|H]]; [tauto|apply IHk in H|apply IHs in H]; rewrite elem_of_cons in H; tauto.
Qed.

Lemma attach_tree_other p c kc t : p ∉ members t -> attach_tree p c kc t = t.
Proof.
  unfold members, attach_tree. rewrite elem_of_cons. intros H. destruct t as [a k]; cbn in *.
  rewrite (proj2 (Z.eqb_neq a p)) by (intros ->; apply H; by left). by rewrite attach_other by tauto.
Qed.

Lemma attach_members p c kc t : NoDup (members t) -> p ∈ members t -> members (attach_tree p c kc t) ≡ₚ members (c, kc) ++ members t.
Proof.
  destruct t as [a k]. unfold members, attach_tree. cbn [fst snd]. intros (Hak & Hd)%NoDup_cons Hin.
  destruct (Z.eqb_spec a p) as [->|Hne]; cbn [addrs].
  - change (p :: c :: addrs kc ++ addrs k) with (p :: (c :: addrs kc) ++ addrs k). by rewrite <- Permutation_middle.
  - apply elem_of_cons in Hin as [->|Hin]; [done|]. rewrite attach_addrs by done. by rewrite <- Permutation_middle.
Qed.

Lemma tree_rep_attach g g' p c nc kc t :
  linked g g' p c -> c <> NULL -> c <> p -> g !! c = Some nc -> rep g c (first_child nc) kc ->
  (c ∉ members t) -> (p ∉ addrs kc) -> (c ∉ addrs kc) -> NoDup (members t) -> tree_rep g t -> tree_rep g' (attach_tree p c kc t).
Proof.
  intros L H0 Hcp Hc Hkc Hct Hpk Hck (Hat & Hd)%NoDup_cons (Ha & n & Hn & Hp & Hr). destruct t as [a k]. unfold members, attach_tree in *. cbn [fst snd] in *.
  rewrite elem_of_cons in Hct. split; [done|]. cbn [fst snd]. destruct (Z.eqb_spec a p) as [->|Hne].
  - destruct (ln_parent _ _ _ _ L n Hn) as (n' & Hn' & E1 & E2 & _). exists n'. split; [done|]. split; [congruence|]. rewrite E2.
    eapply rep_new_child; try done. tauto.
  - exists n. split; [apply (ln_other _ _ _ _ L); [done|intros ->; apply Hct; by left|done]|]. split; [done|]. eapply rep_attach; try done. tauto.
Qed.

(** What linking a pool under a parent does to the fields of every pool. *)
Definition same_fields (n n' : pool_node) : Prop :=
  pflags n' = pflags n /\ arenas n' = arenas n /\ arena_rr_index n' = arena_rr_index n /\
  is_multi_arena_child n' = is_multi_arena_child n /\ master_pool n' = master_pool n.

Lemma link_spec tid w c kc ts p :
  world_ok tid w ((c, kc) :: ts) -> p ∈ everyone ts ->
  exists w' ts', link_child w p c = Done w' /\ world_ok tid w' ts' /\ everyone ts' ≡ₚ members (c, kc) ++ everyone ts /\ map fst ts' = map fst ts /\
    threads w' = threads w /\ (forall x, pools w !! x = None -> pools w' !! x = None) /\
    (forall t, t ∈ ts -> p ∉ members t -> t ∈ ts') /\
    (exists n', pools w' !! c = Some n' /\ parent n' = p) /\
    (forall x n, pools w !! x = Some n -> exists n', pools w' !! x = Some n' /\ same_fields n n' /\ (x <> c -> parent n' = parent n)).
Proof.
  intros Hok Hp. pose proof Hok as [Hr Hd Ha Hb]. apply Forall_cons in Hr as [(H0 & nc & Hnc & Hcp & Hkc) Hr]. cbn [fst snd] in *.
  rewrite everyone_cons in Hd. apply NoDup_app in Hd as (Nc & Dc & Nts). unfold members in Nc, Dc. cbn [fst snd] in Nc, Dc.
  apply NoDup_cons in Nc as [Hck Nk].
  assert (Hcn : forall x, x ∈ everyone ts -> x <> c /\ x ∉ addrs kc).
  { intros x Hx. split; [intros ->; apply (Dc c); [by left|done]|]. intros Hx'. apply (Dc x); [by right|done]. }
  destruct (Hcn p Hp) as [Hpc Hpk].
  destruct (live_some _ _ _ p Hok) as [Hp0 [np Hnp]]; [rewrite everyone_cons, elem_of_app; by right|].
  unfold link_child. rewrite (ld_pool_Some _ _ _ Hnc). cbn [mbind outcome_bind]. rewrite (proj2 (Z.eqb_neq p NULL)) by done.
  rewrite (ld_pool_Some _ _ _ Hnp). cbn [mbind outcome_bind].
  set (nc' := set_links nc p (first_child nc) (first_child np)). set (w1 := set_pool w c nc').
  rewrite (ld_pool_Some w1 p np) by (cbn; by rewrite lookup_insert_ne by congruence). cbn [mbind outcome_bind].
  set (np' := set_links np (parent np) c (next_sibling np)). set (w' := set_pool w1 p np').
  assert (Gp : pools w' !! p = Some np') by (cbn; by rewrite lookup_insert_eq).
  assert (Gc : pools w' !! c = Some nc') by (cbn; rewrite lookup_insert_ne by done; by rewrite lookup_insert_eq).
  assert (Go : forall x, x <> p -> x <> c -> pools w' !! x = pools w !! x) by (intros x H1 H2; cbn; by rewrite !lookup_insert_ne by congruence).
  assert (L : linked (pools w) (pools w') p c).
  { split.
    - intros x n H1 H2. by rewrite Go.
    - intros n Hn. assert (n = np) as -> by congruence. by exists np'.
    - intros n m Hn Hm. assert (n = nc) as -> by congruence. assert (m = np) as -> by congruence. by exists nc'. }
  assert (Hfld : forall x n, pools w !! x = Some n -> exists n', pools w' !! x = Some n' /\ same_fields n n' /\ (x <> c -> parent n' = parent n)).
  { intros x n Hn. destruct (decide (x = p)) as [->|]; [exists np'; assert (n = np) as -> by congruence; done|].
    destruct (decide (x = c)) as [->|]; [exists nc'; assert (n = nc) as -> by congruence; done|]. exists n. by rewrite Go. }
  assert (Hev : everyone (map (attach_tree p c kc) ts) ≡ₚ members (c, kc) ++ everyone ts).
  { clear - Nts Hp. induction ts as [|t ts IH]; [by apply not_elem_of_nil in Hp|]. cbn [map]. rewrite !everyone_cons in *.
    apply NoDup_app in Nts as (N1 & D1 & N2). apply elem_of_app in Hp as [Hp|Hp].
    - rewrite attach_members by done. rewrite <- (assoc_L (++)). apply Permutation_app_head, Permutation_app_head.
      assert (Hno : forall t, t ∈ ts -> p ∉ members t) by (intros u Hu Hu'; apply (D1 p Hp), elem_of_everyone; eauto).
      clear - Hno. induction ts as [|u ts IH]; [done|]. cbn [map]. rewrite !everyone_cons, IH by (intros; apply Hno; by right).
      by rewrite attach_tree_other by (apply Hno; by left).
    - rewrite attach_tree_other by (intros H; by apply (D1 p)). rewrite IH by done. apply Permutation_app_swap_app. }
  assert (Hmem : forall x, x ∈ everyone (map (attach_tree p c kc) ts) <-> x ∈ everyone ((c, kc) :: ts)) by (intros x; by rewrite Hev, everyone_cons).
  exists w', (map (attach_tree p c kc) ts). split; [done|]. split; [|split; [exact Hev|split; [by rewrite map_map|split; [done|split; [|split; [|split; [by exists nc'|exact Hfld]]]]]]].
  2: { intros x Hx. rewrite Go; [done|intros ->; congruence..]. }
  2: { intros t Ht Hpt. rewrite <- (attach_tree_other p c kc t Hpt). by apply list_elem_of_fmap_2. }
  split.
  - apply Forall_forall. intros t (u & -> & Hu)%list_elem_of_fmap. rewrite Forall_forall in Hr.
    assert (Hum : forall x, x ∈ members u -> x ∈ everyone ts) by (intros x Hx; apply elem_of_everyone; eauto).
    apply (tree_rep_attach (pools w) (pools w') p c nc kc u L H0); try done; [| |by apply Hr].
    + intros Hx. apply Hum in Hx. by apply Hcn in Hx as [? _].
    + clear - Nts Hu. induction ts as [|v ts IH]; [by apply not_elem_of_nil in Hu|]. rewrite everyone_cons in Nts. apply NoDup_app in Nts as (N1 & _ & N2).
      apply elem_of_cons in Hu as [->|Hu]; [done|by apply IH].
  - rewrite Hev. apply NoDup_app. split; [by apply NoDup_cons|]. split; [exact Dc|done].
  - intros a n' x Hx Hn' Hin. assert (exists n, pools w !! a = Some n /\ arenas n = arenas n') as (n & Hn & En).
    { apply Hmem, (live_some _ _ _ _ Hok) in Hx as [_ [n Hn]]. destruct (Hfld a n Hn) as (m & Hm & (_ & E & _) & _). exists n. split; [done|congruence]. }
    rewrite <- En in Hin. destruct (Ha a n x) as [->|(Hx1 & m & Hm & Pm)]; [by apply Hmem|done|done|by left|right].
    split; [by apply Hmem|]. destruct (Hfld x m Hm) as (m' & Hm' & _ & Pm'). exists m'. split; [done|].
    destruct (decide (x = c)) as [->|Hxc]; [|by rewrite Pm'].
    exfalso. assert (m = nc) as -> by congruence. apply Hmem, (live_some _ _ _ _ Hok) in Hx as [Hx _]. congruence.
  - intros b Hb'. destruct (Hb b Hb') as (H1 & m & Hm & Hx). split; [by apply Hmem|]. destruct (Hfld _ m Hm) as (m' & Hm' & (_ & E & _) & _).
    exists m'. by rewrite E.
Qed.

Lemma create_child_ok tid w ts cs p flags :
  world_ok tid w ts -> p ∈ everyone ts -> fresh_calls w cs ->
  exists c w' cs' ts', create_child_plain w p flags cs = Done (c, w', cs') /\ world_ok tid w' ts' /\ fresh_calls w' cs' /\ map fst ts' = map fst ts /\
    everyone ts' ≡ₚ (if c =? NULL then [] else [c]) ++ everyone ts /\ threads w' = threads w /\ (forall t, t ∈ ts -> p ∉ members t -> t ∈ ts') /\
    (c <> NULL -> pools w !! c = None /\ exists n, pools w' !! c = Some n /\ parent n = p) /\
    (forall x n, pools w !! x = Some n -> exists n', pools w' !! x = Some n' /\ same_fields n n' /\ parent n' = parent n).
Proof.
  intros Hok Hp Hf. unfold create_child_plain, create_plain. destruct (next_call cs) as [c cs'] eqn:E.
  destruct (next_fresh _ _ _ _ Hf E) as [Hf' [->|(H0 & Hn & Hfn)]].
  { change (NULL =? NULL) with true. exists NULL, w, cs', ts. do 8 (split; [done|]). intros x n Hx. by exists n. }
  rewrite (proj2 (Z.eqb_neq c NULL)) by done. set (n0 := PNode flags NULL NULL NULL false NULL 0 [] 0). set (w1 := set_pool w c n0).
  pose proof (world_ok_add tid w ts c n0 Hok H0 Hn eq_refl eq_refl eq_refl) as Hok1. fold w1 in Hok1.
  destruct (link_spec tid w1 c FNil ts p Hok1 Hp) as (w' & ts' & El & Hok' & Hev & Hfst & Hth & Hdom & Hkeep & Hc & Hfld).
  cbn beta iota. rewrite (proj2 (Z.eqb_neq c NULL)) by done. rewrite El. cbn [mbind outcome_bind]. exists c, w', cs', ts'. split; [reflexivity|]. split; [exact Hok'|]. split; [eapply fresh_calls_dom; [exact Hdom|apply Hfn]|].
  split; [exact Hfst|]. rewrite (proj2 (Z.eqb_neq c NULL)) by done. split; [exact Hev|]. split; [done|]. split; [exact Hkeep|]. split; [done|].
  intros x n Hx. destruct (decide (x = c)) as [->|Hxc]; [congruence|].
  destruct (Hfld x n) as (n' & ? & ? & Hpar); [cbn; by rewrite lookup_insert_ne|]. exists n'. split; [done|]. split; [done|]. by apply Hpar.
Qed.

(** Nothing that routing depends on changes. *)
Definition same_routes (n n' : pool_node) : Prop := arenas n' = arenas n /\ parent n' = parent n /\ pflags n' = pflags n.

Lemma create_arenas_spec tid p flags numa : forall n i w ts cs,
  world_ok tid w ts -> p ∈ everyone ts -> fresh_calls w cs ->
  exists l w' cs' ts', create_arenas n i w p flags numa cs = Done (l, w', cs') /\ world_ok tid w' ts' /\ fresh_calls w' cs' /\
    map fst ts' = map fst ts /\ everyone ts' ≡ₚ filter (fun x => x <> p) l ++ everyone ts /\ List.length l = n /\ threads w' = threads w /\ (forall t, t ∈ ts -> p ∉ members t -> t ∈ ts') /\
    (forall x, x ∈ l -> x = p \/ (pools w !! x = None /\ exists m, pools w' !! x = Some m /\ parent m = p)) /\
    (forall x m, pools w !! x = Some m -> exists m', pools w' !! x = Some m' /\ same_routes m m').
Proof.
  induction n as [|n IH]; intros i w ts cs Hok Hp Hf; cbn [create_arenas].
  { exists [], w, cs, ts. do 8 (split; [done|]). split; [intros x Hx; by apply not_elem_of_nil in Hx|]. intros x m Hm. by exists m. }
  destruct (create_child_ok tid w ts cs p flags Hok Hp Hf) as (c & w1 & cs1 & ts1 & -> & Hok1 & Hf1 & Hfst1 & Hev1 & Hth1 & Hkp1 & Hc1 & Hfld1).
  cbn [mbind outcome_bind]. destruct (Z.eqb_spec c NULL) as [->|H0].
  - cbn [mbind outcome_bind]. destruct (IH (i + 1) w1 ts1 cs1 Hok1) as (l & w' & cs' & ts' & -> & Hok' & Hf' & Hfst & Hev & Hlen & Hth & Hkp & Hl & Hfld); [by rewrite Hev1|done|].
    cbn [mbind outcome_bind]. exists (p :: l), w', cs', ts'. split; [done|]. split; [done|]. split; [done|]. split; [congruence|].
    rewrite filter_cons_False by tauto. split; [by rewrite Hev, Hev1|]. split; [by cbn; rewrite Hlen|]. split; [congruence|]. split; [by auto|]. split.
    + intros x [->|Hx]%elem_of_cons; [by left|]. destruct (Hl x Hx) as [->|[Hn Hm]]; [by left|right]. split; [|done].
      destruct (pools w !! x) as [k|] eqn:Ex; [|done]. destruct (Hfld1 x k Ex) as (k' & ? & _). congruence.
    + intros x m Hm. destruct (Hfld1 x m Hm) as (m1 & Hm1 & (Ea & Eb & _) & Ep). destruct (Hfld x m1 Hm1) as (m2 & Hm2 & Ec & Ed & Ee).
      exists m2. split; [done|]. unfold same_routes. by rewrite Ec, Ed, Ee.
  - destruct (Hc1 H0) as (Hcn & nc & Hnc & Hpc). rewrite (ld_pool_Some _ _ _ Hnc). cbn [mbind outcome_bind].
    set (nc' := set_member nc p (if 1 <? numa then i mod numa else numa_node nc)). set (w2 := set_pool w1 c nc').
    assert (Hok2 : world_ok tid w2 ts1) by (by apply (world_ok_set tid w1 ts1 c nc nc')).
    assert (Hf2 : fresh_calls w2 cs1).
    { eapply fresh_calls_dom; [|exact Hf1]. intros x Hx. cbn. rewrite lookup_insert_ne; [done|]. intros <-. congruence. }
    destruct (IH (i + 1) w2 ts1 cs1 Hok2) as (l & w' & cs' & ts' & -> & Hok' & Hf' & Hfst & Hev & Hlen & Hth & Hkp & Hl & Hfld); [rewrite Hev1, elem_of_app; by right|done|].
    cbn [mbind outcome_bind]. exists (c :: l), w', cs', ts'. split; [done|]. split; [done|]. split; [done|]. split; [congruence|].
    assert (Hcp : c <> p) by (intros ->; destruct (live_some _ _ _ _ Hok Hp) as [_ [? ?]]; congruence).
    rewrite filter_cons_True by done. split.
    { rewrite Hev, Hev1. change (c :: filter (fun x => x <> p) l) with ([c] ++ filter (fun x => x <> p) l).
      rewrite (assoc_L (++)). by rewrite (Permutation_app_comm (filter _ l) [c]), <- (assoc_L (++)). }
    split; [by cbn; rewrite Hlen|]. split; [by rewrite Hth|]. split; [by auto|]. split.
    + intros x [->|Hx]%elem_of_cons.
      * right. split; [done|]. destruct (Hfld c nc') as (m & Hm & _ & Ep & _); [cbn; by rewrite lookup_insert_eq|]. exists m. split; [done|]. by rewrite Ep.
      * destruct (Hl x Hx) as [->|[Hn Hm]]; [by left|right]. split; [|done]. destruct (pools w !! x) as [k|] eqn:Ex; [|done].
        destruct (Hfld1 x k Ex) as (k' & Hk' & _). cbn in Hn. destruct (decide (x = c)) as [->|]; [congruence|]. rewrite lookup_insert_ne in Hn by done. congruence.
    + intros x m Hm. destruct (Hfld1 x m Hm) as (m1 & Hm1 & (Ea & Eb & _) & Ep).
      assert (Hxc : x <> c) by (intros ->; congruence).
      destruct (Hfld x m1) as (m2 & Hm2 & Ec & Ed & Ee); [cbn; by rewrite lookup_insert_ne|].
      exists m2. split; [done|]. unfold same_routes. by rewrite Ec, Ed, Ee.
Qed.

Lemma enable_spec tid w ts cs p num cpus numa :
  world_ok tid w ts -> p ∈ everyone ts -> fresh_calls w cs ->
  exists b w' cs' ts', mp_enable_multi_arena w p num cpus numa cs = Done (b, w', cs') /\ world_ok tid w' ts' /\ fresh_calls w' cs' /\
    map fst ts' = map fst ts /\ (exists new, everyone ts' ≡ₚ new ++ everyone ts) /\ threads w' = threads w /\ (forall t, t ∈ ts -> p ∉ members t -> t ∈ ts') /\
    (forall x m, pools w !! x = Some m -> exists m', pools w' !! x = Some m' /\ parent m' = parent m) /\
    (b = true -> exists n', pools w' !! p = Some n' /\ 0 < num_arenas n' /\
       (num_arenas n' <= MAX_ARENAS \/ exists n, pools w !! p = Some n /\ arenas n' = arenas n)).
Proof.
  intros Hok Hp Hf. destruct (live_some _ _ _ _ Hok Hp) as [H0 [n Hn]]. unfold mp_enable_multi_arena.
  rewrite (proj2 (Z.eqb_neq p NULL)) by done. rewrite (ld_pool_Some _ _ _ Hn). cbn [mbind outcome_bind].
  assert (Hid : forall b, (b = true -> 0 < num_arenas n) -> exists b' w' cs' ts', Done (b, w, cs) = Done (b', w', cs') /\ world_ok tid w' ts' /\ fresh_calls w' cs' /\
    map fst ts' = map fst ts /\ (exists new, everyone ts' ≡ₚ new ++ everyone ts) /\ threads w' = threads w /\ (forall t, t ∈ ts -> p ∉ members t -> t ∈ ts') /\
    (forall x m, pools w !! x = Some m -> exists m', pools w' !! x = Some m' /\ parent m' = parent m) /\
    (b' = true -> exists n', pools w' !! p = Some n' /\ 0 < num_arenas n' /\ (num_arenas n' <= MAX_ARENAS \/ exists n, pools w !! p = Some n /\ arenas n' = arenas n))).
  { intros b Hb. exists b, w, cs, ts. do 4 (split; [done|]). split; [by exists []|]. split; [done|]. split; [done|]. split; [intros x m Hm; by exists m|].
    intros E. exists n. split; [done|]. split; [by apply Hb|]. right. by exists n. }
  destruct (is_multi_arena_child n); [by apply Hid|]. destruct (Z.ltb_spec 0 (num_arenas n)) as [Hpos|Hzero]; [by apply Hid|].
  set (k0 := if num <=? 0 then if cpus <=? 0 then 4 else cpus else num). set (k := if MAX_ARENAS <? k0 then MAX_ARENAS else k0).
  assert (Hk : 0 < k <= MAX_ARENAS).
  { assert (0 < k0) by (subst k0; destruct (Z.leb_spec num 0); [destruct (Z.leb_spec cpus 0)|]; lia). subst k. unfold MAX_ARENAS. destruct (Z.ltb_spec 64 k0); lia. }
  destruct (next_call cs) as [arr cs1] eqn:Ec. destruct (next_fresh _ _ _ _ Hf Ec) as [Hf1 _]. destruct (Z.eqb_spec arr NULL) as [->|_].
  { exists false, w, cs1, ts. do 4 (split; [done|]). split; [by exists []|]. split; [done|]. split; [done|]. split; [intros x m Hm; by exists m|done]. }
  destruct (create_arenas_spec tid p (without_multi (pflags n)) numa (Z.to_nat k) 0 w ts cs1 Hok Hp Hf1)
    as (l & w1 & cs2 & ts1 & -> & Hok1 & Hf2 & Hfst & Hev & Hlen & Hth & Hkp & Hl & Hfld). cbn [mbind outcome_bind].
  destruct (Hfld p n Hn) as (n1 & Hn1 & Ea & Epa & _). rewrite (ld_pool_Some _ _ _ Hn1). cbn [mbind outcome_bind].
  assert (En : arenas n1 = []).
  { rewrite Ea. unfold num_arenas in Hzero. destruct (arenas n); [done|]. rewrite zlen_cons in Hzero. pose proof (zlen_nonneg l0). lia. }
  set (n2 := set_arenas n1 (Z.lor (pflags n1) MP_FLAG_MULTI_ARENA) l).
  exists true, (set_pool w1 p n2), cs2, ts1. split; [done|].
  assert (Hp1 : p ∈ everyone ts1) by (rewrite Hev, elem_of_app; by right).
  assert (Hlk : forall x m, pools w1 !! x = Some m -> exists m', pools (set_pool w1 p n2) !! x = Some m' /\ same_place m m' /\ (x <> p -> m' = m)).
  { intros x m Hm. cbn. destruct (decide (x = p)) as [->|]; [rewrite lookup_insert_eq; exists n2; assert (m = n1) as -> by congruence; done|].
    exists m. by rewrite lookup_insert_ne. }
  split; [|split; [|split; [done|split; [by eexists|split; [done|split; [exact Hkp|split]]]]]].
  - pose proof Hok1 as [R1 D1 A1 B1]. split; [|done| |].
    + eapply Forall_impl; [exact R1|]. intros t. apply tree_rep_frame. intros a m _ Hm. destruct (Hlk a m Hm) as (m' & ? & ? & _). by exists m'.
    + intros a m x Hax Hm Hx. cbn in Hm. destruct (decide (a = p)) as [->|Hap].
      * rewrite lookup_insert_eq in Hm. injection Hm as <-. cbn in Hx. destruct (Hl x Hx) as [->|(_ & m & Hm & Pm)]; [by left|].
        destruct (decide (x = p)) as [->|Hxp]; [by left|right]. split; [rewrite Hev, elem_of_app; left; by apply list_elem_of_filter|].
        exists m. cbn. by rewrite lookup_insert_ne.
      * rewrite lookup_insert_ne in Hm by done. destruct (A1 a m x Hax Hm Hx) as [->|(Hx1 & m1 & Hm1 & Pm1)]; [by left|right]. split; [done|].
        destruct (Hlk x m1 Hm1) as (m' & ? & (? & _) & _). exists m'. split; [done|congruence].
    + intros b Hb. destruct (B1 b Hb) as (Hb1 & m & Hm & Hx). split; [done|]. destruct (Hlk _ m Hm) as (m' & Hm' & _ & Eq). exists m'. split; [done|].
      destruct (decide (b_master b = p)) as [E|E]; [|by rewrite Eq]. exfalso. rewrite E in Hm. assert (m = n1) as -> by congruence. rewrite En in Hx. by apply not_elem_of_nil in Hx.
  - eapply fresh_calls_dom; [|exact Hf2]. intros x Hx. cbn. rewrite lookup_insert_ne; [done|]. intros <-. congruence.
  - intros x m Hm. destruct (Hfld x m Hm) as (m1 & Hm1 & _ & E1 & _). destruct (Hlk x m1 Hm1) as (m2 & ? & (E2 & _) & _). exists m2. split; [done|congruence].
  - intros _. exists n2. cbn. rewrite lookup_insert_eq. split; [done|]. unfold num_arenas. cbn. unfold zlen. rewrite Hlen. split; [lia|left; lia].
Qed.

Lemma world_ok_destroyed tid w w' ts t : world_ok tid w (t :: ts) -> destroyed tid (members t) w w' -> world_ok tid w' ts.
Proof.
  intros Hok D. pose proof Hok as [Hr Hd Ha Hb]. apply Forall_cons in Hr as [Ht Hr]. rewrite everyone_cons in Hd. apply NoDup_app in Hd as (N1 & Dis & N2).
  assert (Hk : forall x, x ∈ everyone ts -> pools w' !! x = pools w !! x).
  { intros x Hx. apply (destroyed_lookup _ _ _ _ x D). intros Hx'. by apply (Dis x). }
  (* a pool outside the tree has its arenas outside the tree *)
  assert (Hout : forall a x, a ∈ everyone ts -> (x = a \/ (x ∈ everyone (t :: ts) /\ exists m, pools w !! x = Some m /\ parent m = a)) -> x ∈ everyone ts).
  { intros a x Hax [->|(Hx & m & Hm & Pm)]; [done|]. rewrite everyone_cons, elem_of_app in Hx. destruct Hx as [Hx|Hx]; [exfalso|done].
    destruct Ht as (H0 & n & Hn & Pn & Hrep). unfold members in Hx. rewrite elem_of_cons in Hx. destruct Hx as [->|Hx].
    - assert (m = n) as -> by congruence. subst a. rewrite Pn in Hax. apply (live_some tid w (t :: ts) NULL) in Hok as [E _]; [done|].
      rewrite everyone_cons, elem_of_app. by right.
    - destruct (rep_nonnull _ _ _ _ _ _ Hrep Hx) as (_ & m' & Hm' & E). assert (m' = m) as -> by congruence.
      apply (Dis a); [|done]. unfold members. rewrite elem_of_cons. rewrite Pm in E. tauto. }
  split; [|done| |].
  - rewrite Forall_forall in Hr |- *. intros u Hu. eapply tree_rep_frame; [|by apply Hr]. intros a n Hau Hn. exists n.
    rewrite Hk by (apply elem_of_everyone; eauto). done.
  - intros a n x Hax Hn Hx. rewrite Hk in Hn by done. specialize (Ha a n x ltac:(rewrite everyone_cons, elem_of_app; by right) Hn Hx).
    pose proof (Hout a x Hax Ha) as Hxe. destruct Ha as [->|(_ & m & Hm & Pm)]; [by left|right]. split; [done|]. exists m. by rewrite Hk.
  - intros b Hb'. rewrite (ds_own _ _ _ _ D) in Hb'. apply list_elem_of_filter in Hb' as [[K1 K2] Hb']. destruct (Hb b Hb') as (Hm & n & Hn & Hx).
    assert (Hme : b_master b ∈ everyone ts) by (rewrite everyone_cons, elem_of_app in Hm; tauto). split; [done|]. exists n. by rewrite Hk.
Qed.

Lemma world_ok_thread tid w ts t :
  world_ok tid w ts ->
  (forall b, b ∈ arena_bindings t -> b_master b ∈ everyone ts /\ exists n, pools w !! b_master b = Some n /\ b_arena b ∈ arenas n) ->
  world_ok tid (set_thread w tid t) ts.
Proof. intros [Hr Hd Ha Hb] Ht. split; try done. intros b. rewrite thread_set. apply Ht. Qed.

Lemma find_binding_hit p l i b : find_binding p l = Some (i, b) -> l !! i = Some b /\ b_master b = p.
Proof. intros H. apply list_find_Some in H as (H1 & H2 & _). done. Qed.

(** The arena a pool's table holds at an index. *)
Lemma ld_arena_ok p i : 0 <= i < num_arenas p -> exists a, ld_arena p i = Done a /\ a ∈ arenas p.
Proof.
  intros Hi. unfold ld_arena, num_arenas, zlen in *. rewrite (proj2 (Z.ltb_ge i 0)) by lia.
  destruct (lookup_lt_is_Some_2 (arenas p) (Z.to_nat i)) as [a Ha]; [lia|]. rewrite Ha. exists a. split; [done|]. by eapply list_elem_of_lookup_2.
Qed.

Definition arena_of (w : world) (p a : Z) : Prop := a = p \/ mp_get_parent w a = Done p.

Lemma arena_live tid w ts p n a : world_ok tid w ts -> p ∈ everyone ts -> pools w !! p = Some n -> a ∈ arenas n -> a ∈ everyone ts /\ arena_of w p a.
Proof.
  intros Hok Hp Hn Ha. destruct (wk_arenas _ _ _ Hok p n a Hp Hn Ha) as [->|(Hx & m & Hm & Pm)]; [by split; [|left]|]. split; [done|right].
  destruct (live_some _ _ _ _ Hok Hx) as [H0 _]. unfold mp_get_parent. rewrite (proj2 (Z.eqb_neq a NULL)) by done.
  rewrite (ld_pool_Some _ _ _ Hm). cbn. by rewrite Pm.
Qed.

(** A thread that has a binding for [p] is sent to it, whatever CPU it runs on. *)
Lemma routed w tid p n i b cpu : p <> NULL -> pools w !! p = Some n -> 0 < num_arenas n ->
  find_binding p (arena_bindings (thread_of w tid)) = Some (i, b) -> mp_get_thread_bound_arena w tid cpu p = Done (b_arena b, w).
Proof.
  intros H0 Hn Hpos Hf. unfold mp_get_thread_bound_arena. rewrite (proj2 (Z.eqb_neq p NULL)) by done. rewrite (ld_pool_Some _ _ _ Hn).
  cbn [mbind outcome_bind]. rewrite (proj2 (Z.leb_gt _ _) Hpos). by rewrite Hf.
Qed.

Lemma find_added p l b : find_binding p l = None -> b_master b = p -> find_binding p (l ++ [b]) = Some (List.length l, b).
Proof. intros Hf Hb. unfold find_binding in *. rewrite list_find_app_r by done. cbn. by rewrite decide_True. Qed.

Definition sticky (w : world) (tid p r : Z) : Prop := forall cpu, mp_get_thread_bound_arena w tid cpu p = Done (r, w).

Lemma route_spec tid w ts p cpu :
  world_ok tid w ts -> p ∈ everyone ts ->
  exists r w', mp_get_thread_bound_arena w tid cpu p = Done (r, w') /\ world_ok tid w' ts /\ r ∈ everyone ts /\ arena_of w p r /\
    (zlen (arena_bindings (thread_of w tid)) < CMEM_MAX_TLS_BOUND_POOLS -> sticky w' tid p r).
Proof.
  intros Hok Hp. destruct (live_some _ _ _ _ Hok Hp) as [H0 [n Hn]].
  destruct (Z.leb_spec (num_arenas n) 0) as [Hle|Hpos].
  { assert (Hs : sticky w tid p p).
    { intros c. unfold mp_get_thread_bound_arena. rewrite (proj2 (Z.eqb_neq p NULL)) by done. rewrite (ld_pool_Some _ _ _ Hn). cbn [mbind outcome_bind].
      by rewrite (proj2 (Z.leb_le _ _) Hle). }
    exists p, w. split; [apply Hs|]. split; [done|]. split; [done|]. split; [by left|done]. }
  destruct (find_binding p (arena_bindings (thread_of w tid))) as [[i b]|] eqn:Hf.
  { pose proof (fun c => routed w tid p n i b c H0 Hn Hpos Hf) as Hs. exists (b_arena b), w. split; [apply Hs|]. split; [done|].
    apply find_binding_hit in Hf as [Hi Hbm]. destruct (wk_bind _ _ _ Hok b) as (_ & m & Hm & Hx); [by eapply list_elem_of_lookup_2|].
    rewrite Hbm in Hm. destruct (arena_live _ _ _ _ _ _ Hok Hp Hm Hx). split; [done|]. split; [done|]. intros _ c. apply Hs. }
  unfold mp_get_thread_bound_arena. rewrite (proj2 (Z.eqb_neq p NULL)) by done. rewrite (ld_pool_Some _ _ _ Hn).
  cbn [mbind outcome_bind]. rewrite (proj2 (Z.leb_gt _ _) Hpos), Hf.
  set (ix := if 0 <=? cpu then cpu mod num_arenas n else arena_rr_index n mod num_arenas n).
  set (w1 := if 0 <=? cpu then w else set_pool w p (set_rr n (u64 (arena_rr_index n + 1)))).
  assert (E : (if 0 <=? cpu then (cpu mod num_arenas n, w) else (arena_rr_index n mod num_arenas n, set_pool w p (set_rr n (u64 (arena_rr_index n + 1))))) = (ix, w1))
    by (subst ix w1; by destruct (0 <=? cpu)).
  rewrite E. assert (Hix : 0 <= ix < num_arenas n) by (subst ix; destruct (0 <=? cpu); by apply Z.mod_pos_bound).
  destruct (ld_arena_ok n ix Hix) as (a & -> & Ha). cbn [mbind outcome_bind]. destruct (arena_live _ _ _ _ _ _ Hok Hp Hn Ha) as [Hae Hao].
  assert (Hok1 : world_ok tid w1 ts) by (subst w1; destruct (0 <=? cpu); [done|by eapply world_ok_set]).
  assert (Hn1 : exists n1, pools w1 !! p = Some n1 /\ arenas n1 = arenas n).
  { subst w1. destruct (0 <=? cpu); [by exists n|]. exists (set_rr n (u64 (arena_rr_index n + 1))). cbn. by rewrite lookup_insert_eq. }
  destruct Hn1 as (n1 & Hn1 & En1).
  eexists a, _. split; [done|]. set (t := thread_of w tid) in *.
  assert (Et : thread_of w1 tid = t) by (subst w1 t; by destruct (0 <=? cpu)).
  split; [|split; [done|split; [done|]]].
  - apply world_ok_thread; [done|]. intros b. unfold add_binding. intros Hb.
    assert (Hb' : b ∈ arena_bindings t \/ b = Binding p a ix) by (destruct (_ <? _); cbn in Hb; [apply elem_of_app in Hb as [?|?%list_elem_of_singleton]; auto|auto]).
    destruct Hb' as [Hb'| ->]; [apply (wk_bind _ _ _ Hok1); by rewrite Et|]. cbn. split; [done|]. exists n1. by rewrite En1.
  - intros Hroom cpu'. apply (routed _ tid p n1 (List.length (arena_bindings t)) (Binding p a ix) cpu' H0); [done|unfold num_arenas in *; by rewrite En1|].
    rewrite thread_set. unfold add_binding. rewrite (proj2 (Z.ltb_lt _ _) Hroom). cbn. by apply find_added.
Qed.

Lemma bind_spec tid w ts p i :
  world_ok tid w ts -> p ∈ everyone ts ->
  exists r w', mp_bind_thread_to_arena w tid p i = Done (r, w') /\ world_ok tid w' ts /\ (r = false -> w' = w) /\
    (r = true -> exists a, mp_get_arena w' p i = Done a /\ a ∈ everyone ts /\ sticky w' tid p a).
Proof.
  intros Hok Hp. destruct (live_some _ _ _ _ Hok Hp) as [H0 [n Hn]]. unfold mp_bind_thread_to_arena, mp_get_arena.
  rewrite (proj2 (Z.eqb_neq p NULL)) by done. rewrite (ld_pool_Some _ _ _ Hn). cbn [mbind outcome_bind].
  destruct ((num_arenas n <=? 0) || (i <? 0) || (num_arenas n <=? i)) eqn:G; [by exists false, w|].
  apply orb_false_iff in G as [[G1 G2]%orb_false_iff G3]. apply Z.leb_gt in G1. apply Z.ltb_ge in G2. apply Z.leb_gt in G3.
  destruct (ld_arena_ok n i) as (a & Ea & Ha); [lia|]. rewrite Ea. cbn [mbind outcome_bind].
  destruct (arena_live _ _ _ _ _ _ Hok Hp Hn Ha) as [Hae _]. set (t := thread_of w tid) in *.
  assert (Hg : forall t', ld_pool (set_thread w tid t') p = Done n) by (intros t'; by apply ld_pool_Some).
  assert (Hbad : ((num_arenas n <=? 0) || (i <? 0) || (num_arenas n <=? i)) = false).
  { rewrite (proj2 (Z.leb_gt _ _) G1), (proj2 (Z.ltb_ge _ _) G2). by apply Z.leb_gt. }
  destruct (find_binding p (arena_bindings t)) as [[j b]|] eqn:Hf.
  - pose proof Hf as Hf0. apply list_find_Some in Hf0 as (Hj & Hbm & Hbefore). cbn in Hbm.
    eexists true, _. split; [done|]. split; [|split; [done|]].
    + apply world_ok_thread; [done|]. cbn. intros b' Hb'. apply list_elem_of_lookup in Hb' as [k Hk].
      apply list_lookup_insert_Some in Hk as [(-> & <- & _)|[_ Hk]].
      * cbn. rewrite Hbm. split; [done|]. exists n. done.
      * apply (wk_bind _ _ _ Hok). by eapply list_elem_of_lookup_2.
    + intros _. exists a. rewrite Hg. cbn [mbind outcome_bind]. rewrite Hbad. split; [done|]. split; [done|]. intros cpu.
      apply (routed (set_thread w tid _) tid p n j (Binding (b_master b) a i) cpu H0 Hn G1). rewrite thread_set. cbn. apply list_find_Some.
      split; [apply list_lookup_insert_eq; by eapply lookup_lt_Some|]. split; [done|]. intros k y Hk Hlt.
      rewrite list_lookup_insert_ne in Hk by lia. by eapply Hbefore.
  - destruct (zlen (arena_bindings t) <? CMEM_MAX_TLS_BOUND_POOLS) eqn:Hroom; [|by exists false, w].
    eexists true, _. split; [done|]. unfold add_binding. rewrite Hroom. split; [|split; [done|]].
    + apply world_ok_thread; [done|]. cbn. intros b' [Hb'|Hb'%list_elem_of_singleton]%elem_of_app; [by apply (wk_bind _ _ _ Hok)|]. subst b'. cbn.
      split; [done|]. exists n. done.
    + intros _. exists a. rewrite Hg. cbn [mbind outcome_bind]. rewrite Hbad. split; [done|]. split; [done|]. intros cpu.
      apply (routed (set_thread w tid _) tid p n (List.length (arena_bindings t)) (Binding p a i) cpu H0 Hn G1). rewrite thread_set. by apply find_added.
Qed.

Lemma roots_nodup ts : NoDup (everyone ts) -> NoDup (map fst ts).
Proof.
  induction ts as [|t ts IH]; [constructor|]. rewrite everyone_cons. intros (_ & D & N)%NoDup_app. cbn [map]. apply NoDup_cons. split; [|by apply IH].
  intros (u & E & Hu)%list_elem_of_fmap. apply (D t.1); [by left|]. apply elem_of_everyone. exists u. split; [done|]. rewrite E. by left.
Qed.

(** The root and, with MP_FLAG_MULTI_ARENA, its arenas are one new tree. *)
Lemma create_root_spec tid w ts cs flags cpus numa :
  world_ok tid w ts -> fresh_calls w cs ->
  exists a w' cs', mp_create_custom_impl w flags cpus numa cs = Done (a, w', cs') /\ fresh_calls w' cs' /\ threads w' = threads w /\
    (forall x m, pools w !! x = Some m -> exists m', pools w' !! x = Some m' /\ parent m' = parent m) /\
    (a = NULL -> w' = w) /\ (a <> NULL -> pools w !! a = None /\ exists k, world_ok tid w' ((a, k) :: ts)).
Proof.
  intros Hok Hf. unfold mp_create_custom_impl, create_plain. destruct (next_call cs) as [a cs1] eqn:E.
  destruct (next_fresh _ _ _ _ Hf E) as [Hf1 [->|(H0 & Hn & Hfn)]].
  { change (NULL =? NULL) with true. exists NULL, w, cs1. do 3 (split; [done|]). split; [intros x m Hm; by exists m|]. by split. }
  rewrite (proj2 (Z.eqb_neq a NULL)) by done. set (n0 := PNode flags NULL NULL NULL false NULL 0 [] 0). set (w1 := set_pool w a n0).
  pose proof (world_ok_add tid w ts a n0 Hok H0 Hn eq_refl eq_refl eq_refl) as Hok1. fold w1 in Hok1.
  assert (Hld : forall x m, pools w !! x = Some m -> pools w1 !! x = Some m).
  { intros x m Hm. cbn. rewrite lookup_insert_ne; [done|]. intros <-. congruence. }
  cbn beta iota. rewrite (proj2 (Z.eqb_neq a NULL)) by done. destruct (has_flag flags MP_FLAG_MULTI_ARENA).
  2: { exists a, w1, cs1. split; [done|]. split; [apply Hfn|]. split; [done|]. split; [intros x m Hm; exists m; auto|]. split; [done|].
       intros _. split; [done|]. by exists FNil. }
  destruct (enable_spec tid w1 ((a, FNil) :: ts) cs1 a 0 cpus numa Hok1) as (b & w' & cs' & ts' & -> & Hok' & Hf' & Hfst & _ & Hth & Hkp & Hpar & _);
    [by left|apply Hfn|].
  cbn [mbind outcome_bind]. exists a, w', cs'. split; [done|]. split; [done|]. split; [by rewrite Hth|]. split; [intros x m Hm; by apply Hpar, Hld|].
  split; [done|]. intros _. split; [done|]. destruct ts' as [|[a' k] ts']; [done|]. injection Hfst as -> Hfst. exists k.
  assert (Hfst' : map fst ts' = map fst ts) by exact Hfst.
  eapply world_ok_perm; [|exact Hok']. apply Permutation_skip. symmetry. apply submseteq_length_Permutation.
  - apply NoDup_submseteq; [eapply NoDup_fmap_1, roots_nodup, Hok|]. intros t Ht.
    assert (Hat : a ∉ members t).
    { intros Ha. destruct (live_some tid w ts a Hok) as [_ [? ?]]; [apply elem_of_everyone; eauto|congruence]. }
    specialize (Hkp t (list_elem_of_further _ _ _ Ht) Hat). apply elem_of_cons in Hkp as [->|?]; [|done]. exfalso. apply Hat. by left.
  - apply (f_equal (@List.length _)) in Hfst'. rewrite !length_map in Hfst'. unfold tree in *. lia.
Qed.

Lemma create_child_spec tid w ts cs env safety policy p flags cpus numa :
  world_ok tid w ts -> p ∈ everyone ts -> fresh_calls w cs ->
  exists c w' cs' ts', mp_create_child_impl env safety policy w p flags cpus numa cs = Done (c, w', cs') /\ world_ok tid w' ts' /\ fresh_calls w' cs' /\
    map fst ts' = map fst ts /\ (forall x, x ∈ everyone ts -> x ∈ everyone ts') /\
    (c = NULL -> w' = w) /\ (c <> NULL -> pools w !! c = None /\ c ∈ everyone ts' /\ mp_get_parent w' c = Done p) /\
    (forall x, x ∈ everyone ts -> mp_get_parent w' x = mp_get_parent w x).
Proof.
  intros Hok Hp Hf. unfold mp_create_child_impl, mp_create_custom.
  set (fl := if policy then mp_parse_env_flags env (cmem_resolve_default_flags safety flags) else flags).
  replace (if policy then _ else _) with (mp_create_custom_impl w fl cpus numa cs) by (subst fl; by destruct policy).
  destruct (create_root_spec tid w ts cs fl cpus numa Hok Hf) as (c & w1 & cs1 & -> & Hf1 & Hth & Hpar & Hnull & Hnew). cbn [mbind outcome_bind].
  destruct (Z.eqb_spec c NULL) as [->|H0].
  { exists NULL, w1, cs1, ts. rewrite (Hnull eq_refl) in *. do 5 (split; [done|]). done. }
  destruct (Hnew H0) as (Hcn & k & Hok1).
  destruct (link_spec tid w1 c k ts p Hok1 Hp) as (w' & ts' & -> & Hok' & Hev & Hfst & _ & Hdom & _ & (nc & Hnc & Hpc) & Hfld).
  cbn [mbind outcome_bind]. exists c, w', cs1, ts'. split; [done|]. split; [done|]. split; [by eapply fresh_calls_dom|]. split; [done|].
  split; [intros x Hx; rewrite Hev, elem_of_app; by right|]. split; [done|]. split.
  - intros _. split; [done|]. split; [rewrite Hev, elem_of_app; left; by left|]. unfold mp_get_parent. rewrite (proj2 (Z.eqb_neq c NULL)) by done.
    rewrite (ld_pool_Some _ _ _ Hnc). cbn. by rewrite Hpc.
  - intros x Hx. destruct (live_some _ _ _ _ Hok Hx) as [Hx0 [m Hm]]. unfold mp_get_parent. rewrite (proj2 (Z.eqb_neq x NULL)) by done.
    destruct (Hpar x m Hm) as (m1 & Hm1 & E1). destruct (Hfld x m1 Hm1) as (m2 & Hm2 & _ & E2).
    rewrite (ld_pool_Some _ _ _ Hm), (ld_pool_Some _ _ _ Hm2). cbn. rewrite E2, E1; [done|]. intros ->. congruence.
Qed.

(** ** What a client thread may do with its pools *)

Inductive client_op :=
  | OpCreate (flags : Z)
  | OpChild (p flags : Z)
  | OpEnable (p num : Z)
  | OpBind (p i : Z)
  | OpRoute (cpu p : Z)
  | OpDestroy (p : Z).

(** The machine a run happens on. *)
Record machine := Machine { env : option string; safety_flags : Z; cpus_online : Z; numa_nodes : Z }.

Definition client_step (m : machine) (tid : Z) (o : client_op) (w : world) (cs : calls) : outcome (Z * world * calls) :=
  match o with
  | OpCreate flags => mp_create_custom (env m) (safety_flags m) w flags (cpus_online m) (numa_nodes m) cs
  | OpChild p flags => mp_create_child (env m) (safety_flags m) w p flags (cpus_online m) (numa_nodes m) cs
  | OpEnable p num =>
      r ← mp_enable_multi_arena w p num (cpus_online m) (numa_nodes m) cs;
      let '(b, w, cs) := r in Done (Z.b2z b, w, cs)
  | OpBind p i => r ← mp_bind_thread_to_arena w tid p i; let '(b, w) := r in Done (Z.b2z b, w, cs)
  | OpRoute cpu p => r ← mp_get_thread_bound_arena w tid cpu p; let '(a, w) := r in Done (a, w, cs)
  | OpDestroy p => w ← mp_destroy_pool w tid p; Done (0, w, cs)
  end.

(** Any live pool may be used; only a root may be destroyed. *)
Definition allowed (ts : list tree) (o : client_op) : Prop :=
  match o with
  | OpCreate _ => True
  | OpChild p _ | OpEnable p _ | OpBind p _ | OpRoute _ p => p ∈ everyone ts
  | OpDestroy p => p ∈ map fst ts
  end.

(** What each operation promises, by its result [r]. *)
Definition promised (tid : Z) (o : client_op) (r : Z) (w w' : world) (ts ts' : list tree) : Prop :=
  match o with
  | OpCreate _ => (r = NULL /\ ts' = ts) \/ (pools w !! r = None /\ exists k, ts' = (r, k) :: ts)
  | OpChild p _ =>
      map fst ts' = map fst ts /\
      (r = NULL \/ (pools w !! r = None /\ r ∈ everyone ts' /\ mp_get_parent w' r = Done p)) /\
      (forall x, x ∈ everyone ts -> x ∈ everyone ts' /\ mp_get_parent w' x = mp_get_parent w x)
  | OpEnable p _ =>
      map fst ts' = map fst ts /\ (r = 1 -> exists k, mp_get_arena_count w' p = Done k /\ 0 < k /\ (k <= MAX_ARENAS \/ mp_get_arena_count w p = Done k)) /\
      (forall x, x ∈ everyone ts -> x ∈ everyone ts')
  | OpBind p i => ts' = ts /\ (r = 1 -> exists a, mp_get_arena w' p i = Done a /\ a ∈ everyone ts /\ sticky w' tid p a)
  | OpRoute _ p => ts' = ts /\ r ∈ everyone ts /\ arena_of w p r /\
      (zlen (arena_bindings (thread_of w tid)) < CMEM_MAX_TLS_BOUND_POOLS -> sticky w' tid p r)
  | OpDestroy p => exists k, ts ≡ₚ (p, k) :: ts' /\ destroyed tid (p :: addrs k) w w'
  end.

(** C14: a thread that only uses live pools and destroys only roots never goes wrong,
    whatever [calloc] and the CPU number return.  Every call comes back, the trees stay
    well formed, every binding of the thread leads to a live arena of a live pool, and the
    call keeps its promise: a new root or child is a block that held no pool and children keep
    their parents, arenas are between 1 and 64, a binding sticks until it is changed, a routed
    thread gets the pool or one of its children, and a destroyed root takes exactly its
    tree with it. *)
Theorem tree_client_safe m tid w ts cs o :
  world_ok tid w ts -> fresh_calls w cs -> allowed ts o ->
  exists r w' cs' ts', client_step m tid o w cs = Done (r, w', cs') /\ world_ok tid w' ts' /\ promised tid o r w w' ts ts'.
Proof.
  intros Hok Hf Ha. destruct o as [flags|p flags|p num|p i|cpu p|p]; cbn [client_step allowed promised] in *.
  - unfold mp_create_custom. set (fl := mp_parse_env_flags _ _).
    destruct (create_root_spec tid w ts cs fl (cpus_online m) (numa_nodes m) Hok Hf) as (a & w' & cs' & -> & _ & _ & _ & H0 & H1).
    destruct (decide (a = NULL)) as [->|Hne]; [rewrite (H0 eq_refl); exists NULL, w, cs', ts; auto|].
    destruct (H1 Hne) as (Hn & k & Hok'). exists a, w', cs', ((a, k) :: ts). split; [done|]. split; [done|]. right. split; [done|]. by exists k.
  - destruct (create_child_spec tid w ts cs (env m) (safety_flags m) true p flags (cpus_online m) (numa_nodes m) Hok Ha Hf)
      as (c & w' & cs' & ts' & E & Hok' & _ & Hfst & Hin & _ & Hc & Hp). exists c, w', cs', ts'. split; [exact E|]. split; [done|]. split; [done|].
    split; [destruct (decide (c = NULL)); auto|auto].
  - destruct (enable_spec tid w ts cs p num (cpus_online m) (numa_nodes m) Hok Ha Hf) as (b & w' & cs' & ts' & -> & Hok' & _ & Hfst & (new & Hev) & _ & _ & _ & Hb).
    exists (Z.b2z b), w', cs', ts'. split; [done|]. split; [done|]. split; [done|]. split; [|intros x Hx; rewrite Hev, elem_of_app; by right].
    intros E. destruct Hb as (n' & Hn' & Hpos & Hle); [by destruct b|]. exists (num_arenas n'). destruct (live_some _ _ _ _ Hok Ha) as [H0 _].
    unfold mp_get_arena_count. rewrite (proj2 (Z.eqb_neq p NULL)) by done. rewrite (ld_pool_Some _ _ _ Hn'). split; [done|]. split; [done|].
    destruct Hle as [?|(n & Hn & En)]; [by left|right]. rewrite (ld_pool_Some _ _ _ Hn). cbn. unfold num_arenas. by rewrite En.
  - destruct (bind_spec tid w ts p i Hok Ha) as (b & w' & -> & Hok' & _ & Hb). exists (Z.b2z b), w', cs, ts. split; [done|]. split; [done|].
    split; [done|]. intros E. apply Hb. by destruct b.
  - destruct (route_spec tid w ts p cpu Hok Ha) as (r & w' & -> & Hok' & H). exists r, w', cs, ts. done.
  - apply list_elem_of_fmap in Ha as (t & -> & Ht). apply elem_of_Permutation in Ht as [ts' Et]. pose proof (world_ok_perm _ _ _ _ Et Hok) as Hok1.
    pose proof Hok1 as [[(H0 & n & Hn & _ & Hr) _]%Forall_cons Hd _ _]. rewrite everyone_cons in Hd. apply NoDup_app in Hd as (Nt & _ & _).
    destruct (destroy_total w tid t.1 n t.2 H0 Hn Hr Nt) as (w' & -> & D). exists 0, w', cs, ts'. split; [done|].
    split; [by eapply world_ok_destroyed|]. exists t.2. by destruct t.
Qed.

(** ** Concrete runs *)

Definition then_step (m : machine) (r : outcome (Z * world * calls)) (tid : Z) (o : client_op) (cs : calls) : outcome (Z * world * calls) :=
  r ← r; let '(_, w, _) := r in client_step m tid o w cs.

Definition plain_machine : machine := Machine None 0 2 1.
Definition no_pools : world := World ∅ ∅.
Definition world_after (r : outcome (Z * world * calls)) : world := match r with Done (_, w, _) => w | _ => no_pools end.

(** A root at 100 with the children 300 and 200. *)
Definition family : world :=
  world_after (then_step plain_machine (then_step plain_machine (client_step plain_machine 1 (OpCreate 0) no_pools [Some 100])
    1 (OpChild 100 0) [Some 200]) 1 (OpChild 100 0) [Some 300]).

Lemma family_rep : rep (pools family) 100 300 (FCons 300 FNil (FCons 200 FNil FNil)).
Proof.
  cbn [rep_to]. split; [done|]. split; [done|]. eexists. split; [vm_compute; reflexivity|]. split; [done|]. split; [done|].
  split; [done|]. split; [done|]. eexists. split; [vm_compute; reflexivity|]. done.
Qed.

Lemma destroy_spec_witness : exists w', mp_destroy_pool family 1 100 = Done w' /\ destroyed 1 [100; 300; 200] family w'.
Proof.
  eapply (destroy_spec family 1 100 _ (FCons 300 FNil (FCons 200 FNil FNil))); [done|vm_compute; reflexivity|apply family_rep|].
  apply (bool_decide_unpack _). vm_compute. reflexivity.
Defined.

Lemma destroy_child_then_parent_witness : exists w1, mp_destroy_pool family 1 200 = Done w1 /\ forall tid fuel, mp_destroy fuel w1 tid 100 = Fault.
Proof.
  eexists. split; [vm_compute; reflexivity|].
  eapply (destroy_child_then_parent family 1 100 _ 200 _ (FCons 300 FNil FNil) FNil FNil);
    [vm_compute; reflexivity|done| | | |vm_compute; reflexivity|done|vm_compute; reflexivity].
  - cbn. split; [done|]. split; [done|]. eexists. split; [vm_compute; reflexivity|]. done.
  - cbn. split; [done|]. split; [done|]. eexists. split; [vm_compute; reflexivity|]. done.
  - apply (bool_decide_unpack _). vm_compute. reflexivity.
Defined.

Definition four_blocks : calls := [Some 100; Some 200; Some 300; Some 400].

(** A pool with an arena per CPU, and its end. *)
Lemma tree_client_safe_witness :
  exists w1 ts1 w2, client_step plain_machine 1 (OpCreate MP_FLAG_MULTI_ARENA) no_pools four_blocks = Done (100, w1, []) /\
    world_ok 1 w1 ts1 /\ client_step plain_machine 1 (OpDestroy 100) w1 [] = Done (0, w2, []) /\ world_ok 1 w2 [].
Proof.
  destruct (tree_client_safe plain_machine 1 no_pools [] four_blocks (OpCreate MP_FLAG_MULTI_ARENA)) as (r & w1 & cs & ts1 & E & Hok & Hp);
    [apply world_ok_empty|split; apply (bool_decide_unpack _); vm_compute; reflexivity|done|].
  assert (Er : r = 100 /\ cs = []) by (vm_compute in E; injection E as <- _ <-; done). destruct Er as [-> ->].
  destruct Hp as [[? _]|[_ [k ->]]]; [done|]. exists w1, [(100, k)].
  destruct (tree_client_safe plain_machine 1 w1 [(100, k)] [] (OpDestroy 100)) as (r & w2 & cs & ts2 & E2 & Hok2 & Hp2); [done|split; constructor|by left|].
  destruct Hp2 as (k2 & Hk2 & _). exists w2. split; [exact E|]. split; [exact Hok|].
  assert (Er : r = 0 /\ cs = []).
  { cbn [client_step] in E2. destruct (mp_destroy_pool w1 1 100); [|done..]. injection E2 as <- _ <-. done. }
  destruct Er as [-> ->]. split; [exact E2|].
  assert (ts2 = []) as <-; [|exact Hok2].
  apply Permutation_length in Hk2. destruct ts2; [done|]. cbn in Hk2. lia.
Defined.

(** Thread 2 was routed to the arena 300 of the pool 100.  Thread 1 destroys the pool, and a
    later pool gets its address: thread 2 is still sent to 300, which is gone. *)
Definition reused : world :=
  world_after (then_step plain_machine (then_step plain_machine (then_step plain_machine
    (client_step plain_machine 1 (OpCreate MP_FLAG_MULTI_ARENA) no_pools four_blocks) 2 (OpRoute 0 100) [])
    1 (OpDestroy 100) []) 1 (OpCreate MP_FLAG_MULTI_ARENA) [Some 100; Some 500; Some 600; Some 700]).

Example stale_binding_of_another_thread : mp_get_thread_bound_arena reused 2 0 100 = Done (300, reused) /\ pools reused !! 300 = None.
Proof. vm_compute. done. Qed.
