(* ===== verification/Remote.v ===== *)
(** * Lock-free lists under interleaving

    The remote-free queue of one size class ([remote_free_push], [remote_free_harvest],
    [remote_free_harvest_all] of [src/cmem_slab.c]) and the per-CPU pop, with every atomic
    access and every store to a slot's link its own step, for any number of threads under
    any schedule (sequentially consistent atomics). *)
From S2P Require Import Prelude Dll Header.
From Stdlib Require Import ZArith Lia.
From stdpp Require Import base option list gmap.
Open Scope Z_scope.

(** ** The remote-free queue *)

(** What a thread calls. *)
Inductive rop := Push (slot : Z) | Harvest | HarvestAll.

(** Where it is inside the call. *)
Inductive rpc :=
  | Idle
  | PushLink (slot old : Z)      (* about to write [slot->next = old] *)
  | PushCas (slot old : Z)       (* about to compare-and-exchange the head *)
  | PushPending                  (* about to set [remote_free_pending] *)
  | PushPendingClass             (* about to set [remote_free_pending_class] *)
  | AllClear                     (* about to clear [remote_free_pending] *)
  | AllClass                     (* about to load [remote_free_pending_class] *)
  | HarvClear                    (* about to clear [remote_free_pending_class] *)
  | HarvExchange.                (* about to exchange the head with 0 *)

Record thread := Thread { pc : rpc; todo : list rop }.

Record rstate := RState {
  head : Z;                     (* remote_free_queue[class] *)
  pending : bool;               (* remote_free_pending *)
  pending_class : bool;         (* remote_free_pending_class[class] *)
  next : gmap Z Z;              (* slot->next *)
  harvested : list Z;           (* slots handed to [slab_free_nolock] *)
  threads : list thread;
}.

(** The slots of an exchanged list that are freed, in order: the loop breaks at the first
    one that is misaligned or low, and what is behind it is dropped. *)
Fixpoint walk (fuel : nat) (g : gmap Z Z) (slot : Z) : outcome (list Z) :=
  match fuel with
  | O => Fault
  | S fuel =>
      if slot =? NULL then Done []
      else if bad_slot slot then Done []
      else n ← ld g slot; l ← walk fuel g n; Done (slot :: l)
  end.

Definition set_thread (s : rstate) (t : nat) (th : thread) : rstate :=
  RState (head s) (pending s) (pending_class s) (next s) (harvested s) (<[t := th]> (threads s)).

(** One atomic step of thread [t]. *)
Definition rstep (t : nat) (s : rstate) : outcome rstate :=
  match threads s !! t with
  | None => Done s
  | Some (Thread p ops) =>
      let goto p := set_thread s t (Thread p ops) in
      match p with
      | Idle =>
          match ops with
          | [] => Done s
          | Push x :: ops =>
              (* old_head = load(headp) *)
              Done (set_thread s t (Thread (if x =? NULL then Idle else PushLink x (head s)) ops))
          | Harvest :: ops =>
              Done (set_thread s t (Thread (if pending_class s then HarvClear else Idle) ops))
          | HarvestAll :: ops =>
              Done (set_thread s t (Thread (if pending s then AllClear else Idle) ops))
          end
      | PushLink x old =>
          g ← st (next s) x old;
          Done (RState (head s) (pending s) (pending_class s) g (harvested s) (<[t := Thread (PushCas x old) ops]> (threads s)))
      | PushCas x old =>
          if head s =? old then
            Done (RState x (pending s) (pending_class s) (next s) (harvested s) (<[t := Thread PushPending ops]> (threads s)))
          else Done (goto (PushLink x (head s)))
      | PushPending =>
          Done (RState (head s) true (pending_class s) (next s) (harvested s) (<[t := Thread PushPendingClass ops]> (threads s)))
      | PushPendingClass =>
          Done (RState (head s) (pending s) true (next s) (harvested s) (<[t := Thread Idle ops]> (threads s)))
      | AllClear =>
          Done (RState (head s) false (pending_class s) (next s) (harvested s) (<[t := Thread AllClass ops]> (threads s)))
      | AllClass => Done (goto (if pending_class s then HarvClear else Idle))
      | HarvClear =>
          Done (RState (head s) (pending s) false (next s) (harvested s) (<[t := Thread HarvExchange ops]> (threads s)))
      | HarvExchange =>
          l ← walk (S (base.size (next s))) (next s) (head s);
          Done (RState NULL (pending s) (pending_class s) (next s) (harvested s ++ l) (<[t := Thread Idle ops]> (threads s)))
      end
  end.

Fixpoint rrun (sched : list nat) (s : rstate) : outcome rstate :=
  match sched with
  | [] => Done s
  | t :: sched => s ← rstep t s; rrun sched s
  end.

(** ** Nothing is lost *)

(** Slots a thread still has to publish. *)
Definition op_slots (o : rop) : list Z := match o with Push x => [x] | _ => [] end.
Definition pc_slots (p : rpc) : list Z := match p with PushLink x _ | PushCas x _ => [x] | _ => [] end.
Definition thread_slots (th : thread) : list Z := pc_slots (pc th) ++ concat (map op_slots (todo th)).
Definition unpublished (s : rstate) : list Z := concat (map thread_slots (threads s)).

(** A thread between its compare-and-exchange and its last flag store, or past the flag
    and before the exchange: the queue will be seen. *)
Definition will_see (th : thread) : Prop := pc th = PushPending \/ pc th = PushPendingClass \/ pc th = HarvExchange.

Record rinv (all : list Z) (s : rstate) (Q : list Z) : Prop := {
  ri_queue : sll (next s) (head s) Q;
  ri_all : Q ++ harvested s ++ unpublished s ≡ₚ all;
  ri_linked : forall t x old ops, threads s !! t = Some (Thread (PushCas x old) ops) -> next s !! x = Some old;
  ri_seen : Q <> [] -> pending_class s = true \/ exists t th, threads s !! t = Some th /\ will_see th;
}.

(** An address of a slot: aligned, above the first 64 KiB, with a link word. *)
Definition linked_slot (g : gmap Z Z) (x : Z) : Prop := bad_slot x = false /\ is_Some (g !! x).

(** The slots to be freed: distinct slots with a link word. *)
Definition slots_ok (all : list Z) (s : rstate) : Prop := NoDup all /\ (forall x, x ∈ all -> linked_slot (next s) x).

Lemma linked_slot_pos g x : linked_slot g x -> x <> NULL.
Proof. intros [Hb _] ->. by vm_compute in Hb. Qed.

Lemma unpublished_update s t th th' :
  threads s !! t = Some th ->
  exists R, concat (map thread_slots (threads s)) ≡ₚ thread_slots th ++ R /\
    concat (map thread_slots (<[t := th']> (threads s))) ≡ₚ thread_slots th' ++ R.
Proof.
  intros Ht. pose proof (take_drop_middle _ _ _ Ht) as E. set (A := take t (threads s)) in *. set (B := drop (S t) (threads s)) in *.
  assert (Hl : (t < length (threads s))%nat) by (eapply lookup_lt_Some; exact Ht).
  exists (concat (map thread_slots A) ++ concat (map thread_slots B)). split.
  - rewrite <- E, map_app, concat_app. cbn. by rewrite Permutation_app_swap_app.
  - rewrite insert_take_drop by done. fold A B. rewrite map_app, concat_app. cbn. by rewrite Permutation_app_swap_app.
Qed.

(** The prefix before the first bad slot. *)
Fixpoint good_prefix (l : list Z) : list Z :=
  match l with [] => [] | x :: l => if bad_slot x then [] else x :: good_prefix l end.

Lemma walk_prefix g q l : sll g q l -> forall fuel, (length l < fuel)%nat -> walk fuel g q = Done (good_prefix l).
Proof.
  revert q. induction l as [|x l IH]; intros q Hs fuel Hf; (destruct fuel as [|fuel]; [cbn in Hf; lia|]); cbn [walk good_prefix].
  - cbn in Hs. subst q. done.
  - destruct Hs as (-> & Hx & n & Hn & Hs). rewrite (proj2 (Z.eqb_neq x NULL)) by done. destruct (bad_slot x); [done|].
    rewrite (ld_Some _ _ _ Hn). cbn [mbind outcome_bind]. rewrite (IH n Hs) by (cbn in Hf; lia). done.
Qed.

Lemma good_prefix_all l : (forall x, x ∈ l -> bad_slot x = false) -> good_prefix l = l.
Proof.
  induction l as [|x l IH]; intros H; [done|]. cbn [good_prefix]. rewrite (H x) by apply list_elem_of_here.
  rewrite IH; [done|]. intros y Hy. apply H. by apply list_elem_of_further.
Qed.

(** A queue of slots all of which are good is taken whole. *)
Lemma walk_queue all s Q :
  sll (next s) (head s) Q -> slots_ok all s -> (forall x, x ∈ Q -> x ∈ all) -> NoDup Q ->
  walk (S (base.size (next s))) (next s) (head s) = Done Q.
Proof.
  intros Hs [_ Hok] Hin Hd. rewrite (walk_prefix _ _ Q Hs); [|pose proof (sll_length _ _ _ Hs Hd); lia].
  rewrite good_prefix_all; [done|]. intros x Hx. by apply Hok, Hin.
Qed.

Lemma lookup_set ths t th u (th' : thread) :
  (t < length ths)%nat -> <[t := th]> ths !! u = Some th' -> (u = t /\ th' = th) \/ (u <> t /\ ths !! u = Some th').
Proof.
  intros Hl. destruct (decide (u = t)) as [->|Hne].
  - rewrite list_lookup_insert_eq by done. intros [= <-]. by left.
  - rewrite list_lookup_insert_ne by done. by right.
Qed.

(** A step that only moves thread [t] and the flags. *)
Lemma rinv_move all s Q t th th' (pd pc' : bool) :
  rinv all s Q -> threads s !! t = Some th -> thread_slots th' ≡ₚ thread_slots th ->
  (forall x old ops, th' = Thread (PushCas x old) ops -> next s !! x = Some old) ->
  (Q <> [] -> pc' = true \/ will_see th' \/
     (exists u thu, u <> t /\ threads s !! u = Some thu /\ will_see thu)) ->
  rinv all (RState (head s) pd pc' (next s) (harvested s) (<[t := th']> (threads s))) Q.
Proof.
  intros [Hq Ha Hl Hs] Ht Hsl Hlink Hseen. assert (Hlt : (t < length (threads s))%nat) by (eapply lookup_lt_Some; exact Ht).
  destruct (unpublished_update s t th th' Ht) as (R & E1 & E2). constructor; cbn; try done.
  - unfold unpublished in *. cbn. rewrite E2, Hsl, <- E1. done.
  - intros u x old ops Hu. apply lookup_set in Hu as [[-> E]|[_ Hu]]; [by eapply Hlink|by eapply Hl|done].
  - intros HQ. destruct (Hseen HQ) as [Hc|[Hw|(u & thu & Hne & Hu & Hw)]]; [by left| |]; right.
    + exists t, th'. by rewrite list_lookup_insert_eq.
    + exists u, thu. by rewrite list_lookup_insert_ne.
Qed.

(** The seen condition when the moving thread was not one that will see the queue. *)
Lemma seen_keep all s Q t th :
  rinv all s Q -> threads s !! t = Some th -> ~ will_see th ->
  Q <> [] -> pending_class s = true \/ exists u thu, u <> t /\ threads s !! u = Some thu /\ will_see thu.
Proof.
  intros [_ _ _ Hs] Ht Hn HQ. destruct (Hs HQ) as [Hc|(u & thu & Hu & Hw)]; [by left|]. right. exists u, thu.
  split; [|done]. intros ->. rewrite Ht in Hu. injection Hu as <-. done.
Qed.

Ltac not_seer := intros [H|[H|H]]; cbn in H; discriminate H.

Lemma fresh_slot all s Q t th x :
  rinv all s Q -> slots_ok all s -> threads s !! t = Some th -> x ∈ thread_slots th ->
  (x ∉ Q) /\ x ∈ all /\ (forall u y old ops, u <> t -> threads s !! u = Some (Thread (PushCas y old) ops) -> y <> x).
Proof.
  intros [Hq Ha Hl Hs] [Hnd Hok] Ht Hx. destruct (unpublished_update s t th th Ht) as (R & E1 & _).
  unfold unpublished in Ha. assert (Hin : x ∈ concat (map thread_slots (threads s))) by (rewrite E1; apply elem_of_app; by left).
  rewrite <- Ha in Hnd. pose proof (proj1 (NoDup_app _ _) Hnd) as (_ & D2 & D3). apply NoDup_app in D3 as (_ & _ & D4). split_and!.
  - intros HQ. apply (D2 x HQ). rewrite elem_of_app. by right.
  - rewrite <- Ha, !elem_of_app. auto.
  - intros u y old ops Hne Hu ->.
    set (ths := <[t := Thread Idle []]> (threads s)).
    assert (Hu' : ths !! u = Some (Thread (PushCas x old) ops)) by (unfold ths; by rewrite list_lookup_insert_ne).
    destruct (unpublished_update s t th (Thread Idle []) Ht) as (R' & E3 & E4). rewrite E3 in D4. cbn in E4.
    apply NoDup_app in D4 as (_ & D5 & _). apply (D5 x Hx). rewrite <- E4. fold ths.
    apply list_elem_of_In, in_concat. exists (thread_slots (Thread (PushCas x old) ops)). split.
    + apply in_map. apply list_elem_of_In. by eapply list_elem_of_lookup_2.
    + cbn. by left.
Qed.

Lemma rinv_write all s Q t x old ops v :
  rinv all s Q -> slots_ok all s -> threads s !! t = Some (Thread (PushLink x old) ops) ->
  rinv all (RState (head s) (pending s) (pending_class s) (<[x := v]> (next s)) (harvested s) (threads s)) Q /\
  slots_ok all (RState (head s) (pending s) (pending_class s) (<[x := v]> (next s)) (harvested s) (threads s)).
Proof.
  intros Hi Hok Ht. destruct (fresh_slot _ _ _ _ _ x Hi Hok Ht (list_elem_of_here _ _)) as (HxQ & Hxa & Hother).
  destruct Hi as [Hq Ha Hl Hs]. split; [constructor; cbn; try done|].
  - eapply sll_frame; [|exact Hq]. intros y Hy. rewrite lookup_insert_ne; [done|]. by intros ->.
  - intros u y o ops' Hu. destruct (decide (u = t)) as [->|Hne]; [rewrite Ht in Hu; discriminate Hu|].
    rewrite lookup_insert_ne; [by eapply Hl|]. intros E. by apply (Hother u y o ops').
  - destruct Hok as [Hnd Hok]. split; [done|]. intros y Hy. destruct (Hok y Hy) as [? ?]. split; [done|]. cbn.
    destruct (decide (y = x)) as [->|]; [rewrite lookup_insert_eq|rewrite lookup_insert_ne]; eauto.
Qed.

Lemma rinv_publish all s Q t x ops :
  rinv all s Q -> slots_ok all s -> threads s !! t = Some (Thread (PushCas x (head s)) ops) ->
  rinv all (RState x (pending s) (pending_class s) (next s) (harvested s) (<[t := Thread PushPending ops]> (threads s))) (x :: Q).
Proof.
  intros Hi Hok Ht. destruct (fresh_slot _ _ _ _ _ x Hi Hok Ht (list_elem_of_here _ _)) as (HxQ & Hxa & _).
  destruct Hi as [Hq Ha Hl Hs]. assert (Hlt : (t < length (threads s))%nat) by (eapply lookup_lt_Some; exact Ht).
  destruct (unpublished_update s t _ (Thread PushPending ops) Ht) as (R & E1 & E2). constructor; cbn [head next harvested threads].
  - split; [done|]. split; [by eapply linked_slot_pos, Hok|]. exists (head s). split; [by eapply Hl|done].
  - rewrite <- Ha. unfold unpublished. cbn [threads]. rewrite E1, E2. cbn. rewrite !(app_assoc Q). apply Permutation_middle.
  - intros u y old ops' Hu. apply lookup_set in Hu as [[-> E]|[_ Hu]]; [done|by eapply Hl|done].
  - intros _. right. exists t, (Thread PushPending ops). rewrite list_lookup_insert_eq by done. split; [done|by left].
Qed.

Lemma rinv_take all s Q t ops :
  rinv all s Q -> threads s !! t = Some (Thread HarvExchange ops) ->
  rinv all (RState NULL (pending s) (pending_class s) (next s) (harvested s ++ Q) (<[t := Thread Idle ops]> (threads s))) [].
Proof.
  intros [Hq Ha Hl Hs] Ht. assert (Hlt : (t < length (threads s))%nat) by (eapply lookup_lt_Some; exact Ht).
  destruct (unpublished_update s t _ (Thread Idle ops) Ht) as (R & E1 & E2). constructor; cbn; try done.
  - rewrite <- Ha. unfold unpublished. cbn [threads]. rewrite E1, E2. cbn. rewrite !app_assoc. do 2 apply Permutation_app_tail.
    apply Permutation_app_comm.
  - intros u y old ops' Hu. apply lookup_set in Hu as [[-> E]|[_ Hu]]; [done|by eapply Hl|done].
Qed.

Lemma rstep_inv all s Q t :
  rinv all s Q -> slots_ok all s ->
  exists s' Q', rstep t s = Done s' /\ rinv all s' Q' /\ slots_ok all s'.
Proof.
  intros Hi Hok. unfold rstep. destruct (threads s !! t) as [[p ops]|] eqn:Ht; [|by eexists _, _].
  assert (Hseen : ~ will_see (Thread p ops) -> Q <> [] ->
      pending_class s = true \/ exists u thu, u <> t /\ threads s !! u = Some thu /\ will_see thu).
  { intros Hn. eapply seen_keep; [exact Hi|exact Ht|done]. }
  destruct p; cbn zeta.
  - destruct ops as [|[x| |] ops]; [by eexists _, _| | |].
    + assert (Hx : x <> NULL).
      { destruct (fresh_slot _ _ _ _ _ x Hi Hok Ht) as (_ & Hx & _); [|by eapply linked_slot_pos, Hok].
        cbn. apply list_elem_of_here. }
      rewrite (proj2 (Z.eqb_neq x NULL)) by done. eexists _, Q. split; [done|]. split; [|done].
      eapply rinv_move; try done. intros HQ. destruct (Hseen ltac:(not_seer) HQ); auto.
    + eexists _, Q. split; [done|]. split; [|done]. destruct (pending_class s) eqn:Ec; eapply rinv_move; try done;
        intros HQ; rewrite ?Ec in *; auto. destruct (Hseen ltac:(not_seer) HQ); auto.
    + eexists _, Q. split; [done|]. split; [|done]. destruct (pending s) eqn:Ec; eapply rinv_move; try done;
        intros HQ; destruct (Hseen ltac:(not_seer) HQ); auto.
  - destruct (fresh_slot _ _ _ _ _ slot Hi Hok Ht (list_elem_of_here _ _)) as (_ & Hx & _).
    rewrite (st_is_Some _ _ _ (proj2 (proj2 Hok _ Hx))). cbn [mbind outcome_bind]. eexists _, Q. split; [done|].
    destruct (rinv_write _ _ _ _ _ _ _ old Hi Hok Ht) as [Hi2 Hok2]. split; [|done].
    eapply (rinv_move all _ Q t _ _ _ _ Hi2); try done.
    + cbn. intros x o ops' [= <- <- <-]. by rewrite lookup_insert_eq.
    + intros HQ. destruct (Hseen ltac:(not_seer) HQ); auto.
  - destruct (Z.eqb_spec (head s) old) as [<-|Hne].
    + eexists _, _. split; [done|]. split; [by apply rinv_publish|done].
    + eexists _, Q. split; [done|]. split; [|done]. eapply rinv_move; try done.
      intros HQ. destruct (Hseen ltac:(not_seer) HQ); auto.
  - eexists _, Q. split; [done|]. split; [|done]. eapply rinv_move; try done. intros _. right. left. right. by left.
  - eexists _, Q. split; [done|]. split; [|done]. eapply rinv_move; try done. intros _. by left.
  - eexists _, Q. split; [done|]. split; [|done]. eapply rinv_move; try done.
    intros HQ. destruct (Hseen ltac:(not_seer) HQ); auto.
  - eexists _, Q. split; [done|]. split; [|done]. destruct (pending_class s) eqn:Ec; eapply rinv_move; try done;
      intros HQ; rewrite ?Ec in *; auto. destruct (Hseen ltac:(not_seer) HQ); auto.
  - eexists _, Q. split; [done|]. split; [|done]. eapply rinv_move; try done. intros _. right. left. right. by right.
  - assert (Hw : walk (S (base.size (next s))) (next s) (head s) = Done Q).
    { pose proof (ri_all _ _ _ Hi) as Ha. eapply walk_queue; [apply Hi|done| |].
      - intros x Hx. rewrite <- Ha. apply elem_of_app. by left.
      - pose proof (proj1 Hok) as Hd. rewrite <- Ha in Hd. by apply NoDup_app in Hd as [? _]. }
    rewrite Hw. cbn [mbind outcome_bind]. eexists _, []. split; [done|]. split; [by eapply rinv_take|done].
Qed.

(** Before any thread has run. *)
Definition rinit (g : gmap Z Z) (progs : list (list rop)) : rstate :=
  RState NULL false false g [] (map (Thread Idle) progs).

Definition pushed (progs : list (list rop)) : list Z := concat (map (fun ops => concat (map op_slots ops)) progs).

Lemma rinit_inv g progs :
  NoDup (pushed progs) -> (forall x, x ∈ pushed progs -> linked_slot g x) ->
  rinv (pushed progs) (rinit g progs) [] /\ slots_ok (pushed progs) (rinit g progs).
Proof.
  intros Hd Hx. split; [|by split]. constructor; cbn; try done.
  - unfold unpublished, pushed, rinit. cbn [threads]. by rewrite map_map.
  - intros t x old ops Ht. rewrite list_lookup_fmap in Ht. by destruct (progs !! t).
Qed.

Lemma rrun_inv all sched s Q :
  rinv all s Q -> slots_ok all s -> exists s' Q', rrun sched s = Done s' /\ rinv all s' Q' /\ slots_ok all s'.
Proof.
  revert s Q. induction sched as [|t sched IH]; intros s Q Hi Hok; cbn [rrun]; [by eexists _, _|].
  destruct (rstep_inv _ _ _ t Hi Hok) as (s1 & Q1 & -> & Hi1 & Hok1). cbn [mbind outcome_bind]. by eapply IH.
Qed.

(** C9: whatever the interleaving of any number of threads freeing slots to the queue and
    harvesting it, no atomic step touches an unmapped link, and every slot being freed is
    at each moment in exactly one place: still on its way in, on the queue, or already
    harvested.  None is lost and none is harvested twice.  The slots are addresses a slab
    page can hold (aligned, above 64 KiB); at any other the harvest breaks off, and loses
    what is behind it ([bad_slot_loses_queue]). *)
Theorem remote_queue_conserves g progs sched :
  NoDup (pushed progs) -> (forall x, x ∈ pushed progs -> linked_slot g x) ->
  exists s Q, rrun sched (rinit g progs) = Done s /\ sll (next s) (head s) Q /\
    Q ++ harvested s ++ unpublished s ≡ₚ pushed progs.
Proof.
  intros Hd Hx. destruct (rinit_inv g progs Hd Hx) as [Hi Hok].
  destruct (rrun_inv _ sched _ _ Hi Hok) as (s & Q & E & Hi' & _). exists s, Q.
  split; [done|]. split; [apply Hi'|apply (ri_all _ _ _ Hi')].
Qed.

Definition finished (th : thread) : Prop := th = Thread Idle [].

Lemma finished_slots l : Forall finished l -> concat (map thread_slots l) = [].
Proof. induction 1 as [|th l -> _ IH]; [done|]. cbn. done. Qed.

(** C19: a harvest of the class that starts when every push has returned takes everything:
    after its steps the queue is empty and every slot ever pushed has been harvested - the
    class's pending flag cannot have been left down with slots queued.  The slots are
    addresses a slab page can hold. *)
Theorem remote_harvest_complete g progs sched s h :
  NoDup (pushed progs) -> (forall x, x ∈ pushed progs -> linked_slot g x) ->
  rrun sched (rinit g progs) = Done s -> threads s !! h = Some (Thread Idle [Harvest]) ->
  (forall t th, t <> h -> threads s !! t = Some th -> finished th) ->
  exists s', rrun [h; h; h] s = Done s' /\ head s' = NULL /\ harvested s' ≡ₚ pushed progs.
Proof.
  intros Hd Hx E Hh Hdone. destruct (rinit_inv g progs Hd Hx) as [Hi0 Hok0].
  destruct (rrun_inv _ sched _ _ Hi0 Hok0) as (s1 & Q & E1 & Hi & Hok). rewrite E in E1. injection E1 as <-.
  assert (Hlt : (h < length (threads s))%nat) by (eapply lookup_lt_Some; exact Hh).
  assert (Hnone : unpublished s = []).
  { unfold unpublished. rewrite <- (take_drop_middle _ _ _ Hh), map_app, concat_app. cbn.
    rewrite !finished_slots; [done| |]; apply Forall_lookup; intros u th Hu.
    - rewrite lookup_drop in Hu. apply (Hdone (S h + u)%nat); [lia|done].
    - apply lookup_take_Some in Hu as [Hu Hlu]. apply (Hdone u); [lia|done]. }
  pose proof (ri_all _ _ _ Hi) as Ha. rewrite Hnone, app_nil_r in Ha. cbn [rrun].
  destruct (pending_class s) eqn:Ec.
  - assert (E1 : rstep h s = Done (set_thread s h (Thread HarvClear []))) by (unfold rstep; by rewrite Hh, Ec).
    rewrite E1. cbn [mbind outcome_bind].
    set (s2 := RState (head s) (pending s) false (next s) (harvested s) (<[h := Thread HarvExchange []]> (threads s))).
    assert (E2 : rstep h (set_thread s h (Thread HarvClear [])) = Done s2).
    { unfold rstep, set_thread. cbn [threads]. rewrite list_lookup_insert_eq by done.
      cbn [head pending pending_class next harvested threads]. by rewrite list_insert_insert_eq. }
    rewrite E2. cbn [mbind outcome_bind].
    unfold rstep at 1. unfold s2 at 1. cbn [threads]. rewrite list_lookup_insert_eq by done.
    assert (Hw : walk (S (base.size (next s2))) (next s2) (head s2) = Done Q).
    { apply (walk_queue (pushed progs) s Q); [apply Hi|done| |].
      - intros x Hx'. rewrite <- Ha. apply elem_of_app. by left.
      - rewrite <- Ha in Hd. by apply NoDup_app in Hd as [? _]. }
    rewrite Hw. cbn [mbind outcome_bind]. eexists. split; [done|]. cbn. split; [done|].
    rewrite <- Ha. apply Permutation_app_comm.
  - assert (HQ : Q = []).
    { destruct Q as [|x Q]; [done|]. exfalso. destruct (ri_seen _ _ _ Hi ltac:(done)) as [Hc|(u & th & Hu & Hw)]; [congruence|].
      destruct (decide (u = h)) as [->|Hne]; [rewrite Hh in Hu; injection Hu as <-; revert Hw; not_seer|].
      rewrite (Hdone u th Hne Hu) in Hw. revert Hw. not_seer. }
    subst Q. assert (E1 : rstep h s = Done (set_thread s h (Thread Idle []))) by (unfold rstep; by rewrite Hh, Ec).
    assert (E2 : rstep h (set_thread s h (Thread Idle [])) = Done (set_thread s h (Thread Idle []))).
    { unfold rstep at 1. unfold set_thread at 1. cbn [threads]. by rewrite list_lookup_insert_eq. }
    rewrite E1. cbn [mbind outcome_bind]. rewrite E2. cbn [mbind outcome_bind]. rewrite E2. cbn [mbind outcome_bind].
    eexists. split; [done|]. split; [|exact Ha]. exact (ri_queue _ _ _ Hi).
Qed.

(** The break of the harvest: the queue was exchanged already, so a slot pushed before a
    misaligned one is neither harvested nor queued any more. *)
Theorem bad_slot_loses_queue :
  exists sched s, rrun sched (rinit {[ 65760 := NULL; 65609 := NULL ]} [[Push 65760; Push 65609]; [Harvest]]) = Done s /\
    Forall finished (threads s) /\ head s = NULL /\ harvested s = [].
Proof.
  exists [0; 0; 0; 0; 0; 0; 0; 0; 0; 0; 1; 1; 1]%nat. eexists. split; [vm_compute; reflexivity|].
  split; [repeat constructor|]. by split_and!.
Qed.

(** C39: harvesting by the pool-wide flag does lose track of a slot: the push raises
    [remote_free_pending] before the class's flag, so a [remote_free_harvest_all] running
    between the two stores clears the first, finds the second down and skips the class.
    Every call has then returned, the slot is queued, and later calls of
    [remote_free_harvest_all] return at once. *)
Theorem remote_pending_lost :
  exists sched s, rrun sched (rinit {[ 65608 := NULL ]} [[Push 65608]; [HarvestAll; HarvestAll]]) = Done s /\
    Forall finished (threads s) /\ head s = 65608 /\ harvested s = [] /\ pending s = false.
Proof.
  exists [0; 0; 0; 0; 1; 1; 1; 0; 1]%nat. eexists. split; [vm_compute; reflexivity|].
  split; [repeat constructor|]. by split_and!.
Qed.

(** ** The per-CPU list *)

(** Threads that share a CPU's list, and what each of them holds. *)
Inductive pop_pc :=
  | PIdle
  | PopNext (h : Z)              (* head loaded, about to load [slot->next] *)
  | PopCas (h n : Z)
  | PPushLink (x old : Z)
  | PPushCas (x old : Z).

Inductive pop_op := Pop | Return (slot : Z).

Record pthread := PThread { ppc : pop_pc; ptodo : list pop_op; holds : list Z }.

Record pstate := PState { phead : Z; pcount : Z; pnext : gmap Z Z; pthreads : list pthread }.

(** One atomic step of [percpu_pop] or [percpu_push] by thread [t]. *)
Definition pstep (t : nat) (s : pstate) : outcome pstate :=
  match pthreads s !! t with
  | None => Done s
  | Some (PThread p ops hs) =>
      let upd h c g th := PState h c g (<[t := th]> (pthreads s)) in
      match p with
      | PIdle =>
          match ops with
          | [] => Done s
          | Pop :: ops =>
              Done (upd (phead s) (pcount s) (pnext s)
                      (PThread (if phead s =? NULL then PIdle else PopNext (phead s)) ops hs))
          | Return x :: ops =>
              if 16 <=? pcount s then Done (upd (phead s) (pcount s) (pnext s) (PThread PIdle ops hs))
              else Done (upd (phead s) (pcount s) (pnext s) (PThread (PPushLink x (phead s)) ops hs))
          end
      | PopNext h => n ← ld (pnext s) h; Done (upd (phead s) (pcount s) (pnext s) (PThread (PopCas h n) ops hs))
      | PopCas h n =>
          if phead s =? h then Done (upd n (pcount s - 1) (pnext s) (PThread PIdle ops (h :: hs)))
          else Done (upd (phead s) (pcount s) (pnext s) (PThread PIdle ops hs))
      | PPushLink x old => g ← st (pnext s) x old; Done (upd (phead s) (pcount s) g (PThread (PPushCas x old) ops hs))
      | PPushCas x old =>
          if phead s =? old then
            Done (upd x (pcount s + 1) (pnext s) (PThread PIdle ops (list_difference hs [x])))
          else Done (upd (phead s) (pcount s) (pnext s) (PThread (PPushLink x (phead s)) ops hs))
      end
  end.

Fixpoint prun (sched : list nat) (s : pstate) : outcome pstate :=
  match sched with
  | [] => Done s
  | t :: sched => s ← pstep t s; prun sched s
  end.

(** The compare-and-exchange of [percpu_pop] does not protect the link it read (ABA):
    a thread preempted between reading [slot->next] and exchanging the head, while another
    thread on the same CPU pops two slots and returns the first, installs the second as
    the new head although it is in use; the next pop hands the same slot to two holders. *)
Theorem percpu_pop_aba :
  exists sched s, prun sched (PState 65608 3 {[ 65608 := 65760; 65760 := 65912; 65912 := NULL ]}
                     [PThread PIdle [Pop; Pop] []; PThread PIdle [Pop; Pop; Return 65608] []]) = Done s /\
    map holds (pthreads s) = [[65760; 65608]; [65760]].
Proof. exists [0; 0; 1; 1; 1; 1; 1; 1; 1; 1; 1; 0; 0; 0; 0]%nat. eexists. split; [vm_compute; reflexivity|done]. Qed.

(** ** Witnesses *)

Definition demo_links : gmap Z Z := {[ 65608 := NULL; 65760 := NULL ]}.
Definition demo_progs : list (list rop) := [[Push 65608; Push 65760]; [Harvest]].

Lemma demo_slots : NoDup (pushed demo_progs) /\ (forall x, x ∈ pushed demo_progs -> linked_slot demo_links x).
Proof.
  split; [apply (bool_decide_unpack _); vm_compute; exact I|].
  intros x Hx. cbn in Hx. apply elem_of_cons in Hx as [->|Hx]; [split; [done|vm_compute; eauto]|].
  apply list_elem_of_singleton in Hx as ->. split; [done|vm_compute; eauto].
Qed.

Lemma remote_queue_conserves_witness :
  exists s Q, rrun [0; 0; 0; 1; 0; 0]%nat (rinit demo_links demo_progs) = Done s /\
    Q ++ harvested s ++ unpublished s ≡ₚ [65608; 65760].
Proof.
  destruct (remote_queue_conserves demo_links demo_progs [0; 0; 0; 1; 0; 0]%nat (proj1 demo_slots) (proj2 demo_slots)) as
    (s & Q & E & _ & H).
  exists s, Q. split; [exact E|exact H].
Defined.

Definition demo_pushed : rstate :=
  done_or (rinit demo_links demo_progs) (rrun (replicate 10 0%nat) (rinit demo_links demo_progs)).

Lemma remote_harvest_complete_witness :
  exists s', rrun [1; 1; 1]%nat demo_pushed = Done s' /\ harvested s' ≡ₚ [65608; 65760].
Proof.
  assert (E : rrun (replicate 10 0%nat) (rinit demo_links demo_progs) = Done demo_pushed)
    by (apply done_or_eq; vm_compute; exact eq_refl).
  destruct (remote_harvest_complete demo_links demo_progs _ demo_pushed 1 (proj1 demo_slots) (proj2 demo_slots) E) as
    (s' & E' & _ & H).
  - vm_compute. exact eq_refl.
  - intros t th Hne Ht. destruct t as [|[|t]]; [|congruence|vm_compute in Ht; discriminate Ht].
    vm_compute in Ht. injection Ht as <-. exact eq_refl.
  - exists s'. split; [exact E'|exact H].
Defined.
