(* ===== verification/Front.v ===== *)
(** * The allocation front end

    [src/cmem_alloc.c]: admission (dirty pool, circuit breaker, memory limit with the
    emergency reserve), the choice of tier, header stamping, the canary, the statistics
    and the list of live blocks, over an interface for the tiers underneath.  One pool
    without sub-arenas, one thread; the watermark callback (a comparison of [double]s) is
    in [Pressure]. *)
From S2P Require Import Prelude Header Dll SizeClass.
From Stdlib Require Import ZArith Lia.
From stdpp Require Import base option list gmap.
Open Scope Z_scope.

Definition TLSF_MAX_SIZE : Z := 4 * 1024 * 1024.
Definition CMEM_HISTOGRAM_BUCKETS : Z := 16.
Definition MP_POISON_BYTE : Z := 0xDD.
Definition MP_EVENT_ALLOC : Z := 1.
Definition MP_EVENT_FREE : Z := 2.
Definition MP_EVENT_REALLOC : Z := 3.
Definition MP_EVENT_CANARY_CORRUPTION : Z := 4.
Definition MP_EVENT_DOUBLE_FREE : Z := 5.
Definition MP_EVENT_RESET : Z := 6.
Definition MP_EVENT_COMPACT : Z := 7.
Definition MP_EVENT_OOM : Z := 8.
Definition MP_EVENT_DIRTY : Z := 9.

Definition canary_len (flags : Z) : Z := if has_flag flags MP_FLAG_DEBUG_CANARY then 1 else 0.

(** ** What the tiers promise *)

(** Where a freed slab slot went. *)
Inductive route := ViaCache | ViaPercpu | ViaRemote | ViaPage.

(** The [n] bytes from [h] on overlap nothing that is handed out. *)
Definition fresh_in (o : gmap Z Z) (h n : Z) : Prop :=
  0 < h /\ h + n < 2 ^ 64 /\ forall h' n', o !! h' = Some n' -> h + n <= h' \/ h' + n' <= h.

(** [owned b !! h = Some n]: the [n] bytes from [h] on are handed out.  [slot_bytes c] is
    the payload of class [c]. *)
Class Tiers := {
  back : Type;
  owned : back -> gmap Z Z;
  slot_bytes : Z -> Z;
  slab_get : back -> Z -> Z -> Z * back;                             (* flags, class *)
  tlsf_get : back -> Z -> Z -> option (Z * mp_block_header) * back;  (* flags, size *)
  tlsf_grow : back -> Z -> Z -> mp_block_header -> Z -> option Z * back;  (* flags, block, header, new size; the new usable size *)
  sys_get : back -> Z -> Z * back;                                   (* [sys_mem_alloc] *)
  slab_put : back -> Z -> Z -> Z -> route * back;                    (* flags, class, slot *)
  tlsf_put : back -> Z -> mp_block_header -> mp_block_header * back; (* the header as it is left *)
  sys_put : back -> Z -> Z -> back;
  slot_bytes_pos : forall c, 0 <= slot_bytes c;
  slab_get_spec : forall b f c r b', slab_get b f c = (r, b') ->
    if r =? NULL then owned b' = owned b
    else fresh_in (owned b) r (SIZEOF_HEADER + slot_bytes c + canary_len f) /\
         owned b' = <[r := SIZEOF_HEADER + slot_bytes c + canary_len f]> (owned b);
  tlsf_get_spec : forall b f n r b', tlsf_get b f n = (r, b') ->
    match r with
    | None => owned b' = owned b
    | Some (h, hd) => exists e, fresh_in (owned b) h (SIZEOF_HEADER + e) /\ n <= usable_size hd <= e /\ n + canary_len f <= e /\
        requested_size hd = n /\ magic hd = MP_MAGIC_HEAD /\ alloc_type hd = ALLOC_TYPE_TLSF /\
        owned b' = <[h := SIZEOF_HEADER + e]> (owned b)
    end;
  tlsf_grow_spec : forall b f h hd n r b', tlsf_grow b f h hd n = (r, b') ->
    match r with
    | None => owned b' = owned b
    | Some u => exists e, fresh_in (delete h (owned b)) h (SIZEOF_HEADER + e) /\ n <= u <= e /\ n + canary_len f <= e /\
        owned b' = <[h := SIZEOF_HEADER + e]> (owned b)
    end;
  sys_get_spec : forall b n r b', sys_get b n = (r, b') ->
    if r =? NULL then owned b' = owned b
    else fresh_in (owned b) r n /\ owned b' = <[r := n]> (owned b);
  slab_put_spec : forall b f c s r b', slab_put b f c s = (r, b') -> owned b' = delete s (owned b) /\
    (r = ViaRemote -> has_flag f MP_FLAG_THREAD_SAFE = true) /\ (r = ViaPage -> has_flag f MP_FLAG_THREAD_SAFE = false);
  tlsf_put_spec : forall b h hd hd' b', tlsf_put b h hd = (hd', b') -> owned b' = delete h (owned b);
  sys_put_spec : forall b p n, owned (sys_put b p n) = delete p (owned b);
}.

(** ** The pool *)

Record config := Config {
  self : Z;                              (* the pool's address *)
  flags : Z;
  slab_table : classes;
  max_memory_limit : Z;                  (* 0 is no limit *)
  fallback_to_sys_alloc_on_oom : bool;
  circuit_breaker_enabled : bool;
  thread_quota_bytes : Z;
  has_event_cb : bool;
}.

Record account := Account {
  active_bytes : Z;
  active_allocations : Z;
  total_alloc_ops : Z;
  total_free_ops : Z;
  peak_bytes : Z;
  os_allocated_bytes : Z;
  total_pool_size : Z;
  size_histogram : list Z;
}.

Record reserve := Reserve { emergency_buf : Z; emergency_size : Z; emergency_used : bool }.

(** Pool health and the calling thread's [thread_quota]. *)
Record health := Health { is_dirty : bool; circuit_breaker_tripped : bool; q_alloc_bytes : Z; q_alloc_count : Z }.

Section Front.
Context `{TT : Tiers}.

Record pool := Pool {
  cf : config;
  ac : account;
  rs : reserve;
  he : health;
  active_head : Z;
  alinks : links;                        (* header->next and header->prev *)
  hdrs : gmap Z mp_block_header;
  mem : Z -> Z;
  events : list (Z * Z * Z);
  tiers : back;
}.

Definition set_cf (p : pool) c := Pool c (ac p) (rs p) (he p) (active_head p) (alinks p) (hdrs p) (mem p) (events p) (tiers p).
Definition set_ac (p : pool) a := Pool (cf p) a (rs p) (he p) (active_head p) (alinks p) (hdrs p) (mem p) (events p) (tiers p).
Definition set_rs (p : pool) r := Pool (cf p) (ac p) r (he p) (active_head p) (alinks p) (hdrs p) (mem p) (events p) (tiers p).
Definition set_he (p : pool) h := Pool (cf p) (ac p) (rs p) h (active_head p) (alinks p) (hdrs p) (mem p) (events p) (tiers p).
Definition set_list (p : pool) hd k := Pool (cf p) (ac p) (rs p) (he p) hd k (hdrs p) (mem p) (events p) (tiers p).
Definition set_hdrs (p : pool) g := Pool (cf p) (ac p) (rs p) (he p) (active_head p) (alinks p) g (mem p) (events p) (tiers p).
Definition set_mem (p : pool) m := Pool (cf p) (ac p) (rs p) (he p) (active_head p) (alinks p) (hdrs p) m (events p) (tiers p).
Definition set_tiers (p : pool) b := Pool (cf p) (ac p) (rs p) (he p) (active_head p) (alinks p) (hdrs p) (mem p) (events p) b.

Definition trigger_event (p : pool) (ev ptr size : Z) : pool :=
  if has_event_cb (cf p)
  then Pool (cf p) (ac p) (rs p) (he p) (active_head p) (alinks p) (hdrs p) (mem p) (events p ++ [(ev, ptr, size)]) (tiers p)
  else p.

Definition on (p : pool) (flag : Z) : bool := has_flag (flags (cf p)) flag.

Definition fill (m : Z -> Z) (p n v : Z) : Z -> Z := fun a => if (p <=? a) && (a <? p + n) then v else m a.

(** ** The live list *)

(** The two link words of a block's header are writable memory. *)
Definition link_words (k : links) (h : Z) : links := Links (<[h := NULL]> (nxt k)) (<[h := NULL]> (prv k)).

Definition active_list_add (p : pool) (header : Z) : outcome pool :=
  k ← dll_push_front (link_words (alinks p) header) (active_head p) header;
  Done (set_list p header k).

Definition active_list_remove (p : pool) (header : Z) : outcome pool :=
  if header =? NULL then Done p
  else
    r ← dll_unlink (alinks p) (active_head p) header;
    let '(k, head) := r in
    k ← set_prv k header NULL;
    k ← set_nxt k header NULL;
    Done (set_list p head k).

(** ** Statistics *)

(** The counters after an allocation of [size]: with atomics [cur] is the value before the
    addition, without them the value after it. *)
Definition account_alloc (thread_safe : bool) (a : account) (size : Z) : account :=
  let active := u64 (active_bytes a + size) in
  let cur := if thread_safe then active_bytes a else active in
  let peak := if peak_bytes a <? u64 (cur + size) then u64 (cur + size) else peak_bytes a in
  Account active (u64 (active_allocations a + 1)) (u64 (total_alloc_ops a + 1)) (total_free_ops a) peak
    (os_allocated_bytes a) (total_pool_size a) (size_histogram a).

Definition bump_histogram (a : account) (bucket : Z) : account :=
  if bucket <? CMEM_HISTOGRAM_BUCKETS then
    Account (active_bytes a) (active_allocations a) (total_alloc_ops a) (total_free_ops a) (peak_bytes a)
      (os_allocated_bytes a) (total_pool_size a) (alter (fun n => u64 (n + 1)) (Z.to_nat bucket) (size_histogram a))
  else a.

Definition add_os (a : account) (bytes total : Z) : account :=
  Account (active_bytes a) (active_allocations a) (total_alloc_ops a) (total_free_ops a) (peak_bytes a)
    (u64 (os_allocated_bytes a + bytes)) (u64 (total_pool_size a + total)) (size_histogram a).

(** [mp_free_stats_no_lock]. *)
Definition account_free (a : account) (size : Z) : account :=
  Account (u64 (active_bytes a - size)) (u64 (active_allocations a - 1)) (total_alloc_ops a) (u64 (total_free_ops a + 1))
    (peak_bytes a) (os_allocated_bytes a) (total_pool_size a) (size_histogram a).

Definition mp_free_stats_no_lock (p : pool) (hd : mp_block_header) : pool :=
  set_ac p (account_free (ac p) (requested_size hd)).

Definition mp_free_stats_update (p : pool) (h : Z) (hd : mp_block_header) : outcome pool :=
  p ← (if on p MP_FLAG_FAST_PATH then Done p else active_list_remove p h);
  Done (mp_free_stats_no_lock p hd).

(** ** Allocation *)

Definition counted (hd : mp_block_header) : bool := has_flag (hflags hd) MP_BLOCK_FLAG_COUNTED.

Definition mark_counted (hd : mp_block_header) : mp_block_header :=
  Header (magic hd) (alloc_type hd) (slab_class hd) (Z.lor (hflags hd) MP_BLOCK_FLAG_COUNTED) (requested_size hd)
    (usable_size hd) (raw_base hd) (subpool hd) (alloc_file hd) (alloc_line hd) (alloc_func hd) (backtrace_depth hd).

(** The header written at [h], the canary byte and the zero fill. *)
Definition format_block (p : pool) (h : Z) (hd : mp_block_header) : pool :=
  let ptr := h + SIZEOF_HEADER in
  let size := requested_size hd in
  let m := if on p MP_FLAG_DEBUG_CANARY then fill (mem p) (ptr + size) 1 MP_CANARY_BYTE else mem p in
  let m := if on p MP_FLAG_ZERO_ON_ALLOC then fill m ptr size 0 else m in
  set_mem (set_hdrs p (<[h := hd]> (hdrs p))) m.

(** The end of [mp_alloc_internal]: the live list, the counters, the event. *)
Definition finish_alloc (p : pool) (h : Z) (hd : mp_block_header) (size : Z) (hist : bool) : outcome pool :=
  p ← (if on p MP_FLAG_FAST_PATH then Done p else active_list_add p h);
  let a := account_alloc (on p MP_FLAG_THREAD_SAFE) (ac p) size in
  Done (set_ac p (if hist then bump_histogram a (get_slab_class_index (slab_table (cf p)) size) else a)).

(** The emergency reserve serves one block at a time. *)
Definition reserve_fits (p : pool) (size : Z) : bool :=
  negb (emergency_buf (rs p) =? NULL) && negb (emergency_used (rs p)) &&
  (u64 (size + SIZEOF_HEADER + canary_len (flags (cf p))) <=? emergency_size (rs p)).

Definition emergency_alloc (p : pool) (size : Z) : outcome (Z * pool) :=
  let h := emergency_buf (rs p) in
  let hd := Header MP_MAGIC_HEAD ALLOC_TYPE_EMERGENCY 0 MP_BLOCK_FLAG_COUNTED size
              (u64 (emergency_size (rs p) - SIZEOF_HEADER)) h NULL NULL 0 NULL 0 in
  let p := format_block (set_rs p (Reserve h (emergency_size (rs p)) true)) h hd in
  p ← finish_alloc p h hd size false;
  Done (h + SIZEOF_HEADER, p).

Definition serve_slab (p : pool) (size : Z) : option (Z * mp_block_header) * pool :=
  let class_idx := get_slab_class_index (slab_table (cf p)) size in
  let '(slot, b) := slab_get (tiers p) (flags (cf p)) class_idx in
  if slot =? NULL then (None, set_tiers p b)
  else
    let hd := Header MP_MAGIC_HEAD ALLOC_TYPE_SLAB class_idx MP_BLOCK_FLAG_COUNTED size (slot_bytes class_idx) slot (self (cf p)) NULL 0 NULL 0 in
    (Some (slot, hd), format_block (set_tiers p b) slot hd).

Definition serve_tlsf (p : pool) (size : Z) : option (Z * mp_block_header) * pool :=
  match tlsf_get (tiers p) (flags (cf p)) size with
  | (None, b) => (None, set_tiers p b)
  | (Some (h, hd), b) => (Some (h, hd), format_block (set_tiers p b) h hd)
  end.

Definition serve_os (p : pool) (size : Z) : option (Z * mp_block_header) * pool :=
  let total_sz := u64 (size + SIZEOF_HEADER + canary_len (flags (cf p))) in
  let '(raw, b) := sys_get (tiers p) total_sz in
  if raw =? NULL then (None, set_tiers p b)
  else
    let hd := Header MP_MAGIC_HEAD ALLOC_TYPE_OS 0 MP_BLOCK_FLAG_COUNTED size size raw (self (cf p)) NULL 0 NULL 0 in
    let p := format_block (set_tiers p b) raw hd in
    (Some (raw, hd), set_ac p (add_os (ac p) size total_sz)).

(** The block from the tier the size selects. *)
Definition tier_alloc (p : pool) (size : Z) : option (Z * mp_block_header) * pool :=
  if negb (on p MP_FLAG_STATIC_BUFFER) && (size <=? SLAB_MAX_SIZE) then serve_slab p size
  else if (size <=? TLSF_MAX_SIZE) || on p MP_FLAG_STATIC_BUFFER then serve_tlsf p size
  else serve_os p size.

Definition over_limit (p : pool) (size : Z) : bool :=
  (0 <? max_memory_limit (cf p)) && (max_memory_limit (cf p) <? u64 (active_bytes (ac p) + size)).

Definition admit_and_serve (p : pool) (size : Z) : outcome (Z * pool) :=
  let '(r, p) := tier_alloc p size in
  match r with
  | None => Done (NULL, p)
  | Some (h, hd) =>
      let hd := mark_counted hd in
      p ← finish_alloc (set_hdrs p (<[h := hd]> (hdrs p))) h hd size true;
      Done (h + SIZEOF_HEADER, trigger_event p MP_EVENT_ALLOC (h + SIZEOF_HEADER) size)
  end.

Definition mp_alloc_internal (p : pool) (size : Z) : outcome (Z * pool) :=
  if size =? 0 then Done (NULL, p)
  else if is_dirty (he p) && negb (fallback_to_sys_alloc_on_oom (cf p)) then Done (NULL, p)
  else if circuit_breaker_enabled (cf p) && circuit_breaker_tripped (he p) then Done (NULL, p)
  else if over_limit p size then
    let p := trigger_event p MP_EVENT_OOM NULL size in
    if fallback_to_sys_alloc_on_oom (cf p) then admit_and_serve p size
    else if reserve_fits p size then emergency_alloc p size
    else Done (NULL, p)
  else admit_and_serve p size.

(** [thread_quota] accrual and the breaker. *)
Definition breaker_accrue (p : pool) (size : Z) : pool :=
  if circuit_breaker_enabled (cf p) then
    let bytes := u64 (q_alloc_bytes (he p) + size) in
    let trip := (0 <? thread_quota_bytes (cf p)) && (thread_quota_bytes (cf p) <=? bytes) in
    set_he p (Health (is_dirty (he p)) (circuit_breaker_tripped (he p) || trip) bytes (u64 (q_alloc_count (he p) + 1)))
  else p.

Definition mp_aligned_alloc (p : pool) (alignment size : Z) : outcome (Z * pool) :=
  if negb (Z.land alignment (u64 (alignment - 1)) =? 0) || (alignment <? 8) then Done (NULL, p)
  else
    let total_size := u64 (size + alignment + SIZEOF_HEADER + canary_len (flags (cf p))) in
    r ← mp_alloc_internal p total_size;
    let '(raw_ptr, p) := r in
    if raw_ptr =? NULL then Done (NULL, p)
    else
      let p := breaker_accrue p size in
      let aligned_addr := Z.land (u64 (raw_ptr + SIZEOF_HEADER + (alignment - 1))) (Z.lnot (alignment - 1)) in
      let orig := raw_ptr - SIZEOF_HEADER in
      let new := aligned_addr - SIZEOF_HEADER in
      match hdrs p !! orig with
      | None => Fault
      | Some hd =>
          let hd := Header (magic hd) (alloc_type hd) (slab_class hd) (hflags hd) size (usable_size hd) (raw_base hd)
                      (subpool hd) (alloc_file hd) (alloc_line hd) (alloc_func hd) (backtrace_depth hd) in
          r ← (if new =? orig then Done p
               else
                 (* the copy of the header takes the original's place in the live list *)
                 pv ← (if on p MP_FLAG_FAST_PATH then Done NULL else ld (prv (alinks p)) orig);
                 nx ← (if on p MP_FLAG_FAST_PATH then Done NULL else ld (nxt (alinks p)) orig);
                 let k := Links (<[new := nx]> (nxt (alinks p))) (<[new := pv]> (prv (alinks p))) in
                 k ← (if pv =? NULL then Done k else set_nxt k pv new);
                 let head := if (pv =? NULL) && (active_head p =? orig) then new else active_head p in
                 k ← (if nx =? NULL then Done k else set_prv k nx new);
                 Done (set_list p head k));
          let p := set_hdrs r (<[new := hd]> (hdrs r)) in
          let m := if on p MP_FLAG_DEBUG_CANARY then fill (mem p) (aligned_addr + size) 1 MP_CANARY_BYTE else mem p in
          Done (aligned_addr, set_mem p m)
      end.

Definition mp_alloc (p : pool) (size : Z) : outcome (Z * pool) :=
  if size =? 0 then Done (NULL, p)
  else if on p MP_FLAG_CACHE_ALIGNED then mp_aligned_alloc p 64 size
  else
    r ← mp_alloc_internal p size;
    let '(ptr, p) := r in
    Done (ptr, if ptr =? NULL then p else breaker_accrue p size).

Definition mp_calloc (p : pool) (num size : Z) : outcome (Z * pool) :=
  let total_size := u64 (num * size) in
  r ← mp_alloc p total_size;
  let '(ptr, p) := r in
  Done (ptr, if negb (ptr =? NULL) && negb (on p MP_FLAG_ZERO_ON_ALLOC) then set_mem p (fill (mem p) ptr total_size 0) else p).

(** ** Health *)

Definition mp_mark_pool_dirty (p : pool) : pool :=
  trigger_event (set_he p (Health true (circuit_breaker_tripped (he p)) (q_alloc_bytes (he p)) (q_alloc_count (he p))))
    MP_EVENT_DIRTY NULL 0.

Definition mp_clear_pool_dirty (p : pool) : pool :=
  set_he p (Health false (circuit_breaker_tripped (he p)) (q_alloc_bytes (he p)) (q_alloc_count (he p))).

Definition mp_is_pool_dirty (p : pool) : bool := is_dirty (he p).

Definition ld_hdr (p : pool) (h : Z) : outcome mp_block_header :=
  match hdrs p !! h with Some hd => Done hd | None => Fault end.

Definition mp_verify_free_canary (p : pool) (ptr : Z) (hd : mp_block_header) : pool :=
  if mem p (ptr + requested_size hd) =? MP_CANARY_BYTE then p
  else mp_mark_pool_dirty (trigger_event p MP_EVENT_CANARY_CORRUPTION ptr (requested_size hd)).

(** ** Release *)

(** The counters and the live list, by the way a slab slot goes back. *)
Definition slab_stats (p : pool) (h : Z) (hd : mp_block_header) (r : route) : outcome pool :=
  let ts := on p MP_FLAG_THREAD_SAFE in
  let fast := on p MP_FLAG_FAST_PATH in
  match r with
  | ViaCache =>
      if negb ts then (if counted hd then mp_free_stats_update p h hd else Done p)
      else if fast then
        let a := ac p in
        let a := if counted hd then Account (u64 (active_bytes a - requested_size hd)) (u64 (active_allocations a - 1))
                   (total_alloc_ops a) (total_free_ops a) (peak_bytes a) (os_allocated_bytes a) (total_pool_size a) (size_histogram a)
                 else a in
        Done (set_ac p (Account (active_bytes a) (active_allocations a) (total_alloc_ops a) (u64 (total_free_ops a + 1))
                          (peak_bytes a) (os_allocated_bytes a) (total_pool_size a) (size_histogram a)))
      else active_list_remove (if counted hd then mp_free_stats_no_lock p hd else p) h
  | ViaPercpu =>
      if negb ts then (if counted hd then mp_free_stats_update p h hd else Done p)
      else
        let p := if counted hd then mp_free_stats_no_lock p hd else p in
        if fast then Done p else active_list_remove p h
  | ViaRemote =>
      let p := if counted hd then mp_free_stats_no_lock p hd else p in
      if fast then Done p else active_list_remove p h
  | ViaPage => if counted hd then mp_free_stats_update p h hd else Done p
  end.

Definition mp_free (p : pool) (ptr : Z) : outcome pool :=
  if ptr =? NULL then Done p
  else
    let h := ptr - SIZEOF_HEADER in
    hd ← ld_hdr p h;
    if negb (magic hd =? MP_MAGIC_HEAD) then Done (mp_mark_pool_dirty (trigger_event p MP_EVENT_DOUBLE_FREE ptr 0))
    else
      let p := if on p MP_FLAG_POISON_ON_FREE then set_mem p (fill (mem p) ptr (requested_size hd) MP_POISON_BYTE) else p in
      let p := if on p MP_FLAG_DEBUG_CANARY then mp_verify_free_canary p ptr hd else p in
      let fl := flags (cf p) in
      let ev p := trigger_event p MP_EVENT_FREE ptr (requested_size hd) in
      if alloc_type hd =? ALLOC_TYPE_SLAB then
        let '(r, b) := slab_put (tiers p) fl (slab_class hd) (raw_base hd) in
        p ← slab_stats p h hd r;
        (* the slot's link overwrites the header *)
        Done (ev (set_tiers (set_hdrs p (delete h (hdrs p))) b))
      else
        p ← (if counted hd then mp_free_stats_update p h hd else Done p);
        if alloc_type hd =? ALLOC_TYPE_TLSF then
          let '(hd', b) := tlsf_put (tiers p) h hd in
          Done (ev (set_tiers (set_hdrs p (<[h := hd']> (hdrs p))) b))
        else if alloc_type hd =? ALLOC_TYPE_OS then
          let a := add_os (ac p) (- requested_size hd) (- (requested_size hd + SIZEOF_HEADER + canary_len fl)) in
          Done (ev (set_tiers (set_hdrs (set_ac p a) (delete h (hdrs p))) (sys_put (tiers p) (raw_base hd) (requested_size hd))))
        else if alloc_type hd =? ALLOC_TYPE_EMERGENCY then
          Done (ev (set_rs p (Reserve (emergency_buf (rs p)) (emergency_size (rs p)) false)))
        else Done (ev p).

(** ** Resizing *)

(** [memcpy]. *)
Definition copy (m : Z -> Z) (dst src n : Z) : Z -> Z := fun a => if (dst <=? a) && (a <? dst + n) then m (a - dst + src) else m a.

Definition set_requested (hd : mp_block_header) (n : Z) : mp_block_header := set_sizes hd n (usable_size hd).

Definition stamp_canary (p : pool) (a : Z) : pool :=
  if on p MP_FLAG_DEBUG_CANARY then set_mem p (fill (mem p) a 1 MP_CANARY_BYTE) else p.

Definition mp_realloc (p : pool) (ptr new_size : Z) : outcome (Z * pool) :=
  if ptr =? NULL then mp_alloc p new_size
  else if new_size =? 0 then p ← mp_free p ptr; Done (NULL, p)
  else
    let h := ptr - SIZEOF_HEADER in
    hd ← ld_hdr p h;
    if negb (magic hd =? MP_MAGIC_HEAD) then Done (NULL, p)
    else if new_size <=? usable_size hd then
      let p := stamp_canary (set_hdrs p (<[h := set_requested hd new_size]> (hdrs p))) (ptr + new_size) in
      Done (ptr, trigger_event p MP_EVENT_REALLOC ptr new_size)
    else
      let '(grown, b) := if alloc_type hd =? ALLOC_TYPE_TLSF then tlsf_grow (tiers p) (flags (cf p)) h hd new_size else (None, tiers p) in
      let p := set_tiers p b in
      match grown with
      | Some usable =>
          let p := stamp_canary (set_hdrs p (<[h := set_sizes hd new_size usable]> (hdrs p))) (ptr + new_size) in
          Done (ptr, trigger_event p MP_EVENT_REALLOC ptr new_size)
      | None =>
          r ← mp_alloc p new_size;
          let '(new_ptr, p) := r in
          if new_ptr =? NULL then Done (NULL, p)
          else
            p ← mp_free (set_mem p (copy (mem p) new_ptr ptr (requested_size hd))) ptr;
            Done (new_ptr, p)
      end.

Definition mp_reallocarray (p : pool) (ptr nmemb size : Z) : outcome (Z * pool) :=
  if negb (nmemb =? 0) && ((2 ^ 64 - 1) / nmemb <? size) then Done (NULL, p)
  else mp_realloc p ptr (u64 (nmemb * size)).

(** ** Introspection (pools that keep the live list) *)

Fixpoint find_active (fuel : nat) (k : links) (curr header : Z) : outcome bool :=
  match fuel with
  | O => Fault
  | S fuel =>
      if curr =? NULL then Done false
      else if curr =? header then Done true
      else n ← ld (nxt k) curr; find_active fuel k n header
  end.

Definition mp_ptr_valid (p : pool) (ptr : Z) : outcome bool :=
  if ptr =? NULL then Done false
  else
    let h := ptr - SIZEOF_HEADER in
    hd ← ld_hdr p h;
    if negb (magic hd =? MP_MAGIC_HEAD) then Done false
    else find_active (S (base.size (nxt (alinks p)))) (alinks p) (active_head p) h.

Definition mp_usable_size (p : pool) (ptr : Z) : outcome Z :=
  v ← mp_ptr_valid p ptr;
  if negb v then Done 0 else hd ← ld_hdr p (ptr - SIZEOF_HEADER); Done (usable_size hd).

Definition mp_alloc_size (p : pool) (ptr : Z) : outcome Z :=
  v ← mp_ptr_valid p ptr;
  if negb v then Done 0 else hd ← ld_hdr p (ptr - SIZEOF_HEADER); Done (requested_size hd).

(** ** Recovery and quotas ([src/cmem_guard.c]) *)

Definition set_magic (hd : mp_block_header) (m : Z) : mp_block_header :=
  Header m (alloc_type hd) (slab_class hd) (hflags hd) (requested_size hd) (usable_size hd) (raw_base hd) (subpool hd)
    (alloc_file hd) (alloc_line hd) (alloc_func hd) (backtrace_depth hd).

Definition mp_isolate_bad_block (p : pool) (ptr : Z) : outcome (bool * pool) :=
  if ptr =? NULL then Done (false, p)
  else
    let h := ptr - SIZEOF_HEADER in
    hd ← ld_hdr p h;
    if on p MP_FLAG_FAST_PATH || negb (magic hd =? MP_MAGIC_HEAD) then Done (false, p)
    else
      p ← active_list_remove p h;
      let p := mp_free_stats_no_lock p hd in
      let p := set_hdrs p (<[h := set_magic hd CMEM_FREED_MAGIC]> (hdrs p)) in
      Done (true, trigger_event p MP_EVENT_DOUBLE_FREE ptr 0).

Definition mp_set_thread_quota (p : pool) (n : Z) : pool :=
  let c := cf p in
  set_cf p (Config (self c) (flags c) (slab_table c) (max_memory_limit c) (fallback_to_sys_alloc_on_oom c)
              (circuit_breaker_enabled c) n (has_event_cb c)).

Definition mp_set_circuit_breaker (p : pool) (enable : bool) : pool :=
  let c := cf p in
  set_cf p (Config (self c) (flags c) (slab_table c) (max_memory_limit c) (fallback_to_sys_alloc_on_oom c)
              enable (thread_quota_bytes c) (has_event_cb c)).

Definition mp_get_thread_allocated_bytes (p : pool) : Z := q_alloc_bytes (he p).
Definition mp_reset_thread_quota (p : pool) : pool := set_he p (Health (is_dirty (he p)) (circuit_breaker_tripped (he p)) 0 0).
Definition mp_is_circuit_breaker_tripped (p : pool) : bool := circuit_breaker_tripped (he p).

Definition mp_set_asan_integration (p : pool) (enable : bool) : pool :=
  let c := cf p in
  let f := if enable then Z.lor (flags c) MP_FLAG_ASAN_INTEGRATION else Z.land (flags c) (Z.lnot MP_FLAG_ASAN_INTEGRATION) in
  set_cf p (Config (self c) f (slab_table c) (max_memory_limit c) (fallback_to_sys_alloc_on_oom c)
              (circuit_breaker_enabled c) (thread_quota_bytes c) (has_event_cb c)).

Definition mp_asan_check_memory (p : pool) (ptr size : Z) : outcome bool :=
  if (ptr =? NULL) || (size =? 0) then Done false
  else if is_dirty (he p) then Done false
  else mp_ptr_valid p ptr.

(** ** The limit decision of a batch *)

Record batch_plan := Plan {
  target : Z;                    (* elements to take from the tiers *)
  oom_fire_count : Z;            (* OOM events fired up front *)
  full_exceed_oom : bool;        (* one OOM event, nothing allocated *)
  emergency_only : bool;
  do_emergency : bool;           (* the reserve serves the element after the target *)
  limit_breach_attempted : bool;
}.

Definition batch_admit (p : pool) (limit_charge total_size count : Z) : batch_plan :=
  let limit := max_memory_limit (cf p) in
  let active := active_bytes (ac p) in
  let fits := negb (emergency_buf (rs p) =? NULL) && negb (emergency_used (rs p)) &&
              (u64 (total_size + SIZEOF_HEADER + canary_len (flags (cf p))) <=? emergency_size (rs p)) in
  if limit =? 0 then Plan count 0 false false false false
  else if limit <? u64 (active + limit_charge) then
    if fallback_to_sys_alloc_on_oom (cf p) then Plan count count false false false false
    else if fits then Plan count 0 false true false false
    else Plan count 0 true false false false
  else
    let max_fit := u64 (limit - active) / limit_charge in
    if max_fit <? count then
      if fallback_to_sys_alloc_on_oom (cf p) then Plan count (count - max_fit) false false false false
      else if fits then Plan max_fit 0 false false true true
      else Plan max_fit 0 false false false true
    else Plan count 0 false false false false.

(** The chunk size that keeps a bulk refill inside the thread's quota. *)
Definition batch_chunk (p : pool) (size remaining : Z) : Z :=
  let want := if 64 <? remaining then 64 else remaining in
  if circuit_breaker_enabled (cf p) && (0 <? thread_quota_bytes (cf p)) then
    let cap := if q_alloc_bytes (he p) <? thread_quota_bytes (cf p)
               then u64 (thread_quota_bytes (cf p) - q_alloc_bytes (he p) + size - 1) / size else 0 in
    if cap =? 0 then 1 else if cap <? want then cap else want
  else want.

End Front.
