(* ===== verification/FrontSpec.v ===== *)
(** * The allocation front end keeps its books

    The invariant of a pool between calls - live list, headers, ownership, counters - and
    the theorems about [Front]. *)
From S2P Require Import Prelude Header Dll SizeClass Front.
From Stdlib Require Import ZArith Lia.
From stdpp Require Import base option list gmap.
Open Scope Z_scope.

Section Spec.
Context `{TT : Tiers}.

(** The bytes the live blocks asked for. *)
Definition requested_of (p : pool) (h : Z) : Z := match hdrs p !! h with Some hd => requested_size hd | None => 0 end.
Definition requested_total (p : pool) (L : list Z) : Z := foldr (fun h n => requested_of p h + n) 0 L.

(** A live block: its header, and the bytes it owns. *)
Record block_ok (p : pool) (h : Z) (hd : mp_block_header) : Prop := {
  bo_pos : 0 < h;
  bo_hdr : hdrs p !! h = Some hd;
  bo_magic : magic hd = MP_MAGIC_HEAD;
  bo_counted : counted hd = true;
  bo_size : 0 <= requested_size hd <= usable_size hd;
  bo_type : alloc_type hd = ALLOC_TYPE_SLAB \/ alloc_type hd = ALLOC_TYPE_TLSF \/ alloc_type hd = ALLOC_TYPE_OS \/
            alloc_type hd = ALLOC_TYPE_EMERGENCY;
  bo_base : alloc_type hd = ALLOC_TYPE_SLAB \/ alloc_type hd = ALLOC_TYPE_OS -> raw_base hd = h;
  bo_emergency : alloc_type hd = ALLOC_TYPE_EMERGENCY <-> h = emergency_buf (rs p);
  bo_owned : exists n, owned (tiers p) !! h = Some n /\ SIZEOF_HEADER + requested_size hd + canary_len (flags (cf p)) <= n /\
    SIZEOF_HEADER + usable_size hd <= n;
}.

(** What is handed out does not overlap. *)
Definition owned_disjoint (o : gmap Z Z) : Prop :=
  forall x y nx ny, o !! x = Some nx -> o !! y = Some ny -> x <> y -> x + nx <= y \/ y + ny <= x.

Record front_ok (p : pool) (L : list Z) : Prop := {
  fo_list : dll (alinks p) (active_head p) L;
  fo_blocks : forall h, h ∈ L -> exists hd, block_ok p h hd;
  fo_reserve : emergency_buf (rs p) <> NULL ->
    owned (tiers p) !! emergency_buf (rs p) = Some (emergency_size (rs p)) /\ 0 < emergency_size (rs p) < 2 ^ 64 /\
    (emergency_buf (rs p) ∈ L <-> emergency_used (rs p) = true);
  fo_buf : 0 <= emergency_buf (rs p);
  fo_bytes : active_bytes (ac p) = u64 (requested_total p L);
  fo_count : active_allocations (ac p) = u64 (zlen L);
  fo_ops : total_alloc_ops (ac p) = u64 (total_free_ops (ac p) + zlen L);
  fo_disjoint : owned_disjoint (owned (tiers p));
  fo_range : forall x n, owned (tiers p) !! x = Some n -> x + n < 2 ^ 64;
  fo_live_list : on p MP_FLAG_FAST_PATH = false;
}.

(** The class table serves what it is asked for. *)
Definition table_ok (p : pool) : Prop :=
  forall size, 0 < size <= SLAB_MAX_SIZE -> size <= slot_bytes (get_slab_class_index (slab_table (cf p)) size).

Lemma requested_total_eq p p' L :
  (forall h, h ∈ L -> hdrs p' !! h = hdrs p !! h) -> requested_total p' L = requested_total p L.
Proof.
  intros Hh. unfold requested_total. induction L as [|h L IH]; [done|]. cbn [foldr]. rewrite IH by (intros x Hx; apply Hh; by apply list_elem_of_further).
  unfold requested_of. by rewrite (Hh h (list_elem_of_here _ _)).
Qed.

Lemma requested_total_app p L1 L2 : requested_total p (L1 ++ L2) = requested_total p L1 + requested_total p L2.
Proof. unfold requested_total. induction L1 as [|h L IH]; cbn [app foldr]; [done|]. rewrite IH. lia. Qed.

Lemma u64_eq x y k : x = y + k * 2 ^ 64 -> u64 x = u64 y.
Proof. intros ->. unfold u64. by rewrite Z.mod_add. Qed.

(** ** Live list *)

Lemma active_list_add_spec p L h :
  dll (alinks p) (active_head p) L -> (h ∉ L) -> h <> NULL ->
  exists k, active_list_add p h = Done (set_list p h k) /\ dll k h (h :: L).
Proof.
  intros Hd Hh H0. unfold active_list_add.
  assert (Hd0 : dll (link_words (alinks p) h) (active_head p) L).
  { eapply (frame_dll [h]); [| |exact Hd].
    - eapply frame_trans; [apply (frame_nxt [h] (alinks p) h NULL), list_elem_of_here|].
      exact (frame_prv [h] (Links (<[h := NULL]> (nxt (alinks p))) (prv (alinks p))) h NULL (list_elem_of_here _ _)).
    - intros x Hx. rewrite list_elem_of_singleton. by intros ->. }
  assert (Hn : has_node (link_words (alinks p) h) h) by (split; cbn; rewrite lookup_insert_eq; eauto).
  destruct (dll_push_front_spec _ _ L h Hd0 Hh H0 Hn) as (k & -> & Hk & _). exists k. by split.
Qed.

Lemma active_list_remove_spec p L1 h L2 :
  dll (alinks p) (active_head p) (L1 ++ h :: L2) ->
  exists k hd, active_list_remove p h = Done (set_list p hd k) /\ dll k hd (L1 ++ L2).
Proof.
  intros Hd. destruct (dll_node _ _ _ h Hd) as [Hn H0]; [apply elem_of_app; right; apply list_elem_of_here|].
  unfold active_list_remove. rewrite (proj2 (Z.eqb_neq h NULL)) by done.
  destruct (dll_unlink_spec _ _ _ _ _ Hd) as (k & hd & -> & Hk & Fr). cbn [mbind outcome_bind].
  assert (Hn1 : has_node k h) by (by eapply has_node_frame).
  rewrite set_prv_node by done. cbn [mbind outcome_bind].
  assert (Hn2 : has_node (Links (nxt k) (<[h := NULL]> (prv k))) h) by (split; cbn; [apply Hn1|rewrite lookup_insert_eq; eauto]).
  rewrite set_nxt_node by done. cbn [mbind outcome_bind]. eexists _, hd. split; [done|].
  destruct Hd as [_ Hnd]. apply NoDup_app in Hnd as (Hn3 & Hn4 & Hn5). apply NoDup_cons in Hn5 as [Hn5 Hn6].
  eapply (frame_dll [h]); [| |exact Hk].
  - eapply frame_trans; [apply (frame_prv [h] k h NULL), list_elem_of_here|].
    exact (frame_nxt [h] (Links (nxt k) (<[h := NULL]> (prv k))) h NULL (list_elem_of_here _ _)).
  - intros x Hx. rewrite list_elem_of_singleton. intros ->. apply elem_of_app in Hx as [Hx|Hx]; [|done].
    apply (Hn4 h Hx). apply list_elem_of_here.
Qed.

(** ** Frames *)

(** [front_ok] does not look at the bytes, the event log or the pool's health. *)
Lemma front_ok_ext p p' L :
  cf p' = cf p -> ac p' = ac p -> rs p' = rs p -> alinks p' = alinks p -> active_head p' = active_head p ->
  hdrs p' = hdrs p -> owned (tiers p') = owned (tiers p) -> front_ok p L -> front_ok p' L.
Proof.
  intros E1 E2 E3 E4 E5 E6 E7 [].
  assert (Hr : requested_total p' L = requested_total p L) by (apply requested_total_eq; by rewrite E6).
  split; unfold on in *; rewrite ?E1, ?E2, ?E3, ?E4, ?E5, ?E6, ?E7, ?Hr; try done.
  intros h Hh. destruct (fo_blocks0 h Hh) as [hd []]. exists hd. split; rewrite ?E1, ?E3, ?E6, ?E7; done.
Qed.

Lemma front_ok_event p L ev x n : front_ok p L -> front_ok (trigger_event p ev x n) L.
Proof. apply front_ok_ext; unfold trigger_event; by destruct (has_event_cb (cf p)). Qed.

Lemma event_cf p ev x n : cf (trigger_event p ev x n) = cf p.
Proof. unfold trigger_event. by destruct (has_event_cb (cf p)). Qed.
Lemma event_he p ev x n : he (trigger_event p ev x n) = he p.
Proof. unfold trigger_event. by destruct (has_event_cb (cf p)). Qed.
Lemma event_ac p ev x n : ac (trigger_event p ev x n) = ac p.
Proof. unfold trigger_event. by destruct (has_event_cb (cf p)). Qed.
Lemma event_rs p ev x n : rs (trigger_event p ev x n) = rs p.
Proof. unfold trigger_event. by destruct (has_event_cb (cf p)). Qed.
Lemma event_hdrs p ev x n : hdrs (trigger_event p ev x n) = hdrs p.
Proof. unfold trigger_event. by destruct (has_event_cb (cf p)). Qed.
Lemma event_tiers p ev x n : tiers (trigger_event p ev x n) = tiers p.
Proof. unfold trigger_event. by destruct (has_event_cb (cf p)). Qed.
Lemma event_mem p ev x n : mem (trigger_event p ev x n) = mem p.
Proof. unfold trigger_event. by destruct (has_event_cb (cf p)). Qed.

Lemma event_links p ev x n : alinks (trigger_event p ev x n) = alinks p.
Proof. unfold trigger_event. by destruct (has_event_cb (cf p)). Qed.
Lemma event_head p ev x n : active_head (trigger_event p ev x n) = active_head p.
Proof. unfold trigger_event. by destruct (has_event_cb (cf p)). Qed.

Lemma block_ok_frame p p' h hd :
  block_ok p h hd -> cf p' = cf p -> emergency_buf (rs p') = emergency_buf (rs p) -> hdrs p' !! h = hdrs p !! h ->
  owned (tiers p') !! h = owned (tiers p) !! h -> block_ok p' h hd.
Proof. intros [] E1 E2 E3 E4. by split; rewrite ?E1, ?E2, ?E3, ?E4. Qed.

Lemma block_owned p h hd : block_ok p h hd -> exists n, owned (tiers p) !! h = Some n /\ 0 < n.
Proof. intros []. destruct bo_owned0 as (n & Hn & Hle & _). exists n. split; [done|]. unfold SIZEOF_HEADER, canary_len in *. destruct (has_flag _ _); lia. Qed.

Lemma fresh_not_live p L h n : front_ok p L -> fresh_in (owned (tiers p)) h n -> 0 < n -> (h ∉ L) /\ h <> emergency_buf (rs p).
Proof.
  intros F (H0 & _ & Hf) Hn. split.
  - intros Hh. destruct (fo_blocks _ _ F h Hh) as [hd Hb]. destruct (block_owned _ _ _ Hb) as (n' & Hn' & ?).
    destruct (Hf _ _ Hn'); lia.
  - intros E. destruct (fo_reserve _ _ F) as (He & Hp & _); [unfold NULL; lia|]. rewrite <- E in He. destruct (Hf _ _ He); lia.
Qed.

Lemma owned_disjoint_insert o h n : owned_disjoint o -> fresh_in o h n -> owned_disjoint (<[h := n]> o).
Proof.
  intros Ho (_ & _ & Hf) x y nx ny Hx Hy Hne.
  apply lookup_insert_Some in Hx as [[<- <-]|[Hx1 Hx]], Hy as [[<- <-]|[Hy1 Hy]]; try done.
  - destruct (Hf _ _ Hy); lia.
  - destruct (Hf _ _ Hx); lia.
  - by apply (Ho x y).
Qed.

(** ** Allocation *)

(** What the selected tier hands over. *)
Record served (p : pool) (size h : Z) (hd : mp_block_header) (p1 : pool) : Prop := {
  sv_cf : cf p1 = cf p;
  sv_he : he p1 = he p;
  sv_rs : rs p1 = rs p;
  sv_head : active_head p1 = active_head p;
  sv_links : alinks p1 = alinks p;
  sv_hdrs : hdrs p1 = <[h := hd]> (hdrs p);
  sv_bytes : active_bytes (ac p1) = active_bytes (ac p);
  sv_count : active_allocations (ac p1) = active_allocations (ac p);
  sv_ops : total_alloc_ops (ac p1) = total_alloc_ops (ac p);
  sv_frees : total_free_ops (ac p1) = total_free_ops (ac p);
  sv_size : requested_size hd = size;
  sv_usable : size <= usable_size hd;
  sv_magic : magic hd = MP_MAGIC_HEAD;
  sv_type : alloc_type hd = ALLOC_TYPE_SLAB \/ alloc_type hd = ALLOC_TYPE_TLSF \/ alloc_type hd = ALLOC_TYPE_OS;
  sv_base : alloc_type hd = ALLOC_TYPE_SLAB \/ alloc_type hd = ALLOC_TYPE_OS -> raw_base hd = h;
  sv_own : exists n, fresh_in (owned (tiers p)) h n /\ SIZEOF_HEADER + size + canary_len (flags (cf p)) <= n /\
    SIZEOF_HEADER + usable_size hd <= n /\ owned (tiers p1) = <[h := n]> (owned (tiers p)) /\ (forall a, a < h \/ h + n <= a -> mem p1 a = mem p a);
}.

Lemma format_block_mem p h hd a n :
  0 <= requested_size hd -> SIZEOF_HEADER + requested_size hd + canary_len (flags (cf p)) <= n -> a < h \/ h + n <= a ->
  mem (format_block p h hd) a = mem p a.
Proof.
  intros H0 Hn Ha. unfold format_block, canary_len, on in *. cbn [mem set_mem set_hdrs].
  assert (Hf : forall m x k v, a < x \/ x + k <= a -> fill m x k v a = m a).
  { intros m x k v Hx. unfold fill. destruct (Z.leb_spec x a), (Z.ltb_spec a (x + k)); cbn [andb]; try done; lia. }
  destruct (has_flag (flags (cf p)) MP_FLAG_DEBUG_CANARY), (has_flag (flags (cf p)) MP_FLAG_ZERO_ON_ALLOC); rewrite ?Hf; unfold SIZEOF_HEADER in *; (done || lia).
Qed.

(** The size classes hold what they are asked for, and the OS tier's total fits 64 bits. *)
Definition size_ok (p : pool) (size : Z) : Prop := 0 < size /\ size + SIZEOF_HEADER + 1 < 2 ^ 64.

Lemma tier_alloc_spec p size r p1 :
  table_ok p -> size_ok p size -> tier_alloc p size = (r, p1) ->
  match r with
  | None => exists b, p1 = set_tiers p b /\ owned b = owned (tiers p)
  | Some (h, hd) => served p size h hd p1
  end.
Proof.
  intros Ht [H0 H1] E. unfold tier_alloc, serve_slab, serve_tlsf, serve_os in E.
  assert (Hc : 0 <= canary_len (flags (cf p)) <= 1) by (unfold canary_len; destruct (has_flag _ _); lia).
  destruct (negb (on p MP_FLAG_STATIC_BUFFER) && (size <=? SLAB_MAX_SIZE)) eqn:E1.
  - apply andb_true_iff in E1 as [_ E1%Z.leb_le].
    destruct (slab_get (tiers p) (flags (cf p)) (get_slab_class_index (slab_table (cf p)) size)) as [slot b] eqn:Es.
    pose proof (slab_get_spec _ _ _ _ _ Es) as Sp. destruct (slot =? NULL); injection E as <- <-; [by exists b|].
    destruct Sp as [Sf So]. specialize (Ht size ltac:(lia)).
    split; try (by cbn; eauto 10); try (cbn; lia).
    eexists. split; [exact Sf|]. split; [cbn; lia|]. split; [cbn; lia|]. split; [exact So|]. intros a Ha.
    eapply (format_block_mem (set_tiers p b)); [| |exact Ha]; cbn; lia.
  - destruct ((size <=? TLSF_MAX_SIZE) || on p MP_FLAG_STATIC_BUFFER).
    + destruct (tlsf_get (tiers p) (flags (cf p)) size) as [[[h hd]|] b] eqn:Es;
        pose proof (tlsf_get_spec _ _ _ _ _ Es) as Sp; cbn in Sp; injection E as <- <-; [|by exists b].
      destruct Sp as (e & Sf & Su & Sn & Sr & Sm & Sa & So).
      split; try (by cbn; eauto 10); try (cbn; lia). { rewrite Sa. intros [?|?]; discriminate. }
      eexists. split; [exact Sf|]. split; [cbn; lia|]. split; [cbn; lia|]. split; [exact So|]. intros a Ha.
      eapply (format_block_mem (set_tiers p b)); [| |exact Ha]; cbn; lia.
    + destruct (sys_get (tiers p) (u64 (size + SIZEOF_HEADER + canary_len (flags (cf p))))) as [raw b] eqn:Es.
      pose proof (sys_get_spec _ _ _ _ Es) as Sp. destruct (raw =? NULL); injection E as <- <-; [by exists b|].
      rewrite u64_small in Sp by (unfold SIZEOF_HEADER in *; lia).
      destruct Sp as [Sf So].
      split; try (by cbn; eauto 10); try (cbn; lia).
      eexists. split; [exact Sf|]. split; [cbn; lia|]. split; [cbn; lia|]. split; [exact So|]. intros a Ha.
      eapply (format_block_mem (set_tiers p b)); [| |exact Ha]; cbn; lia.
Qed.

(** The headers, the extents and the bytes of the blocks of [L] are left alone. *)
Definition kept (p p' : pool) (L : list Z) : Prop :=
  forall x, x ∈ L -> hdrs p' !! x = hdrs p !! x /\ owned (tiers p') !! x = owned (tiers p) !! x /\
    forall n a, owned (tiers p) !! x = Some n -> x <= a < x + n -> mem p' a = mem p a.

(** [p1] is [p] with the block [h] formatted, but not yet on the live list. *)
Record formatted (p : pool) (L : list Z) (h : Z) (hd : mp_block_header) (p1 : pool) : Prop := {
  fm_cf : cf p1 = cf p;
  fm_he : he p1 = he p;
  fm_head : active_head p1 = active_head p;
  fm_links : alinks p1 = alinks p;
  fm_hdrs : hdrs p1 = <[h := hd]> (hdrs p);
  fm_bytes : active_bytes (ac p1) = active_bytes (ac p);
  fm_count : active_allocations (ac p1) = active_allocations (ac p);
  fm_ops : total_alloc_ops (ac p1) = total_alloc_ops (ac p);
  fm_frees : total_free_ops (ac p1) = total_free_ops (ac p);
  fm_new : h ∉ L;
  fm_nonnull : h <> NULL;
  fm_block : block_ok p1 h hd;
  fm_kept : kept p p1 L;
  fm_disjoint : owned_disjoint (owned (tiers p1));
  fm_range : forall x n, owned (tiers p1) !! x = Some n -> x + n < 2 ^ 64;
  fm_buf : emergency_buf (rs p1) = emergency_buf (rs p);
  fm_reserve : emergency_buf (rs p) <> NULL ->
    owned (tiers p1) !! emergency_buf (rs p) = Some (emergency_size (rs p1)) /\ 0 < emergency_size (rs p1) < 2 ^ 64 /\
    (emergency_buf (rs p) ∈ h :: L <-> emergency_used (rs p1) = true);
}.

Lemma finish_alloc_run p L h hd p1 hist :
  front_ok p L -> formatted p L h hd p1 ->
  exists p2, finish_alloc p1 h hd (requested_size hd) hist = Done p2 /\ front_ok p2 (h :: L) /\ cf p2 = cf p1 /\ mem p2 = mem p1 /\
    hdrs p2 = hdrs p1 /\ tiers p2 = tiers p1 /\ he p2 = he p1 /\ rs p2 = rs p1 /\
    active_bytes (ac p2) = u64 (active_bytes (ac p) + requested_size hd).
Proof.
  intros [] []. unfold finish_alloc. unfold on in *. rewrite fm_cf0, fo_live_list0.
  destruct (active_list_add_spec p1 L h) as (k & -> & Hk); [by rewrite fm_links0, fm_head0|done|done|]. cbn [mbind outcome_bind].
  set (a := account_alloc _ _ _). set (p2 := set_ac _ _).
  assert (Ha : forall b, let a' := if hist then bump_histogram a b else a in
    active_bytes a' = u64 (active_bytes (ac p) + requested_size hd) /\ active_allocations a' = u64 (active_allocations (ac p) + 1) /\
    total_alloc_ops a' = u64 (total_alloc_ops (ac p) + 1) /\ total_free_ops a' = total_free_ops (ac p)).
  { intros b. unfold bump_histogram. destruct hist, (b <? CMEM_HISTOGRAM_BUCKETS); cbn; by rewrite fm_bytes0, fm_count0, fm_ops0, fm_frees0. }
  destruct (Ha (get_slab_class_index (slab_table (cf (set_list p1 h k))) (requested_size hd))) as (A1 & A2 & A3 & A4). clear Ha.
  exists p2. split; [done|]. split; [|by repeat split].
  assert (Hr : requested_total p2 (h :: L) = requested_size hd + requested_total p L).
  { change (requested_total p2 (h :: L)) with (requested_of p2 h + requested_total p2 L). unfold requested_of. cbn. rewrite fm_hdrs0, lookup_insert_eq. f_equal.
    apply requested_total_eq. intros x Hx. cbn. by apply fm_kept0. }
  split.
  - exact Hk.
  - intros x [->|Hx]%elem_of_cons; [exists hd; eapply block_ok_frame; [exact fm_block0|done..]|].
    destruct (fo_blocks0 x Hx) as [hx Bx]. exists hx. destruct (fm_kept0 x Hx) as (K1 & K2 & _).
    eapply block_ok_frame; [exact Bx|done..].
  - cbn. rewrite fm_buf0. exact fm_reserve0.
  - cbn. by rewrite fm_buf0.
  - cbn [p2 set_ac ac]. rewrite A1, Hr, fo_bytes0, u64_add_l. f_equal. lia.
  - cbn [p2 set_ac ac]. rewrite A2, fo_count0, u64_add_l, zlen_cons. f_equal. lia.
  - cbn [p2 set_ac ac]. rewrite A3, A4, fo_ops0, u64_add_l, zlen_cons. f_equal. lia.
  - exact fm_disjoint0.
  - exact fm_range0.
  - unfold on. cbn. by rewrite fm_cf0.
Qed.

Lemma mark_is_counted hd : counted (mark_counted hd) = true.
Proof.
  unfold counted, mark_counted, has_flag. cbn [hflags]. apply negb_true_iff, Z.eqb_neq. intros E.
  assert (T : Z.testbit (Z.land (Z.lor (hflags hd) MP_BLOCK_FLAG_COUNTED) MP_BLOCK_FLAG_COUNTED) 1 = true)
    by (by rewrite Z.land_spec, Z.lor_spec; apply andb_true_iff; split; [apply orb_true_r|]).
  by rewrite E in T.
Qed.

(** What an allocation of [size] bytes may answer. *)
Definition alloc_answer (p : pool) (L : list Z) (size r : Z) (p' : pool) : Prop :=
  cf p' = cf p /\ he p' = he p /\ emergency_buf (rs p') = emergency_buf (rs p) /\ kept p p' L /\
  (r = NULL /\ front_ok p' L /\ ac p' = ac p \/
   exists h hd, r = h + SIZEOF_HEADER /\ (h ∉ L) /\ 0 < r /\ front_ok p' (h :: L) /\ hdrs p' !! h = Some hd /\ requested_size hd = size /\
     active_bytes (ac p') = u64 (active_bytes (ac p) + size) /\
     (over_limit p size = true -> fallback_to_sys_alloc_on_oom (cf p) = false -> h = emergency_buf (rs p))).

Lemma kept_refl p p' L : hdrs p' = hdrs p -> owned (tiers p') = owned (tiers p) -> mem p' = mem p -> kept p p' L.
Proof. intros E1 E2 E3 x _. by rewrite E1, E2, E3. Qed.

Lemma kept_trans p1 p2 p3 L : kept p1 p2 L -> kept p2 p3 L -> kept p1 p3 L.
Proof.
  intros K1 K2 x Hx. destruct (K1 x Hx) as (A1 & A2 & A3), (K2 x Hx) as (B1 & B2 & B3).
  split; [congruence|]. split; [congruence|]. intros n a Hn Ha. rewrite (B3 n a) by (by rewrite ?A2). by apply (A3 n).
Qed.

Lemma admit_and_serve_spec p L size :
  front_ok p L -> table_ok p -> size_ok p size -> (over_limit p size = true -> fallback_to_sys_alloc_on_oom (cf p) = true) ->
  exists r p', admit_and_serve p size = Done (r, p') /\ alloc_answer p L size r p'.
Proof.
  intros F Ht Hs Hlim. unfold admit_and_serve. destruct (tier_alloc p size) as [[[h hd]|] p1] eqn:E; apply tier_alloc_spec in E; try done.
  - destruct E. destruct sv_own0 as (n & Hfr & Hn & Hun & Ho & Hm). destruct Hs as [Hs1 Hs2].
    assert (Hp : 0 < n) by (unfold SIZEOF_HEADER, canary_len in *; destruct (has_flag _ _); lia).
    destruct (fresh_not_live p L h n F Hfr Hp) as [Hnew Hbuf].
    set (hd' := mark_counted hd).
    assert (Hk : kept p (set_hdrs p1 (<[h := hd']> (hdrs p1))) L).
    { intros x Hx. assert (x <> h) by (by intros ->). cbn. rewrite sv_hdrs0, Ho, !lookup_insert_ne by done.
      split; [done|]. split; [done|]. intros m a Hm' Ha. apply Hm. destruct (proj2 (proj2 Hfr) _ _ Hm'); lia. }
    edestruct (finish_alloc_run p L h hd' (set_hdrs p1 (<[h := hd']> (hdrs p1))) true F) as (p2 & E2 & F2 & C2 & M2 & H2 & T2 & He2 & R2 & B2).
    { split; cbn; try done.
      - by rewrite sv_hdrs0, insert_insert_eq.
      - destruct Hfr. unfold NULL. lia.
      - split; cbn; try done.
        + apply Hfr.
        + by rewrite lookup_insert_eq.
        + unfold counted, mark_counted. cbn. apply mark_is_counted.
        + lia.
        + tauto.
        + rewrite sv_rs0. split; [intros Ee|by intros Ee]. exfalso. destruct sv_type0 as [Ey|[Ey|Ey]]; rewrite Ey in Ee; discriminate.
        + exists n. rewrite Ho, sv_cf0, lookup_insert_eq. split; [done|]. split; [cbn; lia|done].
      - rewrite Ho. by apply owned_disjoint_insert; [apply (fo_disjoint _ _ F)|].
      - rewrite Ho. intros x m [[<- <-]|[_ Hx]]%lookup_insert_Some; [apply Hfr|by apply (fo_range _ _ F)].
      - by rewrite sv_rs0.
      - intros He. rewrite sv_rs0, Ho, lookup_insert_ne by done. destruct (fo_reserve _ _ F He) as (? & ? & Hu).
        rewrite elem_of_cons, <- Hu. split; [done|]. split; [done|]. split; [intros [Eh|?]; [by destruct Hbuf|done]|by right]. }
    cbn [requested_size mark_counted hd'] in E2, B2. rewrite sv_size0 in E2, B2. fold hd'. rewrite E2. cbn [mbind outcome_bind].
    eexists _, _. split; [done|]. split; [by rewrite event_cf, C2|]. split; [by rewrite event_he, He2|].
    split; [by rewrite event_rs, R2; cbn; rewrite sv_rs0|].
    split; [eapply kept_trans; [exact Hk|]; apply kept_refl; by rewrite ?event_hdrs, ?event_tiers, ?event_mem, ?H2, ?T2, ?M2|].
    right. exists h, hd'. split; [done|]. split; [done|]. split; [destruct Hfr; unfold SIZEOF_HEADER; lia|].
    split; [by apply front_ok_event|]. rewrite event_hdrs, event_ac, H2. cbn. rewrite lookup_insert_eq. repeat split; try done.
    intros Hl Hfb. rewrite (Hlim Hl) in Hfb. done.
  - destruct E as (b & -> & Hb). exists NULL, (set_tiers p b). split; [done|]. split; [done|]. split; [done|]. split; [done|].
    split; [by apply kept_refl|]. left. split; [done|]. split; [|done]. by apply (front_ok_ext p).
Qed.

Lemma emergency_alloc_spec p L size :
  front_ok p L -> size_ok p size -> reserve_fits p size = true ->
  exists r p', emergency_alloc p size = Done (r, p') /\ alloc_answer p L size r p'.
Proof.
  intros F [Hs1 Hs2] Hr. unfold reserve_fits in Hr. apply andb_true_iff in Hr as [[Hb Hu]%andb_true_iff Hz%Z.leb_le].
  apply negb_true_iff, Z.eqb_neq in Hb. apply negb_true_iff in Hu.
  assert (Hc : 0 <= canary_len (flags (cf p)) <= 1) by (unfold canary_len; destruct (has_flag _ _); lia).
  rewrite u64_small in Hz by (unfold SIZEOF_HEADER in *; lia).
  destruct (fo_reserve _ _ F Hb) as (Ho & Hpos & Hl). set (h := emergency_buf (rs p)) in *.
  assert (Hnew : h ∉ L) by (intros Hh; apply Hl in Hh; congruence).
  unfold emergency_alloc. fold h.
  set (hd := Header _ _ _ _ _ _ _ _ _ _ _ _). set (q := format_block _ h hd).
  assert (Hk : kept p q L).
  { intros x Hx. assert (x <> h) by (by intros ->). subst q. cbn -[format_block]. split; [cbn; by rewrite lookup_insert_ne|]. split; [done|].
    intros m a Hm Ha. apply (format_block_mem (set_rs p (Reserve h (emergency_size (rs p)) true)) h hd a (emergency_size (rs p))); cbn; [lia|lia|].
    destruct (fo_disjoint _ _ F _ _ _ _ Hm Ho); [done|lia|lia]. }
  edestruct (finish_alloc_run p L h hd q false F) as (p2 & E2 & F2 & C2 & M2 & H2 & T2 & He2 & R2 & B2).
  { split; try done.
    - split; cbn; try done.
      + pose proof (fo_buf _ _ F). unfold NULL in *. lia.
      + by rewrite lookup_insert_eq.
      + split; [lia|]. unfold hd. cbn [usable_size]. rewrite u64_small; unfold SIZEOF_HEADER in *; lia.
      + tauto.
      + exists (emergency_size (rs p)). split; [done|]. split; [cbn; lia|]. cbn [usable_size]. rewrite u64_small; unfold SIZEOF_HEADER in *; lia.
    - apply (fo_disjoint _ _ F).
    - apply (fo_range _ _ F).
    - intros _. cbn. split; [done|]. split; [done|]. rewrite elem_of_cons. tauto. }
  cbn [requested_size hd] in E2. fold hd in E2. rewrite E2. cbn [mbind outcome_bind].
  eexists _, _. split; [done|]. split; [by rewrite C2|]. split; [by rewrite He2|]. split; [by rewrite R2|].
  split; [eapply kept_trans; [exact Hk|]; apply kept_refl; by rewrite ?H2, ?T2, ?M2|].
  right. exists h, hd. split; [done|]. split; [done|]. rewrite H2.
  split; [pose proof (fo_buf _ _ F); unfold NULL, SIZEOF_HEADER in *; lia|]. split; [done|].
  split; [cbn; by rewrite lookup_insert_eq|]. by split.
Qed.

Lemma mp_alloc_internal_spec p L size :
  front_ok p L -> table_ok p -> size_ok p size -> exists r p', mp_alloc_internal p size = Done (r, p') /\ alloc_answer p L size r p'.
Proof.
  intros F Ht Hs. unfold mp_alloc_internal.
  assert (Hnull : forall p', cf p' = cf p -> he p' = he p -> hdrs p' = hdrs p -> tiers p' = tiers p -> mem p' = mem p -> ac p' = ac p -> rs p' = rs p ->
    front_ok p' L -> exists r p'', Done (NULL, p') = Done (r, p'') /\ alloc_answer p L size r p'').
  { intros p' E1 E2 E3 E4 E5 E6 E7 F'. exists NULL, p'. split; [done|]. split; [done|]. split; [done|]. split; [by rewrite E7|].
    split; [apply kept_refl; by rewrite ?E4|]. left. by split. }
  destruct (size =? 0); [by apply Hnull|].
  destruct (is_dirty (he p) && _); [by apply Hnull|]. destruct (circuit_breaker_enabled (cf p) && _); [by apply Hnull|].
  destruct (over_limit p size) eqn:El; [|apply admit_and_serve_spec; [done..|congruence]].
  set (q := trigger_event p MP_EVENT_OOM NULL size).
  assert (Fq : front_ok q L) by (by apply front_ok_event).
  assert (Hq : forall r p', alloc_answer q L size r p' -> alloc_answer p L size r p').
  { unfold alloc_answer, kept, over_limit. unfold q. by rewrite event_cf, event_he, event_ac, event_rs, event_hdrs, event_tiers, event_mem. }
  assert (Hsq : size_ok q size) by done.
  destruct (fallback_to_sys_alloc_on_oom (cf q)) eqn:Ef.
  - destruct (admit_and_serve_spec q L size) as (r & p' & E & A); try done.
    + unfold table_ok, q. by rewrite event_cf.
    + exists r, p'. split; [done|]. by apply Hq.
  - destruct (reserve_fits q size) eqn:Er.
    + destruct (emergency_alloc_spec q L size) as (r & p' & E & A); try done. exists r, p'. split; [done|]. by apply Hq.
    + unfold q. apply Hnull; by rewrite ?event_cf, ?event_he, ?event_ac, ?event_rs, ?event_rs, ?event_hdrs, ?event_tiers, ?event_mem.
Qed.

(** ** Release *)

Lemma dll_middle k hd (L1 : list Z) h L2 x : dll k hd (L1 ++ h :: L2) -> x ∈ L1 ++ L2 -> x <> h.
Proof.
  intros [_ Hn] Hx ->. apply NoDup_app in Hn as (_ & H1 & H2). apply NoDup_cons in H2 as [H2 _].
  apply elem_of_app in Hx as [Hx|Hx]; [|done]. apply (H1 h Hx), list_elem_of_here.
Qed.

(** Whatever way a slab slot goes back, the books are adjusted once and the block leaves the list. *)
Lemma slab_stats_run p h hd r :
  on p MP_FLAG_FAST_PATH = false -> counted hd = true ->
  (r = ViaRemote -> on p MP_FLAG_THREAD_SAFE = true) -> (r = ViaPage -> on p MP_FLAG_THREAD_SAFE = false) ->
  slab_stats p h hd r = mp_free_stats_update p h hd.
Proof.
  intros Hf Hc H1 H2. unfold slab_stats. rewrite Hc, Hf.
  assert (E : active_list_remove (mp_free_stats_no_lock p hd) h = mp_free_stats_update p h hd).
  { unfold mp_free_stats_update. rewrite Hf. unfold active_list_remove. destruct (h =? NULL); [done|]. cbn.
    destruct (dll_unlink (alinks p) (active_head p) h) as [[k x]| |]; [|done..]. cbn.
    destruct (set_prv k h NULL) as [k1| |]; [|done..]. cbn. by destruct (set_nxt k1 h NULL). }
  destruct r, (on p MP_FLAG_THREAD_SAFE); cbn; try done; try (by specialize (H1 eq_refl)).
Qed.

(** A block left the live list and its extent is free again. *)
Lemma front_ok_drop p L1 h L2 hd p' :
  front_ok p (L1 ++ h :: L2) -> hdrs p !! h = Some hd -> cf p' = cf p -> dll (alinks p') (active_head p') (L1 ++ L2) ->
  (forall x, x <> h -> hdrs p' !! x = hdrs p !! x) -> (forall x, x <> h -> owned (tiers p') !! x = owned (tiers p) !! x) ->
  (forall x n, owned (tiers p') !! x = Some n -> owned (tiers p) !! x = Some n) -> emergency_buf (rs p') = emergency_buf (rs p) -> emergency_size (rs p') = emergency_size (rs p) ->
  (if decide (h = emergency_buf (rs p)) then emergency_used (rs p') = false /\ owned (tiers p') !! h = owned (tiers p) !! h
   else emergency_used (rs p') = emergency_used (rs p)) ->
  active_bytes (ac p') = u64 (active_bytes (ac p) - requested_size hd) -> active_allocations (ac p') = u64 (active_allocations (ac p) - 1) ->
  total_alloc_ops (ac p') = total_alloc_ops (ac p) -> total_free_ops (ac p') = u64 (total_free_ops (ac p) + 1) ->
  front_ok p' (L1 ++ L2).
Proof.
  intros F Hhd E1 Hd Hh Ho Hdis Eb Es Eu A1 A2 A3 A4.
  assert (Hne : forall x, x ∈ L1 ++ L2 -> x <> h) by (intros x; apply (dll_middle _ _ _ _ _ _ (fo_list _ _ F))).
  assert (Hin : forall x, x ∈ L1 ++ L2 -> x ∈ L1 ++ h :: L2) by (intros x; rewrite !elem_of_app, elem_of_cons; tauto).
  assert (Hsub : requested_total p' (L1 ++ L2) = requested_total p (L1 ++ h :: L2) - requested_size hd).
  { rewrite (requested_total_eq p p' (L1 ++ L2)) by (intros x Hx; apply Hh, Hne, Hx). rewrite !requested_total_app.
    change (requested_total p (h :: L2)) with (requested_of p h + requested_total p L2). unfold requested_of. rewrite Hhd. lia. }
  assert (Hlen : zlen (L1 ++ L2) = zlen (L1 ++ h :: L2) - 1) by (rewrite !zlen_app, zlen_cons; lia).
  destruct F. split.
  - done.
  - intros x Hx. destruct (fo_blocks0 x (Hin x Hx)) as [hx Bx]. exists hx.
    eapply block_ok_frame; [exact Bx|done|done|apply Hh, Hne, Hx|apply Ho, Hne, Hx].
  - rewrite Eb, Es. intros Hnn. destruct (fo_reserve0 Hnn) as (R1 & R2 & R3). destruct (decide (h = emergency_buf (rs p))) as [->|Hn].
    + destruct Eu as [Eu Eo]. rewrite Eo, Eu. split; [done|]. split; [done|]. split; [|done]. intros Hx. by destruct (Hne _ Hx).
    + rewrite Ho by (by intros ?). split; [done|]. split; [done|]. rewrite Eu, <- R3. split; [apply Hin|].
      rewrite !elem_of_app, elem_of_cons. intros [?|[?|?]]; [by left|by destruct Hn|by right].
  - by rewrite Eb.
  - by rewrite A1, fo_bytes0, u64_sub_l, Hsub.
  - by rewrite A2, fo_count0, u64_sub_l, Hlen.
  - rewrite A3, A4, fo_ops0, u64_add_l, Hlen. f_equal. lia.
  - intros x y nx ny Hx Hy. by apply fo_disjoint0; apply Hdis.
  - intros x n Hx. by apply fo_range0, Hdis.
  - unfold on in *. by rewrite E1.
Qed.

Lemma free_stats_run p L1 h L2 hd :
  front_ok p (L1 ++ h :: L2) ->
  exists k x, mp_free_stats_update p h hd = Done (set_ac (set_list p x k) (account_free (ac p) (requested_size hd))) /\ dll k x (L1 ++ L2).
Proof.
  intros F. unfold mp_free_stats_update. rewrite (fo_live_list _ _ F).
  destruct (active_list_remove_spec p L1 h L2 (fo_list _ _ F)) as (k & x & -> & Hk). by exists k, x.
Qed.

(** The pool after the poison and the canary check of [mp_free]. *)
Definition scrub (p : pool) (ptr : Z) (hd : mp_block_header) : pool :=
  let p := if on p MP_FLAG_POISON_ON_FREE then set_mem p (fill (mem p) ptr (requested_size hd) MP_POISON_BYTE) else p in
  if on p MP_FLAG_DEBUG_CANARY then mp_verify_free_canary p ptr hd else p.

(** What [scrub] leaves alone: all but the payload, the health and the events. *)
Lemma scrub_same p ptr hd :
  let q := scrub p ptr hd in
  cf q = cf p /\ ac q = ac p /\ rs q = rs p /\ alinks q = alinks p /\ active_head q = active_head p /\ hdrs q = hdrs p /\
  tiers q = tiers p /\ forall a, a < ptr \/ ptr + requested_size hd <= a -> mem q a = mem p a.
Proof.
  unfold scrub, mp_verify_free_canary, mp_mark_pool_dirty.
  set (p1 := if on p MP_FLAG_POISON_ON_FREE then _ else _).
  assert (E : cf p1 = cf p /\ ac p1 = ac p /\ rs p1 = rs p /\ alinks p1 = alinks p /\ active_head p1 = active_head p /\ hdrs p1 = hdrs p /\
    tiers p1 = tiers p /\ forall a, a < ptr \/ ptr + requested_size hd <= a -> mem p1 a = mem p a).
  { unfold p1. destruct (on p MP_FLAG_POISON_ON_FREE); [|done]. cbn. repeat split; try done. intros a Ha. unfold fill.
    destruct (Z.leb_spec ptr a), (Z.ltb_spec a (ptr + requested_size hd)); cbn; try done; lia. }
  destruct (on p1 MP_FLAG_DEBUG_CANARY); [|done]. destruct (_ =? MP_CANARY_BYTE); [done|].
  unfold trigger_event. cbn. destruct (has_event_cb (cf p1)) eqn:Ec; cbn; rewrite ?Ec; exact E.
Qed.

(** [mp_free] with the poison and canary steps named. *)
Definition release (p : pool) (ptr : Z) (hd : mp_block_header) : outcome pool :=
  let h := ptr - SIZEOF_HEADER in
  let fl := flags (cf p) in
  let ev p := trigger_event p MP_EVENT_FREE ptr (requested_size hd) in
  if alloc_type hd =? ALLOC_TYPE_SLAB then
    let '(r, b) := slab_put (tiers p) fl (slab_class hd) (raw_base hd) in
    p ← slab_stats p h hd r;
    Done (ev (set_tiers (set_hdrs p (delete h (hdrs p))) b))
  else
    p ← (if counted hd then mp_free_stats_update p h hd else Done p);
    if alloc_type hd =? ALLOC_TYPE_TLSF then
      let '(hd', b) := tlsf_put (tiers p) h hd in
      Done (ev (set_tiers (set_hdrs p (<[h := hd']> (hdrs p))) b))
    else if alloc_type hd =? ALLOC_TYPE_OS then
      let a := add_os (ac p) (- requested_size hd) (- (requested_size hd + SIZEOF_HEADER + canary_len fl)) in
      Done (ev (set_tiers (set_hdrs (set_ac p a) (delete h (hdrs p))) (sys_put (tiers p) (raw_base hd) (requested_size hd))))
    else if alloc_type hd =? ALLOC_TYPE_EMERGENCY then
      Done (ev (set_rs p (Reserve (emergency_buf (rs p)) (emergency_size (rs p)) false)))
    else Done (ev p).

Lemma mp_free_eq p h hd :
  h + SIZEOF_HEADER <> NULL -> hdrs p !! h = Some hd -> magic hd = MP_MAGIC_HEAD ->
  mp_free p (h + SIZEOF_HEADER) = release (scrub p (h + SIZEOF_HEADER) hd) (h + SIZEOF_HEADER) hd.
Proof.
  intros H0 Hh Hm. unfold mp_free. rewrite (proj2 (Z.eqb_neq _ _)) by done.
  replace (h + SIZEOF_HEADER - SIZEOF_HEADER) with h by lia. unfold ld_hdr. rewrite Hh. cbn [mbind outcome_bind]. rewrite Hm. cbn [Z.eqb negb].
  unfold release. replace (h + SIZEOF_HEADER - SIZEOF_HEADER) with h by lia. done.
Qed.

Lemma release_spec p L1 h L2 hd :
  front_ok p (L1 ++ h :: L2) -> hdrs p !! h = Some hd ->
  exists p', release p (h + SIZEOF_HEADER) hd = Done p' /\ front_ok p' (L1 ++ L2) /\ emergency_buf (rs p') = emergency_buf (rs p) /\ cf p' = cf p /\ mem p' = mem p /\ he p' = he p /\
    kept p p' (L1 ++ L2) /\ owned (tiers p') = (if decide (h = emergency_buf (rs p)) then owned (tiers p) else delete h (owned (tiers p))) /\
    active_bytes (ac p') = u64 (active_bytes (ac p) - requested_size hd).
Proof.
  intros F Hh. destruct (fo_blocks _ _ F h) as [hd' [Hpos Hh' Hm Hc Hsz Hty Hb He (n & Hn & Hn2)]]; [rewrite elem_of_app, elem_of_cons; tauto|].
  assert (hd' = hd) as -> by congruence. clear Hh'.
  destruct (free_stats_run p L1 h L2 hd F) as (k & x & Hst & Hk). set (q := set_ac _ _) in Hst.
  assert (Hne : forall y, y ∈ L1 ++ L2 -> y <> h) by (intros y; apply (dll_middle _ _ _ _ _ _ (fo_list _ _ F))).
  (* the four ways differ only in what happens to the header and the extent *)
  assert (K : forall p', cf p' = cf p -> alinks p' = k -> active_head p' = x -> mem p' = mem p -> he p' = he p ->
    (forall y, y <> h -> hdrs p' !! y = hdrs p !! y) ->
    (if decide (h = emergency_buf (rs p))
     then rs p' = Reserve (emergency_buf (rs p)) (emergency_size (rs p)) false /\ owned (tiers p') = owned (tiers p)
     else rs p' = rs p /\ owned (tiers p') = delete h (owned (tiers p))) ->
    active_bytes (ac p') = active_bytes (ac q) -> active_allocations (ac p') = active_allocations (ac q) ->
    total_alloc_ops (ac p') = total_alloc_ops (ac q) -> total_free_ops (ac p') = total_free_ops (ac q) ->
    exists p'', Done p' = Done p'' /\ front_ok p'' (L1 ++ L2) /\ emergency_buf (rs p'') = emergency_buf (rs p) /\ cf p'' = cf p /\ mem p'' = mem p /\ he p'' = he p /\
      kept p p'' (L1 ++ L2) /\ owned (tiers p'') = (if decide (h = emergency_buf (rs p)) then owned (tiers p) else delete h (owned (tiers p))) /\
      active_bytes (ac p'') = u64 (active_bytes (ac p) - requested_size hd)).
  { intros p' E1 E2 E3 E4 E5 E6 E7 A1 A2 A3 A4. exists p'. split; [done|].
    assert (Ho : forall y, y <> h -> owned (tiers p') !! y = owned (tiers p) !! y).
    { intros y Hy. destruct (decide (h = emergency_buf (rs p))), E7 as [_ ->]; [done|]. by rewrite lookup_delete_ne by done. }
    assert (Hb' : emergency_buf (rs p') = emergency_buf (rs p)) by (by destruct (decide (h = emergency_buf (rs p))), E7 as [-> _]).
    split; [|split; [done|split; [done|split; [done|split; [done|split; [|split]]]]]].
    - eapply (front_ok_drop p L1 h L2 hd p' F Hh); try done.
      + by rewrite E2, E3.
      + intros y m. destruct (decide (h = emergency_buf (rs p))), E7 as [_ ->]; [done|]. by intros [_ ?]%lookup_delete_Some.
      + by destruct (decide (h = emergency_buf (rs p))), E7 as [-> _].
      + destruct (decide (h = emergency_buf (rs p))), E7 as [E7 Eo]; rewrite E7; [by rewrite Eo|done].
    - intros y Hy. specialize (Hne y Hy). split; [by apply E6|]. split; [by apply Ho|]. by rewrite E4.
    - by destruct (decide (h = emergency_buf (rs p))), E7.
    - by rewrite A1. }
  unfold release. replace (h + SIZEOF_HEADER - SIZEOF_HEADER) with h by lia. rewrite Hc.
  destruct (alloc_type hd =? ALLOC_TYPE_SLAB) eqn:E1.
  - apply Z.eqb_eq in E1. destruct (slab_put (tiers p) (flags (cf p)) (slab_class hd) (raw_base hd)) as [r b] eqn:Es.
    apply slab_put_spec in Es as (Eo & R1 & R2). rewrite slab_stats_run; [|apply (fo_live_list _ _ F)|done..]. rewrite Hst. cbn [mbind outcome_bind].
    apply K; rewrite ?event_cf, ?event_ac, ?event_rs, ?event_hdrs, ?event_tiers, ?event_mem, ?event_he, ?event_links, ?event_head; try done.
    + intros y Hy. cbn. by rewrite lookup_delete_ne by done.
    + destruct (decide (h = emergency_buf (rs p))) as [E|]; [apply He in E; rewrite E1 in E; done|]. split; [done|].
      cbn. rewrite Eo. by rewrite (Hb (or_introl E1)).
  - rewrite Hst. cbn [mbind outcome_bind]. destruct (alloc_type hd =? ALLOC_TYPE_TLSF) eqn:E2.
    + apply Z.eqb_eq in E2. destruct (tlsf_put (tiers q) h hd) as [hd' b] eqn:Es. apply tlsf_put_spec in Es.
      apply K; rewrite ?event_cf, ?event_ac, ?event_rs, ?event_hdrs, ?event_tiers, ?event_mem, ?event_he, ?event_links, ?event_head; try done.
      * intros y Hy. cbn. by rewrite lookup_insert_ne by done.
      * destruct (decide (h = emergency_buf (rs p))) as [E|]; [apply He in E; rewrite E2 in E; done|]. by split.
    + destruct (alloc_type hd =? ALLOC_TYPE_OS) eqn:E3.
      * apply Z.eqb_eq in E3.
        apply K; rewrite ?event_cf, ?event_ac, ?event_rs, ?event_hdrs, ?event_tiers, ?event_mem, ?event_he, ?event_links, ?event_head; try done.
        -- intros y Hy. cbn. by rewrite lookup_delete_ne by done.
        -- destruct (decide (h = emergency_buf (rs p))) as [E|]; [apply He in E; rewrite E3 in E; done|]. split; [done|].
           cbn. rewrite sys_put_spec. by rewrite (Hb (or_intror E3)).
      * assert (Et : alloc_type hd = ALLOC_TYPE_EMERGENCY).
        { apply Z.eqb_neq in E1, E2, E3. destruct Hty as [?|[?|[?|?]]]; done. }
        rewrite (proj2 (Z.eqb_eq _ _) Et).
        apply K; rewrite ?event_cf, ?event_ac, ?event_rs, ?event_hdrs, ?event_tiers, ?event_mem, ?event_he, ?event_links, ?event_head; try done.
        rewrite decide_True by (by apply He). done.
Qed.

Lemma mp_free_spec p L1 h L2 :
  front_ok p (L1 ++ h :: L2) ->
  exists hd p', hdrs p !! h = Some hd /\ mp_free p (h + SIZEOF_HEADER) = Done p' /\ front_ok p' (L1 ++ L2) /\
    emergency_buf (rs p') = emergency_buf (rs p) /\ cf p' = cf p /\
    kept p p' (L1 ++ L2) /\ owned (tiers p') = (if decide (h = emergency_buf (rs p)) then owned (tiers p) else delete h (owned (tiers p))) /\
    he p' = he (scrub p (h + SIZEOF_HEADER) hd) /\ active_bytes (ac p') = u64 (active_bytes (ac p) - requested_size hd).
Proof.
  intros F. destruct (fo_blocks _ _ F h) as [hd B]; [rewrite elem_of_app, elem_of_cons; tauto|]. exists hd.
  pose proof (bo_pos _ _ _ B) as H0.
  destruct (scrub_same p (h + SIZEOF_HEADER) hd) as (S1 & S2 & S3 & S4 & S5 & S6 & S7 & S8). set (q := scrub _ _ _) in *.
  assert (Fq : front_ok q (L1 ++ h :: L2)) by (by apply (front_ok_ext p); rewrite ?S7).
  destruct (release_spec q L1 h L2 hd Fq) as (p' & E & F' & Eb & C & M & Hhe & K & O & A); [by rewrite S6; apply B|].
  exists p'. split; [apply B|]. split; [rewrite (mp_free_eq p h hd); [done|unfold NULL, SIZEOF_HEADER; lia|apply B|apply B]|].
  split; [done|]. split; [congruence|]. split; [congruence|]. split; [|split; [by rewrite O, S3, S7|split; [done|by rewrite A, S2]]].
  intros y Hy. destruct (K y Hy) as (K1 & K2 & K3). rewrite S6 in K1. rewrite S7 in K2, K3. split; [done|]. split; [done|].
  intros n a Hn Ha. rewrite (K3 n a Hn Ha). apply S8.
  destruct (bo_owned _ _ _ B) as (nh & Hnh & Hle & _).
  assert (y <> h) by (by apply (dll_middle _ _ _ _ _ _ (fo_list _ _ F))).
  assert (0 <= canary_len (flags (cf p))) by (unfold canary_len; destruct (has_flag _ _); lia).
  destruct (fo_disjoint _ _ F _ _ _ _ Hn Hnh); [done| |]; unfold SIZEOF_HEADER in *; lia.
Qed.

End Spec.
