(* ===== verification/FrontProps.v ===== *)
(** * What the front end promises

    The theorems about [Front]: exact books over any run of a client, contents across
    [mp_realloc], the memory limit one request at a time and for a batch, the canary,
    pointer validation, and where the accounting and the checks give way; with a toy
    instance of [Tiers] to run them on. *)
From S2P Require Import Prelude Header Dll SizeClass Front FrontSpec.
From Stdlib Require Import ZArith Lia.
From stdpp Require Import base option list gmap.
Open Scope Z_scope.

(** ** A client *)

(** Ask for [n] bytes; release the [i]-th live block. *)
Inductive request := Ask (n : Z) | Release (i : nat).

Section Client.
Context `{TT : Tiers}.

Definition client_step (s : pool * list Z) (q : request) : outcome (pool * list Z) :=
  let '(p, L) := s in
  match q with
  | Ask n => r ← mp_alloc p n; let '(ptr, p) := r in Done (p, if ptr =? NULL then L else (ptr - SIZEOF_HEADER) :: L)
  | Release i => match L !! i with None => Done s | Some h => p ← mp_free p (h + SIZEOF_HEADER); Done (p, delete i L) end
  end.

Fixpoint client_run (s : pool * list Z) (qs : list request) : outcome (pool * list Z) :=
  match qs with [] => Done s | q :: qs => s ← client_step s q; client_run s qs end.

Definition sane (q : request) : Prop := match q with Ask n => 0 <= n /\ n + SIZEOF_HEADER + 1 < 2 ^ 64 | Release _ => True end.

Lemma breaker_same p n :
  let q := breaker_accrue p n in
  cf q = cf p /\ ac q = ac p /\ rs q = rs p /\ alinks q = alinks p /\ active_head q = active_head p /\ hdrs q = hdrs p /\
  tiers q = tiers p /\ mem q = mem p.
Proof. unfold breaker_accrue. by destruct (circuit_breaker_enabled (cf p)). Qed.

(** [alloc_answer] for [mp_alloc], which also accrues the thread's quota. *)
Lemma mp_alloc_spec p L size :
  front_ok p L -> table_ok p -> on p MP_FLAG_CACHE_ALIGNED = false -> 0 <= size -> size + SIZEOF_HEADER + 1 < 2 ^ 64 ->
  exists r p1 p', mp_alloc p size = Done (r, p') /\ alloc_answer p L size r p1 /\
    (p' = p1 \/ p' = breaker_accrue p1 size) /\ (r = NULL -> p' = p1).
Proof.
  intros F Ht Hca H0 H1. unfold mp_alloc. rewrite Hca. destruct (Z.eqb_spec size 0) as [->|Hz].
  { exists NULL, p, p. split; [done|]. split; [|tauto]. split; [done|]. split; [done|]. split; [done|]. split; [by apply kept_refl|]. by left. }
  destruct (mp_alloc_internal_spec p L size F Ht) as (r & p1 & -> & A); [split; lia|]. cbn [mbind outcome_bind].
  destruct (Z.eqb_spec r NULL) as [->|Hr].
  - exists NULL, p1, p1. tauto.
  - exists r, p1, (breaker_accrue p1 size). tauto.
Qed.

Lemma breaker_front p p' L size : front_ok p L -> p' = p \/ p' = breaker_accrue p size -> front_ok p' L.
Proof.
  intros F [->| ->]; [done|]. destruct (breaker_same p size) as (B1 & B2 & B3 & B4 & B5 & B6 & B7 & B8).
  apply (front_ok_ext p); by rewrite ?B7.
Qed.

Lemma breaker_kept p p' L size : p' = p \/ p' = breaker_accrue p size -> kept p p' L.
Proof.
  intros [->| ->]; [by apply kept_refl|]. destruct (breaker_same p size) as (B1 & B2 & B3 & B4 & B5 & B6 & B7 & B8).
  apply kept_refl; by rewrite ?B7.
Qed.

Lemma breaker_cf p p' size : p' = p \/ p' = breaker_accrue p size -> cf p' = cf p.
Proof. intros [->| ->]; [done|]. apply breaker_same. Qed.

Lemma blocks_disjoint p L h1 h2 d1 d2 :
  front_ok p L -> h1 ∈ L -> h2 ∈ L -> h1 <> h2 -> hdrs p !! h1 = Some d1 -> hdrs p !! h2 = Some d2 ->
  h1 + SIZEOF_HEADER + requested_size d1 <= h2 \/ h2 + SIZEOF_HEADER + requested_size d2 <= h1.
Proof.
  intros F H1 H2 Hne E1 E2. destruct (fo_blocks _ _ F h1 H1) as [x1 B1], (fo_blocks _ _ F h2 H2) as [x2 B2].
  assert (x1 = d1) as -> by (pose proof (bo_hdr _ _ _ B1); congruence). assert (x2 = d2) as -> by (pose proof (bo_hdr _ _ _ B2); congruence).
  destruct (bo_owned _ _ _ B1) as (n1 & O1 & _ & U1), (bo_owned _ _ _ B2) as (n2 & O2 & _ & U2).
  pose proof (bo_size _ _ _ B1). pose proof (bo_size _ _ _ B2). destruct (fo_disjoint _ _ F _ _ _ _ O1 O2 Hne); lia.
Qed.

Lemma client_step_ok p L q :
  front_ok p L -> table_ok p -> on p MP_FLAG_CACHE_ALIGNED = false -> sane q ->
  exists p' L', client_step (p, L) q = Done (p', L') /\ front_ok p' L' /\ cf p' = cf p.
Proof.
  intros F Ht Hca Hq. destruct q as [n|i]; cbn [client_step].
  - destruct Hq as [H0 H1]. destruct (mp_alloc_spec p L n F Ht Hca H0 H1) as (r & p1 & p' & -> & A & Hp & Hn). cbn [mbind outcome_bind].
    destruct A as (C & _ & _ & _ & [(-> & F' & _)|(h & hd & -> & _ & Hr & F' & _)]); eexists _, _; (split; [done|]).
    + rewrite (Hn eq_refl). by split.
    + rewrite (proj2 (Z.eqb_neq _ _)) by (unfold NULL; lia). replace (h + SIZEOF_HEADER - SIZEOF_HEADER) with h by lia.
      split; [by eapply breaker_front|]. by rewrite (breaker_cf _ _ _ Hp).
  - destruct (L !! i) as [h|] eqn:E; [|by exists p, L].
    pose proof (take_drop_middle L i h E) as EL. rewrite <- EL in F.
    destruct (mp_free_spec p _ h _ F) as (hd & p' & _ & -> & F' & Eb & C & _). cbn [mbind outcome_bind].
    exists p', (delete i L). rewrite delete_take_drop. by split.
Qed.

Lemma client_run_ok p L qs :
  front_ok p L -> table_ok p -> on p MP_FLAG_CACHE_ALIGNED = false -> Forall sane qs ->
  exists p' L', client_run (p, L) qs = Done (p', L') /\ front_ok p' L' /\ cf p' = cf p.
Proof.
  intros F Ht Hca Hq. revert p Ht Hca L F. induction Hq as [|q qs Hq1 Hq IH]; intros p Ht Hca L F; [by exists p, L|].
  cbn [client_run]. destruct (client_step_ok p L q F Ht Hca Hq1) as (p1 & L1 & -> & F1 & C). cbn [mbind outcome_bind].
  destruct (IH p1) with (L := L1) as (p' & L' & E & F' & C'); [by unfold table_ok; rewrite C|unfold on in *; by rewrite C|done|].
  exists p', L'. by rewrite C'.
Qed.

(** C2: the books are exact.  A client that asks and releases in any order never makes the
    front end fault, and after any such run the live list holds exactly the blocks the
    client has, the counters are their number and the sum of their requests, every block
    has a sound header, and no two payloads overlap. *)
Theorem front_accounting p qs :
  front_ok p [] -> table_ok p -> on p MP_FLAG_CACHE_ALIGNED = false -> Forall sane qs ->
  exists p' L, client_run (p, []) qs = Done (p', L) /\ dll (alinks p') (active_head p') L /\
    active_bytes (ac p') = u64 (requested_total p' L) /\ active_allocations (ac p') = u64 (zlen L) /\
    total_alloc_ops (ac p') = u64 (total_free_ops (ac p') + zlen L) /\
    (forall h, h ∈ L -> exists hd, hdrs p' !! h = Some hd /\ magic hd = MP_MAGIC_HEAD /\ 0 <= requested_size hd <= usable_size hd) /\
    (forall h1 h2 d1 d2, h1 ∈ L -> h2 ∈ L -> h1 <> h2 -> hdrs p' !! h1 = Some d1 -> hdrs p' !! h2 = Some d2 ->
       h1 + SIZEOF_HEADER + requested_size d1 <= h2 \/ h2 + SIZEOF_HEADER + requested_size d2 <= h1).
Proof.
  intros F Ht Hca Hq.
  destruct (client_run_ok p [] qs F Ht Hca Hq) as (p' & L & E & F' & _). exists p', L. split; [done|]. split; [apply F'|]. split; [apply F'|]. split; [apply F'|].
  split; [apply F'|]. split; [intros h Hh; destruct (fo_blocks _ _ F' h Hh) as [hd []]; by exists hd|].
  intros h1 h2 d1 d2 H1 H2 Hne E1 E2. by apply (blocks_disjoint p' L).
Qed.

(** ** Resizing *)

Lemma fill_outside m x n v a : a < x \/ x + n <= a -> fill m x n v a = m a.
Proof. intros H. unfold fill. destruct (Z.leb_spec x a), (Z.ltb_spec a (x + n)); cbn; try done; lia. Qed.

Lemma copy_inside m dst src n a : dst <= a < dst + n -> copy m dst src n a = m (a - dst + src).
Proof. intros H. unfold copy. by rewrite (proj2 (Z.leb_le dst a)), (proj2 (Z.ltb_lt a (dst + n))) by lia. Qed.

Lemma copy_outside m dst src n a : a < dst \/ dst + n <= a -> copy m dst src n a = m a.
Proof. intros H. unfold copy. destruct (Z.leb_spec dst a), (Z.ltb_spec a (dst + n)); cbn; try done; lia. Qed.

Lemma stamp_canary_same p x :
  let q := stamp_canary p x in
  hdrs q = hdrs p /\ tiers q = tiers p /\ forall a, a < x \/ x + canary_len (flags (cf p)) <= a -> mem q a = mem p a.
Proof.
  unfold stamp_canary, canary_len, on. destruct (has_flag (flags (cf p)) MP_FLAG_DEBUG_CANARY); [|done].
  split; [done|]. split; [done|]. intros a Ha. by apply fill_outside.
Qed.

Lemma canary_len_range f : 0 <= canary_len f <= 1.
Proof. unfold canary_len. destruct (has_flag _ _); lia. Qed.

(** What [mp_realloc] may answer for the block [h] with header [hd] among the blocks [L]. *)
Definition realloc_answer (p : pool) (L : list Z) (h : Z) (hd : mp_block_header) (new_size r : Z) (p' : pool) : Prop :=
  kept p p' L /\
  (r = NULL /\ kept p p' [h] \/
   0 < r /\ forall i, 0 <= i < Z.min (requested_size hd) new_size -> mem p' (r + i) = mem p (h + SIZEOF_HEADER + i)).

(** The block stays where it is: its header is replaced and a canary is written inside its extent [e]. *)
Lemma realloc_in_place p L1 h L2 hd hd' b new_size e :
  front_ok p (L1 ++ h :: L2) -> 0 < new_size -> new_size + canary_len (flags (cf p)) <= e ->
  (forall y, y <> h -> owned b !! y = owned (tiers p) !! y) ->
  (forall y n, y <> h -> owned (tiers p) !! y = Some n -> h + SIZEOF_HEADER + e <= y \/ y + n <= h) ->
  realloc_answer p (L1 ++ L2) h hd new_size (h + SIZEOF_HEADER)
    (trigger_event (stamp_canary (set_hdrs (set_tiers p b) (<[h := hd']> (hdrs (set_tiers p b)))) (h + SIZEOF_HEADER + new_size))
       MP_EVENT_REALLOC (h + SIZEOF_HEADER) new_size).
Proof.
  intros F Hn He Ho Hd. set (q := set_hdrs _ _). destruct (stamp_canary_same q (h + SIZEOF_HEADER + new_size)) as (S1 & S2 & S3).
  assert (Hpos : 0 < h) by (destruct (fo_blocks _ _ F h) as [x []]; [rewrite elem_of_app, elem_of_cons; tauto|done]).
  pose proof (canary_len_range (flags (cf p))) as Hc. split.
  - intros y Hy. assert (Hne : y <> h) by (by apply (dll_middle _ _ _ _ _ _ (fo_list _ _ F))).
    rewrite event_hdrs, event_tiers, event_mem, S1, S2. cbn. rewrite lookup_insert_ne by done. split; [done|]. split; [by apply Ho|].
    intros n a Hya Ha. rewrite S3; [done|]. cbn. destruct (Hd _ _ Hne Hya); unfold SIZEOF_HEADER in *; lia.
  - right. split; [unfold SIZEOF_HEADER; lia|]. intros i Hi. rewrite event_mem. rewrite S3; [done|]. lia.
Qed.

Lemma realloc_run p L1 h L2 hd new_size :
  front_ok p (L1 ++ h :: L2) -> table_ok p -> on p MP_FLAG_CACHE_ALIGNED = false -> hdrs p !! h = Some hd ->
  0 < new_size -> new_size + SIZEOF_HEADER + 1 < 2 ^ 64 ->
  (on p MP_FLAG_DEBUG_CANARY = true -> new_size <> usable_size hd) ->
  exists r p', mp_realloc p (h + SIZEOF_HEADER) new_size = Done (r, p') /\ realloc_answer p (L1 ++ L2) h hd new_size r p'.
Proof.
  intros F Ht Hca Hh H0 H1 Hcan. destruct (fo_blocks _ _ F h) as [hx B]; [rewrite elem_of_app, elem_of_cons; tauto|].
  assert (hx = hd) as -> by (pose proof (bo_hdr _ _ _ B); congruence).
  pose proof (bo_pos _ _ _ B) as Hpos. pose proof (bo_size _ _ _ B) as Hsz. destruct (bo_owned _ _ _ B) as (n & On & _ & Un).
  unfold mp_realloc. rewrite !(proj2 (Z.eqb_neq _ _)) by (unfold NULL, SIZEOF_HEADER; lia).
  replace (h + SIZEOF_HEADER - SIZEOF_HEADER) with h by lia. unfold ld_hdr. rewrite Hh. cbn [mbind outcome_bind].
  rewrite (bo_magic _ _ _ B). cbn [Z.eqb negb].
  change (MP_MAGIC_HEAD =? MP_MAGIC_HEAD) with true. cbn [negb].
  destruct (Z.leb_spec new_size (usable_size hd)) as [Hle|Hgt].
  - eexists _, _. split; [done|].
    replace (set_hdrs p (<[h := set_requested hd new_size]> (hdrs p))) with
      (set_hdrs (set_tiers p (tiers p)) (<[h := set_requested hd new_size]> (hdrs (set_tiers p (tiers p))))) by done.
    apply (realloc_in_place p L1 h L2 hd _ _ new_size (usable_size hd)); try done.
    + unfold canary_len. unfold on in Hcan. destruct (has_flag _ _); [specialize (Hcan eq_refl)|]; lia.
    + intros y m Hy Oy. destruct (fo_disjoint _ _ F _ _ _ _ On Oy); [done|lia|lia].
  - destruct (if alloc_type hd =? ALLOC_TYPE_TLSF then tlsf_grow (tiers p) (flags (cf p)) h hd new_size else (None, tiers p)) as [g b] eqn:Eg.
    assert (Sg : match g with
      | None => owned b = owned (tiers p)
      | Some u => exists e, fresh_in (delete h (owned (tiers p))) h (SIZEOF_HEADER + e) /\ new_size + canary_len (flags (cf p)) <= e /\
                    owned b = <[h := SIZEOF_HEADER + e]> (owned (tiers p))
      end).
    { destruct (alloc_type hd =? ALLOC_TYPE_TLSF); [|by injection Eg as <- <-]. apply tlsf_grow_spec in Eg.
      destruct g as [u|]; [|done]. destruct Eg as (e & ? & ? & ? & ?). by exists e. }
    destruct g as [u|].
    + destruct Sg as (e & (_ & _ & Hf) & He & Ho). eexists _, _. split; [done|].
      apply (realloc_in_place p L1 h L2 hd _ b new_size e); try done.
      * intros y Hy. by rewrite Ho, lookup_insert_ne.
      * intros y m Hy Oy. destruct (Hf y m); [by rewrite lookup_delete_ne|lia|lia].
    + set (q := set_tiers p b). assert (Fq : front_ok q (L1 ++ h :: L2)) by (by apply (front_ok_ext p)).
      assert (Hpq : forall p', kept q p' (L1 ++ h :: L2) -> kept p p' (L1 ++ h :: L2)).
      { intros p' K. eapply kept_trans; [|exact K]. by apply kept_refl. }
      destruct (mp_alloc_spec q _ new_size Fq Ht Hca) as (r & p1 & p2 & -> & A & Hp & Hn); [lia|lia|]. cbn [mbind outcome_bind].
      pose proof (breaker_kept p1 p2 (L1 ++ h :: L2) new_size Hp) as K2.
      destruct A as (C & _ & Eb & K & [(-> & F1 & _)|(hn & hdn & -> & Hnew & Hr & F1 & Hhn & Hreq & _)]).
      * eexists _, _. split; [done|]. pose proof (Hpq p2 (kept_trans _ _ _ _ K K2)) as K3.
        split; [|left; split; [done|]]; intros y Hy; apply K3; rewrite elem_of_app, elem_of_cons.
        -- apply elem_of_app in Hy. tauto.
        -- apply list_elem_of_singleton in Hy. tauto.
      * rewrite (proj2 (Z.eqb_neq _ _)) by (unfold NULL; lia).
        pose proof (breaker_front p1 p2 _ _ F1 Hp) as F2. set (p3 := set_mem p2 _).
        assert (F3 : front_ok p3 ((hn :: L1) ++ h :: L2)) by (by apply (front_ok_ext p2)).
        destruct (mp_free_spec p3 (hn :: L1) h L2 F3) as (hd3 & p' & _ & -> & F' & _ & _ & K4 & _). cbn [mbind outcome_bind].
        eexists _, _. split; [done|].
        destruct (fo_blocks _ _ F2 hn (list_elem_of_here _ _)) as [hx Bn]. destruct (bo_owned _ _ _ Bn) as (nn & Onn & _ & Unn).
        assert (hx = hdn) as ->.
        { pose proof (bo_hdr _ _ _ Bn) as E. destruct Hp as [->| ->]; [|rewrite (proj1 (proj2 (proj2 (proj2 (proj2 (proj2 (breaker_same p1 new_size))))))) in E]; congruence. }
        pose proof (bo_size _ _ _ Bn) as Sn. pose proof (Hpq p2 (kept_trans _ _ _ _ K K2)) as K3.
        split.
        -- intros y Hy. assert (Hy1 : y ∈ L1 ++ h :: L2) by (rewrite elem_of_app, elem_of_cons; apply elem_of_app in Hy; tauto).
           destruct (K3 y Hy1) as (X1 & X2 & X3), (K4 y) as (Y1 & Y2 & Y3); [rewrite elem_of_app, elem_of_cons; apply elem_of_app in Hy; tauto|].
           split; [by rewrite Y1|]. split; [by rewrite Y2|]. intros m a Om Ha. assert (Om2 : owned (tiers p3) !! y = Some m) by (cbn; congruence).
           rewrite (Y3 m a Om2 Ha). cbn [p3 set_mem mem]. rewrite copy_outside; [by apply (X3 m)|].
           destruct (fo_disjoint _ _ F2 _ _ _ _ Onn Om2); [by intros ->|lia|unfold SIZEOF_HEADER; lia].
        -- right. split; [done|]. intros i Hi. destruct (K4 hn) as (_ & _ & Y3); [apply list_elem_of_here|].
           rewrite (Y3 nn (hn + SIZEOF_HEADER + i)); [|done|unfold SIZEOF_HEADER in *; lia]. cbn [p3 set_mem mem]. rewrite copy_inside by lia.
           replace (hn + SIZEOF_HEADER + i - (hn + SIZEOF_HEADER) + (h + SIZEOF_HEADER)) with (h + SIZEOF_HEADER + i) by lia.
           destruct (K3 h) as (_ & _ & X3); [rewrite elem_of_app, elem_of_cons; tauto|]. apply (X3 n); [done|unfold SIZEOF_HEADER in *; lia].
Qed.

(** C7: [mp_realloc] to a non-zero size never faults; when it fails the block and every other
    block are as they were, and when it succeeds - in place, by growing, or by moving - the
    new block starts with the old contents up to the smaller of the two sizes, and the
    headers, extents and bytes of all other live blocks are untouched.  With canaries on,
    the new size must not be exactly the block's capacity: the canary would be written one
    byte past it. *)
Theorem realloc_preserves p L1 h L2 hd new_size :
  front_ok p (L1 ++ h :: L2) -> table_ok p -> on p MP_FLAG_CACHE_ALIGNED = false -> hdrs p !! h = Some hd ->
  0 < new_size -> new_size + SIZEOF_HEADER + 1 < 2 ^ 64 ->
  (on p MP_FLAG_DEBUG_CANARY = true -> new_size <> usable_size hd) ->
  exists r p', mp_realloc p (h + SIZEOF_HEADER) new_size = Done (r, p') /\ kept p p' (L1 ++ L2) /\
    (r = NULL /\ kept p p' [h] \/
     0 < r /\ forall i, 0 <= i < Z.min (requested_size hd) new_size -> mem p' (r + i) = mem p (h + SIZEOF_HEADER + i)).
Proof. apply realloc_run. Qed.

(** ** The memory limit *)

Lemma requested_total_nonneg p L : front_ok p L -> 0 <= requested_total p L.
Proof.
  intros F. assert (H : forall l, (forall h, h ∈ l -> h ∈ L) -> 0 <= requested_total p l); [|by apply H].
  induction l as [|h l IH]; intros Hl; [cbn; lia|]. change (requested_total p (h :: l)) with (requested_of p h + requested_total p l).
  assert (0 <= requested_total p l) by (apply IH; intros x Hx; apply Hl; by right).
  destruct (fo_blocks _ _ F h) as [hd B]; [apply Hl; by left|]. unfold requested_of. rewrite (bo_hdr _ _ _ B). pose proof (bo_size _ _ _ B). lia.
Qed.

Lemma kept_total p p' L : kept p p' L -> requested_total p' L = requested_total p L.
Proof. intros K. apply requested_total_eq. intros h Hh. by apply K. Qed.

Definition within (limit : Z) (q : request) : Prop := match q with Ask n => 0 <= n /\ n + limit + SIZEOF_HEADER + 1 < 2 ^ 64 | Release _ => True end.

Record limited (p : pool) (L : list Z) (limit : Z) : Prop := {
  li_ok : front_ok p L;
  li_table : table_ok p;
  li_plain : on p MP_FLAG_CACHE_ALIGNED = false;
  li_limit : max_memory_limit (cf p) = limit;
  li_no_fallback : fallback_to_sys_alloc_on_oom (cf p) = false;
  li_no_reserve : emergency_buf (rs p) = NULL;
  li_total : requested_total p L <= limit;
}.

Lemma client_step_limited p L limit q :
  0 < limit -> limited p L limit -> within limit q -> exists p' L', client_step (p, L) q = Done (p', L') /\ limited p' L' limit.
Proof.
  intros Hl [F Ht Hca El Ef En Et] Hq. destruct q as [n|i]; cbn [client_step].
  - destruct Hq as [H0 H1]. pose proof (requested_total_nonneg p L F) as Hnn.
    destruct (mp_alloc_spec p L n F Ht Hca) as (r & p1 & p' & -> & A & Hp & Hnull); [lia|lia|]. cbn [mbind outcome_bind].
    destruct A as (C & _ & Eb & K & [(-> & F' & _)|(h & hd & -> & Hnew & Hr0 & F' & Hh & Hsz & Hb & Hlim)]).
    + rewrite (Hnull eq_refl). exists p1, L. split; [done|]. split; try done.
      * unfold table_ok. by rewrite C.
      * unfold on in *. by rewrite C.
      * by rewrite C.
      * by rewrite C.
      * by rewrite Eb.
      * by rewrite (kept_total _ _ _ K).
    + rewrite (proj2 (Z.eqb_neq _ _)) by (unfold NULL; lia). replace (h + SIZEOF_HEADER - SIZEOF_HEADER) with h by lia.
      pose proof (breaker_cf _ _ _ Hp) as C'. pose proof (breaker_front _ _ _ _ F' Hp) as F2. pose proof (breaker_kept p1 p' L n Hp) as K2.
      assert (Erq : requested_total p' (h :: L) = n + requested_total p L).
      { change (requested_total p' (h :: L)) with (requested_of p' h + requested_total p' L).
        rewrite (kept_total _ _ _ (kept_trans _ _ _ _ K K2)). f_equal. unfold requested_of.
        destruct (breaker_kept p1 p' [h] n Hp h) as (-> & _); [by left|]. by rewrite Hh. }
      assert (Hfit : over_limit p n = false).
      { destruct (over_limit p n) eqn:Eo; [|done]. specialize (Hlim eq_refl Ef). rewrite En in Hlim.
        destruct (fo_blocks _ _ F' h (list_elem_of_here _ _)) as [hx Bx]. pose proof (bo_pos _ _ _ Bx). unfold NULL in *. lia. }
      unfold over_limit in Hfit. rewrite El, (fo_bytes _ _ F), u64_add_l, (proj2 (Z.ltb_lt 0 limit)), u64_small in Hfit by (unfold SIZEOF_HEADER in *; lia).
      apply Z.ltb_ge in Hfit. exists p', (h :: L). split; [done|]. split; try done.
      * unfold table_ok. by rewrite C', C.
      * unfold on in *. by rewrite C', C.
      * by rewrite C', C.
      * by rewrite C', C.
      * destruct Hp as [->| ->]; [by rewrite Eb|]. destruct (breaker_same p1 n) as (_ & _ & -> & _). by rewrite Eb.
      * lia.
  - destruct (L !! i) as [h|] eqn:E; [|exists p, L; split; [done|]; by split].
    pose proof (take_drop_middle L i h E) as EL. rewrite <- EL in F.
    destruct (mp_free_spec p _ h _ F) as (hd & p' & Hh & -> & F' & Eb & C & K & _). cbn [mbind outcome_bind].
    exists p', (delete i L). split; [done|]. rewrite delete_take_drop. split; try done.
    + unfold table_ok. by rewrite C.
    + unfold on in *. by rewrite C.
    + by rewrite C.
    + by rewrite C.
    + by rewrite Eb.
    + rewrite (kept_total _ _ _ K). rewrite <- EL, requested_total_app in Et. rewrite requested_total_app.
      change (requested_total p (h :: drop (S i) L)) with (requested_of p h + requested_total p (drop (S i) L)) in Et.
      destruct (fo_blocks _ _ F h) as [hx B]; [rewrite elem_of_app, elem_of_cons; tauto|].
      unfold requested_of in Et at 1. rewrite (bo_hdr _ _ _ B) in Et. pose proof (bo_size _ _ _ B). lia.
Qed.

(** C12: the memory limit holds over whole runs: in a pool with a limit, without the system
    fallback and without a reserve, no sequence of requests and releases ever brings the
    bytes in use above the limit, and the counter [active_bytes] is those bytes exactly. *)
Theorem limit_respected p L limit qs :
  0 < limit < 2 ^ 64 -> limited p L limit -> Forall (within limit) qs ->
  exists p' L', client_run (p, L) qs = Done (p', L') /\ active_bytes (ac p') = requested_total p' L' /\ active_bytes (ac p') <= limit.
Proof.
  intros Hl Li Hq.
  assert (R : exists p' L', client_run (p, L) qs = Done (p', L') /\ limited p' L' limit).
  { revert p L Li. induction Hq as [|q qs Hq1 Hq IH]; intros p L Li; [by exists p, L|]. cbn [client_run].
    destruct (client_step_limited p L limit q) as (p1 & L1 & -> & Li1); [lia|done..|]. by apply IH. }
  destruct R as (p' & L' & E & Li'). exists p', L'. split; [done|]. pose proof (li_total _ _ _ Li'). pose proof (requested_total_nonneg _ _ (li_ok _ _ _ Li')).
  rewrite (fo_bytes _ _ (li_ok _ _ _ Li')), u64_small by lia. by split.
Qed.

(** ** Corruption *)

Lemma scrub_canary p ptr hd :
  on p MP_FLAG_DEBUG_CANARY = true -> 0 <= requested_size hd -> mem p (ptr + requested_size hd) <> MP_CANARY_BYTE ->
  is_dirty (he (scrub p ptr hd)) = true /\
  (has_event_cb (cf p) = true -> (MP_EVENT_CANARY_CORRUPTION, ptr, requested_size hd) ∈ events (scrub p ptr hd)).
Proof.
  intros Hc Hsz Hm. unfold scrub. set (p1 := if on p MP_FLAG_POISON_ON_FREE then _ else _).
  assert (E : cf p1 = cf p /\ mem p1 (ptr + requested_size hd) = mem p (ptr + requested_size hd)).
  { unfold p1. destruct (on p MP_FLAG_POISON_ON_FREE); [|done]. split; [done|]. cbn. apply fill_outside. lia. }
  destruct E as [E1 E2]. unfold on in *. rewrite E1, Hc. unfold mp_verify_free_canary. rewrite E2, (proj2 (Z.eqb_neq _ _)) by done.
  unfold mp_mark_pool_dirty, trigger_event. cbn. rewrite E1. destruct (has_event_cb (cf p)) eqn:Ec; cbn; rewrite ?E1, ?Ec; cbn; (split; [done|]); [|done].
  intros _. rewrite !elem_of_app. left. right. by left.
Qed.

Lemma scrub_intact p ptr hd :
  mem p (ptr + requested_size hd) = MP_CANARY_BYTE -> 0 <= requested_size hd -> he (scrub p ptr hd) = he p.
Proof.
  intros Hm Hsz. unfold scrub. set (p1 := if on p MP_FLAG_POISON_ON_FREE then _ else _).
  assert (E : he p1 = he p /\ mem p1 (ptr + requested_size hd) = mem p (ptr + requested_size hd)).
  { unfold p1. destruct (on p MP_FLAG_POISON_ON_FREE); [|done]. split; [done|]. cbn. apply fill_outside. lia. }
  destruct E as [E1 E2]. destruct (on p1 MP_FLAG_DEBUG_CANARY); [|done]. unfold mp_verify_free_canary. by rewrite E2, Hm.
Qed.

(** C31: the canary catches an overflow.  With canaries on, releasing a live block whose byte
    after the payload was changed marks the pool dirty (a block with its canary intact
    leaves the health alone), and without the system fallback a dirty pool refuses every
    later allocation until the mark is cleared. *)
Theorem canary_detects p L1 h L2 hd :
  front_ok p (L1 ++ h :: L2) -> hdrs p !! h = Some hd -> on p MP_FLAG_DEBUG_CANARY = true -> fallback_to_sys_alloc_on_oom (cf p) = false ->
  exists p', mp_free p (h + SIZEOF_HEADER) = Done p' /\ front_ok p' (L1 ++ L2) /\
    (mem p (h + SIZEOF_HEADER + requested_size hd) = MP_CANARY_BYTE -> he p' = he p) /\
    (mem p (h + SIZEOF_HEADER + requested_size hd) <> MP_CANARY_BYTE -> mp_is_pool_dirty p' = true /\ forall n, mp_alloc p' n = Done (NULL, p')).
Proof.
  intros F Hh Hc Hf. destruct (mp_free_spec p L1 h L2 F) as (hd' & p' & Hh' & E & F' & _ & C & _ & _ & He & _).
  assert (hd' = hd) as -> by congruence. exists p'. split; [done|]. split; [done|].
  assert (Hsz : 0 <= requested_size hd).
  { destruct (fo_blocks _ _ F h) as [hx B]; [rewrite elem_of_app, elem_of_cons; tauto|]. pose proof (bo_size _ _ _ B). pose proof (bo_hdr _ _ _ B).
    assert (hx = hd) as -> by congruence. lia. }
  split; [intros Hm; by rewrite He, scrub_intact|]. intros Hm. destruct (scrub_canary p _ hd Hc Hsz Hm) as [Hd _].
  unfold mp_is_pool_dirty. rewrite He. split; [done|]. intros n.
  assert (Hi : forall m, mp_alloc_internal p' m = Done (NULL, p')).
  { intros m. unfold mp_alloc_internal. rewrite He, Hd, C, Hf. cbn. by destruct (m =? 0). }
  unfold mp_alloc. destruct (n =? 0); [done|]. rewrite Hi. unfold mp_aligned_alloc. rewrite Hi. cbn. by destruct (on p' MP_FLAG_CACHE_ALIGNED).
Qed.

(** ** Pointer validation *)

Lemma find_active_spec k pv q l h fuel :
  seg k pv q l NULL -> (length l < fuel)%nat -> find_active fuel k q h = Done (bool_decide (h ∈ l)).
Proof.
  revert pv q fuel. induction l as [|x l IH]; intros pv q fuel Hs Hf; (destruct fuel as [|fuel]; [cbn in Hf; lia|]); cbn [find_active].
  - cbn in Hs. rewrite Hs. cbn. symmetry. apply (f_equal Done), bool_decide_eq_false_2, not_elem_of_nil.
  - destruct Hs as (-> & Hx & _ & n & Hn & Hs). rewrite (proj2 (Z.eqb_neq _ _)) by done.
    destruct (Z.eqb_spec x h) as [->|Hne]; [by rewrite bool_decide_eq_true_2 by (by left)|].
    rewrite (ld_Some _ _ _ Hn). cbn [mbind outcome_bind]. rewrite (IH x n fuel Hs) by (cbn in Hf; lia). f_equal.
    apply bool_decide_ext. rewrite elem_of_cons. split; [by right|intros [?|?]; [by destruct Hne|done]].
Qed.

(** For an address whose header can be read, [mp_ptr_valid] answers exactly whether it is
    the payload of a live block of the pool, and the sizes reported are those of its header
    (0 for anything else). *)
Theorem ptr_valid_exact p L ptr hd :
  front_ok p L -> hdrs p !! (ptr - SIZEOF_HEADER) = Some hd ->
  mp_ptr_valid p ptr = Done (bool_decide (ptr - SIZEOF_HEADER ∈ L)) /\
  mp_alloc_size p ptr = Done (if bool_decide (ptr - SIZEOF_HEADER ∈ L) then requested_size hd else 0) /\
  mp_usable_size p ptr = Done (if bool_decide (ptr - SIZEOF_HEADER ∈ L) then usable_size hd else 0).
Proof.
  intros F Hh.
  assert (Hv : mp_ptr_valid p ptr = Done (bool_decide (ptr - SIZEOF_HEADER ∈ L))).
  { assert (Hl : forall x, x ∈ L -> hdrs p !! x = Some hd -> magic hd = MP_MAGIC_HEAD /\ 0 < x).
    { intros x Hx E. destruct (fo_blocks _ _ F x Hx) as [hx B]. pose proof (bo_hdr _ _ _ B). assert (hx = hd) as -> by congruence. split; apply B. }
    unfold mp_ptr_valid. destruct (Z.eqb_spec ptr NULL) as [->|Hp].
    { symmetry. apply (f_equal Done), bool_decide_eq_false_2. intros Hx. destruct (Hl _ Hx Hh). unfold NULL, SIZEOF_HEADER in *. lia. }
    unfold ld_hdr. rewrite Hh. cbn [mbind outcome_bind]. destruct (Z.eqb_spec (magic hd) MP_MAGIC_HEAD) as [Hm|Hm]; cbn [negb].
    - apply (find_active_spec _ NULL); [apply (fo_list _ _ F)|].
      pose proof (fo_list _ _ F) as HL. assert (length L <= base.size (nxt (alinks p)))%nat; [|lia].
      apply nodup_size; [apply HL|]. intros y Hy. by destruct (dll_node _ _ _ y HL Hy) as [[? ?] ?].
    - symmetry. apply (f_equal Done), bool_decide_eq_false_2. intros Hx. by destruct (Hl _ Hx Hh). }
  unfold mp_alloc_size, mp_usable_size, ld_hdr. rewrite Hv, Hh. cbn. by destruct (bool_decide _).
Qed.

(** ** Batches *)

(** The reference: admit the elements one at a time, each with the test of
    [mp_alloc_internal], and stop at the first that does not fit. *)
Fixpoint admit_seq (count : nat) (limit active charge : Z) : nat :=
  match count with
  | O => O
  | S n => if limit <? u64 (active + charge) then O else S (admit_seq n limit (u64 (active + charge)) charge)
  end.

Lemma admit_seq_div count limit active charge :
  0 <= active -> 0 < charge -> 0 <= limit -> limit + charge < 2 ^ 64 -> active <= limit ->
  Z.of_nat (admit_seq count limit active charge) = Z.min (Z.of_nat count) ((limit - active) / charge).
Proof.
  intros Ha Hc Hl Hb Hal. revert active Ha Hal. induction count as [|n IH]; intros active Ha Hal; cbn [admit_seq].
  - pose proof (Z.div_pos (limit - active) charge). lia.
  - rewrite u64_small by lia. destruct (Z.ltb_spec limit (active + charge)) as [Hlt|Hge].
    + rewrite Z.div_small by lia. lia.
    + rewrite Nat2Z.inj_succ, IH by lia. replace (limit - active) with (limit - (active + charge) + 1 * charge) by lia.
      rewrite Z.div_add by lia. pose proof (Z.div_pos (limit - (active + charge)) charge). lia.
Qed.

(** The batch admits what a loop would.  [batch_admit] takes one snapshot of the bytes in
    use and divides; with [n] the number of elements a loop admitting them one at a time
    would accept, it takes all [count] when [n = count]; otherwise it takes exactly [n] from
    the tiers and lets the reserve serve the next element if it fits there, or, with the
    system fallback, takes all of them and reports the [count - n] excesses. *)
Theorem batch_admit_equiv p charge total_size count :
  let limit := max_memory_limit (cf p) in
  let n := admit_seq count limit (active_bytes (ac p)) charge in
  let plan := batch_admit p charge total_size (Z.of_nat count) in
  let taken := if full_exceed_oom plan || emergency_only plan then 0 else target plan in
  0 < limit -> 0 <= active_bytes (ac p) < 2 ^ 64 -> 0 < charge -> limit + charge < 2 ^ 64 -> active_bytes (ac p) + charge < 2 ^ 64 -> (0 < count)%nat ->
  if (n =? count)%nat then plan = Plan (Z.of_nat count) 0 false false false false
  else if fallback_to_sys_alloc_on_oom (cf p)
  then taken = Z.of_nat count /\ oom_fire_count plan = Z.of_nat count - Z.of_nat n
  else taken = Z.of_nat n /\ oom_fire_count plan = 0 /\ (emergency_only plan || do_emergency plan) = reserve_fits p total_size.
Proof.
  intros limit n plan taken Hl Ha Hc Hb Hs Hn. unfold taken, plan, batch_admit. fold limit.
  change (negb (emergency_buf (rs p) =? NULL) && negb (emergency_used (rs p)) &&
    (u64 (total_size + SIZEOF_HEADER + canary_len (flags (cf p))) <=? emergency_size (rs p))) with (reserve_fits p total_size).
  rewrite (proj2 (Z.eqb_neq limit 0)) by lia. rewrite (u64_small (active_bytes (ac p) + charge)) by lia.
  destruct (Z.ltb_spec limit (active_bytes (ac p) + charge)) as [Hlt|Hge].
  - assert (n = 0%nat) as ->.
    { unfold n. destruct count as [|m]; [done|]. cbn [admit_seq]. rewrite u64_small by lia. by rewrite (proj2 (Z.ltb_lt _ _)). }
    rewrite (proj2 (Nat.eqb_neq 0 count)) by lia.
    destruct (fallback_to_sys_alloc_on_oom (cf p)); [cbn; lia|]. destruct (reserve_fits p total_size); by cbn.
  - pose proof (admit_seq_div count limit (active_bytes (ac p)) charge ltac:(lia) Hc ltac:(lia) Hb ltac:(lia)) as En. fold n in En.
    rewrite (u64_small (limit - active_bytes (ac p))) by lia.
    destruct (Z.ltb_spec ((limit - active_bytes (ac p)) / charge) (Z.of_nat count)) as [Hd|Hd].
    + rewrite (proj2 (Nat.eqb_neq n count)) by lia. rewrite Z.min_r in En by lia. rewrite <- En.
      destruct (fallback_to_sys_alloc_on_oom (cf p)); [done|]. destruct (reserve_fits p total_size); by cbn.
    + by rewrite (proj2 (Nat.eqb_eq n count)) by lia.
Qed.

(** ** Where the sizes wrap *)

(** A request within 152 bytes of 2^64 wraps the OS tier's total: a block that is
    handed out has an extent smaller than its own header, while its header promises the
    full request. *)
Theorem os_size_wraps p size h hd p1 :
  2 ^ 64 - SIZEOF_HEADER <= size < 2 ^ 64 -> on p MP_FLAG_STATIC_BUFFER = false -> tier_alloc p size = (Some (h, hd), p1) ->
  owned (tiers p1) !! h = Some (size + SIZEOF_HEADER + canary_len (flags (cf p)) - 2 ^ 64) /\
  size + SIZEOF_HEADER + canary_len (flags (cf p)) - 2 ^ 64 <= SIZEOF_HEADER /\ usable_size hd = size.
Proof.
  intros Hs Hst E. unfold tier_alloc, serve_slab, serve_tlsf, serve_os in E. rewrite Hst in E.
  rewrite (proj2 (Z.leb_gt size SLAB_MAX_SIZE)) in E by (unfold SLAB_MAX_SIZE, SIZEOF_HEADER in *; lia).
  rewrite (proj2 (Z.leb_gt size TLSF_MAX_SIZE)) in E by (unfold TLSF_MAX_SIZE, SIZEOF_HEADER in *; lia). cbn [andb orb negb] in E.
  pose proof (canary_len_range (flags (cf p))) as Hc.
  assert (Ew : u64 (size + SIZEOF_HEADER + canary_len (flags (cf p))) = size + SIZEOF_HEADER + canary_len (flags (cf p)) - 2 ^ 64).
  { rewrite (u64_eq _ (size + SIZEOF_HEADER + canary_len (flags (cf p)) - 2 ^ 64) 1) by lia. apply u64_small. unfold SIZEOF_HEADER in *. lia. }
  rewrite Ew in E. destruct (sys_get _ _) as [raw b] eqn:Es. apply sys_get_spec in Es.
  destruct (raw =? NULL); [done|]. injection E as <- <- <-. cbn. destruct Es as [_ ->]. rewrite lookup_insert_eq.
  split; [done|]. split; [lia|done].
Qed.

(** ** Aligned blocks *)

(** Putting a copy of the header at [new] in the place of the list's head. *)
Lemma replace_head (k : links) head L h new :
  dll k head (h :: L) -> new ∉ L -> new <> NULL ->
  exists nx, ld (prv k) h = Done NULL /\ ld (nxt k) h = Done nx /\ head = h /\
    exists k', (if nx =? NULL then Done (Links (<[new := nx]> (nxt k)) (<[new := NULL]> (prv k)))
                else set_prv (Links (<[new := nx]> (nxt k)) (<[new := NULL]> (prv k))) nx new) = Done k' /\ dll k' new (new :: L).
Proof.
  intros [(-> & Hh & Hp & nx & Hn & Hs) Hd] Hnew H0. exists nx. rewrite (ld_Some _ _ _ Hp), (ld_Some _ _ _ Hn). split; [done|]. split; [done|]. split; [done|].
  apply NoDup_cons in Hd as [_ Hd]. set (k1 := Links _ _).
  assert (Hs1 : seg k1 h nx L NULL).
  { eapply seg_frame; [|exact Hs]. intros y Hy. cbn. by rewrite !lookup_insert_ne by (by intros ->). }
  assert (Hnd : NoDup (new :: L)) by (by apply NoDup_cons).
  destruct L as [|y L].
  - cbn in Hs. rewrite Hs. cbn. eexists. split; [done|]. split; [|done]. cbn. rewrite Hs, !lookup_insert_eq. repeat split; try done. by exists NULL.
  - pose proof Hs as (-> & Hy & _). rewrite (proj2 (Z.eqb_neq _ _)) by done.
    destruct (seg_node _ _ _ _ _ y Hs1) as [Hny _]; [by left|]. rewrite set_prv_node by done. eexists. split; [done|]. split; [|done].
    assert (Hne : new <> y) by (intros ->; apply Hnew; by left).
    split; [done|]. split; [done|]. subst k1. cbn [prv nxt] in *. rewrite (lookup_insert_ne _ y new) by done. rewrite lookup_insert_eq. split; [done|]. exists y.
    split; [cbn; by rewrite lookup_insert_eq|]. exact (seg_set_first (Links (<[new := y]> (nxt k)) (<[new := NULL]> (prv k))) h y y L NULL new Hd Hs1).
Qed.

(** [mp_aligned_alloc] returns a multiple of the alignment inside the block it took from
    the tiers, with room for the payload and its canary, and puts the shifted header in the
    block's place in the live list.  But the pool is charged the padded size while the
    header records the caller's, which is all a release gives back, and the capacity in the
    shifted header is still counted from the original payload: it ends at least a header
    past the block's own. *)
Theorem aligned_alloc_spec p L k size :
  front_ok p L -> table_ok p -> 3 <= k < 63 -> 0 <= size -> size + 2 ^ k + 2 * (SIZEOF_HEADER + 1) < 2 ^ 64 ->
  exists r p', mp_aligned_alloc p (2 ^ k) size = Done (r, p') /\
    (r = NULL /\ front_ok p' L \/
     exists h n hd hd', r mod 2 ^ k = 0 /\ dll (alinks p') (active_head p') (r - SIZEOF_HEADER :: L) /\
       owned (tiers p') !! h = Some n /\ h + 2 * SIZEOF_HEADER <= r /\ r + size + canary_len (flags (cf p)) <= h + n /\
       hdrs p' !! h = Some hd /\ hdrs p' !! (r - SIZEOF_HEADER) = Some hd' /\ requested_size hd' = size /\
       active_bytes (ac p') = u64 (active_bytes (ac p) + size + 2 ^ k + SIZEOF_HEADER + canary_len (flags (cf p))) /\
       h + SIZEOF_HEADER + usable_size hd + SIZEOF_HEADER <= r + usable_size hd').
Proof.
  intros F Ht Hk H0 H1. assert (Hp2 : 8 <= 2 ^ k) by (change 8 with (2 ^ 3); apply Z.pow_le_mono_r; lia).
  pose proof (canary_len_range (flags (cf p))) as Hc. pose proof (Z.pow_lt_mono_r 2 k 63 ltac:(lia) ltac:(lia) ltac:(lia)) as Hk2.
  unfold mp_aligned_alloc. rewrite (u64_small (2 ^ k - 1)) by lia. replace (2 ^ k - 1) with (Z.ones k) by (rewrite Z.ones_equiv; lia).
  rewrite Z.land_ones, Z_mod_same_full, (proj2 (Z.ltb_ge (2 ^ k) 8)) by lia. cbn [Z.eqb negb orb].
  rewrite (u64_small (size + _ + _ + _)) by (unfold SIZEOF_HEADER in *; lia). set (total := size + _ + _ + _).
  destruct (mp_alloc_internal_spec p L total F Ht) as (r & p1 & -> & A); [unfold total, size_ok, SIZEOF_HEADER in *; lia|]. cbn [mbind outcome_bind].
  destruct A as (C & _ & _ & K & [(-> & F1 & _)|(h & hd & -> & Hnew & Hr & F1 & Hh & Hreq & Hb & _)]); [exists NULL, p1; tauto|].
  rewrite (proj2 (Z.eqb_neq _ NULL)) by (unfold NULL; lia). replace (h + SIZEOF_HEADER - SIZEOF_HEADER) with h by lia.
  pose proof (breaker_front p1 _ _ _ F1 (or_intror eq_refl : breaker_accrue p1 size = p1 \/ _ = breaker_accrue p1 size)) as F2.
  destruct (breaker_same p1 size) as (B1 & B2 & _ & _ & _ & B6 & B7 & _). set (p2 := breaker_accrue p1 size) in *.
  rewrite B6, Hh. destruct (fo_blocks _ _ F2 h (list_elem_of_here _ _)) as [hx B]. pose proof (bo_hdr _ _ _ B) as Ex. rewrite B6, Hh in Ex. injection Ex as <-.
  destruct (bo_owned _ _ _ B) as (n & On & Hn & _). rewrite Hreq, B1, C in Hn. pose proof (fo_range _ _ F2 _ _ On) as Hr2. pose proof (bo_pos _ _ _ B) as Hpos.
  rewrite u64_small by (unfold total, SIZEOF_HEADER in *; rewrite Z.ones_equiv; lia). rewrite land_lnot_ones by lia.
  set (x := h + SIZEOF_HEADER + SIZEOF_HEADER). replace (x + Z.ones k) with (x + (2 ^ k - 1)) by (rewrite Z.ones_equiv; lia).
  set (a := (x + (2 ^ k - 1)) / 2 ^ k * 2 ^ k).
  assert (Ha : x <= a <= x + (2 ^ k - 1)).
  { pose proof (Z.div_mod (x + (2 ^ k - 1)) (2 ^ k) ltac:(lia)). pose proof (Z.mod_pos_bound (x + (2 ^ k - 1)) (2 ^ k) ltac:(lia)). unfold a. lia. }
  rewrite (proj2 (Z.eqb_neq (a - SIZEOF_HEADER) h)) by (unfold x, SIZEOF_HEADER in *; lia).
  unfold on. rewrite (fo_live_list _ _ F2 : has_flag (flags (cf p2)) MP_FLAG_FAST_PATH = false).
  assert (Hin : a - SIZEOF_HEADER ∉ L).
  { intros Hin. destruct (fo_blocks _ _ F2 _ (list_elem_of_further _ _ _ Hin)) as [hy By]. destruct (block_owned _ _ _ By) as (m & Om & Hm).
    destruct (fo_disjoint _ _ F2 _ _ _ _ On Om); [intros E; rewrite <- E in Hin; done| |]; unfold x, total, SIZEOF_HEADER in *; lia. }
  destruct (replace_head (alinks p2) (active_head p2) L h (a - SIZEOF_HEADER) (fo_list _ _ F2) Hin) as (nx & -> & -> & Eh & k' & Ek & Dk);
    [unfold x, SIZEOF_HEADER, NULL in *; lia|]. cbn [mbind outcome_bind]. change (NULL =? NULL) with true. cbn [mbind outcome_bind andb].
  rewrite Eh, Z.eqb_refl, Ek. cbn [mbind outcome_bind]. eexists _, _. split; [done|]. right.
  eexists h, n, hd, _. split; [unfold a; apply Z_mod_mult|]. split; [exact Dk|]. split; [exact On|]. split; [unfold x in Ha; lia|].
  split; [unfold x, total, SIZEOF_HEADER in *; lia|]. cbn [hdrs set_mem set_hdrs set_list]. rewrite B6.
  rewrite lookup_insert_ne, lookup_insert_eq by (unfold x, SIZEOF_HEADER in *; lia). split; [done|]. split; [done|]. split; [done|].
  cbn [ac set_mem set_hdrs set_list]. rewrite B2, Hb. split; [f_equal; unfold total; lia|]. cbn [usable_size]. unfold x in Ha. lia.
Qed.

(** ** Double release *)

Lemma remove_linked p L1 h L2 :
  dll (alinks p) (active_head p) (L1 ++ h :: L2) ->
  exists k x, active_list_remove p h = Done (set_list p x k) /\ nxt k !! h = Some NULL /\ prv k !! h = Some NULL.
Proof.
  intros Hd. destruct (dll_node _ _ _ h Hd) as [Hn H0]; [apply elem_of_app; right; apply list_elem_of_here|].
  unfold active_list_remove. rewrite (proj2 (Z.eqb_neq h NULL)) by done.
  destruct (dll_unlink_spec _ _ _ _ _ Hd) as (k & hd & -> & Hk & Fr). cbn [mbind outcome_bind].
  assert (Hn1 : has_node k h) by (by eapply has_node_frame). rewrite set_prv_node by done. cbn [mbind outcome_bind].
  rewrite set_nxt_node by (split; cbn; [apply Hn1|rewrite lookup_insert_eq; eauto]). eexists _, hd. split; [done|]. cbn. by rewrite !lookup_insert_eq.
Qed.

(** Unlinking a header whose links are already cleared. *)
Lemma remove_unlinked p h :
  nxt (alinks p) !! h = Some NULL -> prv (alinks p) !! h = Some NULL -> h <> NULL ->
  exists k, active_list_remove p h = Done (set_list p NULL k).
Proof.
  intros Hn Hp H0. unfold active_list_remove. rewrite (proj2 (Z.eqb_neq h NULL)) by done.
  unfold dll_unlink. rewrite (ld_Some _ _ _ Hp), (ld_Some _ _ _ Hn). cbn [mbind outcome_bind]. change (NULL =? NULL) with true.
  cbn [mbind outcome_bind]. rewrite (ld_Some _ _ _ Hn). cbn [mbind outcome_bind]. change (NULL =? NULL) with true. cbn [mbind outcome_bind].
  rewrite set_prv_node by (split; eauto). cbn [mbind outcome_bind].
  rewrite set_nxt_node by (split; cbn; [eauto|rewrite lookup_insert_eq; eauto]). by eexists.
Qed.

Lemma free_tlsf_run p h hd x k :
  0 < h -> hdrs p !! h = Some hd -> magic hd = MP_MAGIC_HEAD -> counted hd = true -> alloc_type hd = ALLOC_TYPE_TLSF ->
  on p MP_FLAG_FAST_PATH = false -> (forall b, (tlsf_put b h hd).1 = hd) ->
  active_list_remove (scrub p (h + SIZEOF_HEADER) hd) h = Done (set_list (scrub p (h + SIZEOF_HEADER) hd) x k) ->
  exists p', mp_free p (h + SIZEOF_HEADER) = Done p' /\ alinks p' = k /\ active_head p' = x /\ hdrs p' = hdrs p /\ cf p' = cf p /\
    active_bytes (ac p') = u64 (active_bytes (ac p) - requested_size hd).
Proof.
  intros Hpos Hh Hm Hc Ht Hf Hkeep Hr. rewrite (mp_free_eq p h hd); [|unfold SIZEOF_HEADER, NULL; lia|done|done].
  destruct (scrub_same p (h + SIZEOF_HEADER) hd) as (S1 & S2 & S3 & S4 & S5 & S6 & S7 & _). set (q := scrub _ _ _) in *.
  unfold release. replace (h + SIZEOF_HEADER - SIZEOF_HEADER) with h by lia. rewrite Ht, Hc.
  change (ALLOC_TYPE_TLSF =? ALLOC_TYPE_SLAB) with false. change (ALLOC_TYPE_TLSF =? ALLOC_TYPE_TLSF) with true.
  unfold mp_free_stats_update. unfold on in *. rewrite S1, Hf, Hr. cbn [mbind outcome_bind].
  set (t := tiers _). specialize (Hkeep t). destruct (tlsf_put t h hd) as [hd' b]. cbn in Hkeep. subst hd'.
  eexists. split; [done|]. rewrite event_links, event_head, event_hdrs, event_cf, event_ac. cbn. rewrite S1, S2, S6, insert_id by done. done.
Qed.

(** A second release goes unnoticed when the first left the header as it was, as the
    thread cache of the TLSF tier does: the double-free test sees the live magic, the
    counters are lowered twice, and unlinking the already unlinked header empties the list
    of live blocks, although the other blocks are still live. *)
Theorem double_free_undetected p L1 h L2 hd :
  front_ok p (L1 ++ h :: L2) -> hdrs p !! h = Some hd -> alloc_type hd = ALLOC_TYPE_TLSF ->
  (forall b, (tlsf_put b h hd).1 = hd) ->
  exists p1 p2, mp_free p (h + SIZEOF_HEADER) = Done p1 /\ mp_free p1 (h + SIZEOF_HEADER) = Done p2 /\
    active_head p2 = NULL /\ active_bytes (ac p2) = u64 (active_bytes (ac p1) - requested_size hd) /\
    forall x, x ∈ L1 ++ L2 -> exists hx, hdrs p2 !! x = Some hx /\ magic hx = MP_MAGIC_HEAD.
Proof.
  intros F Hh Ht Hkeep. destruct (fo_blocks _ _ F h) as [hx B]; [rewrite elem_of_app, elem_of_cons; tauto|].
  assert (hx = hd) as -> by (pose proof (bo_hdr _ _ _ B); congruence). pose proof (bo_pos _ _ _ B) as Hpos.
  assert (H0 : h + SIZEOF_HEADER <> NULL) by (unfold SIZEOF_HEADER, NULL; lia). assert (Hn0 : h <> NULL) by (unfold NULL; lia).
  destruct (scrub_same p (h + SIZEOF_HEADER) hd) as (S1 & S2 & S3 & S4 & S5 & S6 & S7 & _).
  destruct (remove_linked (scrub p (h + SIZEOF_HEADER) hd) L1 h L2) as (k & x & R1 & K1 & K2); [rewrite S4, S5; apply (fo_list _ _ F)|].
  destruct (free_tlsf_run p h hd x k) as (p1 & E1 & A1 & A2 & A3 & A4 & A5); try done; [apply B|apply B|apply (fo_live_list _ _ F)|].
  destruct (scrub_same p1 (h + SIZEOF_HEADER) hd) as (T1 & T2 & T3 & T4 & T5 & T6 & T7 & _).
  destruct (remove_unlinked (scrub p1 (h + SIZEOF_HEADER) hd) h) as (k2 & R2); [by rewrite T4, A1|by rewrite T4, A1|done|].
  destruct (free_tlsf_run p1 h hd NULL k2) as (p2 & E2 & C1 & C2 & C3 & C4 & C5); try done;
    [by rewrite A3|apply B|apply B|unfold on; rewrite A4; apply (fo_live_list _ _ F)|].
  exists p1, p2. split; [done|]. split; [done|]. split; [done|]. split; [done|].
  intros y Hy. destruct (fo_blocks _ _ F y) as [hy By]; [rewrite elem_of_app, elem_of_cons; apply elem_of_app in Hy; tauto|].
  exists hy. rewrite C3, A3. split; apply By.
Qed.

End Client.

(** ** Concrete tiers *)

(** Every block comes from above everything handed out; the TLSF tier rounds up by 48 bytes
    and leaves a released header as it was. *)
Module Toy.

Definition top (o : gmap Z Z) : Z := foldr (fun '(h, n) m => Z.max (h + n) m) 4096 (map_to_list o).

Lemma top_above o h n : o !! h = Some n -> h + n <= top o.
Proof.
  intros H. apply elem_of_map_to_list in H. unfold top. induction (map_to_list o) as [|[h' n'] l IH]; [by apply not_elem_of_nil in H|].
  apply elem_of_cons in H as [E|H]; cbn; [injection E as -> ->; lia|specialize (IH H); lia].
Qed.

Lemma top_low o : 4096 <= top o.
Proof. unfold top. induction (map_to_list o) as [|[h n] l IH]; cbn; lia. Qed.

Definition grab (o : gmap Z Z) (n : Z) : Z * gmap Z Z := if top o + n <? 2 ^ 64 then (top o, <[top o := n]> o) else (NULL, o).

Lemma grab_spec o n r o' : grab o n = (r, o') -> if r =? NULL then o' = o else fresh_in o r n /\ o' = <[r := n]> o.
Proof.
  unfold grab. pose proof (top_low o). destruct (Z.ltb_spec (top o + n) (2 ^ 64)); intros E; injection E as <- <-; [|done].
  rewrite (proj2 (Z.eqb_neq _ _)) by (unfold NULL; lia). split; [|done]. split; [lia|]. split; [lia|]. intros h' n' Hh. right. by apply top_above.
Qed.

Definition toy_tlsf_get (o : gmap Z Z) (f n : Z) : option (Z * mp_block_header) * gmap Z Z :=
  let '(r, o') := grab o (SIZEOF_HEADER + (n + 48)) in
  if r =? NULL then (None, o')
  else (Some (r, Header MP_MAGIC_HEAD ALLOC_TYPE_TLSF 0 0 n (n + 48) r NULL NULL 0 NULL 0), o').

Definition toy_slot_bytes (c : Z) : Z := default 512 (cmem_slab_class_size !! Z.to_nat c).

Lemma toy_slot_bytes_pos c : 0 <= toy_slot_bytes c.
Proof.
  unfold toy_slot_bytes. destruct (cmem_slab_class_size !! Z.to_nat c) as [x|] eqn:E; [|cbn; lia]. cbn.
  apply list_elem_of_lookup_2 in E. unfold cmem_slab_class_size in E. rewrite !elem_of_cons in E. apply not_elem_of_nil in E || idtac.
  repeat destruct E as [->|E]; try lia. by apply not_elem_of_nil in E.
Qed.

#[export] Instance toy : Tiers.
Proof.
  refine {| back := gmap Z Z; owned := fun o => o; slot_bytes := toy_slot_bytes;
    slab_get := fun o f c => grab o (SIZEOF_HEADER + toy_slot_bytes c + canary_len f);
    tlsf_get := toy_tlsf_get;
    tlsf_grow := fun o f h hd n => (None, o);
    sys_get := grab;
    slab_put := fun o f c s => (if has_flag f MP_FLAG_THREAD_SAFE then ViaRemote else ViaPage, delete s o);
    tlsf_put := fun o h hd => (hd, delete h o);
    sys_put := fun o p n => delete p o;
    slot_bytes_pos := toy_slot_bytes_pos |}.
  - intros b f c r b'. apply grab_spec.
  - intros b f n r b' E. unfold toy_tlsf_get in E. destruct (grab b (SIZEOF_HEADER + (n + 48))) as [h o'] eqn:Eg. apply grab_spec in Eg.
    destruct (h =? NULL); injection E as <- <-; [done|]. destruct Eg as [Hf ->]. exists (n + 48). pose proof (canary_len_range f). split; [done|].
    split; [cbn; lia|]. split; [lia|]. done.
  - intros b f h hd n r b' E. by injection E as <- <-.
  - intros b n r b'. apply grab_spec.
  - intros b f c s r b' E. injection E as <- <-. destruct (has_flag f MP_FLAG_THREAD_SAFE); repeat split; done.
  - intros b h hd hd' b' E. by injection E as <- <-.
  - done.
Defined.

Definition demo_config (f limit : Z) : config := Config 64 f default_classes limit false false 0 true.
Definition demo_pool (f limit : Z) : pool :=
  Pool (demo_config f limit) (Account 0 0 0 0 0 0 0 (replicate 16 0)) (Reserve NULL 0 false) (Health false false 0 0) NULL (Links ∅ ∅) ∅ (fun _ => 0) [] (∅ : @back toy).

Lemma demo_ok f limit : has_flag f MP_FLAG_FAST_PATH = false -> front_ok (demo_pool f limit) [].
Proof.
  intros Hf. split; try done.
  - apply dll_nil.
  - intros h Hh. by apply not_elem_of_nil in Hh.
Qed.

Lemma demo_table f limit : table_ok (demo_pool f limit).
Proof.
  intros size Hs. change (size <= toy_slot_bytes (get_slab_class_index default_classes size)).
  assert (HP : (size <=? toy_slot_bytes (get_slab_class_index default_classes size)) || (size =? 0) = true).
  { apply (forallb_below (fun x => (x <=? toy_slot_bytes (get_slab_class_index default_classes x)) || (x =? 0)) 513); [vm_compute; done|].
    unfold SLAB_MAX_SIZE in Hs. lia. }
  apply orb_true_iff in HP as [HP%Z.leb_le|HP%Z.eqb_eq]; lia.
Qed.

(** A pool with a live slab block and a live TLSF block above it. *)
Definition demo_two (f limit : Z) : pool * list Z := done_or (demo_pool f limit, []) (client_run (demo_pool f limit, []) [Ask 40; Ask 1000]).

Lemma demo_two_ok f limit :
  has_flag f MP_FLAG_FAST_PATH = false -> has_flag f MP_FLAG_CACHE_ALIGNED = false -> is_done (client_run (demo_pool f limit, []) [Ask 40; Ask 1000]) = true ->
  front_ok (demo_two f limit).1 (demo_two f limit).2 /\ cf (demo_two f limit).1 = demo_config f limit.
Proof.
  intros Hf Hc Hd. destruct (client_run_ok (demo_pool f limit) [] [Ask 40; Ask 1000]) as (p' & L' & E & F & C);
    [by apply demo_ok|apply demo_table|done|repeat constructor; cbn; unfold SIZEOF_HEADER; lia|].
  pose proof (done_or_eq (demo_pool f limit, []) _ Hd) as E'. fold (demo_two f limit) in E'. rewrite E in E'. injection E' as E'. rewrite <- E'. by split.
Qed.

Lemma demo_two_table f limit : cf (demo_two f limit).1 = demo_config f limit -> table_ok (demo_two f limit).1.
Proof. intros E. unfold table_ok. rewrite E. apply demo_table. Qed.

End Toy.

(** ** Witnesses *)

Lemma front_accounting_witness :
  let p := Toy.demo_pool MP_FLAG_DEBUG_CANARY 0 in
  exists p' L, client_run (p, []) [Ask 40; Ask 1000; Release 1%nat; Ask 8] = Done (p', L) /\ active_bytes (ac p') = u64 (requested_total p' L) /\
    active_allocations (ac p') = u64 (zlen L).
Proof.
  intros p. destruct (front_accounting p [Ask 40; Ask 1000; Release 1%nat; Ask 8]) as (p' & L & E & _ & A & B & _);
    [by apply Toy.demo_ok|apply Toy.demo_table|done|repeat constructor; cbn; unfold SIZEOF_HEADER; lia|].
  exists p', L. split; [exact E|]. split; [exact A|exact B].
Defined.

Example front_accounting_run :
  match client_run (Toy.demo_pool MP_FLAG_DEBUG_CANARY 0, []) [Ask 40; Ask 1000; Release 1%nat; Ask 8] with
  | Done (p, L) => (L, active_bytes (ac p), active_allocations (ac p), total_alloc_ops (ac p)) = ([5497; 4297], 1008, 2, 3)
  | _ => False
  end.
Proof. vm_compute. reflexivity. Qed.

(** The demo pool's blocks: the TLSF one at the head of the list, the slab one behind it. *)
Lemma two_split f limit h1 h2 :
  front_ok (Toy.demo_two f limit).1 (Toy.demo_two f limit).2 -> (Toy.demo_two f limit).2 = [h1; h2] ->
  front_ok (Toy.demo_two f limit).1 ([] ++ h1 :: [h2]).
Proof. intros F E. by rewrite E in F. Qed.

Lemma front_ok_set_mem `{TT : Tiers} p L m : front_ok p L -> front_ok (set_mem p m) L.
Proof. by apply front_ok_ext. Qed.

Lemma cf_set_mem `{TT : Tiers} p m : cf (set_mem p m) = cf p.
Proof. done. Qed.

Definition hdr_of `{TT : Tiers} (p : pool) (h : Z) : mp_block_header := default (Header 0 0 0 0 0 0 0 0 0 0 0 0) (hdrs p !! h).

Lemma realloc_preserves_witness :
  let p := (Toy.demo_two 0 0).1 in let hd := hdr_of p 4296 in
  requested_size hd = 1000 /\
  exists r p', mp_realloc p (4296 + SIZEOF_HEADER) 3000 = Done (r, p') /\ kept p p' [4096] /\
    (r = NULL /\ kept p p' [4296] \/ 0 < r /\ forall i, 0 <= i < Z.min (requested_size hd) 3000 -> mem p' (r + i) = mem p (4296 + SIZEOF_HEADER + i)).
Proof.
  intros p hd. split; [vm_compute; exact eq_refl|].
  destruct (Toy.demo_two_ok 0 0 eq_refl eq_refl) as [F C]; [vm_compute; exact eq_refl|].
  apply (realloc_preserves p [] 4296 [4096] hd 3000).
  - apply (two_split 0 0 4296 4096 F). vm_compute. exact eq_refl.
  - by apply Toy.demo_two_table.
  - unfold on, p. rewrite C. exact eq_refl.
  - vm_compute. exact eq_refl.
  - lia.
  - unfold SIZEOF_HEADER. lia.
  - unfold on, p. rewrite C. intros E. discriminate E.
Defined.

Lemma limit_respected_witness :
  exists p' L', client_run (Toy.demo_pool 0 100, []) [Ask 60; Ask 60; Release 0%nat; Ask 100] = Done (p', L') /\ active_bytes (ac p') <= 100.
Proof.
  destruct (limit_respected (Toy.demo_pool 0 100) [] 100 [Ask 60; Ask 60; Release 0%nat; Ask 100]) as (p' & L' & E & _ & A).
  - lia.
  - split; try done; [by apply Toy.demo_ok|apply Toy.demo_table].
  - repeat constructor; cbn; unfold SIZEOF_HEADER; lia.
  - exists p', L'. split; [exact E|exact A].
Defined.

(** The byte behind the TLSF block's payload overwritten. *)
Definition smashed : pool := let p := (Toy.demo_two MP_FLAG_DEBUG_CANARY 0).1 in set_mem p (fill (mem p) (4297 + SIZEOF_HEADER + 1000) 1 0).

Lemma canary_detects_witness :
  exists p', mp_free smashed (4297 + SIZEOF_HEADER) = Done p' /\ mp_is_pool_dirty p' = true /\ forall n, mp_alloc p' n = Done (NULL, p').
Proof.
  destruct (Toy.demo_two_ok MP_FLAG_DEBUG_CANARY 0 eq_refl eq_refl) as [F C]; [vm_compute; exact eq_refl|].
  assert (F1 : front_ok smashed ([] ++ 4297 :: [4096])).
  { unfold smashed. apply front_ok_set_mem. apply (two_split MP_FLAG_DEBUG_CANARY 0 4297 4096 F). vm_compute. exact eq_refl. }
  assert (C1 : cf smashed = Toy.demo_config MP_FLAG_DEBUG_CANARY 0) by (unfold smashed; rewrite cf_set_mem; exact C).
  destruct (canary_detects smashed [] 4297 [4096] (hdr_of smashed 4297) F1) as (p' & E & _ & _ & D).
  - vm_compute. exact eq_refl.
  - unfold on. rewrite C1. exact eq_refl.
  - rewrite C1. exact eq_refl.
  - exists p'. split; [exact E|]. apply D.
    assert (Hm : (mem smashed (4297 + SIZEOF_HEADER + requested_size (hdr_of smashed 4297)) =? MP_CANARY_BYTE) = false) by (vm_compute; exact eq_refl).
    apply Z.eqb_neq. exact Hm.
Defined.

Lemma ptr_valid_exact_witness :
  let p := (Toy.demo_two 0 0).1 in
  mp_ptr_valid p (4096 + SIZEOF_HEADER) = Done true /\ mp_alloc_size p (4096 + SIZEOF_HEADER) = Done 40.
Proof.
  intros p. destruct (Toy.demo_two_ok 0 0 eq_refl eq_refl) as [F C]; [vm_compute; exact eq_refl|].
  destruct (ptr_valid_exact p [4296; 4096] (4096 + SIZEOF_HEADER) (hdr_of p 4096)) as (A & B & _).
  - apply (two_split 0 0 4296 4096 F). vm_compute. exact eq_refl.
  - vm_compute. exact eq_refl.
  - split; [rewrite A|rewrite B]; vm_compute; exact eq_refl.
Defined.

Lemma batch_admit_equiv_witness :
  let p := Toy.demo_pool 0 100 in
  admit_seq 5 100 0 30 = 3%nat /\ target (batch_admit p 30 30 5) = 3.
Proof.
  intros p. split; [vm_compute; exact eq_refl|].
  assert (H : 0 < 100 /\ 0 <= 0 < 2 ^ 64 /\ 0 < 30 /\ 100 + 30 < 2 ^ 64 /\ 0 + 30 < 2 ^ 64 /\ (0 < 5)%nat) by lia.
  destruct H as (H1 & H2 & H3 & H4 & H5 & H6).
  pose proof (batch_admit_equiv p 30 30 5 H1 H2 H3 H4 H5 H6) as H. exact (proj1 H).
Defined.

Lemma os_size_wraps_witness :
  let p := Toy.demo_pool 0 0 in
  exists h hd p1, tier_alloc p (2 ^ 64 - 100) = (Some (h, hd), p1) /\ owned (tiers p1) !! h = Some 52 /\ usable_size hd = 2 ^ 64 - 100.
Proof.
  intros p. assert (Hs : match (tier_alloc p (2 ^ 64 - 100)).1 with Some _ => true | None => false end = true) by (vm_compute; exact eq_refl).
  destruct (tier_alloc p (2 ^ 64 - 100)) as [[[h hd]|] p1] eqn:E; [|discriminate Hs].
  exists h, hd, p1. split; [exact eq_refl|].
  destruct (os_size_wraps p (2 ^ 64 - 100) h hd p1 ltac:(unfold SIZEOF_HEADER; lia) eq_refl E) as (A & _ & B).
  split; [exact A|exact B].
Defined.

Lemma aligned_alloc_spec_witness :
  let p := Toy.demo_pool 0 0 in
  exists r p', mp_aligned_alloc p (2 ^ 6) 100 = Done (r, p') /\ (r = NULL \/ r mod 2 ^ 6 = 0).
Proof.
  intros p. destruct (aligned_alloc_spec p [] 6 100) as (r & p' & E & A).
  - by apply Toy.demo_ok.
  - apply Toy.demo_table.
  - lia.
  - lia.
  - unfold SIZEOF_HEADER. lia.
  - exists r, p'. split; [exact E|]. destruct A as [[A _]|(h & n & hd & hd' & A & _)]; [by left|by right].
Defined.

Lemma double_free_undetected_witness :
  let p := (Toy.demo_two 0 0).1 in
  exists p1 p2, mp_free p (4296 + SIZEOF_HEADER) = Done p1 /\ mp_free p1 (4296 + SIZEOF_HEADER) = Done p2 /\ active_head p2 = NULL.
Proof.
  intros p. destruct (Toy.demo_two_ok 0 0 eq_refl eq_refl) as [F C]; [vm_compute; exact eq_refl|].
  destruct (double_free_undetected p [] 4296 [4096] (hdr_of p 4296)) as (p1 & p2 & A & B & D & _).
  - apply (two_split 0 0 4296 4096 F). vm_compute. exact eq_refl.
  - vm_compute. exact eq_refl.
  - vm_compute. exact eq_refl.
  - intros b. exact eq_refl.
  - exists p1, p2. split; [exact A|]. split; [exact B|exact D].
Defined.
