(* ===== verification/FreeBatch.v ===== *)
(** * Releasing a batch

    [mp_free_batch] and [flush_slab_block] of [src/cmem_alloc.c], over the front end's pool:
    the slab blocks of one pool are collected, up to 256 at a time, and go through poison,
    counters, events and placement phase by phase; everything else takes [mp_free]. *)
From S2P Require Import Prelude Header Dll SizeClass Front FrontSpec FrontProps.
From Stdlib Require Import ZArith Lia.
From stdpp Require Import base option list gmap.
Open Scope Z_scope.

Definition CMEM_FREE_BATCH_CHUNK : Z := 256.

Section Batch.
Context `{TT : Tiers}.

Fixpoint each (f : pool -> Z -> outcome pool) (p : pool) (l : list Z) : outcome pool :=
  match l with [] => Done p | x :: l => p ← f p x; each f p l end.

Definition flush_poison (p : pool) (h : Z) : outcome pool :=
  hd ← ld_hdr p h; Done (set_mem p (fill (mem p) (h + SIZEOF_HEADER) (requested_size hd) MP_POISON_BYTE)).

(** The counters: thread-safe fast-path pools keep no live list and count every release. *)
Definition flush_stats (p : pool) (h : Z) : outcome pool :=
  hd ← ld_hdr p h;
  if on p MP_FLAG_THREAD_SAFE && on p MP_FLAG_FAST_PATH then
    let a := ac p in
    let a := if counted hd then Account (u64 (active_bytes a - requested_size hd)) (u64 (active_allocations a - 1))
               (total_alloc_ops a) (total_free_ops a) (peak_bytes a) (os_allocated_bytes a) (total_pool_size a) (size_histogram a)
             else a in
    Done (set_ac p (Account (active_bytes a) (active_allocations a) (total_alloc_ops a) (u64 (total_free_ops a + 1))
                      (peak_bytes a) (os_allocated_bytes a) (total_pool_size a) (size_histogram a)))
  else if counted hd then mp_free_stats_update p h hd else Done p.

Definition flush_event (p : pool) (h : Z) : outcome pool :=
  hd ← ld_hdr p h; Done (trigger_event p MP_EVENT_FREE (h + SIZEOF_HEADER) (requested_size hd)).

(** The slot goes back, by whichever way has room; its link overwrites the header. *)
Definition flush_place (p : pool) (h : Z) : outcome pool :=
  hd ← ld_hdr p h;
  let '(_, b) := slab_put (tiers p) (flags (cf p)) (slab_class hd) (raw_base hd) in
  Done (set_tiers (set_hdrs p (delete h (hdrs p))) b).

Definition flush_slab_block (p : pool) (hdrs : list Z) : outcome pool :=
  p ← (if on p MP_FLAG_POISON_ON_FREE then each flush_poison p hdrs else Done p);
  p ← each flush_stats p hdrs;
  p ← (if has_event_cb (cf p) then each flush_event p hdrs else Done p);
  each flush_place p hdrs.

(** [acc] are the slab headers collected so far. *)
Fixpoint free_batch_loop (p : pool) (ptrs acc : list Z) : outcome pool :=
  match ptrs with
  | [] => if 0 <? zlen acc then flush_slab_block p acc else Done p
  | ptr :: ptrs =>
      if ptr =? NULL then free_batch_loop p ptrs acc
      else
        let h := ptr - SIZEOF_HEADER in
        hd ← ld_hdr p h;
        if negb (magic hd =? MP_MAGIC_HEAD) then p ← mp_free p ptr; free_batch_loop p ptrs acc
        else if (negb (subpool hd =? NULL) && negb (subpool hd =? self (cf p))) || negb (alloc_type hd =? ALLOC_TYPE_SLAB)
        then p ← mp_free p ptr; free_batch_loop p ptrs acc
        else
          let acc := acc ++ [h] in
          if zlen acc =? CMEM_FREE_BATCH_CHUNK then p ← flush_slab_block p acc; free_batch_loop p ptrs []
          else free_batch_loop p ptrs acc
  end.

Definition mp_free_batch (p : pool) (ptrs : list Z) : outcome pool := free_batch_loop p ptrs [].

(** ** Taking blocks off the live list *)

Definition without (A L : list Z) : list Z := filter (fun h => h ∉ A) L.

Lemma without_nil L : without [] L = L.
Proof.
  unfold without. induction L as [|x L IH]; [done|]. rewrite filter_cons_True by apply not_elem_of_nil. by rewrite IH.
Qed.

Lemma without_app A B L : without (A ++ B) L = without B (without A L).
Proof.
  unfold without. rewrite list_filter_filter. apply list_filter_iff. intros x. rewrite elem_of_app. tauto.
Qed.

Lemma without_one L1 h L2 : NoDup (L1 ++ h :: L2) -> without [h] (L1 ++ h :: L2) = L1 ++ L2.
Proof.
  intros (N1 & D & (N2 & N3)%NoDup_cons)%NoDup_app. unfold without. rewrite filter_app, filter_cons_False by (intros H; apply H; by left).
  assert (K : forall l : list Z, h ∉ l -> filter (fun x => x ∉ [h]) l = l).
  { induction l as [|x l IH]; [done|]. rewrite elem_of_cons. intros Hx. rewrite filter_cons_True by (intros ->%list_elem_of_singleton; tauto). rewrite IH; tauto. }
  rewrite !K; [done|done|]. intros H. apply (D h H). by left.
Qed.

Lemma elem_of_without A L x : x ∈ without A L <-> (x ∉ A) /\ x ∈ L.
Proof. unfold without. by rewrite list_elem_of_filter. Qed.

Lemma front_nodup p L : front_ok p L -> NoDup L.
Proof. intros F. apply (fo_list _ _ F). Qed.

Lemma elem_split (h : Z) L : h ∈ L -> exists L1 L2, L = L1 ++ h :: L2.
Proof. apply list_elem_of_split. Qed.

(** Bytes of another block are not in this one's payload. *)
Lemma payload_apart p L h hd y n a :
  front_ok p L -> block_ok p h hd -> y ∈ L -> y <> h -> owned (tiers p) !! y = Some n -> y <= a < y + n ->
  a < h + SIZEOF_HEADER \/ h + SIZEOF_HEADER + requested_size hd <= a.
Proof.
  intros F B Hy Hne Hn Ha. destruct (bo_owned _ _ _ B) as (nh & Hnh & Hle & _). pose proof (canary_len_range (flags (cf p))).
  destruct (fo_disjoint _ _ F _ _ _ _ Hn Hnh); [done| |]; unfold SIZEOF_HEADER in *; lia.
Qed.

(** ** What a release does to the parts of a pool *)

(** The counters: the block leaves the active ones, one of the system's also the figures
    for the system. *)
Definition freed_account (p : pool) (a : account) (h : Z) : account :=
  match hdrs p !! h with
  | None => a
  | Some hd =>
      let a := account_free a (requested_size hd) in
      if alloc_type hd =? ALLOC_TYPE_OS
      then add_os a (- requested_size hd) (- (requested_size hd + SIZEOF_HEADER + canary_len (flags (cf p))))
      else a
  end.

(** The address is in the payload of one of the blocks. *)
Definition in_payload (p : pool) (h a : Z) : bool :=
  match hdrs p !! h with
  | None => false
  | Some hd => (h + SIZEOF_HEADER <=? a) && (a <? h + SIZEOF_HEADER + requested_size hd)
  end.
Definition poisoned (p : pool) (A : list Z) (a : Z) : Z :=
  if on p MP_FLAG_POISON_ON_FREE && existsb (fun h => in_payload p h a) A then MP_POISON_BYTE else mem p a.

Definition free_event (p : pool) (h : Z) : Z * Z * Z :=
  (MP_EVENT_FREE, h + SIZEOF_HEADER, match hdrs p !! h with Some hd => requested_size hd | None => 0 end).
Definition free_events (p : pool) (A : list Z) : list (Z * Z * Z) := if has_event_cb (cf p) then map (free_event p) A else [].

Definition canary_intact (p : pool) (h : Z) : Prop :=
  forall hd, hdrs p !! h = Some hd -> on p MP_FLAG_DEBUG_CANARY = true -> mem p (h + SIZEOF_HEADER + requested_size hd) = MP_CANARY_BYTE.

Lemma freed_account_comm p a x y : freed_account p (freed_account p a x) y = freed_account p (freed_account p a y) x.
Proof.
  unfold freed_account. destruct (hdrs p !! x) as [hx|], (hdrs p !! y) as [hy|]; [|done..]. unfold account_free, add_os.
  destruct (alloc_type hx =? ALLOC_TYPE_OS), (alloc_type hy =? ALLOC_TYPE_OS); cbn; f_equal;
    rewrite ?u64_sub_l, ?u64_add_l; f_equal; lia.
Qed.

Lemma foldl_account_perm p A B : A ≡ₚ B -> forall a, foldl (freed_account p) a A = foldl (freed_account p) a B.
Proof.
  induction 1 as [|x A B _ IH|x y A|A B C _ IH1 _ IH2]; intros a; cbn [foldl]; [done|by rewrite IH|by rewrite freed_account_comm|by rewrite IH1].
Qed.

(** The three depend on the headers of the blocks only. *)
Lemma foldl_account_ext p q A : cf q = cf p -> (forall h, h ∈ A -> hdrs q !! h = hdrs p !! h) ->
  forall a, foldl (freed_account q) a A = foldl (freed_account p) a A.
Proof.
  intros C. induction A as [|h A IH]; intros HA a; cbn [foldl]; [done|]. rewrite IH by (intros x Hx; apply HA; by right).
  unfold freed_account. rewrite C, HA by (by left). done.
Qed.

Lemma existsb_payload_ext p q A a : (forall h, h ∈ A -> hdrs q !! h = hdrs p !! h) ->
  existsb (fun h => in_payload q h a) A = existsb (fun h => in_payload p h a) A.
Proof.
  induction A as [|h A IH]; intros HA; cbn [existsb]; [done|]. rewrite IH by (intros x Hx; apply HA; by right).
  unfold in_payload at 1 3. rewrite HA by (by left). done.
Qed.

Lemma existsb_perm {X} (f : X -> bool) A B : A ≡ₚ B -> existsb f A = existsb f B.
Proof. induction 1 as [|x A B _ IH|x y A|A B C _ IH1 _ IH2]; cbn [existsb]; [done|by rewrite IH|by destruct (f x), (f y)|congruence]. Qed.

Lemma free_events_ext p q A : cf q = cf p -> (forall h, h ∈ A -> hdrs q !! h = hdrs p !! h) -> free_events q A = free_events p A.
Proof.
  intros C HA. unfold free_events. rewrite C. destruct (has_event_cb (cf p)); [|done]. induction A as [|h A IH]; cbn [map]; [done|].
  rewrite IH by (intros x Hx; apply HA; by right). unfold free_event. rewrite HA by (by left). done.
Qed.

Lemma free_events_app p A B : free_events p (A ++ B) = free_events p A ++ free_events p B.
Proof. unfold free_events. destruct (has_event_cb (cf p)); [apply map_app|done]. Qed.

Lemma flush_poison_Some p h hd : hdrs p !! h = Some hd ->
  flush_poison p h = Done (set_mem p (fill (mem p) (h + SIZEOF_HEADER) (requested_size hd) MP_POISON_BYTE)).
Proof. intros E. unfold flush_poison, ld_hdr. by rewrite E. Qed.

Lemma flush_stats_Some p h hd : hdrs p !! h = Some hd -> on p MP_FLAG_FAST_PATH = false -> counted hd = true ->
  flush_stats p h = mp_free_stats_update p h hd.
Proof. intros E Hl Hc. unfold flush_stats, ld_hdr. rewrite E. cbn [mbind outcome_bind]. by rewrite Hl, andb_false_r, Hc. Qed.

(** What the poison phase changes. *)
Lemma each_poison A : forall p L,
  front_ok p L -> (forall h, h ∈ A -> h ∈ L) ->
  exists p', each flush_poison p A = Done p' /\ front_ok p' L /\ kept p p' (without A L) /\
    cf p' = cf p /\ he p' = he p /\ rs p' = rs p /\ hdrs p' = hdrs p /\ tiers p' = tiers p /\ ac p' = ac p /\ events p' = events p /\
    (forall a, mem p' a = if existsb (fun h => in_payload p h a) A then MP_POISON_BYTE else mem p a).
Proof.
  induction A as [|h A IH]; intros p L F HA; cbn [each]; [exists p; split; [done|]; split; [done|]; split; [by apply kept_refl|done]|].
  destruct (fo_blocks _ _ F h) as [hd B]; [apply HA; by left|]. rewrite (flush_poison_Some _ _ _ (bo_hdr _ _ _ B)). cbn [mbind outcome_bind].
  set (p1 := set_mem p _). assert (F1 : front_ok p1 L) by (by apply (front_ok_ext p)).
  destruct (IH p1 L F1) as (p' & -> & F' & K & C & E1 & E2 & E3 & E4 & E5 & E6 & M); [intros x Hx; apply HA; by right|].
  exists p'. split; [done|]. split; [done|]. split; [|split_and!; try done].
  2: { intros a. rewrite M. cbn [existsb]. rewrite (existsb_payload_ext p p1) by done. unfold in_payload at 2. rewrite (bo_hdr _ _ _ B).
       cbn. unfold fill. destruct (existsb _ A); [by rewrite orb_true_r|]. by rewrite orb_false_r. }
  assert (K1 : kept p p1 (without (h :: A) L)).
  { intros y [Hy HyL]%elem_of_without. rewrite elem_of_cons in Hy. split; [done|]. split; [done|]. intros n a Hn Ha. cbn. apply fill_outside.
    destruct (payload_apart p L h hd y n a F B HyL) as [?|?]; [tauto|done|done|by left|by right]. }
  eapply kept_trans; [exact K1|]. intros y Hy. apply K. apply elem_of_without in Hy as [Hy ?]. apply elem_of_without. rewrite elem_of_cons in Hy. tauto.
Qed.

Definition slab_blocks (p : pool) (A : list Z) : Prop := forall h, h ∈ A -> exists hd, hdrs p !! h = Some hd /\ alloc_type hd = ALLOC_TYPE_SLAB.

(** A slab block is not the reserve, and its header is at its slot. *)
Lemma slab_block p h hd : block_ok p h hd -> alloc_type hd = ALLOC_TYPE_SLAB -> h <> emergency_buf (rs p) /\ raw_base hd = h.
Proof. intros B E. split; [intros Eh; apply (bo_emergency _ _ _ B) in Eh; rewrite E in Eh; done|]. apply (bo_base _ _ _ B). by left. Qed.

Lemma event_events p h hd : hdrs p !! h = Some hd ->
  events (trigger_event p MP_EVENT_FREE (h + SIZEOF_HEADER) (requested_size hd)) = events p ++ free_events p [h].
Proof. intros E. unfold trigger_event, free_events. destruct (has_event_cb (cf p)); cbn; [unfold free_event; by rewrite E|by rewrite app_nil_r]. Qed.

(** The counters and the list, one block at a time. *)
Lemma each_stats A : forall p L,
  front_ok p L -> (forall h, h ∈ A -> h ∈ L) -> NoDup A -> slab_blocks p A ->
  exists p', each flush_stats p A = Done p' /\ front_ok p' (without A L) /\
    cf p' = cf p /\ he p' = he p /\ rs p' = rs p /\ hdrs p' = hdrs p /\ tiers p' = tiers p /\ mem p' = mem p /\ events p' = events p /\
    ac p' = foldl (freed_account p) (ac p) A.
Proof.
  induction A as [|h A IH]; intros p L F HA Hd Hs; cbn [each]; [exists p; by rewrite without_nil|].
  destruct (elem_split h L) as (L1 & L2 & ->); [apply HA; by left|]. apply NoDup_cons in Hd as [Hh Hd].
  destruct (fo_blocks _ _ F h) as [hd B]; [rewrite elem_of_app, elem_of_cons; tauto|].
  rewrite (flush_stats_Some _ _ _ (bo_hdr _ _ _ B)) by (apply (fo_live_list _ _ F) || apply (bo_counted _ _ _ B)).
  destruct (free_stats_run p L1 h L2 hd F) as (k & x & -> & Hk). cbn [mbind outcome_bind]. set (p1 := set_ac _ _).
  assert (F1 : front_ok p1 (L1 ++ L2)).
  { apply (front_ok_drop p L1 h L2 hd p1 F (bo_hdr _ _ _ B)); try done. rewrite decide_False; [done|]. apply (slab_block p h hd B).
    destruct (Hs h) as (hd' & Hh' & Ht); [by left|]. pose proof (bo_hdr _ _ _ B). congruence. }
  destruct (IH p1 (L1 ++ L2) F1) as (p' & -> & F' & C & E1 & E2 & E3 & E4 & E5 & E6 & Eac); [|done|intros y Hy; apply Hs; by right|].
  { intros y Hy. specialize (HA y (list_elem_of_further _ _ _ Hy)). rewrite elem_of_app, elem_of_cons in HA. rewrite elem_of_app.
    destruct HA as [?|[->|?]]; tauto. }
  exists p'. split; [done|]. split; [change (h :: A) with ([h] ++ A); by rewrite without_app, without_one by apply (front_nodup _ _ F)|].
  split_and!; try done. rewrite Eac, (foldl_account_ext p p1) by done. cbn [foldl]. f_equal. unfold freed_account. rewrite (bo_hdr _ _ _ B).
  destruct (Hs h) as (hd' & Hh' & Ht); [by left|]. assert (hd' = hd) as -> by (pose proof (bo_hdr _ _ _ B); congruence). by rewrite Ht.
Qed.

Lemma each_events A : forall p L,
  front_ok p L -> (forall h, h ∈ A -> is_Some (hdrs p !! h)) ->
  exists p', each flush_event p A = Done p' /\ front_ok p' L /\
    cf p' = cf p /\ he p' = he p /\ rs p' = rs p /\ hdrs p' = hdrs p /\ tiers p' = tiers p /\ mem p' = mem p /\ ac p' = ac p /\
    events p' = events p ++ free_events p A.
Proof.
  induction A as [|h A IH]; intros p L F HA; cbn [each].
  { exists p. split_and!; try done. unfold free_events. by destruct (has_event_cb _); rewrite app_nil_r. } destruct (HA h) as [hd Hh]; [by left|].
  assert (E1 : flush_event p h = Done (trigger_event p MP_EVENT_FREE (h + SIZEOF_HEADER) (requested_size hd))) by (unfold flush_event, ld_hdr; by rewrite Hh).
  rewrite E1. cbn [mbind outcome_bind]. set (p1 := trigger_event _ _ _ _).
  destruct (IH p1 L) as (p' & -> & F' & E); [by apply front_ok_event|intros y Hy; unfold p1; rewrite event_hdrs; apply HA; by right|].
  exists p'. split; [done|]. split; [done|]. destruct E as (C & E2 & E3 & E4 & E5 & E6 & E7 & E8).
  unfold p1 in C, E2, E3, E4, E5, E6, E7. rewrite event_cf in C. rewrite event_he in E2. rewrite event_rs in E3. rewrite event_hdrs in E4.
  rewrite event_tiers in E5. rewrite event_mem in E6. rewrite event_ac in E7. split_and!; try done.
  rewrite E8, (free_events_ext p p1) by (unfold p1; by rewrite ?event_cf, ?event_hdrs).
  change (h :: A) with ([h] ++ A). rewrite free_events_app, app_assoc. f_equal. unfold p1. by apply event_events.
Qed.

Lemma each_nothing (p : pool) : free_events p [] = [].
Proof. unfold free_events. by destruct (has_event_cb _). Qed.

(** Each slot goes back; the other blocks stay. *)
Lemma each_place A : forall p L,
  front_ok p L -> NoDup A -> (forall h, h ∈ A -> (h ∉ L) /\ h <> emergency_buf (rs p) /\ exists hd, hdrs p !! h = Some hd /\ raw_base hd = h) ->
  exists p', each flush_place p A = Done p' /\ front_ok p' L /\ kept p p' L /\ cf p' = cf p /\ he p' = he p /\ rs p' = rs p /\
    (forall x, x ∉ A -> owned (tiers p') !! x = owned (tiers p) !! x) /\ (forall x, x ∈ A -> owned (tiers p') !! x = None) /\
    (forall x, x ∉ A -> hdrs p' !! x = hdrs p !! x) /\ (forall x, x ∈ A -> hdrs p' !! x = None) /\
    mem p' = mem p /\ ac p' = ac p /\ events p' = events p.
Proof.
  induction A as [|h A IH]; intros p L F Hd HA; cbn [each].
  { exists p. split; [done|]. split; [done|]. split; [by apply kept_refl|].
    split_and!; try done; intros x Hx; by apply not_elem_of_nil in Hx. }
  apply NoDup_cons in Hd as [Hh Hd]. destruct (HA h) as (HhL & He & hd & Hhd & Hb); [by left|].
  destruct (slab_put (tiers p) (flags (cf p)) (slab_class hd) (raw_base hd)) as [r b] eqn:Es.
  assert (E1 : flush_place p h = Done (set_tiers (set_hdrs p (delete h (hdrs p))) b)) by (unfold flush_place, ld_hdr; rewrite Hhd; cbn [mbind outcome_bind]; by rewrite Es).
  rewrite E1. cbn [mbind outcome_bind]. set (p1 := set_tiers _ b). apply slab_put_spec in Es as (Eo & _ & _). rewrite Hb in Eo.
  assert (Hx1 : forall x, x <> h -> hdrs p1 !! x = hdrs p !! x /\ owned (tiers p1) !! x = owned (tiers p) !! x).
  { intros x Hx. cbn. rewrite Eo. by rewrite !lookup_delete_ne by congruence. }
  assert (Hsub : forall x n, owned (tiers p1) !! x = Some n -> owned (tiers p) !! x = Some n).
  { intros x n. cbn. rewrite Eo. by intros [_ ?]%lookup_delete_Some. }
  assert (Hin : forall x, x ∈ L -> x <> h) by (intros x Hx ->; done).
  assert (F1 : front_ok p1 L).
  { split; try apply F.
    - intros x Hx. destruct ((fo_blocks _ _ F) x Hx) as [hx Bx]. exists hx. destruct (Hx1 x (Hin x Hx)). by eapply block_ok_frame.
    - intros Hn. destruct ((fo_reserve _ _ F) Hn) as (R1 & R2 & R3). split; [|done]. destruct (Hx1 (emergency_buf (rs p))) as [_ E]; [congruence|]. cbn in E |- *. by rewrite E.
    - change (ac p1) with (ac p). rewrite (fo_bytes _ _ F). f_equal. symmetry. apply requested_total_eq. intros x Hx. by apply Hx1, Hin.
    - intros x y nx ny Hx Hy. by apply (fo_disjoint _ _ F); apply Hsub.
    - intros x n Hx. by apply (fo_range _ _ F), Hsub. }
  destruct (IH p1 L F1 Hd) as (p' & -> & F' & K & C & Hhe & R & O1 & O2 & H1 & H2 & M & Ea & Ee).
  { intros x Hx. destruct (HA x) as (X1 & X2 & hx & X3 & X4); [by right|]. split; [done|]. split; [done|]. exists hx. split; [|done].
    destruct (Hx1 x) as [-> _]; [|done]. intros ->. done. }
  exists p'. split; [done|]. split; [done|].
  split; [|split; [by rewrite C|split; [by rewrite Hhe|split; [by rewrite R|split; [|split; [|split; [|split; [|done]]]]]]]].
  - eapply kept_trans; [|exact K]. intros x Hx. destruct (Hx1 x (Hin x Hx)) as [-> ->]. done.
  - intros x Hx. rewrite elem_of_cons in Hx. rewrite O1 by tauto. apply Hx1. tauto.
  - intros x [->|Hx]%elem_of_cons; [|by apply O2]. rewrite O1 by done. cbn. rewrite Eo. apply lookup_delete_eq.
  - intros x Hx. rewrite elem_of_cons in Hx. rewrite H1 by tauto. apply Hx1. tauto.
  - intros x [->|Hx]%elem_of_cons; [|by apply H2]. rewrite H1 by done. apply lookup_delete_eq.
Qed.

(** Both a collected block of headers and the whole batch do this to the pool. *)
Record batch_freed (p p' : pool) (A L : list Z) : Prop := {
  bf_ok : front_ok p' (without A L);
  bf_cf : cf p' = cf p;
  bf_kept : kept p p' (without A L);
  bf_rs : rs p' = if existsb (Z.eqb (emergency_buf (rs p))) A then Reserve (emergency_buf (rs p)) (emergency_size (rs p)) false else rs p;
  bf_out : forall x, x ∉ A \/ x = emergency_buf (rs p) -> owned (tiers p') !! x = owned (tiers p) !! x;
  bf_in : forall x, x ∈ A -> x <> emergency_buf (rs p) -> owned (tiers p') !! x = None;
  bf_ac : ac p' = foldl (freed_account p) (ac p) A;
  bf_mem : forall a, mem p' a = poisoned p A a;
  bf_hdr_out : forall x, x ∉ A -> hdrs p' !! x = hdrs p !! x;
  bf_hdr_in : forall x hd, x ∈ A -> hdrs p !! x = Some hd -> alloc_type hd <> ALLOC_TYPE_TLSF ->
    hdrs p' !! x = if alloc_type hd =? ALLOC_TYPE_EMERGENCY then Some hd else None;
  bf_quiet : (forall h, h ∈ A -> canary_intact p h) ->
    he p' = he p /\ exists l, events p' = events p ++ l /\ l ≡ₚ free_events p A;
}.

Lemma bf_buf p p' A L : batch_freed p p' A L -> emergency_buf (rs p') = emergency_buf (rs p) /\ emergency_size (rs p') = emergency_size (rs p).
Proof. intros B. rewrite (bf_rs _ _ _ _ B). by destruct (existsb _ A). Qed.

(** The canary of a block that stays is as it was. *)
Lemma intact_kept p1 p2 L K h : front_ok p1 L -> h ∈ L -> h ∈ K -> cf p2 = cf p1 -> kept p1 p2 K -> canary_intact p1 h -> canary_intact p2 h.
Proof.
  intros F HL Hh C K0 Hi hd Hhd Hc. destruct (K0 h Hh) as (Eh & _ & M). rewrite Eh in Hhd. unfold on in *. rewrite C in Hc.
  destruct (fo_blocks _ _ F h HL) as [hd' B]. assert (hd' = hd) as -> by (pose proof (bo_hdr _ _ _ B); congruence).
  destruct (bo_owned _ _ _ B) as (n & Hn & Hle & _). unfold canary_len in Hle. rewrite Hc in Hle. pose proof (bo_size _ _ _ B).
  rewrite (M n) by (done || (unfold SIZEOF_HEADER in *; lia)). by apply Hi.
Qed.

Lemma existsb_eqb (e : Z) A B : existsb (Z.eqb e) (A ++ B) = existsb (Z.eqb e) A || existsb (Z.eqb e) B.
Proof. apply existsb_app. Qed.

Lemma batch_freed_trans p1 p2 p3 A B L : front_ok p1 L -> batch_freed p1 p2 A L -> batch_freed p2 p3 B (without A L) ->
  (forall x, x ∈ B -> x ∈ without A L) -> batch_freed p1 p3 (A ++ B) L.
Proof.
  intros F BA BB Hsub. destruct (bf_buf _ _ _ _ BA) as [Eb Es]. pose proof BA as [A1 A2 A3 A4 A5 A6 A7 A8 A9 A10 A11].
  destruct BB as [B1 B2 B3 B4 B5 B6 B7 B8 B9 B10 B11].
  assert (Hd : forall x, x ∈ B -> x ∉ A) by (intros x Hx; specialize (Hsub x Hx); apply elem_of_without in Hsub; tauto).
  assert (Hh : forall x, x ∈ B -> hdrs p2 !! x = hdrs p1 !! x) by (intros x Hx; by apply A9, Hd).
  split; try rewrite without_app.
  - done.
  - congruence.
  - eapply kept_trans; [|exact B3]. intros x Hx. apply A3. by apply elem_of_without in Hx as [_ ?].
  - rewrite B4, Eb, Es, existsb_eqb, A4. by destruct (existsb (Z.eqb (emergency_buf (rs p1))) A), (existsb (Z.eqb (emergency_buf (rs p1))) B).
  - intros x Hx. rewrite elem_of_app in Hx. rewrite B5, A5; [done|tauto|]. rewrite Eb. tauto.
  - intros x Hx He. rewrite elem_of_app in Hx. destruct (decide (x ∈ B)) as [Hb|Hb]; [apply B6; [done|congruence]|].
    rewrite B5 by tauto. apply A6; tauto.
  - by rewrite B7, (foldl_account_ext p1 p2 B A2 Hh), A7, foldl_app.
  - intros a. rewrite B8. unfold poisoned, on. rewrite (existsb_payload_ext p1 p2 B a Hh), A8, A2, existsb_app. unfold poisoned, on.
    destruct (has_flag _ _); cbn [andb]; [|done].
    set (eA := existsb _ A). set (eB := existsb _ B). by destruct eA, eB.
  - intros x Hx. rewrite elem_of_app in Hx. rewrite B9, A9; tauto.
  - intros x hd Hx Hhd Ht. rewrite elem_of_app in Hx. destruct (decide (x ∈ B)) as [Hb|Hb]; [apply B10; [done|by rewrite Hh|done]|].
    rewrite B9 by done. apply A10; tauto.
  - intros Hi. destruct A11 as (E1 & l1 & E2 & P1); [intros h Hx; apply Hi, elem_of_app; by left|].
    destruct B11 as (E3 & l2 & E4 & P2).
    { intros h Hx. specialize (Hsub h Hx). eapply (intact_kept p1 p2 L); [done|apply elem_of_without in Hsub; tauto|exact Hsub|done|done|].
      apply Hi, elem_of_app. by right. }
    split; [congruence|]. exists (l1 ++ l2). split; [by rewrite E4, E2, app_assoc|].
    by rewrite free_events_app, P1, P2, (free_events_ext p1 p2 B A2 Hh).
Qed.

Lemma not_emergency p A : (forall h, h ∈ A -> h <> emergency_buf (rs p)) -> existsb (Z.eqb (emergency_buf (rs p))) A = false.
Proof.
  induction A as [|h A IH]; intros HA; cbn [existsb]; [done|]. rewrite IH by (intros x Hx; apply HA; by right).
  rewrite (proj2 (Z.eqb_neq _ _)); [done|]. intros E. apply (HA h); [by left|done].
Qed.

Lemma flush_spec p L A :
  front_ok p L -> (forall h, h ∈ A -> h ∈ L) -> NoDup A -> slab_blocks p A ->
  exists p', flush_slab_block p A = Done p' /\ batch_freed p p' A L /\ he p' = he p.
Proof.
  intros F HA Hd Hs. unfold flush_slab_block.
  assert (H1 : exists p1, (if on p MP_FLAG_POISON_ON_FREE then each flush_poison p A else Done p) = Done p1 /\ front_ok p1 L /\ kept p p1 (without A L) /\
    cf p1 = cf p /\ he p1 = he p /\ rs p1 = rs p /\ hdrs p1 = hdrs p /\ tiers p1 = tiers p /\ ac p1 = ac p /\ events p1 = events p /\
    forall a, mem p1 a = poisoned p A a).
  { unfold poisoned. destruct (on p MP_FLAG_POISON_ON_FREE); [|exists p; split; [done|]; split; [done|]; split; [by apply kept_refl|done]].
    destruct (each_poison A p L F HA) as (p1 & E & F1 & K & C). by exists p1. }
  destruct H1 as (p1 & -> & F1 & K1 & C1 & He1 & R1 & H1 & T1 & Ac1 & Ev1 & M1). cbn [mbind outcome_bind].
  destruct (each_stats A p1 L F1 HA Hd) as (p2 & -> & F2 & C2 & He2 & R2 & H2 & T2 & M2 & Ev2 & Ac2); [unfold slab_blocks; by rewrite H1|]. cbn [mbind outcome_bind].
  assert (H3 : exists p3, (if has_event_cb (cf p2) then each flush_event p2 A else Done p2) = Done p3 /\ front_ok p3 (without A L) /\
    cf p3 = cf p2 /\ he p3 = he p2 /\ rs p3 = rs p2 /\ hdrs p3 = hdrs p2 /\ tiers p3 = tiers p2 /\ mem p3 = mem p2 /\ ac p3 = ac p2 /\
    events p3 = events p2 ++ free_events p2 A).
  { destruct (has_event_cb (cf p2)) eqn:Ec.
    - apply each_events; [done|]. intros h Hh. rewrite H2, H1. destruct (Hs h Hh) as (hd & -> & _). eauto.
    - exists p2. split_and!; try done. unfold free_events. by rewrite Ec, app_nil_r. }
  destruct H3 as (p3 & -> & F3 & C3 & He3 & R3 & H3 & T3 & M3 & Ac3 & Ev3). cbn [mbind outcome_bind].
  assert (Hne : forall h, h ∈ A -> h <> emergency_buf (rs p)).
  { intros h Hh. destruct (Hs h Hh) as (hd & Hhd & Ht). destruct (fo_blocks _ _ F h) as [hd' B]; [by apply HA|].
    assert (hd' = hd) as -> by (pose proof (bo_hdr _ _ _ B); congruence). by apply (slab_block p h hd B Ht). }
  destruct (each_place A p3 (without A L) F3 Hd) as (p' & -> & F' & K & C & Hhe & R & O1 & O2 & H4 & H5 & M4 & Ac4 & Ev4).
  { intros h Hh. split; [rewrite elem_of_without; tauto|]. destruct (Hs h Hh) as (hd & Hhd & Ht). destruct (fo_blocks _ _ F h) as [hd' B]; [by apply HA|].
    assert (hd' = hd) as -> by (pose proof (bo_hdr _ _ _ B); congruence). destruct (slab_block p h hd B Ht) as [_ Hb].
    split; [rewrite R3, R2, R1; by apply Hne|]. exists hd. split; [congruence|done]. }
  exists p'. split; [done|]. split; [|congruence]. split; [done|congruence| | | | | | | | |].
  - eapply kept_trans; [exact K1|]. eapply kept_trans; [|exact K]. apply kept_refl; congruence.
  - rewrite not_emergency by done. congruence.
  - intros x Hx. rewrite O1; [congruence|]. destruct Hx as [? | ->]; [done|]. intros Hx. by apply (Hne _ Hx).
  - intros x Hx _. by apply O2.
  - rewrite Ac4, Ac3, Ac2, Ac1. apply foldl_account_ext; [done|]. intros h _. by rewrite H1.
  - intros a. by rewrite M4, M3, M2, M1.
  - intros x Hx. rewrite H4 by done. congruence.
  - intros x hd Hx Hhd _. rewrite H5 by done. destruct (Hs x Hx) as (hd' & Hhd' & Ht). assert (hd' = hd) as -> by congruence. by rewrite Ht.
  - intros _. split; [congruence|]. exists (free_events p A). split; [|done].
    rewrite Ev4, Ev3, Ev2, Ev1, (free_events_ext p p2) by congruence. done.
Qed.

Lemma batch_freed_perm p p' A B L : A ≡ₚ B -> batch_freed p p' A L -> batch_freed p p' B L.
Proof.
  intros HP [A1 A2 A3 A4 A5 A6 A7 A8 A9 A10 A11].
  assert (Ew : without A L = without B L) by (unfold without; apply list_filter_iff; intros x; by rewrite HP).
  split; rewrite <- ?Ew; try done.
  - by rewrite A4, (existsb_perm _ A B HP).
  - intros x Hx. apply A5. by rewrite HP.
  - intros x Hx. apply A6. by rewrite HP.
  - by rewrite A7, (foldl_account_perm p A B HP).
  - intros a. rewrite A8. unfold poisoned. by rewrite (existsb_perm _ A B HP).
  - intros x Hx. apply A9. by rewrite HP.
  - intros x hd Hx. apply A10. by rewrite HP.
  - intros Hi. destruct A11 as (E & l & El & Hl); [intros h Hh; apply Hi; by rewrite <- HP|]. split; [done|]. exists l. split; [done|].
    rewrite Hl. unfold free_events. destruct (has_event_cb (cf p)); [by rewrite HP|done].
Qed.

Lemma batch_freed_refl p L : front_ok p L -> batch_freed p p [] L.
Proof.
  intros F. split; try done; [by rewrite without_nil| | | |].
  - intros x Hx. by apply not_elem_of_nil in Hx.
  - intros a. unfold poisoned. cbn. by rewrite andb_false_r.
  - intros x hd Hx. by apply not_elem_of_nil in Hx.
  - intros _. split; [done|]. exists []. by rewrite app_nil_r, each_nothing.
Qed.

(** The poison and the canary check of [mp_free]. *)
Lemma scrub_mem p h hd : hdrs p !! h = Some hd -> forall a, mem (scrub p (h + SIZEOF_HEADER) hd) a = poisoned p [h] a.
Proof.
  intros Hh a. unfold scrub, poisoned, on. cbn [existsb]. rewrite orb_false_r. unfold in_payload. rewrite Hh.
  set (p1 := if has_flag (flags (cf p)) MP_FLAG_POISON_ON_FREE then _ else _).
  assert (E : mem p1 a = if has_flag (flags (cf p)) MP_FLAG_POISON_ON_FREE && ((h + SIZEOF_HEADER <=? a) && (a <? h + SIZEOF_HEADER + requested_size hd))
                         then MP_POISON_BYTE else mem p a) by (unfold p1; by destruct (has_flag _ _)).
  rewrite <- E. destruct (has_flag (flags (cf p1)) MP_FLAG_DEBUG_CANARY); [|done]. unfold mp_verify_free_canary.
  destruct (_ =? MP_CANARY_BYTE); [done|]. unfold mp_mark_pool_dirty, trigger_event. cbn. destruct (has_event_cb (cf p1)) eqn:Ec; cbn; by rewrite ?Ec.
Qed.

Lemma scrub_quiet p h hd : hdrs p !! h = Some hd -> 0 <= requested_size hd -> canary_intact p h ->
  events (scrub p (h + SIZEOF_HEADER) hd) = events p /\ he (scrub p (h + SIZEOF_HEADER) hd) = he p.
Proof.
  intros Hh Hsz Hi. unfold scrub, on. set (p1 := if has_flag (flags (cf p)) MP_FLAG_POISON_ON_FREE then _ else _).
  assert (E : cf p1 = cf p /\ events p1 = events p /\ he p1 = he p /\ mem p1 (h + SIZEOF_HEADER + requested_size hd) = mem p (h + SIZEOF_HEADER + requested_size hd)).
  { unfold p1. destruct (has_flag _ _); [|done]. split_and!; try done. cbn. unfold fill.
    rewrite (proj2 (Z.ltb_ge (_ + _) (_ + _))), andb_false_r by lia. done. }
  destruct E as (C & E1 & E2 & E3). rewrite C. destruct (has_flag (flags (cf p)) MP_FLAG_DEBUG_CANARY) eqn:Ed; [|done].
  unfold mp_verify_free_canary. rewrite E3, (Hi hd Hh Ed). done.
Qed.

(** What is left to do after them. *)
Lemma release_effects p L1 h L2 hd p' :
  front_ok p (L1 ++ h :: L2) -> block_ok p h hd -> release p (h + SIZEOF_HEADER) hd = Done p' ->
  ac p' = freed_account p (ac p) h /\ mem p' = mem p /\ events p' = events p ++ free_events p [h] /\
  rs p' = (if emergency_buf (rs p) =? h then Reserve (emergency_buf (rs p)) (emergency_size (rs p)) false else rs p) /\
  (forall x, x <> h -> hdrs p' !! x = hdrs p !! x) /\
  (alloc_type hd <> ALLOC_TYPE_TLSF -> hdrs p' !! h = if alloc_type hd =? ALLOC_TYPE_EMERGENCY then Some hd else None).
Proof.
  intros F B. pose proof (bo_hdr _ _ _ B) as Hh. destruct (free_stats_run p L1 h L2 hd F) as (k & x & Hst & _). set (q := set_ac _ _) in Hst.
  assert (Eq : hdrs q = hdrs p /\ cf q = cf p /\ events q = events p /\ tiers q = tiers p) by done. destruct Eq as (Eh & Ec & Ee & Et).
  assert (Hne : alloc_type hd <> ALLOC_TYPE_EMERGENCY -> (emergency_buf (rs p) =? h) = false).
  { intros Hn. apply Z.eqb_neq. intros E. apply Hn, (bo_emergency _ _ _ B). done. }
  unfold release, freed_account. replace (h + SIZEOF_HEADER - SIZEOF_HEADER) with h by lia. rewrite Hh, (bo_counted _ _ _ B).
  assert (Hev : forall r, hdrs r !! h = Some hd \/ True -> cf r = cf p -> events r = events p ->
    events (trigger_event r MP_EVENT_FREE (h + SIZEOF_HEADER) (requested_size hd)) = events p ++ free_events p [h]).
  { intros r _ Cr Er. unfold trigger_event, free_events. rewrite Cr. destruct (has_event_cb (cf p)); cbn; [unfold free_event; by rewrite Hh, Er|by rewrite Er, app_nil_r]. }
  destruct (Z.eqb_spec (alloc_type hd) ALLOC_TYPE_SLAB) as [T|T1].
  - destruct (slab_put _ _ _ _) as [r b] eqn:Es. apply slab_put_spec in Es as (_ & R1 & R2).
    rewrite slab_stats_run; [|apply (fo_live_list _ _ F)|apply (bo_counted _ _ _ B)|done..]. rewrite Hst. cbn [mbind outcome_bind]. intros [= <-].
    rewrite event_ac, event_mem, event_rs, event_hdrs, Hev, T by auto. rewrite Hne by (by rewrite T). cbn.
    split_and!; try done; [intros y Hy; by rewrite lookup_delete_ne|intros _; by rewrite lookup_delete_eq].
  - rewrite Hst. cbn [mbind outcome_bind]. destruct (Z.eqb_spec (alloc_type hd) ALLOC_TYPE_TLSF) as [T|T2].
    + destruct (tlsf_put (tiers q) h hd) as [hd' b]. intros [= <-].
      rewrite event_ac, event_mem, event_rs, event_hdrs, Hev, T by auto. rewrite Hne by (by rewrite T). cbn.
      split_and!; try done. intros y Hy. by rewrite lookup_insert_ne.
    + destruct (Z.eqb_spec (alloc_type hd) ALLOC_TYPE_OS) as [T|T3].
      * intros [= <-]. rewrite event_ac, event_mem, event_rs, event_hdrs, Hev, T by auto. rewrite Hne by (by rewrite T). cbn.
        split_and!; try done; [intros y Hy; by rewrite lookup_delete_ne|intros _; by rewrite lookup_delete_eq].
      * assert (T : alloc_type hd = ALLOC_TYPE_EMERGENCY) by (destruct (bo_type _ _ _ B) as [?|[?|[?|?]]]; done). rewrite T. cbn [Z.eqb].
        change (ALLOC_TYPE_EMERGENCY =? ALLOC_TYPE_EMERGENCY) with true. cbn match. intros [= <-].
        rewrite event_ac, event_mem, event_rs, event_hdrs, Hev by auto. apply (bo_emergency _ _ _ B) in T as Eb. rewrite <- Eb, Z.eqb_refl. cbn.
        split_and!; done.
Qed.

(** [mp_free] of one live block. *)
Lemma free_one p L h : front_ok p L -> h ∈ L -> exists p', mp_free p (h + SIZEOF_HEADER) = Done p' /\ batch_freed p p' [h] L.
Proof.
  intros F Hh. destruct (elem_split h L Hh) as (L1 & L2 & ->). destruct (fo_blocks _ _ F h Hh) as [hd B].
  destruct (mp_free_spec p L1 h L2 F) as (hd0 & p' & E0 & E & F' & Eb & C & K & O & Hhe & _).
  assert (hd0 = hd) as -> by (pose proof (bo_hdr _ _ _ B); congruence). clear E0.
  exists p'. split; [done|]. pose proof (without_one _ _ _ (front_nodup _ _ F)) as Ew.
  destruct (scrub_same p (h + SIZEOF_HEADER) hd) as (S1 & S2 & S3 & S4 & S5 & S6 & S7 & S8).
  pose proof (scrub_mem p h hd (bo_hdr _ _ _ B)) as Sm. pose proof (scrub_quiet p h hd (bo_hdr _ _ _ B) ltac:(apply B)) as Sq.
  pose proof (bo_pos _ _ _ B) as H0. rewrite (mp_free_eq p h hd) in E; [|unfold NULL, SIZEOF_HEADER; lia|apply B|apply B].
  set (q := scrub _ _ _) in *. assert (Fq : front_ok q (L1 ++ h :: L2)) by (by apply (front_ok_ext p); rewrite ?S7).
  assert (Bq : block_ok q h hd).
  { destruct (fo_blocks _ _ Fq h Hh) as [hd1 B1]. assert (hd1 = hd) as -> by (pose proof (bo_hdr _ _ _ B1); pose proof (bo_hdr _ _ _ B); congruence). done. }
  destruct (release_effects q L1 h L2 hd p' Fq Bq E) as (X1 & X2 & X3 & X4 & X5 & X6).
  split; try rewrite Ew; try done.
  - rewrite X4, S3. cbn [existsb]. by rewrite orb_false_r.
  - intros x Hx. rewrite list_elem_of_singleton in Hx. rewrite O. destruct (decide (h = emergency_buf (rs p))); [done|].
    rewrite lookup_delete_ne; [done|]. intros ->. destruct Hx; congruence.
  - intros x ->%list_elem_of_singleton Hne. rewrite O, decide_False by done. apply lookup_delete_eq.
  - cbn [foldl]. rewrite X1, S2. unfold freed_account. by rewrite S6, S1.
  - intros a. by rewrite X2.
  - intros x Hx. rewrite list_elem_of_singleton in Hx. by rewrite X5, S6.
  - intros x hx ->%list_elem_of_singleton Hx Ht. assert (hx = hd) as -> by (pose proof (bo_hdr _ _ _ B); congruence). by apply X6.
  - intros Hi. destruct Sq as [Q1 Q2]; [apply Hi; by left|]. split; [congruence|]. exists (free_events q [h]).
    split; [by rewrite X3, Q1|]. rewrite (free_events_ext p q); [done|done|]. intros y _. by rewrite S6.
Qed.

(** The headers of a batch of payload pointers. *)
Definition heads (ptrs : list Z) : list Z := map (fun x => x - SIZEOF_HEADER) (filter (fun x => x <> NULL) ptrs).

Lemma heads_cons x l : x <> NULL -> heads (x :: l) = (x - SIZEOF_HEADER) :: heads l.
Proof. intros H. unfold heads. by rewrite filter_cons_True. Qed.

Lemma heads_null l : heads (NULL :: l) = heads l.
Proof. unfold heads. rewrite filter_cons_False; tauto. Qed.

(** A slab block of this very pool. *)
Definition own_slab (p : pool) (h : Z) : Prop :=
  exists hd, hdrs p !! h = Some hd /\ alloc_type hd = ALLOC_TYPE_SLAB /\ (subpool hd = NULL \/ subpool hd = self (cf p)).

Lemma own_slab_kept p p' L h : cf p' = cf p -> kept p p' L -> h ∈ L -> own_slab p h -> own_slab p' h.
Proof. intros C K Hh (hd & E & T & S). destruct (K h Hh) as (Eh & _). exists hd. rewrite Eh, C. done. Qed.

Lemma loop_spec ptrs : forall p L acc,
  front_ok p L -> NoDup (acc ++ heads ptrs) -> (forall h, h ∈ acc ++ heads ptrs -> h ∈ L) -> slab_blocks p acc ->
  exists p', free_batch_loop p ptrs acc = Done p' /\ batch_freed p p' (acc ++ heads ptrs) L /\ ((forall h, h ∈ heads ptrs -> own_slab p h) -> he p' = he p).
Proof.
  induction ptrs as [|ptr ptrs IH]; intros p L acc F Hd Hin Hs; cbn [free_batch_loop].
  { change (heads []) with (@nil Z) in *. rewrite app_nil_r in *. destruct (Z.ltb_spec 0 (zlen acc)) as [_|H0].
    - destruct (flush_spec p L acc F Hin Hd Hs) as (p' & -> & B & He). by exists p'.
    - destruct acc as [|x acc]; [|rewrite zlen_cons in H0; pose proof (zlen_nonneg acc); lia]. exists p. split; [done|]. split; [by apply batch_freed_refl|done]. }
  destruct (Z.eqb_spec ptr NULL) as [->|Hp]; [rewrite heads_null in *; by apply IH|]. rewrite (heads_cons ptr ptrs Hp) in *. set (h := ptr - SIZEOF_HEADER) in *.
  assert (HhL : h ∈ L) by (apply Hin; rewrite elem_of_app, elem_of_cons; tauto).
  destruct (fo_blocks _ _ F h HhL) as [hd B]. unfold ld_hdr. rewrite (bo_hdr _ _ _ B). cbn [mbind outcome_bind]. rewrite (bo_magic _ _ _ B). cbn [Z.eqb negb].
  change (MP_MAGIC_HEAD =? MP_MAGIC_HEAD) with true. cbn [negb]. apply NoDup_app in Hd as (Na & Da & (Nh & Nr)%NoDup_cons).
  assert (Hha : h ∉ acc) by (intros H; apply (Da h H); by left).
  destruct ((negb (subpool hd =? NULL) && negb (subpool hd =? self (cf p))) || negb (alloc_type hd =? ALLOC_TYPE_SLAB)) eqn:G.
  - destruct (free_one p L h F HhL) as (p1 & E1 & B1). replace (h + SIZEOF_HEADER) with ptr in E1 by (subst h; lia). rewrite E1. cbn [mbind outcome_bind].
    assert (Hin' : forall x, x ∈ acc ++ heads ptrs -> x ∈ without [h] L).
    { intros x Hx. rewrite elem_of_without, list_elem_of_singleton. split; [intros ->; rewrite elem_of_app in Hx; tauto|]. apply Hin. rewrite elem_of_app, elem_of_cons in *. tauto. }
    destruct (IH p1 (without [h] L) acc (bf_ok _ _ _ _ B1)) as (p' & -> & B2 & _).
    + apply NoDup_app. split; [done|]. split; [|done]. intros x Hx Hx'. apply (Da x Hx). by right.
    + exact Hin'.
    + intros x Hx. destruct (Hs x Hx) as (hx & Ex & Tx). exists hx. destruct (bf_kept _ _ _ _ B1 x) as (-> & _); [apply Hin'; rewrite elem_of_app; by left|done].
    + exists p'. split; [done|]. split.
      * apply (batch_freed_perm p p' ([h] ++ acc ++ heads ptrs)); [apply (Permutation_middle acc (heads ptrs) h)|].
        eapply batch_freed_trans; [exact F|exact B1|exact B2|exact Hin'].
      * intros Hall. exfalso. destruct (Hall h) as (hd' & E & T & S); [by left|]. assert (hd' = hd) as -> by (pose proof (bo_hdr _ _ _ B); congruence).
        rewrite T in G. change (ALLOC_TYPE_SLAB =? ALLOC_TYPE_SLAB) with true in G. rewrite orb_false_r in G. apply andb_true_iff in G as [G1 G2].
        apply negb_true_iff, Z.eqb_neq in G1, G2. tauto.
  - apply orb_false_iff in G as [_ G]. apply negb_false_iff, Z.eqb_eq in G.
    assert (Hs' : slab_blocks p (acc ++ [h])).
    { intros x [Hx|Hx%list_elem_of_singleton]%elem_of_app; [by apply Hs|]. subst x. exists hd. split; [apply B|done]. }
    assert (Eapp : (acc ++ [h]) ++ heads ptrs = acc ++ h :: heads ptrs) by (by rewrite <- app_assoc).
    assert (Nacc : NoDup ((acc ++ [h]) ++ heads ptrs)).
    { rewrite Eapp. apply NoDup_app. split; [done|]. split; [done|]. by apply NoDup_cons. }
    destruct (zlen (acc ++ [h]) =? CMEM_FREE_BATCH_CHUNK).
    + apply NoDup_app in Nacc as (N1 & D1 & N2).
      destruct (flush_spec p L (acc ++ [h]) F) as (p1 & -> & B1 & He1); [|done|done|].
      { intros x Hx. apply Hin. rewrite <- Eapp, elem_of_app. by left. }
      cbn [mbind outcome_bind].
      assert (Hin' : forall x, x ∈ heads ptrs -> x ∈ without (acc ++ [h]) L).
      { intros x Hx. apply elem_of_without. split; [intros Hx'; by apply (D1 x)|]. apply Hin. rewrite <- Eapp, elem_of_app. by right. }
      destruct (IH p1 (without (acc ++ [h]) L) [] (bf_ok _ _ _ _ B1)) as (p' & -> & B2 & He2); [done|exact Hin'|intros x Hx; by apply not_elem_of_nil in Hx|].
      exists p'. split; [done|]. rewrite <- Eapp. split; [eapply batch_freed_trans; [exact F|exact B1|exact B2|exact Hin']|].
      intros Hall. rewrite He2; [done|]. intros x Hx. eapply own_slab_kept; [apply (bf_cf _ _ _ _ B1)|apply (bf_kept _ _ _ _ B1)|by apply Hin'|]. apply Hall. by right.
    + destruct (IH p L (acc ++ [h]) F Nacc) as (p' & -> & B2 & He2); [by rewrite Eapp|done|]. rewrite Eapp in B2. exists p'. split; [done|]. split; [done|].
      intros Hall. apply He2. intros x Hx. apply Hall. by right.
Qed.

(** The reference: one release at a time. *)
Lemma frees_spec ptrs : forall p L,
  front_ok p L -> NoDup (heads ptrs) -> (forall h, h ∈ heads ptrs -> h ∈ L) -> exists p', each mp_free p ptrs = Done p' /\ batch_freed p p' (heads ptrs) L.
Proof.
  induction ptrs as [|ptr ptrs IH]; intros p L F Hd Hin; cbn [each]; [exists p; split; [done|by apply batch_freed_refl]|].
  destruct (decide (ptr = NULL)) as [->|Hp]; [rewrite heads_null in *; change (mp_free p NULL) with (Done p); cbn [mbind outcome_bind]; by apply IH|].
  rewrite (heads_cons ptr ptrs Hp) in *. set (h := ptr - SIZEOF_HEADER) in *. apply NoDup_cons in Hd as [Nh Nr].
  destruct (free_one p L h F) as (p1 & E1 & B1); [apply Hin; by left|]. replace (h + SIZEOF_HEADER) with ptr in E1 by (subst h; lia). rewrite E1. cbn [mbind outcome_bind].
  assert (Hin' : forall x, x ∈ heads ptrs -> x ∈ without [h] L).
  { intros x Hx. rewrite elem_of_without, list_elem_of_singleton. split; [intros ->; done|]. apply Hin. by right. }
  destruct (IH p1 (without [h] L) (bf_ok _ _ _ _ B1) Nr Hin') as (p' & -> & B2).
  exists p'. split; [done|]. change (h :: heads ptrs) with ([h] ++ heads ptrs). eapply batch_freed_trans; [exact F|exact B1|exact B2|exact Hin'].
Qed.

(** C26: releasing a batch is releasing its pointers one at a time.  For distinct live blocks
    of any tier, NULLs among them and any number of them, both come back and leave the same
    live list, the same counters, every byte of memory the same (the poison included), the
    same headers (the merged blocks of TLSF aside, whose books are the tier's), the same
    extents handed out and the same reserve; and where the canaries of the batch are intact,
    the same health and the same events, in some order.  As everywhere in the front end's
    theorems the pool keeps a live list, so it is no FAST_PATH pool. *)
Theorem free_batch_equiv p L ptrs :
  front_ok p L -> NoDup (heads ptrs) -> (forall h, h ∈ heads ptrs -> h ∈ L) ->
  exists p1 p2, mp_free_batch p ptrs = Done p1 /\ each mp_free p ptrs = Done p2 /\
    front_ok p1 (without (heads ptrs) L) /\ front_ok p2 (without (heads ptrs) L) /\ kept p p1 (without (heads ptrs) L) /\ kept p p2 (without (heads ptrs) L) /\
    cf p1 = cf p2 /\ ac p1 = ac p2 /\ rs p1 = rs p2 /\ (forall a, mem p1 a = mem p2 a) /\
    (forall x, (forall hd, x ∈ heads ptrs -> hdrs p !! x = Some hd -> alloc_type hd <> ALLOC_TYPE_TLSF) -> hdrs p1 !! x = hdrs p2 !! x) /\
    (forall x, owned (tiers p1) !! x = owned (tiers p2) !! x) /\
    ((forall h, h ∈ heads ptrs -> canary_intact p h) ->
       he p1 = he p /\ he p2 = he p /\ events p1 ≡ₚ events p2 /\ events p2 ≡ₚ events p ++ free_events p (heads ptrs)).
Proof.
  intros F Hd Hin. destruct (loop_spec ptrs p L [] F Hd Hin) as (p1 & E1 & B1 & _); [intros x Hx; by apply not_elem_of_nil in Hx|].
  destruct (frees_spec ptrs p L F Hd Hin) as (p2 & E2 & B2). exists p1, p2. split; [exact E1|]. split; [exact E2|]. cbn [app] in B1.
  destruct B1 as [A1 A2 A3 A4 A5 A6 A7 A8 A9 A10 A11], B2 as [C1 C2 C3 C4 C5 C6 C7 C8 C9 C10 C11]. do 4 (split; [done|]).
  split; [congruence|]. split; [congruence|]. split; [congruence|]. split; [intros a; by rewrite A8, C8|]. split; [|split].
  - intros x Hx. destruct (decide (x ∈ heads ptrs)) as [Hh|Hh]; [|by rewrite A9, C9].
    destruct (fo_blocks _ _ F x (Hin x Hh)) as [hd B]. specialize (Hx hd Hh (bo_hdr _ _ _ B)). by rewrite (A10 x hd), (C10 x hd) by (done || apply B).
  - intros x. destruct (decide (x ∈ heads ptrs)) as [Hh|Hh]; [|by rewrite A5, C5 by (by left)].
    destruct (decide (x = emergency_buf (rs p))) as [He|He]; [by rewrite A5, C5 by (by right)|by rewrite A6, C6].
  - intros Hi. destruct (A11 Hi) as (-> & l & -> & Hl), (C11 Hi) as (-> & l' & -> & Hl'). by rewrite Hl, Hl'.
Qed.

(** A batch release never looks at the canaries.  A slab block whose canary has been
    overwritten is released by [mp_free] with an event and the pool marked dirty; released
    by [mp_free_batch], alone or with others, it leaves the pool's health as it was. *)
Theorem free_batch_skips_canary p L ptrs h hd :
  front_ok p L -> NoDup (heads ptrs) -> (forall x, x ∈ heads ptrs -> x ∈ L /\ own_slab p x) ->
  h ∈ heads ptrs -> hdrs p !! h = Some hd -> on p MP_FLAG_DEBUG_CANARY = true -> mem p (h + SIZEOF_HEADER + requested_size hd) <> MP_CANARY_BYTE ->
  exists p1 p2, mp_free p (h + SIZEOF_HEADER) = Done p1 /\ is_dirty (he p1) = true /\ mp_free_batch p ptrs = Done p2 /\ he p2 = he p.
Proof.
  intros F Hd Hin Hh Hhd Hc Hm. destruct (loop_spec ptrs p L [] F Hd) as (p2 & E2 & _ & He2).
  { intros x Hx. by apply Hin. }
  { intros x Hx. by apply not_elem_of_nil in Hx. }
  destruct (elem_split h L) as (L1 & L2 & ->); [by apply Hin|]. destruct (mp_free_spec p L1 h L2 F) as (hd' & p1 & Hhd' & E1 & _ & _ & _ & _ & _ & He1 & _).
  assert (hd' = hd) as -> by congruence. exists p1, p2. split; [done|]. split; [|split; [exact E2|apply He2; intros x Hx; by apply Hin]].
  rewrite He1. destruct (fo_blocks _ _ F h) as [hx B]; [rewrite elem_of_app, elem_of_cons; tauto|]. assert (hx = hd) as -> by (pose proof (bo_hdr _ _ _ B); congruence).
  apply scrub_canary; [done|apply B|done].
Qed.

End Batch.

(** ** Concrete runs *)

Lemma free_batch_equiv_witness :
  let p := (Toy.demo_two 0 0).1 in
  exists p1 p2, mp_free_batch p [4096 + SIZEOF_HEADER; NULL; 4296 + SIZEOF_HEADER] = Done p1 /\
    each mp_free p [4096 + SIZEOF_HEADER; NULL; 4296 + SIZEOF_HEADER] = Done p2 /\ ac p1 = ac p2 /\ (forall a, mem p1 a = mem p2 a) /\ events p1 ≡ₚ events p2.
Proof.
  intros p. destruct (Toy.demo_two_ok 0 0 eq_refl eq_refl) as [F C]; [vm_compute; exact eq_refl|].
  assert (F1 : front_ok p ([] ++ 4296 :: [4096])) by (apply (two_split 0 0 4296 4096 F); vm_compute; exact eq_refl).
  destruct (free_batch_equiv p ([] ++ 4296 :: [4096]) [4096 + SIZEOF_HEADER; NULL; 4296 + SIZEOF_HEADER] F1) as (p1 & p2 & E1 & E2 & _ & _ & _ & _ & _ & A & _ & M & _ & _ & Q).
  - apply (bool_decide_unpack _). vm_compute. exact I.
  - intros x Hx. change (x ∈ [4096; 4296]) in Hx. rewrite !elem_of_cons, elem_of_nil in Hx. cbn [app]. rewrite !elem_of_cons, elem_of_nil. tauto.
  - exists p1, p2. split; [exact E1|]. split; [exact E2|]. split; [exact A|]. split; [exact M|]. apply Q. intros h _ hd _ Hc.
    exfalso. vm_compute in Hc. discriminate.
Defined.

(** The canary of the slab block overwritten. *)
Definition smashed_slab : pool (TT := Toy.toy) := let p := (Toy.demo_two MP_FLAG_DEBUG_CANARY 0).1 in set_mem p (fill (mem p) (4096 + SIZEOF_HEADER + 40) 1 0).

Lemma free_batch_skips_canary_witness :
  exists p1 p2, mp_free smashed_slab (4096 + SIZEOF_HEADER) = Done p1 /\ is_dirty (he p1) = true /\
    mp_free_batch smashed_slab [4096 + SIZEOF_HEADER] = Done p2 /\ he p2 = he smashed_slab.
Proof.
  destruct (Toy.demo_two_ok MP_FLAG_DEBUG_CANARY 0 eq_refl eq_refl) as [F C]; [vm_compute; exact eq_refl|].
  assert (F1 : front_ok smashed_slab ([] ++ 4297 :: [4096])).
  { unfold smashed_slab. apply front_ok_set_mem. apply (two_split MP_FLAG_DEBUG_CANARY 0 4297 4096 F). vm_compute. exact eq_refl. }
  assert (C1 : cf smashed_slab = Toy.demo_config MP_FLAG_DEBUG_CANARY 0) by (unfold smashed_slab; rewrite cf_set_mem; exact C).
  assert (E : hdrs smashed_slab !! 4096 = Some (hdr_of smashed_slab 4096)) by (vm_compute; exact eq_refl).
  apply (free_batch_skips_canary smashed_slab ([] ++ 4297 :: [4096]) [4096 + SIZEOF_HEADER] 4096 (hdr_of smashed_slab 4096) F1).
  - apply (bool_decide_unpack _). vm_compute. exact I.
  - intros x Hx. change (x ∈ [4096]) in Hx. apply list_elem_of_singleton in Hx. subst x. split; [right; by left|].
    exists (hdr_of smashed_slab 4096). split; [exact E|]. split; [vm_compute; exact eq_refl|right; rewrite C1; vm_compute; exact eq_refl].
  - by left.
  - exact E.
  - unfold on. rewrite C1. exact eq_refl.
  - vm_compute. discriminate.
Defined.
