(* ===== verification/AllocBatch.v ===== *)
(** * Allocating a batch

    [mp_alloc_batch] of [src/cmem_alloc.c] over the front end's pool: one limit decision for
    the whole batch, then the thread cache, the per-CPU list and bulk pops for slab sizes,
    the TLSF tier or the operating system for the others, the emergency reserve for the
    element that no longer fits, and one update of the books at the end. *)
From S2P Require Import Prelude Header Dll SizeClass Front FrontSpec FrontProps FreeBatch.
From Stdlib Require Import ZArith Lia.
From stdpp Require Import base option list gmap.
Open Scope Z_scope.

(** What the slab tier offers a batch beyond single slots; the laws are those of [slab_get]. *)
Definition slab_extent `{Tiers} (f c : Z) : Z := SIZEOF_HEADER + slot_bytes c + canary_len f.

(** Slots handed out one after the other. *)
Fixpoint handed `{Tiers} (o o' : gmap Z Z) (n : Z) (slots : list Z) : Prop :=
  match slots with
  | [] => o' = o
  | h :: slots => fresh_in o h n /\ handed (<[h := n]> o) o' n slots
  end.

Class BatchTiers `{TT : Tiers} := {
  tls_count : back -> Z -> Z;                                 (* [tls_cache.counts[class]] *)
  tls_pop : back -> Z -> Z -> Z * back;                       (* flags, class; the cache is not empty *)
  percpu_freelists : back -> bool;
  percpu_pop : back -> Z -> Z -> Z * back;
  percpu_refill : back -> Z -> Z -> back;
  slab_alloc_batch : back -> Z -> Z -> Z -> list Z * back;    (* flags, class, how many *)
  tls_pop_spec : forall b f c h b', 0 < tls_count b c -> tls_pop b f c = (h, b') ->
    fresh_in (owned b) h (slab_extent f c) /\ owned b' = <[h := slab_extent f c]> (owned b) /\ tls_count b' c = tls_count b c - 1;
  percpu_pop_spec : forall b f c h b', percpu_pop b f c = (h, b') ->
    if h =? NULL then owned b' = owned b
    else fresh_in (owned b) h (slab_extent f c) /\ owned b' = <[h := slab_extent f c]> (owned b);
  percpu_refill_spec : forall b f c, owned (percpu_refill b f c) = owned b;
  slab_alloc_batch_spec : forall b f c n l b', 0 < n -> slab_alloc_batch b f c n = (l, b') ->
    zlen l <= n /\ handed (owned b) (owned b') (slab_extent f c) l;
}.

Section AllocBatch.
Context `{BT : BatchTiers}.

Definition batch_format_slab (p : pool) (class_idx slot req_size : Z) : pool :=
  format_block p slot
    (Header MP_MAGIC_HEAD ALLOC_TYPE_SLAB class_idx MP_BLOCK_FLAG_COUNTED req_size (slot_bytes class_idx) slot (self (cf p)) NULL 0 NULL 0).

Definition batch_format_emergency (p : pool) (req_size : Z) : Z * pool :=
  let h := emergency_buf (rs p) in
  let hd := Header MP_MAGIC_HEAD ALLOC_TYPE_EMERGENCY 0 MP_BLOCK_FLAG_COUNTED req_size
              (u64 (emergency_size (rs p) - SIZEOF_HEADER)) h NULL NULL 0 NULL 0 in
  (h, format_block (set_rs p (Reserve h (emergency_size (rs p)) true)) h hd).

Definition batch_format_os (p : pool) (raw_mem req_size : Z) : pool :=
  format_block p raw_mem
    (Header MP_MAGIC_HEAD ALLOC_TYPE_OS 0 MP_BLOCK_FLAG_COUNTED req_size req_size raw_mem (self (cf p)) NULL 0 NULL 0).

(** The thread's quota, and whether it crossed the pool's threshold. *)
Definition batch_breaker_accrue (p : pool) (user_size : Z) : bool * pool :=
  if circuit_breaker_enabled (cf p) then
    let bytes := u64 (q_alloc_bytes (he p) + user_size) in
    ((0 <? thread_quota_bytes (cf p)) && (thread_quota_bytes (cf p) <=? bytes),
     set_he p (Health (is_dirty (he p)) (circuit_breaker_tripped (he p)) bytes (u64 (q_alloc_count (he p) + 1))))
  else (false, p).

Definition trip_breaker (p : pool) : pool := set_he p (Health (is_dirty (he p)) true (q_alloc_bytes (he p)) (q_alloc_count (he p))).

(** The pool, the headers produced so far, and whether the breaker tripped. *)
Definition progress : Type := pool * list Z * bool.

(** [out_ptrs[produced++] = ...] and the quota. *)
Definition produce (p : pool) (outs : list Z) (h size : Z) : progress :=
  let '(crossed, p) := batch_breaker_accrue p size in
  (if crossed then trip_breaker p else p, outs ++ [h], crossed).

(** Phase A: the thread cache. *)
Fixpoint drain_cache (n : nat) (p : pool) (outs : list Z) (class_idx total size : Z) : progress :=
  match n with
  | O => (p, outs, false)
  | S n =>
      let '(slot, b) := tls_pop (tiers p) (flags (cf p)) class_idx in
      let '(p, outs, tripped) := produce (batch_format_slab (set_tiers p b) class_idx slot total) outs slot size in
      if tripped then (p, outs, true) else drain_cache n p outs class_idx total size
  end.

(** Phase B: the per-CPU list, refilled once when it is empty. *)
Definition percpu_take (b : back) (f class_idx : Z) : Z * back :=
  let '(slot, b) := percpu_pop b f class_idx in
  if slot =? NULL then percpu_pop (percpu_refill b f class_idx) f class_idx else (slot, b).

Fixpoint drain_percpu (n : nat) (p : pool) (outs : list Z) (class_idx total size : Z) : progress :=
  match n with
  | O => (p, outs, false)
  | S n =>
      let '(slot, b) := percpu_take (tiers p) (flags (cf p)) class_idx in
      if slot =? NULL then (set_tiers p b, outs, false)
      else
        let '(p, outs, tripped) := produce (batch_format_slab (set_tiers p b) class_idx slot total) outs slot size in
        if tripped then (p, outs, true) else drain_percpu n p outs class_idx total size
  end.

(** Phase C: bulk pops, each capped by what the quota still allows. *)
Fixpoint stamp_slots (slots : list Z) (p : pool) (outs : list Z) (class_idx total size : Z) : progress :=
  match slots with
  | [] => (p, outs, false)
  | slot :: slots =>
      let '(p, outs, tripped) := produce (batch_format_slab p class_idx slot total) outs slot size in
      if tripped then (p, outs, true) else stamp_slots slots p outs class_idx total size
  end.

Fixpoint bulk_loop (fuel : nat) (p : pool) (outs : list Z) (class_idx total size target : Z) : outcome progress :=
  if zlen outs <? target then
    match fuel with
    | O => Fault
    | S fuel =>
        let want := batch_chunk p size (target - zlen outs) in
        let '(slots, b) := slab_alloc_batch (tiers p) (flags (cf p)) class_idx want in
        match slots with
        | [] => Done (set_tiers p b, outs, false)
        | _ =>
            let '(p, outs, tripped) := stamp_slots slots (set_tiers p b) outs class_idx total size in
            if tripped then Done (p, outs, true) else bulk_loop fuel p outs class_idx total size target
        end
    end
  else Done (p, outs, false).

Definition batch_slab (p : pool) (total size target : Z) : outcome progress :=
  let class_idx := get_slab_class_index (slab_table (cf p)) total in
  let avail := tls_count (tiers p) class_idx in
  let avail := if target <? avail then target else avail in
  let '(p, outs, tripped) := drain_cache (Z.to_nat avail) p [] class_idx total size in
  let '(p, outs, tripped) :=
    if negb tripped && (zlen outs <? target) && percpu_freelists (tiers p)
    then drain_percpu (Z.to_nat (target - zlen outs)) p outs class_idx total size
    else (p, outs, tripped) in
  if negb tripped && (zlen outs <? target)
  then bulk_loop (Z.to_nat (target - zlen outs)) p outs class_idx total size target
  else Done (p, outs, tripped).

Fixpoint batch_tlsf (n : nat) (p : pool) (outs : list Z) (total size : Z) : progress :=
  match n with
  | O => (p, outs, false)
  | S n =>
      match serve_tlsf p total with
      | (None, p) => (p, outs, false)
      | (Some (h, _), p) =>
          let '(p, outs, tripped) := produce p outs h size in
          if tripped then (p, outs, true) else batch_tlsf n p outs total size
      end
  end.

(** The loop of the OS tier does not stop at a tripped breaker. *)
Fixpoint os_loop (n : nat) (p : pool) (outs : list Z) (total os_total size : Z) (tripped : bool) : progress :=
  match n with
  | O => (p, outs, tripped)
  | S n =>
      let '(raw_mem, b) := sys_get (tiers p) os_total in
      if raw_mem =? NULL then (set_tiers p b, outs, tripped)
      else
        let '(p, outs, crossed) := produce (batch_format_os (set_tiers p b) raw_mem total) outs raw_mem size in
        os_loop n p outs total os_total size (tripped || crossed)
  end.

Definition batch_os (p : pool) (total size target : Z) : progress :=
  let os_total := u64 (total + SIZEOF_HEADER + canary_len (flags (cf p))) in
  let '(p, outs, tripped) := os_loop (Z.to_nat target) p [] total os_total size false in
  (set_ac p (add_os (ac p) (u64 (zlen outs * total)) (u64 (zlen outs * os_total))), outs, tripped).

Definition batch_tiers (p : pool) (total size target : Z) : outcome progress :=
  if negb (on p MP_FLAG_STATIC_BUFFER) && (total <=? SLAB_MAX_SIZE) then batch_slab p total size target
  else if (total <=? TLSF_MAX_SIZE) || on p MP_FLAG_STATIC_BUFFER then Done (batch_tlsf (Z.to_nat target) p [] total size)
  else Done (batch_os p total size target).

(** The end of the batch, under the lock: the header is marked, joins the live list, and is
    moved in front of the aligned payload in a cache-aligned pool. *)
Definition batch_link (size : Z) (aligned : bool) (p : pool) (orig : Z) : outcome (Z * pool) :=
  hd ← ld_hdr p orig;
  let hd := mark_counted hd in
  let p := set_hdrs p (<[orig := hd]> (hdrs p)) in
  p ← (if on p MP_FLAG_FAST_PATH then Done p else active_list_add p orig);
  if negb aligned then Done (orig + SIZEOF_HEADER, p)
  else
    let raw := orig + SIZEOF_HEADER in
    let addr := Z.land (u64 (raw + SIZEOF_HEADER + 63)) (Z.lnot 63) in
    let new := addr - SIZEOF_HEADER in
    let hd := set_requested hd size in
    r ← (if new =? orig then Done p
         else
           pv ← (if on p MP_FLAG_FAST_PATH then Done NULL else ld (prv (alinks p)) orig);
           nx ← (if on p MP_FLAG_FAST_PATH then Done NULL else ld (nxt (alinks p)) orig);
           let k := Links (<[new := nx]> (nxt (alinks p))) (<[new := pv]> (prv (alinks p))) in
           k ← (if pv =? NULL then Done k else set_nxt k pv new);
           let head := if (pv =? NULL) && (active_head p =? orig) then new else active_head p in
           k ← (if nx =? NULL then Done k else set_prv k nx new);
           Done (set_list p head k));
    let p := set_hdrs r (<[new := hd]> (hdrs r)) in
    Done (addr, stamp_canary p (addr + size)).

Fixpoint batch_links (size : Z) (aligned : bool) (p : pool) (outs : list Z) : outcome (list Z * pool) :=
  match outs with
  | [] => Done ([], p)
  | h :: outs =>
      r ← batch_link size aligned p h;
      let '(ptr, p) := r in
      r ← batch_links size aligned p outs;
      let '(ptrs, p) := r in
      Done (ptr :: ptrs, p)
  end.

(** The aggregated counters; the emergency element is not in the histogram. *)
Definition batch_account (p : pool) (produced charge hist_count : Z) : account :=
  let a := ac p in
  let active := u64 (active_bytes a + produced * charge) in
  let bucket := get_slab_class_index (slab_table (cf p)) charge in
  let hist := if (0 <? hist_count) && (bucket <? CMEM_HISTOGRAM_BUCKETS)
              then alter (fun n => u64 (n + hist_count)) (Z.to_nat bucket) (size_histogram a) else size_histogram a in
  Account active (u64 (active_allocations a + produced)) (u64 (total_alloc_ops a + produced)) (total_free_ops a)
    (if peak_bytes a <? active then active else peak_bytes a) (os_allocated_bytes a) (total_pool_size a) hist.

(** One event per pointer, except the one from the reserve. *)
Definition batch_events (p : pool) (ptrs : list Z) (charge : Z) : pool :=
  fold_left (fun p ptr => trigger_event p MP_EVENT_ALLOC ptr charge) ptrs p.

Definition batch_finish (p : pool) (outs : list Z) (size charge : Z) (aligned emergency_produced : bool) : outcome (list Z * pool) :=
  match outs with
  | [] => Done ([], p)
  | _ =>
      r ← batch_links size aligned p outs;
      let '(ptrs, p) := r in
      let produced := zlen outs in
      let p := set_ac p (batch_account p produced charge (produced - (if emergency_produced then 1 else 0))) in
      Done (ptrs, batch_events p (if emergency_produced then removelast ptrs else ptrs) charge)
  end.

(** The element served from the reserve, always the last. *)
Definition batch_emergency (p : pool) (outs : list Z) (total size charge : Z) : pool * list Z :=
  let '(h, p) := batch_format_emergency p total in
  let '(crossed, p) := batch_breaker_accrue p size in
  (if crossed then trip_breaker p else trigger_event p MP_EVENT_OOM NULL charge, outs ++ [h]).

(** The payload pointers filled in. *)
Definition mp_alloc_batch (p : pool) (size count : Z) : outcome (list Z * pool) :=
  if (count =? 0) || (size =? 0) then Done ([], p)
  else if is_dirty (he p) && negb (fallback_to_sys_alloc_on_oom (cf p)) then Done ([], p)
  else if circuit_breaker_enabled (cf p) && circuit_breaker_tripped (he p) then Done ([], p)
  else
    let aligned := on p MP_FLAG_CACHE_ALIGNED in
    let total := if aligned then u64 (size + 64 + SIZEOF_HEADER + canary_len (flags (cf p))) else size in
    let charge := if aligned then total else size in
    let plan := batch_admit p charge total count in
    let p := Nat.iter (Z.to_nat (oom_fire_count plan)) (fun p => trigger_event p MP_EVENT_OOM NULL charge) p in
    if full_exceed_oom plan then Done ([], trigger_event p MP_EVENT_OOM NULL charge)
    else
      let p := if emergency_only plan then trigger_event p MP_EVENT_OOM NULL charge else p in
      r ← (if emergency_only plan then Done (p, [], false) else batch_tiers p total size (target plan));
      let '(p, outs, tripped) := r in
      let complete := zlen outs =? target plan in
      let p := if limit_breach_attempted plan && complete && negb tripped then trigger_event p MP_EVENT_OOM NULL charge else p in
      let use_reserve := negb tripped && (emergency_only plan || (do_emergency plan && complete)) in
      let '(p, outs) := if use_reserve then batch_emergency p outs total size charge else (p, outs) in
      batch_finish p outs size charge aligned use_reserve.

(** ** Blocks formatted but not yet on the live list *)

(** A pending block: it is [block_ok] but for the mark, which the end of the batch sets. *)
Definition pending_block (p : pool) (size h : Z) : Prop :=
  exists hd, hdrs p !! h = Some hd /\ requested_size hd = size /\
    block_ok (set_hdrs p (<[h := mark_counted hd]> (hdrs p))) h (mark_counted hd).

(** [L] is on the list, [P] is pending, and the counters speak of [K]. *)
Record pending (p : pool) (L P K : list Z) (size : Z) : Prop := {
  pd_list : dll (alinks p) (active_head p) L;
  pd_blocks : forall h, h ∈ L -> exists hd, block_ok p h hd;
  pd_pending : forall h, h ∈ P -> pending_block p size h;
  pd_nodup : NoDup (P ++ L);
  pd_reserve : emergency_buf (rs p) <> NULL ->
    owned (tiers p) !! emergency_buf (rs p) = Some (emergency_size (rs p)) /\ 0 < emergency_size (rs p) < 2 ^ 64 /\
    (emergency_buf (rs p) ∈ P ++ L <-> emergency_used (rs p) = true);
  pd_buf : 0 <= emergency_buf (rs p);
  pd_bytes : active_bytes (ac p) = u64 (requested_total p K);
  pd_count : active_allocations (ac p) = u64 (zlen K);
  pd_ops : total_alloc_ops (ac p) = u64 (total_free_ops (ac p) + zlen K);
  pd_disjoint : owned_disjoint (owned (tiers p));
  pd_range : forall x n, owned (tiers p) !! x = Some n -> x + n < 2 ^ 64;
  pd_live_list : on p MP_FLAG_FAST_PATH = false;
}.

Lemma pending_start p L size : front_ok p L -> pending p L [] L size.
Proof.
  intros F. pose proof (front_nodup _ _ F). destruct F. split; try done. intros h Hh. by apply not_elem_of_nil in Hh.
Qed.

Lemma requested_total_perm p L L' : L ≡ₚ L' -> requested_total p L = requested_total p L'.
Proof. intros E. unfold requested_total. induction E; cbn [foldr]; lia. Qed.

Lemma zlen_perm (L L' : list Z) : L ≡ₚ L' -> zlen L = zlen L'.
Proof. intros E. unfold zlen. by rewrite E. Qed.

Lemma pending_end p L K size : pending p L [] K size -> K ≡ₚ L -> front_ok p L.
Proof.
  intros [] E. split; try done.
  - by rewrite pd_bytes0, (requested_total_perm p _ _ E).
  - by rewrite pd_count0, (zlen_perm _ _ E).
  - by rewrite pd_ops0, (zlen_perm _ _ E).
Qed.

Lemma pending_block_frame p p' size h :
  pending_block p size h -> cf p' = cf p -> emergency_buf (rs p') = emergency_buf (rs p) -> hdrs p' !! h = hdrs p !! h ->
  owned (tiers p') !! h = owned (tiers p) !! h -> pending_block p' size h.
Proof.
  intros (hd & Hh & Hs & B) E1 E2 E3 E4. exists hd. split; [by rewrite E3|]. split; [done|].
  eapply block_ok_frame; [exact B|done|done|by cbn; rewrite !lookup_insert_eq|done].
Qed.

(** Like [front_ok], [pending] does not look at bytes, events or health. *)
Lemma pending_ext p p' L P K size :
  cf p' = cf p -> active_bytes (ac p') = active_bytes (ac p) -> active_allocations (ac p') = active_allocations (ac p) ->
  total_alloc_ops (ac p') = total_alloc_ops (ac p) -> total_free_ops (ac p') = total_free_ops (ac p) ->
  rs p' = rs p -> alinks p' = alinks p -> active_head p' = active_head p ->
  hdrs p' = hdrs p -> owned (tiers p') = owned (tiers p) -> pending p L P K size -> pending p' L P K size.
Proof.
  intros E1 A1 A2 A3 A4 E3 E4 E5 E6 E7 [].
  assert (Hr : requested_total p' K = requested_total p K) by (apply requested_total_eq; by rewrite E6).
  split; unfold on in *; rewrite ?E1, ?A1, ?A2, ?A3, ?A4, ?E3, ?E4, ?E5, ?E7, ?Hr; try done.
  - intros h Hh. destruct (pd_blocks0 h Hh) as [hd B]. exists hd. eapply block_ok_frame; [exact B|done|by rewrite E3|by rewrite E6|by rewrite E7].
  - intros h Hh. eapply pending_block_frame; [by apply pd_pending0|done|by rewrite E3|by rewrite E6|by rewrite E7].
Qed.

Lemma pending_owned p L P K size h : pending p L P K size -> h ∈ P ++ L -> exists n, owned (tiers p) !! h = Some n /\ 0 < n.
Proof.
  intros D [Hh|Hh]%elem_of_app.
  - destruct (pd_pending _ _ _ _ _ D h Hh) as (hd & _ & _ & B). apply block_owned in B as (n & Hn & ?). by exists n.
  - destruct (pd_blocks _ _ _ _ _ D h Hh) as [hd B]. by apply block_owned in B.
Qed.

Lemma pending_fresh p L P K size h n : pending p L P K size -> fresh_in (owned (tiers p)) h n -> 0 < n -> (h ∉ P ++ L) /\ h <> emergency_buf (rs p).
Proof.
  intros D (H0 & _ & Hf) Hn. split.
  - intros Hh. destruct (pending_owned _ _ _ _ _ _ D Hh) as (n' & Hn' & ?). destruct (Hf _ _ Hn'); lia.
  - intros E. destruct (pd_reserve _ _ _ _ _ D) as (He & Hp & _); [unfold NULL; lia|]. rewrite <- E in He. destruct (Hf _ _ He); lia.
Qed.

Lemma NoDup_snoc_app (P L : list Z) h : NoDup (P ++ L) -> h ∉ P ++ L -> NoDup ((P ++ [h]) ++ L).
Proof.
  intros Hn Hh. rewrite <- app_assoc.
  assert ((P ++ [h] ++ L) ≡ₚ h :: P ++ L) as -> by (cbn; symmetry; apply Permutation_middle). by apply NoDup_cons.
Qed.

(** Extents handed out one after the other. *)
Lemma handed_spec e l : 0 < e -> forall o o', handed o o' e l -> owned_disjoint o -> (forall x n, o !! x = Some n -> x + n < 2 ^ 64) ->
  NoDup l /\ (forall h, h ∈ l -> 0 < h /\ o' !! h = Some e) /\ (forall x, x ∉ l -> o' !! x = o !! x) /\
  (forall h x n, h ∈ l -> o !! x = Some n -> h + e <= x \/ x + n <= h) /\
  owned_disjoint o' /\ (forall x n, o' !! x = Some n -> x + n < 2 ^ 64).
Proof.
  intros He. induction l as [|h l IH]; cbn [handed]; intros o o' Hl Hd Hr.
  - subst o'. split; [constructor|]. split; [intros h Hh; by apply not_elem_of_nil in Hh|]. split; [done|]. split; [intros h x n Hh; by apply not_elem_of_nil in Hh|]. done.
  - destruct Hl as [Hfr Hl]. pose proof Hfr as (H0 & H1 & Hf).
    destruct (IH _ _ Hl) as (I1 & I2 & I3 & I4 & I5 & I6); [by apply owned_disjoint_insert|intros x n [[<- <-]|[_ Hx]]%lookup_insert_Some; [done|by eapply Hr]|].
    assert (Hhl : h ∉ l). { intros Hh. destruct (I4 h h e Hh); [apply lookup_insert_eq|lia|lia]. }
    split; [by apply NoDup_cons|]. split; [|split; [|split; [|done]]].
    + intros x [->|Hx]%elem_of_cons; [|by apply I2]. split; [done|]. by rewrite I3, lookup_insert_eq.
    + intros x Hx. rewrite elem_of_cons in Hx. rewrite I3 by tauto. rewrite lookup_insert_ne; [done|]. intros ->. tauto.
    + intros h' x n [->|Hh']%elem_of_cons Hx; [by apply Hf|]. destruct (decide (x = h)) as [->|Hne].
      * destruct (I4 h' h e Hh' (lookup_insert_eq _ _ _)), (Hf _ _ Hx); lia.
      * apply (I4 h' x n Hh'). by rewrite lookup_insert_ne.
Qed.

(** They disturb nothing before they are formatted. *)
Lemma pending_grow p L P K size b l e :
  pending p L P K size -> 0 < e -> handed (owned (tiers p)) (owned b) e l ->
  pending (set_tiers p b) L P K size /\ kept p (set_tiers p b) (P ++ L) /\ NoDup l /\
  (forall h, h ∈ l -> 0 < h /\ owned b !! h = Some e /\ (h ∉ P ++ L) /\ h <> emergency_buf (rs p)) /\
  forall x, x ∉ l -> owned b !! x = owned (tiers p) !! x.
Proof.
  intros D He Hl. destruct (handed_spec e l He _ _ Hl (pd_disjoint _ _ _ _ _ D) (pd_range _ _ _ _ _ D)) as (Hnd & Hin & Hout & Hap & Hd & Hr).
  assert (Hnew : forall h, h ∈ l -> (h ∉ P ++ L) /\ h <> emergency_buf (rs p)).
  { intros h Hh. split.
    - intros HhP. destruct (pending_owned _ _ _ _ _ _ D HhP) as (n & Hn & ?). destruct (Hap _ _ _ Hh Hn); lia.
    - intros E. destruct (Hin h Hh) as [H0 _]. destruct (pd_reserve _ _ _ _ _ D) as (Hb & ? & _); [unfold NULL; lia|].
      rewrite <- E in Hb. destruct (Hap _ _ _ Hh Hb); lia. }
  split; [|split; [|split; [done|split; [|done]]]].
  - destruct D. split; try done; cbn [tiers set_tiers].
    + intros x Hx. destruct (pd_blocks0 x Hx) as [hx Bx]. exists hx. eapply block_ok_frame; [exact Bx|done|done|done|apply Hout].
      intros Hxl. apply (proj1 (Hnew x Hxl)), elem_of_app. by right.
    + intros x Hx. eapply pending_block_frame; [by apply pd_pending0|done|done|done|apply Hout]. intros Hxl. apply (proj1 (Hnew x Hxl)), elem_of_app. by left.
    + intros Hb. cbn. rewrite Hout; [by apply pd_reserve0|]. intros Hxl. by apply (proj2 (Hnew _ Hxl)).
  - intros x Hx. split; [done|]. split; [|done]. apply Hout. intros Hxl. by apply (proj1 (Hnew x Hxl)).
  - intros h Hh. destruct (Hin h Hh), (Hnew h Hh). done.
Qed.

(** [p1] is [q] with the owned extent at [h] formatted as a block of [size] bytes. *)
Record stamped (q : pool) (size h : Z) (hd : mp_block_header) (p1 : pool) : Prop := {
  st_cf : cf p1 = cf q;
  st_rs : rs p1 = rs q;
  st_head : active_head p1 = active_head q;
  st_links : alinks p1 = alinks q;
  st_hdrs : hdrs p1 = <[h := hd]> (hdrs q);
  st_bytes : active_bytes (ac p1) = active_bytes (ac q);
  st_count : active_allocations (ac p1) = active_allocations (ac q);
  st_ops : total_alloc_ops (ac p1) = total_alloc_ops (ac q);
  st_frees : total_free_ops (ac p1) = total_free_ops (ac q);
  st_pos : 0 < h;
  st_size : requested_size hd = size;
  st_usable : 0 <= size <= usable_size hd;
  st_magic : magic hd = MP_MAGIC_HEAD;
  st_type : alloc_type hd = ALLOC_TYPE_SLAB \/ alloc_type hd = ALLOC_TYPE_TLSF \/ alloc_type hd = ALLOC_TYPE_OS;
  st_base : alloc_type hd = ALLOC_TYPE_SLAB \/ alloc_type hd = ALLOC_TYPE_OS -> raw_base hd = h;
  st_owned : owned (tiers p1) = owned (tiers q);
  st_extent : exists n, owned (tiers q) !! h = Some n /\ SIZEOF_HEADER + size + canary_len (flags (cf q)) <= n /\
    SIZEOF_HEADER + usable_size hd <= n /\ forall a, a < h \/ h + n <= a -> mem p1 a = mem q a;
}.

Lemma pending_adopt q L P K size h hd p1 :
  pending q L P K size -> (forall x, x ∈ K -> x ∈ P ++ L) -> h ∉ P ++ L -> h <> emergency_buf (rs q) -> stamped q size h hd p1 ->
  pending p1 L (P ++ [h]) K size /\ kept q p1 (P ++ L).
Proof.
  intros D HK Hnew Hbuf []. destruct st_extent0 as (n & Hn & Hle & Hun & Hm).
  assert (Hk : kept q p1 (P ++ L)).
  { intros x Hx. assert (x <> h) by (by intros ->). rewrite st_hdrs0, st_owned0, lookup_insert_ne by done.
    split; [done|]. split; [done|]. intros m a Hm' Ha. apply Hm. destruct (pd_disjoint _ _ _ _ _ D _ _ _ _ Hm' Hn); [done|lia|lia]. }
  split; [|done]. destruct D. split.
  - by rewrite st_links0, st_head0.
  - intros x Hx. destruct (pd_blocks0 x Hx) as [hx Bx]. exists hx. destruct (Hk x) as (K1 & K2 & _); [by apply elem_of_app; right|].
    eapply block_ok_frame; [exact Bx|done|by rewrite st_rs0|done|done].
  - intros x [Hx | ->%list_elem_of_singleton]%elem_of_app.
    + destruct (Hk x) as (K1 & K2 & _); [by apply elem_of_app; left|]. eapply pending_block_frame; [by apply pd_pending0|done|by rewrite st_rs0|done|done].
    + exists hd. rewrite st_hdrs0, lookup_insert_eq. split; [done|]. split; [done|]. split; cbn; try done.
      * by rewrite lookup_insert_eq.
      * apply mark_is_counted.
      * lia.
      * tauto.
      * rewrite st_rs0. split; [intros Ee|by intros Ee]. exfalso. destruct st_type0 as [Ey|[Ey|Ey]]; rewrite Ey in Ee; discriminate.
      * exists n. rewrite st_owned0, st_cf0. split; [done|]. split; [lia|done].
  - by apply NoDup_snoc_app.
  - rewrite st_rs0, st_owned0. intros He. destruct (pd_reserve0 He) as (? & ? & Hu). split; [done|]. split; [done|].
    rewrite <- Hu, !elem_of_app, list_elem_of_singleton. split; [|tauto]. intros [[?|?]|?]; [tauto|by destruct Hbuf|tauto].
  - by rewrite st_rs0.
  - rewrite st_bytes0, pd_bytes0. f_equal. symmetry. apply requested_total_eq. intros x Hx. by apply Hk, HK.
  - by rewrite st_count0.
  - by rewrite st_ops0, st_frees0.
  - by rewrite st_owned0.
  - by rewrite st_owned0.
  - unfold on in *. by rewrite st_cf0.
Qed.

Lemma served_stamped p size h hd p1 : 0 <= size -> served p size h hd p1 ->
  stamped (set_tiers p (tiers p1)) size h hd p1 /\ exists n, 0 < n /\ fresh_in (owned (tiers p)) h n /\ owned (tiers p1) = <[h := n]> (owned (tiers p)).
Proof.
  intros Hs []. destruct sv_own as (n & Hfr & Hn & Hun & Ho & Hm). pose proof (canary_len_range (flags (cf p))).
  split; [|exists n; split; [unfold SIZEOF_HEADER in *; lia|done]].
  split; try done; [apply Hfr|]. exists n. cbn [tiers set_tiers cf mem]. rewrite Ho, lookup_insert_eq. done.
Qed.

Lemma format_slab_stamped q c h size : 0 < h -> 0 <= size <= slot_bytes c -> owned (tiers q) !! h = Some (slab_extent (flags (cf q)) c) ->
  exists hd, stamped q size h hd (batch_format_slab q c h size).
Proof.
  intros Hh Hs Ho. eexists. split; try (by cbn; eauto 10); try (cbn; lia).
  exists (slab_extent (flags (cf q)) c). split; [done|]. unfold slab_extent. pose proof (canary_len_range (flags (cf q))). cbn [usable_size].
  split; [lia|]. split; [lia|]. intros a Ha. eapply format_block_mem; [| |exact Ha]; cbn [requested_size]; lia.
Qed.

Lemma format_os_stamped q h size n : 0 < h -> 0 <= size -> owned (tiers q) !! h = Some n -> SIZEOF_HEADER + size + canary_len (flags (cf q)) <= n ->
  exists hd, stamped q size h hd (batch_format_os q h size).
Proof.
  intros Hh Hs Ho Hn. eexists. split; try (by cbn; eauto 10); try (cbn; lia). exists n. pose proof (canary_len_range (flags (cf q))). cbn [usable_size].
  split; [done|]. split; [lia|]. split; [lia|]. intros a Ha. eapply format_block_mem; [| |exact Ha]; cbn [requested_size]; lia.
Qed.

(** ** The batch under way

    [outs] are the blocks produced so far and [R] the slots popped but not formatted yet;
    nothing else has changed hands since [p0]. *)
Record batch_at (p0 p : pool) (L outs R : list Z) (size : Z) : Prop := {
  ba_pending : pending p L outs L size;
  ba_kept : kept p0 p L;
  ba_cf : cf p = cf p0;
  ba_rs : rs p = rs p0;
  ba_bytes : active_bytes (ac p) = active_bytes (ac p0);
  ba_owned : forall x, x ∉ outs ++ R -> owned (tiers p) !! x = owned (tiers p0) !! x;
  ba_raw : forall h, h ∈ R -> (h ∉ outs ++ L) /\ h <> emergency_buf (rs p);
  ba_reserve : emergency_buf (rs p) ∉ outs;
}.

Lemma batch_at_start p L size : front_ok p L -> batch_at p p L [] [] size.
Proof.
  intros F. split; [by apply pending_start|by apply kept_refl|done|done|done|done| |apply not_elem_of_nil].
  intros h Hh. by apply not_elem_of_nil in Hh.
Qed.

(** Steps that touch neither blocks nor books. *)
Lemma batch_at_ext p0 p p' L outs R size :
  cf p' = cf p -> active_bytes (ac p') = active_bytes (ac p) -> active_allocations (ac p') = active_allocations (ac p) ->
  total_alloc_ops (ac p') = total_alloc_ops (ac p) -> total_free_ops (ac p') = total_free_ops (ac p) ->
  rs p' = rs p -> alinks p' = alinks p -> active_head p' = active_head p ->
  hdrs p' = hdrs p -> owned (tiers p') = owned (tiers p) -> mem p' = mem p -> batch_at p0 p L outs R size -> batch_at p0 p' L outs R size.
Proof.
  intros E1 A1 A2 A3 A4 E3 E4 E5 E6 E7 E8 []. split; rewrite ?E1, ?A1, ?E3, ?E7; try done.
  - eapply pending_ext; [..|exact ba_pending0]; done.
  - eapply kept_trans; [exact ba_kept0|]. by apply kept_refl.
Qed.

Lemma kept_batch_app p p' P L : kept p p' (P ++ L) -> kept p p' L.
Proof. intros K x Hx. apply K. by apply elem_of_app; right. Qed.

(** The tiers hand out extents. *)
Lemma batch_at_grow p0 p L outs size b l e :
  batch_at p0 p L outs [] size -> 0 < e -> handed (owned (tiers p)) (owned b) e l ->
  batch_at p0 (set_tiers p b) L outs l size /\ NoDup l /\ forall h, h ∈ l -> 0 < h /\ owned b !! h = Some e.
Proof.
  intros [] He Hl. destruct (pending_grow p L outs L size b l e ba_pending0 He Hl) as (D & K & Hnd & Hin & Hout).
  split; [|split; [done|intros h Hh; destruct (Hin h Hh) as (? & ? & _); done]]. split; try done.
  - eapply kept_trans; [exact ba_kept0|]. by eapply kept_batch_app.
  - intros x Hx. rewrite elem_of_app in Hx. cbn. rewrite Hout by tauto. apply ba_owned0. rewrite app_nil_r. tauto.
  - intros x Hx. destruct (Hin x Hx) as (_ & _ & ? & ?). done.
Qed.

(** A popped slot becomes a block. *)
Lemma batch_at_adopt p0 q L outs R h size hd p1 :
  batch_at p0 q L outs (h :: R) size -> h ∉ R -> stamped q size h hd p1 -> batch_at p0 p1 L (outs ++ [h]) R size.
Proof.
  intros [] HhR S. destruct (ba_raw0 h) as [Hnew Hbuf]; [by left|].
  destruct (pending_adopt q L outs L size h hd p1 ba_pending0) as [D K]; [intros x Hx; by apply elem_of_app; right|done|done|done|].
  destruct S. split; rewrite ?st_cf0, ?st_rs0, ?st_bytes0, ?st_owned0; try done.
  - eapply kept_trans; [exact ba_kept0|]. by eapply kept_batch_app.
  - intros x Hx. apply ba_owned0. rewrite !elem_of_app, list_elem_of_singleton in Hx. rewrite elem_of_app, elem_of_cons. tauto.
  - intros x Hx. destruct (ba_raw0 x) as [X1 X2]; [by right|]. split; [|done]. rewrite !elem_of_app, list_elem_of_singleton in *.
    intros [[?|?]|?]; [tauto|congruence|tauto].
  - rewrite elem_of_app, list_elem_of_singleton. intros [?|?]; [done|congruence].
Qed.

(** The quota never goes backwards below 0. *)
Lemma produce_spec p0 p L outs R size h n :
  batch_at p0 p L (outs ++ [h]) R size -> 0 <= q_alloc_bytes (he p) ->
  exists p' t, produce p outs h n = (p', outs ++ [h], t) /\ batch_at p0 p' L (outs ++ [h]) R size /\ 0 <= q_alloc_bytes (he p') /\ tiers p' = tiers p /\
    (if circuit_breaker_enabled (cf p)
     then q_alloc_bytes (he p') = u64 (q_alloc_bytes (he p) + n) /\ t = (0 <? thread_quota_bytes (cf p)) && (thread_quota_bytes (cf p) <=? q_alloc_bytes (he p'))
     else t = false).
Proof.
  intros B Hq. unfold produce, batch_breaker_accrue. destruct (circuit_breaker_enabled (cf p)); [|by exists p, false].
  pose proof (u64_bound (q_alloc_bytes (he p) + n)).
  eexists _, _. split; [done|]. destruct (_ && _) eqn:E; (split; [by eapply batch_at_ext; [..|exact B]|cbn; rewrite E; split; [lia|by split]]).
Qed.

(** What every phase leaves: more blocks, no loose slots. *)
Definition phase_done (p0 : pool) (L : list Z) (size : Z) (outs : list Z) (target : Z) (r : progress) : Prop :=
  let '(p', outs', t) := r in
  batch_at p0 p' L outs' [] size /\ 0 <= q_alloc_bytes (he p') /\ outs `prefix_of` outs' /\ zlen outs' <= target /\
  (outs' = [] -> t = false).

Lemma phase_done_nil p0 L size outs target p : batch_at p0 p L outs [] size -> 0 <= q_alloc_bytes (he p) -> zlen outs <= target ->
  phase_done p0 L size outs target (p, outs, false).
Proof. intros B Hq Ht. split; [done|]. split; [done|]. split; [done|]. by split. Qed.

(** One block from a tier that hands out fresh extents, then whatever the rest does. *)
Lemma phase_step p0 p L outs size n target h hd p1 (rest : pool -> list Z -> progress) :
  batch_at p0 p L outs [] size -> 0 <= q_alloc_bytes (he p) -> he p1 = he p -> 0 <= size -> zlen outs + 1 <= target ->
  (exists b e, 0 < e /\ fresh_in (owned (tiers p)) h e /\ owned b = <[h := e]> (owned (tiers p)) /\ stamped (set_tiers p b) size h hd p1) ->
  (forall p' outs', batch_at p0 p' L outs' [] size -> 0 <= q_alloc_bytes (he p') -> tiers p' = tiers p1 -> outs' = outs ++ [h] ->
     phase_done p0 L size outs' target (rest p' outs')) ->
  phase_done p0 L size outs target
    (let '(p, outs, tripped) := produce p1 outs h n in if tripped then (p, outs, true) else rest p outs).
Proof.
  intros B Hq Hhe Hs Ht (b & e & He & Hfr & Ho & S) Hrest.
  destruct (batch_at_grow p0 p L outs size b [h] e B He) as (B1 & _); [by split|].
  pose proof (batch_at_adopt p0 _ L outs [] h size hd p1 B1 (not_elem_of_nil _) S) as B2.
  destruct (produce_spec p0 p1 L outs [] size h n B2) as (p' & t & -> & B3 & Hq3 & T3 & _); [by rewrite Hhe|].
  destruct t.
  - split; [done|]. split; [done|]. split; [by apply prefix_app_r|]. split; [by rewrite zlen_snoc|]. by destruct outs.
  - specialize (Hrest p' (outs ++ [h]) B3 Hq3 T3 eq_refl). destruct (rest p' (outs ++ [h])) as [[p2 outs2] t2].
    destruct Hrest as (? & ? & Hpre & ? & ?). split; [done|]. split; [done|]. split; [|done]. etrans; [|exact Hpre]. by apply prefix_app_r.
Qed.

Lemma slab_extent_pos f c : 0 < slab_extent f c.
Proof. unfold slab_extent. pose proof (slot_bytes_pos c). pose proof (canary_len_range f). unfold SIZEOF_HEADER. lia. Qed.

(** A slot popped from the tier and formatted. *)
Lemma slab_slot_ready p b c h size : 0 <= size <= slot_bytes c ->
  fresh_in (owned (tiers p)) h (slab_extent (flags (cf p)) c) -> owned b = <[h := slab_extent (flags (cf p)) c]> (owned (tiers p)) ->
  exists hd b' e, 0 < e /\ fresh_in (owned (tiers p)) h e /\ owned b' = <[h := e]> (owned (tiers p)) /\
    stamped (set_tiers p b') size h hd (batch_format_slab (set_tiers p b) c h size).
Proof.
  intros Hs Hfr Ho. destruct (format_slab_stamped (set_tiers p b) c h size) as [hd S]; [apply Hfr|done|by cbn; rewrite Ho, lookup_insert_eq|].
  exists hd, b, (slab_extent (flags (cf p)) c). split; [apply slab_extent_pos|]. by split.
Qed.

Lemma drain_cache_spec p0 L c size n target : 0 <= size <= slot_bytes c -> forall k p outs,
  batch_at p0 p L outs [] size -> 0 <= q_alloc_bytes (he p) -> zlen outs + Z.of_nat k <= target -> k = O \/ Z.of_nat k <= tls_count (tiers p) c ->
  phase_done p0 L size outs target (drain_cache k p outs c size n).
Proof.
  intros Hs. induction k as [|k IH]; intros p outs B Hq Ht Hc; cbn [drain_cache]; [apply phase_done_nil; [done|done|lia]|].
  destruct (tls_pop (tiers p) (flags (cf p)) c) as [slot b] eqn:E. apply tls_pop_spec in E as (Hfr & Ho & Hcount); [|lia].
  destruct (slab_slot_ready p b c slot size Hs Hfr Ho) as (hd & Hready).
  eapply (phase_step p0 p L outs size n target slot hd _ (fun p outs => drain_cache k p outs c size n)); try done; [lia|lia|].
  intros p' outs' B' Hq' T' ->. apply IH; [done|done|rewrite zlen_snoc; lia|rewrite T'; cbn; lia].
Qed.

Lemma percpu_take_spec b f c h b' : percpu_take b f c = (h, b') ->
  if h =? NULL then owned b' = owned b
  else fresh_in (owned b) h (slab_extent f c) /\ owned b' = <[h := slab_extent f c]> (owned b).
Proof.
  unfold percpu_take. destruct (percpu_pop b f c) as [s b1] eqn:E. pose proof (percpu_pop_spec _ _ _ _ _ E) as S1.
  destruct (s =? NULL) eqn:Es; [|intros [= <- <-]; by rewrite Es]. intros E2. apply percpu_pop_spec in E2. by rewrite percpu_refill_spec, S1 in E2.
Qed.

Lemma drain_percpu_spec p0 L c size n target : 0 <= size <= slot_bytes c -> forall k p outs,
  batch_at p0 p L outs [] size -> 0 <= q_alloc_bytes (he p) -> zlen outs + Z.of_nat k <= target ->
  phase_done p0 L size outs target (drain_percpu k p outs c size n).
Proof.
  intros Hs. induction k as [|k IH]; intros p outs B Hq Ht; cbn [drain_percpu]; [apply phase_done_nil; [done|done|lia]|].
  destruct (percpu_take (tiers p) (flags (cf p)) c) as [slot b] eqn:E. apply percpu_take_spec in E. destruct (slot =? NULL).
  - apply phase_done_nil; [by eapply batch_at_ext; [..|exact B]|done|lia].
  - destruct E as [Hfr Ho]. destruct (slab_slot_ready p b c slot size Hs Hfr Ho) as (hd & Hready).
    eapply (phase_step p0 p L outs size n target slot hd _ (fun p outs => drain_percpu k p outs c size n)); try done; [lia|lia|].
    intros p' outs' B' Hq' T' ->. apply IH; [done|done|rewrite zlen_snoc; lia].
Qed.

Lemma batch_tlsf_spec p0 L size n target : size_ok p0 size ->
  (negb (on p0 MP_FLAG_STATIC_BUFFER) && (size <=? SLAB_MAX_SIZE)) = false -> ((size <=? TLSF_MAX_SIZE) || on p0 MP_FLAG_STATIC_BUFFER) = true ->
  table_ok p0 -> forall k p outs,
  batch_at p0 p L outs [] size -> 0 <= q_alloc_bytes (he p) -> zlen outs + Z.of_nat k <= target ->
  phase_done p0 L size outs target (batch_tlsf k p outs size n).
Proof.
  intros Hs T1 T2 Htab. induction k as [|k IH]; intros p outs B Hq Ht; cbn [batch_tlsf]; [apply phase_done_nil; [done|done|lia]|].
  destruct (serve_tlsf p size) as [r p1] eqn:E.
  assert (tier_alloc p size = (r, p1)) as Et. { unfold tier_alloc, on in *. by rewrite (ba_cf _ _ _ _ _ _ B), T1, T2. }
  apply tier_alloc_spec in Et; [|unfold table_ok; by rewrite (ba_cf _ _ _ _ _ _ B)|done]. destruct r as [[h hd]|].
  - pose proof (sv_he _ _ _ _ _ Et) as Hhe. destruct Hs as [Hs _]. apply served_stamped in Et as [S (e & He & Hfr & Ho)]; [|lia].
    eapply (phase_step p0 p L outs size n target h hd p1 (fun p outs => batch_tlsf k p outs size n)); try done; [lia|lia|by exists (tiers p1), e|].
    intros p' outs' B' Hq' T' ->. apply IH; [done|done|rewrite zlen_snoc; lia].
  - destruct Et as (b & -> & Hb). apply phase_done_nil; [by eapply batch_at_ext; [..|exact B]|done|lia].
Qed.

Lemma os_loop_spec p0 L size n target f : 0 < size -> forall k p outs t,
  flags (cf p0) = f -> batch_at p0 p L outs [] size -> 0 <= q_alloc_bytes (he p) -> zlen outs + Z.of_nat k <= target -> (outs = [] -> t = false) ->
  phase_done p0 L size outs target (os_loop k p outs size (size + SIZEOF_HEADER + canary_len f) n t).
Proof.
  intros Hs. induction k as [|k IH]; intros p outs t Hfl B Hq Ht Hb; cbn [os_loop]; [split; [done|]; split; [done|]; split; [done|]; split; [lia|done]|].
  set (e := size + SIZEOF_HEADER + canary_len f). assert (0 < e) as He by (subst e; pose proof (canary_len_range f); unfold SIZEOF_HEADER; lia).
  destruct (sys_get (tiers p) e) as [raw b] eqn:E. apply sys_get_spec in E. destruct (raw =? NULL).
  { split; [by eapply batch_at_ext; [..|exact B]|]. split; [done|]. split; [done|]. split; [lia|done]. }
  destruct E as [Hfr Ho]. destruct (batch_at_grow p0 p L outs size b [raw] e B He) as (B1 & _); [by split|].
  destruct (format_os_stamped (set_tiers p b) raw size e) as [hd S]; [apply Hfr|lia|by cbn; rewrite Ho, lookup_insert_eq|subst e f; cbn; rewrite (ba_cf _ _ _ _ _ _ B); lia|].
  pose proof (batch_at_adopt p0 _ L outs [] raw size hd _ B1 (not_elem_of_nil _) S) as B2.
  destruct (produce_spec p0 _ L outs [] size raw n B2) as (p' & c & -> & B3 & Hq3 & _); [done|].
  pose proof (IH p' (outs ++ [raw]) (t || c) Hfl B3 Hq3 ltac:(rewrite zlen_snoc; lia) ltac:(by destruct outs)) as IH'.
  fold e in IH'. destruct (os_loop k p' _ _ _ _ _) as [[p2 outs2] t2]. destruct IH' as (? & ? & Hpre & ? & ?).
  split; [done|]. split; [done|]. split; [|done]. etrans; [|exact Hpre]. by apply prefix_app_r.
Qed.

Lemma batch_os_spec p L size n target : front_ok p L -> size_ok p size -> 0 <= q_alloc_bytes (he p) -> 0 <= target ->
  phase_done p L size [] target (batch_os p size n target).
Proof.
  intros F [Hs Hs2] Hq Ht. unfold batch_os. pose proof (canary_len_range (flags (cf p))). rewrite u64_small by (unfold SIZEOF_HEADER in *; lia).
  pose proof (os_loop_spec p L size n target _ Hs (Z.to_nat target) p [] false eq_refl (batch_at_start p L size F) Hq ltac:(rewrite zlen_nil; lia) ltac:(done)) as Hl.
  destruct (os_loop _ _ _ _ _ _ _) as [[p' outs] t]. destruct Hl as (B & ? & ? & ? & ?).
  split; [by eapply batch_at_ext; [..|exact B]|done].
Qed.

(** ** Bulk pops never lose a slot *)

(** The quota and one request fit a machine word. *)
Definition quota_ok (p : pool) (n : Z) : Prop := 0 < n /\ thread_quota_bytes (cf p) + n <= 2 ^ 64.

(** A chunk crosses the quota at its last slot at the earliest. *)
Definition chunk_fits (p : pool) (n k : Z) : Prop :=
  circuit_breaker_enabled (cf p) = true -> 0 < thread_quota_bytes (cf p) ->
  forall i, 1 <= i < k -> q_alloc_bytes (he p) + i * n < thread_quota_bytes (cf p).

Lemma batch_chunk_fits p n remaining : quota_ok p n -> 0 <= q_alloc_bytes (he p) -> 0 < remaining ->
  let want := batch_chunk p n remaining in 0 < want <= remaining /\ want <= 64 /\ chunk_fits p n want.
Proof.
  intros [Hn Hq] Ha Hr want. unfold chunk_fits. subst want. unfold batch_chunk. set (w := if 64 <? remaining then 64 else remaining).
  assert (0 < w <= remaining /\ w <= 64) as Hw by (subst w; destruct (Z.ltb_spec 64 remaining); lia).
  destruct (circuit_breaker_enabled (cf p)); cbn [andb]; [|split; [lia|split; [lia|done]]].
  destruct (Z.ltb_spec 0 (thread_quota_bytes (cf p))) as [H0|]; [|split; [lia|split; [lia|lia]]].
  set (q := thread_quota_bytes (cf p)) in *. set (a := q_alloc_bytes (he p)) in *.
  destruct (Z.ltb_spec a q) as [Hlt|]; [|cbn; split; [lia|split; [lia|lia]]]. rewrite u64_small by lia.
  set (cap := (q - a + n - 1) / n). assert (Hcap : 0 < cap) by (subst cap; apply Z.div_str_pos; lia).
  assert (Hlast : (cap - 1) * n < q - a) by (subst cap; pose proof (Z.mul_div_le (q - a + n - 1) n Hn); nia).
  rewrite (proj2 (Z.eqb_neq cap 0)) by lia.
  destruct (Z.ltb_spec cap w); (split; [lia|split; [lia|]]); intros _ _ i Hi; assert (i <= cap - 1) by lia; nia.
Qed.

Lemma stamp_slots_spec p0 L c size n : 0 <= size <= slot_bytes c -> 0 < n -> forall slots p outs,
  batch_at p0 p L outs slots size -> NoDup slots -> 0 <= q_alloc_bytes (he p) -> thread_quota_bytes (cf p) < 2 ^ 64 ->
  (forall h, h ∈ slots -> 0 < h /\ owned (tiers p) !! h = Some (slab_extent (flags (cf p)) c)) -> chunk_fits p n (zlen slots) ->
  exists p' t, stamp_slots slots p outs c size n = (p', outs ++ slots, t) /\ batch_at p0 p' L (outs ++ slots) [] size /\ 0 <= q_alloc_bytes (he p') /\
    (slots = [] -> t = false).
Proof.
  intros Hs Hn. induction slots as [|h slots IH]; intros p outs B Hd Hq Hqb Hh Hc; cbn [stamp_slots].
  { exists p, false. rewrite app_nil_r. done. }
  apply NoDup_cons in Hd as [Hhs Hd]. destruct (Hh h) as [Hpos Ho]; [by left|].
  destruct (format_slab_stamped p c h size Hpos Hs Ho) as [hd S]. pose proof (batch_at_adopt p0 p L outs slots h size hd _ B Hhs S) as B2.
  destruct (produce_spec p0 _ L outs slots size h n B2) as (p' & t & -> & B3 & Hq3 & T3 & Ht); [done|].
  assert (Hcf : cf p' = cf p) by (rewrite (ba_cf _ _ _ _ _ _ B3), (ba_cf _ _ _ _ _ _ B); done).
  change (cf (batch_format_slab p c h size)) with (cf p) in Ht. change (he (batch_format_slab p c h size)) with (he p) in Ht.
  destruct t.
  - assert (slots = []) as ->.
    { destruct slots as [|h2 slots]; [done|exfalso]. destruct (circuit_breaker_enabled (cf p)) eqn:Ee; [|done]. destruct Ht as [Hqa Ht].
      symmetry in Ht. apply andb_true_iff in Ht as [H1%Z.ltb_lt H2%Z.leb_le]. unfold chunk_fits in Hc.
      specialize (Hc Ee H1 1). rewrite !zlen_cons in Hc. pose proof (zlen_nonneg slots). specialize (Hc ltac:(lia)).
      rewrite Hqa, u64_small in H2 by lia. lia. }
    exists p', true. split; [done|]. split; [done|]. by split.
  - destruct (IH p' (outs ++ [h]) B3 Hd Hq3) as (p2 & t2 & E & B4 & Hq4 & Ht4); [by rewrite Hcf| | |].
    + intros x Hx. rewrite T3, Hcf. apply Hh. by right.
    + unfold chunk_fits in *. rewrite Hcf. intros He H0 i Hi. rewrite He in Ht. destruct Ht as [Hqa _]. rewrite zlen_cons in Hc.
      pose proof (Hc He H0 1 ltac:(lia)). pose proof (Hc He H0 (i + 1) ltac:(lia)). rewrite Hqa, u64_small by lia. lia.
    + exists p2, t2. rewrite <- app_assoc in E, B4. done.
Qed.

Lemma handed_nil_owned o o' e : handed o o' e [] -> o' = o.
Proof. done. Qed.

Lemma bulk_loop_spec p0 L c size n target : 0 <= size <= slot_bytes c -> quota_ok p0 n -> forall fuel p outs,
  batch_at p0 p L outs [] size -> 0 <= q_alloc_bytes (he p) -> zlen outs <= target -> target - zlen outs <= Z.of_nat fuel ->
  exists r, bulk_loop fuel p outs c size n target = Done r /\ phase_done p0 L size outs target r.
Proof.
  intros Hs [Hn Hqb]. induction fuel as [|fuel IH]; intros p outs B Hq Ht Hf; cbn [bulk_loop]; (destruct (Z.ltb_spec (zlen outs) target); [|eexists; split; [done|by apply phase_done_nil]]).
  { lia. }
  assert (Hcf : cf p = cf p0) by apply (ba_cf _ _ _ _ _ _ B). set (want := batch_chunk p n (target - zlen outs)).
  destruct (batch_chunk_fits p n (target - zlen outs)) as (Hw1 & Hw2 & Hfit); [by split; rewrite ?Hcf|done|lia|]. fold want in Hw1, Hw2, Hfit.
  destruct (slab_alloc_batch (tiers p) (flags (cf p)) c want) as [slots b] eqn:E. apply slab_alloc_batch_spec in E as [Hlen Hl]; [|lia].
  destruct slots as [|h0 slots0].
  { eexists. split; [done|]. apply phase_done_nil; [|done|done]. cbn in Hl. by eapply batch_at_ext; [..|exact B]. }
  set (slots := h0 :: slots0) in *.
  destruct (batch_at_grow p0 p L outs size b slots _ B (slab_extent_pos _ _) Hl) as (B1 & Hd & Hin).
  destruct (stamp_slots_spec p0 L c size n Hs Hn slots (set_tiers p b) outs B1 Hd Hq) as (p' & t & -> & B2 & Hq2 & _); [cbn; rewrite Hcf; lia|done| |].
  { intros He H0 i Hi. apply Hfit; [done|done|lia]. }
  assert (Hlen2 : zlen (outs ++ slots) <= target) by (rewrite zlen_app; lia).
  assert (Hpos : 0 < zlen slots) by (subst slots; rewrite zlen_cons; pose proof (zlen_nonneg slots0); lia).
  destruct t.
  - eexists. split; [done|]. split; [done|]. split; [done|]. split; [by apply prefix_app_r|]. split; [done|]. intros E0. by apply app_eq_nil in E0 as [_ E0].
  - destruct (IH p' (outs ++ slots) B2 Hq2 Hlen2) as (r & -> & Hr); [rewrite zlen_app; lia|]. exists r. split; [done|].
    destruct r as [[p2 outs2] t2]. destruct Hr as (? & ? & Hpre & ? & ?). split; [done|]. split; [done|]. split; [|done]. etrans; [|exact Hpre]. by apply prefix_app_r.
Qed.

Lemma batch_slab_spec p L size n target : front_ok p L -> table_ok p -> 0 < size <= SLAB_MAX_SIZE -> quota_ok p n -> 0 <= q_alloc_bytes (he p) -> 0 <= target ->
  exists r, batch_slab p size n target = Done r /\ phase_done p L size [] target r.
Proof.
  intros F Ht Hs Hqo Hq Htg. unfold batch_slab. set (c := get_slab_class_index (slab_table (cf p)) size).
  assert (0 <= size <= slot_bytes c) as Hsz by (split; [lia|by apply Ht]). set (avail := if target <? _ then _ else _).
  assert (avail <= target /\ avail <= tls_count (tiers p) c) as Hav by (subst avail; destruct (Z.ltb_spec target (tls_count (tiers p) c)); lia).
  pose proof (drain_cache_spec p L c size n target Hsz (Z.to_nat avail) p [] (batch_at_start p L size F) Hq ltac:(rewrite zlen_nil; lia) ltac:(lia)) as H1.
  destruct (drain_cache _ _ _ _ _ _) as [[p1 outs1] t1]. destruct H1 as (B1 & Q1 & _ & L1 & N1).
  set (r2 := if negb t1 && (zlen outs1 <? target) && percpu_freelists (tiers p1) then _ else _).
  assert (phase_done p L size outs1 target r2) as H2.
  { subst r2. destruct (negb t1 && (zlen outs1 <? target) && percpu_freelists (tiers p1)); [|done].
    apply drain_percpu_spec; [done|done|done|lia]. }
  destruct r2 as [[p2 outs2] t2]. destruct H2 as (B2 & Q2 & _ & L2 & N2).
  destruct (negb t2 && (zlen outs2 <? target)); [|eexists; split; [done|]; split; [done|]; split; [done|]; split; [apply prefix_nil|done]].
  destruct (bulk_loop_spec p L c size n target Hsz Hqo (Z.to_nat (target - zlen outs2)) p2 outs2 B2 Q2 L2 ltac:(lia)) as (r & -> & Hr).
  exists r. split; [done|]. destruct r as [[p3 outs3] t3]. destruct Hr as (? & ? & _ & ? & ?). split; [done|]. split; [done|]. split; [apply prefix_nil|done].
Qed.

Lemma batch_tiers_spec p L size n target : front_ok p L -> table_ok p -> size_ok p size -> quota_ok p n -> 0 <= q_alloc_bytes (he p) -> 0 <= target ->
  exists r, batch_tiers p size n target = Done r /\ phase_done p L size [] target r.
Proof.
  intros F Ht Hs Hqo Hq Htg. unfold batch_tiers. destruct (negb (on p MP_FLAG_STATIC_BUFFER) && (size <=? SLAB_MAX_SIZE)) eqn:E1.
  - apply andb_true_iff in E1 as [_ E1%Z.leb_le]. apply batch_slab_spec; try done. split; [apply Hs|done].
  - destruct ((size <=? TLSF_MAX_SIZE) || on p MP_FLAG_STATIC_BUFFER) eqn:E2; eexists; (split; [done|]).
    + apply batch_tlsf_spec; try done; [by apply batch_at_start|rewrite zlen_nil; lia].
    + by apply batch_os_spec.
Qed.

(** ** The reserve *)

Lemma pending_emergency p L P K size :
  pending p L P K size -> (forall x, x ∈ K -> x ∈ P ++ L) -> size_ok p size -> reserve_fits p size = true ->
  let '(h, p1) := batch_format_emergency p size in
  h = emergency_buf (rs p) /\ pending p1 L (P ++ [h]) K size /\ kept p p1 (P ++ L) /\ cf p1 = cf p /\ tiers p1 = tiers p /\ he p1 = he p /\
  ac p1 = ac p /\ emergency_buf (rs p1) = emergency_buf (rs p).
Proof.
  intros D HK [Hs1 Hs2] Hr. unfold reserve_fits in Hr. apply andb_true_iff in Hr as [[Hb Hu]%andb_true_iff Hz%Z.leb_le].
  apply negb_true_iff, Z.eqb_neq in Hb. apply negb_true_iff in Hu. pose proof (canary_len_range (flags (cf p))) as Hc.
  rewrite u64_small in Hz by (unfold SIZEOF_HEADER in *; lia). destruct (pd_reserve _ _ _ _ _ D Hb) as (Ho & Hpos & Hl).
  unfold batch_format_emergency. set (h := emergency_buf (rs p)) in *. set (hd := Header _ _ _ _ _ _ _ _ _ _ _ _). set (q := format_block _ h hd).
  assert (Hnew : h ∉ P ++ L) by (intros Hh; apply Hl in Hh; congruence).
  assert (Hk : kept p q (P ++ L)).
  { intros x Hx. assert (x <> h) by (by intros ->). subst q. cbn -[format_block]. split; [cbn; by rewrite lookup_insert_ne|]. split; [done|].
    intros m a Hm Ha. apply (format_block_mem (set_rs p (Reserve h (emergency_size (rs p)) true)) h hd a (emergency_size (rs p))); cbn; [lia|lia|].
    destruct (pd_disjoint _ _ _ _ _ D _ _ _ _ Hm Ho); [done|lia|lia]. }
  split; [done|]. split; [|by split_and!]. pose proof (pd_buf _ _ _ _ _ D) as Hbuf. destruct D. split; try done.
  - intros x Hx. destruct (pd_blocks0 x Hx) as [hx Bx]. exists hx. destruct (Hk x) as (K1 & K2 & _); [by apply elem_of_app; right|]. by eapply block_ok_frame.
  - intros x [Hx | ->%list_elem_of_singleton]%elem_of_app.
    + destruct (Hk x) as (K1 & K2 & _); [by apply elem_of_app; left|]. eapply pending_block_frame; [by apply pd_pending0|done|done|done|done].
    + assert (size <= usable_size hd /\ SIZEOF_HEADER + usable_size hd <= emergency_size (rs p)) as [Hus1 Hus2].
      { unfold hd. cbn [usable_size]. rewrite u64_small; unfold SIZEOF_HEADER in *; lia. }
      exists hd. cbn. rewrite lookup_insert_eq. split; [done|]. split; [done|]. split; try done; cbn [requested_size mark_counted usable_size alloc_type raw_base].
      * fold h in Hbuf. unfold NULL in *. lia.
      * cbn. by rewrite lookup_insert_eq.
      * split; [cbn; lia|exact Hus1].
      * tauto.
      * exists (emergency_size (rs p)). split; [done|]. split; [cbn; lia|exact Hus2].
  - by apply NoDup_snoc_app.
  - intros _. cbn. split; [done|]. split; [done|]. split; [done|intros _]. rewrite !elem_of_app, list_elem_of_singleton. tauto.
  - cbn [q]. rewrite (pd_bytes0 : active_bytes (ac q) = _). f_equal. symmetry. apply requested_total_eq. intros x Hx. by apply Hk, HK.
Qed.

(** ** The live list *)

Lemma pending_link p L h P K size : pending p L (h :: P) K size -> h ∉ K ->
  exists p' hd k, batch_link size false p h = Done (h + SIZEOF_HEADER, p') /\ pending p' (h :: L) P K size /\
    hdrs p !! h = Some hd /\ requested_size hd = size /\
    p' = set_list (set_hdrs p (<[h := mark_counted hd]> (hdrs p))) h k.
Proof.
  intros D HhK. destruct (pd_pending _ _ _ _ _ D h) as (hd & Hh & Hsz & Hblk); [by left|].
  unfold batch_link, ld_hdr. rewrite Hh. cbn [mbind outcome_bind]. set (p1 := set_hdrs p _). rewrite (pd_live_list _ _ _ _ _ D : on p1 MP_FLAG_FAST_PATH = false).
  pose proof (pd_nodup _ _ _ _ _ D) as Hnd. cbn [app] in Hnd. apply NoDup_cons in Hnd as [Hnew Hnd].
  assert (h ∉ L) by (intros Hx; apply Hnew; by apply elem_of_app; right). pose proof (bo_pos _ _ _ Hblk) as Hpos.
  destruct (active_list_add_spec p1 L h (pd_list _ _ _ _ _ D)) as (k & -> & Hk); [done|unfold NULL; lia|]. cbn [mbind outcome_bind negb].
  eexists _, hd, k. split; [done|]. split; [|done]. set (p2 := set_list p1 h k).
  assert (Hfr : forall x, x <> h -> hdrs p2 !! x = hdrs p !! x) by (intros x Hx; cbn; by rewrite lookup_insert_ne).
  destruct D. split; try done.
  - intros x [->|Hx]%elem_of_cons; [exists (mark_counted hd); by eapply block_ok_frame|].
    destruct (pd_blocks0 x Hx) as [hx Bx]. exists hx. eapply block_ok_frame; [exact Bx|done|done|apply Hfr; by intros ->|done].
  - intros x Hx. eapply pending_block_frame; [apply pd_pending0; by right|done|done|apply Hfr|done]. intros ->. apply Hnew. by apply elem_of_app; left.
  - assert (P ++ h :: L ≡ₚ h :: P ++ L) as -> by (symmetry; apply Permutation_middle). by apply NoDup_cons.
  - intros Hb. destruct (pd_reserve0 Hb) as (? & ? & Hu). split; [done|]. split; [done|]. cbn [rs p2 set_list p1 set_hdrs]. rewrite <- Hu.
    cbn [app]. rewrite !elem_of_app, !elem_of_cons, elem_of_app. tauto.
  - change (ac p2) with (ac p). rewrite pd_bytes0. f_equal. symmetry. apply requested_total_eq. intros x Hx. apply Hfr. by intros ->.
Qed.

Lemma batch_links_spec K size : forall outs p L,
  pending p L outs K size -> (forall h, h ∈ outs -> h ∉ K) ->
  exists p', batch_links size false p outs = Done ((fun h => h + SIZEOF_HEADER) <$> outs, p') /\ pending p' (rev outs ++ L) [] K size /\
    cf p' = cf p /\ rs p' = rs p /\ he p' = he p /\ tiers p' = tiers p /\ mem p' = mem p /\ ac p' = ac p /\
    (forall x, x ∉ outs -> hdrs p' !! x = hdrs p !! x) /\ (forall h, h ∈ outs -> requested_of p' h = size /\ is_Some (hdrs p' !! h)).
Proof.
  induction outs as [|h outs IH]; intros p L D HK; cbn [batch_links].
  { exists p. split; [done|]. split; [done|]. do 7 (split; [done|]). intros h Hh. by apply not_elem_of_nil in Hh. }
  destruct (pending_link p L h outs K size D) as (p1 & hd & k & -> & D1 & Hh & Hsz & ->); [apply HK; by left|]. cbn [mbind outcome_bind].
  pose proof (pd_nodup _ _ _ _ _ D) as Hnd. cbn [app] in Hnd. apply NoDup_cons in Hnd as [Hnew _].
  destruct (IH _ (h :: L) D1) as (p' & -> & D2 & C & R & He & T & M & A & Hout & Hin); [intros x Hx; apply HK; by right|]. cbn [mbind outcome_bind].
  exists p'. split; [done|]. split; [cbn [rev]; by rewrite <- app_assoc|]. do 6 (split; [done|]). split.
  - intros x Hx. rewrite elem_of_cons in Hx. rewrite Hout by tauto. cbn. rewrite lookup_insert_ne; [done|]. intros ->. tauto.
  - intros x [->|Hx]%elem_of_cons; [|by apply Hin]. assert (h ∉ outs) as Hho by (intros Hx; apply Hnew; by apply elem_of_app; left).
    unfold requested_of. rewrite (Hout h Hho). cbn. rewrite lookup_insert_eq. done.
Qed.

(** ** The whole batch *)

Lemma batch_events_same ptrs charge : forall p,
  let q := batch_events p ptrs charge in
  cf q = cf p /\ ac q = ac p /\ rs q = rs p /\ he q = he p /\ alinks q = alinks p /\ active_head q = active_head p /\ hdrs q = hdrs p /\
  tiers q = tiers p /\ mem q = mem p.
Proof.
  unfold batch_events. induction ptrs as [|x ptrs IH]; intros p; cbn [fold_left]; [done|].
  destruct (IH (trigger_event p MP_EVENT_ALLOC x charge)) as (-> & -> & -> & -> & -> & -> & -> & -> & ->).
  by rewrite event_cf, event_ac, event_rs, event_he, event_links, event_head, event_hdrs, event_tiers, event_mem.
Qed.

Lemma oom_events_same charge k : forall p,
  let q := Nat.iter k (fun p => trigger_event p MP_EVENT_OOM NULL charge) p in
  cf q = cf p /\ ac q = ac p /\ rs q = rs p /\ he q = he p /\ alinks q = alinks p /\ active_head q = active_head p /\ hdrs q = hdrs p /\
  tiers q = tiers p /\ mem q = mem p.
Proof.
  induction k as [|k IH]; intros p; [done|]. cbn [Nat.iter nat_rect]. destruct (IH p) as (<- & <- & <- & <- & <- & <- & <- & <- & <-).
  by rewrite event_cf, event_ac, event_rs, event_he, event_links, event_head, event_hdrs, event_tiers, event_mem.
Qed.

(** What a batch answers: [outs] are the new blocks, in order. *)
Record batch_answer (p p' : pool) (L outs ptrs : list Z) (size : Z) : Prop := {
  an_ok : front_ok p' (rev outs ++ L);
  an_ptrs : ptrs = (fun h => h + SIZEOF_HEADER) <$> outs;
  an_size : forall h, h ∈ outs -> requested_of p' h = size;
  an_kept : kept p p' L;
  an_cf : cf p' = cf p;
  an_owned : forall x, x ∉ outs -> owned (tiers p') !! x = owned (tiers p) !! x;
  an_bytes : active_bytes (ac p') = u64 (active_bytes (ac p) + zlen outs * size);
}.

Lemma batch_answer_nil p p' L size :
  front_ok p L -> cf p' = cf p -> ac p' = ac p -> rs p' = rs p -> alinks p' = alinks p -> active_head p' = active_head p ->
  hdrs p' = hdrs p -> owned (tiers p') = owned (tiers p) -> mem p' = mem p -> batch_answer p p' L [] [] size.
Proof.
  intros F E1 E2 E3 E4 E5 E6 E7 E8. split; try done.
  - by apply (front_ok_ext p).
  - intros h Hh. by apply not_elem_of_nil in Hh.
  - by apply kept_refl.
  - intros x _. by rewrite E7.
  - rewrite E2, (@zlen_nil Z), Z.mul_0_l, Z.add_0_r, (fo_bytes _ _ F). symmetry. apply u64_small, u64_bound.
Qed.

Lemma requested_total_const p size : forall outs, (forall h, h ∈ outs -> requested_of p h = size) -> requested_total p outs = zlen outs * size.
Proof.
  induction outs as [|h outs IH]; intros Ho; [done|]. change (requested_total p (h :: outs)) with (requested_of p h + requested_total p outs).
  rewrite IH by (intros x Hx; apply Ho; by right). rewrite (Ho h), zlen_cons by left. lia.
Qed.

Lemma batch_finish_spec p0 p L outs size em :
  front_ok p0 L -> pending p L outs L size -> kept p0 p L -> cf p = cf p0 -> active_bytes (ac p) = active_bytes (ac p0) ->
  (forall x, x ∉ outs -> owned (tiers p) !! x = owned (tiers p0) !! x) ->
  exists ptrs p', batch_finish p outs size size false em = Done (ptrs, p') /\ batch_answer p0 p' L outs ptrs size.
Proof.
  intros F0 D K C A O. unfold batch_finish. destruct outs as [|h0 outs0].
  { exists [], p. split; [done|]. split; try done.
    - eapply pending_end; [exact D|done].
    - intros h Hh. by apply not_elem_of_nil in Hh.
    - rewrite A, (@zlen_nil Z), Z.mul_0_l, Z.add_0_r, (fo_bytes _ _ F0). symmetry. apply u64_small, u64_bound. }
  set (outs := h0 :: outs0) in *. assert (HK : forall h, h ∈ outs -> h ∉ L).
  { intros h Hh HhL. pose proof (pd_nodup _ _ _ _ _ D) as Hnd. apply NoDup_app in Hnd as (_ & Hd & _). by apply (Hd h). }
  destruct (batch_links_spec L size outs p L D HK) as (p1 & -> & D1 & C1 & R1 & H1 & T1 & M1 & A1 & Hout & Hin). cbn [mbind outcome_bind].
  set (p2 := set_ac p1 _). set (evs := if em then _ else _). destruct (batch_events_same evs size p2) as (E1 & E2 & E3 & _ & E5 & E6 & E7 & E8 & E9).
  set (p' := batch_events p2 evs size) in *. exists ((fun h => h + SIZEOF_HEADER) <$> outs), p'. split; [done|].
  assert (Hreq : forall h, h ∈ outs -> requested_of p' h = size) by (intros h Hh; unfold requested_of; rewrite E7; by apply Hin).
  assert (HL : requested_total p' L = requested_total p1 L) by (apply requested_total_eq; intros x _; by rewrite E7).
  assert (Hperm : rev outs ++ L ≡ₚ outs ++ L) by (by rewrite <- Permutation_rev).
  assert (Hlen : zlen (rev outs ++ L) = zlen outs + zlen L) by (rewrite (zlen_perm _ _ Hperm); apply zlen_app).
  split; try done.
  - pose proof D1 as []. split; rewrite ?E1, ?E3, ?E5, ?E6, ?E8; try done.
    + intros h Hh. destruct (pd_blocks0 h Hh) as [hd B]. exists hd. eapply block_ok_frame; [exact B|done|by rewrite E3|by rewrite E7|by rewrite E8].
    + rewrite E2, (requested_total_perm p' _ _ Hperm), requested_total_app, (requested_total_const p' size outs Hreq), HL. cbn.
      rewrite pd_bytes0, u64_add_l. f_equal. lia.
    + rewrite E2, Hlen. cbn. rewrite pd_count0, u64_add_l. f_equal. lia.
    + rewrite E2, Hlen. cbn. rewrite pd_ops0, u64_add_l. f_equal. lia.
    + unfold on in *. by rewrite E1.
  - eapply kept_trans; [exact K|]. intros x Hx. rewrite E7, E8, E9. change (hdrs p2) with (hdrs p1). change (mem p2) with (mem p1). change (tiers p2) with (tiers p1).
    rewrite T1, M1. split; [|by split]. apply Hout. intros Hxo. by apply (HK x).
  - by rewrite E1, <- C, <- C1.
  - intros x Hx. rewrite E8. change (tiers p2) with (tiers p1). rewrite T1. by apply O.
  - rewrite E2. cbn. by rewrite A1, A.
Qed.

(** The limit decision: what is taken from the tiers fits. *)
Lemma batch_admit_target p charge total count : 0 < charge -> 0 <= count -> 0 <= active_bytes (ac p) < 2 ^ 64 -> 0 <= max_memory_limit (cf p) < 2 ^ 64 ->
  let plan := batch_admit p charge total count in
  0 <= target plan <= count /\
  (0 < max_memory_limit (cf p) -> fallback_to_sys_alloc_on_oom (cf p) = false -> max_memory_limit (cf p) + charge < 2 ^ 64 ->
   active_bytes (ac p) <= max_memory_limit (cf p) -> full_exceed_oom plan = false -> emergency_only plan = false ->
   active_bytes (ac p) + target plan * charge <= max_memory_limit (cf p)) /\
  (do_emergency plan = true -> target plan < count) /\
  (emergency_only plan = true \/ do_emergency plan = true ->
   negb (emergency_buf (rs p) =? NULL) && negb (emergency_used (rs p)) && (u64 (total + SIZEOF_HEADER + canary_len (flags (cf p))) <=? emergency_size (rs p)) = true).
Proof.
  intros Hc Hn Ha Hl. unfold batch_admit. set (limit := max_memory_limit (cf p)) in *. set (active := active_bytes (ac p)) in *.
  set (fits := _ && _ && _). destruct (Z.eqb_spec limit 0); [cbn; split; [lia|split; [lia|split; [done|intros [|]; done]]]|].
  destruct (Z.ltb_spec limit (u64 (active + charge))) as [H1|H1].
  - destruct (fallback_to_sys_alloc_on_oom (cf p)); [cbn; split; [lia|split; [done|split; [done|intros [|]; done]]]|].
    destruct fits eqn:Ef; cbn; (split; [lia|split; [done|split; [done|]]]); [done|intros [|]; done].
  - set (fit := u64 (limit - active) / charge). assert (0 <= fit) by (subst fit; apply Z.div_pos; [apply u64_bound|lia]).
    assert (active <= limit -> active + fit * charge <= limit) as Hfit.
    { intros Hle. subst fit. rewrite u64_small by lia. pose proof (Z.mul_div_le (limit - active) charge Hc). lia. }
    destruct (Z.ltb_spec fit count).
    + destruct (fallback_to_sys_alloc_on_oom (cf p)); [cbn; split; [lia|split; [done|split; [done|intros [|]; done]]]|].
      destruct fits eqn:Ef; cbn; (split; [lia|split; [intros _ _ _ Hle _ _; by apply Hfit|split; [intros; lia|]]]); [done|intros [|]; done].
    + cbn. split; [lia|]. split; [intros _ _ _ Hle _ _; specialize (Hfit Hle); nia|]. split; [done|intros [|]; done].
Qed.

(** The element from the reserve, when the plan has one. *)
Lemma batch_reserve_step p0 p L outs size charge :
  batch_at p0 p L outs [] size -> size_ok p size -> reserve_fits p size = true ->
  let '(p', outs') := batch_emergency p outs size size charge in
  outs' = outs ++ [emergency_buf (rs p)] /\ pending p' L outs' L size /\ kept p0 p' L /\ cf p' = cf p0 /\
  active_bytes (ac p') = active_bytes (ac p0) /\ (forall x, x ∉ outs' -> owned (tiers p') !! x = owned (tiers p0) !! x).
Proof.
  intros [] Hs Hr. unfold batch_emergency.
  pose proof (pending_emergency p L outs L size ba_pending0 ltac:(intros x Hx; by apply elem_of_app; right) Hs Hr) as Hem.
  destruct (batch_format_emergency p size) as [h p1]. destruct Hem as (-> & D & K & C & T & _ & A & _).
  assert (forall p2, cf p2 = cf p1 -> ac p2 = ac p1 -> rs p2 = rs p1 -> alinks p2 = alinks p1 -> active_head p2 = active_head p1 -> hdrs p2 = hdrs p1 ->
    tiers p2 = tiers p1 -> mem p2 = mem p1 ->
    pending p2 L (outs ++ [emergency_buf (rs p)]) L size /\ kept p0 p2 L /\ cf p2 = cf p0 /\ active_bytes (ac p2) = active_bytes (ac p0) /\
    (forall x, x ∉ outs ++ [emergency_buf (rs p)] -> owned (tiers p2) !! x = owned (tiers p0) !! x)) as Hany.
  { intros p2 E1 E2 E3 E4 E5 E6 E7 E8. split; [by eapply pending_ext; [..|exact D]; rewrite ?E2, ?E7|]. split; [|split; [congruence|split; [congruence|]]].
    - eapply kept_trans; [exact ba_kept0|]. eapply kept_trans; [by eapply kept_batch_app|]. apply kept_refl; congruence.
    - intros x Hx. rewrite E7, T. apply ba_owned0. rewrite elem_of_app in *. intros [?|Hn]; [tauto|by apply not_elem_of_nil in Hn]. }
  unfold batch_breaker_accrue. destruct (circuit_breaker_enabled (cf p1)); cbn.
  - destruct (_ && _); (split; [done|]); apply Hany; by rewrite ?event_cf, ?event_ac, ?event_rs, ?event_links, ?event_head, ?event_hdrs, ?event_tiers, ?event_mem.
  - split; [done|]. apply Hany; by rewrite ?event_cf, ?event_ac, ?event_rs, ?event_links, ?event_head, ?event_hdrs, ?event_tiers, ?event_mem.
Qed.

(** The reserve is part of a run only as its last block. *)
Definition limit_kept (p : pool) (outs : list Z) (size : Z) : Prop :=
  0 < max_memory_limit (cf p) -> fallback_to_sys_alloc_on_oom (cf p) = false -> max_memory_limit (cf p) + size < 2 ^ 64 ->
  active_bytes (ac p) <= max_memory_limit (cf p) ->
  exists regular, (outs = regular \/ outs = regular ++ [emergency_buf (rs p)]) /\ active_bytes (ac p) + zlen regular * size <= max_memory_limit (cf p).

Lemma batch_rest p p1 L outs (tripped : bool) size count plan :
  front_ok p L -> size_ok p size -> plan = batch_admit p size size count -> 0 < size -> 0 < count -> 0 <= max_memory_limit (cf p) < 2 ^ 64 ->
  full_exceed_oom plan = false -> batch_at p p1 L outs [] size -> zlen outs <= target plan -> (emergency_only plan = true -> outs = []) ->
  let complete := zlen outs =? target plan in
  let p1 := if limit_breach_attempted plan && complete && negb tripped then trigger_event p1 MP_EVENT_OOM NULL size else p1 in
  let use_reserve := negb tripped && (emergency_only plan || (do_emergency plan && complete)) in
  let '(p2, outs2) := if use_reserve then batch_emergency p1 outs size size size else (p1, outs) in
  exists ptrs p', batch_finish p2 outs2 size size false use_reserve = Done (ptrs, p') /\ batch_answer p p' L outs2 ptrs size /\
    zlen outs2 <= count /\ limit_kept p outs2 size.
Proof.
  intros F Hs Epl Hsz Hcnt Hlim Hfull B Hlen Hem complete p2 use_reserve. pose proof (u64_bound (requested_total p L)) as Hact. rewrite <- (fo_bytes _ _ F) in Hact.
  destruct (batch_admit_target p size size count Hsz ltac:(lia) Hact Hlim) as (Ht & Hfit & Hdo & Hres). rewrite <- Epl in Ht, Hfit, Hdo, Hres.
  assert (batch_at p p2 L outs [] size) as B2.
  { subst p2. destruct (limit_breach_attempted plan && complete && negb tripped); [|done]. eapply batch_at_ext; [..|exact B]; by rewrite ?event_cf, ?event_ac, ?event_rs, ?event_links, ?event_head, ?event_hdrs, ?event_tiers, ?event_mem. }
  assert (limit_kept p outs size) as Hlk.
  { intros H0 Hfb Hw Hle. exists outs. split; [by left|]. destruct (emergency_only plan) eqn:Ee.
    - rewrite (Hem eq_refl). rewrite (@zlen_nil Z). lia.
    - specialize (Hfit H0 Hfb Hw Hle Hfull eq_refl). pose proof (zlen_nonneg outs). nia. }
  destruct use_reserve eqn:Eu.
  - subst use_reserve. apply andb_true_iff in Eu as [_ Eu]. apply orb_true_iff in Eu.
    assert (reserve_fits p2 size = true) as Hr.
    { unfold reserve_fits. rewrite (ba_rs _ _ _ _ _ _ B2), (ba_cf _ _ _ _ _ _ B2). apply Hres. destruct Eu as [|Eu]; [by left|right]. by apply andb_true_iff in Eu as [? _]. }
    pose proof (batch_reserve_step p p2 L outs size size B2 Hs Hr) as Hstep. destruct (batch_emergency p2 outs size size size) as [p3 outs3].
    destruct Hstep as (-> & D & K & C & A & O).
    destruct (batch_finish_spec p p3 L (outs ++ [emergency_buf (rs p2)]) size true F D K C A O) as (ptrs & p' & -> & Ha).
    exists ptrs, p'. split; [done|]. split; [done|]. rewrite zlen_snoc. split.
    + destruct Eu as [Eu|Eu]; [rewrite (Hem Eu), (@zlen_nil Z); lia|]. apply andb_true_iff in Eu as [Eu _]. specialize (Hdo Eu). lia.
    + intros H0 Hfb Hw Hle. destruct (Hlk H0 Hfb Hw Hle) as (reg & Hreg & Hb). exists outs. rewrite <- (ba_rs _ _ _ _ _ _ B2). split; [by right|].
      destruct Hreg as [-> | ->]; [done|]. rewrite zlen_snoc in *.
      destruct (emergency_only plan) eqn:Ee; [specialize (Hem eq_refl); by destruct reg|]. specialize (Hfit H0 Hfb Hw Hle Hfull eq_refl). pose proof (zlen_nonneg reg). nia.
  - destruct B2. destruct (batch_finish_spec p p2 L outs size false F) as (ptrs & p' & -> & Ha); [done|done|done|done| |].
    { intros x Hx. apply ba_owned0. by rewrite app_nil_r. }
    exists ptrs, p'. split; [done|]. split; [done|]. split; [lia|done].
Qed.

Lemma alloc_batch_run p L size count :
  front_ok p L -> table_ok p -> size_ok p size -> on p MP_FLAG_CACHE_ALIGNED = false -> quota_ok p size -> 0 <= q_alloc_bytes (he p) ->
  0 <= count -> 0 <= max_memory_limit (cf p) < 2 ^ 64 ->
  exists outs ptrs p', mp_alloc_batch p size count = Done (ptrs, p') /\ batch_answer p p' L outs ptrs size /\ zlen outs <= count /\ limit_kept p outs size.
Proof.
  intros F Ht Hs Hal Hqo Hq Hcnt Hlim. pose proof Hs as [Hsz _].
  assert (forall p', cf p' = cf p -> ac p' = ac p -> rs p' = rs p -> alinks p' = alinks p -> active_head p' = active_head p -> hdrs p' = hdrs p ->
    tiers p' = tiers p -> mem p' = mem p -> exists outs ptrs p'', Done ([], p') = Done (ptrs, p'') /\ batch_answer p p'' L outs ptrs size /\
    zlen outs <= count /\ limit_kept p outs size) as Hnone.
  { intros p' E1 E2 E3 E4 E5 E6 E7 E8. exists [], [], p'. split; [done|]. split; [by apply batch_answer_nil; rewrite ?E7|]. split; [by rewrite (@zlen_nil Z)|].
    intros ? ? ? ?. exists []. split; [by left|]. rewrite (@zlen_nil Z). lia. }
  unfold mp_alloc_batch. rewrite Hal. destruct (Z.eqb_spec count 0), (Z.eqb_spec size 0); cbn [orb]; try (by apply Hnone); try lia.
  destruct (is_dirty (he p) && _); [by apply Hnone|]. destruct (circuit_breaker_enabled (cf p) && circuit_breaker_tripped (he p)); [by apply Hnone|].
  remember (batch_admit p size size count) as plan eqn:Epl. destruct (oom_events_same size (Z.to_nat (oom_fire_count plan)) p) as (E1 & E2 & E3 & E4 & E5 & E6 & E7 & E8 & E9).
  set (q := Nat.iter _ _ p) in *. destruct (full_exceed_oom plan) eqn:Efull.
  { apply Hnone; by rewrite ?event_cf, ?event_ac, ?event_rs, ?event_links, ?event_head, ?event_hdrs, ?event_tiers, ?event_mem. }
  set (q1 := if emergency_only plan then _ else q).
  assert (cf q1 = cf p /\ ac q1 = ac p /\ rs q1 = rs p /\ he q1 = he p /\ alinks q1 = alinks p /\ active_head q1 = active_head p /\ hdrs q1 = hdrs p /\
    tiers q1 = tiers p /\ mem q1 = mem p) as (G1 & G2 & G3 & G4 & G5 & G6 & G7 & G8 & G9).
  { subst q1. destruct (emergency_only plan); [|done]. by rewrite event_cf, event_ac, event_rs, event_he, event_links, event_head, event_hdrs, event_tiers, event_mem. }
  assert (front_ok q1 L) as F1 by (apply (front_ok_ext p); rewrite ?G8; done).
  assert (forall p1 outs, batch_at q1 p1 L outs [] size -> batch_at p p1 L outs [] size) as Hback.
  { intros p1 outs []. split; [done| |congruence|congruence|congruence| |done|done].
    - eapply kept_trans; [|exact ba_kept0]. apply kept_refl; congruence.
    - intros x Hx. by rewrite ba_owned0, G8. }
  pose proof (u64_bound (requested_total p L)) as Hact. rewrite <- (fo_bytes _ _ F) in Hact.
  destruct (batch_admit_target p size size count Hsz ltac:(lia) Hact Hlim) as (Htgt & _). rewrite <- Epl in Htgt.
  assert (exists r, (if emergency_only plan then Done (q1, [], false) else batch_tiers q1 size size (target plan)) = Done r /\
    let '(p1, outs, t) := r in batch_at p p1 L outs [] size /\ zlen outs <= target plan /\ (emergency_only plan = true -> outs = [])) as (r & Hr & Hph).
  { destruct (emergency_only plan).
    - eexists. split; [done|]. split; [apply Hback; by apply batch_at_start|]. split; [rewrite (@zlen_nil Z); lia|done].
    - destruct (batch_tiers_spec q1 L size size (target plan) F1) as (r & -> & Hr); [unfold table_ok; by rewrite G1|done|unfold quota_ok; by rewrite G1|by rewrite G4|lia|].
      exists r. split; [done|]. destruct r as [[p1 outs] t]. destruct Hr as (B & _ & _ & Hl & _). split; [by apply Hback|]. by split. }
  rewrite Hr. cbn [mbind outcome_bind]. destruct r as [[p1 outs] t]. destruct Hph as (B & Hl & Hem).
  pose proof (batch_rest p p1 L outs t size count plan F Hs Epl Hsz ltac:(lia) Hlim Efull B Hl Hem) as Hrest. cbv zeta in Hrest |- *.
  destruct (if negb t && _ then _ else _) as [p2 outs2]. destruct Hrest as (ptrs & p' & E & ?). exists outs2, ptrs, p'. split; [exact E|done].
Qed.

(** C25: a batch allocation on a pool in order terminates without a fault and leaves the pool
    in order: it returns at most [count] pointers, whose blocks are new, distinct, live (the
    last one allocated heads the list) and of the size asked for; the books are charged for
    exactly these; no other block, and no slot popped on the way, changes hands (the cap on
    bulk pops keeps a tripping breaker from losing any); and with a limit in force the blocks
    from the tiers stay within it, at most one more coming from the reserve. *)
Theorem alloc_batch_spec p L size count :
  front_ok p L -> table_ok p -> size_ok p size -> on p MP_FLAG_CACHE_ALIGNED = false -> quota_ok p size -> 0 <= q_alloc_bytes (he p) ->
  0 <= count -> 0 <= max_memory_limit (cf p) < 2 ^ 64 ->
  exists outs ptrs p', mp_alloc_batch p size count = Done (ptrs, p') /\ batch_answer p p' L outs ptrs size /\ zlen outs <= count /\ limit_kept p outs size.
Proof. apply alloc_batch_run. Qed.

End AllocBatch.

(** ** A run *)

(** Two slots on the per-CPU list, then bulk pops; the thread cache is empty. *)
Fixpoint grab_many (o : gmap Z Z) (n : Z) (k : nat) : list Z * gmap Z Z :=
  match k with
  | O => ([], o)
  | S k =>
      let '(h, o1) := Toy.grab o n in
      if h =? NULL then ([], o) else let '(l, o2) := grab_many o1 n k in (h :: l, o2)
  end.

Lemma grab_many_spec n k : forall o l o', grab_many o n k = (l, o') -> zlen l <= Z.of_nat k /\ handed (H := Toy.toy) o o' n l.
Proof.
  induction k as [|k IH]; intros o l o'; cbn [grab_many]; [intros [= <- <-]; split; [rewrite (@zlen_nil Z); lia|done]|].
  destruct (Toy.grab o n) as [h o1] eqn:E. apply Toy.grab_spec in E. destruct (h =? NULL); [intros [= <- <-]; split; [rewrite (@zlen_nil Z); lia|done]|].
  destruct (grab_many o1 n k) as [l1 o2] eqn:E2. intros [= <- <-]. destruct E as [Hf ->]. apply IH in E2 as [Hl Hh]. rewrite zlen_cons. split; [lia|by split].
Qed.

#[local] Existing Instance Toy.toy.

#[local] Instance toy_batch : BatchTiers (TT := Toy.toy).
Proof.
  refine {| tls_count := fun _ _ => 0;
    tls_pop := fun o f c => (NULL, o);
    percpu_freelists := fun _ => true;
    percpu_pop := fun o f c => if (base.size (o : gmap Z Z) <? 2)%nat then Toy.grab o (slab_extent (H := Toy.toy) f c) else (NULL, o);
    percpu_refill := fun o f c => o;
    slab_alloc_batch := fun o f c n => grab_many o (slab_extent (H := Toy.toy) f c) (Z.to_nat n) |}.
  - done.
  - intros b f c h b'. destruct (_ <? 2)%nat; [apply Toy.grab_spec|by intros [= <- <-]].
  - done.
  - intros b f c n l b' Hn E. apply grab_many_spec in E as [Hl Hh]. split; [lia|done].
Defined.

Definition demo_batch := mp_alloc_batch (Toy.demo_pool MP_FLAG_DEBUG_CANARY 200) 40 10.

(** Ten blocks of 40 bytes do not fit a limit of 200: five do. *)
Example demo_batch_run :
  match demo_batch with
  | Done (ptrs, p) => (length ptrs, active_bytes (ac p), active_allocations (ac p), length (events p)) = (5%nat, 200, 5, 6%nat)
  | _ => False
  end.
Proof. vm_compute. reflexivity. Qed.

Lemma alloc_batch_spec_witness :
  exists outs ptrs p', demo_batch = Done (ptrs, p') /\ active_bytes (ac p') = u64 (0 + zlen outs * 40) /\ zlen outs <= 10 /\
    limit_kept (Toy.demo_pool MP_FLAG_DEBUG_CANARY 200) outs 40.
Proof.
  destruct (alloc_batch_spec (Toy.demo_pool MP_FLAG_DEBUG_CANARY 200) [] 40 10) as (outs & ptrs & p' & E & A & Hl & Hk);
    [by apply Toy.demo_ok|apply Toy.demo_table|split; unfold SIZEOF_HEADER; lia|reflexivity|split; cbn; lia|cbn; lia|lia|cbn; lia|].
  exists outs, ptrs, p'. split; [exact E|]. split; [apply (an_bytes _ _ _ _ _ _ A)|]. split; [exact Hl|exact Hk].
Defined.

(** A pool whose breaker trips at 5 MiB, asked for three blocks of the OS tier: one at a time
    the second is refused, as a batch all three are served. *)
Definition demo_breaker : pool :=
  let p := Toy.demo_pool 0 0 in
  set_cf p (Config 64 0 default_classes 0 false true 5242880 true).

Example os_batch_ignores_breaker :
  match mp_alloc_batch demo_breaker 5242880 3 with Done (ptrs, p) => (length ptrs, circuit_breaker_tripped (he p)) | _ => (0%nat, false) end = (3%nat, true) /\
  match mp_alloc demo_breaker 5242880 with
  | Done (_, p) => match mp_alloc p 5242880 with Done (ptr, _) => ptr | _ => 1 end
  | _ => 1
  end = NULL.
Proof. vm_compute. done. Qed.
