(* ===== verification/Snapshot.v ===== *)
(** * Binary snapshots of a pool

    The writer [mp_export_binary_snapshot] ([src/cmem_diag.c]), the offline reader of the
    analysis tool ([tools/cmem-analyze/cmem-analyze-parser.c]) and the library's own
    comparison [mp_diff_snapshots] ([src/cmem.c], its counts; the report is text).  A file
    is its list of bytes; the reader's [malloc] blocks live in a heap of their own. *)
From S2P Require Import Prelude Text Header Dll SizeClass Front FrontSpec FrontProps.
From Stdlib Require Import ZArith Lia Sorted.
From stdpp Require Import base option list gmap sorting.
Open Scope Z_scope.

Definition CMEM_SNAPSHOT_MAGIC : Z := 0x434D454D.
Definition CMEM_MAX_SNAPSHOT_RECORDS : Z := 8 * 1024 * 1024.
Definition CMEM_MAX_TOTAL_POOL_SIZE : Z := 2 ^ 40.
Definition CMEM_MAX_ACTIVE_ALLOCATIONS : Z := 2 ^ 20.
Definition CMEM_MAX_LEAK_RECORDS : Z := 1048576.
Definition CMEM_MAX_ALLOC_LINE : Z := 1000000.

(** ** Layout *)

(** [n] bytes, least significant first. *)
Fixpoint le_bytes (n : nat) (z : Z) : list Z := match n with O => [] | S n => z mod 256 :: le_bytes n (z / 256) end.
Fixpoint le_value (l : list Z) : Z := match l with [] => 0 | b :: l => b + 256 * le_value l end.

Record snapshot_header := SHeader { sh_magic : Z; sh_version : Z; sh_total : Z; sh_bytes : Z; sh_allocs : Z }.
Record snapshot_record := SRecord { r_address : Z; r_size : Z; r_type : Z; r_line : Z; r_file : list Z; r_func : list Z }.

Definition header_bytes (h : snapshot_header) : list Z :=
  le_bytes 4 (sh_magic h) ++ le_bytes 4 (sh_version h) ++ le_bytes 8 (sh_total h) ++ le_bytes 8 (sh_bytes h) ++ le_bytes 8 (sh_allocs h).

(** Three bytes of padding behind the type, zeroed with the rest of the record. *)
Definition record_bytes (r : snapshot_record) : list Z :=
  le_bytes 8 (r_address r) ++ le_bytes 8 (r_size r) ++ le_bytes 1 (r_type r) ++ replicate 3 0 ++ le_bytes 4 (r_line r) ++ r_file r ++ r_func r.

Definition sub_bytes (l : list Z) (i n : nat) : list Z := take n (drop i l).

Definition header_of_bytes (l : list Z) : snapshot_header :=
  SHeader (le_value (sub_bytes l 0 4)) (le_value (sub_bytes l 4 4)) (le_value (sub_bytes l 8 8)) (le_value (sub_bytes l 16 8)) (le_value (sub_bytes l 24 8)).
Definition record_of_bytes (l : list Z) : snapshot_record :=
  SRecord (le_value (sub_bytes l 0 8)) (le_value (sub_bytes l 8 8)) (le_value (sub_bytes l 16 1)) (le_value (sub_bytes l 20 4))
    (sub_bytes l 24 64) (sub_bytes l 88 64).

Definition SIZEOF_SNAPSHOT_HEADER : nat := 32.
Definition SIZEOF_SNAPSHOT_RECORD : nat := 152.

(** [fread] of one object of [n] bytes: the object and the rest of the file. *)
Definition fread (n : nat) (f : list Z) : option (list Z * list Z) :=
  if (length f <? n)%nat then None else Some (take n f, drop n f).

(** ** Writing *)

(** [snprintf(buf, 64, "%s", s)] into a zeroed buffer. *)
Definition fixed_string (s : list Z) : list Z := take 63 s ++ replicate (64 - Nat.min 63 (length s)) 0.

Section Writer.
Context `{TT : Tiers}.

(** [str a] is the C string at address [a], without its terminator. *)
Definition snapshot_record_of (str : Z -> list Z) (h : Z) (hd : mp_block_header) : snapshot_record :=
  SRecord (u64 (h + SIZEOF_HEADER)) (u64 (requested_size hd)) (u8 (alloc_type hd)) (u32 (alloc_line hd))
    (if alloc_file hd =? NULL then replicate 64 0 else fixed_string (str (alloc_file hd)))
    (if alloc_func hd =? NULL then replicate 64 0 else fixed_string (str (alloc_func hd))).

Fixpoint export_records (fuel : nat) (str : Z -> list Z) (p : pool) (curr : Z) : outcome (list Z) :=
  match fuel with
  | O => Fault
  | S fuel =>
      if curr =? NULL then Done []
      else
        hd ← ld_hdr p curr;
        n ← ld (nxt (alinks p)) curr;
        rest ← export_records fuel str p n;
        Done (record_bytes (snapshot_record_of str curr hd) ++ rest)
  end.

Definition snapshot_header_of (p : pool) : snapshot_header :=
  SHeader CMEM_SNAPSHOT_MAGIC 1 (u64 (total_pool_size (ac p))) (u64 (active_bytes (ac p))) (u64 (active_allocations (ac p))).

(** [None] is [false]: the file cannot be opened. *)
Definition mp_export_binary_snapshot (opened : bool) (str : Z -> list Z) (p : pool) : outcome (option (list Z)) :=
  if negb opened then Done None
  else
    body ← export_records (S (base.size (nxt (alinks p)))) str p (active_head p);
    Done (Some (header_bytes (snapshot_header_of p) ++ body)).

End Writer.

(** ** The reader's heap *)

Inductive chunk := CString (s : list Z) | CArray.
Abbreviation mheap := (gmap Z chunk).
Definition mstate : Type := mheap * calls.

Definition malloc (c : chunk) (s : mstate) : Z * mstate :=
  let '(a, cs) := next_call s.2 in
  if a =? NULL then (NULL, (s.1, cs)) else (a, (<[a := c]> s.1, cs)).

Definition mfree (h : mheap) (a : Z) : outcome mheap :=
  if a =? NULL then Done h else match h !! a with Some _ => Done (delete a h) | None => Fault end.

(** ** Reading *)

Definition read_fixed_string (buf : list Z) (s : mstate) : Z * mstate :=
  match until_nul buf with [] => (NULL, s) | str => malloc (CString str) s end.

Definition parse_header (f : list Z) : option (snapshot_header * list Z) :=
  match fread SIZEOF_SNAPSHOT_HEADER f with
  | None => None
  | Some (b, f) =>
      let h := header_of_bytes b in
      if negb (sh_magic h =? CMEM_SNAPSHOT_MAGIC) then None
      else if negb (sh_version h =? 1) then None
      else if CMEM_MAX_TOTAL_POOL_SIZE <? sh_total h then None
      else if sh_total h <? sh_bytes h then None
      else if CMEM_MAX_ACTIVE_ALLOCATIONS <? sh_allocs h then None
      else Some (h, f)
  end.

Record leak_entry := Leak { l_address : Z; l_size : Z; l_usable : Z; l_tier : Z; l_file : Z; l_line : Z; l_func : Z }.

(** [n] records are still wanted. *)
Fixpoint read_records (n : nat) (f : list Z) (s : mstate) : list leak_entry * mstate :=
  match n with
  | O => ([], s)
  | S n =>
      match fread SIZEOF_SNAPSHOT_RECORD f with
      | None => ([], s)
      | Some (b, f) =>
          let r := record_of_bytes b in
          let line := if CMEM_MAX_ALLOC_LINE <? r_line r then 0 else r_line r in
          let type := if 8 <? r_type r then 0 else r_type r in
          let '(file, s) := read_fixed_string (r_file r) s in
          let '(func, s) := read_fixed_string (r_func r) s in
          let '(l, s) := read_records n f s in
          (Leak (r_address r) (r_size r) (r_size r) type file line func :: l, s)
      end
  end.

(** A file that cannot be opened is [None]; the result is the array and its entries. *)
Definition cmem_analyze_read_leaks (f : option (list Z)) (s : mstate) : option (Z * list leak_entry) * mstate :=
  match f with
  | None => (None, s)
  | Some f =>
      match parse_header f with
      | None => (None, s)
      | Some (h, f) =>
          let max_records := if CMEM_MAX_LEAK_RECORDS <? sh_allocs h then CMEM_MAX_LEAK_RECORDS else sh_allocs h in
          let '(out, s) := malloc CArray s in
          if out =? NULL then (None, s)
          else let '(l, s) := read_records (Z.to_nat max_records) f s in (Some (out, l), s)
      end
  end.

Fixpoint free_names (h : mheap) (l : list leak_entry) : outcome mheap :=
  match l with
  | [] => Done h
  | e :: l => h ← mfree h (l_file e); h ← mfree h (l_func e); free_names h l
  end.

Definition cmem_analyze_free_leaks (h : mheap) (entries : Z) (l : list leak_entry) : outcome mheap :=
  if entries =? NULL then Done h else h ← free_names h l; mfree h entries.

Definition compare_leaks_by_size_desc (a b : leak_entry) : Z :=
  if l_size b <? l_size a then -1 else if l_size a <? l_size b then 1 else 0.

(** [qsort] is the C library's. *)
Definition cmem_analyze_top_leaks (qsort : (leak_entry -> leak_entry -> Z) -> list leak_entry -> list leak_entry)
    (f : option (list Z)) (n : Z) (s : mstate) : outcome (option (Z * list leak_entry) * mstate) :=
  match cmem_analyze_read_leaks f s with
  | (None, s) => Done (None, s)
  | (Some (all, l), s) =>
      if zlen l =? 0 then Done (Some (NULL, []), s)
      else
        let l := qsort compare_leaks_by_size_desc l in
        let show := if (0 <? n) && (n <? zlen l) then n else zlen l in
        let '(top, s) := malloc CArray s in
        h ← cmem_analyze_free_leaks s.1 all l;
        if top =? NULL then Done (None, (h, s.2)) else Done (Some (top, take (Z.to_nat show) l), (h, s.2))
  end.

(** ** Comparing *)

Fixpoint found_in (e : leak_entry) (l : list leak_entry) : bool :=
  match l with [] => false | x :: l => if (l_address e =? l_address x) && (l_size e =? l_size x) then true else found_in e l end.

(** One of the two loops: the entries of [l] that [other] lacks, and their bytes. *)
Fixpoint count_missing (l other : list leak_entry) (n bytes : Z) : Z * Z :=
  match l with
  | [] => (n, bytes)
  | e :: l => if found_in e other then count_missing l other n bytes else count_missing l other (u64 (n + 1)) (u64 (bytes + l_size e))
  end.

Record diff_result := Diff { new_leaks : Z; fixed_leaks : Z; net_leak_bytes : Z; total_new_bytes : Z; total_freed_bytes : Z }.

Definition header_accepted (f : option (list Z)) : bool :=
  match f with Some f => match parse_header f with Some _ => true | None => false end | None => false end.

Definition cmem_analyze_diff (fa fb : option (list Z)) (s : mstate) : outcome (option diff_result * mstate) :=
  if negb (header_accepted fa) || negb (header_accepted fb) then Done (None, s)
  else
    match cmem_analyze_read_leaks fa s with
    | (None, s) => Done (None, s)
    | (Some (aa, la), s) =>
        match cmem_analyze_read_leaks fb s with
        | (None, s) => h ← cmem_analyze_free_leaks s.1 aa la; Done (None, (h, s.2))
        | (Some (ab, lb), s) =>
            let '(n, nb) := count_missing lb la 0 0 in
            let '(x, xb) := count_missing la lb 0 0 in
            h ← cmem_analyze_free_leaks s.1 aa la;
            h ← cmem_analyze_free_leaks h ab lb;
            Done (Some (Diff n x (u64 (nb - xb)) nb xb), (h, s.2))
        end
    end.

(** The library's comparison works on raw records. *)
Fixpoint read_raw (n : nat) (f : list Z) : list snapshot_record :=
  match n with O => [] | S n => match fread SIZEOF_SNAPSHOT_RECORD f with None => [] | Some (b, f) => record_of_bytes b :: read_raw n f end end.

Fixpoint raw_found (r : snapshot_record) (l : list snapshot_record) : bool :=
  match l with [] => false | x :: l => if (r_address x =? r_address r) && (r_size x =? r_size r) then true else raw_found r l end.

Fixpoint raw_missing (fuel : nat) (f : list Z) (other : list snapshot_record) (n bytes : Z) : outcome (Z * Z) :=
  match fuel with
  | O => Fault
  | S fuel =>
      match fread SIZEOF_SNAPSHOT_RECORD f with
      | None => Done (n, bytes)
      | Some (b, f) =>
          let r := record_of_bytes b in
          if raw_found r other then raw_missing fuel f other n bytes
          else raw_missing fuel f other (u64 (n + 1)) (u64 (bytes + r_size r))
      end
  end.

Definition raw_header (f : list Z) : option (snapshot_header * list Z) :=
  match fread SIZEOF_SNAPSHOT_HEADER f with
  | None => None
  | Some (b, f) => let h := header_of_bytes b in if sh_magic h =? CMEM_SNAPSHOT_MAGIC then Some (h, f) else None
  end.

(** The counts [mp_diff_snapshots] reports; [calloc_ok] is whether its [calloc] succeeds. *)
Definition mp_diff_snapshots (fa fb : option (list Z)) (calloc_ok : bool) : outcome (option (Z * Z)) :=
  match fa, fb with
  | Some fa, Some fb =>
      match raw_header fa, raw_header fb with
      | Some (ha, fa), Some (_, fb) =>
          let count_a := if CMEM_MAX_SNAPSHOT_RECORDS <? sh_allocs ha then 0 else sh_allocs ha in
          let recs_a := if (0 <? count_a) && calloc_ok && (count_a * Z.of_nat SIZEOF_SNAPSHOT_RECORD <=? zlen fa)
                        then read_raw (Z.to_nat count_a) fa else [] in
          r ← raw_missing (S (length fb)) fb recs_a 0 0; Done (Some r)
      | _, _ => Done None
      end
  | _, _ => Done None
  end.

(** ** What is written is read *)

Lemma length_le_bytes n z : length (le_bytes n z) = n.
Proof. revert z. induction n as [|n IH]; intros z; cbn; [done|]. by rewrite IH. Qed.

Lemma le_value_bytes n z : 0 <= z < 256 ^ Z.of_nat n -> le_value (le_bytes n z) = z.
Proof.
  revert z. induction n as [|n IH]; intros z Hz; cbn [le_bytes le_value].
  - change (256 ^ Z.of_nat 0) with 1 in Hz. lia.
  - rewrite Nat2Z.inj_succ, Z.pow_succ_r in Hz by lia. rewrite IH; [zdiv|].
    split; [apply Z.div_pos; lia|apply Z.div_lt_upper_bound; lia].
Qed.

Lemma sub_bytes_l (a b : list Z) n : length a = n -> sub_bytes (a ++ b) 0 n = a.
Proof. intros <-. unfold sub_bytes. by rewrite drop_0, take_app_length. Qed.

Lemma sub_bytes_r (a b : list Z) i n : (length a <= i)%nat -> sub_bytes (a ++ b) i n = sub_bytes b (i - length a) n.
Proof. intros H. unfold sub_bytes. by rewrite drop_app_ge. Qed.

Lemma sub_bytes_all (a : list Z) n : length a = n -> sub_bytes a 0 n = a.
Proof. intros H. rewrite <- (app_nil_r a) at 1. by apply sub_bytes_l. Qed.

(** Walk to the field at an offset and read it. *)
Ltac field :=
  repeat (rewrite sub_bytes_r by (rewrite ?length_le_bytes, ?length_replicate; lia); rewrite ?length_le_bytes, ?length_replicate; cbn [Nat.sub]);
  first [rewrite sub_bytes_l by (rewrite ?length_le_bytes; lia) | rewrite sub_bytes_all by (rewrite ?length_le_bytes; lia)].

Definition header_fits (h : snapshot_header) : Prop :=
  0 <= sh_magic h < 2 ^ 32 /\ 0 <= sh_version h < 2 ^ 32 /\ 0 <= sh_total h < 2 ^ 64 /\ 0 <= sh_bytes h < 2 ^ 64 /\ 0 <= sh_allocs h < 2 ^ 64.
Definition record_fits (r : snapshot_record) : Prop :=
  0 <= r_address r < 2 ^ 64 /\ 0 <= r_size r < 2 ^ 64 /\ 0 <= r_type r < 2 ^ 8 /\ 0 <= r_line r < 2 ^ 32 /\ length (r_file r) = 64%nat /\ length (r_func r) = 64%nat.

Lemma header_roundtrip h : header_fits h -> header_of_bytes (header_bytes h) = h.
Proof.
  intros (H1 & H2 & H3 & H4 & H5). destruct h as [m v t b c]. unfold header_of_bytes, header_bytes; cbn [sh_magic sh_version sh_total sh_bytes sh_allocs] in *.
  f_equal; field; apply le_value_bytes; done.
Qed.

Lemma record_roundtrip r : record_fits r -> record_of_bytes (record_bytes r) = r.
Proof.
  intros (H1 & H2 & H3 & H4 & H5 & H6). destruct r as [a s t l f g]. unfold record_of_bytes, record_bytes; cbn [r_address r_size r_type r_line r_file r_func] in *.
  f_equal; [field..|]; try (apply le_value_bytes; done); [done|].
  do 6 (rewrite sub_bytes_r by (rewrite ?length_le_bytes, ?length_replicate; lia)). rewrite !length_le_bytes, length_replicate, H5. by apply sub_bytes_all.
Qed.

Lemma length_header h : length (header_bytes h) = SIZEOF_SNAPSHOT_HEADER.
Proof. unfold header_bytes. by rewrite !length_app, !length_le_bytes. Qed.

Lemma length_record r : record_fits r -> length (record_bytes r) = SIZEOF_SNAPSHOT_RECORD.
Proof. intros (_ & _ & _ & _ & H1 & H2). unfold record_bytes. rewrite !length_app, !length_le_bytes, length_replicate. rewrite H1, H2. done. Qed.

Lemma fread_app n a b : length a = n -> fread n (a ++ b) = Some (a, b).
Proof.
  intros H. unfold fread. rewrite length_app. destruct (Nat.ltb_spec (length a + length b) n); [lia|].
  rewrite <- H. by rewrite take_app_length, drop_app_length.
Qed.

Lemma fread_short n f : (length f < n)%nat -> fread n f = None.
Proof. intros H. unfold fread. by rewrite (proj2 (Nat.ltb_lt _ _) H). Qed.

Lemma fread_record r f : record_fits r -> fread SIZEOF_SNAPSHOT_RECORD (record_bytes r ++ f) = Some (record_bytes r, f).
Proof. intros H. by apply fread_app, length_record. Qed.

Lemma length_fixed s : length (fixed_string s) = 64%nat.
Proof. unfold fixed_string. rewrite length_app, length_take, length_replicate. lia. Qed.

Lemma until_nul_fixed s : Forall (fun b => b <> 0) s -> until_nul (fixed_string s) = take 63 s.
Proof.
  intros H. unfold fixed_string. assert (Hr : exists k, replicate (64 - Nat.min 63 (length s)) 0 = 0 :: replicate k 0).
  { exists (64 - Nat.min 63 (length s) - 1)%nat. by replace (64 - Nat.min 63 (length s))%nat with (S (64 - Nat.min 63 (length s) - 1)) at 1 by lia. }
  destruct Hr as [k ->]. apply (Forall_take _ 63) in H. induction H as [|b l Hb _ IH]; [done|]. cbn [app until_nul].
  rewrite (proj2 (Z.eqb_neq b 0)) by done. by rewrite IH.
Qed.

(** A file with the header [h] and the records [l]. *)
Definition snapshot_file (h : snapshot_header) (l : list snapshot_record) : list Z := header_bytes h ++ concat (map record_bytes l).

Section Exported.
Context `{TT : Tiers}.

Lemma record_of_fits str h hd : record_fits (snapshot_record_of str h hd).
Proof.
  unfold record_fits, snapshot_record_of; cbn. pose proof (u64_bound (h + SIZEOF_HEADER)). pose proof (u64_bound (requested_size hd)).
  pose proof (u8_bound (alloc_type hd)). pose proof (u32_bound (alloc_line hd)). do 4 (split; [done|]).
  split; case_match; done || apply length_fixed.
Qed.

Lemma header_of_fits p : header_fits (snapshot_header_of p).
Proof.
  unfold header_fits, snapshot_header_of; cbn -[Z.pow]. pose proof (u64_bound (total_pool_size (ac p))). pose proof (u64_bound (active_bytes (ac p))).
  pose proof (u64_bound (active_allocations (ac p))). done.
Qed.

(** The record of each live block, in list order. *)
Definition record_at (str : Z -> list Z) (p : pool) (h : Z) : snapshot_record :=
  match hdrs p !! h with Some hd => snapshot_record_of str h hd | None => SRecord 0 0 0 0 (replicate 64 0) (replicate 64 0) end.

Lemma record_at_fits str p h : record_fits (record_at str p h).
Proof. unfold record_at. case_match; [apply record_of_fits|]. done. Qed.

Lemma export_records_run str p l : forall pv q fuel,
  seg (alinks p) pv q l NULL -> (forall h, h ∈ l -> is_Some (hdrs p !! h)) -> (length l < fuel)%nat ->
  export_records fuel str p q = Done (concat (map (fun h => record_bytes (record_at str p h)) l)).
Proof.
  induction l as [|x l IH]; intros pv q fuel Hs Hh Hf; (destruct fuel as [|fuel]; [cbn in Hf; lia|]); cbn [export_records].
  - cbn in Hs. by rewrite Hs.
  - destruct Hs as (-> & Hx & _ & n & Hn & Hs). rewrite (proj2 (Z.eqb_neq _ _)) by done.
    destruct (Hh x (list_elem_of_here _ _)) as [hd Hd]. unfold ld_hdr. rewrite Hd. cbn [mbind outcome_bind]. rewrite (ld_Some _ _ _ Hn). cbn [mbind outcome_bind].
    rewrite (IH x n fuel) by (done || (intros; apply Hh; by right) || (cbn in Hf; lia)). cbn [mbind outcome_bind map concat]. unfold record_at at 2. by rewrite Hd.
Qed.

Lemma export_run str p L : front_ok p L ->
  mp_export_binary_snapshot true str p = Done (Some (snapshot_file (snapshot_header_of p) (map (record_at str p) L))).
Proof.
  intros F. unfold mp_export_binary_snapshot. cbn [negb]. pose proof (fo_list _ _ F) as HL.
  rewrite (export_records_run str p L NULL).
  - cbn [mbind outcome_bind]. unfold snapshot_file. by rewrite map_map.
  - apply HL.
  - intros h Hh. destruct (fo_blocks _ _ F h Hh) as [hd B]. exists hd. apply B.
  - assert (length L <= base.size (nxt (alinks p)))%nat; [|lia].
    apply nodup_size; [apply HL|]. intros y Hy. by destruct (dll_node _ _ _ y HL Hy) as [[? ?] ?].
Qed.

End Exported.

(** ** The reader's heap grows by what it returns *)

(** [A] are the blocks [h'] has and [h] lacks. *)
Record grown (h h' : mheap) (A : list Z) : Prop := {
  gr_nodup : NoDup A;
  gr_new : forall a, a ∈ A -> a <> NULL /\ h !! a = None /\ is_Some (h' !! a);
  gr_old : forall a, a ∉ A -> h' !! a = h !! a;
}.

Lemma grown_refl h : grown h h [].
Proof. split; [constructor|intros a Ha; by apply not_elem_of_nil in Ha|done]. Qed.

Lemma grown_keep h h' A a c : grown h h' A -> h !! a = Some c -> h' !! a = Some c.
Proof. intros G Ha. rewrite (gr_old _ _ _ G); [done|]. intros Hin. destruct (gr_new _ _ _ G a Hin) as (_ & ? & _). congruence. Qed.

Lemma grown_trans h1 h2 h3 A B : grown h1 h2 A -> grown h2 h3 B -> grown h1 h3 (A ++ B).
Proof.
  intros G1 G2. assert (Hd : forall a, a ∈ A -> a ∉ B).
  { intros a Ha Hb. destruct (gr_new _ _ _ G1 a Ha) as (_ & _ & [? ?]), (gr_new _ _ _ G2 a Hb) as (_ & ? & _). congruence. }
  split.
  - apply NoDup_app. split; [apply G1|]. split; [exact Hd|apply G2].
  - intros a [Ha|Ha]%elem_of_app.
    + destruct (gr_new _ _ _ G1 a Ha) as (H0 & Hn & [c Hc]). split; [done|]. split; [done|]. exists c. by eapply grown_keep.
    + destruct (gr_new _ _ _ G2 a Ha) as (H0 & Hn & Hs). split; [done|]. split; [|done]. rewrite <- (gr_old _ _ _ G1); [done|].
      intros Ha'. by apply (Hd a).
  - intros a Ha. rewrite elem_of_app in Ha. rewrite (gr_old _ _ _ G2), (gr_old _ _ _ G1); tauto.
Qed.

Lemma grown_perm h h' A B : A ≡ₚ B -> grown h h' A -> grown h h' B.
Proof.
  intros E [G1 G2 G3]. split; [by rewrite <- E|intros a Ha; apply G2; by rewrite E|intros a Ha; apply G3; by rewrite E].
Qed.

(** [n] more calls succeed. *)
Definition plenty (n : nat) (cs : calls) : Prop := (n <= length cs)%nat /\ Forall is_Some cs.

Lemma plenty_mono n m cs : (n <= m)%nat -> plenty m cs -> plenty n cs.
Proof. intros H [H1 H2]. split; [lia|done]. Qed.

Lemma malloc_run c h cs a h' cs' : fresh_answers h cs -> malloc c (h, cs) = (a, (h', cs')) ->
  fresh_answers h' cs' /\ grown h h' (filter (fun a => a <> NULL) [a]) /\ (a <> NULL -> h' !! a = Some c) /\
  (forall n, plenty (S n) cs -> a <> NULL /\ plenty n cs').
Proof.
  intros Hf. unfold malloc. cbn [fst snd]. destruct (next_call cs) as [b cs1] eqn:E. destruct (fresh_next _ _ _ _ Hf E) as [Hf1 Hb].
  assert (Hp : forall n, plenty (S n) cs -> b <> NULL /\ plenty n cs1).
  { intros n [Hl Ha]. destruct cs as [|r cs]; [cbn in Hl; lia|]. apply Forall_cons in Ha as [[x ->] Ha]. cbn in E. injection E as <- <-.
    split; [|split; [cbn in Hl; lia|done]]. destruct Hf as [_ Hf]. cbn in Hf. by apply Forall_cons in Hf as [[? _] _]. }
  destruct (Z.eqb_spec b NULL) as [->|H0]; intros [= <- <- <-].
  - split; [done|]. split; [|split; [done|exact Hp]]. rewrite filter_cons_False, filter_nil by tauto. apply grown_refl.
  - destruct Hb as [?|(_ & Hn & Hfn)]; [done|]. split; [apply Hfn|]. split; [|split; [intros _; apply lookup_insert_eq|exact Hp]].
    rewrite filter_cons_True, filter_nil by done. split; [apply NoDup_singleton| |].
    + intros x ->%list_elem_of_singleton. split; [done|]. split; [done|]. rewrite lookup_insert_eq. eauto.
    + intros x Hx. rewrite list_elem_of_singleton in Hx. by rewrite lookup_insert_ne by congruence.
Qed.

(** [a] is the string [s]; NULL for the empty one, and for others only if [malloc] may fail. *)
Definition named (strict : Prop) (h : mheap) (a : Z) (s : list Z) : Prop :=
  (a = NULL /\ (strict -> s = [])) \/ (a <> NULL /\ s <> [] /\ h !! a = Some (CString s)).

Lemma named_mono (P Q : Prop) h h' A a s : (Q -> P) -> grown h h' A -> named P h a s -> named Q h' a s.
Proof. intros HQ G [[-> H]|(H0 & H1 & H2)]; [left; auto|right]. split; [done|]. split; [done|]. by eapply grown_keep. Qed.

Lemma read_string_run buf h cs a h' cs' : fresh_answers h cs -> read_fixed_string buf (h, cs) = (a, (h', cs')) ->
  fresh_answers h' cs' /\ grown h h' (filter (fun a => a <> NULL) [a]) /\
  named (plenty 1 cs) h' a (until_nul buf) /\ (forall n, plenty (S n) cs -> plenty n cs').
Proof.
  intros Hf. unfold read_fixed_string. destruct (until_nul buf) as [|b l] eqn:E.
  - intros [= <- <- <-]. split; [done|]. rewrite filter_cons_False, filter_nil by tauto. split; [apply grown_refl|].
    split; [left; split; done|]. intros n. apply plenty_mono. lia.
  - intros Hm. destruct (malloc_run _ _ _ _ _ _ Hf Hm) as (H1 & H2 & H3 & H4). split; [done|]. split; [done|]. split; [|intros n Hn; by apply H4].
    destruct (decide (a = NULL)) as [->|H0]; [left|right; auto]. split; [done|]. intros Hp. by destruct (H4 0%nat Hp).
Qed.

(** What an entry says of its record. *)
Record entry_of (strict : Prop) (h : mheap) (r : snapshot_record) (e : leak_entry) : Prop := {
  eo_address : l_address e = r_address r;
  eo_size : l_size e = r_size r;
  eo_usable : l_usable e = r_size r;
  eo_tier : l_tier e = if 8 <? r_type r then 0 else r_type r;
  eo_line : l_line e = if CMEM_MAX_ALLOC_LINE <? r_line r then 0 else r_line r;
  eo_file : named strict h (l_file e) (until_nul (r_file r));
  eo_func : named strict h (l_func e) (until_nul (r_func r));
}.

Lemma entry_of_mono (P Q : Prop) h h' A r e : (Q -> P) -> grown h h' A -> entry_of P h r e -> entry_of Q h' r e.
Proof. intros HQ G []. split; try done; by eapply named_mono. Qed.

(** The addresses [free_names] visits. *)
Definition names_of (l : list leak_entry) : list Z := concat (map (fun e => [l_file e; l_func e]) l).
Definition strings_of (l : list leak_entry) : list Z := filter (fun a => a <> NULL) (names_of l).

Lemma strings_cons e l : strings_of (e :: l) = filter (fun a => a <> NULL) [l_file e] ++ filter (fun a => a <> NULL) [l_func e] ++ strings_of l.
Proof. unfold strings_of, names_of. cbn [map concat]. change [l_file e; l_func e] with ([l_file e] ++ [l_func e]). by rewrite !filter_app, <- app_assoc. Qed.

Lemma read_records_run : forall n f h cs l h' cs',
  fresh_answers h cs -> read_records n f (h, cs) = (l, (h', cs')) ->
  fresh_answers h' cs' /\ grown h h' (strings_of l) /\ Forall2 (entry_of (plenty (2 * length (read_raw n f)) cs) h') (read_raw n f) l /\
  (forall k, plenty (2 * length (read_raw n f) + k) cs -> plenty k cs').
Proof.
  induction n as [|n IH]; intros f h cs l h' cs' Hf; cbn [read_records read_raw].
  { intros [= <- <- <-]. split; [done|]. split; [apply grown_refl|]. split; [constructor|done]. }
  destruct (fread SIZEOF_SNAPSHOT_RECORD f) as [[b f']|]; [|intros [= <- <- <-]; split; [done|split; [apply grown_refl|split; [constructor|done]]]].
  set (r := record_of_bytes b).
  destruct (read_fixed_string (r_file r) (h, cs)) as [fa [h1 cs1]] eqn:E1. destruct (read_string_run _ _ _ _ _ _ Hf E1) as (Hf1 & G1 & N1 & P1).
  destruct (read_fixed_string (r_func r) (h1, cs1)) as [fu [h2 cs2]] eqn:E2. destruct (read_string_run _ _ _ _ _ _ Hf1 E2) as (Hf2 & G2 & N2 & P2).
  destruct (read_records n f' (h2, cs2)) as [l' [h3 cs3]] eqn:E3. destruct (IH _ _ _ _ _ _ Hf2 E3) as (Hf3 & G3 & F & P3).
  cbn [length]. set (k := length (read_raw n f')) in *. intros [= <- <- <-]. split; [done|]. rewrite strings_cons. cbn [l_file l_func]. split; [eapply grown_trans; [exact G1|by eapply grown_trans]|].
  assert (HP : forall m, plenty (2 * S k + m) cs -> plenty 1 cs /\ plenty 1 cs1 /\ plenty (2 * k + m) cs2).
  { intros m H. replace (2 * S k + m)%nat with (S (S (2 * k + m))) in H by lia. pose proof (P1 _ H) as H1. pose proof (P2 _ H1) as H2.
    split; [eapply plenty_mono; [|exact H]; lia|]. split; [eapply plenty_mono; [|exact H1]; lia|done]. }
  split; [|intros m Hm; by apply P3, HP]. specialize (HP 0%nat). rewrite !Nat.add_0_r in HP. constructor.
  - split; cbn; try done.
    + eapply named_mono; [|eapply grown_trans; [exact G2|exact G3]|exact N1]. tauto.
    + eapply named_mono; [|exact G3|exact N2]. tauto.
  - eapply Forall2_impl; [exact F|]. intros x y. eapply entry_of_mono; [|apply grown_refl]. tauto.
Qed.

(** Freeing what was read restores the heap. *)
Lemma mfree_grown h h' a A : a <> NULL -> grown h h' (a :: A) -> exists h1, mfree h' a = Done h1 /\ grown h h1 A.
Proof.
  intros H0 [G1 G2 G3]. unfold mfree. rewrite (proj2 (Z.eqb_neq a NULL)) by done. destruct (G2 a (list_elem_of_here _ _)) as (_ & Hn & [c ->]).
  eexists. split; [done|]. apply NoDup_cons in G1 as [Ha Hd]. split; [done| |].
  - intros x Hx. destruct (G2 x) as (? & ? & Hs); [by right|]. split; [done|]. split; [done|]. by rewrite lookup_delete_ne by (intros ->; done).
  - intros x Hx. destruct (decide (x = a)) as [->|Hne]; [by rewrite lookup_delete_eq|]. rewrite lookup_delete_ne by done. apply G3.
    rewrite elem_of_cons. tauto.
Qed.

Lemma mfree_maybe h h' a A : grown h h' (filter (fun a => a <> NULL) [a] ++ A) -> exists h1, mfree h' a = Done h1 /\ grown h h1 A.
Proof.
  destruct (decide (a = NULL)) as [->|H0].
  - rewrite filter_cons_False, filter_nil by tauto. intros G. by exists h'.
  - rewrite filter_cons_True, filter_nil by done. by apply mfree_grown.
Qed.

Lemma grown_nil h h' : grown h h' [] -> h' = h.
Proof. intros G. apply map_eq. intros a. apply G, not_elem_of_nil. Qed.

Lemma free_names_run l : forall h h' A, grown h h' (strings_of l ++ A) -> exists h1, free_names h' l = Done h1 /\ grown h h1 A.
Proof.
  induction l as [|e l IH]; intros h h' A G; cbn [free_names]; [by exists h'|]. rewrite strings_cons, <- !app_assoc in G.
  destruct (mfree_maybe _ _ _ _ G) as (h1 & -> & G1). cbn [mbind outcome_bind]. destruct (mfree_maybe _ _ _ _ G1) as (h2 & -> & G2).
  cbn [mbind outcome_bind]. by apply IH.
Qed.

Lemma free_leaks_run l entries h h' A : entries <> NULL -> grown h h' (entries :: strings_of l ++ A) ->
  exists h1, cmem_analyze_free_leaks h' entries l = Done h1 /\ grown h h1 A.
Proof.
  intros H0 G. unfold cmem_analyze_free_leaks. rewrite (proj2 (Z.eqb_neq entries NULL)) by done.
  destruct (free_names_run l h h' (entries :: A)) as (h1 & -> & G1); [eapply grown_perm; [|exact G]; apply Permutation_middle|].
  cbn [mbind outcome_bind]. by apply mfree_grown.
Qed.

(** The records a reader takes from an accepted file. *)
Definition records (f : option (list Z)) : option (list snapshot_record) :=
  match f with Some f => match parse_header f with Some (h, f) => Some (read_raw (Z.to_nat (sh_allocs h)) f) | None => None end | None => None end.

Lemma header_accepted_records f : header_accepted f = match records f with Some _ => true | None => false end.
Proof. destruct f as [f|]; [|done]. cbn. by destruct (parse_header f) as [[h r]|]. Qed.

Lemma parse_header_allocs f h r : parse_header f = Some (h, r) -> sh_allocs h <= CMEM_MAX_LEAK_RECORDS.
Proof.
  unfold parse_header. destruct (fread _ _) as [[b r']|]; [|done]. repeat (case_match; [done|]).
  intros [= <- <-]. change CMEM_MAX_LEAK_RECORDS with CMEM_MAX_ACTIVE_ALLOCATIONS. by apply Z.ltb_ge.
Qed.

Lemma read_leaks_run f h cs r h' cs' :
  fresh_answers h cs -> cmem_analyze_read_leaks f (h, cs) = (r, (h', cs')) ->
  fresh_answers h' cs' /\
  match r with
  | None => h' = h /\ (forall l, records f = Some l -> ~ plenty 1 cs)
  | Some (arr, l) => arr <> NULL /\ grown h h' (arr :: strings_of l) /\
      exists rs, records f = Some rs /\ Forall2 (entry_of (plenty (1 + 2 * length rs) cs) h') rs l /\
        (forall k, plenty (1 + 2 * length rs + k) cs -> plenty k cs')
  end.
Proof.
  intros Hf. unfold cmem_analyze_read_leaks, records. destruct f as [f|]; [|by intros [= <- <- <-]].
  destruct (parse_header f) as [[hd f']|] eqn:Ep; [|by intros [= <- <- <-]]. pose proof (parse_header_allocs _ _ _ Ep) as Hle.
  rewrite (proj2 (Z.ltb_ge _ _) Hle). destruct (malloc CArray (h, cs)) as [out [h1 cs1]] eqn:Em.
  destruct (malloc_run _ _ _ _ _ _ Hf Em) as (Hf1 & G1 & _ & P1). destruct (Z.eqb_spec out NULL) as [->|H0].
  - intros [= <- <- <-]. split; [done|]. rewrite filter_cons_False, filter_nil in G1 by tauto. split; [by apply grown_nil|].
    intros l _ Hp. by destruct (P1 0%nat Hp).
  - destruct (read_records _ f' (h1, cs1)) as [l [h2 cs2]] eqn:Er. destruct (read_records_run _ _ _ _ _ _ _ Hf1 Er) as (Hf2 & G2 & F & P2).
    intros [= <- <- <-]. split; [done|]. split; [done|]. rewrite filter_cons_True, filter_nil in G1 by done.
    split; [exact (grown_trans _ _ _ _ _ G1 G2)|]. eexists. split; [done|]. split.
    + eapply Forall2_impl; [exact F|]. intros x y. eapply entry_of_mono; [|apply grown_refl]. intros Hp. by apply P1.
    + intros k Hp. by apply P2, P1.
Qed.

Lemma read_leaks_free f h cs arr l h' cs' :
  fresh_answers h cs -> cmem_analyze_read_leaks f (h, cs) = (Some (arr, l), (h', cs')) -> cmem_analyze_free_leaks h' arr l = Done h.
Proof.
  intros Hf E. destruct (read_leaks_run _ _ _ _ _ _ Hf E) as (_ & H0 & G & _).
  destruct (free_leaks_run l arr h h' []) as (h1 & -> & G1); [done|by rewrite app_nil_r|]. by rewrite (grown_nil _ _ G1).
Qed.

Lemma read_raw_bounds n : forall f, (length (read_raw n f) <= n)%nat /\ (SIZEOF_SNAPSHOT_RECORD * length (read_raw n f) <= length f)%nat /\
  Forall (fun r => (length (r_file r) <= 64)%nat /\ (length (r_func r) <= 64)%nat) (read_raw n f).
Proof.
  induction n as [|n IH]; intros f; cbn [read_raw]; [cbn; split; [lia|split; [lia|constructor]]|].
  destruct (fread SIZEOF_SNAPSHOT_RECORD f) as [[b f']|] eqn:E; [|cbn; split; [lia|split; [lia|constructor]]].
  unfold fread in E. destruct (Nat.ltb_spec (length f) SIZEOF_SNAPSHOT_RECORD) as [|Hl]; [done|]. injection E as _ <-.
  destruct (IH (drop SIZEOF_SNAPSHOT_RECORD f)) as (H1 & H2 & H3). rewrite length_drop in H2. cbn [length]. split; [lia|]. split; [unfold SIZEOF_SNAPSHOT_RECORD in *; lia|].
  constructor; [|done]. cbn. unfold sub_bytes. rewrite !length_take. lia.
Qed.

Lemma until_nul_ok l : Forall (fun b => b <> 0) (until_nul l) /\ (length (until_nul l) <= length l)%nat.
Proof. induction l as [|b l [IH1 IH2]]; cbn; [done|]. destruct (Z.eqb_spec b 0); cbn; [split; [done|lia]|]. split; [by constructor|lia]. Qed.

(** A pointer in an entry: NULL or a terminated string that was in a 64-byte field. *)
Definition name_ok (h : mheap) (a : Z) : Prop :=
  a = NULL \/ exists s, h !! a = Some (CString s) /\ s <> [] /\ (length s <= 64)%nat /\ Forall (fun b => b <> 0) s.

Lemma named_ok P h a l : named P h a (until_nul l) -> (length l <= 64)%nat -> name_ok h a.
Proof.
  intros [[-> _]|(_ & Hs & Hh)] Hl; [by left|right]. destruct (until_nul_ok l). exists (until_nul l). split; [done|]. split; [done|]. split; [lia|done].
Qed.

(** C34: reading a snapshot is safe on every file, truncated, oversized or hostile, and
    whatever [malloc] answers.  The reader never takes more records than the file has or
    than 2^20, each name it stores is a terminated string of at most 64 bytes, a failed read
    allocates nothing, and freeing a result gives back exactly what reading it took. *)
Theorem read_leaks_safe f h cs r h' cs' :
  fresh_answers h cs -> cmem_analyze_read_leaks f (h, cs) = (r, (h', cs')) ->
  match r with
  | None => h' = h
  | Some (arr, l) =>
      (exists b, f = Some b /\ 32 + 152 * zlen l <= zlen b) /\ zlen l <= CMEM_MAX_LEAK_RECORDS /\
      Forall (fun e => name_ok h' (l_file e) /\ name_ok h' (l_func e) /\ l_line e <= CMEM_MAX_ALLOC_LINE /\ l_tier e <= 8) l /\
      cmem_analyze_free_leaks h' arr l = Done h
  end.
Proof.
  intros Hf E. pose proof (read_leaks_free f h cs) as Hfree. destruct (read_leaks_run _ _ _ _ _ _ Hf E) as (_ & H).
  destruct r as [[arr l]|]; [|apply H]. destruct H as (_ & _ & rs & Hr & F & _). specialize (Hfree arr l h' cs' Hf E).
  unfold records in Hr. destruct f as [f|]; [|done]. destruct (parse_header f) as [[hd b]|] eqn:Ep; [|done]. injection Hr as Hr.
  destruct (read_raw_bounds (Z.to_nat (sh_allocs hd)) b) as (B1 & B2 & B3). rewrite Hr in B1, B2, B3. pose proof (parse_header_allocs _ _ _ Ep) as Ha.
  assert (Hb : (32 + length b = length f)%nat).
  { unfold parse_header, fread in Ep. destruct (Nat.ltb_spec (length f) SIZEOF_SNAPSHOT_HEADER) as [|Hl]; [done|].
    repeat (case_match; [done|]). injection Ep as _ <-. rewrite length_drop. unfold SIZEOF_SNAPSHOT_HEADER in *. lia. }
  rewrite (Forall2_length _ _ _ F) in B1, B2. unfold zlen, SIZEOF_SNAPSHOT_RECORD in *.
  split; [exists f; split; [done|lia]|]. split; [unfold CMEM_MAX_LEAK_RECORDS in *; lia|]. split; [|done]. remember (plenty (1 + 2 * length rs) cs) as P eqn:EP. clear - F B3. induction F as [|r e rs0 l0 He _ IH]; [constructor|].
  apply Forall_cons in B3 as [[L1 L2] B3]. constructor; [|by apply IH]. destruct He. split; [by eapply named_ok|]. split; [by eapply named_ok|].
  rewrite eo_line0, eo_tier0. split; [destruct (Z.ltb_spec CMEM_MAX_ALLOC_LINE (r_line r)); unfold CMEM_MAX_ALLOC_LINE in *; lia|].
  destruct (Z.ltb_spec 8 (r_type r)); lia.
Qed.

Lemma Forall2_mem {A B} (P : A -> B -> Prop) l k : Forall2 P l k -> Forall2 (fun x y => x ∈ l /\ P x y) l k.
Proof.
  induction 1 as [|x y l k Hxy _ IH]; constructor; [split; [by left|done]|]. eapply Forall2_impl; [exact IH|]. intros a b [? ?]. split; [by right|done].
Qed.

(** ** A pool, written and read back *)

Section Roundtrip.
Context `{TT : Tiers}.

(** What the reader asks of the header. *)
Definition acceptable (p : pool) (L : list Z) : bool :=
  (u64 (total_pool_size (ac p)) <=? CMEM_MAX_TOTAL_POOL_SIZE) && (active_bytes (ac p) <=? u64 (total_pool_size (ac p))) &&
  (zlen L <=? CMEM_MAX_ACTIVE_ALLOCATIONS).

(** The name a source location keeps: 63 bytes of it. *)
Definition kept_name (str : Z -> list Z) (a : Z) : list Z := if a =? NULL then [] else take 63 (str a).

(** The entry [e] describes the live block at [x]. *)
Record describes (str : Z -> list Z) (p : pool) (h : mheap) (x : Z) (hd : mp_block_header) (e : leak_entry) : Prop := {
  de_hdr : hdrs p !! x = Some hd;
  de_address : l_address e = x + SIZEOF_HEADER;
  de_size : l_size e = requested_size hd;
  de_tier : l_tier e = alloc_type hd;
  de_line : l_line e = if CMEM_MAX_ALLOC_LINE <? u32 (alloc_line hd) then 0 else u32 (alloc_line hd);
  de_file : named True h (l_file e) (kept_name str (alloc_file hd));
  de_func : named True h (l_func e) (kept_name str (alloc_func hd));
}.

Lemma front_count p L : front_ok p L -> zlen L < 2 ^ 64 -> active_allocations (ac p) = zlen L.
Proof. intros F HL. rewrite (fo_count _ _ F). apply u64_small. pose proof (zlen_nonneg L). lia. Qed.

Lemma front_length p L : front_ok p L -> zlen L < 2 ^ 64.
Proof.
  intros F. assert (Hd : NoDup L) by apply (fo_list _ _ F).
  assert (Hs : forall x, x ∈ L -> x ∈ seqZ 1 (2 ^ 64 - 1)).
  { intros x Hx. apply elem_of_seqZ. destruct (fo_blocks _ _ F x Hx) as [hd B]. pose proof (bo_pos _ _ _ B). destruct (block_owned _ _ _ B) as (n & Hn & Hle).
    pose proof (fo_range _ _ F _ _ Hn). pose proof (bo_size _ _ _ B). unfold SIZEOF_HEADER in *. lia. }
  pose proof (NoDup_submseteq L _ Hd Hs) as Hsub. apply submseteq_length in Hsub. rewrite length_seqZ in Hsub. unfold zlen. lia.
Qed.

Lemma block_ranges p L x hd : front_ok p L -> block_ok p x hd ->
  u64 (x + SIZEOF_HEADER) = x + SIZEOF_HEADER /\ u64 (requested_size hd) = requested_size hd /\ u8 (alloc_type hd) = alloc_type hd /\ alloc_type hd <= 8.
Proof.
  intros F B. destruct (bo_owned _ _ _ B) as (n & Hn & Hle & _). pose proof (fo_range _ _ F _ _ Hn). pose proof (bo_pos _ _ _ B). pose proof (bo_size _ _ _ B).
  unfold SIZEOF_HEADER, canary_len in *. assert (0 <= (if has_flag (flags (cf p)) MP_FLAG_DEBUG_CANARY then 1 else 0)) by (destruct (has_flag _ _); lia).
  split; [apply u64_small; lia|]. split; [apply u64_small; lia|].
  destruct (bo_type _ _ _ B) as [-> | [-> | [-> | ->]]]; split; done.
Qed.

Lemma read_raw_file l : forall n rest, n = length l -> Forall record_fits l -> read_raw n (concat (map record_bytes l) ++ rest) = l.
Proof.
  induction l as [|r l IH]; intros n rest -> Hf; cbn [length read_raw map concat]; [done|]. apply Forall_cons in Hf as [H1 H2].
  rewrite <- app_assoc, fread_record by done. rewrite record_roundtrip by done. by rewrite IH.
Qed.

Lemma parse_header_file hd l : header_fits hd -> sh_magic hd = CMEM_SNAPSHOT_MAGIC -> sh_version hd = 1 ->
  parse_header (snapshot_file hd l) =
    if (sh_total hd <=? CMEM_MAX_TOTAL_POOL_SIZE) && (sh_bytes hd <=? sh_total hd) && (sh_allocs hd <=? CMEM_MAX_ACTIVE_ALLOCATIONS)
    then Some (hd, concat (map record_bytes l)) else None.
Proof.
  intros Hh Hm Hv. unfold parse_header, snapshot_file. rewrite fread_app by apply length_header. rewrite header_roundtrip by done.
  rewrite Hm, Hv. cbn [negb Z.eqb Pos.eqb CMEM_SNAPSHOT_MAGIC].
  rewrite !Z.ltb_antisym. destruct (sh_total hd <=? CMEM_MAX_TOTAL_POOL_SIZE); [|done]. destruct (sh_bytes hd <=? sh_total hd); [|done].
  by destruct (sh_allocs hd <=? CMEM_MAX_ACTIVE_ALLOCATIONS).
Qed.

(** The file a pool is written to. *)
Definition pool_file (str : Z -> list Z) (p : pool) (L : list Z) : list Z := snapshot_file (snapshot_header_of p) (map (record_at str p) L).

Lemma pool_file_header str p L : front_ok p L ->
  parse_header (pool_file str p L) = if acceptable p L then Some (snapshot_header_of p, concat (map record_bytes (map (record_at str p) L))) else None.
Proof.
  intros F. unfold pool_file. rewrite parse_header_file by (apply header_of_fits || done). unfold acceptable, snapshot_header_of; cbn [sh_total sh_bytes sh_allocs].
  assert (E1 : u64 (active_bytes (ac p)) = active_bytes (ac p)) by (rewrite (fo_bytes _ _ F); unfold u64; by rewrite Z.mod_mod).
  rewrite (front_count p L F (front_length p L F)), E1. rewrite (u64_small (zlen L)); [done|]. pose proof (front_length p L F). pose proof (zlen_nonneg L). lia.
Qed.

Lemma pool_file_records str p L : front_ok p L ->
  records (Some (pool_file str p L)) = if acceptable p L then Some (map (record_at str p) L) else None.
Proof.
  intros F. unfold records. rewrite (pool_file_header str p L F). destruct (acceptable p L); [|done]. f_equal.
  rewrite <- (app_nil_r (concat _)). apply read_raw_file; [|apply Forall_forall; intros r (x & -> & _)%list_elem_of_fmap; apply record_at_fits].
  unfold snapshot_header_of; cbn [sh_allocs]. rewrite (front_count p L F (front_length p L F)), u64_small; [|pose proof (front_length p L F); pose proof (zlen_nonneg L); lia].
  unfold zlen. by rewrite Nat2Z.id, length_map.
Qed.

Lemma entry_describes str p L x h e : front_ok p L -> x ∈ L -> (forall a, Forall (fun b => b <> 0) (str a)) ->
  entry_of True h (record_at str p x) e -> exists hd, describes str p h x hd e.
Proof.
  intros F Hx Hstr []. destruct (fo_blocks _ _ F x Hx) as [hd B]. exists hd. destruct (block_ranges p L x hd F B) as (R1 & R2 & R3 & R4).
  unfold record_at in *. rewrite (bo_hdr _ _ _ B) in *. unfold snapshot_record_of in *; cbn [r_address r_size r_type r_line r_file r_func] in *.
  rewrite R1 in *. rewrite R2 in *. rewrite R3 in *. split; try done.
  - apply B.
  - rewrite eo_tier0. by rewrite (proj2 (Z.ltb_ge _ _) R4).
  - unfold kept_name. destruct (alloc_file hd =? NULL); [by rewrite until_nul_fixed in eo_file0 || exact eo_file0|]. by rewrite until_nul_fixed in eo_file0.
  - unfold kept_name. destruct (alloc_func hd =? NULL); [by rewrite until_nul_fixed in eo_func0 || exact eo_func0|]. by rewrite until_nul_fixed in eo_func0.
Qed.

(** C8: a pool written to a snapshot and read back by the analysis tool gives its live
    blocks, in list order: payload address, requested size, tier, source line (0 above
    10^6), and 63 bytes of the file and function names.  The reader takes the file exactly
    when the header is [acceptable]: at most 2^20 blocks and 2^40 bytes of pool, and no more
    live bytes than pool bytes. *)
Theorem snapshot_roundtrip str p L h cs :
  front_ok p L -> (forall a, Forall (fun b => b <> 0) (str a)) -> fresh_answers h cs -> plenty (1 + 2 * length L) cs ->
  exists file r s, mp_export_binary_snapshot true str p = Done (Some file) /\ cmem_analyze_read_leaks (Some file) (h, cs) = (r, s) /\
    if acceptable p L then exists arr l, r = Some (arr, l) /\ Forall2 (fun x e => exists hd, describes str p s.1 x hd e) L l
    else r = None /\ s.1 = h.
Proof.
  intros F Hstr Hf Hp. exists (pool_file str p L). destruct (cmem_analyze_read_leaks (Some (pool_file str p L)) (h, cs)) as [r [h' cs']] eqn:E.
  exists r, (h', cs'). split; [apply (export_run str p L F)|]. split; [done|]. destruct (read_leaks_run _ _ _ _ _ _ Hf E) as (_ & H).
  rewrite (pool_file_records str p L F) in H. destruct (acceptable p L).
  - destruct r as [[arr l]|]; [|destruct H as [_ H]; exfalso; apply (H _ eq_refl); eapply plenty_mono; [|exact Hp]; lia].
    destruct H as (_ & _ & rs & [= <-] & F2 & _). exists arr, l. split; [done|]. rewrite length_map in F2. apply (Forall2_fmap_l (record_at str p)) in F2.
    eapply Forall2_impl; [exact (Forall2_mem _ _ _ F2)|]. cbn beta. intros x e [Hx He]. apply (entry_describes str p L x h' e F Hx Hstr).
    eapply entry_of_mono; [|apply grown_refl|exact He]. done.
  - destruct r as [[arr l]|]; [destruct H as (_ & _ & rs & Hr & _); done|]. split; [done|]. apply H.
Qed.

End Roundtrip.

(** ** Comparing two snapshots *)

(** What identifies a block to both comparisons. *)
Definition entry_key (e : leak_entry) : Z * Z := (l_address e, l_size e).
Definition record_key (r : snapshot_record) : Z * Z := (r_address r, r_size r).

Definition missing (l other : list (Z * Z)) : list (Z * Z) := filter (fun k => k ∉ other) l.
Definition bytes_of (l : list (Z * Z)) : Z := foldr (fun k n => k.2 + n) 0 l.

Lemma bytes_app l k : bytes_of (l ++ k) = bytes_of l + bytes_of k.
Proof. induction l as [|x l IH]; cbn; [done|]. unfold bytes_of in *. lia. Qed.

Lemma bytes_perm l k : l ≡ₚ k -> bytes_of l = bytes_of k.
Proof. induction 1; cbn; unfold bytes_of in *; cbn; lia. Qed.

Lemma u64_idem x : u64 (u64 x) = u64 x.
Proof. apply u64_small, u64_bound. Qed.

Lemma missing_net l k : NoDup l -> NoDup k -> bytes_of (missing k l) - bytes_of (missing l k) = bytes_of k - bytes_of l.
Proof.
  intros Hl Hk.
  assert (Hs : forall a b : list (Z * Z), bytes_of a = bytes_of (filter (fun x => x ∈ b) a) + bytes_of (missing a b)).
  { intros a b. rewrite <- bytes_app. apply bytes_perm. symmetry. apply (filter_app_complement (fun x => x ∈ b)). }
  rewrite (Hs l k), (Hs k l). enough (bytes_of (filter (fun x => x ∈ k) l) = bytes_of (filter (fun x => x ∈ l) k)) by lia.
  apply bytes_perm, NoDup_Permutation; [by apply NoDup_filter|by apply NoDup_filter|]. intros x. rewrite !list_elem_of_filter. tauto.
Qed.

Lemma found_in_spec e l : found_in e l = bool_decide (entry_key e ∈ map entry_key l).
Proof.
  induction l as [|x l IH]; cbn [found_in map]; [done|].
  destruct (Z.eqb_spec (l_address e) (l_address x)) as [Ea|Ea], (Z.eqb_spec (l_size e) (l_size x)) as [Es|Es]; cbn [andb].
  2-4: rewrite IH; apply bool_decide_ext; rewrite elem_of_cons; unfold entry_key at 2; split; [by right|intros [[= ? ?]|?]; [congruence|done]].
  symmetry. apply bool_decide_eq_true_2. unfold entry_key at 1. rewrite Ea, Es. by left.
Qed.

Lemma raw_found_spec r l : raw_found r l = bool_decide (record_key r ∈ map record_key l).
Proof.
  induction l as [|x l IH]; cbn [raw_found map]; [done|].
  destruct (Z.eqb_spec (r_address x) (r_address r)) as [Ea|Ea], (Z.eqb_spec (r_size x) (r_size r)) as [Es|Es]; cbn [andb].
  2-4: rewrite IH; apply bool_decide_ext; rewrite elem_of_cons; unfold record_key at 2; split; [by right|intros [[= ? ?]|?]; [congruence|done]].
  symmetry. apply bool_decide_eq_true_2. unfold record_key at 1. rewrite <- Ea, <- Es. by left.
Qed.

(** Both loops count the missing keys. *)
Definition counted_missing (l other : list (Z * Z)) (n bytes : Z) : Z * Z :=
  (u64 (n + zlen (missing l other)), u64 (bytes + bytes_of (missing l other))).

Lemma counted_step k l other n bytes : counted_missing (k :: l) other n bytes =
  if bool_decide (k ∈ other) then counted_missing l other n bytes else counted_missing l other (u64 (n + 1)) (u64 (bytes + k.2)).
Proof.
  unfold counted_missing, missing. destruct (decide (k ∈ other)) as [H|H].
  - rewrite bool_decide_eq_true_2, filter_cons_False by tauto. done.
  - rewrite bool_decide_eq_false_2, filter_cons_True by tauto. rewrite zlen_cons. cbn [bytes_of foldr]. fold (bytes_of (filter (fun x => x ∉ other) l)).
    rewrite !u64_add_l. f_equal; f_equal; lia.
Qed.

Lemma counted_nil other n bytes : u64 n = n -> u64 bytes = bytes -> counted_missing [] other n bytes = (n, bytes).
Proof. intros H1 H2. unfold counted_missing. cbn. rewrite zlen_nil, !Z.add_0_r. by rewrite H1, H2. Qed.

Lemma count_missing_spec l other : forall n bytes, u64 n = n -> u64 bytes = bytes ->
  count_missing l other n bytes = counted_missing (map entry_key l) (map entry_key other) n bytes.
Proof.
  induction l as [|e l IH]; intros n bytes Hn Hb; cbn [count_missing map]; [by rewrite counted_nil|].
  rewrite counted_step, found_in_spec. case_bool_decide; [by apply IH|]. apply IH; apply u64_idem.
Qed.

Lemma raw_missing_spec l other : forall fuel n bytes, u64 n = n -> u64 bytes = bytes -> Forall record_fits l -> (length l < fuel)%nat ->
  raw_missing fuel (concat (map record_bytes l)) other n bytes = Done (counted_missing (map record_key l) (map record_key other) n bytes).
Proof.
  induction l as [|r l IH]; intros fuel n bytes Hn Hb Hf Hl; (destruct fuel as [|fuel]; [cbn in Hl; lia|]); cbn [raw_missing map concat].
  - rewrite fread_short by (cbn; unfold SIZEOF_SNAPSHOT_RECORD; lia). by rewrite counted_nil.
  - apply Forall_cons in Hf as [H1 H2]. rewrite fread_record, record_roundtrip by done. rewrite counted_step, raw_found_spec. cbn in Hl.
    case_bool_decide; [apply IH; done || lia|]. apply IH; try apply u64_idem; done || lia.
Qed.

Lemma entry_keys P h rs l : Forall2 (entry_of P h) rs l -> map entry_key l = map record_key rs.
Proof. induction 1 as [|r e rs l [] _ IH]; cbn; [done|]. rewrite IH. unfold entry_key, record_key. congruence. Qed.

(** The result for the keys of the two files. *)
Definition diff_of (ka kb : list (Z * Z)) : diff_result :=
  Diff (u64 (zlen (missing kb ka))) (u64 (zlen (missing ka kb))) (u64 (bytes_of (missing kb ka) - bytes_of (missing ka kb)))
    (u64 (bytes_of (missing kb ka))) (u64 (bytes_of (missing ka kb))).

Definition file_keys (f : option (list Z)) : list (Z * Z) := map record_key (default [] (records f)).

Lemma analyze_diff_run fa fb h cs :
  fresh_answers h cs ->
  exists r cs', cmem_analyze_diff fa fb (h, cs) = Done (r, (h, cs')) /\ (r = None \/ r = Some (diff_of (file_keys fa) (file_keys fb))) /\
    (header_accepted fa && header_accepted fb = true -> plenty (2 + 2 * length (file_keys fa)) cs -> r <> None) /\
    (header_accepted fa && header_accepted fb = false -> r = None).
Proof.
  intros Hf. unfold cmem_analyze_diff. destruct (header_accepted fa) eqn:Ha; [|exists None, cs; cbn; split; [done|split; [by left|split; done]]].
  destruct (header_accepted fb) eqn:Hb; [|exists None, cs; cbn; split; [done|split; [by left|split; done]]]. cbn [negb orb andb].
  rewrite header_accepted_records in Ha, Hb. destruct (records fa) as [ra|] eqn:Era; [|done]. destruct (records fb) as [rb|] eqn:Erb; [|done].
  assert (Eka : file_keys fa = map record_key ra) by (unfold file_keys; by rewrite Era). assert (Ekb : file_keys fb = map record_key rb) by (unfold file_keys; by rewrite Erb).
  rewrite Eka, Ekb, length_map.
  destruct (cmem_analyze_read_leaks fa (h, cs)) as [[[aa la]|] [h1 cs1]] eqn:E1; destruct (read_leaks_run _ _ _ _ _ _ Hf E1) as (Hf1 & H1).
  2: { destruct H1 as [-> H1]. exists None, cs1. split; [done|]. split; [by left|]. split; [|done]. intros _ Hp. exfalso. apply (H1 _ Era). eapply plenty_mono; [|exact Hp]. lia. }
  destruct H1 as (H0 & G1 & rs & Hrs & F1 & P1). assert (rs = ra) as -> by congruence.
  destruct (cmem_analyze_read_leaks fb (h1, cs1)) as [[[ab lb]|] [h2 cs2]] eqn:E2; destruct (read_leaks_run _ _ _ _ _ _ Hf1 E2) as (Hf2 & H2).
  2: { destruct H2 as [-> H2]. destruct (free_leaks_run la aa h h1 []) as (h3 & Ef & G3); [done|by rewrite app_nil_r|]. cbn [fst snd]. rewrite Ef. cbn [mbind outcome_bind].
       rewrite (grown_nil _ _ G3). exists None, cs2. split; [done|]. split; [by left|]. split; [|done]. intros _ Hp. exfalso. apply (H2 _ Erb), P1.
       eapply plenty_mono; [|exact Hp]. lia. }
  destruct H2 as (H0b & G2 & rs & Hrs2 & F2 & _). assert (rs = rb) as -> by congruence.
  rewrite !count_missing_spec by done. rewrite (entry_keys _ _ _ _ F1), (entry_keys _ _ _ _ F2). unfold counted_missing. cbn beta iota. cbn [fst snd].
  destruct (free_leaks_run la aa h h2 (ab :: strings_of lb)) as (h3 & -> & G3); [done|exact (grown_trans _ _ _ _ _ G1 G2)|]. cbn [mbind outcome_bind].
  destruct (free_leaks_run lb ab h h3 []) as (h4 & -> & G4); [done|by rewrite app_nil_r|]. cbn [mbind outcome_bind]. rewrite (grown_nil _ _ G4).
  eexists _, cs2. split; [done|]. split; [right|done]. unfold diff_of. rewrite !Z.add_0_l. unfold u64 at 3. unfold u64 at 3 4. rewrite <- Zminus_mod. done.
Qed.

(** Comparing two files with accepted headers, whatever follows them.  The comparison
    comes back with the heap as it found it: every name and array of both readings is freed,
    once.
    The new leaks are the blocks of the second file that the first lacks, by address and
    size, the fixed ones the reverse; when neither file lists a block twice, the net is the
    difference of the bytes in the two files. *)
Theorem analyze_diff_spec fa fb h cs :
  fresh_answers h cs -> header_accepted fa = true -> header_accepted fb = true -> plenty (2 + 2 * length (file_keys fa)) cs ->
  exists d cs', cmem_analyze_diff fa fb (h, cs) = Done (Some d, (h, cs')) /\
    new_leaks d = u64 (zlen (missing (file_keys fb) (file_keys fa))) /\ total_new_bytes d = u64 (bytes_of (missing (file_keys fb) (file_keys fa))) /\
    fixed_leaks d = u64 (zlen (missing (file_keys fa) (file_keys fb))) /\ total_freed_bytes d = u64 (bytes_of (missing (file_keys fa) (file_keys fb))) /\
    (NoDup (file_keys fa) -> NoDup (file_keys fb) -> net_leak_bytes d = u64 (bytes_of (file_keys fb) - bytes_of (file_keys fa))).
Proof.
  intros Hf Ha Hb Hp. destruct (analyze_diff_run fa fb h cs Hf) as (r & cs' & E & Hr & Hs & _). rewrite Ha, Hb in Hs.
  destruct Hr as [->| ->]; [by destruct (Hs eq_refl Hp)|]. eexists _, cs'. split; [exact E|]. do 4 (split; [done|]). intros N1 N2. cbn. by rewrite missing_net.
Qed.

Section Agree.
Context `{TT : Tiers}.

Lemma raw_header_file hd l : header_fits hd -> sh_magic hd = CMEM_SNAPSHOT_MAGIC ->
  raw_header (snapshot_file hd l) = Some (hd, concat (map record_bytes l)).
Proof.
  intros Hh Hm. unfold raw_header, snapshot_file. rewrite fread_app by apply length_header. rewrite header_roundtrip by done. by rewrite Hm.
Qed.

Lemma length_records l : Forall record_fits l -> length (concat (map record_bytes l)) = (SIZEOF_SNAPSHOT_RECORD * length l)%nat.
Proof.
  induction 1 as [|r l H _ IH]; [done|]. cbn [map concat length]. rewrite length_app, IH, length_record by done. unfold SIZEOF_SNAPSHOT_RECORD. lia.
Qed.

(** The library's comparison on two pools it wrote. *)
Lemma library_diff_run str pa La pb Lb :
  front_ok pa La -> front_ok pb Lb -> zlen La <= CMEM_MAX_SNAPSHOT_RECORDS ->
  mp_diff_snapshots (Some (pool_file str pa La)) (Some (pool_file str pb Lb)) true =
    Done (Some (counted_missing (map record_key (map (record_at str pb) Lb)) (map record_key (map (record_at str pa) La)) 0 0)).
Proof.
  intros Fa Fb Hle. unfold mp_diff_snapshots, pool_file. rewrite !raw_header_file by (apply header_of_fits || done).
  set (ra := map (record_at str pa) La). set (rb := map (record_at str pb) Lb).
  assert (Hra : Forall record_fits ra) by (apply Forall_forall; intros r (x & -> & _)%list_elem_of_fmap; apply record_at_fits).
  assert (Hrb : Forall record_fits rb) by (apply Forall_forall; intros r (x & -> & _)%list_elem_of_fmap; apply record_at_fits).
  assert (Ec : sh_allocs (snapshot_header_of pa) = zlen La).
  { cbn. pose proof (zlen_nonneg La). rewrite (front_count pa La Fa (front_length pa La Fa)). apply u64_small. pose proof (front_length pa La Fa). lia. }
  rewrite !Ec, (proj2 (Z.ltb_ge _ _) Hle). match goal with |- context [raw_missing _ _ ?x _ _] => set (recs := x) end.
  assert (Er : recs = ra).
  { subst recs. assert (El : zlen (concat (map record_bytes ra)) = zlen La * Z.of_nat SIZEOF_SNAPSHOT_RECORD).
    { unfold zlen. rewrite length_records by done. unfold ra. rewrite length_map. lia. }
    rewrite El, Z.leb_refl, andb_true_r. cbn [andb]. rewrite andb_true_r. destruct (Z.ltb_spec 0 (zlen La)) as [_|H0].
    - rewrite <- (app_nil_r (concat _)). apply read_raw_file; [|done]. unfold ra, zlen. by rewrite Nat2Z.id, length_map.
    - destruct La as [|x La]; [done|]. rewrite zlen_cons in H0. pose proof (zlen_nonneg La). lia. }
  rewrite Er. rewrite (raw_missing_spec rb ra) by (done || rewrite length_records by done; unfold SIZEOF_SNAPSHOT_RECORD; lia). done.
Qed.

(** C15: the library's [mp_diff_snapshots] and the tool's [cmem_analyze_diff] are written
    separately and agree: on snapshots of two pools whose headers are [acceptable], the
    counts the library reports are the new leaks and new bytes of the tool. *)
Theorem diff_agree str pa La pb Lb h cs :
  front_ok pa La -> front_ok pb Lb -> acceptable pa La = true -> acceptable pb Lb = true -> fresh_answers h cs -> plenty (2 + 2 * length La) cs ->
  exists fa fb d cs', mp_export_binary_snapshot true str pa = Done (Some fa) /\ mp_export_binary_snapshot true str pb = Done (Some fb) /\
    cmem_analyze_diff (Some fa) (Some fb) (h, cs) = Done (Some d, (h, cs')) /\
    mp_diff_snapshots (Some fa) (Some fb) true = Done (Some (new_leaks d, total_new_bytes d)).
Proof.
  intros Fa Fb Aa Ab Hf Hp. exists (pool_file str pa La), (pool_file str pb Lb).
  pose proof (pool_file_records str pa La Fa) as Ra. pose proof (pool_file_records str pb Lb Fb) as Rb. rewrite Aa in Ra. rewrite Ab in Rb.
  destruct (analyze_diff_run (Some (pool_file str pa La)) (Some (pool_file str pb Lb)) h cs Hf) as (r & cs' & E & Hr & Hs & _).
  rewrite !header_accepted_records, Ra, Rb in Hs. unfold file_keys in Hr, Hs. rewrite Ra, Rb in Hr. rewrite Ra in Hs. cbn [default from_option id andb] in Hr, Hs.
  rewrite !length_map in Hs. destruct Hr as [->| ->]; [by destruct (Hs eq_refl Hp)|]. eexists _, cs'. split; [apply (export_run str pa La Fa)|].
  split; [apply (export_run str pb Lb Fb)|]. split; [exact E|]. rewrite (library_diff_run str pa La pb Lb Fa Fb); [done|].
  unfold acceptable in Aa. apply andb_true_iff in Aa as [_ Aa]. apply Z.leb_le in Aa. unfold CMEM_MAX_ACTIVE_ALLOCATIONS, CMEM_MAX_SNAPSHOT_RECORDS in *. lia.
Qed.

End Agree.

(** ** The largest leaks *)

(** What the C standard promises of [qsort] for this comparison. *)
Definition sorts (qsort : (leak_entry -> leak_entry -> Z) -> list leak_entry -> list leak_entry) : Prop :=
  forall l, qsort compare_leaks_by_size_desc l ≡ₚ l /\
    StronglySorted (fun a b => compare_leaks_by_size_desc a b <= 0) (qsort compare_leaks_by_size_desc l).

Lemma sorted_sizes l : StronglySorted (fun a b => compare_leaks_by_size_desc a b <= 0) l -> StronglySorted (fun a b => l_size b <= l_size a) l.
Proof.
  induction 1 as [|e l _ IH He]; constructor; [done|]. eapply Forall_impl; [exact He|]. unfold compare_leaks_by_size_desc. intros b Hb. cbn beta in Hb.
  destruct (Z.ltb_spec (l_size b) (l_size e)); [lia|]. destruct (Z.ltb_spec (l_size e) (l_size b)); lia.
Qed.

Lemma names_perm l k : l ≡ₚ k -> strings_of l ≡ₚ strings_of k.
Proof.
  intros E. unfold strings_of, names_of. apply filter_Permutation. induction E; cbn; [done| | |by etrans].
  - by do 2 apply perm_skip.
  - apply (Permutation_app_swap_app [l_file y; l_func y] [l_file x; l_func x]).
Qed.

Lemma strings_elem l e a : e ∈ l -> a = l_file e \/ a = l_func e -> a <> NULL -> a ∈ strings_of l.
Proof.
  intros He Ha H0. apply list_elem_of_filter. split; [done|]. unfold names_of. apply list_elem_of_In, in_concat. exists [l_file e; l_func e].
  split; [apply in_map_iff; exists e; split; [done|by apply list_elem_of_In]|]. destruct Ha as [->| ->]; cbn; auto.
Qed.

(** [cmem_analyze_top_leaks] returns the right entries with dangling names.  The entries
    are the largest of the file, in descending order, but each was copied bit by bit and the
    strings it points to are freed with the rest before the call returns: every name that is
    not NULL is a dead pointer. *)
Theorem top_leaks_dangling qsort f n h cs top l h' cs' :
  sorts qsort -> fresh_answers h cs -> cmem_analyze_top_leaks qsort f n (h, cs) = Done (Some (top, l), (h', cs')) ->
  (exists rs rest, records f = Some rs /\ map entry_key (l ++ rest) ≡ₚ map record_key rs /\
    StronglySorted (fun a b => l_size b <= l_size a) (l ++ rest)) /\
  Forall (fun e => (l_file e <> NULL -> h' !! l_file e = None) /\ (l_func e <> NULL -> h' !! l_func e = None)) l.
Proof.
  intros Hq Hf. unfold cmem_analyze_top_leaks. destruct (cmem_analyze_read_leaks f (h, cs)) as [[[all la]|] [h1 cs1]] eqn:E1; [|done].
  destruct (read_leaks_run _ _ _ _ _ _ Hf E1) as (Hf1 & H0 & G1 & rs & Hrs & F1 & _). destruct (Z.eqb_spec (zlen la) 0) as [Hz|Hz].
  { intros [= <- <- <- <-]. split; [|constructor]. exists rs, []. split; [done|]. assert (la = []) as -> by (destruct la; [done|rewrite zlen_cons in Hz; pose proof (zlen_nonneg la); lia]).
    apply Forall2_nil_inv_r in F1 as ->. split; [done|constructor]. }
  destruct (Hq la) as [Hperm Hsort]. set (ls := qsort compare_leaks_by_size_desc la) in *. match goal with |- context [take (Z.to_nat ?x) ls] => set (show := x) end.
  destruct (malloc CArray (h1, cs1)) as [t [h2 cs2]] eqn:Em. destruct (malloc_run _ _ _ _ _ _ Hf1 Em) as (_ & G2 & _ & _). cbn [fst snd].
  assert (G3 : grown h h2 (all :: strings_of ls ++ filter (fun a => a <> NULL) [t])).
  { eapply grown_perm; [|eapply grown_trans; [exact G1|exact G2]]. cbn [app]. apply perm_skip, Permutation_app_tail. symmetry. by apply names_perm. }
  destruct (free_leaks_run ls all h h2 _ H0 G3) as (h3 & -> & G4). cbn [mbind outcome_bind].
  destruct (Z.eqb_spec t NULL) as [->|Ht]; [done|]. intros [= <- <- <- <-]. split.
  - exists rs, (drop (Z.to_nat show) ls). split; [done|]. rewrite take_drop. split.
    + rewrite <- (entry_keys _ _ _ _ F1). by apply Permutation_map.
    + by apply sorted_sizes.
  - assert (Hd : forall e a, e ∈ take (Z.to_nat show) ls -> a = l_file e \/ a = l_func e -> a <> NULL -> h3 !! a = None).
    { intros e a He Ha Ha0. assert (Hs : a ∈ strings_of ls) by (apply elem_of_take in He as (i & Hi & _); eapply strings_elem; [by eapply list_elem_of_lookup_2|done..]).
      pose proof (gr_nodup _ _ _ G3) as Hn. apply NoDup_cons in Hn as [_ Hn]. apply NoDup_app in Hn as (_ & Hn & _).
      rewrite (gr_old _ _ _ G4) by (by apply Hn). destruct (gr_new _ _ _ G3 a) as (_ & ? & _); [right; rewrite elem_of_app; by left|done]. }
    apply Forall_forall. intros e He. split; intros Ha; apply (Hd e); auto.
Qed.

(** ** Concrete runs *)

(** A pool with one block from the system (6 MiB) and one small one. *)
Definition snap_run : outcome (pool (TT := Toy.toy) * list Z) := client_run (Toy.demo_pool 0 0, []) [Ask 6291456; Ask 40].
Definition snap_state : pool (TT := Toy.toy) * list Z := done_or (Toy.demo_pool 0 0, []) snap_run.
Definition snap_pool : pool (TT := Toy.toy) := snap_state.1.
Definition snap_blocks : list Z := snap_state.2.

Lemma snap_ok : front_ok snap_pool snap_blocks.
Proof.
  destruct (client_run_ok (Toy.demo_pool 0 0) [] [Ask 6291456; Ask 40]) as (p' & L' & E & F & _);
    [by apply Toy.demo_ok|apply Toy.demo_table|done|repeat constructor; cbn; unfold SIZEOF_HEADER; lia|].
  unfold snap_pool, snap_blocks, snap_state, snap_run. rewrite E. exact F.
Qed.

(** The C strings of the program: "a.c" at 7. *)
Definition snap_str (a : Z) : list Z := if a =? 7 then [97; 46; 99] else [].

Lemma snap_str_ok a : Forall (fun b => b <> 0) (snap_str a).
Proof. unfold snap_str. destruct (a =? 7); repeat constructor; lia. Qed.

Definition eight_blocks : calls := [Some 11; Some 12; Some 13; Some 14; Some 15; Some 16; Some 17; Some 18].

Lemma eight_fresh : fresh_answers (∅ : mheap) eight_blocks.
Proof. split; apply (bool_decide_unpack _); vm_compute; exact I. Qed.

Lemma eight_plenty n : (n <= 8)%nat -> plenty n eight_blocks.
Proof. intros H. split; [done|]. repeat constructor; eauto. Qed.

Lemma snapshot_roundtrip_witness :
  length snap_blocks = 2%nat /\ acceptable snap_pool snap_blocks = true /\
  exists file r s, mp_export_binary_snapshot true snap_str snap_pool = Done (Some file) /\
    cmem_analyze_read_leaks (Some file) (∅, eight_blocks) = (r, s) /\
    exists arr l, r = Some (arr, l) /\ Forall2 (fun x e => exists hd, describes snap_str snap_pool s.1 x hd e) snap_blocks l.
Proof.
  split; [vm_compute; exact eq_refl|]. assert (A : acceptable snap_pool snap_blocks = true) by (vm_compute; exact eq_refl). split; [exact A|].
  destruct (snapshot_roundtrip snap_str snap_pool snap_blocks ∅ eight_blocks snap_ok snap_str_ok eight_fresh) as (file & r & s & E1 & E2 & H).
  - apply eight_plenty. vm_compute. lia.
  - exists file, r, s. rewrite A in H. split; [exact E1|]. split; [exact E2|exact H].
Defined.

Lemma diff_agree_witness :
  exists fa fb d cs', mp_export_binary_snapshot true snap_str snap_pool = Done (Some fa) /\ mp_export_binary_snapshot true snap_str snap_pool = Done (Some fb) /\
    cmem_analyze_diff (Some fa) (Some fb) (∅, eight_blocks) = Done (Some d, (∅, cs')) /\
    mp_diff_snapshots (Some fa) (Some fb) true = Done (Some (new_leaks d, total_new_bytes d)).
Proof.
  assert (A : acceptable snap_pool snap_blocks = true) by (vm_compute; exact eq_refl).
  apply (diff_agree snap_str snap_pool snap_blocks snap_pool snap_blocks ∅ eight_blocks snap_ok snap_ok A A eight_fresh).
  apply eight_plenty. vm_compute. lia.
Defined.

(** Three records, written by hand: the second and third share a source file. *)
Definition rec_of (addr size : Z) (name : list Z) : snapshot_record := SRecord addr size 1 10 (fixed_string name) (replicate 64 0).
Definition dump (l : list snapshot_record) : list Z := snapshot_file (SHeader CMEM_SNAPSHOT_MAGIC 1 4096 60 (zlen l)) l.
Definition dump_a : list Z := dump [rec_of 4248 10 []; rec_of 4448 20 [97; 46; 99]].
Definition dump_b : list Z := dump [rec_of 4448 20 [97; 46; 99]; rec_of 4648 30 [97; 46; 99]].

Lemma read_leaks_safe_witness :
  exists arr l h' cs', cmem_analyze_read_leaks (Some dump_b) (∅, eight_blocks) = (Some (arr, l), (h', cs')) /\ zlen l = 2 /\
    cmem_analyze_free_leaks h' arr l = Done ∅.
Proof.
  assert (E : exists arr l h' cs', cmem_analyze_read_leaks (Some dump_b) (∅, eight_blocks) = (Some (arr, l), (h', cs')) /\ zlen l = 2).
  { do 4 eexists. split; [vm_compute; exact eq_refl|exact eq_refl]. }
  destruct E as (arr & l & h' & cs' & E & Hl). exists arr, l, h', cs'. split; [exact E|]. split; [exact Hl|].
  destruct (read_leaks_safe (Some dump_b) ∅ eight_blocks (Some (arr, l)) h' cs' eight_fresh E) as (_ & _ & _ & H). exact H.
Defined.

Lemma analyze_diff_spec_witness :
  exists d cs', cmem_analyze_diff (Some dump_a) (Some dump_b) (∅, eight_blocks) = Done (Some d, (∅, cs')) /\ new_leaks d = 1 /\ fixed_leaks d = 1 /\ net_leak_bytes d = 20.
Proof.
  destruct (analyze_diff_spec (Some dump_a) (Some dump_b) ∅ eight_blocks eight_fresh) as (d & cs' & E & H1 & _ & H2 & _ & H3).
  - vm_compute; exact eq_refl.
  - vm_compute; exact eq_refl.
  - apply eight_plenty. vm_compute. lia.
  - exists d, cs'. split; [exact E|]. split; [rewrite H1; vm_compute; exact eq_refl|]. split; [rewrite H2; vm_compute; exact eq_refl|].
    rewrite H3; [vm_compute; exact eq_refl| |]; apply (bool_decide_unpack _); vm_compute; exact I.
Defined.

(** One implementation of [qsort]. *)
Definition toy_qsort (cmp : leak_entry -> leak_entry -> Z) (l : list leak_entry) : list leak_entry :=
  merge_sort (fun a b => cmp a b <= 0) (H := fun a b => decide (cmp a b <= 0)) l.

#[export] Instance compare_total : Total (fun a b => compare_leaks_by_size_desc a b <= 0).
Proof.
  intros a b. unfold compare_leaks_by_size_desc. destruct (Z.ltb_spec (l_size b) (l_size a)); [left; lia|].
  destruct (Z.ltb_spec (l_size a) (l_size b)); [right|left]; lia.
Qed.

#[export] Instance compare_trans : Transitive (fun a b => compare_leaks_by_size_desc a b <= 0).
Proof.
  assert (H : forall a b, compare_leaks_by_size_desc a b <= 0 <-> l_size b <= l_size a).
  { intros a b. unfold compare_leaks_by_size_desc. destruct (Z.ltb_spec (l_size b) (l_size a)); [lia|]. destruct (Z.ltb_spec (l_size a) (l_size b)); lia. }
  intros a b c. rewrite !H. lia.
Qed.

Lemma toy_sorts : sorts toy_qsort.
Proof. intros l. split; [apply merge_sort_Permutation|]. unfold toy_qsort. apply (StronglySorted_merge_sort (fun a b => compare_leaks_by_size_desc a b <= 0)). Qed.

Lemma top_leaks_dangling_witness :
  exists top l h' cs', cmem_analyze_top_leaks toy_qsort (Some dump_b) 1 (∅, eight_blocks) = Done (Some (top, l), (h', cs')) /\
    map l_size l = [30] /\ map l_file l = [13] /\ h' !! 13 = None.
Proof.
  assert (E : exists top l h' cs', cmem_analyze_top_leaks toy_qsort (Some dump_b) 1 (∅, eight_blocks) = Done (Some (top, l), (h', cs')) /\
    map l_size l = [30] /\ map l_file l = [13]).
  { do 4 eexists. split; [vm_compute; exact eq_refl|split; exact eq_refl]. }
  destruct E as (top & l & h' & cs' & E & H1 & H2). exists top, l, h', cs'. split; [exact E|]. split; [exact H1|]. split; [exact H2|].
  destruct (top_leaks_dangling toy_qsort (Some dump_b) 1 ∅ eight_blocks top l h' cs' toy_sorts eight_fresh E) as (_ & H).
  destruct l as [|e l]; [discriminate H2|]. injection H2 as H2 _. apply Forall_cons in H as [[H _] _]. rewrite H2 in H. apply H. discriminate.
Defined.
