(* ===== verification/Report.v ===== *)
(** * Reports about a pool

    [src/cmem_diag.c]: the leak report and what is built on it, the heap audit, the HTML,
    JSON and Prometheus exports, the histogram, and the reader of binary snapshots.  The
    texts are given character by character; a report buffer is a list of bytes, a file or
    a stream the list of what is written to it. *)
From S2P Require Import Prelude Text Header Dll SizeClass Front FrontSpec FrontProps Snapshot.
From Stdlib Require Import ZArith Lia String.
From Stdlib Require Import Floats.SpecFloat.
From stdpp Require Import base option list gmap.
Open Scope Z_scope.

Definition CMEM_BYTES_PER_KIB : spec_float := of_int 1024.
Definition CMEM_NSEC_PER_SEC : spec_float := of_int 1000000000.
Definition CMEM_MIN_ELAPSED_SEC : spec_float := ddiv (of_int 1) (of_int 1000000).
Definition CMEM_HISTOGRAM_BAR_WIDTH : Z := 20.
Definition CMEM_LEAK_WARNING_BYTES : Z := 100 * 1024.

Definition kib (n : Z) : list Z := fixed 2 (ddiv (of_int n) CMEM_BYTES_PER_KIB).

(** ** Printing piece by piece *)

(** [offset += snprintf(buf + offset, max_len - offset, ...)] on (offset, buffer). *)
Definition print (max_len : Z) (st : Z * list Z) (text : list Z) : outcome (Z * list Z) :=
  r ← snprintf st.2 st.1 (u64 (max_len - st.1)) text;
  let '(n, buf) := r in Done (u64 (st.1 + n), buf).

(** The same, only while there is room. *)
Definition print_avail (max_len : Z) (st : Z * list Z) (text : list Z) : outcome (Z * list Z) :=
  if st.1 <? max_len then print max_len st text else Done st.

Fixpoint print_each (max_len : Z) (st : Z * list Z) (texts : list (list Z)) : outcome (Z * list Z) :=
  match texts with [] => Done st | t :: ts => st ← print_avail max_len st t; print_each max_len st ts end.

(** [%X] *)
Definition hex_upper (n : Z) : list Z := map (fun c => if 97 <=? c then c - 32 else c) (hex n).

(** A literal with its double quotes written as back quotes. *)
Definition bq (s : string) : list Z := map (fun c => if c =? 96 then 34 else c) (bs s).

(** [%-ns] and the like. *)
Definition padr (n : nat) (l : list Z) : list Z := l ++ replicate (n - length l) 32.

(** The value of a conversion to [int]. *)
Definition c_int (z : Z) : Z := let m := z mod 2 ^ 32 in if m <? 2 ^ 31 then m else m - 2 ^ 32.

(** ** Grading a leak *)

Record mp_allocation_info := AllocInfo {
  i_ptr : Z; i_requested_size : Z; i_usable_size : Z; i_alloc_type : Z; i_slab_class : Z; i_raw_base : Z;
  i_alloc_file : Z; i_alloc_line : Z; i_alloc_func : Z; i_backtrace_depth : Z;
}.

Inductive mp_leak_severity := MP_LEAK_SEVERITY_CRITICAL | MP_LEAK_SEVERITY_WARNING | MP_LEAK_SEVERITY_INFO.

Definition mp_get_leak_severity (info : option mp_allocation_info) : mp_leak_severity :=
  match info with
  | None => MP_LEAK_SEVERITY_INFO
  | Some info =>
      if 1024 * 1024 <? i_requested_size info then MP_LEAK_SEVERITY_CRITICAL
      else if CMEM_LEAK_WARNING_BYTES <=? i_requested_size info then MP_LEAK_SEVERITY_WARNING
      else MP_LEAK_SEVERITY_INFO
  end.

Record mp_leak_pattern := LeakPattern { pattern_name : string; confidence : Z; suggestion : string }.

Definition mp_analyze_leak_pattern (info : option mp_allocation_info) : mp_leak_pattern :=
  match info with
  | None => LeakPattern "unknown" 0 "Provide valid allocation info"
  | Some info =>
      if 64 * 1024 <? i_requested_size info then LeakPattern "large_buffer_leak" 85 "Check for missing free() on large allocations"
      else if (i_requested_size info <? 256) && (0 <? i_slab_class info)
      then LeakPattern "repeated_small_leak" 70 "Check for allocations in loops without corresponding free()"
      else if negb (i_alloc_file info =? NULL) && negb (i_alloc_func info =? NULL)
      then LeakPattern "string_allocation_leak" 60 "Check mp_strdup/mp_memdup calls for missing free()"
      else LeakPattern "generic_leak" 50 "Review allocation"
  end.

(** ** Statistics *)

(** What the reports read of a pool beside [Front.pool].  [window_start] is
    [window_start_time], seconds and nanoseconds. *)
Record observed := Observed { arena_name : list Z; slab_allocated_bytes : Z; tlsf_allocated_bytes : Z; window_start : Z * Z }.

Record mp_stats := Stats {
  st_total_pool_size : Z; st_active_bytes : Z; st_peak_bytes : Z; st_max_memory_limit : Z;
  st_active_allocations : Z; st_total_alloc_ops : Z; st_total_free_ops : Z;
  st_slab_bytes : Z; st_tlsf_bytes : Z; st_os_bytes : Z;
  st_fragmentation : spec_float; st_qps : spec_float; st_bandwidth : spec_float;
  st_histogram : list Z;
}.

(** ** The library's own snapshot reader *)

(** A %s of the character array at offset [i] of a record.  Without a terminator printf reads
    on: up to the end of the record, and past it after that. *)
Definition field_string (rec : list Z) (i : nat) : outcome (list Z) :=
  let s := drop i rec in if forallb (fun b => negb (b =? 0)) s then Fault else Done (until_nul s).

(** [rec.alloc_file[0] ? rec.alloc_file : "unknown"]. *)
Definition field_name (rec : list Z) (i : nat) : outcome (list Z) :=
  b ← rd rec (Z.of_nat i);
  if b =? 0 then Done (bs "unknown") else field_string rec i.

Definition snapshot_text (h : snapshot_header) : list Z :=
  bs "=================== CMEM BINARY SNAPSHOT DUMP PARSER ===================" ++ NL ++
  bs "  Format Version     : " ++ dec (sh_version h) ++ NL ++
  bs "  Total Pool Size    : " ++ dec (sh_total h) ++ bs " bytes" ++ NL ++
  bs "  Active Payload B   : " ++ dec (sh_bytes h) ++ bs " bytes" ++ NL ++
  bs "  Active Allocations : " ++ dec (sh_allocs h) ++ bs " blocks" ++ NL ++
  bs "========================================================================" ++ NL.

Definition record_tier (r : snapshot_record) : list Z :=
  if r_type r =? ALLOC_TYPE_SLAB then bs "SLAB" else if r_type r =? ALLOC_TYPE_TLSF then bs "TLSF" else bs "DIRECT OS".

Definition record_line (idx : Z) (r : snapshot_record) (file func : list Z) : list Z :=
  bs "[Record #" ++ dec idx ++ bs "] Addr: 0x" ++ hex (r_address r) ++ bs " | Size: " ++ dec (r_size r) ++ bs " B | Tier: " ++ record_tier r ++
  bs " | Location: " ++ file ++ bs ":" ++ dec (r_line r) ++ bs " (" ++ func ++ bs ")" ++ NL.

(** [while (fread(&rec, sizeof(rec), 1, fp) == 1 && offset < max_len)] *)
Fixpoint parse_loop (fuel : nat) (f : list Z) (max_len : Z) (st : Z * list Z) (idx : Z) : outcome (Z * list Z) :=
  match fuel with
  | O => Fault
  | S fuel =>
      match fread SIZEOF_SNAPSHOT_RECORD f with
      | Some (rec, f) =>
          if st.1 <? max_len then
            file ← field_name rec 24;
            func ← field_name rec 88;
            st ← print max_len st (record_line idx (record_of_bytes rec) file func);
            parse_loop fuel f max_len st (u64 (idx + 1))
          else Done st
      | None => Done st
      end
  end.

(** [None] for a file that cannot be opened.  The verdict and the buffer. *)
Definition mp_parse_binary_snapshot (file : option (list Z)) (out_report : list Z) (max_len : Z) : outcome (bool * list Z) :=
  if max_len =? 0 then Done (false, out_report)
  else
    match file with
    | None => Done (false, out_report)
    | Some f =>
        match fread SIZEOF_SNAPSHOT_HEADER f with
        | None => Done (false, out_report)
        | Some (h, f) =>
            let hdr := header_of_bytes h in
            if negb (sh_magic hdr =? CMEM_SNAPSHOT_MAGIC) then Done (false, out_report)
            else
              st ← print max_len (0, out_report) (snapshot_text hdr);
              st ← parse_loop (S (length f)) f max_len st 1;
              Done (true, st.2)
        end
    end.

(** A name as the report shows it. *)
Definition shown (s : list Z) : list Z := match s with [] => bs "unknown" | _ => take 63 s end.

Lemma fixed_field s r : printable s -> field_name (fixed_string s ++ r) 0 = Done (shown s).
Proof.
  intros Hs. unfold field_name, shown, field_string. destruct s as [|b s]; [done|]. inversion Hs as [|? ? Hb Hs']; subst.
  assert (E : exists k, fixed_string (b :: s) = take 63 (b :: s) ++ 0 :: replicate k 0).
  { unfold fixed_string. exists (64 - Nat.min 63 (length (b :: s)) - 1)%nat. f_equal.
    by replace (64 - Nat.min 63 (length (b :: s)))%nat with (S (64 - Nat.min 63 (length (b :: s)) - 1)) at 1 by lia. }
  destruct E as [k ->]. rewrite <- app_assoc. cbn [take app].
  change (rd (b :: (take 62 s ++ 0 :: replicate k 0 ++ r)) (Z.of_nat 0)) with (Done b). cbn [mbind outcome_bind].
  rewrite (proj2 (Z.eqb_neq b 0)) by done. rewrite drop_0. cbn [forallb]. rewrite forallb_app. cbn [forallb Z.eqb negb andb]. rewrite !andb_false_r.
  f_equal. apply (until_nul_printable (b :: take 62 s)). constructor; [done|]. by apply Forall_take.
Qed.

Lemma field_at (a b : list Z) i : length a = i -> field_name (a ++ b) i = field_name b 0.
Proof.
  intros <-. unfold field_name, field_string. rewrite drop_app_length, drop_0. unfold rd. cbn [Z.of_nat Z.ltb Z.compare]. rewrite (proj2 (Z.ltb_ge _ 0)) by lia.
  rewrite Nat2Z.id, lookup_app_r by lia. by rewrite Nat.sub_diag.
Qed.

Lemma field_name_done rec i : field_name rec i <> Err.
Proof. unfold field_name, field_string, rd. destruct (_ <? 0); [done|]. destruct (_ !! _); cbn [mbind outcome_bind]; [|done]. by repeat case_match. Qed.

Section Report.
Context `{TT : Tiers}.

(** [str a] is the C string at address [a]; [symbols h] what [backtrace_symbols] makes of the
    call stack kept in the header at [h], when it can. *)
Context (str : Z -> list Z) (symbols : Z -> option (Z -> list Z)).

Definition or_else (a : Z) (default : string) : list Z := if a =? NULL then bs default else str a.

Definition tier_str (hd : mp_block_header) : list Z :=
  if alloc_type hd =? ALLOC_TYPE_SLAB then bs "SLAB" else if alloc_type hd =? ALLOC_TYPE_TLSF then bs "TLSF" else bs "DIRECT OS".

(** ** The leak report *)

Definition leak_header (p : pool) : list Z :=
  bs "=================== DETAILED MEMORY LEAK ANALYSIS REPORT ===================" ++ NL ++
  bs "  Total Managed System Memory: " ++ dec (total_pool_size (ac p)) ++ bs " bytes (" ++ kib (total_pool_size (ac p)) ++ bs " KB)" ++ NL ++
  bs "  Active Leaked Allocations  : " ++ dec (active_allocations (ac p)) ++ bs " blocks" ++ NL ++
  bs "  Total Leaked Payload Bytes : " ++ dec (active_bytes (ac p)) ++ bs " bytes (" ++ kib (active_bytes (ac p)) ++ bs " KB)" ++ NL ++
  bs "============================================================================" ++ NL.

Definition no_leaks : list Z := bs "  No memory leaks detected! Clean execution." ++ NL.

Definition leak_line (idx h : Z) (hd : mp_block_header) : list Z :=
  NL ++ bs "[Leak #" ++ dec idx ++ bs "] Address: " ++ ptr (h + SIZEOF_HEADER) ++ bs " | Payload Size: " ++ dec (requested_size hd) ++
  bs " bytes | Tier: " ++ tier_str hd ++ NL.

Definition location_line (hd : mp_block_header) : list Z :=
  if alloc_file hd =? NULL
  then bs "  Source Location : (Location tracking disabled, enable MP_FLAG_TRACK_LOCATIONS)" ++ NL
  else bs "  Source Location : " ++ str (alloc_file hd) ++ bs ":" ++ sdec (alloc_line hd) ++ bs " (function '" ++ or_else (alloc_func hd) "unknown" ++ bs "')" ++ NL.

Definition frame_line (h frame : Z) : list Z :=
  bs "    #" ++ sdec frame ++ bs " " ++ match symbols h with Some s => s frame | None => bs "unknown" end ++ NL.

Definition stack_lines (h : Z) (hd : mp_block_header) : list (list Z) :=
  if 0 <? backtrace_depth hd
  then (bs "  Callstack Frames:" ++ NL) :: map (frame_line h) (seqZ 0 (backtrace_depth hd))
  else [].

Fixpoint leak_walk (fuel : nat) (p : pool) (max_len : Z) (st : Z * list Z) (curr idx : Z) : outcome (Z * list Z) :=
  match fuel with
  | O => Fault
  | S fuel =>
      if (curr =? NULL) || negb (st.1 <? max_len) then Done st
      else
        hd ← ld_hdr p curr;
        st ← print_avail max_len st (leak_line idx curr hd);
        st ← print_avail max_len st (location_line hd);
        st ← print_each max_len st (stack_lines curr hd);
        n ← ld (nxt (alinks p)) curr;
        leak_walk fuel p max_len st n (u64 (idx + 1))
  end.

(** A non-null buffer [buf] is passed with [max_len], which may be less than what it holds. *)
Definition mp_analyze_leaks (p : pool) (buf : list Z) (max_len : Z) : outcome (Z * list Z) :=
  if max_len =? 0 then Done (0, buf)
  else
    st ← print max_len (0, buf) (leak_header p);
    if active_allocations (ac p) =? 0 then print max_len st no_leaks
    else leak_walk (S (base.size (nxt (alinks p)))) p max_len st (active_head p) 1.

(** [char buffer[16384]], with whatever the stack holds; [None] is [false]. *)
Definition mp_export_leak_report (p : pool) (buffer : list Z) (opened : bool) : outcome (option (list Z)) :=
  r ← mp_analyze_leaks p buffer 16384;
  let '(report_len, buffer) := r in
  if negb opened then Done None
  else if zlen buffer <? report_len then Fault
  else Done (Some (take (Z.to_nat report_len) buffer)).

(** The verdict, and what is printed.  [arena_name] is the name of the pool. *)
Definition mp_check_leaks (p : pool) (compressed_area : Z) (arena_name report : list Z) : outcome (bool * list Z) :=
  let expected_internal := if compressed_area =? NULL then 0 else 1 in
  if negb (active_allocations (ac p) =? expected_internal) then
    r ← mp_analyze_leaks p report 4096;
    Done (false, until_nul r.2 ++ NL)
  else Done (true, bs "[CMEM HEALTH] No memory leaks detected in [" ++ arena_name ++ bs "]. All memory safely freed!" ++ NL).

(** ** The audit *)

Definition magic_complaint (h : Z) (hd : mp_block_header) : list Z :=
  bs "[HEAP AUDIT ERROR] Corrupted header magic at " ++ ptr (h + SIZEOF_HEADER) ++ bs "! (Found: 0x" ++ hex_upper (magic hd) ++
  bs ", Expected: 0x" ++ hex_upper MP_MAGIC_HEAD ++ bs ")" ++ NL.

Definition canary_complaint (h : Z) (hd : mp_block_header) : list Z :=
  bs "[HEAP AUDIT ERROR] Redzone canary corruption at " ++ ptr (h + SIZEOF_HEADER) ++ bs "! (Size: " ++ dec (requested_size hd) ++
  bs ", Source: " ++ or_else (alloc_file hd) "unknown" ++ bs ":" ++ sdec (alloc_line hd) ++ bs " in " ++ or_else (alloc_func hd) "unknown" ++ bs ")" ++ NL.

Definition audit_block (p : pool) (h : Z) (hd : mp_block_header) : bool * list Z :=
  let bad_magic := negb (magic hd =? MP_MAGIC_HEAD) in
  let bad_canary := on p MP_FLAG_DEBUG_CANARY && negb (mem p (h + SIZEOF_HEADER + requested_size hd) =? MP_CANARY_BYTE) in
  (negb bad_magic && negb bad_canary,
   (if bad_magic then magic_complaint h hd else []) ++ (if bad_canary then canary_complaint h hd else [])).

Fixpoint audit_walk (fuel : nat) (p : pool) (curr : Z) (healthy : bool) (err : list Z) : outcome (bool * list Z) :=
  match fuel with
  | O => Fault
  | S fuel =>
      if curr =? NULL then Done (healthy, err)
      else
        hd ← ld_hdr p curr;
        let '(ok, msg) := audit_block p curr hd in
        n ← ld (nxt (alinks p)) curr;
        audit_walk fuel p n (healthy && ok) (err ++ msg)
  end.

(** The verdict and what goes to standard error. *)
Definition mp_audit_heap (p : pool) : outcome (bool * list Z) :=
  if on p MP_FLAG_FAST_PATH then Done (true, [])
  else audit_walk (S (base.size (nxt (alinks p)))) p (active_head p) true [].

(** [now] is the monotonic clock. *)
Definition mp_get_stats (p : pool) (o : observed) (now : Z * Z) : mp_stats * observed :=
  let a := ac p in
  let total_sys := if 0 <? total_pool_size a then total_pool_size a else 1 in
  let window := if (window_start o).1 =? 0 then now else window_start o in
  let elapsed := dadd (of_int (now.1 - window.1)) (ddiv (of_int (now.2 - window.2)) CMEM_NSEC_PER_SEC) in
  let mb := ddiv (of_int (active_bytes a)) (dmul CMEM_BYTES_PER_KIB CMEM_BYTES_PER_KIB) in
  let '(qps, bandwidth) :=
    if SFltb CMEM_MIN_ELAPSED_SEC elapsed && (0 <? total_alloc_ops a)
    then (ddiv (of_int (total_alloc_ops a)) elapsed, ddiv mb elapsed)
    else (of_int (total_alloc_ops a), mb) in
  (Stats (total_pool_size a) (active_bytes a) (peak_bytes a) (max_memory_limit (cf p))
     (active_allocations a) (total_alloc_ops a) (total_free_ops a)
     (slab_allocated_bytes o) (tlsf_allocated_bytes o) (os_allocated_bytes a)
     (dsub (of_int 1) (ddiv (of_int (active_bytes a)) (of_int total_sys))) qps bandwidth (size_histogram a),
   Observed (arena_name o) (slab_allocated_bytes o) (tlsf_allocated_bytes o) window).

Definition bar_str (count max_count : Z) : outcome (list Z) :=
  let bar_len := if 0 <? max_count then c_int (u64 (count * CMEM_HISTOGRAM_BAR_WIDTH) / max_count) else 0 in
  if (0 <=? bar_len) && (bar_len <=? CMEM_HISTOGRAM_BAR_WIDTH) then Done (replicate (Z.to_nat bar_len) 42) else Fault.

Definition labels : list string :=
  ["<= 16 B       "; "17 B - 32 B    "; "33 B - 64 B    "; "65 B - 128 B   "; "129 B - 256 B  "; "257 B - 512 B  ";
   "513 B - 1 KB   "; "1 KB - 2 KB    "; "2 KB - 4 KB    "; "4 KB - 8 KB    "; "8 KB - 16 KB   "; "16 KB - 32 KB  ";
   "32 KB - 64 KB  "; "64 KB - 512 KB "; "512 KB - 4 MB  "; "> 4 MB         "]%string.

Fixpoint histogram_lines (hist : list Z) (max_count : Z) (todo : list Z) : outcome (list Z) :=
  match todo with
  | [] => Done []
  | i :: todo =>
      count ← rd hist i;
      line ← (if count =? 0 then Done []
              else
                bar ← bar_str count max_count;
                label ← rd labels i;
                Done (bs "  Bucket " ++ padr 2 (sdec i) ++ bs " [" ++ bs label ++ bs "] : " ++ padr 8 (dec count) ++ bs " [" ++ padr 20 bar ++ bs "]" ++ NL));
      rest ← histogram_lines hist max_count todo;
      Done (line ++ rest)
  end.

Definition mp_dump_histogram (p : pool) (o : observed) (now : Z * Z) : outcome (list Z) :=
  let hist := st_histogram (mp_get_stats p o now).1 in
  let max_count := foldl Z.max 0 (take (Z.to_nat CMEM_HISTOGRAM_BUCKETS) hist) in
  lines ← histogram_lines hist max_count (seqZ 0 CMEM_HISTOGRAM_BUCKETS);
  Done (NL ++ bs "================ ALLOCATION SIZE HISTOGRAM [" ++ arena_name o ++ bs "] ================" ++ NL ++ lines ++
        bs "=========================================================================" ++ NL ++ NL).

(** What both exports end with. *)
Definition sized_export (buf : list Z) (max_len : Z) (text : list Z) : outcome (Z * list Z) :=
  r ← snprintf buf 0 max_len text;
  let '(len, buf) := r in Done (if (0 <? len) && (len <? max_len) then len else max_len - 1, buf).

Definition json_field (name : string) (value : list Z) : list Z := bs "  " ++ QUOTE ++ bs name ++ QUOTE ++ bs ": " ++ value.

Definition json_text (o : observed) (s : mp_stats) : list Z :=
  bs "{" ++ NL ++
  json_field "arena_name" (QUOTE ++ arena_name o ++ QUOTE) ++ bs "," ++ NL ++
  json_field "total_pool_size" (dec (st_total_pool_size s)) ++ bs "," ++ NL ++
  json_field "active_bytes" (dec (st_active_bytes s)) ++ bs "," ++ NL ++
  json_field "peak_bytes" (dec (st_peak_bytes s)) ++ bs "," ++ NL ++
  json_field "max_memory_limit" (dec (st_max_memory_limit s)) ++ bs "," ++ NL ++
  json_field "active_allocations" (dec (st_active_allocations s)) ++ bs "," ++ NL ++
  json_field "total_alloc_ops" (dec (st_total_alloc_ops s)) ++ bs "," ++ NL ++
  json_field "total_free_ops" (dec (st_total_free_ops s)) ++ bs "," ++ NL ++
  json_field "slab_allocated_bytes" (dec (st_slab_bytes s)) ++ bs "," ++ NL ++
  json_field "tlsf_allocated_bytes" (dec (st_tlsf_bytes s)) ++ bs "," ++ NL ++
  json_field "os_allocated_bytes" (dec (st_os_bytes s)) ++ bs "," ++ NL ++
  json_field "fragmentation_ratio" (fixed 4 (st_fragmentation s)) ++ NL ++
  bs "}".

Definition mp_dump_json_stats (p : pool) (o : observed) (now : Z * Z) (buf : list Z) (max_len : Z) : outcome (Z * list Z * observed) :=
  if max_len =? 0 then Done (0, buf, o)
  else
    let '(s, o) := mp_get_stats p o now in
    r ← sized_export buf max_len (json_text o s);
    Done (r, o).

Definition metric (name help kind : string) (arena value : list Z) : list Z :=
  bs "# HELP " ++ bs name ++ bs " " ++ bs help ++ NL ++ bs "# TYPE " ++ bs name ++ bs " " ++ bs kind ++ NL ++
  bs name ++ bq "{arena=`" ++ arena ++ bq "`} " ++ value ++ NL.

Definition prometheus_text (o : observed) (s : mp_stats) : list Z :=
  metric "cmem_total_pool_bytes" "Total reserved bytes from OS." "gauge" (arena_name o) (dec (st_total_pool_size s)) ++ NL ++
  metric "cmem_active_bytes" "Currently allocated active payload bytes." "gauge" (arena_name o) (dec (st_active_bytes s)) ++ NL ++
  metric "cmem_active_allocations" "Active outstanding allocation count." "gauge" (arena_name o) (dec (st_active_allocations s)) ++ NL ++
  metric "cmem_alloc_ops_total" "Cumulative count of allocation operations." "counter" (arena_name o) (dec (st_total_alloc_ops s)) ++ NL ++
  metric "cmem_alloc_qps" "Real-time allocation QPS rate." "gauge" (arena_name o) (fixed 2 (st_qps s)) ++ NL ++
  metric "cmem_bandwidth_mbps" "Real-time allocation bandwidth throughput in MB/s." "gauge" (arena_name o) (fixed 2 (st_bandwidth s)) ++ NL ++
  metric "cmem_fragmentation_ratio" "Memory fragmentation ratio (0.0 to 1.0)." "gauge" (arena_name o) (fixed 4 (st_fragmentation s)).

Definition mp_export_prometheus_metrics (p : pool) (o : observed) (now : Z * Z) (buf : list Z) (max_len : Z) : outcome (Z * list Z * observed) :=
  if max_len =? 0 then Done (0, buf, o)
  else
    let '(s, o) := mp_get_stats p o now in
    r ← sized_export buf max_len (prometheus_text o s);
    Done (r, o).

Definition mp_dump_info (p : pool) (o : observed) (now : Z * Z) : list Z * observed :=
  let '(s, o) := mp_get_stats p o now in
  (NL ++ bs "================ CMEM DIAGNOSTICS DUMP [" ++ arena_name o ++ bs "] ================" ++ NL ++
   bs "  Total System Reserved Memory: " ++ dec (st_total_pool_size s) ++ bs " bytes (" ++ kib (st_total_pool_size s) ++ bs " KB)" ++ NL ++
   bs "  Current Active Allocations  : " ++ dec (st_active_allocations s) ++ bs " blocks, " ++ dec (st_active_bytes s) ++ bs " bytes (" ++
     kib (st_active_bytes s) ++ bs " KB)" ++ NL ++
   bs "  Peak Memory Allocation      : " ++ dec (st_peak_bytes s) ++ bs " bytes (" ++ kib (st_peak_bytes s) ++ bs " KB)" ++ NL ++
   bs "  Max Memory Budget Limit     : " ++ dec (st_max_memory_limit s) ++ bs " bytes (" ++
     bs (if 0 <? st_max_memory_limit s then "Enforced" else "Unlimited") ++ bs ")" ++ NL ++
   bs "  Estimated Fragmentation     : " ++ fixed 2 (dmul (st_fragmentation s) (of_int 100)) ++ bs "%" ++ NL ++
   bs "  Real-time Alloc Rate (QPS)  : " ++ fixed 2 (st_qps s) ++ bs " ops/sec" ++ NL ++
   bs "  Real-time Bandwidth         : " ++ fixed 2 (st_bandwidth s) ++ bs " MB/sec" ++ NL ++
   bs "  Cumulative Stats            : " ++ dec (st_total_alloc_ops s) ++ bs " Allocations, " ++ dec (st_total_free_ops s) ++ bs " Frees" ++ NL ++
   bs "  Allocation Tier Breakdown   :" ++ NL ++
   bs "    - Slab Pool (Small <=512B): " ++ dec (st_slab_bytes s) ++ bs " bytes" ++ NL ++
   bs "    - TLSF Pool (Med <=4MB)   : " ++ dec (st_tlsf_bytes s) ++ bs " bytes" ++ NL ++
   bs "    - Direct OS (Large >4MB)  : " ++ dec (st_os_bytes s) ++ bs " bytes" ++ NL ++
   bs "==============================================================" ++ NL ++ NL, o).

(** ** The HTML report *)

Definition html_style : list Z :=
  bs "<style>" ++ NL ++
  bs "  body { font-family: 'Inter', system-ui, sans-serif; background: #0f172a; color: #f8fafc; margin: 0; padding: 2rem; }" ++ NL ++
  bs "  .container { max-width: 1100px; margin: 0 auto; }" ++ NL ++
  bs "  h1 { color: #38bdf8; font-size: 2rem; border-bottom: 2px solid #334155; padding-bottom: 0.5rem; }" ++ NL ++
  bs "  .cards { display: grid; grid-template-columns: repeat(4, 1fr); gap: 1rem; margin: 1.5rem 0; }" ++ NL ++
  bs "  .card { background: #1e293b; padding: 1.2rem; border-radius: 10px; border: 1px solid #334155; box-shadow: 0 4px 6px -1px rgba(0,0,0,0.3); }" ++ NL ++
  bs "  .card h3 { margin: 0; font-size: 0.85rem; color: #94a3b8; text-transform: uppercase; }" ++ NL ++
  bs "  .card .val { font-size: 1.6rem; font-weight: bold; color: #38bdf8; margin-top: 0.4rem; }" ++ NL ++
  bs "  .progress-bar { background: #334155; height: 24px; border-radius: 12px; overflow: hidden; display: flex; margin: 1.5rem 0; }" ++ NL ++
  bs "  .bar-slab { background: #10b981; text-align: center; font-size: 0.8rem; line-height: 24px; color: #fff; }" ++ NL ++
  bs "  .bar-tlsf { background: #6366f1; text-align: center; font-size: 0.8rem; line-height: 24px; color: #fff; }" ++ NL ++
  bs "  .bar-os { background: #f59e0b; text-align: center; font-size: 0.8rem; line-height: 24px; color: #fff; }" ++ NL ++
  bs "  table { width: 100%; border-collapse: collapse; background: #1e293b; border-radius: 8px; overflow: hidden; margin-top: 1rem; }" ++ NL ++
  bs "  th, td { padding: 0.8rem 1rem; text-align: left; border-bottom: 1px solid #334155; }" ++ NL ++
  bs "  th { background: #334155; color: #cbd5e1; font-weight: 600; }" ++ NL ++
  bs "  tr:hover { background: #334155; }" ++ NL ++
  bs "  .badge { padding: 0.25rem 0.5rem; border-radius: 4px; font-size: 0.75rem; font-weight: bold; }" ++ NL ++
  bs "  .badge-slab { background: #064e3b; color: #34d399; }" ++ NL ++
  bs "  .badge-tlsf { background: #312e81; color: #818cf8; }" ++ NL ++
  bs "  .badge-os { background: #78350f; color: #fbbf24; }" ++ NL ++
  bs "</style>" ++ NL ++ bs "</head>" ++ NL ++ bs "<body>" ++ NL.

Definition html_card (title : string) (value : list Z) : list Z :=
  bq "    <div class=`card`><h3>" ++ bs title ++ bq "</h3><div class=`val`>" ++ value ++ bs "</div></div>" ++ NL.

Definition html_head (s : mp_stats) : list Z :=
  bs "<!DOCTYPE html>" ++ NL ++ bq "<html lang=`en`>" ++ NL ++ bs "<head>" ++ NL ++
  bq "<meta charset=`UTF-8`>" ++ NL ++ bs "<title>cmem Profile & Leak Analysis Dashboard</title>" ++ NL ++ html_style ++
  bq "<div class=`container`>" ++ NL ++
  bs "  <h1>cmem Visual Profiler & Leak Analysis Dashboard</h1>" ++ NL ++
  bq "  <div class=`cards`>" ++ NL ++
  html_card "Total Reserved" (kib (st_total_pool_size s) ++ bs " KB") ++
  html_card "Active Payload" (kib (st_active_bytes s) ++ bs " KB") ++
  html_card "Active Blocks" (dec (st_active_allocations s)) ++
  html_card "Fragmentation" (fixed 1 (dmul (st_fragmentation s) (of_int 100)) ++ bs "%") ++
  bs "  </div>" ++ NL.

Definition html_bar (cls label : string) (percent : spec_float) : list Z :=
  bq "    <div class=`bar-" ++ bs cls ++ bq "` style=`width: " ++ fixed 1 percent ++ bq "%;`>" ++ bs label ++ bs " (" ++ fixed 1 percent ++ bs "%)</div>" ++ NL.

Definition html_tiers (s : mp_stats) : list Z :=
  let total_alloc := u64 (st_slab_bytes s + st_tlsf_bytes s + st_os_bytes s) in
  let tot := if 0 <? total_alloc then total_alloc else 1 in
  let percent n := ddiv (dmul (of_int n) (of_int 100)) (of_int tot) in
  bs "  <h2>Allocation Tier Distribution</h2>" ++ NL ++ bq "  <div class=`progress-bar`>" ++ NL ++
  html_bar "slab" "Slab" (percent (st_slab_bytes s)) ++ html_bar "tlsf" "TLSF" (percent (st_tlsf_bytes s)) ++
  html_bar "os" "OS" (percent (st_os_bytes s)) ++ bs "  </div>" ++ NL.

Definition html_table_head (s : mp_stats) : list Z :=
  bs "  <h2>Active Memory Allocations & Leak Inventory (" ++ dec (st_active_allocations s) ++ bs " Blocks)</h2>" ++ NL ++
  bs "  <table>" ++ NL ++
  bs "    <thead><tr><th>#</th><th>Address</th><th>Size</th><th>Tier</th><th>Source Location</th><th>Function</th></tr></thead>" ++ NL ++
  bs "    <tbody>" ++ NL.

Definition html_row (idx h : Z) (hd : mp_block_header) : list Z :=
  let '(badge_cls, tier_name) :=
    if alloc_type hd =? ALLOC_TYPE_SLAB then ("badge-slab", "SLAB")%string
    else if alloc_type hd =? ALLOC_TYPE_TLSF then ("badge-tlsf", "TLSF")%string else ("badge-os", "OS")%string in
  bs "      <tr><td>" ++ dec idx ++ bs "</td><td><code>" ++ ptr (h + SIZEOF_HEADER) ++ bs "</code></td><td>" ++ dec (requested_size hd) ++
  bq " B</td><td><span class=`badge " ++ bs badge_cls ++ bq "`>" ++ bs tier_name ++ bs "</span></td><td>" ++ or_else (alloc_file hd) "-" ++ bs ":" ++
  sdec (alloc_line hd) ++ bs "</td><td><code>" ++ or_else (alloc_func hd) "-" ++ bs "</code></td></tr>" ++ NL.

Fixpoint html_rows (fuel : nat) (p : pool) (curr idx : Z) : outcome (list Z) :=
  match fuel with
  | O => Fault
  | S fuel =>
      if curr =? NULL then Done []
      else
        hd ← ld_hdr p curr;
        n ← ld (nxt (alinks p)) curr;
        rest ← html_rows fuel p n (u64 (idx + 1));
        Done (html_row idx curr hd ++ rest)
  end.

Definition html_foot : list Z :=
  bs "    </tbody>" ++ NL ++ bs "  </table>" ++ NL ++ bs "</div>" ++ NL ++ bs "</body>" ++ NL ++ bs "</html>" ++ NL.

(** What is written to the file; [None] is [false]. *)
Definition mp_export_html_report (p : pool) (o : observed) (now : Z * Z) (opened : bool) : outcome (option (list Z) * observed) :=
  if negb opened then Done (None, o)
  else
    let '(s, o) := mp_get_stats p o now in
    rows ← html_rows (S (base.size (nxt (alinks p)))) p (active_head p) 1;
    Done (Some (html_head s ++ html_tiers s ++ html_table_head s ++ rows ++ html_foot), o).

(** ** What the leak report contains *)

Definition header_at (p : pool) (h : Z) : mp_block_header :=
  default (Header 0 0 0 0 0 0 0 0 0 0 0 0) (hdrs p !! h).

Fixpoint leak_lines (p : pool) (idx : Z) (L : list Z) : list (list Z) :=
  match L with
  | [] => []
  | h :: L => (leak_line idx h (header_at p h) :: location_line (header_at p h) :: stack_lines h (header_at p h)) ++ leak_lines p (u64 (idx + 1)) L
  end.

(** The whole report, were there no limit. *)
Definition leak_report (p : pool) (L : list Z) : list Z := leak_header p ++ concat (leak_lines p 1 L).

(** The values the texts are made of have the width of their C types, and names have at most
    a megabyte. *)
Record printable_pool (p : pool) (L : list Z) : Prop := {
  pp_total : 0 <= total_pool_size (ac p) < 2 ^ 64;
  pp_fields : forall h, h ∈ L -> - 2 ^ 31 <= alloc_line (header_at p h) < 2 ^ 31 /\ backtrace_depth (header_at p h) < 2 ^ 31;
  pp_names : forall a, zlen (str a) <= 2 ^ 20 /\ printable (str a);
  pp_symbols : forall h s i, symbols h = Some s -> zlen (s i) <= 2 ^ 20 /\ printable (s i);
}.

Lemma print_run b max t u : 0 < max <= zlen b -> max < 2 ^ 63 -> zlen t < max -> zlen u <= INT_MAX ->
  print max (zlen t, rendered b max t) u = Done (zlen (t ++ u), rendered b max (t ++ u)).
Proof.
  intros Hm Hx Ht Hu. unfold print. cbn [fst snd]. pose proof (zlen_nonneg t). pose proof (zlen_nonneg u). unfold INT_MAX in *. rewrite u64_small by lia.
  rewrite snprintf_append by done. cbn [mbind outcome_bind]. by rewrite u64_small, zlen_app by lia.
Qed.

Lemma print_start b max u : 0 < max <= zlen b -> max < 2 ^ 63 -> zlen u <= INT_MAX -> print max (0, b) u = Done (zlen u, rendered b max u).
Proof.
  intros Hm Hx Hu. unfold print. cbn [fst snd]. pose proof (zlen_nonneg u). unfold INT_MAX in *. rewrite Z.sub_0_r, u64_small by lia.
  rewrite snprintf_start by done. cbn [mbind outcome_bind]. by rewrite u64_small by lia.
Qed.

Lemma print_each_run b max us : 0 < max <= zlen b -> max < 2 ^ 63 -> Forall (fun u => zlen u <= INT_MAX) us ->
  forall t, print_each max (zlen t, rendered b max t) us = Done (zlen (emit max t us), rendered b max (emit max t us)).
Proof.
  intros Hm Hx. induction 1 as [|u us Hu _ IH]; intros t; [done|]. cbn [print_each emit]. unfold print_avail. cbn [fst].
  destruct (Z.ltb_spec (zlen t) max) as [Ht|Ht].
  - rewrite print_run by done. cbn [mbind outcome_bind]. apply IH.
  - cbn [mbind outcome_bind]. rewrite IH. by rewrite emit_full by done.
Qed.

Lemma tier_str_short hd : zlen (tier_str hd) <= 9 /\ printable (tier_str hd).
Proof. unfold tier_str. repeat case_match; (split; [by vm_compute|auto with text]). Qed.

Lemma or_else_short p L a s : printable_pool p L -> zlen (bs s) <= 2 ^ 20 -> zlen (or_else a s) <= 2 ^ 20.
Proof. intros H Hs. unfold or_else. case_match; [done|]. apply (pp_names _ _ H). Qed.

Lemma kib_short n : zlen (kib n) <= 1100.
Proof. apply fixed_short; [lia|]. unfold kib. auto with text. Qed.

Lemma kib_printable n : printable (kib n).
Proof. apply fixed_printable; [lia|auto with text]. Qed.

Lemma header_short p L : front_ok p L -> printable_pool p L -> zlen (leak_header p) <= 3000 /\ printable (leak_header p).
Proof.
  intros F H. pose proof (pp_total _ _ H). pose proof (u64_bound (requested_total p L)). pose proof (u64_bound (zlen L)).
  assert (Hb : 0 <= active_bytes (ac p) < 2 ^ 64) by (rewrite (fo_bytes _ _ F); done).
  assert (Ha : 0 <= active_allocations (ac p) < 2 ^ 64) by (rewrite (fo_count _ _ F); done). unfold leak_header. split.
  - text_length. pose proof (dec_short _ (pp_total _ _ H)). pose proof (dec_short _ Hb). pose proof (dec_short _ Ha).
    pose proof (kib_short (total_pool_size (ac p))). pose proof (kib_short (active_bytes (ac p))). lia.
  - text_printable; apply kib_printable.
Qed.

Lemma field_bounds p L h : front_ok p L -> h ∈ L -> exists hd, hdrs p !! h = Some hd /\ header_at p h = hd /\
  0 < h + SIZEOF_HEADER < 2 ^ 64 /\ 0 <= requested_size hd < 2 ^ 64.
Proof.
  intros F Hh. destruct (fo_blocks _ _ F h Hh) as [hd B]. exists hd. split; [apply B|]. unfold header_at. rewrite (bo_hdr _ _ _ B). split; [done|].
  destruct (bo_owned _ _ _ B) as (n & On & Hn & _). pose proof (fo_range _ _ F _ _ On). pose proof (bo_pos _ _ _ B). pose proof (bo_size _ _ _ B).
  assert (0 <= canary_len (flags (cf p))) by (unfold canary_len; case_match; lia). unfold SIZEOF_HEADER in *. lia.
Qed.

Definition piece_ok (u : list Z) : Prop := zlen u <= 2 ^ 22 /\ printable u.

Lemma location_ok p L h : printable_pool p L -> h ∈ L -> piece_ok (location_line (header_at p h)).
Proof.
  intros H Hh. destruct (pp_fields _ _ H h Hh) as [Hl _]. unfold location_line, or_else. destruct (pp_names _ _ H (alloc_file (header_at p h))) as [N1 P1].
  destruct (pp_names _ _ H (alloc_func (header_at p h))) as [N2 P2]. pose proof (sdec_short (alloc_line (header_at p h))).
  split; repeat case_match; text_length; try lia; text_printable.
Qed.

Lemma frames_ok p L h hd : printable_pool p L -> backtrace_depth hd < 2 ^ 31 -> Forall piece_ok (stack_lines h hd).
Proof.
  intros H Hd. unfold stack_lines. case_match; [|constructor]. constructor.
  - split; [text_length; lia|text_printable].
  - apply Forall_map, Forall_forall. intros i Hi%elem_of_seqZ. unfold frame_line. pose proof (sdec_short i). destruct (symbols h) as [s|] eqn:Es.
    + destruct (pp_symbols _ _ H h s i Es). split; [text_length; lia|text_printable].
    + split; [text_length; lia|text_printable].
Qed.

Lemma block_lines_ok p L h idx : front_ok p L -> printable_pool p L -> h ∈ L -> 0 <= idx < 2 ^ 64 ->
  Forall piece_ok (leak_line idx h (header_at p h) :: location_line (header_at p h) :: stack_lines h (header_at p h)).
Proof.
  intros F H Hh Hi. apply Forall_cons; split; [|apply Forall_cons; split; [by apply (location_ok p L)|by apply (frames_ok p L); [|apply (pp_fields _ _ H)]]].
  destruct (field_bounds p L h F Hh) as (hd & _ & -> & Hp & Hr). destruct (tier_str_short hd). pose proof (dec_short _ Hi). pose proof (dec_short _ Hr).
  pose proof (ptr_short (h + SIZEOF_HEADER)). unfold leak_line. split; [text_length; lia|text_printable].
Qed.

Lemma leak_lines_ok p L l : front_ok p L -> printable_pool p L -> (forall h, h ∈ l -> h ∈ L) ->
  forall idx, 0 <= idx < 2 ^ 64 -> Forall piece_ok (leak_lines p idx l).
Proof.
  intros F H. induction l as [|h l IH]; intros Hl idx Hi; cbn [leak_lines]; [constructor|]. apply Forall_app_2.
  - apply (block_lines_ok p L); auto. apply Hl, list_elem_of_here.
  - apply IH; [|apply u64_bound]. intros x Hx. apply Hl. by right.
Qed.

Lemma leak_walk_run p L b max : front_ok p L -> printable_pool p L -> 0 < max <= zlen b -> max < 2 ^ 63 ->
  forall l pv q idx t fuel, (forall h, h ∈ l -> h ∈ L) -> seg (alinks p) pv q l NULL -> 0 <= idx < 2 ^ 64 -> (length l < fuel)%nat ->
  let T := emit max t (leak_lines p idx l) in
  leak_walk fuel p max (zlen t, rendered b max t) q idx = Done (zlen T, rendered b max T).
Proof.
  intros F H Hm Hx. induction l as [|h l IH]; intros pv q idx t fuel Hl Hs Hi Hf; (destruct fuel as [|fuel]; [cbn in Hf; lia|]); cbn [leak_walk].
  - cbn in Hs. subst q. done.
  - destruct Hs as (-> & Hx0 & _ & n & Hn & Hs). rewrite (proj2 (Z.eqb_neq h NULL)) by done. cbn [orb fst].
    destruct (Z.ltb_spec (zlen t) max) as [Ht|Ht]; cbn [negb]; [|by rewrite emit_full by done].
    destruct (field_bounds p L h F (Hl h (list_elem_of_here _ _))) as (hd & Hd & Eh & _). unfold ld_hdr. rewrite Hd. cbn [mbind outcome_bind].
    assert (Hok := block_lines_ok p L h idx F H (Hl h (list_elem_of_here _ _)) Hi). cbn [leak_lines]. rewrite Eh in *. rewrite emit_app.
    assert (Hr : print_each max (zlen t, rendered b max t) (leak_line idx h hd :: location_line hd :: stack_lines h hd) =
      Done (zlen (emit max t (leak_line idx h hd :: location_line hd :: stack_lines h hd)), rendered b max (emit max t (leak_line idx h hd :: location_line hd :: stack_lines h hd)))).
    { apply print_each_run; [done|done|]. eapply Forall_impl; [exact Hok|]. intros u [Hu _]. unfold INT_MAX. lia. }
    cbn [print_each] in Hr. revert Hr. generalize (emit max t (leak_line idx h hd :: location_line hd :: stack_lines h hd)). intros T Hr.
    destruct (print_avail max _ (leak_line idx h hd)) as [s1| |]; cbn [mbind outcome_bind] in Hr |- *; [|done..].
    destruct (print_avail max _ (location_line hd)) as [s2| |]; cbn [mbind outcome_bind] in Hr |- *; [|done..].
    rewrite Hr. cbn [mbind outcome_bind]. rewrite (ld_Some _ _ _ Hn). cbn [mbind outcome_bind].
    apply (IH h); [|done|apply u64_bound|cbn in Hf; lia]. intros x Hx'. apply Hl. by right.
Qed.

Lemma analyze_run p L b max : front_ok p L -> printable_pool p L -> 0 < max <= zlen b -> max < 2 ^ 63 -> active_allocations (ac p) <> 0 ->
  mp_analyze_leaks p b max = Done (zlen (emit max (leak_header p) (leak_lines p 1 L)), rendered b max (leak_report p L)).
Proof.
  intros F H Hm Hx Ha. destruct (header_short p L F H) as [Hh _]. unfold mp_analyze_leaks. rewrite (proj2 (Z.eqb_neq _ _)) by lia.
  rewrite print_start by (done || (unfold INT_MAX; lia)). cbn [mbind outcome_bind]. rewrite (proj2 (Z.eqb_neq _ _)) by done.
  rewrite (leak_walk_run p L b max F H Hm Hx L NULL); [|done|apply (fo_list _ _ F)|lia|].
  - by rewrite rendered_emit.
  - assert (length L <= base.size (nxt (alinks p)))%nat; [|lia].
    apply nodup_size; [apply (fo_list _ _ F)|]. intros y Hy. by destruct (dll_node _ _ _ y (fo_list _ _ F) Hy) as [[? ?] ?].
Qed.

Lemma emit_total p L max :
  let r := zlen (emit max (leak_header p) (leak_lines p 1 L)) in
  r <= zlen (leak_report p L) /\ (zlen (leak_report p L) < max -> r = zlen (leak_report p L)) /\ (max <= zlen (leak_report p L) -> max <= r).
Proof.
  unfold leak_report. destruct (emit_spec max (leak_header p) (leak_lines p 1 L)) as (r & E & Hr). cbn zeta. rewrite E, zlen_app. pose proof (zlen_nonneg r).
  destruct Hr as [->|Hr]; [rewrite zlen_nil; lia|]. split; [lia|]. split; [lia|done].
Qed.

Lemma clean_run p L b max : front_ok p L -> printable_pool p L -> 0 < max <= zlen b -> max < 2 ^ 63 -> active_allocations (ac p) = 0 ->
  (zlen (leak_header p) <= max -> mp_analyze_leaks p b max = Done (zlen (leak_header p ++ no_leaks), rendered b max (leak_header p ++ no_leaks))) /\
  (max < zlen (leak_header p) -> zlen b = max -> mp_analyze_leaks p b max = Fault).
Proof.
  intros F H Hm Hx Ha. destruct (header_short p L F H) as [Hh _]. unfold mp_analyze_leaks. rewrite (proj2 (Z.eqb_neq max 0)) by lia.
  rewrite print_start by (done || (unfold INT_MAX; lia)). cbn [mbind outcome_bind]. rewrite Ha, Z.eqb_refl.
  assert (En : zlen no_leaks = 45) by (by vm_compute). split; intros Hl.
  - destruct (Z.eq_dec (zlen (leak_header p)) max) as [E|E]; [|apply print_run; try done; lia || (unfold INT_MAX; lia)].
    unfold print, snprintf. cbn [fst snd]. rewrite E, Z.sub_diag, En. cbn [mbind outcome_bind]. change (u64 0 =? 0) with true. rewrite (proj2 (Z.ltb_ge INT_MAX 45)) by (unfold INT_MAX; lia). cbn [mbind outcome_bind].
    rewrite zlen_app, En, E, u64_small by lia. f_equal. f_equal. unfold rendered. rewrite take_app_le by (unfold zlen in E; lia). done.
  - intros Hb. unfold print, snprintf. cbn [fst snd]. replace (u64 (max - zlen (leak_header p))) with (max - zlen (leak_header p) + 2 ^ 64).
    2: { unfold u64. rewrite <- (Z.mod_add _ 1) by done. rewrite Z.mod_small by lia. lia. }
    rewrite En, (proj2 (Z.eqb_neq _ 0)), (proj2 (Z.ltb_ge INT_MAX 45)) by (unfold INT_MAX; lia). set (w := take _ _ ++ _).
    assert (Hw : 0 < zlen w) by (unfold w; rewrite zlen_snoc; pose proof (zlen_nonneg (take (Z.to_nat (max - zlen (leak_header p) + 2 ^ 64 - 1)) no_leaks)); lia).
    rewrite rendered_length by done. rewrite (proj2 (Z.leb_gt (zlen (leak_header p) + zlen w) (zlen b))) by lia. by rewrite andb_false_r.
Qed.

Lemma report_printable p L : front_ok p L -> printable_pool p L -> printable (leak_report p L).
Proof.
  intros F H. unfold leak_report. apply printable_app; [by apply (header_short p L)|]. unfold printable. apply Forall_concat.
  eapply Forall_impl; [by apply (leak_lines_ok p L L F H ltac:(auto) 1)|]. intros u Hu. apply Hu.
Qed.

Lemma printed_report b max t : 0 < max -> printable t -> until_nul (rendered b max t) = take (Z.to_nat (max - 1)) t.
Proof. intros Hm Ht. unfold rendered. apply until_nul_printable. by apply Forall_take. Qed.

(** ** What the audit finds *)

Definition intact (p : pool) (h : Z) : bool :=
  negb (on p MP_FLAG_DEBUG_CANARY) || (mem p (h + SIZEOF_HEADER + requested_size (header_at p h)) =? MP_CANARY_BYTE).

Definition audit_text (p : pool) (L : list Z) : list Z :=
  concat (map (fun h => if intact p h then [] else canary_complaint h (header_at p h)) L).

Lemma audit_block_spec p h hd : magic hd = MP_MAGIC_HEAD -> hdrs p !! h = Some hd ->
  audit_block p h hd = (intact p h, if intact p h then [] else canary_complaint h (header_at p h)).
Proof.
  intros Hm Hh. unfold audit_block, intact, header_at. rewrite Hh. cbn [default from_option]. rewrite Hm, Z.eqb_refl. cbn [negb andb app].
  destruct (on p MP_FLAG_DEBUG_CANARY); [|done]. by destruct (_ =? MP_CANARY_BYTE).
Qed.

Lemma audit_walk_run p L : front_ok p L -> forall l pv q ok err fuel,
  (forall h, h ∈ l -> h ∈ L) -> seg (alinks p) pv q l NULL -> (length l < fuel)%nat ->
  audit_walk fuel p q ok err = Done (ok && forallb (intact p) l, err ++ audit_text p l).
Proof.
  intros F. induction l as [|h l IH]; intros pv q ok err fuel Hl Hs Hf; (destruct fuel as [|fuel]; [cbn in Hf; lia|]); cbn [audit_walk].
  - cbn in Hs. subst q. cbn. by rewrite andb_true_r, app_nil_r.
  - destruct Hs as (-> & Hx0 & _ & n & Hn & Hs). rewrite (proj2 (Z.eqb_neq h NULL)) by done.
    destruct (fo_blocks _ _ F h (Hl h (list_elem_of_here _ _))) as [hd B]. unfold ld_hdr. rewrite (bo_hdr _ _ _ B). cbn [mbind outcome_bind].
    rewrite (audit_block_spec p h hd) by apply B. rewrite (ld_Some _ _ _ Hn). cbn [mbind outcome_bind].
    rewrite (IH h); [|intros x Hx; apply Hl; by right|done|cbn in Hf; lia]. unfold audit_text. cbn [forallb map concat].
    by rewrite andb_assoc, app_assoc.
Qed.

Lemma audit_run p L : front_ok p L -> mp_audit_heap p = Done (forallb (intact p) L, audit_text p L).
Proof.
  intros F. unfold mp_audit_heap. rewrite (fo_live_list _ _ F). rewrite (audit_walk_run p L F L NULL); [done|done|apply (fo_list _ _ F)|].
  assert (length L <= base.size (nxt (alinks p)))%nat; [|lia].
  apply nodup_size; [apply (fo_list _ _ F)|]. intros y Hy. by destruct (dll_node _ _ _ y (fo_list _ _ F) Hy) as [[? ?] ?].
Qed.

(** ** Histogram, exports, HTML *)

Lemma bar_run count max_count : 0 <= count <= max_count ->
  exists n, bar_str count max_count = Done (replicate n 42) /\ (n <= 20)%nat /\
    (0 < max_count -> count = max_count -> max_count * CMEM_HISTOGRAM_BAR_WIDTH < 2 ^ 64 -> n = 20%nat).
Proof.
  intros H. unfold bar_str, CMEM_HISTOGRAM_BAR_WIDTH. destruct (Z.ltb_spec 0 max_count) as [Hm|Hm]; [|exists 0%nat; split; [done|]; split; lia].
  pose proof (u64_bound (count * 20)) as Hb. assert (Hle : u64 (count * 20) <= count * 20) by (apply Z.mod_le; lia).
  set (q := u64 (count * 20) / max_count). assert (Hq : 0 <= q <= 20).
  { unfold q. split; [apply Z.div_pos; lia|]. apply Z.div_le_upper_bound; nia. }
  unfold c_int. rewrite Z.mod_small by lia. rewrite (proj2 (Z.ltb_lt q (2 ^ 31))), (proj2 (Z.leb_le 0 q)), (proj2 (Z.leb_le q 20)) by lia.
  exists (Z.to_nat q). split; [done|]. split; [lia|]. intros _ -> Hs. unfold q. rewrite u64_small by lia. rewrite Z.mul_comm, Z.div_mul by lia. done.
Qed.

Lemma foldl_max_ge l : forall a, a <= foldl Z.max a l /\ forall x, x ∈ l -> x <= foldl Z.max a l.
Proof.
  induction l as [|y l IH]; intros a; cbn [foldl].
  - split; [lia|]. intros x Hx. by apply not_elem_of_nil in Hx.
  - destruct (IH (Z.max a y)) as [H1 H2]. split; [lia|]. intros x [->|Hx]%elem_of_cons; [lia|by apply H2].
Qed.

Lemma histogram_lines_run hist m todo : (forall i, i ∈ todo -> 0 <= i < 16 /\ exists c, rd hist i = Done c /\ 0 <= c <= m) ->
  exists out, histogram_lines hist m todo = Done out.
Proof.
  induction todo as [|i todo IH]; intros H; [by exists []|]. cbn [histogram_lines]. destruct (H i (list_elem_of_here _ _)) as (Hi & c & -> & Hc). cbn [mbind outcome_bind].
  destruct IH as [out IH]; [intros j Hj; apply H; by right|]. destruct (c =? 0).
  - cbn [mbind outcome_bind]. rewrite IH. cbn [mbind outcome_bind]. eauto.
  - destruct (bar_run c m Hc) as (n & -> & _). cbn [mbind outcome_bind]. destruct (rd_in_range labels i) as [lb ->]; [done|]. cbn [mbind outcome_bind].
    rewrite IH. cbn [mbind outcome_bind]. eauto.
Qed.

Lemma histogram_run p o now : zlen (size_histogram (ac p)) = CMEM_HISTOGRAM_BUCKETS -> Forall (fun c => 0 <= c) (size_histogram (ac p)) ->
  exists out, mp_dump_histogram p o now = Done out.
Proof.
  intros Hl Hc. unfold mp_dump_histogram. assert (E : st_histogram (mp_get_stats p o now).1 = size_histogram (ac p)).
  { unfold mp_get_stats. by case_match. }
  rewrite E. unfold CMEM_HISTOGRAM_BUCKETS in *. rewrite take_ge by (unfold zlen in Hl; lia).
  destruct (histogram_lines_run (size_histogram (ac p)) (foldl Z.max 0 (size_histogram (ac p))) (seqZ 0 16)) as [out ->]; [|cbn [mbind outcome_bind]; eauto].
  intros i Hi%elem_of_seqZ. split; [lia|]. destruct (rd_in_range (size_histogram (ac p)) i) as [c Hr]; [lia|]. exists c. split; [done|].
  apply rd_Done in Hr as [_ Hr]. split; [by apply (Forall_lookup_1 _ _ _ _ Hc Hr)|]. apply foldl_max_ge. by eapply list_elem_of_lookup_2.
Qed.

(** The counters a report shows have the width of [size_t], and the name fits its array. *)
Record observed_ok (p : pool) (o : observed) : Prop := {
  oo_counters : Forall (fun n => 0 <= n < 2 ^ 64)
    [total_pool_size (ac p); active_bytes (ac p); peak_bytes (ac p); max_memory_limit (cf p); active_allocations (ac p); total_alloc_ops (ac p);
     total_free_ops (ac p); slab_allocated_bytes o; tlsf_allocated_bytes o; os_allocated_bytes (ac p)];
  oo_name : zlen (arena_name o) <= 63 /\ printable (arena_name o);
}.

Lemma stats_doubles p o now : let s := (mp_get_stats p o now).1 in
  representable (st_fragmentation s) /\ representable (st_qps s) /\ representable (st_bandwidth s).
Proof.
  unfold mp_get_stats. cbn zeta. case_match eqn:E. cbn [fst st_fragmentation st_qps st_bandwidth]. split; [auto with text|].
  destruct (_ && _); injection E as <- <-; auto with text.
Qed.

Lemma json_field_length name v : zlen (json_field name v) = zlen (bs name) + zlen v + 6.
Proof. unfold json_field. text_length. lia. Qed.

Lemma metric_length name help kind a v :
  zlen (metric name help kind a v) = 3 * zlen (bs name) + zlen (bs help) + zlen (bs kind) + zlen a + zlen v + 30.
Proof.
  unfold metric. text_length. change (zlen (bq "{arena=`")) with 8. change (zlen (bq "`} ")) with 3. lia.
Qed.

Lemma exports_short p o now : observed_ok p o ->
  let '(s, o') := mp_get_stats p o now in
  0 < zlen (json_text o' s) <= INT_MAX /\ 0 < zlen (prometheus_text o' s) <= INT_MAX.
Proof.
  intros [Hc [Hn _]]. pose proof (stats_doubles p o now) as D. destruct (mp_get_stats p o now) as [s o'] eqn:E. cbn [fst] in D. destruct D as (D1 & D2 & D3).
  assert (Hs : arena_name o' = arena_name o /\ st_total_pool_size s = total_pool_size (ac p) /\ st_active_bytes s = active_bytes (ac p) /\
    st_peak_bytes s = peak_bytes (ac p) /\ st_max_memory_limit s = max_memory_limit (cf p) /\ st_active_allocations s = active_allocations (ac p) /\
    st_total_alloc_ops s = total_alloc_ops (ac p) /\ st_total_free_ops s = total_free_ops (ac p) /\ st_slab_bytes s = slab_allocated_bytes o /\
    st_tlsf_bytes s = tlsf_allocated_bytes o /\ st_os_bytes s = os_allocated_bytes (ac p)).
  { revert E. unfold mp_get_stats. cbn zeta. case_match. intros E. injection E as <- <-. cbn. done. }
  destruct Hs as (En & E1 & E2 & E3 & E4 & E5 & E6 & E7 & E8 & E9 & E10). rewrite <- E1, <- E2, <- E3, <- E4, <- E5, <- E6, <- E7, <- E8, <- E9, <- E10 in Hc.
  apply (Forall_impl _ (fun n => zlen (dec n) <= 64)) in Hc; [|intros n Hd; by apply dec_short]. rewrite !Forall_cons in Hc.
  destruct Hc as (L1 & L2 & L3 & L4 & L5 & L6 & L7 & L8 & L9 & L10 & _). rewrite <- En in Hn. pose proof (zlen_nonneg (arena_name o')).
  pose proof (fixed_short 4 _ ltac:(lia) D1). pose proof (fixed_short 2 _ ltac:(lia) D2). pose proof (fixed_short 2 _ ltac:(lia) D3). unfold INT_MAX. split.
  - unfold json_text. rewrite !zlen_app, !json_field_length. text_length. pose proof (zlen_nonneg (dec (st_total_pool_size s))). pose proof (zlen_nonneg (dec (st_active_bytes s))).
    pose proof (zlen_nonneg (dec (st_peak_bytes s))). pose proof (zlen_nonneg (dec (st_max_memory_limit s))). pose proof (zlen_nonneg (dec (st_active_allocations s))).
    pose proof (zlen_nonneg (dec (st_total_alloc_ops s))). pose proof (zlen_nonneg (dec (st_total_free_ops s))). pose proof (zlen_nonneg (dec (st_slab_bytes s))).
    pose proof (zlen_nonneg (dec (st_tlsf_bytes s))). pose proof (zlen_nonneg (dec (st_os_bytes s))). pose proof (zlen_nonneg (fixed 4 (st_fragmentation s))). lia.
  - unfold prometheus_text. rewrite !zlen_app, !metric_length. text_length. pose proof (zlen_nonneg (dec (st_total_pool_size s))). pose proof (zlen_nonneg (dec (st_active_bytes s))).
    pose proof (zlen_nonneg (dec (st_active_allocations s))). pose proof (zlen_nonneg (dec (st_total_alloc_ops s))). pose proof (zlen_nonneg (fixed 2 (st_qps s))).
    pose proof (zlen_nonneg (fixed 2 (st_bandwidth s))). pose proof (zlen_nonneg (fixed 4 (st_fragmentation s))). lia.
Qed.

Lemma sized_export_run b max t : 0 < max <= zlen b -> 0 < zlen t <= INT_MAX -> sized_export b max t = Done (Z.min (zlen t) (max - 1), rendered b max t).
Proof.
  intros Hm Ht. unfold sized_export. rewrite snprintf_start by (done || apply Ht). cbn [mbind outcome_bind]. rewrite (proj2 (Z.ltb_lt 0 _)) by lia. cbn [andb].
  destruct (Z.ltb_spec (zlen t) max); f_equal; f_equal; lia.
Qed.

Fixpoint html_table (p : pool) (idx : Z) (L : list Z) : list Z :=
  match L with [] => [] | h :: L => html_row idx h (header_at p h) ++ html_table p (u64 (idx + 1)) L end.

Lemma html_rows_run p L : front_ok p L -> forall l pv q idx fuel,
  (forall h, h ∈ l -> h ∈ L) -> seg (alinks p) pv q l NULL -> (length l < fuel)%nat -> html_rows fuel p q idx = Done (html_table p idx l).
Proof.
  intros F. induction l as [|h l IH]; intros pv q idx fuel Hl Hs Hf; (destruct fuel as [|fuel]; [cbn in Hf; lia|]); cbn [html_rows].
  - cbn in Hs. by subst q.
  - destruct Hs as (-> & Hx0 & _ & n & Hn & Hs). rewrite (proj2 (Z.eqb_neq h NULL)) by done.
    destruct (field_bounds p L h F (Hl h (list_elem_of_here _ _))) as (hd & Hd & Eh & _). unfold ld_hdr. rewrite Hd. cbn [mbind outcome_bind].
    rewrite (ld_Some _ _ _ Hn). cbn [mbind outcome_bind]. rewrite (IH h); [|intros x Hx; apply Hl; by right|done|cbn in Hf; lia].
    cbn [mbind outcome_bind html_table]. by rewrite Eh.
Qed.

(** ** Reading a snapshot back *)

(** The names of a block as they are kept in its record. *)
Definition name_at (a : Z) : list Z := if a =? NULL then [] else str a.

Fixpoint record_lines (p : pool) (idx : Z) (L : list Z) : list (list Z) :=
  match L with
  | [] => []
  | h :: L => record_line idx (record_at str p h) (shown (name_at (alloc_file (header_at p h)))) (shown (name_at (alloc_func (header_at p h)))) ::
      record_lines p (u64 (idx + 1)) L
  end.

Lemma record_names p L h : front_ok p L -> h ∈ L -> (forall a, printable (str a)) ->
  field_name (record_bytes (record_at str p h)) 24 = Done (shown (name_at (alloc_file (header_at p h)))) /\
  field_name (record_bytes (record_at str p h)) 88 = Done (shown (name_at (alloc_func (header_at p h)))).
Proof.
  intros F Hh Hs. destruct (field_bounds p L h F Hh) as (hd & Hd & -> & _). unfold record_at. rewrite Hd.
  assert (N : forall a, exists s, printable s /\ name_at a = s /\ (if a =? NULL then replicate 64 0 else fixed_string (str a)) = fixed_string s).
  { intros a. unfold name_at. destruct (a =? NULL); [exists []; split; [constructor|by split]|exists (str a); split; [apply Hs|by split]]. }
  destruct (N (alloc_file hd)) as (s1 & P1 & -> & E1), (N (alloc_func hd)) as (s2 & P2 & -> & E2).
  unfold record_bytes, snapshot_record_of; cbn [r_address r_size r_type r_line r_file r_func]. rewrite E1, E2. split.
  - rewrite !app_assoc. rewrite <- (app_assoc _ (fixed_string s1)). rewrite field_at by (rewrite !length_app, !length_le_bytes, length_replicate; done). by apply fixed_field.
  - rewrite !app_assoc. rewrite field_at by (rewrite !length_app, !length_le_bytes, length_replicate, length_fixed; done).
    rewrite <- (app_nil_r (fixed_string s2)). by apply fixed_field.
Qed.

Lemma shown_short s : zlen (shown s) <= 63 /\ (printable s -> printable (shown s)).
Proof.
  unfold shown. destruct s as [|b s]; [split; [by vm_compute|intros _; auto with text]|]. split; [unfold zlen; rewrite length_take; lia|].
  intros H. by apply Forall_take.
Qed.

Lemma record_line_short p h idx f g : 0 <= idx < 2 ^ 64 -> zlen f <= 63 -> zlen g <= 63 -> zlen (record_line idx (record_at str p h) f g) <= INT_MAX.
Proof.
  intros Hi Hf Hg. destruct (record_at_fits str p h) as (H1 & H2 & H3 & H4 & _). pose proof (dec_short _ Hi). pose proof (hex_short _ H1). pose proof (dec_short _ H2).
  pose proof (dec_short (r_line (record_at str p h)) ltac:(lia)). assert (Ht : zlen (record_tier (record_at str p h)) <= 9) by (unfold record_tier; repeat case_match; by vm_compute).
  unfold record_line, INT_MAX. text_length. lia.
Qed.

Lemma parse_loop_run p L b max : front_ok p L -> (forall a, printable (str a)) -> 0 < max <= zlen b -> max < 2 ^ 63 ->
  forall l idx t fuel, (forall h, h ∈ l -> h ∈ L) -> 0 <= idx < 2 ^ 64 -> (length l < fuel)%nat ->
  let T := emit max t (record_lines p idx l) in
  parse_loop fuel (concat (map record_bytes (map (record_at str p) l))) max (zlen t, rendered b max t) idx = Done (zlen T, rendered b max T).
Proof.
  intros F Hs Hm Hx. induction l as [|h l IH]; intros idx t fuel Hl Hi Hf; (destruct fuel as [|fuel]; [cbn in Hf; lia|]); cbn [parse_loop map concat].
  - rewrite fread_short by (cbn; unfold SIZEOF_SNAPSHOT_RECORD; lia). done.
  - rewrite fread_record by apply record_at_fits. cbn [fst record_lines emit]. destruct (Z.ltb_spec (zlen t) max) as [Ht|Ht]; [|done].
    destruct (record_names p L h F (Hl h (list_elem_of_here _ _)) Hs) as [-> ->]. cbn [mbind outcome_bind]. rewrite record_roundtrip by apply record_at_fits.
    rewrite print_run; [|done|done|done|]. 2: { apply record_line_short; [done|apply shown_short..]. }
    cbn [mbind outcome_bind]. apply IH; [|apply u64_bound|cbn in Hf; lia]. intros x Hx'. apply Hl. by right.
Qed.

(** What the reader prints of a file the writer made. *)
Definition snapshot_report (p : pool) (L : list Z) : list Z := snapshot_text (snapshot_header_of p) ++ concat (record_lines p 1 L).

Lemma snapshot_text_short h : header_fits h -> zlen (snapshot_text h) <= INT_MAX.
Proof.
  intros (_ & H1 & H2 & H3 & H4). pose proof (dec_short (sh_version h) ltac:(lia)). pose proof (dec_short _ H2). pose proof (dec_short _ H3). pose proof (dec_short _ H4).
  unfold snapshot_text, INT_MAX. text_length. lia.
Qed.

Lemma parse_run p L b max : front_ok p L -> (forall a, printable (str a)) -> 0 < max <= zlen b -> max < 2 ^ 63 ->
  exists file, mp_export_binary_snapshot true str p = Done (Some file) /\
    mp_parse_binary_snapshot (Some file) b max = Done (true, rendered b max (snapshot_report p L)).
Proof.
  intros F Hs Hm Hx. eexists. split; [by apply export_run|]. unfold mp_parse_binary_snapshot, snapshot_file.
  rewrite (proj2 (Z.eqb_neq max 0)), fread_app by (apply length_header || lia). rewrite header_roundtrip by apply header_of_fits.
  change (sh_magic (snapshot_header_of p)) with CMEM_SNAPSHOT_MAGIC. rewrite Z.eqb_refl. cbn [negb].
  rewrite print_start by (done || apply snapshot_text_short, header_of_fits). cbn [mbind outcome_bind].
  rewrite (parse_loop_run p L b max F Hs Hm Hx L); [|auto|lia|].
  - cbn [mbind outcome_bind snd]. by rewrite rendered_emit.
  - clear F Hx Hm. assert (length L <= length (concat (map record_bytes (map (record_at str p) L))))%nat; [|lia].
    induction L as [|h l IH]; [done|]. cbn [map concat length]. rewrite length_app, length_record by apply record_at_fits. unfold SIZEOF_SNAPSHOT_RECORD. lia.
Qed.

(** ** The theorems *)

(** C32: the leak report of a pool with live blocks never faults and terminates, and leaves
    in the caller's buffer the beginning of the full report (the totals, then every live
    block of the list in order, with address, size, tier, location and call stack), cut at
    [max_len - 1] characters and terminated.  The result is the length of the report when
    it fits; when it does not, it is [max_len] or more, not what was written. *)
Theorem analyze_leaks_spec p L b max :
  front_ok p L -> printable_pool p L -> 0 < max <= zlen b -> max < 2 ^ 63 -> active_allocations (ac p) <> 0 ->
  exists r, mp_analyze_leaks p b max = Done (r, rendered b max (leak_report p L)) /\
    (zlen (leak_report p L) < max -> r = zlen (leak_report p L)) /\ (max <= zlen (leak_report p L) -> max <= r).
Proof.
  intros F H Hm Hx Ha. eexists. split; [by apply analyze_run|]. split; apply emit_total.
Qed.

(** The report of a pool without live blocks is complete as long as the totals fit; a
    buffer shorter than the totals is overrun, since the remaining room wraps around. *)
Theorem clean_report_spec p L b max :
  front_ok p L -> printable_pool p L -> 0 < max <= zlen b -> max < 2 ^ 63 -> active_allocations (ac p) = 0 ->
  (zlen (leak_header p) <= max -> mp_analyze_leaks p b max = Done (zlen (leak_header p ++ no_leaks), rendered b max (leak_header p ++ no_leaks))) /\
  (max < zlen (leak_header p) -> zlen b = max -> mp_analyze_leaks p b max = Fault).
Proof. apply clean_run. Qed.

(** The exported report file holds the full report while that is shorter than 16384
    characters; a longer report makes the writer read past its buffer, or, at the exact
    size, drop the last character for a zero byte. *)
Theorem export_leak_report_spec p L buffer :
  front_ok p L -> printable_pool p L -> zlen buffer = 16384 -> active_allocations (ac p) <> 0 ->
  (zlen (leak_report p L) < 16384 -> mp_export_leak_report p buffer true = Done (Some (leak_report p L))) /\
  (16384 <= zlen (leak_report p L) -> mp_export_leak_report p buffer true = Fault \/
     mp_export_leak_report p buffer true = Done (Some (take (Z.to_nat 16383) (leak_report p L) ++ [0]))).
Proof.
  intros F H Hb Ha. unfold mp_export_leak_report. rewrite (analyze_run p L buffer 16384 F H) by (done || lia). cbn [mbind outcome_bind negb].
  pose proof (emit_total p L 16384) as (_ & Hs & Hl). set (r := zlen (emit _ _ _)) in *. rewrite rendered_length, Hb by lia. split; intros Hr.
  - rewrite Hs by done. rewrite (proj2 (Z.ltb_ge _ _)) by lia. do 2 f_equal. unfold rendered. rewrite (take_ge (leak_report p L)) by (unfold zlen in *; lia).
    unfold zlen. by rewrite Nat2Z.id, take_app_length.
  - specialize (Hl Hr). destruct (Z.ltb_spec 16384 r); [by left|right]. assert (r = 16384) as -> by lia. do 2 f_equal. unfold rendered.
    change (16384 - 1) with 16383. assert (Hl1 : length (take (Z.to_nat 16383) (leak_report p L)) = Z.to_nat 16383) by (rewrite length_take; unfold zlen in *; lia).
    rewrite take_app, Hl1, (take_ge (take _ _)) by lia. by replace (Z.to_nat 16384 - Z.to_nat 16383)%nat with 1%nat by lia.
Qed.

(** [mp_check_leaks] answers exactly whether the counter of live blocks is what the
    pool itself accounts for, never faults, and otherwise prints the report, cut at 4095
    characters. *)
Theorem check_leaks_spec p L area name report :
  front_ok p L -> printable_pool p L -> zlen report = 4096 ->
  let internal := if area =? NULL then 0 else 1 in
  exists out, mp_check_leaks p area name report = Done (active_allocations (ac p) =? internal, out) /\
    (active_allocations (ac p) <> internal ->
     out = take (Z.to_nat 4095) (if active_allocations (ac p) =? 0 then leak_header p ++ no_leaks else leak_report p L) ++ NL).
Proof.
  intros F H Hr internal. unfold mp_check_leaks. fold internal. destruct (Z.eqb_spec (active_allocations (ac p)) internal) as [E|E]; cbn [negb].
  - eexists. split; [done|]. by intros.
  - destruct (header_short p L F H) as [Hh Hp]. destruct (Z.eqb_spec (active_allocations (ac p)) 0) as [E0|E0].
    + destruct (clean_run p L report 4096 F H) as [Hc _]; [lia|done|done|]. rewrite Hc by lia. cbn [mbind outcome_bind snd]. eexists. split; [done|]. intros _.
      rewrite printed_report; [done|done|]. apply printable_app; [done|]. unfold no_leaks. text_printable.
    + rewrite (analyze_run p L report 4096 F H) by (done || lia). cbn [mbind outcome_bind snd]. eexists. split; [done|]. intros _.
      by rewrite printed_report by (done || by apply report_printable).
Qed.

(** C33: the audit terminates without a fault and is exact: it finds the heap healthy, and
    prints no complaint, just when every live block still has its canary (with canaries
    off, always). *)
Theorem audit_exact p L : front_ok p L ->
  exists healthy err, mp_audit_heap p = Done (healthy, err) /\ (healthy = true <-> err = []) /\
    (healthy = true <-> forall h hd, h ∈ L -> hdrs p !! h = Some hd -> on p MP_FLAG_DEBUG_CANARY = true ->
       mem p (h + SIZEOF_HEADER + requested_size hd) = MP_CANARY_BYTE).
Proof.
  intros F. eexists _, _. split; [by apply audit_run|]. split.
  - clear F. unfold audit_text. induction L as [|h L IH]; [done|]. cbn [forallb map concat]. destruct (intact p h); [exact IH|]. cbn [andb].
    split; [done|]. intros [E _]%app_eq_nil. unfold canary_complaint in E. apply app_eq_nil in E as [E _]. by vm_compute in E.
  - rewrite forallb_forall. unfold intact, header_at. split.
    + intros H h hd Hh Hd Hc. specialize (H h (proj1 (list_elem_of_In _ _) Hh)). rewrite Hd, Hc in H. cbn [negb orb default from_option] in H. by apply Z.eqb_eq.
    + intros H h Hh%list_elem_of_In. destruct (on p MP_FLAG_DEBUG_CANARY) eqn:Hc; [|done]. destruct (fo_blocks _ _ F h Hh) as [hd B].
      rewrite (bo_hdr _ _ _ B). cbn [negb orb default from_option]. apply Z.eqb_eq. by apply H; [|apply B|].
Qed.

(** The JSON and Prometheus exports keep within the caller's buffer: it holds the text
    cut at [max_len - 1] characters, and the result is the number of characters there. *)
Theorem exports_fit p o now b max :
  observed_ok p o -> 0 < max <= zlen b ->
  let '(s, o') := mp_get_stats p o now in
  mp_dump_json_stats p o now b max = Done (Z.min (zlen (json_text o' s)) (max - 1), rendered b max (json_text o' s), o') /\
  mp_export_prometheus_metrics p o now b max = Done (Z.min (zlen (prometheus_text o' s)) (max - 1), rendered b max (prometheus_text o' s), o').
Proof.
  intros H Hm. pose proof (exports_short p o now H) as X. unfold mp_dump_json_stats, mp_export_prometheus_metrics. rewrite (proj2 (Z.eqb_neq max 0)) by lia.
  destruct (mp_get_stats p o now) as [s o']. destruct X as [X1 X2]. rewrite !sized_export_run by done. done.
Qed.

(** The histogram is printed without a fault whatever the counters hold: no bar is
    longer than its 20 characters, even when the scaling wraps, and the fullest bucket's bar
    has all 20 unless it does. *)
Theorem histogram_bars p o now :
  zlen (size_histogram (ac p)) = CMEM_HISTOGRAM_BUCKETS -> Forall (fun c => 0 <= c) (size_histogram (ac p)) ->
  (exists out, mp_dump_histogram p o now = Done out) /\
  forall count max_count, 0 <= count <= max_count ->
    exists n, bar_str count max_count = Done (replicate n 42) /\ (n <= 20)%nat /\
      (0 < max_count -> count = max_count -> max_count * CMEM_HISTOGRAM_BAR_WIDTH < 2 ^ 64 -> n = 20%nat).
Proof. intros. split; [by apply histogram_run|]. intros. by apply bar_run. Qed.

(** The HTML report lists every live block once, in order, between its fixed parts. *)
Theorem html_report_complete p L o now :
  front_ok p L ->
  let '(s, o') := mp_get_stats p o now in
  mp_export_html_report p o now true = Done (Some (html_head s ++ html_tiers s ++ html_table_head s ++ html_table p 1 L ++ html_foot), o').
Proof.
  intros F. unfold mp_export_html_report. cbn [negb]. destruct (mp_get_stats p o now) as [s o'].
  rewrite (html_rows_run p L F L NULL); [done|auto|apply (fo_list _ _ F)|].
  assert (length L <= base.size (nxt (alinks p)))%nat; [|lia].
  apply nodup_size; [apply (fo_list _ _ F)|]. intros y Hy. by destruct (dll_node _ _ _ y (fo_list _ _ F) Hy) as [[? ?] ?].
Qed.

(** A pool written by [mp_export_binary_snapshot] and read by
    [mp_parse_binary_snapshot] gives the report of its live blocks, in order, with their
    addresses, sizes, tiers and names (cut at 63 characters), cut at the buffer's size. *)
Theorem parse_snapshot_roundtrip p L b max :
  front_ok p L -> (forall a, printable (str a)) -> 0 < max <= zlen b -> max < 2 ^ 63 ->
  exists file, mp_export_binary_snapshot true str p = Done (Some file) /\
    mp_parse_binary_snapshot (Some file) b max = Done (true, rendered b max (snapshot_report p L)).
Proof. apply parse_run. Qed.

End Report.

(** The snapshot reader trusts the names of a file to be terminated: a record whose last
    name is not makes it read past the record. *)
Theorem unterminated_name_faults h rec rest b max :
  header_fits h -> sh_magic h = CMEM_SNAPSHOT_MAGIC -> 0 < max <= zlen b -> max < 2 ^ 63 -> zlen (snapshot_text h) < max ->
  length rec = SIZEOF_SNAPSHOT_RECORD -> printable (drop 88 rec) ->
  mp_parse_binary_snapshot (Some (header_bytes h ++ rec ++ rest)) b max = Fault.
Proof.
  intros Hh Hmg Hm Hx Hs Hr Hp. unfold mp_parse_binary_snapshot. rewrite (proj2 (Z.eqb_neq max 0)), fread_app by (apply length_header || lia).
  rewrite header_roundtrip, Hmg, Z.eqb_refl by done. cbn [negb]. rewrite print_start by (done || by apply snapshot_text_short).
  cbn [mbind outcome_bind parse_loop]. rewrite fread_app by done. cbn [fst]. rewrite (proj2 (Z.ltb_lt _ _)) by done.
  assert (E : field_name rec 88 = Fault).
  { unfold field_name, field_string. destruct (rd_in_range rec (Z.of_nat 88)) as [c Hc]; [unfold zlen; rewrite Hr; done|]. rewrite Hc. cbn [mbind outcome_bind].
    apply rd_Done in Hc as [_ Hc]. rewrite Nat2Z.id in Hc. assert (Hin : c ∈ drop 88 rec).
    { apply (list_elem_of_lookup_2 _ 0). by rewrite lookup_drop, Nat.add_0_r. }
    unfold printable in Hp. rewrite Forall_forall in Hp. rewrite (proj2 (Z.eqb_neq c 0)) by (by apply Hp).
    replace (forallb (fun b0 => negb (b0 =? 0)) (drop 88 rec)) with true; [done|]. symmetry. apply forallb_forall. intros x Hx'%list_elem_of_In.
    apply negb_true_iff, Z.eqb_neq. by apply Hp. }
  rewrite E. pose proof (field_name_done rec 24). by destruct (field_name rec 24).
Qed.

(** What the labels of [mp_dump_histogram] say bucket [i] covers: the sizes above the
    [i]-th bound up to the next, without end for the last. *)
Definition label_bounds : list Z := [0; 16; 32; 64; 128; 256; 512; 1024; 2048; 4096; 8192; 16384; 32768; 65536; 524288; 4194304].
Definition label_covers (i size : Z) : bool :=
  match label_bounds !! Z.to_nat i, label_bounds !! S (Z.to_nat i) with
  | Some lo, Some hi => (lo <? size) && (size <=? hi)
  | Some lo, None => lo <? size
  | None, _ => false
  end.

(** Allocations are counted in the bucket of their slab class, but the buckets are
    printed with the labels of powers of two: with the default classes a label covers the
    sizes counted under it only up to 8 bytes and between 32 and 64 KiB. *)
Theorem histogram_labels c size :
  use_custom_slab_sizes c = false -> 0 < size ->
  (label_covers (get_slab_class_index c size) size = true <-> size <= 8 \/ 32768 < size <= 65536).
Proof.
  intros Hc Hs. unfold get_slab_class_index. rewrite Hc, (proj2 (Z.ltb_lt 0 size)) by done. cbn [andb]. destruct (Z.leb_spec size 512).
  - assert (A : forallb (fun n => Bool.eqb (label_covers (default SLAB_CLASS_COUNT (cmem_size_to_class !! n)) (Z.of_nat n)) (Z.of_nat n <=? 8)) (seq 1 512) = true)
      by (vm_compute; reflexivity).
    rewrite forallb_forall in A. specialize (A (Z.to_nat size) ltac:(apply in_seq; lia)). rewrite Z2Nat.id in A by lia. apply eqb_prop in A. rewrite A. lia.
  - change (label_covers SLAB_CLASS_COUNT size) with ((32768 <? size) && (size <=? 65536)). lia.
Qed.

(** ** Concrete runs *)

Definition no_symbols (_ : Z) : option (Z -> list Z) := None.

Lemma snap_short a : zlen (snap_str a) <= 2 ^ 20 /\ printable (snap_str a).
Proof. split; [unfold snap_str; by case_match|apply snap_str_ok]. Qed.

Lemma snap_printable : printable_pool snap_str no_symbols snap_pool snap_blocks.
Proof.
  assert (T : total_pool_size (ac snap_pool) = 6291608) by (vm_compute; reflexivity).
  assert (A : forallb (fun h => (alloc_line (header_at snap_pool h) =? 0) && (backtrace_depth (header_at snap_pool h) =? 0)) snap_blocks = true) by (vm_compute; reflexivity).
  split; [rewrite T; lia| |apply snap_short|done]. intros h Hh. rewrite forallb_forall in A. specialize (A h (proj1 (list_elem_of_In _ _) Hh)). lia.
Qed.

Definition blank (n : Z) : list Z := replicate (Z.to_nat n) 0.
Definition snap_observed : observed := Observed (bs "demo") 40 0 (1, 0).

Lemma snap_count : active_allocations (ac snap_pool) = 2.
Proof. vm_compute. reflexivity. Qed.

(** 512 bytes hold the totals and the first block. *)
Lemma analyze_leaks_spec_witness :
  exists r, mp_analyze_leaks snap_str no_symbols snap_pool (blank 512) 512 =
      Done (r, rendered (blank 512) 512 (leak_report snap_str no_symbols snap_pool snap_blocks)) /\ 512 <= r.
Proof.
  assert (Hl : zlen (leak_report snap_str no_symbols snap_pool snap_blocks) = 614) by (vm_compute; reflexivity).
  destruct (analyze_leaks_spec snap_str no_symbols snap_pool snap_blocks (blank 512) 512 snap_ok snap_printable) as (r & E & _ & Hr);
    [split; [lia|vm_compute; discriminate]|lia|rewrite snap_count; discriminate|].
  exists r. split; [exact E|]. apply Hr. rewrite Hl. lia.
Defined.

Definition idle_pool : pool (TT := Toy.toy) := Toy.demo_pool 0 0.

Lemma idle_printable : printable_pool snap_str no_symbols idle_pool [].
Proof. split; [by vm_compute| |apply snap_short|done]. intros h Hh. by apply not_elem_of_nil in Hh. Qed.

Lemma clean_report_spec_witness :
  (exists r b, mp_analyze_leaks snap_str no_symbols idle_pool (blank 512) 512 = Done (r, b)) /\
  mp_analyze_leaks snap_str no_symbols idle_pool (blank 200) 200 = Fault.
Proof.
  assert (Hl : zlen (leak_header idle_pool) = 292) by (vm_compute; reflexivity). split.
  - destruct (clean_report_spec snap_str no_symbols idle_pool [] (blank 512) 512 (Toy.demo_ok 0 0 eq_refl) idle_printable) as [H _];
      [split; [lia|vm_compute; discriminate]|lia|reflexivity|]. eexists _, _. apply H. rewrite Hl. lia.
  - apply (clean_report_spec snap_str no_symbols idle_pool [] (blank 200) 200 (Toy.demo_ok 0 0 eq_refl) idle_printable);
      [split; [lia|vm_compute; discriminate]|lia|reflexivity|rewrite Hl; lia|vm_compute; reflexivity].
Defined.

Lemma export_leak_report_spec_witness :
  mp_export_leak_report snap_str no_symbols snap_pool (blank 16384) true = Done (Some (leak_report snap_str no_symbols snap_pool snap_blocks)).
Proof.
  assert (Hl : zlen (leak_report snap_str no_symbols snap_pool snap_blocks) = 614) by (vm_compute; reflexivity).
  apply (export_leak_report_spec snap_str no_symbols snap_pool snap_blocks (blank 16384) snap_ok snap_printable);
    [vm_compute; reflexivity|rewrite snap_count; discriminate|rewrite Hl; lia].
Defined.

Lemma check_leaks_spec_witness : exists out, mp_check_leaks snap_str no_symbols snap_pool NULL (bs "demo") (blank 4096) = Done (false, out).
Proof.
  destruct (check_leaks_spec snap_str no_symbols snap_pool snap_blocks NULL (bs "demo") (blank 4096) snap_ok snap_printable) as (out & E & _); [vm_compute; reflexivity|].
  exists out. rewrite E, snap_count. reflexivity.
Defined.

(** With canaries on, and one byte of the redzone overwritten. *)
Definition guarded_pool : pool (TT := Toy.toy) := (done_or (Toy.demo_pool MP_FLAG_DEBUG_CANARY 0, []) (client_run (Toy.demo_pool MP_FLAG_DEBUG_CANARY 0, []) [Ask 40])).1.
Definition guarded_blocks : list Z := (done_or (Toy.demo_pool MP_FLAG_DEBUG_CANARY 0, []) (client_run (Toy.demo_pool MP_FLAG_DEBUG_CANARY 0, []) [Ask 40])).2.
Definition smashed_pool : pool (TT := Toy.toy) := set_mem guarded_pool (fun _ => 0).

Lemma smashed_ok : front_ok smashed_pool guarded_blocks.
Proof.
  destruct (client_run_ok (Toy.demo_pool MP_FLAG_DEBUG_CANARY 0) [] [Ask 40]) as (p' & L' & E & F & _);
    [by apply Toy.demo_ok|apply Toy.demo_table|done|repeat constructor; cbn; unfold SIZEOF_HEADER; lia|].
  apply (front_ok_ext guarded_pool); try reflexivity. unfold guarded_pool, guarded_blocks. rewrite E. exact F.
Qed.

Lemma audit_exact_witness : exists err, mp_audit_heap snap_str smashed_pool = Done (false, err) /\ err <> [].
Proof.
  destruct (audit_exact snap_str smashed_pool guarded_blocks smashed_ok) as (ok & err & E & H1 & H2). exists err. destruct ok.
  - exfalso. destruct guarded_blocks as [|h l] eqn:EL; [by vm_compute in EL|].
    destruct (fo_blocks _ _ smashed_ok h) as [hd B]; [rewrite EL; apply list_elem_of_here|].
    assert (X : 0 = MP_CANARY_BYTE) by exact (proj1 H2 eq_refl h hd (list_elem_of_here _ _) (bo_hdr _ _ _ B) eq_refl). discriminate X.
  - split; [exact E|]. intros ->. discriminate (proj2 H1 eq_refl).
Defined.

Lemma snap_observed_ok : observed_ok snap_pool snap_observed.
Proof.
  split; [|split; [by vm_compute|apply printable_check; vm_compute; reflexivity]]. apply Forall_forall. intros n Hn.
  assert (A : forallb (fun n => (0 <=? n) && (n <? 2 ^ 64))
    [total_pool_size (ac snap_pool); active_bytes (ac snap_pool); peak_bytes (ac snap_pool); max_memory_limit (cf snap_pool); active_allocations (ac snap_pool);
     total_alloc_ops (ac snap_pool); total_free_ops (ac snap_pool); 40; 0; os_allocated_bytes (ac snap_pool)] = true) by (vm_compute; reflexivity).
  rewrite forallb_forall in A. specialize (A n (proj1 (list_elem_of_In _ _) Hn)). lia.
Qed.

(** 100 bytes hold the first lines of either text. *)
Lemma exports_fit_witness : exists b b' o,
  mp_dump_json_stats snap_pool snap_observed (3, 500000000) (blank 100) 100 = Done (99, b, o) /\
  mp_export_prometheus_metrics snap_pool snap_observed (3, 500000000) (blank 100) 100 = Done (99, b', o).
Proof.
  pose proof (exports_fit snap_pool snap_observed (3, 500000000) (blank 100) 100 snap_observed_ok) as X.
  destruct (mp_get_stats snap_pool snap_observed (3, 500000000)) as [s o] eqn:E. destruct X as [X1 X2]; [split; [lia|vm_compute; discriminate]|].
  assert (L : Z.min (zlen (json_text (mp_get_stats snap_pool snap_observed (3, 500000000)).2 (mp_get_stats snap_pool snap_observed (3, 500000000)).1)) (100 - 1) = 99 /\
    Z.min (zlen (prometheus_text (mp_get_stats snap_pool snap_observed (3, 500000000)).2 (mp_get_stats snap_pool snap_observed (3, 500000000)).1)) (100 - 1) = 99)
    by (split; vm_compute; reflexivity).
  rewrite E in L. cbn [fst snd] in L. destruct L as [L1 L2]. rewrite L1 in X1. rewrite L2 in X2. eexists _, _, _. split; [exact X1|exact X2].
Defined.

Lemma histogram_bars_witness : exists out, mp_dump_histogram snap_pool snap_observed (3, 0) = Done out.
Proof.
  assert (A : forallb (fun n => 0 <=? n) (size_histogram (ac snap_pool)) = true) by (vm_compute; reflexivity).
  apply (histogram_bars snap_pool snap_observed (3, 0)); [vm_compute; reflexivity|]. apply Forall_forall. intros n Hn.
  rewrite forallb_forall in A. specialize (A n (proj1 (list_elem_of_In _ _) Hn)). lia.
Defined.

Lemma histogram_labels_witness : label_covers (get_slab_class_index default_classes 40) 40 = false.
Proof.
  destruct (histogram_labels default_classes 40 eq_refl ltac:(lia)) as [H _]. destruct (label_covers _ 40); [|reflexivity]. destruct (H eq_refl); lia.
Defined.

Lemma html_report_complete_witness : exists file o, mp_export_html_report snap_str snap_pool snap_observed (3, 0) true = Done (Some file, o).
Proof.
  pose proof (html_report_complete snap_str snap_pool snap_blocks snap_observed (3, 0) snap_ok) as X.
  destruct (mp_get_stats snap_pool snap_observed (3, 0)) as [s o]. eexists _, _. exact X.
Defined.

Lemma parse_snapshot_roundtrip_witness : exists file, mp_export_binary_snapshot true snap_str snap_pool = Done (Some file) /\
  exists b, mp_parse_binary_snapshot (Some file) (blank 4096) 4096 = Done (true, b).
Proof.
  destruct (parse_snapshot_roundtrip snap_str snap_pool snap_blocks (blank 4096) 4096 snap_ok) as (f & E1 & E2);
    [intros a; apply snap_short|split; [lia|vm_compute; discriminate]|lia|]. exists f. split; [exact E1|]. eexists. exact E2.
Defined.

Definition demo_header : snapshot_header := SHeader CMEM_SNAPSHOT_MAGIC 1 0 0 1.

Lemma unterminated_name_faults_witness :
  mp_parse_binary_snapshot (Some (header_bytes demo_header ++ replicate 152 65 ++ [])) (blank 4096) 4096 = Fault.
Proof.
  apply unterminated_name_faults; [unfold header_fits, demo_header, CMEM_SNAPSHOT_MAGIC; cbn [sh_magic sh_version sh_total sh_bytes sh_allocs]; lia|reflexivity|split; [lia|vm_compute; discriminate]|lia|vm_compute; reflexivity|reflexivity|].
  apply printable_check. vm_compute. reflexivity.
Defined.

(** A pool with 140 live blocks: its report is longer than the export's buffer. *)
Example long_report_faults :
  match client_run (Toy.demo_pool 0 0, []) (replicate 140 (Ask 40)) with
  | Done (p, _) => mp_export_leak_report snap_str no_symbols p (blank 16384) true = Fault
  | _ => False
  end.
Proof. vm_compute. reflexivity. Qed.

(** An unused pool without memory is reported as wholly fragmented. *)
Example empty_pool_fragmentation : fixed 4 (st_fragmentation (mp_get_stats idle_pool snap_observed (3, 0)).1) = bs "1.0000".
Proof. vm_compute. reflexivity. Qed.

(** Slab class 0 does not count as a small repeated allocation. *)
Example smallest_class_pattern :
  pattern_name (mp_analyze_leak_pattern (Some (AllocInfo 4096 8 8 ALLOC_TYPE_SLAB 0 0 NULL 0 NULL 0))) = "generic_leak"%string.
Proof. reflexivity. Qed.
