(* ===== verification/Inspect.v ===== *)
(** * Looking into a pool

    [src/cmem_alloc.c]: the structural liveness check of FAST_PATH pools, the list of the
    regions behind a pool, the metadata of one allocation, and the frame arenas that swap
    two pools. *)
From S2P Require Import Prelude Text Header Dll SizeClass BlockHeap Tlsf Slab SlabCache Front FrontSpec FrontProps Snapshot Report.
From Stdlib Require Import ZArith Lia.
From stdpp Require Import base option list gmap.
Open Scope Z_scope.

(** ** Is a slot of a FAST_PATH pool live? *)

Section SlotLive.
Context `{Mmap}.

(** [while (slot && free_count > 0)]: is [header] among the first [n] free slots? *)
Fixpoint free_walk (n : nat) (m : slab_mem) (slot header : Z) : outcome bool :=
  match n with
  | O => Done false
  | S n =>
      if slot =? NULL then Done false
      else if slot =? header then Done true
      else next ← ld (snext m) slot; free_walk n m next header
  end.

Definition mp_fastpath_slot_live (m : slab_mem) (header : Z) (hd : mp_block_header) : outcome bool :=
  if negb (alloc_type hd =? ALLOC_TYPE_SLAB) then Done (negb (raw_base hd =? NULL))
  else if (SLAB_CLASS_COUNT <=? Header.slab_class hd) || negb (raw_base hd =? header) then Done false
  else
    let ptr_val := header + SIZEOF_HEADER in
    let page_base := page_of ptr_val in
    if ptr_val - page_base <=? SIZEOF_SLAB_PAGE then Done false
    else
      page ← ldp m page_base;
      if negb (class_index page =? Header.slab_class hd) || (total_slots page =? 0) then Done false
      else if total_slots page <? page_free_count page then Done false
      else
        is_free ← free_walk (Z.to_nat (page_free_count page)) m (page_free_list page) header;
        Done (negb is_free).

Lemma free_walk_run m header Fr : forall q n, sll (snext m) q Fr -> (length Fr <= n)%nat ->
  free_walk n m q header = Done (bool_decide (header ∈ Fr)).
Proof.
  induction Fr as [|x Fr IH]; intros q n Hs Hn.
  - cbn in Hs. subst q. rewrite bool_decide_false by apply not_elem_of_nil. by destruct n.
  - destruct n as [|n]; [cbn in Hn; lia|]. destruct Hs as (-> & Hx & nx & Hnx & Hs). cbn [free_walk]. rewrite (proj2 (Z.eqb_neq x NULL)) by done.
    destruct (Z.eqb_spec x header) as [->|Hne]; [by rewrite bool_decide_true by apply list_elem_of_here|].
    rewrite (ld_Some _ _ _ Hnx). cbn [mbind outcome_bind]. rewrite (IH nx) by (done || (cbn in Hn; lia)). f_equal. apply bool_decide_ext. rewrite elem_of_cons.
    split; [by right|]. intros [->|]; [done|done].
Qed.

Lemma slot_live_run sz n m sc P F E out pg Fr p header hd :
  slab_ok sz n m sc P F E out -> (pg, Fr) ∈ all_pages P F E -> header ∈ page_slots sz n pg ->
  alloc_type hd = ALLOC_TYPE_SLAB -> raw_base hd = header -> Header.slab_class hd < SLAB_CLASS_COUNT ->
  pages m !! pg = Some p -> class_index p = Header.slab_class hd -> zlen Fr <= page_free_count p <= n -> SIZEOF_HEADER < sz ->
  mp_fastpath_slot_live m header hd = Done (bool_decide (header ∉ Fr)).
Proof.
  intros Hok Hpg Hh Ht Hr Hc Hp Hci Hf Hsz. pose proof (so_pages _ _ _ _ _ _ _ _ Hok _ _ Hpg) as [Hpos Hal (p' & Ep & _ & Htot & Hs) _ _ _ _ _].
  assert (p' = p) as -> by congruence. pose proof (so_geometry _ _ _ _ _ _ _ _ Hok) as Hg. destruct (page_slots_range _ _ _ _ Hg Hh) as [Hlo Hhi].
  assert (Hpage : page_of (header + SIZEOF_HEADER) = pg).
  { apply page_of_range; [done|]. unfold SIZEOF_HEADER, SIZEOF_SLAB_PAGE in *. lia. }
  unfold mp_fastpath_slot_live. rewrite Ht, Hr, !Z.eqb_refl, (proj2 (Z.leb_gt _ _)) by done. cbn [negb orb]. rewrite Hpage.
  rewrite (proj2 (Z.leb_gt _ SIZEOF_SLAB_PAGE)) by (unfold SIZEOF_HEADER, SIZEOF_SLAB_PAGE in *; lia). unfold ldp. rewrite Ep. cbn [mbind outcome_bind].
  destruct Hg as (_ & _ & Hn1 & _). rewrite Hci, Htot, Z.eqb_refl, (proj2 (Z.eqb_neq n 0)), (proj2 (Z.ltb_ge n _)) by lia. cbn [negb orb].
  rewrite (free_walk_run _ _ Fr) by (done || (unfold zlen in Hf; lia)). cbn [mbind outcome_bind]. f_equal. by rewrite bool_decide_not.
Qed.

(** On a FAST_PATH pool the check of a slot's header is exact as long as the page's
    published count of free slots has not fallen behind: it never faults, and answers
    whether the slot is handed out. *)
Theorem fastpath_slot_live_exact sz n m sc P F E out pg Fr p header hd :
  slab_ok sz n m sc P F E out -> (pg, Fr) ∈ all_pages P F E -> header ∈ page_slots sz n pg ->
  alloc_type hd = ALLOC_TYPE_SLAB -> raw_base hd = header -> Header.slab_class hd < SLAB_CLASS_COUNT ->
  pages m !! pg = Some p -> class_index p = Header.slab_class hd -> zlen Fr <= page_free_count p <= n -> SIZEOF_HEADER < sz ->
  exists live, mp_fastpath_slot_live m header hd = Done live /\ (live = true <-> header ∈ out).
Proof.
  intros Hok Hpg Hh Ht Hr Hc Hp Hci Hf Hsz. eexists. split; [by eapply slot_live_run|]. rewrite bool_decide_eq_true, (so_out _ _ _ _ _ _ _ _ Hok). split.
  - intros Hx. by exists pg, Fr.
  - intros (q & G & Hq & Hx & HG). pose proof (so_geometry _ _ _ _ _ _ _ _ Hok) as Hg.
    assert (q = pg) as ->.
    { rewrite <- (page_of_slot sz n q header), <- (page_of_slot sz n pg header); try done; [apply (so_pages _ _ _ _ _ _ _ _ Hok _ _ Hpg)|apply (so_pages _ _ _ _ _ _ _ _ Hok _ _ Hq)]. }
    by rewrite (page_unique _ _ _ _ (so_nodup _ _ _ _ _ _ _ _ Hok) Hpg Hq).
Qed.

End SlotLive.

(** ** The regions behind a pool *)

Record mp_region_info := Region { rg_base : Z; rg_size : Z; rg_type : Z; rg_slab_class : Z; rg_hot : bool }.

(** What an array of [max] entries that holds [acc] holds after the entries [l] were offered
    one at a time. *)
Definition filled (max : Z) (acc l : list mp_region_info) : list mp_region_info := acc ++ take (Z.to_nat (max - zlen acc)) l.

Lemma filled_nil max acc : filled max acc [] = acc.
Proof. unfold filled. by rewrite take_nil, app_nil_r. Qed.

Lemma filled_app max acc l1 l2 : filled max (filled max acc l1) l2 = filled max acc (l1 ++ l2).
Proof.
  unfold filled. rewrite <- app_assoc, take_app. do 3 f_equal. rewrite zlen_app. unfold zlen. rewrite length_take. lia.
Qed.

Lemma filled_full max acc l : max <= zlen acc -> filled max acc l = acc.
Proof. intros H. unfold filled. replace (Z.to_nat (max - zlen acc)) with 0%nat by lia. by rewrite app_nil_r. Qed.

Lemma filled_cons max acc x l : zlen acc < max -> filled max acc (x :: l) = filled max (acc ++ [x]) l.
Proof.
  intros H. unfold filled. rewrite zlen_snoc. replace (Z.to_nat (max - zlen acc)) with (S (Z.to_nat (max - (zlen acc + 1)))) by lia.
  cbn [take]. by rewrite <- app_assoc.
Qed.

Section Regions.
Context `{Mmap}.

Definition page_region (cls pg : Z) (p : slab_page) : mp_region_info := Region pg SLAB_PAGE_SIZE ALLOC_TYPE_SLAB cls (is_hot p).

(** [while (curr && count < max_regions)] over one list of pages; a page is its own
    [page_raw_mem]. *)
Fixpoint region_pages (fuel : nat) (m : slab_mem) (cls curr max : Z) (acc : list mp_region_info) : outcome (list mp_region_info) :=
  match fuel with
  | O => Fault
  | S fuel =>
      if (curr =? NULL) || negb (zlen acc <? max) then Done acc
      else
        p ← ldp m curr;
        n ← ld (nxt (plinks m)) curr;
        region_pages fuel m cls n max (acc ++ [page_region cls curr p])
  end.

Fixpoint region_classes (s : slab_tier) (k : nat) (cls max : Z) (acc : list mp_region_info) : outcome (list mp_region_info) :=
  match k with
  | O => Done acc
  | S k =>
      if negb (zlen acc <? max) then Done acc
      else
        sc ← ld_class s cls;
        acc ← region_pages (page_fuel (tm s)) (tm s) cls (partial_pages sc) max acc;
        acc ← region_pages (page_fuel (tm s)) (tm s) cls (full_pages sc) max acc;
        region_classes s k (cls + 1) max acc
  end.

Definition tlsf_region (tp : tlsf_pool) : mp_region_info := Region (raw_area tp) (raw_size tp) ALLOC_TYPE_TLSF 0 false.

Fixpoint region_tlsf (root : list tlsf_pool) (max : Z) (acc : list mp_region_info) : list mp_region_info :=
  match root with
  | [] => acc
  | tp :: root => if zlen acc <? max then region_tlsf root max (acc ++ [tlsf_region tp]) else acc
  end.

(** The entries written; their number is the result. *)
Definition mp_enumerate_regions (s : slab_tier) (root : list tlsf_pool) (reserve_buf reserve_size max_regions : Z) : outcome (list mp_region_info) :=
  if max_regions =? 0 then Done []
  else
    acc ← region_classes s (Z.to_nat SLAB_CLASS_COUNT) 0 max_regions [];
    let acc := region_tlsf root max_regions acc in
    Done (if negb (reserve_buf =? NULL) && (zlen acc <? max_regions)
          then acc ++ [Region reserve_buf reserve_size ALLOC_TYPE_EMERGENCY 0 false] else acc).

(** The pages [L] of the classes from [i] on, as regions. *)
Fixpoint class_regions (m : slab_mem) (i : Z) (L : list (list Z)) : list mp_region_info :=
  match L with [] => [] | l :: L => map (fun pg => page_region i pg (header_of m pg)) l ++ class_regions m (i + 1) L end.

Definition all_regions (s : slab_tier) (L : list (list Z)) (root : list tlsf_pool) (reserve_buf reserve_size : Z) : list mp_region_info :=
  class_regions (tm s) 0 L ++ map tlsf_region root ++
  (if reserve_buf =? NULL then [] else [Region reserve_buf reserve_size ALLOC_TYPE_EMERGENCY 0 false]).

Lemma region_pages_run (m : slab_mem) cls max l : forall pv q acc fuel,
  seg (plinks m) pv q l NULL -> (forall x, x ∈ l -> is_Some (pages m !! x)) -> (length l < fuel)%nat ->
  region_pages fuel m cls q max acc = Done (filled max acc (map (fun pg => page_region cls pg (header_of m pg)) l)).
Proof.
  induction l as [|x l IH]; intros pv q acc fuel Hs Hp Hf; (destruct fuel as [|fuel]; [cbn in Hf; lia|]); cbn [region_pages map].
  - cbn in Hs. subst q. by rewrite filled_nil.
  - destruct Hs as (-> & Hx & _ & n & Hn & Hs). rewrite (proj2 (Z.eqb_neq x NULL)) by done. cbn [orb].
    destruct (Z.ltb_spec (zlen acc) max) as [Hl|Hl]; cbn [negb]; [|by rewrite filled_full by done].
    destruct (Hp x (list_elem_of_here _ _)) as [p Ep]. unfold ldp. rewrite Ep. cbn [mbind outcome_bind]. rewrite (ld_Some _ _ _ Hn). cbn [mbind outcome_bind].
    rewrite (IH x n), filled_cons; [|done|done|intros y Hy; apply Hp; by right|cbn in Hf; lia].
    assert (header_of m x = p) as -> by (unfold header_of; by rewrite Ep). done.
Qed.

Lemma region_classes_run (s : slab_tier) max k : forall i L acc,
  listed s k i L -> (forall x, x ∈ concat L -> is_Some (pages (tm s) !! x)) ->
  region_classes s k i max acc = Done (filled max acc (class_regions (tm s) i L)).
Proof.
  induction k as [|k IH]; intros i L acc HL Hp; cbn [region_classes].
  - cbn in HL. subst L. by rewrite filled_nil.
  - destruct (Z.ltb_spec (zlen acc) max) as [Hl|Hl]; cbn [negb]; [|by rewrite filled_full by done].
    destruct HL as (sc & p & f & L' & Ec & Hpp & Hpf & -> & HL). cbn [concat class_regions] in *. unfold ld_class. rewrite Ec. cbn [mbind outcome_bind].
    rewrite (region_pages_run _ _ _ p NULL); [|apply Hpp|intros x Hx; apply Hp; rewrite !elem_of_app; auto|by eapply dll_fuel]. cbn [mbind outcome_bind].
    rewrite (region_pages_run _ _ _ f NULL); [|apply Hpf|intros x Hx; apply Hp; rewrite !elem_of_app; auto|by eapply dll_fuel]. cbn [mbind outcome_bind].
    rewrite (IH _ L') by (done || (intros x Hx; apply Hp; rewrite elem_of_app; by right)). by rewrite !filled_app, map_app, <- !app_assoc.
Qed.

Lemma region_tlsf_run max root : forall acc, region_tlsf root max acc = filled max acc (map tlsf_region root).
Proof.
  induction root as [|tp root IH]; intros acc; cbn [region_tlsf map]; [by rewrite filled_nil|].
  destruct (Z.ltb_spec (zlen acc) max); [by rewrite IH, filled_cons|by rewrite filled_full].
Qed.

(** The enumeration terminates without a fault and fills the caller's array with the
    first [max_regions] of: the partial and full slab pages class by class, the TLSF
    arenas, the emergency reserve.  Empty slab pages and blocks mapped from the system,
    which the documentation promises, are not among them. *)
Theorem enumerate_regions_spec s L root buf size max :
  listed s (Z.to_nat SLAB_CLASS_COUNT) 0 L -> (forall x, x ∈ concat L -> is_Some (pages (tm s) !! x)) -> 0 <= max ->
  mp_enumerate_regions s root buf size max = Done (take (Z.to_nat max) (all_regions s L root buf size)).
Proof.
  intros HL Hp Hm. unfold mp_enumerate_regions. destruct (Z.eqb_spec max 0) as [->|Hm0]; [done|].
  rewrite (region_classes_run s max _ _ _ [] HL Hp). cbn [mbind outcome_bind]. rewrite region_tlsf_run, filled_app. f_equal.
  assert (E : forall l, filled max [] l = take (Z.to_nat max) l) by (intros l; unfold filled; by rewrite zlen_nil, Z.sub_0_r).
  unfold all_regions. rewrite app_assoc. set (AB := class_regions _ _ _ ++ _). set (C := if buf =? NULL then _ else _).
  rewrite <- (E (AB ++ C)), <- (filled_app max [] AB C). subst C. set (acc := filled max [] AB). destruct (buf =? NULL); cbn [negb andb]; [by rewrite filled_nil|].
  destruct (Z.ltb_spec (zlen acc) max); [by rewrite filled_cons, filled_nil by done|by rewrite filled_full by done].
Qed.

End Regions.

(** ** One allocation *)

Section Info.
Context `{TT : Tiers}.

Definition info_of (ptr : Z) (hd : mp_block_header) : mp_allocation_info :=
  AllocInfo ptr (requested_size hd) (usable_size hd) (alloc_type hd) (Header.slab_class hd) (raw_base hd) (alloc_file hd) (alloc_line hd) (alloc_func hd)
    (backtrace_depth hd).

(** [slot_live] is the check for pools without a live list; the captured call stack is not
    represented.  [None] is [false]. *)
Definition mp_get_allocation_info (slot_live : Z -> mp_block_header -> outcome bool) (p : pool) (ptr : Z) : outcome (option mp_allocation_info) :=
  if ptr =? NULL then Done None
  else
    let header := ptr - SIZEOF_HEADER in
    hd ← ld_hdr p header;
    if negb (magic hd =? MP_MAGIC_HEAD) then Done None
    else if on p MP_FLAG_FAST_PATH then
      live ← slot_live header hd;
      Done (if live : bool
            then Some (AllocInfo ptr (requested_size hd) (usable_size hd) (alloc_type hd) (Header.slab_class hd) (raw_base hd) NULL 0 NULL 0)
            else None)
    else
      found ← find_active (S (base.size (nxt (alinks p)))) (alinks p) (active_head p) header;
      Done (if found : bool then Some (info_of ptr hd) else None).

(** For an address whose header can be read, the metadata is that of the header exactly
    when the address is the payload of a live block, and nothing otherwise. *)
Theorem allocation_info_exact slot_live p L ptr hd :
  front_ok p L -> hdrs p !! (ptr - SIZEOF_HEADER) = Some hd ->
  mp_get_allocation_info slot_live p ptr = Done (if bool_decide (ptr - SIZEOF_HEADER ∈ L) then Some (info_of ptr hd) else None).
Proof.
  intros F Hh. assert (Hl : ptr - SIZEOF_HEADER ∈ L -> magic hd = MP_MAGIC_HEAD /\ 0 < ptr - SIZEOF_HEADER).
  { intros Hx. destruct (fo_blocks _ _ F _ Hx) as [hx B]. pose proof (bo_hdr _ _ _ B). assert (hx = hd) as -> by congruence. split; apply B. }
  unfold mp_get_allocation_info. destruct (Z.eqb_spec ptr NULL) as [->|Hp].
  { rewrite bool_decide_eq_false_2; [done|]. intros Hx. destruct (Hl Hx). unfold NULL, SIZEOF_HEADER in *. lia. }
  unfold ld_hdr. rewrite Hh, (fo_live_list _ _ F). cbn [mbind outcome_bind]. destruct (Z.eqb_spec (magic hd) MP_MAGIC_HEAD) as [Hm|Hm]; cbn [negb].
  - rewrite (find_active_spec (alinks p) NULL _ L); [by destruct (bool_decide _)|apply (fo_list _ _ F)|].
    pose proof (fo_list _ _ F) as HL. assert (length L <= base.size (nxt (alinks p)))%nat; [|lia].
    apply nodup_size; [apply HL|]. intros y Hy. by destruct (dll_node _ _ _ y HL Hy) as [[? ?] ?].
  - rewrite bool_decide_eq_false_2; [done|]. intros Hx. by destruct (Hl Hx).
Qed.

End Info.

(** ** Concrete runs *)

(** The slot handed out by the demonstration class of [Slab]. *)
Definition demo_slot_header : mp_block_header :=
  Header MP_MAGIC_HEAD ALLOC_TYPE_SLAB 1 MP_BLOCK_FLAG_COUNTED 40 64 327752 NULL NULL 0 NULL 0.

Lemma fastpath_slot_live_exact_witness : @mp_fastpath_slot_live bump (ss_mem demo_one) 327752 demo_slot_header = Done true.
Proof.
  assert (Hr : @slab_reach bump demo_boot demo_one).
  { apply (reach_step demo_boot demo_boot (SAlloc 40)); [apply reach_init|vm_compute; exact eq_refl|]. apply done_or_eq. vm_compute. exact eq_refl. }
  destruct (@reach_ok bump _ _ _ _ (@boot_ok bump 0 1 64 bump0 demo_geometry ltac:(lia)) Hr) as [(P & F & E & Q & Hc) _].
  pose proof (co_slab _ _ _ _ _ _ _ _ _ Hc) as Hok. assert (Hheld : ss_held demo_one = [327752]) by (vm_compute; reflexivity).
  assert (Hin : 327752 ∈ Q ++ ss_held demo_one) by (rewrite Hheld, elem_of_app; right; apply list_elem_of_here).
  destruct (proj1 (so_out _ _ _ _ _ _ _ _ Hok 327752) Hin) as (pg & Fr & Hpg & Hs & HFr).
  pose proof (so_pages _ _ _ _ _ _ _ _ Hok _ _ Hpg) as Hp. assert (pg = 327680) as ->.
  { rewrite <- (page_of_slot demo_sz (slots_of demo_sz) pg 327752 demo_geometry (pg_aligned _ _ _ _ _ Hp) Hs). vm_compute. reflexivity. }
  pose proof (free_length _ _ _ _ _ demo_geometry Hp) as Hlen.
  assert (Epg : exists p, pages (ss_mem demo_one) !! 327680 = Some p /\ class_index p = 1 /\ page_free_count p = slots_of demo_sz)
    by (eexists; vm_compute; split_and!; reflexivity).
  destruct Epg as (p & Ep & Ec & Ef).
  destruct (@fastpath_slot_live_exact bump demo_sz (slots_of demo_sz) (ss_mem demo_one) (ss_class demo_one) P F E (Q ++ ss_held demo_one) 327680 Fr p 327752
    demo_slot_header Hok Hpg Hs eq_refl eq_refl ltac:(vm_compute; reflexivity) Ep Ec ltac:(lia) ltac:(vm_compute; reflexivity)) as (live & -> & H).
  by rewrite (proj2 H Hin).
Defined.

Lemma enumerate_regions_spec_witness :
  mp_enumerate_regions demo_slab_tier [TPool 0 ∅ ∅ 8192 4096 4096] 1048576 4096 3 =
    Done [Region 65536 SLAB_PAGE_SIZE ALLOC_TYPE_SLAB 1 true; Region 131072 SLAB_PAGE_SIZE ALLOC_TYPE_SLAB 1 false; Region 8192 4096 ALLOC_TYPE_TLSF 0 false].
Proof.
  rewrite (enumerate_regions_spec demo_slab_tier demo_lists [TPool 0 ∅ ∅ 8192 4096 4096] 1048576 4096 3 demo_listed).
  - vm_compute. reflexivity.
  - intros x Hx. cbn in Hx. apply elem_of_cons in Hx as [->|Hx]; [vm_compute; eauto|].
    apply list_elem_of_singleton in Hx as ->. vm_compute. eauto.
  - lia.
Defined.

Lemma allocation_info_exact_witness : exists info, mp_get_allocation_info (fun _ _ => Fault) snap_pool 4248 = Done (Some info) /\ i_requested_size info = 6291456.
Proof.
  assert (E : exists hd, hdrs snap_pool !! (4248 - SIZEOF_HEADER) = Some hd /\ requested_size hd = 6291456) by (eexists; vm_compute; split; reflexivity).
  destruct E as (hd & Eh & Er). exists (info_of 4248 hd). split; [|exact Er].
  rewrite (allocation_info_exact (fun _ _ => Fault) snap_pool snap_blocks 4248 hd snap_ok Eh).
  assert (B : bool_decide (4248 - SIZEOF_HEADER ∈ snap_blocks) = true) by (vm_compute; reflexivity). rewrite B. reflexivity.
Defined.
