(* ===== verification/Frame.v ===== *)
(** * Frame arenas

    [mp_frame_arena_create] and its companions in [src/cmem_alloc.c]: two pools used in
    turn, the one a frame starts on being reset.  The pools are behind an interface that
    says what the front end's theorems say of them: allocation adds a new block, reset
    empties a pool, destruction ends it. *)
From S2P Require Import Prelude.
From Stdlib Require Import ZArith Lia.
From stdpp Require Import base option list gmap.
Open Scope Z_scope.

(** [pool_blocks w !! a = Some B]: a pool lives at [a] and [B] are its live blocks. *)
Class FramePools := {
  world : Type;
  pool_blocks : world -> gmap Z (list Z);
  fp_create : world -> Z -> Z * world;                 (* [mp_create(cap, MP_FLAG_DEFAULT)] *)
  fp_alloc : world -> Z -> Z -> Z * world;             (* pool, size *)
  fp_reset : world -> Z -> world;
  fp_destroy : world -> Z -> world;
  fp_create_spec : forall w cap r w', fp_create w cap = (r, w') ->
    if r =? NULL then pool_blocks w' = pool_blocks w
    else pool_blocks w !! r = None /\ pool_blocks w' = <[r := []]> (pool_blocks w);
  fp_alloc_spec : forall w a B n r w', pool_blocks w !! a = Some B -> fp_alloc w a n = (r, w') ->
    if r =? NULL then pool_blocks w' = pool_blocks w
    else (r ∉ B) /\ pool_blocks w' = <[a := r :: B]> (pool_blocks w);
  fp_reset_spec : forall w a B, pool_blocks w !! a = Some B -> pool_blocks (fp_reset w a) = <[a := []]> (pool_blocks w);
  fp_destroy_spec : forall w a B, pool_blocks w !! a = Some B -> pool_blocks (fp_destroy w a) = delete a (pool_blocks w);
}.

Record cmem_frame_arena := FArena { pool_a : Z; pool_b : Z; active_pool : Z; frame_index : Z }.

Section Frame.
Context `{FramePools}.

(** [got]: what [malloc] answered. *)
Definition mp_frame_arena_create (w : world) (got : bool) (frame_capacity : Z) : option cmem_frame_arena * world :=
  if negb got then (None, w)
  else
    let cap := if 0 <? frame_capacity then frame_capacity else 1024 * 1024 in
    let '(a, w) := fp_create w cap in
    let '(b, w) := fp_create w cap in
    if (a =? NULL) || (b =? NULL) then
      let w := if negb (a =? NULL) then fp_destroy w a else w in
      let w := if negb (b =? NULL) then fp_destroy w b else w in
      (None, w)
    else (Some (FArena a b a 0), w).

Definition mp_frame_alloc (w : world) (f : cmem_frame_arena) (size : Z) : Z * world :=
  if active_pool f =? NULL then (NULL, w) else fp_alloc w (active_pool f) size.

Definition mp_frame_end (w : world) (f : cmem_frame_arena) : cmem_frame_arena * world :=
  let i := u64 (frame_index f + 1) in
  if active_pool f =? pool_a f
  then (FArena (pool_a f) (pool_b f) (pool_b f) i, fp_reset w (pool_b f))
  else (FArena (pool_a f) (pool_b f) (pool_a f) i, fp_reset w (pool_a f)).

Definition mp_frame_arena_destroy (w : world) (f : cmem_frame_arena) : world :=
  let w := if negb (pool_a f =? NULL) then fp_destroy w (pool_a f) else w in
  if negb (pool_b f =? NULL) then fp_destroy w (pool_b f) else w.

(** ** What a program sees *)

Inductive frame_op := FAlloc (size : Z) | FEnd.

(** The arena, the pools, and what the program was given in this frame and in the last. *)
Record frame_state := FState { fs_arena : cmem_frame_arena; fs_world : world; fs_now : list Z; fs_before : list Z }.

Definition frame_step (s : frame_state) (op : frame_op) : frame_state :=
  match op with
  | FAlloc n =>
      let '(r, w) := mp_frame_alloc (fs_world s) (fs_arena s) n in
      FState (fs_arena s) w (if r =? NULL then fs_now s else r :: fs_now s) (fs_before s)
  | FEnd =>
      let '(f, w) := mp_frame_end (fs_world s) (fs_arena s) in FState f w [] (fs_now s)
  end.

Definition idle_pool (f : cmem_frame_arena) : Z := if active_pool f =? pool_a f then pool_b f else pool_a f.

(** [O]: the other pools of the world. *)
Record frame_ok (O : gmap Z (list Z)) (s : frame_state) : Prop := {
  fr_distinct : pool_a (fs_arena s) <> pool_b (fs_arena s) /\ pool_a (fs_arena s) <> NULL /\ pool_b (fs_arena s) <> NULL;
  fr_active : active_pool (fs_arena s) = pool_a (fs_arena s) \/ active_pool (fs_arena s) = pool_b (fs_arena s);
  fr_others : O !! pool_a (fs_arena s) = None /\ O !! pool_b (fs_arena s) = None;
  fr_blocks : pool_blocks (fs_world s) = <[active_pool (fs_arena s) := fs_now s]> (<[idle_pool (fs_arena s) := fs_before s]> O);
  fr_nodup : NoDup (fs_now s) /\ NoDup (fs_before s);
}.

Lemma idle_apart O s : frame_ok O s -> active_pool (fs_arena s) <> idle_pool (fs_arena s) /\ active_pool (fs_arena s) <> NULL.
Proof.
  intros [(Hd & Ha & Hb) Hact _ _ _]. unfold idle_pool. destruct (Z.eqb_spec (active_pool (fs_arena s)) (pool_a (fs_arena s))) as [E|E]; [split; congruence|].
  destruct Hact; [done|]. split; congruence.
Qed.

Lemma frame_step_ok O s op : frame_ok O s -> frame_ok O (frame_step s op).
Proof.
  intros Hs. pose proof (idle_apart O s Hs) as [Hne H0]. pose proof Hs as [Hd Ha Ho Hb [Hn Hp]]. destruct s as [f w now before]; cbn [fs_arena fs_world fs_now fs_before] in *.
  destruct op as [n|]; cbn [frame_step fs_arena fs_world fs_now fs_before].
  - unfold mp_frame_alloc. rewrite (proj2 (Z.eqb_neq _ _)) by done. destruct (fp_alloc w (active_pool f) n) as [r w'] eqn:E.
    assert (Hl : pool_blocks w !! active_pool f = Some now) by (by rewrite Hb, lookup_insert_eq).
    pose proof (fp_alloc_spec _ _ _ _ _ _ Hl E) as S. destruct (r =? NULL).
    { split; cbn [fs_arena fs_world fs_now fs_before]; try done. by rewrite S. }
    destruct S as [Hr S].
    split; cbn [fs_arena fs_world fs_now fs_before]; try done; [by rewrite S, Hb, insert_insert_eq|]. split; [by apply NoDup_cons|done].
  - unfold mp_frame_end, idle_pool in *. destruct (Z.eqb_spec (active_pool f) (pool_a f)) as [E|E].
    + assert (Hl : pool_blocks w !! pool_b f = Some before) by (by rewrite Hb, lookup_insert_ne, lookup_insert_eq by congruence).
      split; cbn [fs_arena fs_world fs_now fs_before pool_a pool_b active_pool]; try done; [by right| |split; [constructor|done]].
      unfold idle_pool. cbn [pool_a pool_b active_pool]. rewrite (proj2 (Z.eqb_neq _ _)) by (destruct Hd; congruence).
      rewrite (fp_reset_spec _ _ _ Hl), Hb, E. rewrite (insert_insert_ne _ _ (pool_b f)), insert_insert_eq by (destruct Hd; congruence).
      by rewrite insert_insert_ne by (destruct Hd; congruence).
    + destruct Ha as [Ha|Ha]; [done|]. assert (Hl : pool_blocks w !! pool_a f = Some before) by (by rewrite Hb, lookup_insert_ne, lookup_insert_eq by congruence).
      split; cbn [fs_arena fs_world fs_now fs_before pool_a pool_b active_pool]; try done; [by left| |split; [constructor|done]].
      unfold idle_pool. cbn [pool_a pool_b active_pool]. rewrite Z.eqb_refl.
      rewrite (fp_reset_spec _ _ _ Hl), Hb, Ha. rewrite (insert_insert_ne _ _ (pool_a f)), insert_insert_eq by (destruct Hd; congruence).
      by rewrite insert_insert_ne by (destruct Hd; congruence).
Qed.

Lemma frame_run_ok O ops : forall s, frame_ok O s -> frame_ok O (foldl frame_step s ops).
Proof. induction ops as [|op ops IH]; intros s Hs; [done|]. apply IH. by apply frame_step_ok. Qed.

Lemma create_ok w got cap f w' : pool_blocks w !! NULL = None -> mp_frame_arena_create w got cap = (Some f, w') ->
  frame_ok (pool_blocks w) (FState f w' [] []).
Proof.
  intros Hnull. unfold mp_frame_arena_create. destruct got; cbn [negb]; [|done]. set (c := if 0 <? cap then cap else _).
  destruct (fp_create w c) as [a w1] eqn:E1. destruct (fp_create w1 c) as [b w2] eqn:E2.
  pose proof (fp_create_spec _ _ _ _ E1) as S1. pose proof (fp_create_spec _ _ _ _ E2) as S2.
  destruct (Z.eqb_spec a NULL) as [Ha|Ha]; [done|]. destruct (Z.eqb_spec b NULL) as [Hb|Hb]; [done|]. cbn [orb]. intros [= <- <-].
  destruct S1 as [F1 B1], S2 as [F2 B2]. rewrite B1 in F2. assert (Hab : a <> b) by (intros ->; by rewrite lookup_insert_eq in F2).
  rewrite lookup_insert_ne in F2 by done. split; cbn [fs_arena fs_world fs_now fs_before pool_a pool_b active_pool]; try done; [by left| |split; constructor].
  unfold idle_pool. cbn [pool_a pool_b active_pool]. rewrite Z.eqb_refl, B2, B1. by apply insert_insert_ne.
Qed.

(** A frame arena keeps what was allocated in a frame for exactly one frame more.  After
    any sequence of allocations and frame ends the active pool holds just the blocks handed
    out in this frame, the other pool just those of the frame before, none of them twice;
    no other pool is touched, and destroying the arena gives both pools back. *)
Theorem frame_lifetime w got cap f w' ops :
  pool_blocks w !! NULL = None -> mp_frame_arena_create w got cap = (Some f, w') ->
  let s := foldl frame_step (FState f w' [] []) ops in
  pool_blocks (fs_world s) !! active_pool (fs_arena s) = Some (fs_now s) /\
  pool_blocks (fs_world s) !! idle_pool (fs_arena s) = Some (fs_before s) /\
  NoDup (fs_now s) /\ NoDup (fs_before s) /\
  (forall a, a <> active_pool (fs_arena s) -> a <> idle_pool (fs_arena s) -> pool_blocks (fs_world s) !! a = pool_blocks w !! a) /\
  pool_blocks (mp_frame_arena_destroy (fs_world s) (fs_arena s)) = pool_blocks w.
Proof.
  intros Hnull Hc s. pose proof (frame_run_ok _ ops _ (create_ok _ _ _ _ _ Hnull Hc)) as Hs. fold s in Hs.
  destruct (idle_apart _ _ Hs) as [Hne _]. destruct Hs as [(Hd & Ha & Hb) Hact [Oa Ob] E [N1 N2]]. set (fa := fs_arena s) in *.
  split; [by rewrite E, lookup_insert_eq|]. split; [by rewrite E, lookup_insert_ne, lookup_insert_eq|]. split; [done|]. split; [done|]. split.
  { intros a H1 H2. by rewrite E, !lookup_insert_ne. }
  assert (Hall : exists A B, pool_blocks (fs_world s) = <[pool_a fa := A]> (<[pool_b fa := B]> (pool_blocks w))).
  { rewrite E. unfold idle_pool. destruct (Z.eqb_spec (active_pool fa) (pool_a fa)) as [->|Hx]; [eauto|]. destruct Hact as [Hz|Hz]; [done|rewrite Hz].
    exists (fs_before s), (fs_now s). by apply insert_insert_ne. }
  destruct Hall as (A & B & E'). unfold mp_frame_arena_destroy. rewrite !(proj2 (Z.eqb_neq _ NULL)) by done. cbn [negb].
  assert (E1 : pool_blocks (fp_destroy (fs_world s) (pool_a fa)) = <[pool_b fa := B]> (pool_blocks w)).
  { rewrite (fp_destroy_spec _ _ A) by (by rewrite E', lookup_insert_eq). rewrite E', delete_insert_id by (by rewrite lookup_insert_ne). done. }
  rewrite (fp_destroy_spec _ _ B) by (by rewrite E1, lookup_insert_eq). by rewrite E1, delete_insert_id.
Qed.

End Frame.

(** ** Concrete runs *)

Module ToyFrames.

(** A number above all of [l], and positive. *)
Definition above (l : list Z) : Z := 1 + foldr Z.max 0 l.

Lemma above_fresh l : 0 < above l /\ above l ∉ l.
Proof.
  assert (H : 0 <= foldr Z.max 0 l /\ forall x, x ∈ l -> x <= foldr Z.max 0 l).
  { induction l as [|y l [IH0 IH]]; cbn [foldr]; [split; [done|]; intros x Hx; by apply not_elem_of_nil in Hx|].
    split; [lia|]. intros x [->|Hx]%elem_of_cons; [lia|]. specialize (IH x Hx). lia. }
  unfold above. split; [lia|]. intros Hx%H. lia.
Qed.

Definition toy_create (w : gmap Z (list Z)) (cap : Z) : Z * gmap Z (list Z) :=
  let a := above (map fst (map_to_list w)) in (a, <[a := []]> w).

Definition toy_alloc (w : gmap Z (list Z)) (a n : Z) : Z * gmap Z (list Z) :=
  match w !! a with Some B => (above B, <[a := above B :: B]> w) | None => (NULL, w) end.

Lemma toy_create_spec w cap r w' : toy_create w cap = (r, w') ->
  if r =? NULL then w' = w else w !! r = None /\ w' = <[r := []]> w.
Proof.
  unfold toy_create. intros [= <- <-]. set (l := map fst (map_to_list w)). destruct (above_fresh l) as [H1 H2].
  rewrite (proj2 (Z.eqb_neq _ _)) by (unfold NULL; lia). split; [|done]. destruct (w !! above l) as [B|] eqn:E; [|done]. destruct H2.
  apply list_elem_of_fmap. exists (above l, B). split; [done|]. by apply elem_of_map_to_list.
Qed.

Lemma toy_alloc_spec w a B n r w' : w !! a = Some B -> toy_alloc w a n = (r, w') ->
  if r =? NULL then w' = w else (r ∉ B) /\ w' = <[a := r :: B]> w.
Proof.
  unfold toy_alloc. intros ->. intros [= <- <-]. destruct (above_fresh B) as [H1 H2]. rewrite (proj2 (Z.eqb_neq _ _)) by (unfold NULL; lia). done.
Qed.

#[export] Instance toy_frames : FramePools := {|
  world := gmap Z (list Z);
  pool_blocks := fun w => w;
  fp_create := toy_create;
  fp_alloc := toy_alloc;
  fp_reset := fun w a => match w !! a with Some _ => <[a := []]> w | None => w end;
  fp_destroy := fun w a => delete a w;
  fp_create_spec := toy_create_spec;
  fp_alloc_spec := toy_alloc_spec;
  fp_reset_spec := ltac:(intros w a B E; cbn; by rewrite E);
  fp_destroy_spec := ltac:(done);
|}.

Definition frames_ops : list frame_op := [FAlloc 8; FAlloc 8; FEnd; FAlloc 8; FEnd; FAlloc 8; FEnd].
Definition frames_made : option cmem_frame_arena * world := mp_frame_arena_create (∅ : @world toy_frames) true 0.
Definition frames_end : frame_state := foldl frame_step (FState (FArena 1 2 1 0) frames_made.2 [] []) frames_ops.

End ToyFrames.

(** After three frames with two, one and one blocks the last block is still there. *)
Lemma frame_lifetime_witness :
  pool_blocks (fs_world ToyFrames.frames_end) !! idle_pool (fs_arena ToyFrames.frames_end) = Some (fs_before ToyFrames.frames_end) /\
  length (fs_before ToyFrames.frames_end) = 1%nat.
Proof.
  split; [|vm_compute; reflexivity].
  apply (frame_lifetime (∅ : @world ToyFrames.toy_frames) true 0 (FArena 1 2 1 0) ToyFrames.frames_made.2 ToyFrames.frames_ops);
    [reflexivity|vm_compute; reflexivity].
Defined.
