(* ===== verification/Loc.v ===== *)
(** * Allocations with a source location, and copies of strings

    [mp_alloc_loc] ([src/cmem_alloc.c]) and the [_loc] variants of [src/cmem.c], which
    stamp the caller's file, line and function into the header; [mp_strdup], [mp_memdup] and
    [mp_asprintf], which fill the block they allocate; and the batch of [mp_realloc].  The
    contents copied are values: they belong to the caller and outlive the allocation. *)
From S2P Require Import Prelude Text Header Dll SizeClass Front FrontSpec FrontProps.
From Stdlib Require Import ZArith Lia.
From stdpp Require Import base option list gmap.
Open Scope Z_scope.

(** Who asks: addresses of the strings, and the line. *)
Record location := Loc { l_file : Z; l_line : Z; l_func : Z }.

(** The location written by a caller that passes none. *)
Definition nowhere : location := Loc NULL 0 NULL.

Definition located (hd : mp_block_header) (l : location) (depth : Z) : mp_block_header :=
  Header (magic hd) (alloc_type hd) (slab_class hd) (hflags hd) (requested_size hd) (usable_size hd) (raw_base hd) (subpool hd)
    (l_file l) (l_line l) (l_func l) depth.

(** [memcpy] of the bytes [l] to [a]. *)
Definition write (m : Z -> Z) (a : Z) (l : list Z) : Z -> Z :=
  fun x => if (a <=? x) && (x <? a + zlen l) then default 0 (l !! Z.to_nat (x - a)) else m x.

Section Loc.
Context `{TT : Tiers}.

(** [frames]: what [backtrace] returns. *)
Definition stamp_location (p : pool) (ptr : Z) (l : location) (frames : Z) : outcome pool :=
  let header := ptr - SIZEOF_HEADER in
  hd ← ld_hdr p header;
  Done (set_hdrs p (<[header := located hd l (if on p MP_FLAG_TRACK_LOCATIONS then frames else backtrace_depth hd)]> (hdrs p))).

Definition with_location (r : outcome (Z * pool)) (l : location) (frames : Z) : outcome (Z * pool) :=
  r ← r;
  let '(ptr, p) := r in
  if ptr =? NULL then Done (NULL, p) else p ← stamp_location p ptr l frames; Done (ptr, p).

Definition mp_alloc_loc (p : pool) (size : Z) (l : location) (frames : Z) : outcome (Z * pool) := with_location (mp_alloc p size) l frames.
Definition mp_calloc_loc (p : pool) (num size : Z) (l : location) (frames : Z) : outcome (Z * pool) := with_location (mp_calloc p num size) l frames.
Definition mp_realloc_loc (p : pool) (ptr new_size : Z) (l : location) (frames : Z) : outcome (Z * pool) := with_location (mp_realloc p ptr new_size) l frames.

Definition mp_reallocarray_loc (p : pool) (ptr nmemb size : Z) (l : location) (frames : Z) : outcome (Z * pool) :=
  if negb (nmemb =? 0) && (SIZE_MAX / nmemb <? size) then Done (NULL, p)
  else mp_realloc_loc p ptr (u64 (nmemb * size)) l frames.

(** The results, their number that are not null, and the pool. *)
Fixpoint mp_realloc_batch (p : pool) (ptrs : list (Z * Z)) : outcome (list Z * Z * pool) :=
  match ptrs with
  | [] => Done ([], 0, p)
  | (ptr, new_size) :: ptrs =>
      r ← mp_realloc p ptr new_size;
      let '(r1, p) := r in
      r ← mp_realloc_batch p ptrs;
      let '(rs, success, p) := r in
      Done (r1 :: rs, (if r1 =? NULL then success else u64 (success + 1)), p)
  end.

(** Fill the block that was handed out, if one was. *)
Definition fill_with (r : outcome (Z * pool)) (bytes : list Z) : outcome (Z * pool) :=
  r ← r;
  let '(dup, p) := r in
  Done (dup, if dup =? NULL then p else set_mem p (write (mem p) dup bytes)).

(** [None] is a null argument. *)
Definition mp_strdup_loc (p : pool) (s : option (list Z)) (l : location) (frames : Z) : outcome (Z * pool) :=
  match s with
  | None => Done (NULL, p)
  | Some s => fill_with (mp_alloc_loc p (zlen s + 1) l frames) (s ++ [0])
  end.

Definition mp_memdup_loc (p : pool) (src : option (list Z)) (l : location) (frames : Z) : outcome (Z * pool) :=
  match src with
  | None => Done (NULL, p)
  | Some bytes => if zlen bytes =? 0 then Done (NULL, p) else fill_with (mp_alloc_loc p (zlen bytes) l frames) bytes
  end.

(** [text]: what the format and its arguments print; [None] when that fails. *)
Definition mp_asprintf_loc (p : pool) (text : option (list Z)) (l : location) (frames : Z) : outcome (Z * pool) :=
  match text with
  | None => Done (NULL, p)
  | Some t => fill_with (mp_alloc_loc p (zlen t + 1) l frames) (t ++ [0])
  end.

Definition mp_strdup (p : pool) (s : option (list Z)) (frames : Z) : outcome (Z * pool) := mp_strdup_loc p s nowhere frames.
Definition mp_memdup (p : pool) (src : option (list Z)) (frames : Z) : outcome (Z * pool) := mp_memdup_loc p src nowhere frames.

Definition mp_asprintf (p : pool) (text : option (list Z)) : outcome (Z * pool) :=
  match text with
  | None => Done (NULL, p)
  | Some t => fill_with (mp_alloc p (zlen t + 1)) (t ++ [0])
  end.

(** ** A header that differs in its location only *)

Lemma located_ok p L h hd l n : front_ok p L -> hdrs p !! h = Some hd -> front_ok (set_hdrs p (<[h := located hd l n]> (hdrs p))) L.
Proof.
  intros F Hh. assert (Hr : requested_total (set_hdrs p (<[h := located hd l n]> (hdrs p))) L = requested_total p L).
  { clear F. unfold requested_total. induction L as [|x L IH]; [done|]. cbn [foldr]. rewrite IH. f_equal. unfold requested_of. cbn [hdrs set_hdrs].
    destruct (decide (x = h)) as [->|Hne]; [by rewrite lookup_insert_eq, Hh|by rewrite lookup_insert_ne]. }
  pose proof (fo_blocks _ _ F) as FB. destruct F. split; unfold on in *; cbn [alinks active_head rs tiers ac cf hdrs set_hdrs]; rewrite ?Hr; try done.
  intros x Hx. destruct (FB x Hx) as [hx B]. destruct (decide (x = h)) as [->|Hne].
  - assert (hx = hd) as -> by (pose proof (bo_hdr _ _ _ B); congruence). exists (located hd l n). destruct B.
    split; cbn [alinks active_head rs tiers ac cf hdrs set_hdrs located magic alloc_type hflags requested_size usable_size raw_base]; try done. by rewrite lookup_insert_eq.
  - exists hx. destruct B. split; try done. cbn [hdrs set_hdrs]. by rewrite lookup_insert_ne.
Qed.

(** What an allocation with a location returns. *)
Definition loc_answer (p : pool) (L : list Z) (size : Z) (l : location) (r : Z) (p' : pool) : Prop :=
  cf p' = cf p /\ kept p p' L /\
  (r = NULL /\ front_ok p' L \/
   exists h hd, r = h + SIZEOF_HEADER /\ (h ∉ L) /\ 0 < r /\ front_ok p' (h :: L) /\ hdrs p' !! h = Some hd /\ requested_size hd = size /\
     alloc_file hd = l_file l /\ alloc_line hd = l_line l /\ alloc_func hd = l_func l).

Lemma alloc_loc_run p L size l frames :
  front_ok p L -> table_ok p -> on p MP_FLAG_CACHE_ALIGNED = false -> 0 <= size -> size + SIZEOF_HEADER + 1 < 2 ^ 64 ->
  exists r p', mp_alloc_loc p size l frames = Done (r, p') /\ loc_answer p L size l r p'.
Proof.
  intros F Ht Hca H0 H1. unfold mp_alloc_loc, with_location. destruct (mp_alloc_spec p L size F Ht Hca H0 H1) as (r & p1 & p2 & -> & A & Hp & _). cbn [mbind outcome_bind].
  destruct A as (C & _ & _ & K & A). pose proof (kept_trans _ _ _ _ K (breaker_kept p1 p2 L size Hp)) as K2. pose proof (breaker_cf p1 p2 size Hp) as C2.
  destruct A as [(-> & F1 & _)|(h & hd & -> & Hn & Hr & F1 & Hh & Hreq & _)].
  - rewrite Z.eqb_refl. eexists _, _. split; [done|]. split; [congruence|]. split; [done|]. left. split; [done|]. by eapply breaker_front.
  - rewrite (proj2 (Z.eqb_neq _ _)) by (unfold NULL; lia). pose proof (breaker_front p1 p2 _ _ F1 Hp) as F2.
    assert (Hh2 : hdrs p2 !! h = Some hd) by (destruct Hp as [->| ->]; [done|]; by rewrite (proj1 (proj2 (proj2 (proj2 (proj2 (proj2 (breaker_same p1 size)))))))).
    unfold stamp_location. replace (h + SIZEOF_HEADER - SIZEOF_HEADER) with h by lia. unfold ld_hdr. rewrite Hh2. cbn [mbind outcome_bind].
    eexists _, _. split; [done|]. split; [cbn; congruence|]. split.
    + intros x Hx. destruct (K2 x Hx) as (X1 & X2 & X3). cbn [hdrs tiers mem set_hdrs]. rewrite lookup_insert_ne by (by intros ->). done.
    + right. exists h. eexists. split; [done|]. split; [done|]. split; [done|]. split; [by apply located_ok|]. cbn [hdrs set_hdrs]. rewrite lookup_insert_eq. done.
Qed.

Lemma write_inside m a l i : 0 <= i < zlen l -> write m a l (a + i) = default 0 (l !! Z.to_nat i).
Proof. intros Hi. unfold write. rewrite (proj2 (Z.leb_le _ _)), (proj2 (Z.ltb_lt _ _)) by lia. cbn [andb]. by replace (a + i - a) with i by lia. Qed.

Lemma write_outside m a l x : x < a \/ a + zlen l <= x -> write m a l x = m x.
Proof. intros Hx. unfold write. destruct (Z.leb_spec a x), (Z.ltb_spec x (a + zlen l)); try done. lia. Qed.

(** The block holds exactly [bytes]. *)
Definition holds (p : pool) (a : Z) (bytes : list Z) : Prop := forall i, 0 <= i < zlen bytes -> Some (mem p (a + i)) = bytes !! Z.to_nat i.

(** What a filled block is: null, or a new block of exactly the bytes. *)
Definition dup_answer (p : pool) (L : list Z) (bytes : list Z) (l : location) (r : Z) (p' : pool) : Prop :=
  loc_answer p L (zlen bytes) l r p' /\ (r <> NULL -> holds p' r bytes).

Lemma fill_run p L bytes l frames :
  front_ok p L -> table_ok p -> on p MP_FLAG_CACHE_ALIGNED = false -> zlen bytes + SIZEOF_HEADER + 1 < 2 ^ 64 ->
  exists r p', fill_with (mp_alloc_loc p (zlen bytes) l frames) bytes = Done (r, p') /\ dup_answer p L bytes l r p'.
Proof.
  intros F Ht Hca H1. destruct (alloc_loc_run p L (zlen bytes) l frames F Ht Hca (zlen_nonneg _) H1) as (r & p1 & -> & C & K & A). unfold fill_with. cbn [mbind outcome_bind].
  eexists _, _. split; [done|]. destruct A as [[-> F1]|(h & hd & -> & Hn & Hr & F1 & Hh & Hreq & Hl)].
  - rewrite Z.eqb_refl. split; [|done]. split; [done|]. split; [done|]. by left.
  - rewrite (proj2 (Z.eqb_neq _ _)) by (unfold NULL; lia). destruct (fo_blocks _ _ F1 h (list_elem_of_here _ _)) as [hx B].
    assert (hx = hd) as -> by (pose proof (bo_hdr _ _ _ B); congruence). destruct (bo_owned _ _ _ B) as (n & On & Hsz & _).
    pose proof (canary_len_range (flags (cf p1))). split.
    + split; [done|]. split.
      * intros x Hx. destruct (K x Hx) as (X1 & X2 & X3). cbn [hdrs tiers mem set_mem]. split; [done|]. split; [done|]. intros m a Om Ha.
        rewrite write_outside; [by apply (X3 m)|]. assert (Ox : owned (tiers p1) !! x = Some m) by congruence.
        destruct (fo_disjoint _ _ F1 _ _ _ _ On Ox); [by intros ->|right; unfold SIZEOF_HEADER in *; lia|left; unfold SIZEOF_HEADER in *; lia].
      * right. exists h, hd. do 3 (split; [done|]). split; [by apply (front_ok_ext p1)|]. by repeat split; try apply Hl.
    + intros _ i Hi. cbn [mem set_mem]. rewrite write_inside by done. destruct (lookup_lt_is_Some_2 bytes (Z.to_nat i)) as [b ->]; [unfold zlen in Hi; lia|done].
Qed.

End Loc.

Section Copies.
Context `{TT : Tiers}.

(** What the string at [a] reads as, given that its terminator lies within [n] bytes. *)
Definition c_string (p : pool) (a : Z) (n : nat) : list Z := until_nul (map (fun i => mem p (a + Z.of_nat i)) (seq 0 n)).

Lemma holds_map p a bytes : holds p a bytes -> map (fun i => mem p (a + Z.of_nat i)) (seq 0 (length bytes)) = bytes.
Proof.
  intros H. apply list_eq. intros i. destruct (decide (i < length bytes)%nat) as [Hi|Hi].
  - rewrite list_lookup_fmap, lookup_seq_lt by done. cbn. rewrite (H (Z.of_nat i)) by (unfold zlen; lia). by rewrite Nat2Z.id.
  - rewrite !lookup_ge_None_2; [done|lia|]. rewrite length_map, length_seq. lia.
Qed.

Lemma holds_string p a s : Forall (fun b => b <> 0) s -> holds p a (s ++ [0]) -> c_string p a (length s + 1) = s.
Proof.
  intros Hs H%holds_map. unfold c_string. rewrite length_app in H. change (length [0]) with 1%nat in H. rewrite H. clear H.
  induction Hs as [|b s Hb _ IH]; [done|]. cbn [app until_nul]. rewrite (proj2 (Z.eqb_neq b 0)) by done. by rewrite IH.
Qed.

(** A string copied into the pool is a new live block of exactly its bytes and their
    terminator, attributed to the caller, that reads back as the string; or null, and then
    the live blocks are what they were.  In both cases no live block changes.  [mp_asprintf]
    of a format that prints the string answers the same, and so does [mp_memdup] for the
    bytes with the terminator counted in. *)
Theorem string_copy_spec p L s l frames :
  front_ok p L -> table_ok p -> on p MP_FLAG_CACHE_ALIGNED = false -> Forall (fun b => b <> 0) s -> zlen s + SIZEOF_HEADER + 2 < 2 ^ 64 ->
  exists r p', mp_strdup_loc p (Some s) l frames = Done (r, p') /\
    mp_asprintf_loc p (Some s) l frames = Done (r, p') /\
    mp_memdup_loc p (Some (s ++ [0])) l frames = Done (r, p') /\
    loc_answer p L (zlen s + 1) l r p' /\ (r <> NULL -> holds p' r (s ++ [0]) /\ c_string p' r (length s + 1) = s).
Proof.
  intros F Ht Hca Hs Hn. assert (El : zlen (s ++ [0]) = zlen s + 1) by (by rewrite zlen_app).
  destruct (fill_run p L (s ++ [0]) l frames F Ht Hca) as (r & p' & E & A & B); [unfold SIZEOF_HEADER in *; lia|]. rewrite El in E, A.
  exists r, p'. unfold mp_strdup_loc, mp_asprintf_loc, mp_memdup_loc. rewrite El, (proj2 (Z.eqb_neq _ 0)) by (pose proof (zlen_nonneg s); lia).
  do 4 (split; [done|]). intros Hr. split; [by apply B|]. apply holds_string; [done|by apply B].
Qed.

End Copies.

(** ** Concrete runs *)

Module ToyLoc.
Import FrontProps.Toy.

Definition hello : list Z := [104; 101; 108; 108; 111].
Definition here : location := Loc 50000 42 60000.

(** Two blocks and no budget for more. *)
Definition tight_pool : pool * list Z := done_or (demo_pool 0 100, []) (client_run (demo_pool 0 100, []) [Ask 40; Ask 50]).

End ToyLoc.

Lemma string_copy_spec_witness :
  exists r p', mp_strdup_loc (Toy.demo_pool 0 0) (Some ToyLoc.hello) ToyLoc.here 0 = Done (r, p') /\ r <> NULL /\ c_string p' r 6 = ToyLoc.hello.
Proof.
  destruct (string_copy_spec (Toy.demo_pool 0 0) [] ToyLoc.hello ToyLoc.here 0) as (r & p' & E & _ & _ & _ & B).
  - by apply Toy.demo_ok.
  - apply Toy.demo_table.
  - reflexivity.
  - repeat constructor; discriminate.
  - vm_compute. reflexivity.
  - exists r, p'. split; [exact E|]. assert (Hr : r <> NULL).
    { assert (N : match mp_strdup_loc (Toy.demo_pool 0 0) (Some ToyLoc.hello) ToyLoc.here 0 with Done (x, _) => negb (x =? NULL) | _ => false end = true) by (vm_compute; reflexivity).
      rewrite E in N. intros ->. discriminate N. }
    split; [exact Hr|]. exact (proj2 (B Hr)).
Defined.

(** A batch in which neither block can grow: both entries become null, and the blocks stay
    live with nothing left that names them. *)
Lemma realloc_batch_loses :
  match mp_realloc_batch ToyLoc.tight_pool.1 (map (fun h => (h + SIZEOF_HEADER, 3000)) ToyLoc.tight_pool.2) with
  | Done (rs, success, p') =>
      bool_decide (rs = [NULL; NULL]) && (success =? 0) &&
      forallb (fun h => match find_active 8 (alinks p') (active_head p') h with Done b => b | _ => false end) ToyLoc.tight_pool.2 &&
      (length ToyLoc.tight_pool.2 =? 2)%nat
  | _ => false
  end = true.
Proof. vm_compute. reflexivity. Qed.
