(* ===== verification/Pressure.v ===== *)
(** * Pressure, watermarks and automatic compaction

    [mp_pressure], [mp_freeable], [mp_auto_compact_check] and the setters of
    [src/cmem_config.c] and [src/cmem.c], and the watermark callbacks
    ([check_watermark_after_change] in [src/cmem_lifecycle.c]) in the front end's requests.
    Ratios are doubles ([Text]); the callback is user code, and what is modelled is the
    sequence of its calls. *)
From S2P Require Import Prelude Text Header Dll SizeClass Slab SlabCache Reclaim Front FrontSpec FrontProps.
From Stdlib Require Import ZArith Lia SpecFloat Sorted.
From stdpp Require Import base option list gmap sorting.
Open Scope Z_scope.

(** ** Doubles that are not negative *)

(** Zero, positive or infinite; not NaN. *)
Definition nonneg (x : spec_float) : Prop :=
  match x with S754_zero s => s = false | S754_infinity s => s = false | S754_finite s _ _ => s = false | S754_nan => False end.

Lemma round_nonneg mx ex lx : 0 <= mx -> nonneg (binary_round_aux 53 1024 false mx ex lx).
Proof.
  intros Hm. unfold binary_round_aux. pose proof (shr_fexp_bound mx ex lx Hm) as H1. destruct (shr_fexp 53 1024 mx ex lx) as [r1 e1]. cbn [fst] in H1.
  set (m1 := round_nearest_even _ _). assert (H2 : 0 <= m1).
  { unfold m1, round_nearest_even. destruct (loc_of_shr_record r1) as [|[]]; try lia. destruct (Z.even _); lia. }
  pose proof (shr_fexp_bound m1 e1 loc_Exact H2) as H3. destruct (shr_fexp 53 1024 m1 e1 loc_Exact) as [r2 e2]. cbn [fst] in H3.
  destruct (shr_m r2) as [|p|p]; [done| |lia]. by destruct (_ <=? _).
Qed.

Lemma ddiv_nonneg sx mx ex my ey : sx = false -> nonneg (ddiv (S754_finite sx mx ex) (S754_finite false my ey)).
Proof.
  intros ->. unfold ddiv, SFdiv. destruct (SFdiv_core_binary _ _ _ _ _ _) as [[q e''] l] eqn:E. apply round_nonneg. unfold SFdiv_core_binary in E. cbn zeta in E.
  revert E. set (n := match _ with Z0 => _ | Zpos _ => _ | Zneg _ => _ end). intros E.
  assert (Hn : 0 <= n) by (unfold n; destruct (_ - _ - _); [lia|apply Z.shiftl_nonneg; lia|lia]).
  pose proof (Z.div_pos n (Zpos my) Hn ltac:(lia)) as Hq. unfold Z.div in Hq. destruct (Z.div_eucl n (Zpos my)) as [a b]. by injection E as <- _ _.
Qed.

Lemma digits2_low p : 2 ^ (Zpos (digits2_pos p) - 1) <= Zpos p.
Proof.
  induction p as [p IH|p IH|]; cbn [digits2_pos]; [| |done]; rewrite Pos2Z.inj_succ; replace (Z.succ (Zpos (digits2_pos p)) - 1) with (Z.succ (Zpos (digits2_pos p) - 1)) by lia;
    rewrite Z.pow_succ_r by lia; lia.
Qed.

(** Normalisation of a positive mantissa whose exponent is not tiny loses no more than it
    has, and moves the exponent by at most the number of its digits. *)
Lemma shr_fexp_pos m e l : 0 < m -> -1000 <= e -> 0 < shr_m (shr_fexp 53 1024 m e l).1 /\ -1000 <= (shr_fexp 53 1024 m e l).2 <= Z.max e (e + Zdigits2 m - 53).
Proof.
  intros Hm He. unfold shr_fexp. destruct m as [|p|p]; [lia| |lia]. cbn [Zdigits2]. pose proof (digits2_low p) as Hlow.
  set (d := Zpos (digits2_pos p)) in *. assert (Hd : 0 < d) by (unfold d; lia). set (n := fexp 53 1024 (d + e) - e).
  assert (Hn : n < d /\ n <= Z.max 0 (d - 53)) by (unfold n, fexp, emin; lia).
  pose proof (shr_shrinks (shr_record_of_loc (Zpos p) l) e n) as [_ Hdiv]; rewrite shr_m_of_loc in *; [lia|]. split.
  - destruct (Z.le_gt_cases n 0) as [Hle|Hgt].
    + destruct n; cbn [shr fst]; rewrite ?shr_m_of_loc; lia.
    + rewrite Hdiv by done. apply Z.div_str_pos. split; [apply Z.pow_pos_nonneg; lia|]. eapply Z.le_trans; [|exact Hlow]. apply Z.pow_le_mono_r; lia.
  - destruct n as [|q|q]; cbn [shr snd]; lia.
Qed.

Lemma round_pos mx ex : 0 < mx -> -1000 <= ex -> Zdigits2 mx <= 100 -> ex <= 100 -> exists m e, binary_round_aux 53 1024 false mx ex loc_Exact = S754_finite false m e.
Proof.
  intros Hm He Hd He2. unfold binary_round_aux. destruct (shr_fexp_pos mx ex loc_Exact Hm He) as [H1 H2]. pose proof (shr_fexp_bound mx ex loc_Exact ltac:(lia)) as B1.
  destruct (shr_fexp 53 1024 mx ex loc_Exact) as [r1 e1]. cbn [fst snd] in *. set (m1 := round_nearest_even _ _).
  assert (H3 : 0 < m1 <= 2 ^ 53).
  { unfold m1, round_nearest_even. destruct (loc_of_shr_record r1) as [|[]]; try lia. destruct (Z.even _); lia. }
  assert (Hd1 : Zdigits2 m1 <= 54).
  { destruct m1 as [|p|p]; [lia| |lia]. cbn [Zdigits2]. pose proof (digits2_low p). destruct (Z.le_gt_cases (Zpos (digits2_pos p)) 54); [done|].
    pose proof (Z.pow_le_mono_r 2 54 (Zpos (digits2_pos p) - 1) ltac:(lia) ltac:(lia)). lia. }
  destruct (shr_fexp_pos m1 e1 loc_Exact ltac:(lia) ltac:(lia)) as [H4 H5]. destruct (shr_fexp 53 1024 m1 e1 loc_Exact) as [r2 e2]. cbn [fst snd] in *.
  destruct (shr_m r2) as [|p|p]; [lia| |lia]. rewrite (proj2 (Z.leb_le e2 (1024 - 53))) by lia. eauto.
Qed.

Lemma digits2_mono p k : Zpos p < 2 ^ k -> 0 <= k -> Zpos (digits2_pos p) <= k.
Proof.
  intros Hp Hk. pose proof (digits2_low p). destruct (Z.le_gt_cases (Zpos (digits2_pos p)) k); [done|].
  pose proof (Z.pow_le_mono_r 2 k (Zpos (digits2_pos p) - 1) ltac:(lia) ltac:(lia)). lia.
Qed.

Lemma iter_xO_digits d p : digits2_pos (Pos.iter xO p d) = (digits2_pos p + d)%positive.
Proof.
  induction d as [|d IH] using Pos.peano_ind; [cbn; lia|]. rewrite Pos.iter_succ. cbn [digits2_pos]. rewrite IH. lia.
Qed.

(** Sizes convert to positive doubles. *)
Lemma of_int_pos n : 0 < n < 2 ^ 64 -> exists m e, of_int n = S754_finite false m e.
Proof.
  intros Hn. destruct n as [|p|p]; [lia| |lia]. unfold of_int, binary_normalize, binary_round, shl_align.
  pose proof (digits2_mono p 64 ltac:(lia) ltac:(lia)) as Hd. set (f := fexp 53 1024 (Zpos (digits2_pos p) + 0)).
  assert (Hf : f = Zpos (digits2_pos p) - 53) by (unfold f, fexp, emin; lia). destruct (f - 0) as [|q|q] eqn:E; try (apply round_pos; cbn [Zdigits2]; lia).
  apply round_pos; [lia|lia| |lia]. cbn [Zdigits2]. rewrite iter_xO_digits. lia.
Qed.

Lemma of_int_zero : of_int 0 = S754_zero false.
Proof. done. Qed.

Lemma quotient_nonneg a b : 0 <= a < 2 ^ 64 -> 0 < b < 2 ^ 64 -> nonneg (ddiv (of_int a) (of_int b)).
Proof.
  intros Ha Hb. destruct (of_int_pos b Hb) as (mb & eb & ->). destruct (Z.eq_dec a 0) as [->|Hne]; [done|].
  destruct (of_int_pos a ltac:(lia)) as (ma & ea & ->). by apply ddiv_nonneg.
Qed.

(** ** Pressure *)

Definition d_zero : spec_float := of_int 0.
Definition d_one : spec_float := of_int 1.

(** [limit] is [stats.max_memory_limit]. *)
Definition mp_pressure (active limit total : Z) : spec_float :=
  let ratio := if 0 <? limit then ddiv (of_int active) (of_int limit)
               else if 0 <? total then ddiv (of_int active) (of_int total) else d_zero in
  let ratio := if SFltb ratio d_zero then d_zero else ratio in
  if SFltb d_one ratio then d_one else ratio.

Lemma d_one_eq : exists m e, d_one = S754_finite false m e.
Proof. by apply of_int_pos. Qed.

Lemma not_below x m e : nonneg x -> SFltb (S754_finite false m e) x = false -> SFleb x (S754_finite false m e) = true.
Proof.
  intros Hx E. destruct x as [s|s| |s n f]; cbn in Hx; [done|by subst s|done|subst s]. revert E. unfold SFltb, SFleb. cbn [SFcompare].
  rewrite (Z.compare_antisym e f). change (Pos.compare_cont Eq) with Pos.compare. rewrite (Pos.compare_antisym m n).
  destruct (e ?= f); cbn [CompOpp]; try done. by destruct (m ?= n)%positive.
Qed.

Lemma zero_below x : nonneg x -> SFltb x d_zero = false /\ SFleb d_zero x = true.
Proof. destruct x as [[]|[]| |[] m e]; cbn; done. Qed.

Lemma clamp_range x : nonneg x -> let y := if SFltb x d_zero then d_zero else x in let z := if SFltb d_one y then d_one else y in
  SFleb d_zero z = true /\ SFleb z d_one = true.
Proof.
  intros Hx. destruct (zero_below x Hx) as [-> H0]. cbn zeta. destruct d_one_eq as (m & e & ->).
  destruct (SFltb (S754_finite false m e) x) eqn:E.
  - split; [by apply zero_below|]. apply not_below; [done|]. unfold SFltb. cbn [SFcompare]. rewrite Z.compare_refl. change (Pos.compare_cont Eq) with Pos.compare.
    by rewrite Pos.compare_refl.
  - split; [done|]. by apply not_below.
Qed.

(** The pressure of a pool is a number between 0 and 1, whatever its counters hold, an
    empty pool without a limit included: it is never NaN, so it compares with any
    threshold. *)
Theorem pressure_range active limit total :
  0 <= active < 2 ^ 64 -> 0 <= limit < 2 ^ 64 -> 0 <= total < 2 ^ 64 ->
  SFleb d_zero (mp_pressure active limit total) = true /\ SFleb (mp_pressure active limit total) d_one = true.
Proof.
  intros Ha Hl Ht. unfold mp_pressure. apply clamp_range. destruct (Z.ltb_spec 0 limit); [by apply quotient_nonneg; lia|].
  destruct (Z.ltb_spec 0 total); [by apply quotient_nonneg; lia|reflexivity].
Qed.

(** ** Compaction on pressure *)

Record autoc := Auto {
  auto_compact_enabled : bool;
  auto_compact_pressure_threshold : spec_float;
  auto_compact_fragmentation_threshold : spec_float;
  last_auto_compact_time : Z;            (* seconds *)
}.

Definition mp_set_auto_compact (a : autoc) (enable : bool) (pressure fragmentation : spec_float) : autoc :=
  Auto enable pressure fragmentation (last_auto_compact_time a).

(** The part of [mp_auto_compact_check] before [mp_compact]: is a compaction due, and if so
    the time it is noted down with.  [frag] is [stats.fragmentation_ratio]. *)
Definition auto_compact_due (a : autoc) (active limit total : Z) (frag : spec_float) (now_sec : Z) : option autoc :=
  if negb (auto_compact_enabled a) then None
  else
    let pressure := ddiv (of_int active) (of_int (if 0 <? limit then limit else total)) in
    if SFltb (auto_compact_pressure_threshold a) pressure || SFltb (auto_compact_fragmentation_threshold a) frag then
      if now_sec - last_auto_compact_time a <? 1 then None
      else Some (Auto true (auto_compact_pressure_threshold a) (auto_compact_fragmentation_threshold a) now_sec)
    else None.

Definition mp_auto_compact_check `{Mmap} (a : autoc) (active limit total : Z) (frag : spec_float) (now_sec : Z)
    (c : idle_config) (stats_total : Z) (s : slab_tier) : outcome (bool * autoc * Z * slab_tier) :=
  match auto_compact_due a active limit total frag now_sec with
  | None => Done (false, a, stats_total, s)
  | Some a =>
      r ← mp_compact c stats_total s;
      let '(_, stats_total, s) := r in
      Done (true, a, stats_total, s)
  end.

(** The times of the compactions, for a sequence of checks (active bytes, time). *)
Fixpoint compactions (a : autoc) (limit total : Z) (frag : spec_float) (checks : list (Z * Z)) : list Z :=
  match checks with
  | [] => []
  | (active, now) :: checks =>
      match auto_compact_due a active limit total frag now with
      | None => compactions a limit total frag checks
      | Some a => now :: compactions a limit total frag checks
      end
  end.

Lemma compactions_after limit total frag checks : forall a, Forall (fun t => last_auto_compact_time a + 1 <= t) (compactions a limit total frag checks) /\
  StronglySorted Z.lt (compactions a limit total frag checks).
Proof.
  induction checks as [|[active now] checks IH]; intros a; cbn [compactions]; [split; constructor|].
  destruct (auto_compact_due a active limit total frag now) as [a'|] eqn:E; [|apply IH].
  assert (Ha : last_auto_compact_time a' = now /\ last_auto_compact_time a + 1 <= now).
  { unfold auto_compact_due in E. destruct (negb _); [done|]. destruct (_ || _); [|done]. destruct (Z.ltb_spec (now - last_auto_compact_time a) 1); [done|].
    injection E as <-. cbn. lia. }
  destruct (IH a') as [F S]. destruct Ha as [Ea Ha]. rewrite Ea in F. split; constructor; [done| |done|].
  - eapply Forall_impl; [exact F|]. cbn. lia.
  - eapply Forall_impl; [exact F|]. cbn. lia.
Qed.

(** Automatic compaction runs at most once in any second of the clock, in any sequence
    of checks; never while it is off; and since nothing updates the fragmentation ratio it
    looks at, which stays zero, no threshold on fragmentation ever triggers it: with no
    bytes in use it does not run at all. *)
Theorem auto_compact_rate a limit total checks :
  0 <= limit < 2 ^ 64 -> 0 <= total < 2 ^ 64 ->
  StronglySorted Z.lt (compactions a limit total d_zero checks) /\
  (auto_compact_enabled a = false -> compactions a limit total d_zero checks = []) /\
  (nonneg (auto_compact_pressure_threshold a) -> nonneg (auto_compact_fragmentation_threshold a) ->
   Forall (fun c => c.1 = 0) checks -> compactions a limit total d_zero checks = []).
Proof.
  intros Hl Ht. split; [apply compactions_after|]. split.
  - intros Hoff. induction checks as [|[active now] checks IH]; [done|]. cbn [compactions]. unfold auto_compact_due. by rewrite Hoff.
  - intros Hp Hf. induction 1 as [|[active now] checks H0 _ IH]; [done|]. cbn in H0. subst active. cbn [compactions].
    assert (E : auto_compact_due a 0 limit total d_zero now = None); [|by rewrite E].
    unfold auto_compact_due. destruct (negb _); [done|].
    rewrite (proj1 (zero_below _ Hf)). set (d := if 0 <? limit then limit else total).
    assert (Hd : 0 <= d < 2 ^ 64) by (unfold d; by destruct (0 <? limit)). clearbody d.
    assert (Hq : SFltb (auto_compact_pressure_threshold a) (ddiv (of_int 0) (of_int d)) = false); [|by rewrite Hq].
    destruct (Z.eq_dec d 0) as [->|Hd0]; [by destruct (auto_compact_pressure_threshold a) as [[]|[]| |[]]|].
    destruct (of_int_pos d ltac:(lia)) as (m & e & ->). by apply zero_below.
Qed.

(** ** Quotas and statistics *)

Definition mp_check_arena_quota (active arena_quota_limit : Z) : bool := (arena_quota_limit =? 0) || (active <=? arena_quota_limit).

Definition mp_resident `{Tiers} (p : pool) : Z := total_pool_size (ac p).

Definition mp_set_fallback_on_oom `{Tiers} (p : pool) (enable : bool) : pool :=
  let c := cf p in
  set_cf p (Config (self c) (flags c) (slab_table c) (max_memory_limit c) enable (circuit_breaker_enabled c) (thread_quota_bytes c) (has_event_cb c)).

Definition mp_set_memory_limit `{Tiers} (p : pool) (limit : Z) : pool :=
  let c := cf p in
  set_cf p (Config (self c) (flags c) (slab_table c) limit (fallback_to_sys_alloc_on_oom c) (circuit_breaker_enabled c) (thread_quota_bytes c) (has_event_cb c)).

(** The allocation window and the latency histogram are cleared as well. *)
Definition mp_reset_stats `{Tiers} (p : pool) : pool :=
  let a := ac p in
  set_ac p (Account (active_bytes a) (active_allocations a) 0 0 (active_bytes a) (os_allocated_bytes a) (total_pool_size a) (replicate (length (size_histogram a)) 0)).

(** ** Freeable pages *)

Section Freeable.
Context `{MM : Mmap}.

Definition class_freeable (m : slab_mem) (sc : slab_class) (acc : Z) : outcome Z :=
  fold_walk (page_fuel m) m (fun p k => if free_count p =? total_slots p then u64 (k + SLAB_PAGE_SIZE) else k) (partial_pages sc) acc.

Fixpoint freeable_classes (n : nat) (i acc : Z) (s : slab_tier) : outcome Z :=
  match n with
  | O => Done acc
  | S n =>
      sc ← ld_class s i;
      acc ← class_freeable (tm s) sc acc;
      freeable_classes n (i + 1) acc s
  end.

Definition mp_freeable (s : slab_tier) : outcome Z := freeable_classes (Z.to_nat SLAB_CLASS_COUNT) 0 0 s.

Lemma foldl_bytes (m : slab_mem) (test : slab_page -> bool) l : forall k, 0 <= k -> k + zlen l * SLAB_PAGE_SIZE < 2 ^ 64 ->
  foldl (fun a x => if test (header_of m x) then u64 (a + SLAB_PAGE_SIZE) else a) k l =
  k + zlen (filter (fun x => test (header_of m x) = true) l) * SLAB_PAGE_SIZE.
Proof.
  induction l as [|x l IH]; intros k H0 Hk; cbn [foldl]; [rewrite filter_nil; change (zlen (@nil Z)) with 0; lia|].
  rewrite zlen_cons in Hk. pose proof (zlen_nonneg l). rewrite filter_cons. unfold SLAB_PAGE_SIZE in *. destruct (test (header_of m x)) eqn:E.
  - rewrite decide_True by done. rewrite u64_small, IH, zlen_cons by lia. lia.
  - rewrite decide_False by done. apply IH; lia.
Qed.

(** The wholly free pages among the partial ones. *)
Definition whole (n : Z) (P : list (Z * list Z)) : list Z := map fst (filter (fun q => zlen q.2 = n) P).

Lemma class_freeable_run sz n m sc P F E out acc :
  slab_ok sz n m sc P F E out -> 0 <= acc -> acc + zlen P * SLAB_PAGE_SIZE < 2 ^ 64 ->
  class_freeable m sc acc = Done (acc + zlen (whole n P) * SLAB_PAGE_SIZE).
Proof.
  intros Hok H0 Hk. assert (Hpg : forall q G, (q, G) ∈ P -> exists p, pages m !! q = Some p /\ free_count p = zlen G /\ total_slots p = n).
  { intros q G Hq. assert (Hin : (q, G) ∈ all_pages P F E) by (unfold all_pages; rewrite !elem_of_app; tauto).
    destruct (pg_header _ _ _ _ _ (so_pages _ _ _ _ _ _ _ _ Hok _ _ Hin)) as (p & A & B & C & _). eauto. }
  pose proof (so_partial _ _ _ _ _ _ _ _ Hok) as HP. unfold class_freeable.
  rewrite (fold_walk_spec m _ _ (map fst P) _ _ NULL (proj1 HP)); [|intros x ([q G] & -> & Hq)%list_elem_of_fmap; cbn [fst]; destruct (Hpg q G Hq) as (p & -> & _); eauto|by eapply dll_fuel].
  rewrite (foldl_bytes m (fun p => free_count p =? total_slots p)); [|done|unfold zlen in *; by rewrite length_map]. f_equal. f_equal. f_equal.
  unfold whole. clear - Hpg. induction P as [|[q G] P IH]; [done|]. cbn [map fst]. rewrite !filter_cons. cbn [snd].
  destruct (Hpg q G (list_elem_of_here _ _)) as (p & Ep & Ef & Et). assert (Eh : header_of m q = p) by (unfold header_of; by rewrite Ep).
  assert (IH' := IH (fun q' G' H => Hpg q' G' (list_elem_of_further _ _ _ H))).
  destruct (decide (zlen G = n)) as [Hn|Hn]; [rewrite decide_True by (rewrite Eh; by apply Z.eqb_eq; lia)|rewrite decide_False by (rewrite Eh, Z.eqb_eq; lia)];
    cbn [map fst]; rewrite ?zlen_cons; lia.
Qed.

Lemma filter_partition (n : Z) (P : list (Z * list Z)) : zlen P = zlen (filter (fun q => zlen q.2 = n) P) + zlen (filter (fun q => zlen q.2 <> n) P).
Proof. induction P as [|q P IH]; [done|]. rewrite !filter_cons. repeat case_decide; try done; rewrite !zlen_cons; lia. Qed.

Lemma nodup_count {A} `{EqDecision A} (l k : list A) : NoDup l -> (forall x, x ∈ l -> x ∈ k) -> zlen l <= zlen k.
Proof. intros Hl H. unfold zlen. pose proof (submseteq_length _ _ (NoDup_submseteq _ _ Hl H)). lia. Qed.

(** What [mp_freeable] announces is what [mp_compact] gives back.  For any class in
    order, with the idle timeout off, the bytes counted are 64 KiB for each page that
    compaction unmaps; the empty pages a class keeps are in neither. *)
Theorem freeable_is_compacted c sz n m sc P F E out :
  idle_reclaim_enabled c = false -> slab_ok sz n m sc P F E out -> zlen P * SLAB_PAGE_SIZE < 2 ^ 64 ->
  exists k m' sc', class_freeable m sc 0 = Done (k * SLAB_PAGE_SIZE) /\ compact_class c m sc = Done (k, m', sc') /\ class_freeable m' sc' 0 = Done 0.
Proof.
  intros Hoff Hok Hz. rewrite (class_freeable_run _ _ _ _ _ _ _ _ 0 Hok) by lia. unfold compact_class. destruct (partial_first _ _ _ _ _ _ _ _ Hok) as [-> Hf].
  destruct (sweep_spec c 0 sz n F E out Hoff P (page_fuel m) 0 0 m sc [] Hok Hf) as (i' & m' & p & P' & gone & -> & Hok' & _ & Hs & H1 & H2 & H3 & H4).
  cbn [mbind outcome_bind]. specialize (H3 eq_refl). assert (Hnd : forall Q, sublist Q P -> NoDup (map fst Q)).
  { intros Q HQ. pose proof (so_partial _ _ _ _ _ _ _ _ Hok) as [_ HP]. eapply sublist_NoDup; [exact HP|]. by apply (fmap_sublist fst). }
  assert (Hkeep : zlen P' = zlen (filter (fun q => zlen q.2 <> n) P)).
  { apply Z.le_antisymm; apply nodup_count.
    - eapply NoDup_fmap_1. by apply Hnd.
    - intros [q G] Hq. apply list_elem_of_filter. split; [by apply (H3 q)|]. by eapply elem_of_sublist.
    - apply NoDup_filter. eapply NoDup_fmap_1. by apply (Hnd P).
    - intros [q G] [Hn Hq]%list_elem_of_filter. destruct (H1 q G Hq) as [|Hg]; [done|]. destruct (H2 q Hg) as (G' & Hq' & HG'). destruct Hn. cbn.
      by rewrite (page_unique _ _ _ _ (Hnd P (reflexivity P)) Hq Hq'). }
  assert (Hgone : zlen gone = zlen (whole n P)).
  { pose proof (filter_partition n P). unfold whole, zlen in *. rewrite length_map. lia. }
  exists (zlen gone), m', (set_partial sc p). split; [by rewrite Hgone|]. split; [done|].
  pose proof (zlen_nonneg gone). rewrite (class_freeable_run _ _ _ _ _ _ _ _ 0 Hok') by (cbn [app]; unfold SLAB_PAGE_SIZE in *; lia). cbn [app].
  assert (Ew : zlen (whole n P') = 0).
  { unfold whole. assert (Ef : filter (fun q : Z * list Z => zlen q.2 = n) P' = []); [|by rewrite Ef].
    destruct (filter _ P') as [|[q G] l] eqn:El; [done|].
    assert (Hq : (q, G) ∈ filter (fun q : Z * list Z => zlen q.2 = n) P') by (rewrite El; apply list_elem_of_here). apply list_elem_of_filter in Hq as [Hn Hq].
    by destruct (H3 q G Hq). }
  by rewrite Ew.
Qed.

End Freeable.

(** ** Watermarks *)

(** [(size_t)x]: truncation towards zero; outside the range of [size_t] it is undefined. *)
Definition to_size (x : spec_float) : outcome Z :=
  match x with
  | S754_zero _ => Done 0
  | S754_finite s m e =>
      let v := if 0 <=? e then Zpos m * 2 ^ e else Zpos m / 2 ^ (- e) in
      if s then (if v =? 0 then Done 0 else Fault) else if v <? 2 ^ 64 then Done v else Fault
  | _ => Fault
  end.

Record watch := Watch {
  watermark_cb : bool;
  high_watermark_ratio : spec_float;
  low_watermark_ratio : spec_float;
  in_high_watermark_state : bool;
}.

Definition mp_set_watermark_callback (w : watch) (high low : spec_float) (cb : bool) : watch := Watch cb high low false.

(** One call of the callback: its [is_high], active and limit arguments. *)
Definition wcall : Type := bool * Z * Z.

Definition check_watermark_after_change (w : watch) (limit active : Z) : outcome (watch * list wcall) :=
  if negb (watermark_cb w) || (limit =? 0) then Done (w, [])
  else
    let set b := Watch (watermark_cb w) (high_watermark_ratio w) (low_watermark_ratio w) b in
    if negb (in_high_watermark_state w) && SFltb d_zero (high_watermark_ratio w) then
      high_thresh ← to_size (dmul (high_watermark_ratio w) (of_int limit));
      Done (if high_thresh <=? active then (set true, [(true, active, limit)]) else (w, []))
    else if in_high_watermark_state w && SFltb d_zero (low_watermark_ratio w) then
      low_thresh ← to_size (dmul (low_watermark_ratio w) (of_int limit));
      Done (if active <=? low_thresh then (set false, [(false, active, limit)]) else (w, []))
    else Done (w, []).

Section Watched.
Context `{TT : Tiers}.

(** A pool of the front end, its watermarks, and the calls made so far. *)
Record watched := Watched { wp_pool : pool; wp_watch : watch; wp_calls : list wcall }.

Definition notify (s : watched) : outcome watched :=
  let p := wp_pool s in
  r ← check_watermark_after_change (wp_watch s) (max_memory_limit (cf p)) (active_bytes (ac p));
  let '(w, l) := r in
  Done (Watched p w (wp_calls s ++ l)).

(** The size [mp_alloc] hands to [mp_alloc_internal]. *)
Definition internal_size (p : pool) (size : Z) : Z :=
  if on p MP_FLAG_CACHE_ALIGNED then u64 (size + 64 + SIZEOF_HEADER + canary_len (flags (cf p))) else size.

(** The emergency reserve is handed out on a path of its own, which ends before the check. *)
Definition alloc_notifies (p : pool) (size : Z) : bool := negb (over_limit p (internal_size p size) && negb (fallback_to_sys_alloc_on_oom (cf p))).

Definition watched_alloc (s : watched) (size : Z) : outcome (Z * watched) :=
  r ← mp_alloc (wp_pool s) size;
  let '(ptr, p) := r in
  let s' := Watched p (wp_watch s) (wp_calls s) in
  if (ptr =? NULL) || negb (alloc_notifies (wp_pool s) size) then Done (ptr, s')
  else s' ← notify s'; Done (ptr, s').

(** So do the three lock-free ways back for a slab slot. *)
Definition free_notifies (p : pool) (ptr : Z) : bool :=
  match hdrs p !! (ptr - SIZEOF_HEADER) with
  | None => false
  | Some hd =>
      (magic hd =? MP_MAGIC_HEAD) &&
      (negb (alloc_type hd =? ALLOC_TYPE_SLAB) ||
       match (slab_put (tiers p) (flags (cf p)) (Header.slab_class hd) (raw_base hd)).1 with ViaPage => true | _ => false end)
  end.

Definition watched_free (s : watched) (ptr : Z) : outcome watched :=
  p ← mp_free (wp_pool s) ptr;
  let s' := Watched p (wp_watch s) (wp_calls s) in
  if (ptr =? NULL) || negb (free_notifies (wp_pool s) ptr) then Done s' else notify s'.

(** [client_step] with the watermarks. *)
Definition watched_step (s : watched * list Z) (q : request) : outcome (watched * list Z) :=
  let '(s, L) := s in
  match q with
  | Ask n => r ← watched_alloc s n; let '(ptr, s) := r in Done (s, if ptr =? NULL then L else (ptr - SIZEOF_HEADER) :: L)
  | Release i => match L !! i with None => Done (s, L) | Some h => s ← watched_free s (h + SIZEOF_HEADER); Done (s, delete i L) end
  end.

Fixpoint watched_run (s : watched * list Z) (qs : list request) : outcome (watched * list Z) :=
  match qs with [] => Done s | q :: qs => s ← watched_step s q; watched_run s qs end.

(** The two thresholds of a pool whose limit is [limit]. *)
Record thresholds (w : watch) (limit hi lo : Z) : Prop := {
  th_cb : watermark_cb w = true;
  th_limit : limit <> 0;
  th_high : SFltb d_zero (high_watermark_ratio w) = true /\ to_size (dmul (high_watermark_ratio w) (of_int limit)) = Done hi;
  th_low : SFltb d_zero (low_watermark_ratio w) = true /\ to_size (dmul (low_watermark_ratio w) (of_int limit)) = Done lo;
}.

(** High and low calls take turns from the state [b] on, each at its threshold. *)
Fixpoint takes_turns (limit hi lo : Z) (b : bool) (l : list wcall) : bool :=
  match l with
  | [] => true
  | (high, active, lim) :: l =>
      Bool.eqb high (negb b) && (lim =? limit) && (if high then hi <=? active else active <=? lo) && takes_turns limit hi lo high l
  end.

Definition last_state (b : bool) (l : list wcall) : bool := match last l with Some (high, _, _) => high | None => b end.

Lemma takes_turns_app limit hi lo l1 l2 : forall b, takes_turns limit hi lo b (l1 ++ l2) = takes_turns limit hi lo b l1 && takes_turns limit hi lo (last_state b l1) l2.
Proof.
  induction l1 as [|[[high a] lim] l1 IH]; intros b; cbn [app takes_turns]; [done|]. rewrite IH. rewrite !andb_assoc. do 2 f_equal.
  unfold last_state. rewrite last_cons. by destruct (last l1) as [[[? ?] ?]|].
Qed.

Record watch_ok (limit hi lo : Z) (s : watched) : Prop := {
  wo_th : thresholds (wp_watch s) limit hi lo;
  wo_limit : max_memory_limit (cf (wp_pool s)) = limit;
  wo_turns : takes_turns limit hi lo false (wp_calls s) = true;
  wo_state : in_high_watermark_state (wp_watch s) = last_state false (wp_calls s);
}.

(** What a check leaves behind. *)
Definition state_fits (hi lo : Z) (s : watched) : Prop :=
  if in_high_watermark_state (wp_watch s) then lo < active_bytes (ac (wp_pool s)) else active_bytes (ac (wp_pool s)) < hi.

Lemma last_state_snoc b l x : last_state b (l ++ [x]) = x.1.1.
Proof. unfold last_state. rewrite last_snoc. by destruct x as [[? ?] ?]. Qed.

Lemma notify_ok limit hi lo s : watch_ok limit hi lo s ->
  exists s', notify s = Done s' /\ watch_ok limit hi lo s' /\ wp_pool s' = wp_pool s /\ (lo < hi -> state_fits hi lo s').
Proof.
  intros [[Hc Hl [H1 H2] [L1 L2]] Hm Ht Hs]. unfold notify, check_watermark_after_change. rewrite Hc, Hm, (proj2 (Z.eqb_neq _ _)), H1, L1, H2, L2 by done. cbn [negb orb].
  destruct s as [p w calls]. cbn [wp_pool wp_watch wp_calls] in *. set (a := active_bytes (ac p)).
  destruct (in_high_watermark_state w) eqn:Ew; cbn [negb andb mbind outcome_bind].
  - destruct (Z.leb_spec a lo); (eexists; split; [done|]; split; [split; cbn; try done|split; [done|]]); unfold state_fits; cbn; rewrite ?app_nil_r; try done; rewrite ?Ew; try lia.
    + rewrite takes_turns_app, Ht. rewrite <- Hs. cbn. rewrite Z.eqb_refl. cbn. rewrite (proj2 (Z.leb_le _ _)) by done. done.
    + by rewrite last_state_snoc.
    + done.
  - destruct (Z.leb_spec hi a); (eexists; split; [done|]; split; [split; cbn; try done|split; [done|]]); unfold state_fits; cbn; rewrite ?app_nil_r; try done; rewrite ?Ew; try lia.
    + rewrite takes_turns_app, Ht. rewrite <- Hs. cbn. rewrite Z.eqb_refl. cbn. rewrite (proj2 (Z.leb_le _ _)) by done. done.
    + by rewrite last_state_snoc.
    + done.
Qed.

Lemma with_pool_ok limit hi lo s p : watch_ok limit hi lo s -> cf p = cf (wp_pool s) -> watch_ok limit hi lo (Watched p (wp_watch s) (wp_calls s)).
Proof. intros [] E. split; cbn; try done. by rewrite E. Qed.

(** The watermarks only watch: pool and blocks are those of [client_step]. *)
Lemma watched_step_run limit hi lo s L q p' L' :
  client_step (wp_pool s, L) q = Done (p', L') -> cf p' = cf (wp_pool s) -> watch_ok limit hi lo s ->
  exists s', watched_step (s, L) q = Done (s', L') /\ wp_pool s' = p' /\ watch_ok limit hi lo s'.
Proof.
  intros E C W. destruct q as [n|i]; cbn [client_step watched_step] in *.
  - unfold watched_alloc. destruct (mp_alloc (wp_pool s) n) as [[ptr p1]| |]; cbn [mbind outcome_bind] in E |- *; try done. injection E as -> <-.
    pose proof (with_pool_ok _ _ _ s p' W C) as W'. destruct (_ || _); cbn [mbind outcome_bind]; [by eexists|].
    destruct (notify_ok limit hi lo _ W') as (s2 & -> & W2 & Ep & _). cbn [mbind outcome_bind]. by exists s2.
  - destruct (L !! i) as [h|]; [|injection E as <- <-; by eexists].
    unfold watched_free. destruct (mp_free (wp_pool s) (h + SIZEOF_HEADER)) as [p1| |]; cbn [mbind outcome_bind] in E |- *; try done. injection E as -> <-.
    pose proof (with_pool_ok _ _ _ s p' W C) as W'. destruct (_ || _); cbn [mbind outcome_bind]; [by eexists|].
    destruct (notify_ok limit hi lo _ W') as (s2 & -> & W2 & Ep & _). cbn [mbind outcome_bind]. by exists s2.
Qed.

Lemma watched_run_ok limit hi lo qs : forall s L,
  front_ok (wp_pool s) L -> table_ok (wp_pool s) -> on (wp_pool s) MP_FLAG_CACHE_ALIGNED = false -> Forall sane qs -> watch_ok limit hi lo s ->
  exists s' L', watched_run (s, L) qs = Done (s', L') /\ client_run (wp_pool s, L) qs = Done (wp_pool s', L') /\ watch_ok limit hi lo s'.
Proof.
  induction qs as [|q qs IH]; intros s L F Ht Hca Hq W; [by exists s, L|]. apply Forall_cons in Hq as [Hq1 Hq]. cbn [watched_run client_run].
  destruct (client_step_ok (wp_pool s) L q F Ht Hca Hq1) as (p1 & L1 & E & F1 & C). destruct (watched_step_run limit hi lo s L q p1 L1 E C W) as (s1 & -> & <- & W1).
  rewrite E. cbn [mbind outcome_bind]. apply IH; try done; [unfold table_ok; by rewrite C|unfold on in *; by rewrite C].
Qed.

(** C37: watermark callbacks have hysteresis.  Whatever a client asks and releases, the calls
    alternate between high and low and start with high, every high call is made with at
    least the high threshold in use and every low call with at most the low one, and the
    state flag says which came last; watching changes nothing else. *)
Theorem watermark_hysteresis p w limit hi lo qs :
  front_ok p [] -> table_ok p -> on p MP_FLAG_CACHE_ALIGNED = false -> Forall sane qs ->
  max_memory_limit (cf p) = limit -> thresholds w limit hi lo -> in_high_watermark_state w = false ->
  exists s' L', watched_run (Watched p w [], []) qs = Done (s', L') /\ client_run (p, []) qs = Done (wp_pool s', L') /\
    takes_turns limit hi lo false (wp_calls s') = true /\ in_high_watermark_state (wp_watch s') = last_state false (wp_calls s').
Proof.
  intros F Ht Hca Hq Hl Hth Hs. destruct (watched_run_ok limit hi lo qs (Watched p w []) [] F Ht Hca Hq) as (s' & L' & E & E' & [_ _ T S]); [by split|].
  by exists s', L'.
Qed.

(** The recovery call can be missed for good.  On a thread-safe pool no release of a slab
    block reaches the check, so a program that frees all its small blocks after a high
    watermark is never told that it is low again, and with the state still high gets no
    second high call either. *)
Theorem slab_free_silent s L1 h L2 hd :
  front_ok (wp_pool s) (L1 ++ h :: L2) -> hdrs (wp_pool s) !! h = Some hd -> alloc_type hd = ALLOC_TYPE_SLAB -> on (wp_pool s) MP_FLAG_THREAD_SAFE = true ->
  exists s', watched_free s (h + SIZEOF_HEADER) = Done s' /\ wp_watch s' = wp_watch s /\ wp_calls s' = wp_calls s /\ front_ok (wp_pool s') (L1 ++ L2) /\
    active_bytes (ac (wp_pool s')) = u64 (requested_total (wp_pool s') (L1 ++ L2)).
Proof.
  intros F Hh Ht Hts. destruct (mp_free_spec (wp_pool s) L1 h L2 F) as (hx & p' & _ & E & F' & _). unfold watched_free. rewrite E. cbn [mbind outcome_bind].
  assert (N : free_notifies (wp_pool s) (h + SIZEOF_HEADER) = false).
  { unfold free_notifies. replace (h + SIZEOF_HEADER - SIZEOF_HEADER) with h by lia. rewrite Hh, Ht. change (ALLOC_TYPE_SLAB =? ALLOC_TYPE_SLAB) with true. cbn [negb orb].
    destruct (slab_put _ _ _ _) as [r b] eqn:Ep. apply slab_put_spec in Ep as (_ & _ & Hr). cbn [fst]. destruct r; rewrite ?andb_false_r; try done.
    specialize (Hr eq_refl). unfold on in Hts. congruence. }
  rewrite N, orb_true_r. eexists. split; [done|]. split; [done|]. split; [done|]. split; [exact F'|]. by apply (fo_bytes _ _ F').
Qed.

End Watched.

(** ** Concrete runs *)

Lemma pressure_range_witness : SFleb (mp_pressure 5000 4096 0) d_one = true /\ mp_pressure 1024 4096 0 = ddiv d_one (of_int 4).
Proof. split; [apply (pressure_range 5000 4096 0); lia|vm_compute; reflexivity]. Defined.

Module ToyPressure.

Definition percent (k : Z) : spec_float := ddiv (of_int k) (of_int 100).
Definition compacting : autoc := Auto true (percent 50) (percent 30) 0.
Definition alarm : watch := mp_set_watermark_callback (Watch false d_zero d_zero true) (percent 80) (percent 20) true.

(** A thread-safe pool with a limit of 1000 bytes. *)
Definition guarded_pool : pool := Toy.demo_pool MP_FLAG_THREAD_SAFE 1000.

(** Two small blocks up to the high threshold, and both released. *)
Definition fill_and_free : list request := [Ask 400; Ask 400; Release 0%nat; Release 0%nat].
(** The same with blocks of the middle tier. *)
Definition fill_and_free_medium : list request := [Ask 900; Release 0%nat; Ask 900].

Definition calls (qs : list request) : list wcall :=
  match watched_run (Watched guarded_pool alarm [], []) qs with Done (s, _) => wp_calls s | _ => [] end.

Lemma alarm_thresholds : thresholds alarm 1000 800 200.
Proof. split; [reflexivity|discriminate| |]; split; vm_compute; reflexivity. Qed.

(** After the small blocks are gone nothing is in use, and the last word is still "high". *)
Example alarm_stuck :
  calls fill_and_free = [(true, 800, 1000)] /\
  match watched_run (Watched guarded_pool alarm [], []) fill_and_free with
  | Done (s, _) => (active_bytes (ac (wp_pool s)) =? 0) && in_high_watermark_state (wp_watch s)
  | _ => false
  end = true.
Proof. split; vm_compute; reflexivity. Qed.

End ToyPressure.

(** Two checks within one tick of the clock, and one after it. *)
Lemma auto_compact_rate_witness :
  compactions ToyPressure.compacting 1000 0 d_zero [(600, 7); (900, 7); (600, 8)] = [7; 8] /\
  StronglySorted Z.lt (compactions ToyPressure.compacting 1000 0 d_zero [(600, 7); (900, 7); (600, 8)]).
Proof. split; [vm_compute; reflexivity|]. apply (auto_compact_rate ToyPressure.compacting 1000 0 [(600, 7); (900, 7); (600, 8)]); lia. Defined.

Lemma freeable_is_compacted_witness :
  exists k m' sc', @class_freeable bump idle_mem idle_taken.2 0 = Done (k * SLAB_PAGE_SIZE) /\ @compact_class bump (idle_on false) idle_mem idle_taken.2 = Done (k, m', sc').
Proof.
  destruct idle_class as (P & F & E & Hc). pose proof (co_slab _ _ _ _ _ _ _ _ _ Hc) as Hok. destruct idle_page as (p & Hp & _).
  destruct (@one_partial bump _ _ _ _ _ _ _ _ _ 327680 p Hc ltac:(vm_compute; exact eq_refl) ltac:(unfold NULL; lia) ltac:(vm_compute; exact eq_refl) Hp) as (Fr & EP & _).
  destruct (@freeable_is_compacted bump (idle_on false) _ _ _ _ _ _ _ _ eq_refl Hok ltac:(rewrite EP; vm_compute; reflexivity)) as (k & m' & sc' & E1 & E2 & _).
  exists k, m', sc'. split; [exact E1|exact E2].
Defined.

Lemma watermark_hysteresis_witness :
  ToyPressure.calls ToyPressure.fill_and_free_medium = [(true, 900, 1000); (false, 0, 1000); (true, 900, 1000)] /\
  takes_turns 1000 800 200 false (ToyPressure.calls ToyPressure.fill_and_free_medium) = true.
Proof.
  split; [vm_compute; reflexivity|].
  destruct (watermark_hysteresis ToyPressure.guarded_pool ToyPressure.alarm 1000 800 200 ToyPressure.fill_and_free_medium) as (s' & L' & E & _ & T & _).
  - by apply Toy.demo_ok.
  - apply Toy.demo_table.
  - reflexivity.
  - repeat constructor; cbn; unfold SIZEOF_HEADER; lia.
  - reflexivity.
  - apply ToyPressure.alarm_thresholds.
  - reflexivity.
  - unfold ToyPressure.calls. rewrite E. exact T.
Defined.

Lemma slab_free_silent_witness :
  let p := (Toy.demo_two MP_FLAG_THREAD_SAFE 2000).1 in
  exists s', watched_free (Watched p (Watch true (ToyPressure.percent 80) (ToyPressure.percent 20) true) []) (4096 + SIZEOF_HEADER) = Done s' /\
    in_high_watermark_state (wp_watch s') = true /\ wp_calls s' = [].
Proof.
  intros p. set (w := Watch true _ _ true). destruct (Toy.demo_two_ok MP_FLAG_THREAD_SAFE 2000 eq_refl eq_refl) as [F C]; [vm_compute; exact eq_refl|].
  destruct (slab_free_silent (Watched p w []) [4296] 4096 [] (hdr_of p 4096)) as (s' & E & Ew & Ec & _).
  - cbn [wp_pool app]. apply (two_split MP_FLAG_THREAD_SAFE 2000 4296 4096 F). vm_compute. exact eq_refl.
  - vm_compute. exact eq_refl.
  - vm_compute. exact eq_refl.
  - unfold on. cbn [wp_pool]. unfold p. rewrite C. reflexivity.
  - exists s'. split; [exact E|]. rewrite Ew, Ec. split; reflexivity.
Defined.
