(* ===== verification/DiffReport.v ===== *)
(** * The incremental leak report

    The text [mp_diff_snapshots] of [src/cmem.c] writes: the blocks of the second snapshot
    that the first lacks, one line each, and their totals.  The counting alone is in
    [Snapshot], where it is compared with the analysis tool. *)
From S2P Require Import Prelude Text Header Dll SizeClass Front FrontSpec FrontProps Snapshot Report.
From Stdlib Require Import ZArith Lia String.
From stdpp Require Import base option list gmap.
Open Scope Z_scope.

Definition diff_header (path_a : list Z) (allocs_a : Z) (path_b : list Z) (allocs_b : Z) : list Z :=
  bs "=================== CMEM INCREMENTAL SNAPSHOT DIFF REPORT ===================" ++ NL ++
  bs "  Baseline Snapshot A : " ++ path_a ++ bs " (" ++ dec (u32 allocs_a) ++ bs " blocks)" ++ NL ++
  bs "  Target Snapshot B   : " ++ path_b ++ bs " (" ++ dec (u32 allocs_b) ++ bs " blocks)" ++ NL ++
  bs "=============================================================================" ++ NL.

Definition diff_line (count : Z) (r : snapshot_record) (file func : list Z) : list Z :=
  bs "[Incremental Leak #" ++ dec count ++ bs "] Addr: 0x" ++ hex (r_address r) ++ bs " | Size: " ++ dec (r_size r) ++ bs " B | Tier: " ++ record_tier r ++
  bs " | Location: " ++ file ++ bs ":" ++ dec (r_line r) ++ bs " (" ++ func ++ bs ")" ++ NL.

Definition diff_footer (count bytes : Z) : list Z :=
  bs "-----------------------------------------------------------------------------" ++ NL ++
  bs "  Net Incremental Leaked Allocations : " ++ dec count ++ bs " blocks" ++ NL ++
  bs "  Net Incremental Leaked Bytes       : " ++ dec bytes ++ bs " bytes" ++ NL ++
  bs "=============================================================================" ++ NL.

(** [while (fread(&recb, sizeof(recb), 1, fb) == 1)]: the text, the count, the bytes. *)
Fixpoint diff_loop (fuel : nat) (f : list Z) (recs_a : list snapshot_record) (max_len : Z) (st : Z * list Z) (diff_count diff_bytes : Z)
    : outcome (Z * list Z * Z * Z) :=
  match fuel with
  | O => Fault
  | S fuel =>
      match fread SIZEOF_SNAPSHOT_RECORD f with
      | None => Done (st, diff_count, diff_bytes)
      | Some (rec, f) =>
          let recb := record_of_bytes rec in
          if raw_found recb recs_a then diff_loop fuel f recs_a max_len st diff_count diff_bytes
          else
            let diff_count := u64 (diff_count + 1) in
            let diff_bytes := u64 (diff_bytes + r_size recb) in
            st ← (if st.1 <? max_len then
                    file ← field_name rec 24;
                    func ← field_name rec 88;
                    print max_len st (diff_line diff_count recb file func)
                  else Done st);
            diff_loop fuel f recs_a max_len st diff_count diff_bytes
      end
  end.

(** The verdict and the buffer. *)
Definition mp_diff_report (path_a path_b : list Z) (fa fb : option (list Z)) (calloc_ok : bool) (out_report : list Z) (max_len : Z) : outcome (bool * list Z) :=
  if max_len =? 0 then Done (false, out_report)
  else
    match fa, fb with
    | Some fa, Some fb =>
        match raw_header fa, raw_header fb with
        | Some (ha, fa), Some (hb, fb) =>
            let count_a := if CMEM_MAX_SNAPSHOT_RECORDS <? sh_allocs ha then 0 else sh_allocs ha in
            let recs_a := if (0 <? count_a) && calloc_ok && (count_a * Z.of_nat SIZEOF_SNAPSHOT_RECORD <=? zlen fa)
                          then read_raw (Z.to_nat count_a) fa else [] in
            st ← print max_len (0, out_report) (diff_header path_a (sh_allocs ha) path_b (sh_allocs hb));
            r ← diff_loop (S (length fb)) fb recs_a max_len st 0 0;
            let '(st, diff_count, diff_bytes) := r in
            st ← print_avail max_len st (diff_footer diff_count diff_bytes);
            Done (true, st.2)
        | _, _ => Done (false, out_report)
        end
    | _, _ => Done (false, out_report)
    end.

(** The numbers are those of [Snapshot.mp_diff_snapshots]. *)
Lemma diff_loop_counts fuel : forall f other max st n bytes st' n' bytes',
  diff_loop fuel f other max st n bytes = Done (st', n', bytes') -> raw_missing fuel f other n bytes = Done (n', bytes').
Proof.
  induction fuel as [|fuel IH]; intros f other max st n bytes st' n' bytes'; cbn [diff_loop raw_missing]; [done|].
  destruct (fread SIZEOF_SNAPSHOT_RECORD f) as [[rec f']|]; [|by intros [= _ <- <-]]. destruct (raw_found _ other); [apply IH|].
  destruct (if st.1 <? max then _ else _) as [s1| |]; cbn [mbind outcome_bind]; [apply IH|done..].
Qed.

Section DiffReport.
Context `{TT : Tiers}.
Context (str : Z -> list Z).

(** The lines for the blocks [l] of [p]; [n] have been written before. *)
Fixpoint diff_lines (p : pool) (other : list snapshot_record) (n : Z) (l : list Z) : list (list Z) :=
  match l with
  | [] => []
  | h :: l =>
      let r := record_at str p h in
      if raw_found r other then diff_lines p other n l
      else diff_line (u64 (n + 1)) r (shown (name_at str (alloc_file (header_at p h)))) (shown (name_at str (alloc_func (header_at p h)))) ::
           diff_lines p other (u64 (n + 1)) l
  end.

Lemma diff_line_short p h n f g : 0 <= n < 2 ^ 64 -> zlen f <= 63 -> zlen g <= 63 -> zlen (diff_line n (record_at str p h) f g) <= INT_MAX.
Proof.
  intros Hi Hf Hg. destruct (record_at_fits str p h) as (H1 & H2 & H3 & H4 & _). pose proof (dec_short _ Hi). pose proof (hex_short _ H1). pose proof (dec_short _ H2).
  pose proof (dec_short (r_line (record_at str p h)) ltac:(lia)). assert (Ht : zlen (record_tier (record_at str p h)) <= 9) by (unfold record_tier; repeat case_match; by vm_compute).
  unfold diff_line, INT_MAX. text_length. lia.
Qed.

Lemma diff_loop_run p L b max other : front_ok p L -> (forall a, printable (str a)) -> 0 < max <= zlen b -> max < 2 ^ 63 ->
  forall l t n bytes fuel, (forall h, h ∈ l -> h ∈ L) -> u64 n = n -> u64 bytes = bytes -> (length l < fuel)%nat ->
  let T := emit max t (diff_lines p other n l) in
  let '(n', bytes') := counted_missing (map record_key (map (record_at str p) l)) (map record_key other) n bytes in
  diff_loop fuel (concat (map record_bytes (map (record_at str p) l))) other max (zlen t, rendered b max t) n bytes = Done (zlen T, rendered b max T, n', bytes').
Proof.
  intros F Hs Hm Hx. induction l as [|h l IH]; intros t n bytes fuel Hl Hn Hb Hf; (destruct fuel as [|fuel]; [cbn in Hf; lia|]); cbn [diff_loop map concat diff_lines].
  - rewrite counted_nil by done. rewrite fread_short by (cbn; unfold SIZEOF_SNAPSHOT_RECORD; lia). done.
  - rewrite fread_record by apply record_at_fits. rewrite record_roundtrip by apply record_at_fits. rewrite counted_step, <- raw_found_spec.
    destruct (raw_found (record_at str p h) other); [apply IH; try done; [intros x Hx'; apply Hl; by right|cbn in Hf; lia]|].
    cbn [fst emit]. specialize (IH (if zlen t <? max then t ++ diff_line (u64 (n + 1)) (record_at str p h) (shown (name_at str (alloc_file (header_at p h))))
      (shown (name_at str (alloc_func (header_at p h)))) else t) (u64 (n + 1)) (u64 (bytes + r_size (record_at str p h))) fuel).
    cbn zeta in IH. change ((record_key (record_at str p h)).2) with (r_size (record_at str p h)). destruct (counted_missing _ _ (u64 (n + 1)) _) as [n' bytes'].
    destruct (Z.ltb_spec (zlen t) max) as [Ht|Ht].
    + destruct (record_names str p L h F (Hl h (list_elem_of_here _ _)) Hs) as [-> ->]. cbn [mbind outcome_bind].
      rewrite print_run; [|done|done|done|]. 2: { apply diff_line_short; [apply u64_bound|apply shown_short..]. }
      cbn [mbind outcome_bind]. apply IH; [intros x Hx'; apply Hl; by right|apply u64_idem..|cbn in Hf; lia].
    + cbn [mbind outcome_bind]. rewrite IH; [|intros x Hx'; apply Hl; by right|apply u64_idem..|cbn in Hf; lia]. by rewrite emit_full by done.
Qed.

(** What the report on two pools says, were there no limit. *)
Definition diff_report (path_a path_b : list Z) (pa : pool) (La : list Z) (pb : pool) (Lb : list Z) : list Z :=
  let ra := map (record_at str pa) La in
  let '(count, bytes) := counted_missing (map record_key (map (record_at str pb) Lb)) (map record_key ra) 0 0 in
  diff_header path_a (sh_allocs (snapshot_header_of pa)) path_b (sh_allocs (snapshot_header_of pb)) ++
  concat (diff_lines pb ra 0 Lb) ++ diff_footer count bytes.

(** The records of the first file, as the comparison reads them. *)
Lemma read_baseline pa La : front_ok pa La -> zlen La <= CMEM_MAX_SNAPSHOT_RECORDS ->
  let ra := map (record_at str pa) La in
  let count_a := if CMEM_MAX_SNAPSHOT_RECORDS <? sh_allocs (snapshot_header_of pa) then 0 else sh_allocs (snapshot_header_of pa) in
  (if (0 <? count_a) && true && (count_a * Z.of_nat SIZEOF_SNAPSHOT_RECORD <=? zlen (concat (map record_bytes ra)))
   then read_raw (Z.to_nat count_a) (concat (map record_bytes ra)) else []) = ra.
Proof.
  intros Fa Hle ra count_a. assert (Hra : Forall record_fits ra) by (apply Forall_forall; intros r (x & -> & _)%list_elem_of_fmap; apply record_at_fits).
  assert (Ec : count_a = zlen La).
  { unfold count_a. cbn. pose proof (zlen_nonneg La). rewrite (front_count pa La Fa (front_length pa La Fa)), u64_small by (pose proof (front_length pa La Fa); lia).
    by rewrite (proj2 (Z.ltb_ge _ _)). }
  rewrite Ec. assert (El : zlen (concat (map record_bytes ra)) = zlen La * Z.of_nat SIZEOF_SNAPSHOT_RECORD).
  { unfold zlen. rewrite length_records by done. unfold ra. rewrite length_map. lia. }
  rewrite El, Z.leb_refl, !andb_true_r. destruct (Z.ltb_spec 0 (zlen La)) as [_|H0].
  - rewrite <- (app_nil_r (concat _)). apply read_raw_file; [|done]. unfold ra, zlen. by rewrite Nat2Z.id, length_map.
  - unfold ra. destruct La as [|x La']; [done|]. rewrite zlen_cons in H0. pose proof (zlen_nonneg La'). lia.
Qed.

Lemma diff_footer_short n m : 0 <= n < 2 ^ 64 -> 0 <= m < 2 ^ 64 -> zlen (diff_footer n m) <= INT_MAX.
Proof. intros Hn Hm. pose proof (dec_short _ Hn). pose proof (dec_short _ Hm). unfold diff_footer, INT_MAX. text_length. lia. Qed.

Lemma diff_header_short pa n pb m : zlen pa <= 2 ^ 20 -> zlen pb <= 2 ^ 20 -> zlen (diff_header pa n pb m) <= INT_MAX.
Proof.
  intros Ha Hb. assert (U : forall x, zlen (dec (u32 x)) <= 64) by (intros x; apply dec_short; unfold u32; pose proof (Z.mod_pos_bound x (2 ^ 32) ltac:(lia)); lia).
  pose proof (U n). pose proof (U m). unfold diff_header, INT_MAX. text_length. lia.
Qed.

(** The incremental report on snapshots of two pools never faults and leaves in the
    caller's buffer the beginning of: the two headers, a numbered line for every block of
    the second pool whose address and size are not those of a block of the first, in list
    order, and the totals, which are the ones [Snapshot.mp_diff_snapshots] counts. *)
Theorem diff_report_spec path_a path_b pa La pb Lb b max :
  front_ok pa La -> front_ok pb Lb -> (forall a, printable (str a)) -> zlen La <= CMEM_MAX_SNAPSHOT_RECORDS ->
  zlen path_a <= 2 ^ 20 -> zlen path_b <= 2 ^ 20 -> 0 < max <= zlen b -> max < 2 ^ 63 ->
  exists fa fb, mp_export_binary_snapshot true str pa = Done (Some fa) /\ mp_export_binary_snapshot true str pb = Done (Some fb) /\
    mp_diff_report path_a path_b (Some fa) (Some fb) true b max = Done (true, rendered b max (diff_report path_a path_b pa La pb Lb)).
Proof.
  intros Fa Fb Hs Hle Hpa Hpb Hm Hx. exists (pool_file str pa La), (pool_file str pb Lb). do 2 (split; [by apply export_run|]).
  unfold mp_diff_report, pool_file. rewrite (proj2 (Z.eqb_neq max 0)), !raw_header_file by (apply header_of_fits || done || lia).
  rewrite (read_baseline pa La Fa Hle), print_start by (done || by apply diff_header_short). cbn [mbind outcome_bind].
  set (ra := map (record_at str pa) La). set (H := diff_header _ _ _ _).
  pose proof (diff_loop_run pb Lb b max ra Fb Hs Hm Hx Lb H 0 0 (S (length (concat (map record_bytes (map (record_at str pb) Lb)))))) as R.
  unfold diff_report. fold ra. unfold counted_missing in *. set (n' := u64 (0 + _)) in *. set (b' := u64 (0 + bytes_of _)) in *. cbn zeta in R. rewrite R; [|auto|done|done|].
  - cbn [mbind outcome_bind].
    assert (E : forall t, print_avail max (zlen t, rendered b max t) (diff_footer n' b') = Done (zlen (emit max t [diff_footer n' b']), rendered b max (emit max t [diff_footer n' b']))).
    { intros t. pose proof (print_each_run b max [diff_footer n' b'] Hm Hx) as P. cbn [print_each] in P. specialize (P ltac:(repeat constructor; apply diff_footer_short; apply u64_bound) t).
      destruct (print_avail _ _ _) as [s| |]; cbn [mbind outcome_bind] in P; [by rewrite P|done..]. }
    rewrite E. cbn [mbind outcome_bind snd]. rewrite <- emit_app, rendered_emit, concat_app. cbn [concat]. by rewrite app_nil_r.
  - rewrite length_records by (apply Forall_forall; intros r (x & -> & _)%list_elem_of_fmap; apply record_at_fits). rewrite length_map. unfold SIZEOF_SNAPSHOT_RECORD. lia.
Qed.

End DiffReport.

(** A pool of two blocks against an empty one, and against itself. *)
Lemma diff_report_spec_witness :
  (exists fa fb, mp_export_binary_snapshot true snap_str (Toy.demo_pool 0 0) = Done (Some fa) /\ mp_export_binary_snapshot true snap_str snap_pool = Done (Some fb) /\
    mp_diff_report (bs "a") (bs "b") (Some fa) (Some fb) true (blank 4096) 4096 =
      Done (true, rendered (blank 4096) 4096 (diff_report snap_str (bs "a") (bs "b") (Toy.demo_pool 0 0) [] snap_pool snap_blocks))) /\
  length (diff_lines snap_str snap_pool [] 0 snap_blocks) = 2%nat /\
  diff_lines snap_str snap_pool (map (record_at snap_str snap_pool) snap_blocks) 0 snap_blocks = [].
Proof.
  split; [|split; vm_compute; reflexivity].
  apply (diff_report_spec snap_str (bs "a") (bs "b") (Toy.demo_pool 0 0) [] snap_pool snap_blocks (blank 4096) 4096).
  - by apply Toy.demo_ok.
  - exact snap_ok.
  - intros a. apply snap_short.
  - vm_compute. discriminate.
  - vm_compute. discriminate.
  - vm_compute. discriminate.
  - split; [lia|vm_compute; discriminate].
  - lia.
Defined.
