(* ===== verification/TreeDump.v ===== *)
(** * The printed tree of pools

    [print_arena_node] and [mp_dump_tree_info] of [src/cmem_diag.c], over the tree of
    [PoolTree]. *)
From S2P Require Import Prelude Text Header Config PoolTree.
From Stdlib Require Import ZArith Lia String.
From stdpp Require Import base option list gmap.
Open Scope Z_scope.

(** What a line shows of a pool: its name, its live bytes and its live blocks. *)
Record arena_info := AInfo { ai_name : list Z; ai_bytes : Z; ai_blocks : Z }.

Definition node_line (indent : nat) (i : arena_info) : list Z :=
  concat (replicate indent (bs "  ")) ++ bs "|- [Arena: " ++ ai_name i ++ bs "] Active Bytes: " ++ dec (ai_bytes i) ++
  bs " B, Active Allocations: " ++ dec (ai_blocks i) ++ NL.

Section TreeDump.
Context (info : Z -> arena_info).

Fixpoint print_arena_node (fuel : nat) (w : world) (pool : Z) (indent : nat) : outcome (list Z) :=
  match fuel with
  | O => Fault
  | S fuel =>
      if pool =? NULL then Done []
      else
        p ← ld_pool w pool;
        t ← print_children fuel w (first_child p) indent;
        Done (node_line indent (info pool) ++ t)
  end
with print_children (fuel : nat) (w : world) (child : Z) (indent : nat) : outcome (list Z) :=
  match fuel with
  | O => Fault
  | S fuel =>
      if child =? NULL then Done []
      else
        t ← print_arena_node fuel w child (S indent);
        c ← ld_pool w child;
        rest ← print_children fuel w (next_sibling c) indent;
        Done (t ++ rest)
  end.

Definition mp_dump_tree_info (w : world) (pool : Z) : outcome (list Z) :=
  if pool =? NULL then Done []
  else
    t ← print_arena_node (tree_fuel w) w pool 0;
    Done (NL ++ bs "================ CMEM ARENA TREE DUMP ================" ++ NL ++ t ++
          bs "======================================================" ++ NL ++ NL).

(** The lines of a forest, depth first. *)
Fixpoint forest_lines (indent : nat) (f : forest) : list Z :=
  match f with FNil => [] | FCons a k s => node_line indent (info a) ++ forest_lines (S indent) k ++ forest_lines indent s end.

Lemma print_children_run w f : forall par hd indent fuel, rep (pools w) par hd f -> (2 * List.length (addrs f) < fuel)%nat ->
  print_children fuel w hd indent = Done (forest_lines (S indent) f).
Proof.
  induction f as [|a k IHk s IHs]; intros par hd indent fuel Hr Hf; (destruct fuel as [|fuel]; [cbn in Hf; lia|]); cbn [print_children].
  - cbn in Hr. by subst hd.
  - destruct Hr as (-> & Ha & n & Hn & _ & Hk & Hs). cbn [addrs List.length] in Hf. rewrite length_app in Hf. rewrite (proj2 (Z.eqb_neq a NULL)) by done.
    destruct fuel as [|fuel]; [lia|]. cbn [print_arena_node]. rewrite (proj2 (Z.eqb_neq a NULL)) by done. unfold ld_pool. rewrite Hn. cbn [mbind outcome_bind].
    rewrite (IHk a (first_child n)) by (done || lia). cbn [mbind outcome_bind]. rewrite (IHs par (next_sibling n)) by (done || lia). cbn [mbind outcome_bind forest_lines].
    by rewrite <- app_assoc.
Qed.

(** The dump of a pool terminates without a fault and prints one line for the pool and
    every pool below it, each once, parents before their children and siblings in list
    order, indented by depth. *)
Theorem tree_dump_spec w a n kids :
  a <> NULL -> pools w !! a = Some n -> rep (pools w) a (first_child n) kids -> NoDup (a :: addrs kids) ->
  mp_dump_tree_info w a = Done (NL ++ bs "================ CMEM ARENA TREE DUMP ================" ++ NL ++ forest_lines 0 (FCons a kids FNil) ++
    bs "======================================================" ++ NL ++ NL).
Proof.
  intros Ha Hn Hr Hd. unfold mp_dump_tree_info. rewrite (proj2 (Z.eqb_neq a NULL)) by done.
  assert (Hs : (S (List.length (addrs kids)) <= base.size (pools w))%nat).
  { apply (addrs_size w (a :: addrs kids) Hd). intros x [->|Hx]%elem_of_cons; [eauto|by eapply rep_some]. }
  unfold tree_fuel. replace (2 * base.size (pools w) + 2)%nat with (S (2 * base.size (pools w) + 1)) by lia. cbn [print_arena_node].
  rewrite (proj2 (Z.eqb_neq a NULL)) by done. unfold ld_pool. rewrite Hn. cbn [mbind outcome_bind]. rewrite (print_children_run w kids a) by (done || lia).
  cbn [mbind outcome_bind forest_lines]. by rewrite app_nil_r.
Qed.

End TreeDump.

(** ** Names *)

Definition ARENA_NAME_SIZE : Z := 64.

(** [snprintf(arena_name, sizeof(arena_name), "%s", name)] and what a reader of the field sees. *)
Definition mp_set_name (arena_name name : list Z) : outcome (list Z) :=
  r ← snprintf arena_name 0 ARENA_NAME_SIZE name; let '(_, buf) := r in Done buf.

Definition mp_get_name (arena_name : list Z) : list Z := until_nul arena_name.

(** A name reads back as its first 63 characters, and setting it never leaves the field. *)
Theorem name_roundtrip arena_name name :
  zlen arena_name = ARENA_NAME_SIZE -> printable name -> zlen name <= INT_MAX ->
  exists buf, mp_set_name arena_name name = Done buf /\ zlen buf = ARENA_NAME_SIZE /\ mp_get_name buf = take 63 name.
Proof.
  intros Hl Hp Hi. unfold mp_set_name. rewrite snprintf_start by (unfold ARENA_NAME_SIZE in *; lia || done). cbn [mbind outcome_bind].
  eexists. split; [done|]. split; [rewrite rendered_length; [done|rewrite Hl; done]|]. unfold mp_get_name, rendered. apply until_nul_printable. by apply Forall_take.
Qed.

Lemma name_roundtrip_witness : exists buf, mp_set_name (replicate 64 0) (bs "Arena") = Done buf /\ mp_get_name buf = bs "Arena".
Proof.
  destruct (name_roundtrip (replicate 64 0) (bs "Arena")) as (buf & E & _ & R); [reflexivity|repeat constructor; discriminate|vm_compute; discriminate|].
  exists buf. split; [exact E|exact R].
Defined.

Definition family_info (a : Z) : arena_info := AInfo (dec a) (a * 8) 1.

Lemma tree_dump_spec_witness :
  exists t, mp_dump_tree_info family_info family 100 = Done t /\
    forest_lines family_info 0 (FCons 100 (FCons 300 FNil (FCons 200 FNil FNil)) FNil) =
      node_line 0 (family_info 100) ++ node_line 1 (family_info 300) ++ node_line 1 (family_info 200).
Proof.
  eexists. split; [|vm_compute; reflexivity].
  eapply (tree_dump_spec family_info family 100 _ (FCons 300 FNil (FCons 200 FNil FNil))); [done|vm_compute; reflexivity|apply family_rep|].
  apply (bool_decide_unpack _). vm_compute. reflexivity.
Defined.
