(* ===== verification/Routing.v ===== *)
(** * Which pool an allocation belongs to

    A pool with sub-arenas passes an allocation on to the arena its thread is bound to
    ([mp_alloc] in [src/cmem_alloc.c]); the medium tier then picks between the thread's
    block cache, its private arena and the pool's own list; and [mp_free] finds the pool to
    account to from the header alone.  This file follows one thing through these steps: the
    pool on whose books a live block is.  What a tier hands out is an argument (its
    memory is in [Slab], [TlsfPool], [Arena], [TlsfCache]); an answer the tier cannot give
    is [Err]; a free that would take a block off the wrong books is a [Fault].  The pools
    exist throughout ([PoolTree] creates and destroys them). *)
From S2P Require Import Prelude Header PoolTree.
From Stdlib Require Import ZArith Lia.
From stdpp Require Import base option list gmap.
Open Scope Z_scope.

(** The part of [thread_cache_t] that names pools: the owner, its mirror, the cached slots,
    the region of each cached medium block, and the private arena. *)
Record thread_cache := TCache {
  owner_pool : Z;
  tls_bound_arena : Z;
  cached_slots : list Z;
  tlsf_entries : list Z;
  tlsf_arena : Z;
}.

Definition no_cache : thread_cache := TCache NULL NULL [] [] NULL.

(** [tpool_owner] and [arena_owner]: the [owner_pool] fields of the regions and of the
    private arenas.  [books]: the pool whose live list and counters have a block. *)
Record state := State {
  wd : world;
  caches : gmap Z thread_cache;
  tpool_owner : gmap Z Z;
  arena_owner : gmap Z Z;
  headers : gmap Z mp_block_header;
  books : gmap Z Z;
}.

Definition cache_of (s : state) (tid : Z) : thread_cache := default no_cache (caches s !! tid).
Definition set_wd (s : state) w := State w (caches s) (tpool_owner s) (arena_owner s) (headers s) (books s).
Definition set_cache (s : state) (tid : Z) (c : thread_cache) := State (wd s) (<[tid := c]> (caches s)) (tpool_owner s) (arena_owner s) (headers s) (books s).
Definition set_arena_owner (s : state) g := State (wd s) (caches s) (tpool_owner s) g (headers s) (books s).
Definition set_blocks (s : state) g b := State (wd s) (caches s) (tpool_owner s) (arena_owner s) g b.

Definition ld_key (g : gmap Z Z) (a : Z) : outcome Z := match g !! a with Some x => Done x | None => Fault end.

(** ** The thread's cache changes hands *)

(** [tlsf_arena_retire]. *)
Definition retire_arena (s : state) (c : thread_cache) (pool : Z) : outcome thread_cache :=
  if tlsf_arena c =? NULL then Done c
  else
    o ← ld_key (arena_owner s) (tlsf_arena c);
    Done (if negb (o =? pool) then c else TCache (owner_pool c) (tls_bound_arena c) (cached_slots c) (tlsf_entries c) NULL).

(** Each cached block goes back to its region. *)
Fixpoint flush_tlsf_entries (g : gmap Z Z) (l : list Z) : outcome unit :=
  match l with [] => Done tt | tp :: l => _ ← ld_key g tp; flush_tlsf_entries g l end.

(** The slots go back to the pages of [pool] and the entries to their regions. *)
Definition tls_cache_flush_pool (s : state) (c : thread_cache) (pool : Z) : outcome thread_cache :=
  if negb (owner_pool c =? pool) then Done c
  else
    _ ← (if (match cached_slots c with [] => true | _ => false end) then Done tt else _ ← ld_pool (wd s) pool; Done tt);
    _ ← flush_tlsf_entries (tpool_owner s) (tlsf_entries c);
    retire_arena s (TCache NULL (tls_bound_arena c) [] [] (tlsf_arena c)) pool.

Definition tls_cache_validate_owner (s : state) (tid pool : Z) : outcome state :=
  let c := cache_of s tid in
  if owner_pool c =? pool then Done s
  else
    c ← (if negb (owner_pool c =? NULL) then tls_cache_flush_pool s c (owner_pool c) else Done c);
    p ← ld_pool (wd s) pool;
    let bound := if is_multi_arena_child p && negb (master_pool p =? NULL) then pool else NULL in
    Done (set_cache s tid (TCache pool bound [] (tlsf_entries c) (tlsf_arena c))).

(** ** Allocation *)

(** What the tier hands out. *)
Inductive supply :=
  | FromSlab (refill : list Z)         (* a slot of the pages; [refill] go to the cache *)
  | FromSlabCache (i : nat)            (* the cached slot number [i] *)
  | FromTlsfCache (i : nat)            (* the cached block number [i] *)
  | FromTlsfArena (made : Z)           (* the private arena; [made] if one has to be set up *)
  | FromTlsf (tp : Z)                  (* [tlsf_alloc], from the region [tp] *)
  | FromOs
  | FromReserve.

(** The header stamped at [h], which is on the books of [pool] from now on. *)
Definition stamp (s : state) (h pool type hfl sub : Z) : outcome state :=
  match books s !! h with
  | Some _ => Err
  | None => Done (set_blocks s (<[h := Header MP_MAGIC_HEAD type 0 (Z.lor hfl MP_BLOCK_FLAG_COUNTED) 0 0 h sub NULL 0 NULL 0]> (headers s)) (<[h := pool]> (books s)))
  end.

Definition mp_alloc_internal (s : state) (tid pool : Z) (sup : supply) (h : Z) : outcome state :=
  match sup with
  | FromSlab refill =>
      s ← tls_cache_validate_owner s tid pool;
      let c := cache_of s tid in
      stamp (set_cache s tid (TCache (owner_pool c) (tls_bound_arena c) (refill ++ cached_slots c) (tlsf_entries c) (tlsf_arena c))) h pool ALLOC_TYPE_SLAB 0 pool
  | FromSlabCache i =>
      s ← tls_cache_validate_owner s tid pool;
      let c := cache_of s tid in
      match cached_slots c !! i with
      | None => Err
      | Some x => if x =? h then stamp (set_cache s tid (TCache (owner_pool c) (tls_bound_arena c) (delete i (cached_slots c)) (tlsf_entries c) (tlsf_arena c))) h pool ALLOC_TYPE_SLAB 0 pool
                  else Err
      end
  | FromTlsfCache i =>
      s ← tls_cache_validate_owner s tid pool;
      let c := cache_of s tid in
      match tlsf_entries c !! i with
      | None => Err
      | Some tp => stamp (set_cache s tid (TCache (owner_pool c) (tls_bound_arena c) (cached_slots c) (delete i (tlsf_entries c)) (tlsf_arena c))) h pool ALLOC_TYPE_TLSF 0 tp
      end
  | FromTlsfArena made =>
      s ← tls_cache_validate_owner s tid pool;
      p ← ld_pool (wd s) pool;
      let c := cache_of s tid in
      s ← (if is_multi_arena_child p && (tlsf_arena c =? NULL) && negb (made =? NULL) then
             match arena_owner s !! made with
             | Some _ => Err
             | None => Done (set_cache (set_arena_owner s (<[made := pool]> (arena_owner s))) tid
                               (TCache (owner_pool c) (tls_bound_arena c) (cached_slots c) (tlsf_entries c) made))
             end
           else Done s);
      let arena := tlsf_arena (cache_of s tid) in
      if arena =? NULL then Err else stamp s h pool ALLOC_TYPE_TLSF MP_BLOCK_FLAG_TLSF_ARENA arena
  | FromTlsf tp =>
      s ← tls_cache_validate_owner s tid pool;
      let c := cache_of s tid in
      let source := if negb (tls_bound_arena c =? NULL) then tls_bound_arena c else pool in
      match tpool_owner s !! tp with
      | Some o => if o =? source then stamp s h pool ALLOC_TYPE_TLSF 0 tp else Err
      | None => Err
      end
  | FromOs => stamp s h pool ALLOC_TYPE_OS 0 pool
  | FromReserve => stamp s h pool ALLOC_TYPE_EMERGENCY 0 NULL
  end.

(** [mp_alloc]: [cpu] is where the thread runs. *)
Fixpoint mp_alloc (fuel : nat) (s : state) (tid cpu pool : Z) (sup : supply) (h : Z) : outcome state :=
  match fuel with
  | O => Fault
  | S fuel =>
      p ← ld_pool (wd s) pool;
      if 0 <? num_arenas p then
        r ← mp_get_thread_bound_arena (wd s) tid cpu pool;
        let '(arena, w) := r in
        let s := set_wd s w in
        if negb (arena =? NULL) && negb (arena =? pool) then mp_alloc fuel s tid cpu arena sup h
        else mp_alloc_internal s tid pool sup h
      else mp_alloc_internal s tid pool sup h
  end.

(** ** Release *)

(** The pool a block is released to; [pool] is what the caller passed. *)
Definition free_pool (s : state) (pool : Z) (hd : mp_block_header) : outcome (option Z) :=
  if has_flag (hflags hd) MP_BLOCK_FLAG_TLSF_ARENA then o ← ld_key (arena_owner s) (subpool hd); Done (Some o)
  else if negb (subpool hd =? NULL) then
    if alloc_type hd =? ALLOC_TYPE_TLSF then
      o ← ld_key (tpool_owner s) (subpool hd); Done (Some (if o =? NULL then pool else o))
    else Done (Some (subpool hd))
  else Done (if pool =? NULL then None else Some pool).

(** [room]: the cache the block would be parked in has a place. *)
Definition mp_free (s : state) (tid pool h : Z) (room : bool) : outcome state :=
  match headers s !! h, books s !! h with
  | Some hd, Some on =>
      r ← free_pool s pool hd;
      match r with
      | None => Done s
      | Some pool =>
          _ ← ld_pool (wd s) pool;
          if negb (on =? pool) then Fault
          else
            let s := set_blocks s (delete h (headers s)) (delete h (books s)) in
            if alloc_type hd =? ALLOC_TYPE_SLAB then
              s ← tls_cache_validate_owner s tid pool;
              let c := cache_of s tid in
              Done (if room then set_cache s tid (TCache (owner_pool c) (tls_bound_arena c) (h :: cached_slots c) (tlsf_entries c) (tlsf_arena c)) else s)
            else if alloc_type hd =? ALLOC_TYPE_TLSF then
              s ← tls_cache_validate_owner s tid pool;
              let c := cache_of s tid in
              Done (if negb (has_flag (hflags hd) MP_BLOCK_FLAG_TLSF_ARENA) && room
                    then set_cache s tid (TCache (owner_pool c) (tls_bound_arena c) (cached_slots c) (subpool hd :: tlsf_entries c) (tlsf_arena c)) else s)
            else Done s
      end
  | _, _ => Err
  end.

(** ** The invariant *)

(** A header that leads back to [q]. *)
Definition leads_to (s : state) (hd : mp_block_header) (q : Z) : Prop :=
  q <> NULL /\
  if has_flag (hflags hd) MP_BLOCK_FLAG_TLSF_ARENA then arena_owner s !! subpool hd = Some q
  else subpool hd <> NULL /\ (if alloc_type hd =? ALLOC_TYPE_TLSF then tpool_owner s !! subpool hd = Some q else subpool hd = q).

Record cache_ok (s : state) (c : thread_cache) : Prop := {
  ck_owner : owner_pool c <> NULL -> is_Some (pools (wd s) !! owner_pool c);
  ck_idle : owner_pool c = NULL -> cached_slots c = [] /\ tlsf_entries c = [] /\ tlsf_arena c = NULL;
  ck_bound : tls_bound_arena c = NULL \/ tls_bound_arena c = owner_pool c;
  ck_entries : forall tp, tp ∈ tlsf_entries c -> tp <> NULL /\ tpool_owner s !! tp = Some (owner_pool c);
  ck_arena : tlsf_arena c <> NULL -> arena_owner s !! tlsf_arena c = Some (owner_pool c);
}.

Definition arenas_ok (g : gmap Z pool_node) : Prop :=
  g !! NULL = None /\
  forall a n x, g !! a = Some n -> x ∈ arenas n -> exists m, g !! x = Some m /\ (x <> a -> arenas m = []).

Record routing_ok (s : state) : Prop := {
  ro_arenas : arenas_ok (pools (wd s));
  ro_bind : forall tid b, b ∈ arena_bindings (thread_of (wd s) tid) -> exists n, pools (wd s) !! b_master b = Some n /\ b_arena b ∈ arenas n;
  ro_caches : forall tid, cache_ok s (cache_of s tid);
  ro_tpools : forall tp o, tpool_owner s !! tp = Some o -> tp <> NULL /\ o <> NULL;
  ro_blocks : forall h q, books s !! h = Some q -> is_Some (pools (wd s) !! q) /\ exists hd, headers s !! h = Some hd /\ leads_to s hd q;
}.

Lemma cache_of_set s tid c tid' : cache_of (set_cache s tid c) tid' = if decide (tid' = tid) then c else cache_of s tid'.
Proof. unfold cache_of, set_cache. cbn [caches]. destruct (decide (tid' = tid)) as [->|]; [by rewrite lookup_insert_eq|by rewrite lookup_insert_ne]. Qed.

(** Putting a sound cache in place. *)
Lemma set_cache_ok s tid c : routing_ok s -> cache_ok s c -> routing_ok (set_cache s tid c).
Proof.
  intros [] Hc. split; try done. intros t. rewrite cache_of_set. destruct (decide (t = tid)) as [->|]; [by destruct Hc|by destruct (ro_caches0 t)].
Qed.

Lemma flush_entries (g : gmap Z Z) l : (forall tp, tp ∈ l -> is_Some (g !! tp)) ->
  flush_tlsf_entries g l = Done tt.
Proof.
  induction l as [|tp l IH]; intros H; [done|]. destruct (H tp (list_elem_of_here _ _)) as [o Ho]. cbn [flush_tlsf_entries]. unfold ld_key. rewrite Ho. cbn [mbind outcome_bind].
  apply IH. intros x Hx. apply H. by right.
Qed.

Lemma flush_run s c : cache_ok s c -> owner_pool c <> NULL ->
  tls_cache_flush_pool s c (owner_pool c) = Done (TCache NULL (tls_bound_arena c) [] [] NULL).
Proof.
  intros [Ho _ _ He Ha] H0. unfold tls_cache_flush_pool. rewrite Z.eqb_refl. cbn [negb]. destruct (Ho H0) as [p Hp].
  assert (E : (if (match cached_slots c with [] => true | _ => false end) then Done tt else _ ← ld_pool (wd s) (owner_pool c); Done tt) = Done tt).
  { unfold ld_pool. rewrite Hp. by destruct (cached_slots c). }
  rewrite E. cbn [mbind outcome_bind]. rewrite flush_entries by (intros tp Htp; destruct (He tp Htp) as [_ ->]; eauto). cbn [mbind outcome_bind].
  unfold retire_arena. cbn [tlsf_arena owner_pool tls_bound_arena cached_slots tlsf_entries]. destruct (Z.eqb_spec (tlsf_arena c) NULL) as [E0|E0]; [by rewrite E0|].
  unfold ld_key. rewrite (Ha E0). cbn [mbind outcome_bind]. by rewrite Z.eqb_refl.
Qed.

(** The owner changes without a fault, and the cache is the new owner's. *)
Lemma validate_run s tid pool : routing_ok s -> is_Some (pools (wd s) !! pool) ->
  exists s', tls_cache_validate_owner s tid pool = Done s' /\ routing_ok s' /\ owner_pool (cache_of s' tid) = pool /\
    wd s' = wd s /\ tpool_owner s' = tpool_owner s /\ arena_owner s' = arena_owner s /\ headers s' = headers s /\ books s' = books s.
Proof.
  intros R Hp. unfold tls_cache_validate_owner. destruct (Z.eqb_spec (owner_pool (cache_of s tid)) pool) as [E|E]; [by exists s|].
  pose proof (ro_caches _ R tid) as C. set (c := cache_of s tid) in *. destruct Hp as [p Hp].
  assert (Ec : exists c', (if negb (owner_pool c =? NULL) then tls_cache_flush_pool s c (owner_pool c) else Done c) = Done c' /\ tlsf_entries c' = [] /\ tlsf_arena c' = NULL).
  { destruct (Z.eqb_spec (owner_pool c) NULL) as [E0|E0]; cbn [negb]; [exists c; split; [done|]; by apply C|]. eexists. split; [by apply flush_run|done]. }
  destruct Ec as (c' & -> & E1 & E2). cbn [mbind outcome_bind]. unfold ld_pool. rewrite Hp. cbn [mbind outcome_bind]. rewrite E1, E2.
  assert (Hp0 : pool <> NULL) by (intros ->; destruct (ro_arenas _ R) as [N _]; congruence).
  eexists. split; [done|]. split; [|rewrite cache_of_set, decide_True by done; done].
  apply set_cache_ok; [done|]. split; cbn.
  - eauto.
  - by intros.
  - destruct (_ && _); auto.
  - intros tp Htp. by apply not_elem_of_nil in Htp.
  - done.
Qed.

(** ** Allocation keeps it *)

Lemma stamp_run s h pool type hfl sub : routing_ok s -> is_Some (pools (wd s) !! pool) ->
  leads_to s (Header MP_MAGIC_HEAD type 0 (Z.lor hfl MP_BLOCK_FLAG_COUNTED) 0 0 h sub NULL 0 NULL 0) pool ->
  stamp s h pool type hfl sub = Err \/
  exists s', stamp s h pool type hfl sub = Done s' /\ routing_ok s' /\ books s !! h = None /\ books s' = <[h := pool]> (books s) /\ wd s' = wd s.
Proof.
  intros R Hp Hl. unfold stamp. destruct (books s !! h) eqn:E; [by left|right]. eexists. split; [done|]. split; [|done].
  destruct R. split; try done.
  - intros t. by destruct (ro_caches0 t).
  - intros x q. cbn [books headers set_blocks wd]. destruct (decide (x = h)) as [->|Hne].
    + rewrite !lookup_insert_eq. intros [= <-]. split; [done|]. by eexists.
    + rewrite !lookup_insert_ne by done. apply ro_blocks0.
Qed.

Lemma with_cache_fields c sl en : cache_ok c.1 c.2 -> (forall tp, tp ∈ en -> tp ∈ tlsf_entries c.2) -> owner_pool c.2 <> NULL ->
  cache_ok c.1 (TCache (owner_pool c.2) (tls_bound_arena c.2) sl en (tlsf_arena c.2)).
Proof. intros [] He H0. split; cbn; try done. intros tp Htp. by apply ck_entries0, He. Qed.

Lemma pool_not_null s q : routing_ok s -> is_Some (pools (wd s) !! q) -> q <> NULL.
Proof. intros R [n Hn] ->. destruct (ro_arenas _ R) as [N _]. congruence. Qed.

(** A new private arena. *)
Lemma made_arena_ok s tid pool made : routing_ok s -> owner_pool (cache_of s tid) = pool -> is_Some (pools (wd s) !! pool) -> made <> NULL -> arena_owner s !! made = None ->
  let c := cache_of s tid in
  routing_ok (set_cache (set_arena_owner s (<[made := pool]> (arena_owner s))) tid (TCache (owner_pool c) (tls_bound_arena c) (cached_slots c) (tlsf_entries c) made)).
Proof.
  intros R Ho Hp Hm Hf c. assert (Hmono : forall a q, arena_owner s !! a = Some q -> <[made := pool]> (arena_owner s) !! a = Some q).
  { intros a q Ha. rewrite lookup_insert_ne; [done|]. intros ->. congruence. }
  apply set_cache_ok.
  - pose proof R as [R1 R2 R3 R4 R5]. split; try done.
    + intros t. destruct (R3 t) as [A B C D E]. split; try done. cbn. intros H0. by apply Hmono, E.
    + intros h q Hq. destruct (R5 h q Hq) as [Hl (hd & Hh & Hn & Hb)]. split; [done|]. exists hd. split; [done|]. split; [done|].
      destruct (has_flag _ _); [by apply Hmono|done].
  - destruct (ro_caches _ R tid) as [A B C D E]. split; try done.
    + intros H0. change (owner_pool (cache_of s tid) = NULL) in H0. rewrite Ho in H0. by destruct (pool_not_null s pool R Hp).
    + intros _. cbn. subst c. by rewrite lookup_insert_eq, Ho.
Qed.

Lemma internal_run s tid pool sup h : routing_ok s -> is_Some (pools (wd s) !! pool) -> sup <> FromReserve ->
  mp_alloc_internal s tid pool sup h = Err \/
  exists s', mp_alloc_internal s tid pool sup h = Done s' /\ routing_ok s' /\ books s !! h = None /\ books s' = <[h := pool]> (books s) /\ wd s' = wd s.
Proof.
  intros R Hp Hs. pose proof (pool_not_null s pool R Hp) as H0. unfold mp_alloc_internal.
  assert (V : sup <> FromOs -> exists s', tls_cache_validate_owner s tid pool = Done s' /\ routing_ok s' /\ owner_pool (cache_of s' tid) = pool /\
    wd s' = wd s /\ tpool_owner s' = tpool_owner s /\ arena_owner s' = arena_owner s /\ headers s' = headers s /\ books s' = books s) by (intros _; by apply validate_run).
  destruct sup as [refill|i|i|made|tp| |]; try done.
  - destruct V as (s1 & -> & R1 & Ho & Ew & Et & Ea & Eh & Eb); [done|]. cbn [mbind outcome_bind]. rewrite <- Ew in Hp |- *. rewrite <- Eb.
    apply (stamp_run (set_cache s1 tid _)); [|done|done]. apply set_cache_ok; [done|].
    apply (with_cache_fields (s1, cache_of s1 tid)); [apply R1|done|cbn; congruence].
  - destruct V as (s1 & -> & R1 & Ho & Ew & Et & Ea & Eh & Eb); [done|]. cbn [mbind outcome_bind]. rewrite <- Ew in Hp |- *. rewrite <- Eb.
    destruct (cached_slots _ !! i) as [x|]; [|by left]. destruct (x =? h); [|by left].
    apply (stamp_run (set_cache s1 tid _)); [|done|done]. apply set_cache_ok; [done|].
    apply (with_cache_fields (s1, cache_of s1 tid)); [apply R1|done|cbn; congruence].
  - destruct V as (s1 & -> & R1 & Ho & Ew & Et & Ea & Eh & Eb); [done|]. cbn [mbind outcome_bind]. rewrite <- Ew in Hp |- *. rewrite <- Eb.
    destruct (tlsf_entries _ !! i) as [tp|] eqn:Ei; [|by left]. apply (stamp_run (set_cache s1 tid _)); [|done|].
    + apply set_cache_ok; [done|]. apply (with_cache_fields (s1, cache_of s1 tid)); [apply R1| |cbn; congruence].
      intros x Hx. cbn in *. apply list_elem_of_lookup in Hx as [j Hj]. rewrite list_lookup_delete in Hj. case_decide; by eapply list_elem_of_lookup_2.
    + apply list_elem_of_lookup_2 in Ei. destruct (ck_entries _ _ (ro_caches _ R1 tid) tp Ei) as [Hn Hq]. rewrite Ho in Hq. by split.
  - destruct V as (s1 & -> & R1 & Ho & Ew & Et & Ea & Eh & Eb); [done|]. cbn [mbind outcome_bind]. rewrite <- Ew in Hp |- *. rewrite <- Eb.
    destruct Hp as [p Hp]. unfold ld_pool. rewrite Hp. cbn [mbind outcome_bind].
    assert (L : forall s2, routing_ok s2 -> owner_pool (cache_of s2 tid) = pool -> wd s2 = wd s1 -> books s2 = books s1 ->
      (if tlsf_arena (cache_of s2 tid) =? NULL then Err else stamp s2 h pool ALLOC_TYPE_TLSF MP_BLOCK_FLAG_TLSF_ARENA (tlsf_arena (cache_of s2 tid))) = Err \/
      exists s', (if tlsf_arena (cache_of s2 tid) =? NULL then Err else stamp s2 h pool ALLOC_TYPE_TLSF MP_BLOCK_FLAG_TLSF_ARENA (tlsf_arena (cache_of s2 tid))) = Done s' /\
        routing_ok s' /\ books s1 !! h = None /\ books s' = <[h := pool]> (books s1) /\ wd s' = wd s1).
    { intros s2 R2 Ho2 Ew2 Eb2. destruct (Z.eqb_spec (tlsf_arena (cache_of s2 tid)) NULL) as [|Hn]; [by left|]. rewrite <- Eb2, <- Ew2. apply stamp_run; [done|rewrite Ew2; eauto|].
      split; [done|]. cbn. rewrite (ck_arena _ _ (ro_caches _ R2 tid) Hn). by rewrite Ho2. }
    destruct (is_multi_arena_child p && (tlsf_arena (cache_of s1 tid) =? NULL) && negb (made =? NULL)) eqn:Em; [|cbn [mbind outcome_bind]; by apply L].
    destruct (arena_owner s1 !! made) eqn:Emade; [by left|]. cbn [mbind outcome_bind]. apply L; [|rewrite cache_of_set, decide_True by done; done|done|done].
    apply andb_true_iff in Em as [_ Em%negb_true_iff%Z.eqb_neq]. apply made_arena_ok; try done; by rewrite Hp.
  - destruct V as (s1 & -> & R1 & Ho & Ew & Et & Ea & Eh & Eb); [done|]. cbn [mbind outcome_bind]. rewrite <- Ew in Hp |- *. rewrite <- Eb.
    destruct (tpool_owner s1 !! tp) as [o|] eqn:Eo; [|by left].
    assert (Esrc : (if negb (tls_bound_arena (cache_of s1 tid) =? NULL) then tls_bound_arena (cache_of s1 tid) else pool) = pool).
    { destruct (ck_bound _ _ (ro_caches _ R1 tid)) as [->|E]; [done|]. rewrite E, Ho. by destruct (pool =? NULL). }
    rewrite Esrc. destruct (Z.eqb_spec o pool) as [->|]; [|by left]. destruct (ro_tpools _ R1 tp pool Eo) as [Hn _]. apply stamp_run; [done|done|]. by split.
  - apply stamp_run; [done|done|]. by split.
Qed.

(** ** Choosing the arena *)

(** Only the round-robin counters and the bindings have moved. *)
Definition same_arenas (g g' : gmap Z pool_node) : Prop := forall x, arenas <$> g' !! x = arenas <$> g !! x.

Lemma same_arenas_some g g' x : same_arenas g g' -> is_Some (g !! x) <-> is_Some (g' !! x).
Proof. intros H. specialize (H x). rewrite <- !(fmap_is_Some arenas). by rewrite H. Qed.

Lemma same_arenas_at g g' x n : same_arenas g g' -> g' !! x = Some n -> exists m, g !! x = Some m /\ arenas m = arenas n.
Proof. intros H Hn. specialize (H x). rewrite Hn in H. destruct (g !! x) as [m|]; [|done]. injection H as E. by exists m. Qed.

Lemma set_wd_ok s w : routing_ok s -> same_arenas (pools (wd s)) (pools w) ->
  (forall tid b, b ∈ arena_bindings (thread_of w tid) -> exists n, pools (wd s) !! b_master b = Some n /\ b_arena b ∈ arenas n) -> routing_ok (set_wd s w).
Proof.
  intros [[N A] B C D E] Hs Hb. pose proof Hs as Hs'. assert (Hsym : same_arenas (pools w) (pools (wd s))) by (intros x; by rewrite Hs).
  split; cbn [wd set_wd]; try done.
  - split.
    + destruct (pools w !! NULL) eqn:E0; [|done]. destruct (same_arenas_at _ _ _ _ Hs E0) as (m & Hm & _). congruence.
    + intros a n x Hn Hx. destruct (same_arenas_at _ _ _ _ Hs Hn) as (m & Hm & Em). rewrite <- Em in Hx. destruct (A a m x Hm Hx) as (k & Hk & Hka).
      destruct (same_arenas_at _ _ _ _ Hsym Hk) as (k' & Hk' & Ek). exists k'. split; [done|]. intros Hne. rewrite Ek. by apply Hka.
  - intros tid b Hbb. destruct (Hb tid b Hbb) as (n & Hn & Ha). destruct (same_arenas_at _ _ _ _ Hsym Hn) as (m & Hm & Em). exists m. by rewrite Em.
  - intros tid. destruct (C tid) as [C1 C2 C3 C4 C5]. split; try done. intros H. cbn [wd set_wd]. apply (same_arenas_some _ _ _ Hs). by apply C1.
  - intros h q Hq. destruct (E h q Hq) as [Hl R]. split; [by apply (same_arenas_some _ _ _ Hs)|done].
Qed.

Lemma bound_arena_run s tid cpu pool p : routing_ok s -> pools (wd s) !! pool = Some p -> 0 < num_arenas p ->
  exists a w, mp_get_thread_bound_arena (wd s) tid cpu pool = Done (a, w) /\ a ∈ arenas p /\ routing_ok (set_wd s w) /\ same_arenas (pools (wd s)) (pools w).
Proof.
  intros R Hp Hn. pose proof (ro_arenas _ R) as [N _]. unfold mp_get_thread_bound_arena. destruct (Z.eqb_spec pool NULL) as [->|_]; [congruence|].
  unfold ld_pool. rewrite Hp. cbn [mbind outcome_bind]. rewrite (proj2 (Z.leb_gt _ _)) by done.
  destruct (find_binding pool _) as [[i b]|] eqn:Ef.
  - apply list_find_Some in Ef as (Hb & Hm & _). destruct (ro_bind _ R tid b) as (n & Hn' & Ha); [by eapply list_elem_of_lookup_2|]. rewrite Hm, Hp in Hn'. injection Hn' as <-.
    exists (b_arena b), (wd s). split; [done|]. split; [done|]. split; [by destruct s|by intros x].
  - set (idx := if 0 <=? cpu then cpu mod num_arenas p else arena_rr_index p mod num_arenas p).
    set (w1 := if 0 <=? cpu then wd s else set_pool (wd s) pool (set_rr p (u64 (arena_rr_index p + 1)))).
    assert (E : (if 0 <=? cpu then (cpu mod num_arenas p, wd s) else (arena_rr_index p mod num_arenas p, set_pool (wd s) pool (set_rr p (u64 (arena_rr_index p + 1))))) = (idx, w1))
      by (unfold idx, w1; by destruct (0 <=? cpu)).
    rewrite E. assert (Hi : 0 <= idx < num_arenas p) by (unfold idx; destruct (0 <=? cpu); apply Z.mod_pos_bound; done).
    unfold ld_arena. rewrite (proj2 (Z.ltb_ge _ _)) by lia. destruct (lookup_lt_is_Some_2 (arenas p) (Z.to_nat idx)) as [a Ha]; [unfold num_arenas, zlen in Hi; lia|].
    rewrite Ha. cbn [mbind outcome_bind]. pose proof (list_elem_of_lookup_2 _ _ _ Ha) as Hin. eexists a, _. split; [done|]. split; [done|].
    assert (Hs : same_arenas (pools (wd s)) (pools w1)).
    { unfold w1. destruct (0 <=? cpu); [by intros x|]. intros x. cbn. destruct (decide (x = pool)) as [->|]; [by rewrite lookup_insert_eq, Hp|by rewrite lookup_insert_ne]. }
    assert (Et : forall t, thread_of w1 t = thread_of (wd s) t) by (unfold w1; by destruct (0 <=? cpu)).
    split; [|done]. apply set_wd_ok; [done|done|]. intros t b. unfold thread_of, set_thread. cbn [threads]. destruct (decide (t = tid)) as [->|Hne].
    + rewrite lookup_insert_eq. cbn [default from_option id]. unfold add_binding. destruct (_ <? _); [|by apply (ro_bind _ R tid)].
      cbn [arena_bindings]. intros [Hb|Hb%list_elem_of_singleton]%elem_of_app; [by apply (ro_bind _ R tid)|]. subst b. by exists p.
    + rewrite lookup_insert_ne by done. fold (thread_of w1 t). rewrite Et. apply (ro_bind _ R t).
Qed.

(** [q] is [pool] or one of its arenas. *)
Definition member_of (g : gmap Z pool_node) (pool q : Z) : Prop := q = pool \/ exists n, g !! pool = Some n /\ q ∈ arenas n.

Lemma routed_alloc_run s tid cpu pool sup h fuel : routing_ok s -> is_Some (pools (wd s) !! pool) -> sup <> FromReserve -> (2 <= fuel)%nat ->
  mp_alloc fuel s tid cpu pool sup h = Err \/
  exists s' q, mp_alloc fuel s tid cpu pool sup h = Done s' /\ routing_ok s' /\ member_of (pools (wd s)) pool q /\ books s !! h = None /\ books s' = <[h := q]> (books s) /\
    same_arenas (pools (wd s)) (pools (wd s')).
Proof.
  intros R [p Hp] Hs Hf. destruct fuel as [|fuel]; [lia|]. cbn [mp_alloc]. unfold ld_pool. rewrite Hp. cbn [mbind outcome_bind].
  assert (I : forall s2, routing_ok s2 -> same_arenas (pools (wd s)) (pools (wd s2)) -> books s2 = books s -> forall q, is_Some (pools (wd s2) !! q) -> member_of (pools (wd s)) pool q ->
    mp_alloc_internal s2 tid q sup h = Err \/
    exists s' q', mp_alloc_internal s2 tid q sup h = Done s' /\ routing_ok s' /\ member_of (pools (wd s)) pool q' /\ books s !! h = None /\ books s' = <[h := q']> (books s) /\
      same_arenas (pools (wd s)) (pools (wd s'))).
  { intros s2 R2 Ha Eb q Hq Hm. destruct (internal_run s2 tid q sup h R2 Hq Hs) as [->|(s' & -> & R' & Hn & Eb' & Ew)]; [by left|right].
    exists s', q. rewrite Ew, <- Eb. split_and!; done. }
  destruct (Z.ltb_spec 0 (num_arenas p)) as [Hn|Hn]; [|apply (I s R); [by intros x|done|by exists p|by left]].
  destruct (bound_arena_run s tid cpu pool p R Hp Hn) as (a & w & -> & Ha & Rw & Sw). cbn [mbind outcome_bind].
  assert (Hsym : same_arenas (pools w) (pools (wd s))) by (intros x; by rewrite Sw).
  destruct (proj2 (ro_arenas _ R) pool p a Hp Ha) as (m & Hm & Hma). destruct (same_arenas_at _ _ _ _ Hsym Hm) as (m' & Hm' & Em).
  destruct (negb (a =? NULL) && negb (a =? pool)) eqn:E.
  - apply andb_true_iff in E as [_ E%negb_true_iff%Z.eqb_neq]. destruct fuel as [|fuel]; [lia|]. cbn [mp_alloc wd set_wd]. unfold ld_pool. rewrite Hm'. cbn [mbind outcome_bind].
    assert (E0 : num_arenas m' = 0) by (unfold num_arenas; by rewrite Em, Hma). rewrite E0. cbn [Z.ltb Z.compare].
    apply (I (set_wd s w) Rw); [done|done|cbn; by exists m'|right; by exists p].
  - apply (I (set_wd s w) Rw); [done|done| |by left]. cbn. apply (same_arenas_some _ _ _ Sw). by exists p.
Qed.

(** ** Release finds the books *)

Lemma free_pool_run s h q hd pool : routing_ok s -> books s !! h = Some q -> headers s !! h = Some hd -> free_pool s pool hd = Done (Some q).
Proof.
  intros R Hb Hh. destruct (ro_blocks _ R h q Hb) as (_ & hx & Hx & Hq & Hl). assert (hx = hd) as -> by congruence. unfold free_pool, ld_key.
  destruct (has_flag _ _); [by rewrite Hl|]. destruct Hl as [Hs Hl]. rewrite (proj2 (Z.eqb_neq _ _)) by done. cbn [negb].
  destruct (alloc_type hd =? ALLOC_TYPE_TLSF); [|by rewrite Hl]. rewrite Hl. cbn [mbind outcome_bind]. by rewrite (proj2 (Z.eqb_neq q NULL)).
Qed.

Lemma unbook_ok s h : routing_ok s -> routing_ok (set_blocks s (delete h (headers s)) (delete h (books s))).
Proof.
  intros []. split; try done.
  - intros t. by destruct (ro_caches0 t).
  - intros x q. cbn [books headers set_blocks wd]. intros [Hne Hq]%lookup_delete_Some. rewrite lookup_delete_ne by done. by apply ro_blocks0.
Qed.

Lemma free_run s tid pool h q room : routing_ok s -> books s !! h = Some q ->
  exists s', mp_free s tid pool h room = Done s' /\ routing_ok s' /\ books s' = delete h (books s) /\ wd s' = wd s.
Proof.
  intros R Hb. destruct (ro_blocks _ R h q Hb) as (Hq & hd & Hh & Hq0 & Hl). unfold mp_free. rewrite Hh, Hb, (free_pool_run s h q hd pool R Hb Hh). cbn [mbind outcome_bind].
  pose proof Hq as [p Hp]. unfold ld_pool. rewrite Hp. cbn [mbind outcome_bind]. rewrite Z.eqb_refl. cbn [negb].
  pose proof (unbook_ok s h R) as R1. set (s1 := set_blocks _ _ _) in *. destruct (validate_run s1 tid q R1 Hq) as (s2 & E & R2 & Ho & Ew & Et & Ea & _ & Eb).
  destruct (alloc_type hd =? ALLOC_TYPE_SLAB); [|destruct (Z.eqb_spec (alloc_type hd) ALLOC_TYPE_TLSF) as [Ety|Ety]; [|by exists s1]];
    rewrite E; cbn [mbind outcome_bind]; (eexists; split; [done|]).
  - destruct room; [|by rewrite Eb, Ew]. split; [|cbn; by rewrite Eb, Ew]. apply set_cache_ok; [done|].
    apply (with_cache_fields (s2, cache_of s2 tid)); [apply R2|done|cbn; congruence].
  - destruct (has_flag _ _) eqn:Ef; cbn [negb andb]; [by rewrite Eb, Ew|]. destruct room; [|by rewrite Eb, Ew]. split; [|cbn; by rewrite Eb, Ew].
    apply set_cache_ok; [done|]. destruct Hl as [Hs Hl].
    destruct (ro_caches _ R2 tid) as [A B C D F]. rewrite Ho in *. split; cbn; rewrite ?Ho; try done.
    intros tp [->|Htp]%elem_of_cons; [|by apply D]. split; [done|]. by rewrite Et.
Qed.

(** ** Runs *)

(** [who]: the pool the caller passes; for a release any pool at all. *)
Inductive op := Alloc (tid cpu who : Z) (sup : supply) (h : Z) | Free (tid who h : Z) (room : bool).

Definition op_step (s : state) (o : op) : outcome state :=
  match o with Alloc tid cpu who sup h => mp_alloc 2 s tid cpu who sup h | Free tid who h room => mp_free s tid who h room end.

Fixpoint op_run (s : state) (ops : list op) : outcome state :=
  match ops with [] => Done s | o :: ops => s ← op_step s o; op_run s ops end.

(** The caller allocates from pools that exist, and the reserve stays out of it. *)
Definition op_ok (s : state) (o : op) : Prop :=
  match o with Alloc _ _ who sup _ => is_Some (pools (wd s) !! who) /\ sup <> FromReserve | Free _ _ _ _ => True end.

Lemma free_dead s tid who h room : routing_ok s -> books s !! h = None -> mp_free s tid who h room = Err.
Proof. intros R Hb. unfold mp_free. rewrite Hb. by destruct (headers s !! h). Qed.

Lemma op_run_ok ops : forall s, routing_ok s -> Forall (op_ok s) ops ->
  op_run s ops = Err \/ exists s', op_run s ops = Done s' /\ routing_ok s' /\ same_arenas (pools (wd s)) (pools (wd s')).
Proof.
  induction ops as [|o ops IH]; intros s R Ho; [right; by exists s|]. apply Forall_cons in Ho as [H1 H2]. cbn [op_run].
  assert (S : op_step s o = Err \/ exists s', op_step s o = Done s' /\ routing_ok s' /\ same_arenas (pools (wd s)) (pools (wd s'))).
  { destruct o as [tid cpu who sup h|tid who h room]; cbn [op_step].
    - destruct H1 as [Hw Hs]. destruct (routed_alloc_run s tid cpu who sup h 2 R Hw Hs) as [->|(s' & q & -> & R' & _ & _ & _ & Sw)]; [lia|by left|right; by exists s'].
    - destruct (books s !! h) as [q|] eqn:Hb; [|left; by apply free_dead]. right. destruct (free_run s tid who h q room R Hb) as (s' & -> & R' & _ & Ew).
      exists s'. split; [done|]. split; [done|]. intros x. by rewrite Ew. }
  destruct S as [->|(s1 & -> & R1 & S1)]; [by left|]. cbn [mbind outcome_bind]. destruct (IH s1 R1) as [->|(s2 & -> & R2 & S2)]; [|by left|].
  - eapply Forall_impl; [exact H2|]. intros [tid cpu who sup h|]; [|done]. intros [Hw Hs]. split; [|done]. by apply (same_arenas_some _ _ _ S1).
  - right. exists s2. split; [done|]. split; [done|]. intros x. by rewrite S2, S1.
Qed.

(** C24: every block comes off the books it is on.  In any run of allocations and releases by
    any threads, through sub-arenas, caches, private arenas and shared regions, no step goes
    wrong: an allocation is counted by the pool asked or the arena of it that the thread is
    bound to, and a release finds that very pool from the header, whatever pool the caller
    passes. *)
Theorem free_finds_books s ops :
  routing_ok s -> Forall (op_ok s) ops ->
  op_run s ops <> Fault /\
  (forall s', op_run s ops = Done s' ->
     (forall h q hd who, books s' !! h = Some q -> headers s' !! h = Some hd -> free_pool s' who hd = Done (Some q)) /\
     (forall tid cpu who sup h s2, is_Some (pools (wd s) !! who) -> sup <> FromReserve -> mp_alloc 2 s' tid cpu who sup h = Done s2 ->
        exists q, member_of (pools (wd s')) who q /\ books s2 = <[h := q]> (books s'))).
Proof.
  intros R Ho. destruct (op_run_ok ops s R Ho) as [E|(s1 & E & R1 & S1)]; rewrite E; [by split|]. split; [done|]. intros s' [= <-]. split.
  - intros h q hd who Hb Hh. by eapply free_pool_run.
  - intros tid cpu who sup h s2 Hw Hs E2. destruct (routed_alloc_run s1 tid cpu who sup h 2 R1) as [E3|(s3 & q & E3 & _ & Hm & _ & Eb & _)]; [by apply (same_arenas_some _ _ _ S1)|done|lia|congruence|].
    rewrite E2 in E3. injection E3 as ->. by exists q.
Qed.

(** Blocks of the emergency reserve are the exception: their header names no pool.  When
    a pool with sub-arenas serves one from the reserve of the arena the thread is bound to,
    releasing it through the pool it was asked of takes it off the wrong books. *)
Theorem reserve_misrouted s tid cpu pool p h :
  routing_ok s -> pools (wd s) !! pool = Some p -> 0 < num_arenas p -> pool ∉ arenas p -> books s !! h = None ->
  exists a s', mp_alloc 2 s tid cpu pool FromReserve h = Done s' /\ a ∈ arenas p /\ books s' !! h = Some a /\
    forall t room, mp_free s' t pool h room = Fault.
Proof.
  intros R Hp Hn Hna Hb. destruct (bound_arena_run s tid cpu pool p R Hp Hn) as (a & w & E & Ha & Rw & Sw). pose proof (ro_arenas _ R) as [N A].
  assert (Hne : a <> pool) by (by intros ->). destruct (A pool p a Hp Ha) as (m & Hm & Hma). specialize (Hma Hne).
  assert (Hsym : same_arenas (pools w) (pools (wd s))) by (intros x; by rewrite Sw). destruct (same_arenas_at _ _ _ _ Hsym Hm) as (m' & Hm' & Em).
  assert (Ha0 : a <> NULL) by (intros ->; congruence). assert (Hp0 : pool <> NULL) by (intros ->; congruence).
  cbn [mp_alloc]. unfold ld_pool. rewrite Hp. cbn [mbind outcome_bind]. rewrite (proj2 (Z.ltb_lt _ _)) by done. rewrite E. cbn [mbind outcome_bind].
  rewrite !(proj2 (Z.eqb_neq a _)) by done. cbn [negb andb wd set_wd]. rewrite Hm'. cbn [mbind outcome_bind].
  assert (E0 : num_arenas m' = 0) by (unfold num_arenas; by rewrite Em, Hma). rewrite E0. cbn [Z.ltb Z.compare]. unfold mp_alloc_internal, stamp.
  cbn [books set_wd]. rewrite Hb. exists a. eexists. split; [done|]. split; [done|]. split; [cbn; by rewrite lookup_insert_eq|].
  intros t room. unfold mp_free. cbn [headers books set_blocks set_wd]. rewrite !lookup_insert_eq. unfold free_pool. cbn [hflags subpool alloc_type].
  change (has_flag (Z.lor 0 MP_BLOCK_FLAG_COUNTED) MP_BLOCK_FLAG_TLSF_ARENA) with false. cbn [negb]. change (NULL =? NULL) with true. cbn [negb].
  rewrite (proj2 (Z.eqb_neq pool NULL)) by done. cbn [mbind outcome_bind wd set_blocks set_wd].
  assert (Hpw : is_Some (pools w !! pool)) by (apply (same_arenas_some _ _ _ Sw); by exists p). destruct Hpw as [p' Hp']. unfold ld_pool. rewrite Hp'. cbn [mbind outcome_bind].
  by rewrite (proj2 (Z.eqb_neq a pool)).
Qed.

(** ** Concrete runs *)

Module ToyRouting.

(** A pool at 100 with the arenas 200 and 300. *)
Definition multi : world := world_after (client_step (Machine None 0 2 1) 1 (OpCreate MP_FLAG_MULTI_ARENA) no_pools [Some 100; Some 50; Some 200; Some 300]).

(** Region 1000 belongs to the pool, 2000 and 3000 to the arenas. *)
Definition boot : state := State multi ∅ (<[1000 := 100]> (<[2000 := 200]> (<[3000 := 300]> ∅))) ∅ ∅ ∅.

Definition arenas_fine (g : gmap Z pool_node) : bool :=
  match g !! NULL with Some _ => false | None => true end &&
  forallb (fun kv : Z * pool_node => forallb (fun x => match g !! x with Some m => (x =? kv.1) || (zlen (arenas m) =? 0) | None => false end) (arenas kv.2)) (map_to_list g).

Lemma arenas_fine_ok g : arenas_fine g = true -> arenas_ok g.
Proof.
  unfold arenas_fine. intros [H1 H2]%andb_true_iff. split; [by destruct (g !! NULL)|]. intros a n x Hn Hx. rewrite forallb_forall in H2.
  assert (Hin : (a, n) ∈ map_to_list g) by (by apply elem_of_map_to_list). apply list_elem_of_In in Hin. specialize (H2 _ Hin). cbn in H2.
  rewrite forallb_forall in H2. apply list_elem_of_In in Hx. specialize (H2 x Hx). destruct (g !! x) as [m|]; [|done]. exists m. split; [done|].
  intros Hne. apply orb_true_iff in H2 as [H2%Z.eqb_eq|H2%Z.eqb_eq]; [done|]. destruct (arenas m) as [|y l]; [done|]. rewrite zlen_cons in H2. pose proof (zlen_nonneg l). lia.
Qed.

Lemma multi_boot_ok : routing_ok boot.
Proof.
  split.
  - apply arenas_fine_ok. vm_compute. reflexivity.
  - intros tid b Hb. apply not_elem_of_nil in Hb as [].
  - intros tid. change (cache_of boot tid) with no_cache. split; cbn.
    + by intros.
    + done.
    + by left.
    + intros tp Htp. apply not_elem_of_nil in Htp as [].
    + by intros.
  - intros tp o Ho. cbn in Ho. rewrite !lookup_insert_Some in Ho. unfold NULL. destruct Ho as [[<- <-]|(_ & [[<- <-]|(_ & [[<- <-]|(_ & Ho)])])]; [lia..|done].
  - intros h q Hq. done.
Qed.

(** Two threads on two processors, medium blocks from a region, a private arena and the
    cache, all released through the pool at the top or through no pool. *)
Definition traffic : list op :=
  [Alloc 1 0 100 (FromTlsf 2000) 11; Alloc 2 1 100 (FromTlsfArena 77) 12; Alloc 1 0 100 (FromSlab [21; 22]) 13;
   Free 2 100 11 true; Free 1 NULL 12 true; Free 1 100 13 true; Alloc 2 1 200 (FromTlsf 2000) 14].

End ToyRouting.

Lemma free_finds_books_witness :
  op_run ToyRouting.boot ToyRouting.traffic <> Fault /\
  match op_run ToyRouting.boot ToyRouting.traffic with Done s => bool_decide (books s = <[14 := 200]> ∅) | _ => false end = true.
Proof.
  split; [|vm_compute; reflexivity]. apply (free_finds_books ToyRouting.boot ToyRouting.traffic ToyRouting.multi_boot_ok).
  repeat constructor; try discriminate; apply (bool_decide_unpack _); vm_compute; exact I.
Defined.

Lemma reserve_misrouted_witness :
  exists s', mp_alloc 2 ToyRouting.boot 1 0 100 FromReserve 11 = Done s' /\ mp_free s' 1 100 11 true = Fault.
Proof.
  assert (E : exists p, pools (wd ToyRouting.boot) !! 100 = Some p /\ arenas p = [200; 300]) by (eexists; vm_compute; split; reflexivity).
  destruct E as (p & Ep & Ea).
  destruct (reserve_misrouted ToyRouting.boot 1 0 100 p 11 ToyRouting.multi_boot_ok Ep) as (a & s' & E1 & _ & _ & E2).
  - unfold num_arenas. rewrite Ea. vm_compute. reflexivity.
  - rewrite Ea. apply (bool_decide_unpack _). vm_compute. exact I.
  - vm_compute. reflexivity.
  - exists s'. split; [exact E1|apply E2].
Defined.
