(* ===== verification/Numa.v ===== *)
(** * NUMA topology

    The lazy probe of [src/cmem_sys.c]: [cmem_parse_idlist] on the lists of sysfs,
    [cmem_numa_probe], [cmem_numa_node_count], [cmem_cpu_to_node].  The files are a
    parameter; a text is a list of character codes without its terminating zero. *)
From S2P Require Import Prelude.
From Stdlib Require Import ZArith Lia.
From stdpp Require Import base option list gmap strings pretty.
Open Scope Z_scope.

Definition text : Type := list Z.

(** ** [strtol] in base 10 *)

Definition LONG_MAX : Z := 2 ^ 63 - 1.
Definition LONG_MIN : Z := - 2 ^ 63.

Definition is_space (c : Z) : bool := (c =? 32) || ((9 <=? c) && (c <=? 13)).
Definition is_digit (c : Z) : bool := (48 <=? c) && (c <=? 57).

Fixpoint skip_spaces (s : text) : text :=
  match s with c :: t => if is_space c then skip_spaces t else s | [] => [] end.

Fixpoint span_digits (s : text) : list Z * text :=
  match s with
  | c :: t => if is_digit c then let '(ds, r) := span_digits t in (c :: ds, r) else ([], s)
  | [] => ([], [])
  end.

Definition digits_value (ds : list Z) : Z := fold_left (fun a c => a * 10 + (c - 48)) ds 0.

Definition sign (s : text) : bool * text :=
  match s with
  | c :: t => if c =? 45 then (true, t) else if c =? 43 then (false, t) else (false, s)
  | [] => (false, s)
  end.

(** The number and what follows it; all of [s] when there is no number ([*end = cursor]). *)
Definition strtol (s : text) : Z * text :=
  let '(neg, t) := sign (skip_spaces s) in
  let '(ds, r) := span_digits t in
  match ds with
  | [] => (0, s)
  | _ => (if neg then Z.max LONG_MIN (- digits_value ds) else Z.min LONG_MAX (digits_value ds), r)
  end.

(** [(int)v], which keeps the low 32 bits. *)
Definition to_int (v : Z) : Z := (v + 2 ^ 31) mod 2 ^ 32 - 2 ^ 31.

(** ** [cmem_parse_idlist] *)

(** [ids[count] = v]. *)
Definition store_id (ids : list Z) (count v : Z) : outcome (list Z) :=
  if (0 <=? count) && (count <? zlen ids) then Done (<[Z.to_nat count := v]> ids) else Fault.

(** [while (first <= last && count < max_ids) ids[count++] = (int)first++]. *)
Fixpoint fill_ids (fuel : nat) (ids : list Z) (count first last max_ids : Z) : outcome (list Z * Z) :=
  if (first <=? last) && (count <? max_ids) then
    match fuel with
    | O => Fault
    | S fuel =>
        ids ← store_id ids count (to_int first);
        if first =? LONG_MAX then Fault else fill_ids fuel ids (count + 1) (first + 1) last max_ids
    end
  else Done (ids, count).

(** One element: its bounds, the cursor it leaves behind, and the text after it. *)
Definition parse_range (cursor : text) : outcome (Z * Z * text * text) :=
  let '(first, e) := strtol cursor in
  if (length e =? length cursor)%nat then Err
  else match e with
       | c :: next =>
           if c =? 45 then
             let '(last, e) := strtol next in
             if (length e =? length next)%nat then Err else Done (first, last, next, e)
           else Done (first, first, cursor, e)
       | [] => Done (first, first, cursor, e)
       end.

Fixpoint idlist_loop (fuel : nat) (cursor : text) (ids : list Z) (count max_ids : Z) : outcome (list Z * Z) :=
  match cursor with
  | [] => Done (ids, count)
  | _ :: _ =>
      if count <? max_ids then
        match fuel with
        | O => Fault
        | S fuel =>
            r ← parse_range cursor;
            let '(first, last, cursor, e) := r in
            if (first <? 0) || (last <? first) then Err
            else
              r ← fill_ids (Z.to_nat (max_ids - count)) ids count first last max_ids;
              let '(ids, count) := r in
              match e with
              | c :: next => if c =? 44 then idlist_loop fuel next ids count max_ids else Err
              | [] => idlist_loop fuel cursor ids count max_ids
              end
        end
      else Done (ids, count)
  end.

(** The array as it is left and the number of ids; [Err] is [-1]. *)
Definition cmem_parse_idlist (s : text) (ids : list Z) (max_ids : Z) : outcome (list Z * Z) :=
  idlist_loop (Z.to_nat max_ids) s ids 0 max_ids.

(** ** The probe *)

Definition CMEM_MAX_NUMA_NODES : Z := 64.
Definition CMEM_MAX_CPUS : Z := 1024.

(** [struct cmem_numa_topology] and the flag that guards the probe. *)
Record numa_topology := Topology {
  node_count : Z;
  cpu_count : Z;
  cpu_to_node : option (list Z);
}.

Record numa_state := NumaState {
  g_numa_topo : numa_topology;
  g_numa_topo_init : bool;
}.

Definition numa_initial : numa_state := NumaState (Topology 0 0 None) false.

(** [fgets(line, size, file)]: up to the first newline, it included, and at most
    [size - 1] characters; [None] at the end of the file. *)
Fixpoint take_line (n : nat) (s : text) : text :=
  match n, s with
  | S n, c :: s => if c =? 10 then [c] else c :: take_line n s
  | _, _ => []
  end.

Definition fgets (size : Z) (content : text) : option text :=
  match content with [] => None | _ => Some (take_line (Z.to_nat (size - 1)) content) end.

(** What C sees of a buffer: the characters before the first zero. *)
Fixpoint c_string (s : text) : text :=
  match s with c :: t => if c =? 0 then [] else c :: c_string t | [] => [] end.

Definition online_path : string := "/sys/devices/system/node/online".

Section Probe.
(** The files by path, [None] when [fopen] fails; and whether [calloc] succeeds. *)
Context (files : string -> option text) (calloc_ok : bool).

Definition read_line (path : string) (size : Z) : option text := content ← files path; c_string <$> fgets size content.

Definition cpulist_path (node : Z) : string := ("/sys/devices/system/node/node" +:+ pretty node +:+ "/cpulist")%string.

(** [for (cpu_idx ...) if (cpu >= 0 && cpu < cpu_count) cpu_to_node[cpu] = node]. *)
Fixpoint map_cpus (node_cpus : list Z) (n : nat) (idx node cpu_count : Z) (table : list Z) : outcome (list Z) :=
  match n with
  | O => Done table
  | S n =>
      cpu ← rd node_cpus idx;
      table ← (if (0 <=? cpu) && (cpu <? cpu_count) then store_id table cpu node else Done table);
      map_cpus node_cpus n (idx + 1) node cpu_count table
  end.

Definition map_node (junk : list Z) (node cpu_count : Z) (table : list Z) : outcome (list Z) :=
  if 64 <=? Z.of_nat (String.length (cpulist_path node)) then Done table
  else
    match read_line (cpulist_path node) 1024 with
    | None => Done table
    | Some line =>
        match cmem_parse_idlist line junk CMEM_MAX_CPUS with
        | Done (node_cpus, count) => map_cpus node_cpus (Z.to_nat count) 0 node cpu_count table
        | Err => Done table
        | Fault => Fault
        end
    end.

Fixpoint map_nodes (junk node_ids : list Z) (n : nat) (idx cpu_count : Z) (table : list Z) : outcome (list Z) :=
  match n with
  | O => Done table
  | S n =>
      node ← rd node_ids idx;
      table ← map_node junk node cpu_count table;
      map_nodes junk node_ids n (idx + 1) cpu_count table
  end.

Definition unmapped (nodes : Z) : numa_topology := Topology nodes 0 None.

(** [junk64] and [junk1024] are the arrays on the stack before they are written. *)
Definition cmem_numa_probe (junk64 junk1024 : list Z) : outcome numa_topology :=
  match read_line online_path 256 with
  | None => Done (unmapped 1)
  | Some node_list =>
      match cmem_parse_idlist node_list junk64 CMEM_MAX_NUMA_NODES with
      | Fault => Fault
      | Err => Done (unmapped 1)
      | Done (node_ids, nodes) =>
          if nodes <=? 0 then Done (unmapped 1)
          else
            match read_line "/sys/devices/system/cpu/possible"%string 1024 with
            | None => Done (unmapped nodes)
            | Some cpu_list =>
                match cmem_parse_idlist cpu_list junk1024 CMEM_MAX_CPUS with
                | Fault => Fault
                | Err => Done (unmapped nodes)
                | Done (_, cpus) =>
                    if (cpus <=? 0) || negb calloc_ok then Done (unmapped nodes)
                    else
                      table ← map_nodes junk1024 node_ids (Z.to_nat nodes) 0 cpus (replicate (Z.to_nat cpus) 0);
                      Done (Topology nodes cpus (Some table))
                end
            end
      end
  end.

Definition cmem_numa_node_count (junk64 junk1024 : list Z) (g : numa_state) : outcome (Z * numa_state) :=
  g ← (if g_numa_topo_init g then Done g
       else t ← cmem_numa_probe junk64 junk1024; Done (NumaState t true));
  Done (if 0 <? node_count (g_numa_topo g) then node_count (g_numa_topo g) else 1, g).

Definition cmem_cpu_to_node (junk64 junk1024 : list Z) (cpu : Z) (g : numa_state) : outcome (Z * numa_state) :=
  if cpu <? 0 then Done (0, g)
  else
    r ← cmem_numa_node_count junk64 junk1024 g;
    let '(_, g) := r in
    match cpu_to_node (g_numa_topo g) with
    | None => Done (0, g)
    | Some table =>
        if cpu_count (g_numa_topo g) <=? cpu then Done (0, g)
        else node ← rd table cpu; Done (node, g)
    end.

(** [getcpu] is what the system call reports, [None] when it fails. *)
Definition cmem_numa_current_node (junk64 junk1024 : list Z) (getcpu : option Z) (g : numa_state) : outcome (Z * numa_state) :=
  let cpu := default 0 getcpu in
  if cpu <? 0 then Done (-1, g) else cmem_cpu_to_node junk64 junk1024 cpu g.

End Probe.

(** ** What [strtol] does *)

Lemma span_digits_app ds r : Forall (fun c => is_digit c = true) ds ->
  match r with [] => True | c :: _ => is_digit c = false end -> span_digits (ds ++ r) = (ds, r).
Proof.
  intros Hd Hr. induction Hd as [|c ds Hc _ IH]; cbn [app span_digits].
  - destruct r as [|c r]; cbn [span_digits]; [done|by rewrite Hr].
  - by rewrite Hc, IH.
Qed.

Lemma digits_value_nonneg ds : Forall (fun c => is_digit c = true) ds -> 0 <= digits_value ds.
Proof.
  intros Hd. unfold digits_value. cut (forall a, 0 <= a -> 0 <= fold_left (fun a c => a * 10 + (c - 48)) ds a); [auto with lia|].
  induction Hd as [|c ds Hc _ IH]; cbn [fold_left]; intros a Ha; [done|]. apply IH. unfold is_digit in Hc. lia.
Qed.

(** A number as the lists write it: some digits, within a [long]. *)
Record numeral (ds : list Z) : Prop := Numeral {
  numeral_some : ds <> [];
  numeral_digits : Forall (fun c => is_digit c = true) ds;
  numeral_fits : digits_value ds < LONG_MAX;
}.

Lemma strtol_numeral ds r : numeral ds -> match r with [] => True | c :: _ => is_digit c = false end ->
  strtol (ds ++ r) = (digits_value ds, r).
Proof.
  intros [Hs Hd Hv] Hr. pose proof (digits_value_nonneg ds Hd) as Hp. unfold strtol.
  destruct ds as [|c ds]; [done|]. pose proof (Forall_inv Hd) as Hc. cbn beta in Hc. unfold is_digit in Hc.
  assert (skip_spaces ((c :: ds) ++ r) = (c :: ds) ++ r) as ->. { cbn. unfold is_space. by replace ((c =? 32) || ((9 <=? c) && (c <=? 13))) with false by lia. }
  assert (sign ((c :: ds) ++ r) = (false, (c :: ds) ++ r)) as ->.
  { cbn. by rewrite (proj2 (Z.eqb_neq c 45)), (proj2 (Z.eqb_neq c 43)) by lia. }
  rewrite span_digits_app by done. f_equal. lia.
Qed.

Lemma skip_spaces_suffix s : exists p, s = p ++ skip_spaces s.
Proof.
  induction s as [|c s [p IH]]; cbn; [by exists []|]. destruct (is_space c); [|by exists []].
  exists (c :: p). cbn. by rewrite <- IH.
Qed.

Lemma span_digits_suffix s : let '(ds, r) := span_digits s in s = ds ++ r.
Proof.
  induction s as [|c s IH]; cbn [span_digits]; [done|]. destruct (is_digit c); [|done].
  destruct (span_digits s) as [ds r]. cbn. by rewrite IH.
Qed.

Lemma sign_suffix s : exists p, s = p ++ snd (sign s).
Proof. destruct s as [|c s]; cbn; [by exists []|]. destruct (c =? 45); [by exists [c]|]. destruct (c =? 43); [by exists [c]|by exists []]. Qed.

Lemma strtol_suffix s : s = [] \/ exists p, s = p ++ snd (strtol s).
Proof.
  destruct s as [|c0 s0]; [by left|right]. set (s := c0 :: s0). destruct (skip_spaces_suffix s) as [p Hp].
  unfold strtol. destruct (sign_suffix (skip_spaces s)) as [q Hq]. destruct (sign (skip_spaces s)) as [neg t]. cbn [snd] in Hq.
  pose proof (span_digits_suffix t) as Ht. destruct (span_digits t) as [ds r].
  destruct ds as [|d ds]; cbn [snd]; [by exists []|]. exists (p ++ q ++ (d :: ds)). rewrite Hp at 1. by rewrite Hq, Ht, <- !app_assoc.
Qed.

(** ** Filling the array *)

(** [out] has been written at the front of [ids]. *)
Definition holds (ids out : list Z) : Prop := take (length out) ids = out.

Lemma store_id_holds ids out v : holds ids out -> zlen out < zlen ids ->
  exists ids', store_id ids (zlen out) v = Done ids' /\ zlen ids' = zlen ids /\ holds ids' (out ++ [v]).
Proof.
  intros Hh Hl. exists (<[length out := v]> ids). unfold store_id, zlen in *.
  replace ((0 <=? Z.of_nat (length out)) && (Z.of_nat (length out) <? Z.of_nat (length ids))) with true by lia.
  rewrite Nat2Z.id, length_insert. split; [done|]. split; [done|].
  unfold holds. rewrite length_app, Nat.add_1_r, (take_S_r _ _ v) by (apply list_lookup_insert_eq; lia).
  by rewrite take_insert_ge, Hh.
Qed.

(** The ids [first, first + 1, .., last] as the array keeps them. *)
Definition range_ids (first last : Z) : list Z := to_int <$> seqZ first (last - first + 1).

Lemma range_ids_cons first last : first <= last -> range_ids first last = to_int first :: range_ids (first + 1) last.
Proof. intros. unfold range_ids. rewrite seqZ_cons by lia. cbn. do 3 f_equal; lia. Qed.

Lemma range_ids_nil first last : last < first -> range_ids first last = [].
Proof. intros. unfold range_ids. by rewrite seqZ_nil by lia. Qed.

Lemma fill_ids_run max_ids last : last < LONG_MAX -> forall fuel ids out first,
  zlen ids = max_ids -> holds ids out -> zlen out <= max_ids -> max_ids - zlen out <= Z.of_nat fuel ->
  let new := take (Z.to_nat (max_ids - zlen out)) (range_ids first last) in
  exists ids', fill_ids fuel ids (zlen out) first last max_ids = Done (ids', zlen (out ++ new)) /\
    zlen ids' = max_ids /\ holds ids' (out ++ new).
Proof.
  intros Hlast. induction fuel as [|fuel IH]; intros ids out first Hi Hh Ho Hf new;
    (destruct (Z.leb_spec first last) as [Hle|Hgt]; [destruct (Z.ltb_spec (zlen out) max_ids) as [Hlt|Hge]|]).
  all: try (exists ids; cbn [fill_ids]; subst new;
    first [rewrite range_ids_nil, take_nil by done|replace (Z.to_nat (max_ids - zlen out)) with 0%nat by lia; rewrite take_0];
    rewrite app_nil_r; rewrite ?(proj2 (Z.leb_gt _ _) Hgt), ?(proj2 (Z.leb_le _ _) Hle), ?(proj2 (Z.ltb_ge _ _) Hge); done).
  - lia.
  - destruct (store_id_holds ids out (to_int first) Hh) as (ids1 & Hs & Hl1 & Hh1); [lia|].
    destruct (IH ids1 (out ++ [to_int first]) (first + 1)) as (ids' & Hr & Hl' & Hh');
      [lia|done|rewrite zlen_snoc; lia|rewrite zlen_snoc; lia|].
    exists ids'. cbn [fill_ids]. rewrite (proj2 (Z.leb_le _ _) Hle), (proj2 (Z.ltb_lt _ _) Hlt). cbn [andb mbind outcome_bind].
    rewrite Hs. cbn [mbind outcome_bind]. rewrite (proj2 (Z.eqb_neq first LONG_MAX)) by lia. rewrite <- (zlen_snoc out (to_int first)).
    assert (out ++ new = (out ++ [to_int first]) ++ take (Z.to_nat (max_ids - zlen (out ++ [to_int first]))) (range_ids (first + 1) last)) as ->; [|done].
    subst new. rewrite <- app_assoc, range_ids_cons, zlen_snoc by done.
    replace (Z.to_nat (max_ids - zlen out)) with (S (Z.to_nat (max_ids - (zlen out + 1)))) by lia. done.
Qed.

(** ** Any text *)

Fixpoint tails (s : text) : list text := match s with [] => [] | _ :: t => s :: tails t end.

(** No number of [s] saturates. *)
Definition numbers_fit (s : text) : bool := forallb (fun t => fst (strtol t) <? LONG_MAX) (tails s).

Lemma numbers_fit_suffix p s : numbers_fit (p ++ s) = true -> numbers_fit s = true.
Proof. induction p as [|c p IH]; cbn; [done|]. intros H. apply andb_true_iff in H as [_ H]. by apply IH. Qed.

Lemma numbers_fit_head s : numbers_fit s = true -> s <> [] -> fst (strtol s) < LONG_MAX.
Proof. destruct s as [|c s]; [done|]. intros H _. apply andb_true_iff in H as [H _]. lia. Qed.

Lemma strtol_fit s n e : strtol s = (n, e) -> length e <> length s -> numbers_fit s = true -> n < LONG_MAX /\ numbers_fit e = true.
Proof.
  intros Hs Hn Hf. assert (s <> []) as Hne. { intros ->. cbn in Hs. injection Hs as <- <-. done. }
  pose proof (numbers_fit_head s Hf Hne) as Hh. rewrite Hs in Hh. split; [done|].
  destruct (strtol_suffix s) as [->|[p Hp]]; [done|]. rewrite Hs in Hp. cbn in Hp. rewrite Hp in Hf. by apply numbers_fit_suffix in Hf.
Qed.

Lemma parse_range_total cursor : numbers_fit cursor = true ->
  parse_range cursor = Err \/
  exists first last c e, parse_range cursor = Done (first, last, c, e) /\ last < LONG_MAX /\
    numbers_fit c = true /\ numbers_fit e = true.
Proof.
  intros Hf. unfold parse_range. destruct (strtol cursor) as [first e] eqn:Es.
  destruct (Nat.eqb_spec (length e) (length cursor)) as [|Hn]; [by left|].
  destruct (strtol_fit _ _ _ Es Hn Hf) as [Hb He].
  destruct e as [|d c]; [right; by exists first, first, cursor, []|].
  destruct (Z.eqb_spec d 45); [|right; by exists first, first, cursor, (d :: c)].
  assert (numbers_fit c = true) as Hc. { cbn in He. by apply andb_true_iff in He as [_ He]. }
  destruct (strtol c) as [last e2] eqn:E2. destruct (Nat.eqb_spec (length e2) (length c)) as [|Hn2]; [by left|right].
  destruct (strtol_fit _ _ _ E2 Hn2 Hc). by exists first, last, c, e2.
Qed.

Lemma idlist_loop_total max_ids : forall fuel cursor ids out,
  zlen ids = max_ids -> holds ids out -> zlen out <= max_ids -> max_ids - zlen out <= Z.of_nat fuel -> numbers_fit cursor = true ->
  idlist_loop fuel cursor ids (zlen out) max_ids = Err \/
  exists ids' out', idlist_loop fuel cursor ids (zlen out) max_ids = Done (ids', zlen out') /\
    zlen ids' = max_ids /\ holds ids' out' /\ zlen out <= zlen out' <= max_ids.
Proof.
  induction fuel as [|fuel IH]; intros cursor ids out Hi Hh Ho Hf Hn.
  all: destruct cursor as [|c0 t0]; [right; exists ids, out; cbn [idlist_loop]; repeat split; (done || lia)|].
  all: set (cursor := c0 :: t0) in *; unfold idlist_loop; fold idlist_loop; cbn beta iota.
  all: destruct (Z.ltb_spec (zlen out) max_ids); [|right; exists ids, out; repeat split; (done || lia)].
  { lia. }
  destruct (parse_range_total cursor Hn) as [->|(first & last & c & e & -> & Hl & Hc & He)]; [by left|]. cbn [mbind outcome_bind].
  destruct ((first <? 0) || (last <? first)) eqn:Ev; [by left|].
  destruct (fill_ids_run max_ids last Hl (Z.to_nat (max_ids - zlen out)) ids out first) as (ids' & -> & Hi' & Hh'); [done|done|lia|lia|].
  cbn [mbind outcome_bind].
  set (out' := out ++ _) in *. assert (zlen out + 1 <= zlen out' <= max_ids) as Ho'.
  { subst out'. rewrite zlen_app. rewrite (range_ids_cons first last) by lia. unfold zlen. rewrite length_take.
    cbn [length]. unfold zlen in *. lia. }
  assert (forall r, numbers_fit r = true -> idlist_loop fuel r ids' (zlen out') max_ids = Err \/
    exists ids2 out2, idlist_loop fuel r ids' (zlen out') max_ids = Done (ids2, zlen out2) /\
    zlen ids2 = max_ids /\ holds ids2 out2 /\ zlen out <= zlen out2 <= max_ids) as Hrec.
  { intros r Hr. destruct (IH r ids' out') as [->|(ids2 & out2 & -> & ? & ? & ?)]; [done|done|lia|lia|done|by left|right].
    exists ids2, out2. repeat split; (done || lia). }
  destruct e as [|d e]; [by apply Hrec|]. destruct (d =? 44); [|by left].
  apply Hrec. cbn in He. by apply andb_true_iff in He as [_ He].
Qed.

(** ** Well-formed lists *)

Inductive item := Single (ds : list Z) | Range (ds1 ds2 : list Z).

Definition item_text (i : item) : text := match i with Single ds => ds | Range ds1 ds2 => ds1 ++ 45 :: ds2 end.
Definition lo (i : item) : Z := match i with Single ds => digits_value ds | Range ds _ => digits_value ds end.
Definition hi_digits (i : item) : list Z := match i with Single ds => ds | Range _ ds => ds end.
Definition hi (i : item) : Z := digits_value (hi_digits i).
Definition item_ok (i : item) : Prop := match i with Single ds => numeral ds | Range ds1 ds2 => numeral ds1 /\ numeral ds2 end /\ lo i <= hi i.
Definition item_ids (i : item) : list Z := range_ids (lo i) (hi i).

(** The elements, with commas between them. *)
Fixpoint render (l : list item) : text :=
  match l with [] => [] | [i] => item_text i | i :: l => item_text i ++ 44 :: render l end.

Definition list_ids (l : list item) : list Z := mjoin (item_ids <$> l).
Definition last_id (l : list item) : Z := match last l with Some i => to_int (hi i) | None => 0 end.

Definition no_digit (s : text) : Prop := match s with [] => True | c :: _ => is_digit c = false end.

Lemma numeral_length ds r : numeral ds -> (length r =? length (ds ++ r))%nat = false.
Proof. intros [Hn _ _]. apply Nat.eqb_neq. rewrite length_app. destruct ds; [done|cbn; lia]. Qed.

Lemma parse_item i r : item_ok i -> no_digit r -> match r with [] => True | c :: _ => c <> 45 end ->
  parse_range (item_text i ++ r) = Done (lo i, hi i, hi_digits i ++ r, r).
Proof.
  intros [Hi Hle] Hr Hm. unfold parse_range. destruct i as [ds|ds1 ds2]; cbn [item_text lo hi hi_digits] in *.
  - rewrite strtol_numeral, numeral_length by done. destruct r as [|c r]; [done|]. by rewrite (proj2 (Z.eqb_neq c 45)).
  - destruct Hi as [H1 H2]. rewrite <- app_assoc. cbn [app].
    rewrite (strtol_numeral ds1 (45 :: ds2 ++ r)), numeral_length by done. cbn [Z.eqb Pos.eqb].
    by rewrite strtol_numeral, numeral_length by done.
Qed.

Lemma item_nonempty i : item_ok i -> item_text i <> [].
Proof. intros [Hi _]. destruct i as [ds|ds1 ds2]; cbn; [apply Hi|by destruct ds1]. Qed.

Lemma hi_numeral i : item_ok i -> numeral (hi_digits i).
Proof. intros [Hi _]. by destruct i; [|destruct Hi]. Qed.

Lemma hi_bound i : item_ok i -> 0 <= lo i <= hi i /\ hi i < LONG_MAX.
Proof.
  intros Hi. pose proof (hi_numeral i Hi) as [_ _ Hb]. destruct Hi as [Hi Hle]. split; [|done]. split; [|done].
  destruct i as [ds|ds1 ds2]; cbn in *; [|destruct Hi as [Hi _]]; apply digits_value_nonneg, Hi.
Qed.

(** One turn of the loop on an element: its ids go in, as far as they fit, and what
    follows decides. *)
Lemma idlist_step max_ids fuel i r ids out :
  item_ok i -> no_digit r -> match r with [] => True | c :: _ => c <> 45 end ->
  zlen ids = max_ids -> holds ids out -> zlen out < max_ids ->
  let out' := out ++ take (Z.to_nat (max_ids - zlen out)) (item_ids i) in
  exists ids', zlen ids' = max_ids /\ holds ids' out' /\
    idlist_loop (S fuel) (item_text i ++ r) ids (zlen out) max_ids =
    match r with
    | [] => idlist_loop fuel (hi_digits i) ids' (zlen out') max_ids
    | c :: next => if c =? 44 then idlist_loop fuel next ids' (zlen out') max_ids else Err
    end.
Proof.
  intros Hi Hr Hm Hl Hh Ho out'. destruct (hi_bound i Hi) as [Hb1 Hb2].
  destruct (fill_ids_run max_ids (hi i) Hb2 (Z.to_nat (max_ids - zlen out)) ids out (lo i)) as (ids' & Hf & Hl' & Hh'); [done|done|lia|lia|].
  fold (item_ids i) in Hf, Hh'. fold out' in Hf, Hh'. exists ids'. split; [done|]. split; [done|].
  pose proof (parse_item i r Hi Hr Hm) as Hp. pose proof (item_nonempty i Hi) as Hn.
  destruct (item_text i ++ r) as [|c t] eqn:Et; [by apply app_eq_nil in Et as [? _]|].
  cbn [idlist_loop]. rewrite (proj2 (Z.ltb_lt _ _) Ho), Hp. cbn [mbind outcome_bind].
  replace ((lo i <? 0) || (hi i <? lo i)) with false by lia. rewrite Hf. cbn [mbind outcome_bind].
  destruct r; [|done]. by rewrite app_nil_r.
Qed.

Lemma length_item_ids i : item_ok i -> zlen (item_ids i) = hi i - lo i + 1.
Proof. intros Hi. destruct (hi_bound i Hi). unfold item_ids, range_ids, zlen. rewrite length_fmap, length_seqZ. lia. Qed.

(** After the last element the cursor stays on its last number, which is taken again
    until the array is full. *)
Lemma idlist_repeats max_ids ds : numeral ds -> forall fuel ids out,
  zlen ids = max_ids -> holds ids out -> zlen out <= max_ids -> max_ids - zlen out <= Z.of_nat fuel ->
  exists ids', idlist_loop fuel ds ids (zlen out) max_ids = Done (ids', max_ids) /\
    ids' = out ++ replicate (Z.to_nat (max_ids - zlen out)) (to_int (digits_value ds)).
Proof.
  intros Hds. assert (item_ok (Single ds)) as Hok by (by split). induction fuel as [|fuel IH]; intros ids out Hl Hh Ho Hf;
    (destruct (Z.eq_dec (zlen out) max_ids) as [He|He]; [|try lia]).
  all: try (exists ids; rewrite He; split;
    [destruct ds; cbn [idlist_loop]; [done|by rewrite Z.ltb_irrefl]
    |rewrite Z.sub_diag; cbn; rewrite app_nil_r; unfold holds in Hh; rewrite <- Hh; symmetry; apply take_ge; unfold zlen in *; lia]).
  destruct (idlist_step max_ids fuel (Single ds) [] ids out Hok I I Hl Hh) as (ids1 & Hl1 & Hh1 & Hs); [lia|].
  rewrite app_nil_r in Hs. cbn [item_text hi_digits] in Hs. rewrite Hs.
  assert (item_ids (Single ds) = [to_int (digits_value ds)]) as Ei.
  { unfold item_ids, hi, lo, hi_digits. by rewrite range_ids_cons, range_ids_nil by lia. }
  rewrite Ei in Hh1 |- *. replace (Z.to_nat (max_ids - zlen out)) with (S (Z.to_nat (max_ids - (zlen out + 1)))) in * by lia.
  cbn [take] in Hh1 |- *. rewrite take_nil in Hh1 |- *.
  destruct (IH ids1 (out ++ [to_int (digits_value ds)])) as (ids2 & -> & ->); [done|done|rewrite zlen_snoc; lia|rewrite zlen_snoc; lia|].
  exists (out ++ to_int (digits_value ds) :: replicate (Z.to_nat (max_ids - (zlen out + 1))) (to_int (digits_value ds))).
  rewrite zlen_snoc, <- app_assoc. done.
Qed.

Lemma render_cons i l r : l <> [] -> render (i :: l) ++ r = item_text i ++ 44 :: render l ++ r.
Proof. destruct l; [done|]. intros _. cbn [render]. by rewrite <- app_assoc. Qed.

Lemma render_nonempty l : l <> [] -> Forall item_ok l -> render l <> [].
Proof.
  intros Hl Ho. destruct l as [|i l]; [done|]. apply Forall_cons in Ho as [Hi _]. pose proof (item_nonempty i Hi).
  destruct l; cbn [render]; [done|]. by destruct (item_text i).
Qed.

Lemma idlist_full fuel s ids max_ids : idlist_loop fuel s ids max_ids max_ids = Done (ids, max_ids).
Proof. destruct fuel, s; cbn [idlist_loop]; by rewrite ?Z.ltb_irrefl. Qed.

Lemma last_id_cons i l : l <> [] -> last_id (i :: l) = last_id l.
Proof. by destruct l. Qed.

Lemma list_ids_cons i l : list_ids (i :: l) = item_ids i ++ list_ids l.
Proof. done. Qed.

(** The array when an element did not fit altogether. *)
Lemma cut_short {A} (out new rest : list A) (n : Z) : zlen (out ++ take (Z.to_nat (n - zlen out)) new) = n ->
  take (Z.to_nat n) (out ++ new ++ rest) = out ++ take (Z.to_nat (n - zlen out)) new.
Proof.
  unfold zlen. rewrite length_app, length_take. intros Hn. rewrite take_app_ge by lia.
  replace (Z.to_nat n - length out)%nat with (Z.to_nat (n - Z.of_nat (length out))) by lia.
  by rewrite take_app_le by lia.
Qed.

Lemma idlist_plain max_ids : forall l fuel ids out, l <> [] -> Forall item_ok l ->
  zlen ids = max_ids -> holds ids out -> zlen out <= max_ids -> max_ids - zlen out <= Z.of_nat fuel ->
  idlist_loop fuel (render l) ids (zlen out) max_ids =
  Done (take (Z.to_nat max_ids) (out ++ list_ids l ++ replicate (Z.to_nat max_ids) (last_id l)), max_ids).
Proof.
  assert (forall ids out x, zlen ids = max_ids -> holds ids out -> zlen out = max_ids -> take (Z.to_nat max_ids) (out ++ x) = ids) as Hfull.
  { intros ids out x Hl Hh Ho. unfold holds, zlen in *. rewrite take_app_le, take_ge by lia. rewrite <- Hh. apply take_ge. lia. }
  induction l as [|i l IH]; intros fuel ids out Hne Hok Hl Hh Ho Hf; [done|].
  destruct (Z.eq_dec (zlen out) max_ids) as [He|He].
  { rewrite He, idlist_full. by rewrite (Hfull ids). }
  destruct fuel as [|fuel]; [lia|]. apply Forall_cons in Hok as [Hi Hok]. destruct (hi_bound i Hi) as [Hb1 Hb2].
  pose proof (length_item_ids i Hi) as Hlen.
  set (out' := out ++ take (Z.to_nat (max_ids - zlen out)) (item_ids i)).
  assert (zlen out + 1 <= zlen out' <= max_ids) as Ho'. { subst out'. rewrite zlen_app. unfold zlen in *. rewrite length_take. lia. }
  assert (zlen out' < max_ids -> out' = out ++ item_ids i) as Hsmall.
  { subst out'. rewrite zlen_app. unfold zlen in *. rewrite length_take. intros. by rewrite take_ge by lia. }
  destruct (decide (l = [])) as [->|Hl0].
  - destruct (idlist_step max_ids fuel i [] ids out Hi I I Hl Hh) as (ids1 & Hl1 & Hh1 & Hs); [lia|]. fold out' in Hh1, Hs.
    rewrite app_nil_r in Hs. cbn [render]. rewrite Hs. rewrite list_ids_cons. change (list_ids []) with (@nil Z). rewrite app_nil_r.
    destruct (idlist_repeats max_ids (hi_digits i) (hi_numeral i Hi) fuel ids1 out') as (ids2 & -> & ->); [done|done|lia|lia|].
    do 2 f_equal. change (digits_value (hi_digits i)) with (hi i). change (last_id [i]) with (to_int (hi i)).
    destruct (Z.eq_dec (zlen out') max_ids) as [E|E].
    + rewrite E, Z.sub_diag. cbn [Z.to_nat replicate]. rewrite app_nil_r. symmetry. by apply cut_short.
    + rewrite (Hsmall ltac:(lia)) in Ho' |- *. rewrite app_assoc. unfold zlen in *.
      rewrite take_app_ge by lia. rewrite take_replicate. do 2 f_equal. lia.
  - pose proof (render_cons i l [] Hl0) as Hr. rewrite !app_nil_r in Hr. rewrite Hr.
    destruct (idlist_step max_ids fuel i (44 :: render l) ids out Hi) as (ids1 & Hl1 & Hh1 & Hs); [done|done|done|done|lia|]. fold out' in Hh1, Hs.
    rewrite Hs. cbn [Z.eqb Pos.eqb]. rewrite IH by (done || lia). rewrite last_id_cons, list_ids_cons by done. do 2 f_equal.
    destruct (Z.eq_dec (zlen out') max_ids) as [E|E].
    + rewrite <- app_assoc. rewrite (Hfull ids1) by done. rewrite (cut_short out (item_ids i)) by done.
      unfold holds in Hh1. fold out'. rewrite <- Hh1. symmetry. apply take_ge. unfold zlen in *. lia.
    + rewrite (Hsmall ltac:(lia)). by rewrite <- !app_assoc.
Qed.

Lemma idlist_newline max_ids : forall l fuel ids out, l <> [] -> Forall item_ok l ->
  zlen ids = max_ids -> holds ids out -> max_ids - zlen out <= Z.of_nat fuel ->
  zlen out + zlen (list_ids (removelast l)) < max_ids ->
  idlist_loop fuel (render l ++ [10]) ids (zlen out) max_ids = Err.
Proof.
  induction l as [|i l IH]; intros fuel ids out Hne Hok Hl Hh Hf Hlt; [done|].
  apply Forall_cons in Hok as [Hi Hok]. destruct fuel as [|fuel]; [unfold zlen in *; lia|].
  destruct (decide (l = [])) as [->|Hl0].
  - destruct (idlist_step max_ids fuel i [10] ids out Hi) as (ids1 & _ & _ & Hs); [done|done|done|done|unfold zlen in *; lia|]. cbn [render]. by rewrite Hs.
  - assert (removelast (i :: l) = i :: removelast l) as Er by (by destruct l). rewrite Er, list_ids_cons, zlen_app in Hlt.
    pose proof (zlen_nonneg (list_ids (removelast l))). pose proof (length_item_ids i Hi). destruct (hi_bound i Hi).
    rewrite render_cons by done.
    destruct (idlist_step max_ids fuel i (44 :: render l ++ [10]) ids out Hi) as (ids1 & Hl1 & Hh1 & Hs); [done|done|done|done|lia|].
    rewrite Hs. cbn [Z.eqb Pos.eqb]. rewrite take_ge in Hh1 |- * by (unfold zlen in *; lia).
    apply IH; [done|done|done|done|rewrite zlen_app; lia|rewrite zlen_app; lia].
Qed.

(** ** The lists of sysfs *)

Lemma parse_idlist_total s ids max_ids : 0 <= max_ids -> zlen ids = max_ids -> numbers_fit s = true ->
  cmem_parse_idlist s ids max_ids = Err \/
  exists ids' out, cmem_parse_idlist s ids max_ids = Done (ids', zlen out) /\ zlen ids' = max_ids /\ holds ids' out /\ zlen out <= max_ids.
Proof.
  intros Hm Hl Hf. unfold cmem_parse_idlist. change (idlist_loop (Z.to_nat max_ids) s ids 0 max_ids) with (idlist_loop (Z.to_nat max_ids) s ids (zlen (@nil Z)) max_ids).
  destruct (idlist_loop_total max_ids (Z.to_nat max_ids) s ids []) as [->|(ids' & out & -> & ? & ? & ?)];
    [done|done|rewrite zlen_nil; lia|rewrite zlen_nil; lia|done|by left|right]. exists ids', out. repeat split; (done || lia).
Qed.

Lemma parse_newline_run l ids max_ids : l <> [] -> Forall item_ok l -> zlen ids = max_ids ->
  zlen (list_ids (removelast l)) < max_ids -> cmem_parse_idlist (render l ++ [10]) ids max_ids = Err.
Proof. intros. apply (idlist_newline max_ids l _ ids []); (done || rewrite zlen_nil; lia). Qed.

(** [cmem_parse_idlist] on a well-formed list such as [0-3,8]: the ids come out in
    order, then the last number again until the array is full, so the count is always the
    capacity; and the same list with the newline that every sysfs file ends in is refused
    ([-1]), unless the array is full before the last element. *)
Theorem parse_idlist_lists l ids max_ids : l <> [] -> Forall item_ok l -> 0 <= max_ids -> zlen ids = max_ids ->
  cmem_parse_idlist (render l) ids max_ids =
    Done (take (Z.to_nat max_ids) (list_ids l ++ replicate (Z.to_nat max_ids) (last_id l)), max_ids) /\
  (zlen (list_ids (removelast l)) < max_ids -> cmem_parse_idlist (render l ++ [10]) ids max_ids = Err).
Proof.
  intros Hne Hok Hm Hl. split; [|by intros; apply parse_newline_run].
  apply (idlist_plain max_ids l _ ids []); (done || rewrite zlen_nil; lia).
Qed.

(** Digits of the examples. *)
Definition chars (s : string) : text := (fun c => Z.of_nat (Ascii.nat_of_ascii c)) <$> String.list_ascii_of_string s.

Definition demo_items : list item := [Range [48] [51]; Single [56]].
Example demo_items_text : render demo_items = chars "0-3,8".
Proof. reflexivity. Qed.

Lemma numeral_dec ds : bool_decide (ds <> []) && forallb is_digit ds && (digits_value ds <? LONG_MAX) = true -> numeral ds.
Proof.
  intros H. apply andb_true_iff in H as [H H3]. apply andb_true_iff in H as [H1 H2]. split; [by apply bool_decide_eq_true in H1| |lia].
  apply Forall_forall. intros x Hx. rewrite forallb_forall in H2. apply H2. by apply list_elem_of_In.
Qed.

Lemma demo_items_ok : Forall item_ok demo_items.
Proof. repeat constructor; cbn; try (by apply numeral_dec); unfold hi; cbn; unfold digits_value; cbn; lia. Qed.

Lemma parse_idlist_lists_witness :
  cmem_parse_idlist (chars "0-3,8") (replicate 8 7) 8 = Done ([0; 1; 2; 3; 8; 8; 8; 8], 8) /\
  cmem_parse_idlist (render demo_items ++ [10]) (replicate 8 7) 8 = Err.
Proof.
  destruct (parse_idlist_lists demo_items (replicate 8 7) 8 ltac:(done) demo_items_ok ltac:(lia) eq_refl) as [H1 H2].
  split; [exact H1|]. apply H2. reflexivity.
Defined.

(** A number that saturates: [first++] overflows. *)
Example parse_idlist_overflow : cmem_parse_idlist (chars "9223372036854775807") (replicate 8 7) 8 = Fault.
Proof. reflexivity. Qed.

(** ** The probe never leaves its arrays *)

(** The entries of the map are node ids the system reported, or 0. *)
Record topology_ok (t : numa_topology) : Prop := TopologyOk {
  topology_nodes : 0 < node_count t;
  topology_map : match cpu_to_node t with Some table => zlen table = cpu_count t | None => True end;
}.

Definition numa_ok (g : numa_state) : Prop := g_numa_topo_init g = true -> topology_ok (g_numa_topo g).

Section Safety.
Context (files : string -> option text) (calloc_ok : bool).
(** No number in the files saturates. *)
Context (files_fit : forall path size line, read_line files path size = Some line -> numbers_fit line = true).

Lemma map_cpus_total node cpus node_cpus : forall n idx table, 0 <= idx -> idx + Z.of_nat n <= zlen node_cpus -> zlen table = cpus ->
  exists table', map_cpus node_cpus n idx node cpus table = Done table' /\ zlen table' = cpus.
Proof.
  induction n as [|n IH]; intros idx table Hi Hn Hl; cbn [map_cpus]; [by exists table|].
  destruct (rd_in_range node_cpus idx) as [cpu ->]; [lia|]. cbn [mbind outcome_bind].
  destruct ((0 <=? cpu) && (cpu <? cpus)) eqn:Ec.
  - unfold store_id. rewrite Hl, Ec. cbn [mbind outcome_bind]. apply IH; [lia|lia|by rewrite zlen_insert].
  - cbn [mbind outcome_bind]. apply IH; [lia|lia|done].
Qed.

Lemma map_node_total junk node cpus table : zlen junk = CMEM_MAX_CPUS -> zlen table = cpus ->
  exists table', map_node files junk node cpus table = Done table' /\ zlen table' = cpus.
Proof.
  intros Hj Hl. unfold map_node. destruct (64 <=? _); [by exists table|].
  destruct (read_line files (cpulist_path node) 1024) as [line|] eqn:Er; [|by exists table].
  destruct (parse_idlist_total line junk CMEM_MAX_CPUS) as [->|(ids & out & -> & Hi & _ & Ho)];
    [done|done|by eapply files_fit|by exists table|].
  apply map_cpus_total; [done|pose proof (zlen_nonneg out); lia|done].
Qed.

Lemma map_nodes_total junk cpus node_ids : zlen junk = CMEM_MAX_CPUS -> forall n idx table, 0 <= idx -> idx + Z.of_nat n <= zlen node_ids -> zlen table = cpus ->
  exists table', map_nodes files junk node_ids n idx cpus table = Done table' /\ zlen table' = cpus.
Proof.
  intros Hj. induction n as [|n IH]; intros idx table Hi Hn Hl; cbn [map_nodes]; [by exists table|].
  destruct (rd_in_range node_ids idx) as [node ->]; [lia|]. cbn [mbind outcome_bind].
  destruct (map_node_total junk node cpus table Hj Hl) as (table1 & -> & Hl1). cbn [mbind outcome_bind]. apply IH; [lia|lia|done].
Qed.

Lemma numa_probe_total junk64 junk1024 : zlen junk64 = CMEM_MAX_NUMA_NODES -> zlen junk1024 = CMEM_MAX_CPUS ->
  exists t, cmem_numa_probe files calloc_ok junk64 junk1024 = Done t /\ topology_ok t.
Proof.
  intros H64 H1024. unfold cmem_numa_probe.
  assert (forall n, 0 < n -> topology_ok (unmapped n)) as Hun by done.
  destruct (read_line files _ 256) as [nl|] eqn:En; [|by eexists; split; [done|apply Hun]].
  destruct (parse_idlist_total nl junk64 CMEM_MAX_NUMA_NODES) as [->|(ids & out & -> & Hi & _ & Ho)];
    [done|done|by eapply files_fit|by eexists; split; [done|apply Hun]|].
  destruct (Z.leb_spec (zlen out) 0); [by eexists; split; [done|apply Hun]|].
  destruct (read_line files _ 1024) as [cl|] eqn:Ec; [|by eexists; split; [done|apply Hun]].
  destruct (parse_idlist_total cl junk1024 CMEM_MAX_CPUS) as [->|(cids & cout & -> & _ & _ & _)];
    [done|done|by eapply files_fit|by eexists; split; [done|apply Hun]|].
  destruct ((zlen cout <=? 0) || negb calloc_ok); [by eexists; split; [done|apply Hun]|].
  destruct (map_nodes_total junk1024 (zlen cout) ids H1024 (Z.to_nat (zlen out)) 0 (replicate (Z.to_nat (zlen cout)) 0)) as (table & -> & Hl);
    [done|lia|unfold zlen; rewrite length_replicate; lia|].
  cbn [mbind outcome_bind]. by exists (Topology (zlen out) (zlen cout) (Some table)).
Qed.

Lemma numa_node_count_run junk64 junk1024 g : zlen junk64 = CMEM_MAX_NUMA_NODES -> zlen junk1024 = CMEM_MAX_CPUS -> numa_ok g ->
  exists n g', cmem_numa_node_count files calloc_ok junk64 junk1024 g = Done (n, g') /\ 0 < n /\ g_numa_topo_init g' = true /\
    topology_ok (g_numa_topo g') /\ n = node_count (g_numa_topo g').
Proof.
  intros H64 H1024 Hg. unfold cmem_numa_node_count. destruct (g_numa_topo_init g) eqn:Ei; cbn [mbind outcome_bind].
  - pose proof (Hg Ei) as Ht. pose proof (topology_nodes _ Ht) as Hp. rewrite (proj2 (Z.ltb_lt _ _) Hp). eexists _, g. by split_and!.
  - destruct (numa_probe_total junk64 junk1024 H64 H1024) as (t & -> & Ht). cbn [mbind outcome_bind g_numa_topo].
    pose proof (topology_nodes t Ht) as Hp. rewrite (proj2 (Z.ltb_lt _ _) Hp). eexists _, (NumaState t true). by split_and!.
Qed.

(** On any files (numbers that fit a [long] apart) the topology queries terminate, stay
    inside the stack arrays and the calloc'ed map, report at least one node, and leave a
    topology whose map has exactly [cpu_count] entries. *)
Theorem numa_query_safe junk64 junk1024 cpu g : zlen junk64 = CMEM_MAX_NUMA_NODES -> zlen junk1024 = CMEM_MAX_CPUS -> numa_ok g ->
  (exists n g', cmem_numa_node_count files calloc_ok junk64 junk1024 g = Done (n, g') /\ 0 < n /\ numa_ok g') /\
  (exists node g', cmem_cpu_to_node files calloc_ok junk64 junk1024 cpu g = Done (node, g') /\ numa_ok g').
Proof.
  intros H64 H1024 Hg. destruct (numa_node_count_run junk64 junk1024 g H64 H1024 Hg) as (n & g' & Hr & Hn & Hi & Ht & _).
  assert (numa_ok g') as Hok by (intros _; exact Ht).
  split; [by exists n, g'|]. unfold cmem_cpu_to_node. destruct (Z.ltb_spec cpu 0); [by exists 0, g|]. rewrite Hr. cbn [mbind outcome_bind].
  pose proof (topology_map _ Ht) as Hm. destruct (cpu_to_node (g_numa_topo g')) as [table|]; [|by exists 0, g'].
  destruct (Z.leb_spec (cpu_count (g_numa_topo g')) cpu); [by exists 0, g'|].
  destruct (rd_in_range table cpu) as [node ->]; [lia|]. by exists node, g'.
Qed.

End Safety.

(** A machine with two nodes and four cpus, as sysfs describes it. *)
Definition two_nodes (path : string) : option text :=
  if String.eqb path "/sys/devices/system/node/online" then Some (chars "0-1" ++ [10])
  else if String.eqb path "/sys/devices/system/cpu/possible" then Some (chars "0-3" ++ [10])
  else if String.eqb path "/sys/devices/system/node/node0/cpulist" then Some (chars "0-1" ++ [10])
  else if String.eqb path "/sys/devices/system/node/node1/cpulist" then Some (chars "2-3" ++ [10])
  else None.

Lemma read_line_fit files p : (forall path content, files path = Some content -> p content = true) ->
  (forall content size line, p content = true -> fgets size content = Some line -> numbers_fit (c_string line) = true) ->
  forall path size line, read_line files path size = Some line -> numbers_fit line = true.
Proof.
  intros Hp Hl path size line. unfold read_line. destruct (files path) as [content|] eqn:Ef; [|done]. cbn.
  destruct (fgets size content) as [l|] eqn:Eg; [|done]. cbn. intros [= <-]. by eapply Hl; [eapply Hp|].
Qed.

(** Short texts have short numbers. *)
Lemma digits_value_bound ds : Forall (fun c => is_digit c = true) ds -> digits_value ds < 10 ^ Z.of_nat (length ds).
Proof.
  intros Hd. unfold digits_value. cut (forall a k, 0 <= k -> a < 10 ^ k -> fold_left (fun a c => a * 10 + (c - 48)) ds a < 10 ^ (k + Z.of_nat (length ds))).
  { intros H. specialize (H 0 0 ltac:(lia) ltac:(done)). by rewrite Z.add_0_l in H. }
  induction Hd as [|c ds Hc _ IH]; cbn [fold_left length]; intros a k Hk Ha; [by rewrite Z.add_0_r|].
  replace (k + Z.of_nat (S (length ds))) with ((k + 1) + Z.of_nat (length ds)) by lia. apply IH; [lia|].
  rewrite Z.pow_add_r by lia. unfold is_digit in Hc. lia.
Qed.

Lemma span_digits_all s : Forall (fun c => is_digit c = true) (fst (span_digits s)) /\ (length (fst (span_digits s)) <= length s)%nat.
Proof.
  induction s as [|c s [IH1 IH2]]; cbn [span_digits]; [by split; [constructor|]|]. destruct (is_digit c) eqn:E; [|cbn; split; [constructor|lia]].
  destruct (span_digits s) as [ds r]. cbn in *. split; [by constructor|lia].
Qed.

Lemma strtol_short s : (length s <= 18)%nat -> fst (strtol s) < LONG_MAX.
Proof.
  intros Hs. assert (length (snd (sign (skip_spaces s))) <= length s)%nat as Ht.
  { destruct (skip_spaces_suffix s) as [p Hp]. destruct (sign_suffix (skip_spaces s)) as [q Hq].
    apply (f_equal length) in Hp, Hq. rewrite length_app in Hp, Hq. lia. }
  unfold strtol. destruct (sign (skip_spaces s)) as [neg t]. cbn [snd] in Ht.
  pose proof (span_digits_all t) as [Hd Hl]. destruct (span_digits t) as [ds r]. cbn [fst] in Hd, Hl.
  destruct ds as [|d ds]; [done|]. pose proof (digits_value_bound _ Hd) as Hb. pose proof (digits_value_nonneg _ Hd).
  assert (10 ^ Z.of_nat (length (d :: ds)) <= 10 ^ 18) by (apply Z.pow_le_mono_r; lia).
  change (10 ^ 18) with 1000000000000000000 in *. cbn [fst]. unfold LONG_MAX, LONG_MIN. destruct neg; lia.
Qed.

Lemma numbers_fit_short s : (length s <= 18)%nat -> numbers_fit s = true.
Proof.
  induction s as [|c s IH]; intros Hs; [done|]. cbn [numbers_fit tails forallb]. unfold numbers_fit in IH. rewrite IH by (cbn in Hs; lia).
  rewrite andb_true_r. apply Z.ltb_lt, strtol_short, Hs.
Qed.

Lemma length_take_line n s : (length (take_line n s) <= length s)%nat.
Proof. revert s. induction n as [|n IH]; intros [|c s]; cbn; [lia..|]. destruct (c =? 10); cbn; [lia|]. specialize (IH s). lia. Qed.

Lemma length_c_string s : (length (c_string s) <= length s)%nat.
Proof. induction s as [|c s IH]; cbn; [lia|]. destruct (c =? 0); cbn; lia. Qed.

Lemma short_files files : (forall path content, files path = Some content -> (length content <= 18)%nat) ->
  forall path size line, read_line files path size = Some line -> numbers_fit line = true.
Proof.
  intros Hs. apply (read_line_fit files (fun s => (length s <=? 18)%nat)).
  - intros path content Hp. apply Nat.leb_le. by eapply Hs.
  - intros content size line Hc Hg. apply Nat.leb_le in Hc. destruct content as [|c content]; [done|]. cbn [fgets] in Hg.
    injection Hg as <-. apply numbers_fit_short. etrans; [apply length_c_string|]. by etrans; [apply length_take_line|].
Qed.

Lemma two_nodes_short path content : two_nodes path = Some content -> (length content <= 18)%nat.
Proof. unfold two_nodes. repeat (destruct (String.eqb _ _); [intros [= <-]; cbn; lia|]). done. Qed.

Lemma numa_query_safe_witness :
  (exists n g', cmem_numa_node_count two_nodes true (replicate 64 0) (replicate 1024 0) numa_initial = Done (n, g') /\ 0 < n /\ numa_ok g') /\
  (exists node g', cmem_cpu_to_node two_nodes true (replicate 64 0) (replicate 1024 0) 3 numa_initial = Done (node, g') /\ numa_ok g').
Proof. apply (numa_query_safe two_nodes true (short_files two_nodes two_nodes_short)); [reflexivity|reflexivity|done]. Defined.

(** ** Sysfs is never understood *)

Lemma render_line l : Forall item_ok l -> Forall (fun c => c <> 0 /\ c <> 10) (render l).
Proof.
  assert (forall ds, numeral ds -> Forall (fun c => c <> 0 /\ c <> 10) ds) as Hn.
  { intros ds [_ Hd _]. eapply Forall_impl; [exact Hd|]. intros c Hc. cbn in Hc. unfold is_digit in Hc. lia. }
  assert (forall i, item_ok i -> Forall (fun c => c <> 0 /\ c <> 10) (item_text i)) as Hi.
  { intros [ds|ds1 ds2] [Hi _]; cbn [item_text]; [by apply Hn|]. destruct Hi as [H1 H2]. apply Forall_app. split; [by apply Hn|].
    constructor; [lia|by apply Hn]. }
  induction l as [|i l IH]; intros Hok; [constructor|]. apply Forall_cons in Hok as [Hi0 Hok]. destruct l; [by apply Hi|].
  change (render (i :: i0 :: l)) with (item_text i ++ 44 :: render (i0 :: l)). apply Forall_app. split; [by apply Hi|]. constructor; [lia|by apply IH].
Qed.

Lemma read_whole_line files path size s : files path = Some (s ++ [10]) -> Forall (fun c => c <> 0 /\ c <> 10) s ->
  zlen s + 1 < size -> read_line files path size = Some (s ++ [10]).
Proof.
  intros Hf Hs Hsz. unfold read_line. rewrite Hf. cbn [mbind option_bind]. unfold fgets.
  assert (forall n, (length s < n)%nat -> take_line n (s ++ [10]) = s ++ [10]) as Ht.
  { clear Hf Hsz. induction Hs as [|c s [_ Hc] _ IH]; intros [|n] Hn; cbn in *; try lia; [done|].
    rewrite (proj2 (Z.eqb_neq c 10)) by done. rewrite IH by lia. done. }
  assert (c_string (s ++ [10]) = s ++ [10]) as Hc.
  { clear - Hs. induction Hs as [|c s [Hc _] _ IH]; cbn; [done|]. rewrite (proj2 (Z.eqb_neq c 0)) by done. by rewrite IH. }
  unfold zlen in Hsz. destruct (s ++ [10]) as [|c t] eqn:E; [by destruct s|]. rewrite Ht by lia. cbn [fmap option_fmap option_map]. by rewrite Hc.
Qed.

(** Sysfs ends each of its files in a newline.  Whatever list of nodes it reports in
    [online] (fewer than 64 before the last element, on a line that fits the buffer), the
    probe falls back to one node without a map: the node count is 1 and every cpu belongs to
    node 0. *)
Theorem numa_never_detected files calloc_ok junk64 junk1024 l cpu :
  l <> [] -> Forall item_ok l -> zlen junk64 = CMEM_MAX_NUMA_NODES -> zlen (list_ids (removelast l)) < CMEM_MAX_NUMA_NODES ->
  files online_path = Some (render l ++ [10]) -> zlen (render l) + 1 < 256 ->
  let g := NumaState (unmapped 1) true in
  cmem_numa_node_count files calloc_ok junk64 junk1024 numa_initial = Done (1, g) /\
  cmem_cpu_to_node files calloc_ok junk64 junk1024 cpu numa_initial = Done (0, if cpu <? 0 then numa_initial else g).
Proof.
  intros Hne Hok Hj Hlt Hf Hlen g.
  assert (cmem_numa_node_count files calloc_ok junk64 junk1024 numa_initial = Done (1, g)) as Hc.
  { unfold cmem_numa_node_count. cbn [g_numa_topo_init numa_initial]. unfold cmem_numa_probe.
    rewrite (read_whole_line files _ 256 (render l) Hf (render_line l Hok) Hlen).
    by rewrite (parse_newline_run l junk64 CMEM_MAX_NUMA_NODES Hne Hok Hj Hlt). }
  split; [done|]. unfold cmem_cpu_to_node. destruct (cpu <? 0); [done|]. by rewrite Hc.
Qed.

Lemma numa_never_detected_witness :
  let g := NumaState (unmapped 1) true in
  cmem_numa_node_count two_nodes true (replicate 64 0) (replicate 1024 0) numa_initial = Done (1, g) /\
  cmem_cpu_to_node two_nodes true (replicate 64 0) (replicate 1024 0) 3 numa_initial = Done (0, g).
Proof.
  apply (numa_never_detected two_nodes true (replicate 64 0) (replicate 1024 0) [Range [48] [49]] 3); try reflexivity; [done|].
  constructor; [|constructor]. split; [split; by apply numeral_dec|]. unfold lo, hi, hi_digits, digits_value. cbn. lia.
Defined.

(** The same machine with the newlines taken off: the cpus of node 1 are found, although the
    list of nodes comes out 64 long. *)
Definition two_nodes_trimmed (path : string) : option text := removelast (A := Z) <$> two_nodes path.

Example trimmed_node : map_node two_nodes_trimmed (replicate 1024 0) 1 4 [0; 0; 0; 0] = Done [0; 0; 1; 1].
Proof. vm_compute. reflexivity. Qed.

Example trimmed_nodes : (snd <$> match cmem_parse_idlist (chars "0-1") (replicate 64 0) 64 with Done r => Some r | _ => None end) = Some 64.
Proof. vm_compute. reflexivity. Qed.
