(* ===== verification/Cgroup.v ===== *)
(** * The memory limit of the container

    [mp_set_cgroup_aware] and [mp_get_cgroup_mem_limit] of [src/cmem_guard.c]: the limit is
    read from the cgroup file system, version 1 first.  The files are a parameter, as in
    [Numa]. *)
From S2P Require Import Prelude Text Numa.
From Stdlib Require Import ZArith Lia.
From stdpp Require Import base option list strings.
Open Scope Z_scope.

Definition ULLONG_MAX : Z := 2 ^ 64 - 1.

(** [strtoull] in base 10: a minus sign negates modulo 2^64, a number out of range gives the
    maximum. *)
Definition strtoull (s : Numa.text) : Z * Numa.text :=
  let '(neg, t) := sign (skip_spaces s) in
  let '(ds, r) := span_digits t in
  match ds with
  | [] => (0, s)
  | _ => (if ULLONG_MAX <? digits_value ds then ULLONG_MAX else if neg then u64 (- digits_value ds) else digits_value ds, r)
  end.

Record cgroup := Cgroup { cgroup_aware : bool; cgroup_mem_limit : Z }.

Definition cgroup_v1_path : string := "/sys/fs/cgroup/memory/memory.limit_in_bytes".
Definition cgroup_v2_path : string := "/sys/fs/cgroup/memory.max".

Section Cgroup.
(** [None] when [fopen] fails. *)
Context (files : string -> option Numa.text).

Definition mp_set_cgroup_aware (c : cgroup) (enable : bool) : cgroup :=
  if negb enable then Cgroup false (cgroup_mem_limit c)
  else
    let keep := Cgroup true (cgroup_mem_limit c) in
    match (match files cgroup_v1_path with Some f => Some f | None => files cgroup_v2_path end) with
    | None => keep
    | Some f =>
        match fgets 64 f with
        | None => keep
        | Some buf =>
            let s := Numa.c_string buf in
            let '(limit, e) := strtoull s in
            if negb (length e =? length s)%nat && (0 <? limit) then Cgroup true limit else keep
        end
    end.

Definition mp_get_cgroup_mem_limit (c : cgroup) : Z := cgroup_mem_limit c.

End Cgroup.

(** ** Reading a decimal number *)

Lemma digits_rev_count fuel : forall k n, 0 <= n < 10 ^ Z.of_nat k -> (0 < k)%nat -> (length (digits_rev fuel 10 n) <= k)%nat.
Proof.
  induction fuel as [|fuel IH]; intros k n Hn Hk; [cbn; lia|]. cbn [digits_rev length]. destruct k as [|k]; [lia|].
  rewrite Nat2Z.inj_succ, Z.pow_succ_r in Hn by lia. destruct (Z.eqb_spec (n / 10) 0) as [E|E]; cbn [length]; [lia|].
  destruct k as [|k]; [cbn in Hn; rewrite Z.div_small in E; lia|].
  pose proof (IH (S k) (n / 10)) as H. enough (length (digits_rev fuel 10 (n / 10)) <= S k)%nat by lia. apply H; [|lia].
  split; [apply Z.div_pos; lia|]. apply Z.div_lt_upper_bound; lia.
Qed.

Lemma digits_rev_digits fuel : forall n, 0 <= n -> Forall (fun c => is_digit c = true) (digits_rev fuel 10 n).
Proof.
  induction fuel as [|fuel IH]; intros n Hn; [constructor|]. cbn [digits_rev]. constructor.
  - pose proof (Z.mod_pos_bound n 10 ltac:(lia)). unfold digit, is_digit. destruct (Z.ltb_spec (n mod 10) 10); lia.
  - destruct (n / 10 =? 0); [constructor|]. apply IH. apply Z.div_pos; lia.
Qed.

Lemma dec_digits n : 0 <= n -> Forall (fun c => is_digit c = true) (dec n).
Proof. intros Hn. unfold dec, digits. apply Forall_rev. by apply digits_rev_digits. Qed.

Lemma dec_value n : 0 <= n -> digits_value (dec n) = n.
Proof.
  intros Hn. rewrite <- (undec_dec n Hn) at 2. unfold digits_value, undec. generalize 0. induction (dec n) as [|c l IH]; intros a; cbn [fold_left]; [done|].
  rewrite IH. f_equal. lia.
Qed.

Lemma dec_nonempty n : dec n <> [].
Proof. unfold dec, digits, bits. cbn [digits_rev]. intros E. apply (f_equal length) in E. rewrite length_rev in E. done. Qed.

Lemma take_line_all n s : (length s < n)%nat -> Forall (fun c => c <> 10) s -> take_line n (s ++ [10]) = s ++ [10].
Proof.
  revert n. induction s as [|c s IH]; intros n Hn Hs; (destruct n as [|n]; [cbn in Hn; lia|]); cbn [app take_line]; [done|].
  apply Forall_cons in Hs as [Hc Hs]. rewrite (proj2 (Z.eqb_neq c 10)) by done. rewrite IH by (done || (cbn in Hn; lia)). done.
Qed.

Lemma c_string_all s : Forall (fun c => c <> 0) s -> Numa.c_string s = s.
Proof. induction 1 as [|c s Hc _ IH]; cbn [Numa.c_string]; [done|]. by rewrite (proj2 (Z.eqb_neq c 0)), IH. Qed.

Lemma strtoull_dec n r : 0 <= n <= ULLONG_MAX -> match r with [] => True | c :: _ => is_digit c = false end -> strtoull (dec n ++ r) = (n, r).
Proof.
  intros Hn Hr. pose proof (dec_digits n ltac:(lia)) as Hd. pose proof (dec_value n ltac:(lia)) as Hv. pose proof (dec_nonempty n) as H0. unfold strtoull.
  destruct (dec n) as [|c ds] eqn:E; [done|]. pose proof (Forall_inv Hd) as Hc. cbn beta in Hc. unfold is_digit in Hc.
  assert (skip_spaces ((c :: ds) ++ r) = (c :: ds) ++ r) as ->. { cbn. unfold is_space. by replace ((c =? 32) || ((9 <=? c) && (c <=? 13))) with false by lia. }
  assert (sign ((c :: ds) ++ r) = (false, (c :: ds) ++ r)) as ->. { cbn. by rewrite (proj2 (Z.eqb_neq c 45)), (proj2 (Z.eqb_neq c 43)) by lia. }
  rewrite span_digits_app by done. rewrite Hv. by rewrite (proj2 (Z.ltb_ge _ _)) by lia.
Qed.

(** A limit that the kernel writes as a decimal line is read exactly, from version 1 when
    it is there and from version 2 otherwise; a line that starts with no number, such as the
    "max" of an unlimited group, leaves the limit of the last reading in place. *)
Theorem cgroup_limit_spec files c n :
  0 < n <= ULLONG_MAX ->
  (files cgroup_v1_path = Some (dec n ++ [10]) -> mp_set_cgroup_aware files c true = Cgroup true n) /\
  (files cgroup_v1_path = None -> files cgroup_v2_path = Some (dec n ++ [10]) -> mp_set_cgroup_aware files c true = Cgroup true n) /\
  (files cgroup_v1_path = None -> files cgroup_v2_path = Some (bs "max" ++ [10]) -> mp_set_cgroup_aware files c true = Cgroup true (cgroup_mem_limit c)).
Proof.
  intros Hn. assert (E : match fgets 64 (dec n ++ [10]) with
    | None => None
    | Some buf => let s := Numa.c_string buf in let '(limit, e) := strtoull s in Some (negb (length e =? length s)%nat && (0 <? limit), limit)
    end = Some (true, n)).
  { pose proof (dec_digits n ltac:(lia)) as Hd. assert (Hl : (length (dec n) <= 20)%nat).
    { unfold dec, digits. rewrite length_rev. apply digits_rev_count; [unfold ULLONG_MAX in Hn; cbn; lia|lia]. }
    unfold fgets. destruct (dec n ++ [10]) eqn:E0; [by destruct (dec n)|]. rewrite <- E0. change (Z.to_nat (64 - 1)) with 63%nat.
    rewrite take_line_all; [|lia|eapply Forall_impl; [exact Hd|]; cbn; unfold is_digit; lia].
    rewrite c_string_all; [|apply Forall_app; split; [eapply Forall_impl; [exact Hd|]; cbn; unfold is_digit; lia|by repeat constructor]].
    cbn zeta. rewrite strtoull_dec by (done || lia). rewrite length_app. cbn [length]. pose proof (dec_nonempty n) as H0. destruct (dec n) as [|x xs]; [done|].
    cbn [length]. rewrite (proj2 (Nat.eqb_neq _ _)) by lia. by rewrite (proj2 (Z.ltb_lt 0 n)) by lia. }
  unfold mp_set_cgroup_aware. cbn [negb]. split; [|split].
  - intros ->. destruct (fgets 64 (dec n ++ [10])) as [buf|]; [|done]. cbn zeta in E. destruct (strtoull (Numa.c_string buf)) as [limit e]. by injection E as -> ->.
  - intros -> ->. destruct (fgets 64 (dec n ++ [10])) as [buf|]; [|done]. cbn zeta in E. destruct (strtoull (Numa.c_string buf)) as [limit e]. by injection E as -> ->.
  - intros -> ->. done.
Qed.

(** A group limited to 1 GiB that becomes unlimited keeps its old limit. *)
Definition limited_group (path : string) : option Numa.text := if decide (path = cgroup_v2_path) then Some (dec 1073741824 ++ [10]) else None.
Definition unlimited_group (path : string) : option Numa.text := if decide (path = cgroup_v2_path) then Some (bs "max" ++ [10]) else None.

Lemma cgroup_limit_spec_witness :
  let c := mp_set_cgroup_aware limited_group (Cgroup false 0) true in
  c = Cgroup true 1073741824 /\ mp_set_cgroup_aware unlimited_group c true = c.
Proof.
  intros c. assert (E : c = Cgroup true 1073741824).
  { apply (cgroup_limit_spec limited_group (Cgroup false 0) 1073741824); [unfold ULLONG_MAX; lia|reflexivity|reflexivity]. }
  split; [exact E|]. rewrite E. apply (cgroup_limit_spec unlimited_group (Cgroup true 1073741824) 1); [unfold ULLONG_MAX; lia|reflexivity|reflexivity].
Defined.
