(* ===== verification/Backing.v ===== *)
(** * Backing memory

    [sys_mem_alloc] and [sys_mem_free] of [src/cmem_sys.c] (the POSIX branch) over an
    interface for the address space; [mp_expand_pool] and the initial arena of
    [mp_create_custom_impl] ([src/cmem.c]) on top of the TLSF tier; the page arithmetic of
    [mp_madvise]. *)
From S2P Require Import Prelude Dll Header BlockHeap TlsfMap Tlsf TlsfPool Config Numa.
From Stdlib Require Import ZArith Lia.
From stdpp Require Import base option list gmap strings.
Open Scope Z_scope.

(** ** The address space

    [pages] are the mapped pages by number, [blocks] the live blocks of the C heap with
    their sizes.  The operations are the system calls and [malloc]; the laws are their
    documented behaviour.  A huge page is released only in whole huge pages. *)
Record page := PageState { accessible : bool; huge : bool }.

Definition covers (page_size a n k : Z) : bool := (a / page_size <=? k) && (k <? (a + n + page_size - 1) / page_size).

Class HostVm := {
  os : Type;
  sysconf_pagesize : Z;
  huge_size : Z;
  pages : os -> gmap Z page;
  blocks : os -> gmap Z Z;
  os_mmap : os -> Z -> bool -> option Z * os;          (* length, MAP_HUGETLB *)
  os_munmap : os -> Z -> Z -> os;
  os_mprotect_none : os -> Z -> Z -> os;
  os_madvise : os -> Z -> Z -> Z -> os;
  os_mbind : os -> Z -> Z -> Z -> os;
  os_malloc : os -> option Z -> Z -> option Z * os;    (* [Some a]: posix_memalign *)
  os_free : os -> Z -> os;
  page_size := if 0 <? sysconf_pagesize then sysconf_pagesize else 4096;
  page_size_pow2 : exists k, 0 <= k <= 30 /\ page_size = 2 ^ k;
  huge_size_pages : exists m, 0 < m /\ huge_size = m * page_size;
  mmap_law : forall o n hg r o', 0 < n -> os_mmap o n hg = (r, o') ->
    match r with
    | None => pages o' = pages o /\ blocks o' = blocks o
    | Some p => 0 < p /\ p + n + page_size < 2 ^ 64 /\ p mod (if hg then huge_size else page_size) = 0 /\
        blocks o' = blocks o /\
        let len := if hg then (n + huge_size - 1) / huge_size * huge_size else n in
        (forall k, covers page_size p len k = true -> pages o !! k = None) /\
        (forall k, pages o' !! k = if covers page_size p len k then Some (PageState true hg) else pages o !! k) /\
        (forall q m, blocks o !! q = Some m -> p + len <= q \/ q + m <= p)
    end;
  munmap_law : forall o p n, blocks (os_munmap o p n) = blocks o /\
    (0 < n -> p mod page_size = 0 ->
     (p mod huge_size = 0 /\ n mod huge_size = 0 \/
      forall k st, covers page_size p n k = true -> pages o !! k = Some st -> huge st = false) ->
     forall k, pages (os_munmap o p n) !! k = if covers page_size p n k then None else pages o !! k);
  munmap_refused : forall o p n k st, covers page_size p n k = true -> pages o !! k = Some st -> huge st = true ->
    n mod huge_size <> 0 -> pages (os_munmap o p n) = pages o;
  mprotect_law : forall o p n, blocks (os_mprotect_none o p n) = blocks o /\
    (p mod page_size = 0 -> (forall k, covers page_size p n k = true -> is_Some (pages o !! k)) ->
     forall k, pages (os_mprotect_none o p n) !! k =
       if covers page_size p n k then (fun st => PageState false (huge st)) <$> pages o !! k else pages o !! k);
  madvise_law : forall o p n a, pages (os_madvise o p n a) = pages o /\ blocks (os_madvise o p n a) = blocks o;
  mbind_law : forall o p n a, pages (os_mbind o p n a) = pages o /\ blocks (os_mbind o p n a) = blocks o;
  malloc_law : forall o al n r o', 0 < n -> os_malloc o al n = (r, o') -> pages o' = pages o /\
    match r with
    | None => blocks o' = blocks o
    | Some p => 0 < p /\ p + n < 2 ^ 64 /\ blocks o !! p = None /\ blocks o' = <[p := n]> (blocks o) /\
        (forall k, covers page_size p n k = true -> pages o !! k = None) /\
        (forall q m, blocks o !! q = Some m -> p + n <= q \/ q + m <= p)
    end;
  free_law : forall o p, pages (os_free o p) = pages o /\ blocks (os_free o p) = delete p (blocks o);
}.

Definition MADV_HUGEPAGE : Z := 14.

Section Backing.
Context `{HostVm}.

(** What [sys_mem_alloc] looks at in the pool; the allocator of the user, when there is one,
    works on the same address space. *)
Record backing := Backing {
  bflags : Z;
  has_custom_sys_alloc : bool;
  custom_alloc : option (os -> Z -> Z * os);
  custom_free : option (os -> Z -> Z -> os);
  numa_node : Z;
}.

Definition pool_has (pool : option backing) (bit : Z) : bool :=
  match pool with Some p => has_flag (bflags p) bit | None => false end.

Definition custom_of (pool : option backing) : option (os -> Z -> Z * os) :=
  match pool with Some p => if has_custom_sys_alloc p then custom_alloc p else None | None => None end.

(** [(size + page_sz - 1) & ~(page_sz - 1)] and what a guarded mapping takes. *)
Definition aligned_payload (size : Z) : Z := Z.land (u64 (size + page_size - 1)) (Z.lnot (page_size - 1)).
Definition total_map (size : Z) : Z := u64 (page_size + aligned_payload size + page_size).

Definition alloc_huge (o : os) (size : Z) : Z * os :=
  match os_mmap o size true with
  | (Some p, o) => (p, o)
  | (None, o) =>
      match os_mmap o size false with
      | (Some p, o) => (p, os_madvise o p size MADV_HUGEPAGE)
      | (None, o) => (NULL, o)
      end
  end.

Definition alloc_guarded (o : os) (size : Z) : Z * os :=
  match os_mmap o (total_map size) false with
  | (None, o) => (NULL, o)
  | (Some base, o) =>
      (base + page_size,
       os_mprotect_none (os_mprotect_none o base page_size) (base + page_size + aligned_payload size) page_size)
  end.

Definition alloc_plain (o : os) (size alignment : Z) : Z * os :=
  match os_malloc o (if 8 <? alignment then Some alignment else None) size with
  | (Some p, o) => (p, o)
  | (None, o) => (NULL, o)
  end.

(** The node the pages are bound to; [current] is [cmem_numa_current_node]. *)
Definition bind_node (p : backing) (current : Z) : option Z :=
  let node := if (numa_node p <? 0) && has_flag (bflags p) MP_FLAG_AUTO_NUMA then current else numa_node p in
  if (0 <=? node) && (node <? CMEM_MAX_NUMA_NODES) then Some node else None.

Definition sys_mem_alloc (pool : option backing) (current : Z) (o : os) (size alignment : Z) : Z * os :=
  match custom_of pool with
  | Some sys_alloc => sys_alloc o size
  | None =>
      let '(ptr, o) :=
        if pool_has pool MP_FLAG_HUGE_PAGES then alloc_huge o size
        else if pool_has pool MP_FLAG_GUARD_PAGES then alloc_guarded o size
        else alloc_plain o size alignment in
      match pool with
      | Some p => if ptr =? NULL then (ptr, o)
                  else (ptr, match bind_node p current with Some node => os_mbind o ptr size node | None => o end)
      | None => (ptr, o)
      end
  end.

(** [free] of something that is not a live block is undefined. *)
Definition heap_free (o : os) (p : Z) : outcome os :=
  if p =? NULL then Done o
  else match blocks o !! p with Some _ => Done (os_free o p) | None => Fault end.

Definition sys_mem_free (p : backing) (o : os) (ptr size : Z) : outcome os :=
  if has_flag (bflags p) MP_FLAG_STATIC_BUFFER then Done o
  else
    match (if has_custom_sys_alloc p then custom_free p else None) with
    | Some sys_free => Done (sys_free o ptr size)
    | None =>
        if has_flag (bflags p) MP_FLAG_HUGE_PAGES then Done (os_munmap o ptr size)
        else if has_flag (bflags p) MP_FLAG_GUARD_PAGES then Done (os_munmap o (ptr - page_size) (total_map size))
        else heap_free o ptr
    end.

(** ** Page arithmetic *)

Lemma page_size_pos : 0 < page_size <= 2 ^ 30.
Proof. destruct page_size_pow2 as (k & Hk & ->). split; [apply Z.pow_pos_nonneg; lia|apply Z.pow_le_mono_r; lia]. Qed.

Lemma aligned_payload_eq size : 0 <= size -> size + page_size <= 2 ^ 64 ->
  aligned_payload size = (size + page_size - 1) / page_size * page_size.
Proof.
  intros Hs Hf. unfold aligned_payload. pose proof page_size_pos. rewrite u64_small by lia. destruct page_size_pow2 as (k & Hk & E).
  rewrite E. replace (2 ^ k - 1) with (Z.ones k) by (rewrite Z.ones_equiv; lia). by rewrite land_lnot_ones by lia.
Qed.

Lemma aligned_payload_bounds size : 0 <= size -> size + page_size <= 2 ^ 64 ->
  size <= aligned_payload size < size + page_size /\ aligned_payload size mod page_size = 0.
Proof.
  intros Hs Hf. rewrite aligned_payload_eq by done. pose proof page_size_pos. split; [zdiv|]. apply Z.mod_mul. lia.
Qed.

Lemma total_map_eq size : 0 <= size -> size + 3 * page_size <= 2 ^ 64 -> total_map size = 2 * page_size + aligned_payload size.
Proof.
  intros Hs Hf. unfold total_map. pose proof page_size_pos. destruct (aligned_payload_bounds size) as [Hb _]; [done|lia|].
  rewrite u64_small; lia.
Qed.

Lemma covers_spec a n k : covers page_size a n k = true <-> a / page_size <= k < (a + n + page_size - 1) / page_size.
Proof. unfold covers. rewrite andb_true_iff, Z.leb_le, Z.ltb_lt. done. Qed.

(** Pages by the addresses they hold. *)
Lemma covers_aligned a n k : a mod page_size = 0 -> covers page_size a n k = true <-> a <= k * page_size < a + n.
Proof.
  intros Ha. rewrite covers_spec. pose proof page_size_pos. assert (a = a / page_size * page_size) by zdiv.
  set (q := a / page_size) in *. set (c := (a + n + page_size - 1) / page_size).
  assert (c * page_size <= a + n + page_size - 1 < c * page_size + page_size) by (subst c; zdiv).
  split; intros [Hl Hr]; split; nia.
Qed.

Lemma covers_byte a n x : a <= x < a + n -> covers page_size a n (x / page_size) = true.
Proof. intros Hx. pose proof page_size_pos. apply covers_spec. split; [apply Z.div_le_mono; lia|].
  assert ((x + 1 * page_size) / page_size = x / page_size + 1) by (apply Z.div_add; lia).
  assert ((x + 1 * page_size) / page_size <= (a + n + page_size - 1) / page_size) by (apply Z.div_le_mono; lia). lia.
Qed.

(** ** Allocation and release *)

(** The program may use every byte of [p, p + n). *)
Definition usable (o : os) (p n : Z) : Prop :=
  blocks o !! p = Some n \/ forall x, p <= x < p + n -> accessible <$> pages o !! (x / page_size) = Some true.

(** Nothing of [p, p + n) was in use. *)
Definition unused (o : os) (p n : Z) : Prop :=
  (forall x, p <= x < p + n -> pages o !! (x / page_size) = None) /\
  forall q m, blocks o !! q = Some m -> p + n <= q \/ q + m <= p.

Definition same_space (o o' : os) : Prop := pages o' = pages o /\ blocks o' = blocks o.

Lemma alloc_plain_spec o size alignment p o' : 0 < size -> alloc_plain o size alignment = (p, o') ->
  (p = NULL /\ same_space o o') \/
  (0 < p /\ p + size < 2 ^ 64 /\ unused o p size /\ pages o' = pages o /\ blocks o !! p = None /\ blocks o' = <[p := size]> (blocks o)).
Proof.
  intros Hs. unfold alloc_plain. destruct (os_malloc o _ size) as [r o1] eqn:E. apply malloc_law in E; [|done].
  destruct E as [Hp E]. destruct r as [q|]; intros [= <- <-]; [right|by left].
  destruct E as (? & ? & ? & ? & Hf & ?). split_and!; try done. split; [|done]. intros x Hx. apply Hf. by apply covers_byte.
Qed.

(** What a mapping leaves behind. *)
Definition mapping (o o' : os) (p n : Z) (st : page) : Prop :=
  0 < p /\ p + n + page_size < 2 ^ 64 /\ p mod page_size = 0 /\ blocks o' = blocks o /\
  (forall k, covers page_size p n k = true -> pages o !! k = None) /\
  (forall k, pages o' !! k = if covers page_size p n k then Some st else pages o !! k) /\
  (forall q m, blocks o !! q = Some m -> p + n <= q \/ q + m <= p).

Lemma huge_size_pos : 0 < huge_size /\ huge_size mod page_size = 0.
Proof. destruct huge_size_pages as (m & Hm & ->). pose proof page_size_pos. split; [nia|]. apply Z.mod_mul. lia. Qed.

Lemma huge_aligned p : p mod huge_size = 0 -> p mod page_size = 0.
Proof.
  destruct huge_size_pages as (m & Hm & E). rewrite E. pose proof page_size_pos. intros Hp.
  assert (p = m * page_size * (p / (m * page_size))) by (apply Z_div_exact_full_2; nia).
  replace p with (m * (p / (m * page_size)) * page_size) by lia. apply Z.mod_mul. lia.
Qed.

Lemma round_exact n h : 0 < h -> n mod h = 0 -> (n + h - 1) / h * h = n.
Proof.
  intros Hh Hn. assert (n = n / h * h) as E by (rewrite Z.mul_comm; apply Z_div_exact_full_2; lia).
  replace (n + h - 1) with (n / h * h + (h - 1)) by lia. rewrite Z.div_add_l, (Z.div_small (h - 1)) by lia. lia.
Qed.

Lemma mmap_mapping o n r o' : 0 < n -> os_mmap o n false = (r, o') ->
  match r with None => same_space o o' | Some p => mapping o o' p n (PageState true false) end.
Proof.
  intros Hn E. apply mmap_law in E; [|done]. destruct r; [|done]. destruct E as (? & ? & ? & ? & ? & ? & ?). by split_and!.
Qed.

Lemma mmap_huge_mapping o n r o' : 0 < n -> n mod huge_size = 0 -> os_mmap o n true = (r, o') ->
  match r with None => same_space o o' | Some p => mapping o o' p n (PageState true true) /\ p mod huge_size = 0 end.
Proof.
  intros Hn Hm E. apply mmap_law in E; [|done]. destruct r; [|done]. destruct E as (? & ? & ? & ? & Hlen).
  assert ((n + huge_size - 1) / huge_size * huge_size = n) as Er by (by apply round_exact; [apply huge_size_pos|]).
  cbv zeta in Hlen. rewrite Er in Hlen. destruct Hlen as (? & ? & ?). split; [|done]. split_and!; try done. by apply huge_aligned.
Qed.

Lemma alloc_huge_spec o size p o' : 0 < size -> size mod huge_size = 0 -> alloc_huge o size = (p, o') ->
  (p = NULL /\ same_space o o') \/
  exists hg, mapping o o' p size (PageState true hg) /\ (hg = true -> p mod huge_size = 0).
Proof.
  intros Hs Hm. unfold alloc_huge. destruct (os_mmap o size true) as [r o1] eqn:E. apply mmap_huge_mapping in E; [|done|done].
  destruct r as [q|]; [intros [= <- <-]; right; exists true; split; [apply E|intros _; apply E]|].
  destruct (os_mmap o1 size false) as [r o2] eqn:E2. apply mmap_mapping in E2; [|done]. destruct E as [Ep Eb].
  destruct r as [q|]; intros [= <- <-].
  - right. exists false. split; [|done]. destruct E2 as (? & ? & ? & Eb2 & Hf & Hp & Hb). rewrite Ep in Hf, Hp. rewrite Eb in Eb2, Hb.
    destruct (madvise_law o2 q size MADV_HUGEPAGE) as [Ap Ab]. split_and!; try done; [by rewrite Ab|]. intros k. by rewrite Ap.
  - left. split; [done|]. destruct E2. split; congruence.
Qed.

(** A guarded block: a page that traps on either side of the whole pages it fills. *)
Definition guarded (o o' : os) (p size : Z) : Prop :=
  page_size <= p /\ p + aligned_payload size + 2 * page_size < 2 ^ 64 /\ p mod page_size = 0 /\ blocks o' = blocks o /\
  (forall k, covers page_size (p - page_size) (total_map size) k = true -> pages o !! k = None) /\
  (forall k, pages o' !! k =
     if covers page_size (p - page_size) (total_map size) k
     then Some (PageState (covers page_size p (aligned_payload size) k) false) else pages o !! k) /\
  (forall q m, blocks o !! q = Some m -> p - page_size + total_map size <= q \/ q + m <= p - page_size).

Lemma mod_sub_page p : p mod page_size = 0 -> (p - page_size) mod page_size = 0.
Proof. intros Hp. pose proof page_size_pos. rewrite <- (Z_mod_plus_full (p - page_size) 1). by replace (p - page_size + 1 * page_size) with p by lia. Qed.

Lemma mod_add_page p n : p mod page_size = 0 -> n mod page_size = 0 -> (p + n) mod page_size = 0.
Proof. intros Hp Hn. pose proof page_size_pos. by rewrite Z.add_mod, Hp, Hn by lia. Qed.

Lemma covers_bool a n k : a mod page_size = 0 -> covers page_size a n k = bool_decide (a <= k * page_size < a + n).
Proof. intros Ha. apply eq_true_iff_eq. rewrite bool_decide_eq_true. by apply covers_aligned. Qed.

Lemma alloc_guarded_spec o size p o' : 0 < size -> size + 3 * page_size <= 2 ^ 64 -> alloc_guarded o size = (p, o') ->
  (p = NULL /\ same_space o o') \/ guarded o o' p size.
Proof.
  intros Hs Hf. unfold alloc_guarded. pose proof page_size_pos as HP. pose proof (total_map_eq size ltac:(lia) Hf) as Ht.
  destruct (aligned_payload_bounds size) as [Hb Hm]; [lia|lia|].
  destruct (os_mmap o (total_map size) false) as [r o1] eqn:E. apply mmap_mapping in E; [|lia].
  destruct r as [base|]; [|intros [= <- <-]; by left].
  destruct E as (Hp & Hw & Ha & Hbl & Hfree & Hpg & Hdis). set (o2 := os_mprotect_none o1 base page_size).
  set (guard := base + page_size + aligned_payload size). intros [= <- <-]. right.
  assert (Ha2 : (base + page_size) mod page_size = 0) by (apply mod_add_page; [done|by apply Z_mod_same_full]).
  assert (Hg : guard mod page_size = 0) by (by apply mod_add_page).
  destruct (mprotect_law o1 base page_size) as [B2 P2]. specialize (P2 Ha). fold o2 in B2, P2. destruct (mprotect_law o2 guard page_size) as [B3 P3]. specialize (P3 Hg).
  assert (forall k, covers page_size base page_size k = true -> is_Some (pages o1 !! k)) as S2.
  { intros k Hk. rewrite Hpg. rewrite (covers_bool base _ _ Ha) in Hk. rewrite (covers_bool base _ _ Ha). apply bool_decide_eq_true in Hk. by rewrite bool_decide_true by lia. }
  specialize (P2 S2).
  assert (forall k, covers page_size guard page_size k = true -> is_Some (pages o2 !! k)) as S3.
  { intros k Hk. rewrite P2, Hpg, !(covers_bool base _ _ Ha). rewrite (covers_bool _ _ _ Hg) in Hk. apply bool_decide_eq_true in Hk.
    rewrite bool_decide_false by lia. by rewrite bool_decide_true by lia. }
  specialize (P3 S3). unfold guarded. replace (base + page_size - page_size) with base by lia.
  split_and!; [lia|lia|done|congruence|done| |done].
  intros k. rewrite P3, P2, Hpg, !(covers_bool base _ _ Ha), (covers_bool _ _ _ Ha2), (covers_bool _ _ _ Hg).
  rewrite Ht. subst guard. set (P := page_size) in *. set (A := aligned_payload size) in *.
  repeat case_bool_decide; cbn; try done; exfalso; lia.
Qed.

Lemma guarded_unused o o' p size : size + 3 * page_size <= 2 ^ 64 -> 0 < size -> guarded o o' p size -> unused o p size.
Proof.
  intros Hf Hs (H1 & _ & H3 & _ & H5 & _ & H7). pose proof page_size_pos. pose proof (total_map_eq size ltac:(lia) Hf).
  destruct (aligned_payload_bounds size) as [Hb _]; [lia|lia|]. split.
  - intros x Hx. apply H5. pose proof (mod_sub_page p H3). apply covers_aligned; [done|].
    assert (x - page_size < x / page_size * page_size <= x) by zdiv. lia.
  - intros q m Hq. destruct (H7 q m Hq); lia.
Qed.

Lemma guarded_usable o o' p size : size + 3 * page_size <= 2 ^ 64 -> 0 < size -> guarded o o' p size -> usable o' p size.
Proof.
  intros Hf Hs (H1 & _ & H3 & _ & _ & H6 & _). right. intros x Hx. pose proof page_size_pos. pose proof (total_map_eq size ltac:(lia) Hf).
  destruct (aligned_payload_bounds size) as [Hb _]; [lia|lia|]. rewrite H6, !covers_bool by (done || by apply mod_sub_page).
  assert (x - page_size < x / page_size * page_size <= x) by zdiv. assert (p <= x / page_size * page_size).
  { assert (p = p / page_size * page_size) as -> by (rewrite Z.mul_comm; apply Z_div_exact_full_2; lia).
    apply Z.mul_le_mono_nonneg_r; [lia|]. apply Z.div_le_mono; lia. }
  rewrite !bool_decide_true by lia. done.
Qed.

Lemma guarded_free o o' p size : size + 3 * page_size <= 2 ^ 64 -> 0 < size -> guarded o o' p size ->
  pages (os_munmap o' (p - page_size) (total_map size)) = pages o /\ blocks (os_munmap o' (p - page_size) (total_map size)) = blocks o.
Proof.
  intros Hf Hs (H1 & _ & H3 & H4 & H5 & H6 & _). pose proof page_size_pos. pose proof (total_map_eq size ltac:(lia) Hf).
  destruct (aligned_payload_bounds size) as [Hb _]; [lia|lia|].
  destruct (munmap_law o' (p - page_size) (total_map size)) as [B P]. split; [|congruence].
  apply map_eq. intros k. rewrite P; [|lia|by apply mod_sub_page|].
  - rewrite H6. destruct (covers _ _ _ k) eqn:E; [|done]. by rewrite H5.
  - right. intros j st Hj. rewrite H6, Hj. by intros [= <-].
Qed.

Lemma mapping_free o o' p n st : 0 < n -> mapping o o' p n st -> huge st = false \/ p mod huge_size = 0 /\ n mod huge_size = 0 ->
  same_space o (os_munmap o' p n).
Proof.
  intros Hn (_ & _ & Ha & Hb & Hf & Hp & _) Hh. destruct (munmap_law o' p n) as [B P]. split; [|congruence].
  apply map_eq. intros k. rewrite P; [|done|done|].
  - rewrite Hp. destruct (covers _ p n k) eqn:E; [|done]. by rewrite Hf.
  - destruct Hh as [Hh|Hh]; [right|by left]. intros j s Hj. rewrite Hp, Hj. by intros [= <-].
Qed.

Lemma mapping_unused o o' p n st : mapping o o' p n st -> unused o p n.
Proof. intros (_ & _ & _ & _ & Hf & _ & Hd). split; [|done]. intros x Hx. apply Hf. by apply covers_byte. Qed.

Lemma mapping_usable o o' p n hg : mapping o o' p n (PageState true hg) -> usable o' p n.
Proof. intros (_ & _ & _ & _ & _ & Hp & _). right. intros x Hx. rewrite Hp, covers_byte by done. done. Qed.

Lemma same_space_refl o : same_space o o.
Proof. done. Qed.

(** The binding to a node moves no page. *)
Lemma bind_same p current o ptr size :
  same_space o (match bind_node p current with Some node => os_mbind o ptr size node | None => o end).
Proof. destruct (bind_node p current); [apply mbind_law|done]. Qed.

Lemma usable_same o o' p n : same_space o o' -> usable o p n -> usable o' p n.
Proof. intros [Hp Hb]. unfold usable. by rewrite Hp, Hb. Qed.

(** How [sys_mem_alloc] got its block. *)
Inductive obtained (pool : backing) (o o' : os) (p size : Z) : Prop :=
| GotMapping hg : has_flag (bflags pool) MP_FLAG_HUGE_PAGES = true -> mapping o o' p size (PageState true hg) ->
    (hg = true -> p mod huge_size = 0 /\ size mod huge_size = 0) -> obtained pool o o' p size
| GotGuarded : has_flag (bflags pool) MP_FLAG_HUGE_PAGES = false -> has_flag (bflags pool) MP_FLAG_GUARD_PAGES = true ->
    guarded o o' p size -> obtained pool o o' p size
| GotBlock : has_flag (bflags pool) MP_FLAG_HUGE_PAGES = false -> has_flag (bflags pool) MP_FLAG_GUARD_PAGES = false ->
    0 < p -> p + size < 2 ^ 64 -> unused o p size -> blocks o !! p = None -> pages o' = pages o ->
    blocks o' = <[p := size]> (blocks o) -> obtained pool o o' p size.

Lemma mapping_same o o1 o2 p n st : mapping o o1 p n st -> same_space o1 o2 -> mapping o o2 p n st.
Proof. intros (? & ? & ? & ? & ? & ? & ?) [Hp Hb]. unfold mapping. rewrite Hp, Hb. by split_and!. Qed.

Lemma obtained_same pool o o1 o2 p n : obtained pool o o1 p n -> same_space o1 o2 -> obtained pool o o2 p n.
Proof.
  intros [hg ? Hm ?|? ? (? & ? & ? & ? & ? & ? & ?)|? ? ? ? ? ? Hp1 Hb1] [Hp Hb].
  - eapply GotMapping; [done| |done]. by eapply mapping_same.
  - apply GotGuarded; [done|done|]. unfold guarded. rewrite Hp, Hb. by split_and!.
  - apply GotBlock; congruence || done.
Qed.

Lemma sys_mem_alloc_cases pool current o size alignment p o' :
  has_custom_sys_alloc pool = false -> 0 < size -> size + 3 * page_size <= 2 ^ 64 ->
  (has_flag (bflags pool) MP_FLAG_HUGE_PAGES = true -> size mod huge_size = 0) ->
  sys_mem_alloc (Some pool) current o size alignment = (p, o') ->
  (p = NULL /\ same_space o o') \/ (p <> NULL /\ obtained pool o o' p size).
Proof.
  intros Hc Hs Hf Hh. unfold sys_mem_alloc, custom_of, pool_has. rewrite Hc. pose proof page_size_pos.
  destruct (if has_flag (bflags pool) MP_FLAG_HUGE_PAGES then _ else _) as [q o1] eqn:E.
  assert ((q = NULL /\ same_space o o1) \/ (0 < q /\ obtained pool o o1 q size)) as Hq.
  { destruct (has_flag (bflags pool) MP_FLAG_HUGE_PAGES) eqn:Fh.
    - apply alloc_huge_spec in E as [?|(hg & Hm & Ha)]; [by left|right|done|by apply Hh]. split; [apply Hm|].
      apply (GotMapping _ _ _ _ _ hg); [done|done|]. intros Hg. split; [by apply Ha|by apply Hh].
    - destruct (has_flag (bflags pool) MP_FLAG_GUARD_PAGES) eqn:Fg.
      + apply alloc_guarded_spec in E as [?|Hg]; [by left|right|done|done]. split; [destruct Hg; lia|]. by apply GotGuarded.
      + apply alloc_plain_spec in E as [?|(? & ? & ? & ? & ? & ?)]; [by left|right|done]. split; [done|]. by apply GotBlock. }
  destruct (Z.eqb_spec q NULL) as [->|Hn]; intros [= <- <-].
  - left. destruct Hq as [[_ ?]|[? _]]; [done|unfold NULL in *; lia].
  - right. split; [done|]. destruct Hq as [[? _]|[_ Ho]]; [done|]. eapply obtained_same; [done|]. apply bind_same.
Qed.

Lemma obtained_unused pool o o' p size : 0 < size -> size + 3 * page_size <= 2 ^ 64 -> obtained pool o o' p size ->
  unused o p size /\ usable o' p size.
Proof.
  intros Hs Hf [hg ? Hm ?|? ? Hg|? ? ? ? Hu Hn Hp Hb].
  - split; [by eapply mapping_unused|by eapply mapping_usable].
  - split; [by eapply guarded_unused|by eapply guarded_usable].
  - split; [done|]. left. rewrite Hb. by rewrite lookup_insert_eq.
Qed.

Lemma obtained_free pool o o' p size : has_custom_sys_alloc pool = false -> has_flag (bflags pool) MP_FLAG_STATIC_BUFFER = false ->
  0 < size -> size + 3 * page_size <= 2 ^ 64 -> p <> NULL -> obtained pool o o' p size ->
  exists o2, sys_mem_free pool o' p size = Done o2 /\ same_space o o2.
Proof.
  intros Hc Hst Hs Hf Hp [hg F1 Hm Hh|F1 F2 Hg|F1 F2 ? ? ? Hn Hpg Hb]; unfold sys_mem_free; rewrite Hst, Hc, ?F1, ?F2.
  - eexists. split; [done|]. eapply mapping_free; [done|exact Hm|]. destruct hg; [right; by apply Hh|by left].
  - eexists. split; [done|]. by eapply guarded_free.
  - unfold heap_free. rewrite (proj2 (Z.eqb_neq p NULL)), Hb, lookup_insert_eq by done. eexists. split; [done|].
    destruct (free_law o' p) as [Fp Fb]. split; [congruence|]. rewrite Fb, Hb. by apply delete_insert_id.
Qed.

(** C27: memory obtained with [sys_mem_alloc] was unused before and is wholly usable after,
    whichever way it was obtained (huge pages, guard pages or the C heap), and
    [sys_mem_free] with the same size and flags gives back exactly that: the mapped pages and
    the heap blocks are what they were.  With huge pages the size must be a multiple of the
    huge page. *)
Theorem backing_roundtrip pool current o size alignment p o' :
  has_custom_sys_alloc pool = false -> has_flag (bflags pool) MP_FLAG_STATIC_BUFFER = false ->
  0 < size -> size + 3 * page_size <= 2 ^ 64 ->
  (has_flag (bflags pool) MP_FLAG_HUGE_PAGES = true -> size mod huge_size = 0) ->
  sys_mem_alloc (Some pool) current o size alignment = (p, o') ->
  (p = NULL /\ same_space o o') \/
  (unused o p size /\ usable o' p size /\
   exists o2, sys_mem_free pool o' p size = Done o2 /\ same_space o o2).
Proof.
  intros Hc Hst Hs Hf Hh E. apply sys_mem_alloc_cases in E as [?|[Hn Ho]]; try done; [by left|right].
  destruct (obtained_unused _ _ _ _ _ Hs Hf Ho) as [Hu Hus]. split; [done|]. split; [done|]. by eapply obtained_free.
Qed.

(** An access to the byte at [x] traps: its page is mapped without permissions. *)
Definition traps (o : os) (x : Z) : Prop := accessible <$> pages o !! (x / page_size) = Some false.

(** With guard pages an access just below the block traps, and one above it from the next
    page boundary on; up to that boundary an overrun goes unnoticed. *)
Theorem guard_pages_trap pool current o size alignment p o' x :
  has_custom_sys_alloc pool = false -> has_flag (bflags pool) MP_FLAG_HUGE_PAGES = false -> has_flag (bflags pool) MP_FLAG_GUARD_PAGES = true ->
  0 < size -> size + 3 * page_size <= 2 ^ 64 ->
  sys_mem_alloc (Some pool) current o size alignment = (p, o') -> p <> NULL ->
  let top := p + (size + page_size - 1) / page_size * page_size in
  (p - page_size <= x < p \/ top <= x < top + page_size -> traps o' x) /\
  (p + size <= x < top -> accessible <$> pages o' !! (x / page_size) = Some true).
Proof.
  intros Hc F1 F2 Hs Hf E Hn top. apply sys_mem_alloc_cases in E as [[? _]|[_ Ho]]; try done; [|congruence].
  destruct Ho as [? ? _ _|_ _ Hg|? ? _ _ _ _ _]; [congruence| |congruence]. destruct Hg as (H1 & _ & H3 & _ & _ & H6 & _).
  pose proof page_size_pos. pose proof (total_map_eq size ltac:(lia) Hf) as Ht. destruct (aligned_payload_bounds size) as [Hb Hm]; [lia|lia|].
  assert (top = p + aligned_payload size) as Et by (subst top; rewrite aligned_payload_eq by lia; done).
  assert (forall a, a mod page_size = 0 -> a <= x -> a <= x / page_size * page_size) as Hfl.
  { intros a Ha Hx. rewrite (Z_div_exact_full_2 a page_size), Z.mul_comm by lia. apply Z.mul_le_mono_nonneg_r; [lia|]. apply Z.div_le_mono; lia. }
  assert (x - page_size < x / page_size * page_size <= x) as Hx by zdiv.
  pose proof (Hfl p H3). pose proof (Hfl (p - page_size) (mod_sub_page p H3)). pose proof (Hfl top ltac:(rewrite Et; by apply mod_add_page)).
  unfold traps. rewrite H6, !covers_bool by (done || by apply mod_sub_page). split.
  - intros Hr. rewrite bool_decide_true by lia. cbn. f_equal. apply bool_decide_eq_false. lia.
  - intros Hr. rewrite !bool_decide_true by lia. done.
Qed.

(** ** Releases that do not match *)

(** The OS tier of the front end maps header and canary with the payload but releases with
    the payload's size alone: the pages of the difference stay mapped. *)
Theorem short_release_leaks pool o o' p total size :
  has_custom_sys_alloc pool = false -> has_flag (bflags pool) MP_FLAG_STATIC_BUFFER = false ->
  has_flag (bflags pool) MP_FLAG_HUGE_PAGES = false -> has_flag (bflags pool) MP_FLAG_GUARD_PAGES = true ->
  0 < size <= total -> total + 3 * page_size <= 2 ^ 64 -> obtained pool o o' p total ->
  exists o2, sys_mem_free pool o' p size = Done o2 /\
    forall k, pages o2 !! k =
      if covers page_size (p - page_size + total_map size) (aligned_payload total - aligned_payload size) k then pages o' !! k else pages o !! k.
Proof.
  intros Hc Hst F1 F2 Hs Hf Ho. unfold sys_mem_free. rewrite Hst, Hc, F1, F2. eexists. split; [done|].
  destruct Ho as [? ? _ _|_ _ Hg|? ? _ _ _ _ _]; [congruence| |congruence]. destruct Hg as (H1 & _ & H3 & _ & H5 & H6 & _).
  pose proof page_size_pos. pose proof (total_map_eq total ltac:(lia) Hf) as Ht. pose proof (total_map_eq size ltac:(lia) ltac:(lia)) as Hts.
  destruct (aligned_payload_bounds total) as [Hb Hm]; [lia|lia|]. destruct (aligned_payload_bounds size) as [Hbs Hms]; [lia|lia|].
  assert (aligned_payload size <= aligned_payload total) as Hle.
  { rewrite !aligned_payload_eq by lia. apply Z.mul_le_mono_nonneg_r; [lia|]. apply Z.div_le_mono; lia. }
  pose proof (mod_sub_page p H3) as Ha. assert (Hat : (p - page_size + total_map size) mod page_size = 0).
  { apply mod_add_page; [done|]. rewrite Hts. apply mod_add_page; [|done]. apply Z.mod_mul. lia. }
  destruct (munmap_law o' (p - page_size) (total_map size)) as [_ P]. intros k. rewrite P; [|lia|done|].
  - specialize (H5 k). specialize (H6 k). rewrite !(covers_bool (p - page_size) _ _ Ha) in *. rewrite (covers_bool _ _ _ Hat).
    repeat case_bool_decide; try lia; try done; [by rewrite H5|..].
  - right. intros j st Hj. rewrite H6, (covers_bool (p - page_size) _ _ Ha). rewrite (covers_bool (p - page_size) _ _ Ha) in Hj.
    apply bool_decide_eq_true in Hj. rewrite bool_decide_true by lia. by intros [= <-].
Qed.

(** A huge-page mapping whose size is not a multiple of the huge page, such as every TLSF
    arena, is not released at all: [munmap] refuses the length. *)
Theorem huge_release_refused pool current o p o1 size alignment :
  has_custom_sys_alloc pool = false -> has_flag (bflags pool) MP_FLAG_STATIC_BUFFER = false -> has_flag (bflags pool) MP_FLAG_HUGE_PAGES = true ->
  0 < size -> size mod huge_size <> 0 -> os_mmap o size true = (Some p, o1) ->
  exists o' o2, sys_mem_alloc (Some pool) current o size alignment = (p, o') /\ sys_mem_free pool o' p size = Done o2 /\ pages o2 = pages o' /\
    pages o !! (p / page_size) = None /\ is_Some (pages o2 !! (p / page_size)).
Proof.
  intros Hc Hst F1 Hs Hm E. unfold sys_mem_alloc, sys_mem_free, custom_of, pool_has, alloc_huge. rewrite Hc, Hst, F1, E.
  apply mmap_law in E; [|done]. destruct E as (Hp & _ & _ & _ & Hf & Hpg & _). rewrite (proj2 (Z.eqb_neq p NULL)) by (unfold NULL; lia).
  destruct (bind_same pool current o1 p size) as [Bp _]. set (o' := match bind_node pool current with Some _ => _ | None => _ end) in *.
  pose proof huge_size_pos as [Hh _]. assert (size <= (size + huge_size - 1) / huge_size * huge_size) as Hround by zdiv.
  assert (covers page_size p ((size + huge_size - 1) / huge_size * huge_size) (p / page_size) = true) as Hc1 by (apply covers_byte; lia).
  assert (pages o' !! (p / page_size) = Some (PageState true true)) as Hst1 by (rewrite Bp, Hpg, Hc1; done).
  pose proof (munmap_refused o' p size _ _ ltac:(apply (covers_byte p size p); lia) Hst1 eq_refl Hm) as Hr.
  eexists o', _. split; [done|]. split; [done|]. rewrite Hr. split; [done|]. split; [by apply Hf|by eexists].
Qed.

(** A reload of CMEM_CONF that turns guard pages on: the blocks taken from the C heap before
    are no longer given back to it; [sys_mem_free] unmaps the pages around them instead. *)
Theorem reload_guard_mismatch pool env gen flags gen' o p size o1 current alignment :
  has_custom_sys_alloc pool = false -> has_flag (bflags pool) MP_FLAG_STATIC_BUFFER = false ->
  has_flag (bflags pool) MP_FLAG_HUGE_PAGES = false -> has_flag (bflags pool) MP_FLAG_GUARD_PAGES = false ->
  mp_reparse_env_flags env (bflags pool) gen = (flags, gen') ->
  requested env 8 = true -> requested env 4 = false -> requested env 10 = false ->
  0 < size -> size + 3 * page_size <= 2 ^ 64 ->
  sys_mem_alloc (Some pool) current o size alignment = (p, o1) -> p <> NULL ->
  let pool' := Backing flags (has_custom_sys_alloc pool) (custom_alloc pool) (custom_free pool) (numa_node pool) in
  exists o2, sys_mem_free pool' o1 p size = Done o2 /\ blocks o2 !! p = Some size /\ o2 = os_munmap o1 (p - page_size) (total_map size).
Proof.
  intros Hc Hst F1 F2 Hr R8 R4 R10 Hs Hf E Hn pool'. apply sys_mem_alloc_cases in E as [[? _]|[_ Ho]]; try done; [|congruence].
  destruct Ho as [? ? _ _|? ? _|_ _ _ _ _ _ _ Hb]; [congruence|congruence|].
  assert (flags = mp_parse_env_flags env (bflags pool)) as Efl.
  { unfold mp_reparse_env_flags in Hr. destruct (Z.eqb_spec (mp_parse_env_flags env (bflags pool)) (bflags pool)); injection Hr; congruence. }
  unfold MP_FLAG_STATIC_BUFFER, MP_FLAG_HUGE_PAGES, MP_FLAG_GUARD_PAGES in *. rewrite !has_flag_bit in * by lia.
  unfold sys_mem_free, MP_FLAG_STATIC_BUFFER, MP_FLAG_HUGE_PAGES, MP_FLAG_GUARD_PAGES. subst pool'. cbn [bflags has_custom_sys_alloc custom_free].
  rewrite !has_flag_bit, Efl, !parse_env_testbit, Hst, F1, F2, R4, R8, R10, Hc by lia. cbn [orb].
  eexists. split; [done|]. split; [|done]. rewrite (proj1 (munmap_law o1 _ _)), Hb. by rewrite lookup_insert_eq.
Qed.

(** A request within a page of 2^64: the rounding wraps, and the pointer returned is that of
    the second guard page. *)
Theorem guard_size_wraps pool current o size alignment p o' :
  has_custom_sys_alloc pool = false -> has_flag (bflags pool) MP_FLAG_HUGE_PAGES = false -> has_flag (bflags pool) MP_FLAG_GUARD_PAGES = true ->
  2 ^ 64 - page_size < size < 2 ^ 64 -> sys_mem_alloc (Some pool) current o size alignment = (p, o') -> p <> NULL -> traps o' p.
Proof.
  intros Hc F1 F2 Hs E Hn. unfold sys_mem_alloc, custom_of, pool_has, alloc_guarded in E. rewrite Hc, F1, F2 in E. pose proof page_size_pos as HP.
  assert (aligned_payload size = 0) as Ep.
  { unfold aligned_payload, u64. destruct page_size_pow2 as (k & Hk & Ek).
    replace (size + page_size - 1) with (size + page_size - 1 - 2 ^ 64 + 1 * 2 ^ 64) by lia. rewrite Z.mod_add, Z.mod_small by lia.
    set (r := size + page_size - 1 - 2 ^ 64). assert (0 <= r < 2 ^ k) by lia. rewrite Ek. replace (2 ^ k - 1) with (Z.ones k) by (rewrite Z.ones_equiv; lia).
    rewrite land_lnot_ones, Z.div_small by lia. done. }
  unfold total_map in E. rewrite Ep in E. rewrite u64_small in E by lia.
  destruct (os_mmap o _ false) as [r o1] eqn:Em. apply mmap_mapping in Em; [|lia]. destruct r as [base|]; [|injection E; congruence].
  destruct Em as (Hb & _ & Ha & _ & _ & Hpg & _). rewrite (proj2 (Z.eqb_neq _ NULL)) in E by (unfold NULL; lia).
  set (o2 := os_mprotect_none o1 base page_size) in *. set (o3 := os_mprotect_none o2 _ page_size) in *.
  destruct (bind_same pool current o3 (base + page_size) size) as [Bp _]. injection E as <- <-. unfold traps. rewrite Bp.
  assert (Hg : (base + page_size) mod page_size = 0) by (apply mod_add_page; [done|by apply Z_mod_same_full]).
  destruct (mprotect_law o1 base page_size) as [_ P2]. fold o2 in P2. specialize (P2 Ha).
  assert (forall k, pages o2 !! k = if covers page_size base page_size k then Some (PageState false false) else
            if covers page_size base (2 * page_size) k then Some (PageState true false) else pages o !! k) as P2'.
  { intros k. rewrite P2.
    - rewrite Hpg. replace (page_size + 0 + page_size) with (2 * page_size) by lia. rewrite !(covers_bool base _ _ Ha). repeat case_bool_decide; done || lia.
    - intros j. rewrite Hpg, !(covers_bool base _ _ Ha), bool_decide_eq_true. intros. by rewrite bool_decide_true by lia. }
  destruct (mprotect_law o2 (base + page_size + 0) page_size) as [_ P3]. fold o3 in P3. rewrite Z.add_0_r in P3. specialize (P3 Hg).
  rewrite P3.
  - rewrite (covers_byte (base + page_size) page_size) by lia. rewrite P2', !(covers_bool base _ _ Ha).
    assert ((base + page_size) / page_size * page_size = base + page_size) as -> by (rewrite Z.mul_comm; symmetry; apply Z_div_exact_full_2; lia).
    rewrite bool_decide_false, bool_decide_true by lia. done.
  - intros k. rewrite (covers_bool _ _ _ Hg), bool_decide_eq_true, P2', !(covers_bool base _ _ Ha). intros.
    rewrite bool_decide_false, bool_decide_true by lia. done.
Qed.

(** ** Page advice and limits *)

(** [mp_madvise]: [None] when there is nothing to advise. *)
Definition advised_range (addr length : Z) : option (Z * Z) :=
  let aligned_start := Z.land (u64 (addr + page_size - 1)) (Z.lnot (page_size - 1)) in
  let aligned_end := Z.land (u64 (addr + length)) (Z.lnot (page_size - 1)) in
  if aligned_end <=? aligned_start then None else Some (aligned_start, aligned_end - aligned_start).

Definition mp_madvise (o : os) (addr length advice : Z) : outcome os :=
  if (addr =? NULL) || (length =? 0) then Err
  else match advised_range addr length with
       | None => Done o
       | Some (start, len) => Done (os_madvise o start len advice)
       end.

Lemma page_floor x : Z.land x (Z.lnot (page_size - 1)) = x / page_size * page_size.
Proof.
  destruct page_size_pow2 as (k & Hk & ->). replace (2 ^ k - 1) with (Z.ones k) by (rewrite Z.ones_equiv; lia).
  by rewrite land_lnot_ones by lia.
Qed.

(** The pages advised are exactly those that lie wholly inside the range: it is rounded in,
    not out, and a range inside one page is no advice at all. *)
Theorem madvise_rounds_in addr len : 0 < addr -> 0 < len -> addr + len + page_size <= 2 ^ 64 ->
  match advised_range addr len with
  | Some (start, n) => 0 < n /\ start mod page_size = 0 /\
      forall k, covers page_size start n k = true <-> addr <= k * page_size /\ (k + 1) * page_size <= addr + len
  | None => forall k, ~ (addr <= k * page_size /\ (k + 1) * page_size <= addr + len)
  end.
Proof.
  intros Ha Hl Hf. pose proof page_size_pos. unfold advised_range. rewrite !u64_small, !page_floor by lia.
  set (s := (addr + page_size - 1) / page_size). set (e := (addr + len) / page_size).
  assert (s * page_size <= addr + page_size - 1 < s * page_size + page_size) by (subst s; zdiv).
  assert (e * page_size <= addr + len < e * page_size + page_size) by (subst e; zdiv).
  assert (forall k, addr <= k * page_size /\ (k + 1) * page_size <= addr + len <-> s <= k < e) as Hk by (intros k; split; intros; nia).
  destruct (Z.leb_spec (e * page_size) (s * page_size)); [intros k; rewrite Hk; nia|].
  assert (Hm : (s * page_size) mod page_size = 0) by (apply Z.mod_mul; lia).
  split; [lia|]. split; [done|]. intros k. rewrite covers_aligned, Hk by done. split; intros; nia.
Qed.

End Backing.

(** [mp_can_expand] and [mp_get_expandable_size], in [size_t]. *)
Definition mp_can_expand (flags : Z) : bool := negb (has_flag flags MP_FLAG_STATIC_BUFFER).

Definition mp_get_expandable_size (max_memory_limit total_pool_size : Z) : Z :=
  if 0 <? max_memory_limit then u64 (max_memory_limit - total_pool_size) else 0.

(** Once the pool has outgrown the limit the difference wraps: almost 2^64 bytes. *)
Theorem expandable_size_spec limit total : 0 <= limit < 2 ^ 64 -> 0 <= total < 2 ^ 64 ->
  mp_get_expandable_size limit total =
    if limit =? 0 then 0 else if total <=? limit then limit - total else 2 ^ 64 - (total - limit).
Proof.
  intros Hl Ht. unfold mp_get_expandable_size. destruct (Z.ltb_spec 0 limit), (Z.eqb_spec limit 0); try lia.
  destruct (Z.leb_spec total limit); [by rewrite u64_small by lia|].
  unfold u64. rewrite <- (Z_mod_plus_full _ 1), Z.mod_small by lia. lia.
Qed.

(** ** The TLSF tier grows *)

Section Growth.
Context `{SysMem} (sizeof_tlsf_pool : Z).

Definition mp_expand_pool (s : tstate) (additional_bytes : Z) : outcome (bool * tstate) :=
  if additional_bytes =? 0 then Done (false, s)
  else if has_flag (flags s) MP_FLAG_STATIC_BUFFER then Done (false, s)
  else
    r ← tlsf_create_pool_custom sizeof_tlsf_pool (osys s) (theap s) additional_bytes NULL;
    let '(new_tlsf, h, o) := r in
    match new_tlsf with
    | None => Done (false, set_pools (set_sys s o) (tlsf_root s) h)
    | Some tp => Done (true, add_pool_size (set_pools (set_sys s o) (tp :: tlsf_root s) h) (additional_bytes + sizeof_tlsf_pool))
    end.

(** The initial arena of [mp_create_custom_impl]; a failure leaves the pool without one. *)
Definition initial_arena (s : tstate) (initial_capacity : Z) : outcome tstate :=
  if 0 <? initial_capacity then
    r ← tlsf_create_pool_custom sizeof_tlsf_pool (osys s) (theap s) initial_capacity NULL;
    let '(tp, h, o) := r in
    match tp with
    | None => Done (set_pools (set_sys s o) [] h)
    | Some tp => Done (add_pool_size (set_pools (set_sys s o) [tp] h) (initial_capacity + sizeof_tlsf_pool))
    end
  else Done s.

Context `{discipline : Discipline}.
Context (Hsizeof : 0 < sizeof_tlsf_pool < 2 ^ 32).

Lemma tinv_add_pool_size s Ls n : tinv sizeof_tlsf_pool s Ls -> tinv sizeof_tlsf_pool (add_pool_size s n) Ls.
Proof. intros [A O]. by split. Qed.

Lemma tinv_no_arena s Ls h o : tinv sizeof_tlsf_pool s Ls -> h = theap s -> regions o = regions (osys s) ->
  tinv sizeof_tlsf_pool (set_pools (set_sys s o) (tlsf_root s) h) Ls.
Proof. intros [A O] -> Hr. split; cbn [tlsf_root theap osys set_pools set_sys]; [done|]. by rewrite Hr. Qed.

Lemma expand_pool_run s Ls n : tinv sizeof_tlsf_pool s Ls -> 64 <= n < 2 ^ 30 - 8 ->
  exists ok s' Ls', mp_expand_pool s n = Done (ok, s') /\ tinv sizeof_tlsf_pool s' Ls' /\ same_live s s' Ls Ls' /\
    (if ok then has_flag (flags s) MP_FLAG_STATIC_BUFFER = false /\
                total_pool_size s' = u64 (total_pool_size s + (n + sizeof_tlsf_pool)) /\
                exists tp L, tlsf_root s' = tp :: tlsf_root s /\ raw_size tp = align8 n /\ Ls' = L :: Ls /\ frees (raw_area tp) L = [(raw_area tp, align8 n - SIZEOF_TLSF_BLOCK)]
     else tlsf_root s' = tlsf_root s /\ total_pool_size s' = total_pool_size s).
Proof.
  intros I Hn. unfold mp_expand_pool. rewrite (proj2 (Z.eqb_neq n 0)) by lia.
  destruct (has_flag (flags s) MP_FLAG_STATIC_BUFFER) eqn:Est; [exists false, s, Ls; by split_and!|].
  destruct (create_total sizeof_tlsf_pool Hsizeof (osys s) (theap s) n Hn) as (r & h' & o' & E & Hnone). rewrite E. cbn [mbind outcome_bind].
  destruct r as [tp|].
  - destruct (add_pool sizeof_tlsf_pool Hsizeof s Ls n tp h' o' I Hn E) as (Hok & I' & Hl). set (L := [_]) in *.
    destruct (create_spec _ _ _ _ _ _ _ E Hn Hsizeof) as (_ & _ & Hrs & _).
    eexists true, _, (L :: Ls). split; [done|]. split; [by apply tinv_add_pool_size|]. split; [by split|]. split; [done|]. split; [done|].
    exists tp, L. by split_and!.
  - destruct Hnone as (Eh & Hr & _). eexists false, _, Ls. split; [done|]. split; [by apply tinv_no_arena|]. by split_and!.
Qed.

(** [mp_expand_pool] keeps the invariant of the tier and its live blocks whether it
    succeeds or not; when it succeeds a new arena heads the chain, the pool size grows by
    the arena and its control structure, and any request that fits it with a sixteenth to
    spare is then served whatever the system answers. *)
Theorem expand_pool_spec s Ls n : tinv sizeof_tlsf_pool s Ls -> 64 <= n < 2 ^ 30 - 8 ->
  exists ok s' Ls', mp_expand_pool s n = Done (ok, s') /\ tinv sizeof_tlsf_pool s' Ls' /\ same_live s s' Ls Ls' /\
    (ok = false -> tlsf_root s' = tlsf_root s /\ total_pool_size s' = total_pool_size s) /\
    (ok = true -> has_flag (flags s) MP_FLAG_STATIC_BUFFER = false /\
       total_pool_size s' = u64 (total_pool_size s + (n + sizeof_tlsf_pool)) /\
       forall req, 0 <= req <= 2 ^ 28 -> 17 * tlsf_total_needed (flags s) req <= 16 * (n - SIZEOF_TLSF_BLOCK) ->
         exists p s2 Ls2, tlsf_alloc sizeof_tlsf_pool s' req = Done (p, s2) /\ p <> NULL /\ osys s2 = osys s' /\
           allocated sizeof_tlsf_pool s' s2 Ls' Ls2 req p).
Proof.
  intros I Hn. destruct (expand_pool_run s Ls n I Hn) as (ok & s' & Ls' & E & I' & Hl & Hok). exists ok, s', Ls'.
  split; [done|]. split; [done|]. split; [done|]. split; [intros ->; done|]. intros ->. destruct Hok as (Hst & Ht & tp & L & Hr & Hrs & -> & Hfr).
  split; [done|]. split; [done|]. intros req Hreq Hfit. pose proof Hl as [Hfl _]. unfold tlsf_alloc, tlsf_ensure_root. rewrite Hr, Hfl. cbn [mbind outcome_bind negb].
  destruct (total_needed_bounds (flags s) req Hreq) as [Hbd Hm]. set (tn := tlsf_total_needed (flags s) req) in *.
  pose proof (ar_pools _ _ _ (ti_arenas _ _ _ I')) as Hpools. rewrite Hr in Hpools. apply Forall2_cons in Hpools as [Hp _].
  assert (0 <= (if has_flag (flags s) MP_FLAG_DEBUG_CANARY then 1 else 0) <= 1) by (destruct (has_flag (flags s) MP_FLAG_DEBUG_CANARY); lia).
  unfold SIZEOF_TLSF_BLOCK, SIZEOF_HEADER in Hbd.
  destruct (find_take_spec tp (theap s') L tn Hp ltac:(lia) Hm) as (b & Hb & [[-> Hno]|(Hbn & l1 & sz & l2 & tp' & h2 & EL & Hbe & Hsz & Et & Hok' & Hs & Hin)]).
  { exfalso. pose proof (rounded_le_17 tn ltac:(lia)). destruct (align8_bounds n) as [Ha _]; [lia|lia|].
    specialize (Hno (raw_area tp) (align8 n - SIZEOF_TLSF_BLOCK)). rewrite Hfr in Hno. unfold SIZEOF_TLSF_BLOCK in *.
    specialize (Hno ltac:(by apply list_elem_of_here)). lia. }
  rewrite Hr. cbn [alloc_walk]. rewrite Hb. cbn [mbind outcome_bind]. rewrite (proj2 (Z.eqb_neq b NULL) Hbn), Et. cbn [mbind outcome_bind].
  destruct (stamp_spec sizeof_tlsf_pool s' (tp' :: tlsf_root s) h2 (L :: Ls) req b (tp_addr tp') tn I' ltac:(by rewrite Hfl) Hreq) as (Ls2 & Hal).
  { rewrite Hr. exists 0%nat, tp, l1, sz, l2, tp'. rewrite <- EL. by split_and!. }
  destruct (tlsf_stamp _ _ _ _ _) as [p s2] eqn:Est. cbn [fst snd] in Hal. exists p, s2, Ls2. split; [done|]. split; [|split; [|done]].
  - intros ->. destruct Hal as [_ (b0 & sz0 & i0 & Hq & Hpos & _) _ _]. unfold NULL, SIZEOF_TLSF_BLOCK, SIZEOF_HEADER in *. lia.
  - unfold tlsf_stamp in Est. injection Est as _ <-. done.
Qed.

(** Nothing stops a caller from asking for an arena smaller than a block header: the size of
    the seed block wraps, and neither the index nor the sentinel that is then written fits
    the arena.  [mp_create] with such a capacity does the same. *)
Theorem tiny_arena_faults o h size p o' : 0 < size <= 24 -> TlsfPool.sys_mem_alloc o (u64 (sizeof_tlsf_pool + align8 size)) = (p, o') -> p <> NULL ->
  tlsf_create_pool_custom sizeof_tlsf_pool o h size NULL = Fault.
Proof.
  intros Hs E Hp. unfold tlsf_create_pool_custom. rewrite Z.eqb_refl, E, (proj2 (Z.eqb_neq p NULL)) by done.
  destruct (align8_bounds size) as [Hb Hm]; [lia|lia|]. assert (align8 size = 8 \/ align8 size = 16 \/ align8 size = 24) as Hcase by zdiv.
  by destruct Hcase as [-> | [-> | ->]].
Qed.

End Growth.

(** ** The tier's interface for the system

    [sys_mem_alloc] on a pool without huge pages or an allocator of its own, for requests
    whose page rounding does not wrap, is what the TLSF tier assumes of the system. *)
Section Provides.
Context `{V : HostVm} (pool : backing) (current : Z).
Context (no_custom : has_custom_sys_alloc pool = false) (no_huge : has_flag (bflags pool) MP_FLAG_HUGE_PAGES = false).

(** A region in use: a block of the heap, or mapped pages. *)
Definition in_use (o : os) (r : Z * Z) : Prop :=
  blocks o !! r.1 = Some r.2 \/ forall x, r.1 <= x < r.1 + r.2 -> is_Some (pages o !! (x / page_size)).

Definition regions_ok (x : os * list (Z * Z)) : Prop := Forall (fun r => 0 < r.2 /\ in_use x.1 r) x.2.

Definition region_step (x : os * list (Z * Z)) (n : Z) : Z * (os * list (Z * Z)) :=
  let '(p, o) := sys_mem_alloc (Some pool) current x.1 n 8 in (p, (o, if p =? NULL then x.2 else (p, n) :: x.2)).

Lemma in_use_mono o o' r : (forall q m, blocks o !! q = Some m -> blocks o' !! q = Some m) ->
  (forall k, is_Some (pages o !! k) -> is_Some (pages o' !! k)) -> in_use o r -> in_use o' r.
Proof. intros Hb Hp [Hr|Hr]; [left; by apply Hb|right]. intros x Hx. by apply Hp, Hr. Qed.

Lemma obtained_grows o o' p n : obtained pool o o' p n ->
  (forall q m, blocks o !! q = Some m -> blocks o' !! q = Some m) /\ (forall k, is_Some (pages o !! k) -> is_Some (pages o' !! k)).
Proof.
  intros [hg ? (_ & _ & _ & Hb & _ & Hp & _) _|_ _ (_ & _ & _ & Hb & _ & Hp & _)|_ _ _ _ _ Hn Hp Hb].
  - split; [intros q m; by rewrite Hb|]. intros k. rewrite Hp. by destruct (covers _ _ _ k).
  - split; [intros q m; by rewrite Hb|]. intros k. rewrite Hp. by destruct (covers _ _ (total_map n) k).
  - split; [|intros k; by rewrite Hp]. intros q m Hq. rewrite Hb, lookup_insert_ne by (intros ->; congruence). done.
Qed.

Lemma obtained_above o o' p n : obtained pool o o' p n -> n + 3 * page_size <= 2 ^ 64 -> 0 < n -> 0 < p /\ p + n < 2 ^ 64.
Proof.
  intros [hg ? (? & ? & _) _|_ _ (? & ? & _)|_ _ ? ? _ _ _ _] Hf Hn; pose proof page_size_pos; [lia| |done].
  destruct (aligned_payload_bounds n); lia.
Qed.

Lemma unused_apart o p n r : 0 < n -> 0 < r.2 -> unused o p n -> in_use o r -> p + n <= r.1 \/ r.1 + r.2 <= p.
Proof.
  destruct r as [q m]. cbn. intros Hn Hm [Hp Hb] [Hr|Hr]; [by apply Hb|]. cbn in Hr.
  destruct (decide (p + n <= q \/ q + m <= p)) as [|Hno]; [done|exfalso].
  pose proof (Hp (Z.max p q) ltac:(lia)) as H1. pose proof (Hr (Z.max p q) ltac:(lia)) as [st H2]. congruence.
Qed.

Lemma region_step_ok x n : regions_ok x -> 0 < n -> n + 3 * page_size <= 2 ^ 64 ->
  let '(p, x') := region_step x n in regions_ok x' /\
    if p =? NULL then x'.2 = x.2
    else 0 < p /\ p + n < 2 ^ 64 /\ x'.2 = (p, n) :: x.2 /\ forall q m, (q, m) ∈ x.2 -> p + n <= q \/ q + m <= p.
Proof.
  intros Hx Hn Hf. unfold region_step. destruct (sys_mem_alloc (Some pool) current x.1 n 8) as [p o'] eqn:E.
  apply sys_mem_alloc_cases in E as [[-> [Hp Hb]]|[Hp Ho]]; [| |done|done|done|by rewrite no_huge].
  - rewrite Z.eqb_refl. split; [|done]. unfold regions_ok in *. eapply Forall_impl; [exact Hx|]. intros r [? Hr]. cbn. split; [done|].
    destruct Hr as [Hr|Hr]; [left; by rewrite Hb|right; by rewrite Hp].
  - rewrite (proj2 (Z.eqb_neq p NULL) Hp). destruct (obtained_grows _ _ _ _ Ho) as [Gb Gp]. destruct (obtained_above _ _ _ _ Ho Hf Hn).
    destruct (obtained_unused _ _ _ _ _ Hn Hf Ho) as [Hu Hus]. unfold regions_ok in *. cbn. split.
    + apply Forall_cons. split; [split; [done|]|].
      * destruct Hus as [Hus|Hus]; [by left|right]. intros x0 Hx0. specialize (Hus x0 Hx0). by destruct (pages o' !! _).
      * eapply Forall_impl; [exact Hx|]. intros r [? Hr]. split; [done|]. by eapply in_use_mono.
    + split; [done|]. split; [done|]. split; [done|]. intros q m Hq. rewrite Forall_forall in Hx. destruct (Hx _ Hq) as [Hm Hr].
      by apply (unused_apart _ p n (q, m) Hn Hm Hu).
Qed.

Definition region_state : Type := { x : os * list (Z * Z) | regions_ok x }.

#[local] Obligation Tactic := idtac.

Program Definition region_alloc (x : region_state) (n : Z) : Z * region_state :=
  if decide (0 < n /\ n + 3 * page_size <= 2 ^ 64)
  then ((region_step (proj1_sig x) n).1, exist _ (region_step (proj1_sig x) n).2 _)
  else (NULL, x).
Next Obligation.
  intros [x Hx] n [Hn Hf]. cbn. pose proof (region_step_ok x n Hx Hn Hf) as Hr. destruct (region_step x n) as [p x']. apply Hr.
Qed.

(** The instance. *)
Program Definition backing_sysmem : SysMem := {|
  sys := region_state;
  TlsfPool.sys_mem_alloc := region_alloc;
  regions x := (proj1_sig x).2;
|}.
Next Obligation.
  intros [x Hx] n p o' Hn. unfold region_alloc. destruct (decide _) as [[Hn' Hf]|]; [|intros [= <- <-]; done].
  pose proof (region_step_ok x n Hx Hn Hf) as Hr. cbn [proj1_sig]. intros E. apply (f_equal (fun r => (r.1, (proj1_sig r.2).2))) in E.
  cbn in E. destruct (region_step x n) as [q y]. cbn in E. injection E as <- <-. destruct Hr as [_ Hr]. exact Hr.
Qed.

End Provides.

(** ** A concrete address space

    4096-byte pages and huge pages of 512 of them; everything new goes above everything in
    use. *)
Record toy_os := ToyOs { toy_pages : gmap Z page; toy_blocks : gmap Z Z }.

Definition toy_top (o : toy_os) : Z :=
  foldr Z.max 1 (((fun k => k * 4096 + 4096) <$> (map_to_list (toy_pages o)).*1) ++ ((fun r => r.1 + Z.max 1 r.2) <$> map_to_list (toy_blocks o))).

Lemma foldr_max_le l b : b <= foldr Z.max b l /\ Forall (fun x => x <= foldr Z.max b l) l.
Proof.
  induction l as [|x l [IH1 IH2]]; cbn; [split; [lia|constructor]|]. split; [lia|]. constructor; [lia|].
  eapply Forall_impl; [exact IH2|]. cbn. intros; lia.
Qed.

Lemma toy_top_page o k st : toy_pages o !! k = Some st -> k * 4096 + 4096 <= toy_top o.
Proof.
  intros Hk. unfold toy_top. set (l := _ ++ _). destruct (foldr_max_le l 1) as [_ Hl]. rewrite Forall_forall in Hl. apply Hl. subst l.
  apply elem_of_app. left. apply list_elem_of_fmap. exists k. split; [done|]. apply list_elem_of_fmap. exists (k, st). split; [done|]. by apply elem_of_map_to_list.
Qed.

Lemma toy_top_block o q m : toy_blocks o !! q = Some m -> q + Z.max 1 m <= toy_top o.
Proof.
  intros Hk. unfold toy_top. set (l := _ ++ _). destruct (foldr_max_le l 1) as [_ Hl]. rewrite Forall_forall in Hl. apply Hl. subst l.
  apply elem_of_app. right. apply list_elem_of_fmap. exists (q, m). split; [done|]. by apply elem_of_map_to_list.
Qed.

Lemma toy_top_pos o : 1 <= toy_top o.
Proof. apply foldr_max_le. Qed.

(** The first address that is a multiple of [a] from the top on. *)
Definition toy_place (o : toy_os) (a : Z) : Z := (toy_top o + a - 1) / a * a.

Lemma toy_place_spec o a : 0 < a -> toy_top o <= toy_place o a /\ toy_place o a mod a = 0 /\ 0 < toy_place o a.
Proof. intros Ha. pose proof (toy_top_pos o). unfold toy_place. assert (toy_top o <= (toy_top o + a - 1) / a * a) by zdiv. split; [done|]. split; [apply Z.mod_mul; lia|lia]. Qed.

Definition toy_huge : Z := 512 * 4096.

Definition set_range (a n : Z) (st : page) (m : gmap Z page) : gmap Z page :=
  foldr (fun k m => <[k := st]> m) m (seqZ (a / 4096) ((a + n + 4096 - 1) / 4096 - a / 4096)).

Lemma lookup_set_range a n st m k : set_range a n st m !! k = if covers 4096 a n k then Some st else m !! k.
Proof.
  unfold set_range. assert (covers 4096 a n k = bool_decide (k ∈ seqZ (a / 4096) ((a + n + 4096 - 1) / 4096 - a / 4096))) as ->.
  { apply eq_true_iff_eq. rewrite bool_decide_eq_true, elem_of_seqZ. unfold covers. rewrite andb_true_iff, Z.leb_le, Z.ltb_lt. lia. }
  induction (seqZ _ _) as [|j l IH]; cbn; [by rewrite bool_decide_false by (apply not_elem_of_nil)|].
  destruct (decide (j = k)) as [->|Hjk]; [rewrite lookup_insert_eq, bool_decide_true; [done|by apply list_elem_of_here]|].
  rewrite lookup_insert_ne, IH by done. case_bool_decide as Hi; case_bool_decide as Hj; try done; [destruct Hj; by right|].
  apply elem_of_cons in Hj as [->|]; done.
Qed.

Definition toy_mmap (o : toy_os) (n : Z) (hg : bool) : option Z * toy_os :=
  let unit := if hg then toy_huge else 4096 in
  let p := toy_place o unit in
  let len := if hg then (n + toy_huge - 1) / toy_huge * toy_huge else n in
  if p + len + 4096 <? 2 ^ 64 then (Some p, ToyOs (set_range p len (PageState true hg) (toy_pages o)) (toy_blocks o)) else (None, o).

Definition toy_munmap (o : toy_os) (p n : Z) : toy_os :=
  if negb (n mod toy_huge =? 0) && bool_decide (map_Exists (fun k st => covers 4096 p n k = true /\ huge st = true) (toy_pages o)) then o
  else ToyOs (map_imap (fun k st => if covers 4096 p n k then None else Some st) (toy_pages o)) (toy_blocks o).

Definition toy_protect (o : toy_os) (p n : Z) : toy_os :=
  ToyOs (map_imap (fun k st => Some (if covers 4096 p n k then PageState false (huge st) else st)) (toy_pages o)) (toy_blocks o).

Definition toy_malloc (o : toy_os) (al : option Z) (n : Z) : option Z * toy_os :=
  let p := toy_place o (Z.max 4096 (default 1 al)) in
  if p + n <? 2 ^ 64 then (Some p, ToyOs (toy_pages o) (<[p := n]> (toy_blocks o))) else (None, o).

Lemma toy_above o p n : toy_top o <= p -> forall k, covers 4096 p n k = true -> toy_pages o !! k = None.
Proof.
  intros Hp k Hk. destruct (toy_pages o !! k) as [st|] eqn:E; [exfalso|done]. apply toy_top_page in E.
  unfold covers in Hk. apply andb_true_iff in Hk as [Hk _]. apply Z.leb_le in Hk. zdiv.
Qed.

Lemma toy_blocks_below o p q m : toy_top o <= p -> toy_blocks o !! q = Some m -> q + m <= p.
Proof. intros Hp Hq. apply toy_top_block in Hq. lia. Qed.

#[local] Program Instance toy_vm : HostVm := {|
  os := toy_os; sysconf_pagesize := 4096; huge_size := toy_huge;
  pages := toy_pages; blocks := toy_blocks;
  os_mmap := toy_mmap; os_munmap := toy_munmap; os_mprotect_none := toy_protect;
  os_madvise := fun o _ _ _ => o; os_mbind := fun o _ _ _ => o;
  os_malloc := toy_malloc; os_free := fun o p => ToyOs (toy_pages o) (delete p (toy_blocks o));
|}.
Next Obligation. exists 12. by split. Qed.
Next Obligation. exists 512. by split. Qed.
Next Obligation.
  intros o n hg r o' Hn. unfold toy_mmap. change (if 0 <? 4096 then 4096 else 4096) with 4096. set (len := if hg then _ else n).
  set (unit := if hg then toy_huge else 4096). destruct (toy_place_spec o unit ltac:(by subst unit; destruct hg)) as (H1 & H2 & H3). set (p := toy_place o unit) in *.
  destruct (Z.ltb_spec (p + len + 4096) (2 ^ 64)); intros [= <- <-]; [|done].
  assert (n <= len). { subst len. destruct hg; [unfold toy_huge; zdiv|lia]. }
  split_and!; [done|lia|done|done|by apply toy_above|intros k; apply lookup_set_range|]. intros q m Hq. right. by eapply toy_blocks_below.
Qed.
Next Obligation.
  intros o p n. change (if 0 <? 4096 then 4096 else 4096) with 4096. unfold toy_munmap.
  destruct (_ && _) eqn:E; cbn; (split; [done|]).
  - intros Hn Hp Hok k. apply andb_true_iff in E as [E1 E2]. apply bool_decide_eq_true in E2 as (j & st & Hj & Hc & Hh).
    destruct Hok as [[_ Hok]|Hok]; [lia|]. rewrite (Hok j st Hc Hj) in Hh. done.
  - intros Hn Hp Hok k. rewrite map_lookup_imap. destruct (toy_pages o !! k); cbn; [done|by destruct (covers _ _ _ k)].
Qed.
Next Obligation.
  intros o p n k st Hc Hk Hh Hn. unfold toy_munmap. change (if 0 <? 4096 then 4096 else 4096) with 4096 in Hc.
  rewrite (proj2 (Z.eqb_neq _ 0) Hn), bool_decide_true by (by exists k, st). done.
Qed.
Next Obligation.
  intros o p n. split; [done|]. intros Hp Hs k. cbn. change (if 0 <? 4096 then 4096 else 4096) with 4096 in *. rewrite map_lookup_imap.
  destruct (toy_pages o !! k) as [st|] eqn:E; cbn; [by destruct (covers _ _ _ k)|by destruct (covers _ _ _ k)].
Qed.
Next Obligation. done. Qed.
Next Obligation. done. Qed.
Next Obligation.
  intros o al n r o' Hn. unfold toy_malloc. change (if 0 <? 4096 then 4096 else 4096) with 4096. set (a := Z.max 4096 (default 1 al)).
  destruct (toy_place_spec o a ltac:(lia)) as (H1 & H2 & H3). set (p := toy_place o a) in *.
  destruct (Z.ltb_spec (p + n) (2 ^ 64)); intros [= <- <-]; [|done]. split; [done|].
  split_and!; [done|done| |done|by apply toy_above|].
  - destruct (toy_blocks o !! p) as [m|] eqn:E; [|done]. apply toy_top_block in E. lia.
  - intros q m Hq. right. by eapply toy_blocks_below.
Qed.
Next Obligation. done. Qed.

Definition toy_empty : toy_os := ToyOs ∅ ∅.
Definition toy_pool (flags : Z) : backing := Backing flags false None None 0.

Lemma backing_roundtrip_witness :
  let r := sys_mem_alloc (Some (toy_pool MP_FLAG_GUARD_PAGES)) 0 toy_empty 10000 8 in
  (r.1 = NULL /\ same_space toy_empty r.2) \/
  (unused toy_empty r.1 10000 /\ usable r.2 r.1 10000 /\
   exists o2, sys_mem_free (toy_pool MP_FLAG_GUARD_PAGES) r.2 r.1 10000 = Done o2 /\ same_space toy_empty o2).
Proof.
  intros r. apply (backing_roundtrip (toy_pool MP_FLAG_GUARD_PAGES) 0 toy_empty 10000 8); (reflexivity || discriminate || by destruct r).
Defined.

(** Three pages of payload between two that trap; the short release of the OS tier leaves a
    page behind. *)
Example toy_guarded :
  let r := sys_mem_alloc (Some (toy_pool MP_FLAG_GUARD_PAGES)) 0 toy_empty 10000 8 in
  (r.1, (fun k => accessible <$> toy_pages r.2 !! k) <$> [1; 2; 3; 4; 5; 6]) =
  (8192, [Some false; Some true; Some true; Some true; Some false; None]).
Proof. vm_compute. reflexivity. Qed.

Example toy_short_release :
  let r := sys_mem_alloc (Some (toy_pool MP_FLAG_GUARD_PAGES)) 0 toy_empty (8192 + 152) 8 in
  match sys_mem_free (toy_pool MP_FLAG_GUARD_PAGES) r.2 r.1 8192 with
  | Done o2 => (fun k => accessible <$> toy_pages o2 !! k) <$> [1; 2; 3; 4; 5; 6]
  | _ => []
  end = [None; None; None; None; Some false; None].
Proof. vm_compute. reflexivity. Qed.

(** A pool created with automatic NUMA placement has node 0 from [calloc]: the current node
    is never asked for. *)
Example auto_numa_node current : bind_node (toy_pool MP_FLAG_AUTO_NUMA) current = Some 0.
Proof. reflexivity. Qed.

#[local] Instance toy_sysmem : SysMem := backing_sysmem (toy_pool 0) 0 eq_refl eq_refl.

Definition toy_regions : region_state (V := toy_vm) := exist _ (toy_empty, []) (Forall_nil_2 _).

Definition toy_tier : tstate := TState 0 [] (Heap ∅ ∅ (Links ∅ ∅)) ∅ (fun _ => 0) 0 0 toy_regions.

#[local] Instance toy_discipline : Discipline := tight_discipline.

Lemma toy_tier_inv : tinv 23240 toy_tier [].
Proof. split; [split; [constructor|done]|]. intros tp Htp. by apply not_elem_of_nil in Htp. Qed.

Lemma expand_pool_spec_witness :
  exists ok s', mp_expand_pool 23240 toy_tier 100000 = Done (ok, s') /\
    (ok = true -> total_pool_size s' = 123240 /\ exists p s2, tlsf_alloc 23240 s' 1000 = Done (p, s2) /\ p <> NULL).
Proof.
  destruct (expand_pool_spec 23240 ltac:(lia) toy_tier [] 100000 toy_tier_inv ltac:(lia)) as (ok & s' & Ls' & E & _ & _ & _ & Hok).
  exists ok, s'. split; [exact E|]. intros Ht. destruct (Hok Ht) as (_ & Hs & Hreq). split; [exact Hs|].
  destruct (Hreq 1000) as (p & s2 & Ls2 & Ea & Hp & _); [lia|vm_compute; congruence|]. exists p, s2. split; [exact Ea|exact Hp].
Defined.

Example toy_expand :
  match mp_expand_pool 23240 toy_tier 100000 with Done (ok, s') => (ok, length (tlsf_root s')) = (true, 1%nat) | _ => False end.
Proof. vm_compute. reflexivity. Qed.
