(* ===== verification/StaticPool.v ===== *)
(** * Pools inside a caller's buffer

    [mp_create_from_buffer] of [src/cmem_config.c], the operations of such a pool, and the
    pools in shared memory made of it ([mp_create_shared] and [mp_destroy_shared] of
    [src/cmem_lifecycle.c]).  A static pool serves every size from its one TLSF arena,
    through the cache of [TlsfCache]. *)
From S2P Require Import Prelude Dll TlsfMap BlockHeap Header Tlsf TlsfPool TlsfCache SizeClass Config.
From Stdlib Require Import ZArith Lia.
From stdpp Require Import base option list gmap strings.
Open Scope Z_scope.

#[local] Opaque zero_rows zero_blocks.

(** ** Independence of the system

    The operations of a static pool ask the system for nothing: carried out on another
    system they give the same result. *)

Definition outcome_map {A B} (f : A -> B) (r : outcome A) : outcome B :=
  match r with Done x => Done (f x) | Fault => Fault | Err => Err end.

Lemma map_bind {A B C} (f : B -> C) (r : outcome A) (k : A -> outcome B) :
  outcome_map f (x ← r; k x) = (x ← r; outcome_map f (k x)).
Proof. by destruct r. Qed.

Lemma bind_map {A B C} (f : A -> B) (r : outcome A) (k : B -> outcome C) : (x ← outcome_map f r; k x) = (x ← r; k (f x)).
Proof. by destruct r. Qed.

Lemma bind_ext {A B} (r : outcome A) (k k' : A -> outcome B) : (forall x, r = Done x -> k x = k' x) -> (x ← r; k x) = (x ← r; k' x).
Proof. destruct r as [x| |]; [|done..]. intros E. by apply E. Qed.

(** What the operations of a static pool leave alone. *)
Section Keeps.
Context `{H : SysMem}.
Context (sizeof_tlsf_pool : Z).

Record keeps (s s' : tstate) : Prop := {
  kp_flags : flags s' = flags s;
  kp_arenas : Forall2 same_pool (tlsf_root s) (tlsf_root s');
  kp_total : total_pool_size s' = total_pool_size s;
  kp_system : osys s' = osys s;
}.

Lemma same_pools_refl l : Forall2 same_pool l l.
Proof. induction l; by constructor. Qed.

Lemma same_pools_trans a b c : Forall2 same_pool a b -> Forall2 same_pool b c -> Forall2 same_pool a c.
Proof.
  intros Hab. revert c. induction Hab as [|x y a b Hxy _ IH]; intros c Hbc; inversion Hbc; subst; constructor; [by eapply same_pool_trans|by apply IH].
Qed.

Lemma same_pools_insert l i tp tp' : l !! i = Some tp -> same_pool tp tp' -> Forall2 same_pool l (<[i := tp']> l).
Proof. intros Hi Hs. rewrite <- (list_insert_id l i tp Hi) at 1. apply Forall2_insert; [apply same_pools_refl|done]. Qed.

Lemma find_pool_lookup s a i tp : find_pool s a = Done (i, tp) -> tlsf_root s !! i = Some tp.
Proof. unfold find_pool. destruct (list_find _ _) as [[j q]|] eqn:E; [|done]. intros [= -> ->]. by apply list_find_Some in E as (? & _). Qed.

Lemma keeps_refl s : keeps s s.
Proof. split; [done|apply same_pools_refl|done..]. Qed.

Lemma keeps_trans a b c : keeps a b -> keeps b c -> keeps a c.
Proof. intros [] []. split; [congruence|by eapply same_pools_trans|congruence..]. Qed.

(** The pool has its flag and its arena. *)
Definition static_tier (s : tstate) : Prop := has_flag (flags s) MP_FLAG_STATIC_BUFFER = true /\ tlsf_root s <> [].

Lemma keeps_static s s' : keeps s s' -> static_tier s -> static_tier s'.
Proof. intros [Ef El _ _] [Hf Hr]. split; [by rewrite Ef|]. intros E. rewrite E in El. by inversion El. Qed.

Lemma unpark_keeps s b t s' : unpark s b t = Done s' -> keeps s s'.
Proof.
  unfold unpark. intros E. inv_out. destruct x1 as [i tp]. apply find_pool_lookup in Hb1. inv_out. destruct x1 as [tp' h]. apply insert_same in Hb2.
  inv_out. subst s'. split; cbn; [done|by eapply same_pools_insert|done..].
Qed.

Lemma alloc_walk_same ps : forall h tn r ps' h', alloc_walk ps h tn = Done (r, ps', h') -> Forall2 same_pool ps ps'.
Proof.
  induction ps as [|tp ps IH]; intros h tn r ps' h' E; cbn [alloc_walk] in E; inv_out; [injection E as _ <- _; constructor|].
  destruct (x =? NULL); inv_out.
  - destruct x0 as [[res ps1] h1]. injection E as _ <- _. constructor; [done|by eapply IH].
  - destruct x0 as [tp' h1]. injection E as _ <- _. constructor; [by eapply take_same|apply same_pools_refl].
Qed.

Lemma tlsf_alloc_keeps s req p s' : static_tier s -> tlsf_alloc sizeof_tlsf_pool s req = Done (p, s') -> keeps s s'.
Proof.
  intros [Hst Hr]. unfold tlsf_alloc, tlsf_ensure_root. destruct (tlsf_root s) as [|tp ps] eqn:Er; [done|]. cbn [mbind outcome_bind negb]. rewrite Er.
  intros E. inv_out. destruct x as [[[[b t]|] ps'] h']; apply alloc_walk_same in Hb.
  - cbn in E. inv_out. injection E as _ <-. split; cbn; [done|by rewrite Er|done..].
  - cbn [set_pools flags] in E. rewrite Hst in E. inv_out. injection E as _ <-. split; cbn; [done|by rewrite Er|done..].
Qed.

Lemma tlsf_free_keeps s hdr s' : tlsf_free s hdr = Done s' -> keeps s s'.
Proof.
  unfold tlsf_free. intros E. inv_out. destruct (has_flag _ _); [done|]. inv_out. destruct x0 as [i tp]. apply find_pool_lookup in Hb0. inv_out. destruct x0 as [tp' h].
  apply free_block_same in Hb1. inv_out. subst s'. split; cbn; [done|by eapply same_pools_insert|done..].
Qed.

Lemma tlsf_expand_keeps s hdr size ok s' : tlsf_try_inplace_expand s hdr size = Done (ok, s') -> keeps s s'.
Proof.
  unfold tlsf_try_inplace_expand. intros E. inv_out.
  repeat match type of E with (if ?b then _ else _) = _ => destruct b; [injection E as _ <-; apply keeps_refl|] end.
  inv_out. destruct x0 as [i tp]. apply find_pool_lookup in Hb0. inv_out. destruct x0 as [[ok' tp'] h]. apply expand_block_same in Hb1. destruct (negb ok'); inv_out; injection E as _ <-; [apply keeps_refl|].
  split; cbn; [done|by eapply same_pools_insert|done..].
Qed.

Lemma cache_lookup_keeps s c tn size p s' c' : cache_lookup s c tn size = Done (p, s', c') -> keeps s s'.
Proof.
  unfold cache_lookup. intros E. inv_out. destruct x as [i|]; [|injection E as _ <- _; apply keeps_refl]. inv_out.
  destruct (0 <? x); [|injection E as _ <- _; apply keeps_refl]. inv_out. destruct x0 as [e c1]. inv_out. destruct (negb _); inv_out.
  - injection E as _ <- _. by eapply unpark_keeps.
  - destruct x1 as [q s1]. inv_out. injection E as _ <- _. unfold cache_stamp in Hb3. inv_out. injection Hb3 as _ <-. split; [done|apply same_pools_refl|done..].
Qed.

Lemma medium_alloc_keeps s c size p s' c' : static_tier s -> medium_alloc sizeof_tlsf_pool s c size = Done (p, s', c') -> keeps s s'.
Proof.
  intros Hs. unfold medium_alloc. intros E. inv_out. destruct x as [[q s1] c1]. apply cache_lookup_keeps in Hb.
  destruct (q =? NULL); inv_out; [|by injection E as _ <- _]. destruct x as [q2 s2]. inv_out. injection E as _ <- _.
  eapply keeps_trans; [exact Hb|]. eapply tlsf_alloc_keeps; [by eapply keeps_static|done].
Qed.

Lemma medium_free_keeps s c hdr s' c' : medium_free s c hdr = Done (s', c') -> keeps s s'.
Proof.
  unfold medium_free. intros E. inv_out. destruct x0 as [i|]; inv_out.
  - destruct (x0 <? _); inv_out; injection E as <- _; [apply keeps_refl|by eapply tlsf_free_keeps].
  - injection E as <- _. by eapply tlsf_free_keeps.
Qed.

Lemma flush_class_keeps fuel : forall s c i s' c', flush_class fuel s c i = Done (s', c') -> keeps s s'.
Proof.
  induction fuel as [|fuel IH]; intros s c i s' c' E; cbn [flush_class] in E; [done|]. inv_out.
  destruct (x =? NULL); inv_out; [injection E as <- _; apply keeps_refl|]. destruct x0 as [e c1]. inv_out.
  eapply keeps_trans; [by eapply unpark_keeps|by eapply IH].
Qed.

Lemma flush_classes_keeps todo : forall s c s' c', flush_classes s c todo = Done (s', c') -> keeps s s'.
Proof.
  induction todo as [|i todo IH]; intros s c s' c' E; cbn [flush_classes] in E; inv_out; [injection E as <- _; apply keeps_refl|].
  destruct x as [s1 c1]. eapply keeps_trans; [by eapply flush_class_keeps|by eapply IH].
Qed.

Lemma realloc_grow_keeps s c hdr size ok s' c' : realloc_grow s c hdr size = Done (ok, s', c') -> keeps s s'.
Proof.
  unfold realloc_grow, tlsf_cache_flush. intros E. inv_out. destruct x as [s1 c1]. inv_out. destruct x as [ok1 s2]. inv_out. injection E as _ <- _.
  eapply keeps_trans; [by eapply flush_classes_keeps|by eapply tlsf_expand_keeps].
Qed.

Lemma client_step_keeps k op k' : static_tier (k_tier k) -> client_step sizeof_tlsf_pool k op = Done k' -> keeps (k_tier k) (k_tier k').
Proof.
  intros Hs. destruct op as [size|b| |b size]; cbn [client_step]; intros E.
  - inv_out. destruct x as [[p s] c]. inv_out. subst k'. by eapply medium_alloc_keeps.
  - case_bool_decide; [|done]. inv_out. destruct x as [s c]. inv_out. subst k'. by eapply medium_free_keeps.
  - inv_out. destruct x as [s c]. inv_out. subst k'. by eapply flush_classes_keeps.
  - case_bool_decide; [|done]. inv_out. destruct x as [[ok s] c]. inv_out. subst k'. by eapply realloc_grow_keeps.
Qed.

Lemma client_run_keeps ops : forall k k', static_tier (k_tier k) -> client_run sizeof_tlsf_pool k ops = Done k' -> keeps (k_tier k) (k_tier k').
Proof.
  induction ops as [|op ops IH]; intros k k' Hs E; cbn [client_run] in E; inv_out; [subst k'; apply keeps_refl|].
  apply client_step_keeps in Hb; [|done]. eapply keeps_trans; [exact Hb|]. eapply IH; [by eapply keeps_static|done].
Qed.

End Keeps.

Section Move.
Context {H1 H2 : SysMem}.
Context (sizeof_tlsf_pool : Z).

(** The state [s] with the system replaced. *)
Definition move (o : @sys H2) (s : @tstate H1) : @tstate H2 :=
  @TState H2 (flags s) (tlsf_root s) (theap s) (headers s) (payload s) (tlsf_allocated_bytes s) (total_pool_size s) o.

(** Done stepwise: both sides look at the same data. *)
Ltac lockstep :=
  repeat first
    [ reflexivity
    | rewrite map_bind
    | apply bind_ext; intros ? ?
    | match goal with |- context [match ?x with _ => _ end] => is_var x; destruct x end
    | match goal with
      | |- (if ?b then _ else _) = outcome_map _ (if ?b then _ else _) => destruct b
      end ].

Lemma unpark_move o s b t : unpark (move o s) b t = outcome_map (move o) (unpark s b t).
Proof.
  unfold unpark, find_pool. cbn [move theap tlsf_root]. lockstep.
Qed.

Lemma cache_stamp_move o s b t sf tn size :
  cache_stamp (move o s) b t sf tn size = outcome_map (fun r => (r.1, move o r.2)) (cache_stamp s b t sf tn size).
Proof. unfold cache_stamp. cbn [move theap flags payload headers tlsf_root]. lockstep. Qed.

Definition move_cached_flag o (r : bool * @tstate H1 * tls_cache) : bool * @tstate H2 * tls_cache := (r.1.1, move o r.1.2, r.2).
Definition move_cached o (r : Z * @tstate H1 * tls_cache) : Z * @tstate H2 * tls_cache := (r.1.1, move o r.1.2, r.2).

Lemma cache_lookup_move o s c tn size :
  cache_lookup (move o s) c tn size = outcome_map (move_cached o) (cache_lookup s c tn size).
Proof.
  unfold cache_lookup. rewrite map_bind. apply bind_ext. intros [i|] _; [|done]. rewrite map_bind. apply bind_ext. intros n _.
  destruct (0 <? n); [|done]. rewrite map_bind. apply bind_ext. intros [entry c'] _. cbn [move theap].
  rewrite map_bind. apply bind_ext. intros sf _. destruct (negb _).
  - rewrite unpark_move, bind_map, map_bind. apply bind_ext. done.
  - rewrite cache_stamp_move, bind_map, map_bind. by apply bind_ext; intros [] _.
Qed.

Lemma tlsf_alloc_move o s req : static_tier s ->
  @tlsf_alloc H2 sizeof_tlsf_pool (move o s) req = outcome_map (fun r => (r.1, move o r.2)) (@tlsf_alloc H1 sizeof_tlsf_pool s req).
Proof.
  intros [Hst Hr]. unfold tlsf_alloc, tlsf_ensure_root. cbn [move tlsf_root flags]. destruct (tlsf_root s) as [|tp ps] eqn:Er; [done|].
  cbn [mbind outcome_bind negb]. cbn [move tlsf_root theap flags]. rewrite Er.
  rewrite map_bind. apply bind_ext. intros [[[[b t]|] ps'] h'] _; cbn [set_pools flags move].
  - done.
  - by rewrite Hst.
Qed.

Lemma tlsf_free_move o s hdr : tlsf_free (move o s) hdr = outcome_map (move o) (tlsf_free s hdr).
Proof.
  unfold tlsf_free, ld_header, find_pool. cbn [move headers tlsf_root theap]. rewrite map_bind. apply bind_ext. intros header _.
  destruct (has_flag _ _); [done|]. lockstep.
Qed.

Lemma tlsf_expand_move o s hdr size :
  tlsf_try_inplace_expand (move o s) hdr size = outcome_map (fun r => (r.1, move o r.2)) (tlsf_try_inplace_expand s hdr size).
Proof.
  unfold tlsf_try_inplace_expand, ld_header, find_pool. cbn [move headers tlsf_root theap flags]. rewrite map_bind. apply bind_ext. intros header _.
  destruct (negb _); [done|]. destruct (raw_base header =? NULL); [done|]. destruct (_ || _); [done|]. lockstep.
Qed.

Lemma medium_alloc_move o s c size : static_tier s ->
  medium_alloc sizeof_tlsf_pool (move o s) c size = outcome_map (move_cached o) (medium_alloc sizeof_tlsf_pool s c size).
Proof.
  intros Hs. unfold medium_alloc. cbn [move flags]. rewrite cache_lookup_move, bind_map, map_bind. apply bind_ext. intros [[p s1] c1] E. cbn [move_cached fst snd].
  destruct (p =? NULL); [|done]. rewrite tlsf_alloc_move by (eapply keeps_static; [by eapply cache_lookup_keeps|done]).
  rewrite bind_map, map_bind. by apply bind_ext; intros [] _.
Qed.

Lemma medium_free_move o s c hdr : medium_free (move o s) c hdr = outcome_map (fun r => (move o r.1, r.2)) (medium_free s c hdr).
Proof.
  unfold medium_free, ld_header. cbn [move headers]. rewrite map_bind. apply bind_ext. intros header _. rewrite map_bind. apply bind_ext. intros [i|] _.
  - rewrite map_bind. apply bind_ext. intros n _. destruct (n <? _); [lockstep|]. by rewrite tlsf_free_move, bind_map, map_bind.
  - by rewrite tlsf_free_move, bind_map, map_bind.
Qed.

Lemma flush_class_move o fuel : forall s c i, flush_class fuel (move o s) c i = outcome_map (fun r => (move o r.1, r.2)) (flush_class fuel s c i).
Proof.
  induction fuel as [|fuel IH]; intros s c i; cbn [flush_class]; [done|]. rewrite map_bind. apply bind_ext. intros p _. destruct (p =? NULL); [done|].
  rewrite map_bind. apply bind_ext. intros [e c1] _. rewrite unpark_move, bind_map, map_bind. apply bind_ext. intros s1 _. apply IH.
Qed.

Lemma flush_classes_move o todo : forall s c, flush_classes (move o s) c todo = outcome_map (fun r => (move o r.1, r.2)) (flush_classes s c todo).
Proof.
  induction todo as [|i todo IH]; intros s c; cbn [flush_classes]; [done|]. rewrite flush_class_move, bind_map, map_bind. apply bind_ext. intros [s1 c1] _. apply IH.
Qed.

Lemma realloc_grow_move o s c hdr size : realloc_grow (move o s) c hdr size = outcome_map (move_cached_flag o) (realloc_grow s c hdr size).
Proof.
  unfold realloc_grow, tlsf_cache_flush. rewrite flush_classes_move, bind_map, map_bind. apply bind_ext. intros [s1 c1] _. cbn [fst snd].
  rewrite tlsf_expand_move, bind_map, map_bind. by apply bind_ext; intros [] _.
Qed.

Definition move_client (o : @sys H2) (k : @client H1) : @client H2 := Client (move o (k_tier k)) (k_cache k) (k_own k).

Lemma client_step_move o k op : static_tier (k_tier k) ->
  client_step sizeof_tlsf_pool (move_client o k) op = outcome_map (move_client o) (client_step sizeof_tlsf_pool k op).
Proof.
  intros Hs. destruct op as [size|b| |b size]; cbn [client_step move_client k_tier k_cache k_own].
  - rewrite medium_alloc_move, bind_map, map_bind by done. by apply bind_ext; intros [[] ?] _.
  - case_bool_decide; [|done]. rewrite medium_free_move, bind_map, map_bind. by apply bind_ext; intros [] _.
  - unfold tlsf_cache_flush. rewrite flush_classes_move, bind_map, map_bind. by apply bind_ext; intros [] _.
  - case_bool_decide; [|done]. rewrite realloc_grow_move, bind_map, map_bind. by apply bind_ext; intros [[] ?] _.
Qed.

Lemma client_run_move o ops : forall k, static_tier (k_tier k) ->
  client_run sizeof_tlsf_pool (move_client o k) ops = outcome_map (move_client o) (client_run sizeof_tlsf_pool k ops).
Proof.
  induction ops as [|op ops IH]; intros k Hs; cbn [client_run]; [done|]. rewrite client_step_move, bind_map, map_bind by done.
  apply bind_ext. intros k1 E. apply IH. eapply keeps_static; [by eapply client_step_keeps|done].
Qed.

End Move.

(** ** The pool and its buffer *)

Definition CMEM_ALIGN_MASK : Z := 7.

(** [pthread_mutex_t] and [pthread_rwlock_t] as far as their initialisation goes. *)
Inductive lock_state := Zeroed | Private | ProcessShared | Destroyed.

Section StaticPool.
Context `{S : SysMem}.
(** [sizeof(memory_pool_t)] and [sizeof(tlsf_pool_t)]. *)
Context (sizeof_memory_pool sizeof_tlsf_pool : Z).

(** The pool at [sp_addr].  [pool_locks] are [lock] and [rwlock]. *)
Record static_pool := SPool {
  sp_addr : Z;
  sp_name : string;
  sp_classes : classes;
  sp_percpu : SlabCache.percpu;
  pool_locks : lock_state;
  arena_registry_lock : lock_state;
  sp_tier : tstate;
}.

(** The memory the buffer is part of. *)
Record buffer_memory := Memory { b_heap : heap; b_headers : gmap Z mp_block_header; b_payload : bytes_at }.

(** [env] is [CMEM_CONF], [nproc] the answer of [sysconf] and [calloc_ok] that of [calloc]. *)
Definition mp_create_from_buffer (safety_flags : Z) (env : option string) (nproc : Z) (calloc_ok : bool)
    (o : sys) (mem : buffer_memory) (buffer buffer_size flags : Z) : outcome (option static_pool) :=
  if (buffer =? NULL) || (buffer_size <? u64 (sizeof_memory_pool + sizeof_tlsf_pool + TLSF_MIN_BLOCK_SIZE)) then Done None
  else
    let aligned_addr := Z.land (u64 (buffer + CMEM_ALIGN_MASK)) (Z.lnot CMEM_ALIGN_MASK) in
    let align_offset := u64 (aligned_addr - buffer) in
    if buffer_size <=? u64 (align_offset + sizeof_memory_pool + sizeof_tlsf_pool + TLSF_MIN_BLOCK_SIZE) then Done None
    else
      let flags := mp_parse_env_flags env (cmem_resolve_default_flags safety_flags flags) in
      let pool_flags := Z.lor flags MP_FLAG_STATIC_BUFFER in
      let cls := slab_init_sizes (Classes false (replicate 12 0) []) in
      let no_percpu := SlabCache.Percpu None 0 in
      let pc := if has_flag flags MP_FLAG_PERCPU_FREELIST then SlabCache.percpu_init no_percpu nproc calloc_ok else no_percpu in
      let remain_mem := aligned_addr + sizeof_memory_pool in
      let remain_sz := u64 (buffer_size - align_offset - sizeof_memory_pool - sizeof_tlsf_pool) in
      r ← tlsf_create_pool_custom sizeof_tlsf_pool o (b_heap mem) remain_sz remain_mem;
      let '(tp, h, o) := r in
      match tp with
      | None => Done None
      | Some tp =>
          Done (Some (SPool aligned_addr "StaticBufferArena" cls pc Zeroed Private
            (TState pool_flags [tp] h (b_headers mem) (b_payload mem) 0 buffer_size o)))
      end.

End StaticPool.

(** A system with one region to give, at [base]. *)
Definition one_region (base : Z) : SysMem.
Proof.
  refine {|
    sys := list (Z * Z);
    sys_mem_alloc rs n :=
      match rs with [] => if (0 <? base) && (base + n <? 2 ^ 64) then (base, [(base, n)]) else (NULL, []) | _ => (NULL, rs) end;
    regions rs := rs;
  |}.
  intros [|r rs] n p o' Hn; [|by intros [= <- <-]].
  destruct (Z.ltb_spec 0 base), (Z.ltb_spec (base + n) (2 ^ 64)); cbn [andb]; intros [= <- <-]; try done.
  rewrite (proj2 (Z.eqb_neq base NULL)) by (unfold NULL; lia). split; [lia|]. split; [lia|]. split; [done|].
  intros q m Hq. by apply not_elem_of_nil in Hq.
Defined.

(** An arena laid out at a given place is the one the system would have given there. *)
Lemma create_at `{S : SysMem} z o h size base :
  0 <= size < 2 ^ 32 -> 0 < z < 2 ^ 32 -> 0 < base < 2 ^ 63 ->
  tlsf_create_pool_custom z o h size base =
  outcome_map (fun r => (r.1.1, r.1.2, o)) (@tlsf_create_pool_custom (one_region base) z [] h (align8 size) NULL).
Proof.
  intros Hs Hz Hb. destruct (align8_bounds size) as [Ha Hm]; [lia..|].
  unfold tlsf_create_pool_custom. rewrite (align8_multiple (align8 size)) by (done || lia). rewrite Z.eqb_refl. cbn [sys_mem_alloc one_region].
  rewrite (u64_small (z + align8 size)) by lia. rewrite (proj2 (Z.ltb_lt 0 base)), (proj2 (Z.ltb_lt _ (2 ^ 64))) by lia. cbn [andb].
  assert (Hn : (base =? NULL) = false) by (apply Z.eqb_neq; unfold NULL; lia). rewrite !Hn. rewrite map_bind. apply bind_ext. intros f _.
  rewrite map_bind. apply bind_ext. intros row _. rewrite map_bind. apply bind_ext. done.
Qed.

Lemma one_region_gives base z h n :
  0 < base < 2 ^ 63 -> 0 < z < 2 ^ 32 -> 64 <= n < 2 ^ 30 - 8 -> n mod 8 = 0 ->
  exists tp h', @tlsf_create_pool_custom (one_region base) z [] h n NULL = Done (Some tp, h', [(base, z + n)]).
Proof.
  intros Hb Hz Hn Hm. destruct (@create_total (one_region base) z Hz [] h n Hn) as (r & h' & o' & E & _). rewrite E.
  unfold tlsf_create_pool_custom in E. rewrite Z.eqb_refl, align8_multiple in E by (done || lia).
  cbn [sys_mem_alloc one_region] in E. rewrite (u64_small (z + n)) in E by lia.
  rewrite (proj2 (Z.ltb_lt 0 base)), (proj2 (Z.ltb_lt _ (2 ^ 64))) in E by lia. cbn [andb] in E.
  rewrite (proj2 (Z.eqb_neq base NULL)) in E by (unfold NULL; lia). inv_out. injection E as <- <- <-. eauto.
Qed.

(** The length of the block at [b], from its header. *)
Definition span `{S : SysMem} (s : tstate) (b : Z) : Z := match size_and_flags (theap s) !! b with Some w => block_size w | None => 0 end.

Lemma held_span `{S : SysMem} (d : Discipline) sizeof_tlsf_pool s Ls b t n : tinv sizeof_tlsf_pool s Ls -> held s Ls b t n -> span s b = n.
Proof.
  intros [A _] (i & tp & L & Hi & HL & Hb & _). destruct (arenas_lookup _ _ _ _ _ A Hi) as (L0 & HL0 & [[Hp _] _ _ _ _]).
  assert (L0 = L) as -> by congruence. destruct (lives_split _ _ _ _ _ _ _ Hp Hb) as (l1 & l2 & -> & Hbe).
  apply phys_app in Hp as [_ Hp]. rewrite <- Hbe in Hp. cbn [phys] in Hp. destruct Hp as ([_ Hm] & (q & _ & Hw) & _).
  unfold span. rewrite Hw. by rewrite block_size_mk.
Qed.

(** An arena starts afresh whatever its memory held. *)
Lemma create_forgets `{S : SysMem} z o h size base tp h1 o1 h' :
  tlsf_create_pool_custom z o h size base = Done (Some tp, h1, o1) ->
  exists h2, tlsf_create_pool_custom z o h' size base = Done (Some tp, h2, o1) /\
    size_and_flags h2 !! raw_area tp = size_and_flags h1 !! raw_area tp.
Proof.
  unfold tlsf_create_pool_custom. destruct (if _ =? NULL then _ else _) as [raw o2]. destruct (raw =? NULL); [done|]. intros E.
  set (w := Z.lor _ BLOCK_STATE_FREE) in *. destruct (tlsf_mapping_insert _) as [f| |]; [|done..]. cbn [mbind outcome_bind] in *.
  destruct (ld zero_rows _) as [row| |]; [|done..]. cbn [mbind outcome_bind] in *. destruct (zero_blocks !! f); [|done]. cbn [mbind outcome_bind] in *.
  apply Done_inj in E. injection E as <- <- <-. eexists. split; [done|]. cbn [raw_area carve clear_links with_links size_and_flags].
  set (a := raw + z). destruct (decide (a + block_size w = a)) as [->|Hne]; [by rewrite !lookup_insert_eq|].
  by rewrite !(lookup_insert_ne _ (a + block_size w)), !lookup_insert_eq.
Qed.

(** ** Where everything lies *)

Section Layout.
Context `{S : SysMem}.
Context (sizeof_memory_pool sizeof_tlsf_pool : Z).
Context (Hpool : 0 < sizeof_memory_pool < 2 ^ 31) (Hpool8 : sizeof_memory_pool mod 8 = 0).
Context (Htlsf : 0 < sizeof_tlsf_pool < 2 ^ 31) (Htlsf8 : sizeof_tlsf_pool mod 8 = 0).

(** The bytes left for the arena. *)
Definition room (buffer buffer_size : Z) : Z := buffer_size - (align8 buffer - buffer) - sizeof_memory_pool - sizeof_tlsf_pool.

Lemma create_from_buffer_eq safety env nproc ok o mem buffer buffer_size flags :
  0 < buffer < 2 ^ 62 -> 0 <= buffer_size < 2 ^ 62 ->
  mp_create_from_buffer sizeof_memory_pool sizeof_tlsf_pool safety env nproc ok o mem buffer buffer_size flags =
  if room buffer buffer_size <=? TLSF_MIN_BLOCK_SIZE then Done None
  else
    let fl := mp_parse_env_flags env (cmem_resolve_default_flags safety flags) in
    r ← tlsf_create_pool_custom sizeof_tlsf_pool o (b_heap mem) (room buffer buffer_size) (align8 buffer + sizeof_memory_pool);
    let '(tp, h, o) := r in
    match tp with
    | None => Done None
    | Some tp => Done (Some (SPool (align8 buffer) "StaticBufferArena" (slab_init_sizes (Classes false (replicate 12 0) []))
        (if has_flag fl MP_FLAG_PERCPU_FREELIST then SlabCache.percpu_init (SlabCache.Percpu None 0) nproc ok else SlabCache.Percpu None 0)
        Zeroed Private
        (TState (Z.lor fl MP_FLAG_STATIC_BUFFER) [tp] h (b_headers mem) (b_payload mem) 0 buffer_size o)))
    end.
Proof.
  intros Hb Hs. destruct (align8_bounds buffer) as [Ha Hm]; [lia..|]. unfold mp_create_from_buffer, room, CMEM_ALIGN_MASK, TLSF_MIN_BLOCK_SIZE.
  fold (align8 buffer). rewrite (proj2 (Z.eqb_neq buffer NULL)) by (unfold NULL; lia). cbn [orb]. rewrite !(u64_small (align8 buffer - buffer)) by lia. rewrite !(u64_small (_ + 32)) by lia.
  destruct (Z.leb_spec (buffer_size - (align8 buffer - buffer) - sizeof_memory_pool - sizeof_tlsf_pool) 32) as [Hr|Hr].
  - destruct (Z.ltb_spec buffer_size (sizeof_memory_pool + sizeof_tlsf_pool + 32)); [done|].
    by rewrite (proj2 (Z.leb_le buffer_size _)) by lia.
  - rewrite (proj2 (Z.ltb_ge buffer_size _)), (proj2 (Z.leb_gt buffer_size _)) by lia. by rewrite u64_small by lia.
Qed.

(** What a pool looks like right after its creation. *)
Record laid_out (o : sys) (mem : buffer_memory) (buffer buffer_size : Z) (p : static_pool) (tp : tlsf_pool) : Prop := {
  lo_aligned : sp_addr p = align8 buffer;
  lo_control : tp_addr tp = sp_addr p + sizeof_memory_pool;
  lo_area : raw_area tp = tp_addr tp + sizeof_tlsf_pool;
  lo_size : raw_size tp = align8 (room buffer buffer_size);
  lo_root : tlsf_root (sp_tier p) = [tp];
  lo_static : has_flag (flags (sp_tier p)) MP_FLAG_STATIC_BUFFER = true;
  lo_total : total_pool_size (sp_tier p) = buffer_size;
  lo_system : osys (sp_tier p) = o;
  lo_inside : in_region tp (b_heap mem) (theap (sp_tier p));
}.

(** The arena's one free block. *)
Definition first_tiles (buffer buffer_size : Z) : list tile := [(align8 (room buffer buffer_size) - SIZEOF_TLSF_BLOCK, true)].

Lemma static_flag fl : has_flag (Z.lor fl MP_FLAG_STATIC_BUFFER) MP_FLAG_STATIC_BUFFER = true.
Proof. rewrite (has_flag_bit _ 4) by lia. rewrite Z.lor_spec. by rewrite orb_true_r. Qed.

Lemma create_run (d : Discipline) safety env nproc ok o mem buffer buffer_size flags :
  0 < buffer < 2 ^ 62 -> 0 <= buffer_size < 2 ^ 62 -> 57 <= room buffer buffer_size < 2 ^ 30 - 16 ->
  exists p tp s, mp_create_from_buffer sizeof_memory_pool sizeof_tlsf_pool safety env nproc ok o mem buffer buffer_size flags = Done (Some p) /\
    laid_out o mem buffer buffer_size p tp /\ sp_tier p = move o s /\
    @tinv (one_region (sp_addr p + sizeof_memory_pool)) sizeof_tlsf_pool d s [first_tiles buffer buffer_size].
Proof.
  intros Hb Hs Hr. destruct (align8_bounds buffer) as [Ha Hm]; [lia..|]. destruct (align8_bounds (room buffer buffer_size)) as [Ha' Hm']; [lia..|].
  rewrite create_from_buffer_eq by done. rewrite (proj2 (Z.leb_gt _ _)) by (unfold TLSF_MIN_BLOCK_SIZE; lia). cbv zeta.
  rewrite create_at by lia. set (base := align8 buffer + sizeof_memory_pool) in *. set (n := align8 (room buffer buffer_size)) in *.
  assert (Hn : 64 <= n < 2 ^ 30 - 8) by zdiv. assert (En : align8 n = n) by (apply align8_multiple; [lia|done]).
  destruct (one_region_gives base sizeof_tlsf_pool (b_heap mem) n ltac:(lia) ltac:(lia) Hn Hm') as (tp & h' & E).
  rewrite E. cbn [outcome_map mbind outcome_bind fst snd].
  destruct (@create_spec (one_region base) sizeof_tlsf_pool d [] _ _ _ _ _ E Hn ltac:(lia)) as (Hok & Hin & Hsz & Had & Hpos & Hreg & _).
  cbn [regions one_region] in Hreg. rewrite En in Hok, Hsz. injection Hreg as Hbase.
  set (fl := mp_parse_env_flags _ _).
  exists (SPool (align8 buffer) "StaticBufferArena" (slab_init_sizes (Classes false (replicate 12 0) []))
    (if has_flag fl MP_FLAG_PERCPU_FREELIST then SlabCache.percpu_init (SlabCache.Percpu None 0) nproc ok else SlabCache.Percpu None 0) Zeroed Private
    (TState (Z.lor fl MP_FLAG_STATIC_BUFFER) [tp] h' (b_headers mem) (b_payload mem) 0 buffer_size o)), tp,
    (@TState (one_region base) (Z.lor fl MP_FLAG_STATIC_BUFFER) [tp] h' (b_headers mem) (b_payload mem) 0 buffer_size [(base, sizeof_tlsf_pool + n)]).
  split; [done|]. split; [|split; [done|]].
  - split; cbn; try done; try lia. apply static_flag.
  - split; cbn [tlsf_root theap osys].
    + apply (@arenas_cons d [] h' [] tp h'); [split; [constructor|done]|exact Hok|split; done|]. intros b Hx. by apply not_elem_of_nil in Hx.
    + intros a Hx. apply list_elem_of_singleton in Hx as ->. split; [done|]. split; [lia|]. cbn [regions one_region]. rewrite Hsz, <- Hbase.
      apply list_elem_of_singleton. congruence.
Qed.

(** ** The theorems *)

(** The blocks the program of [k] holds lie in the buffer behind the control structures, in
    front of the sentinel, aligned, and apart from each other. *)
Definition confined (p : static_pool) (buffer buffer_size : Z) (k : client) : Prop :=
  NoDup (k_own k) /\
  (forall b, b ∈ k_own k -> sp_addr p + sizeof_memory_pool + sizeof_tlsf_pool <= b /\ b mod 8 = 0 /\
     32 <= span (k_tier k) b /\ b + span (k_tier k) b + 16 <= buffer + buffer_size) /\
  (forall b b', b ∈ k_own k -> b' ∈ k_own k -> b <> b' -> b + span (k_tier k) b <= b' \/ b' + span (k_tier k) b' <= b).

(** A pool, wherever its program got to. *)
Lemma confined_run o mem buffer buffer_size p tp s ops :
  0 < buffer < 2 ^ 62 -> 57 <= room buffer buffer_size < 2 ^ 30 - 16 ->
  laid_out o mem buffer buffer_size p tp -> sp_tier p = move o s ->
  @tinv (one_region (sp_addr p + sizeof_memory_pool)) sizeof_tlsf_pool loose_discipline s [first_tiles buffer buffer_size] ->
  Forall op_bounded ops ->
  client_run sizeof_tlsf_pool (Client (sp_tier p) empty_cache []) ops <> Fault /\
  forall k, client_run sizeof_tlsf_pool (Client (sp_tier p) empty_cache []) ops = Done k ->
    keeps (sp_tier p) (k_tier k) /\ confined p buffer buffer_size k /\
    exists k0 Ls St, k = move_client o k0 /\ @client_ok (one_region (sp_addr p + sizeof_memory_pool)) sizeof_tlsf_pool k0 Ls St.
Proof.
  intros Hb Hr [Hal Hct Har Hsz Hro Hst _ _ _] Es T Hops. set (sys1 := one_region _) in *.
  assert (Hs0 : static_tier s) by (split; [by rewrite Es in Hst|rewrite Es in Hro; cbn in Hro; by rewrite Hro]).
  destruct (@cache_client_run_ok sys1 sizeof_tlsf_pool ltac:(lia) ops (Client s empty_cache []) [first_tiles buffer buffer_size] no_parked) as [Hf Hd]; [|done|].
  { apply idle_client_ok; [exact T|]. intros b n (i & a & L & _ & HL & Hx). destruct i as [|i]; [|done]. injection HL as <-. cbn in Hx. by apply not_elem_of_nil in Hx. }
  assert (Er : client_run sizeof_tlsf_pool (Client (sp_tier p) empty_cache []) ops =
    outcome_map (move_client o) (client_run sizeof_tlsf_pool (Client s empty_cache []) ops)) by (rewrite Es; by apply (client_run_move sizeof_tlsf_pool o ops (Client s empty_cache []))).
  split; [rewrite Er; by destruct (client_run _ _ _)|]. intros k Ek.
  assert (K : keeps (sp_tier p) (k_tier k)) by (eapply (client_run_keeps sizeof_tlsf_pool ops (Client (sp_tier p) empty_cache [])); [split; [exact Hst|by cbn; rewrite Hro]|done]).
  split; [done|]. rewrite Er in Ek. destruct (client_run sizeof_tlsf_pool (Client s empty_cache []) ops) as [k0| |]; [|done..].
  destruct (Hd k0 eq_refl) as (Ls & St & Hk). cbn [outcome_map] in Ek. apply Done_inj in Ek. subst k. split; [|by exists k0, Ls, St].
  destruct K as [_ Ka _ _]. rewrite Hro in Ka. apply Forall2_cons_inv_l in Ka as (tp' & ps' & (S1 & S2 & S3) & Hnil & Hps). apply Forall2_nil_inv_l in Hnil as ->.
  pose proof Hk as [[T' _ _ _ _] _ Hnd Hh]. unfold confined. cbn [move_client k_tier k_own move tlsf_root] in *.
  destruct (align8_bounds (room buffer buffer_size)) as [Hra Hrm]; [lia..|]. destruct (align8_bounds buffer) as [Hba Hbm]; [lia..|]. unfold room in *.
  assert (Hspan : forall b, b ∈ k_own k0 -> exists t n, held (k_tier k0) Ls b t n /\ span (move o (k_tier k0)) b = n).
  { intros b Hx. destruct (Hh b Hx) as (t & n & H1 & _). exists t, n. split; [done|]. unfold span. cbn [move theap].
    exact (@held_span sys1 loose_discipline sizeof_tlsf_pool (k_tier k0) Ls b t n T' H1). }
  split; [done|]. split.
  - intros b Hx. destruct (Hspan b Hx) as (t & n & (i & a & L & Hi & HL & Hbl & _) & ->). rewrite Hps in Hi. destruct i as [|i]; [|done]. injection Hi as <-.
    destruct (@arenas_lookup loose_discipline _ _ _ 0%nat tp' (ti_arenas _ _ _ T') ltac:(by rewrite Hps)) as (L0 & HL0 & [[Hp _] _ Hext _ _]).
    assert (L0 = L) as -> by congruence. destruct (lives_range _ _ _ _ _ _ _ Hp Hbl) as (? & ? & [Hmin _]).
    destruct (lives_split _ _ _ _ _ _ _ Hp Hbl) as (l1 & l2 & -> & Hbe). apply phys_app in Hp as [Hp1 _]. pose proof (phys_extent_mod _ _ _ _ _ Hp1).
    unfold SIZEOF_TLSF_BLOCK, TLSF_MIN_BLOCK_SIZE in *. split; [lia|]. split; [zdiv|]. split; [done|]. lia.
  - intros b b' Hx Hx' Hne. destruct (Hspan b Hx) as (t & n & H1 & ->), (Hspan b' Hx') as (t' & n' & H1' & ->).
    exact (@live_disjoint loose_discipline _ _ _ _ _ _ _ (ti_arenas _ _ _ T') (held_live _ _ _ _ _ H1) (held_live _ _ _ _ _ H1') Hne).
Qed.

(** A pool is made of every buffer that leaves more than TLSF_MIN_BLOCK_SIZE bytes behind
    the control structures, and of no other; creation never faults. *)
Theorem static_create_iff safety env nproc ok o mem buffer buffer_size flags :
  0 < buffer < 2 ^ 62 -> 0 <= buffer_size < 2 ^ 62 -> room buffer buffer_size < 2 ^ 30 - 16 ->
  let r := mp_create_from_buffer sizeof_memory_pool sizeof_tlsf_pool safety env nproc ok o mem buffer buffer_size flags in
  if room buffer buffer_size <=? TLSF_MIN_BLOCK_SIZE then r = Done None else exists p, r = Done (Some p).
Proof.
  intros Hb Hs Hr r. subst r. destruct (Z.leb_spec (room buffer buffer_size) TLSF_MIN_BLOCK_SIZE) as [Hle|Hgt].
  { rewrite create_from_buffer_eq by done. by rewrite (proj2 (Z.leb_le _ _) Hle). }
  destruct (Z.le_gt_cases 57 (room buffer buffer_size)) as [H57|H57].
  { destruct (create_run loose_discipline safety env nproc ok o mem buffer buffer_size flags Hb Hs ltac:(lia)) as (p & tp & s & E & _). eauto. }
  rewrite create_from_buffer_eq by done. rewrite (proj2 (Z.leb_gt _ _) Hgt). cbv zeta. unfold TLSF_MIN_BLOCK_SIZE in Hgt.
  destruct (align8_bounds buffer) as [Ha Hm]; [lia..|]. destruct (align8_bounds (room buffer buffer_size)) as [Ha' Hm']; [lia..|].
  unfold tlsf_create_pool_custom. rewrite !(proj2 (Z.eqb_neq (align8 buffer + sizeof_memory_pool) NULL)) by (unfold NULL; lia).
  assert (Hn : exists f, tlsf_mapping_insert (block_size (Z.lor (u64 (align8 (room buffer buffer_size) - SIZEOF_TLSF_BLOCK)) BLOCK_STATE_FREE)) = Done f /\ fl_ok f.1 /\ sl_ok f.2).
  { assert (align8 (room buffer buffer_size) = 40 \/ align8 (room buffer buffer_size) = 48 \/ align8 (room buffer buffer_size) = 56) as [->|[->| ->]] by zdiv;
      (eexists; split; [vm_compute; reflexivity|split; split; vm_compute; done]). }
  destruct Hn as ([fl sl] & -> & Hfl & Hsl). cbn [mbind outcome_bind fst snd] in *. rewrite (ld_Some _ _ _ (zero_rows_lookup fl Hfl)). cbn [mbind outcome_bind].
  rewrite (zero_blocks_lookup fl sl Hfl Hsl). cbn [mbind outcome_bind]. by eexists.
Qed.

(** C28: a static pool lives in its buffer.  Creation in a buffer with room behind the
    control structures succeeds, 8-aligned and inside.  Whatever its program then does with
    it (allocate, release, flush, grow in place), nothing faults, the system is never asked
    for anything, the pool size stays that of the buffer, and the blocks the program holds
    lie between the control structures and the end of the buffer, aligned and pairwise
    disjoint, although the arena's size is rounded up past the buffer's end. *)
Theorem static_pool_confined safety env nproc ok o mem buffer buffer_size flags ops :
  0 < buffer < 2 ^ 62 -> 0 <= buffer_size < 2 ^ 62 -> 57 <= room buffer buffer_size < 2 ^ 30 - 16 -> Forall op_bounded ops ->
  exists p, mp_create_from_buffer sizeof_memory_pool sizeof_tlsf_pool safety env nproc ok o mem buffer buffer_size flags = Done (Some p) /\
    buffer <= sp_addr p <= buffer + 7 /\ sp_addr p mod 8 = 0 /\
    client_run sizeof_tlsf_pool (Client (sp_tier p) empty_cache []) ops <> Fault /\
    forall k, client_run sizeof_tlsf_pool (Client (sp_tier p) empty_cache []) ops = Done k ->
      osys (k_tier k) = o /\ total_pool_size (k_tier k) = buffer_size /\ confined p buffer buffer_size k.
Proof.
  intros Hb Hs Hr Hops. destruct (create_run loose_discipline safety env nproc ok o mem buffer buffer_size flags Hb Hs Hr) as (p & tp & s & E & L & Es & T).
  destruct (confined_run o mem buffer buffer_size p tp s ops Hb Hr L Es T Hops) as [Hf Hd]. exists p. split; [done|].
  destruct (align8_bounds buffer) as [Ha Hm]; [lia..|]. rewrite (lo_aligned _ _ _ _ _ _ L). split; [lia|]. split; [done|]. split; [done|].
  intros k Ek. destruct (Hd k Ek) as ([_ _ Kt Ko] & Hc & _). split; [by rewrite Ko; eapply lo_system|]. split; [by rewrite Kt; eapply lo_total|done].
Qed.

(** What the buffer held before makes no difference to the new pool: creating a second pool
    over a first one (attaching to a shared object) forgets its blocks, and the arena starts
    with the same covering free block. *)
Theorem attach_resets safety env nproc ok o mem mem' buffer buffer_size flags p p' :
  mp_create_from_buffer sizeof_memory_pool sizeof_tlsf_pool safety env nproc ok o mem buffer buffer_size flags = Done (Some p) ->
  mp_create_from_buffer sizeof_memory_pool sizeof_tlsf_pool safety env nproc ok o mem' buffer buffer_size flags = Done (Some p') ->
  exists tp, tlsf_root (sp_tier p) = [tp] /\ tlsf_root (sp_tier p') = [tp] /\ tlsf_allocated_bytes (sp_tier p') = 0 /\
    size_and_flags (theap (sp_tier p')) !! raw_area tp = size_and_flags (theap (sp_tier p)) !! raw_area tp.
Proof.
  clear. unfold mp_create_from_buffer. intros E E'. destruct (_ || _); [done|]. destruct (_ <=? _); [done|].
  apply bind_Done_inv in E as ([[r h] o1] & Hb & E), E' as ([[r' h'] o1'] & Hb0 & E'). destruct r as [tp|]; [|done]. destruct (create_forgets _ _ _ _ _ _ _ _ (b_heap mem') Hb) as (h2 & E2 & Hw).
  rewrite E2 in Hb0. apply Done_inj in Hb0. injection Hb0 as <- <- <-. apply Done_inj in E, E'. injection E as <-. injection E' as <-. by exists tp.
Qed.

End Layout.

(** ** Shared memory *)

Section Shared.
Context `{S : SysMem} `{MM : Slab.Mmap}.
Context (sizeof_memory_pool sizeof_tlsf_pool : Z).

(** The sizes of the shared-memory objects by name, and the address space. *)
Record shm_world := Shm { objects : gmap string Z; space : Slab.vm }.

Definition set_shared (p : static_pool) (name : string) (locks : lock_state) (registry : lock_state) : static_pool :=
  SPool (sp_addr p) name (sp_classes p) (sp_percpu p) locks registry (sp_tier p).

(** [snprintf(arena_name, 64, "SharedIPC[%s]", shm_name)]. *)
Definition shared_name (shm_name : string) : string := String.substring 0 63 ("SharedIPC[" ++ shm_name ++ "]").

(** [open_ok] and [trunc_ok] are the outcomes of [shm_open] and [ftruncate]; opening a null
    name is a fault.  [mem] is what the mapping holds. *)
Definition mp_create_shared (safety_flags : Z) (env : option string) (nproc : Z) (calloc_ok open_ok trunc_ok : bool)
    (o : sys) (mem : buffer_memory) (w : shm_world) (shm_name : option string) (capacity flags : Z)
    : outcome (option static_pool * shm_world) :=
  let capacity := match shm_name with None => 1024 * 1024 | Some _ => if capacity <? 64 * 1024 then 1024 * 1024 else capacity end in
  let flags := cmem_resolve_default_flags safety_flags flags in
  match shm_name with
  | None => Fault
  | Some name =>
      if negb open_ok then Done (None, w)
      else if negb trunc_ok then Done (None, Shm (<[name := default 0 (objects w !! name)]> (objects w)) (space w))
      else
        match Slab.mmap (space w) capacity with
        | (None, v) => Done (None, Shm (<[name := capacity]> (objects w)) v)
        | (Some shm_ptr, v) =>
            let w := Shm (<[name := capacity]> (objects w)) v in
            pool ← mp_create_from_buffer sizeof_memory_pool sizeof_tlsf_pool safety_flags env nproc calloc_ok o mem shm_ptr capacity
                     (Z.lor flags MP_FLAG_SHARED_MEMORY);
            match pool with
            | None => Done (None, w)
            | Some p =>
                let shared := has_flag flags MP_FLAG_THREAD_SAFE in
                Done (Some (set_shared p (shared_name name) (if shared then ProcessShared else pool_locks p)
                              (if shared then ProcessShared else arena_registry_lock p)), w)
            end
        end
  end.

(** The pool at [pool] with its tier [s], from a thread whose cache [c] serves it. *)
Definition mp_destroy_shared (w : shm_world) (pool : Z) (s : tstate) (c : tls_cache) (shm_name : option string) : outcome shm_world :=
  if pool =? NULL then Done w
  else
    r ← tlsf_cache_flush s c;
    let '(s, _) := r in
    let sz := total_pool_size s in
    let w := Shm (objects w) (Slab.munmap (space w) pool sz) in
    Done (match shm_name with Some name => Shm (delete name (objects w)) (space w) | None => w end).

Context (Hpool : 0 < sizeof_memory_pool < 2 ^ 31) (Hpool8 : sizeof_memory_pool mod 8 = 0).
Context (Htlsf : 0 < sizeof_tlsf_pool < 2 ^ 31) (Htlsf8 : sizeof_tlsf_pool mod 8 = 0).
(** Mappings start at a page and lie in the lower half of the address space. *)
Context (mmap_page : forall o n p o', 0 < n -> Slab.mmap o n = (Some p, o') -> p mod 4096 = 0 /\ p < 2 ^ 62).
(** The control structures leave most of the smallest shared pool free. *)
Context (Hsmall : sizeof_memory_pool + sizeof_tlsf_pool + 57 <= 64 * 1024).

Definition shared_capacity (capacity : Z) : Z := if capacity <? 64 * 1024 then 1024 * 1024 else capacity.

(** C29: a shared pool's life.  With the object opened and sized, creation fails only when the mapping does;
    the pool then starts where the mapping does.  Whatever its program does with it in between,
    [mp_destroy_shared] unmaps exactly the bytes that were mapped and unlinks the object. *)
Theorem shared_roundtrip safety env nproc ok o mem w name capacity flags p w1 ops k :
  0 <= capacity < 2 ^ 30 - 16 -> Forall op_bounded ops ->
  mp_create_shared safety env nproc ok true true o mem w (Some name) capacity flags = Done (p, w1) ->
  match p with
  | None => fst (Slab.mmap (space w) (shared_capacity capacity)) = None /\ forall x, Slab.mapped (space w1) x <-> Slab.mapped (space w) x
  | Some p =>
      sp_addr p mod 4096 = 0 /\ (forall x, sp_addr p <= x < sp_addr p + shared_capacity capacity -> Slab.mapped (space w1) x /\ ~ Slab.mapped (space w) x) /\
      (client_run sizeof_tlsf_pool (Client (sp_tier p) empty_cache []) ops = Done k ->
       exists w2, mp_destroy_shared w1 (sp_addr p) (k_tier k) (k_cache k) (Some name) = Done w2 /\
         (forall x, Slab.mapped (space w2) x <-> Slab.mapped (space w) x) /\ objects w2 = delete name (objects w))
  end.
Proof.
  intros Hc Hops E. unfold mp_create_shared in E. fold (shared_capacity capacity) in E. cbn [negb] in E. cbv zeta in E.
  assert (Hcap : 64 * 1024 <= shared_capacity capacity < 2 ^ 30 - 16) by (unfold shared_capacity; destruct (Z.ltb_spec capacity (64 * 1024)); lia).
  set (cap := shared_capacity capacity) in *. destruct (Slab.mmap (space w) cap) as [[a|] v] eqn:Em.
  2: { injection E as <- <-. apply Slab.mmap_spec in Em; [|lia]. by split. }
  assert (Hcap0 : 0 < cap) by lia.
  pose proof (Slab.mmap_spec _ _ _ _ Hcap0 Em) as (Ha & Hend & Hfresh & Hmap). destruct (mmap_page _ _ _ _ Hcap0 Em) as [Hpg Hlow].
  assert (Hal : align8 a = a) by (apply align8_multiple; [lia|zdiv]).
  assert (Hroom : room sizeof_memory_pool sizeof_tlsf_pool a cap = cap - sizeof_memory_pool - sizeof_tlsf_pool) by (unfold room; lia).
  set (fl := Z.lor _ MP_FLAG_SHARED_MEMORY) in *.
  destruct (create_run _ _ Hpool Htlsf loose_discipline safety env nproc ok o mem a cap fl ltac:(lia) ltac:(lia) ltac:(lia)) as (p0 & tp & s & Ec & L & Es & T).
  rewrite Ec in E. cbn [mbind outcome_bind] in E. injection E as <- <-. cbn [set_shared sp_addr sp_tier].
  assert (Ea : sp_addr p0 = a) by (rewrite (lo_aligned _ _ _ _ _ _ _ _ L); exact Hal). rewrite Ea. split; [done|]. cbn [space objects].
  split; [intros x Hx; split; [apply Hmap; by right|by apply Hfresh]|]. intros Ek.
  destruct (confined_run _ _ Hpool8 Htlsf Htlsf8 o mem a cap p0 tp s ops ltac:(lia) ltac:(lia) L Es T Hops) as [_ Hd].
  destruct (Hd k Ek) as ([_ _ Kt _] & _ & k0 & Ls & St & -> & Hk).
  unfold mp_destroy_shared. rewrite (proj2 (Z.eqb_neq a NULL)) by (unfold NULL; lia). cbn [move_client k_tier k_cache] in *.
  destruct (@cache_flush_run (one_region (sp_addr p0 + sizeof_memory_pool)) sizeof_tlsf_pool ltac:(lia) (k_tier k0) (k_cache k0) Ls St (ck_inv _ _ _ _ Hk)) as (s' & c' & Ls' & Ef & _).
  unfold tlsf_cache_flush in *. pose proof (flush_classes_keeps _ _ _ _ _ Ef) as [_ _ Kt' _]. rewrite flush_classes_move, Ef. cbn [outcome_map fst snd mbind outcome_bind].
  eexists. split; [done|]. cbn [space objects move total_pool_size] in *. rewrite Kt', Kt, (lo_total _ _ _ _ _ _ _ _ L). split; [|apply delete_insert_eq].
  intros x. rewrite Slab.munmap_spec, Hmap. pose proof (Hfresh x). split; [intros [[?|?] ?]; tauto|]. intros Hx. split; [by left|]. intros Hin. by apply Hfresh in Hin.
Qed.

End Shared.

(** ** Concrete buffers *)

#[local] Instance demo_nothing : SysMem := one_region 4096.

Definition demo_memory : buffer_memory := Memory (Heap ∅ ∅ (Links ∅ ∅)) ∅ (fun _ => 0).

(** An unaligned buffer whose size is no multiple of eight. *)
Definition demo_static : outcome (option static_pool) :=
  mp_create_from_buffer 8192 23240 0 None 4 true [] demo_memory 1048579 200003 MP_FLAG_THREAD_SAFE.

Definition demo_static_ops : list client_op :=
  [OAlloc 1000; OAlloc 50000; OFree 1080016; OAlloc 300; OAlloc 200000; OFlush; OAlloc 700].

Example static_layout_demo :
  match demo_static with
  | Done (Some p) => (sp_addr p, map (fun tp => (raw_area tp, raw_size tp)) (tlsf_root (sp_tier p)), pool_locks p)
  | _ => (0, [], Private)
  end = (1048584, [(1080016, 168568)], Zeroed).
Proof. vm_compute. reflexivity. Qed.

Lemma static_pool_confined_witness :
  exists p, demo_static = Done (Some p) /\
    client_run 23240 (Client (sp_tier p) empty_cache []) demo_static_ops <> Fault /\
    forall k, client_run 23240 (Client (sp_tier p) empty_cache []) demo_static_ops = Done k ->
      osys (k_tier k) = [] /\ confined 8192 23240 p 1048579 200003 k.
Proof.
  assert (B : Forall op_bounded demo_static_ops) by (repeat constructor; cbn; lia).
  destruct (static_pool_confined 8192 23240 ltac:(lia) eq_refl ltac:(lia) eq_refl 0 None 4 true (@nil (Z * Z) : @sys demo_nothing) demo_memory 1048579 200003 MP_FLAG_THREAD_SAFE
    demo_static_ops ltac:(lia) ltac:(lia) ltac:(change (room 8192 23240 1048579 200003) with 168566; lia) B) as (p & E & _ & _ & Hf & Hd).
  exists p. split; [exact E|]. split; [exact Hf|]. intros k Ek. destruct (Hd k Ek) as (Ho & _ & Hc). exact (conj Ho Hc).
Defined.

(** The blocks, in the buffer: the request for 200000 bytes found no room. *)
Example static_run_demo :
  match demo_static with
  | Done (Some p) =>
      match client_run 23240 (Client (sp_tier p) empty_cache []) demo_static_ops with
      | Done k => map (fun b => (b, span (k_tier k) b)) (k_own k)
      | _ => []
      end
  | _ => []
  end = [(1080016, 888); (1131384, 488); (1081200, 50184)].
Proof. vm_compute. reflexivity. Qed.

(** Whole pages handed out upwards. *)
Definition paged_mmap (o : Z * (Z -> bool)) (n : Z) : option Z * (Z * (Z -> bool)) :=
  let '(next, f) := o in
  let p := (next + 4095) / 4096 * 4096 in
  if (0 <? next) && (0 <? n) && (p + n <? 2 ^ 62) then (Some p, (p + n, fun x => if x <? next then f x else p <=? x)) else (None, o).

Lemma paged_mmap_spec o n r o' :
  0 < n -> paged_mmap o n = (r, o') ->
  match r with
  | None => forall x, Slab.bump_mapped o' x <-> Slab.bump_mapped o x
  | Some p => 0 < p /\ p + n < 2 ^ 64 /\ (forall x, p <= x < p + n -> ~ Slab.bump_mapped o x) /\
              forall x, Slab.bump_mapped o' x <-> Slab.bump_mapped o x \/ p <= x < p + n
  end.
Proof.
  destruct o as [next f]. unfold paged_mmap, Slab.bump_mapped. intros Hn. set (p := (next + 4095) / 4096 * 4096).
  assert (next <= p) by (subst p; zdiv). rewrite (proj2 (Z.ltb_lt 0 n)) by done.
  destruct (Z.ltb_spec 0 next), (Z.ltb_spec (p + n) (2 ^ 62)); intros [= <- <-]; cbn; try done.
  split; [lia|]. split; [lia|]. split; [lia|]. intros x. destruct (Z.ltb_spec x next).
  - split; [intros [? ?]; left; by split|intros [[? ?]|?]; [split; [lia|done]|lia]].
  - rewrite Z.leb_le. split; [intros [? ?]; right; lia|intros [[? ?]|?]; lia].
Qed.

Definition paged : Slab.Mmap := {|
  Slab.vm := Z * (Z -> bool);
  Slab.mmap := paged_mmap;
  Slab.munmap := Slab.bump_munmap;
  Slab.mapped := Slab.bump_mapped;
  Slab.mmap_spec := paged_mmap_spec;
  Slab.munmap_spec := Slab.bump_munmap_spec;
|}.

Lemma paged_page (o : @Slab.vm paged) (n p : Z) (o' : @Slab.vm paged) : 0 < n -> Slab.mmap o n = (Some p, o') -> p mod 4096 = 0 /\ p < 2 ^ 62.
Proof.
  destruct o as [next f]. cbn [Slab.mmap paged]. unfold paged_mmap. intros Hn. destruct ((0 <? next) && (0 <? n)); cbn [andb]; [|done].
  destruct (Z.ltb_spec ((next + 4095) / 4096 * 4096 + n) (2 ^ 62)) as [Hl|]; [|done]. intros [= <- <-]. split; [by apply Z.mod_mul|lia].
Qed.

Definition demo_world : @shm_world paged := @Shm paged ∅ (4097, fun _ => false).

Definition demo_shared : outcome (option static_pool * @shm_world paged) :=
  mp_create_shared 8192 23240 0 None 4 true true true (@nil (Z * Z) : @sys demo_nothing) demo_memory demo_world (Some "/cmem0"%string) 100 MP_FLAG_THREAD_SAFE.

Definition shared_ops : list client_op := [OAlloc 1000; OAlloc 500000; OAlloc 40].

Lemma shared_roundtrip_witness :
  exists p w1 k w2, demo_shared = Done (Some p, w1) /\ client_run 23240 (Client (sp_tier p) empty_cache []) shared_ops = Done k /\
    mp_destroy_shared w1 (sp_addr p) (k_tier k) (k_cache k) (Some "/cmem0"%string) = Done w2 /\
    (forall x, Slab.mapped (space w2) x <-> Slab.mapped (space demo_world) x) /\ length (k_own k) = 3%nat.
Proof.
  assert (B : Forall op_bounded shared_ops) by (repeat constructor; cbn; lia).
  assert (R : match demo_shared with Done (Some p, _) => match client_run 23240 (Client (sp_tier p) empty_cache []) shared_ops with Done k => (length (k_own k) =? 3)%nat | _ => false end | _ => false end = true)
    by (vm_compute; reflexivity).
  destruct demo_shared as [[[p|] w1]| |] eqn:E; try discriminate R.
  destruct (client_run _ _ shared_ops) as [k| |] eqn:Ek; try discriminate R.
  pose proof (shared_roundtrip 8192 23240 ltac:(lia) eq_refl ltac:(lia) eq_refl paged_page ltac:(lia) 0 None 4 true (@nil (Z * Z) : @sys demo_nothing) demo_memory
    demo_world "/cmem0"%string 100 MP_FLAG_THREAD_SAFE (Some p) w1 shared_ops k ltac:(lia) B E) as (_ & _ & H).
  destruct (H Ek) as (w2 & Hw & Hm & _). exists p, w1, k, w2. split; [reflexivity|]. split; [exact Ek|]. split; [exact Hw|]. split; [exact Hm|].
  apply Nat.eqb_eq. exact R.
Defined.
