(* ===== verification/DestroySlabs.v ===== *)
(** * The slab pages in [mp_destroy]

    The release of the pages of all classes in [mp_destroy] of [src/cmem_lifecycle.c], on the
    state of [Slab] and [SlabCache].  The arenas are in [DestroyArenas], the tree of pools in
    [PoolTree]. *)
From S2P Require Import Prelude Header Dll SizeClass Slab SlabCache Reclaim.
From Stdlib Require Import ZArith Lia.
From stdpp Require Import base option list gmap.
Open Scope Z_scope.

(** ** Slab pages *)

Section Slabs.
Context `{MM : Mmap}.

(** [while (curr) { next = curr->next; cmem_munmap(curr->page_raw_mem, SLAB_PAGE_SIZE); curr = next; }],
    with the pages unmapped, in order. *)
Fixpoint unmap_list (fuel : nat) (m : slab_mem) (curr : Z) : outcome (list Z * slab_mem) :=
  match fuel with
  | O => Fault
  | S fuel =>
      if curr =? NULL then Done ([], m)
      else
        next ← ld (nxt (plinks m)) curr;
        _ ← ldp m curr;
        r ← unmap_list fuel (unmap_page m curr) next;
        let '(l, m) := r in Done (curr :: l, m)
  end.

Definition release_class (m : slab_mem) (sc : slab_class) : outcome (list Z * slab_mem) :=
  r ← unmap_list (page_fuel m) m (partial_pages sc);
  let '(l1, m) := r in
  r ← unmap_list (page_fuel m) m (full_pages sc);
  let '(l2, m) := r in
  r ← unmap_list (page_fuel m) m (empty_pages sc);
  let '(l3, m) := r in
  Done (l1 ++ l2 ++ l3, m).

(** [for (int i = 0; i < SLAB_CLASS_COUNT; i++)]. *)
Fixpoint release_classes (n : nat) (i : Z) (m : slab_mem) (cls : gmap Z slab_class) : outcome (list Z * slab_mem) :=
  match n with
  | O => Done ([], m)
  | S n =>
      sc ← match cls !! i with Some sc => Done sc | None => Fault end;
      r ← release_class m sc;
      let '(l, m) := r in
      r ← release_classes n (i + 1) m cls;
      let '(l', m) := r in Done (l ++ l', m)
  end.

(** After the flushes; a static pool keeps everything. *)
Definition destroy_slabs (s : slab_tier) : outcome (list Z * slab_mem) :=
  if has_flag (sflags (tm s)) MP_FLAG_STATIC_BUFFER then Done ([], tm s)
  else release_classes (Z.to_nat SLAB_CLASS_COUNT) 0 (tm s) (slab_classes s).

(** The pages [l] are gone, the others as they were. *)
Record released (m m' : slab_mem) (l : list Z) : Prop := {
  rl_space : reclaimed m m' l;
  rl_gone : forall pg, pg ∈ l -> pages m' !! pg = None;
  rl_pages : forall x, x ∉ l -> pages m' !! x = pages m !! x;
  rl_links : forall x, x ∉ l -> nxt (plinks m') !! x = nxt (plinks m) !! x /\ prv (plinks m') !! x = prv (plinks m) !! x;
}.

Lemma released_nil m : released m m [].
Proof. split; [apply reclaimed_refl| |done..]. intros pg Hp. by apply not_elem_of_nil in Hp. Qed.

Lemma released_trans m1 m2 m3 l1 l2 : released m1 m2 l1 -> released m2 m3 l2 -> released m1 m3 (l1 ++ l2).
Proof.
  intros [S1 G1 P1 K1] [S2 G2 P2 K2]. split.
  - by eapply reclaimed_trans.
  - intros pg Hp. destruct (decide (pg ∈ l2)) as [Hin|Hout]; [by apply G2|]. rewrite P2 by done. apply G1. by apply elem_of_app in Hp as [?|?].
  - intros x Hx. rewrite elem_of_app in Hx. rewrite P2, P1 by tauto. done.
  - intros x Hx. rewrite elem_of_app in Hx. destruct (K2 x ltac:(tauto)) as [-> ->]. apply K1. tauto.
Qed.

Lemma released_page m pg : released m (unmap_page m pg) [pg].
Proof.
  split.
  - assert (E : set_plinks m (plinks m) = m) by by destruct m. rewrite <- E at 2. apply reclaimed_unmap.
  - intros x Hx. apply list_elem_of_singleton in Hx as ->. cbn. apply lookup_delete_eq.
  - intros x Hx. cbn. rewrite lookup_delete_ne; [done|]. intros ->. apply Hx. by apply list_elem_of_singleton.
  - intros x Hx. cbn. rewrite !lookup_delete_ne; [done|..]; intros ->; apply Hx; by apply list_elem_of_singleton.
Qed.

Lemma unmap_list_spec l : forall fuel m pv p,
  seg (plinks m) pv p l NULL -> NoDup l -> (forall x, x ∈ l -> is_Some (pages m !! x)) -> (length l < fuel)%nat ->
  exists m', unmap_list fuel m p = Done (l, m') /\ released m m' l.
Proof.
  induction l as [|x l IH]; intros fuel m pv p Hs Hd Hp Hf; (destruct fuel as [|fuel]; [cbn in Hf; lia|]); cbn [unmap_list seg] in *.
  { subst p. exists m. split; [done|apply released_nil]. }
  destruct Hs as (-> & Hx & _ & nx & Hn & Hs). apply NoDup_cons in Hd as [Hxl Hd]. rewrite (proj2 (Z.eqb_neq x NULL) Hx), (ld_Some _ _ _ Hn). cbn [mbind outcome_bind].
  destruct (Hp x) as [pg Hpg]; [left|]. unfold ldp. rewrite Hpg. cbn [mbind outcome_bind].
  assert (Hne : forall y, y ∈ l -> y ∉ [x]) by (intros y Hy ->%list_elem_of_singleton; done). pose proof (released_page m x) as R.
  destruct (IH fuel (unmap_page m x) x nx) as (m' & -> & R'); [|done| |cbn in Hf; lia|].
  - eapply seg_frame; [|exact Hs]. intros y Hy. apply (rl_links _ _ _ R). by apply Hne.
  - intros y Hy. rewrite (rl_pages _ _ _ R) by (by apply Hne). apply Hp. by right.
  - exists m'. split; [done|]. by apply (released_trans _ _ _ [x] l R R').
Qed.

(** The pages of a class, list by list. *)
Definition class_pages (m : slab_mem) (sc : slab_class) (l : list Z) : Prop :=
  exists P F E, l = P ++ F ++ E /\ dll (plinks m) (partial_pages sc) P /\ dll (plinks m) (full_pages sc) F /\ dll (plinks m) (empty_pages sc) E.

Lemma dll_released m m' gone hd l : released m m' gone -> (forall x, x ∈ l -> x ∉ gone) -> dll (plinks m) hd l -> dll (plinks m') hd l.
Proof. intros R Hd. apply dll_frame. intros x Hx. apply (rl_links _ _ _ R). by apply Hd. Qed.

Lemma dll_unmap m hd l : dll (plinks m) hd l -> (forall x, x ∈ l -> is_Some (pages m !! x)) ->
  exists m', unmap_list (page_fuel m) m hd = Done (l, m') /\ released m m' l.
Proof. intros Hd Hp. pose proof (dll_fuel _ _ _ Hd) as Hf. destruct Hd as [Hs Hnd]. by eapply unmap_list_spec. Qed.

Lemma release_class_spec m sc l :
  class_pages m sc l -> NoDup l -> (forall x, x ∈ l -> is_Some (pages m !! x)) -> exists m', release_class m sc = Done (l, m') /\ released m m' l.
Proof.
  intros (P & F & E & -> & HP & HF & HE) Hd Hp. apply NoDup_app in Hd as (_ & D1 & Hd). apply NoDup_app in Hd as (_ & D2 & _).
  assert (Hin : forall x, x ∈ P \/ x ∈ F \/ x ∈ E -> is_Some (pages m !! x)) by (intros x Hx; apply Hp; by rewrite !elem_of_app).
  assert (DP : forall x, x ∈ F \/ x ∈ E -> x ∉ P) by (intros x Hx Hx'; apply (D1 x Hx'); by rewrite elem_of_app).
  assert (DF : forall x, x ∈ E -> x ∉ F) by (intros x Hx Hx'; by apply (D2 x Hx')).
  unfold release_class. destruct (dll_unmap m _ P HP) as (m1 & -> & R1); [auto|]. cbn [mbind outcome_bind].
  destruct (dll_unmap m1 (full_pages sc) F) as (m2 & -> & R2); [eapply dll_released; eauto| |].
  { intros x Hx. rewrite (rl_pages _ _ _ R1) by auto. auto. }
  cbn [mbind outcome_bind]. pose proof (released_trans _ _ _ _ _ R1 R2) as R12.
  assert (DPF : forall x, x ∈ E -> x ∉ P ++ F) by (intros x Hx; rewrite elem_of_app; intros [?|?]; [by apply (DP x); [right|]|by apply (DF x)]).
  destruct (dll_unmap m2 (empty_pages sc) E) as (m3 & -> & R3); [eapply dll_released; eauto| |].
  { intros x Hx. rewrite (rl_pages _ _ _ R12) by auto. auto. }
  cbn [mbind outcome_bind]. exists m3. split; [done|]. rewrite app_assoc. by eapply released_trans.
Qed.

Lemma class_pages_released m m' gone sc l : released m m' gone -> (forall x, x ∈ l -> x ∉ gone) -> class_pages m sc l -> class_pages m' sc l.
Proof.
  intros R Hd (P & F & E & -> & HP & HF & HE). exists P, F, E. setoid_rewrite elem_of_app in Hd. setoid_rewrite elem_of_app in Hd.
  split; [done|]. split; [|split]; (eapply dll_released; [exact R| |done]); intros x Hx; apply Hd; tauto.
Qed.

Lemma release_classes_spec cls ls : forall i m,
  (forall j l, ls !! j = Some l -> exists sc, cls !! (i + Z.of_nat j) = Some sc /\ class_pages m sc l) ->
  NoDup (concat ls) -> (forall x, x ∈ concat ls -> is_Some (pages m !! x)) ->
  exists m', release_classes (length ls) i m cls = Done (concat ls, m') /\ released m m' (concat ls).
Proof.
  induction ls as [|l ls IH]; intros i m Hc Hd Hp; cbn [length concat release_classes]; [exists m; split; [done|apply released_nil]|].
  destruct (Hc 0%nat l eq_refl) as (sc & Hsc & Hl). rewrite Z.add_0_r in Hsc. rewrite Hsc. cbn [mbind outcome_bind concat] in *.
  apply NoDup_app in Hd as (Hdl & Hdis & Hd). destruct (release_class_spec m sc l Hl Hdl) as (m1 & -> & R1).
  { intros x Hx. apply Hp. apply elem_of_app. by left. }
  cbn [mbind outcome_bind]. assert (Hdis' : forall x, x ∈ concat ls -> x ∉ l) by (intros x Hx Hx'; by apply (Hdis x Hx')).
  destruct (IH (i + 1) m1) as (m2 & -> & R2); [|done| |].
  - intros j l' Hj. destruct (Hc (S j) l' Hj) as (sc' & Hsc' & Hl'). exists sc'. split; [rewrite <- Hsc'; f_equal; lia|].
    eapply class_pages_released; [exact R1| |exact Hl']. intros x Hx. apply Hdis'. apply list_elem_of_In, in_concat. exists l'.
    split; [by apply list_elem_of_In, (list_elem_of_lookup_2 _ j)|by apply list_elem_of_In].
  - intros x Hx. rewrite (rl_pages _ _ _ R1) by auto. apply Hp. apply elem_of_app. by right.
  - cbn [mbind outcome_bind]. exists m2. split; [done|]. by eapply released_trans.
Qed.

(** [mp_destroy] walks the three lists of every class, unmaps each of their pages
    exactly once, and never reads a page it has unmapped.  Afterwards exactly the bytes of
    these pages are gone from the address space; a static pool keeps everything. *)
Theorem slabs_released s ls :
  has_flag (sflags (tm s)) MP_FLAG_STATIC_BUFFER = false -> zlen ls = SLAB_CLASS_COUNT ->
  (forall j l, ls !! j = Some l -> exists sc, slab_classes s !! Z.of_nat j = Some sc /\ class_pages (tm s) sc l) ->
  NoDup (concat ls) -> (forall x, x ∈ concat ls -> is_Some (pages (tm s) !! x)) ->
  exists m', destroy_slabs s = Done (concat ls, m') /\
    (forall x, mapped (os m') x <-> mapped (os (tm s)) x /\ forall pg, pg ∈ concat ls -> ~ (pg <= x < pg + SLAB_PAGE_SIZE)) /\
    (forall pg, pg ∈ concat ls -> pages m' !! pg = None) /\ (forall x, x ∉ concat ls -> pages m' !! x = pages (tm s) !! x).
Proof.
  intros Hst Hl Hc Hd Hp. unfold destroy_slabs. rewrite Hst.
  destruct (release_classes_spec (slab_classes s) ls 0 (tm s)) as (m' & E & [R G P _]); [exact Hc|done|done|].
  replace (length ls) with (Z.to_nat SLAB_CLASS_COUNT) in E by (rewrite <- Hl; unfold zlen; lia).
  exists m'. split; [exact E|]. split; [apply R|]. by split.
Qed.

(** The lists of a class in order are such lists, and its pages are there. *)
Lemma slab_ok_pages sz n m sc P F E out : slab_ok sz n m sc P F E out ->
  class_pages m sc (map fst (all_pages P F E)) /\ NoDup (map fst (all_pages P F E)) /\
  forall x, x ∈ map fst (all_pages P F E) -> is_Some (pages m !! x).
Proof.
  intros H. split; [|split; [apply H|]].
  - exists (map fst P), (map fst F), (map fst E). unfold all_pages. rewrite !map_app. split; [done|]. split_and!; apply H.
  - intros x ([pg Fr] & -> & Hin)%list_elem_of_fmap. destruct (pg_header _ _ _ _ _ (so_pages _ _ _ _ _ _ _ _ H _ _ Hin)) as (p & Hp & _). by exists p.
Qed.

End Slabs.

(** ** A concrete tier *)

(** Twelve classes, one of them with a page a slot of which is in use. *)
Definition demo_classes : @slab_tier bump := @st_class bump (@slab_init bump (ss_mem demo_one) default_classes (Percpu None 0)) 1 (ss_mem demo_one) (ss_class demo_one).

Definition demo_lists : list (list Z) := [] :: [327680] :: replicate 10 [].

Lemma slabs_released_witness :
  exists m', @destroy_slabs bump demo_classes = Done ([327680], m') /\ @pages bump m' !! 327680 = None /\
    ~ @mapped bump (@os bump m') 327752 /\ @mapped bump (@os bump (ss_mem demo_one)) 327752.
Proof.
  assert (L : forall j l, demo_lists !! j = Some l -> exists sc, slab_classes demo_classes !! Z.of_nat j = Some sc /\ @class_pages bump (tm demo_classes) sc l).
  { assert (Empty : forall sc, partial_pages sc = NULL -> full_pages sc = NULL -> empty_pages sc = NULL -> @class_pages bump (tm demo_classes) sc []).
    { intros sc E1 E2 E3. exists [], [], []. rewrite E1, E2, E3. split_and!; [done|apply dll_nil..]. }
    assert (One : forall sc, partial_pages sc = 327680 -> full_pages sc = NULL -> empty_pages sc = NULL -> @class_pages bump (tm demo_classes) sc [327680]).
    { intros sc E1 E2 E3. exists [327680], [], []. rewrite E1, E2, E3. split; [done|]. split; [split; [|apply NoDup_singleton]|split; apply dll_nil].
      split; [done|]. split; [unfold NULL; lia|]. split; [vm_compute; reflexivity|]. exists NULL. split; [vm_compute; reflexivity|reflexivity]. }
    intros j l Hj. do 12 (destruct j as [|j];
      [injection Hj as <-; eexists; split; [vm_compute; reflexivity|first [apply Empty; reflexivity|apply One; reflexivity]]|]). discriminate Hj. }
  destruct (@slabs_released bump demo_classes demo_lists eq_refl eq_refl L) as (m' & E & Hm & Hg & _).
  - change (concat demo_lists) with [327680]. apply NoDup_singleton.
  - change (concat demo_lists) with [327680]. intros x ->%list_elem_of_singleton. eexists. vm_compute. reflexivity.
  - change (concat demo_lists) with [327680] in *. exists m'. split; [exact E|]. split; [apply Hg; left|]. split; [|vm_compute; split; reflexivity].
    intros Hx. apply Hm in Hx as [_ Hx]. apply (Hx 327680); [left|unfold SLAB_PAGE_SIZE; lia].
Defined.
