(* ===== verification/DestroyArenas.v ===== *)
(** * The arenas in [mp_destroy]

    The release of the TLSF tier in [mp_destroy] of [src/cmem_lifecycle.c]: the flush of the
    thread cache, the area of the compressed storage, and the arenas.  The slab pages are in
    [DestroySlabs], the per-thread arenas in [Arena], the tree of pools in [PoolTree]. *)
From S2P Require Import Prelude Dll TlsfMap BlockHeap Header Tlsf TlsfPool TlsfCache StaticPool.
From Stdlib Require Import ZArith Lia.
From stdpp Require Import base option list gmap.
Open Scope Z_scope.

(** Giving a region back, with the size it was obtained with and the pool's flags.  The
    system may refuse a region of a pool on huge pages: [munmap] of a huge-page mapping takes
    only whole huge pages ([Backing] has the calls, [huge_release_refused] a refusal). *)
Definition may_stay (huge_page flags : Z) (r : Z * Z) : Prop := has_flag flags MP_FLAG_HUGE_PAGES = true /\ r.2 mod huge_page <> 0.

Class SysFree (S : SysMem) := {
  huge_page : Z;
  sys_mem_free : sys -> Z -> Z -> Z -> sys;
  sys_mem_free_spec : forall o f p n, has_flag f MP_FLAG_STATIC_BUFFER = false -> (p, n) ∈ regions o ->
    (forall r, r ∈ regions (sys_mem_free o f p n) <-> r ∈ regions o /\ r <> (p, n)) \/
    (may_stay huge_page f (p, n) /\ forall r, r ∈ regions (sys_mem_free o f p n) <-> r ∈ regions o);
}.

Section Arenas.
Context `{S : SysMem} `{F : !SysFree S}.
Context (sizeof_tlsf_pool : Z).

(** [while (tcurr)]. *)
Fixpoint release_arenas (f : Z) (ps : list tlsf_pool) (h : heap) (o : sys) : heap * sys :=
  match ps with
  | [] => (h, o)
  | tp :: ps =>
      let n := u64 (raw_size tp + sizeof_tlsf_pool) in
      release_arenas f ps (erase h (tp_addr tp) n) (sys_mem_free o f (tp_addr tp) n)
  end.

(** A descriptor on the pool's registry of per-thread arenas; [ar_raw] is [NULL] once the
    arena's own cleanup has run. *)
Record arena_entry := AEntry { ar_raw : Z; ar_size : Z; ar_finished : bool }.

Definition still_mapped (a : arena_entry) : bool := negb (ar_finished a) && negb (ar_raw a =? NULL).

(** [while (arena != NULL)]: what is still mapped is released, and [total_pool_size]
    lowered; the descriptors themselves go too. *)
Fixpoint tlsf_arena_registry_release (f : Z) (l : list arena_entry) (total : Z) (o : sys) : Z * sys :=
  match l with
  | [] => (total, o)
  | a :: l =>
      if still_mapped a then tlsf_arena_registry_release f l (u64 (total - ar_size a)) (sys_mem_free o f (ar_raw a) (ar_size a))
      else tlsf_arena_registry_release f l total o
  end.

(** The flush, the compressed area ([NULL] when there is none in this tier), and the arenas. *)
Definition destroy_tier (s : tstate) (c : tls_cache) (compressed_area : Z) : outcome (tstate * tls_cache) :=
  r ← tlsf_cache_flush s c;
  let '(s, c) := r in
  r ← (if compressed_area =? NULL then Done (s, c) else medium_free s c (compressed_area - SIZEOF_HEADER));
  let '(s, c) := r in
  if has_flag (flags s) MP_FLAG_STATIC_BUFFER then Done (s, c)
  else
    let '(h, o) := release_arenas (flags s) (tlsf_root s) (theap s) (osys s) in
    Done (TState (flags s) [] h (headers s) (payload s) (tlsf_allocated_bytes s) (total_pool_size s) o, c).

(** Of the regions, those of [gone] are given back, but for what the system refuses to take. *)
Definition given_back (f : Z) (gone : list (Z * Z)) (o o' : sys) : Prop :=
  (forall r, r ∈ regions o' -> r ∈ regions o /\ (r ∈ gone -> may_stay huge_page f r)) /\
  (forall r, r ∈ regions o -> r ∉ gone -> r ∈ regions o').


(** One call for each of them, in order. *)
Fixpoint free_all (f : Z) (rs : list (Z * Z)) (o : sys) : sys :=
  match rs with [] => o | r :: rs => free_all f rs (sys_mem_free o f r.1 r.2) end.

Lemma free_all_spec f rs : has_flag f MP_FLAG_STATIC_BUFFER = false -> forall o,
  NoDup rs -> (forall r, r ∈ rs -> r ∈ regions o) -> given_back f rs o (free_all f rs o).
Proof.
  intros Hf. induction rs as [|[p n] rs IH]; intros o Hd Hin; cbn [free_all]; [split; [intros r Hr; split; [done|intros Hn; by apply not_elem_of_nil in Hn]|done]|].
  apply NoDup_cons in Hd as [Hn Hd]. pose proof (sys_mem_free_spec o f p n Hf (Hin (p, n) (list_elem_of_here _ _))) as Hs. cbn [fst snd].
  set (o1 := sys_mem_free o f p n) in *.
  assert (Hsub : forall r, r ∈ regions o1 -> r ∈ regions o /\ (r = (p, n) -> may_stay huge_page f r)).
  { intros r Hr. destruct Hs as [Hs|[Hst Hs]]; apply Hs in Hr; [tauto|]. split; [done|]. by intros ->. }
  assert (Hsup : forall r, r ∈ regions o -> r <> (p, n) -> r ∈ regions o1) by (intros r Hr Hne; destruct Hs as [Hs|[_ Hs]]; apply Hs; tauto).
  destruct (IH o1 Hd) as [I1 I2].
  { intros r Hr. apply Hsup; [apply Hin; by right|]. by intros ->. }
  split.
  - intros r Hr. destruct (I1 r Hr) as [H1 H2]. destruct (Hsub r H1) as [H3 H4]. split; [done|]. intros [E|Hrs]%elem_of_cons; [by apply H4|by apply H2].
  - intros r Hr Hg. rewrite elem_of_cons in Hg. apply I2; [apply Hsup; tauto|tauto].
Qed.

Context (Hsizeof : 0 < sizeof_tlsf_pool < 2 ^ 32).
#[local] Instance destroy_discipline : Discipline := loose_discipline.

(** The region an arena was cut from. *)
Definition region_of (tp : tlsf_pool) : Z * Z := (tp_addr tp, sizeof_tlsf_pool + raw_size tp).

Lemma release_erased f ps : forall h o x,
  size_and_flags h !! x = None \/ (exists tp, tp ∈ ps /\ tp_addr tp <= x < tp_addr tp + (raw_size tp + sizeof_tlsf_pool) /\ 0 <= raw_size tp < 2 ^ 30) ->
  size_and_flags (fst (release_arenas f ps h o)) !! x = None.
Proof.
  induction ps as [|tp ps IH]; intros h o x Hx; cbn [release_arenas]; [destruct Hx as [Hx|(tp & Hx & _)]; [done|by apply not_elem_of_nil in Hx]|].
  apply IH. destruct Hx as [Hx|(a & [->|Ha]%elem_of_cons & Hr & Hs)].
  - left. by apply keep_outside_mono.
  - left. apply keep_outside_None. rewrite u64_small by lia. lia.
  - right. by exists a.
Qed.




(** A stack whose top block is in memory that is gone. *)
Lemma flush_dangling i b t l todo : forall s c St, Forall class_ok todo -> i ∈ todo -> cache_ok c St -> St i = (b, t) :: l ->
  (forall j, j <> i -> St j = []) -> size_and_flags (theap s) !! b = None -> flush_classes s c todo = Fault.
Proof.
  induction todo as [|j todo IH]; intros s c St Ht Hin Hc Hi Hj Hb; [by apply not_elem_of_nil in Hin|]. cbn [flush_classes].
  apply Forall_cons in Ht as [Hjc Ht]. destruct (decide (j = i)) as [->|Hne].
  - assert (E : flush_class (Datatypes.S (Z.to_nat TLSF_CACHE_MAX_SLOTS)) s c i = Fault); [|by rewrite E]. cbn [flush_class].
    rewrite (ld_Some _ _ _ (ca_top _ _ Hc i Hjc)), Hi. cbn [mbind outcome_bind].
    destruct (Z.eqb_spec (top_of i ((b, t) :: l)) NULL) as [E|_]; [by apply top_of_null in E|].
    destruct (tlsf_unlink_spec c St i b t l Hc Hjc Hi) as (c' & -> & _). cbn [mbind outcome_bind e_block e_tpool]. unfold unpark, ld. by rewrite Hb.
  - assert (E : flush_class (Datatypes.S (Z.to_nat TLSF_CACHE_MAX_SLOTS)) s c j = Done (s, c)).
    { cbn [flush_class]. rewrite (ld_Some _ _ _ (ca_top _ _ Hc j Hjc)), (Hj j Hne). cbn [mbind outcome_bind top_of]. by rewrite Z.eqb_refl. }
    rewrite E. cbn [mbind outcome_bind]. apply (IH s _ St); [done| | |done..].
    + by apply elem_of_cons in Hin as [->|?].
    + destruct Hc as [Hn Hp He]. split; [|exact Hp|exact He]. intros k Hk. cbn. destruct (decide (k = j)) as [->|Hkj].
      * rewrite lookup_insert_eq, (Hj j Hne). by split.
      * rewrite lookup_insert_ne by done. by apply Hn.
Qed.

Lemma cache_classes : Forall class_ok (seqZ 0 TLSF_CACHE_SIZES).
Proof. apply Forall_forall. intros i Hi. apply elem_of_seqZ in Hi. unfold class_ok. lia. Qed.

Lemma same_regions ps ps' : Forall2 same_pool ps ps' -> map region_of ps' = map region_of ps.
Proof. induction 1 as [|a b ps ps' (_ & S2 & S3) _ IH]; [done|]. cbn [map]. rewrite IH. unfold region_of. by rewrite S2, S3. Qed.

(** The first step: flushed, with the same arenas. *)
Lemma flushed s c Ls St : cinv sizeof_tlsf_pool s c Ls St ->
  exists s1 c1 Ls1, tlsf_cache_flush s c = Done (s1, c1) /\ cinv sizeof_tlsf_pool s1 c1 Ls1 no_parked /\ flags s1 = flags s /\ headers s1 = headers s /\
    osys s1 = osys s /\ map region_of (tlsf_root s1) = map region_of (tlsf_root s) /\ arenas_kept (tlsf_root s) (tlsf_root s1) /\
    (forall x n, in_use s1 Ls1 no_parked x n <-> in_use s Ls St x n).
Proof.
  intros I. destruct (cache_flush_run sizeof_tlsf_pool Hsizeof s c Ls St I) as (s1 & c1 & Ls1 & E & I1 & Ef & Eh & K & U). pose proof E as E0.
  unfold tlsf_cache_flush in E0. apply flush_classes_keeps in E0 as [_ Ka _ Ko].
  exists s1, c1, Ls1. split_and!; try done. by apply same_regions.
Qed.




(** With compressed storage, though, the area is released after the flush.  When its block
    is of a size the thread cache takes (an area of less than about 16 KiB), it is parked
    there, its arena is unmapped, and the next flush of the thread (on its next use of another pool, or when it
    exits) faults on it. *)
Theorem area_left_in_cache s c Ls St b t n hd i :
  cinv sizeof_tlsf_pool s c Ls St -> has_flag (flags s) MP_FLAG_STATIC_BUFFER = false ->
  held s Ls b t n -> ~ parked St b -> sound_header s b t ->
  headers s !! (b + SIZEOF_TLSF_BLOCK) = Some hd -> usable_size hd = n - SIZEOF_TLSF_BLOCK - SIZEOF_HEADER -> cache_index n = Done (Some i) ->
  exists s' c', destroy_tier s c (b + SIZEOF_TLSF_BLOCK + SIZEOF_HEADER) = Done (s', c') /\ tlsf_root s' = [] /\
    size_and_flags (theap s') !! b = None /\ tlsf_cache_flush s' c' = Fault.
Proof.
  intros I Hst Hh Hp (hd' & Hhd' & _ & _ & Hr & Hs & _) Hhd Husz Hi. assert (hd' = hd) as -> by congruence. clear Hhd'.
  destruct (held_pos sizeof_tlsf_pool _ _ _ _ _ (ci_tier _ _ _ _ _ I) Hh) as [Hb0 Hn0]. pose proof (held_bound sizeof_tlsf_pool _ _ _ _ _ (ci_tier _ _ _ _ _ I) Hh) as Hn1.
  destruct (cache_index_spec n ltac:(lia)) as (o & Ho & Hio). rewrite Hi in Ho. injection Ho as <-. specialize (Hio i eq_refl).
  destruct (flushed s c Ls St I) as (s1 & c1 & Ls1 & E & I1 & Ef & Eh & _ & _ & K & U).
  assert (Hh1 : held s1 Ls1 b t n).
  { eapply (held_mono sizeof_tlsf_pool); [apply I|apply I1|exact K| |exact Hh]. apply U. split; [by eapply held_live|done]. }
  unfold destroy_tier. rewrite E. cbn [mbind outcome_bind]. rewrite (proj2 (Z.eqb_neq _ NULL)) by (unfold NULL, SIZEOF_TLSF_BLOCK, SIZEOF_HEADER; lia).
  replace (b + SIZEOF_TLSF_BLOCK + SIZEOF_HEADER - SIZEOF_HEADER) with (b + SIZEOF_TLSF_BLOCK) by lia.
  unfold medium_free, ld_header. rewrite Eh, Hhd. cbn [mbind outcome_bind]. rewrite Husz.
  replace (n - SIZEOF_TLSF_BLOCK - SIZEOF_HEADER + SIZEOF_TLSF_BLOCK + SIZEOF_HEADER) with n by lia. rewrite u64_small, Hi by lia. cbn [mbind outcome_bind].
  destruct (ca_count _ _ (ci_cache _ _ _ _ _ I1) i Hio) as [Hc Hz]. rewrite (ld_Some _ _ _ Hc). cbn [mbind outcome_bind].
  rewrite (proj2 (Z.ltb_lt _ _)) by (vm_compute; reflexivity). rewrite Hr, Hs.
  destruct (tlsf_push_spec c1 no_parked i b t (ci_cache _ _ _ _ _ I1) Hio) as (c2 & Ep & Hc2); [vm_compute; reflexivity|].
  rewrite Ep. cbn [mbind outcome_bind]. rewrite Ef, Hst.
  destruct Hh1 as (j & tp & L & Hj & HL & Hbl & _). pose proof (ci_tier _ _ _ _ _ I1) as [A1 O1].
  pose proof (live_range _ _ _ _ _ _ _ _ A1 Hj HL Hbl). destruct (O1 tp ltac:(by eapply list_elem_of_lookup_2)) as (_ & Ra & _).
  destruct (arenas_lookup _ _ _ _ _ A1 Hj) as (L0 & _ & Hok). pose proof (pool_ok_pos _ _ _ Hok).
  pose proof (release_erased (flags s) (tlsf_root s1) (theap s1) (osys s1) b) as He.
  assert (Hgone : size_and_flags (fst (release_arenas (flags s) (tlsf_root s1) (theap s1) (osys s1))) !! b = None).
  { apply He. right. exists tp. split; [by eapply list_elem_of_lookup_2|]. pose proof (po_limit _ _ _ Hok). lia. }
  destruct (release_arenas (flags s) (tlsf_root s1) (theap s1) (osys s1)) as [h o]. cbn [fst] in Hgone.
  eexists _, _. split; [done|]. split; [done|]. split; [exact Hgone|].
  unfold tlsf_cache_flush. eapply (flush_dangling i b t (no_parked i)); [apply cache_classes| |exact Hc2|by rewrite upd_eq| |exact Hgone].
  - apply elem_of_seqZ. unfold class_ok in Hio. lia.
  - intros k Hk. by rewrite upd_ne.
Qed.

Definition entry_region (a : arena_entry) : Z * Z := (ar_raw a, ar_size a).
Definition mapped_entries (l : list arena_entry) : list arena_entry := filter (fun a => still_mapped a = true) l.

Lemma registry_cons a l : mapped_entries (a :: l) = if still_mapped a then a :: mapped_entries l else mapped_entries l.
Proof. unfold mapped_entries. rewrite filter_cons. destruct (still_mapped a); [by rewrite decide_True|by rewrite decide_False]. Qed.

Lemma registry_release_run f l : forall total o,
  tlsf_arena_registry_release f l total o =
    (match mapped_entries l with [] => total | _ => u64 (total - foldr Z.add 0 (map ar_size (mapped_entries l))) end,
     free_all f (map entry_region (mapped_entries l)) o).
Proof.
  induction l as [|a l IH]; intros total o; cbn [tlsf_arena_registry_release]; [done|].
  rewrite registry_cons. destruct (still_mapped a); [|by apply IH]. cbn [map foldr free_all]. rewrite IH. unfold entry_region at 2. cbn [fst snd]. f_equal.
  destruct (mapped_entries l) as [|b l']; [cbn; f_equal; lia|]. rewrite u64_sub_l. f_equal. lia.
Qed.

(** Arenas whose blocks are still out when the pool goes are released with it: one call for
    each region on the registry that its arena has not released itself, with its size, and
    the pool's total is lowered by exactly these. *)
Theorem registry_release_spec f l total o :
  has_flag f MP_FLAG_STATIC_BUFFER = false ->
  NoDup (map entry_region (mapped_entries l)) -> (forall a, a ∈ mapped_entries l -> entry_region a ∈ regions o) ->
  fst (tlsf_arena_registry_release f l total o) = match mapped_entries l with [] => total | _ => u64 (total - foldr Z.add 0 (map ar_size (mapped_entries l))) end /\
  snd (tlsf_arena_registry_release f l total o) = free_all f (map entry_region (mapped_entries l)) o /\
  given_back f (map entry_region (mapped_entries l)) o (snd (tlsf_arena_registry_release f l total o)).
Proof.
  clear Hsizeof. intros Hf Hd Hin. rewrite registry_release_run. split; [done|]. split; [done|]. apply free_all_spec; [done|done|].
  intros r (a & -> & Ha)%list_elem_of_fmap. by apply Hin.
Qed.

End Arenas.

(** ** Concrete teardowns *)

#[local] Existing Instance demo_sys.

(** It refuses what the law lets it refuse. *)
#[local] Instance demo_free : SysFree demo_sys.
Proof.
  refine {| huge_page := 2 ^ 21;
            sys_mem_free (o : @sys demo_sys) f p n :=
              if has_flag f MP_FLAG_HUGE_PAGES && negb (n mod 2 ^ 21 =? 0) then o else filter (fun r : Z * Z => r <> (p, n)) (o : list (Z * Z)) |}.
  intros o f p n _ _. destruct (has_flag f MP_FLAG_HUGE_PAGES && negb (n mod 2 ^ 21 =? 0)) eqn:E.
  - right. apply andb_true_iff in E as [E1 E2%negb_true_iff%Z.eqb_neq]. split; [by split|done].
  - left. intros r. cbn [regions demo_sys]. rewrite list_elem_of_filter. tauto.
Defined.





(** An area of 1000 bytes. *)
Lemma area_left_in_cache_witness :
  exists s' c', destroy_tier 23240 (k_tier demo_one) (k_cache demo_one) 27520 = Done (s', c') /\ tlsf_cache_flush s' c' = Fault.
Proof.
  destruct demo_one_ok as (Ls & St & [I O _ Hh]). destruct (Hh 27336) as (t & n & H1 & H2 & H3).
  { assert (E : bool_decide (27336 ∈ k_own demo_one) = true) by (vm_compute; reflexivity). exact (bool_decide_eq_true_1 _ E). }
  assert (F : has_flag (flags (k_tier demo_one)) MP_FLAG_STATIC_BUFFER = false) by (vm_compute; reflexivity).
  assert (En : n = 1192).
  { destruct (held_word 23240 _ Ls _ t n (ci_tier _ _ _ _ _ I) H1) as [Hm (q & Hw)].
    assert (Ew : size_and_flags (theap (k_tier demo_one)) !! 27336 = Some (mk 1192 false false)) by (vm_compute; reflexivity).
    rewrite Ew in Hw. injection Hw as (En & _)%mk_inj; [by symmetry|done|done]. }
  subst n. pose proof H3 as (hd & Ehd & _).
  assert (Eu : usable_size <$> headers (k_tier demo_one) !! 27368 = Some 1008) by (vm_compute; reflexivity).
  pose proof Ehd as Ehd'. change (27336 + SIZEOF_TLSF_BLOCK) with 27368 in Ehd'. rewrite Ehd' in Eu. injection Eu as Eu.
  assert (Hi : cache_index 1192 = Done (Some 4)) by (vm_compute; reflexivity).
  destruct (area_left_in_cache 23240 ltac:(lia) (k_tier demo_one) (k_cache demo_one) Ls St 27336 t 1192 hd 4 I F H1 H2 H3 Ehd Eu Hi) as (s' & c' & E & _ & _ & Ef).
  exists s', c'. split; [exact E|exact Ef].
Defined.
